(* ===== verification/_CoqProject ===== *)
-Q . S2P
Prelude.v
HostMem.v
RingBuffer.v
FifoQueue.v
Stack.v
NodePool.v
Deque.v
SList.v
DList.v
AvlTree.v
AvlCore.v
AvlRep.v
AvlRot.v
AvlRetrace.v
AvlOps.v
KeySet.v
Tree.v
AvlHash.v
HashTable.v
SpscRing.v
SpscConc.v
SlabStack.v
SlabInv.v
SlabInit.v
SlabClient.v
Bump.v
VmCpu.v
VmDecode.v
VmExec.v
VmSafety.v
VmStep.v
VmLoader.v
VmPlace.v
VmGuests.v
Rv32Spec.v
Rv32Refine.v
Bitset.v
VmMailbox.v
VmEcall.v
VmSched.v
VmSchedInv.v
VmSchedWake.v
VmSchedStep.v
VmSchedLive.v
VmSystem.v
VmSysInit.v
VmSysMem.v
VmSysTime.v
VmSysMsg.v
TrashFs.v
TrashTree.v
TrashFile.v
TrashFree.v
TrashFmt.v
TrashDir.v
TrashSlot.v
TrashPath.v
TrashLink.v
TrashName.v
VmTyped.v
Presched.v
FastDiv.v
AudioPool.v
AudioPoolInv.v
AudioPoolData.v
AudioPoolSpec.v
AudioPoolOps.v
AudioPoolTable.v
L2Alloc.v
L2Heap.v
L2Safe.v
L2Client.v
L2Ecalls.v
SpscQueue.v
ServiceChannel.v
ChannelCall.v
CString.v
Inicfg.v
InicfgSpec.v
InicfgText.v
