(* ===== verification/Prelude.v ===== *)
(** Microgarbage: a verification development.

    Microgarbage runs small RISC-V programs side by side on a microcontroller: an
    RV32IMC interpreter with memory regions, a cooperative scheduler over it, calls
    from guests to the host, mailboxes between guests, and the containers and
    allocators all of this is built on.  This library models that core as it is
    written in C under [src/] and proves what makes it correct.

    * Parts, files and sources

    Foundation.  [Prelude] (this file): machine integers, bit and list lemmas, the
    [zlia] tactic and the [mach] hints.  [HostMem]: host memory, a byte at every
    address, with [memcpy], [memset] and little-endian loads and stores.  Every
    component whose data lives in a buffer of its caller works on that one store,
    so the theorems say which addresses an operation may touch.

    Containers ([src/containers/]).  [RingBuffer], [FifoQueue], [Stack], [SpscRing],
    [Bitset]: the file of that name each.  [SpscRing] gives the push and the pop as
    programs of the accesses of the code, with their memory orders; [SpscConc] runs one
    producer and one consumer concurrently on a release/acquire memory.  [NodePool] (index-linked chains in a
    pool) and [Deque] (the interface of a bounded double-ended queue and its
    abstract specification) carry [SList] and [DList].  The search trees of
    [avl_core.c]: [AvlTree] (trees, contexts, rotations and rebalancing as
    functions, with their height and order lemmas), [AvlCore] (the C code on the
    memory of the pool), [AvlRep] (a pool represents a tree), [AvlRot],
    [AvlRetrace], [AvlOps] (rotations, the two climbs, the operations, each shown
    to do to the pool what the function does to the tree).  [KeySet] states what
    a keyed container of fixed capacity promises; [Tree] ([tree.c]) and [AvlHash]
    ([avlhash.c]) implement it.  [HashTable] ([hashtable.c]) is the chained table
    of strings, over an allocator given as a class with the laws of [malloc].

    Allocators ([src/memory/]).  [SlabStack] (operations of [slab_stack.c]),
    [SlabInv] (layout, invariant, allocate and release), [SlabInit]
    (initialisation, reallocation), [SlabClient] (the allocator as a store of blocks
    with contents, over histories of a client); [Bump] ([bump.c]), on the slab.

    Virtual CPU ([src/vm/vm_core.c]).  [VmCpu] (state, guest memory), [VmDecode]
    (fields, compressed expansion), [VmExec] (instructions and [vm_step]); proofs
    in [VmSafety], [VmStep] and [VmTyped] (every field of a CPU keeps the range of
    its C type under every operation); [Rv32Spec] states the RV32IMC instruction set from
    the manual and [Rv32Refine] relates the two.  [VmLoader] ([vm_loader.c]): ELF
    parsing, placement and relocation.  [VmPlace]: what a load leaves in the arena
    and the region table.  [VmGuests]: several guests over one slab.

    System.  [VmEcall] ([vm_ecall.c], [vm_ecall_handlers.c]); [VmMailbox]
    ([vm_mailbox.c]) over the queue interface of [FifoQueue]; [VmSched]
    ([vm_sched.c]) with its proofs in [VmSchedInv], [VmSchedWake], [VmSchedStep]
    and [VmSchedLive].  [Presched] is the POSIX part of [presched.c], the scheduler
    of the preemptive build: its operations, each run without interruption, and what a
    round of its thread does.  [VmSystem] ([vm_system.c], with the
    scheduler operations of [vm_sched_ops_coop.c]) puts the cooperative parts together: the handlers of the system calls,
    initialisation, loading, unloading, reaping and the step, over one record of
    the whole system.  [VmSysInit] proves what initialisation leaves, [VmSysMem]
    the shared heap, [VmSysTime] the clock calls, [VmSysMsg] the messages.

    Storage ([src/storage/trashfs.c]).  [TrashFs] is the code.  [TrashTree]: the
    bitmap as a set of blocks, pointers as trees of blocks, allocation; [TrashFile]:
    the volume as a table of trees, reading and writing as operations on the bytes
    of a file; [TrashFree]: giving blocks back; [TrashFmt]: formatting, mounting and
    the well-formed volume.  [TrashDir]: directories as lists of slots and as finite
    maps, and the relation [kept] that says what a step leaves alone; [TrashSlot]:
    finding, filling and clearing slots; [TrashPath]: the name space and the
    resolution of paths; [TrashLink]: names added and removed; [TrashName]: the
    operations from a path to the volume.

    Cartridge allocator ([src/mgapi/l2_*.c]).  [L2Alloc] is [l2_alloc.c] and
    [l2_init.c], with its record and block headers in host memory; [L2Heap] lists
    the blocks of the arena, [L2Safe] shows that each operation keeps the list,
    [L2Client] relates a client's script to the set of its live blocks, [L2Ecalls]
    is the access of guests ([l2_ecalls.c]).

    Sound ([src/audio/audio_pool.c]).  [AudioPool] is the code: reference-counted
    objects of chained blocks, named by handles with generations.  [AudioPoolInv]
    is its invariant, [AudioPoolData] the copying into and out of chains,
    [AudioPoolSpec] the pool with the code's arithmetic on values and [AudioPoolOps]
    the simulation by it; [AudioPoolTable] is the table of objects of the header and the
    refinement of it under the client's contract.

    Arithmetic ([src/math/fast_div.c]).  [FastDiv]: division by a prepared divisor
    at 16, 32 and 64 bits.

    Service channel ([src/vm/service_channel.c]).  [SpscQueue]: the ring of
    [SpscRing] as a bounded queue; [ServiceChannel] is the code, [ChannelCall] the
    theory of calls, against every behaviour of the provider.

    Configuration ([src/util/inicfg.c]).  [CString]: strings in memory; [Inicfg] is
    the parser on its arena and the look-ups, [InicfgSpec] the format and the proof
    that the parser follows it, [InicfgText] the theorems, printing included.

    The parts meet as in the code: the scheduler steps CPUs through [vm_step] and
    hands their calls to the router, whose handlers change CPUs through the class
    [CpuStore]; the mailbox is proved against the class [ByteFifo] that the queue
    implements; the lists implement [Deque]; the arena takes its region from the
    slab.

    * Conventions

    A pointer is its address and [NULL] is 0; a structure passed by pointer is a
    value passed in and returned, except where several parts share it (CPUs in the
    scheduler's [World], everything in [mem]).  Integers are [Z] with the C wrap
    written out ([u8] .. [u64], [s8] .. [s32]); [size_t] has 64 bits.  The null
    checks on handles have no counterpart.  The locker callbacks bracket
    operations and are left out.  Unaligned access is as [memcpy].

    * What the theorems show

    Isolation: a quantum of [vm_step] writes only writable region bytes of its own
    CPU and depends on nothing outside its regions.  Conformance: decoding,
    expansion and execution are the instruction set's, traps are precise, quanta
    add up.  Loading: every refusal leaves the arena as it was, a load sets up the
    regions its headers ask for and takes blocks no other guest holds, and over any
    history of loads, quanta, host calls and unloads the guests' memories stay
    apart (an arena, an image and a shared area are assumed to be a block header
    apart from each other).  Scheduling: the invariant of the ready and blocked sets under every
    call, wake-ups exactly when a wait is over (also across the 32-bit clock's
    wrap), round-robin without starvation, quanta and debt, and that a scheduling
    decision returns.  Allocation: live blocks never overlap over any history,
    each operation's effect on the live set, failure exactly when a class is
    empty; arenas, marks and their slab life cycle.  Containers: each refines an
    abstract sequence, set or map over arbitrary client scripts; searches in a
    balanced tree make a logarithmic number of comparisons and iteration meets the
    elements in order; the string table leaks nothing; the two-thread ring delivers
    a prefix and never races.  Calls and messages: the router is a finite
    map, installation is all-or-nothing, mailboxes are filtered bounded queues.
    System: initialisation builds the state that the invariants ask for, the shared
    heap keeps the blocks of guests apart and gives them back, sleeps end on time,
    and messages between guests arrive in the order in which they were sent.
    Storage: a formatted volume mounts and a mounted one remounts to the same
    handle; a write changes the bytes it names and no other byte of any file, and
    is read back; and opening, creating, unlinking, making, removing and listing
    directories implement operations on a finite map of finite maps, keep every
    block in one tree and every inode under one name, and report their errors
    exactly, as far as the path ends in a name.
    Preemption: what a round of the scheduler thread does to the tasks, and that tasks
    of the highest priority take turns, when no call falls inside a round; two examples
    carry out by hand what a tick or a wake inside [presched_block] does.  The
    cartridge allocator refines a set
    of disjoint blocks, to the host and through guest addresses, and serves the first
    block that is large enough; the audio pool refines a table from handles to contents,
    where a stale handle reaches nothing;
    a prepared division is the division.
    Channel: a call returns, with the response to its own request and a number no other
    waiting call has; every other response goes to the callback, if there is one, in
    order.  Configuration: the parser and the
    look-ups implement the format, report the first line that breaks it, and read
    back what was printed, numbers included.

    * What the theorems ask for

    A theorem names the conditions under which its reader may use it; where the code
    does not check one, an [Example] or lemma shows what happens without it.  The
    allocators: requests that the 32-bit size arithmetic does not wrap
    ([SlabClient.request_ok], [L2Client]; [size_class_truncates], [l2_wrap_breaks_heap]).
    The loader: segments linked at the base of their regions, for the sentence about
    linked addresses ([segment_offset_dropped]).  The scheduler: callbacks made of the
    interface's own calls and of writes that keep CPUs well-formed
    ([VmSchedStep.host_ok]), and no CPU registered twice ([registered_twice]).  Clocks:
    sleeps and time-outs below 2^31 ticks whose deadline is not 0 ([long_sleep_is_none],
    [recv_timeout_lost]).  Storage: an inode hint that fits ([TrashFmt.hint_fits],
    [hint_refused]), a handle with the file's size ([stale_handle_truncates]), a path that
    ends in a name ([TrashPath.ends_in_name], [open_root_refused]).  The audio pool: a
    client that drops the references it holds ([AudioPoolTable.keeps_contract]).  The
    string table: a size hint of at most 2^58 ([pow2_loop_diverges]).  The preemptive
    scheduler: whole operations ([double_grant], [lost_wakeup]).

    * Fuel

    [vm_loop] runs on the quantum, which bounds its rounds in the code.  The
    [for (;;)] of [vm_sched_step] takes a fuel and returns [None] without enough;
    [sched_step_returns] gives a fuel that always suffices.  The search of
    [slist_pop_back] takes the capacity, shown to be enough by [slist_refines].
    The loops of [avl_core.c] take the capacity plus one, which bounds every path
    of a tree in the pool: [tree_refines] and [avlhash_refines] say that the
    operations return.  [next_pow2] takes 64, which decides it
    ([next_pow2_spec], [pow2_loop_diverges]).
    Loops over 64 slots, bitmap words or pool nodes are structural on their count.
    The loops of [trashfs_read] and [trashfs_write] take the length asked for, a
    scan of a directory takes its size; the theorems of [TrashFmt] and [TrashName]
    say that they return.  First fit in the cartridge allocator takes the number of
    free blocks plus one, a walk of an audio chain the number of blocks plus one, a
    copy the number of bytes plus one: the refinements say that these suffice.
    The configuration parser takes more than the length of its text; a call over
    the service channel takes more than the responses that are waiting or will
    come and the wake-ups there will be, which the theorem assumes finite.

    * Not modelled

    Operating-system and device code: the host services of [vm_host_*], the
    creation, joining and timer of threads, audio sinks, video presentation, the
    cartridge layer of [mgapi/] apart from its allocator, and the assembly, tools
    and examples.  Floating-point and rasterising code ([ik/], [video/]) and the
    accuracy of the CORDIC rotations.  The trash drive, which copies volume images
    to files of the host.  The Windows variant of the preemptive scheduler, which
    repeats its logic, and the preemptive seam of the VM system.  Within reach of
    the same methods and not modelled: the stream arbiter and its calls, and the
    audio arbiter and mixer.  [inicfg_parse_file], which reads a file and calls the
    parser.  Of the system's
    life cycle, loading, unloading and reaping are defined and initialisation is
    proved; of the others there is no theorem of their own. *)
From Stdlib Require Export ZArith Lia.
From stdpp Require Export base tactics functions option decidable relations numbers list list_numbers.

Global Open Scope Z_scope.

(** ** Machine integers *)

(** Unsigned and signed reinterpretation of an integer at the widths the C
    code uses.  [uN z] is the value of [(uintN_t)z]; [sN z] is the value of
    [(intN_t)z] on the two's-complement targets the code is built for. *)
Definition u8 (z : Z) : Z := z mod 0x100.
Definition u16 (z : Z) : Z := z mod 0x10000.
Definition u32 (z : Z) : Z := z mod 0x100000000.
Definition u64 (z : Z) : Z := z mod 0x10000000000000000.

Definition s8 (z : Z) : Z := (z + 0x80) mod 0x100 - 0x80.
Definition s16 (z : Z) : Z := (z + 0x8000) mod 0x10000 - 0x8000.
Definition s32 (z : Z) : Z := (z + 0x80000000) mod 0x100000000 - 0x80000000.

(** Bitwise complement of a [uint32_t] and of a [uint64_t]. *)
Definition not32 (z : Z) : Z := Z.lxor z 0xFFFFFFFF.
Definition not64 (z : Z) : Z := Z.lxor z 0xFFFFFFFFFFFFFFFF.

Definition is_u8 (z : Z) : Prop := 0 <= z < 0x100.
Definition is_u16 (z : Z) : Prop := 0 <= z < 0x10000.
Definition is_u32 (z : Z) : Prop := 0 <= z < 0x100000000.
Definition is_u64 (z : Z) : Prop := 0 <= z < 0x10000000000000000.

(** [zlia] is [lia] after the division and modulo equations, with the machine
    integers unfolded. *)
Ltac umach := unfold u8, u16, u32, u64, s8, s16, s32,
  is_u8, is_u16, is_u32, is_u64 in *.
Ltac zlia := umach; Z.to_euclidean_division_equations; lia.
Ltac znia := umach; Z.to_euclidean_division_equations; nia.

(** Split conjunctive hypotheses and goals. *)
Ltac split_ands := repeat match goal with
  | H : _ /\ _ |- _ => destruct H
  | |- _ /\ _ => split
  end.

Lemma is_u8_range z : is_u8 (u8 z). Proof. zlia. Qed.
Lemma is_u16_range z : is_u16 (u16 z). Proof. zlia. Qed.
Lemma is_u32_range z : is_u32 (u32 z). Proof. zlia. Qed.
Lemma is_u64_range z : is_u64 (u64 z). Proof. zlia. Qed.

Lemma u16_small z : is_u16 z -> u16 z = z. Proof. zlia. Qed.
Lemma u32_small z : is_u32 z -> u32 z = z. Proof. zlia. Qed.
Lemma u64_small z : is_u64 z -> u64 z = z. Proof. zlia. Qed.
Lemma u32_u32 z : u32 (u32 z) = u32 z. Proof. zlia. Qed.
Lemma u32_add_l a b : u32 (u32 a + b) = u32 (a + b). Proof. zlia. Qed.
Lemma u32_add_r a b : u32 (a + u32 b) = u32 (a + b). Proof. zlia. Qed.
Lemma u32_sub a b : u32 (u32 a - u32 b) = u32 (a - b).
Proof. symmetry. apply Zminus_mod. Qed.
Lemma u32_s32 z : u32 (s32 z) = u32 z. Proof. zlia. Qed.
Lemma s32_range z : -0x80000000 <= s32 z < 0x80000000. Proof. zlia. Qed.
Lemma s32_u32 z : s32 (u32 z) = s32 z. Proof. zlia. Qed.

Create HintDb mach discriminated.
Create Rewrite HintDb mach.
#[export] Hint Resolve is_u8_range is_u16_range is_u32_range is_u64_range
  u32_small u64_small : mach.
#[export] Hint Rewrite u32_u32 u32_add_l u32_add_r u32_s32 s32_u32 : mach.

(** ** Bitwise operations on non-negative integers, arithmetically *)

Lemma land_pow2_ones a n : 0 <= n -> Z.land a (2 ^ n - 1) = a mod 2 ^ n.
Proof. intros. by rewrite <-Z.land_ones, Z.ones_equiv, Z.sub_1_r by lia. Qed.

Lemma lor_disjoint_add a b n :
  0 <= n -> a mod 2 ^ n = 0 -> 0 <= b < 2 ^ n -> Z.lor a b = a + b.
Proof.
  intros Hn Ha Hb. rewrite Z.add_nocarry_lor; [done|].
  apply Z.bits_inj'. intros i Hi. rewrite Z.land_spec, Z.bits_0.
  destruct (decide (i < n)) as [Hlt|Hge].
  - replace (Z.testbit a i) with false; [done|].
    rewrite <-(Z.mod_pow2_bits_low a n i), Ha by lia. by rewrite Z.bits_0.
  - replace (Z.testbit b i) with false; [by destruct (Z.testbit a i)|].
    rewrite <-(Z.mod_small b (2 ^ n)) by lia.
    by rewrite Z.mod_pow2_bits_high by lia.
Qed.

(** ** Sequences of natural numbers and list lookups *)

Lemma list_eq_nth {A} (d : A) (l1 l2 : list A) :
  length l1 = length l2 ->
  (forall i, (i < length l1)%nat -> nth i l1 d = nth i l2 d) -> l1 = l2.
Proof. intros. by eapply nth_ext. Qed.

Lemma nth_map_seq {A} (f : nat -> A) n i d :
  (i < n)%nat -> nth i (map f (seq 0 n)) d = f i.
Proof.
  intros. rewrite (nth_indep _ d (f 0%nat)) by (rewrite length_map, length_seq; lia).
  by rewrite (map_nth f), seq_nth by lia.
Qed.

Lemma map_seq_ext {A} (f g : nat -> A) n :
  (forall i, (i < n)%nat -> f i = g i) -> map f (seq 0 n) = map g (seq 0 n).
Proof. intros H. apply map_ext_in. intros i Hi%in_seq. apply H. lia. Qed.

Lemma filter_all {A} (P : A -> Prop) `{forall x, Decision (P x)} (l : list A) :
  Forall P l -> filter P l = l.
Proof. induction 1 as [|x l Hx _ IH]; [done|]. rewrite filter_cons, decide_True by done. by f_equal. Qed.

Lemma filter_none {A} (P : A -> Prop) `{forall x, Decision (P x)} (l : list A) :
  Forall (fun x => ~ P x) l -> filter P l = [].
Proof. induction 1 as [|x l Hx _ IH]; [done|]. by rewrite filter_cons, decide_False by done. Qed.

(** ** Arithmetic modulo a capacity *)

(** One conditional subtraction computes the modulus of a sum of two indices. *)
Lemma mod_wrap x cap : 0 <= x < 2 * cap -> x mod cap = if x <? cap then x else x - cap.
Proof.
  intros H. destruct (Z.ltb_spec x cap).
  - apply Z.mod_small. lia.
  - symmetry. apply (Z.mod_unique_pos x cap 1); lia.
Qed.

Lemma mod_wrap_inj cap a i j :
  0 <= a < cap -> 0 <= i < cap -> 0 <= j < cap ->
  (a + i) mod cap = (a + j) mod cap -> i = j.
Proof.
  intros ???. rewrite !mod_wrap by lia.
  destruct (Z.ltb_spec (a + i) cap), (Z.ltb_spec (a + j) cap); lia.
Qed.

(** ** Masks and logarithms *)

(** Masking a [uint32_t] with its bits from [k] upwards. *)
Lemma land_high_mask x k :
  0 <= k <= 32 -> is_u32 x -> Z.land x (0x100000000 - 2 ^ k) = x / 2 ^ k * 2 ^ k.
Proof.
  intros Hk Hx. rewrite <-Z.shiftr_div_pow2, <-Z.shiftl_mul_pow2 by lia.
  replace (0x100000000 - 2 ^ k) with (Z.shiftl (Z.ones (32 - k)) k).
  2: { rewrite Z.shiftl_mul_pow2, Z.ones_equiv by lia.
       assert (0x100000000 = 2 ^ (32 - k) * 2 ^ k) as ->
         by (rewrite <-Z.pow_add_r by lia; by replace (32 - k + k) with 32 by lia).
       unfold Z.pred. ring. }
  apply Z.bits_inj'. intros i Hi.
  rewrite Z.land_spec, !Z.shiftl_spec by lia.
  destruct (Z.ltb_spec i k) as [Hlt|Hge].
  - rewrite !(Z.testbit_neg_r _ (i - k)) by lia. by rewrite andb_false_r.
  - rewrite Z.shiftr_spec by lia. replace (i - k + k) with i by lia.
    destruct (Z.ltb_spec i 32).
    + by rewrite Z.ones_spec_low, andb_true_r by lia.
    + rewrite Z.ones_spec_high by lia. rewrite andb_false_r. symmetry.
      rewrite <-(Z.mod_small x (2 ^ 32)) by (umach; lia). by apply Z.mod_pow2_bits_high.
Qed.

Lemma land_high_mask_zero x k :
  0 <= k <= 32 -> is_u32 x -> (Z.land x (0x100000000 - 2 ^ k) =? 0) = (x <? 2 ^ k).
Proof.
  intros Hk Hx. rewrite land_high_mask by done.
  assert (0 < 2 ^ k) by (apply Z.pow_pos_nonneg; lia).
  umach. destruct (Z.ltb_spec x (2 ^ k)).
  - by rewrite Z.div_small by lia.
  - assert (1 <= x / 2 ^ k) by (apply Z.div_le_lower_bound; lia).
    apply Z.eqb_neq. nia.
Qed.

(** Testing one bit through a mask. *)
Lemma land_bit_zero x i :
  0 <= i -> (Z.land x (Z.shiftl 1 i) =? 0) = negb (Z.testbit x i).
Proof.
  intros Hi. destruct (Z.testbit x i) eqn:Hb; simpl.
  - apply Z.eqb_neq. intros H0.
    assert (Z.testbit (Z.land x (Z.shiftl 1 i)) i = true) as Ht.
    { rewrite Z.land_spec, Hb, Z.shiftl_spec by lia. by rewrite Z.sub_diag. }
    by rewrite H0, Z.bits_0 in Ht.
  - apply Z.eqb_eq. apply Z.bits_inj'. intros j Hj. rewrite Z.bits_0, Z.land_spec.
    rewrite Z.shiftl_1_l, Z.pow2_bits_eqb by lia.
    destruct (Z.eqb_spec i j) as [->|]; [by rewrite Hb|apply andb_false_r].
Qed.

Lemma testbit_set x i j :
  0 <= i -> 0 <= j -> Z.testbit (Z.lor x (Z.shiftl 1 i)) j = Z.testbit x j || (i =? j).
Proof.
  intros. by rewrite Z.lor_spec, Z.shiftl_1_l, Z.pow2_bits_eqb by lia.
Qed.

Lemma testbit_clear32 x i j :
  0 <= i -> 0 <= j < 32 ->
  Z.testbit (Z.land x (not32 (Z.shiftl 1 i))) j = Z.testbit x j && negb (i =? j).
Proof.
  intros. unfold not32. rewrite Z.land_spec, Z.lxor_spec, Z.shiftl_1_l, Z.pow2_bits_eqb by lia.
  change 0xFFFFFFFF with (Z.ones 32). rewrite Z.ones_spec_low by lia.
  by rewrite xorb_true_r.
Qed.

Lemma testbit_clear64 x i j :
  0 <= i -> 0 <= j < 64 ->
  Z.testbit (Z.land x (not64 (Z.shiftl 1 i))) j = Z.testbit x j && negb (j =? i).
Proof.
  intros. unfold not64. rewrite Z.land_spec, Z.lxor_spec, Z.shiftl_1_l, Z.pow2_bits_eqb by lia.
  change 0xFFFFFFFFFFFFFFFF with (Z.ones 64). rewrite Z.ones_spec_low by lia.
  by rewrite xorb_true_r, Z.eqb_sym.
Qed.

(** A non-negative integer is below [2 ^ n] when it has no bit from [n] on. *)
Lemma range_bits n b j : 0 <= b < 2 ^ n -> n <= j -> 0 <= n -> Z.testbit b j = false.
Proof.
  intros Hb Hj Hn. rewrite <-(Z.mod_small b (2 ^ n)) by done. apply Z.mod_pow2_bits_high. lia.
Qed.

Lemma bits_range n b :
  0 <= n -> 0 <= b -> (forall j, n <= j -> Z.testbit b j = false) -> 0 <= b < 2 ^ n.
Proof.
  intros Hn H0 Hj. assert (b = b mod 2 ^ n) as ->.
  { apply Z.bits_inj'. intros j Hj0. destruct (Z.ltb_spec j n).
    - by rewrite Z.mod_pow2_bits_low by lia.
    - rewrite Z.mod_pow2_bits_high by lia. by apply Hj. }
  apply Z.mod_pos_bound. apply Z.pow_pos_nonneg; lia.
Qed.

Lemma log2_shift x s : 0 < x -> 0 <= s -> Z.log2 (x * 2 ^ s) = Z.log2 x + s.
Proof. intros. by rewrite Z.log2_mul_pow2, Z.add_comm. Qed.

(** ** Bits of 32-bit integers *)

Lemma testbit_mod32 x y i :
  0 <= i < 32 -> x mod 0x100000000 = y mod 0x100000000 -> Z.testbit x i = Z.testbit y i.
Proof.
  intros Hi H. rewrite <-(Z.mod_pow2_bits_low x 32 i), <-(Z.mod_pow2_bits_low y 32 i) by lia.
  change (2 ^ 32) with 0x100000000. by rewrite H.
Qed.

Lemma testbit_s32 z i : 0 <= i < 32 -> Z.testbit (s32 z) i = Z.testbit z i.
Proof. intros. apply testbit_mod32; [done|]. zlia. Qed.
Lemma testbit_u32 z i : 0 <= i < 32 -> Z.testbit (u32 z) i = Z.testbit z i.
Proof. intros. apply testbit_mod32; [done|]. zlia. Qed.

Lemma even_bit z : z mod 2 = 0 <-> Z.testbit z 0 = false.
Proof. rewrite Z.bit0_odd, Zmod_odd. by destruct (Z.odd z). Qed.

Lemma is_u32_bits z : is_u32 z <-> 0 <= z /\ (forall i, 32 <= i -> Z.testbit z i = false).
Proof.
  split.
  - intros H. split; [umach; lia|]. intros i Hi.
    rewrite <-(Z.mod_small z (2 ^ 32)) by (umach; lia). apply Z.mod_pow2_bits_high. lia.
  - intros [H0 Hb]. assert (z mod 2 ^ 32 = z) as E.
    { apply Z.bits_inj'. intros i Hi. destruct (Z.ltb_spec i 32).
      - by rewrite Z.mod_pow2_bits_low.
      - rewrite Z.mod_pow2_bits_high by lia. symmetry. apply Hb. lia. }
    rewrite <-E. unfold is_u32. change 0x100000000 with (2 ^ 32). by apply Z.mod_pos_bound.
Qed.

Lemma u32_land a b : is_u32 a -> 0 <= b -> is_u32 (Z.land a b).
Proof.
  intros [Ha Hb]%is_u32_bits H0. apply is_u32_bits. split; [by apply Z.land_nonneg; left|].
  intros i Hi. by rewrite Z.land_spec, Hb.
Qed.
Lemma u32_lor a b : is_u32 a -> is_u32 b -> is_u32 (Z.lor a b).
Proof.
  intros [Ha Hb]%is_u32_bits [Hc Hd]%is_u32_bits. apply is_u32_bits.
  split; [by apply Z.lor_nonneg|]. intros i Hi. by rewrite Z.lor_spec, Hb, Hd.
Qed.
Lemma u32_lxor a b : is_u32 a -> is_u32 b -> is_u32 (Z.lxor a b).
Proof.
  intros [Ha Hb]%is_u32_bits [Hc Hd]%is_u32_bits. apply is_u32_bits.
  split; [by apply Z.lxor_nonneg|]. intros i Hi. by rewrite Z.lxor_spec, Hb, Hd.
Qed.
Lemma u32_shiftr a n : is_u32 a -> 0 <= n -> is_u32 (Z.shiftr a n).
Proof.
  intros [Ha Hb]%is_u32_bits Hn. apply is_u32_bits. split; [by apply Z.shiftr_nonneg|].
  intros i Hi. rewrite Z.shiftr_spec by lia. apply Hb. lia.
Qed.
Lemma not32_u32 a : is_u32 a -> is_u32 (not32 a).
Proof. intros. apply u32_lxor; [done|]. unfold is_u32. lia. Qed.
#[export] Hint Resolve u32_lor u32_lxor u32_shiftr not32_u32 : mach.

(** ** Tuples *)

Lemma quad_eta {A B C D} (x : A * B * C * D) : x = (x.1.1.1, x.1.1.2, x.1.2, x.2).
Proof. by destruct x as [[[? ?] ?] ?]. Qed.
