(* ===== verification/HostMem.v ===== *)
(** Host memory: a byte at every host address, and the C operations the code
    performs on it ([memcpy], [memset], little-endian loads and stores).  Every
    component whose data lives in a caller-provided buffer (the containers, the
    allocators, the guest memory regions) is modelled over this one store, so
    that aliasing between buffers is visible to the theorems. *)
From S2P Require Import Prelude.

(** ** The store *)

(** The byte stored at each host address. *)
Definition mem : Type := Z -> Z.

(** Every cell holds a [uint8_t]. *)
Definition mem_ok (m : mem) : Prop := forall x, is_u8 (m x).

(** [n] bytes at address [a]. *)
Definition mem_read (m : mem) (a n : Z) : list Z :=
  map (fun i => m (a + Z.of_nat i)) (seq 0 (Z.to_nat n)).

(** Write the bytes [bs] at address [a]. *)
Definition mem_write (m : mem) (a : Z) (bs : list Z) : mem := fun x =>
  if (a <=? x) && (x <? a + Z.of_nat (length bs))
  then nth (Z.to_nat (x - a)) bs 0 else m x.

(** [memcpy(dst, src, n)]. *)
Definition memcpy (m : mem) (dst src n : Z) : mem :=
  mem_write m dst (mem_read m src n).

(** [memset(dst, v, n)]. *)
Definition memset (m : mem) (dst v n : Z) : mem :=
  mem_write m dst (replicate (Z.to_nat n) (u8 v)).

(** Little-endian value of a byte string, and the [n] bytes of a value. *)
Fixpoint le_val (bs : list Z) : Z :=
  match bs with
  | [] => 0
  | b :: bs' => b + 0x100 * le_val bs'
  end.

Fixpoint le_bytes (n : nat) (v : Z) : list Z :=
  match n with
  | O => []
  | S n' => u8 v :: le_bytes n' (v / 0x100)
  end.

Definition load16 (m : mem) (a : Z) : Z := le_val (mem_read m a 2).
Definition load32 (m : mem) (a : Z) : Z := le_val (mem_read m a 4).
Definition load64 (m : mem) (a : Z) : Z := le_val (mem_read m a 8).
Definition store16 (m : mem) (a v : Z) : mem := mem_write m a (le_bytes 2 v).
Definition store32 (m : mem) (a v : Z) : mem := mem_write m a (le_bytes 4 v).
Definition store64 (m : mem) (a v : Z) : mem := mem_write m a (le_bytes 8 v).

(** ** Address ranges and agreement of stores *)

(** [x] is one of the [n] addresses from [a]. *)
Definition rng (a n x : Z) : Prop := a <= x < a + n.

(** The ranges [a, a+n) and [b, b+k) share no address. *)
Definition rdisj (a n b k : Z) : Prop := a + n <= b \/ b + k <= a.

(** The stores hold the same bytes at every address of [P]. *)
Definition mem_agree (P : Z -> Prop) (m m' : mem) : Prop :=
  forall x, P x -> m x = m' x.

(** [m'] differs from [m] only inside [a, a+n). *)
Definition mem_frame (a n : Z) (m m' : mem) : Prop :=
  mem_agree (fun x => ~ rng a n x) m m'.

#[export] Instance mem_agree_equiv P : Equivalence (mem_agree P).
Proof.
  split.
  - by intros m x.
  - intros m m' H x Hx. by rewrite H.
  - intros m1 m2 m3 H12 H23 x Hx. by rewrite H12, H23.
Qed.

#[export] Instance mem_frame_equiv a n : Equivalence (mem_frame a n).
Proof. unfold mem_frame. apply _. Qed.

#[export] Instance rng_dec a n x : Decision (rng a n x).
Proof. unfold rng. apply _. Defined.

Lemma mem_agree_mono (P Q : Z -> Prop) m m' :
  (forall x, P x -> Q x) -> mem_agree Q m m' -> mem_agree P m m'.
Proof. intros HPQ H x Hx. auto. Qed.

Lemma mem_frame_mono a n b k m m' :
  b <= a -> a + n <= b + k -> mem_frame a n m m' -> mem_frame b k m m'.
Proof. intros ??. apply mem_agree_mono. unfold rng. lia. Qed.

(** ** Reads *)

Lemma mem_read_length m a n : length (mem_read m a n) = Z.to_nat n.
Proof. unfold mem_read. by rewrite length_map, length_seq. Qed.

Lemma mem_read_nth m a n i d :
  (i < Z.to_nat n)%nat -> nth i (mem_read m a n) d = m (a + Z.of_nat i).
Proof. intros. unfold mem_read. by rewrite nth_map_seq. Qed.

Lemma mem_read_agree m m' a n :
  mem_agree (rng a n) m m' -> mem_read m a n = mem_read m' a n.
Proof.
  intros H. apply map_seq_ext. intros i Hi. apply H. unfold rng. lia.
Qed.

Lemma mem_read_Forall m a n : mem_ok m -> Forall is_u8 (mem_read m a n).
Proof.
  intros H. apply List.Forall_map, List.Forall_forall. intros i _. apply H.
Qed.

(** ** Writes *)

Lemma mem_write_in m a bs x :
  rng a (Z.of_nat (length bs)) x -> mem_write m a bs x = nth (Z.to_nat (x - a)) bs 0.
Proof.
  unfold rng, mem_write. intros H.
  destruct (Z.leb_spec a x), (Z.ltb_spec x (a + Z.of_nat (length bs))); simpl; lia || done.
Qed.

Lemma mem_write_out m a bs x :
  ~ rng a (Z.of_nat (length bs)) x -> mem_write m a bs x = m x.
Proof.
  unfold rng, mem_write. intros H.
  destruct (Z.leb_spec a x), (Z.ltb_spec x (a + Z.of_nat (length bs))); simpl; lia || done.
Qed.

Lemma mem_write_frame m a bs n :
  Z.of_nat (length bs) <= n -> mem_frame a n m (mem_write m a bs).
Proof. intros ? x Hx. rewrite mem_write_out; [done|]. unfold rng in *. lia. Qed.

Lemma mem_write_ok m a bs : mem_ok m -> Forall is_u8 bs -> mem_ok (mem_write m a bs).
Proof.
  intros Hm Hbs x. destruct (decide (rng a (Z.of_nat (length bs)) x)) as [Hr|Hr].
  - rewrite mem_write_in by done. rewrite Forall_nth in Hbs. apply Hbs.
    unfold rng in Hr. lia.
  - by rewrite mem_write_out.
Qed.

Lemma mem_write_agree P m m' a bs :
  mem_agree P m m' -> mem_agree P (mem_write m a bs) (mem_write m' a bs).
Proof.
  intros H x Hx. unfold mem_write. case_match; [done|]. by apply H.
Qed.

Lemma mem_read_write_eq m a bs n :
  n = Z.of_nat (length bs) -> mem_read (mem_write m a bs) a n = bs.
Proof.
  intros ->. apply (list_eq_nth 0); rewrite mem_read_length; [lia|].
  intros i Hi. rewrite mem_read_nth, mem_write_in by (unfold rng; lia).
  f_equal. lia.
Qed.

Lemma mem_read_write_disj m a bs b k :
  rdisj a (Z.of_nat (length bs)) b k -> mem_read (mem_write m a bs) b k = mem_read m b k.
Proof.
  intros Hd. apply mem_read_agree. intros x Hx. apply mem_write_out.
  unfold rng, rdisj in *. lia.
Qed.

Lemma mem_read_frame m m' a n b k :
  mem_frame a n m m' -> rdisj a n b k -> mem_read m' b k = mem_read m b k.
Proof.
  intros H Hd. symmetry. apply mem_read_agree. intros x Hx. apply H.
  unfold rng, rdisj in *. lia.
Qed.

Lemma memcpy_frame m dst src n :
  0 <= n -> mem_frame dst n m (memcpy m dst src n).
Proof. intros. apply mem_write_frame. rewrite mem_read_length. lia. Qed.

Lemma memcpy_read m dst src n :
  0 <= n -> mem_read (memcpy m dst src n) dst n = mem_read m src n.
Proof. intros. apply mem_read_write_eq. rewrite mem_read_length. lia. Qed.

Lemma memcpy_ok m dst src n : mem_ok m -> mem_ok (memcpy m dst src n).
Proof. intros. apply mem_write_ok; [done|]. by apply mem_read_Forall. Qed.

Lemma memset_frame m dst v n : 0 <= n -> mem_frame dst n m (memset m dst v n).
Proof. intros. apply mem_write_frame. rewrite length_replicate. lia. Qed.

Lemma memset_read m dst v n : 0 <= n -> mem_read (memset m dst v n) dst n = replicate (Z.to_nat n) (u8 v).
Proof. intros. apply mem_read_write_eq. rewrite length_replicate. lia. Qed.

Lemma memset_ok m dst v n : mem_ok m -> mem_ok (memset m dst v n).
Proof. intros. apply mem_write_ok; [done|]. apply Forall_replicate. auto with mach. Qed.

(** Reading one byte more. *)
Lemma mem_read_S m a n :
  0 <= n -> mem_read m a (n + 1) = mem_read m a n ++ [m (a + n)].
Proof.
  intros. unfold mem_read. rewrite Z2Nat.inj_add, Nat.add_1_r, seq_S, map_app by lia.
  simpl. by rewrite Z2Nat.id by lia.
Qed.

Lemma mem_read_app m a n k :
  0 <= n -> 0 <= k -> mem_read m a (n + k) = mem_read m a n ++ mem_read m (a + n) k.
Proof.
  intros. apply (list_eq_nth 0); rewrite ?length_app, !mem_read_length; [lia|].
  intros i Hi. rewrite mem_read_nth by lia.
  destruct (decide (i < Z.to_nat n)%nat).
  - rewrite app_nth1 by (rewrite mem_read_length; lia). by rewrite mem_read_nth.
  - rewrite app_nth2 by (rewrite mem_read_length; lia). rewrite mem_read_length.
    rewrite mem_read_nth by lia. f_equal. lia.
Qed.

Lemma mem_read_take m a n k :
  0 <= k <= n -> take (Z.to_nat k) (mem_read m a n) = mem_read m a k.
Proof.
  intros. replace n with (k + (n - k)) by lia. rewrite mem_read_app by lia.
  rewrite take_app_le by (rewrite mem_read_length; lia).
  apply take_ge. rewrite mem_read_length. lia.
Qed.

Lemma mem_write_one m a b : mem_write m a [b] a = b.
Proof. rewrite mem_write_in by (unfold rng; simpl; lia). by rewrite Z.sub_diag. Qed.

(** Appending one byte at the end of what was read. *)
Lemma mem_read_write_snoc m a n b :
  0 <= n -> mem_read (mem_write m (a + n) [b]) a (n + 1) = mem_read m a n ++ [b].
Proof.
  intros. rewrite mem_read_S, mem_write_one by lia. f_equal.
  apply mem_read_write_disj. unfold rdisj. simpl. lia.
Qed.

(** ** Little-endian encodings *)

Lemma le_bytes_length n v : length (le_bytes n v) = n.
Proof. revert v. induction n; intros; simpl; auto. Qed.

Lemma le_bytes_Forall n v : Forall is_u8 (le_bytes n v).
Proof.
  revert v. induction n; intros v; simpl; constructor; auto with mach.
Qed.

Lemma le_val_bytes n v : le_val (le_bytes n v) = v mod 0x100 ^ Z.of_nat n.
Proof.
  revert v. induction n as [|n IH]; intros v; cbn [le_bytes le_val].
  - by rewrite Z.mod_1_r.
  - rewrite IH, Nat2Z.inj_succ, Z.pow_succ_r by lia.
    rewrite Z.rem_mul_r by (try apply Z.pow_nonzero; lia). unfold u8. lia.
Qed.

Lemma le_val_range bs :
  Forall is_u8 bs -> 0 <= le_val bs < 0x100 ^ Z.of_nat (length bs).
Proof.
  induction 1 as [|b bs Hb _ IH]; [simpl; lia|].
  cbn [le_val length]. rewrite Nat2Z.inj_succ, Z.pow_succ_r by lia.
  unfold is_u8 in Hb. lia.
Qed.

Lemma load16_range m a : mem_ok m -> is_u16 (load16 m a).
Proof. intros H. by apply (le_val_range (mem_read m a 2)), mem_read_Forall. Qed.
Lemma load32_range m a : mem_ok m -> is_u32 (load32 m a).
Proof. intros H. by apply (le_val_range (mem_read m a 4)), mem_read_Forall. Qed.

Lemma load16_agree m m' a : mem_agree (rng a 2) m m' -> load16 m a = load16 m' a.
Proof. intros. unfold load16. by erewrite mem_read_agree. Qed.
Lemma load32_agree m m' a : mem_agree (rng a 4) m m' -> load32 m a = load32 m' a.
Proof. intros. unfold load32. by erewrite mem_read_agree. Qed.
Lemma load64_agree m m' a : mem_agree (rng a 8) m m' -> load64 m a = load64 m' a.
Proof. intros. unfold load64. by erewrite mem_read_agree. Qed.

Lemma load32_store32_eq m a v : load32 (store32 m a v) a = u32 v.
Proof. unfold load32, store32. by rewrite mem_read_write_eq, le_val_bytes. Qed.
Lemma load64_store64_eq m a v : load64 (store64 m a v) a = u64 v.
Proof. unfold load64, store64. by rewrite mem_read_write_eq, le_val_bytes. Qed.
Lemma load16_store16_eq m a v : load16 (store16 m a v) a = u16 v.
Proof. unfold load16, store16. by rewrite mem_read_write_eq, le_val_bytes. Qed.

Lemma store16_frame m a v : mem_frame a 2 m (store16 m a v).
Proof. by apply mem_write_frame. Qed.
Lemma store32_frame m a v : mem_frame a 4 m (store32 m a v).
Proof. by apply mem_write_frame. Qed.
Lemma store64_frame m a v : mem_frame a 8 m (store64 m a v).
Proof. by apply mem_write_frame. Qed.

Lemma load32_frame m m' a n b :
  mem_frame a n m m' -> rdisj a n b 4 -> load32 m' b = load32 m b.
Proof. intros. unfold load32. by erewrite mem_read_frame. Qed.
Lemma load64_frame m m' a n b :
  mem_frame a n m m' -> rdisj a n b 8 -> load64 m' b = load64 m b.
Proof. intros. unfold load64. by erewrite mem_read_frame. Qed.

Lemma load32_store32_disj m a v b :
  rdisj a 4 b 4 -> load32 (store32 m a v) b = load32 m b.
Proof. intros. eapply load32_frame; [apply store32_frame|done]. Qed.

Lemma store32_ok m a v : mem_ok m -> mem_ok (store32 m a v).
Proof. intros. apply mem_write_ok; [done|]. apply le_bytes_Forall. Qed.

Create HintDb hostmem discriminated.
#[export] Hint Resolve memcpy_ok store32_ok mem_write_ok le_bytes_Forall
  mem_read_Forall load16_range load32_range : hostmem.

(** ** Arrays of fixed-size slots

    A caller-provided buffer is used as an array of [esz]-byte slots; slot [i]
    starts at [base + i * esz]. *)
Definition slot (base esz i : Z) : Z := base + i * esz.

Lemma slot_disj base esz i j :
  0 <= esz -> i <> j -> rdisj (slot base esz i) esz (slot base esz j) esz.
Proof.
  intros He Hij. unfold rdisj, slot.
  destruct (Z.lt_total i j) as [?|[?|?]]; [left; nia|done|right; nia].
Qed.

Lemma slot_inside base esz cap i :
  0 <= esz -> 0 <= i < cap ->
  base <= slot base esz i /\ slot base esz i + esz <= base + cap * esz.
Proof. unfold slot. nia. Qed.

(** Copying an element into slot [i]: that slot holds the element, the other
    slots and everything outside the array are untouched. *)
Lemma memcpy_slot_read m base esz i j src :
  0 <= esz ->
  mem_read (memcpy m (slot base esz i) src esz) (slot base esz j) esz =
  if decide (i = j) then mem_read m src esz else mem_read m (slot base esz j) esz.
Proof.
  intros He. case_decide as Hij.
  - subst. by apply memcpy_read.
  - eapply mem_read_frame; [by apply memcpy_frame|by apply slot_disj].
Qed.

Lemma memcpy_slot_frame m base esz cap i src :
  0 <= esz -> 0 <= i < cap ->
  mem_frame base (cap * esz) m (memcpy m (slot base esz i) src esz).
Proof.
  intros He Hi. pose proof (slot_inside base esz cap i He Hi).
  eapply mem_frame_mono; [| |by apply memcpy_frame]; lia.
Qed.
