(* ===== verification/RingBuffer.v ===== *)
(** Ring buffer ([src/containers/ring_buffer.c]): a fixed-capacity circular
    buffer over caller-provided storage that overwrites its oldest element when
    pushed while full.  The storage is a range of host memory; the abstraction
    function [rb_contents] reads the elements back, oldest first. *)
From S2P Require Import Prelude HostMem.

Record RingBuffer := mkRingBuffer {
  rb_storage : Z;
  rb_capacity : Z;
  rb_element_size : Z;
  rb_head : Z;
  rb_tail : Z;
  rb_cnt : Z
}.

(** Address of slot [slot] of the storage buffer. *)
Definition slot_at (rb : RingBuffer) (s : Z) : Z :=
  slot (rb_storage rb) (rb_element_size rb) s.

Definition rb_init (storage capacity element_size : Z) : RingBuffer :=
  {| rb_storage := storage; rb_capacity := capacity;
     rb_element_size := element_size;
     rb_head := 0; rb_tail := 0; rb_cnt := 0 |}.

Definition rb_reset (rb : RingBuffer) : RingBuffer :=
  {| rb_storage := rb_storage rb; rb_capacity := rb_capacity rb;
     rb_element_size := rb_element_size rb;
     rb_head := 0; rb_tail := 0; rb_cnt := 0 |}.

Definition rb_push (m : mem) (rb : RingBuffer) (element : Z) : mem * RingBuffer :=
  let m := memcpy m (slot_at rb (rb_head rb)) element (rb_element_size rb) in
  let head := u64 (rb_head rb + 1) mod rb_capacity rb in
  if rb_cnt rb =? rb_capacity rb then
    (m, {| rb_storage := rb_storage rb; rb_capacity := rb_capacity rb;
           rb_element_size := rb_element_size rb; rb_head := head;
           rb_tail := u64 (rb_tail rb + 1) mod rb_capacity rb;
           rb_cnt := rb_cnt rb |})
  else
    (m, {| rb_storage := rb_storage rb; rb_capacity := rb_capacity rb;
           rb_element_size := rb_element_size rb; rb_head := head;
           rb_tail := rb_tail rb;
           rb_cnt := u64 (rb_cnt rb + 1) |}).

Definition rb_pop (m : mem) (rb : RingBuffer) (out : Z) : mem * RingBuffer * bool :=
  if rb_cnt rb =? 0 then (m, rb, false) else
  let m := memcpy m out (slot_at rb (rb_tail rb)) (rb_element_size rb) in
  (m, {| rb_storage := rb_storage rb; rb_capacity := rb_capacity rb;
         rb_element_size := rb_element_size rb; rb_head := rb_head rb;
         rb_tail := u64 (rb_tail rb + 1) mod rb_capacity rb;
         rb_cnt := rb_cnt rb - 1 |}, true).

Definition rb_peek (m : mem) (rb : RingBuffer) (out : Z) : mem * bool :=
  if rb_cnt rb =? 0 then (m, false) else
  (memcpy m out (slot_at rb (rb_tail rb)) (rb_element_size rb), true).

Definition rb_peek_at (m : mem) (rb : RingBuffer) (offset out : Z) : mem * bool :=
  if rb_cnt rb <=? offset then (m, false) else
  let s := u64 (rb_tail rb + offset) mod rb_capacity rb in
  (memcpy m out (slot_at rb s) (rb_element_size rb), true).

Definition rb_count (rb : RingBuffer) : Z := rb_cnt rb.
Definition rb_empty (rb : RingBuffer) : bool := rb_cnt rb =? 0.
Definition rb_full (rb : RingBuffer) : bool := rb_cnt rb =? rb_capacity rb.

(** ** Invariant and abstraction *)

(** The indices are in range and [head] trails [tail] by [count] slots; the
    storage is small enough that index sums fit [size_t]. *)
Record rb_wf (rb : RingBuffer) : Prop := {
  rb_wf_cap : 0 < rb_capacity rb <= 0x8000000000000000;
  rb_wf_esz : 0 <= rb_element_size rb;
  rb_wf_tail : 0 <= rb_tail rb < rb_capacity rb;
  rb_wf_cnt : 0 <= rb_cnt rb <= rb_capacity rb;
  rb_wf_head : rb_head rb = (rb_tail rb + rb_cnt rb) mod rb_capacity rb
}.

(** The addresses of the storage buffer. *)
Definition rb_storage_bytes (rb : RingBuffer) : Z := rb_capacity rb * rb_element_size rb.

(** The element [i] places from the front. *)
Definition rb_elem (m : mem) (rb : RingBuffer) (i : Z) : list Z :=
  mem_read m (slot_at rb ((rb_tail rb + i) mod rb_capacity rb)) (rb_element_size rb).

(** The queued elements, oldest first. *)
Definition rb_contents (m : mem) (rb : RingBuffer) : list (list Z) :=
  map (fun i => rb_elem m rb (Z.of_nat i)) (seq 0 (Z.to_nat (rb_cnt rb))).

Lemma rb_contents_length m rb : length (rb_contents m rb) = Z.to_nat (rb_cnt rb).
Proof. unfold rb_contents. by rewrite length_map, length_seq. Qed.

Lemma rb_contents_nth m rb i :
  0 <= i < rb_cnt rb -> nth (Z.to_nat i) (rb_contents m rb) [] = rb_elem m rb i.
Proof. intros. unfold rb_contents. rewrite nth_map_seq by lia. by rewrite Z2Nat.id by lia. Qed.

(** Writes outside the storage leave the contents alone. *)
Lemma rb_contents_agree m m' rb :
  rb_wf rb -> mem_agree (rng (rb_storage rb) (rb_storage_bytes rb)) m m' ->
  rb_contents m' rb = rb_contents m rb.
Proof.
  intros [] H. apply map_seq_ext. intros i Hi. symmetry. apply mem_read_agree.
  assert (0 <= (rb_tail rb + Z.of_nat i) mod rb_capacity rb < rb_capacity rb)
    by (apply Z.mod_pos_bound; lia).
  pose proof (slot_inside (rb_storage rb) (rb_element_size rb) (rb_capacity rb) _
    rb_wf_esz0 H0).
  eapply mem_agree_mono; [|exact H]. unfold rng, rb_storage_bytes, slot_at. lia.
Qed.

(** The three index steps of the code, with the capacity bound discharging the
    [size_t] wrap-around. *)
Lemma rb_next_index rb i :
  rb_wf rb -> 0 <= i < rb_capacity rb ->
  u64 (i + 1) mod rb_capacity rb = (i + 1) mod rb_capacity rb.
Proof. intros [] ?. rewrite u64_small; [done|]. umach. lia. Qed.

Lemma rb_init_wf storage capacity esz :
  0 < capacity <= 0x8000000000000000 -> 0 <= esz ->
  rb_wf (rb_init storage capacity esz) /\
  forall m, rb_contents m (rb_init storage capacity esz) = [].
Proof.
  intros. split; [|done]. constructor; simpl; try lia. by rewrite Z.mod_small by lia.
Qed.

Lemma rb_reset_wf rb :
  rb_wf rb -> rb_wf (rb_reset rb) /\ forall m, rb_contents m (rb_reset rb) = [].
Proof.
  intros []. split; [|done]. constructor; simpl; try lia. by rewrite Z.mod_small by lia.
Qed.

(** A slot written at [head] is the slot [count] places from the front. *)
Lemma rb_push_elem m rb e i :
  rb_wf rb -> 0 <= i < rb_capacity rb ->
  rb_elem (memcpy m (slot_at rb (rb_head rb)) e (rb_element_size rb)) rb i =
  if decide (i = rb_cnt rb mod rb_capacity rb) then mem_read m e (rb_element_size rb)
  else rb_elem m rb i.
Proof.
  intros [] Hi. unfold rb_elem, slot_at. rewrite memcpy_slot_read by lia.
  rewrite rb_wf_head0.
  rewrite <-(Z.add_mod_idemp_r _ (rb_cnt rb)) by lia.
  pose proof (Z.mod_pos_bound (rb_cnt rb) (rb_capacity rb)).
  destruct (decide (i = _)) as [->|Hne].
  - by rewrite decide_True.
  - rewrite decide_False; [done|]. intros Heq%mod_wrap_inj; lia.
Qed.

(** Advancing [tail] by one renumbers the elements. *)
Lemma rb_elem_shift m rb rb' i :
  rb_wf rb -> 0 <= i ->
  rb_storage rb' = rb_storage rb -> rb_element_size rb' = rb_element_size rb ->
  rb_capacity rb' = rb_capacity rb ->
  rb_tail rb' = (rb_tail rb + 1) mod rb_capacity rb ->
  rb_elem m rb' i = rb_elem m rb (i + 1).
Proof.
  intros [] Hi Hs He Hc Ht. unfold rb_elem, slot_at. rewrite Hs, He, Hc, Ht.
  rewrite Z.add_mod_idemp_l, <-Z.add_assoc, (Z.add_comm 1) by lia. done.
Qed.

Lemma rb_head_range rb : rb_wf rb -> 0 <= rb_head rb < rb_capacity rb.
Proof. intros []. rewrite rb_wf_head0. apply Z.mod_pos_bound. lia. Qed.

Lemma rb_contents_S m rb n :
  rb_cnt rb = Z.of_nat (S n) ->
  rb_contents m rb =
  map (fun i => rb_elem m rb (Z.of_nat i)) (seq 0 n) ++ [rb_elem m rb (Z.of_nat n)].
Proof.
  intros Hn. unfold rb_contents. rewrite Hn, Nat2Z.id, seq_S, map_app. done.
Qed.

Lemma rb_contents_tail m rb n :
  rb_cnt rb = Z.of_nat (S n) ->
  rb_contents m rb =
  rb_elem m rb 0 :: map (fun i => rb_elem m rb (Z.of_nat i + 1)) (seq 0 n).
Proof.
  intros Hn. unfold rb_contents. rewrite Hn, Nat2Z.id. simpl. f_equal.
  rewrite <-seq_shift, map_map. apply map_seq_ext. intros i _. f_equal. lia.
Qed.

(** [rb_push] on every branch: the new element is the newest; when the ring is
    full the oldest is dropped; nothing outside the storage is written. *)
Lemma rb_push_correct m rb element :
  rb_wf rb ->
  let '(m', rb') := rb_push m rb element in
  rb_wf rb' /\
  rb_storage rb' = rb_storage rb /\ rb_capacity rb' = rb_capacity rb /\
  rb_element_size rb' = rb_element_size rb /\
  rb_contents m' rb' =
    (if rb_full rb then drop 1 (rb_contents m rb) else rb_contents m rb)
    ++ [mem_read m element (rb_element_size rb)] /\
  mem_frame (rb_storage rb) (rb_storage_bytes rb) m m'.
Proof.
  intros Hwf. pose proof Hwf as []. pose proof (rb_head_range rb Hwf).
  unfold rb_push, rb_full. rewrite !rb_next_index by done.
  assert (Hfr : mem_frame (rb_storage rb) (rb_storage_bytes rb) m
    (memcpy m (slot_at rb (rb_head rb)) element (rb_element_size rb)))
    by (by apply memcpy_slot_frame).
  pose proof (rb_push_elem m rb element) as Hel.
  destruct (Z.eqb_spec (rb_cnt rb) (rb_capacity rb)) as [Hfull|Hfree].
  - split_and!; try done.
    + constructor; simpl; try lia; [apply Z.mod_pos_bound; lia|].
      rewrite rb_wf_head0, !Z.add_mod_idemp_l by lia. f_equal. lia.
    + destruct (Z.to_nat (rb_cnt rb)) as [|n] eqn:Hn; [lia|].
      rewrite (rb_contents_tail m rb n), (rb_contents_S _ _ n) by (simpl; lia).
      simpl drop. f_equal; [apply map_seq_ext; intros i ?|f_equal];
        erewrite (rb_elem_shift _ rb) by (done || lia).
      * rewrite Hel by (done || lia). rewrite decide_False; [done|].
        rewrite Hfull, Z.mod_same by lia. lia.
      * replace (Z.of_nat n + 1) with (rb_capacity rb) by lia.
        transitivity (rb_elem (memcpy m (slot_at rb (rb_head rb)) element
          (rb_element_size rb)) rb 0).
        { unfold rb_elem. rewrite <-(Z.add_mod_idemp_r _ (rb_capacity rb)), Z.mod_same by lia.
          done. }
        rewrite Hel, decide_True by (done || lia || by rewrite Hfull, Z.mod_same by lia). done.
  - rewrite u64_small by (umach; lia). split_and!; try done.
    + constructor; simpl; try lia.
      rewrite rb_wf_head0, Z.add_mod_idemp_l by lia. f_equal. lia.
    + erewrite (rb_contents_S _ _ (Z.to_nat (rb_cnt rb))) by (simpl; lia).
      f_equal; [apply map_seq_ext; intros i ?|f_equal];
        change (rb_elem ?m' (mkRingBuffer _ _ _ _ _ _) ?j) with (rb_elem m' rb j).
      * rewrite Hel by (done || lia). rewrite decide_False; [done|].
        rewrite Z.mod_small by lia. lia.
      * rewrite Hel, decide_True by (done || lia || (rewrite Z.mod_small; lia)). done.
Qed.

(** [rb_pop] returns the oldest element in [out] and removes it. *)
Lemma rb_pop_correct m rb out :
  rb_wf rb ->
  rdisj out (rb_element_size rb) (rb_storage rb) (rb_storage_bytes rb) ->
  let '(m', rb', ok) := rb_pop m rb out in
  rb_wf rb' /\
  rb_storage rb' = rb_storage rb /\ rb_capacity rb' = rb_capacity rb /\
  rb_element_size rb' = rb_element_size rb /\
  mem_frame out (rb_element_size rb) m m' /\
  match rb_contents m rb with
  | [] => ok = false /\ m' = m /\ rb' = rb
  | x :: q => ok = true /\ mem_read m' out (rb_element_size rb) = x /\
      rb_contents m' rb' = q
  end.
Proof.
  intros Hwf Hd. pose proof Hwf as []. unfold rb_pop.
  destruct (Z.eqb_spec (rb_cnt rb) 0) as [H0|H0].
  - split_and!; try done. unfold rb_contents. by rewrite H0.
  - rewrite rb_next_index by done.
    destruct (Z.to_nat (rb_cnt rb)) as [|n] eqn:Hn; [lia|].
    rewrite (rb_contents_tail m rb n) by lia.
    assert (Hwf' : rb_wf (mkRingBuffer (rb_storage rb) (rb_capacity rb)
      (rb_element_size rb) (rb_head rb) ((rb_tail rb + 1) mod rb_capacity rb)
      (rb_cnt rb - 1))).
    { constructor; simpl; try lia; [apply Z.mod_pos_bound; lia|].
      rewrite rb_wf_head0, Z.add_mod_idemp_l by lia. f_equal. lia. }
    split_and!; try done.
    + by apply memcpy_frame.
    + rewrite memcpy_read by done. unfold rb_elem.
      by rewrite Z.add_0_r, Z.mod_small by lia.
    + rewrite rb_contents_agree with (m := m); [|done|].
      * unfold rb_contents. simpl. replace (Z.to_nat (rb_cnt rb - 1)) with n by lia.
        apply map_seq_ext. intros i ?. by rewrite (rb_elem_shift _ rb) by (done || lia).
      * intros x Hx. eapply memcpy_frame; [exact rb_wf_esz0|].
        unfold rng, rdisj, rb_storage_bytes in *. simpl in *. lia.
Qed.

(** [rb_peek_at] reads the element [offset] places from the front and
    [rb_peek] is [rb_peek_at] at offset 0. *)
Lemma rb_peek_at_correct m rb offset out :
  rb_wf rb -> 0 <= offset ->
  let '(m', ok) := rb_peek_at m rb offset out in
  match nth_error (rb_contents m rb) (Z.to_nat offset) with
  | None => ok = false /\ m' = m
  | Some x => ok = true /\ mem_read m' out (rb_element_size rb) = x
  end /\ mem_frame out (rb_element_size rb) m m'.
Proof.
  intros Hwf Hoff. pose proof Hwf as []. unfold rb_peek_at.
  destruct (Z.leb_spec (rb_cnt rb) offset).
  - rewrite (proj2 (nth_error_None _ _)); [done|]. rewrite rb_contents_length. lia.
  - rewrite (nth_error_nth' _ []) by (rewrite rb_contents_length; lia).
    rewrite rb_contents_nth by lia. split_and!; [done| |by apply memcpy_frame].
    rewrite memcpy_read, u64_small by (umach; lia). done.
Qed.

Lemma rb_peek_as_peek_at m rb out :
  rb_wf rb -> rb_peek m rb out = rb_peek_at m rb 0 out.
Proof.
  intros []. unfold rb_peek, rb_peek_at.
  destruct (Z.eqb_spec (rb_cnt rb) 0), (Z.leb_spec (rb_cnt rb) 0); try done; try lia.
  rewrite Z.add_0_r, u64_small, Z.mod_small by (umach; lia). done.
Qed.

(** ** Sequences of pushes *)

(** Push the elements at the addresses [es], in order. *)
Fixpoint rb_push_all (m : mem) (rb : RingBuffer) (es : list Z) : mem * RingBuffer :=
  match es with
  | [] => (m, rb)
  | e :: es' => let '(m', rb') := rb_push m rb e in rb_push_all m' rb' es'
  end.

(** The last [n] elements of a list. *)
Definition lastn {A} (n : nat) (l : list A) : list A := drop (length l - n) l.

Lemma lastn_snoc {A} n (l : list A) x :
  (0 < n)%nat -> (length l <= n)%nat ->
  lastn n (l ++ [x]) = (if decide (length l = n) then drop 1 l else l) ++ [x].
Proof.
  intros Hn Hl. unfold lastn. rewrite length_app. simpl. case_decide.
  - replace (length l + 1 - n)%nat with 1%nat by lia. by rewrite drop_app_le by lia.
  - replace (length l + 1 - n)%nat with 0%nat by lia. by rewrite drop_0.
Qed.

Lemma lastn_app_lastn {A} n (l k : list A) :
  lastn n (lastn n l ++ k) = lastn n (l ++ k).
Proof.
  unfold lastn. rewrite !length_app, length_drop.
  destruct (decide (length l <= n)%nat).
  - replace (length l - n)%nat with 0%nat by lia. rewrite drop_0. f_equal. lia.
  - rewrite <-(drop_app_le l k) by lia. rewrite drop_drop. f_equal. lia.
Qed.

Lemma rb_push_all_correct m rb es :
  rb_wf rb ->
  Forall (fun e => rdisj e (rb_element_size rb) (rb_storage rb) (rb_storage_bytes rb)) es ->
  let '(m', rb') := rb_push_all m rb es in
  rb_wf rb' /\
  rb_contents m' rb' =
    lastn (Z.to_nat (rb_capacity rb))
      (rb_contents m rb ++ map (fun e => mem_read m e (rb_element_size rb)) es) /\
  mem_frame (rb_storage rb) (rb_storage_bytes rb) m m'.
Proof.
  intros Hwf Hes. revert m rb Hwf Hes. induction es as [|e es IH]; intros m rb Hwf Hes.
  - simpl. split_and!; [done| |done]. pose proof Hwf as []. rewrite app_nil_r. unfold lastn.
    rewrite rb_contents_length. by replace (_ - _)%nat with 0%nat by lia.
  - apply Forall_cons in Hes as [He Hes]. simpl.
    pose proof (rb_push_correct m rb e Hwf) as Hp.
    destruct (rb_push m rb e) as [m1 rb1]. destruct Hp as (Hwf1 & Hs & Hc & Hz & Hq & Hf).
    assert (rb_storage_bytes rb1 = rb_storage_bytes rb) as Hb
      by (unfold rb_storage_bytes; congruence).
    specialize (IH m1 rb1 Hwf1). rewrite Hs, Hz, Hb, Hc in IH. specialize (IH Hes).
    destruct (rb_push_all m1 rb1 es) as [m2 rb2]. destruct IH as (? & -> & Hf2).
    split_and!; [done| |by etransitivity].
    pose proof Hwf as [].
    replace (map (fun e => mem_read m1 e (rb_element_size rb)) es)
      with (map (fun e => mem_read m e (rb_element_size rb)) es).
    2: { apply map_ext_in. intros e' He'. symmetry. eapply mem_read_frame; [done|].
         pose proof (proj1 (List.Forall_forall _ _) Hes _ He') as Hd; simpl in Hd.
         unfold rdisj in *. lia. }
    assert (rb_contents m1 rb1 = lastn (Z.to_nat (rb_capacity rb))
      (rb_contents m rb ++ [mem_read m e (rb_element_size rb)])) as ->.
    { rewrite Hq, lastn_snoc by (rewrite ?rb_contents_length; lia).
      rewrite rb_contents_length. unfold rb_full.
      destruct (Z.eqb_spec (rb_cnt rb) (rb_capacity rb)); case_decide; done || lia. }
    by rewrite lastn_app_lastn, <-app_assoc.
Qed.

(** Overwrite-oldest semantics.  Pushing any sequence of elements into a
    freshly initialised ring of any capacity leaves exactly the newest
    [capacity] of them in the ring, oldest first, and writes no byte outside
    the caller's storage buffer. *)
Theorem rb_keeps_newest m storage capacity element_size es :
  0 < capacity <= 0x8000000000000000 -> 0 <= element_size ->
  Forall (fun e => rdisj e element_size storage (capacity * element_size)) es ->
  let '(m', rb') := rb_push_all m (rb_init storage capacity element_size) es in
  rb_contents m' rb' =
    lastn (Z.to_nat capacity) (map (fun e => mem_read m e element_size) es) /\
  mem_frame storage (capacity * element_size) m m'.
Proof.
  intros Hc He Hes. destruct (rb_init_wf storage capacity element_size Hc He) as [Hwf Hq].
  pose proof (rb_push_all_correct m _ es Hwf Hes) as H.
  destruct (rb_push_all _ _ es). rewrite Hq in H. tauto.
Qed.

(** Three one-byte pushes into a ring of two. *)
Lemma rb_keeps_newest_witness :
  let '(m', rb') := rb_push_all (fun x => x) (rb_init 100 2 1) [7; 8; 9] in
  rb_contents m' rb' = [[8]; [9]] /\ mem_frame 100 2 (fun x => x) m'.
Proof.
  apply (rb_keeps_newest (fun x => x) 100 2 1 [7; 8; 9]); [lia|lia|].
  repeat constructor; unfold rdisj; lia.
Defined.
