(* ===== verification/FifoQueue.v ===== *)
(** Bounded FIFO queue ([src/containers/fifo_queue.c]): a ring buffer that
    refuses a push when full.  The file also states, as a type class, what the
    queue promises to its clients (the VM mailbox), and discharges it. *)
From S2P Require Import Prelude HostMem RingBuffer.

(** ** The interface: a bounded queue of byte blocks in host memory *)

Class ByteFifo (Q : Type) := {
  bf_init : Z -> Z -> Z -> Q;
  bf_reset : Q -> Q;
  bf_push : mem -> Q -> Z -> mem * Q * bool;
  bf_pop : mem -> Q -> Z -> mem * Q * bool;
  bf_peek : mem -> Q -> Z -> mem * bool;
  bf_count : Q -> Z;
  bf_empty : Q -> bool;
  bf_full : Q -> bool;
  (** Storage address, capacity in blocks, bytes per block. *)
  bf_base : Q -> Z;
  bf_capacity : Q -> Z;
  bf_block : Q -> Z;
  bf_inv : Q -> Prop;
  bf_items : mem -> Q -> list (list Z)
}.

Section interface.
Context {Q : Type} `{ByteFifo Q}.

(** The bytes the queue owns. *)
Definition bf_bytes (q : Q) : Z := bf_capacity q * bf_block q.

(** Two states of one queue. *)
Definition bf_same (q q' : Q) : Prop :=
  bf_base q' = bf_base q /\ bf_capacity q' = bf_capacity q /\
  bf_block q' = bf_block q.
End interface.

(** What the operations promise. *)
Class ByteFifoLaws (Q : Type) `{ByteFifo Q} : Prop := {
  bf_init_law storage capacity block :
    0 < capacity <= 0x8000000000000000 -> 0 <= block ->
    let q := bf_init storage capacity block in
    bf_inv q /\ bf_base q = storage /\ bf_capacity q = capacity /\
    bf_block q = block /\ forall m, bf_items m q = [];
  bf_reset_law q :
    bf_inv q ->
    bf_inv (bf_reset q) /\ bf_same q (bf_reset q) /\
    forall m, bf_items m (bf_reset q) = [];
  bf_push_law m q element :
    bf_inv q ->
    let '(m', q', ok) := bf_push m q element in
    bf_inv q' /\ bf_same q q' /\ mem_frame (bf_base q) (bf_bytes q) m m' /\
    if Z.of_nat (length (bf_items m q)) =? bf_capacity q
    then ok = false /\ m' = m /\ q' = q
    else ok = true /\
         bf_items m' q' = bf_items m q ++ [mem_read m element (bf_block q)];
  bf_pop_law m q out :
    bf_inv q -> rdisj out (bf_block q) (bf_base q) (bf_bytes q) ->
    let '(m', q', ok) := bf_pop m q out in
    bf_inv q' /\ bf_same q q' /\ mem_frame out (bf_block q) m m' /\
    match bf_items m q with
    | [] => ok = false /\ m' = m /\ q' = q
    | x :: rest => ok = true /\ mem_read m' out (bf_block q) = x /\
                   bf_items m' q' = rest
    end;
  bf_peek_law m q out :
    bf_inv q ->
    let '(m', ok) := bf_peek m q out in
    mem_frame out (bf_block q) m m' /\
    match bf_items m q with
    | [] => ok = false /\ m' = m
    | x :: _ => ok = true /\ mem_read m' out (bf_block q) = x
    end;
  bf_items_agree m m' q :
    bf_inv q -> mem_agree (rng (bf_base q) (bf_bytes q)) m m' ->
    bf_items m' q = bf_items m q;
  bf_items_length m q :
    bf_inv q -> Z.of_nat (length (bf_items m q)) <= bf_capacity q;
  bf_inv_block q : bf_inv q -> 0 <= bf_block q;
  bf_queries_law m q :
    bf_inv q ->
    bf_count q = Z.of_nat (length (bf_items m q)) /\
    bf_empty q = bool_decide (bf_items m q = []) /\
    bf_full q = (Z.of_nat (length (bf_items m q)) =? bf_capacity q)
}.

(** ** The implementation over the ring buffer *)

Record FifoQueue := mkFifoQueue { fifo_rb : RingBuffer }.

Definition fifo_init (storage capacity element_size : Z) : FifoQueue :=
  mkFifoQueue (rb_init storage capacity element_size).

Definition fifo_reset (fifo : FifoQueue) : FifoQueue :=
  mkFifoQueue (rb_reset (fifo_rb fifo)).

Definition fifo_push (m : mem) (fifo : FifoQueue) (element : Z) : mem * FifoQueue * bool :=
  if rb_full (fifo_rb fifo) then (m, fifo, false) else
  let '(m, rb) := rb_push m (fifo_rb fifo) element in
  (m, mkFifoQueue rb, true).

Definition fifo_pop (m : mem) (fifo : FifoQueue) (out : Z) : mem * FifoQueue * bool :=
  let '(m, rb, ok) := rb_pop m (fifo_rb fifo) out in
  (m, mkFifoQueue rb, ok).

Definition fifo_peek (m : mem) (fifo : FifoQueue) (out : Z) : mem * bool :=
  rb_peek m (fifo_rb fifo) out.

Definition fifo_count (fifo : FifoQueue) : Z := rb_count (fifo_rb fifo).
Definition fifo_empty (fifo : FifoQueue) : bool := rb_empty (fifo_rb fifo).
Definition fifo_full (fifo : FifoQueue) : bool := rb_full (fifo_rb fifo).

#[export] Instance fifo_byte_fifo : ByteFifo FifoQueue := {|
  bf_init := fifo_init; bf_reset := fifo_reset; bf_push := fifo_push;
  bf_pop := fifo_pop; bf_peek := fifo_peek;
  bf_count := fifo_count; bf_empty := fifo_empty; bf_full := fifo_full;
  bf_base q := rb_storage (fifo_rb q);
  bf_capacity q := rb_capacity (fifo_rb q);
  bf_block q := rb_element_size (fifo_rb q);
  bf_inv q := rb_wf (fifo_rb q);
  bf_items m q := rb_contents m (fifo_rb q)
|}.

Lemma rb_full_length m rb :
  rb_wf rb -> rb_full rb = (Z.of_nat (length (rb_contents m rb)) =? rb_capacity rb).
Proof.
  intros []. unfold rb_full. rewrite rb_contents_length. by rewrite Z2Nat.id by lia.
Qed.

Lemma fifo_push_law m fifo element :
  rb_wf (fifo_rb fifo) ->
  let '(m', q', ok) := fifo_push m fifo element in
  bf_inv q' /\ bf_same fifo q' /\ mem_frame (bf_base fifo) (bf_bytes fifo) m m' /\
  if Z.of_nat (length (bf_items m fifo)) =? bf_capacity fifo
  then ok = false /\ m' = m /\ q' = fifo
  else ok = true /\
       bf_items m' q' = bf_items m fifo ++ [mem_read m element (bf_block fifo)].
Proof.
  intros Hwf. unfold fifo_push. simpl.
  rewrite <-rb_full_length by done.
  pose proof (rb_push_correct m (fifo_rb fifo) element Hwf) as Hp.
  destruct (rb_full (fifo_rb fifo)); [by split_and!|].
  destruct (rb_push m (fifo_rb fifo) element) as [m' rb'].
  destruct Hp as (?&?&?&?&?&?). by split_and!.
Qed.

#[export] Instance fifo_byte_fifo_laws : ByteFifoLaws FifoQueue.
Proof.
  split.
  - intros storage capacity block ? ? q.
    by destruct (rb_init_wf storage capacity block).
  - intros q Hq. by destruct (rb_reset_wf _ Hq).
  - intros. by apply fifo_push_law.
  - intros m q out Hq Hd. simpl. unfold fifo_pop.
    pose proof (rb_pop_correct m _ out Hq Hd) as Hp.
    destruct (rb_pop m (fifo_rb q) out) as [[m' rb'] ok].
    destruct Hp as (?&?&?&?&?&Hp). split_and!; [done..|].
    destruct (rb_contents m (fifo_rb q)); [|done].
    destruct Hp as (?&?&->). by destruct q.
  - intros m q out Hq. simpl. unfold fifo_peek. rewrite rb_peek_as_peek_at by done.
    pose proof (rb_peek_at_correct m _ 0 out Hq ltac:(lia)) as Hp.
    destruct (rb_peek_at m (fifo_rb q) 0 out) as [m' ok]. destruct Hp as [Hp ?].
    split; [done|]. by destruct (rb_contents m (fifo_rb q)).
  - intros m m' q Hq. by apply rb_contents_agree.
  - intros m q Hq. pose proof Hq as []. simpl. rewrite rb_contents_length. lia.
  - by intros q [].
  - intros m q Hq. pose proof (rb_contents_length m (fifo_rb q)) as Hl. destruct Hq. simpl.
    unfold fifo_count, rb_count, fifo_empty, rb_empty, fifo_full, rb_full.
    rewrite !Hl, Z2Nat.id by lia. split_and!; [done| |done].
    destruct (Z.eqb_spec (rb_cnt (fifo_rb q)) 0) as [E|E]; destruct (rb_contents m (fifo_rb q));
      simpl in Hl; symmetry; (apply bool_decide_eq_true || apply bool_decide_eq_false); done || lia.
Qed.

(** ** Refinement of an abstract bounded queue

    A client script: stores of its own, pushes from and pops into its buffers. *)
Inductive fifo_cmd :=
  | CWrite (a : Z) (bs : list Z)
  | CPush (src : Z)
  | CPop (out : Z)
  | CPeek (out : Z)
  | CReset.

(** What the client sees after a command: success, and the block delivered. *)
Definition fifo_obs : Type := bool * list Z.

Section trace.
Context {Q : Type} `{ByteFifoLaws Q}.

Definition impl_cmd (m : mem) (q : Q) (c : fifo_cmd) : mem * Q * fifo_obs :=
  match c with
  | CWrite a bs => (mem_write m a bs, q, (true, []))
  | CPush src => let '(m, q, ok) := bf_push m q src in (m, q, (ok, []))
  | CPop out =>
      let '(m, q, ok) := bf_pop m q out in
      (m, q, (ok, if ok then mem_read m out (bf_block q) else []))
  | CPeek out =>
      let '(m, ok) := bf_peek m q out in
      (m, q, (ok, if ok then mem_read m out (bf_block q) else []))
  | CReset => (m, bf_reset q, (true, []))
  end.

Fixpoint impl_run (m : mem) (q : Q) (cs : list fifo_cmd) : list fifo_obs :=
  match cs with
  | [] => []
  | c :: cs' => let '(m, q, o) := impl_cmd m q c in o :: impl_run m q cs'
  end.
End trace.

(** The specification: a list of blocks with a capacity, next to the client's
    own memory. *)
Definition spec_cmd (cap block : Z) (m : mem) (q : list (list Z)) (c : fifo_cmd)
    : mem * list (list Z) * fifo_obs :=
  match c with
  | CWrite a bs => (mem_write m a bs, q, (true, []))
  | CPush src =>
      if Z.of_nat (length q) =? cap then (m, q, (false, []))
      else (m, q ++ [mem_read m src block], (true, []))
  | CPop out =>
      match q with
      | [] => (m, [], (false, []))
      | x :: q' => (mem_write m out x, q', (true, x))
      end
  | CPeek out =>
      match q with
      | [] => (m, [], (false, []))
      | x :: _ => (mem_write m out x, q, (true, x))
      end
  | CReset => (m, [], (true, []))
  end.

Fixpoint spec_run (cap block : Z) (m : mem) (q : list (list Z)) (cs : list fifo_cmd)
    : list fifo_obs :=
  match cs with
  | [] => []
  | c :: cs' => let '(m, q, o) := spec_cmd cap block m q c in
                o :: spec_run cap block m q cs'
  end.

(** The client's buffers lie outside the queue's storage [base, base+n). *)
Definition cmd_outside (base n block : Z) (c : fifo_cmd) : Prop :=
  match c with
  | CWrite a bs => rdisj a (Z.of_nat (length bs)) base n
  | CPush b | CPop b | CPeek b => rdisj b block base n
  | CReset => True
  end.

Section refinement.
Context {Q : Type} `{ByteFifoLaws Q}.

(** Simulation relation: the queue holds the abstract blocks, and both sides
    agree on the client's memory. *)
Definition fifo_sim (q : Q) (m : mem) (l : list (list Z)) (ms : mem) : Prop :=
  bf_inv q /\ bf_items m q = l /\
  Forall (fun b => Z.of_nat (length b) = bf_block q) l /\
  mem_agree (fun x => ~ rng (bf_base q) (bf_bytes q) x) m ms.

Lemma read_outside (q : Q) m ms a n :
  mem_agree (fun x => ~ rng (bf_base q) (bf_bytes q) x) m ms ->
  rdisj a n (bf_base q) (bf_bytes q) -> mem_read m a n = mem_read ms a n.
Proof.
  intros Ha Hd. apply mem_read_agree. intros x Hx. apply Ha.
  unfold rng, rdisj in *. lia.
Qed.

(** A block delivered to [out] on one side and written on the other. *)
Lemma deliver_agree (q : Q) m m' ms out x :
  mem_agree (fun a => ~ rng (bf_base q) (bf_bytes q) a) m ms ->
  mem_frame out (bf_block q) m m' -> mem_read m' out (bf_block q) = x ->
  Z.of_nat (length x) = bf_block q ->
  mem_agree (fun a => ~ rng (bf_base q) (bf_bytes q) a) m' (mem_write ms out x).
Proof.
  intros Ha Hf Hx Hl a Hna. destruct (decide (rng out (bf_block q) a)) as [Hin|Hout].
  - rewrite mem_write_in by (unfold rng in *; lia). rewrite <-Hx.
    rewrite mem_read_nth by (unfold rng in *; lia). f_equal. unfold rng in *. lia.
  - rewrite mem_write_out by (unfold rng in *; lia). rewrite <-Hf by done. by apply Ha.
Qed.

(** The items survive a delivery outside the storage. *)
Lemma items_outside (q q' : Q) m m' out n :
  bf_inv q' -> bf_same q q' -> rdisj out n (bf_base q) (bf_bytes q) ->
  mem_frame out n m m' -> bf_items m' q' = bf_items m q'.
Proof.
  intros Hi (Hb & Hc & Hk) Hd Hf. apply bf_items_agree; [done|].
  intros x Hx. apply Hf. unfold bf_bytes in *. rewrite Hb, Hc, Hk in Hx.
  unfold rng, rdisj in *. lia.
Qed.

Lemma bf_same_bytes (q q' : Q) : bf_same q q' -> bf_bytes q' = bf_bytes q.
Proof. intros (?&Hc&Hk). unfold bf_bytes. by rewrite Hc, Hk. Qed.

Lemma impl_cmd_sim (q : Q) m l ms c :
  fifo_sim q m l ms ->
  cmd_outside (bf_base q) (bf_bytes q) (bf_block q) c ->
  let '(m', q', o) := impl_cmd m q c in
  let '(ms', l', o') := spec_cmd (bf_capacity q) (bf_block q) ms l c in
  fifo_sim q' m' l' ms' /\ bf_same q q' /\ o = o'.
Proof.
  intros (Hi & Hq & Hl & Ha) Hc. pose proof (bf_inv_block q Hi) as Hk.
  unfold fifo_sim. destruct c as [a bs|src|out|out|]; simpl in *.
  - split_and!; try done; [|by apply mem_write_agree].
    subst l. apply bf_items_agree; [done|]. intros x Hx. symmetry. apply mem_write_out.
    unfold rng, rdisj in *. lia.
  - pose proof (bf_push_law m q src Hi) as Hp.
    destruct (bf_push m q src) as [[m' q'] ok]. destruct Hp as (Hi' & Hs & Hf & Hp).
    rewrite Hq in Hp. destruct (_ =? _); [by destruct Hp as (->&->&->)|].
    destruct Hp as (-> & Hp). split_and!; try done.
    + rewrite Hp. f_equal. by rewrite (read_outside q m ms).
    + apply Forall_app. destruct (Hs) as (_&_&->). split; [done|].
      constructor; [|done]. rewrite mem_read_length. lia.
    + destruct (Hs) as (Hb&_&_). rewrite (bf_same_bytes q q' Hs), Hb.
      intros x Hx. rewrite <-Ha by done. symmetry. by apply Hf.
  - pose proof (bf_pop_law m q out Hi Hc) as Hp.
    destruct (bf_pop m q out) as [[m' q'] ok]. destruct Hp as (Hi' & Hs & Hf & Hp).
    rewrite Hq in Hp. destruct l as [|x l]; [by destruct Hp as (->&->&->)|].
    destruct Hp as (-> & Hx & Hp). apply Forall_cons in Hl as [Hlx Hl].
    split_and!; try done.
    + by destruct (Hs) as (_&_&->).
    + pose proof (bf_same_bytes q q' Hs) as ->. destruct (Hs) as (->&_&_).
      by eapply deliver_agree.
    + destruct (Hs) as (_&_&->). by rewrite Hx.
  - pose proof (bf_peek_law m q out Hi) as Hp.
    destruct (bf_peek m q out) as [m' ok]. destruct Hp as (Hf & Hp).
    rewrite Hq in Hp. destruct l as [|x l]; [by destruct Hp as (->&->)|].
    destruct Hp as (-> & Hx). pose proof Hl as [Hlx _]%Forall_cons.
    split_and!; try done.
    + rewrite <-Hq. by eapply (items_outside q q).
    + by eapply deliver_agree.
    + by rewrite Hx.
  - destruct (bf_reset_law q Hi) as (?&Hs&He).
    split_and!; try done. pose proof (bf_same_bytes q _ Hs) as ->. by destruct (Hs) as (->&_&_).
Qed.

Lemma impl_run_sim cs : forall (q : Q) m l ms,
  fifo_sim q m l ms ->
  Forall (cmd_outside (bf_base q) (bf_bytes q) (bf_block q)) cs ->
  impl_run m q cs = spec_run (bf_capacity q) (bf_block q) ms l cs.
Proof.
  induction cs as [|c cs IH]; intros q m l ms Hsim Hcs; [done|]. simpl.
  apply Forall_cons in Hcs as [Hc Hcs].
  pose proof (impl_cmd_sim q m l ms c Hsim Hc) as H1.
  destruct (impl_cmd m q c) as [[m' q'] o].
  destruct (spec_cmd _ _ ms l c) as [[ms' l'] o'].
  destruct H1 as (Hsim' & Hs & ->). f_equal.
  destruct (Hs) as (Hb & Hcap & Hk). rewrite <-Hcap, <-Hk. apply IH; [done|].
  by rewrite (bf_same_bytes q q' Hs), Hb, Hk.
Qed.
End refinement.

(** The FIFO queue refines the abstract bounded queue: for every script of
    client stores, pushes, pops, peeks and resets whose buffers lie outside the
    queue's storage, the queue reports the same successes and delivers the same
    blocks as a list with a capacity that rejects pushes when full. *)
Theorem fifo_refines_bounded_queue m storage capacity element_size cs :
  0 < capacity <= 0x8000000000000000 -> 0 <= element_size ->
  Forall (cmd_outside storage (capacity * element_size) element_size) cs ->
  impl_run m (fifo_init storage capacity element_size) cs =
  spec_run capacity element_size m [] cs.
Proof.
  intros Hc He Hcs.
  destruct (rb_init_wf storage capacity element_size Hc He).
  refine (impl_run_sim cs (fifo_init storage capacity element_size) m [] m _ Hcs).
  by split_and!.
Qed.

(** Two pushes into a queue of one: the second is refused; the pop delivers. *)
Lemma fifo_refines_bounded_queue_witness :
  let cs := [CPush 7; CPush 8; CPeek 20; CPop 20; CPop 20] in
  impl_run (fun x => x) (fifo_init 100 1 1) cs = spec_run 1 1 (fun x => x) [] cs /\
  impl_run (fun x => x) (fifo_init 100 1 1) cs =
  [(true, []); (false, []); (true, [7]); (true, [7]); (false, [])].
Proof.
  split; [|vm_compute; reflexivity].
  apply fifo_refines_bounded_queue; [lia|lia|].
  repeat constructor; unfold rdisj; lia.
Defined.
