(* ===== verification/Stack.v ===== *)
(** LIFO stack ([src/containers/stack.c]) over caller-provided storage: rejects
    a push when full, refuses a pop when empty.  [stack_contents] lists the
    elements from the bottom up. *)
From S2P Require Import Prelude HostMem.

Record Stack := mkStack {
  st_storage : Z;
  st_capacity : Z;
  st_element_size : Z;
  st_top : Z
}.

(** Address of slot [s] of the storage buffer. *)
Definition slot_at (st : Stack) (s : Z) : Z :=
  slot (st_storage st) (st_element_size st) s.

Definition stack_init (storage capacity element_size : Z) : Stack :=
  mkStack storage capacity element_size 0.

Definition set_top (st : Stack) (top : Z) : Stack :=
  mkStack (st_storage st) (st_capacity st) (st_element_size st) top.

Definition stack_reset (st : Stack) : Stack := set_top st 0.

Definition stack_push (m : mem) (st : Stack) (element : Z) : mem * Stack * bool :=
  if st_top st =? st_capacity st then (m, st, false) else
  let m := memcpy m (slot_at st (st_top st)) element (st_element_size st) in
  (m, set_top st (u64 (st_top st + 1)), true).

Definition stack_pop (m : mem) (st : Stack) (out : Z) : mem * Stack * bool :=
  if st_top st =? 0 then (m, st, false) else
  let st := set_top st (st_top st - 1) in
  (memcpy m out (slot_at st (st_top st)) (st_element_size st), st, true).

Definition stack_peek (m : mem) (st : Stack) (out : Z) : mem * bool :=
  if st_top st =? 0 then (m, false) else
  (memcpy m out (slot_at st (st_top st - 1)) (st_element_size st), true).

Definition stack_count (st : Stack) : Z := st_top st.
Definition stack_empty (st : Stack) : bool := st_top st =? 0.
Definition stack_full (st : Stack) : bool := st_top st =? st_capacity st.

(** ** Invariant and abstraction *)

Record stack_wf (st : Stack) : Prop := {
  stack_wf_cap : st_capacity st < 0x10000000000000000;
  stack_wf_esz : 0 <= st_element_size st;
  stack_wf_top : 0 <= st_top st <= st_capacity st
}.

Definition stack_bytes (st : Stack) : Z := st_capacity st * st_element_size st.

Definition stack_contents (m : mem) (st : Stack) : list (list Z) :=
  map (fun i => mem_read m (slot_at st (Z.of_nat i)) (st_element_size st))
    (seq 0 (Z.to_nat (st_top st))).

Lemma stack_contents_length m st :
  length (stack_contents m st) = Z.to_nat (st_top st).
Proof. unfold stack_contents. by rewrite length_map, length_seq. Qed.

Lemma stack_contents_agree m m' st :
  stack_wf st -> mem_agree (rng (st_storage st) (stack_bytes st)) m m' ->
  stack_contents m' st = stack_contents m st.
Proof.
  intros [] H. apply map_seq_ext. intros i Hi. symmetry. apply mem_read_agree.
  pose proof (slot_inside (st_storage st) (st_element_size st) (st_capacity st)
    (Z.of_nat i) stack_wf_esz0 ltac:(lia)).
  eapply mem_agree_mono; [|exact H]. unfold rng, stack_bytes, slot_at. lia.
Qed.

Lemma stack_contents_S m st n :
  st_top st = Z.of_nat (S n) ->
  stack_contents m st =
  stack_contents m (set_top st (Z.of_nat n)) ++
  [mem_read m (slot_at st (Z.of_nat n)) (st_element_size st)].
Proof.
  intros Hn. unfold stack_contents. rewrite Hn. cbn [set_top st_top st_element_size].
  by rewrite !Nat2Z.id, seq_S, map_app.
Qed.

Lemma stack_push_correct m st element :
  stack_wf st ->
  let '(m', st', ok) := stack_push m st element in
  stack_wf st' /\ st' = set_top st (st_top st') /\
  mem_frame (st_storage st) (stack_bytes st) m m' /\
  (if stack_full st then ok = false /\ m' = m /\ st' = st
   else ok = true /\ stack_contents m' st' =
     stack_contents m st ++ [mem_read m element (st_element_size st)]).
Proof.
  intros [Hc He Ht]. unfold stack_push, stack_full.
  destruct (Z.eqb_spec (st_top st) (st_capacity st)) as [Hf|Hf].
  - split_and!; try done. by destruct st.
  - rewrite u64_small by (umach; lia). split_and!; try done.
    + constructor; simpl; lia.
    + apply memcpy_slot_frame; lia.
    + rewrite (stack_contents_S _ _ (Z.to_nat (st_top st))) by (simpl; lia).
      f_equal.
      * unfold stack_contents. simpl. rewrite Nat2Z.id. apply map_seq_ext. intros i Hi.
        unfold slot_at. simpl. rewrite memcpy_slot_read, decide_False by lia. done.
      * unfold slot_at. simpl. rewrite Z2Nat.id by lia. by rewrite memcpy_read.
Qed.

Lemma stack_pop_correct m st out :
  stack_wf st -> rdisj out (st_element_size st) (st_storage st) (stack_bytes st) ->
  let '(m', st', ok) := stack_pop m st out in
  stack_wf st' /\ st' = set_top st (st_top st') /\
  mem_frame out (st_element_size st) m m' /\
  (if stack_empty st then ok = false /\ m' = m /\ st' = st
   else ok = true /\ stack_contents m st =
     stack_contents m' st' ++ [mem_read m' out (st_element_size st)]).
Proof.
  intros [Hc He Ht] Hd. unfold stack_pop, stack_empty.
  destruct (Z.eqb_spec (st_top st) 0) as [H0|H0].
  - split_and!; try done. by destruct st.
  - split_and!; try done.
    + constructor; simpl; lia.
    + by apply memcpy_frame.
    + rewrite (stack_contents_S _ _ (Z.to_nat (st_top st - 1))) by lia. f_equal.
      * rewrite Z2Nat.id by lia. symmetry. apply stack_contents_agree; [constructor; simpl; lia|].
        intros x Hx. eapply memcpy_frame; [done|].
        unfold rng, rdisj, stack_bytes in *. simpl in *. lia.
      * rewrite Z2Nat.id by lia. simpl. by rewrite memcpy_read.
Qed.

(** ** LIFO order over a run *)

(** Push the elements at [es] in order, stopping at the first refusal; the
    count of accepted pushes is returned. *)
Fixpoint push_all (m : mem) (st : Stack) (es : list Z) : mem * Stack * nat :=
  match es with
  | [] => (m, st, 0%nat)
  | e :: es' =>
      let '(m, st, ok) := stack_push m st e in
      if ok then let '(m, st, n) := push_all m st es' in (m, st, S n) else (m, st, 0%nat)
  end.

(** Pop [n] elements into [out], collecting what was delivered. *)
Fixpoint pop_n (n : nat) (m : mem) (st : Stack) (out : Z) : mem * Stack * list (list Z) :=
  match n with
  | O => (m, st, [])
  | S n' =>
      let '(m, st, ok) := stack_pop m st out in
      if ok then
        let '(m', st', l) := pop_n n' m st out in
        (m', st', mem_read m out (st_element_size st) :: l)
      else (m, st, [])
  end.

Lemma push_all_correct es : forall m st,
  stack_wf st ->
  Forall (fun e => rdisj e (st_element_size st) (st_storage st) (stack_bytes st)) es ->
  let '(m', st', n) := push_all m st es in
  stack_wf st' /\ st' = set_top st (st_top st') /\
  n = Nat.min (length es) (Z.to_nat (st_capacity st - st_top st)) /\
  stack_contents m' st' = stack_contents m st ++
    take n (map (fun e => mem_read m e (st_element_size st)) es).
Proof.
  induction es as [|e es IH]; intros m st Hwf Hes.
  - simpl. rewrite app_nil_r. split_and!; try done. by destruct st.
  - apply Forall_cons in Hes as [He Hes]. cbn [push_all map length].
    pose proof (stack_push_correct m st e Hwf) as Hp.
    destruct (stack_push m st e) as [[m1 st1] ok]. destruct Hp as (Hwf1 & Hs & Hf & Hp).
    pose proof (stack_wf_top st Hwf) as Htop. unfold stack_full in Hp.
    destruct (Z.eqb_spec (st_top st) (st_capacity st)) as [Hfull|Hfree];
      [destruct Hp as (->&->&->)|destruct Hp as (->&Hp)].
    + rewrite take_0, app_nil_r. split_and!; try done. lia.
    + assert (st_top st1 = st_top st + 1) as Ht1.
      { apply (f_equal (@length _)) in Hp.
        rewrite length_app, !stack_contents_length in Hp. simpl in Hp.
        pose proof (stack_wf_top st1 Hwf1). lia. }
      assert (st_element_size st1 = st_element_size st /\ st_storage st1 = st_storage st /\
        st_capacity st1 = st_capacity st) as (Hz1 & Hb1 & Hc1) by (by rewrite Hs).
      assert (stack_bytes st1 = stack_bytes st) as Hn1 by (unfold stack_bytes; congruence).
      specialize (IH m1 st1 Hwf1). rewrite Hz1, Hb1, Hc1, Hn1, Ht1 in IH.
      specialize (IH Hes). destruct (push_all m1 st1 es) as [[m2 st2] n].
      destruct IH as (Hwf2 & Hs2 & -> & Hc2). split_and!; try done.
      * by rewrite Hs2, Hs at 1.
      * lia.
      * rewrite Hc2, Hp, <-app_assoc. cbn [app take]. do 3 f_equal. apply map_ext_in. intros e' He'.
        pose proof (proj1 (List.Forall_forall _ _) Hes _ He') as Hd; simpl in Hd.
        eapply mem_read_frame; [done|]. unfold rdisj in *. lia.
Qed.

Lemma pop_n_correct n : forall m st out l k,
  stack_wf st -> rdisj out (st_element_size st) (st_storage st) (stack_bytes st) ->
  stack_contents m st = l ++ k -> length k = n ->
  let '(m', st', got) := pop_n n m st out in
  stack_wf st' /\ got = reverse k /\ stack_contents m' st' = l.
Proof.
  induction n as [|n IH]; intros m st out l k Hwf Hd Hc Hk; cbn [pop_n].
  - destruct k; [|done]. rewrite app_nil_r in Hc. by split_and!.
  - destruct k as [|x k' _] using rev_ind; [done|].
    rewrite length_app in Hk. simpl in Hk.
    pose proof (stack_pop_correct m st out Hwf Hd) as Hp.
    destruct (stack_pop m st out) as [[m1 st1] ok]. destruct Hp as (Hwf1 & Hs & Hf & Hp).
    unfold stack_empty in Hp. destruct (Z.eqb_spec (st_top st) 0) as [H0|H0].
    { apply (f_equal (@length _)) in Hc.
      rewrite stack_contents_length, !length_app in Hc. simpl in Hc. lia. }
    destruct Hp as (-> & Hp). rewrite Hc, app_assoc in Hp. apply app_inj_tail in Hp as [Hl Hx].
    assert (st_element_size st1 = st_element_size st /\ st_storage st1 = st_storage st /\
      stack_bytes st1 = stack_bytes st) as (Hz1 & Hb1 & Hn1) by (by rewrite Hs).
    specialize (IH m1 st1 out l k' Hwf1). rewrite Hz1, Hb1, Hn1 in IH.
    specialize (IH Hd (eq_sym Hl) ltac:(lia)).
    destruct (pop_n n m1 st1 out) as [[m2 st2] got]. destruct IH as (? & -> & ?).
    split_and!; try done. rewrite reverse_app. simpl. by rewrite Hz1, <-Hx.
Qed.

(** LIFO.  Push any elements on a fresh stack until one is refused: exactly
    the first [capacity] of them are accepted, popping that many delivers them
    in reverse order, and one more pop is refused. *)
Theorem stack_lifo m storage capacity element_size es out :
  0 <= capacity < 0x10000000000000000 -> 0 <= element_size ->
  rdisj out element_size storage (capacity * element_size) ->
  Forall (fun e => rdisj e element_size storage (capacity * element_size)) es ->
  let '(m1, st1, n) := push_all m (stack_init storage capacity element_size) es in
  let '(m2, st2, got) := pop_n n m1 st1 out in
  n = Nat.min (length es) (Z.to_nat capacity) /\
  got = reverse (take n (map (fun e => mem_read m e element_size) es)) /\
  snd (stack_pop m2 st2 out) = false.
Proof.
  intros Hc He Ho Hes.
  assert (stack_wf (stack_init storage capacity element_size)) as Hwf by (constructor; simpl; lia).
  pose proof (push_all_correct es m _ Hwf Hes) as Hp.
  destruct (push_all m (stack_init storage capacity element_size) es) as [[m1 st1] n].
  destruct Hp as (Hwf1 & Hs & Hn & Hc1). simpl in *. rewrite Z.sub_0_r in Hn.
  pose proof (pop_n_correct n m1 st1 out [] _ Hwf1 ltac:(by rewrite Hs) Hc1) as Hq.
  rewrite length_take, length_map in Hq. specialize (Hq ltac:(lia)).
  destruct (pop_n n m1 st1 out) as [[m2 st2] got]. destruct Hq as (Hwf2 & -> & He2).
  split_and!; try done.
  apply (f_equal (@length _)) in He2. rewrite stack_contents_length in He2.
  pose proof (stack_wf_top st2 Hwf2). unfold stack_pop.
  destruct (Z.eqb_spec (st_top st2) 0); [done|]. simpl in He2. lia.
Qed.

(** Three pushes on a stack of two: two accepted, popped in reverse. *)
Lemma stack_lifo_witness :
  let '(m1, st1, n) := push_all (fun x => x) (stack_init 100 2 1) [7; 8; 9] in
  let '(m2, st2, got) := pop_n n m1 st1 50 in
  n = 2%nat /\ got = [[8]; [7]] /\ snd (stack_pop m2 st2 50) = false.
Proof.
  apply (stack_lifo (fun x => x) 100 2 1 [7; 8; 9] 50); [lia|lia|unfold rdisj; lia|].
  repeat constructor; unfold rdisj; lia.
Defined.
