(* ===== verification/NodePool.v ===== *)
(** What the index-linked containers share: a caller-provided buffer cut into
    nodes of equal size, each with 32-bit link words in front of its payload, and
    the chains of nodes that the links form.  The lists ([SList], [DList]) are
    built on it. *)
From S2P Require Import Prelude HostMem.

(** The end of a chain ([SLIST_NIL], [DLIST_NIL]). *)
Definition NODE_NIL : Z := 0xFFFFFFFF.

(** ** Chains *)

(** Following [nx] from [h] visits the nodes [l] and arrives at [t]. *)
Fixpoint seg (nx : Z -> Z) (h : Z) (l : list Z) (t : Z) : Prop :=
  match l with
  | [] => h = t
  | i :: l => h = i /\ seg nx (nx i) l t
  end.

Lemma seg_ext (nx nx' : Z -> Z) l : forall h t,
  (forall i, i ∈ l -> nx' i = nx i) -> seg nx h l t -> seg nx' h l t.
Proof.
  induction l as [|i l IH]; intros h t He; cbn [seg]; [done|]. intros [-> Hs]. split; [done|].
  rewrite He by apply list_elem_of_here. apply IH; [|done]. intros j Hj. apply He. by apply list_elem_of_further.
Qed.

Lemma seg_app (nx : Z -> Z) l1 : forall h l2 t,
  seg nx h (l1 ++ l2) t <-> exists x, seg nx h l1 x /\ seg nx x l2 t.
Proof.
  induction l1 as [|i l1 IH]; intros h l2 t; cbn [app seg].
  - split; [intros; by exists h|by intros (x & -> & ?)].
  - split.
    + intros [-> (x & ? & ?)%IH]. by exists x.
    + intros (x & [-> ?] & ?). split; [done|]. apply IH. by exists x.
Qed.

Lemma seg_snoc (nx : Z -> Z) h l i t : seg nx h (l ++ [i]) t <-> seg nx h l i /\ nx i = t.
Proof.
  rewrite seg_app. cbn [seg]. split.
  - by intros (x & ? & -> & ?).
  - intros [? ?]. by exists i.
Qed.

Lemma seg_head (nx : Z -> Z) h l t : seg nx h l t -> h = hd t l.
Proof. destruct l; cbn; [done|by intros [-> _]]. Qed.

Lemma last_split (ns : list Z) : ns <> [] -> exists r n, ns = r ++ [n].
Proof. intros Hne. destruct ns as [|n r _] using rev_ind; [done|]. by exists r, n. Qed.

(** The nodes that [n] steps from [h] visit. *)
Fixpoint walk (n : nat) (nx : Z -> Z) (h : Z) : list Z :=
  match n with O => [] | S n => h :: walk n nx (nx h) end.

Lemma seg_walk (nx : Z -> Z) l : forall h t, seg nx h l t -> walk (length l) nx h = l.
Proof. induction l as [|i l IH]; intros h t; cbn; [done|]. intros [-> Hs]. f_equal. by apply (IH _ t). Qed.

(** ** The nodes of a pool *)

(** All [cap] nodes, each once. *)
Definition nodes_ok (cap : Z) (l : list Z) : Prop := l ≡ₚ map Z.of_nat (seq 0 (Z.to_nat cap)).

#[export] Instance nodes_ok_proper cap : Proper ((≡ₚ) ==> iff) (nodes_ok cap).
Proof. intros l l' E. unfold nodes_ok. by rewrite E. Qed.

Lemma nodes_nodup cap l : nodes_ok cap l -> NoDup l.
Proof. intros ->. apply NoDup_fmap; [apply _|]. apply NoDup_seq. Qed.

Lemma nodes_range cap l i : nodes_ok cap l -> i ∈ l -> 0 <= i < cap.
Proof. intros ->. intros (n & -> & Hn%elem_of_seq)%list_elem_of_fmap. lia. Qed.

Lemma nodes_length cap l : 0 <= cap -> nodes_ok cap l -> Z.of_nat (length l) = cap.
Proof. intros Hc ->. rewrite length_map, length_seq. lia. Qed.

(** ** The memory of a pool *)

Record Pool := mkPool {
  po_base : Z;
  po_cap : Z;
  po_links : Z;      (** bytes of links in front of a payload *)
  po_esz : Z
}.

Definition po_stride (g : Pool) : Z := po_links g + po_esz g.
Definition po_bytes (g : Pool) : Z := po_cap g * po_stride g.

Record pool_ok (g : Pool) : Prop := {
  po_base_ok : 0 < po_base g;
  po_cap_ok : 0 <= po_cap g < NODE_NIL;
  po_links_ok : 0 <= po_links g;
  po_esz_ok : 0 < po_esz g
}.

Definition at_node (g : Pool) (i : Z) : Z := slot (po_base g) (po_stride g) i.
Definition link (m : mem) (g : Pool) (k i : Z) : Z := load32 m (at_node g i + 4 * k).
Definition set_link (m : mem) (g : Pool) (k i v : Z) : mem := store32 m (at_node g i + 4 * k) v.
Definition payload (m : mem) (g : Pool) (i : Z) : list Z :=
  mem_read m (at_node g i + po_links g) (po_esz g).
Definition set_payload (m : mem) (g : Pool) (i src : Z) : mem :=
  memcpy m (at_node g i + po_links g) src (po_esz g).

(** The links in use are the words [0 .. po_links / 4). *)
Definition has_link (g : Pool) (k : Z) : Prop := 0 <= k /\ 4 * k + 4 <= po_links g.

Section pool.
Context (g : Pool) (Hg : pool_ok g).

Lemma stride_pos : 0 < po_stride g.
Proof. destruct Hg. unfold po_stride. lia. Qed.

Lemma nodes_apart i j : i <> j -> rdisj (at_node g i) (po_stride g) (at_node g j) (po_stride g).
Proof. intros. pose proof stride_pos. apply slot_disj; [lia|done]. Qed.

Lemma link_set m k i v k' j :
  has_link g k -> has_link g k' -> is_u32 v ->
  link (set_link m g k i v) g k' j = if decide (i = j /\ k = k') then v else link m g k' j.
Proof.
  intros [Hk Hk2] [Hk' Hk2'] Hv. unfold link, set_link. destruct Hg. case_decide as E.
  - destruct E as [-> ->]. rewrite load32_store32_eq. by apply u32_small.
  - apply load32_store32_disj. destruct (decide (i = j)) as [->|Hne].
    + unfold rdisj. lia.
    + pose proof (nodes_apart i j Hne). unfold rdisj, po_stride in *. lia.
Qed.

Lemma payload_set_link m k i v j : has_link g k -> payload (set_link m g k i v) g j = payload m g j.
Proof.
  intros [Hk Hk2]. unfold payload, set_link. eapply mem_read_frame; [apply store32_frame|]. destruct Hg.
  destruct (decide (i = j)) as [->|Hne]; [unfold rdisj; lia|].
  pose proof (nodes_apart i j Hne). unfold rdisj, po_stride in *. lia.
Qed.

Lemma link_set_payload m i src k j : has_link g k -> link (set_payload m g i src) g k j = link m g k j.
Proof.
  intros [Hk Hk2]. unfold link, set_payload. destruct Hg.
  eapply load32_frame; [apply memcpy_frame; lia|].
  destruct (decide (i = j)) as [->|Hne]; [unfold rdisj; lia|].
  pose proof (nodes_apart i j Hne). unfold rdisj, po_stride in *. lia.
Qed.

Lemma payload_set_payload m i src j :
  payload (set_payload m g i src) g j = if decide (i = j) then mem_read m src (po_esz g) else payload m g j.
Proof.
  unfold payload, set_payload. destruct Hg. case_decide as E.
  - subst. apply memcpy_read. lia.
  - eapply mem_read_frame; [apply memcpy_frame; lia|].
    pose proof (nodes_apart i j E). unfold rdisj, po_stride in *. lia.
Qed.

Lemma node_inside i : 0 <= i < po_cap g ->
  po_base g <= at_node g i /\ at_node g i + po_stride g <= po_base g + po_bytes g.
Proof. intros Hi. pose proof stride_pos. apply slot_inside; [lia|done]. Qed.

Lemma set_link_frame m k i v : has_link g k -> 0 <= i < po_cap g ->
  mem_frame (po_base g) (po_bytes g) m (set_link m g k i v).
Proof.
  intros [Hk Hk2] Hi. pose proof (node_inside i Hi). destruct Hg. unfold po_stride in *.
  eapply mem_frame_mono; [| |apply store32_frame]; lia.
Qed.

Lemma set_payload_frame m i src : 0 <= i < po_cap g ->
  mem_frame (po_base g) (po_bytes g) m (set_payload m g i src).
Proof.
  intros Hi. pose proof (node_inside i Hi). destruct Hg. unfold po_stride in *.
  eapply mem_frame_mono; [| |apply memcpy_frame; lia]; lia.
Qed.

Lemma link_agree m m' k i : has_link g k -> 0 <= i < po_cap g ->
  mem_agree (rng (po_base g) (po_bytes g)) m m' -> link m' g k i = link m g k i.
Proof.
  intros [Hk Hk2] Hi Ha. pose proof (node_inside i Hi). destruct Hg. unfold po_stride in *.
  symmetry. apply load32_agree. eapply mem_agree_mono; [|done]. unfold rng. lia.
Qed.

Lemma payload_agree m m' i : 0 <= i < po_cap g ->
  mem_agree (rng (po_base g) (po_bytes g)) m m' -> payload m' g i = payload m g i.
Proof.
  intros Hi Ha. pose proof (node_inside i Hi). destruct Hg. unfold po_stride in *.
  symmetry. apply mem_read_agree. eapply mem_agree_mono; [|done]. unfold rng. lia.
Qed.

Lemma payload_length m i : Z.of_nat (length (payload m g i)) = po_esz g.
Proof. destruct Hg. unfold payload. rewrite mem_read_length. lia. Qed.

(** Chains and payloads through the writes. *)

Lemma seg_link_write m k i v k' h ns t :
  has_link g k -> has_link g k' -> is_u32 v -> (k = k' -> i ∉ ns) ->
  seg (link m g k') h ns t -> seg (link (set_link m g k i v) g k') h ns t.
Proof.
  intros Hk Hk' Hv Hi. apply seg_ext. intros j Hj. rewrite link_set by done.
  rewrite decide_False; [done|]. intros [-> E]. by apply Hi.
Qed.

Lemma seg_payload_write m i src k h ns t :
  has_link g k -> seg (link m g k) h ns t -> seg (link (set_payload m g i src) g k) h ns t.
Proof. intros Hk. apply seg_ext. intros j Hj. by apply link_set_payload. Qed.

Lemma payloads_link_write m k i v ns : has_link g k ->
  map (payload (set_link m g k i v) g) ns = map (payload m g) ns.
Proof. intros Hk. apply map_ext. intros j. by apply payload_set_link. Qed.

Lemma payloads_payload_write m i src ns : i ∉ ns ->
  map (payload (set_payload m g i src) g) ns = map (payload m g) ns.
Proof.
  intros Hi. apply map_ext_in. intros j Hj%list_elem_of_In. rewrite payload_set_payload.
  rewrite decide_False; [done|]. by intros ->.
Qed.

Lemma pool_index i : 0 <= i < po_cap g -> i <> NODE_NIL /\ is_u32 i.
Proof. destruct Hg as [_ Hc _ _]. unfold NODE_NIL in *. umach. lia. Qed.

Lemma seg_in_pool m m' k h ns t :
  has_link g k -> Forall (fun i => 0 <= i < po_cap g) ns ->
  mem_agree (rng (po_base g) (po_bytes g)) m m' ->
  seg (link m g k) h ns t -> seg (link m' g k) h ns t.
Proof.
  intros Hk Hr Ha. rewrite Forall_forall in Hr. apply seg_ext. intros j Hj. apply link_agree; auto.
Qed.

Lemma payloads_in_pool m m' ns :
  Forall (fun i => 0 <= i < po_cap g) ns -> mem_agree (rng (po_base g) (po_bytes g)) m m' ->
  map (payload m' g) ns = map (payload m g) ns.
Proof.
  intros Hr Ha. rewrite Forall_forall in Hr. apply map_ext_in. intros j Hj%list_elem_of_In.
  apply payload_agree; auto.
Qed.

(** Threading the nodes from [i] on, [n] of them, into one chain. *)
Fixpoint thread_links (n : nat) (m : mem) (i : Z) : mem :=
  match n with
  | O => m
  | S n => thread_links n (set_link m g 0 i (if i + 1 <? po_cap g then i + 1 else NODE_NIL)) (i + 1)
  end.

Lemma thread_links_at n : forall m i, has_link g 0 -> 0 <= i -> i + Z.of_nat n = po_cap g ->
  let m' := thread_links n m i in
  (forall j, i <= j < po_cap g -> link m' g 0 j = if j + 1 <? po_cap g then j + 1 else NODE_NIL) /\
  (forall j, 0 <= j < i -> link m' g 0 j = link m g 0 j) /\
  mem_frame (po_base g) (po_bytes g) m m'.
Proof.
  induction n as [|n IH]; intros m i Hl Hi He; cbn [thread_links].
  { split; [intros; lia|]. split; [done|reflexivity]. }
  destruct Hg as [_ Hc _ _]. set (v := if i + 1 <? po_cap g then i + 1 else NODE_NIL).
  assert (is_u32 v) as Hv by (unfold v, NODE_NIL in *; case_match; umach; lia).
  destruct (IH (set_link m g 0 i v) (i + 1) Hl ltac:(lia) ltac:(lia)) as (Hnew & Hold & Hfr).
  split_and!.
  - intros j Hj. destruct (decide (j = i)) as [->|]; [|apply Hnew; lia].
    rewrite Hold, link_set by (done || lia). by rewrite decide_True.
  - intros j Hj. rewrite Hold, link_set by (done || lia). rewrite decide_False; [done|lia].
  - transitivity (set_link m g 0 i v); [|done]. apply set_link_frame; [done|lia].
Qed.

Lemma seg_upto (nx : Z -> Z) n : forall i t,
  (forall j, i <= j < i + Z.of_nat n -> nx j = if j + 1 <? i + Z.of_nat n then j + 1 else t) ->
  seg nx (if (n =? 0)%nat then t else i) (map (fun k => i + Z.of_nat k) (seq 0 n)) t.
Proof.
  induction n as [|n IH]; intros i t Hj; [done|]. cbn [Nat.eqb seq map seg]. split; [lia|].
  replace (i + Z.of_nat 0) with i by lia. rewrite Hj by lia.
  rewrite <-seq_shift, map_map.
  rewrite (map_ext _ (fun k => (i + 1) + Z.of_nat k)) by (intros; lia).
  replace (if i + 1 <? i + Z.of_nat (S n) then i + 1 else t) with (if (n =? 0)%nat then t else i + 1).
  - apply IH. intros j Hr. rewrite Hj by lia. by replace (i + Z.of_nat (S n)) with (i + 1 + Z.of_nat n) by lia.
  - destruct n; cbn [Nat.eqb].
    + rewrite (proj2 (Z.ltb_ge _ _)) by lia. done.
    + rewrite (proj2 (Z.ltb_lt _ _)) by lia. done.
Qed.

(** The whole pool as one free chain. *)
Lemma thread_links_seg m : has_link g 0 ->
  let m' := thread_links (Z.to_nat (po_cap g)) m 0 in
  seg (link m' g 0) (if 0 <? po_cap g then 0 else NODE_NIL)
    (map Z.of_nat (seq 0 (Z.to_nat (po_cap g)))) NODE_NIL /\
  mem_frame (po_base g) (po_bytes g) m m'.
Proof.
  intros Hl m'. destruct (thread_links_at (Z.to_nat (po_cap g)) m 0 Hl ltac:(lia)) as (Hnew & _ & Hfr).
  { destruct Hg. lia. }
  split; [|done].
  pose proof (seg_upto (link m' g 0) (Z.to_nat (po_cap g)) 0 NODE_NIL) as Hs.
  rewrite (map_ext _ Z.of_nat) in Hs by done.
  replace (if 0 <? po_cap g then 0 else NODE_NIL)
    with (if (Z.to_nat (po_cap g) =? 0)%nat then NODE_NIL else 0).
  - apply Hs. intros j Hj. unfold m'. rewrite Hnew by lia.
    by replace (0 + Z.of_nat (Z.to_nat (po_cap g))) with (po_cap g) by lia.
  - destruct (Nat.eqb_spec (Z.to_nat (po_cap g)) 0), (Z.ltb_spec 0 (po_cap g)); lia.
Qed.

End pool.
