(* ===== verification/Deque.v ===== *)
(** What the linked lists promise to their clients, as a type class: a bounded
    double-ended queue of byte blocks held in a caller-provided pool.  Any
    implementation of the class refines the abstract queue below; [SList] and
    [DList] are its two instances. *)
From S2P Require Import Prelude HostMem.

Inductive side := Front | Back.

(** ** The abstract queue *)

Definition add_at {A} (s : side) (x : A) (l : list A) : list A :=
  match s with Front => x :: l | Back => l ++ [x] end.

Definition take_at {A} (s : side) (l : list A) : option (A * list A) :=
  match s with
  | Front => match l with [] => None | x :: r => Some (x, r) end
  | Back => match rev l with [] => None | x :: r => Some (x, rev r) end
  end.

Lemma take_at_back {A} (x : A) l : take_at Back (l ++ [x]) = Some (x, l).
Proof. unfold take_at. rewrite rev_app_distr. cbn. by rewrite rev_involutive. Qed.

Lemma take_at_None {A} s (l : list A) : take_at s l = None <-> l = [].
Proof.
  destruct s; cbn; [by destruct l|]. destruct l as [|x l _] using rev_ind; [done|].
  rewrite rev_app_distr. cbn. split; [done|]. intros E. by apply app_nil in E as [_ ?].
Qed.

Lemma take_at_Some {A} s (l : list A) x r : take_at s l = Some (x, r) -> l = add_at s x r.
Proof.
  destruct s; cbn; [destruct l; congruence|]. destruct l as [|y l _] using rev_ind; [done|].
  rewrite rev_app_distr. cbn. rewrite rev_involutive. congruence.
Qed.

(** A block handed out through [out], which may be [NULL]. *)
Definition deliver (m : mem) (out : Z) (x : list Z) : mem :=
  if out =? 0 then m else mem_write m out x.

Lemma deliver_outside m out x base n :
  (out <> 0 -> rdisj out (Z.of_nat (length x)) base n) -> mem_agree (rng base n) m (deliver m out x).
Proof.
  intros Hd. unfold deliver. destruct (Z.eqb_spec out 0) as [|Hne]; [done|]. intros a Ha. symmetry.
  apply mem_write_out. specialize (Hd Hne). unfold rng, rdisj in *. lia.
Qed.

(** ** The interface *)

Class Deque (Q : Type) := {
  dq_push : side -> mem -> Q -> Z -> mem * Q * bool;
  dq_pop : side -> mem -> Q -> Z -> mem * Q * bool;
  dq_peek : side -> mem -> Q -> Z -> mem * bool;
  dq_clear : mem -> Q -> mem * Q;
  dq_count : Q -> Z;
  (** Pool address and size, capacity in blocks, bytes per block. *)
  dq_base : Q -> Z;
  dq_bytes : Q -> Z;
  dq_cap : Q -> Z;
  dq_esz : Q -> Z;
  dq_inv : mem -> Q -> Prop;
  dq_items : mem -> Q -> list (list Z)
}.

Definition dq_same {Q} `{Deque Q} (q q' : Q) : Prop :=
  dq_base q' = dq_base q /\ dq_bytes q' = dq_bytes q /\ dq_cap q' = dq_cap q /\ dq_esz q' = dq_esz q.

(** Outside the pool of [q]. *)
Definition dq_outside {Q} `{Deque Q} (q : Q) (a : Z) : Prop := ~ rng (dq_base q) (dq_bytes q) a.

(** [out] is [NULL] or a buffer outside the pool. *)
Definition dq_buffer {Q} `{Deque Q} (q : Q) (out : Z) : Prop :=
  out <> 0 -> rdisj out (dq_esz q) (dq_base q) (dq_bytes q).

Class DequeLaws (Q : Type) `{Deque Q} : Prop := {
  dq_push_law s m q elem :
    dq_inv m q ->
    let '(m', q', ok) := dq_push s m q elem in
    dq_inv m' q' /\ dq_same q q' /\ mem_agree (dq_outside q) m m' /\
    if (elem =? 0) || (dq_count q =? dq_cap q)
    then ok = false /\ m' = m /\ q' = q
    else ok = true /\ dq_items m' q' = add_at s (mem_read m elem (dq_esz q)) (dq_items m q);
  dq_pop_law s m q out :
    dq_inv m q -> dq_buffer q out ->
    let '(m', q', ok) := dq_pop s m q out in
    dq_inv m' q' /\ dq_same q q' /\
    match take_at s (dq_items m q) with
    | None => ok = false /\ m' = m /\ q' = q
    | Some (x, rest) => ok = true /\ dq_items m' q' = rest /\
                        mem_agree (dq_outside q) (deliver m out x) m'
    end;
  dq_peek_law s m q out :
    dq_inv m q ->
    dq_peek s m q out =
    match take_at s (dq_items m q) with
    | None => (m, false)
    | Some (x, _) => (deliver m out x, true)
    end;
  dq_clear_law m q :
    dq_inv m q ->
    let '(m', q') := dq_clear m q in
    dq_inv m' q' /\ dq_same q q' /\ mem_agree (dq_outside q) m m' /\ dq_items m' q' = [];
  dq_count_law m q : dq_inv m q -> dq_count q = Z.of_nat (length (dq_items m q));
  dq_agree_law m m' q :
    dq_inv m q -> mem_agree (rng (dq_base q) (dq_bytes q)) m m' ->
    dq_inv m' q /\ dq_items m' q = dq_items m q;
  dq_block_law m q : dq_inv m q ->
    0 < dq_esz q /\ Forall (fun x => Z.of_nat (length x) = dq_esz q) (dq_items m q)
}.

(** ** Client scripts *)

Inductive deque_cmd :=
  | DWrite (a : Z) (bs : list Z)
  | DPush (s : side) (src : Z)
  | DPop (s : side) (out : Z)
  | DPeek (s : side) (out : Z)
  | DClear
  | DCount.

(** What the client sees: the value returned, and the block delivered to it. *)
Definition deque_obs : Type := Z * list Z.

Definition seen (m : mem) (ok : bool) (out n : Z) : deque_obs :=
  (Z.b2z ok, if ok && negb (out =? 0) then mem_read m out n else []).

Section trace.
Context {Q : Type} `{DequeLaws Q}.

Definition deque_cmd_impl (m : mem) (q : Q) (c : deque_cmd) : mem * Q * deque_obs :=
  match c with
  | DWrite a bs => (mem_write m a bs, q, (0, []))
  | DPush s src => let '(m, q, ok) := dq_push s m q src in (m, q, (Z.b2z ok, []))
  | DPop s out => let '(m, q, ok) := dq_pop s m q out in (m, q, seen m ok out (dq_esz q))
  | DPeek s out => let '(m, ok) := dq_peek s m q out in (m, q, seen m ok out (dq_esz q))
  | DClear => let '(m, q) := dq_clear m q in (m, q, (0, []))
  | DCount => (m, q, (dq_count q, []))
  end.

Fixpoint deque_run (m : mem) (q : Q) (cs : list deque_cmd) : list deque_obs :=
  match cs with
  | [] => []
  | c :: cs => let '(m, q, o) := deque_cmd_impl m q c in o :: deque_run m q cs
  end.
End trace.

Definition deque_cmd_spec (cap n : Z) (m : mem) (l : list (list Z)) (c : deque_cmd)
    : mem * list (list Z) * deque_obs :=
  match c with
  | DWrite a bs => (mem_write m a bs, l, (0, []))
  | DPush s src =>
      if (src =? 0) || (Z.of_nat (length l) =? cap) then (m, l, (0, []))
      else (m, add_at s (mem_read m src n) l, (1, []))
  | DPop s out =>
      match take_at s l with
      | None => (m, l, (0, []))
      | Some (x, r) => (deliver m out x, r, (1, if out =? 0 then [] else x))
      end
  | DPeek s out =>
      match take_at s l with
      | None => (m, l, (0, []))
      | Some (x, _) => (deliver m out x, l, (1, if out =? 0 then [] else x))
      end
  | DClear => (m, [], (0, []))
  | DCount => (m, l, (Z.of_nat (length l), []))
  end.

Fixpoint deque_spec_run (cap n : Z) (m : mem) (l : list (list Z)) (cs : list deque_cmd)
    : list deque_obs :=
  match cs with
  | [] => []
  | c :: cs => let '(m, l, o) := deque_cmd_spec cap n m l c in o :: deque_spec_run cap n m l cs
  end.

(** The client's buffers lie outside the pool. *)
Definition deque_cmd_outside (base bytes n : Z) (c : deque_cmd) : Prop :=
  match c with
  | DWrite a bs => rdisj a (Z.of_nat (length bs)) base bytes
  | DPush _ b | DPop _ b | DPeek _ b => b <> 0 -> rdisj b n base bytes
  | DClear | DCount => True
  end.

Lemma deque_cmd_outside_mono base bytes bytes' n c :
  bytes' <= bytes -> deque_cmd_outside base bytes n c -> deque_cmd_outside base bytes' n c.
Proof. intros Hb. destruct c; cbn; unfold rdisj; lia || auto with lia. Qed.

(** ** Refinement *)

Section refinement.
Context {Q : Type} `{DequeLaws Q}.

Definition deque_sim (q : Q) (m : mem) (l : list (list Z)) (ms : mem) : Prop :=
  dq_inv m q /\ dq_items m q = l /\ mem_agree (dq_outside q) m ms.

Lemma buffer_read (q : Q) m ms a n :
  mem_agree (dq_outside q) m ms -> rdisj a n (dq_base q) (dq_bytes q) -> mem_read m a n = mem_read ms a n.
Proof.
  intros Ha Hd. apply mem_read_agree. intros x Hx. apply Ha. unfold dq_outside, rng, rdisj in *. lia.
Qed.

Lemma seen_deliver (q : Q) m ms out x :
  dq_buffer q out -> Z.of_nat (length x) = dq_esz q ->
  mem_agree (dq_outside q) (deliver ms out x) m -> seen m true out (dq_esz q) = (1, if out =? 0 then [] else x).
Proof.
  intros Hb Hx Ha. unfold seen. cbn [andb Z.b2z]. unfold deliver in Ha.
  destruct (Z.eqb_spec out 0) as [->|Hne]; [done|]. cbn [negb]. f_equal.
  rewrite <-(buffer_read q _ _ _ _ Ha (Hb Hne)). by apply mem_read_write_eq.
Qed.

Lemma deliver_both (q : Q) m ms out x :
  mem_agree (dq_outside q) m ms -> mem_agree (dq_outside q) (deliver m out x) (deliver ms out x).
Proof. intros Ha. unfold deliver. case_match; [done|]. by apply mem_write_agree. Qed.

Lemma outside_same (q q' : Q) m m' :
  dq_same q q' -> mem_agree (dq_outside q) m m' -> mem_agree (dq_outside q') m m'.
Proof.
  intros (Hb & Hn & _) Ha. unfold dq_outside in *. by rewrite Hb, Hn.
Qed.

Lemma block_of (q : Q) m s x r : dq_inv m q -> take_at s (dq_items m q) = Some (x, r) ->
  Z.of_nat (length x) = dq_esz q.
Proof.
  intros Hi Ht. destruct (dq_block_law m q Hi) as [_ Hf]. apply take_at_Some in Ht. rewrite Ht in Hf.
  destruct s; cbn in Hf; [by apply Forall_cons in Hf as [? _]|].
  apply Forall_app in Hf as [_ Hf]. by apply Forall_cons in Hf as [? _].
Qed.

Lemma deque_cmd_sim (q : Q) m l ms c :
  deque_sim q m l ms -> deque_cmd_outside (dq_base q) (dq_bytes q) (dq_esz q) c ->
  let '(m', q', o) := deque_cmd_impl m q c in
  let '(ms', l', o') := deque_cmd_spec (dq_cap q) (dq_esz q) ms l c in
  deque_sim q' m' l' ms' /\ dq_same q q' /\ o = o'.
Proof.
  intros (Hi & Hl & Ha) Hc.
  destruct c as [a bs|s src|s out|s out| |]; cbn [deque_cmd_impl deque_cmd_spec deque_cmd_outside] in *.
  - destruct (dq_agree_law m (mem_write m a bs) q Hi) as [Hi' Hl'].
    { intros x Hx. symmetry. apply mem_write_out. unfold rng, rdisj in *. lia. }
    split; [|done]. split; [done|]. split; [congruence|]. by apply mem_write_agree.
  - pose proof (dq_push_law s m q src Hi) as Hp. destruct (dq_push s m q src) as [[m' q'] ok].
    destruct Hp as (Hi' & Hs & Hf & Hp). rewrite (dq_count_law m q Hi), Hl in Hp.
    destruct (Z.eqb_spec src 0) as [|Hne]; cbn [orb] in *; [by destruct Hp as (-> & -> & ->)|].
    destruct (_ =? dq_cap q); [by destruct Hp as (-> & -> & ->)|]. destruct Hp as [-> Hit].
    split_and!; try done; [|by apply Hs..]. split; [done|]. split.
    + rewrite Hit. f_equal. apply (buffer_read q); auto.
    + apply (outside_same q); [done|]. by transitivity m.
  - pose proof (dq_pop_law s m q out Hi Hc) as Hp. destruct (dq_pop s m q out) as [[m' q'] ok].
    destruct Hp as (Hi' & Hs & Hp). pose proof (block_of q m s) as Hx. rewrite Hl in *.
    destruct (take_at s l) as [[x r]|]; [|by destruct Hp as (-> & -> & ->)].
    destruct Hp as (-> & Hit & Hd). specialize (Hx x r Hi eq_refl).
    split_and!; try done; [|by apply Hs..|].
    + split; [done|]. split; [done|]. apply (outside_same q); [done|].
      transitivity (deliver m out x); [done|]. by apply deliver_both.
    + destruct (Hs) as (_ & _ & _ & ->). by apply (seen_deliver q m' m).
  - rewrite (dq_peek_law s m q out Hi), Hl. pose proof (block_of q m s) as Hx. rewrite Hl in Hx.
    destruct (take_at s l) as [[x r]|]; [|done]. specialize (Hx x r Hi eq_refl).
    assert (mem_agree (rng (dq_base q) (dq_bytes q)) m (deliver m out x)) as Hd.
    { apply deliver_outside. by rewrite Hx. }
    destruct (dq_agree_law _ _ q Hi Hd) as [Hi' Hl'].
    split; [|split; [done|by apply (seen_deliver q _ m)]].
    split; [done|]. split; [congruence|]. by apply deliver_both.
  - pose proof (dq_clear_law m q Hi) as Hp. destruct (dq_clear m q) as [m' q'].
    destruct Hp as (Hi' & Hs & Hf & Hit). split; [|done]. split; [done|]. split; [done|].
    apply (outside_same q); [done|]. by transitivity m.
  - split; [done|]. split; [done|]. by rewrite (dq_count_law m q Hi), Hl.
Qed.

(** Every client script sees the abstract queue. *)
Lemma deque_refines cs : forall (q : Q) m l ms,
  deque_sim q m l ms -> Forall (deque_cmd_outside (dq_base q) (dq_bytes q) (dq_esz q)) cs ->
  deque_run m q cs = deque_spec_run (dq_cap q) (dq_esz q) ms l cs.
Proof.
  induction cs as [|c cs IH]; intros q m l ms Hsim Hcs; [done|].
  apply Forall_cons in Hcs as [Hc Hcs]. cbn [deque_run deque_spec_run].
  pose proof (deque_cmd_sim q m l ms c Hsim Hc) as H1.
  destruct (deque_cmd_impl m q c) as [[m' q'] o].
  destruct (deque_cmd_spec _ _ ms l c) as [[ms' l'] o'].
  destruct H1 as (Hsim' & (Hb & Hn & Hcap & Hk) & ->). f_equal. rewrite <-Hcap, <-Hk.
  apply IH; [done|]. by rewrite Hb, Hn, Hk.
Qed.

End refinement.
