(* ===== verification/SList.v ===== *)
(** The singly linked list ([src/containers/slist.c]) over a caller-provided pool:
    nodes are addressed by index, the free nodes form a second chain through the
    same [next] words.  The list is shown to implement [Deque]. *)
From S2P Require Import Prelude HostMem NodePool Deque.

Definition SLIST_NIL : Z := 0xFFFFFFFF.
Definition SLIST_NODE_OVERHEAD : Z := 4.

Record SList := mkSList {
  sl_pool : Z;
  sl_capacity : Z;
  sl_element_size : Z;
  sl_stride : Z;
  sl_count : Z;
  sl_head : Z;
  sl_tail : Z;
  sl_free_head : Z
}.

Definition set_ends (l : SList) (count head tail free_head : Z) : SList :=
  mkSList (sl_pool l) (sl_capacity l) (sl_element_size l) (sl_stride l) count head tail free_head.
Definition set_free (l : SList) (free_head : Z) : SList :=
  set_ends l (sl_count l) (sl_head l) (sl_tail l) free_head.

(** ** Node access *)

Definition node_at (l : SList) (i : Z) : Z := sl_pool l + i * sl_stride l.
Definition node_next (m : mem) (l : SList) (i : Z) : Z := load32 m (node_at l i).
Definition put_next (m : mem) (l : SList) (i v : Z) : mem := store32 m (node_at l i) v.
Definition node_payload (l : SList) (i : Z) : Z := node_at l i + SLIST_NODE_OVERHEAD.

(** [if (out) memcpy(out, node_payload(l, n), element_size)]. *)
Definition copy_out (m : mem) (l : SList) (n out : Z) : mem :=
  if out =? 0 then m else memcpy m out (node_payload l n) (sl_element_size l).

Definition slist_pool_bytes (capacity element_size : Z) : Z :=
  u64 (capacity * u64 (SLIST_NODE_OVERHEAD + element_size)).

(** ** Life cycle *)

(** The threading loop of [slist_clear] from node [i] on, [n] nodes being left. *)
Fixpoint thread (n : nat) (m : mem) (l : SList) (i : Z) : mem :=
  match n with
  | O => m
  | S n =>
      thread n (put_next m l i (if u32 (i + 1) <? sl_capacity l then u32 (i + 1) else SLIST_NIL))
        l (i + 1)
  end.

Definition slist_clear (m : mem) (l : SList) : mem * SList :=
  let l := set_ends l 0 SLIST_NIL SLIST_NIL (if 0 <? sl_capacity l then 0 else SLIST_NIL) in
  (thread (Z.to_nat (sl_capacity l)) m l 0, l).

Definition slist_init (m : mem) (l : SList) (pool pool_bytes element_size : Z) : mem * SList * bool :=
  if (pool =? 0) || (element_size =? 0) then (m, l, false) else
  let stride := u64 (SLIST_NODE_OVERHEAD + element_size) in
  let capacity := pool_bytes / stride in
  if capacity =? 0 then (m, l, false) else
  if SLIST_NIL <=? capacity then (m, l, false) else
  let '(m, l) := slist_clear m (mkSList pool capacity element_size stride
                                  (sl_count l) (sl_head l) (sl_tail l) (sl_free_head l)) in
  (m, l, true).

Definition alloc_node (m : mem) (l : SList) : SList * Z :=
  let i := sl_free_head l in
  if i =? SLIST_NIL then (l, SLIST_NIL) else (set_free l (node_next m l i), i).

Definition free_node (m : mem) (l : SList) (i : Z) : mem * SList :=
  (put_next m l i (sl_free_head l), set_free l i).

(** ** Insertion and removal *)

Definition slist_push_front (m : mem) (l : SList) (elem : Z) : mem * SList * bool :=
  if elem =? 0 then (m, l, false) else
  let '(l, n) := alloc_node m l in
  if n =? SLIST_NIL then (m, l, false) else
  let m := memcpy m (node_payload l n) elem (sl_element_size l) in
  let m := put_next m l n (sl_head l) in
  let tail := if sl_tail l =? SLIST_NIL then n else sl_tail l in
  (m, set_ends l (u64 (sl_count l + 1)) n tail (sl_free_head l), true).

Definition slist_push_back (m : mem) (l : SList) (elem : Z) : mem * SList * bool :=
  if elem =? 0 then (m, l, false) else
  let '(l, n) := alloc_node m l in
  if n =? SLIST_NIL then (m, l, false) else
  let m := memcpy m (node_payload l n) elem (sl_element_size l) in
  let m := put_next m l n SLIST_NIL in
  let '(m, head) :=
    if negb (sl_tail l =? SLIST_NIL) then (put_next m l (sl_tail l) n, sl_head l) else (m, n) in
  (m, set_ends l (u64 (sl_count l + 1)) head n (sl_free_head l), true).

Definition slist_pop_front (m : mem) (l : SList) (out : Z) : mem * SList * bool :=
  if sl_head l =? SLIST_NIL then (m, l, false) else
  let n := sl_head l in
  let m := copy_out m l n out in
  let head := node_next m l n in
  let tail := if head =? SLIST_NIL then SLIST_NIL else sl_tail l in
  let l := set_ends l (sl_count l) head tail (sl_free_head l) in
  let '(m, l) := free_node m l n in
  (m, set_ends l (u64 (sl_count l - 1)) (sl_head l) (sl_tail l) (sl_free_head l), true).

(** [while ( *node_next(l, prev) != n) prev = *node_next(l, prev);], for at most
    [fuel] tests. *)
Fixpoint find_prev (fuel : nat) (m : mem) (l : SList) (prev n : Z) : option Z :=
  match fuel with
  | O => None
  | S fuel =>
      if negb (node_next m l prev =? n) then find_prev fuel m l (node_next m l prev) n
      else Some prev
  end.

(** The loop ends within [capacity] tests: [slist_deque_laws] shows that the
    branch where it does not is never taken. *)
Definition slist_pop_back (m : mem) (l : SList) (out : Z) : mem * SList * bool :=
  if sl_tail l =? SLIST_NIL then (m, l, false) else
  let n := sl_tail l in
  let m0 := m in
  let m := copy_out m l n out in
  let unlinked :=
    if sl_head l =? sl_tail l
    then Some (m, set_ends l (sl_count l) SLIST_NIL SLIST_NIL (sl_free_head l))
    else
      match find_prev (Z.to_nat (sl_capacity l)) m l (sl_head l) n with
      | Some prev =>
          Some (put_next m l prev SLIST_NIL,
                set_ends l (sl_count l) (sl_head l) prev (sl_free_head l))
      | None => None
      end in
  match unlinked with
  | None => (m0, l, false)
  | Some (m, l) =>
      let '(m, l) := free_node m l n in
      (m, set_ends l (u64 (sl_count l - 1)) (sl_head l) (sl_tail l) (sl_free_head l), true)
  end.

(** ** Reading *)

Definition slist_front (m : mem) (l : SList) (out : Z) : mem * bool :=
  if sl_head l =? SLIST_NIL then (m, false) else (copy_out m l (sl_head l) out, true).

Definition slist_back (m : mem) (l : SList) (out : Z) : mem * bool :=
  if sl_tail l =? SLIST_NIL then (m, false) else (copy_out m l (sl_tail l) out, true).

Definition slist_count (l : SList) : Z := sl_count l.
Definition slist_empty (l : SList) : bool := sl_count l =? 0.
Definition slist_full (l : SList) : bool := sl_capacity l <=? sl_count l.

Definition slist_begin (l : SList) : Z := sl_head l.

Definition slist_next (m : mem) (l : SList) (cursor : Z) : Z :=
  if (cursor =? SLIST_NIL) || (sl_capacity l <=? cursor) then SLIST_NIL else node_next m l cursor.

Definition slist_get (m : mem) (l : SList) (cursor out : Z) : mem * bool :=
  if (cursor =? SLIST_NIL) || (sl_capacity l <=? cursor) then (m, false)
  else (copy_out m l cursor out, true).

(** ** Representation *)

Definition geom (l : SList) : Pool :=
  mkPool (sl_pool l) (sl_capacity l) SLIST_NODE_OVERHEAD (sl_element_size l).

Record slist_geom (l : SList) : Prop := {
  sg_pool : pool_ok (geom l);
  sg_stride : sl_stride l = SLIST_NODE_OVERHEAD + sl_element_size l
}.

(** [ns] are the nodes of the list, in order, and [fs] the free ones. *)
Record slist_rep (m : mem) (l : SList) (ns fs : list Z) : Prop := {
  sr_geom : slist_geom l;
  sr_nodes : nodes_ok (sl_capacity l) (ns ++ fs);
  sr_live : seg (link m (geom l) 0) (sl_head l) ns SLIST_NIL;
  sr_free : seg (link m (geom l) 0) (sl_free_head l) fs SLIST_NIL;
  sr_tail : sl_tail l = default SLIST_NIL (last ns);
  sr_count : sl_count l = Z.of_nat (length ns)
}.

Lemma at_node_geom l i : slist_geom l -> node_at l i = at_node (geom l) i.
Proof. intros [_ Hs]. unfold node_at, at_node, slot, po_stride. cbn. by rewrite Hs. Qed.

Lemma node_next_link m l i : slist_geom l -> node_next m l i = link m (geom l) 0 i.
Proof. intros Hg. unfold node_next, link. rewrite at_node_geom by done. f_equal. lia. Qed.

Lemma put_next_link m l i v : slist_geom l -> put_next m l i v = set_link m (geom l) 0 i v.
Proof. intros Hg. unfold put_next, set_link. rewrite at_node_geom by done. f_equal. lia. Qed.

Lemma copy_in_payload m l i src : slist_geom l ->
  memcpy m (node_payload l i) src (sl_element_size l) = set_payload m (geom l) i src.
Proof. intros Hg. unfold node_payload, set_payload. by rewrite at_node_geom by done. Qed.

Lemma copy_out_deliver m l i out : slist_geom l ->
  copy_out m l i out = deliver m out (payload m (geom l) i).
Proof.
  intros Hg. unfold copy_out, deliver, payload, memcpy, node_payload. by rewrite at_node_geom by done.
Qed.

Lemma has_next l : has_link (geom l) 0.
Proof. unfold has_link, geom, SLIST_NODE_OVERHEAD. cbn. lia. Qed.

(** The geometry is all that the accesses depend on. *)
Lemma geom_set_ends l c h t f : geom (set_ends l c h t f) = geom l.
Proof. done. Qed.

Lemma slist_geom_ends l c h t f : slist_geom l -> slist_geom (set_ends l c h t f).
Proof. by intros []. Qed.

Section rep.
Context (l : SList) (Hg : slist_geom l).

Lemma rep_range m ns fs i : slist_rep m l ns fs -> i ∈ ns ++ fs -> 0 <= i < sl_capacity l.
Proof. intros H. apply nodes_range, H. Qed.

Lemma range_nil i : 0 <= i < sl_capacity l -> i <> SLIST_NIL /\ is_u32 i.
Proof.
  destruct (sg_pool _ Hg) as [_ Hc _ _]. cbn in Hc. unfold NODE_NIL, SLIST_NIL in *. umach. lia.
Qed.

Lemma rep_disj m ns fs i : slist_rep m l ns fs -> i ∈ ns -> i ∈ fs -> False.
Proof.
  intros H Hi Hf. pose proof (nodes_nodup _ _ (sr_nodes _ _ _ _ H)) as Hnd.
  apply NoDup_app in Hnd as (_ & Hd & _). by apply (Hd i).
Qed.

Lemma free_count m ns fs : slist_rep m l ns fs ->
  Z.of_nat (length ns) + Z.of_nat (length fs) = sl_capacity l.
Proof.
  intros H. destruct (sg_pool _ Hg) as [_ Hc _ _]. cbn in Hc.
  rewrite <-(nodes_length _ _ (proj1 Hc) (sr_nodes _ _ _ _ H)), length_app. lia.
Qed.
End rep.

Definition slist_items (m : mem) (l : SList) : list (list Z) :=
  map (payload m (geom l)) (walk (Z.to_nat (sl_count l)) (link m (geom l) 0) (sl_head l)).

Lemma items_rep m l ns fs : slist_rep m l ns fs -> slist_items m l = map (payload m (geom l)) ns.
Proof.
  intros H. unfold slist_items. rewrite (sr_count _ _ _ _ H), Nat2Z.id. f_equal.
  apply (seg_walk _ _ _ _ (sr_live _ _ _ _ H)).
Qed.

Lemma head_nil m l ns fs : slist_rep m l ns fs ->
  sl_head l = SLIST_NIL <-> ns = [].
Proof.
  intros H. pose proof (seg_head _ _ _ _ (sr_live _ _ _ _ H)) as ->. destruct ns as [|i ns]; [done|].
  split; [|done]. cbn. intros E.
  destruct (range_nil l (sr_geom _ _ _ _ H) i) as [? _]; [|done].
  apply (rep_range l m (i :: ns) fs i H). apply list_elem_of_here.
Qed.

Lemma tail_nil m l ns fs : slist_rep m l ns fs -> sl_tail l = SLIST_NIL <-> ns = [].
Proof.
  intros H. rewrite (sr_tail _ _ _ _ H). destruct ns as [|i ns _] using rev_ind; [done|].
  rewrite last_snoc. cbn. split; [|by intros [_ ?]%app_nil].
  intros E. destruct (range_nil l (sr_geom _ _ _ _ H) i) as [? _]; [|done].
  apply (rep_range l m _ fs i H). apply elem_of_app. left. apply elem_of_app. right. apply list_elem_of_here.
Qed.

(** ** Taking and returning nodes *)

Lemma alloc_node_rep m l ns fs : slist_rep m l ns fs ->
  alloc_node m l = match fs with [] => (l, SLIST_NIL) | n :: _ => (set_free l (link m (geom l) 0 n), n) end.
Proof.
  intros H. unfold alloc_node. pose proof (seg_head _ _ _ _ (sr_free _ _ _ _ H)) as ->.
  destruct fs as [|n fs]; cbn [hd]; [done|].
  destruct (range_nil l (sr_geom _ _ _ _ H) n) as [Hn _].
  { apply (rep_range l m ns (n :: fs) n H), elem_of_app. right. apply list_elem_of_here. }
  rewrite (proj2 (Z.eqb_neq _ _)) by done. by rewrite node_next_link by apply H.
Qed.

Lemma full_no_free m l ns fs : slist_rep m l ns fs -> sl_count l = sl_capacity l <-> fs = [].
Proof.
  intros H. pose proof (free_count l (sr_geom _ _ _ _ H) m ns fs H) as Hf. rewrite (sr_count _ _ _ _ H).
  destruct fs; cbn in *; split; [done|lia|lia|done].
Qed.

(** A node filled and linked, the chains that avoid it untouched. *)
Lemma fill_node l m n src v :
  slist_geom l -> 0 <= n < sl_capacity l -> is_u32 v ->
  let m' := put_next (memcpy m (node_payload l n) src (sl_element_size l)) l n v in
  link m' (geom l) 0 n = v /\
  (forall h ns t, n ∉ ns -> seg (link m (geom l) 0) h ns t -> seg (link m' (geom l) 0) h ns t) /\
  payload m' (geom l) n = mem_read m src (sl_element_size l) /\
  (forall ns, n ∉ ns -> map (payload m' (geom l)) ns = map (payload m (geom l)) ns) /\
  mem_frame (sl_pool l) (po_bytes (geom l)) m m'.
Proof.
  intros Hg Hn Hv m'. unfold m'. rewrite put_next_link, copy_in_payload by done.
  pose proof (sg_pool _ Hg) as Hp. pose proof (has_next l) as Hl. split_and!.
  - rewrite link_set by done. by rewrite decide_True.
  - intros h ns t Hni Hs. apply seg_link_write; [done..|]. by apply seg_payload_write.
  - rewrite payload_set_link by done. rewrite payload_set_payload by done. by rewrite decide_True.
  - intros ns Hni. rewrite payloads_link_write by done. by apply payloads_payload_write.
  - transitivity (set_payload m (geom l) n src); [by apply (set_payload_frame (geom l) Hp)|].
    by apply (set_link_frame (geom l) Hp).
Qed.

(** A link rewritten, the chains that avoid it untouched. *)
Lemma relink l m i v :
  slist_geom l -> 0 <= i < sl_capacity l -> is_u32 v ->
  let m' := put_next m l i v in
  link m' (geom l) 0 i = v /\
  (forall h ns t, i ∉ ns -> seg (link m (geom l) 0) h ns t -> seg (link m' (geom l) 0) h ns t) /\
  (forall ns, map (payload m' (geom l)) ns = map (payload m (geom l)) ns) /\
  mem_frame (sl_pool l) (po_bytes (geom l)) m m'.
Proof.
  intros Hg Hi Hv m'. unfold m'. rewrite put_next_link by done.
  pose proof (sg_pool _ Hg) as Hp. pose proof (has_next l) as Hl. split_and!.
  - rewrite link_set by done. by rewrite decide_True.
  - intros h ns t Hni Hs. by apply seg_link_write.
  - intros ns. by apply payloads_link_write.
  - by apply (set_link_frame (geom l) Hp).
Qed.

(** ** Each operation on the representation *)

(** What every operation preserves. *)
Definition same_pool (l l' : SList) : Prop :=
  sl_pool l' = sl_pool l /\ sl_capacity l' = sl_capacity l /\
  sl_element_size l' = sl_element_size l /\ sl_stride l' = sl_stride l.

Lemma count_range l m ns fs : slist_rep m l ns fs ->
  Z.of_nat (length ns) + Z.of_nat (length fs) < 0xFFFFFFFF.
Proof.
  intros H. pose proof (free_count l (sr_geom _ _ _ _ H) m ns fs H).
  destruct (sg_pool _ (sr_geom _ _ _ _ H)) as [_ Hc _ _]. cbn in Hc. unfold NODE_NIL in Hc. lia.
Qed.

Lemma count_up l m ns n fs : slist_rep m l ns (n :: fs) -> u64 (sl_count l + 1) = Z.of_nat (length ns) + 1.
Proof.
  intros H. pose proof (count_range _ _ _ _ H). rewrite (sr_count _ _ _ _ H).
  apply u64_small. cbn in *. umach. lia.
Qed.

Lemma count_down l m ns fs k : slist_rep m l ns fs -> length ns = S k -> u64 (sl_count l - 1) = Z.of_nat k.
Proof.
  intros H Hk. pose proof (count_range _ _ _ _ H). rewrite (sr_count _ _ _ _ H), Hk.
  rewrite u64_small by (umach; lia). lia.
Qed.

(** The node [n] of the pool, told apart from the other nodes. *)
Lemma node_facts m l ns fs n rest :
  slist_rep m l ns fs -> ns ++ fs ≡ₚ n :: rest ->
  0 <= n < sl_capacity l /\ n <> SLIST_NIL /\ is_u32 n /\ n ∉ rest.
Proof.
  intros H E. pose proof (sr_nodes _ _ _ _ H) as Hno. rewrite E in Hno.
  assert (0 <= n < sl_capacity l) as Hn by (apply (nodes_range _ _ n Hno), list_elem_of_here).
  destruct (range_nil l (sr_geom _ _ _ _ H) n Hn). split_and!; [lia..|done|done|].
  apply nodes_nodup in Hno. by apply NoDup_cons in Hno as [? _].
Qed.

Lemma seg_end_u32 m l ns fs h ns' : slist_rep m l ns fs ->
  (forall i, i ∈ ns' -> i ∈ ns ++ fs) -> seg (link m (geom l) 0) h ns' SLIST_NIL -> is_u32 h.
Proof.
  intros H Hin Hs. rewrite (seg_head _ _ _ _ Hs). destruct ns' as [|i ns']; [by vm_compute|]. cbn.
  apply (range_nil l (sr_geom _ _ _ _ H) i), (rep_range l m ns fs i H), Hin, list_elem_of_here.
Qed.

Lemma head_u32 m l ns fs : slist_rep m l ns fs -> is_u32 (sl_head l).
Proof.
  intros H. apply (seg_end_u32 m l ns fs _ ns H); [|apply H]. intros i Hi. apply elem_of_app. by left.
Qed.

Lemma free_u32 m l ns fs : slist_rep m l ns fs -> is_u32 (sl_free_head l).
Proof.
  intros H. apply (seg_end_u32 m l ns fs _ fs H); [|apply H]. intros i Hi. apply elem_of_app. by right.
Qed.

Lemma push_front_rep m l ns n fs elem :
  slist_rep m l ns (n :: fs) -> elem <> 0 ->
  let '(m', l', ok) := slist_push_front m l elem in
  ok = true /\ slist_rep m' l' (n :: ns) fs /\ same_pool l l' /\
  mem_frame (sl_pool l) (po_bytes (geom l)) m m' /\
  map (payload m' (geom l')) (n :: ns) = mem_read m elem (sl_element_size l) :: map (payload m (geom l)) ns.
Proof.
  intros H He. pose proof (sr_geom _ _ _ _ H) as Hg.
  destruct (node_facts m l ns (n :: fs) n (ns ++ fs) H) as (Hn & Hnn & Hnu & Hni).
  { by rewrite Permutation_middle. }
  apply not_elem_of_app in Hni as [Hnns Hf].
  destruct (sr_free _ _ _ _ H) as [_ Hfree]. pose proof (head_u32 _ _ _ _ H) as Hh.
  unfold slist_push_front. rewrite (proj2 (Z.eqb_neq elem 0)) by done.
  rewrite (alloc_node_rep _ _ _ _ H), (proj2 (Z.eqb_neq n SLIST_NIL)) by done.
  destruct (fill_node l m n elem (sl_head l) Hg Hn Hh) as (Hl & Hseg & Hp & Hps & Hfr).
  cbn [sl_head sl_tail sl_count sl_free_head set_free set_ends].
  change (node_payload (set_free l ?x) n) with (node_payload l n).
  change (put_next ?m (set_free l ?x) n ?v) with (put_next m l n v).
  change (sl_element_size (set_free l ?x)) with (sl_element_size l).
  set (m1 := put_next _ l n (sl_head l)) in *.
  split; [done|]. split; [|split; [done|split; [done|]]].
  - split; cbn [sl_capacity sl_head sl_tail sl_free_head sl_count set_ends set_free]; try done.
    + apply slist_geom_ends. by apply slist_geom_ends.
    + cbn [app]. rewrite Permutation_middle. apply H.
    + split; [done|]. rewrite geom_set_ends. change (geom (set_free l ?x)) with (geom l). rewrite Hl.
      apply Hseg; [done|]. apply H.
    + by apply Hseg.
    + pose proof (tail_nil _ _ _ _ H) as Ht. destruct (Z.eqb_spec (sl_tail l) SLIST_NIL) as [E|E].
      * by rewrite (proj1 Ht E).
      * destruct ns as [|i ns]; [by destruct E; apply Ht|]. by rewrite last_cons_cons, (sr_tail _ _ _ _ H).
    + rewrite (count_up _ _ _ _ _ H). cbn. lia.
  - cbn [map]. f_equal; [done|]. by apply Hps.
Qed.

Lemma push_back_rep m l ns n fs elem :
  slist_rep m l ns (n :: fs) -> elem <> 0 ->
  let '(m', l', ok) := slist_push_back m l elem in
  ok = true /\ slist_rep m' l' (ns ++ [n]) fs /\ same_pool l l' /\
  mem_frame (sl_pool l) (po_bytes (geom l)) m m' /\
  map (payload m' (geom l')) (ns ++ [n]) = map (payload m (geom l)) ns ++ [mem_read m elem (sl_element_size l)].
Proof.
  intros H He. pose proof (sr_geom _ _ _ _ H) as Hg.
  destruct (node_facts m l ns (n :: fs) n (ns ++ fs) H) as (Hn & Hnn & Hnu & Hni).
  { by rewrite Permutation_middle. }
  apply not_elem_of_app in Hni as [Hnns Hf].
  destruct (sr_free _ _ _ _ H) as [_ Hfree]. pose proof (sr_live _ _ _ _ H) as Hlive.
  assert (is_u32 SLIST_NIL) as Hnil by by vm_compute.
  unfold slist_push_back. rewrite (proj2 (Z.eqb_neq elem 0)) by done.
  rewrite (alloc_node_rep _ _ _ _ H), (proj2 (Z.eqb_neq n SLIST_NIL)) by done.
  destruct (fill_node l m n elem SLIST_NIL Hg Hn Hnil) as (Hl & Hseg & Hp & Hps & Hfr).
  cbn [sl_head sl_tail sl_count sl_free_head set_free set_ends].
  change (node_payload (set_free l ?x) n) with (node_payload l n).
  change (put_next ?m (set_free l ?x) ?i ?v) with (put_next m l i v).
  change (sl_element_size (set_free l ?x)) with (sl_element_size l).
  set (m1 := put_next _ l n SLIST_NIL) in *.
  assert (nodes_ok (sl_capacity l) ((ns ++ [n]) ++ fs)) as Hno
    by (rewrite <-app_assoc; apply (sr_nodes _ _ _ _ H)).
  pose proof (tail_nil _ _ _ _ H) as Ht. destruct (Z.eqb_spec (sl_tail l) SLIST_NIL) as [E|E]; cbn [negb].
  - apply Ht in E as ->. split; [done|]. split; [|split; [done|split; [done|]]].
    + split; cbn [sl_capacity sl_head sl_tail sl_free_head sl_count set_ends set_free]; try done.
      * by apply slist_geom_ends, slist_geom_ends.
      * by apply Hseg.
      * by rewrite (count_up _ _ _ _ _ H).
    + cbn. by f_equal.
  - assert (ns <> []) as Hne by (by intros ?%Ht). destruct (last_split ns Hne) as (r & t & ->).
    rewrite (sr_tail _ _ _ _ H), last_snoc. cbn [default].
    destruct (node_facts m l (r ++ [t]) (n :: fs) t (r ++ n :: fs) H) as (Ht1 & _ & _ & Ht2).
    { rewrite <-app_assoc. cbn. by rewrite Permutation_middle. }
    apply not_elem_of_app in Ht2 as [Htr [Htn Htf]%not_elem_of_cons].
    destruct (relink l m1 t n Hg Ht1 Hnu) as (Hl2 & Hseg2 & Hps2 & Hfr2).
    set (m2 := put_next m1 l t n) in *. apply not_elem_of_app in Hnns as [Hnr Hnt].
    split; [done|]. split; [|split; [done|split]].
    + split; cbn [sl_capacity sl_head sl_tail sl_free_head sl_count set_ends set_free]; try done.
      * by apply slist_geom_ends, slist_geom_ends.
      * apply seg_snoc in Hlive as [Hlive _]. rewrite geom_set_ends.
        change (geom (set_free l ?x)) with (geom l). apply seg_snoc. split; [apply seg_snoc; split|].
        -- apply Hseg2; [done|]. by apply Hseg.
        -- done.
        -- apply (Hseg2 n [n] SLIST_NIL); [|done]. by apply not_elem_of_cons; split; [|apply not_elem_of_nil].
      * apply Hseg2; [done|]. by apply Hseg.
      * by rewrite last_snoc.
      * rewrite (count_up _ _ _ _ _ H), (length_app (r ++ [t]) [n]). cbn [length]. lia.
    + by transitivity m1.
    + rewrite geom_set_ends. change (geom (set_free l ?x)) with (geom l). rewrite Hps2, map_app.
      cbn [map]. rewrite Hp. f_equal. apply Hps. by apply not_elem_of_app.
Qed.

(** A buffer that receives a block does not disturb the pool. *)
Definition buffer_ok (l : SList) (out : Z) : Prop :=
  out <> 0 -> rdisj out (sl_element_size l) (sl_pool l) (po_bytes (geom l)).

Lemma rep_agree m m' l ns fs :
  slist_rep m l ns fs -> mem_agree (rng (sl_pool l) (po_bytes (geom l))) m m' ->
  slist_rep m' l ns fs /\ map (payload m' (geom l)) ns = map (payload m (geom l)) ns.
Proof.
  intros H Ha. pose proof (sr_geom _ _ _ _ H) as Hg. pose proof (sg_pool _ Hg) as Hp.
  assert (forall i, i ∈ ns ++ fs -> link m' (geom l) 0 i = link m (geom l) 0 i) as Hl.
  { intros i Hi. apply link_agree; [done|apply has_next|by apply (rep_range l m ns fs)|done]. }
  destruct H as [Hg' Hn Hl1 Hf Ht Hc]. split.
  - split; try done.
    + eapply seg_ext; [|exact Hl1]. intros i Hi. apply Hl, elem_of_app. by left.
    + eapply seg_ext; [|exact Hf]. intros i Hi. apply Hl, elem_of_app. by right.
  - apply map_ext_in. intros i Hi%list_elem_of_In. apply payload_agree; [done| |done].
    apply (nodes_range _ _ _ Hn), elem_of_app. by left.
Qed.

Lemma rep_copy_out m l ns fs n out :
  slist_rep m l ns fs -> buffer_ok l out ->
  let m1 := copy_out m l n out in
  m1 = deliver m out (payload m (geom l) n) /\ slist_rep m1 l ns fs /\
  map (payload m1 (geom l)) ns = map (payload m (geom l)) ns.
Proof.
  intros H Hb m1. pose proof (sr_geom _ _ _ _ H) as Hg. unfold m1.
  rewrite copy_out_deliver by done. split; [done|]. apply rep_agree; [done|].
  apply deliver_outside. intros Hne. rewrite payload_length by apply Hg. by apply Hb.
Qed.

(** Returning [n], just unlinked, to the free chain. *)
Lemma free_node_rep m l n ns fs :
  slist_geom l -> nodes_ok (sl_capacity l) (ns ++ n :: fs) ->
  seg (link m (geom l) 0) (sl_head l) ns SLIST_NIL ->
  seg (link m (geom l) 0) (sl_free_head l) fs SLIST_NIL -> is_u32 (sl_free_head l) ->
  sl_tail l = default SLIST_NIL (last ns) ->
  let '(m', l') := free_node m l n in
  slist_rep m' (set_ends l' (Z.of_nat (length ns)) (sl_head l') (sl_tail l') (sl_free_head l')) ns (n :: fs) /\
  same_pool l l' /\
  mem_frame (sl_pool l) (po_bytes (geom l)) m m' /\
  map (payload m' (geom l)) ns = map (payload m (geom l)) ns.
Proof.
  intros Hg Hn Hs Hf Hfu Ht. unfold free_node.
  assert (0 <= n < sl_capacity l) as Hr.
  { apply (nodes_range _ _ n Hn), elem_of_app. right. apply list_elem_of_here. }
  pose proof (nodes_nodup _ _ Hn) as Hnd. rewrite <-Permutation_middle in Hnd.
  apply NoDup_cons in Hnd as [[Hnn Hnf]%not_elem_of_app _].
  destruct (relink l m n (sl_free_head l) Hg Hr Hfu) as (Hl & Hseg & Hps & Hfr).
  split; [|split; [done|split; [done|by rewrite Hps]]].
  split; cbn [sl_capacity sl_head sl_tail sl_free_head sl_count set_ends set_free]; try done.
  - by apply slist_geom_ends, slist_geom_ends.
  - by apply Hseg.
  - split; [done|]. rewrite geom_set_ends. change (geom (set_free l n)) with (geom l). rewrite Hl. by apply Hseg.
Qed.

Lemma pop_front_rep m l n ns fs out :
  slist_rep m l (n :: ns) fs -> buffer_ok l out ->
  let '(m', l', ok) := slist_pop_front m l out in
  let m1 := deliver m out (payload m (geom l) n) in
  ok = true /\ slist_rep m' l' ns (n :: fs) /\ same_pool l l' /\
  mem_frame (sl_pool l) (po_bytes (geom l)) m1 m' /\
  map (payload m' (geom l')) ns = map (payload m (geom l)) ns.
Proof.
  intros H Hb. pose proof (sr_geom _ _ _ _ H) as Hg.
  destruct (rep_copy_out m l (n :: ns) fs n out H Hb) as (Em & H1 & Hps). rewrite <-Em.
  pose proof (seg_head _ _ _ _ (sr_live _ _ _ _ H)) as Hh. cbn in Hh.
  destruct (node_facts m l (n :: ns) fs n (ns ++ fs) H ltac:(done)) as (Hn & Hnn & _ & _).
  unfold slist_pop_front. rewrite Hh, (proj2 (Z.eqb_neq n SLIST_NIL)) by done.
  set (m1 := copy_out m l n out) in *. rewrite node_next_link by done.
  destruct (sr_live _ _ _ _ H1) as [_ Hlive]. pose proof (seg_head _ _ _ _ Hlive) as Hh2.
  set (h2 := link m1 (geom l) 0 n) in *.
  set (l1 := set_ends l (sl_count l) h2 (if h2 =? SLIST_NIL then SLIST_NIL else sl_tail l) (sl_free_head l)).
  pose proof (free_node_rep m1 l1 n ns fs) as Hf.
  destruct (free_node m1 l1 n) as [m2 l2] eqn:E2. destruct Hf as (Hrep & Hsp & Hfr & Hps2).
  - by apply slist_geom_ends.
  - cbn. rewrite <-Permutation_middle. apply (sr_nodes _ _ _ _ H).
  - done.
  - apply (sr_free _ _ _ _ H1).
  - by apply (free_u32 m l (n :: ns) fs).
  - cbn [l1 set_ends sl_tail]. rewrite (sr_tail _ _ _ _ H), Hh2. destruct ns as [|i ns]; [done|].
    cbn [hd]. rewrite last_cons_cons.
    destruct (node_facts m l (n :: i :: ns) fs i (n :: ns ++ fs) H) as (_ & Hi & _); [cbn; constructor|].
    by rewrite (proj2 (Z.eqb_neq i SLIST_NIL)).
  - split; [done|]. injection E2 as <- <-. cbn [set_free set_ends l1 sl_count] in *.
    rewrite (count_down _ _ _ _ (length ns) H eq_refl).
    split; [done|]. split; [done|]. split; [done|]. etransitivity; [apply Hps2|].
    cbn in Hps. by injection Hps.
Qed.

(** The search for the predecessor of the tail stops at the node before it. *)
Lemma find_prev_spec m l n r : forall h p fuel,
  slist_geom l -> seg (link m (geom l) 0) h (r ++ [p]) n -> n ∉ r ++ [p] -> (length r < fuel)%nat ->
  find_prev fuel m l h n = Some p.
Proof.
  induction r as [|i r IH]; intros h p fuel Hg Hs Hn Hf; (destruct fuel as [|fuel]; [cbn in Hf; lia|]);
    cbn [find_prev app] in *; cbn [seg] in Hs; destruct Hs as [-> Hs]; rewrite node_next_link by done.
  - cbn in Hs. by rewrite Hs, Z.eqb_refl.
  - apply not_elem_of_cons in Hn as [Hni Hn].
    pose proof (seg_head _ _ _ _ Hs) as Hh. rewrite (proj2 (Z.eqb_neq _ n)).
    + apply IH; [done|done|done|cbn in Hf; lia].
    + intros E. apply Hn. rewrite <-E, Hh. destruct r; cbn; apply list_elem_of_here.
Qed.

Lemma pop_back_rep m l ns n fs out :
  slist_rep m l (ns ++ [n]) fs -> buffer_ok l out ->
  let '(m', l', ok) := slist_pop_back m l out in
  let m1 := deliver m out (payload m (geom l) n) in
  ok = true /\ slist_rep m' l' ns (n :: fs) /\ same_pool l l' /\
  mem_frame (sl_pool l) (po_bytes (geom l)) m1 m' /\
  map (payload m' (geom l')) ns = map (payload m (geom l)) ns.
Proof.
  intros H Hb. pose proof (sr_geom _ _ _ _ H) as Hg.
  destruct (rep_copy_out m l (ns ++ [n]) fs n out H Hb) as (Em & H1 & Hps). rewrite <-Em.
  rewrite !map_app in Hps. apply app_inj_2 in Hps as [Hps _]; [|done].
  pose proof (sr_tail _ _ _ _ H) as Ht. rewrite last_snoc in Ht. cbn in Ht.
  destruct (node_facts m l (ns ++ [n]) fs n (ns ++ fs) H) as (Hn & Hnn & _ & Hni).
  { rewrite <-app_assoc. cbn. by rewrite Permutation_middle. }
  apply not_elem_of_app in Hni as [Hnns Hnf].
  assert (nodes_ok (sl_capacity l) (ns ++ n :: fs)) as Hno.
  { pose proof (sr_nodes _ _ _ _ H) as Hno. by rewrite <-app_assoc in Hno. }
  assert (length (ns ++ [n]) = S (length ns)) as Hlen by (rewrite length_app; cbn; lia).
  pose proof (seg_head _ _ _ _ (sr_live _ _ _ _ H)) as Hh. pose proof (free_u32 _ _ _ _ H) as Hfu.
  unfold slist_pop_back. rewrite Ht, (proj2 (Z.eqb_neq n SLIST_NIL)) by done.
  set (m1 := copy_out m l n out) in *.
  destruct ns as [|i ns' _] using rev_ind.
  - cbn in Hh. rewrite Hh, Z.eqb_refl.
    set (l1 := set_ends l (sl_count l) SLIST_NIL SLIST_NIL (sl_free_head l)).
    pose proof (free_node_rep m1 l1 n [] fs (slist_geom_ends _ _ _ _ _ Hg) Hno eq_refl
      (sr_free _ _ _ _ H1) Hfu eq_refl) as Hf.
    destruct (free_node m1 l1 n) as [m2 l2] eqn:E2. destruct Hf as (Hrep & Hsp & Hfr & Hps2).
    split; [done|]. injection E2 as <- <-. cbn [set_free set_ends l1 sl_count] in *.
    by rewrite (count_down _ _ _ _ _ H Hlen).
  - rename i into p. destruct (node_facts m l ((ns' ++ [p]) ++ [n]) fs p (ns' ++ n :: fs) H) as (Hp & _ & _ & Hpi).
    { rewrite <-!app_assoc. cbn. by rewrite Permutation_middle. }
    apply not_elem_of_app in Hpi as [Hpns [Hpn Hpf]%not_elem_of_cons].
    assert (sl_head l <> n) as Hhn.
    { rewrite Hh. intros E. apply Hnns. rewrite <-E. destruct ns'; cbn; apply list_elem_of_here. }
    rewrite (proj2 (Z.eqb_neq _ _)) by done.
    pose proof (sr_live _ _ _ _ H1) as Hlive. apply seg_snoc in Hlive as [Hlive _].
    pose proof (free_count l Hg m _ _ H) as Hfc. rewrite !length_app in Hfc. cbn [length] in Hfc.
    rewrite (find_prev_spec m1 l n ns' (sl_head l) p) by (done || lia).
    destruct (relink l m1 p SLIST_NIL Hg Hp ltac:(by vm_compute)) as (Hl2 & Hseg2 & Hps2 & Hfr2).
    set (m2 := put_next m1 l p SLIST_NIL) in *. apply seg_snoc in Hlive as [Hlive _].
    set (l1 := set_ends l (sl_count l) (sl_head l) p (sl_free_head l)).
    pose proof (free_node_rep m2 l1 n (ns' ++ [p]) fs (slist_geom_ends _ _ _ _ _ Hg) Hno) as Hf.
    destruct (free_node m2 l1 n) as [m3 l3] eqn:E3. destruct Hf as (Hrep & Hsp & Hfr & Hps3).
    + apply seg_snoc. split; [by apply Hseg2|done].
    + apply Hseg2; [done|]. apply (sr_free _ _ _ _ H1).
    + done.
    + by rewrite last_snoc.
    + split; [done|]. injection E3 as <- <-. cbn [set_free set_ends l1 sl_count] in *.
      rewrite (count_down _ _ _ _ _ H Hlen). split; [done|]. split; [done|]. split; [by transitivity m2|].
      etransitivity; [apply Hps3|]. etransitivity; [apply Hps2|]. done.
Qed.

(** ** Clearing and initialising *)

Lemma thread_as_links l n : forall m i,
  slist_geom l -> 0 <= i -> i + Z.of_nat n = sl_capacity l -> thread n m l i = thread_links (geom l) n m i.
Proof.
  induction n as [|n IH]; intros m i Hg Hi He; [done|]. cbn [thread thread_links].
  destruct (sg_pool _ Hg) as [_ Hc _ _]. cbn in Hc. unfold NODE_NIL in Hc.
  rewrite u32_small, put_next_link by (done || umach; lia). apply IH; [done|lia|lia].
Qed.

Lemma clear_rep m l : slist_geom l ->
  let '(m', l') := slist_clear m l in
  slist_rep m' l' [] (map Z.of_nat (seq 0 (Z.to_nat (sl_capacity l)))) /\ same_pool l l' /\
  mem_frame (sl_pool l) (po_bytes (geom l)) m m'.
Proof.
  intros Hg. unfold slist_clear. destruct (sg_pool _ Hg) as [_ Hc _ _]. cbn in Hc.
  set (l1 := set_ends l 0 SLIST_NIL SLIST_NIL _).
  assert (slist_geom l1) as Hg1 by by apply slist_geom_ends.
  rewrite thread_as_links by (done || cbn; lia).
  destruct (thread_links_seg (geom l1) (sg_pool _ Hg1) m (has_next l1)) as [Hs Hfr].
  split; [|done]. split; try done. unfold nodes_ok; reflexivity.
Qed.

(** ** The list implements the interface *)

#[export] Instance slist_deque : Deque SList := {|
  dq_push s := match s with Front => slist_push_front | Back => slist_push_back end;
  dq_pop s := match s with Front => slist_pop_front | Back => slist_pop_back end;
  dq_peek s := match s with Front => slist_front | Back => slist_back end;
  dq_clear := slist_clear;
  dq_count := slist_count;
  dq_base := sl_pool;
  dq_bytes l := po_bytes (geom l);
  dq_cap := sl_capacity;
  dq_esz := sl_element_size;
  dq_inv m l := exists ns fs, slist_rep m l ns fs;
  dq_items := slist_items
|}.

Lemma same_pool_dq l l' : same_pool l l' -> dq_same l l'.
Proof.
  intros (Hp & Hc & He & Hs). unfold dq_same, dq_base, dq_bytes, dq_cap, dq_esz, slist_deque, po_bytes, po_stride, geom.
  cbn. by rewrite Hp, Hc, He.
Qed.

Lemma push_fails m l elem (push : mem -> SList -> Z -> mem * SList * bool) ns fs :
  push = slist_push_front \/ push = slist_push_back ->
  slist_rep m l ns fs -> elem = 0 \/ fs = [] -> push m l elem = (m, l, false).
Proof.
  intros Hp H He. destruct Hp as [-> | ->]; [unfold slist_push_front|unfold slist_push_back];
    (destruct (Z.eqb_spec elem 0); [done|]); destruct He as [|He]; try done;
    by rewrite (alloc_node_rep _ _ _ _ H), He.
Qed.

Lemma items_take_front m l n ns fs : slist_rep m l (n :: ns) fs ->
  take_at Front (slist_items m l) = Some (payload m (geom l) n, map (payload m (geom l)) ns).
Proof. intros H. by rewrite (items_rep _ _ _ _ H). Qed.

Lemma items_take_back m l n ns fs : slist_rep m l (ns ++ [n]) fs ->
  take_at Back (slist_items m l) = Some (payload m (geom l) n, map (payload m (geom l)) ns).
Proof. intros H. rewrite (items_rep _ _ _ _ H), map_app. apply take_at_back. Qed.

Lemma outside_frame l m m' :
  mem_frame (sl_pool l) (po_bytes (geom l)) m m' <-> mem_agree (dq_outside l) m m'.
Proof. done. Qed.

Lemma slist_push_law s m (l : SList) elem :
  dq_inv m l ->
  let '(m', l', ok) := dq_push s m l elem in
  dq_inv m' l' /\ dq_same l l' /\ mem_agree (dq_outside l) m m' /\
  if (elem =? 0) || (dq_count l =? dq_cap l)
  then ok = false /\ m' = m /\ l' = l
  else ok = true /\ dq_items m' l' = add_at s (mem_read m elem (dq_esz l)) (dq_items m l).
Proof.
  intros (ns & fs & H). cbn [dq_push dq_inv dq_count dq_cap dq_esz dq_items slist_deque].
  pose proof (full_no_free _ _ _ _ H) as Hfull. unfold slist_count.
  assert ((if match s with Front => true | Back => false end then slist_push_front else slist_push_back)
    = match s with Front => slist_push_front | Back => slist_push_back end) as <- by by destruct s.
  destruct ((elem =? 0) || (sl_count l =? sl_capacity l)) eqn:E.
  - assert (elem = 0 \/ fs = []) as He.
    { apply orb_prop in E as [E|E]; apply Z.eqb_eq in E; [by left|right; by apply Hfull]. }
    rewrite (push_fails m l elem _ ns fs) by (done || destruct s; auto).
    split; [by exists ns, fs|done].
  - apply orb_false_elim in E as [He%Z.eqb_neq Hc%Z.eqb_neq].
    destruct fs as [|n fs]; [by destruct Hc; apply Hfull|].
    destruct s.
    + pose proof (push_front_rep m l ns n fs elem H He) as Hp.
      destruct (slist_push_front m l elem) as [[m' l'] ok]. destruct Hp as (-> & H' & Hsp & Hfr & Hit).
      split; [by exists (n :: ns), fs|]. split; [by apply same_pool_dq|]. split; [done|]. split; [done|].
      by rewrite (items_rep _ _ _ _ H'), (items_rep _ _ _ _ H), Hit.
    + pose proof (push_back_rep m l ns n fs elem H He) as Hp.
      destruct (slist_push_back m l elem) as [[m' l'] ok]. destruct Hp as (-> & H' & Hsp & Hfr & Hit).
      split; [by exists (ns ++ [n]), fs|]. split; [by apply same_pool_dq|]. split; [done|]. split; [done|].
      by rewrite (items_rep _ _ _ _ H'), (items_rep _ _ _ _ H), Hit.
Qed.

Lemma pop_fails m l out s : slist_items m l = [] -> (exists fs, slist_rep m l [] fs) ->
  match s with Front => slist_pop_front | Back => slist_pop_back end m l out = (m, l, false) /\
  match s with Front => slist_front | Back => slist_back end m l out = (m, false).
Proof.
  intros Hi (fs & H). pose proof (proj2 (head_nil _ _ _ _ H) eq_refl) as Hh.
  pose proof (proj2 (tail_nil _ _ _ _ H) eq_refl) as Ht.
  unfold slist_pop_front, slist_pop_back, slist_front, slist_back.
  destruct s; [by rewrite Hh|by rewrite Ht].
Qed.

Lemma slist_pop_law s m (l : SList) out :
  dq_inv m l -> dq_buffer l out ->
  let '(m', l', ok) := dq_pop s m l out in
  dq_inv m' l' /\ dq_same l l' /\
  match take_at s (dq_items m l) with
  | None => ok = false /\ m' = m /\ l' = l
  | Some (x, rest) => ok = true /\ dq_items m' l' = rest /\
                      mem_agree (dq_outside l) (deliver m out x) m'
  end.
Proof.
  intros (ns & fs & H) Hb. cbn [dq_pop dq_inv dq_items slist_deque].
  destruct (decide (ns = [])) as [->|Hne].
  - pose proof (items_rep _ _ _ _ H) as Hi. cbn in Hi.
    rewrite (proj1 (pop_fails m l out s Hi (ex_intro _ fs H))), Hi. destruct s; (split; [by exists [], fs|done]).
  - destruct s.
    + destruct ns as [|n ns]; [done|]. rewrite (items_take_front m l n ns fs H).
      pose proof (pop_front_rep m l n ns fs out H Hb) as Hp.
      destruct (slist_pop_front m l out) as [[m' l'] ok]. destruct Hp as (-> & H' & Hsp & Hfr & Hit).
      split; [by exists ns, (n :: fs)|]. split; [by apply same_pool_dq|]. split; [done|].
      split; [by rewrite (items_rep _ _ _ _ H')|done].
    + destruct (last_split ns Hne) as (r & n & ->). rewrite (items_take_back m l n r fs H).
      pose proof (pop_back_rep m l r n fs out H Hb) as Hp.
      destruct (slist_pop_back m l out) as [[m' l'] ok]. destruct Hp as (-> & H' & Hsp & Hfr & Hit).
      split; [by exists r, (n :: fs)|]. split; [by apply same_pool_dq|]. split; [done|].
      split; [by rewrite (items_rep _ _ _ _ H')|done].
Qed.

Lemma slist_peek_law s m (l : SList) out :
  dq_inv m l ->
  dq_peek s m l out =
  match take_at s (dq_items m l) with
  | None => (m, false)
  | Some (x, _) => (deliver m out x, true)
  end.
Proof.
  intros (ns & fs & H). pose proof (sr_geom _ _ _ _ H) as Hg. cbn [dq_peek dq_items slist_deque].
  destruct (decide (ns = [])) as [->|Hne].
  - pose proof (items_rep _ _ _ _ H) as Hi. cbn in Hi.
    rewrite (proj2 (pop_fails m l out s Hi (ex_intro _ fs H))), Hi. by destruct s.
  - destruct s.
    + destruct ns as [|n ns]; [done|]. rewrite (items_take_front m l n ns fs H). unfold slist_front.
      rewrite (proj2 (Z.eqb_neq _ _)) by (by intros ?%(head_nil _ _ _ _ H)).
      rewrite copy_out_deliver by done. by rewrite (seg_head _ _ _ _ (sr_live _ _ _ _ H)).
    + destruct (last_split ns Hne) as (r & n & ->). rewrite (items_take_back m l n r fs H). unfold slist_back.
      rewrite (proj2 (Z.eqb_neq _ _)) by (by intros ?%(tail_nil _ _ _ _ H)).
      rewrite copy_out_deliver by done. by rewrite (sr_tail _ _ _ _ H), last_snoc.
Qed.

#[export] Instance slist_deque_laws : DequeLaws SList.
Proof.
  split.
  - apply slist_push_law.
  - apply slist_pop_law.
  - apply slist_peek_law.
  - intros m l (ns & fs & H). cbn [dq_clear slist_deque].
    pose proof (clear_rep m l (sr_geom _ _ _ _ H)) as Hc. destruct (slist_clear m l) as [m' l'].
    destruct Hc as (H' & Hsp & Hfr). split; [by eexists _, _|]. split; [by apply same_pool_dq|].
    split; [done|]. apply (items_rep _ _ _ _ H').
  - intros m l (ns & fs & H). cbn. unfold slist_count. rewrite (items_rep _ _ _ _ H), length_map.
    apply H.
  - intros m m' l (ns & fs & H) Ha. destruct (rep_agree m m' l ns fs H Ha) as [H' Hps].
    split; [by exists ns, fs|]. cbn. by rewrite (items_rep _ _ _ _ H'), (items_rep _ _ _ _ H).
  - intros m l (ns & fs & H). destruct (sg_pool _ (sr_geom _ _ _ _ H)) as [_ _ _ He]. cbn in *.
    split; [done|]. rewrite (items_rep _ _ _ _ H). apply Forall_map. apply Forall_true. intros i.
    cbn. rewrite (payload_length (geom l)); [done|]. apply (sr_geom _ _ _ _ H).
Qed.

Lemma slist_init_rep m l0 pool pool_bytes esz :
  0 < pool -> 0 < esz < 0xFFFFFFFF -> 4 + esz <= pool_bytes -> pool_bytes / (4 + esz) < 0xFFFFFFFF ->
  let '(m', l, ok) := slist_init m l0 pool pool_bytes esz in
  ok = true /\ dq_inv m' l /\ dq_items m' l = [] /\
  dq_base l = pool /\ dq_cap l = pool_bytes / (4 + esz) /\ dq_esz l = esz /\
  dq_bytes l <= pool_bytes /\ mem_agree (dq_outside l) m m'.
Proof.
  intros Hp He Hb Hc. unfold slist_init, SLIST_NODE_OVERHEAD, SLIST_NIL.
  rewrite (proj2 (Z.eqb_neq pool 0)), (proj2 (Z.eqb_neq esz 0)) by lia. cbn [orb].
  rewrite u64_small by (umach; lia).
  assert (1 <= pool_bytes / (4 + esz)) by (apply Z.div_le_lower_bound; lia).
  rewrite (proj2 (Z.eqb_neq _ 0)), (proj2 (Z.leb_gt _ _)) by lia.
  set (l1 := mkSList pool _ esz _ _ _ _ _).
  assert (slist_geom l1) as Hg by (split; [split|]; cbn; unfold NODE_NIL, SLIST_NODE_OVERHEAD; lia).
  pose proof (clear_rep m l1 Hg) as Hcl. destruct (slist_clear m l1) as [m' l'].
  destruct Hcl as (H' & (Hp1 & Hc1 & He1 & Hs1) & Hfr). split; [done|]. split; [by eexists _, _|].
  split; [apply (items_rep _ _ _ _ H')|]. cbn [dq_base dq_cap dq_esz dq_bytes slist_deque].
  split; [done|]. split; [done|]. split; [done|].
  unfold dq_outside, po_bytes, po_stride, geom. cbn [dq_base dq_bytes slist_deque po_cap po_links po_esz].
  unfold po_bytes, po_stride, geom, SLIST_NODE_OVERHEAD in *. cbn [po_cap po_links po_esz] in *.
  rewrite Hp1, Hc1, He1. split; [|exact Hfr].
  cbn [l1 sl_capacity sl_element_size]. rewrite Z.mul_comm. apply Z.mul_div_le. lia.
Qed.

(** ** Iteration *)

(** The nodes that [for (c = slist_begin(l); c != SLIST_NIL; c = slist_next(l, c))]
    visits, within [fuel] rounds. *)
Fixpoint slist_iter (fuel : nat) (m : mem) (l : SList) (c : Z) : list Z :=
  match fuel with
  | O => []
  | S fuel => if c =? SLIST_NIL then [] else c :: slist_iter fuel m l (slist_next m l c)
  end.

Lemma slist_iter_seg m l ns : forall h fuel,
  slist_geom l -> Forall (fun i => 0 <= i < sl_capacity l) ns ->
  seg (link m (geom l) 0) h ns SLIST_NIL -> (length ns < fuel)%nat -> slist_iter fuel m l h = ns.
Proof.
  induction ns as [|i ns IH]; intros h fuel Hg Hr Hs Hf; (destruct fuel as [|fuel]; [cbn in Hf; lia|]);
    cbn [slist_iter seg] in *; [by rewrite Hs|].
  apply Forall_cons in Hr as [Hi Hr]. destruct Hs as [-> Hs].
  destruct (range_nil l Hg i Hi) as [Hn _]. rewrite (proj2 (Z.eqb_neq _ _)) by done. f_equal.
  unfold slist_next. rewrite (proj2 (Z.eqb_neq _ _)), (proj2 (Z.leb_gt _ _)) by (done || lia). cbn [orb].
  rewrite node_next_link by done. apply IH; [done|done|done|cbn in Hf; lia].
Qed.

(** ** Properties *)

(** The singly linked list refines a bounded double-ended queue: initialising
    a list over a pool succeeds, and from there every client script of pushes and
    pops at both ends (with or without a destination), peeks, clears, counts and
    client stores outside the pool sees exactly what the abstract queue of
    [pool_bytes / (4 + element_size)] blocks shows; in particular the
    linear search of [slist_pop_back] always ends at the new tail. *)
Theorem slist_refines m l0 pool pool_bytes esz cs :
  0 < pool -> 0 < esz < 0xFFFFFFFF -> 4 + esz <= pool_bytes -> pool_bytes / (4 + esz) < 0xFFFFFFFF ->
  Forall (deque_cmd_outside pool pool_bytes esz) cs ->
  let '(m', l, ok) := slist_init m l0 pool pool_bytes esz in
  ok = true /\ deque_run m' l cs = deque_spec_run (pool_bytes / (4 + esz)) esz m [] cs.
Proof.
  intros Hp He Hb Hc Hcs. pose proof (slist_init_rep m l0 pool pool_bytes esz Hp He Hb Hc) as Hi.
  destruct (slist_init m l0 pool pool_bytes esz) as [[m' l] ok].
  destruct Hi as (-> & Hinv & Hit & Hba & Hca & Hes & Hby & Hfr). split; [done|].
  rewrite <-Hca, <-Hes. apply deque_refines; [by split_and!|]. rewrite Hba, Hes.
  eapply Forall_impl; [exact Hcs|]. intros c. by apply deque_cmd_outside_mono.
Qed.

(** Forward iteration visits the list exactly once in order: within one round
    per element the cursor reaches [SLIST_NIL], and [slist_get] at the k-th cursor
    delivers the k-th element. *)
Theorem slist_iterates m (l : SList) fuel :
  dq_inv m l -> (Z.to_nat (slist_count l) < fuel)%nat ->
  let cursors := slist_iter fuel m l (slist_begin l) in
  Z.of_nat (length cursors) = slist_count l /\
  forall k c out, cursors !! k = Some c ->
    exists x, slist_items m l !! k = Some x /\ slist_get m l c out = (deliver m out x, true).
Proof.
  intros (ns & fs & H) Hf. pose proof (sr_geom _ _ _ _ H) as Hg. pose proof (sr_count _ _ _ _ H) as Hc.
  assert (Forall (fun i => 0 <= i < sl_capacity l) ns) as Hr.
  { apply Forall_forall. intros i Hi. apply (rep_range l m ns fs i H), elem_of_app. by left. }
  unfold slist_begin, slist_count in *.
  rewrite (slist_iter_seg m l ns _ fuel Hg Hr (sr_live _ _ _ _ H)) by lia. split; [done|].
  intros k c out Hk. rewrite (items_rep _ _ _ _ H). exists (payload m (geom l) c).
  split; [by rewrite list_lookup_fmap, Hk|]. rewrite Forall_forall in Hr.
  specialize (Hr c (list_elem_of_lookup_2 _ _ _ Hk)). destruct (range_nil l Hg c Hr) as [Hn _].
  unfold slist_get. rewrite (proj2 (Z.eqb_neq _ _)), (proj2 (Z.leb_gt _ _)) by (done || lia). cbn [orb].
  by rewrite copy_out_deliver.
Qed.

(** ** A list of three two-byte elements *)

Definition demo_slist : mem * SList * bool :=
  slist_init (fun x => x mod 0x100) (mkSList 0 0 0 0 0 0 0 0) 0x1000 20 2.
Definition demo_slist_cmds : list deque_cmd :=
  [DPush Back 0x10; DPush Front 0x20; DPush Back 0x30; DPush Back 0x40; DCount;
   DPop Back 0x50; DPeek Front 0x60; DPop Front 0; DPop Back 0x70; DPop Back 0x70].

Lemma slist_refines_witness :
  (let '(m', l, ok) := demo_slist in
   ok = true /\ deque_run m' l demo_slist_cmds =
     deque_spec_run (20 / (4 + 2)) 2 (fun x => x mod 0x100) [] demo_slist_cmds) /\
  deque_spec_run 3 2 (fun x => x mod 0x100) [] demo_slist_cmds =
    [(1, []); (1, []); (1, []); (0, []); (3, []); (1, [0x30; 0x31]); (1, [0x20; 0x21]); (1, []);
     (1, [0x10; 0x11]); (0, [])].
Proof.
  split; [|vm_compute; reflexivity].
  apply (slist_refines (fun x => x mod 0x100) (mkSList 0 0 0 0 0 0 0 0) 0x1000 20 2 demo_slist_cmds);
    [lia|lia|lia|by vm_compute|].
  repeat constructor; unfold rdisj; lia.
Defined.

Definition demo_slist2 : mem * SList :=
  let '(m, l, _) := demo_slist in
  let '(m, l, _) := slist_push_back m l 0x10 in (slist_push_front m l 0x20).1.

Lemma demo_slist2_inv : dq_inv demo_slist2.1 demo_slist2.2.
Proof.
  pose proof (slist_init_rep (fun x => x mod 0x100) (mkSList 0 0 0 0 0 0 0 0) 0x1000 20 2
    ltac:(lia) ltac:(lia) ltac:(lia) ltac:(by vm_compute)) as Hi. fold demo_slist in Hi.
  unfold demo_slist2. destruct demo_slist as [[m l] ok]. destruct Hi as (_ & Hi & _).
  pose proof (slist_push_law Back m l 0x10 Hi) as H1. cbn [dq_push slist_deque] in H1.
  destruct (slist_push_back m l 0x10) as [[m1 l1] ok1]. destruct H1 as [H1 _].
  pose proof (slist_push_law Front m1 l1 0x20 H1) as H2. cbn [dq_push slist_deque] in H2.
  destruct (slist_push_front m1 l1 0x20) as [[m2 l2] ok2]. apply H2.
Qed.

Lemma slist_iterates_witness :
  let '(m, l) := demo_slist2 in
  let cursors := slist_iter 3 m l (slist_begin l) in
  Z.of_nat (length cursors) = slist_count l /\
  forall k c out, cursors !! k = Some c ->
    exists x, slist_items m l !! k = Some x /\ slist_get m l c out = (deliver m out x, true).
Proof.
  exact (slist_iterates demo_slist2.1 demo_slist2.2 3 demo_slist2_inv ltac:(vm_compute; lia)).
Defined.
