(* ===== verification/DList.v ===== *)
(** The doubly linked list ([src/containers/dlist.c]) over a caller-provided pool:
    as [SList], with a [prev] word next to each [next].  Both ends work the same
    way with the two links exchanged, and so do their proofs: a chain and its
    mirror image.  The list is shown to implement [Deque]. *)
From S2P Require Import Prelude HostMem NodePool Deque.

Definition DLIST_NIL : Z := 0xFFFFFFFF.
Definition DLIST_NODE_OVERHEAD : Z := 8.

Record DList := mkDList {
  dl_pool : Z;
  dl_capacity : Z;
  dl_element_size : Z;
  dl_stride : Z;
  dl_count : Z;
  dl_head : Z;
  dl_tail : Z;
  dl_free_head : Z
}.

Definition set_ends (l : DList) (count head tail free_head : Z) : DList :=
  mkDList (dl_pool l) (dl_capacity l) (dl_element_size l) (dl_stride l) count head tail free_head.
Definition set_free (l : DList) (free_head : Z) : DList :=
  set_ends l (dl_count l) (dl_head l) (dl_tail l) free_head.

(** ** Node access *)

Definition node_at (l : DList) (i : Z) : Z := dl_pool l + i * dl_stride l.
Definition node_next (m : mem) (l : DList) (i : Z) : Z := load32 m (node_at l i).
Definition put_next (m : mem) (l : DList) (i v : Z) : mem := store32 m (node_at l i) v.
Definition node_prev (m : mem) (l : DList) (i : Z) : Z := load32 m (node_at l i + 4).
Definition put_prev (m : mem) (l : DList) (i v : Z) : mem := store32 m (node_at l i + 4) v.
Definition node_payload (l : DList) (i : Z) : Z := node_at l i + DLIST_NODE_OVERHEAD.

Definition copy_out (m : mem) (l : DList) (n out : Z) : mem :=
  if out =? 0 then m else memcpy m out (node_payload l n) (dl_element_size l).

Definition dlist_pool_bytes (capacity element_size : Z) : Z :=
  u64 (capacity * u64 (DLIST_NODE_OVERHEAD + element_size)).

(** ** Life cycle *)

Fixpoint thread (n : nat) (m : mem) (l : DList) (i : Z) : mem :=
  match n with
  | O => m
  | S n =>
      thread n (put_next m l i (if u32 (i + 1) <? dl_capacity l then u32 (i + 1) else DLIST_NIL))
        l (i + 1)
  end.

Definition dlist_clear (m : mem) (l : DList) : mem * DList :=
  let l := set_ends l 0 DLIST_NIL DLIST_NIL (if 0 <? dl_capacity l then 0 else DLIST_NIL) in
  (thread (Z.to_nat (dl_capacity l)) m l 0, l).

Definition dlist_init (m : mem) (l : DList) (pool pool_bytes element_size : Z) : mem * DList * bool :=
  if (pool =? 0) || (element_size =? 0) then (m, l, false) else
  let stride := u64 (DLIST_NODE_OVERHEAD + element_size) in
  let capacity := pool_bytes / stride in
  if capacity =? 0 then (m, l, false) else
  if DLIST_NIL <=? capacity then (m, l, false) else
  let '(m, l) := dlist_clear m (mkDList pool capacity element_size stride
                                  (dl_count l) (dl_head l) (dl_tail l) (dl_free_head l)) in
  (m, l, true).

Definition alloc_node (m : mem) (l : DList) : DList * Z :=
  let i := dl_free_head l in
  if i =? DLIST_NIL then (l, DLIST_NIL) else (set_free l (node_next m l i), i).

Definition free_node (m : mem) (l : DList) (i : Z) : mem * DList :=
  (put_next m l i (dl_free_head l), set_free l i).

(** ** Insertion and removal *)

Definition dlist_push_front (m : mem) (l : DList) (elem : Z) : mem * DList * bool :=
  if elem =? 0 then (m, l, false) else
  let '(l, n) := alloc_node m l in
  if n =? DLIST_NIL then (m, l, false) else
  let m := memcpy m (node_payload l n) elem (dl_element_size l) in
  let m := put_prev m l n DLIST_NIL in
  let m := put_next m l n (dl_head l) in
  let '(m, tail) :=
    if negb (dl_head l =? DLIST_NIL) then (put_prev m l (dl_head l) n, dl_tail l) else (m, n) in
  (m, set_ends l (u64 (dl_count l + 1)) n tail (dl_free_head l), true).

Definition dlist_push_back (m : mem) (l : DList) (elem : Z) : mem * DList * bool :=
  if elem =? 0 then (m, l, false) else
  let '(l, n) := alloc_node m l in
  if n =? DLIST_NIL then (m, l, false) else
  let m := memcpy m (node_payload l n) elem (dl_element_size l) in
  let m := put_next m l n DLIST_NIL in
  let m := put_prev m l n (dl_tail l) in
  let '(m, head) :=
    if negb (dl_tail l =? DLIST_NIL) then (put_next m l (dl_tail l) n, dl_head l) else (m, n) in
  (m, set_ends l (u64 (dl_count l + 1)) head n (dl_free_head l), true).

Definition dlist_pop_front (m : mem) (l : DList) (out : Z) : mem * DList * bool :=
  if dl_head l =? DLIST_NIL then (m, l, false) else
  let n := dl_head l in
  let m := copy_out m l n out in
  let head := node_next m l n in
  let '(m, tail) :=
    if negb (head =? DLIST_NIL) then (put_prev m l head DLIST_NIL, dl_tail l) else (m, DLIST_NIL) in
  let l := set_ends l (dl_count l) head tail (dl_free_head l) in
  let '(m, l) := free_node m l n in
  (m, set_ends l (u64 (dl_count l - 1)) (dl_head l) (dl_tail l) (dl_free_head l), true).

Definition dlist_pop_back (m : mem) (l : DList) (out : Z) : mem * DList * bool :=
  if dl_tail l =? DLIST_NIL then (m, l, false) else
  let n := dl_tail l in
  let m := copy_out m l n out in
  let tail := node_prev m l n in
  let '(m, head) :=
    if negb (tail =? DLIST_NIL) then (put_next m l tail DLIST_NIL, dl_head l) else (m, DLIST_NIL) in
  let l := set_ends l (dl_count l) head tail (dl_free_head l) in
  let '(m, l) := free_node m l n in
  (m, set_ends l (u64 (dl_count l - 1)) (dl_head l) (dl_tail l) (dl_free_head l), true).

(** ** Reading *)

Definition dlist_front (m : mem) (l : DList) (out : Z) : mem * bool :=
  if dl_head l =? DLIST_NIL then (m, false) else (copy_out m l (dl_head l) out, true).

Definition dlist_back (m : mem) (l : DList) (out : Z) : mem * bool :=
  if dl_tail l =? DLIST_NIL then (m, false) else (copy_out m l (dl_tail l) out, true).

Definition dlist_count (l : DList) : Z := dl_count l.
Definition dlist_empty (l : DList) : bool := dl_count l =? 0.
Definition dlist_full (l : DList) : bool := dl_capacity l <=? dl_count l.

Definition dlist_begin (l : DList) : Z := dl_head l.
Definition dlist_rbegin (l : DList) : Z := dl_tail l.

Definition dlist_next (m : mem) (l : DList) (cursor : Z) : Z :=
  if (cursor =? DLIST_NIL) || (dl_capacity l <=? cursor) then DLIST_NIL else node_next m l cursor.

Definition dlist_prev (m : mem) (l : DList) (cursor : Z) : Z :=
  if (cursor =? DLIST_NIL) || (dl_capacity l <=? cursor) then DLIST_NIL else node_prev m l cursor.

Definition dlist_get (m : mem) (l : DList) (cursor out : Z) : mem * bool :=
  if (cursor =? DLIST_NIL) || (dl_capacity l <=? cursor) then (m, false)
  else (copy_out m l cursor out, true).

(** ** Doubly linked chains *)

Section chain.
Context (g : Pool) (Hg : pool_ok g).
Context (kf kb : Z) (Hkf : has_link g kf) (Hkb : has_link g kb) (Hne : kf <> kb).

(** The chain [ns] from [h] along the first link, and back from [t] along the
    second. *)
Definition dchain (m : mem) (kf kb h t : Z) (ns : list Z) : Prop :=
  seg (link m g kf) h ns NODE_NIL /\ seg (link m g kb) t (rev ns) NODE_NIL.

Definition in_pool (ns : list Z) : Prop := Forall (fun i => 0 <= i < po_cap g) ns.

(** What the operations on a chain leave alone: chains along either link through
    other nodes. *)
Definition kept (m m' : mem) (ns : list Z) : Prop :=
  mem_frame (po_base g) (po_bytes g) m m' /\
  forall k h fs t, has_link g k -> (forall i, i ∈ ns -> i ∉ fs) ->
    seg (link m g k) h fs t -> seg (link m' g k) h fs t.

Lemma kept_trans m1 m2 m3 ns : kept m1 m2 ns -> kept m2 m3 ns -> kept m1 m3 ns.
Proof. intros [F1 K1] [F2 K2]. split; [by transitivity m2|]. auto. Qed.

Lemma kept_link m k i v ns : has_link g k -> is_u32 v -> 0 <= i < po_cap g -> i ∈ ns ->
  kept m (set_link m g k i v) ns.
Proof.
  intros Hk Hv Hi Hin. split; [by apply set_link_frame|].
  intros k' h fs t Hk' Hd Hs. apply seg_link_write; [done..| |done]. intros _. by apply Hd.
Qed.

Lemma kept_payload m i src ns : 0 <= i < po_cap g -> kept m (set_payload m g i src) ns.
Proof.
  intros Hi. split; [by apply set_payload_frame|]. intros k h fs t Hk _ Hs. by apply seg_payload_write.
Qed.

Lemma chain_end_u32 nx h ns : in_pool ns -> seg nx h ns NODE_NIL -> is_u32 h.
Proof.
  intros Hp Hs. rewrite (seg_head _ _ _ _ Hs). destruct ns as [|i ns]; [by vm_compute|].
  apply Forall_cons in Hp as [Hi _]. cbn. by apply (pool_index g Hg i).
Qed.

Lemma chain_nil nx h ns : in_pool ns -> seg nx h ns NODE_NIL -> h = NODE_NIL <-> ns = [].
Proof.
  intros Hp Hs. rewrite (seg_head _ _ _ _ Hs). destruct ns as [|i ns]; [done|].
  apply Forall_cons in Hp as [Hi _]. cbn. split; [|done]. intros E.
  by destruct (pool_index g Hg i Hi).
Qed.

(** Linking the fresh node [n] in front. *)
Definition chain_push (m : mem) (h t n src : Z) : mem * Z :=
  let m := set_payload m g n src in
  let m := set_link m g kb n NODE_NIL in
  let m := set_link m g kf n h in
  if negb (h =? NODE_NIL) then (set_link m g kb h n, t) else (m, n).

Lemma chain_push_spec m h t ns n src :
  dchain m kf kb h t ns -> in_pool (n :: ns) -> NoDup (n :: ns) ->
  let '(m', t') := chain_push m h t n src in
  dchain m' kf kb n t' (n :: ns) /\ kept m m' (n :: ns) /\
  map (payload m' g) (n :: ns) = mem_read m src (po_esz g) :: map (payload m g) ns.
Proof.
  intros [Hf Hb] Hp Hnd. pose proof Hp as [Hn Hns]%Forall_cons. apply NoDup_cons in Hnd as [Hni Hnd].
  destruct (pool_index g Hg n Hn) as [Hnn Hnu]. pose proof (chain_end_u32 _ _ _ Hns Hf) as Hhu.
  assert (is_u32 NODE_NIL) as Hnil by by vm_compute.
  unfold chain_push. set (m1 := set_payload m g n src). set (m2 := set_link m1 g kb n NODE_NIL).
  set (m3 := set_link m2 g kf n h).
  assert (kept m m3 (n :: ns)) as Hk3.
  { apply kept_trans with m1; [by apply kept_payload|].
    apply kept_trans with m2; apply kept_link; done || apply list_elem_of_here. }
  assert (link m3 g kf n = h) as Lf by (unfold m3; rewrite link_set by done; by rewrite decide_True).
  assert (link m3 g kb n = NODE_NIL) as Lb.
  { unfold m3. rewrite link_set by done. rewrite decide_False by (by intros [_ ?]).
    unfold m2. rewrite link_set by done. by rewrite decide_True. }
  assert (seg (link m3 g kf) h ns NODE_NIL) as Hf3.
  { unfold m3, m2, m1. apply seg_link_write; [done..|]. apply seg_link_write; [done..|].
    by apply seg_payload_write. }
  assert (seg (link m3 g kb) t (rev ns) NODE_NIL) as Hb3.
  { assert (n ∉ rev ns) by (by rewrite list_elem_of_In, <-in_rev, <-list_elem_of_In).
    unfold m3, m2, m1. apply seg_link_write; [done..|]. apply seg_link_write; [done..|].
    by apply seg_payload_write. }
  assert (map (payload m3 g) (n :: ns) = mem_read m src (po_esz g) :: map (payload m g) ns) as Hps.
  { unfold m3, m2. rewrite !payloads_link_write by done. unfold m1. cbn [map].
    rewrite payload_set_payload by done. rewrite decide_True by done. f_equal. by apply payloads_payload_write. }
  pose proof (chain_nil _ _ _ Hns Hf) as Hnl.
  destruct (Z.eqb_spec h NODE_NIL) as [E|E]; cbn [negb].
  - apply Hnl in E as ->. split; [split; cbn [rev app seg]; [split; [done|by rewrite Lf]|done]|done].
  - destruct ns as [|i ns]; [by destruct E; apply Hnl|].
    pose proof (seg_head _ _ _ _ Hf) as ->. cbn [hd] in *.
    apply Forall_cons in Hns as [Hi Hns]. apply not_elem_of_cons in Hni as [Hin Hni].
    apply NoDup_cons in Hnd as [Hii Hnd].
    assert (i ∉ rev ns) as Hir by (by rewrite list_elem_of_In, <-in_rev, <-list_elem_of_In).
    split; [split|split].
    + cbn [seg] in Hf3 |- *. split; [done|]. rewrite link_set, decide_False by (done || by intros [? _]).
      rewrite Lf. apply (seg_link_write g Hg m3 kb i n kf i (i :: ns)); [done..|]. by cbn.
    + change (rev (n :: i :: ns)) with ((rev ns ++ [i]) ++ [n]). cbn [rev] in Hb3.
      apply seg_snoc in Hb3 as [Hb3 _]. apply seg_snoc. split; [apply seg_snoc; split|].
      * by apply seg_link_write.
      * rewrite link_set by done. by rewrite decide_True.
      * rewrite link_set by done. rewrite decide_False; [done|]. by intros [-> _].
    + apply kept_trans with m3; [done|]. apply kept_link; [done..|].
      apply list_elem_of_further, list_elem_of_here.
    + rewrite payloads_link_write by done. exact Hps.
Qed.

(** Unlinking the first node. *)
Definition chain_pop (m : mem) (t n : Z) : mem * Z * Z :=
  let h := link m g kf n in
  if negb (h =? NODE_NIL) then (set_link m g kb h NODE_NIL, h, t) else (m, h, NODE_NIL).

Lemma chain_pop_spec m h t n ns :
  dchain m kf kb h t (n :: ns) -> in_pool (n :: ns) -> NoDup (n :: ns) ->
  let '(m', h', t') := chain_pop m t n in
  dchain m' kf kb h' t' ns /\ kept m m' ns /\ map (payload m' g) ns = map (payload m g) ns.
Proof.
  intros [[_ Hf] Hb] Hp Hnd. apply Forall_cons in Hp as [Hn Hns]. apply NoDup_cons in Hnd as [Hni Hnd].
  unfold chain_pop. set (h' := link m g kf n) in *. pose proof (chain_nil _ _ _ Hns Hf) as Hnl.
  destruct (Z.eqb_spec h' NODE_NIL) as [E|E]; cbn [negb].
  - apply Hnl in E as ->. repeat split; done || reflexivity.
  - destruct ns as [|i ns]; [by destruct E; apply Hnl|].
    pose proof (seg_head _ _ _ _ Hf) as Hh. cbn [hd] in Hh. rewrite Hh in *.
    apply Forall_cons in Hns as [Hi Hns]. apply NoDup_cons in Hnd as [Hii Hnd].
    assert (i ∉ rev ns) as Hir by (by rewrite list_elem_of_In, <-in_rev, <-list_elem_of_In).
    assert (is_u32 NODE_NIL) as Hnil by by vm_compute.
    split; [split|split].
    + by apply seg_link_write.
    + change (rev (n :: i :: ns)) with ((rev ns ++ [i]) ++ [n]) in Hb. cbn [rev].
      apply seg_snoc in Hb as [Hb _]. apply seg_snoc in Hb as [Hb _]. apply seg_snoc. split.
      * by apply seg_link_write.
      * rewrite link_set by done. by rewrite decide_True.
    + apply kept_link; [done..|]. apply list_elem_of_here.
    + by rewrite payloads_link_write.
Qed.

End chain.

Lemma dchain_mirror g m kf kb h t ns : dchain g m kf kb h t ns <-> dchain g m kb kf t h (rev ns).
Proof. unfold dchain. rewrite rev_involutive. tauto. Qed.

(** ** Representation *)

Definition geom (l : DList) : Pool :=
  mkPool (dl_pool l) (dl_capacity l) DLIST_NODE_OVERHEAD (dl_element_size l).

Record dlist_geom (l : DList) : Prop := {
  dg_pool : pool_ok (geom l);
  dg_stride : dl_stride l = DLIST_NODE_OVERHEAD + dl_element_size l
}.

Record dlist_rep (m : mem) (l : DList) (ns fs : list Z) : Prop := {
  dr_geom : dlist_geom l;
  dr_nodes : nodes_ok (dl_capacity l) (ns ++ fs);
  dr_live : dchain (geom l) m 0 1 (dl_head l) (dl_tail l) ns;
  dr_free : seg (link m (geom l) 0) (dl_free_head l) fs DLIST_NIL;
  dr_count : dl_count l = Z.of_nat (length ns)
}.

Lemma d_at_node l i : dlist_geom l -> node_at l i = at_node (geom l) i.
Proof. intros [_ Hs]. unfold node_at, at_node, slot, po_stride. cbn. by rewrite Hs. Qed.

Lemma d_next_link m l i : dlist_geom l -> node_next m l i = link m (geom l) 0 i.
Proof. intros Hg. unfold node_next, link. rewrite d_at_node by done. f_equal. lia. Qed.

Lemma d_put_next m l i v : dlist_geom l -> put_next m l i v = set_link m (geom l) 0 i v.
Proof. intros Hg. unfold put_next, set_link. rewrite d_at_node by done. f_equal. lia. Qed.

Lemma d_prev_link m l i : dlist_geom l -> node_prev m l i = link m (geom l) 1 i.
Proof. intros Hg. unfold node_prev, link. by rewrite d_at_node by done. Qed.

Lemma d_put_prev m l i v : dlist_geom l -> put_prev m l i v = set_link m (geom l) 1 i v.
Proof. intros Hg. unfold put_prev, set_link. by rewrite d_at_node by done. Qed.

Lemma d_copy_in m l i src : dlist_geom l ->
  memcpy m (node_payload l i) src (dl_element_size l) = set_payload m (geom l) i src.
Proof. intros Hg. unfold node_payload, set_payload. by rewrite d_at_node by done. Qed.

Lemma d_copy_out m l i out : dlist_geom l ->
  copy_out m l i out = deliver m out (payload m (geom l) i).
Proof.
  intros Hg. unfold copy_out, deliver, payload, memcpy, node_payload. by rewrite d_at_node by done.
Qed.

Lemma d_has_next l : has_link (geom l) 0.
Proof. unfold has_link, geom, DLIST_NODE_OVERHEAD. cbn. lia. Qed.
Lemma d_has_prev l : has_link (geom l) 1.
Proof. unfold has_link, geom, DLIST_NODE_OVERHEAD. cbn. lia. Qed.

Lemma dlist_geom_ends l c h t f : dlist_geom l -> dlist_geom (set_ends l c h t f).
Proof. by intros []. Qed.

Definition dlist_items (m : mem) (l : DList) : list (list Z) :=
  map (payload m (geom l)) (walk (Z.to_nat (dl_count l)) (link m (geom l) 0) (dl_head l)).

Lemma d_items m l ns fs : dlist_rep m l ns fs -> dlist_items m l = map (payload m (geom l)) ns.
Proof.
  intros H. unfold dlist_items. rewrite (dr_count _ _ _ _ H), Nat2Z.id. f_equal.
  apply (seg_walk _ _ _ _ (proj1 (dr_live _ _ _ _ H))).
Qed.

Lemma d_in_pool m l ns fs : dlist_rep m l ns fs -> in_pool (geom l) ns /\ in_pool (geom l) fs.
Proof.
  intros H. apply Forall_app. apply Forall_forall. intros i Hi. apply (nodes_range _ _ i (dr_nodes _ _ _ _ H) Hi).
Qed.

Lemma d_nodup m l ns fs : dlist_rep m l ns fs ->
  NoDup ns /\ NoDup fs /\ forall i, i ∈ ns -> i ∉ fs.
Proof.
  intros H. pose proof (nodes_nodup _ _ (dr_nodes _ _ _ _ H)) as Hnd.
  apply NoDup_app in Hnd as (H1 & H2 & H3). done.
Qed.

Lemma d_head_nil m l ns fs : dlist_rep m l ns fs -> dl_head l = DLIST_NIL <-> ns = [].
Proof.
  intros H. apply (chain_nil (geom l) (dg_pool _ (dr_geom _ _ _ _ H)) (link m (geom l) 0)).
  - by apply (d_in_pool _ _ _ _ H).
  - apply (dr_live _ _ _ _ H).
Qed.

Lemma in_pool_rev g ns : in_pool g (rev ns) <-> in_pool g ns.
Proof.
  unfold in_pool. rewrite !Forall_forall.
  split; intros Hi i Hin; apply Hi; revert Hin; by rewrite !list_elem_of_In, <-in_rev.
Qed.

Lemma rev_nil_iff {A} (l : list A) : rev l = [] <-> l = [].
Proof. split; [|by intros ->]. intros E. by rewrite <-(rev_involutive l), E. Qed.

Lemma d_tail_nil m l ns fs : dlist_rep m l ns fs -> dl_tail l = DLIST_NIL <-> ns = [].
Proof.
  intros H. rewrite <-(rev_nil_iff ns).
  apply (chain_nil (geom l) (dg_pool _ (dr_geom _ _ _ _ H)) (link m (geom l) 1)).
  - apply in_pool_rev. by apply (d_in_pool _ _ _ _ H).
  - apply (dr_live _ _ _ _ H).
Qed.

Lemma d_free_count m l ns fs : dlist_rep m l ns fs ->
  Z.of_nat (length ns) + Z.of_nat (length fs) = dl_capacity l /\ dl_capacity l < 0xFFFFFFFF.
Proof.
  intros H. destruct (dg_pool _ (dr_geom _ _ _ _ H)) as [_ Hc _ _]. cbn in Hc. unfold NODE_NIL in Hc.
  rewrite <-(nodes_length _ _ (proj1 Hc) (dr_nodes _ _ _ _ H)), length_app. split; [lia|].
  rewrite <-length_app, (nodes_length _ _ (proj1 Hc) (dr_nodes _ _ _ _ H)). lia.
Qed.

Lemma d_count_up m l ns n fs : dlist_rep m l ns (n :: fs) -> u64 (dl_count l + 1) = Z.of_nat (length ns) + 1.
Proof.
  intros H. pose proof (d_free_count _ _ _ _ H). rewrite (dr_count _ _ _ _ H).
  apply u64_small. cbn in *. umach. lia.
Qed.

Lemma d_count_down m l ns fs k : dlist_rep m l ns fs -> length ns = S k -> u64 (dl_count l - 1) = Z.of_nat k.
Proof.
  intros H Hk. pose proof (d_free_count _ _ _ _ H). rewrite (dr_count _ _ _ _ H), Hk.
  rewrite u64_small by (umach; lia). lia.
Qed.

Lemma d_full m l ns fs : dlist_rep m l ns fs -> dl_count l = dl_capacity l <-> fs = [].
Proof.
  intros H. pose proof (d_free_count _ _ _ _ H) as [Hf _]. rewrite (dr_count _ _ _ _ H).
  destruct fs; cbn in *; split; [done|lia|lia|done].
Qed.

Lemma d_alloc m l ns fs : dlist_rep m l ns fs ->
  alloc_node m l = match fs with [] => (l, DLIST_NIL) | n :: _ => (set_free l (link m (geom l) 0 n), n) end.
Proof.
  intros H. unfold alloc_node. pose proof (seg_head _ _ _ _ (dr_free _ _ _ _ H)) as ->.
  destruct fs as [|n fs]; cbn [hd]; [done|].
  destruct (pool_index (geom l) (dg_pool _ (dr_geom _ _ _ _ H)) n) as [Hn _].
  { by apply (Forall_inv (proj2 (d_in_pool _ _ _ _ H))). }
  rewrite (proj2 (Z.eqb_neq n DLIST_NIL)) by done. by rewrite d_next_link by apply H.
Qed.

Definition d_same_pool (l l' : DList) : Prop :=
  dl_pool l' = dl_pool l /\ dl_capacity l' = dl_capacity l /\
  dl_element_size l' = dl_element_size l /\ dl_stride l' = dl_stride l.

(** ** Each operation on the representation *)

(** The pushes in terms of the chain. *)
Lemma push_front_chain m l ns n fs elem : dlist_rep m l ns (n :: fs) -> elem <> 0 ->
  dlist_push_front m l elem =
  let '(m', t) := chain_push (geom l) 0 1 m (dl_head l) (dl_tail l) n elem in
  (m', set_ends l (Z.of_nat (length ns) + 1) n t (link m (geom l) 0 n), true).
Proof.
  intros H He. pose proof (dr_geom _ _ _ _ H) as Hg. unfold dlist_push_front, chain_push.
  rewrite (proj2 (Z.eqb_neq elem 0)), (d_alloc _ _ _ _ H) by done.
  destruct (pool_index (geom l) (dg_pool _ Hg) n (Forall_inv (proj2 (d_in_pool _ _ _ _ H)))) as [Hn _].
  rewrite (proj2 (Z.eqb_neq n DLIST_NIL)) by done.
  set (l1 := set_free l (link m (geom l) 0 n)).
  assert (dlist_geom l1) as Hg1 by by apply dlist_geom_ends.
  change (dl_count l1) with (dl_count l).
  rewrite d_copy_in, !d_put_prev, d_put_next, (d_count_up _ _ _ _ _ H) by done.
  unfold l1. cbn [dl_head dl_tail set_free set_ends]. change DLIST_NIL with NODE_NIL.
  by destruct (negb _).
Qed.

Lemma push_back_chain m l ns n fs elem : dlist_rep m l ns (n :: fs) -> elem <> 0 ->
  dlist_push_back m l elem =
  let '(m', h) := chain_push (geom l) 1 0 m (dl_tail l) (dl_head l) n elem in
  (m', set_ends l (Z.of_nat (length ns) + 1) h n (link m (geom l) 0 n), true).
Proof.
  intros H He. pose proof (dr_geom _ _ _ _ H) as Hg. unfold dlist_push_back, chain_push.
  rewrite (proj2 (Z.eqb_neq elem 0)), (d_alloc _ _ _ _ H) by done.
  destruct (pool_index (geom l) (dg_pool _ Hg) n (Forall_inv (proj2 (d_in_pool _ _ _ _ H)))) as [Hn _].
  rewrite (proj2 (Z.eqb_neq n DLIST_NIL)) by done.
  set (l1 := set_free l (link m (geom l) 0 n)).
  assert (dlist_geom l1) as Hg1 by by apply dlist_geom_ends.
  change (dl_count l1) with (dl_count l).
  rewrite d_copy_in, d_put_prev, !d_put_next, (d_count_up _ _ _ _ _ H) by done.
  unfold l1. cbn [dl_head dl_tail set_free set_ends]. change DLIST_NIL with NODE_NIL.
  by destruct (negb _).
Qed.

(** Both pushes, on the chain seen from their end. *)
Lemma push_chain_rep m l ns n fs kf kb h t elem :
  dlist_rep m l ns (n :: fs) -> has_link (geom l) kf -> has_link (geom l) kb -> kf <> kb ->
  forall ns', dchain (geom l) m kf kb h t ns' -> ns' ≡ₚ ns ->
  let '(m', t') := chain_push (geom l) kf kb m h t n elem in
  dchain (geom l) m' kf kb n t' (n :: ns') /\
  seg (link m' (geom l) 0) (link m (geom l) 0 n) fs DLIST_NIL /\
  mem_frame (dl_pool l) (po_bytes (geom l)) m m' /\
  map (payload m' (geom l)) (n :: ns') = mem_read m elem (dl_element_size l) :: map (payload m (geom l)) ns'.
Proof.
  intros H Hkf Hkb Hne ns' Hc Hp. pose proof (dg_pool _ (dr_geom _ _ _ _ H)) as Hg.
  destruct (d_in_pool _ _ _ _ H) as [Hi1 [Hin Hi2]%Forall_cons].
  destruct (d_nodup _ _ _ _ H) as (Hn1 & [Hnf Hn2]%NoDup_cons & Hd).
  assert (n ∉ ns) as Hnn by (intros Hin'; apply (Hd n Hin'), list_elem_of_here).
  pose proof (chain_push_spec (geom l) Hg kf kb Hkf Hkb Hne m h t ns' n elem Hc) as Hs.
  destruct (chain_push _ _ _ m h t n elem) as [m' t'].
  destruct Hs as (Hc' & (Hfr & Hk) & Hps).
  - constructor; [done|]. unfold in_pool. by rewrite Hp.
  - constructor; [by rewrite Hp|by rewrite Hp].
  - split; [done|]. split; [|done]. apply Hk; [apply d_has_next| |].
    + intros i [->|Hi]%elem_of_cons; [done|]. rewrite Hp in Hi. intros Hf. by apply (Hd i Hi), list_elem_of_further.
    + by destruct (dr_free _ _ _ _ H).
Qed.

Lemma dpush_front_rep m l ns n fs elem : dlist_rep m l ns (n :: fs) -> elem <> 0 ->
  let '(m', l', ok) := dlist_push_front m l elem in
  ok = true /\ dlist_rep m' l' (n :: ns) fs /\ d_same_pool l l' /\
  mem_frame (dl_pool l) (po_bytes (geom l)) m m' /\
  map (payload m' (geom l')) (n :: ns) = mem_read m elem (dl_element_size l) :: map (payload m (geom l)) ns.
Proof.
  intros H He. rewrite (push_front_chain m l ns n fs elem H He).
  pose proof (push_chain_rep m l ns n fs 0 1 (dl_head l) (dl_tail l) elem H (d_has_next l) (d_has_prev l)
    ltac:(lia) ns (dr_live _ _ _ _ H) ltac:(done)) as Hp.
  destruct (chain_push _ _ _ m _ _ n elem) as [m' t]. destruct Hp as (Hc & Hf & Hfr & Hps).
  split; [done|]. split; [|done]. split; try done.
  - apply dlist_geom_ends, H.
  - cbn [app]. rewrite Permutation_middle. apply (dr_nodes _ _ _ _ H).
  - cbn. lia.
Qed.

Lemma dpush_back_rep m l ns n fs elem : dlist_rep m l ns (n :: fs) -> elem <> 0 ->
  let '(m', l', ok) := dlist_push_back m l elem in
  ok = true /\ dlist_rep m' l' (ns ++ [n]) fs /\ d_same_pool l l' /\
  mem_frame (dl_pool l) (po_bytes (geom l)) m m' /\
  map (payload m' (geom l')) (ns ++ [n]) = map (payload m (geom l)) ns ++ [mem_read m elem (dl_element_size l)].
Proof.
  intros H He. rewrite (push_back_chain m l ns n fs elem H He).
  pose proof (push_chain_rep m l ns n fs 1 0 (dl_tail l) (dl_head l) elem H (d_has_prev l) (d_has_next l)
    ltac:(lia) (rev ns) (proj1 (dchain_mirror _ _ _ _ _ _ _) (dr_live _ _ _ _ H))) as Hp.
  rewrite <-Permutation_rev in Hp. specialize (Hp ltac:(done)).
  destruct (chain_push _ _ _ m _ _ n elem) as [m' h]. destruct Hp as (Hc & Hf & Hfr & Hps).
  split; [done|]. split; [|split; [done|split; [done|]]].
  - split; try done.
    + apply dlist_geom_ends, H.
    + rewrite <-app_assoc. apply (dr_nodes _ _ _ _ H).
    + apply dchain_mirror. rewrite rev_app_distr. exact Hc.
    + rewrite length_app. cbn. lia.
  - change (geom (set_ends l _ h n _)) with (geom l). cbn [map] in Hps. injection Hps as Hx Hps.
    rewrite map_app. cbn [map]. rewrite Hx. f_equal.
    rewrite !map_rev in Hps. rewrite <-(rev_involutive (map _ ns)), Hps. by rewrite rev_involutive.
Qed.

Definition d_buffer_ok (l : DList) (out : Z) : Prop :=
  out <> 0 -> rdisj out (dl_element_size l) (dl_pool l) (po_bytes (geom l)).

Lemma d_rep_agree m m' l ns fs :
  dlist_rep m l ns fs -> mem_agree (rng (dl_pool l) (po_bytes (geom l))) m m' ->
  dlist_rep m' l ns fs /\ map (payload m' (geom l)) ns = map (payload m (geom l)) ns.
Proof.
  intros H Ha. pose proof (dg_pool _ (dr_geom _ _ _ _ H)) as Hg. destruct (d_in_pool _ _ _ _ H) as [Hi Hf].
  pose proof H as [Hg' Hn [Hl Hb] Hfr Hc]. split; [|by apply payloads_in_pool].
  split; try done; [split|].
  - apply (seg_in_pool (geom l) Hg m); [apply d_has_next|done..].
  - apply (seg_in_pool (geom l) Hg m); [apply d_has_prev| |done..]. by apply in_pool_rev in Hi.
  - apply (seg_in_pool (geom l) Hg m); [apply d_has_next|done..].
Qed.

Lemma d_rep_copy_out m l ns fs n out :
  dlist_rep m l ns fs -> d_buffer_ok l out ->
  let m1 := copy_out m l n out in
  m1 = deliver m out (payload m (geom l) n) /\ dlist_rep m1 l ns fs /\
  map (payload m1 (geom l)) ns = map (payload m (geom l)) ns.
Proof.
  intros H Hb m1. pose proof (dr_geom _ _ _ _ H) as Hg. unfold m1.
  rewrite d_copy_out by done. split; [done|]. apply d_rep_agree; [done|].
  apply deliver_outside. intros Hne. rewrite payload_length by apply Hg. by apply Hb.
Qed.

(** Unlinking the first node of the chain seen from one end, and freeing it. *)
Lemma pop_chain_rep m l ns fs kf kb h t n r :
  dlist_rep m l ns fs -> has_link (geom l) kf -> has_link (geom l) kb -> kf <> kb ->
  dchain (geom l) m kf kb h t (n :: r) -> ns ≡ₚ n :: r ->
  let '(m', h', t') := chain_pop (geom l) kf kb m t n in
  let m2 := put_next m' l n (dl_free_head l) in
  dchain (geom l) m2 kf kb h' t' r /\ seg (link m2 (geom l) 0) n (n :: fs) DLIST_NIL /\
  mem_frame (dl_pool l) (po_bytes (geom l)) m m2 /\
  map (payload m2 (geom l)) r = map (payload m (geom l)) r.
Proof.
  intros H Hkf Hkb Hne Hc Hp. pose proof (dr_geom _ _ _ _ H) as Hdg. pose proof (dg_pool _ Hdg) as Hg.
  destruct (d_in_pool _ _ _ _ H) as [Hi1 Hi2]. destruct (d_nodup _ _ _ _ H) as (Hn1 & Hn2 & Hd).
  unfold in_pool in Hi1. rewrite Hp in Hi1, Hn1. pose proof (chain_end_u32 _ Hg _ _ _ Hi2 (dr_free _ _ _ _ H)) as Hfu.
  pose proof (chain_pop_spec (geom l) Hg kf kb Hkf Hkb Hne m h t n r Hc Hi1 Hn1) as Hs.
  destruct (chain_pop _ _ _ m t n) as [[m' h'] t']. destruct Hs as ([Hc1 Hc2] & (Hfr & Hk) & Hps).
  apply Forall_cons in Hi1 as [Hin Hir]. apply NoDup_cons in Hn1 as [Hnr Hn1].
  assert (n ∉ fs) as Hnf by (apply Hd; rewrite Hp; apply list_elem_of_here).
  assert (n ∉ rev r) as Hnr' by (by rewrite list_elem_of_In, <-in_rev, <-list_elem_of_In).
  pose proof (d_has_next l) as Hk0. rewrite d_put_next by done. split_and!.
  - split; by apply seg_link_write.
  - split; [done|]. rewrite link_set by done. rewrite decide_True by done.
    apply seg_link_write; [done..|]. apply Hk; [done| |apply (dr_free _ _ _ _ H)].
    intros i Hi. apply Hd. rewrite Hp. by apply list_elem_of_further.
  - transitivity m'; [done|]. by apply (set_link_frame (geom l)).
  - by rewrite payloads_link_write.
Qed.

(** The end of both pops: [n] goes to the free chain. *)
Lemma pop_finish m l n ns fs h t :
  dlist_geom l -> nodes_ok (dl_capacity l) (ns ++ n :: fs) -> u64 (dl_count l - 1) = Z.of_nat (length ns) ->
  dchain (geom l) (put_next m l n (dl_free_head l)) 0 1 h t ns ->
  seg (link (put_next m l n (dl_free_head l)) (geom l) 0) n (n :: fs) DLIST_NIL ->
  let '(m', l') := free_node m (set_ends l (dl_count l) h t (dl_free_head l)) n in
  m' = put_next m l n (dl_free_head l) /\ d_same_pool l l' /\
  dlist_rep m' (set_ends l' (u64 (dl_count l' - 1)) (dl_head l') (dl_tail l') (dl_free_head l')) ns (n :: fs).
Proof.
  intros Hg Hn Hc Hch Hf. unfold free_node. split; [done|]. split; [done|]. split; try done.
  by apply dlist_geom_ends, dlist_geom_ends, dlist_geom_ends.
Qed.

Lemma dpop_front_rep m l n ns fs out :
  dlist_rep m l (n :: ns) fs -> d_buffer_ok l out ->
  let '(m', l', ok) := dlist_pop_front m l out in
  let m1 := deliver m out (payload m (geom l) n) in
  ok = true /\ dlist_rep m' l' ns (n :: fs) /\ d_same_pool l l' /\
  mem_frame (dl_pool l) (po_bytes (geom l)) m1 m' /\
  map (payload m' (geom l')) ns = map (payload m (geom l)) ns.
Proof.
  intros H Hb. pose proof (dr_geom _ _ _ _ H) as Hg.
  destruct (d_rep_copy_out m l (n :: ns) fs n out H Hb) as (Em & H1 & Hps). rewrite <-Em.
  cbn [map] in Hps. injection Hps as _ Hps.
  assert (dl_head l = n) as Hh by apply (dr_live _ _ _ _ H).
  unfold dlist_pop_front. rewrite (proj2 (Z.eqb_neq (dl_head l) _)) by (by intros ?%(d_head_nil _ _ _ _ H)).
  rewrite Hh. set (m1 := copy_out m l n out) in *.
  pose proof (pop_chain_rep m1 l (n :: ns) fs 0 1 (dl_head l) (dl_tail l) n ns H1 (d_has_next l) (d_has_prev l)
    ltac:(lia) (dr_live _ _ _ _ H1) ltac:(done)) as Hp.
  unfold chain_pop in Hp. rewrite (d_next_link m1) by done. change DLIST_NIL with NODE_NIL in *.
  set (h2 := link m1 (geom l) 0 n) in *. rewrite d_put_prev by done.
  destruct (if negb (h2 =? NODE_NIL) then (set_link m1 (geom l) 1 h2 NODE_NIL, h2, dl_tail l) else (m1, h2, NODE_NIL))
    as [[m2 h'] t2] eqn:E.
  assert ((if negb (h2 =? NODE_NIL) then (set_link m1 (geom l) 1 h2 NODE_NIL, dl_tail l) else (m1, NODE_NIL)) = (m2, t2)
    /\ h' = h2) as [-> ->] by (destruct (negb _); by injection E as <- <- <-).
  destruct Hp as (Hc & Hf & Hfr & Hp2).
  pose proof (pop_finish m2 l n ns fs h2 t2 Hg) as He. rewrite <-Permutation_middle in He.
  specialize (He (dr_nodes _ _ _ _ H) (d_count_down _ _ _ _ (length ns) H eq_refl) Hc Hf).
  destruct (free_node m2 _ n) as [m3 l3]. destruct He as (-> & Hsp & Hrep).
  split; [done|]. split; [done|]. split; [done|]. split; [done|].
  etransitivity; [|exact Hps]. destruct Hsp as (Ep & Ec & Ee & _).
  replace (geom _) with (geom l); [done|]. unfold geom. cbn. by rewrite Ep, Ec, Ee.
Qed.

Lemma dpop_back_rep m l n ns fs out :
  dlist_rep m l (ns ++ [n]) fs -> d_buffer_ok l out ->
  let '(m', l', ok) := dlist_pop_back m l out in
  let m1 := deliver m out (payload m (geom l) n) in
  ok = true /\ dlist_rep m' l' ns (n :: fs) /\ d_same_pool l l' /\
  mem_frame (dl_pool l) (po_bytes (geom l)) m1 m' /\
  map (payload m' (geom l')) ns = map (payload m (geom l)) ns.
Proof.
  intros H Hb. pose proof (dr_geom _ _ _ _ H) as Hg.
  destruct (d_rep_copy_out m l (ns ++ [n]) fs n out H Hb) as (Em & H1 & Hps). rewrite <-Em.
  rewrite !map_app in Hps. apply app_inj_2 in Hps as [Hps _]; [|done].
  pose proof (proj1 (dchain_mirror _ _ _ _ _ _ _) (dr_live _ _ _ _ H1)) as Hm.
  rewrite rev_app_distr in Hm. cbn [rev app] in Hm.
  assert (dl_tail l = n) as Hh by apply Hm.
  unfold dlist_pop_back. rewrite (proj2 (Z.eqb_neq (dl_tail l) _)).
  2: { intros E%(d_tail_nil _ _ _ _ H). by apply app_nil in E as [_ ?]. }
  rewrite Hh. set (m1 := copy_out m l n out) in *.
  pose proof (pop_chain_rep m1 l (ns ++ [n]) fs 1 0 (dl_tail l) (dl_head l) n (rev ns) H1 (d_has_prev l) (d_has_next l)
    ltac:(lia) Hm) as Hp.
  assert (ns ++ [n] ≡ₚ n :: rev ns) as Hperm by (by rewrite <-Permutation_cons_append, <-Permutation_rev).
  specialize (Hp Hperm).
  unfold chain_pop in Hp. rewrite (d_prev_link m1) by done. change DLIST_NIL with NODE_NIL in *.
  set (h2 := link m1 (geom l) 1 n) in *. rewrite d_put_next by done.
  destruct (if negb (h2 =? NODE_NIL) then (set_link m1 (geom l) 0 h2 NODE_NIL, h2, dl_head l) else (m1, h2, NODE_NIL))
    as [[m2 h'] t2] eqn:E.
  assert ((if negb (h2 =? NODE_NIL) then (set_link m1 (geom l) 0 h2 NODE_NIL, dl_head l) else (m1, NODE_NIL)) = (m2, t2)
    /\ h' = h2) as [-> ->] by (destruct (negb _); by injection E as <- <- <-).
  destruct Hp as (Hc & Hf & Hfr & Hp2). apply dchain_mirror in Hc.
  pose proof (dr_nodes _ _ _ _ H) as Hno. rewrite <-app_assoc in Hno. cbn [app] in Hno.
  assert (length (ns ++ [n]) = S (length ns)) as Hlen by (rewrite length_app; cbn; lia).
  pose proof (pop_finish m2 l n ns fs t2 h2 Hg Hno (d_count_down _ _ _ _ _ H Hlen) Hc Hf) as He.
  destruct (free_node m2 _ n) as [m3 l3]. destruct He as (-> & Hsp & Hrep).
  split; [done|]. split; [done|]. split; [done|]. split; [done|].
  etransitivity; [|exact Hps]. destruct Hsp as (Ep & Ec & Ee & _).
  replace (geom _) with (geom l); [|unfold geom; cbn; by rewrite Ep, Ec, Ee].
  rewrite !map_rev in Hp2. by rewrite <-(rev_involutive (map _ ns)), Hp2, rev_involutive.
Qed.

(** ** Clearing and initialising *)

Lemma d_thread_links l n : forall m i,
  dlist_geom l -> 0 <= i -> i + Z.of_nat n = dl_capacity l -> thread n m l i = thread_links (geom l) n m i.
Proof.
  induction n as [|n IH]; intros m i Hg Hi He; [done|]. cbn [thread thread_links].
  destruct (dg_pool _ Hg) as [_ Hc _ _]. cbn in Hc. unfold NODE_NIL in Hc.
  rewrite u32_small, d_put_next by (done || umach; lia). apply IH; [done|lia|lia].
Qed.

Lemma d_clear_rep m l : dlist_geom l ->
  let '(m', l') := dlist_clear m l in
  dlist_rep m' l' [] (map Z.of_nat (seq 0 (Z.to_nat (dl_capacity l)))) /\ d_same_pool l l' /\
  mem_frame (dl_pool l) (po_bytes (geom l)) m m'.
Proof.
  intros Hg. unfold dlist_clear. destruct (dg_pool _ Hg) as [_ Hc _ _]. cbn in Hc.
  set (l1 := set_ends l 0 DLIST_NIL DLIST_NIL _).
  assert (dlist_geom l1) as Hg1 by by apply dlist_geom_ends.
  rewrite d_thread_links by (done || cbn; lia).
  destruct (thread_links_seg (geom l1) (dg_pool _ Hg1) m (d_has_next l1)) as [Hs Hfr].
  split; [|done]. split; try done. unfold nodes_ok; reflexivity.
Qed.

(** ** The list implements the interface *)

#[export] Instance dlist_deque : Deque DList := {|
  dq_push s := match s with Front => dlist_push_front | Back => dlist_push_back end;
  dq_pop s := match s with Front => dlist_pop_front | Back => dlist_pop_back end;
  dq_peek s := match s with Front => dlist_front | Back => dlist_back end;
  dq_clear := dlist_clear;
  dq_count := dlist_count;
  dq_base := dl_pool;
  dq_bytes l := po_bytes (geom l);
  dq_cap := dl_capacity;
  dq_esz := dl_element_size;
  dq_inv m l := exists ns fs, dlist_rep m l ns fs;
  dq_items := dlist_items
|}.

Lemma d_same_dq l l' : d_same_pool l l' -> dq_same l l'.
Proof.
  intros (Hp & Hc & He & Hs). unfold dq_same, dq_base, dq_bytes, dq_cap, dq_esz, dlist_deque, po_bytes, po_stride, geom.
  cbn. by rewrite Hp, Hc, He.
Qed.

Lemma d_push_fails m l elem s ns fs : dlist_rep m l ns fs -> elem = 0 \/ fs = [] ->
  dq_push s m l elem = (m, l, false).
Proof.
  intros H He. destruct s; cbn [dq_push dlist_deque]; [unfold dlist_push_front|unfold dlist_push_back];
    (destruct (Z.eqb_spec elem 0); [done|]); destruct He as [|He]; try done;
    by rewrite (d_alloc _ _ _ _ H), He.
Qed.

Lemma d_take_front m l n ns fs : dlist_rep m l (n :: ns) fs ->
  take_at Front (dlist_items m l) = Some (payload m (geom l) n, map (payload m (geom l)) ns).
Proof. intros H. by rewrite (d_items _ _ _ _ H). Qed.

Lemma d_take_back m l n ns fs : dlist_rep m l (ns ++ [n]) fs ->
  take_at Back (dlist_items m l) = Some (payload m (geom l) n, map (payload m (geom l)) ns).
Proof. intros H. rewrite (d_items _ _ _ _ H), map_app. apply take_at_back. Qed.

Lemma dlist_push_law s m (l : DList) elem :
  dq_inv m l ->
  let '(m', l', ok) := dq_push s m l elem in
  dq_inv m' l' /\ dq_same l l' /\ mem_agree (dq_outside l) m m' /\
  if (elem =? 0) || (dq_count l =? dq_cap l)
  then ok = false /\ m' = m /\ l' = l
  else ok = true /\ dq_items m' l' = add_at s (mem_read m elem (dq_esz l)) (dq_items m l).
Proof.
  intros (ns & fs & H). change (dq_count l) with (dl_count l). change (dq_cap l) with (dl_capacity l).
  pose proof (d_full _ _ _ _ H) as Hfull.
  destruct ((elem =? 0) || (dl_count l =? dl_capacity l)) eqn:E.
  - assert (elem = 0 \/ fs = []) as He.
    { apply orb_prop in E as [E|E]; apply Z.eqb_eq in E; [by left|right; by apply Hfull]. }
    rewrite (d_push_fails m l elem s ns fs H He). split; [by exists ns, fs|done].
  - apply orb_false_elim in E as [He%Z.eqb_neq Hc%Z.eqb_neq].
    destruct fs as [|n fs]; [by destruct Hc; apply Hfull|].
    destruct s; cbn [dq_push dq_inv dq_items dq_esz dlist_deque].
    + pose proof (dpush_front_rep m l ns n fs elem H He) as Hp.
      destruct (dlist_push_front m l elem) as [[m' l'] ok]. destruct Hp as (-> & H' & Hsp & Hfr & Hit).
      split; [by exists (n :: ns), fs|]. split; [by apply d_same_dq|]. split; [done|]. split; [done|].
      by rewrite (d_items _ _ _ _ H'), (d_items _ _ _ _ H), Hit.
    + pose proof (dpush_back_rep m l ns n fs elem H He) as Hp.
      destruct (dlist_push_back m l elem) as [[m' l'] ok]. destruct Hp as (-> & H' & Hsp & Hfr & Hit).
      split; [by exists (ns ++ [n]), fs|]. split; [by apply d_same_dq|]. split; [done|]. split; [done|].
      by rewrite (d_items _ _ _ _ H'), (d_items _ _ _ _ H), Hit.
Qed.

Lemma d_pop_fails m l out s fs : dlist_rep m l [] fs ->
  dq_pop s m l out = (m, l, false) /\ dq_peek s m l out = (m, false) /\ dlist_items m l = [].
Proof.
  intros H. pose proof (proj2 (d_head_nil _ _ _ _ H) eq_refl) as Hh.
  pose proof (proj2 (d_tail_nil _ _ _ _ H) eq_refl) as Ht.
  split_and!; [..|apply (d_items _ _ _ _ H)]; destruct s; cbn [dq_pop dq_peek dlist_deque];
    unfold dlist_pop_front, dlist_pop_back, dlist_front, dlist_back; by rewrite ?Hh, ?Ht.
Qed.

Lemma dlist_pop_law s m (l : DList) out :
  dq_inv m l -> dq_buffer l out ->
  let '(m', l', ok) := dq_pop s m l out in
  dq_inv m' l' /\ dq_same l l' /\
  match take_at s (dq_items m l) with
  | None => ok = false /\ m' = m /\ l' = l
  | Some (x, rest) => ok = true /\ dq_items m' l' = rest /\
                      mem_agree (dq_outside l) (deliver m out x) m'
  end.
Proof.
  intros (ns & fs & H) Hb. cbn [dq_inv dq_items dlist_deque].
  destruct (decide (ns = [])) as [->|Hne].
  - destruct (d_pop_fails m l out s fs H) as (-> & _ & ->). destruct s; (split; [by exists [], fs|done]).
  - destruct s; cbn [dq_pop dlist_deque].
    + destruct ns as [|n ns]; [done|]. rewrite (d_take_front m l n ns fs H).
      pose proof (dpop_front_rep m l n ns fs out H Hb) as Hp.
      destruct (dlist_pop_front m l out) as [[m' l'] ok]. destruct Hp as (-> & H' & Hsp & Hfr & Hit).
      split; [by exists ns, (n :: fs)|]. split; [by apply d_same_dq|]. split; [done|].
      split; [by rewrite (d_items _ _ _ _ H')|done].
    + destruct (last_split ns Hne) as (r & n & ->). rewrite (d_take_back m l n r fs H).
      pose proof (dpop_back_rep m l n r fs out H Hb) as Hp.
      destruct (dlist_pop_back m l out) as [[m' l'] ok]. destruct Hp as (-> & H' & Hsp & Hfr & Hit).
      split; [by exists r, (n :: fs)|]. split; [by apply d_same_dq|]. split; [done|].
      split; [by rewrite (d_items _ _ _ _ H')|done].
Qed.

Lemma dlist_peek_law s m (l : DList) out :
  dq_inv m l ->
  dq_peek s m l out =
  match take_at s (dq_items m l) with
  | None => (m, false)
  | Some (x, _) => (deliver m out x, true)
  end.
Proof.
  intros (ns & fs & H). pose proof (dr_geom _ _ _ _ H) as Hg. cbn [dq_items dlist_deque].
  destruct (decide (ns = [])) as [->|Hne].
  - destruct (d_pop_fails m l out s fs H) as (_ & -> & ->). by destruct s.
  - destruct (dr_live _ _ _ _ H) as [Hlf Hlb]. destruct s; cbn [dq_peek dlist_deque].
    + destruct ns as [|n ns]; [done|]. rewrite (d_take_front m l n ns fs H). unfold dlist_front.
      rewrite (proj2 (Z.eqb_neq _ _)) by (by intros ?%(d_head_nil _ _ _ _ H)).
      rewrite d_copy_out by done. by rewrite (seg_head _ _ _ _ Hlf).
    + destruct (last_split ns Hne) as (r & n & ->). rewrite (d_take_back m l n r fs H). unfold dlist_back.
      rewrite (proj2 (Z.eqb_neq _ _)) by (by intros ?%(d_tail_nil _ _ _ _ H)).
      rewrite d_copy_out by done. rewrite (seg_head _ _ _ _ Hlb), rev_app_distr. done.
Qed.

#[export] Instance dlist_deque_laws : DequeLaws DList.
Proof.
  split.
  - apply dlist_push_law.
  - apply dlist_pop_law.
  - apply dlist_peek_law.
  - intros m l (ns & fs & H). cbn [dq_clear dlist_deque].
    pose proof (d_clear_rep m l (dr_geom _ _ _ _ H)) as Hc. destruct (dlist_clear m l) as [m' l'].
    destruct Hc as (H' & Hsp & Hfr). split; [by eexists _, _|]. split; [by apply d_same_dq|].
    split; [done|]. apply (d_items _ _ _ _ H').
  - intros m l (ns & fs & H). cbn. unfold dlist_count. rewrite (d_items _ _ _ _ H), length_map.
    apply H.
  - intros m m' l (ns & fs & H) Ha. destruct (d_rep_agree m m' l ns fs H Ha) as [H' Hps].
    split; [by exists ns, fs|]. cbn. by rewrite (d_items _ _ _ _ H'), (d_items _ _ _ _ H).
  - intros m l (ns & fs & H). destruct (dg_pool _ (dr_geom _ _ _ _ H)) as [_ _ _ He]. cbn in *.
    split; [done|]. rewrite (d_items _ _ _ _ H). apply Forall_map. apply Forall_true. intros i.
    cbn. rewrite (payload_length (geom l)); [done|]. apply (dr_geom _ _ _ _ H).
Qed.

Lemma dlist_init_rep m l0 pool pool_bytes esz :
  0 < pool -> 0 < esz < 0xFFFFFFFF -> 8 + esz <= pool_bytes -> pool_bytes / (8 + esz) < 0xFFFFFFFF ->
  let '(m', l, ok) := dlist_init m l0 pool pool_bytes esz in
  ok = true /\ dq_inv m' l /\ dq_items m' l = [] /\
  dq_base l = pool /\ dq_cap l = pool_bytes / (8 + esz) /\ dq_esz l = esz /\
  dq_bytes l <= pool_bytes /\ mem_agree (dq_outside l) m m'.
Proof.
  intros Hp He Hb Hc. unfold dlist_init, DLIST_NODE_OVERHEAD, DLIST_NIL.
  rewrite (proj2 (Z.eqb_neq pool 0)), (proj2 (Z.eqb_neq esz 0)) by lia. cbn [orb].
  rewrite u64_small by (umach; lia).
  assert (1 <= pool_bytes / (8 + esz)) by (apply Z.div_le_lower_bound; lia).
  rewrite (proj2 (Z.eqb_neq _ 0)), (proj2 (Z.leb_gt _ _)) by lia.
  set (l1 := mkDList pool _ esz _ _ _ _ _).
  assert (dlist_geom l1) as Hg by (split; [split|]; cbn; unfold NODE_NIL, DLIST_NODE_OVERHEAD; lia).
  pose proof (d_clear_rep m l1 Hg) as Hcl. destruct (dlist_clear m l1) as [m' l'].
  destruct Hcl as (H' & (Hp1 & Hc1 & He1 & Hs1) & Hfr). split; [done|]. split; [by eexists _, _|].
  split; [apply (d_items _ _ _ _ H')|]. cbn [dq_base dq_cap dq_esz dq_bytes dlist_deque].
  split; [done|]. split; [done|]. split; [done|].
  unfold dq_outside, po_bytes, po_stride, geom. cbn [dq_base dq_bytes dlist_deque po_cap po_links po_esz].
  unfold po_bytes, po_stride, geom, DLIST_NODE_OVERHEAD in *. cbn [po_cap po_links po_esz] in *.
  rewrite Hp1, Hc1, He1. split; [|exact Hfr].
  cbn [l1 dl_capacity dl_element_size]. rewrite Z.mul_comm. apply Z.mul_div_le. lia.
Qed.

(** ** Iteration *)

(** The nodes visited from [c] by [step] until [DLIST_NIL], within [fuel] rounds. *)
Fixpoint dlist_iter (fuel : nat) (step : Z -> Z) (c : Z) : list Z :=
  match fuel with
  | O => []
  | S fuel => if c =? DLIST_NIL then [] else c :: dlist_iter fuel step (step c)
  end.

Lemma dlist_iter_seg l (nx step : Z -> Z) ns : forall h fuel,
  dlist_geom l -> in_pool (geom l) ns -> (forall i, 0 <= i < dl_capacity l -> step i = nx i) ->
  seg nx h ns NODE_NIL -> (length ns < fuel)%nat -> dlist_iter fuel step h = ns.
Proof.
  induction ns as [|i ns IH]; intros h fuel Hg Hr Hst Hs Hf; (destruct fuel as [|fuel]; [cbn in Hf; lia|]);
    cbn [dlist_iter seg] in *; [by rewrite Hs|].
  apply Forall_cons in Hr as [Hi Hr]. destruct Hs as [-> Hs].
  destruct (pool_index (geom l) (dg_pool _ Hg) i Hi) as [Hn _].
  rewrite (proj2 (Z.eqb_neq i DLIST_NIL)) by done. f_equal.
  rewrite Hst by done. apply IH; [done|done|done|done|cbn in Hf; lia].
Qed.

Lemma d_cursor_ok l c : dlist_geom l -> 0 <= c < dl_capacity l ->
  (c =? DLIST_NIL) || (dl_capacity l <=? c) = false.
Proof.
  intros Hg Hc. destruct (pool_index (geom l) (dg_pool _ Hg) c Hc) as [Hn _].
  rewrite (proj2 (Z.eqb_neq c DLIST_NIL)), (proj2 (Z.leb_gt _ _)) by (done || lia). done.
Qed.

(** ** Properties *)

(** The doubly linked list refines the same bounded double-ended queue as the
    singly linked one: initialising a list over a pool succeeds, and from there
    every client script of pushes and pops at both ends, peeks, clears, counts and
    client stores outside the pool sees exactly what the abstract queue of
    [pool_bytes / (8 + element_size)] blocks shows. *)
Theorem dlist_refines m l0 pool pool_bytes esz cs :
  0 < pool -> 0 < esz < 0xFFFFFFFF -> 8 + esz <= pool_bytes -> pool_bytes / (8 + esz) < 0xFFFFFFFF ->
  Forall (deque_cmd_outside pool pool_bytes esz) cs ->
  let '(m', l, ok) := dlist_init m l0 pool pool_bytes esz in
  ok = true /\ deque_run m' l cs = deque_spec_run (pool_bytes / (8 + esz)) esz m [] cs.
Proof.
  intros Hp He Hb Hc Hcs. pose proof (dlist_init_rep m l0 pool pool_bytes esz Hp He Hb Hc) as Hi.
  destruct (dlist_init m l0 pool pool_bytes esz) as [[m' l] ok].
  destruct Hi as (-> & Hinv & Hit & Hba & Hca & Hes & Hby & Hfr). split; [done|].
  rewrite <-Hca, <-Hes. apply deque_refines; [by split_and!|]. rewrite Hba, Hes.
  eapply Forall_impl; [exact Hcs|]. intros c. by apply deque_cmd_outside_mono.
Qed.

(** Iterating a doubly linked list backwards visits the nodes of the forward
    iteration in reverse: both reach [DLIST_NIL] within one round per element, and
    [dlist_get] at the k-th forward cursor delivers the k-th element. *)
Theorem dlist_iterates m (l : DList) fuel :
  dq_inv m l -> (Z.to_nat (dlist_count l) < fuel)%nat ->
  let cursors := dlist_iter fuel (dlist_next m l) (dlist_begin l) in
  Z.of_nat (length cursors) = dlist_count l /\
  dlist_iter fuel (dlist_prev m l) (dlist_rbegin l) = rev cursors /\
  forall k c out, cursors !! k = Some c ->
    exists x, dlist_items m l !! k = Some x /\ dlist_get m l c out = (deliver m out x, true).
Proof.
  intros (ns & fs & H) Hf. pose proof (dr_geom _ _ _ _ H) as Hg. pose proof (dr_count _ _ _ _ H) as Hc.
  destruct (d_in_pool _ _ _ _ H) as [Hr _]. destruct (dr_live _ _ _ _ H) as [Hlf Hlb].
  unfold dlist_begin, dlist_rbegin, dlist_count in *.
  rewrite (dlist_iter_seg l (link m (geom l) 0) (dlist_next m l) ns _ fuel Hg Hr); [|
    intros i Hi; unfold dlist_next; by rewrite d_cursor_ok, d_next_link|done|lia].
  rewrite (dlist_iter_seg l (link m (geom l) 1) (dlist_prev m l) (rev ns) _ fuel Hg); [| |
    intros i Hi; unfold dlist_prev; by rewrite d_cursor_ok, d_prev_link|done|rewrite length_rev; lia].
  2: by apply in_pool_rev.
  split; [done|]. split; [done|].
  intros k c out Hk. rewrite (d_items _ _ _ _ H). exists (payload m (geom l) c).
  split; [by rewrite list_lookup_fmap, Hk|]. unfold in_pool in Hr. rewrite Forall_forall in Hr.
  specialize (Hr c (list_elem_of_lookup_2 _ _ _ Hk)).
  unfold dlist_get. rewrite d_cursor_ok by done. by rewrite d_copy_out.
Qed.

(** ** A list of three two-byte elements *)

Definition demo_dlist : mem * DList * bool :=
  dlist_init (fun x => x mod 0x100) (mkDList 0 0 0 0 0 0 0 0) 0x1000 32 2.
Definition demo_dlist_cmds : list deque_cmd :=
  [DPush Back 0x10; DPush Front 0x20; DPush Back 0x30; DPush Back 0x40; DCount;
   DPop Back 0x50; DPeek Front 0x60; DPop Front 0; DPop Back 0x70; DPop Back 0x70].

Lemma dlist_refines_witness :
  (let '(m', l, ok) := demo_dlist in
   ok = true /\ deque_run m' l demo_dlist_cmds =
     deque_spec_run (32 / (8 + 2)) 2 (fun x => x mod 0x100) [] demo_dlist_cmds) /\
  deque_spec_run 3 2 (fun x => x mod 0x100) [] demo_dlist_cmds =
    [(1, []); (1, []); (1, []); (0, []); (3, []); (1, [0x30; 0x31]); (1, [0x20; 0x21]); (1, []);
     (1, [0x10; 0x11]); (0, [])].
Proof.
  split; [|vm_compute; reflexivity].
  apply (dlist_refines (fun x => x mod 0x100) (mkDList 0 0 0 0 0 0 0 0) 0x1000 32 2 demo_dlist_cmds);
    [lia|lia|lia|by vm_compute|].
  repeat constructor; unfold rdisj; lia.
Defined.

Definition demo_dlist2 : mem * DList :=
  let '(m, l, _) := demo_dlist in
  let '(m, l, _) := dlist_push_back m l 0x10 in (dlist_push_front m l 0x20).1.

Lemma demo_dlist2_inv : dq_inv demo_dlist2.1 demo_dlist2.2.
Proof.
  pose proof (dlist_init_rep (fun x => x mod 0x100) (mkDList 0 0 0 0 0 0 0 0) 0x1000 32 2
    ltac:(lia) ltac:(lia) ltac:(lia) ltac:(by vm_compute)) as Hi. fold demo_dlist in Hi.
  unfold demo_dlist2. destruct demo_dlist as [[m l] ok]. destruct Hi as (_ & Hi & _).
  pose proof (dlist_push_law Back m l 0x10 Hi) as H1. cbn [dq_push dlist_deque] in H1.
  destruct (dlist_push_back m l 0x10) as [[m1 l1] ok1]. destruct H1 as [H1 _].
  pose proof (dlist_push_law Front m1 l1 0x20 H1) as H2. cbn [dq_push dlist_deque] in H2.
  destruct (dlist_push_front m1 l1 0x20) as [[m2 l2] ok2]. apply H2.
Qed.

Lemma dlist_iterates_witness :
  let '(m, l) := demo_dlist2 in
  let cursors := dlist_iter 3 (dlist_next m l) (dlist_begin l) in
  Z.of_nat (length cursors) = dlist_count l /\
  dlist_iter 3 (dlist_prev m l) (dlist_rbegin l) = rev cursors /\
  forall k c out, cursors !! k = Some c ->
    exists x, dlist_items m l !! k = Some x /\ dlist_get m l c out = (deliver m out x, true).
Proof.
  exact (dlist_iterates demo_dlist2.1 demo_dlist2.2 3 demo_dlist2_inv ltac:(vm_compute; lia)).
Defined.
