(* ===== verification/AvlTree.v ===== *)
(** The search trees that the node-pool engine ([src/containers/avl_core.c]) keeps:
    labelled with node index, balance factor and payload; contexts with a hole for
    the climbs along parent links; heights and balance; and the ordered lists of
    payloads that the trees stand for. *)
From stdpp Require Import sorting.
From S2P Require Import Prelude.
#[local] Open Scope Z_scope.

Inductive tree :=
| Leaf
| Node (l : tree) (i b : Z) (e : list Z) (r : tree).

(** In-order: node index and payload. *)
Fixpoint inorder (t : tree) : list (Z * list Z) :=
  match t with
  | Leaf => []
  | Node l i b e r => inorder l ++ (i, e) :: inorder r
  end.

Definition nodes (t : tree) : list Z := (inorder t).*1.
Definition elems (t : tree) : list (list Z) := (inorder t).*2.

Fixpoint height (t : tree) : Z :=
  match t with
  | Leaf => 0
  | Node l _ _ _ r => 1 + Z.max (height l) (height r)
  end.

(** [balance(n) = height(right) - height(left)], nowhere more than one level off. *)
Fixpoint balanced (t : tree) : Prop :=
  match t with
  | Leaf => True
  | Node l _ b _ r => b = height r - height l /\ -1 <= b <= 1 /\ balanced l /\ balanced r
  end.

(** ** Contexts *)

Inductive frame :=
| InLeft (i b : Z) (e : list Z) (r : tree)     (** the hole is the left child *)
| InRight (l : tree) (i b : Z) (e : list Z).

(** Innermost frame first. *)
Definition ctx : Type := list frame.

Definition fill (f : frame) (t : tree) : tree :=
  match f with
  | InLeft i b e r => Node t i b e r
  | InRight l i b e => Node l i b e t
  end.

Fixpoint plug (k : ctx) (t : tree) : tree :=
  match k with [] => t | f :: k => plug k (fill f t) end.

Definition frame_index (f : frame) : Z :=
  match f with InLeft i _ _ _ => i | InRight _ i _ _ => i end.

Definition before1 (f : frame) : list (Z * list Z) :=
  match f with InLeft _ _ _ _ => [] | InRight l i _ e => inorder l ++ [(i, e)] end.
Definition after1 (f : frame) : list (Z * list Z) :=
  match f with InLeft i _ e r => (i, e) :: inorder r | InRight _ _ _ _ => [] end.

Fixpoint before (k : ctx) : list (Z * list Z) :=
  match k with [] => [] | f :: k => before k ++ before1 f end.
Fixpoint after (k : ctx) : list (Z * list Z) :=
  match k with [] => [] | f :: k => after1 f ++ after k end.

Lemma inorder_fill f t : inorder (fill f t) = before1 f ++ inorder t ++ after1 f.
Proof. destruct f; cbn; [done|]. by rewrite app_nil_r, <-app_assoc. Qed.

Lemma inorder_plug k : forall t, inorder (plug k t) = before k ++ inorder t ++ after k.
Proof.
  induction k as [|f k IH]; intros t; cbn [plug before after]; [by rewrite app_nil_r|].
  rewrite IH, inorder_fill. by rewrite <-!app_assoc.
Qed.

Lemma plug_app k1 : forall k2 t, plug (k1 ++ k2) t = plug k2 (plug k1 t).
Proof. induction k1 as [|f k1 IH]; intros; cbn; [done|apply IH]. Qed.

Lemma before_app k1 k2 : before (k1 ++ k2) = before k2 ++ before k1.
Proof. induction k1 as [|f k1 IH]; cbn; [by rewrite app_nil_r|]. by rewrite IH, app_assoc. Qed.

Lemma after_app k1 k2 : after (k1 ++ k2) = after k1 ++ after k2.
Proof. induction k1 as [|f k1 IH]; cbn; [done|]. by rewrite IH, app_assoc. Qed.

(** The nodes of a context. *)
Definition knodes (k : ctx) : list Z := (before k).*1 ++ (after k).*1.

Lemma nodes_plug k t : nodes (plug k t) ≡ₚ nodes t ++ knodes k.
Proof. unfold nodes, knodes. rewrite inorder_plug, !fmap_app. solve_Permutation. Qed.

Lemma nodes_Node l i b e r : nodes (Node l i b e r) ≡ₚ i :: nodes l ++ nodes r.
Proof. unfold nodes. cbn. rewrite fmap_app. cbn. solve_Permutation. Qed.

Lemma knodes_InLeft i b e r k : knodes (InLeft i b e r :: k) ≡ₚ i :: nodes r ++ knodes k.
Proof. unfold knodes, nodes. cbn. rewrite app_nil_r, fmap_app. solve_Permutation. Qed.

Lemma knodes_InRight l i b e k : knodes (InRight l i b e :: k) ≡ₚ i :: nodes l ++ knodes k.
Proof. unfold knodes, nodes. cbn. rewrite !fmap_app. cbn. solve_Permutation. Qed.

Lemma knodes_length k : (length k <= length (knodes k))%nat.
Proof.
  induction k as [|[i b e r|l i b e] k IH]; [cbn; lia|..].
  - rewrite knodes_InLeft. cbn. rewrite length_app. lia.
  - rewrite knodes_InRight. cbn. rewrite length_app. lia.
Qed.

(** ** Heights *)

Lemma height_nonneg t : 0 <= height t.
Proof. induction t; cbn; lia. Qed.

Lemma height_zero t : height t = 0 -> t = Leaf.
Proof. destruct t as [|l i b e r]; [done|]. cbn. pose proof (height_nonneg l). lia. Qed.

Lemma height_size t : height t <= Z.of_nat (length (nodes t)).
Proof.
  induction t as [|l IHl i b e r IHr]; [done|]. rewrite nodes_Node. cbn [height length].
  rewrite length_app. lia.
Qed.

(** A balanced tree of height [h] has at least [2 ^ (h / 2) - 1] nodes. *)
Lemma balanced_size t : balanced t -> 2 ^ (height t / 2) <= Z.of_nat (length (nodes t)) + 1.
Proof.
  induction t as [|l IHl i b e r IHr]; [done|]. cbn [balanced]. intros (-> & Hb & Hl & Hr).
  specialize (IHl Hl). specialize (IHr Hr). rewrite nodes_Node. cbn [height length]. rewrite length_app.
  pose proof (height_nonneg l). pose proof (height_nonneg r).
  set (h := Z.max (height l) (height r)) in *.
  assert (forall x n, 0 <= h - 1 <= x -> 2 ^ (x / 2) <= n -> 2 ^ ((h - 1) / 2) <= n) as Hmono.
  { intros x n Hx Hn. etransitivity; [|exact Hn]. apply Z.pow_le_mono_r; [lia|].
    apply Z.div_le_mono; lia. }
  destruct (decide (h = 0)) as [Hh|Hh].
  { rewrite Hh. change (2 ^ ((1 + 0) / 2)) with 1. lia. }
  pose proof (Hmono (height l) _ ltac:(lia) IHl). pose proof (Hmono (height r) _ ltac:(lia) IHr).
  replace ((1 + h) / 2) with (1 + (h - 1) / 2).
  - rewrite Z.pow_add_r; [lia|lia|apply Z.div_pos; lia].
  - replace (1 + h) with (h - 1 + 1 * 2) by lia. rewrite Z.div_add by lia. lia.
Qed.

Lemma balanced_height t : balanced t -> height t <= 2 * Z.log2 (Z.of_nat (length (nodes t)) + 1) + 1.
Proof.
  intros Hb%balanced_size. pose proof (height_nonneg t).
  assert (height t / 2 <= Z.log2 (Z.of_nat (length (nodes t)) + 1)).
  { apply Z.log2_le_pow2; lia. }
  pose proof (Z.div_mod (height t) 2). pose proof (Z.mod_pos_bound (height t) 2). lia.
Qed.

(** A context that is balanced once its hole holds a tree of height [h]. *)
Fixpoint kbalanced (k : ctx) (h : Z) : Prop :=
  match k with
  | [] => True
  | InLeft _ b _ r :: k =>
      b = height r - h /\ -1 <= b <= 1 /\ balanced r /\ kbalanced k (1 + Z.max h (height r))
  | InRight l _ b _ :: k =>
      b = h - height l /\ -1 <= b <= 1 /\ balanced l /\ kbalanced k (1 + Z.max (height l) h)
  end.

Lemma balanced_plug k : forall t, balanced (plug k t) <-> balanced t /\ kbalanced k (height t).
Proof.
  induction k as [|[i b e r|l i b e] k IH]; intros t; cbn [plug fill kbalanced]; [tauto|..];
    rewrite IH; cbn [balanced height]; tauto.
Qed.

Lemma kbalanced_app k1 : forall k2 h, kbalanced (k1 ++ k2) h -> exists h', kbalanced k2 h'.
Proof.
  induction k1 as [|[i b e r|l i b e] k1 IH]; intros k2 h; cbn [app kbalanced].
  - by exists h.
  - intros (_ & _ & _ & Hk). by eapply IH.
  - intros (_ & _ & _ & Hk). by eapply IH.
Qed.

(** ** Mirror images *)

(** The rotations and retracing steps come in mirrored pairs; a direction names the
    side a step works towards. *)
Variant dir := DLeft | DRight.

Definition flip (d : dir) : dir := match d with DLeft => DRight | DRight => DLeft end.

(** The balance factor of a node one level deeper towards [d]. *)
Definition sg (d : dir) : Z := match d with DLeft => -1 | DRight => 1 end.
Definition tilts (d : dir) (b : Z) : bool := match d with DLeft => b <? 0 | DRight => 0 <? b end.

(** A node with [z] on side [d] and [a] on the other; a frame with its hole on side
    [d]. *)
Definition mk (d : dir) (a : tree) (i b : Z) (e : list Z) (z : tree) : tree :=
  match d with DLeft => Node z i b e a | DRight => Node a i b e z end.
Definition hole (d : dir) (a : tree) (i b : Z) (e : list Z) : frame :=
  match d with DLeft => InLeft i b e a | DRight => InRight a i b e end.

Lemma flip_flip d : flip (flip d) = d.
Proof. by destruct d. Qed.

Lemma frame_hole f : exists d a i b e, f = hole d a i b e.
Proof. destruct f as [i b e a|a i b e]; [by exists DLeft, a, i, b, e|by exists DRight, a, i, b, e]. Qed.

Lemma tree_mk d t : t = Leaf \/ exists a i b e z, t = mk d a i b e z.
Proof. destruct t as [|l i b e r]; [by left|]. right. destruct d; naive_solver. Qed.

Lemma mk_flip d a i b e z : mk (flip d) a i b e z = mk d z i b e a.
Proof. by destruct d. Qed.

Lemma fill_hole d a i b e z : fill (hole d a i b e) z = mk d a i b e z.
Proof. by destruct d. Qed.

Lemma nodes_mk d a i b e z : nodes (mk d a i b e z) ≡ₚ i :: nodes a ++ nodes z.
Proof. destruct d; cbn [mk]; rewrite nodes_Node; solve_Permutation. Qed.

Lemma knodes_hole d a i b e k : knodes (hole d a i b e :: k) ≡ₚ i :: nodes a ++ knodes k.
Proof. destruct d; [apply knodes_InLeft|apply knodes_InRight]. Qed.

Lemma height_mk d a i b e z : height (mk d a i b e z) = 1 + Z.max (height a) (height z).
Proof. destruct d; cbn; lia. Qed.

Lemma balanced_mk d a i b e z : balanced (mk d a i b e z) <->
  b = sg d * (height z - height a) /\ -1 <= b <= 1 /\ balanced a /\ balanced z.
Proof. destruct d; cbn [mk balanced sg]; intuition lia. Qed.

Lemma kbalanced_hole d a i b e k h : kbalanced (hole d a i b e :: k) h <->
  b = sg d * (h - height a) /\ -1 <= b <= 1 /\ balanced a /\ kbalanced k (1 + Z.max (height a) h).
Proof.
  destruct d; cbn [hole kbalanced sg]; [rewrite (Z.max_comm (height a))|]; intuition lia.
Qed.

(** Rotations keep the order. *)
Lemma inorder_rot d a x xb xe b y yb ye z x' y' :
  inorder (mk d a x xb xe (mk d b y yb ye z)) = inorder (mk d (mk d a x x' xe b) y y' ye z).
Proof. destruct d; cbn; by rewrite <-!app_assoc. Qed.

Lemma inorder_mk d a i b e z a' b' z' : inorder a = inorder a' -> inorder z = inorder z' ->
  inorder (mk d a i b e z) = inorder (mk d a' i b' e z').
Proof. intros Ea Ez. destruct d; cbn; by rewrite Ea, Ez. Qed.

(** ** Payloads in order *)

(** A comparator ([avl_cmp_fn]) that orders the payloads. *)
Class CmpLaws (cmp : list Z -> list Z -> Z) : Prop := {
  cmp_flip : forall a b, cmp a b < 0 <-> 0 < cmp b a;
  cmp_trans : forall a b c, cmp a b <= 0 -> cmp b c <= 0 -> cmp a c <= 0
}.

Section ordered.
Context (cmp : list Z -> list Z -> Z) `{!CmpLaws cmp}.

Definition below (a b : list Z) : Prop := cmp a b < 0.

(** Payloads strictly ascending: no two compare equal. *)
Definition ascending (l : list (list Z)) : Prop := StronglySorted below l.

Lemma below_trans a b c : cmp a b <= 0 -> below b c -> below a c.
Proof.
  unfold below. intros Hab Hbc. destruct (decide (cmp a c < 0)) as [|Hn]; [done|]. exfalso.
  assert (cmp c a <= 0) as Hca. { pose proof (cmp_flip a c). pose proof (cmp_flip c a). lia. }
  pose proof (cmp_trans c a b Hca Hab) as Hcb. pose proof (cmp_flip b c). lia.
Qed.

Lemma below_trans_r a b c : below a b -> cmp b c <= 0 -> below a c.
Proof.
  unfold below. intros Hab Hbc. destruct (decide (cmp a c < 0)) as [|Hn]; [done|]. exfalso.
  assert (cmp c a <= 0) as Hca. { pose proof (cmp_flip a c). pose proof (cmp_flip c a). lia. }
  pose proof (cmp_trans b c a Hbc Hca) as Hba. pose proof (cmp_flip a b). lia.
Qed.

#[local] Instance below_transitive : Transitive below.
Proof. intros a b c Hab Hbc. apply (below_trans a b c); [unfold below in *; lia|done]. Qed.

Lemma cmp_sym a b : cmp a b = 0 -> cmp b a = 0.
Proof. intros E. pose proof (cmp_flip a b). pose proof (cmp_flip b a). lia. Qed.

(** The ordered set of payloads as a list: look up, insert, remove. *)
Fixpoint ol_find (key : list Z) (l : list (list Z)) : option (list Z) :=
  match l with
  | [] => None
  | x :: l => if cmp key x =? 0 then Some x else ol_find key l
  end.

Fixpoint ol_insert (x : list Z) (l : list (list Z)) : list (list Z) :=
  match l with
  | [] => [x]
  | y :: l => if cmp x y <? 0 then x :: y :: l else y :: ol_insert x l
  end.

Fixpoint ol_remove (key : list Z) (l : list (list Z)) : list (list Z) :=
  match l with
  | [] => []
  | x :: l => if cmp key x =? 0 then l else x :: ol_remove key l
  end.

(** The keys that a position separates: every payload before it is smaller than
    [key], every payload after it greater. *)
Definition splits (key : list Z) (l1 l2 : list (list Z)) : Prop :=
  Forall (fun x => 0 < cmp key x) l1 /\ Forall (fun x => cmp key x < 0) l2.

Lemma splits_app key l1 l2 k1 k2 :
  splits key l1 l2 -> splits key k1 k2 -> splits key (l1 ++ k1) (k2 ++ l2).
Proof. unfold splits. rewrite !Forall_app. tauto. Qed.

Lemma ol_find_split key l1 l2 : splits key l1 l2 -> ol_find key (l1 ++ l2) = None.
Proof.
  intros [H1 H2]. induction H1 as [|x l1 Hx H1 IH]; cbn.
  - induction H2 as [|y l2 Hy H2 IH]; cbn; [done|]. destruct (Z.eqb_spec (cmp key y) 0); [lia|done].
  - destruct (Z.eqb_spec (cmp key x) 0); [lia|done].
Qed.

Lemma ol_find_at key l1 x l2 : splits key l1 l2 -> cmp key x = 0 -> ol_find key (l1 ++ x :: l2) = Some x.
Proof.
  intros [H1 _] Hx. induction H1 as [|y l1 Hy H1 IH]; cbn.
  - by rewrite Hx.
  - destruct (Z.eqb_spec (cmp key y) 0); [lia|done].
Qed.

Lemma ol_insert_split x l1 l2 : splits x l1 l2 -> ol_insert x (l1 ++ l2) = l1 ++ x :: l2.
Proof.
  intros [H1 H2]. induction H1 as [|y l1 Hy H1 IH]; cbn.
  - destruct l2 as [|y l2]; cbn; [done|]. apply Forall_cons in H2 as [Hy _].
    by rewrite (proj2 (Z.ltb_lt _ _) Hy).
  - rewrite (proj2 (Z.ltb_ge _ _)) by lia. by rewrite IH.
Qed.

Lemma ol_remove_at key l1 x l2 : splits key l1 l2 -> cmp key x = 0 ->
  ol_remove key (l1 ++ x :: l2) = l1 ++ l2.
Proof.
  intros [H1 _] Hx. induction H1 as [|y l1 Hy H1 IH]; cbn.
  - by rewrite Hx.
  - destruct (Z.eqb_spec (cmp key y) 0); [lia|]. by rewrite IH.
Qed.

Lemma ascending_app l1 l2 :
  ascending (l1 ++ l2) <-> ascending l1 /\ ascending l2 /\ (forall a b, a ∈ l1 -> b ∈ l2 -> below a b).
Proof.
  unfold ascending. induction l1 as [|x l1 IH]; cbn [app].
  - split; [intros; split_and!; [constructor|done|]|tauto]. intros a b Ha. by apply not_elem_of_nil in Ha.
  - split.
    + intros [Hs Hf]%StronglySorted_inv. apply IH in Hs as (H1 & H2 & H3).
      apply Forall_app in Hf as [Hf1 Hf2]. rewrite Forall_forall in Hf2. split_and!; [by constructor|done|].
      intros a b [->|Ha]%elem_of_cons Hb; auto.
    + intros ([H1 Hf]%StronglySorted_inv & H2 & H3). constructor.
      * apply IH. split_and!; [done|done|]. intros a b Ha. apply H3. by right.
      * apply Forall_app. split; [done|]. apply Forall_forall. intros b. apply H3. by left.
Qed.

Lemma splits_ascending x l1 l2 : ascending (l1 ++ l2) -> splits x l1 l2 -> ascending (l1 ++ x :: l2).
Proof.
  intros (H1 & H2 & H3)%ascending_app [Hs1 Hs2]. apply ascending_app. rewrite Forall_forall in Hs1.
  split_and!; [done|by constructor|]. intros a b Ha [->|Hb]%elem_of_cons; [|auto].
  apply cmp_flip. by apply Hs1.
Qed.

Lemma ascending_drop l1 x l2 : ascending (l1 ++ x :: l2) -> ascending (l1 ++ l2).
Proof.
  intros (H1 & [H2 _]%StronglySorted_inv & H3)%ascending_app. apply ascending_app. split_and!; [done..|].
  intros a b Ha Hb. apply H3; [done|by right].
Qed.

Lemma ol_insert_perm x l : ol_insert x l ≡ₚ x :: l.
Proof.
  induction l as [|y l IH]; cbn; [done|]. destruct (_ <? 0); [done|]. rewrite IH. apply Permutation_swap.
Qed.

Lemma ol_insert_ascending x l : ascending l -> ol_find x l = None -> ascending (ol_insert x l).
Proof.
  unfold ascending. induction l as [|y l IH]; cbn; intros Hs Hf; [by repeat constructor|].
  destruct (Z.eqb_spec (cmp x y) 0); [done|]. pose proof Hs as [Hs' Hy]%StronglySorted_inv.
  destruct (Z.ltb_spec (cmp x y) 0) as [Hlt|Hge].
  - constructor; [done|]. constructor; [done|]. eapply Forall_impl; [exact Hy|].
    intros z Hz. apply (below_trans x y z); [lia|done].
  - constructor; [auto|]. rewrite ol_insert_perm. constructor; [apply cmp_flip; lia|done].
Qed.

Lemma ol_remove_split key l x : ol_find key l = Some x ->
  exists l1 l2, l = l1 ++ x :: l2 /\ ol_remove key l = l1 ++ l2.
Proof.
  induction l as [|y l IH]; cbn; [done|]. destruct (_ =? 0).
  - intros [= ->]. by exists [], l.
  - intros (l1 & l2 & -> & ->)%IH. by exists (y :: l1), l2.
Qed.

Lemma ol_remove_perm key l x : ol_find key l = Some x -> l ≡ₚ x :: ol_remove key l.
Proof. intros (l1 & l2 & -> & ->)%ol_remove_split. solve_Permutation. Qed.

Lemma ol_find_mem key l x : ascending l -> ol_find key l = Some x <-> x ∈ l /\ cmp key x = 0.
Proof.
  intros Hs. split.
  - induction l as [|y l IH]; cbn; [done|]. apply StronglySorted_inv in Hs as [Hs _].
    destruct (Z.eqb_spec (cmp key y) 0) as [E|E].
    + intros [= ->]. split; [by left|done].
    + intros [Hx Hc]%IH; [|done]. split; [by right|done].
  - intros [(l1 & l2 & ->)%list_elem_of_split E]. apply ascending_app in Hs as (_ & Hs & Hb).
    apply StronglySorted_inv in Hs as [_ Hr]. apply ol_find_at; [|done]. split.
    + apply Forall_forall. intros y Hy. apply cmp_flip. apply (below_trans_r y x key).
      * apply Hb; [done|by left].
      * by rewrite cmp_sym.
    + eapply Forall_impl; [exact Hr|]. intros y Hy. apply (below_trans key x y); [lia|done].
Qed.

Lemma ol_find_unique key l1 l2 : ascending l1 -> ascending l2 ->
  (forall x, cmp key x = 0 -> x ∈ l1 <-> x ∈ l2) -> ol_find key l1 = ol_find key l2.
Proof.
  intros H1 H2 He.
  assert (forall l l' x, ascending l -> ascending l' -> (forall x, cmp key x = 0 -> x ∈ l <-> x ∈ l') ->
    ol_find key l = Some x -> ol_find key l' = Some x) as Hone.
  { intros l l' x Hl Hl' Hx. rewrite !ol_find_mem by done. intros [Hm Hc]. by rewrite <-(Hx x Hc). }
  destruct (ol_find key l1) as [x|] eqn:E1.
  - symmetry. by apply (Hone l1 l2).
  - destruct (ol_find key l2) as [x|] eqn:E2; [|done]. apply (Hone l2 l1) in E2; [congruence|done..|].
    intros y Hy. symmetry. auto.
Qed.

Lemma ol_remove_ascending key l x : ascending l -> ol_find key l = Some x -> ascending (ol_remove key l).
Proof. intros Hs (l1 & l2 & -> & ->)%ol_remove_split. by eapply ascending_drop. Qed.

Lemma ol_remove_length key l x : ol_find key l = Some x -> length l = S (length (ol_remove key l)).
Proof. intros (l1 & l2 & -> & ->)%ol_remove_split. rewrite !length_app. cbn. lia. Qed.

(** ** Descent *)

(** Where the descent for [key] arrives: the node whose payload compares equal, or
    the leaf where the key belongs. *)
Fixpoint descend (key : list Z) (t : tree) (k : ctx) : ctx * tree :=
  match t with
  | Leaf => (k, Leaf)
  | Node l i b e r =>
      if cmp key e =? 0 then (k, t)
      else if cmp key e <? 0 then descend key l (InLeft i b e r :: k)
      else descend key r (InRight l i b e :: k)
  end.

Lemma descend_plug key t : forall k, let '(k', t') := descend key t k in plug k' t' = plug k t.
Proof.
  induction t as [|l IHl i b e r IHr]; intros k; cbn [descend]; [done|].
  destruct (cmp key e =? 0); [done|]. destruct (cmp key e <? 0).
  - specialize (IHl (InLeft i b e r :: k)). by destruct (descend key l _).
  - specialize (IHr (InRight l i b e :: k)). by destruct (descend key r _).
Qed.

Lemma elems_plug k t : elems (plug k t) = (before k).*2 ++ elems t ++ (after k).*2.
Proof. unfold elems. by rewrite inorder_plug, !fmap_app. Qed.

Lemma elems_Node l i b e r : elems (Node l i b e r) = elems l ++ e :: elems r.
Proof. unfold elems. cbn. by rewrite fmap_app. Qed.

(** A descended position splits the payloads around the key. *)
Lemma descend_splits key t : forall k,
  ascending (elems (plug k t)) -> splits key (before k).*2 (after k).*2 ->
  let '(k', t') := descend key t k in
  splits key (before k').*2 (after k').*2 /\
  match t' with Leaf => True | Node l _ _ e r => cmp key e = 0 /\ splits key (elems l) (elems r) end.
Proof.
  induction t as [|l IHl i b e r IHr]; intros k Hs Hk; cbn [descend]; [done|].
  assert (ascending (elems l ++ e :: elems r)) as Ha.
  { unfold elems in *. rewrite inorder_plug in Hs. rewrite !fmap_app in Hs. cbn in Hs.
    apply ascending_app in Hs as (_ & Hs & _). apply ascending_app in Hs as (Hs & _ & _).
    by rewrite fmap_app in Hs. }
  apply ascending_app in Ha as (_ & [_ Hr]%StronglySorted_inv & Hl).
  assert (cmp key e <= 0 -> Forall (fun x => cmp key x < 0) (elems r)) as Hgt.
  { intros Hc. eapply Forall_impl; [exact Hr|]. intros x Hx. by apply (below_trans key e x). }
  assert (0 <= cmp key e -> Forall (fun x => 0 < cmp key x) (elems l)) as Hlt.
  { intros Hc. apply Forall_forall. intros x Hx. apply cmp_flip. apply (below_trans_r x e key).
    - apply Hl; [done|by left].
    - pose proof (cmp_flip key e). pose proof (cmp_flip e key). lia. }
  destruct Hk as [Hk1 Hk2]. destruct (Z.eqb_spec (cmp key e) 0) as [E|E].
  - split; [done|]. split; [done|]. split; [apply Hlt; lia|apply Hgt; lia].
  - destruct (Z.ltb_spec (cmp key e) 0) as [E'|E'].
    + apply (IHl (InLeft i b e r :: k) Hs). split; cbn; rewrite ?app_nil_r; [done|].
      rewrite fmap_app. constructor; [done|]. apply Forall_app. split; [apply Hgt; lia|done].
    + apply (IHr (InRight l i b e :: k) Hs). split; cbn; [|done].
      rewrite !fmap_app. apply Forall_app. split; [done|]. apply Forall_app. split; [apply Hlt; lia|].
      constructor; [cbn; lia|constructor].
Qed.

End ordered.
