(* ===== verification/AvlCore.v ===== *)
(** The search-tree engine over a node pool ([src/containers/avl_core.c]): the
    free list, ordered descent, in-order walk, rotations, retracing, insertion and
    removal, on the memory of the pool.  [AvlRep] relates the memory to the trees of
    [AvlTree]; [AvlOps] proves the operations. *)
From stdpp Require Import sorting.
From S2P Require Import Prelude HostMem NodePool AvlTree.
#[local] Open Scope Z_scope.

Definition AVL_CORE_NIL : Z := 0xFFFFFFFF.
Definition AVL_CORE_NODE_OVERHEAD : Z := 16.

(** The borrowed view over an owner's pool.  The comparator is the owner's: a
    function of the bytes that it is shown. *)
Record AvlCore := mkAvlCore {
  ac_pool : Z;
  ac_stride : Z;
  ac_element_size : Z;
  ac_capacity : Z;
  ac_cmp : list Z -> list Z -> Z
}.

(** The owner's words that the view updates through its pointers: the subtree root
    in use, [*free_head] and [*count]. *)
Record Owner := mkOwner { ow_root : Z; ow_free : Z; ow_count : Z }.

(** ** Node fields *)

Definition node_at (c : AvlCore) (i : Z) : Z := ac_pool c + i * ac_stride c.
Definition n_left (c : AvlCore) (m : mem) (i : Z) : Z := load32 m (node_at c i).
Definition n_right (c : AvlCore) (m : mem) (i : Z) : Z := load32 m (node_at c i + 4).
Definition n_parent (c : AvlCore) (m : mem) (i : Z) : Z := load32 m (node_at c i + 8).
Definition n_bal (c : AvlCore) (m : mem) (i : Z) : Z := s8 (m (node_at c i + 12)).
Definition set_left (c : AvlCore) (m : mem) (i v : Z) : mem := store32 m (node_at c i) v.
Definition set_right (c : AvlCore) (m : mem) (i v : Z) : mem := store32 m (node_at c i + 4) v.
Definition set_parent (c : AvlCore) (m : mem) (i v : Z) : mem := store32 m (node_at c i + 8) v.
Definition set_bal (c : AvlCore) (m : mem) (i v : Z) : mem := mem_write m (node_at c i + 12) [u8 v].
Definition avl_core_payload (c : AvlCore) (i : Z) : Z := node_at c i + AVL_CORE_NODE_OVERHEAD.

(** [c->cmp(a, b)] on the objects at two addresses. *)
Definition compare_at (c : AvlCore) (m : mem) (a b : Z) : Z :=
  ac_cmp c (mem_read m a (ac_element_size c)) (mem_read m b (ac_element_size c)).

(** Loops take a fuel and return [None] without enough; no path through a pool has
    more nodes than the pool. *)
Definition avl_fuel (c : AvlCore) : nat := S (Z.to_nat (ac_capacity c)).

(** ** Free list *)

Fixpoint thread_free (n : nat) (m : mem) (pool stride capacity i : Z) : mem :=
  match n with
  | O => m
  | S n =>
      thread_free n
        (store32 m (pool + i * stride) (if u32 (i + 1) <? capacity then u32 (i + 1) else AVL_CORE_NIL))
        pool stride capacity (i + 1)
  end.

Definition avl_core_build_freelist (m : mem) (pool stride capacity : Z) : mem * Z :=
  (thread_free (Z.to_nat capacity) m pool stride capacity 0, if 0 <? capacity then 0 else AVL_CORE_NIL).

Definition alloc_node (c : AvlCore) (m : mem) (free_head : Z) : Z * Z :=
  if free_head =? AVL_CORE_NIL then (free_head, AVL_CORE_NIL) else (n_left c m free_head, free_head).

Definition free_node (c : AvlCore) (m : mem) (free_head i : Z) : mem * Z :=
  (set_left c m i free_head, i).

(** ** Search and walk *)

Fixpoint find_loop (fuel : nat) (c : AvlCore) (m : mem) (cur key : Z) : option Z :=
  if cur =? AVL_CORE_NIL then Some AVL_CORE_NIL else
  match fuel with
  | O => None
  | S fuel =>
      let r := compare_at c m key (avl_core_payload c cur) in
      if r =? 0 then Some cur
      else find_loop fuel c m (if r <? 0 then n_left c m cur else n_right c m cur) key
  end.

Definition avl_core_find (c : AvlCore) (m : mem) (root key : Z) : option Z :=
  find_loop (avl_fuel c) c m root key.

Fixpoint min_loop (fuel : nat) (c : AvlCore) (m : mem) (n : Z) : option Z :=
  match fuel with
  | O => None
  | S fuel => if n_left c m n =? AVL_CORE_NIL then Some n else min_loop fuel c m (n_left c m n)
  end.

Definition subtree_min (c : AvlCore) (m : mem) (n : Z) : option Z :=
  if n =? AVL_CORE_NIL then Some AVL_CORE_NIL else min_loop (avl_fuel c) c m n.

Fixpoint max_loop (fuel : nat) (c : AvlCore) (m : mem) (n : Z) : option Z :=
  match fuel with
  | O => None
  | S fuel => if n_right c m n =? AVL_CORE_NIL then Some n else max_loop fuel c m (n_right c m n)
  end.

Definition subtree_max (c : AvlCore) (m : mem) (n : Z) : option Z :=
  if n =? AVL_CORE_NIL then Some AVL_CORE_NIL else max_loop (avl_fuel c) c m n.

Definition avl_core_min (c : AvlCore) (m : mem) (root : Z) : option Z := subtree_min c m root.
Definition avl_core_max (c : AvlCore) (m : mem) (root : Z) : option Z := subtree_max c m root.

(** [while (p != NIL && cur == child(p)) { cur = p; p = parent(p); }]. *)
Fixpoint climb (child : AvlCore -> mem -> Z -> Z) (fuel : nat) (c : AvlCore) (m : mem) (cur p : Z)
    : option Z :=
  if (p =? AVL_CORE_NIL) || negb (cur =? child c m p) then Some p else
  match fuel with
  | O => None
  | S fuel => climb child fuel c m p (n_parent c m p)
  end.

Definition avl_core_next (c : AvlCore) (m : mem) (cur : Z) : option Z :=
  if (cur =? AVL_CORE_NIL) || (ac_capacity c <=? cur) then Some AVL_CORE_NIL else
  if negb (n_right c m cur =? AVL_CORE_NIL) then subtree_min c m (n_right c m cur) else
  climb n_right (avl_fuel c) c m cur (n_parent c m cur).

Definition avl_core_prev (c : AvlCore) (m : mem) (cur : Z) : option Z :=
  if (cur =? AVL_CORE_NIL) || (ac_capacity c <=? cur) then Some AVL_CORE_NIL else
  if negb (n_left c m cur =? AVL_CORE_NIL) then subtree_max c m (n_left c m cur) else
  climb n_left (avl_fuel c) c m cur (n_parent c m cur).

(** ** Rotations *)

Definition replace_child (c : AvlCore) (m : mem) (root parent old neu : Z) : mem * Z :=
  let '(m, root) :=
    if parent =? AVL_CORE_NIL then (m, neu)
    else if n_left c m parent =? old then (set_left c m parent neu, root)
    else (set_right c m parent neu, root) in
  (if negb (neu =? AVL_CORE_NIL) then set_parent c m neu parent else m, root).

Definition rotate_left (c : AvlCore) (m : mem) (root x : Z) : mem * Z * Z :=
  let y := n_right c m x in
  let p := n_parent c m x in
  let b := n_left c m y in
  let m := set_right c m x b in
  let m := if negb (b =? AVL_CORE_NIL) then set_parent c m b x else m in
  let m := set_left c m y x in
  let m := set_parent c m x y in
  let '(m, root) := replace_child c m root p x y in
  let m :=
    if n_bal c m y =? 0 then set_bal c (set_bal c m x 1) y (-1)
    else set_bal c (set_bal c m x 0) y 0 in
  (m, root, y).

Definition rotate_right (c : AvlCore) (m : mem) (root x : Z) : mem * Z * Z :=
  let y := n_left c m x in
  let p := n_parent c m x in
  let b := n_right c m y in
  let m := set_left c m x b in
  let m := if negb (b =? AVL_CORE_NIL) then set_parent c m b x else m in
  let m := set_right c m y x in
  let m := set_parent c m x y in
  let '(m, root) := replace_child c m root p x y in
  let m :=
    if n_bal c m y =? 0 then set_bal c (set_bal c m x (-1)) y 1
    else set_bal c (set_bal c m x 0) y 0 in
  (m, root, y).

Definition rotate_left_right (c : AvlCore) (m : mem) (root x : Z) : mem * Z * Z :=
  let z := n_left c m x in
  let y := n_right c m z in
  let yb := n_bal c m y in
  let '(m, root, _) := rotate_left c m root z in
  let '(m, root, newroot) := rotate_right c m root x in
  let m :=
    if 0 <? yb then set_bal c (set_bal c m z (-1)) x 0
    else if yb =? 0 then set_bal c (set_bal c m z 0) x 0
    else set_bal c (set_bal c m z 0) x 1 in
  (set_bal c m y 0, root, newroot).

Definition rotate_right_left (c : AvlCore) (m : mem) (root x : Z) : mem * Z * Z :=
  let z := n_right c m x in
  let y := n_left c m z in
  let yb := n_bal c m y in
  let '(m, root, _) := rotate_right c m root z in
  let '(m, root, newroot) := rotate_left c m root x in
  let m :=
    if yb <? 0 then set_bal c (set_bal c m z 1) x 0
    else if yb =? 0 then set_bal c (set_bal c m z 0) x 0
    else set_bal c (set_bal c m z 0) x (-1) in
  (set_bal c m y 0, root, newroot).

(** ** Retracing *)

Fixpoint retrace_insert_loop (fuel : nat) (c : AvlCore) (m : mem) (root child p : Z)
    : option (mem * Z) :=
  if p =? AVL_CORE_NIL then Some (m, root) else
  match fuel with
  | O => None
  | S fuel =>
      if child =? n_right c m p then
        if 0 <? n_bal c m p then
          Some (if n_bal c m child <? 0 then (rotate_right_left c m root p).1
                else (rotate_left c m root p).1)
        else if n_bal c m p <? 0 then Some (set_bal c m p 0, root)
        else
          let m := set_bal c m p 1 in
          retrace_insert_loop fuel c m root p (n_parent c m p)
      else
        if n_bal c m p <? 0 then
          Some (if 0 <? n_bal c m child then (rotate_left_right c m root p).1
                else (rotate_right c m root p).1)
        else if 0 <? n_bal c m p then Some (set_bal c m p 0, root)
        else
          let m := set_bal c m p (-1) in
          retrace_insert_loop fuel c m root p (n_parent c m p)
  end.

Definition avl_retrace_insert (c : AvlCore) (m : mem) (root n : Z) : option (mem * Z) :=
  retrace_insert_loop (avl_fuel c) c m root n (n_parent c m n).

Fixpoint avl_retrace_remove (fuel : nat) (c : AvlCore) (m : mem) (root p : Z) (lost_left : bool)
    : option (mem * Z) :=
  if p =? AVL_CORE_NIL then Some (m, root) else
  match fuel with
  | O => None
  | S fuel =>
      let next_parent := n_parent c m p in
      let came_from_left := lost_left in
      let lost_left :=
        if negb (next_parent =? AVL_CORE_NIL) then n_left c m next_parent =? p else lost_left in
      if came_from_left then
        if 0 <? n_bal c m p then
          let sb := n_bal c m (n_right c m p) in
          let '(m, root, _) :=
            if sb <? 0 then rotate_right_left c m root p else rotate_left c m root p in
          if sb =? 0 then Some (m, root) else avl_retrace_remove fuel c m root next_parent lost_left
        else if n_bal c m p =? 0 then Some (set_bal c m p 1, root)
        else avl_retrace_remove fuel c (set_bal c m p 0) root next_parent lost_left
      else
        if n_bal c m p <? 0 then
          let sb := n_bal c m (n_left c m p) in
          let '(m, root, _) :=
            if 0 <? sb then rotate_left_right c m root p else rotate_right c m root p in
          if sb =? 0 then Some (m, root) else avl_retrace_remove fuel c m root next_parent lost_left
        else if n_bal c m p =? 0 then Some (set_bal c m p (-1), root)
        else avl_retrace_remove fuel c (set_bal c m p 0) root next_parent lost_left
  end.

(** ** Insertion and removal *)

(** The descent of [avl_core_insert]: [None] at a duplicate, otherwise the parent
    for the new node and the last comparison. *)
Fixpoint insert_descent (fuel : nat) (c : AvlCore) (m : mem) (elem parent cur cmp : Z)
    : option (option (Z * Z)) :=
  if cur =? AVL_CORE_NIL then Some (Some (parent, cmp)) else
  match fuel with
  | O => None
  | S fuel =>
      let cmp := compare_at c m elem (avl_core_payload c cur) in
      if cmp =? 0 then Some None
      else insert_descent fuel c m elem cur (if cmp <? 0 then n_left c m cur else n_right c m cur) cmp
  end.

Definition avl_core_insert (c : AvlCore) (m : mem) (o : Owner) (elem : Z) (balance : bool)
    : option (mem * Owner * Z) :=
  match insert_descent (avl_fuel c) c m elem AVL_CORE_NIL (ow_root o) 0 with
  | None => None
  | Some None => Some (m, o, 0)
  | Some (Some (parent, cmp)) =>
      let '(free_head, n) := alloc_node c m (ow_free o) in
      if n =? AVL_CORE_NIL then Some (m, o, 0) else
      let m := memcpy m (avl_core_payload c n) elem (ac_element_size c) in
      let m := set_left c m n AVL_CORE_NIL in
      let m := set_right c m n AVL_CORE_NIL in
      let m := set_parent c m n parent in
      let m := set_bal c m n 0 in
      let '(m, root) :=
        if parent =? AVL_CORE_NIL then (m, n)
        else if cmp <? 0 then (set_left c m parent n, ow_root o)
        else (set_right c m parent n, ow_root o) in
      let count := u64 (ow_count o + 1) in
      match (if balance then avl_retrace_insert c m root n else Some (m, root)) with
      | None => None
      | Some (m, root) => Some (m, mkOwner root free_head count, 1)
      end
  end.

(** [if (out) memcpy(out, payload(z), element_size)]. *)
Definition copy_out (c : AvlCore) (m : mem) (z out : Z) : mem :=
  if out =? 0 then m else memcpy m out (avl_core_payload c z) (ac_element_size c).

(** With two children the payload of the in-order successor moves to [z], and the
    successor is the node to unlink. *)
Definition pick_target (c : AvlCore) (m : mem) (z : Z) : option (mem * Z) :=
  if negb (n_left c m z =? AVL_CORE_NIL) && negb (n_right c m z =? AVL_CORE_NIL) then
    match subtree_min c m (n_right c m z) with
    | None => None
    | Some s => Some (memcpy m (avl_core_payload c z) (avl_core_payload c s) (ac_element_size c), s)
    end
  else Some (m, z).

(** Splicing [target] out of the tree, rebalancing above it. *)
Definition unlink (c : AvlCore) (m : mem) (root target : Z) (balance : bool) : option (mem * Z) :=
  let child :=
    if negb (n_left c m target =? AVL_CORE_NIL) then n_left c m target else n_right c m target in
  let parent := n_parent c m target in
  let lost_left := negb (parent =? AVL_CORE_NIL) && (n_left c m parent =? target) in
  let '(m, root) := replace_child c m root parent target child in
  if balance && negb (parent =? AVL_CORE_NIL)
  then avl_retrace_remove (avl_fuel c) c m root parent lost_left else Some (m, root).

Definition avl_core_remove (c : AvlCore) (m : mem) (o : Owner) (key out : Z) (balance : bool)
    : option (mem * Owner * Z) :=
  match avl_core_find c m (ow_root o) key with
  | None => None
  | Some z =>
      if z =? AVL_CORE_NIL then Some (m, o, 0) else
      let m := copy_out c m z out in
      match pick_target c m z with
      | None => None
      | Some (m, target) =>
          match unlink c m (ow_root o) target balance with
          | None => None
          | Some (m, root) =>
              let '(m, free_head) := free_node c m (ow_free o) target in
              Some (m, mkOwner root free_head (u64 (ow_count o - 1)), 1)
          end
      end
  end.
