(* ===== verification/AvlRep.v ===== *)
(** How the memory of a node pool represents search trees: every node as a cell of
    links, balance and payload; [rep] for a tree below its parent, [repk] for the
    context above it; what each write of [avl_core.c] does to them. *)
From stdpp Require Import sorting sets.
From S2P Require Import Prelude HostMem NodePool AvlTree AvlCore.
#[local] Open Scope Z_scope.

Record cell := mkCell {
  cl_left : Z;
  cl_right : Z;
  cl_parent : Z;
  cl_bal : Z;
  cl_pay : list Z
}.

Definition heap : Type := Z -> cell.
Definition upd (s : heap) (i : Z) (n : cell) : heap := fun j => if decide (i = j) then n else s j.

Definition with_left (v : Z) (n : cell) := mkCell v (cl_right n) (cl_parent n) (cl_bal n) (cl_pay n).
Definition with_right (v : Z) (n : cell) := mkCell (cl_left n) v (cl_parent n) (cl_bal n) (cl_pay n).
Definition with_parent (v : Z) (n : cell) := mkCell (cl_left n) (cl_right n) v (cl_bal n) (cl_pay n).
Definition with_bal (v : Z) (n : cell) := mkCell (cl_left n) (cl_right n) (cl_parent n) v (cl_pay n).
Definition with_pay (v : list Z) (n : cell) := mkCell (cl_left n) (cl_right n) (cl_parent n) (cl_bal n) v.

Lemma upd_eq s i n : upd s i n i = n.
Proof. unfold upd. by rewrite decide_True. Qed.
Lemma upd_ne s i n j : i <> j -> upd s i n j = s j.
Proof. intros. unfold upd. by rewrite decide_False. Qed.

(** Heaps are compared cell by cell. *)
#[export] Instance heap_equiv : Equiv heap := fun s s' => forall i, s i = s' i.
#[export] Instance heap_equivalence : Equivalence (≡@{heap}).
Proof.
  split; [by intros s i|by intros s s' E i|]. intros s1 s2 s3 E1 E2 i. by rewrite (E1 i).
Qed.

#[export] Instance upd_proper : Proper ((≡@{heap}) ==> eq ==> eq ==> (≡@{heap})) upd.
Proof. intros s s' E i _ <- n _ <- j. unfold upd. case_decide; [done|apply E]. Qed.

(** ** Trees in the heap *)

Definition troot (t : tree) : Z :=
  match t with Leaf => AVL_CORE_NIL | Node _ i _ _ _ => i end.
Definition kparent (k : ctx) : Z :=
  match k with [] => AVL_CORE_NIL | f :: _ => frame_index f end.

Fixpoint rep (s : heap) (p : Z) (t : tree) : Prop :=
  match t with
  | Leaf => True
  | Node l i b e r => s i = mkCell (troot l) (troot r) p b e /\ rep s i l /\ rep s i r
  end.

(** The context with the node [h] in its hole. *)
Fixpoint repk (s : heap) (root : Z) (k : ctx) (h : Z) : Prop :=
  match k with
  | [] => root = h
  | InLeft i b e r :: k =>
      s i = mkCell h (troot r) (kparent k) b e /\ rep s i r /\ repk s root k i
  | InRight l i b e :: k =>
      s i = mkCell (troot l) h (kparent k) b e /\ rep s i l /\ repk s root k i
  end.

(** The tree [t] inside the context [k]. *)
Definition whole (s : heap) (root : Z) (k : ctx) (t : tree) : Prop :=
  repk s root k (troot t) /\ rep s (kparent k) t.

(** A cell by direction: its child on side [d], then the other one. *)
Definition mkc (d : dir) (x y p b : Z) (e : list Z) : cell :=
  match d with DLeft => mkCell x y p b e | DRight => mkCell y x p b e end.
Definition with_child (d : dir) (v : Z) (n : cell) : cell :=
  match d with DLeft => with_left v n | DRight => with_right v n end.

Lemma rep_mk s p d a i b e z : rep s p (mk d a i b e z) <->
  s i = mkc d (troot z) (troot a) p b e /\ rep s i a /\ rep s i z.
Proof. destruct d; cbn; tauto. Qed.

Lemma repk_hole s root d a i b e k h : repk s root (hole d a i b e :: k) h <->
  s i = mkc d h (troot a) (kparent k) b e /\ rep s i a /\ repk s root k i.
Proof. by destruct d. Qed.

Lemma troot_mk d a i b e z : troot (mk d a i b e z) = i.
Proof. by destruct d. Qed.

Lemma kparent_hole d a i b e k : kparent (hole d a i b e :: k) = i.
Proof. by destruct d. Qed.

Lemma mkc_child d x y p b e v : with_child d v (mkc d x y p b e) = mkc d v y p b e.
Proof. by destruct d. Qed.
Lemma mkc_child_flip d x y p b e v : with_child (flip d) v (mkc d x y p b e) = mkc d x v p b e.
Proof. by destruct d. Qed.
Lemma mkc_parent d x y p b e v : with_parent v (mkc d x y p b e) = mkc d x y v b e.
Proof. by destruct d. Qed.
Lemma mkc_bal d x y p b e v : with_bal v (mkc d x y p b e) = mkc d x y p v e.
Proof. by destruct d. Qed.
Lemma mkc_pay d x y p b e v : with_pay v (mkc d x y p b e) = mkc d x y p b v.
Proof. by destruct d. Qed.
Lemma mkc_flip d x y p b e : mkc (flip d) x y p b e = mkc d y x p b e.
Proof. by destruct d. Qed.

Lemma rep_ext s s' t : forall p, (forall i, i ∈ nodes t -> s' i = s i) -> rep s p t -> rep s' p t.
Proof.
  induction t as [|l IHl i b e r IHr]; intros p He; cbn [rep]; [done|].
  setoid_rewrite nodes_Node in He. setoid_rewrite elem_of_cons in He. setoid_rewrite elem_of_app in He.
  intros (Hi & Hl & Hr). rewrite He by auto. split_and!; auto.
Qed.

Lemma repk_ext s s' root k : forall h,
  (forall i, i ∈ knodes k -> s' i = s i) -> repk s root k h -> repk s' root k h.
Proof.
  induction k as [|f k IH]; intros h He; [done|]. destruct (frame_hole f) as (d & a & i & b & e & ->).
  rewrite !repk_hole. setoid_rewrite knodes_hole in He. setoid_rewrite elem_of_cons in He.
  setoid_rewrite elem_of_app in He. intros (Hi & Hr & Hk).
  rewrite He by auto. split_and!; [done|by apply (rep_ext s); [auto|]|auto].
Qed.

#[export] Instance rep_proper : Proper ((≡@{heap}) ==> eq ==> eq ==> iff) rep.
Proof. intros s s' E p _ <- t _ <-. split; apply rep_ext; intros; by rewrite (E _). Qed.
#[export] Instance repk_proper : Proper ((≡@{heap}) ==> eq ==> eq ==> eq ==> iff) repk.
Proof. intros s s' E p _ <- t _ <- h _ <-. split; apply repk_ext; intros; by rewrite (E _). Qed.
#[export] Instance whole_proper : Proper ((≡@{heap}) ==> eq ==> eq ==> eq ==> iff) whole.
Proof. intros s s' E p _ <- t _ <- h _ <-. unfold whole. by rewrite E. Qed.

Lemma rep_upd s p t i n : i ∉ nodes t -> rep s p t -> rep (upd s i n) p t.
Proof. intros Hi. apply rep_ext. intros j Hj. apply upd_ne. by intros ->. Qed.

Lemma repk_upd s root k h i n : i ∉ knodes k -> repk s root k h -> repk (upd s i n) root k h.
Proof. intros Hi. apply repk_ext. intros j Hj. apply upd_ne. by intros ->. Qed.

Lemma whole_fill s root f k t : whole s root (f :: k) t <-> whole s root k (fill f t).
Proof. unfold whole. destruct f; cbn; tauto. Qed.

Lemma whole_plug s root k : forall t, whole s root k t <-> whole s root [] (plug k t).
Proof.
  induction k as [|f k IH]; intros t; cbn [plug]; [done|]. by rewrite whole_fill, IH.
Qed.

Lemma whole_app s root k1 : forall k2 t, whole s root (k1 ++ k2) t <-> whole s root k2 (plug k1 t).
Proof.
  induction k1 as [|f k1 IH]; intros k2 t; cbn [plug app]; [done|]. by rewrite whole_fill, IH.
Qed.

Lemma troot_elem t : t = Leaf \/ troot t ∈ nodes t.
Proof. destruct t; [by left|]. right. rewrite nodes_Node. apply list_elem_of_here. Qed.

Lemma kparent_elem k : k = [] \/ kparent k ∈ knodes k.
Proof.
  destruct k as [|f k]; [by left|]. right. destruct (frame_hole f) as (d & a & i & b & e & ->).
  rewrite kparent_hole, knodes_hole. apply list_elem_of_here.
Qed.

(** Making [p] the parent of the tree at [b], if there is one. *)
Definition adopt (s : heap) (b p : Z) : heap :=
  if negb (b =? AVL_CORE_NIL) then upd s b (with_parent p (s b)) else s.

#[export] Instance adopt_proper : Proper ((≡@{heap}) ==> eq ==> eq ==> (≡@{heap})) adopt.
Proof. intros s s' E b _ <- p _ <-. unfold adopt. case_match; [|done]. by rewrite (E b), E. Qed.

Lemma adopt_ne s b p j : b <> j -> adopt s b p j = s j.
Proof. intros. unfold adopt. case_match; [by apply upd_ne|done]. Qed.

Lemma rep_adopt_other s b p q t : b ∉ nodes t -> rep s q t -> rep (adopt s b p) q t.
Proof. intros. unfold adopt. case_match; [by apply rep_upd|done]. Qed.

Lemma repk_adopt s b p root k h : b ∉ knodes k -> repk s root k h -> repk (adopt s b p) root k h.
Proof. intros. unfold adopt. case_match; [by apply repk_upd|done]. Qed.

Lemma rep_adopt s p q t :
  NoDup (nodes t) -> AVL_CORE_NIL ∉ nodes t -> rep s q t -> rep (adopt s (troot t) p) p t.
Proof.
  destruct t as [|l i b e r]; cbn [rep troot]; [done|]. rewrite nodes_Node.
  intros [Hi _]%NoDup_cons [Hn _]%not_elem_of_cons (Hc & Hl & Hr).
  rewrite not_elem_of_app in Hi. destruct Hi. unfold adopt.
  rewrite (proj2 (Z.eqb_neq _ _)) by done. cbn [negb]. rewrite upd_eq, Hc. cbn.
  split; [done|]. split; by apply rep_upd.
Qed.

(** ** The memory as a heap *)

Definition cell_at (c : AvlCore) (m : mem) : heap := fun i =>
  mkCell (n_left c m i) (n_right c m i) (n_parent c m i) (n_bal c m i)
    (mem_read m (avl_core_payload c i) (ac_element_size c)).

Definition pool_of (c : AvlCore) : Pool :=
  mkPool (ac_pool c) (ac_capacity c) AVL_CORE_NODE_OVERHEAD (ac_element_size c).

Record core_ok (c : AvlCore) : Prop := {
  core_pool_ok : pool_ok (pool_of c);
  core_stride : ac_stride c = AVL_CORE_NODE_OVERHEAD + ac_element_size c
}.

Section memory.
Context (c : AvlCore) (Hc : core_ok c).

Definition in_pool (i : Z) : Prop := 0 <= i < ac_capacity c.

Lemma node_at_pool i : node_at c i = at_node (pool_of c) i.
Proof. unfold node_at, at_node, slot. by rewrite (core_stride c Hc). Qed.

(** Changes confined to the byte range [a .. a + n) inside node [i] leave the other
    nodes alone. *)
Lemma other_cell m m' i o n j :
  mem_frame (node_at c i + o) n m m' -> 0 <= o -> o + n <= ac_stride c -> i <> j ->
  cell_at c m' j = cell_at c m j.
Proof.
  intros Hf Ho Hn Hj. pose proof (core_pool_ok c Hc) as Hg.
  pose proof (nodes_apart _ Hg i j Hj) as Hd. rewrite <-!node_at_pool in Hd.
  unfold po_stride in Hd. cbn [pool_of po_links po_esz] in Hd. rewrite <-(core_stride c Hc) in Hd.
  assert (mem_agree (rng (node_at c j) (ac_stride c)) m m') as Ha.
  { intros x Hx. apply Hf. unfold rng, rdisj in *. lia. }
  pose proof (core_stride c Hc) as Hs. destruct Hg as [_ _ _ He]. cbn in He. unfold AVL_CORE_NODE_OVERHEAD in *.
  assert (forall o' n', 0 <= o' -> o' + n' <= ac_stride c ->
    mem_agree (rng (node_at c j + o') n') m m') as Hsub.
  { intros o' n' H1 H2. eapply mem_agree_mono; [|exact Ha]. unfold rng. lia. }
  unfold cell_at, n_left, n_right, n_parent, n_bal, avl_core_payload, AVL_CORE_NODE_OVERHEAD. f_equal.
  - symmetry. rewrite <-(Z.add_0_r (node_at c j)). apply load32_agree. apply Hsub; lia.
  - symmetry. apply load32_agree. apply Hsub; lia.
  - symmetry. apply load32_agree. apply Hsub; lia.
  - f_equal. symmetry. apply (Hsub 12 1); unfold rng; lia.
  - symmetry. apply mem_read_agree. apply Hsub; lia.
Qed.

Lemma s8_u8 v : -128 <= v < 128 -> s8 (u8 v) = v.
Proof. zlia. Qed.

Lemma esz_stride : 0 < ac_element_size c /\ ac_stride c = 16 + ac_element_size c.
Proof. pose proof (core_stride c Hc). destruct (core_pool_ok c Hc) as [_ _ _ He]. done. Qed.

(** Reading a field of a node after a write to other bytes of it. *)
Lemma bal_frame m m' i o n :
  mem_frame (node_at c i + o) n m m' -> o + n <= 12 \/ 13 <= o -> n_bal c m' i = n_bal c m i.
Proof. intros Hf Ho. unfold n_bal. f_equal. symmetry. apply Hf. unfold rng. lia. Qed.

Lemma pay_frame m m' i o n :
  mem_frame (node_at c i + o) n m m' -> 0 <= n -> o + n <= 16 ->
  mem_read m' (avl_core_payload c i) (ac_element_size c) = mem_read m (avl_core_payload c i) (ac_element_size c).
Proof.
  intros Hf Hn Ho. eapply mem_read_frame; [exact Hf|].
  unfold rdisj, avl_core_payload, AVL_CORE_NODE_OVERHEAD. lia.
Qed.

Lemma word_frame m m' i o n k :
  mem_frame (node_at c i + o) n m m' -> o + n <= k \/ k + 4 <= o ->
  load32 m' (node_at c i + k) = load32 m (node_at c i + k).
Proof. intros Hf Ho. eapply load32_frame; [exact Hf|]. unfold rdisj. lia. Qed.

Lemma store_frame m i o v : mem_frame (node_at c i + o) 4 m (store32 m (node_at c i + o) v).
Proof. apply store32_frame. Qed.

Lemma left_frame m i v : mem_frame (node_at c i + 0) 4 m (set_left c m i v).
Proof. unfold set_left. rewrite Z.add_0_r. apply store32_frame. Qed.

Lemma bal_write_frame m i v : mem_frame (node_at c i + 12) 1 m (set_bal c m i v).
Proof. unfold set_bal. by apply mem_write_frame. Qed.

Lemma pay_write_frame m i src :
  mem_frame (node_at c i + 16) (ac_element_size c) m (memcpy m (avl_core_payload c i) src (ac_element_size c)).
Proof. pose proof esz_stride. apply memcpy_frame. lia. Qed.

Lemma n_left_word m i : n_left c m i = load32 m (node_at c i + 0).
Proof. by rewrite Z.add_0_r. Qed.

Lemma cells_set_left m i v : is_u32 v ->
  cell_at c (set_left c m i v) ≡ upd (cell_at c m) i (with_left v (cell_at c m i)).
Proof.
  intros Hv j. pose proof esz_stride. pose proof (left_frame m i v) as Hf.
  destruct (decide (i = j)) as [<-|Hj].
  - rewrite upd_eq. unfold cell_at at 1. unfold with_left. cbn. f_equal.
    + unfold n_left, set_left. rewrite load32_store32_eq. by apply u32_small.
    + eapply word_frame; [exact Hf|lia].
    + eapply word_frame; [exact Hf|lia].
    + eapply bal_frame; [exact Hf|lia].
    + eapply pay_frame; [exact Hf|lia..].
  - rewrite upd_ne by done. eapply other_cell; [exact Hf|lia|lia|done].
Qed.

Lemma cells_set_right m i v : is_u32 v ->
  cell_at c (set_right c m i v) ≡ upd (cell_at c m) i (with_right v (cell_at c m i)).
Proof.
  intros Hv j. pose proof esz_stride. pose proof (store_frame m i 4 v) as Hf. fold (set_right c m i v) in Hf.
  destruct (decide (i = j)) as [<-|Hj].
  - rewrite upd_eq. unfold cell_at at 1. unfold with_right. cbn. rewrite !n_left_word. f_equal.
    + eapply word_frame; [exact Hf|lia].
    + unfold n_right, set_right. rewrite load32_store32_eq. by apply u32_small.
    + eapply word_frame; [exact Hf|lia].
    + eapply bal_frame; [exact Hf|lia].
    + eapply pay_frame; [exact Hf|lia..].
  - rewrite upd_ne by done. eapply other_cell; [exact Hf|lia|lia|done].
Qed.

Lemma cells_set_parent m i v : is_u32 v ->
  cell_at c (set_parent c m i v) ≡ upd (cell_at c m) i (with_parent v (cell_at c m i)).
Proof.
  intros Hv j. pose proof esz_stride. pose proof (store_frame m i 8 v) as Hf. fold (set_parent c m i v) in Hf.
  destruct (decide (i = j)) as [<-|Hj].
  - rewrite upd_eq. unfold cell_at at 1. unfold with_parent. cbn. rewrite !n_left_word. f_equal.
    + eapply word_frame; [exact Hf|lia].
    + eapply word_frame; [exact Hf|lia].
    + unfold n_parent, set_parent. rewrite load32_store32_eq. by apply u32_small.
    + eapply bal_frame; [exact Hf|lia].
    + eapply pay_frame; [exact Hf|lia..].
  - rewrite upd_ne by done. eapply other_cell; [exact Hf|lia|lia|done].
Qed.

Lemma cells_set_bal m i v : -128 <= v < 128 ->
  cell_at c (set_bal c m i v) ≡ upd (cell_at c m) i (with_bal v (cell_at c m i)).
Proof.
  intros Hv j. pose proof esz_stride. pose proof (bal_write_frame m i v) as Hf.
  destruct (decide (i = j)) as [<-|Hj].
  - rewrite upd_eq. unfold cell_at at 1. unfold with_bal. cbn. rewrite !n_left_word. f_equal.
    + eapply word_frame; [exact Hf|lia].
    + eapply word_frame; [exact Hf|lia].
    + eapply word_frame; [exact Hf|lia].
    + unfold n_bal, set_bal. rewrite mem_write_one. by apply s8_u8.
    + eapply pay_frame; [exact Hf|lia..].
  - rewrite upd_ne by done. eapply other_cell; [exact Hf|lia|lia|done].
Qed.

Lemma cells_set_pay m i src :
  cell_at c (memcpy m (avl_core_payload c i) src (ac_element_size c)) ≡ upd (cell_at c m) i (with_pay (mem_read m src (ac_element_size c)) (cell_at c m i)).
Proof.
  intros j. pose proof esz_stride as [He Hs]. pose proof (pay_write_frame m i src) as Hf.
  destruct (decide (i = j)) as [<-|Hj].
  - rewrite upd_eq. unfold cell_at at 1. unfold with_pay. cbn. rewrite !n_left_word. f_equal.
    + eapply word_frame; [exact Hf|lia].
    + eapply word_frame; [exact Hf|lia].
    + eapply word_frame; [exact Hf|lia].
    + eapply bal_frame; [exact Hf|lia].
    + apply memcpy_read. lia.
  - rewrite upd_ne by done. eapply other_cell; [exact Hf|lia|lia|done].
Qed.

Lemma cells_adopt m b p : is_u32 p ->
  cell_at c (if negb (b =? AVL_CORE_NIL) then set_parent c m b p else m) ≡ adopt (cell_at c m) b p.
Proof. intros Hp. unfold adopt. case_match; [by apply cells_set_parent|done]. Qed.

(** ** What an operation may touch *)

(** Bytes of the pool only, and of its nodes only [ns]. *)
Definition touches (ns : list Z) (m m' : mem) : Prop :=
  mem_frame (ac_pool c) (ac_capacity c * ac_stride c) m m' /\
  (forall j, j ∉ ns -> cell_at c m' j = cell_at c m j).

#[export] Instance touches_preorder ns : PreOrder (touches ns).
Proof.
  split; [done|]. intros m1 m2 m3 [F1 C1] [F2 C2]. split; [by transitivity m2|].
  intros j Hj. by rewrite C2, C1.
Qed.

#[export] Instance touches_perm : Proper ((≡ₚ) ==> eq ==> eq ==> iff) touches.
Proof. intros ns ns' E m _ <- m' _ <-. unfold touches. by setoid_rewrite E. Qed.

Lemma touches_mono ns ns' m m' : ns ⊆ ns' -> touches ns m m' -> touches ns' m m'.
Proof. intros Hs [F C]. split; [done|]. intros j Hj. apply C. intros Hin. by apply Hj, Hs. Qed.

Lemma touches_at ns m m' i o n :
  mem_frame (node_at c i + o) n m m' -> 0 <= o -> o + n <= ac_stride c -> in_pool i -> i ∈ ns ->
  touches ns m m'.
Proof.
  intros Hf Ho Hn Hi Hin. split.
  - pose proof (slot_inside (ac_pool c) (ac_stride c) (ac_capacity c) i ltac:(pose proof esz_stride; lia) Hi).
    eapply mem_frame_mono; [| |exact Hf]; unfold node_at, slot in *; lia.
  - intros j Hj. eapply other_cell; [exact Hf|done..|]. by intros ->.
Qed.

Section writes.
Context (ns : list Z) (Hns : Forall in_pool ns) (m : mem) (i : Z) (Hi : i ∈ ns).

Lemma in_pool_ns : in_pool i.
Proof. by eapply Forall_forall. Qed.

Lemma touches_left v : touches ns m (set_left c m i v).
Proof.
  pose proof esz_stride. eapply touches_at; [apply left_frame|lia|lia|apply in_pool_ns|done].
Qed.
Lemma touches_right v : touches ns m (set_right c m i v).
Proof.
  pose proof esz_stride. eapply touches_at; [apply store_frame|lia|lia|apply in_pool_ns|done].
Qed.
Lemma touches_parent v : touches ns m (set_parent c m i v).
Proof.
  pose proof esz_stride. eapply touches_at; [apply store_frame|lia|lia|apply in_pool_ns|done].
Qed.
Lemma touches_bal v : touches ns m (set_bal c m i v).
Proof.
  pose proof esz_stride. eapply touches_at; [apply bal_write_frame|lia|lia|apply in_pool_ns|done].
Qed.
Lemma touches_pay src : touches ns m (memcpy m (avl_core_payload c i) src (ac_element_size c)).
Proof.
  pose proof esz_stride. eapply touches_at; [apply pay_write_frame|lia|lia|apply in_pool_ns|done].
Qed.

End writes.

Lemma touches_adopt ns m b p : Forall in_pool ns -> b = AVL_CORE_NIL \/ b ∈ ns ->
  touches ns m (if negb (b =? AVL_CORE_NIL) then set_parent c m b p else m).
Proof. intros Hns [->|Hb]; [done|]. case_match; [by apply touches_parent|done]. Qed.

(** Node indices are 32-bit and none is the end marker. *)
Lemma in_pool_u32 i : in_pool i -> is_u32 i /\ i <> AVL_CORE_NIL.
Proof.
  pose proof (core_pool_ok c Hc) as [_ Hcap _ _]. cbn in Hcap.
  unfold in_pool, AVL_CORE_NIL, NODE_NIL in *. umach. lia.
Qed.

Lemma nil_u32 : is_u32 AVL_CORE_NIL.
Proof. done. Qed.

Lemma nil_not_in ns : Forall in_pool ns -> AVL_CORE_NIL ∉ ns.
Proof. intros Hf Hn. eapply Forall_forall in Hf; [|exact Hn]. by apply in_pool_u32 in Hf as [_ ?]. Qed.

Lemma troot_u32 t : Forall in_pool (nodes t) -> is_u32 (troot t).
Proof.
  intros Hf. destruct (troot_elem t) as [->|Hi]; [done|]. eapply Forall_forall in Hi; [|exact Hf].
  by apply in_pool_u32.
Qed.

Lemma kparent_u32 k : Forall in_pool (knodes k) -> is_u32 (kparent k).
Proof.
  intros Hf. destruct (kparent_elem k) as [->|Hi]; [done|]. eapply Forall_forall in Hi; [|exact Hf].
  by apply in_pool_u32.
Qed.

Lemma troot_nil t : Forall in_pool (nodes t) -> (troot t =? AVL_CORE_NIL) = match t with Leaf => true | _ => false end.
Proof.
  intros Hf. destruct t as [|l i b e r]; [done|]. rewrite nodes_Node in Hf. apply Forall_cons in Hf as [Hi _].
  apply in_pool_u32 in Hi as [_ Hi]. by apply Z.eqb_neq.
Qed.

Lemma kparent_nil k : Forall in_pool (knodes k) -> (kparent k =? AVL_CORE_NIL) = match k with [] => true | _ => false end.
Proof.
  intros Hf. destruct k as [|f k]; [done|]. destruct (kparent_elem (f :: k)) as [|Hi]; [done|].
  eapply Forall_forall in Hi; [|exact Hf]. apply in_pool_u32 in Hi as [_ Hi]. by apply Z.eqb_neq.
Qed.

End memory.
