(* ===== verification/AvlRot.v ===== *)
(** The local rewrites of [avl_core.c]: hooking a subtree below its parent and the
    four rotations.  Each leaves the tree represented, in its new shape. *)
From stdpp Require Import sorting sets.
From S2P Require Import Prelude HostMem NodePool AvlTree AvlCore AvlRep.
#[local] Open Scope Z_scope.

Section rotations.
Context (c : AvlCore) (Hc : core_ok c).

(** Distinct nodes of the pool. *)
Definition wfn (ns : list Z) : Prop := NoDup ns /\ Forall (in_pool c) ns.

#[export] Instance wfn_proper : Proper ((≡ₚ) ==> iff) wfn.
Proof. intros l l' E. unfold wfn. by rewrite E. Qed.

Lemma wfn_app ns1 ns2 : wfn (ns1 ++ ns2) <->
  wfn ns1 /\ wfn ns2 /\ (forall i, i ∈ ns1 -> i ∉ ns2).
Proof. unfold wfn. rewrite NoDup_app, Forall_app. tauto. Qed.

Lemma wfn_cons i ns : wfn (i :: ns) <-> in_pool c i /\ (i ∉ ns) /\ wfn ns.
Proof. unfold wfn. rewrite NoDup_cons, Forall_cons. tauto. Qed.

Lemma cell_fields m i l r p b e : cell_at c m i = mkCell l r p b e ->
  n_left c m i = l /\ n_right c m i = r /\ n_parent c m i = p /\ n_bal c m i = b /\
  mem_read m (avl_core_payload c i) (ac_element_size c) = e.
Proof. unfold cell_at. intros [=]. done. Qed.

Lemma nil_not ns : wfn ns -> AVL_CORE_NIL ∉ ns.
Proof. intros [_ Hf]. by eapply nil_not_in. Qed.

(** ** Directions *)

Definition n_child (d : dir) (m : mem) (i : Z) : Z :=
  match d with DLeft => n_left c m i | DRight => n_right c m i end.
Definition set_child (d : dir) (m : mem) (i v : Z) : mem :=
  match d with DLeft => set_left c m i v | DRight => set_right c m i v end.

Lemma cells_set_child d m i v : is_u32 v ->
  cell_at c (set_child d m i v) ≡ upd (cell_at c m) i (with_child d v (cell_at c m i)).
Proof. intros. destruct d; [by apply cells_set_left|by apply cells_set_right]. Qed.

Lemma touches_child ns d m i v : Forall (in_pool c) ns -> i ∈ ns -> touches c ns m (set_child d m i v).
Proof. intros. destruct d; [by apply touches_left|by apply touches_right]. Qed.

Lemma mkc_fields d m i x y p b e : cell_at c m i = mkc d x y p b e ->
  n_child d m i = x /\ n_child (flip d) m i = y /\ n_parent c m i = p /\ n_bal c m i = b /\
  mem_read m (avl_core_payload c i) (ac_element_size c) = e.
Proof. destruct d; intros E%cell_fields; cbn; tauto. Qed.

(** [rotate_left] lifts the right child, [rotate_right] the left one. *)
Definition rot (d : dir) (m : mem) (root x : Z) : mem * Z * Z :=
  let y := n_child d m x in
  let p := n_parent c m x in
  let b := n_child (flip d) m y in
  let m := set_child d m x b in
  let m := if negb (b =? AVL_CORE_NIL) then set_parent c m b x else m in
  let m := set_child (flip d) m y x in
  let m := set_parent c m x y in
  let '(m, root) := replace_child c m root p x y in
  let m :=
    if n_bal c m y =? 0 then set_bal c (set_bal c m x (sg d)) y (- sg d)
    else set_bal c (set_bal c m x 0) y 0 in
  (m, root, y).

Definition rot2 (d : dir) (m : mem) (root x : Z) : mem * Z * Z :=
  let z := n_child d m x in
  let y := n_child (flip d) m z in
  let yb := n_bal c m y in
  let '(m, root, _) := rot (flip d) m root z in
  let '(m, root, newroot) := rot d m root x in
  let m :=
    if tilts (flip d) yb then set_bal c (set_bal c m z (sg d)) x 0
    else if yb =? 0 then set_bal c (set_bal c m z 0) x 0
    else set_bal c (set_bal c m z 0) x (- sg d) in
  (set_bal c m y 0, root, newroot).

Lemma rotate_left_rot m root x : rotate_left c m root x = rot DRight m root x.
Proof. done. Qed.
Lemma rotate_right_rot m root x : rotate_right c m root x = rot DLeft m root x.
Proof. done. Qed.
Lemma rotate_right_left_rot m root x : rotate_right_left c m root x = rot2 DRight m root x.
Proof. done. Qed.
Lemma rotate_left_right_rot m root x : rotate_left_right c m root x = rot2 DLeft m root x.
Proof. done. Qed.

(** ** Hooking *)

(** Writing a child link of the context's innermost node. *)
Lemma hook_spec m root d a i b e k old q t :
  repk (cell_at c m) root (hole d a i b e :: k) old -> rep (cell_at c m) q t ->
  wfn (nodes t ++ knodes (hole d a i b e :: k)) ->
  let m1 := set_child d m i (troot t) in
  let m' := if negb (troot t =? AVL_CORE_NIL) then set_parent c m1 (troot t) i else m1 in
  whole (cell_at c m') root (hole d a i b e :: k) t /\
  touches c (nodes t ++ knodes (hole d a i b e :: k)) m m'.
Proof.
  rewrite repk_hole. intros (Hi & Hr & Hk) Ht Hw m1 m'. rewrite knodes_hole in Hw |- *.
  pose proof Hw as [_ Hall]. apply wfn_app in Hw as (Hwt & Hwk & Hd).
  assert (i ∉ nodes t) as Hit by (intros Hx; by apply (Hd i Hx), elem_of_cons; left).
  apply wfn_cons in Hwk as (Hip & Hni & Hwk). rewrite not_elem_of_app in Hni.
  pose proof (troot_u32 c Hc t (proj2 Hwt)) as Hu. pose proof (in_pool_u32 c Hc i Hip) as [Hiu _].
  assert (troot t ∉ i :: nodes a ++ knodes k) as Htk.
  { destruct (troot_elem t) as [->|]; [|auto]. eapply nil_not_in; [exact Hc|]. by apply Forall_app in Hall as [_ ?]. }
  apply not_elem_of_cons in Htk as [Hti Htk]. rewrite not_elem_of_app in Htk. split.
  - unfold m', m1. rewrite cells_adopt, cells_set_child by done. unfold whole.
    rewrite repk_hole, kparent_hole. split; [split_and!|].
    + rewrite adopt_ne, upd_eq, Hi by done. apply mkc_child.
    + apply rep_adopt_other; [tauto|]. apply rep_upd; [tauto|done].
    + apply repk_adopt; [tauto|]. apply repk_upd; [tauto|done].
    + apply (rep_adopt _ _ q); [apply Hwt|by apply nil_not|]. by apply rep_upd.
  - transitivity m1; [apply touches_child; [done|]|].
    + apply elem_of_app. right. by left.
    + apply touches_adopt; [done|done|]. destruct (troot_elem t) as [->|]; [by left|].
      right. apply elem_of_app. by left.
Qed.

Lemma replace_child_spec m root k old q t :
  repk (cell_at c m) root k old -> rep (cell_at c m) q t ->
  old <> AVL_CORE_NIL -> old ∉ knodes k -> wfn (nodes t ++ knodes k) ->
  let '(m', root') := replace_child c m root (kparent k) old (troot t) in
  whole (cell_at c m') root' k t /\ touches c (nodes t ++ knodes k) m m'.
Proof.
  intros Hk Ht Hold Hno Hw. pose proof Hw as [_ Hall].
  pose proof Hw as (Hwt & Hwk & Hd)%wfn_app. unfold replace_child. rewrite (kparent_nil c Hc) by apply Hwk.
  destruct k as [|f k].
  - cbn [kparent]. split.
    + rewrite cells_adopt by done. split; [done|]. apply (rep_adopt _ _ q); [apply Hwt|by apply nil_not|done].
    + apply touches_adopt; [done|done|]. destruct (troot_elem t) as [->|]; [by left|].
      right. apply elem_of_app. by left.
  - destruct (frame_hole f) as (d & a & i & b & e & ->). rewrite kparent_hole.
    pose proof (hook_spec m root d a i b e k old q t Hk Ht Hw) as Hh.
    apply repk_hole in Hk as (Hi & Ha & Hk). apply mkc_fields in Hi as (Hi1 & Hi2 & _).
    rewrite knodes_hole, elem_of_cons, elem_of_app in Hno.
    replace (n_left c m i =? old) with (match d with DLeft => true | DRight => false end).
    + by destruct d.
    + destruct d; cbn in Hi1, Hi2; symmetry; [by apply Z.eqb_eq|]. apply Z.eqb_neq. rewrite Hi2. intros E.
      destruct (troot_elem a) as [->|Hae]; [by apply Hold|]. apply Hno. right. left. by rewrite <-E.
Qed.

(** ** Balance factors *)

Lemma set_bal_spec m root k d a i b e z v :
  whole (cell_at c m) root k (mk d a i b e z) -> wfn (nodes (mk d a i b e z) ++ knodes k) ->
  -128 <= v < 128 ->
  whole (cell_at c (set_bal c m i v)) root k (mk d a i v e z) /\
  touches c (nodes (mk d a i b e z) ++ knodes k) m (set_bal c m i v).
Proof.
  unfold whole. intros [Hk (Hi & Ha & Hz)%rep_mk] Hw Hv. rewrite nodes_mk in Hw |- *. rewrite troot_mk in *.
  cbn [app] in Hw |- *. split.
  - apply wfn_cons in Hw as (_ & Hni & _). rewrite !not_elem_of_app in Hni.
    rewrite cells_set_bal by done. split; [apply repk_upd; [tauto|done]|].
    rewrite rep_mk, upd_eq, Hi. split; [apply mkc_bal|]. split; (apply rep_upd; [tauto|done]).
  - apply touches_bal; [done|apply Hw|by left].
Qed.

(** The child on side [d] of the node at hand. *)
Lemma whole_child s root k d a i b e z :
  whole s root k (mk d a i b e z) <-> whole s root (hole d a i b e :: k) z.
Proof. by rewrite whole_fill, fill_hole. Qed.

Lemma nodes_child k d a i b e z :
  nodes (mk d a i b e z) ++ knodes k ≡ₚ nodes z ++ knodes (hole d a i b e :: k).
Proof. rewrite nodes_mk, knodes_hole. solve_Permutation. Qed.

(** The balance factors of a node and its child away from [d]. *)
Lemma set_bal2_spec m root k d a x xb xe b y yb ye z v w :
  whole (cell_at c m) root k (mk d (mk d a x xb xe b) y yb ye z) ->
  wfn (nodes (mk d (mk d a x xb xe b) y yb ye z) ++ knodes k) ->
  -128 <= v < 128 -> -128 <= w < 128 ->
  let m' := set_bal c (set_bal c m x v) y w in
  whole (cell_at c m') root k (mk d (mk d a x v xe b) y w ye z) /\
  touches c (nodes (mk d (mk d a x xb xe b) y yb ye z) ++ knodes k) m m'.
Proof.
  rewrite <-!(mk_flip d _ y). intros Hwh Hw Hv Hu m'. rewrite nodes_child in Hw |- *.
  apply whole_child in Hwh. destruct (set_bal_spec _ _ _ _ _ _ _ _ _ v Hwh Hw Hv) as [Hwh1 Ht1].
  apply whole_child in Hwh1.
  assert (wfn (nodes (mk (flip d) z y yb ye (mk d a x v xe b)) ++ knodes k)) as Hw1.
  { rewrite nodes_child. rewrite nodes_mk in Hw |- *. done. }
  destruct (set_bal_spec _ _ _ _ _ _ _ _ _ w Hwh1 Hw1 Hu) as [Hwh2 Ht2]. split; [done|].
  transitivity (set_bal c m x v); [done|]. rewrite nodes_child in Ht2.
  rewrite !nodes_mk in Ht2 |- *. done.
Qed.

(** ** Single rotation *)

(** The links before [replace_child] runs: the lifted node still names its old
    parent. *)
Lemma relink_spec m root k d a x xb xe b y yb ye z :
  whole (cell_at c m) root k (mk d a x xb xe (mk d b y yb ye z)) ->
  wfn (nodes (mk d a x xb xe (mk d b y yb ye z)) ++ knodes k) ->
  let m1 := set_child d m x (troot b) in
  let m2 := if negb (troot b =? AVL_CORE_NIL) then set_parent c m1 (troot b) x else m1 in
  let m4 := set_parent c (set_child (flip d) m2 y x) x y in
  repk (cell_at c m4) root k x /\ rep (cell_at c m4) x (mk d (mk d a x xb xe b) y yb ye z) /\
  touches c (nodes (mk d a x xb xe (mk d b y yb ye z)) ++ knodes k) m m4.
Proof.
  intros [Hk (Hx & Ha & (Hy & Hb & Hz)%rep_mk)%rep_mk] Hw m1 m2 m4.
  rewrite !nodes_mk in Hw |- *. rewrite !troot_mk in Hk, Hx.
  cbn [app] in Hw |- *. pose proof Hw as [_ Hall]. apply wfn_cons in Hw as (Hxp & Hxn & Hw).
  apply wfn_app in Hw as ((Hwa & (Hyp & Hyn & (Hwb & Hwz & Hbz)%wfn_app)%wfn_cons & Ha')%wfn_app & Hwk & Hk').
  rewrite !not_elem_of_app, not_elem_of_cons, not_elem_of_app in Hxn. rewrite not_elem_of_app in Hyn.
  assert (forall i, i ∈ nodes a -> i <> y /\ (i ∉ nodes b)) as Hae.
  { intros i Hi%Ha'. rewrite not_elem_of_cons, not_elem_of_app in Hi. tauto. }
  assert ((y ∉ nodes a) /\ y ∉ knodes k) as [Hya Hyk].
  { split; [intros Hi%Hae; tauto|]. apply Hk'. set_solver +. }
  assert ((troot b ∉ nodes a) /\ (troot b ∉ nodes z) /\ (troot b ∉ knodes k) /\ troot b <> x /\ troot b <> y)
    as (Hb1 & Hb2 & Hb3 & Hb4 & Hb5).
  { destruct (troot_elem b) as [->|Hbi]; cbn [troot].
    - split_and!; try (by apply nil_not); apply not_eq_sym; by eapply in_pool_u32.
    - split_and!; [by intros [_ Hi]%Hae|by apply Hbz|apply Hk'; rewrite !elem_of_app, elem_of_cons, elem_of_app; tauto|..];
        intros E; rewrite E in Hbi; tauto. }
  pose proof (troot_u32 c Hc b (proj2 Hwb)) as Hbu.
  destruct (in_pool_u32 c Hc x Hxp) as [Hxu _]. destruct (in_pool_u32 c Hc y Hyp) as [Hyu _].
  set (s1 := upd (cell_at c m) x (mkc d (troot b) (troot a) (kparent k) xb xe)).
  assert (cell_at c m1 ≡ s1) as E1 by (unfold m1; by rewrite cells_set_child, Hx, mkc_child).
  assert (cell_at c m2 ≡ adopt s1 (troot b) x) as E2 by (unfold m2; by rewrite cells_adopt, E1).
  set (s3 := upd (adopt s1 (troot b) x) y (mkc d (troot z) x x yb ye)).
  assert (cell_at c (set_child (flip d) m2 y x) ≡ s3) as E3.
  { rewrite cells_set_child, (E2 y), E2 by done. unfold s3, s1.
    by rewrite adopt_ne, upd_ne, Hy, mkc_child_flip by (done || tauto). }
  assert (cell_at c m4 ≡ upd s3 x (mkc d (troot b) (troot a) y xb xe)) as E.
  { unfold m4. rewrite cells_set_parent, (E3 x), E3 by done. unfold s3 at 2. unfold s1.
    by rewrite upd_ne, adopt_ne, upd_eq, mkc_parent by (done || tauto || (apply not_eq_sym; tauto)). }
  rewrite E, !rep_mk, !troot_mk. unfold s3, s1. split_and!.
  - apply repk_upd; [tauto|]. apply repk_upd; [done|]. apply repk_adopt; [done|]. apply repk_upd; [tauto|done].
  - by rewrite upd_ne, upd_eq by tauto.
  - by rewrite upd_eq.
  - do 2 (apply rep_upd; [tauto|]). apply rep_adopt_other; [done|]. apply rep_upd; [tauto|done].
  - do 2 (apply rep_upd; [tauto|]). apply (rep_adopt _ _ y); [apply Hwb|by apply nil_not|].
    apply rep_upd; [tauto|done].
  - do 2 (apply rep_upd; [tauto|]). apply rep_adopt_other; [done|]. apply rep_upd; [tauto|done].
  - transitivity m1; [apply touches_child; [done|by left]|].
    transitivity m2; [apply touches_adopt; [done|done|]|].
    { destruct (troot_elem b) as [->|Hbi]; [by left|right].
      rewrite elem_of_cons, !elem_of_app, elem_of_cons, elem_of_app. tauto. }
    transitivity (set_child (flip d) m2 y x); [apply touches_child; [done|set_solver +]|].
    apply touches_parent; [done|done|by left].
Qed.

Lemma rot_spec m root k d a x xb xe b y yb ye z :
  whole (cell_at c m) root k (mk d a x xb xe (mk d b y yb ye z)) ->
  wfn (nodes (mk d a x xb xe (mk d b y yb ye z)) ++ knodes k) ->
  let '(m', root', r) := rot d m root x in
  r = y /\
  whole (cell_at c m') root' k
    (mk d (mk d a x (if yb =? 0 then sg d else 0) xe b) y (if yb =? 0 then - sg d else 0) ye z) /\
  touches c (nodes (mk d a x xb xe (mk d b y yb ye z)) ++ knodes k) m m'.
Proof.
  intros Hwh Hw. destruct (relink_spec _ _ _ _ _ _ _ _ _ _ _ _ _ Hwh Hw) as (Hk & Ht & Hto).
  assert (nodes (mk d a x xb xe (mk d b y yb ye z)) ≡ₚ nodes (mk d (mk d a x xb xe b) y yb ye z)) as En.
  { unfold nodes. by rewrite (inorder_rot d a x xb xe b y yb ye z xb yb). }
  rewrite En in Hw, Hto. destruct Hwh as [_ Hr].
  apply rep_mk in Hr as (Hx & _ & Hr). apply rep_mk in Hr as (Hy & _ & _). rewrite troot_mk in Hx.
  apply mkc_fields in Hx as (Ex & _ & Ep & _). apply mkc_fields in Hy as (_ & Eb & _).
  unfold rot. rewrite Ex, Ep, Eb.
  assert (x ∈ nodes (mk d (mk d a x xb xe b) y yb ye z)) as Hxin.
  { rewrite !nodes_mk. set_solver +. }
  assert (in_pool c x) as Hxp.
  { destruct Hw as [_ [Hw _]%Forall_app]. by eapply Forall_forall. }
  pose proof Hw as (_ & _ & Hd)%wfn_app. destruct (in_pool_u32 c Hc x Hxp) as [_ Hxn].
  pose proof (replace_child_spec _ root k x x _ Hk Ht Hxn (Hd x Hxin) Hw) as Hrc. rewrite troot_mk in Hrc.
  destruct (replace_child _ _ root _ x y) as [m5 root']. destruct Hrc as [Hwh Hto5].
  pose proof Hwh as [_ Hr]. apply rep_mk in Hr as (Hy & _). rewrite <-(flip_flip d) in Hy.
  apply mkc_fields in Hy as (_ & _ & _ & -> & _). split; [done|]. rewrite En.
  assert (forall v w, -128 <= v < 128 -> -128 <= w < 128 ->
    let m' := set_bal c (set_bal c m5 x v) y w in
    whole (cell_at c m') root' k (mk d (mk d a x v xe b) y w ye z) /\
    touches c (nodes (mk d (mk d a x xb xe b) y yb ye z) ++ knodes k) m m') as Hset.
  { intros v w Hv Hu m'. destruct (set_bal2_spec _ _ _ _ _ _ _ _ _ _ _ _ _ _ _ Hwh Hw Hv Hu) as [H1 H2].
    split; [done|]. etransitivity; [exact Hto|]. by transitivity m5. }
  destruct (yb =? 0); apply Hset; by destruct d.
Qed.

(** ** Double rotation *)

Lemma rot2_spec m root k d a x xb xe p y yb ye q z zb ze r :
  let t := mk d a x xb xe (mk d (mk d p y yb ye q) z zb ze r) in
  whole (cell_at c m) root k t -> wfn (nodes t ++ knodes k) ->
  let '(m', root', n) := rot2 d m root x in
  let zb' := if tilts (flip d) yb then sg d else 0 in
  let xb' := if tilts d yb then - sg d else 0 in
  n = y /\
  whole (cell_at c m') root' k (mk d (mk d a x xb' xe p) y 0 ye (mk d q z zb' ze r)) /\
  touches c (nodes t ++ knodes k) m m'.
Proof.
  intros t Hwh Hw. unfold rot2.
  pose proof Hwh as [_ Hr]. apply rep_mk in Hr as (Hx & _ & Hr). apply rep_mk in Hr as (Hz & Hr & _).
  apply rep_mk in Hr as (Hy & _ & _). rewrite troot_mk in Hx, Hz.
  apply mkc_fields in Hx as (-> & _). apply mkc_fields in Hz as (_ & -> & _).
  apply mkc_fields in Hy as (_ & _ & _ & -> & _).
  assert (nodes t ++ knodes k ≡ₚ
    nodes (mk (flip d) r z zb ze (mk (flip d) q y yb ye p)) ++ knodes (hole d a x xb xe :: k)) as E1.
  { unfold t. rewrite nodes_child. by rewrite !mk_flip. }
  assert (whole (cell_at c m) root (hole d a x xb xe :: k)
    (mk (flip d) r z zb ze (mk (flip d) q y yb ye p))) as Hwh1.
  { rewrite <-whole_child, !mk_flip. exact Hwh. }
  rewrite E1 in Hw. pose proof (rot_spec _ _ _ _ _ _ _ _ _ _ _ _ _ Hwh1 Hw) as H1.
  destruct (rot (flip d) m root z) as [[m1 root1] n1]. destruct H1 as (_ & Hwh2 & Ht1).
  apply whole_child in Hwh2. rewrite !mk_flip in Hwh2.
  rewrite <-E1 in Ht1, Hw. unfold t in Hw.
  match type of Hwh2 with whole _ _ _ ?t2 => assert (nodes t ≡ₚ nodes t2) as E2 end.
  { unfold t. rewrite !nodes_mk. solve_Permutation. }
  unfold t in E2. rewrite E2 in Hw. pose proof (rot_spec _ _ _ _ _ _ _ _ _ _ _ _ _ Hwh2 Hw) as H2.
  destruct (rot d m1 root1 x) as [[m2 root2] n2]. destruct H2 as (-> & Hwh3 & Ht2).
  match type of Hwh3 with whole _ _ _ ?t3 => assert (nodes t ≡ₚ nodes t3) as E3 end.
  { unfold t. rewrite !nodes_mk. solve_Permutation. }
  rewrite <-E2 in Hw, Ht2. unfold t in E3. split; [done|].
  assert (forall v w, -128 <= v < 128 -> -128 <= w < 128 ->
    let m' := set_bal c (set_bal c (set_bal c m2 z v) x w) y 0 in
    whole (cell_at c m') root2 k (mk d (mk d a x w xe p) y 0 ye (mk d q z v ze r)) /\
    touches c (nodes t ++ knodes k) m m') as Hset.
  { intros v w Hv Hu m'. rewrite E3, nodes_child in Hw. apply whole_child in Hwh3.
    destruct (set_bal_spec _ _ _ _ _ _ _ _ _ v Hwh3 Hw Hv) as [H1 T1]. apply whole_child in H1.
    rewrite <-nodes_child, <-E3 in Hw, T1. clear Hwh3.
    match type of H1 with whole _ _ _ ?t4 => assert (nodes t ≡ₚ nodes t4) as E4 end.
    { unfold t. rewrite !nodes_mk. solve_Permutation. }
    unfold t in E4. rewrite E4 in Hw.
    destruct (set_bal2_spec _ _ _ _ _ _ _ _ _ _ _ _ _ w 0 H1 Hw Hu ltac:(lia)) as [H2 T2].
    rewrite <-E4 in T2. split; [done|]. etransitivity; [exact Ht1|]. etransitivity; [exact Ht2|].
    by etransitivity. }
  assert (-128 <= sg d < 128 /\ -128 <= - sg d < 128) as [Hs1 Hs2] by (by destruct d).
  destruct (tilts (flip d) yb) eqn:T1.
  - replace (tilts d yb) with false; [by apply Hset|]. destruct d; cbn in *; symmetry; lia.
  - destruct (Z.eqb_spec yb 0) as [->|Hn].
    + replace (tilts d 0) with false; [by apply Hset|]. by destruct d.
    + replace (tilts d yb) with true; [by apply Hset|]. destruct d; cbn in *; symmetry; lia.
Qed.

End rotations.
