(* ===== verification/AvlRetrace.v ===== *)
(** Rebalancing after an insertion and after a removal ([avl_retrace_insert],
    [avl_retrace_remove]): the climb ends, the order is kept, and the result is
    balanced. *)
From stdpp Require Import sorting sets.
From S2P Require Import Prelude HostMem NodePool AvlTree AvlCore AvlRep AvlRot.
#[local] Open Scope Z_scope.

Section retrace.
Context (c : AvlCore) (Hc : core_ok c).

(** A run that leaves the balanced tree [t'] with the nodes and payloads of [t]. *)
Definition rebalanced (t : tree) (m : mem) (res : option (mem * Z)) : Prop :=
  exists m' root' t',
    res = Some (m', root') /\ whole (cell_at c m') root' [] t' /\ balanced t' /\
    inorder t' = inorder t /\ touches c (nodes t) m m'.

Lemma settle t0 m m' root k t :
  whole (cell_at c m') root k t -> balanced t -> kbalanced k (height t) ->
  inorder (plug k t) = inorder t0 -> touches c (nodes t0) m m' -> rebalanced t0 m (Some (m', root)).
Proof.
  intros Hw Hb Hk Hi Ht. exists m', root, (plug k t). split; [done|]. rewrite <-whole_plug. split; [done|].
  rewrite balanced_plug. done.
Qed.

Lemma rebalanced_step t0 t1 m m1 res :
  inorder t1 = inorder t0 -> touches c (nodes t0) m m1 -> rebalanced t1 m1 res -> rebalanced t0 m res.
Proof.
  intros Hi Ht (m' & root' & t' & Hr & Hw & Hb & Hi' & Ht'). exists m', root', t'.
  rewrite Hi' in *. rewrite <-Hi. split_and!; try done.
  assert (nodes t1 = nodes t0) as En by (unfold nodes; by rewrite Hi). rewrite En in Ht'. by transitivity m1.
Qed.

Lemma plug_inorder k t t' : inorder t = inorder t' -> inorder (plug k t) = inorder (plug k t').
Proof. intros E. by rewrite !inorder_plug, E. Qed.

(** ** The shapes that a rotation repairs *)

(** A node one level too deep towards [d] whose deep child does not lean back. *)
Lemma rot_balanced d a x xe b y yb ye z xb :
  balanced a -> balanced (mk d b y yb ye z) -> height (mk d b y yb ye z) = height a + 2 ->
  tilts (flip d) yb = false ->
  let t' := mk d (mk d a x (if yb =? 0 then sg d else 0) xe b) y (if yb =? 0 then - sg d else 0) ye z in
  balanced t' /\ height t' = height a + (if yb =? 0 then 3 else 2) /\
  inorder t' = inorder (mk d a x xb xe (mk d b y yb ye z)).
Proof.
  rewrite balanced_mk, height_mk. intros Ha (Eyb & Hr & Hb & Hz) Hh Ht.
  assert (yb = 0 \/ yb = sg d) as Hy by (destruct d; cbn in *; lia).
  split_and!; [| |symmetry; apply inorder_rot].
  - rewrite !balanced_mk, height_mk. destruct (Z.eqb_spec yb 0), d; cbn [sg] in *; split_and!; try done; lia.
  - rewrite !height_mk. destruct (Z.eqb_spec yb 0), d; cbn [sg] in *; lia.
Qed.

(** ... and whose deep child leans back. *)
Lemma rot2_balanced d a x xb xe p y yb ye q z zb ze r :
  balanced a -> balanced (mk d (mk d p y yb ye q) z zb ze r) ->
  height (mk d (mk d p y yb ye q) z zb ze r) = height a + 2 -> tilts (flip d) zb = true ->
  let zb' := if tilts (flip d) yb then sg d else 0 in
  let xb' := if tilts d yb then - sg d else 0 in
  let t' := mk d (mk d a x xb' xe p) y 0 ye (mk d q z zb' ze r) in
  balanced t' /\ height t' = height a + 2 /\
  inorder t' = inorder (mk d a x xb xe (mk d (mk d p y yb ye q) z zb ze r)).
Proof.
  rewrite !balanced_mk, !height_mk. intros Ha (Ezb & Hzr & (Eyb & Hyr & Hp & Hq) & Hr) Hh Ht zb' xb' t'.
  assert (zb = - sg d) as Hz by (destruct d; cbn in *; lia).
  assert (height p <= height a <= height p + 1 /\ height q <= height a <= height q + 1 /\
    (height p = height a \/ height q = height a) /\ height r = height a) as (H1 & H2 & H3 & H4)
    by (destruct d; cbn [sg] in *; lia).
  assert (zb' = sg d * (height r - height q) /\ xb' = sg d * (height p - height a)) as [E1 E2].
  { unfold zb', xb'. destruct d; cbn [sg tilts flip] in *;
      destruct (Z.ltb_spec 0 yb), (Z.ltb_spec yb 0); lia. }
  split_and!.
  - unfold t'. rewrite !balanced_mk, !height_mk. split_and!; try done; try (destruct d; cbn [sg] in *; lia).
  - unfold t'. rewrite !height_mk. lia.
  - unfold t'. destruct d; cbn; by rewrite <-!app_assoc; cbn; rewrite <-?app_assoc.
Qed.

(** ** Rebalancing one node *)

(** Both rotations at a node whose side [d] is two levels deeper, as the code picks
    them: by the balance of the deep child. *)
Lemma rotate_spec d m root k a x xb xe s :
  whole (cell_at c m) root k (mk d a x xb xe s) -> wfn c (nodes (mk d a x xb xe s) ++ knodes k) ->
  balanced a -> balanced s -> height s = height a + 2 ->
  let sb := n_bal c m (troot s) in
  let '(m', root', _) := if tilts (flip d) sb then rot2 c d m root x else rot c d m root x in
  exists t', whole (cell_at c m') root' k t' /\ balanced t' /\
    height t' = height a + (if sb =? 0 then 3 else 2) /\
    inorder t' = inorder (mk d a x xb xe s) /\
    touches c (nodes (mk d a x xb xe s) ++ knodes k) m m'.
Proof.
  intros Hwh Hw Ha Hs Hh. destruct (tree_mk d s) as [->|(b & y & yb & ye & z & ->)].
  { cbn in Hh. pose proof (height_nonneg a). lia. }
  pose proof Hwh as [_ Hr]. apply rep_mk in Hr as (_ & _ & Hr). apply rep_mk in Hr as (Hy & _).
  rewrite troot_mk. apply mkc_fields in Hy as (_ & _ & _ & -> & _). cbv zeta.
  destruct (tilts (flip d) yb) eqn:Ht.
  - assert ((yb =? 0) = false) as -> by (apply Z.eqb_neq; intros ->; by destruct d).
    destruct (tree_mk d b) as [->|(p & w & wb & we & q & ->)].
    { exfalso. apply balanced_mk in Hs as (Eyb & _). cbn [height] in Eyb. pose proof (height_nonneg z).
      destruct d; cbn in *; lia. }
    pose proof (rot2_spec c Hc _ _ _ _ _ _ _ _ _ _ _ _ _ _ _ _ _ Hwh Hw) as H.
    destruct (rot2 c d m root x) as [[m' root'] n]. destruct H as (_ & Hwh' & Hto).
    destruct (rot2_balanced d a x xb xe _ _ _ _ _ _ _ _ _ Ha Hs Hh Ht) as (H1 & H2 & H3). eauto 10.
  - pose proof (rot_spec c Hc _ _ _ _ _ _ _ _ _ _ _ _ _ Hwh Hw) as H.
    destruct (rot c d m root x) as [[m' root'] n]. destruct H as (_ & Hwh' & Hto).
    destruct (rot_balanced d a x xe _ _ _ _ _ xb Ha Hs Hh Ht) as (H1 & H2 & H3). eauto 10.
Qed.

(** ** Insertion *)

(** One turn of the climb after an insertion on side [d] of [p]. *)
Definition insert_turn (d : dir) (fuel : nat) (m : mem) (root child p : Z) : option (mem * Z) :=
  if tilts d (n_bal c m p) then
    Some (if tilts (flip d) (n_bal c m child) then (rot2 c d m root p).1 else (rot c d m root p).1)
  else if tilts (flip d) (n_bal c m p) then Some (set_bal c m p 0, root)
  else let m := set_bal c m p (sg d) in retrace_insert_loop fuel c m root p (n_parent c m p).

Lemma retrace_insert_turn fuel m root child p : p <> AVL_CORE_NIL ->
  retrace_insert_loop (S fuel) c m root child p =
  insert_turn (if child =? n_right c m p then DRight else DLeft) fuel m root child p.
Proof. intros Hp. cbn. rewrite (proj2 (Z.eqb_neq _ _) Hp). by case_match. Qed.

(** Which child of [p] the hole is. *)
Lemma hole_side m root k d a i b e t :
  whole (cell_at c m) root (hole d a i b e :: k) t -> t <> Leaf ->
  wfn c (nodes t ++ knodes (hole d a i b e :: k)) ->
  (troot t =? n_right c m i) = match d with DLeft => false | DRight => true end /\
  (n_left c m i =? troot t) = match d with DLeft => true | DRight => false end.
Proof.
  intros [Hk _] Hne (Ht & _ & Hd)%wfn_app. apply repk_hole in Hk as (Hi & _).
  apply mkc_fields in Hi as (H1 & H2 & _).
  destruct (troot_elem t) as [|Hin]; [done|]. pose proof (Hd _ Hin) as Hn.
  assert (troot t <> troot a).
  { destruct (troot_elem a) as [->|Ha].
    - intros E. cbn in E. rewrite E in Hin. by eapply nil_not in Hin.
    - intros E. apply Hn. rewrite knodes_hole, E, elem_of_cons, elem_of_app. tauto. }
  destruct d; cbn in H1, H2; rewrite H1, H2; split; (apply Z.eqb_refl || by apply Z.eqb_neq).
Qed.

Lemma hole_parent m root k d a i b e t :
  whole (cell_at c m) root (hole d a i b e :: k) t -> n_parent c m i = kparent k /\ n_bal c m i = b.
Proof. intros [Hk _]. apply repk_hole in Hk as (Hi & _). apply mkc_fields in Hi. tauto. Qed.

Lemma wfn_hole k d a i b e t :
  wfn c (nodes t ++ knodes (hole d a i b e :: k)) -> i <> AVL_CORE_NIL.
Proof.
  rewrite knodes_hole. intros (_ & (Hi & _)%wfn_cons & _)%wfn_app. by eapply in_pool_u32.
Qed.

Lemma retrace_insert_spec k : forall t m root fuel,
  whole (cell_at c m) root k t -> wfn c (nodes t ++ knodes k) -> (length k <= fuel)%nat ->
  t <> Leaf -> balanced t -> (n_bal c m (troot t) <> 0 \/ height t = 1) -> kbalanced k (height t - 1) ->
  rebalanced (plug k t) m (retrace_insert_loop fuel c m root (troot t) (kparent k)).
Proof.
  induction k as [|f k IH]; intros t m root fuel Hwh Hw Hf Hne Hb Htop Hk.
  { cbn [kparent]. destruct fuel; cbn; by apply (settle t _ _ _ [] t). }
  destruct (frame_hole f) as (d & a & i & b & e & ->). destruct fuel as [|fuel]; [cbn in Hf; lia|].
  rewrite kparent_hole, retrace_insert_turn by (by eapply wfn_hole).
  destruct (hole_side _ _ _ _ _ _ _ _ _ Hwh Hne Hw) as [-> _].
  replace (if match d with DLeft => false | DRight => true end then DRight else DLeft) with d by (by destruct d).
  destruct (hole_parent _ _ _ _ _ _ _ _ _ Hwh) as [Hp Hbal].
  apply kbalanced_hole in Hk as (Eb & Hbr & Ha & Hk). rewrite <-nodes_child in Hw.
  apply whole_child in Hwh. cbn [plug]. rewrite fill_hole.
  assert (nodes (plug k (mk d a i b e t)) ≡ₚ nodes (mk d a i b e t) ++ knodes k) as En by apply nodes_plug.
  unfold insert_turn. rewrite Hbal. destruct (tilts d b) eqn:T1.
  - assert (height t = height a + 2 /\ n_bal c m (troot t) <> 0) as [Hh Hn].
    { pose proof (height_nonneg a). destruct d; cbn in *; lia. }
    pose proof (rotate_spec d _ _ _ _ _ _ _ _ Hwh Hw Ha Hb Hh) as Hrot. cbv zeta in Hrot.
    rewrite (proj2 (Z.eqb_neq _ _) Hn) in Hrot.
    assert (kbalanced k (height a + 2)) as Hk'.
    { replace (height a + 2) with (1 + Z.max (height a) (height t - 1)) by lia. done. }
    destruct (tilts (flip d) (n_bal c m (troot t)));
      [destruct (rot2 c d m root i) as [[m' root'] n]|destruct (rot c d m root i) as [[m' root'] n]];
      destruct Hrot as (t' & Hwh' & Hb' & Hh' & Hi' & Ht'); rewrite <-En in Ht';
      eapply settle; eauto using plug_inorder; congruence.
  - assert (forall v, -128 <= v < 128 -> whole (cell_at c (set_bal c m i v)) root k (mk d a i v e t) /\
      touches c (nodes (plug k (mk d a i b e t))) m (set_bal c m i v)) as Hset.
    { intros v Hv. rewrite En. by apply set_bal_spec. }
    assert (forall v, inorder (plug k (mk d a i v e t)) = inorder (plug k (mk d a i b e t))) as Hin.
    { intros v. by apply plug_inorder, inorder_mk. }
    destruct (tilts (flip d) b) eqn:T2.
    + destruct (Hset 0 ltac:(lia)) as [H1 H2]. eapply (settle _ _ _ _ k (mk d a i 0 e t)); eauto.
      * apply balanced_mk. destruct d; cbn in *; split_and!; try done; lia.
      * rewrite height_mk. replace (Z.max (height a) (height t)) with (Z.max (height a) (height t - 1)); [done|].
        destruct d; cbn in *; lia.
    + destruct (Hset (sg d) ltac:(by destruct d)) as [H1 H2].
      assert (b = 0 /\ height t = height a + 1) as [-> Hh] by (destruct d; cbn in *; lia).
      eapply (rebalanced_step _ (plug k (mk d a i (sg d) e t))); [apply Hin|done|].
      destruct (hole_parent _ _ _ _ _ _ _ _ _ (proj1 (whole_child _ _ _ _ _ _ _ _ _) H1)) as [-> Hbal'].
      pose proof (IH (mk d a i (sg d) e t) (set_bal c m i (sg d)) root fuel) as HI.
      rewrite troot_mk in HI. apply HI; [done| |cbn in Hf; lia|..].
      * rewrite nodes_mk in Hw |- *. done.
      * by destruct d.
      * apply balanced_mk. destruct d; cbn in *; split_and!; try done; lia.
      * left. rewrite Hbal'. by destruct d.
      * rewrite height_mk. replace (1 + _ - 1) with (1 + Z.max (height a) (height t - 1)) by lia. done.
Qed.

(** ** Removal *)

(** One turn of the climb after the side away from [d] of [p] has lost a level. *)
Definition remove_turn (d : dir) (fuel : nat) (m : mem) (root p next_parent : Z) (lost_left : bool)
    : option (mem * Z) :=
  if tilts d (n_bal c m p) then
    let sb := n_bal c m (n_child c d m p) in
    let '(m, root, _) := if tilts (flip d) sb then rot2 c d m root p else rot c d m root p in
    if sb =? 0 then Some (m, root) else avl_retrace_remove fuel c m root next_parent lost_left
  else if n_bal c m p =? 0 then Some (set_bal c m p (sg d), root)
  else avl_retrace_remove fuel c (set_bal c m p 0) root next_parent lost_left.

Definition is_left (k : ctx) : bool := match k with InLeft _ _ _ _ :: _ => true | _ => false end.

Lemma retrace_remove_turn fuel m root p lost_left : p <> AVL_CORE_NIL ->
  avl_retrace_remove (S fuel) c m root p lost_left =
  remove_turn (if lost_left then DRight else DLeft) fuel m root p (n_parent c m p)
    (if negb (n_parent c m p =? AVL_CORE_NIL) then n_left c m (n_parent c m p) =? p else lost_left).
Proof. intros Hp. cbn. rewrite (proj2 (Z.eqb_neq _ _) Hp). by case_match. Qed.

Lemma retrace_remove_spec k : forall t m root fuel lost_left,
  whole (cell_at c m) root k t -> wfn c (nodes t ++ knodes k) -> (length k <= fuel)%nat ->
  balanced t -> kbalanced k (height t + 1) -> k = [] \/ lost_left = is_left k ->
  rebalanced (plug k t) m (avl_retrace_remove fuel c m root (kparent k) lost_left).
Proof.
  induction k as [|f k IH]; intros t m root fuel lost_left Hwh Hw Hf Hb Hk Hl.
  { cbn [kparent]. destruct fuel; cbn; by apply (settle t _ _ _ [] t). }
  destruct (frame_hole f) as (d & a & i & b & e & ->). destruct Hl as [|Hl]; [done|]. subst lost_left.
  destruct fuel as [|fuel]; [cbn in Hf; lia|].
  rewrite kparent_hole, retrace_remove_turn by (by eapply wfn_hole).
  replace (if is_left (hole d a i b e :: k) then DRight else DLeft) with (flip d) by (by destruct d).
  destruct (hole_parent _ _ _ _ _ _ _ _ _ Hwh) as [Hp Hbal].
  apply kbalanced_hole in Hk as (Eb & Hbr & Ha & Hk). rewrite <-nodes_child in Hw.
  apply whole_child in Hwh. cbn [plug]. rewrite fill_hole.
  set (ll := if negb (n_parent c m i =? AVL_CORE_NIL) then _ else _).
  assert (k = [] \/ ll = is_left k) as Hll.
  { destruct k as [|f k']; [by left|right]. destruct (frame_hole f) as (d' & a' & i' & b' & e' & ->).
    unfold ll. rewrite Hp, kparent_hole.
    pose proof Hw as (_ & Hw' & _)%wfn_app. rewrite (proj2 (Z.eqb_neq _ _)).
    - cbn [negb]. pose proof (hole_side m root k' d' a' i' b' e' (mk d a i b e t) Hwh) as Hs.
      rewrite troot_mk in Hs. rewrite (proj2 (Hs ltac:(by destruct d) Hw)). by destruct d'.
    - apply (wfn_hole k' d' a' i' b' e' Leaf). apply wfn_app. split_and!; [by repeat constructor|done|].
      intros j Hj. by apply not_elem_of_nil in Hj. }
  rewrite Hp. clearbody ll. rewrite <-(mk_flip d) in *.
  assert (nodes (plug k (mk (flip d) t i b e a)) ≡ₚ nodes (mk (flip d) t i b e a) ++ knodes k) as En
    by apply nodes_plug.
  unfold remove_turn. rewrite Hbal.
  assert (b = sg (flip d) * (height a - (height t + 1))) as Eb' by (destruct d; cbn in *; lia).
  clear Eb. assert (length k <= fuel)%nat as Hf' by (cbn in Hf; lia). clear Hf.
  revert Eb' Hwh Hw En Hbal Hp. generalize (flip d). clear d. intros d Eb Hwh Hw En Hbal Hp.
  destruct (tilts d b) eqn:T1.
  - assert (height a = height t + 2) as Hh by (destruct d; cbn in *; lia).
    pose proof (rotate_spec d _ _ _ _ _ _ _ _ Hwh Hw Hb Ha Hh) as Hrot. cbv zeta in Hrot |- *.
    pose proof Hwh as [_ Hr]. apply rep_mk in Hr as (Hi & _). apply mkc_fields in Hi as (-> & _).
    set (sb := n_bal c m (troot a)) in *.
    destruct (if tilts (flip d) sb then _ else _) as [[m' root'] n].
    destruct Hrot as (t' & Hwh' & Hb' & Hh' & Hi' & Ht'). rewrite <-En in Ht'.
    destruct (sb =? 0).
    + eapply settle; eauto using plug_inorder. rewrite Hh'.
      by replace (height t + 3) with (1 + Z.max (height a) (height t + 1)) by lia.
    + eapply (rebalanced_step _ (plug k t')); [by apply plug_inorder|done|].
      apply IH; [done| |done|done| |done].
      * unfold nodes in Hw |- *. by rewrite Hi'.
      * rewrite Hh'. by replace (height t + 2 + 1) with (1 + Z.max (height a) (height t + 1)) by lia.
  - assert (forall v, -128 <= v < 128 -> whole (cell_at c (set_bal c m i v)) root k (mk d t i v e a) /\
      touches c (nodes (plug k (mk d t i b e a))) m (set_bal c m i v)) as Hset.
    { intros v Hv. rewrite En. by apply set_bal_spec. }
    assert (forall v, inorder (plug k (mk d t i v e a)) = inorder (plug k (mk d t i b e a))) as Hin.
    { intros v. by apply plug_inorder, inorder_mk. }
    destruct (Z.eqb_spec b 0) as [->|Hn].
    + destruct (Hset (sg d) ltac:(by destruct d)) as [H1 H2].
      eapply (settle _ _ _ _ k (mk d t i (sg d) e a)); eauto.
      * apply balanced_mk. destruct d; cbn in *; split_and!; try done; lia.
      * rewrite height_mk. replace (Z.max (height t) (height a)) with (Z.max (height a) (height t + 1)); [done|].
        destruct d; cbn in *; lia.
    + destruct (Hset 0 ltac:(lia)) as [H1 H2].
      eapply (rebalanced_step _ (plug k (mk d t i 0 e a))); [apply Hin|done|].
      apply IH; [done| |done|..|done].
      * rewrite nodes_mk in Hw |- *. done.
      * apply balanced_mk. destruct d; cbn in *; split_and!; try done; lia.
      * rewrite height_mk.
        replace (1 + Z.max (height t) (height a) + 1) with (1 + Z.max (height a) (height t + 1)); [done|].
        destruct d; cbn in *; lia.
Qed.

End retrace.
