(* ===== verification/AvlOps.v ===== *)
(** The operations of [avl_core.c] on a pool that holds a search tree and a free
    list: lookup, smallest and greatest node, insertion and removal, and the
    in-order walk, each with the fuel its loops need. *)
From stdpp Require Import sorting sets.
From S2P Require Import Prelude HostMem NodePool Deque AvlTree AvlCore AvlRep AvlRot AvlRetrace.
#[local] Open Scope Z_scope.

Section ops.
Context (c : AvlCore) (Hc : core_ok c).

(** The bytes of the object at an address. *)
Definition object (m : mem) (a : Z) : list Z := mem_read m a (ac_element_size c).

(** The pool's nodes are those of the tree and the free ones. *)
Lemma nodes_fit t : wfn c (nodes t) -> Z.of_nat (length (nodes t)) <= ac_capacity c.
Proof.
  intros [Hn Hf]. pose proof (core_pool_ok c Hc) as [_ Hcap _ _]. cbn in Hcap.
  assert (nodes t ⊆+ map Z.of_nat (seq 0 (Z.to_nat (ac_capacity c)))) as Hs.
  { apply NoDup_submseteq; [done|]. intros i Hi. eapply Forall_forall in Hf; [|exact Hi].
    unfold in_pool in Hf. apply list_elem_of_fmap. exists (Z.to_nat i). rewrite elem_of_seq. lia. }
  apply submseteq_length in Hs. rewrite length_map, length_seq in Hs. lia.
Qed.

Lemma fuel_enough t : wfn c (nodes t) -> height t < Z.of_nat (avl_fuel c).
Proof. intros Hw%nodes_fit. pose proof (height_size t). unfold avl_fuel. lia. Qed.

Lemma kfuel_enough k t : wfn c (nodes t ++ knodes k) -> (length k <= avl_fuel c)%nat.
Proof.
  rewrite <-nodes_plug. intros Hw%nodes_fit. pose proof (knodes_length k).
  rewrite nodes_plug, length_app in Hw. unfold avl_fuel. lia.
Qed.

(** Memory that agrees inside the pool holds the same cells. *)
Lemma cells_agree m m' i : in_pool c i ->
  mem_agree (rng (ac_pool c) (ac_capacity c * ac_stride c)) m m' -> cell_at c m' i = cell_at c m i.
Proof.
  intros Hi Ha. pose proof (esz_stride c Hc) as [He Hs].
  pose proof (slot_inside (ac_pool c) (ac_stride c) (ac_capacity c) i ltac:(lia) Hi) as [Hlo Hhi].
  unfold slot in *. fold (node_at c i) in Hlo, Hhi.
  assert (forall o n, 0 <= o -> o + n <= ac_stride c -> mem_agree (rng (node_at c i + o) n) m m') as Hsub.
  { intros o n Ho Hn. eapply mem_agree_mono; [|exact Ha]. unfold rng. lia. }
  unfold cell_at, n_left, n_right, n_parent, n_bal, avl_core_payload, AVL_CORE_NODE_OVERHEAD. f_equal.
  - rewrite <-(Z.add_0_r (node_at c i)). symmetry. apply load32_agree, Hsub; lia.
  - symmetry. apply load32_agree, Hsub; lia.
  - symmetry. apply load32_agree, Hsub; lia.
  - f_equal. symmetry. apply (Hsub 12 1); unfold rng; lia.
  - symmetry. apply mem_read_agree, Hsub; lia.
Qed.

Lemma whole_agree m m' root k t : wfn c (nodes t ++ knodes k) ->
  mem_agree (rng (ac_pool c) (ac_capacity c * ac_stride c)) m m' ->
  whole (cell_at c m) root k t -> whole (cell_at c m') root k t.
Proof.
  intros [_ [Hft Hfk]%Forall_app] Ha [Hk Hr]. rewrite Forall_forall in Hft, Hfk. split.
  - apply (repk_ext (cell_at c m)); [|done]. intros i Hi. apply cells_agree; auto.
  - apply (rep_ext (cell_at c m)); [|done]. intros i Hi. apply cells_agree; auto.
Qed.

(** ** Lookup *)

Lemma find_loop_spec t : forall p fuel m key k,
  rep (cell_at c m) p t -> Forall (in_pool c) (nodes t) -> height t <= Z.of_nat fuel ->
  find_loop fuel c m (troot t) key = Some (troot (descend (ac_cmp c) (object m key) t k).2).
Proof.
  induction t as [|l IHl i b e r IHr]; intros p fuel m key k Hr Hf Hh; [by destruct fuel|].
  cbn [height] in Hh. pose proof (height_nonneg l). pose proof (height_nonneg r).
  destruct fuel as [|fuel]; [lia|]. destruct Hr as (Hi & Hl & Hr).
  apply cell_fields in Hi as (H1 & H2 & _ & _ & H5).
  rewrite nodes_Node in Hf. apply Forall_cons in Hf as [Hi Hf]. apply Forall_app in Hf as [Hfl Hfr].
  destruct (in_pool_u32 c Hc i Hi) as [_ Hn]. cbn [find_loop troot descend].
  rewrite (proj2 (Z.eqb_neq _ _) Hn). unfold compare_at. rewrite H5, H1, H2. fold (object m key).
  destruct (_ =? 0); [done|]. destruct (_ <? 0); [eapply IHl|eapply IHr]; eauto; lia.
Qed.

Lemma find_spec m root key t :
  whole (cell_at c m) root [] t -> wfn c (nodes t) ->
  avl_core_find c m root key = Some (troot (descend (ac_cmp c) (object m key) t []).2).
Proof.
  intros [Hk Hr] Hw. cbn in Hk. subst root. eapply find_loop_spec; [exact Hr|apply Hw|].
  pose proof (fuel_enough t Hw). lia.
Qed.

(** What lookup finds, as an index and as a payload. *)
Lemma find_elem `{!CmpLaws (ac_cmp c)} m root key t :
  whole (cell_at c m) root [] t -> wfn c (nodes t) -> ascending (ac_cmp c) (elems t) ->
  exists n, avl_core_find c m root key = Some n /\
    match ol_find (ac_cmp c) (object m key) (elems t) with
    | None => n = AVL_CORE_NIL
    | Some x => n <> AVL_CORE_NIL /\ object m (avl_core_payload c n) = x
    end.
Proof.
  intros Hwh Hw Hasc. rewrite (find_spec m root key t Hwh Hw). eexists. split; [done|].
  set (kb := object m key).
  pose proof (descend_plug (ac_cmp c) kb t []) as Hpl.
  pose proof (descend_splits (ac_cmp c) kb t [] Hasc ltac:(by split)) as Hsp.
  destruct (descend (ac_cmp c) kb t []) as [k t1]. cbn [plug snd] in Hpl |- *. destruct Hsp as [Hsp Ht1].
  rewrite <-Hpl, elems_plug. destruct t1 as [|tl z b e tr].
  - by rewrite ol_find_split.
  - destruct Ht1 as [Hcmp Hs]. rewrite elems_Node, <-app_assoc, app_assoc. cbn [app].
    rewrite (ol_find_at _ kb _ e) by (done || by apply splits_app). subst t.
    apply whole_plug in Hwh. destruct Hwh as [_ (Hz & _)]. apply cell_fields in Hz as (_ & _ & _ & _ & Hz).
    split; [|done]. rewrite nodes_plug, nodes_Node in Hw. apply wfn_cons in Hw as (Hzp & _).
    by eapply in_pool_u32.
Qed.

(** ** The ends of a subtree *)

Fixpoint edge_loop (d : dir) (fuel : nat) (m : mem) (n : Z) : option Z :=
  match fuel with
  | O => None
  | S fuel => if n_child c d m n =? AVL_CORE_NIL then Some n else edge_loop d fuel m (n_child c d m n)
  end.

Lemma min_loop_edge fuel m : forall n, min_loop fuel c m n = edge_loop DLeft fuel m n.
Proof. induction fuel as [|fuel IH]; intros n; cbn; [done|]. by rewrite IH. Qed.
Lemma max_loop_edge fuel m : forall n, max_loop fuel c m n = edge_loop DRight fuel m n.
Proof. induction fuel as [|fuel IH]; intros n; cbn; [done|]. by rewrite IH. Qed.

(** The path to the outermost node on side [d]. *)
Lemma edge_loop_spec d t : forall p fuel m,
  rep (cell_at c m) p t -> Forall (in_pool c) (nodes t) -> height t <= Z.of_nat fuel -> t <> Leaf ->
  exists k s sb se u,
    t = plug k (mk d u s sb se Leaf) /\ edge_loop d fuel m (troot t) = Some s /\
    match d with DLeft => before k = [] | DRight => after k = [] end.
Proof.
  induction t as [|l IHl i b e r IHr]; intros p fuel m Hr Hf Hh Hne; [done|].
  cbn [height] in Hh. pose proof (height_nonneg l). pose proof (height_nonneg r).
  destruct fuel as [|fuel]; [lia|]. destruct Hr as (Hi & Hl & Hr).
  apply cell_fields in Hi as (H1 & H2 & _). rewrite nodes_Node in Hf.
  apply Forall_cons in Hf as [Hi Hf]. apply Forall_app in Hf as [Hfl Hfr].
  cbn [edge_loop troot]. destruct d; cbn [n_child mk]; [rewrite H1|rewrite H2]; rewrite (troot_nil c Hc) by done.
  - destruct l as [|l1 j bj ej l2]; [by exists [], i, b, e, r|].
    destruct (IHl i fuel m Hl Hfl ltac:(lia) ltac:(done)) as (k & s & sb & se & u & E & Hs & Hb).
    exists (k ++ [InLeft i b e r]), s, sb, se, u. rewrite plug_app. cbn [mk plug fill] in E |- *. rewrite <-E.
    by rewrite before_app, Hb.
  - destruct r as [|r1 j bj ej r2]; [by exists [], i, b, e, l|].
    destruct (IHr i fuel m Hr Hfr ltac:(lia) ltac:(done)) as (k & s & sb & se & u & E & Hs & Hb).
    exists (k ++ [InRight l i b e]), s, sb, se, u. rewrite plug_app. cbn [mk plug fill] in E |- *. rewrite <-E.
    by rewrite after_app, Hb.
Qed.

Lemma min_spec m p t : rep (cell_at c m) p t -> wfn c (nodes t) ->
  subtree_min c m (troot t) = Some (hd AVL_CORE_NIL (nodes t)).
Proof.
  intros Hr Hw. unfold subtree_min. rewrite (troot_nil c Hc) by apply Hw.
  destruct t as [|l i b e r]; [done|]. pose proof (fuel_enough _ Hw).
  destruct (edge_loop_spec DLeft _ _ (avl_fuel c) _ Hr (proj2 Hw) ltac:(lia) ltac:(done))
    as (k & s & sb & se & u & E & Hs & Hb).
  rewrite min_loop_edge, Hs, E. unfold nodes. rewrite inorder_plug, Hb. done.
Qed.

Lemma max_spec m p t : rep (cell_at c m) p t -> wfn c (nodes t) ->
  subtree_max c m (troot t) = Some (List.last (nodes t) AVL_CORE_NIL).
Proof.
  intros Hr Hw. unfold subtree_max. rewrite (troot_nil c Hc) by apply Hw.
  destruct t as [|l i b e r]; [done|]. pose proof (fuel_enough _ Hw).
  destruct (edge_loop_spec DRight _ _ (avl_fuel c) _ Hr (proj2 Hw) ltac:(lia) ltac:(done))
    as (k & s & sb & se & u & E & Hs & Hb).
  rewrite max_loop_edge, Hs, E. unfold nodes. rewrite inorder_plug, Hb. cbn. rewrite !fmap_app. cbn.
  by rewrite app_nil_r, app_assoc, List.last_last.
Qed.

(** ** Insertion *)

Lemma same_nodes t t' : inorder t = inorder t' -> nodes t = nodes t'.
Proof. unfold nodes. by intros ->. Qed.

Lemma same_elems t t' : inorder t = inorder t' -> elems t = elems t'.
Proof. unfold elems. by intros ->. Qed.

(** A run that leaves some tree with the nodes and payloads of [t], balanced if the
    discipline asks for it. *)
Definition relinked (balance : bool) (t : tree) (m : mem) (res : option (mem * Z)) : Prop :=
  exists m' root' t',
    res = Some (m', root') /\ whole (cell_at c m') root' [] t' /\
    (balance = true -> balanced t') /\ inorder t' = inorder t /\ touches c (nodes t) m m'.

Lemma insert_descent_spec t : forall k p fuel m elem cmp,
  rep (cell_at c m) p t -> Forall (in_pool c) (nodes t) -> height t <= Z.of_nat fuel ->
  k = [] \/ (cmp <? 0) = is_left k ->
  let '(k', t') := descend (ac_cmp c) (object m elem) t k in
  exists cmp', insert_descent fuel c m elem (kparent k) (troot t) cmp =
    Some (match t' with Leaf => Some (kparent k', cmp') | _ => None end) /\
    (k' = [] \/ (cmp' <? 0) = is_left k').
Proof.
  induction t as [|l IHl i b e r IHr]; intros k p fuel m elem cmp Hr Hf Hh Hk.
  { exists cmp. by destruct fuel. }
  cbn [height] in Hh. pose proof (height_nonneg l). pose proof (height_nonneg r).
  destruct fuel as [|fuel]; [lia|]. destruct Hr as (Hi & Hl & Hr).
  apply cell_fields in Hi as (H1 & H2 & _ & _ & H5).
  rewrite nodes_Node in Hf. apply Forall_cons in Hf as [Hi Hf]. apply Forall_app in Hf as [Hfl Hfr].
  destruct (in_pool_u32 c Hc i Hi) as [_ Hn]. cbn [insert_descent troot descend].
  rewrite (proj2 (Z.eqb_neq _ _) Hn). unfold compare_at. rewrite H5, H1, H2. fold (object m elem).
  set (r0 := ac_cmp c (object m elem) e).
  destruct (r0 =? 0); [by exists cmp|]. destruct (r0 <? 0) eqn:E.
  - apply (IHl (InLeft i b e r :: k) i); [done|done|lia|by right].
  - apply (IHr (InRight l i b e :: k) i); [done|done|lia|by right].
Qed.

(** Writing the new node's index into the link that the descent found empty. *)
Lemma attach_spec m root k n x cmp :
  repk (cell_at c m) root k AVL_CORE_NIL -> wfn c (n :: knodes k) ->
  cell_at c m n = mkCell AVL_CORE_NIL AVL_CORE_NIL (kparent k) 0 x -> k = [] \/ (cmp <? 0) = is_left k ->
  let '(m', root') :=
    if kparent k =? AVL_CORE_NIL then (m, n)
    else if cmp <? 0 then (set_left c m (kparent k) n, root) else (set_right c m (kparent k) n, root) in
  whole (cell_at c m') root' k (Node Leaf n 0 x Leaf) /\ touches c (n :: knodes k) m m'.
Proof.
  intros Hk Hw Hn Hc'. pose proof Hw as [_ Hall]. apply wfn_cons in Hw as (Hnp & Hnn & Hw).
  rewrite (kparent_nil c Hc) by apply Hw. destruct k as [|f k]; [done|]. destruct Hc' as [|Hs]; [done|]. rewrite Hs. clear Hs.
  destruct (frame_hole f) as (d & a & i & b & e & ->). rewrite kparent_hole in *.
  assert (whole (cell_at c (set_child c d m i n)) root (hole d a i b e :: k) (Node Leaf n 0 x Leaf) /\
    touches c (n :: knodes (hole d a i b e :: k)) m (set_child c d m i n)) as Hg; [|by destruct d].
  rewrite knodes_hole in *. apply wfn_cons in Hw as (Hip & Hni & Hw). rewrite not_elem_of_app in Hni.
  apply not_elem_of_cons in Hnn as [Hne _]. apply repk_hole in Hk as (Hi & Ha & Hk). split.
  - rewrite cells_set_child by (done || by eapply in_pool_u32). unfold whole.
    rewrite repk_hole, kparent_hole. split; [split_and!|].
    + rewrite upd_eq, Hi. apply mkc_child.
    + apply rep_upd; [tauto|done].
    + apply repk_upd; [tauto|done].
    + cbn. by rewrite upd_ne.
  - apply touches_child; [done|done|]. right. by left.
Qed.

(** The fields of the new node. *)
Definition new_node (m : mem) (n elem parent : Z) : mem :=
  let m := memcpy m (avl_core_payload c n) elem (ac_element_size c) in
  let m := set_left c m n AVL_CORE_NIL in
  let m := set_right c m n AVL_CORE_NIL in
  let m := set_parent c m n parent in
  set_bal c m n 0.

Lemma new_node_spec m n elem parent : in_pool c n -> is_u32 parent ->
  let m' := new_node m n elem parent in
  cell_at c m' n = mkCell AVL_CORE_NIL AVL_CORE_NIL parent 0 (object m elem) /\ touches c [n] m m'.
Proof.
  intros Hn Hp m'. unfold m', new_node.
  set (m1 := memcpy m (avl_core_payload c n) elem (ac_element_size c)). split.
  - set (m2 := set_left c m1 n AVL_CORE_NIL). set (m3 := set_right c m2 n AVL_CORE_NIL).
    set (m4 := set_parent c m3 n parent).
    rewrite (cells_set_bal c Hc m4 n 0 ltac:(done) n), upd_eq.
    unfold m4. rewrite (cells_set_parent c Hc m3 n parent Hp n), upd_eq.
    unfold m3. rewrite (cells_set_right c Hc m2 n _ nil_u32 n), upd_eq.
    unfold m2. rewrite (cells_set_left c Hc m1 n _ nil_u32 n), upd_eq.
    unfold m1. by rewrite (cells_set_pay c Hc m n elem n), upd_eq.
  - assert (Forall (in_pool c) [n]) as Hf by (constructor; [done|constructor]).
    assert (n ∈ [n]) as Hin by apply list_elem_of_here.
    etransitivity; [apply (touches_pay c Hc [n] Hf m n Hin elem)|].
    etransitivity; [by apply touches_left|]. etransitivity; [by apply touches_right|].
    etransitivity; [by apply touches_parent|]. by apply touches_bal.
Qed.

Lemma insert_relink balance m root k n x :
  let t := Node Leaf n 0 x Leaf in
  whole (cell_at c m) root k t -> wfn c (n :: knodes k) -> (balance = true -> balanced (plug k Leaf)) ->
  relinked balance (plug k t) m
    (if balance then avl_retrace_insert c m root n else Some (m, root)).
Proof.
  intros t Hwh Hw Hb. destruct balance.
  - specialize (Hb eq_refl). apply balanced_plug in Hb as [_ Hb].
    assert (n_parent c m n = kparent k) as Hp.
    { destruct Hwh as [_ (Hi & _)]. apply cell_fields in Hi. tauto. }
    assert (wfn c (nodes t ++ knodes k)) as Hw' by done.
    unfold avl_retrace_insert. rewrite Hp.
    destruct (retrace_insert_spec c Hc k t m root (avl_fuel c)) as (m' & root' & t' & Hr); try done.
    + by apply (kfuel_enough k t).
    + by right.
    + exists m', root', t'. tauto.
  - exists m, root, (plug k t). rewrite <-whole_plug. by split_and!.
Qed.

(** Linking a fresh node in at the leaf that the descent found. *)
Lemma link_new_spec balance m root k n elem cmp :
  let x := object m elem in
  let m1 := new_node m n elem (kparent k) in
  whole (cell_at c m) root k Leaf -> wfn c (n :: knodes k) -> k = [] \/ (cmp <? 0) = is_left k ->
  (balance = true -> balanced (plug k Leaf)) ->
  exists m2 root2 m3 root3 t3,
    (if kparent k =? AVL_CORE_NIL then (m1, n)
     else if cmp <? 0 then (set_left c m1 (kparent k) n, root) else (set_right c m1 (kparent k) n, root))
      = (m2, root2) /\
    (if balance then avl_retrace_insert c m2 root2 n else Some (m2, root2)) = Some (m3, root3) /\
    whole (cell_at c m3) root3 [] t3 /\ (balance = true -> balanced t3) /\
    inorder t3 = inorder (plug k (Node Leaf n 0 x Leaf)) /\ touches c (n :: knodes k) m m3.
Proof.
  intros x m1 Hwk Hw Hside Hb. pose proof Hw as (Hnp & Hnn & Hwk')%wfn_cons.
  destruct (new_node_spec m n elem (kparent k) Hnp) as [Hcell Ht1].
  { by apply (kparent_u32 c Hc), Hwk'. }
  assert (repk (cell_at c m1) root k AVL_CORE_NIL) as Hk.
  { apply (repk_ext (cell_at c m)); [|exact (proj1 Hwk)].
    intros i Hi. apply Ht1. by intros ->%list_elem_of_singleton. }
  pose proof (attach_spec m1 _ k n x cmp Hk Hw Hcell Hside) as Hat.
  destruct (if kparent k =? AVL_CORE_NIL then _ else _) as [m2 root2]. destruct Hat as [Hwh2 Ht2].
  destruct (insert_relink balance m2 root2 k n x Hwh2 Hw Hb) as (m3 & root3 & t3 & Hr & Hwh3 & Hb3 & Hi3 & Ht3).
  exists m2, root2, m3, root3, t3. split_and!; try done.
  rewrite nodes_plug in Ht3. transitivity m1; [|by transitivity m2].
  apply (touches_mono c [n]); [|done]. intros i ->%list_elem_of_singleton. by left.
Qed.

Definition free_chain (m : mem) (free_head : Z) (fs : list Z) : Prop :=
  seg (n_left c m) free_head fs AVL_CORE_NIL.

Lemma free_chain_u32 m free_head fs : free_chain m free_head fs -> Forall (in_pool c) fs -> is_u32 free_head.
Proof.
  destruct fs as [|n fs]; cbn; [by intros ->|]. intros [-> _] [Hn _]%Forall_cons. by eapply in_pool_u32.
Qed.

Lemma free_chain_agree m m' free_head fs : Forall (in_pool c) fs ->
  mem_agree (rng (ac_pool c) (ac_capacity c * ac_stride c)) m m' ->
  free_chain m free_head fs -> free_chain m' free_head fs.
Proof.
  intros Hf Ha. rewrite Forall_forall in Hf. apply seg_ext. intros i Hi.
  pose proof (cells_agree m m' i (Hf i Hi) Ha) as E. unfold cell_at in E. by injection E.
Qed.

Lemma free_chain_touches ns m m' free_head fs :
  touches c ns m m' -> (forall i, i ∈ fs -> i ∉ ns) -> free_chain m free_head fs -> free_chain m' free_head fs.
Proof.
  intros [_ Ht] Hd. apply seg_ext. intros i Hi. specialize (Ht i (Hd i Hi)).
  unfold cell_at in Ht. by injection Ht.
Qed.

(** Insertion: refused for a payload that compares equal to one of the tree and when
    no node is free; otherwise the payload joins the tree in a fresh node. *)
Definition inserted (balance : bool) (t : tree) (m : mem) (o : Owner) (fs : list Z) (x : list Z)
    (m' : mem) (o' : Owner) : Prop :=
  exists n fs' t',
    fs = n :: fs' /\ ow_count o' = u64 (ow_count o + 1) /\
    whole (cell_at c m') (ow_root o') [] t' /\ (balance = true -> balanced t') /\
    elems t' = ol_insert (ac_cmp c) x (elems t) /\ nodes t' ≡ₚ n :: nodes t /\
    free_chain m' (ow_free o') fs' /\ touches c (n :: nodes t) m m'.

Lemma insert_spec `{!CmpLaws (ac_cmp c)} m o elem balance t fs :
  whole (cell_at c m) (ow_root o) [] t -> wfn c (nodes t ++ fs) -> free_chain m (ow_free o) fs ->
  ascending (ac_cmp c) (elems t) -> (balance = true -> balanced t) ->
  let x := object m elem in
  exists m' o' r, avl_core_insert c m o elem balance = Some (m', o', r) /\
    if bool_decide (ol_find (ac_cmp c) x (elems t) = None /\ fs <> [])
    then r = 1 /\ inserted balance t m o fs x m' o' else r = 0 /\ m' = m /\ o' = o.
Proof.
  intros Hwh Hw Hfr Hasc Hb x. pose proof Hw as (Hwt & Hwf & Hd)%wfn_app.
  destruct Hwh as [Hroot Hr]. cbn in Hroot, Hr. unfold avl_core_insert. rewrite Hroot.
  pose proof (fuel_enough t Hwt) as Hfuel.
  pose proof (insert_descent_spec t [] _ (avl_fuel c) m elem 0 Hr (proj2 Hwt) ltac:(lia) ltac:(by left)) as Hds.
  pose proof (descend_plug (ac_cmp c) x t []) as Hpl.
  pose proof (descend_splits (ac_cmp c) x t [] Hasc ltac:(by split)) as Hsp.
  fold x in Hds. cbn [kparent] in Hds.
  destruct (descend (ac_cmp c) x t []) as [k t1]. cbn [plug] in Hpl. destruct Hds as (cmp' & -> & Hside).
  destruct Hsp as [Hsp Ht1]. destruct t1 as [|l i b e r].
  - assert (elems t = (before k).*2 ++ (after k).*2) as Ee.
    { by rewrite <-Hpl, elems_plug. }
    assert (ol_find (ac_cmp c) x (elems t) = None) as Hnone.
    { rewrite Ee. by apply ol_find_split. }
    rewrite Hnone. unfold alloc_node. destruct fs as [|n fs'].
    { cbn in Hfr. rewrite Hfr, !Z.eqb_refl. exists m, o, 0. split; [done|]. by rewrite bool_decide_false by (intros [_ Hne]; done). }
    rewrite bool_decide_true by done. destruct Hfr as [-> Hfr].
    apply wfn_cons in Hwf as (Hnp & Hnf & Hwf). destruct (in_pool_u32 c Hc n Hnp) as [_ Hnn].
    rewrite !(proj2 (Z.eqb_neq _ _) Hnn).
    assert (nodes t ≡ₚ knodes k) as En by (rewrite <-Hpl, nodes_plug; done).
    assert (wfn c (n :: knodes k)) as Hwn.
    { apply wfn_cons. rewrite <-En. split_and!; [done| |done]. intros Hn%Hd. by apply Hn, list_elem_of_here. }
    assert (whole (cell_at c m) (ow_root o) k Leaf) as Hwk by (apply whole_plug; by rewrite Hpl).
    change (set_bal c _ n 0) with (new_node m n elem (kparent k)). rewrite <-Hroot.
    destruct (link_new_spec balance m (ow_root o) k n elem cmp' Hwk Hwn Hside) as
      (m2 & root2 & m3 & root3 & t3 & -> & -> & Hwh3 & Hb3 & Hi3 & Ht); [by rewrite Hpl|].
    rewrite <-En in Ht.
    exists m3, (mkOwner root3 (n_left c m n) (u64 (ow_count o + 1))), 1. split; [done|]. split; [done|].
    exists n, fs', t3. split_and!; try done.
    + rewrite Ee, ol_insert_split by done. rewrite (same_elems _ _ Hi3). apply elems_plug.
    + rewrite (same_nodes _ _ Hi3), nodes_plug, En. done.
    + eapply free_chain_touches; [exact Ht| |exact Hfr]. intros i Hi [->|Hit]%elem_of_cons; [done|].
      apply (Hd i Hit). by right.
  - exists m, o, 0. split; [done|]. rewrite bool_decide_false; [done|]. intros [Hnone _].
    destruct Ht1 as [Hcmp Hs]. rewrite <-Hpl, elems_plug, elems_Node in Hnone.
    rewrite <-app_assoc, app_assoc in Hnone. cbn in Hnone.
    rewrite (ol_find_at _ x _ e _) in Hnone; [done|by apply splits_app|done].
Qed.

(** ** Removal *)

(** The child that takes the place of a node with at most one child. *)
Definition heir (l r : tree) : tree := match l with Leaf => r | _ => l end.

Lemma unlink_spec balance m root k l i b e r :
  whole (cell_at c m) root k (Node l i b e r) -> wfn c (nodes (Node l i b e r) ++ knodes k) ->
  l = Leaf \/ r = Leaf -> (balance = true -> balanced (plug k (Node l i b e r))) ->
  relinked balance (plug k (heir l r)) m (unlink c m root i balance).
Proof.
  intros Hwh Hw Hlr Hb. pose proof Hwh as [Hk (Hi & Hl & Hr)]. apply cell_fields in Hi as (H1 & H2 & H3 & _).
  pose proof Hw as (Hwt & Hwk & Hd)%wfn_app.
  assert (i ∉ knodes k) as Hik by (apply Hd; rewrite nodes_Node; apply list_elem_of_here).
  assert (in_pool c i) as Hip. { rewrite nodes_Node in Hwt. by apply wfn_cons in Hwt as [? _]. }
  destruct (in_pool_u32 c Hc i Hip) as [_ Hin].
  set (s := heir l r).
  assert (rep (cell_at c m) i s) as Hs by (unfold s; by destruct l).
  assert (nodes (Node l i b e r) ≡ₚ i :: nodes s) as En.
  { rewrite nodes_Node. destruct Hlr as [->| ->]; [done|]. unfold s. destruct l; [done|]. cbn [heir].
    by rewrite app_nil_r. }
  pose proof Hw as Hw0. rewrite En in Hw. cbn [app] in Hw. apply wfn_cons in Hw as (_ & _ & Hw).
  unfold unlink. rewrite H1, H2, H3.
  replace (if negb (troot l =? AVL_CORE_NIL) then troot l else troot r) with (troot s).
  2:{ rewrite (troot_nil c Hc); [by destruct l|]. rewrite nodes_Node in Hwt.
      apply wfn_cons in Hwt as (_ & _ & [_ [? _]%Forall_app]). done. }
  pose proof (replace_child_spec c Hc m root k i i s Hk Hs Hin Hik Hw) as Hrc.
  destruct (replace_child c m root (kparent k) i (troot s)) as [m1 root1]. destruct Hrc as [Hwh1 Ht1].
  assert (height (Node l i b e r) = height s + 1) as Hh.
  { pose proof (height_nonneg l). pose proof (height_nonneg r).
    destruct Hlr as [->| ->]; unfold s; [|destruct l]; cbn [heir height] in *; lia. }
  rewrite (kparent_nil c Hc) by apply Hwk.
  assert (balance = true -> k <> [] -> relinked balance (plug k s) m
    (avl_retrace_remove (avl_fuel c) c m1 root1 (kparent k)
      (negb match k with [] => true | _ => false end && (n_left c m (kparent k) =? i)))) as Hreb.
  { intros -> Hne. specialize (Hb eq_refl). apply balanced_plug in Hb as [Hbt Hbk].
    destruct (retrace_remove_spec c Hc k s m1 root1 (avl_fuel c)
      (negb match k with [] => true | _ => false end && (n_left c m (kparent k) =? i)))
      as (m' & root' & t' & Hr' & Hwh' & Hb' & Hi' & Ht'); try done.
    - by apply (kfuel_enough k s).
    - unfold s. cbn [balanced] in Hbt. destruct l; tauto.
    - by rewrite <-Hh.
    - right. destruct k as [|f k]; [done|]. destruct (frame_hole f) as (d & a & j & bj & ej & ->).
      rewrite kparent_hole. cbn [negb andb].
      destruct (hole_side c Hc m root k d a j bj ej (Node l i b e r) Hwh ltac:(done) Hw0)
        as [_ Hs'].
      cbn [troot] in Hs'. rewrite Hs'. by destruct d.
    - exists m', root', t'. split_and!; try done. etransitivity; [|exact Ht']. by rewrite nodes_plug. }
  assert (balance = false \/ k = [] -> relinked balance (plug k s) m (Some (m1, root1))) as Hno.
  { intros Hbk. exists m1, root1, (plug k s). split; [done|]. rewrite <-whole_plug. split_and!; try done.
    - intros ->. destruct Hbk as [| ->]; [done|]. specialize (Hb eq_refl). cbn [plug balanced] in *.
      unfold s. destruct l; tauto.
    - by rewrite nodes_plug. }
  destruct balance, k as [|f k]; cbn [negb andb] in *; auto.
Qed.

(** The node to unlink has at most one child, and taking it out leaves exactly the
    other payloads, whichever of the two nodes goes. *)
Lemma pick_target_spec balance m root k l z b e r :
  whole (cell_at c m) root k (Node l z b e r) -> wfn c (nodes (Node l z b e r) ++ knodes k) ->
  (balance = true -> balanced (plug k (Node l z b e r))) ->
  exists m1 k1 l1 i b1 e1 r1,
    pick_target c m z = Some (m1, i) /\ whole (cell_at c m1) root k1 (Node l1 i b1 e1 r1) /\
    (l1 = Leaf \/ r1 = Leaf) /\ (balance = true -> balanced (plug k1 (Node l1 i b1 e1 r1))) /\
    nodes (plug k1 (Node l1 i b1 e1 r1)) = nodes (plug k (Node l z b e r)) /\
    elems (plug k1 (heir l1 r1)) = (before k).*2 ++ (elems l ++ elems r) ++ (after k).*2 /\
    touches c (nodes (Node l z b e r) ++ knodes k) m m1.
Proof.
  intros Hwh Hw Hb. pose proof Hwh as [Hk (Hz & Hl & Hr)]. apply cell_fields in Hz as (H1 & H2 & _).
  pose proof Hw as (Hwt & _)%wfn_app. rewrite nodes_Node in Hwt.
  apply wfn_cons in Hwt as (Hzp & Hzn & (Hwl & Hwr & _)%wfn_app).
  unfold pick_target. rewrite H1, H2, !(troot_nil c Hc) by (apply Hwl || apply Hwr).
  assert ((l = Leaf \/ r = Leaf) \/ (l <> Leaf /\ r <> Leaf)) as [Hlr|[Hl0 Hr0]].
  { destruct l, r; auto. }
  { exists m, k, l, z, b, e, r.
    split_and!; try done.
    - destruct Hlr as [->| ->]; [done|]. by destruct l.
    - rewrite elems_plug. do 2 f_equal. destruct Hlr as [->| ->]; [done|]. destruct l; cbn [heir]; [done|].
      cbn. by rewrite app_nil_r. }
  replace (negb match l with Leaf => true | _ => false end) with true by (by destruct l).
  replace (negb match r with Leaf => true | _ => false end) with true by (by destruct r). cbn [andb].
  pose proof (fuel_enough r Hwr).
  destruct (edge_loop_spec DLeft r z (avl_fuel c) m Hr (proj2 Hwr) ltac:(lia) Hr0)
    as (kr & s & sb & se & sr & E & Hs & Hbk). cbn [mk] in E.
  rewrite (min_spec m z r Hr Hwr).
  assert (hd AVL_CORE_NIL (nodes r) = s) as ->.
  { rewrite E. unfold nodes. by rewrite inorder_plug, Hbk. }
  assert (whole (cell_at c m) root (kr ++ InRight l z b e :: k) (Node Leaf s sb se sr)) as Hws.
  { apply whole_app, whole_fill. rewrite <-E. done. }
  pose proof Hws as [_ (Hse & _)]. apply cell_fields in Hse as (_ & _ & _ & _ & Hse).
  set (m1 := memcpy m _ _ _).
  exists m1, (kr ++ InRight l z b se :: k), Leaf, s, sb, se, sr. split; [done|].
  assert (forall t, plug (kr ++ InRight l z b se :: k) t = plug k (Node l z b se (plug kr t))) as Ep.
  { intros t. by rewrite plug_app. }
  assert (forall k t1 t2, nodes t1 = nodes t2 -> nodes (plug k t1) = nodes (plug k t2)) as Hnp.
  { intros k0 t1 t2 En. unfold nodes in *. by rewrite !inorder_plug, !fmap_app, En. }
  split_and!; [|by left|..].
  - apply whole_app, whole_fill. rewrite <-E. cbn [fill].
    destruct Hwh as [_ (Hz & _ & _)]. apply wfn_app in Hw as (Hwt & _ & Hd).
    rewrite not_elem_of_app in Hzn.
    assert (z ∉ knodes k) as Hzk by (apply Hd; rewrite nodes_Node; apply list_elem_of_here).
    unfold m1. rewrite cells_set_pay by done. fold (object m (avl_core_payload c s)).
    split; [by apply repk_upd|]. cbn [rep]. rewrite upd_eq, Hz. unfold object. rewrite Hse.
    split; [done|]. split; (apply rep_upd; [tauto|done]).
  - intros Hbal. specialize (Hb Hbal). rewrite Ep, <-E. apply balanced_plug in Hb as [Hb1 Hb2].
    apply balanced_plug. done.
  - rewrite Ep, <-E. apply Hnp. unfold nodes. cbn. by rewrite !fmap_app.
  - cbn [heir]. rewrite Ep, elems_plug, elems_Node. do 2 f_equal. rewrite E, !elems_plug, Hbk. done.
  - apply touches_pay; [done|apply Hw|]. rewrite nodes_Node. by left.
Qed.

Lemma splice_spec balance m root k l z b e r :
  let t := plug k (Node l z b e r) in
  whole (cell_at c m) root k (Node l z b e r) -> wfn c (nodes (Node l z b e r) ++ knodes k) ->
  (balance = true -> balanced t) ->
  exists m1 i m2 root2 t2,
    pick_target c m z = Some (m1, i) /\ unlink c m1 root i balance = Some (m2, root2) /\
    whole (cell_at c m2) root2 [] t2 /\ (balance = true -> balanced t2) /\
    nodes t ≡ₚ i :: nodes t2 /\
    elems t2 = (before k).*2 ++ (elems l ++ elems r) ++ (after k).*2 /\ touches c (nodes t) m m2.
Proof.
  intros t Hwh Hw Hb.
  destruct (pick_target_spec balance m _ k l z b e r Hwh Hw Hb) as
    (m1 & k1 & l1 & i & b1 & e1 & r1 & Hp & Hw1 & Hlr & Hb1 & Hn1 & He1 & Ht1).
  assert (nodes t ≡ₚ nodes (Node l1 i b1 e1 r1) ++ knodes k1) as En1 by (by rewrite <-nodes_plug, Hn1).
  rewrite <-nodes_plug in Hw, Ht1. fold t in Hw, Ht1. rewrite En1 in Hw.
  destruct (unlink_spec balance m1 _ k1 l1 i b1 e1 r1 Hw1 Hw Hlr Hb1) as
    (m2 & root2 & t2 & Hu & Hw2 & Hb2 & Hi2 & Ht2).
  assert (nodes t ≡ₚ i :: nodes t2) as En.
  { rewrite (same_nodes _ _ Hi2), nodes_plug, En1, nodes_Node.
    destruct Hlr as [->| ->]; [done|]. by destruct l1; cbn [heir]; rewrite ?app_nil_r. }
  exists m1, i, m2, root2, t2. split_and!; try done.
  - by rewrite (same_elems _ _ Hi2).
  - transitivity m1; [done|]. eapply touches_mono; [|exact Ht2].
    rewrite <-(same_nodes _ _ Hi2). intros j Hj. rewrite En. by right.
Qed.

Lemma avl_copy_out_deliver m z out : copy_out c m z out = deliver m out (object m (avl_core_payload c z)).
Proof. done. Qed.

(** Removal: nothing happens when no payload of the tree compares equal to the key;
    otherwise that payload is handed out and leaves the tree, and its node is free. *)
Definition removed (balance : bool) (t : tree) (m : mem) (o : Owner) (fs key : list Z) (out : Z)
    (x : list Z) (m' : mem) (o' : Owner) : Prop :=
  exists n t',
    ow_count o' = u64 (ow_count o - 1) /\
    whole (cell_at c m') (ow_root o') [] t' /\ (balance = true -> balanced t') /\
    elems t' = ol_remove (ac_cmp c) key (elems t) /\ nodes t ≡ₚ n :: nodes t' /\
    free_chain m' (ow_free o') (n :: fs) /\ touches c (nodes t) (deliver m out x) m'.

Lemma remove_spec `{!CmpLaws (ac_cmp c)} m o key out balance t fs :
  whole (cell_at c m) (ow_root o) [] t -> wfn c (nodes t ++ fs) -> free_chain m (ow_free o) fs ->
  ascending (ac_cmp c) (elems t) -> (balance = true -> balanced t) ->
  (out <> 0 -> rdisj out (ac_element_size c) (ac_pool c) (ac_capacity c * ac_stride c)) ->
  let kb := object m key in
  exists m' o' r, avl_core_remove c m o key out balance = Some (m', o', r) /\
    match ol_find (ac_cmp c) kb (elems t) with
    | None => r = 0 /\ m' = m /\ o' = o
    | Some x => r = 1 /\ removed balance t m o fs kb out x m' o'
    end.
Proof.
  intros Hwh Hw Hfr Hasc Hb Hout kb. pose proof Hw as (Hwt & Hwf & Hd)%wfn_app.
  unfold avl_core_remove. rewrite (find_spec m _ key t Hwh Hwt).
  pose proof (descend_plug (ac_cmp c) kb t []) as Hpl.
  pose proof (descend_splits (ac_cmp c) kb t [] Hasc ltac:(by split)) as Hsp. fold kb.
  destruct (descend (ac_cmp c) kb t []) as [k t1]. cbn [plug snd] in Hpl |- *. destruct Hsp as [Hsp Ht1].
  destruct t1 as [|l z b e r].
  { rewrite <-Hpl, elems_plug, ol_find_split by done. cbn. by exists m, o, 0. }
  destruct Ht1 as [Hcmp Hs].
  assert (elems t = ((before k).*2 ++ elems l) ++ e :: (elems r ++ (after k).*2)) as Ee.
  { rewrite <-Hpl, elems_plug, elems_Node. by rewrite <-!app_assoc. }
  rewrite Ee, ol_find_at by (done || by apply splits_app).
  assert (wfn c (nodes (Node l z b e r) ++ knodes k)) as Hwk by (by rewrite <-nodes_plug, Hpl).
  assert (whole (cell_at c m) (ow_root o) k (Node l z b e r)) as Hwk' by (apply whole_plug; by rewrite Hpl).
  assert (object m (avl_core_payload c z) = e) as Hobj.
  { destruct Hwk' as [_ (Hz & _)]. apply cell_fields in Hz. tauto. }
  assert (in_pool c z /\ z <> AVL_CORE_NIL) as [Hzp Hzn].
  { rewrite nodes_Node in Hwk. apply wfn_cons in Hwk as (Hz & _). split; [done|]. by eapply in_pool_u32. }
  cbn [troot]. rewrite (proj2 (Z.eqb_neq _ _) Hzn), avl_copy_out_deliver, Hobj.
  assert (mem_agree (rng (ac_pool c) (ac_capacity c * ac_stride c)) m (deliver m out e)) as Hag.
  { apply deliver_outside. intros Hne. rewrite <-Hobj. unfold object. rewrite mem_read_length.
    pose proof (esz_stride c Hc). rewrite Z2Nat.id by lia. auto. }
  set (m0 := deliver m out e) in *.
  apply (whole_agree m m0) in Hwk'; [|done|done].
  destruct (splice_spec balance m0 _ k l z b e r Hwk' Hwk) as
    (m1 & i & m2 & root2 & t2 & -> & -> & Hw2 & Hb2 & En & He2 & Ht2); [by rewrite Hpl|].
  rewrite Hpl in En, Ht2. cbn [free_node].
  rewrite En in Hwt. apply wfn_cons in Hwt as (Hip & Hit & Hwt2).
  exists (set_left c m2 i (ow_free o)), (mkOwner root2 i (u64 (ow_count o - 1))), 1.
  split; [done|]. split; [done|].
  assert (touches c (nodes t) m0 (set_left c m2 i (ow_free o))) as Ht.
  { etransitivity; [exact Ht2|]. apply touches_left; [done| |by rewrite En; left].
    rewrite En. apply Forall_cons. split; [done|apply Hwt2]. }
  assert (free_chain m0 (ow_free o) fs) as Hfr0 by (eapply free_chain_agree; [apply Hwf|done|done]).
  pose proof (free_chain_u32 _ _ _ Hfr (proj2 Hwf)) as Hfu.
  pose proof (cells_set_left c Hc m2 i (ow_free o) Hfu) as Hset.
  exists i, t2. split_and!; try done.
  - cbn [ow_root]. destruct Hw2 as [Hk2 Hr2]. split; [exact Hk2|]. rewrite Hset. by apply rep_upd.
  - rewrite He2, Ee, ol_remove_at by (done || by apply splits_app).
    by rewrite <-!app_assoc.
  - split; [done|]. pose proof (Hset i) as E. rewrite upd_eq in E. unfold cell_at in E. injection E as -> _.
    by eapply free_chain_touches; [exact Ht|intros j Hj Hjt; by apply (Hd j Hjt)|].
Qed.

(** ** In-order walk *)

Lemma focus_node t i : i ∈ nodes t -> exists k l b e r, t = plug k (Node l i b e r).
Proof.
  enough (forall k, i ∈ nodes t -> exists k' l b e r, plug k t = plug k' (Node l i b e r)) as H
    by apply (H []).
  induction t as [|l IHl j b e r IHr]; intros k Hi; [by apply not_elem_of_nil in Hi|].
  rewrite nodes_Node in Hi. apply elem_of_cons in Hi as [->|[Hi|Hi]%elem_of_app].
  - by exists k, l, b, e, r.
  - by apply (IHl (InLeft j b e r :: k)).
  - by apply (IHr (InRight l j b e :: k)).
Qed.

Lemma nodes_ne t : t <> Leaf -> nodes t <> [].
Proof.
  destruct t as [|l i b e r]; [done|]. intros _ E. pose proof (nodes_Node l i b e r) as Hp.
  rewrite E in Hp. by apply Permutation_nil_cons in Hp.
Qed.

Lemma nodup_split {A} (i : A) l1 l2 : forall k1 k2,
  NoDup (l1 ++ i :: l2) -> l1 ++ i :: l2 = k1 ++ i :: k2 -> l1 = k1 /\ l2 = k2.
Proof.
  induction l1 as [|x l1 IH]; intros [|y k1] k2; cbn; intros Hn E; simplify_eq; [done|..].
  - exfalso. apply NoDup_cons in Hn as [Hn _]. apply Hn. apply elem_of_app. right. by left.
  - exfalso. apply NoDup_cons in Hn as [Hn _]. apply Hn. apply elem_of_app. right. by left.
  - apply NoDup_cons in Hn as [_ Hn]. by destruct (IH k1 k2 Hn ltac:(done)) as [-> ->].
Qed.

Definition child_fn (d : dir) : AvlCore -> mem -> Z -> Z :=
  match d with DLeft => n_left | DRight => n_right end.

(** The climb arrives at the nearest ancestor on the other side. *)
Definition next_above (d : dir) (k : ctx) : Z :=
  match d with
  | DRight => hd AVL_CORE_NIL (after k).*1
  | DLeft => List.last (before k).*1 AVL_CORE_NIL
  end.

Lemma climb_spec d k : forall t fuel m root,
  whole (cell_at c m) root k t -> wfn c (nodes t ++ knodes k) -> (length k <= fuel)%nat -> t <> Leaf ->
  climb (child_fn d) fuel c m (troot t) (kparent k) = Some (next_above d k).
Proof.
  induction k as [|f k IH]; intros t fuel m root Hwh Hw Hf Hne; [by destruct fuel, d|].
  destruct fuel as [|fuel]; [cbn in Hf; lia|].
  destruct (frame_hole f) as (d' & a & i & b & e & ->).
  pose proof (wfn_hole c Hc _ _ _ _ _ _ _ Hw) as Hi.
  destruct (hole_side c Hc _ _ _ _ _ _ _ _ _ Hwh Hne Hw) as [Hs1 Hs2].
  destruct (hole_parent c _ _ _ _ _ _ _ _ _ Hwh) as [Hp _]. rewrite kparent_hole.
  cbn [climb]. rewrite (proj2 (Z.eqb_neq _ _) Hi). cbn [orb].
  assert ((troot t =? child_fn d c m i) = match d, d' with DLeft, DLeft | DRight, DRight => true | _, _ => false end)
    as ->. { destruct d; cbn [child_fn]; [rewrite Z.eqb_sym, Hs2|rewrite Hs1]; by destruct d'. }
  apply whole_child in Hwh. rewrite <-nodes_child in Hw. rewrite Hp. cbn [length] in Hf.
  destruct d, d'; cbn [negb].
  - rewrite <-(troot_mk DLeft a i b e t). rewrite (IH _ fuel m root Hwh Hw) by (done || lia).
    cbn. by rewrite app_nil_r.
  - cbn. rewrite !fmap_app, app_assoc. cbn. by rewrite List.last_last.
  - done.
  - rewrite <-(troot_mk DRight a i b e t). by rewrite (IH _ fuel m root Hwh Hw) by (done || lia).
Qed.

(** The cursors [avl_core_next] and [avl_core_prev] yield follow the order of the
    payloads and end with the marker. *)
Lemma next_prev_spec m root t l1 i l2 :
  whole (cell_at c m) root [] t -> wfn c (nodes t) -> nodes t = l1 ++ i :: l2 ->
  avl_core_next c m i = Some (hd AVL_CORE_NIL l2) /\
  avl_core_prev c m i = Some (List.last l1 AVL_CORE_NIL).
Proof.
  intros Hwh Hw En. destruct (focus_node t i) as (k & l & b & e & r & E).
  { rewrite En. apply elem_of_app. right. by left. }
  assert (nodes t = ((before k).*1 ++ nodes l) ++ i :: (nodes r ++ (after k).*1)) as En'.
  { rewrite E. unfold nodes. rewrite inorder_plug. cbn [inorder]. rewrite !fmap_app. cbn.
    by rewrite <-!app_assoc. }
  rewrite En in En'. destruct (nodup_split i l1 l2 _ _ ltac:(rewrite <-En; apply Hw) En') as [-> ->].
  subst t. apply whole_plug in Hwh. rewrite nodes_plug in Hw.
  assert (i <> AVL_CORE_NIL /\ in_pool c i) as [Hin Hip].
  { rewrite nodes_Node in Hw. apply wfn_cons in Hw as (Hi & _). split; [by eapply in_pool_u32|done]. }
  pose proof Hwh as [_ (Hi & Hl & Hr)]. apply cell_fields in Hi as (H1 & H2 & H3 & _).
  pose proof Hw as (Hwt & _)%wfn_app. rewrite nodes_Node in Hwt.
  apply wfn_cons in Hwt as (_ & _ & (Hwl & Hwr & _)%wfn_app).
  pose proof (kfuel_enough _ _ Hw) as Hf.
  pose proof (fun d => climb_spec d k (Node l i b e r) (avl_fuel c) m root Hwh Hw Hf ltac:(done)) as Hcl. cbn [troot] in Hcl.
  unfold avl_core_next, avl_core_prev. rewrite (proj2 (Z.eqb_neq _ _) Hin).
  rewrite (proj2 (Z.leb_gt _ _)) by apply Hip. cbn [orb]. rewrite H1, H2, H3.
  rewrite !(troot_nil c Hc) by (apply Hwl || apply Hwr). split.
  - destruct r as [|rl j bj ej rr]; cbn [negb]; [exact (Hcl DRight)|].
    rewrite (min_spec m i _ Hr Hwr). pose proof (nodes_ne (Node rl j bj ej rr) ltac:(done)).
    by destruct (nodes (Node rl j bj ej rr)).
  - destruct l as [|ll j bj ej lr]; cbn [negb].
    + cbn. rewrite app_nil_r. exact (Hcl DLeft).
    + rewrite (max_spec m i _ Hl Hwl).
      destruct (last_split _ (nodes_ne (Node ll j bj ej lr) ltac:(done))) as (ns' & n' & ->).
      by rewrite app_assoc, !List.last_last.
Qed.

(** ** The pool at the start *)

Lemma thread_free_links n : forall m i, 0 <= i -> i + Z.of_nat n = ac_capacity c ->
  thread_free n m (ac_pool c) (ac_stride c) (ac_capacity c) i = thread_links (pool_of c) n m i.
Proof.
  induction n as [|n IH]; intros m i Hi Hn; cbn [thread_free thread_links]; [done|].
  rewrite <-IH by lia. unfold set_link. rewrite <-(node_at_pool c Hc), Z.add_0_r. cbn [po_cap pool_of].
  pose proof (core_pool_ok c Hc) as [_ Hcap _ _]. cbn in Hcap. unfold NODE_NIL in Hcap.
  rewrite u32_small by (umach; lia). done.
Qed.

(** A built free list holds every node and nothing else. *)
Lemma build_freelist_spec m :
  let '(m', free_head) := avl_core_build_freelist m (ac_pool c) (ac_stride c) (ac_capacity c) in
  exists fs, nodes_ok (ac_capacity c) fs /\ free_chain m' free_head fs /\
    mem_frame (ac_pool c) (ac_capacity c * ac_stride c) m m'.
Proof.
  unfold avl_core_build_freelist. pose proof (core_pool_ok c Hc) as Hg. pose proof Hg as [_ Hcap _ _].
  cbn in Hcap. rewrite thread_free_links by lia.
  destruct (thread_links_seg _ Hg m) as [Hs Hf]; [unfold has_link; cbn; unfold AVL_CORE_NODE_OVERHEAD; lia|].
  exists (map Z.of_nat (seq 0 (Z.to_nat (ac_capacity c)))). split; [unfold nodes_ok; reflexivity|]. split.
  - eapply seg_ext; [|exact Hs]. intros i _. unfold n_left, link.
    by rewrite Z.mul_0_r, Z.add_0_r, <-(node_at_pool c Hc).
  - unfold po_bytes, po_stride in Hf. cbn in Hf. by rewrite (core_stride c Hc).
Qed.

Lemma elems_block m t : forall p, rep (cell_at c m) p t ->
  Forall (fun x => Z.of_nat (length x) = ac_element_size c) (elems t).
Proof.
  pose proof (esz_stride c Hc) as [He _].
  induction t as [|l IHl i b e r IHr]; intros p; [constructor|]. intros (Hi & Hl & Hr).
  rewrite elems_Node. apply Forall_app. split; [eauto|]. constructor; [|eauto].
  apply cell_fields in Hi as (_ & _ & _ & _ & <-). rewrite mem_read_length. lia.
Qed.

Lemma rep_payload m t : forall p k i x, rep (cell_at c m) p t -> inorder t !! k = Some (i, x) ->
  object m (avl_core_payload c i) = x.
Proof.
  induction t as [|l IHl j b e r IHr]; intros p k i x; [done|]. intros (Hj & Hl & Hr) Hk. cbn in Hk.
  apply lookup_app_Some in Hk as [Hk|[_ Hk]]; [eauto|].
  apply lookup_cons_Some in Hk as [[_ [= <- <-]]|[_ Hk]]; [|eauto].
  apply cell_fields in Hj. unfold object. tauto.
Qed.

(** Distinct nodes of the pool, none missing. *)
Lemma nodes_ok_wfn ns : nodes_ok (ac_capacity c) ns -> wfn c ns.
Proof.
  intros Hn. split; [by eapply nodes_nodup|]. apply Forall_forall. intros i Hi. exact (nodes_range _ _ _ Hn Hi).
Qed.

End ops.
