(* ===== verification/KeySet.v ===== *)
(** What the keyed containers promise their clients: a set of fixed-size payloads
    under a comparator, with a capacity.  [Tree] and [AvlHash] implement it; a client
    script cannot tell an implementation from the ordered list of the payloads. *)
From stdpp Require Import sorting sets.
From S2P Require Import Prelude HostMem Deque AvlTree.
#[local] Open Scope Z_scope.

Class KeySet (Q : Type) := {
  ks_insert : mem -> Q -> Z -> option (mem * Q * Z);
  ks_remove : mem -> Q -> Z -> Z -> option (mem * Q * Z);
  ks_find : mem -> Q -> Z -> Z -> option (mem * Z);
  ks_contains : mem -> Q -> Z -> option bool;
  ks_clear : mem -> Q -> mem * Q;
  ks_count : Q -> Z;
  ks_empty : Q -> bool;
  ks_full : Q -> bool;
  ks_cmp : Q -> list Z -> list Z -> Z;   (** the order of the payloads *)
  ks_cap : Q -> Z;
  ks_esz : Q -> Z;
  ks_private : Q -> Z -> Prop;           (** the bytes that belong to the container *)
  ks_inv : mem -> Q -> list (list Z) -> Prop  (** it holds these payloads, in order *)
}.

Section interface.
Context {Q : Type} `{KeySet Q}.

Definition ks_same (q q' : Q) : Prop :=
  ks_cmp q' = ks_cmp q /\ ks_cap q' = ks_cap q /\ ks_esz q' = ks_esz q /\
  (forall x, ks_private q' x <-> ks_private q x).

Definition ks_public (q : Q) (x : Z) : Prop := ~ ks_private q x.

(** A buffer of one payload outside the container. *)
Definition ks_buffer (q : Q) (b : Z) : Prop := forall x, rng b (ks_esz q) x -> ks_public q x.

Class KeySetLaws : Prop := {
  ks_insert_law m q l elem : ks_inv m q l ->
    exists m' q' r, ks_insert m q elem = Some (m', q', r) /\ ks_same q q' /\
      let x := mem_read m elem (ks_esz q) in
      if (elem =? 0) || bool_decide (ol_find (ks_cmp q) x l <> None) || (ks_cap q <=? Z.of_nat (length l))
      then r = 0 /\ m' = m /\ q' = q
      else r = 1 /\ ks_inv m' q' (ol_insert (ks_cmp q) x l) /\ mem_agree (ks_public q) m m';
  ks_remove_law m q l key out : ks_inv m q l -> (out <> 0 -> ks_buffer q out) ->
    exists m' q' r, ks_remove m q key out = Some (m', q', r) /\ ks_same q q' /\
      let kb := mem_read m key (ks_esz q) in
      match (if key =? 0 then None else ol_find (ks_cmp q) kb l) with
      | None => r = 0 /\ m' = m /\ q' = q
      | Some x => r = 1 /\ ks_inv m' q' (ol_remove (ks_cmp q) kb l) /\
                  mem_agree (ks_public q) (deliver m out x) m'
      end;
  ks_find_law m q l key out : ks_inv m q l ->
    ks_find m q key out = Some
      match (if key =? 0 then None else ol_find (ks_cmp q) (mem_read m key (ks_esz q)) l) with
      | None => (m, 0)
      | Some x => (deliver m out x, 1)
      end;
  ks_contains_law m q l key : ks_inv m q l ->
    ks_contains m q key = Some
      (negb (key =? 0) && bool_decide (ol_find (ks_cmp q) (mem_read m key (ks_esz q)) l <> None));
  ks_clear_law m q l : ks_inv m q l ->
    let '(m', q') := ks_clear m q in
    ks_inv m' q' [] /\ ks_same q q' /\ mem_agree (ks_public q) m m';
  ks_count_law m q l : ks_inv m q l ->
    ks_count q = Z.of_nat (length l) /\ ks_empty q = (Z.of_nat (length l) =? 0) /\
    ks_full q = (ks_cap q <=? Z.of_nat (length l));
  ks_block_law m q l : ks_inv m q l -> 0 <= ks_esz q /\ Forall (fun x => Z.of_nat (length x) = ks_esz q) l;
  ks_agree_law m m' q l : ks_inv m q l -> mem_agree (ks_private q) m m' -> ks_inv m' q l
}.

End interface.

Lemma rng_disj a n b k : 0 < k -> 0 < n -> (forall x, rng a n x -> ~ rng b k x) -> rdisj a n b k.
Proof. intros Hk Hn Hd. specialize (Hd (Z.max a b)). unfold rng, rdisj in *. lia. Qed.

(** ** Client scripts *)

Inductive set_cmd :=
| KWrite (a : Z) (bs : list Z)     (** the client fills a buffer of its own *)
| KInsert (elem : Z)
| KRemove (key out : Z)
| KFind (key out : Z)
| KContains (key : Z)
| KClear
| KCount
| KEmpty
| KFull.

Section scripts.
Context {Q : Type} `{KeySetLaws Q}.

Definition set_cmd_impl (m : mem) (q : Q) (c : set_cmd) : option (mem * Q * deque_obs) :=
  match c with
  | KWrite a bs => Some (mem_write m a bs, q, (0, []))
  | KInsert elem => '(m, q, r) ← ks_insert m q elem; Some (m, q, (r, []))
  | KRemove key out => '(m, q, r) ← ks_remove m q key out; Some (m, q, seen m (r =? 1) out (ks_esz q))
  | KFind key out => '(m, r) ← ks_find m q key out; Some (m, q, seen m (r =? 1) out (ks_esz q))
  | KContains key => b ← ks_contains m q key; Some (m, q, (Z.b2z b, []))
  | KClear => let '(m, q) := ks_clear m q in Some (m, q, (0, []))
  | KCount => Some (m, q, (ks_count q, []))
  | KEmpty => Some (m, q, (Z.b2z (ks_empty q), []))
  | KFull => Some (m, q, (Z.b2z (ks_full q), []))
  end.

Fixpoint set_run (m : mem) (q : Q) (cs : list set_cmd) : option (list deque_obs) :=
  match cs with
  | [] => Some []
  | c :: cs =>
      '(m, q, o) ← set_cmd_impl m q c;
      os ← set_run m q cs;
      Some (o :: os)
  end.

End scripts.

(** The same calls on the ordered list of payloads. *)
Definition set_cmd_spec (cmp : list Z -> list Z -> Z) (cap n : Z) (m : mem) (l : list (list Z)) (c : set_cmd)
    : mem * list (list Z) * deque_obs :=
  let found key := if key =? 0 then None else ol_find cmp (mem_read m key n) l in
  match c with
  | KWrite a bs => (mem_write m a bs, l, (0, []))
  | KInsert elem =>
      let x := mem_read m elem n in
      if (elem =? 0) || bool_decide (ol_find cmp x l <> None) || (cap <=? Z.of_nat (length l))
      then (m, l, (0, [])) else (m, ol_insert cmp x l, (1, []))
  | KRemove key out =>
      match found key with
      | None => (m, l, (0, []))
      | Some x => (deliver m out x, ol_remove cmp (mem_read m key n) l, (1, if out =? 0 then [] else x))
      end
  | KFind key out =>
      match found key with
      | None => (m, l, (0, []))
      | Some x => (deliver m out x, l, (1, if out =? 0 then [] else x))
      end
  | KContains key => (m, l, (Z.b2z (bool_decide (found key <> None)), []))
  | KClear => (m, [], (0, []))
  | KCount => (m, l, (Z.of_nat (length l), []))
  | KEmpty => (m, l, (Z.b2z (Z.of_nat (length l) =? 0), []))
  | KFull => (m, l, (Z.b2z (cap <=? Z.of_nat (length l)), []))
  end.

Fixpoint set_spec_run (cmp : list Z -> list Z -> Z) (cap n : Z) (m : mem) (l : list (list Z))
    (cs : list set_cmd) : list deque_obs :=
  match cs with
  | [] => []
  | c :: cs => let '(m, l, o) := set_cmd_spec cmp cap n m l c in o :: set_spec_run cmp cap n m l cs
  end.

(** The client's buffers lie outside the bytes [P]. *)
Definition set_cmd_outside (P : Z -> Prop) (n : Z) (c : set_cmd) : Prop :=
  let clear a k := forall x, rng a k x -> ~ P x in
  match c with
  | KWrite a bs => clear a (Z.of_nat (length bs))
  | KInsert b | KContains b => b <> 0 -> clear b n
  | KRemove b o | KFind b o => (b <> 0 -> clear b n) /\ (o <> 0 -> clear o n)
  | KClear | KCount | KEmpty | KFull => True
  end.

Lemma set_cmd_outside_mono (P P' : Z -> Prop) n c :
  (forall x, P' x -> P x) -> set_cmd_outside P n c -> set_cmd_outside P' n c.
Proof.
  intros Hp.
  assert (forall a k, (forall x, rng a k x -> ~ P x) -> forall x, rng a k x -> ~ P' x) as Hx.
  { intros a k Hx x Hr Hx'. by apply (Hx x Hr), Hp. }
  destruct c; cbn; [apply Hx|..|done|done|done|done]; firstorder.
Qed.

(** ** Refinement *)

Section refinement.
Context {Q : Type} `{KeySetLaws Q}.

Definition set_sim (q : Q) (m : mem) (l : list (list Z)) (ms : mem) : Prop :=
  ks_inv m q l /\ mem_agree (ks_public q) m ms.

Lemma public_read (q : Q) m ms a :
  mem_agree (ks_public q) m ms -> ks_buffer q a -> mem_read m a (ks_esz q) = mem_read ms a (ks_esz q).
Proof. intros Ha Hd. apply mem_read_agree. intros x Hx. by apply Ha, Hd. Qed.

Lemma public_same (q q' : Q) m m' : ks_same q q' -> mem_agree (ks_public q) m m' -> mem_agree (ks_public q') m m'.
Proof. intros (_ & _ & _ & Hp) Ha x Hx. apply Ha. unfold ks_public in *. by rewrite <-Hp. Qed.

Lemma mem_deliver_agree P m ms out x : mem_agree P m ms -> mem_agree P (deliver m out x) (deliver ms out x).
Proof. intros Ha. unfold deliver. case_match; [done|]. by apply mem_write_agree. Qed.

Lemma delivered (q : Q) m ms out x : (out <> 0 -> ks_buffer q out) -> Z.of_nat (length x) = ks_esz q ->
  mem_agree (ks_public q) (deliver ms out x) m -> seen m true out (ks_esz q) = (1, if out =? 0 then [] else x).
Proof.
  intros Hb Hx Ha. unfold seen. cbn [andb Z.b2z]. unfold deliver in Ha.
  destruct (Z.eqb_spec out 0) as [->|Hne]; [done|]. cbn [negb]. f_equal.
  rewrite <-(public_read q _ _ _ Ha (Hb Hne)). by apply mem_read_write_eq.
Qed.

Lemma found_block (q : Q) m l key x : ks_inv m q l -> ol_find (ks_cmp q) key l = Some x ->
  Z.of_nat (length x) = ks_esz q.
Proof.
  intros [_ Hf]%ks_block_law (l1 & l2 & -> & _)%ol_remove_split.
  apply Forall_app in Hf as [_ Hf]. by apply Forall_cons in Hf as [? _].
Qed.

Lemma set_cmd_sim (q : Q) m l ms c :
  set_sim q m l ms -> set_cmd_outside (ks_private q) (ks_esz q) c ->
  let '(ms', l', o) := set_cmd_spec (ks_cmp q) (ks_cap q) (ks_esz q) ms l c in
  exists m' q', set_cmd_impl m q c = Some (m', q', o) /\ set_sim q' m' l' ms' /\ ks_same q q'.
Proof.
  intros [Hi Ha] Hc.
  destruct c as [a bs|elem|key out|key out|key| | | |]; cbn [set_cmd_impl set_cmd_spec set_cmd_outside] in *.
  - exists (mem_write m a bs), q. split; [done|]. split; [|done]. split; [|by apply mem_write_agree].
    apply (ks_agree_law m); [done|]. intros x Hx. symmetry. apply mem_write_out. intros Hr. by apply (Hc x Hr).
  - destruct (ks_insert_law m q l elem Hi) as (m' & q' & r & -> & Hs & Hr).
    cbv zeta in Hr. cbn.
    destruct (Z.eqb_spec elem 0) as [|Hne]; cbn [orb] in *; [destruct Hr as (-> & -> & ->); by exists m, q|].
    rewrite <-(public_read q m ms elem Ha (Hc Hne)).
    destruct (_ || _); [destruct Hr as (-> & -> & ->); by exists m, q|]. destruct Hr as (-> & Hi' & Hf).
    exists m', q'. split; [done|]. split; [|done]. split; [done|].
    apply (public_same q); [done|]. transitivity m; [by symmetry|done].
  - destruct Hc as [Hkey Hout]. destruct (ks_remove_law m q l key out Hi Hout) as (m' & q' & r & -> & Hs & Hr).
    cbv zeta in Hr. cbn. destruct (Z.eqb_spec key 0) as [|Hne]; [destruct Hr as (-> & -> & ->); by exists m, q|].
    rewrite <-(public_read q m ms key Ha (Hkey Hne)).
    destruct (ol_find _ _ l) as [x|] eqn:Ef; [|destruct Hr as (-> & -> & ->); by exists m, q].
    destruct Hr as (-> & Hi' & Hf). exists m', q'. rewrite (proj1 (proj2 (proj2 Hs))).
    change (1 =? 1) with true.
    rewrite (delivered q m' m out x Hout (found_block _ _ _ _ _ Hi Ef) Hf).
    split; [done|]. split; [|done]. split; [done|]. apply (public_same q); [done|].
    transitivity (deliver m out x); [by symmetry|]. by apply mem_deliver_agree.
  - destruct Hc as [Hkey Hout]. rewrite (ks_find_law m q l key out Hi).
    destruct (Z.eqb_spec key 0) as [|Hne]; [by exists m, q|].
    rewrite <-(public_read q m ms key Ha (Hkey Hne)).
    destruct (ol_find _ _ l) as [x|] eqn:Ef; [|by exists m, q]. pose proof (found_block _ _ _ _ _ Hi Ef) as Hx.
    exists (deliver m out x), q. cbn. rewrite (delivered q _ m out x Hout Hx) by reflexivity.
    split; [done|]. split; [|done]. split; [|by apply mem_deliver_agree].
    apply (ks_agree_law m); [done|]. unfold deliver. destruct (Z.eqb_spec out 0) as [|Hne']; [done|].
    intros y Hy. symmetry. apply mem_write_out. rewrite Hx. intros Hr. by apply (Hout Hne' y Hr).
  - rewrite (ks_contains_law m q l key Hi). exists m, q. split; [|done]. cbn.
    destruct (Z.eqb_spec key 0) as [|Hne]; cbn [negb andb].
    + by rewrite bool_decide_false by (intros Hx; by apply Hx).
    + by rewrite <-(public_read q m ms key Ha (Hc Hne)).
  - pose proof (ks_clear_law m q l Hi) as Hcl. destruct (ks_clear m q) as [m' q'].
    destruct Hcl as (Hi' & Hs & Hf). exists m', q'. split; [done|]. split; [|done]. split; [done|].
    apply (public_same q); [done|]. transitivity m; [by symmetry|done].
  - destruct (ks_count_law m q l Hi) as (-> & _). by exists m, q.
  - destruct (ks_count_law m q l Hi) as (_ & -> & _). by exists m, q.
  - destruct (ks_count_law m q l Hi) as (_ & _ & ->). by exists m, q.
Qed.

(** Every client script runs to its end and sees the ordered list. *)
Lemma set_refines cs : forall (q : Q) m l ms,
  set_sim q m l ms -> Forall (set_cmd_outside (ks_private q) (ks_esz q)) cs ->
  set_run m q cs = Some (set_spec_run (ks_cmp q) (ks_cap q) (ks_esz q) ms l cs).
Proof.
  induction cs as [|c cs IH]; intros q m l ms Hsim Hcs; [done|].
  apply Forall_cons in Hcs as [Hc Hcs]. cbn [set_run set_spec_run].
  pose proof (set_cmd_sim q m l ms c Hsim Hc) as H1.
  destruct (set_cmd_spec _ _ _ ms l c) as [[ms' l'] o]. destruct H1 as (m' & q' & -> & Hsim' & Hs).
  cbn. destruct Hs as (Hcmp & Hcap & Hesz & Hp). rewrite (IH q' m' l' ms' Hsim').
  - cbn. by rewrite Hcmp, Hcap, Hesz.
  - rewrite Hesz. eapply Forall_impl; [exact Hcs|]. intros c'. apply set_cmd_outside_mono. apply Hp.
Qed.

End refinement.
