(* ===== verification/Tree.v ===== *)
(** The ordered tree ([src/containers/tree.c]): the facade over the engine of
    [AvlCore] that owns a pool and one root and picks plain or balanced insertion.
    Shown to be an ordered set of payloads over any sequence of calls. *)
From stdpp Require Import sorting sets.
From S2P Require Import Prelude HostMem NodePool Deque AvlTree AvlCore AvlRep AvlRot AvlRetrace AvlOps.
From S2P Require Import KeySet.
#[local] Open Scope Z_scope.

Definition TREE_NIL : Z := 0xFFFFFFFF.
Definition TREE_NODE_OVERHEAD : Z := 16.
Definition TREE_BST : Z := 0.
Definition TREE_AVL : Z := 1.

Record Tree := mkTree {
  t_pool : Z;
  t_capacity : Z;
  t_element_size : Z;
  t_stride : Z;
  t_count : Z;
  t_root : Z;
  t_free_head : Z;
  t_discipline : Z;
  t_cmp : list Z -> list Z -> Z
}.

Definition set_owner (t : Tree) (o : Owner) : Tree :=
  mkTree (t_pool t) (t_capacity t) (t_element_size t) (t_stride t) (ow_count o) (ow_root o) (ow_free o)
    (t_discipline t) (t_cmp t).

(** ** Views *)

Definition tree_core_ro (t : Tree) : AvlCore :=
  mkAvlCore (t_pool t) (t_stride t) (t_element_size t) (u32 (t_capacity t)) (t_cmp t).

(** The words that the mutating view borrows, with the root that the calls pass. *)
Definition tree_core_rw (t : Tree) : AvlCore * Owner :=
  (tree_core_ro t, mkOwner (t_root t) (t_free_head t) (t_count t)).

(** ** Sizing *)

Definition tree_pool_bytes (capacity element_size : Z) : Z :=
  u64 (capacity * u64 (TREE_NODE_OVERHEAD + element_size)).

Definition tree_pool_bytes_for_depth (depth element_size : Z) : Z :=
  if depth =? 0 then 0 else
  if 32 <=? depth then 0 else
  tree_pool_bytes (u64 (Z.shiftl 1 depth - 1)) element_size.

(** ** Life cycle *)

Definition tree_clear (m : mem) (t : Tree) : mem * Tree :=
  let '(m, free_head) := avl_core_build_freelist m (t_pool t) (t_stride t) (u32 (t_capacity t)) in
  (m, set_owner t (mkOwner TREE_NIL free_head 0)).

Definition tree_init (m : mem) (t : Tree) (discipline : Z) (cmp : list Z -> list Z -> Z)
    (pool pool_bytes element_size : Z) : mem * Tree * bool :=
  if (pool =? 0) || (element_size =? 0) then (m, t, false) else
  if negb (discipline =? TREE_BST) && negb (discipline =? TREE_AVL) then (m, t, false) else
  let stride := u64 (TREE_NODE_OVERHEAD + element_size) in
  let capacity := pool_bytes / stride in
  if (capacity =? 0) || (TREE_NIL <=? capacity) then (m, t, false) else
  let '(m, t) := tree_clear m (mkTree pool capacity element_size stride (t_count t) (t_root t)
                                 (t_free_head t) discipline cmp) in
  (m, t, true).

(** ** Mutation *)

Definition tree_insert (m : mem) (t : Tree) (elem : Z) : option (mem * Tree * Z) :=
  if elem =? 0 then Some (m, t, 0) else
  let '(c, o) := tree_core_rw t in
  match avl_core_insert c m o elem (t_discipline t =? TREE_AVL) with
  | None => None
  | Some (m, o, r) => Some (m, set_owner t o, r)
  end.

Definition tree_remove (m : mem) (t : Tree) (key out : Z) : option (mem * Tree * Z) :=
  if key =? 0 then Some (m, t, 0) else
  let '(c, o) := tree_core_rw t in
  match avl_core_remove c m o key out (t_discipline t =? TREE_AVL) with
  | None => None
  | Some (m, o, r) => Some (m, set_owner t o, r)
  end.

(** ** Queries *)

Definition tree_find (m : mem) (t : Tree) (key out : Z) : option (mem * Z) :=
  if key =? 0 then Some (m, 0) else
  let c := tree_core_ro t in
  match avl_core_find c m (t_root t) key with
  | None => None
  | Some n => if n =? TREE_NIL then Some (m, 0) else Some (copy_out c m n out, 1)
  end.

Definition tree_contains (m : mem) (t : Tree) (key : Z) : option bool :=
  if key =? 0 then Some false else
  match avl_core_find (tree_core_ro t) m (t_root t) key with
  | None => None
  | Some n => Some (negb (n =? TREE_NIL))
  end.

Definition tree_count (t : Tree) : Z := t_count t.
Definition tree_empty (t : Tree) : bool := t_count t =? 0.
Definition tree_full (t : Tree) : bool := t_capacity t <=? t_count t.

(** ** In-order walk *)

Definition tree_begin (m : mem) (t : Tree) : option Z := avl_core_min (tree_core_ro t) m (t_root t).
Definition tree_rbegin (m : mem) (t : Tree) : option Z := avl_core_max (tree_core_ro t) m (t_root t).

Definition tree_next (m : mem) (t : Tree) (cursor : Z) : option Z :=
  if t_capacity t <=? cursor then Some TREE_NIL else avl_core_next (tree_core_ro t) m cursor.
Definition tree_prev (m : mem) (t : Tree) (cursor : Z) : option Z :=
  if t_capacity t <=? cursor then Some TREE_NIL else avl_core_prev (tree_core_ro t) m cursor.

Definition tree_get (m : mem) (t : Tree) (cursor out : Z) : mem * Z :=
  if (cursor =? TREE_NIL) || (t_capacity t <=? cursor) then (m, 0)
  else (copy_out (tree_core_ro t) m cursor out, 1).

(** ** State *)

(** A tree that holds the payloads [l]. *)
Definition tree_inv (m : mem) (t : Tree) (l : list (list Z)) : Prop :=
  let c := tree_core_ro t in
  core_ok c /\ CmpLaws (t_cmp t) /\ (u32 (t_capacity t) = t_capacity t /\ 0 < t_capacity t) /\ ascending (t_cmp t) l /\
  t_count t = Z.of_nat (length l) /\
  exists T fs,
    whole (cell_at c m) (t_root t) [] T /\ nodes_ok (t_capacity t) (nodes T ++ fs) /\
    free_chain c m (t_free_head t) fs /\ elems T = l /\
    ((t_discipline t =? TREE_AVL) = true -> balanced T).

Definition tree_bytes (t : Tree) : Z := t_capacity t * t_stride t.

(** The pool, the sizes and the order never change. *)
Definition tree_same (t t' : Tree) : Prop :=
  t_pool t' = t_pool t /\ t_capacity t' = t_capacity t /\ t_element_size t' = t_element_size t /\
  t_stride t' = t_stride t /\ t_discipline t' = t_discipline t /\ t_cmp t' = t_cmp t.

Lemma elems_length T : length (elems T) = length (nodes T).
Proof. unfold elems, nodes. by rewrite !length_fmap. Qed.

(** The fullness test that the free list stands for. *)
Lemma free_left cap T fs : 0 <= cap -> nodes_ok cap (nodes T ++ fs) ->
  Z.of_nat (length (elems T)) <= cap /\ (fs <> [] <-> Z.of_nat (length (elems T)) < cap).
Proof.
  intros Hc Hn. apply nodes_length in Hn; [|done]. rewrite length_app in Hn. rewrite elems_length.
  destruct fs; cbn in Hn; split; [lia|split; [done|lia]|lia|split; [lia|done]].
Qed.

Section laws.
Context (m : mem) (t : Tree) (l : list (list Z)) (Hinv : tree_inv m t l).

Lemma tree_cap_range : 0 <= t_capacity t < 0xFFFFFFFF.
Proof.
  destruct Hinv as (Hc & _ & [Hu _] & _). pose proof (core_pool_ok _ Hc) as [_ Hcap _ _]. cbn in Hcap.
  by rewrite Hu in Hcap.
Qed.

Lemma tree_insert_law elem :
  exists m' t' r, tree_insert m t elem = Some (m', t', r) /\ tree_same t t' /\
    let x := mem_read m elem (t_element_size t) in
    if (elem =? 0) || bool_decide (ol_find (t_cmp t) x l <> None) || (t_capacity t <=? t_count t)
    then r = 0 /\ m' = m /\ t' = t
    else r = 1 /\ tree_inv m' t' (ol_insert (t_cmp t) x l) /\ mem_frame (t_pool t) (tree_bytes t) m m'.
Proof.
  pose proof tree_cap_range as Hcap.
  destruct Hinv as (Hc & Hlaws & [Hu Hpos] & Hasc & Hcnt & T & fs & Hwh & Hn & Hfr & El & Hb).
  unfold tree_insert. destruct (elem =? 0); cbn [orb]; [by exists m, t, 0|].
  cbn [tree_core_rw]. set (c := tree_core_ro t) in *.
  assert (ac_capacity c = t_capacity t) as Ec by done. rewrite <-Ec in Hn.
  pose proof Hasc as Hasc'. rewrite <-El in Hasc.
  destruct (insert_spec c Hc m (mkOwner (t_root t) (t_free_head t) (t_count t)) elem
    (t_discipline t =? TREE_AVL) T fs Hwh (nodes_ok_wfn c _ Hn) Hfr Hasc Hb) as (m' & o' & r & -> & Hr).
  exists m', (set_owner t o'), r. split; [done|]. split; [done|].
  rewrite El in Hr. unfold object in Hr. cbn [ac_cmp ac_element_size c tree_core_ro] in Hr.
  destruct (free_left (ac_capacity c) T fs ltac:(lia) Hn) as [Hle Hlt]. rewrite El in Hle, Hlt.
  set (x := mem_read m elem (t_element_size t)) in *. rewrite Hcnt. rewrite Ec in Hle, Hlt.
  destruct (ol_find (t_cmp t) x l) as [y|] eqn:Ef.
  - rewrite bool_decide_false in Hr by (by intros [? _]). destruct Hr as (-> & -> & ->).
    cbn. split_and!; [done|done|]. by destruct t.
  - cbn [orb]. rewrite bool_decide_false by (intros H; by apply H). cbn [orb].
    destruct (Z.leb_spec (t_capacity t) (Z.of_nat (length l))) as [Hfull|Hroom].
    + rewrite bool_decide_false in Hr by (intros [_ Hfs]; apply Hlt in Hfs; lia). destruct Hr as (-> & -> & ->).
      split_and!; [done|done|]. by destruct t.
    + rewrite bool_decide_true in Hr by (split; [done|]; by apply Hlt).
      destruct Hr as (-> & n & fs' & T' & -> & Hc' & Hwh' & Hb' & He' & Hn' & Hfr' & Ht').
      split; [done|]. split; [|unfold tree_bytes; rewrite <-Ec; apply Ht'].
      pose proof (ol_insert_perm (t_cmp t) x l) as Hp.
      split_and!; try done.
      * by apply (ol_insert_ascending _).
      * cbn [t_count set_owner]. rewrite Hc', Hp. cbn [ow_count length]. rewrite Hcnt, u64_small by (umach; lia). lia.
      * exists T', fs'. cbn [t_root t_free_head t_discipline t_capacity set_owner]. split_and!; try done.
        -- rewrite Ec in Hn. eapply nodes_ok_proper; [|exact Hn]. rewrite Hn'. solve_Permutation.
        -- by rewrite He', El.
Qed.

Lemma tree_remove_law key out :
  (out <> 0 -> rdisj out (t_element_size t) (t_pool t) (tree_bytes t)) ->
  exists m' t' r, tree_remove m t key out = Some (m', t', r) /\ tree_same t t' /\
    let kb := mem_read m key (t_element_size t) in
    match (if key =? 0 then None else ol_find (t_cmp t) kb l) with
    | None => r = 0 /\ m' = m /\ t' = t
    | Some x => r = 1 /\ tree_inv m' t' (ol_remove (t_cmp t) kb l) /\
                mem_frame (t_pool t) (tree_bytes t) (deliver m out x) m'
    end.
Proof.
  intros Hout. pose proof tree_cap_range as Hcap.
  destruct Hinv as (Hc & Hlaws & [Hu Hpos] & Hasc & Hcnt & T & fs & Hwh & Hn & Hfr & El & Hb).
  unfold tree_remove. destruct (key =? 0); [by exists m, t, 0|].
  cbn [tree_core_rw]. set (c := tree_core_ro t) in *.
  assert (ac_capacity c = t_capacity t) as Ec by done. rewrite <-Ec in Hn.
  pose proof Hasc as Hasc'. rewrite <-El in Hasc. unfold tree_bytes in Hout. rewrite <-Ec in Hout.
  destruct (remove_spec c Hc m (mkOwner (t_root t) (t_free_head t) (t_count t)) key out
    (t_discipline t =? TREE_AVL) T fs Hwh (nodes_ok_wfn c _ Hn) Hfr Hasc Hb Hout) as (m' & o' & r & -> & Hr).
  exists m', (set_owner t o'), r. split; [done|]. split; [done|]. cbv zeta.
  rewrite El in Hr. unfold object in Hr. cbn [ac_cmp ac_element_size c tree_core_ro] in Hr.
  set (kb := mem_read m key (t_element_size t)) in *.
  destruct (free_left (ac_capacity c) T fs ltac:(lia) Hn) as [Hle _]. rewrite El, Ec in Hle.
  destruct (ol_find (t_cmp t) kb l) as [x|] eqn:Ef.
  - destruct Hr as (-> & n & T' & Hc' & Hwh' & Hb' & He' & Hn' & Hfr' & Ht').
    split; [done|]. split; [|unfold tree_bytes; rewrite <-Ec; apply Ht'].
    pose proof (ol_remove_length (t_cmp t) kb l x Ef) as Hlen. split_and!; try done.
    + by apply (ol_remove_ascending _ _ _ x).
    + cbn [t_count set_owner]. rewrite Hc'. cbn [ow_count]. rewrite Hcnt, Hlen, u64_small by (umach; lia). lia.
    + exists T', (n :: fs). cbn [t_root t_free_head t_discipline t_capacity set_owner]. split_and!; try done.
      * rewrite Ec in Hn. eapply nodes_ok_proper; [|exact Hn]. rewrite Hn'. solve_Permutation.
      * by rewrite He', El.
  - destruct Hr as (-> & -> & ->). split_and!; [done|done|]. by destruct t.
Qed.

(** What the descent finds, as an index and as a payload. *)
Lemma tree_find_core key :
  exists n, avl_core_find (tree_core_ro t) m (t_root t) key = Some n /\
    match ol_find (t_cmp t) (mem_read m key (t_element_size t)) l with
    | None => n = TREE_NIL
    | Some x => n <> TREE_NIL /\ mem_read m (avl_core_payload (tree_core_ro t) n) (t_element_size t) = x
    end.
Proof.
  destruct Hinv as (Hc & Hlaws & [Hu Hpos] & Hasc & Hcnt & T & fs & Hwh & Hn & Hfr & El & Hb).
  set (c := tree_core_ro t) in *. assert (ac_capacity c = t_capacity t) as Ec by done. rewrite <-Ec in Hn.
  apply (nodes_ok_wfn c) in Hn as (Hwt & _)%wfn_app.
  rewrite <-El in Hasc |- *. exact (find_elem c Hc m _ key T Hwh Hwt Hasc).
Qed.

Lemma tree_find_law key out :
  tree_find m t key out = Some
    match (if key =? 0 then None else ol_find (t_cmp t) (mem_read m key (t_element_size t)) l) with
    | None => (m, 0)
    | Some x => (deliver m out x, 1)
    end.
Proof.
  unfold tree_find. destruct (key =? 0); [done|]. destruct (tree_find_core key) as (n & -> & Hn).
  destruct (ol_find _ _ l) as [x|]; [|by rewrite Hn].
  destruct Hn as [Hn Hx]. rewrite (proj2 (Z.eqb_neq _ _) Hn). unfold copy_out, deliver, memcpy.
  cbn [ac_element_size tree_core_ro]. by rewrite Hx.
Qed.

Lemma tree_contains_law key :
  tree_contains m t key = Some
    (negb (key =? 0) && bool_decide (ol_find (t_cmp t) (mem_read m key (t_element_size t)) l <> None)).
Proof.
  unfold tree_contains. destruct (key =? 0); [done|]. destruct (tree_find_core key) as (n & -> & Hn).
  destruct (ol_find _ _ l) as [x|].
  - destruct Hn as [Hn _]. rewrite (proj2 (Z.eqb_neq _ _) Hn). by rewrite bool_decide_true.
  - rewrite Hn. by rewrite bool_decide_false by (intros H; by apply H).
Qed.

End laws.

(** Everything the tree's state depends on lies in its pool. *)
Lemma tree_agree m m' t l : tree_inv m t l ->
  mem_agree (rng (t_pool t) (tree_bytes t)) m m' -> tree_inv m' t l.
Proof.
  intros (Hc & Hlaws & [Hu Hpos] & Hasc & Hcnt & T & fs & Hwh & Hn & Hfr & El & Hb) Ha.
  split_and!; try done. exists T, fs. unfold tree_bytes in Ha. rewrite <-Hu in Hn, Ha.
  pose proof (nodes_ok_wfn (tree_core_ro t) _ Hn) as (Hwt & Hwf & _)%wfn_app. rewrite Hu in Hn.
  split_and!; try done.
  - eapply (whole_agree _ Hc m); [|done|done]. change (knodes []) with (@nil Z). by rewrite app_nil_r.
  - by eapply (free_chain_agree _ Hc m); [apply Hwf| |].
Qed.

(** An empty tree. *)
Lemma tree_clear_law m t : core_ok (tree_core_ro t) -> CmpLaws (t_cmp t) -> u32 (t_capacity t) = t_capacity t ->
  0 < t_capacity t ->
  let '(m', t') := tree_clear m t in
  tree_inv m' t' [] /\ tree_same t t' /\ mem_frame (t_pool t) (tree_bytes t) m m'.
Proof.
  intros Hc Hl Hu Hpos. unfold tree_clear. pose proof (build_freelist_spec _ Hc m) as Hs.
  cbn [ac_pool ac_stride ac_capacity tree_core_ro] in Hs.
  destruct (avl_core_build_freelist _ _ _ _) as [m' h]. destruct Hs as (fs & Hn & Hfr & Hf).
  rewrite Hu in Hn, Hf. split; [|split; [done|exact Hf]].
  split_and!; try done; [constructor|]. by exists Leaf, fs.
Qed.

(** ** The set interface *)

#[export] Instance tree_set : KeySet Tree := {
  ks_insert := tree_insert;
  ks_remove := tree_remove;
  ks_find := tree_find;
  ks_contains := tree_contains;
  ks_clear := tree_clear;
  ks_count := tree_count;
  ks_empty := tree_empty;
  ks_full := tree_full;
  ks_cmp := t_cmp;
  ks_cap := t_capacity;
  ks_esz := t_element_size;
  ks_private t := rng (t_pool t) (tree_bytes t);
  ks_inv := tree_inv
}.

Lemma tree_same_set (t t' : Tree) : tree_same t t' -> ks_same t t'.
Proof.
  intros (Hp & Hc & He & Hs & _ & Hcmp). split_and!; [done..|].
  cbn. unfold tree_bytes. by rewrite Hp, Hc, Hs.
Qed.

#[export] Instance tree_set_laws : KeySetLaws (Q := Tree).
Proof.
  split; cbn [ks_inv ks_insert ks_remove ks_find ks_contains ks_clear ks_count ks_empty ks_full ks_cmp ks_cap
    ks_esz ks_private tree_set].
  - intros m t l elem H. destruct (tree_insert_law m t l H elem) as (m' & t' & r & E & Hs & Hr).
    exists m', t', r. split; [done|]. split; [by apply tree_same_set|].
    destruct H as (_ & _ & _ & _ & <- & _). exact Hr.
  - intros m t l key out H Hout.
    destruct (tree_remove_law m t l H key out) as (m' & t' & r & E & Hs & Hr).
    + intros Hne. specialize (Hout Hne). destruct H as (Hc & _ & [_ Hpos] & _).
      pose proof (esz_stride _ Hc) as [He Hs]. cbn in He, Hs.
      apply rng_disj; [unfold tree_bytes; nia|done|exact Hout].
    + exists m', t', r. split; [done|]. split; [by apply tree_same_set|]. exact Hr.
  - intros m t l key out H. by apply tree_find_law.
  - intros m t l key H. by apply tree_contains_law.
  - intros m t l (Hc & Hl & [Hu Hpos] & _). pose proof (tree_clear_law m t Hc Hl Hu Hpos) as H.
    destruct (tree_clear m t) as [m' t']. destruct H as (H1 & H2 & H3). split; [done|].
    split; [by apply tree_same_set|done].
  - intros m t l (_ & _ & _ & _ & Hn & _). unfold tree_count, tree_empty, tree_full. by rewrite Hn.
  - intros m t l (Hc & _ & _ & _ & _ & T & fs & [_ Hr] & _ & _ & <- & _).
    split; [|by apply (elems_block _ Hc m T AVL_CORE_NIL)]. pose proof (esz_stride _ Hc) as [He _]. cbn in He. lia.
  - intros m m' t l H Ha. by apply (tree_agree m).
Qed.

(** ** Initialisation *)

Lemma tree_init_law m t0 d cmp pool pool_bytes esz :
  CmpLaws cmp -> d = TREE_BST \/ d = TREE_AVL -> 0 < pool -> 0 < esz < 0xFFFFFFFF ->
  16 + esz <= pool_bytes -> pool_bytes / (16 + esz) < 0xFFFFFFFF ->
  let '(m', t, ok) := tree_init m t0 d cmp pool pool_bytes esz in
  ok = true /\ tree_inv m' t [] /\ t_cmp t = cmp /\ t_discipline t = d /\
  t_capacity t = pool_bytes / (16 + esz) /\ t_element_size t = esz /\
  t_pool t = pool /\ tree_bytes t <= pool_bytes /\ mem_frame pool (tree_bytes t) m m'.
Proof.
  intros Hl Hd Hp He Hb Hc. unfold tree_init, TREE_NODE_OVERHEAD, TREE_NIL.
  rewrite (proj2 (Z.eqb_neq pool 0)), (proj2 (Z.eqb_neq esz 0)) by lia. cbn [orb].
  replace (negb (d =? TREE_BST) && negb (d =? TREE_AVL)) with false by (by destruct Hd as [->| ->]).
  rewrite u64_small by (umach; lia).
  assert (1 <= pool_bytes / (16 + esz)) by (apply Z.div_le_lower_bound; lia).
  rewrite (proj2 (Z.eqb_neq _ 0)), (proj2 (Z.leb_gt _ _)) by lia. cbn [orb].
  set (t1 := mkTree pool _ esz _ _ _ _ _ _).
  assert (u32 (t_capacity t1) = t_capacity t1) as Hu by (apply u32_small; cbn; umach; lia).
  assert (core_ok (tree_core_ro t1)) as Hok.
  { split; [|done]. split; cbn [po_base po_cap po_links po_esz pool_of tree_core_ro ac_pool ac_capacity
      ac_element_size]; rewrite ?Hu; cbn; unfold NODE_NIL, AVL_CORE_NODE_OVERHEAD; lia. }
  pose proof (tree_clear_law m t1 Hok Hl Hu ltac:(cbn; lia)) as Hcl. destruct (tree_clear m t1) as [m' t].
  destruct Hcl as (Hi & (Hp' & Hc' & He' & Hs' & Hd' & Hcmp') & Hf). unfold tree_bytes in *.
  rewrite Hp', Hc', He', Hs', Hd', Hcmp'. split_and!; try done. cbn [t1 t_capacity t_stride].
  rewrite Z.mul_comm. apply Z.mul_div_le. lia.
Qed.

(** ** Iteration *)

(** [for (it = start; it != NIL; it = step(it))], for at most [fuel] rounds. *)
Fixpoint tree_walk (fuel : nat) (step : Z -> option Z) (cur : Z) : option (list Z) :=
  if cur =? TREE_NIL then Some [] else
  match fuel with
  | O => None
  | S fuel =>
      match step cur with
      | None => None
      | Some n => match tree_walk fuel step n with None => None | Some r => Some (cur :: r) end
      end
  end.

Lemma tree_walk_list step fuel ns :
  (length ns <= fuel)%nat -> Forall (fun i => i <> TREE_NIL) ns ->
  (forall l1 i l2, ns = l1 ++ i :: l2 -> step i = Some (hd TREE_NIL l2)) ->
  tree_walk fuel step (hd TREE_NIL ns) = Some ns.
Proof.
  revert fuel. induction ns as [|i ns IH]; intros fuel Hf Hn Hs; [by destruct fuel|].
  destruct fuel as [|fuel]; [cbn in Hf; lia|]. apply Forall_cons in Hn as [Hi Hn]. cbn [hd tree_walk].
  rewrite (proj2 (Z.eqb_neq _ _) Hi), (Hs [] i ns eq_refl), IH; [done|cbn in Hf; lia|done|].
  intros l1 j l2 ->. by apply (Hs (i :: l1)).
Qed.

Lemma last_rev_hd (l : list Z) d : List.last l d = hd d (rev l).
Proof.
  destruct l as [|x l _] using rev_ind; [done|]. by rewrite List.last_last, rev_app_distr.
Qed.

(** ** Properties *)

(** C36. The tree is an ordered set.  Initialised with either discipline and any
    comparator that orders payloads, every client script of insertions, removals,
    lookups, membership tests, clears, counts and client stores outside the pool runs
    to its end (no loop exceeds the pool's capacity) and sees exactly what the
    strictly ascending list of payloads shows: duplicates and insertions into a full
    pool are refused, removal and lookup deliver the payload that compares equal. *)
Theorem tree_refines m t0 d cmp pool pool_bytes esz cs :
  CmpLaws cmp -> d = TREE_BST \/ d = TREE_AVL -> 0 < pool -> 0 < esz < 0xFFFFFFFF ->
  16 + esz <= pool_bytes -> pool_bytes / (16 + esz) < 0xFFFFFFFF ->
  Forall (set_cmd_outside (rng pool pool_bytes) esz) cs ->
  let '(m', t, ok) := tree_init m t0 d cmp pool pool_bytes esz in
  ok = true /\ set_run m' t cs = Some (set_spec_run cmp (pool_bytes / (16 + esz)) esz m [] cs).
Proof.
  intros Hl Hd Hp He Hb Hc Hcs. pose proof (tree_init_law m t0 d cmp pool pool_bytes esz Hl Hd Hp He Hb Hc) as H.
  destruct (tree_init m t0 d cmp pool pool_bytes esz) as [[m' t] ok].
  destruct H as (-> & Hi & Hcmp & _ & Hcap & Hes & Hpl & Hby & Hf). split; [done|].
  rewrite <-Hcmp, <-Hcap, <-Hes. refine (set_refines (Q := Tree) cs t m' [] m _ _).
  - split; [done|]. intros x Hx. symmetry. apply Hf. by rewrite <-Hpl.
  - eapply Forall_impl; [exact Hcs|]. intros c. cbn [ks_private ks_esz tree_set]. rewrite Hes, Hpl.
    apply set_cmd_outside_mono. unfold rng. lia.
Qed.

(** The walk is in order.  On a tree that holds the payloads [l], the cursors from
    [tree_begin] by [tree_next] are as many as the elements, those from [tree_rbegin]
    by [tree_prev] are the same in reverse, and [tree_get] at the k-th cursor delivers
    the k-th payload of the ascending list. *)
Theorem tree_iterates m t l fuel :
  tree_inv m t l -> (length l <= fuel)%nat ->
  exists first final cursors,
    tree_begin m t = Some first /\ tree_rbegin m t = Some final /\
    tree_walk fuel (tree_next m t) first = Some cursors /\
    tree_walk fuel (tree_prev m t) final = Some (rev cursors) /\
    length cursors = length l /\ ascending (t_cmp t) l /\
    forall k i out, cursors !! k = Some i ->
      exists x, l !! k = Some x /\ tree_get m t i out = (deliver m out x, 1).
Proof.
  intros (Hc & Hlaws & [Hu Hpos] & Hasc & Hcnt & T & fs & Hwh & Hn & Hfr & El & Hb) Hf.
  set (c := tree_core_ro t) in *. pose proof Hn as Hn0. rewrite <-Hu in Hn.
  apply (nodes_ok_wfn c) in Hn as (Hwt & _)%wfn_app. pose proof Hwh as [Hroot Hr]. cbn in Hroot, Hr.
  assert (Forall (fun i => i <> TREE_NIL /\ (t_capacity t <=? i) = false) (nodes T)) as Hnn.
  { eapply Forall_impl; [apply Hwt|]. intros i Hi. split; [by eapply in_pool_u32|].
    apply Z.leb_gt. unfold in_pool in Hi. cbn in Hi. lia. }
  pose proof (Forall_impl _ _ _ Hnn (fun i H => proj1 H)) as Hnn1. cbn beta in Hnn1.
  exists (hd TREE_NIL (nodes T)), (hd TREE_NIL (rev (nodes T))), (nodes T).
  split_and!; try done.
  - unfold tree_begin, avl_core_min. rewrite Hroot. by eapply min_spec.
  - unfold tree_rbegin, avl_core_max. rewrite Hroot, <-last_rev_hd. by eapply max_spec.
  - apply tree_walk_list; [by rewrite <-elems_length, El|done|]. intros l1 i l2 E.
    rewrite E in Hnn. apply Forall_app in Hnn as [_ [[_ Hi] _]%Forall_cons]. unfold tree_next. rewrite Hi.
    by eapply (next_prev_spec c Hc).
  - apply tree_walk_list; [by rewrite length_rev, <-elems_length, El|by apply Forall_rev|]. intros l1 i l2 E.
    assert (nodes T = rev l2 ++ i :: rev l1) as E'.
    { rewrite <-(rev_involutive (nodes T)), E, rev_app_distr. cbn. by rewrite <-app_assoc. }
    rewrite E' in Hnn. apply Forall_app in Hnn as [_ [[_ Hi] _]%Forall_cons]. unfold tree_prev. rewrite Hi.
    rewrite <-(rev_involutive l2), <-last_rev_hd. by eapply (next_prev_spec c Hc).
  - by rewrite <-elems_length, El.
  - intros k i out Hk. unfold nodes in Hk. rewrite list_lookup_fmap in Hk.
    destruct (inorder T !! k) as [[i' x]|] eqn:E; [|done]. injection Hk as <-.
    exists x. rewrite <-El. unfold elems. rewrite list_lookup_fmap, E. split; [done|].
    assert (mem_read m (avl_core_payload c i') (t_element_size t) = x) as Hx.
    { by eapply (rep_payload c m T). }
    assert (i' ∈ nodes T) as Hin.
    { apply list_elem_of_fmap. exists (i', x). split; [done|]. by eapply list_elem_of_lookup_2. }
    rewrite Forall_forall in Hnn. destruct (Hnn i' Hin) as [H1 H2].
    unfold tree_get. rewrite (proj2 (Z.eqb_neq _ _) H1), H2. cbn [orb].
    unfold copy_out, deliver, memcpy. cbn [ac_element_size tree_core_ro]. fold c.
    by rewrite Hx.
Qed.

(** Lookup in a balanced tree is logarithmic: with [n] elements the descent ends
    within [2 * log2 (n + 1) + 1] comparisons, whatever the order of the insertions
    that built the tree. *)
Theorem tree_find_log m t l key :
  tree_inv m t l -> t_discipline t = TREE_AVL ->
  exists n, avl_core_find (tree_core_ro t) m (t_root t) key = Some n /\
    find_loop (Z.to_nat (2 * Z.log2 (t_count t + 1) + 1)) (tree_core_ro t) m (t_root t) key = Some n.
Proof.
  intros (Hc & Hlaws & [Hu Hpos] & Hasc & Hcnt & T & fs & Hwh & Hn & Hfr & El & Hb) Hd.
  set (c := tree_core_ro t) in *. rewrite <-Hu in Hn. apply (nodes_ok_wfn c) in Hn as (Hwt & _)%wfn_app.
  rewrite (find_spec c Hc m _ key T Hwh Hwt). eexists. split; [done|].
  destruct Hwh as [-> Hr]. eapply find_loop_spec; [done|exact Hr|apply Hwt|].
  rewrite Hd in Hb. pose proof (balanced_height T (Hb eq_refl)) as Hh.
  pose proof (height_nonneg T). rewrite Hcnt, <-El, elems_length. lia.
Qed.

(** ** A tree of at most three two-byte keys *)

Definition key_cmp (a b : list Z) : Z := le_val a - le_val b.

#[export] Instance key_cmp_laws : CmpLaws key_cmp.
Proof. unfold key_cmp. split; lia. Qed.

Definition demo_mem : mem := fun x => x mod 0x100.
Definition demo_tree0 : Tree := mkTree 0 0 0 0 0 0 0 0 key_cmp.
Definition demo_cmds : list set_cmd :=
  [KInsert 0x10; KInsert 0x20; KInsert 0x20; KInsert 0x30; KFull; KInsert 0x40; KCount; KContains 0x30;
   KFind 0x20 0x60; KRemove 0x10 0x70; KRemove 0x10 0x70; KInsert 0x18; KRemove 0x30 0; KCount].

Lemma tree_refines_witness :
  (let '(m', t, ok) := tree_init demo_mem demo_tree0 TREE_AVL key_cmp 0x1000 54 2 in
   ok = true /\ set_run m' t demo_cmds = Some (set_spec_run key_cmp (54 / (16 + 2)) 2 demo_mem [] demo_cmds)) /\
  set_spec_run key_cmp 3 2 demo_mem [] demo_cmds =
    [(1, []); (1, []); (0, []); (1, []); (1, []); (0, []); (3, []); (1, []); (1, [0x20; 0x21]);
     (1, [0x10; 0x11]); (0, []); (1, []); (1, []); (2, [])].
Proof.
  split; [|vm_compute; reflexivity].
  apply (tree_refines demo_mem demo_tree0 TREE_AVL key_cmp 0x1000 54 2 demo_cmds);
    [apply _|by right|lia|lia|lia|by vm_compute|].
  repeat (apply Forall_cons; split; [cbn; unfold rng; intuition lia|]). constructor.
Defined.

(** Three insertions in ascending order. *)
Lemma demo_tree_inv :
  exists m t, tree_inv m t [[0x10; 0x11]; [0x20; 0x21]; [0x30; 0x31]] /\ t_discipline t = TREE_AVL /\
    t_cmp t = key_cmp.
Proof.
  pose proof (tree_init_law demo_mem demo_tree0 TREE_AVL key_cmp 0x1000 54 2 _ ltac:(by right) ltac:(lia)
    ltac:(lia) ltac:(lia) ltac:(by vm_compute)) as H.
  destruct (tree_init demo_mem demo_tree0 TREE_AVL key_cmp 0x1000 54 2) as [[m t] ok].
  destruct H as (_ & Hi & Hcmp & Hd & Hcap & He & Hp & Hby & Hf). change (54 / (16 + 2)) with 3 in Hcap.
  assert (forall x, x < 0x1000 -> m x = demo_mem x) as Hm.
  { intros x Hx. symmetry. apply Hf. unfold rng. lia. }
  assert (Hstep : forall m1 t1 l a, tree_inv m1 t1 l -> tree_same t t1 -> (forall x, x < 0x1000 -> m1 x = demo_mem x) ->
    0 < a < 0x800 -> ol_find key_cmp (mem_read demo_mem a 2) l = None -> (length l < 3)%nat ->
    exists m2 t2, tree_inv m2 t2 (ol_insert key_cmp (mem_read demo_mem a 2) l) /\ tree_same t t2 /\
      (forall x, x < 0x1000 -> m2 x = demo_mem x)).
  { intros m1 t1 l a Hi1 Hs1 Hm1 Ha Hfnd Hlen.
    destruct (tree_insert_law m1 t1 l Hi1 a) as (m2 & t2 & r & _ & Hs & Hr). cbv zeta in Hr.
    destruct Hs1 as (Hp1 & Hc1 & He1 & Hst1 & Hd1 & Hcmp1). rewrite He1, He, Hcmp1, Hcmp in Hr.
    assert (mem_read m1 a 2 = mem_read demo_mem a 2) as Er.
    { apply mem_read_agree. intros x Hx. apply Hm1. unfold rng in Hx. lia. }
    rewrite Er, Hfnd, (proj2 (Z.eqb_neq a 0)), bool_decide_false, (proj2 (Z.leb_gt _ _)) in Hr; cbn [orb] in Hr.
    - destruct Hr as (_ & Hi2 & Hf2). exists m2, t2. split; [done|]. split.
      + destruct Hs as (? & ? & ? & ? & ? & ?). split_and!; congruence.
      + intros x Hx. rewrite <-Hm1 by done. symmetry. apply Hf2. rewrite Hp1, Hp. unfold rng. lia.
    - rewrite Hc1, Hcap. destruct Hi1 as (_ & _ & _ & _ & -> & _). lia.
    - intros Hx. by apply Hx.
    - lia. }
  destruct (Hstep m t [] 0x10 Hi ltac:(by split_and!) Hm ltac:(lia) eq_refl ltac:(cbn; lia)) as (m1 & t1 & H1 & S1 & M1).
  destruct (Hstep m1 t1 _ 0x20 H1 S1 M1 ltac:(lia) eq_refl ltac:(cbn; lia)) as (m2 & t2 & H2 & S2 & M2).
  destruct (Hstep m2 t2 _ 0x30 H2 S2 M2 ltac:(lia) eq_refl ltac:(vm_compute; lia)) as (m3 & t3 & H3 & S3 & M3).
  exists m3, t3. split; [exact H3|]. destruct S3 as (_ & _ & _ & _ & -> & ->). done.
Qed.

Lemma tree_iterates_witness :
  exists m t first final cursors,
    let l := [[0x10; 0x11]; [0x20; 0x21]; [0x30; 0x31]] in
    tree_begin m t = Some first /\ tree_rbegin m t = Some final /\
    tree_walk 3 (tree_next m t) first = Some cursors /\
    tree_walk 3 (tree_prev m t) final = Some (rev cursors) /\
    length cursors = length l /\ ascending (t_cmp t) l /\
    forall k i out, cursors !! k = Some i ->
      exists x, l !! k = Some x /\ tree_get m t i out = (deliver m out x, 1).
Proof.
  destruct demo_tree_inv as (m & t & Hi & _). exists m, t.
  exact (tree_iterates m t _ 3 Hi ltac:(cbn; lia)).
Defined.

Lemma tree_find_log_witness :
  exists m t n, t_count t = 3 /\ avl_core_find (tree_core_ro t) m (t_root t) 0x20 = Some n /\
    find_loop 5 (tree_core_ro t) m (t_root t) 0x20 = Some n.
Proof.
  destruct demo_tree_inv as (m & t & Hi & Hd & _). exists m, t.
  destruct (tree_find_log m t _ 0x20 Hi Hd) as (n & H1 & H2).
  assert (t_count t = 3) as Hc by (destruct Hi as (_ & _ & _ & _ & -> & _); done).
  exists n. rewrite Hc in H2. split; [exact Hc|]. split; [exact H1|exact H2].
Defined.

(** [tree_clear] rebuilds the free list: it does write to the pool. *)
Lemma tree_clear_writes_pool :
  exists m t, (tree_clear m t).1 (t_pool t) <> m (t_pool t).
Proof. exists (fun _ => 0x55), (mkTree 0x1000 2 2 18 0 0 0 TREE_AVL key_cmp). by vm_compute. Qed.
