(* ===== verification/AvlHash.v ===== *)
(** The hash table with balanced-tree buckets ([src/containers/avlhash.c]): an array
    of roots, all drawing nodes from one pool and one free list.  Shown to be the same
    set of payloads that the tree is, whatever the hash function. *)
From stdpp Require Import sorting sets.
From S2P Require Import Prelude HostMem NodePool Deque AvlTree AvlCore AvlRep AvlRot AvlRetrace AvlOps.
From S2P Require Import KeySet.
#[local] Open Scope Z_scope.

Definition AVLHASH_NIL : Z := 0xFFFFFFFF.
Definition AVLHASH_NODE_OVERHEAD : Z := 16.

Record AvlHash := mkAvlHash {
  h_buckets : Z;
  h_n_buckets : Z;
  h_pool : Z;
  h_capacity : Z;
  h_element_size : Z;
  h_stride : Z;
  h_count : Z;
  h_free_head : Z;
  h_hash : list Z -> Z;
  h_cmp : list Z -> list Z -> Z
}.

Definition set_free (h : AvlHash) (free_head count : Z) : AvlHash :=
  mkAvlHash (h_buckets h) (h_n_buckets h) (h_pool h) (h_capacity h) (h_element_size h) (h_stride h) count
    free_head (h_hash h) (h_cmp h).

Definition ah_core_ro (h : AvlHash) : AvlCore :=
  mkAvlCore (h_pool h) (h_stride h) (h_element_size h) (u32 (h_capacity h)) (h_cmp h).

(** The hash function sees the key's bytes. *)
Definition bucket_of (h : AvlHash) (m : mem) (key : Z) : Z :=
  h_hash h (mem_read m key (h_element_size h)) mod h_n_buckets h.

Definition bucket_at (h : AvlHash) (b : Z) : Z := h_buckets h + 4 * b.

(** [&h->buckets[b]] as the engine's root: read before the call, and written back
    when the call changed it. *)
Definition ah_core_rw (h : AvlHash) (m : mem) (b : Z) : AvlCore * Owner :=
  (ah_core_ro h, mkOwner (load32 m (bucket_at h b)) (h_free_head h) (h_count h)).
Definition put_root (h : AvlHash) (m : mem) (b root : Z) : mem :=
  if root =? load32 m (bucket_at h b) then m else store32 m (bucket_at h b) root.

Definition avlhash_pool_bytes (capacity element_size : Z) : Z :=
  u64 (capacity * u64 (AVLHASH_NODE_OVERHEAD + element_size)).

(** ** Life cycle *)

Fixpoint clear_buckets (n : nat) (m : mem) (buckets i : Z) : mem :=
  match n with
  | O => m
  | S n => clear_buckets n (store32 m (buckets + 4 * i) AVLHASH_NIL) buckets (i + 1)
  end.

Definition avlhash_clear (m : mem) (h : AvlHash) : mem * AvlHash :=
  let m := clear_buckets (Z.to_nat (h_n_buckets h)) m (h_buckets h) 0 in
  let '(m, free_head) := avl_core_build_freelist m (h_pool h) (h_stride h) (u32 (h_capacity h)) in
  (m, set_free h free_head 0).

Definition avlhash_init (m : mem) (h : AvlHash) (buckets n_buckets : Z) (hash : list Z -> Z)
    (cmp : list Z -> list Z -> Z) (pool pool_bytes element_size : Z) : mem * AvlHash * bool :=
  if (buckets =? 0) || (n_buckets =? 0) || (pool =? 0) || (element_size =? 0) then (m, h, false) else
  let stride := u64 (AVLHASH_NODE_OVERHEAD + element_size) in
  let capacity := pool_bytes / stride in
  if (capacity =? 0) || (AVLHASH_NIL <=? capacity) then (m, h, false) else
  let '(m, h) := avlhash_clear m (mkAvlHash buckets n_buckets pool capacity element_size stride
                                    (h_count h) (h_free_head h) hash cmp) in
  (m, h, true).

(** ** Mutation *)

Definition avlhash_insert (m : mem) (h : AvlHash) (elem : Z) : option (mem * AvlHash * Z) :=
  if elem =? 0 then Some (m, h, 0) else
  let b := bucket_of h m elem in
  let '(c, o) := ah_core_rw h m b in
  match avl_core_insert c m o elem true with
  | None => None
  | Some (m, o, r) => Some (put_root h m b (ow_root o), set_free h (ow_free o) (ow_count o), r)
  end.

Definition avlhash_remove (m : mem) (h : AvlHash) (key out : Z) : option (mem * AvlHash * Z) :=
  if key =? 0 then Some (m, h, 0) else
  let b := bucket_of h m key in
  let '(c, o) := ah_core_rw h m b in
  match avl_core_remove c m o key out true with
  | None => None
  | Some (m, o, r) => Some (put_root h m b (ow_root o), set_free h (ow_free o) (ow_count o), r)
  end.

(** ** Queries *)

Definition avlhash_find (m : mem) (h : AvlHash) (key out : Z) : option (mem * Z) :=
  if key =? 0 then Some (m, 0) else
  let c := ah_core_ro h in
  match avl_core_find c m (load32 m (bucket_at h (bucket_of h m key))) key with
  | None => None
  | Some n => if n =? AVLHASH_NIL then Some (m, 0) else Some (copy_out c m n out, 1)
  end.

Definition avlhash_contains (m : mem) (h : AvlHash) (key : Z) : option bool :=
  if key =? 0 then Some false else
  match avl_core_find (ah_core_ro h) m (load32 m (bucket_at h (bucket_of h m key))) key with
  | None => None
  | Some n => Some (negb (n =? AVLHASH_NIL))
  end.

Definition avlhash_count (h : AvlHash) : Z := h_count h.
Definition avlhash_empty (h : AvlHash) : bool := h_count h =? 0.
Definition avlhash_full (h : AvlHash) : bool := h_capacity h <=? h_count h.

(** ** Iteration *)

Section foreach.
Context {A : Type} (visit : A -> list Z -> A).

(** The inner loop over one bucket, from cursor [it], for at most [fuel] nodes; the
    visitor sees a payload and carries its own state. *)
Fixpoint visit_bucket (fuel : nat) (m : mem) (h : AvlHash) (it : Z) (a : A) : option A :=
  if it =? AVLHASH_NIL then Some a else
  match fuel with
  | O => None
  | S fuel =>
      let a := visit a (mem_read m (avl_core_payload (ah_core_ro h) it) (h_element_size h)) in
      match avl_core_next (ah_core_ro h) m it with
      | None => None
      | Some it => visit_bucket fuel m h it a
      end
  end.

Fixpoint visit_buckets (n : nat) (m : mem) (h : AvlHash) (b : Z) (a : A) : option A :=
  match n with
  | O => Some a
  | S n =>
      match avl_core_min (ah_core_ro h) m (load32 m (bucket_at h b)) with
      | None => None
      | Some it =>
          match visit_bucket (Z.to_nat (h_capacity h)) m h it a with
          | None => None
          | Some a => visit_buckets n m h (b + 1) a
          end
      end
  end.

Definition avlhash_foreach (m : mem) (h : AvlHash) (a : A) : option A :=
  visit_buckets (Z.to_nat (h_n_buckets h)) m h 0 a.

End foreach.

(** ** State *)

Definition hash_bytes (h : AvlHash) : Z := h_capacity h * h_stride h.

(** The hash function respects the comparator: the contract of [avlhash_hash_fn]. *)
Definition hash_respects (h : AvlHash) : Prop :=
  forall a b, h_cmp h a b = 0 -> h_hash h a = h_hash h b.

(** One bucket: its tree, and where its payloads hash to. *)
Record bucket_ok (m : mem) (h : AvlHash) (b : nat) (T : tree) : Prop := {
  bk_whole : whole (cell_at (ah_core_ro h) m) (load32 m (bucket_at h (Z.of_nat b))) [] T;
  bk_balanced : balanced T;
  bk_asc : ascending (h_cmp h) (elems T);
  bk_hash : Forall (fun x => h_hash h x mod h_n_buckets h = Z.of_nat b) (elems T)
}.

(** The table's parameters. *)
Record hash_geom (h : AvlHash) : Prop := {
  hg_core : core_ok (ah_core_ro h);
  hg_cmp : CmpLaws (h_cmp h);
  hg_hash : hash_respects h;
  hg_cap : u32 (h_capacity h) = h_capacity h /\ 0 < h_capacity h;
  hg_n : 0 < h_n_buckets h;
  hg_apart : rdisj (h_buckets h) (4 * h_n_buckets h) (h_pool h) (hash_bytes h)
}.

(** The table holds the payloads [l], in the trees [Ts], with the nodes [fs] free. *)
Record hash_rep (m : mem) (h : AvlHash) (l : list (list Z)) (Ts : list tree) (fs : list Z) : Prop := {
  hr_geom : hash_geom h;
  hr_asc : ascending (h_cmp h) l;
  hr_count : h_count h = Z.of_nat (length l);
  hr_len : Z.of_nat (length Ts) = h_n_buckets h;
  hr_buckets : forall b T, Ts !! b = Some T -> bucket_ok m h b T;
  hr_nodes : nodes_ok (h_capacity h) (concat (map nodes Ts) ++ fs);
  hr_free : free_chain (ah_core_ro h) m (h_free_head h) fs;
  hr_elems : l ≡ₚ concat (map elems Ts)
}.

Definition hash_inv (m : mem) (h : AvlHash) (l : list (list Z)) : Prop := exists Ts fs, hash_rep m h l Ts fs.

(** ** One bucket among the others *)

Lemma concat_map_middle {B} (f : tree -> list B) L T R :
  concat (map f (L ++ T :: R)) ≡ₚ f T ++ concat (map f (L ++ R)).
Proof. rewrite !map_app, !concat_app. cbn. solve_Permutation. Qed.

Section table.
Context (h : AvlHash) (Hg : hash_geom h).

Lemma bucket_in_table b x : 0 <= b < h_n_buckets h -> rng (bucket_at h b) 4 x ->
  rng (h_buckets h) (4 * h_n_buckets h) x.
Proof. unfold rng, bucket_at. lia. Qed.

(** Roots and cells survive a change outside them. *)
Lemma root_frame m m' b : 0 <= b < h_n_buckets h ->
  mem_frame (h_pool h) (hash_bytes h) m m' -> load32 m' (bucket_at h b) = load32 m (bucket_at h b).
Proof.
  intros Hb Hf. eapply load32_frame; [exact Hf|]. pose proof (hg_apart h Hg). unfold rdisj, bucket_at in *. lia.
Qed.

Lemma cells_put_root m b root i : 0 <= b < h_n_buckets h -> in_pool (ah_core_ro h) i ->
  cell_at (ah_core_ro h) (put_root h m b root) i = cell_at (ah_core_ro h) m i.
Proof.
  intros Hb Hi. apply (cells_agree _ (hg_core h Hg)); [done|]. unfold put_root. case_match; [done|].
  intros x Hx. apply store32_frame. pose proof (hg_apart h Hg) as Ha. cbn in Hx.
  rewrite (proj1 (hg_cap h Hg)) in Hx. unfold rng, rdisj, bucket_at, hash_bytes in *. lia.
Qed.

Lemma put_root_at m b root b' : 0 <= b -> 0 <= b' -> is_u32 root ->
  load32 (put_root h m b root) (bucket_at h b') = if b' =? b then root else load32 m (bucket_at h b').
Proof.
  intros Hb Hb' Hr. unfold put_root. destruct (Z.eqb_spec root (load32 m (bucket_at h b))) as [->|Hne].
  - destruct (Z.eqb_spec b' b) as [->|]; done.
  - destruct (Z.eqb_spec b' b) as [->|].
    + rewrite load32_store32_eq. by apply u32_small.
    + apply load32_store32_disj. unfold rdisj, bucket_at. lia.
Qed.

Lemma put_root_frame m b root : 0 <= b < h_n_buckets h ->
  mem_agree (fun x => ~ rng (h_buckets h) (4 * h_n_buckets h) x) m (put_root h m b root).
Proof.
  intros Hb. unfold put_root. case_match; [done|]. intros x Hx. apply store32_frame. intros Hr.
  by apply Hx, (bucket_in_table b).
Qed.

End table.

Lemma set_free_geom h free_head count : hash_geom h -> hash_geom (set_free h free_head count).
Proof. intros [H1 H2 H3 H4 H5 H6]. by split. Qed.

Lemma tree_ok m h l Ts fs : hash_rep m h l Ts fs -> wfn (ah_core_ro h) (concat (map nodes Ts) ++ fs).
Proof.
  intros H. apply nodes_ok_wfn. cbn. rewrite (proj1 (hg_cap h (hr_geom _ _ _ _ _ H))).
  by apply (hr_nodes _ _ _ _ _ H).
Qed.

(** A bucket whose root word and nodes did not change. *)
Lemma bucket_kept m m' h b T :
  bucket_ok m h b T ->
  load32 m' (bucket_at h (Z.of_nat b)) = load32 m (bucket_at h (Z.of_nat b)) ->
  (forall i, i ∈ nodes T -> cell_at (ah_core_ro h) m' i = cell_at (ah_core_ro h) m i) ->
  bucket_ok m' h b T.
Proof.
  intros [[Hk Hr] H2 H3 H4] Hroot Hcells. split; try done. rewrite Hroot.
  split; [exact Hk|]. by eapply rep_ext; [|exact Hr].
Qed.

Lemma bucket_set_free m h free' count' b T : bucket_ok m h b T -> bucket_ok m (set_free h free' count') b T.
Proof. intros [H1 H2 H3 H4]. by split. Qed.

Lemma lookup_beside {B} (x : B) L x' R i y : (L ++ x' :: R) !! i = Some y -> i <> length L ->
  y ∈ L ++ R /\ (L ++ x :: R) !! i = Some y.
Proof.
  intros Hi Hne. rewrite elem_of_app. destruct (decide (i < length L)%nat).
  - rewrite lookup_app_l in Hi |- * by done. split; [left; by eapply list_elem_of_lookup_2|done].
  - rewrite lookup_app_r in Hi |- * by lia. destruct (i - length L)%nat eqn:E; [lia|]. cbn in *.
    split; [right; by eapply list_elem_of_lookup_2|done].
Qed.

(** Replacing the tree of one bucket. *)
Lemma bucket_update m m1 h l L T R fs root' T' fs' free' l' :
  hash_rep m h l (L ++ T :: R) fs ->
  let b := Z.of_nat (length L) in
  touches (ah_core_ro h) (nodes T ++ fs) m m1 ->
  whole (cell_at (ah_core_ro h) m1) root' [] T' -> balanced T' -> ascending (h_cmp h) (elems T') ->
  Forall (fun x => h_hash h x mod h_n_buckets h = b) (elems T') ->
  nodes T' ++ fs' ≡ₚ nodes T ++ fs -> free_chain (ah_core_ro h) m1 free' fs' ->
  ascending (h_cmp h) l' -> l' ≡ₚ elems T' ++ concat (map elems (L ++ R)) ->
  hash_rep (put_root h m1 b root') (set_free h free' (Z.of_nat (length l'))) l' (L ++ T' :: R) fs'.
Proof.
  intros H b Ht Hwh Hb Hasc Hhash Hn Hfr Hasc' Hl'. pose proof (hr_geom _ _ _ _ _ H) as Hg.
  pose proof (tree_ok _ _ _ _ _ H) as Hw. pose proof (hr_len _ _ _ _ _ H) as Hlen.
  rewrite length_app in Hlen. cbn in Hlen.
  rewrite concat_map_middle, <-app_assoc, (Permutation_app_comm _ fs), app_assoc in Hw.
  apply wfn_app in Hw as (Hwt & Hwo & Hd).
  assert (wfn (ah_core_ro h) (nodes T')) as Hwt'. { rewrite <-Hn in Hwt. by apply wfn_app in Hwt as [? _]. }
  assert (is_u32 root') as Hru.
  { destruct Hwh as [-> _]. by apply (troot_u32 _ (hg_core h Hg)), Hwt'. }
  assert (0 <= b < h_n_buckets h) as Hbr by (unfold b; lia).
  assert (forall i, in_pool (ah_core_ro h) i ->
    cell_at (ah_core_ro h) (put_root h m1 b root') i = cell_at (ah_core_ro h) m1 i) as Hcells.
  { intros i Hi. by apply cells_put_root. }
  split; try done.
  - by apply set_free_geom.
  - cbn. rewrite length_app. cbn. lia.
  - intros b' T0 Hb'. destruct (decide (b' = length L)) as [->|Hne].
    + rewrite list_lookup_middle in Hb' by done. injection Hb' as <-. split; try done. cbn.
      change (bucket_at (set_free h free' (Z.of_nat (length l'))) ?x) with (bucket_at h x). fold b.
      rewrite (put_root_at h) by (done || lia). rewrite Z.eqb_refl. destruct Hwh as [Hk Hr]. split; [done|].
      eapply rep_ext; [|exact Hr]. intros i Hi. apply Hcells. by eapply Forall_forall; [apply Hwt'|].
    + destruct (lookup_beside T L T' R b' T0 Hb' Hne) as [Hin Hb0].
      pose proof (lookup_lt_Some _ _ _ Hb0) as Hlt. rewrite length_app in Hlt. cbn in Hlt.
      apply bucket_set_free, (bucket_kept m); [by apply (hr_buckets _ _ _ _ _ H)|..].
      * rewrite (put_root_at h) by (done || lia). rewrite (proj2 (Z.eqb_neq _ _)) by (unfold b; lia).
        apply (root_frame h Hg); [lia|]. destruct Ht as [Hf _]. cbn in Hf.
        rewrite (proj1 (hg_cap h Hg)) in Hf. exact Hf.
      * intros i Hi.
        assert (i ∈ concat (map nodes (L ++ R))) as Hio.
        { apply list_elem_of_In, in_concat. exists (nodes T0). split; [|by apply list_elem_of_In].
          by apply in_map, list_elem_of_In. }
        rewrite Hcells by (by eapply Forall_forall; [apply Hwo|]). apply Ht. intros Hx. by apply (Hd i Hx).
  - eapply nodes_ok_proper; [|apply (hr_nodes _ _ _ _ _ H)]. rewrite !concat_map_middle.
    rewrite <-!app_assoc, !(Permutation_app_comm (concat _)), !app_assoc. by rewrite Hn.
  - change (free_chain (ah_core_ro h) (put_root h m1 b root') free' fs').
    eapply seg_ext; [|exact Hfr]. intros i Hi.
    assert (in_pool (ah_core_ro h) i) as Hip.
    { rewrite <-Hn in Hwt. apply wfn_app in Hwt as (_ & Hwf & _). by eapply Forall_forall; [apply Hwf|]. }
    pose proof (Hcells i Hip) as E. unfold cell_at in E. by injection E.
  - by rewrite concat_map_middle.
Qed.

(** ** The bucket of a key *)

Lemma bucket_split m h l Ts fs x : hash_rep m h l Ts fs ->
  exists L T R, Ts = L ++ T :: R /\ h_hash h x mod h_n_buckets h = Z.of_nat (length L).
Proof.
  intros H. pose proof (hg_n h (hr_geom _ _ _ _ _ H)) as Hn. pose proof (hr_len _ _ _ _ _ H) as Hl.
  pose proof (Z.mod_pos_bound (h_hash h x) (h_n_buckets h) Hn) as Hb.
  destruct (lookup_lt_is_Some_2 Ts (Z.to_nat (h_hash h x mod h_n_buckets h))) as [T HT]; [lia|].
  apply list_elem_of_split_length in HT as (L & R & -> & HL). exists L, T, R. split; [done|]. lia.
Qed.

(** A payload that compares equal to the key can only be in the key's bucket. *)
Lemma find_in_bucket m h l L T R fs x :
  hash_rep m h l (L ++ T :: R) fs -> h_hash h x mod h_n_buckets h = Z.of_nat (length L) ->
  ol_find (h_cmp h) x l = ol_find (h_cmp h) x (elems T).
Proof.
  intros H Hx. pose proof (hr_geom _ _ _ _ _ H) as Hg. pose proof (hg_cmp h Hg) as Hc.
  destruct (hr_buckets _ _ _ _ _ H (length L) T (list_lookup_middle _ _ _ _ eq_refl)) as [_ _ Ha _].
  apply (ol_find_unique (h_cmp h)); [apply (hr_asc _ _ _ _ _ H)|done|]. intros y Hy.
  rewrite (hr_elems _ _ _ _ _ H), concat_map_middle, elem_of_app. split; [|by left].
  intros [Hin|Hin]; [done|]. exfalso.
  apply list_elem_of_In, in_concat in Hin as (ys & Hys & Hyi). apply in_map_iff in Hys as (T0 & <- & HT0).
  assert (exists i, (L ++ T :: R) !! i = Some T0 /\ i <> length L) as (i & Hi & Hne).
  { apply list_elem_of_In, elem_of_app in HT0 as [[i Hi]%list_elem_of_lookup|[i Hi]%list_elem_of_lookup].
    - exists i. pose proof (lookup_lt_Some _ _ _ Hi). rewrite lookup_app_l by done. split; [done|lia].
    - exists (S (length L + i)). rewrite lookup_app_r by lia.
      replace (S (length L + i) - length L)%nat with (S i) by lia. split; [done|lia]. }
  destruct (hr_buckets _ _ _ _ _ H i T0 Hi) as [_ _ _ Hh]. rewrite Forall_forall in Hh.
  apply list_elem_of_In in Hyi. specialize (Hh y Hyi). rewrite <-(hg_hash h Hg x y Hy), Hx in Hh. lia.
Qed.

(** The one bucket of a call, as the engine's laws want it. *)
Lemma bucket_view m h l L T R fs : hash_rep m h l (L ++ T :: R) fs ->
  let c := ah_core_ro h in
  core_ok c /\ CmpLaws (ac_cmp c) /\ wfn c (nodes T ++ fs) /\
  bucket_ok m h (length L) T /\ free_chain c m (h_free_head h) fs.
Proof.
  intros H c. pose proof (hr_geom _ _ _ _ _ H) as Hg.
  split; [apply (hg_core h Hg)|]. split; [apply (hg_cmp h Hg)|]. split.
  - pose proof (tree_ok _ _ _ _ _ H) as Hw. rewrite concat_map_middle, <-app_assoc in Hw.
    rewrite (Permutation_app_comm _ fs), app_assoc in Hw. by apply wfn_app in Hw as [? _].
  - split; [|apply (hr_free _ _ _ _ _ H)].
    by apply (hr_buckets _ _ _ _ _ H), list_lookup_middle.
Qed.

(** How many payloads fit. *)
Lemma hash_room m h l L T R fs : hash_rep m h l (L ++ T :: R) fs ->
  Z.of_nat (length l) <= h_capacity h /\ (fs <> [] <-> Z.of_nat (length l) < h_capacity h).
Proof.
  intros H. pose proof (hg_cap h (hr_geom _ _ _ _ _ H)) as [_ Hc].
  pose proof (nodes_length _ _ (Z.lt_le_incl _ _ Hc) (hr_nodes _ _ _ _ _ H)) as Hn. rewrite length_app in Hn.
  assert (length l = length (concat (map nodes (L ++ T :: R)))) as ->.
  { rewrite (hr_elems _ _ _ _ _ H). generalize (L ++ T :: R). intros Ts.
    induction Ts as [|T0 Ts IH]; cbn; [done|]. rewrite !length_app, IH. unfold elems, nodes.
    by rewrite !length_fmap. }
  destruct fs; cbn in Hn; split; [lia|split; [done|lia]|lia|split; [lia|done]].
Qed.

Lemma hash_cap_u32 h : hash_geom h -> 0 <= h_capacity h < 0xFFFFFFFF.
Proof.
  intros Hg. pose proof (core_pool_ok _ (hg_core h Hg)) as [_ Hcap _ _]. cbn in Hcap.
  by rewrite (proj1 (hg_cap h Hg)) in Hcap.
Qed.

(** Equality of tables up to the words that calls change. *)
Definition hash_same (h h' : AvlHash) : Prop := exists f n, h' = set_free h f n.

Definition hash_private (h : AvlHash) (x : Z) : Prop :=
  rng (h_pool h) (hash_bytes h) x \/ rng (h_buckets h) (4 * h_n_buckets h) x.

Lemma hash_public_frame h m m1 m2 b root : hash_geom h -> 0 <= b < h_n_buckets h ->
  mem_agree (fun x => ~ hash_private h x) m m1 -> m2 = put_root h m1 b root ->
  mem_agree (fun x => ~ hash_private h x) m m2.
Proof.
  intros Hg Hb Ha ->. transitivity m1; [done|]. eapply mem_agree_mono; [|by apply (put_root_frame h)].
  unfold hash_private. tauto.
Qed.

Lemma pool_frame_public h m m1 : hash_geom h ->
  mem_frame (ac_pool (ah_core_ro h)) (ac_capacity (ah_core_ro h) * ac_stride (ah_core_ro h)) m m1 ->
  mem_agree (fun x => ~ hash_private h x) m m1.
Proof.
  intros Hg Hf. cbn in Hf. rewrite (proj1 (hg_cap h Hg)) in Hf. eapply mem_agree_mono; [|exact Hf].
  unfold hash_private. fold (hash_bytes h). tauto.
Qed.

Lemma avlhash_insert_law m h l elem : hash_inv m h l ->
  exists m' h' r, avlhash_insert m h elem = Some (m', h', r) /\ hash_same h h' /\
    let x := mem_read m elem (h_element_size h) in
    if (elem =? 0) || bool_decide (ol_find (h_cmp h) x l <> None) || (h_capacity h <=? Z.of_nat (length l))
    then r = 0 /\ m' = m /\ h' = h
    else r = 1 /\ hash_inv m' h' (ol_insert (h_cmp h) x l) /\ mem_agree (fun x => ~ hash_private h x) m m'.
Proof.
  intros (Ts & fs & H). unfold avlhash_insert.
  assert (hash_same h h) as Hrefl by (exists (h_free_head h), (h_count h); by destruct h).
  destruct (elem =? 0); cbn [orb]; [by exists m, h, 0|].
  cbn [ah_core_rw]. set (x := mem_read m elem (h_element_size h)). cbv zeta.
  destruct (bucket_split m h l Ts fs x H) as (L & T & R & -> & Hb).
  pose proof (hr_geom _ _ _ _ _ H) as Hg. pose proof (hg_cmp h Hg) as Hlaws.
  assert (0 <= Z.of_nat (length L) < h_n_buckets h) as Hbr.
  { rewrite <-Hb. apply Z.mod_pos_bound, (hg_n h Hg). }
  unfold bucket_of. fold x. rewrite Hb.
  destruct (bucket_view _ _ _ _ _ _ _ H) as (Hc & Hcl & Hw & [Hwh Hbal Hasc Hhash] & Hfr).
  destruct (hash_room _ _ _ _ _ _ _ H) as [Hle Hroom]. pose proof (hash_cap_u32 h Hg) as Hcap.
  destruct (insert_spec _ Hc m (mkOwner (load32 m (bucket_at h (Z.of_nat (length L)))) (h_free_head h) (h_count h))
    elem true T fs Hwh Hw Hfr Hasc (fun _ => Hbal)) as (m' & o' & r & -> & Hr).
  change (object (ah_core_ro h) m elem) with x in Hr. change (ac_cmp (ah_core_ro h)) with (h_cmp h) in Hr.
  rewrite <-(find_in_bucket _ _ _ _ _ _ _ x H Hb) in Hr.
  eexists _, _, r. split; [done|]. split; [by eexists _, _|].
  assert (r = 0 /\ m' = m /\ o' = mkOwner (load32 m (bucket_at h (Z.of_nat (length L)))) (h_free_head h) (h_count h) ->
    r = 0 /\ put_root h m' (Z.of_nat (length L)) (ow_root o') = m /\ set_free h (ow_free o') (ow_count o') = h)
    as Hsame.
  { intros (-> & -> & ->). split; [done|]. unfold put_root. cbn. rewrite Z.eqb_refl. by destruct h. }
  destruct (ol_find (h_cmp h) x l) as [y|] eqn:Ef.
  { rewrite bool_decide_true by done. cbn [orb]. rewrite bool_decide_false in Hr by (by intros [? _]). auto. }
  rewrite (bool_decide_false (None <> None)) by (intros Hx; by apply Hx). cbn [orb].
  destruct (Z.leb_spec (h_capacity h) (Z.of_nat (length l))) as [Hfull|Hfree].
  { rewrite bool_decide_false in Hr by (intros [_ Hx]; apply Hroom in Hx; lia). auto. }
  rewrite bool_decide_true in Hr by (split; [done|by apply Hroom]).
  destruct Hr as (-> & n & fs' & T' & -> & Hc' & Hwh' & Hb' & He' & Hn' & Hfr' & Ht').
  change (ac_cmp (ah_core_ro h)) with (h_cmp h) in He'. cbn [ow_count] in Hc'.
  pose proof (ol_insert_perm (h_cmp h) x l) as Hp. pose proof (ol_insert_perm (h_cmp h) x (elems T)) as Hp'.
  split; [done|]. split.
  2:{ eapply (hash_public_frame h); [done|exact Hbr| |done]. by apply pool_frame_public; [|apply Ht']. }
  exists (L ++ T' :: R), fs'.
  assert (ow_count o' = Z.of_nat (length (ol_insert (h_cmp h) x l))) as ->.
  { rewrite Hc', (hr_count _ _ _ _ _ H), Hp. cbn [length]. rewrite u64_small by (umach; lia). lia. }
  apply (bucket_update m m' h l L T R (n :: fs')); try done.
  - eapply touches_mono; [|exact Ht']. intros i. rewrite elem_of_cons, elem_of_app, elem_of_cons. tauto.
  - by apply Hb'.
  - rewrite He'. apply ol_insert_ascending; [done|done|]. by rewrite <-(find_in_bucket _ _ _ _ _ _ _ x H Hb).
  - rewrite He', Hp'. by constructor.
  - rewrite Hn'. solve_Permutation.
  - apply ol_insert_ascending; [done|apply (hr_asc _ _ _ _ _ H)|done].
  - rewrite Hp, He', Hp', (hr_elems _ _ _ _ _ H), concat_map_middle. done.
Qed.

Lemma hash_agree m m' h l Ts fs : hash_rep m h l Ts fs -> mem_agree (hash_private h) m m' ->
  hash_rep m' h l Ts fs.
Proof.
  intros H Ha. pose proof (hr_geom _ _ _ _ _ H) as Hg.
  assert (mem_agree (rng (ac_pool (ah_core_ro h)) (ac_capacity (ah_core_ro h) * ac_stride (ah_core_ro h))) m m')
    as Hpool.
  { eapply mem_agree_mono; [|exact Ha]. intros x Hx. left. cbn in Hx. by rewrite (proj1 (hg_cap h Hg)) in Hx. }
  pose proof (tree_ok _ _ _ _ _ H) as (Hwt & Hwf & _)%wfn_app.
  split; [done|apply H..| |apply H|by eapply (free_chain_agree _ (hg_core h Hg) m); [apply Hwf| |apply H]|apply H].
  intros b T Hb. apply (bucket_kept m); [by apply (hr_buckets _ _ _ _ _ H)|..].
  - symmetry. apply load32_agree. eapply mem_agree_mono; [|exact Ha]. intros x Hx. right.
    pose proof (lookup_lt_Some _ _ _ Hb). pose proof (hr_len _ _ _ _ _ H).
    eapply bucket_in_table; [|exact Hx]. lia.
  - intros i Hi. apply (cells_agree _ (hg_core _ Hg)); [|exact Hpool].
    eapply Forall_forall; [apply Hwt|]. apply list_elem_of_In, in_concat.
    exists (nodes T). split; [|by apply list_elem_of_In].
    by apply in_map, list_elem_of_In; eapply list_elem_of_lookup_2.
Qed.

Definition hash_buffer (h : AvlHash) (b : Z) : Prop :=
  forall x, rng b (h_element_size h) x -> ~ hash_private h x.

Lemma avlhash_remove_law m h l key out : hash_inv m h l -> (out <> 0 -> hash_buffer h out) ->
  exists m' h' r, avlhash_remove m h key out = Some (m', h', r) /\ hash_same h h' /\
    let kb := mem_read m key (h_element_size h) in
    match (if key =? 0 then None else ol_find (h_cmp h) kb l) with
    | None => r = 0 /\ m' = m /\ h' = h
    | Some x => r = 1 /\ hash_inv m' h' (ol_remove (h_cmp h) kb l) /\
                mem_agree (fun x => ~ hash_private h x) (deliver m out x) m'
    end.
Proof.
  intros (Ts & fs & H) Hout. unfold avlhash_remove.
  assert (hash_same h h) as Hrefl by (exists (h_free_head h), (h_count h); by destruct h).
  destruct (key =? 0); [by exists m, h, 0|].
  cbn [ah_core_rw]. set (kb := mem_read m key (h_element_size h)). cbv zeta.
  destruct (bucket_split m h l Ts fs kb H) as (L & T & R & -> & Hb).
  pose proof (hr_geom _ _ _ _ _ H) as Hg. pose proof (hg_cmp h Hg) as Hlaws.
  assert (0 <= Z.of_nat (length L) < h_n_buckets h) as Hbr.
  { rewrite <-Hb. apply Z.mod_pos_bound, (hg_n h Hg). }
  unfold bucket_of. fold kb. rewrite Hb.
  destruct (bucket_view _ _ _ _ _ _ _ H) as (Hc & Hcl & Hw & [Hwh Hbal Hasc Hhash] & Hfr).
  destruct (hash_room _ _ _ _ _ _ _ H) as [Hle _]. pose proof (hash_cap_u32 h Hg) as Hcap.
  pose proof (esz_stride _ Hc) as [He Hs]. cbn in He, Hs.
  assert (out <> 0 -> rdisj out (ac_element_size (ah_core_ro h)) (ac_pool (ah_core_ro h))
    (ac_capacity (ah_core_ro h) * ac_stride (ah_core_ro h))) as Hod.
  { intros Hne. cbn. rewrite (proj1 (hg_cap h Hg)). pose proof (proj2 (hg_cap h Hg)) as Hc0.
    apply rng_disj; [nia|done|]. intros x Hx Hp. apply (Hout Hne x Hx). by left. }
  destruct (remove_spec _ Hc m (mkOwner (load32 m (bucket_at h (Z.of_nat (length L)))) (h_free_head h) (h_count h))
    key out true T fs Hwh Hw Hfr Hasc (fun _ => Hbal) Hod) as (m' & o' & r & -> & Hr).
  change (object (ah_core_ro h) m key) with kb in Hr. change (ac_cmp (ah_core_ro h)) with (h_cmp h) in Hr.
  rewrite <-(find_in_bucket _ _ _ _ _ _ _ kb H Hb) in Hr.
  eexists _, _, r. split; [done|]. split; [by eexists _, _|].
  destruct (ol_find (h_cmp h) kb l) as [x|] eqn:Ef.
  2:{ destruct Hr as (-> & -> & ->). split; [done|]. unfold put_root. cbn. rewrite Z.eqb_refl. by destruct h. }
  destruct Hr as (-> & n & T' & Hc' & Hwh' & Hb' & He' & Hn' & Hfr' & Ht').
  change (ac_cmp (ah_core_ro h)) with (h_cmp h) in He'. cbn [ow_count] in Hc'.
  pose proof (ol_remove_perm (h_cmp h) kb l x Ef) as Hp.
  pose proof Ef as Ef'. rewrite (find_in_bucket _ _ _ _ _ _ _ kb H Hb) in Ef'.
  pose proof (ol_remove_perm (h_cmp h) kb (elems T) x Ef') as Hp'.
  split; [done|]. split.
  2:{ eapply (hash_public_frame h); [done|exact Hbr| |done]. by apply pool_frame_public; [|apply Ht']. }
  assert (hash_rep (deliver m out x) h l (L ++ T :: R) fs) as H0.
  { apply (hash_agree m); [done|]. apply (ol_find_mem (h_cmp h)) in Ef' as [Hin _]; [|done].
    destruct Hwh as [_ Hr]. pose proof (elems_block _ Hc m T _ Hr) as Hlen. rewrite Forall_forall in Hlen.
    specialize (Hlen x Hin). cbn in Hlen.
    unfold deliver. destruct (Z.eqb_spec out 0) as [|Hne]; [done|]. intros y Hy. symmetry.
    apply mem_write_out. rewrite Hlen. intros Hrg. by apply (Hout Hne y Hrg). }
  exists (L ++ T' :: R), (n :: fs).
  assert (ow_count o' = Z.of_nat (length (ol_remove (h_cmp h) kb l))) as ->.
  { pose proof (ol_remove_length (h_cmp h) kb l x Ef) as Hlen.
    rewrite Hc', (hr_count _ _ _ _ _ H), u64_small by (umach; lia). lia. }
  apply (bucket_update (deliver m out x) m' h l L T R fs); try done.
  - eapply touches_mono; [|exact Ht']. intros i. rewrite elem_of_app. tauto.
  - by apply Hb'.
  - rewrite He'. by apply (ol_remove_ascending _ _ _ x).
  - rewrite He'. rewrite Hp' in Hhash. by apply Forall_cons in Hhash as [_ ?].
  - rewrite Hn'. solve_Permutation.
  - apply (ol_remove_ascending _ _ _ x); [apply (hr_asc _ _ _ _ _ H)|done].
  - apply (Permutation_cons_inv (a := x)). rewrite <-Hp, He', app_comm_cons, <-Hp'.
    by rewrite (hr_elems _ _ _ _ _ H), concat_map_middle.
Qed.

Lemma hash_find_core m h l key : hash_inv m h l ->
  exists n, avl_core_find (ah_core_ro h) m (load32 m (bucket_at h (bucket_of h m key))) key = Some n /\
    match ol_find (h_cmp h) (mem_read m key (h_element_size h)) l with
    | None => n = AVLHASH_NIL
    | Some x => n <> AVLHASH_NIL /\ mem_read m (avl_core_payload (ah_core_ro h) n) (h_element_size h) = x
    end.
Proof.
  intros (Ts & fs & H). destruct (bucket_split m h l Ts fs (mem_read m key (h_element_size h)) H) as (L & T & R & -> & Hb).
  unfold bucket_of. rewrite Hb, (find_in_bucket _ _ _ _ _ _ _ _ H Hb).
  destruct (bucket_view _ _ _ _ _ _ _ H) as (Hc & Hcl & (Hw & _)%wfn_app & [Hwh _ Hasc _] & _).
  exact (find_elem _ Hc m _ key T Hwh Hw Hasc).
Qed.

Lemma avlhash_find_law m h l key out : hash_inv m h l ->
  avlhash_find m h key out = Some
    match (if key =? 0 then None else ol_find (h_cmp h) (mem_read m key (h_element_size h)) l) with
    | None => (m, 0)
    | Some x => (deliver m out x, 1)
    end.
Proof.
  intros H. unfold avlhash_find. destruct (key =? 0); [done|].
  destruct (hash_find_core m h l key H) as (n & -> & Hn).
  destruct (ol_find _ _ l) as [x|]; [|by rewrite Hn].
  destruct Hn as [Hn Hx]. rewrite (proj2 (Z.eqb_neq _ _) Hn). unfold copy_out, deliver, memcpy.
  cbn [ac_element_size ah_core_ro]. by rewrite Hx.
Qed.

Lemma avlhash_contains_law m h l key : hash_inv m h l ->
  avlhash_contains m h key = Some
    (negb (key =? 0) && bool_decide (ol_find (h_cmp h) (mem_read m key (h_element_size h)) l <> None)).
Proof.
  intros H. unfold avlhash_contains. destruct (key =? 0); [done|].
  destruct (hash_find_core m h l key H) as (n & -> & Hn).
  destruct (ol_find _ _ l) as [x|].
  - destruct Hn as [Hn _]. rewrite (proj2 (Z.eqb_neq _ _) Hn). by rewrite bool_decide_true.
  - rewrite Hn. by rewrite bool_decide_false by (intros Hx; by apply Hx).
Qed.

(** ** Clearing *)

Lemma clear_buckets_spec n : forall m buckets i,
  let m' := clear_buckets n m buckets i in
  (forall j, i <= j < i + Z.of_nat n -> load32 m' (buckets + 4 * j) = AVLHASH_NIL) /\
  mem_agree (fun x => ~ rng (buckets + 4 * i) (4 * Z.of_nat n) x) m m'.
Proof.
  induction n as [|n IH]; intros m buckets i; cbn [clear_buckets]; [by split; [lia|]|].
  set (m1 := store32 m (buckets + 4 * i) AVLHASH_NIL).
  destruct (IH m1 buckets (i + 1)) as [Hnew Hold].
  split.
  - intros j Hj. destruct (decide (j = i)) as [->|]; [|apply Hnew; lia].
    transitivity (load32 m1 (buckets + 4 * i)).
    + symmetry. apply load32_agree. eapply mem_agree_mono; [|exact Hold]. unfold rng. lia.
    + unfold m1. by rewrite load32_store32_eq.
  - transitivity m1.
    + eapply mem_agree_mono; [|apply store32_frame]. unfold rng. lia.
    + eapply mem_agree_mono; [|exact Hold]. unfold rng. lia.
Qed.

Lemma avlhash_clear_law m h : hash_geom h ->
  let '(m', h') := avlhash_clear m h in
  hash_inv m' h' [] /\ hash_same h h' /\ mem_agree (fun x => ~ hash_private h x) m m'.
Proof.
  intros Hg. unfold avlhash_clear. pose proof (hg_n h Hg) as Hn. pose proof (hg_cap h Hg) as [Hu Hpos].
  destruct (clear_buckets_spec (Z.to_nat (h_n_buckets h)) m (h_buckets h) 0) as [Hnil Hold].
  rewrite Z2Nat.id in Hnil, Hold by lia. set (m1 := clear_buckets _ _ _ _) in *.
  pose proof (build_freelist_spec _ (hg_core h Hg) m1) as Hs.
  cbn [ac_pool ac_stride ac_capacity ah_core_ro] in Hs.
  destruct (avl_core_build_freelist _ _ _ _) as [m' f]. destruct Hs as (fs & Hnd & Hfr & Hf).
  rewrite Hu in Hnd, Hf. fold (hash_bytes h) in Hf. split; [|split; [by eexists _, _|]].
  - exists (replicate (Z.to_nat (h_n_buckets h)) Leaf), fs.
    assert (forall B (g : tree -> list B) n, g Leaf = [] -> concat (map g (replicate n Leaf)) = []) as Hrep.
    { intros B g n Hg0. induction n as [|n IH]; cbn; [done|]. by rewrite Hg0, IH. }
    split.
    + by apply set_free_geom.
    + constructor.
    + done.
    + rewrite length_replicate. cbn. lia.
    + intros b T [-> Hb]%lookup_replicate_1. apply bucket_set_free. split; [split; [|done]|done|constructor|constructor].
      cbn. rewrite (root_frame h Hg m1) by (lia || done). apply Hnil. lia.
    + rewrite Hrep by done. exact Hnd.
    + exact Hfr.
    + by rewrite Hrep.
  - transitivity m1.
    + eapply mem_agree_mono; [|exact Hold]. unfold hash_private, rng. lia.
    + eapply mem_agree_mono; [|exact Hf]. unfold hash_private. tauto.
Qed.

(** ** The set interface *)

#[export] Instance hash_set : KeySet AvlHash := {
  ks_insert := avlhash_insert;
  ks_remove := avlhash_remove;
  ks_find := avlhash_find;
  ks_contains := avlhash_contains;
  ks_clear := avlhash_clear;
  ks_count := avlhash_count;
  ks_empty := avlhash_empty;
  ks_full := avlhash_full;
  ks_cmp := h_cmp;
  ks_cap := h_capacity;
  ks_esz := h_element_size;
  ks_private := hash_private;
  ks_inv := hash_inv
}.

Lemma hash_same_set (h h' : AvlHash) : hash_same h h' -> ks_same h h'.
Proof. by intros (f & n & ->). Qed.

#[export] Instance hash_set_laws : KeySetLaws (Q := AvlHash).
Proof.
  split; cbn [ks_inv ks_insert ks_remove ks_find ks_contains ks_clear ks_count ks_empty ks_full ks_cmp ks_cap
    ks_esz ks_private hash_set].
  - intros m h l elem H. destruct (avlhash_insert_law m h l elem H) as (m' & h' & r & E & Hs & Hr).
    exists m', h', r. split; [done|]. split; [by apply hash_same_set|exact Hr].
  - intros m h l key out H Hout.
    destruct (avlhash_remove_law m h l key out H Hout) as (m' & h' & r & E & Hs & Hr).
    exists m', h', r. split; [done|]. split; [by apply hash_same_set|exact Hr].
  - intros m h l key out H. by apply avlhash_find_law.
  - intros m h l key H. by apply avlhash_contains_law.
  - intros m h l (Ts & fs & H). pose proof (avlhash_clear_law m h (hr_geom _ _ _ _ _ H)) as Hc.
    destruct (avlhash_clear m h) as [m' h']. destruct Hc as (H1 & H2 & H3). split; [done|].
    split; [by apply hash_same_set|done].
  - intros m h l (Ts & fs & H). unfold avlhash_count, avlhash_empty, avlhash_full.
    by rewrite (hr_count _ _ _ _ _ H).
  - intros m h l (Ts & fs & H). pose proof (hg_core h (hr_geom _ _ _ _ _ H)) as Hc.
    pose proof (esz_stride _ Hc) as [He _]. cbn in He. split; [lia|].
    rewrite (hr_elems _ _ _ _ _ H). apply Forall_concat, Forall_map, Forall_forall. intros T [b Hb]%list_elem_of_lookup.
    destruct (hr_buckets _ _ _ _ _ H b T Hb) as [[_ Hr] _ _ _]. exact (elems_block _ Hc m T _ Hr).
  - intros m m' h l (Ts & fs & H) Ha. exists Ts, fs. by apply (hash_agree m).
Qed.

(** ** Initialisation *)

Lemma avlhash_init_law m h0 buckets n hash cmp pool pool_bytes esz :
  CmpLaws cmp -> (forall a b, cmp a b = 0 -> hash a = hash b) -> 0 < buckets -> 0 < n -> 0 < pool ->
  0 < esz < 0xFFFFFFFF -> 16 + esz <= pool_bytes -> pool_bytes / (16 + esz) < 0xFFFFFFFF ->
  rdisj buckets (4 * n) pool pool_bytes ->
  let '(m', h, ok) := avlhash_init m h0 buckets n hash cmp pool pool_bytes esz in
  ok = true /\ hash_inv m' h [] /\ h_cmp h = cmp /\ h_capacity h = pool_bytes / (16 + esz) /\
  h_element_size h = esz /\
  (forall x, hash_private h x -> rng pool pool_bytes x \/ rng buckets (4 * n) x) /\
  mem_agree (fun x => ~ hash_private h x) m m'.
Proof.
  intros Hl Hh Hb Hn Hp He Hpb Hc Hd. unfold avlhash_init, AVLHASH_NODE_OVERHEAD, AVLHASH_NIL.
  rewrite (proj2 (Z.eqb_neq buckets 0)), (proj2 (Z.eqb_neq n 0)), (proj2 (Z.eqb_neq pool 0)),
    (proj2 (Z.eqb_neq esz 0)) by lia. cbn [orb]. rewrite u64_small by (umach; lia).
  assert (1 <= pool_bytes / (16 + esz)) by (apply Z.div_le_lower_bound; lia).
  assert (pool_bytes / (16 + esz) * (16 + esz) <= pool_bytes) by (rewrite Z.mul_comm; apply Z.mul_div_le; lia).
  rewrite (proj2 (Z.eqb_neq _ 0)), (proj2 (Z.leb_gt _ _)) by lia. cbn [orb].
  set (h1 := mkAvlHash buckets n pool _ esz _ _ _ hash cmp).
  assert (u32 (h_capacity h1) = h_capacity h1) as Hu by (apply u32_small; cbn; umach; lia).
  assert (hash_geom h1) as Hg.
  { split; try done; cbn.
    - split; [|done]. split; cbn [po_base po_cap po_links po_esz pool_of ah_core_ro ac_pool ac_capacity
        ac_element_size]; rewrite ?Hu; cbn; unfold NODE_NIL, AVL_CORE_NODE_OVERHEAD; lia.
    - split; [done|]. cbn. lia.
    - unfold hash_bytes, rdisj in *. cbn. lia. }
  pose proof (avlhash_clear_law m h1 Hg) as Hcl. destruct (avlhash_clear m h1) as [m' h].
  destruct Hcl as (Hi & (f & k & ->) & Ha). split_and!; try done.
  intros x [Hx|Hx]; [left|by right]. unfold rng, hash_bytes in *. cbn in Hx. lia.
Qed.

(** ** Properties *)

(** C37. The AVL hash table is a set.  Whatever hash function respects the comparator
    (equal keys hash equally), the table initialised over a bucket array and a
    disjoint node pool answers every client script exactly as the ordered list of
    payloads does, and so exactly as the tree does: collisions and the choice of
    bucket count are invisible to insertion, removal, lookup, membership, count and
    fullness. *)
Theorem avlhash_refines m h0 buckets n hash cmp pool pool_bytes esz cs :
  CmpLaws cmp -> (forall a b, cmp a b = 0 -> hash a = hash b) -> 0 < buckets -> 0 < n -> 0 < pool ->
  0 < esz < 0xFFFFFFFF -> 16 + esz <= pool_bytes -> pool_bytes / (16 + esz) < 0xFFFFFFFF ->
  rdisj buckets (4 * n) pool pool_bytes ->
  Forall (set_cmd_outside (fun x => rng pool pool_bytes x \/ rng buckets (4 * n) x) esz) cs ->
  let '(m', h, ok) := avlhash_init m h0 buckets n hash cmp pool pool_bytes esz in
  ok = true /\ set_run m' h cs = Some (set_spec_run cmp (pool_bytes / (16 + esz)) esz m [] cs).
Proof.
  intros Hl Hh Hb Hn Hp He Hpb Hc Hd Hcs.
  pose proof (avlhash_init_law m h0 buckets n hash cmp pool pool_bytes esz Hl Hh Hb Hn Hp He Hpb Hc Hd) as H.
  destruct (avlhash_init m h0 buckets n hash cmp pool pool_bytes esz) as [[m' h] ok].
  destruct H as (-> & Hi & Hcmp & Hcap & Hes & Hpr & Ha). split; [done|].
  rewrite <-Hcmp, <-Hcap, <-Hes. refine (set_refines (Q := AvlHash) cs h m' [] m _ _).
  - split; [done|]. by symmetry.
  - eapply Forall_impl; [exact Hcs|]. intros c. cbn [ks_private ks_esz hash_set]. rewrite Hes.
    by apply set_cmd_outside_mono.
Qed.

(** Visiting one bucket sees its payloads in order. *)
Lemma visit_bucket_spec {A} (visit : A -> list Z -> A) m h root T : hash_geom h ->
  whole (cell_at (ah_core_ro h) m) root [] T -> wfn (ah_core_ro h) (nodes T) ->
  forall l2 l1 fuel a, inorder T = l1 ++ l2 -> (length l2 <= fuel)%nat ->
  visit_bucket visit fuel m h (hd AVLHASH_NIL l2.*1) a = Some (fold_left visit l2.*2 a).
Proof.
  intros Hg Hwh Hw. pose proof (hg_core h Hg) as Hc.
  induction l2 as [|[i x] l2 IH]; intros l1 fuel a E Hf; [by destruct fuel|].
  destruct fuel as [|fuel]; [cbn in Hf; lia|]. cbn [hd fmap list_fmap fst snd visit_bucket fold_left].
  assert (nodes T = l1.*1 ++ i :: l2.*1) as En by (unfold nodes; by rewrite E, fmap_app).
  assert (in_pool (ah_core_ro h) i) as Hi.
  { eapply Forall_forall; [apply Hw|]. rewrite En. apply elem_of_app. right. by left. }
  rewrite (proj2 (Z.eqb_neq i AVLHASH_NIL)) by (by eapply in_pool_u32).
  destruct (next_prev_spec _ Hc m root T _ i _ Hwh Hw En) as [-> _].
  assert (mem_read m (avl_core_payload (ah_core_ro h) i) (h_element_size h) = x) as ->.
  { destruct Hwh as [_ Hr]. apply (rep_payload (ah_core_ro h) m T AVL_CORE_NIL (length l1) i x Hr).
    rewrite E. by apply list_lookup_middle. }
  apply (IH (l1 ++ [(i, x)])); [by rewrite <-app_assoc|cbn in Hf; lia].
Qed.

(** Iteration visits every element once: [avlhash_foreach] hands the visitor the
    payloads of a permutation of the table's contents, bucket by bucket and in the
    comparator's order within a bucket, and ends. *)
Theorem avlhash_foreach_visits {A} (visit : A -> list Z -> A) m h l a :
  hash_inv m h l ->
  exists ls, avlhash_foreach visit m h a = Some (fold_left visit (concat ls) a) /\
    l ≡ₚ concat ls /\ Z.of_nat (length ls) = h_n_buckets h /\
    forall b xs, ls !! b = Some xs ->
      ascending (h_cmp h) xs /\ Forall (fun x => h_hash h x mod h_n_buckets h = Z.of_nat b) xs.
Proof.
  intros (Ts & fs & H). pose proof (hr_geom _ _ _ _ _ H) as Hg. exists (map elems Ts).
  split_and!; [|apply (hr_elems _ _ _ _ _ H)|rewrite length_map; apply (hr_len _ _ _ _ _ H)|].
  2:{ intros b xs Hb. apply list_lookup_fmap_Some in Hb as (T & -> & Hb).
      by destruct (hr_buckets _ _ _ _ _ H b T Hb). }
  unfold avlhash_foreach. pose proof (hr_len _ _ _ _ _ H) as Hlen. rewrite <-Hlen, Nat2Z.id.
  enough (forall R L a, Ts = L ++ R ->
    visit_buckets visit (length R) m h (Z.of_nat (length L)) a = Some (fold_left visit (concat (map elems R)) a))
    as Hgo by (by apply (Hgo Ts [])).
  induction R as [|T R IH]; intros L a0 E; [done|]. cbn [length visit_buckets]. rewrite E in H.
  destruct (bucket_view _ _ _ _ _ _ _ H) as (Hc & _ & (Hw & _)%wfn_app & [Hwh _ _ _] & _).
  pose proof Hwh as [Hroot Hr]. cbn in Hroot, Hr. unfold avl_core_min. rewrite Hroot.
  rewrite (min_spec _ Hc m _ T Hr Hw). pose proof (nodes_fit _ Hc T Hw) as Hfit.
  cbn [ac_capacity ah_core_ro] in Hfit. rewrite (proj1 (hg_cap h Hg)) in Hfit.
  change AVL_CORE_NIL with AVLHASH_NIL.
  unfold nodes. rewrite (visit_bucket_spec visit m h _ T Hg Hwh Hw (inorder T) []); [|done|].
  - cbn [map concat]. rewrite fold_left_app. specialize (IH (L ++ [T]) (fold_left visit (inorder T).*2 a0)).
    rewrite length_app in IH. cbn [length] in IH. replace (Z.of_nat (length L) + 1) with (Z.of_nat (length L + 1)) by lia.
    apply IH. by rewrite <-app_assoc.
  - unfold nodes in Hfit. rewrite length_fmap in Hfit. lia.
Qed.

(** ** A table of two buckets and three two-byte keys *)

Definition demo_hash (k : list Z) : Z := le_val k / 16.
Definition demo_keys (a b : list Z) : Z := le_val a - le_val b.

#[export] Instance demo_keys_laws : CmpLaws demo_keys.
Proof. unfold demo_keys. split; lia. Qed.

Definition demo_table0 : AvlHash := mkAvlHash 0 0 0 0 0 0 0 0 demo_hash demo_keys.
Definition demo_hmem : mem := fun x => x mod 0x100.
Definition demo_hcmds : list set_cmd :=
  [KInsert 0x10; KInsert 0x20; KInsert 0x20; KInsert 0x30; KFull; KInsert 0x40; KCount; KContains 0x30;
   KFind 0x20 0x60; KRemove 0x10 0x70; KRemove 0x10 0x70; KInsert 0x18; KRemove 0x30 0; KClear; KEmpty].

Lemma demo_hash_respects a b : demo_keys a b = 0 -> demo_hash a = demo_hash b.
Proof. unfold demo_keys, demo_hash. intros. f_equal. lia. Qed.

Lemma avlhash_refines_witness :
  (let '(m', h, ok) := avlhash_init demo_hmem demo_table0 0x800 2 demo_hash demo_keys 0x1000 54 2 in
   ok = true /\ set_run m' h demo_hcmds = Some (set_spec_run demo_keys (54 / (16 + 2)) 2 demo_hmem [] demo_hcmds)) /\
  set_spec_run demo_keys 3 2 demo_hmem [] demo_hcmds =
    [(1, []); (1, []); (0, []); (1, []); (1, []); (0, []); (3, []); (1, []); (1, [0x20; 0x21]);
     (1, [0x10; 0x11]); (0, []); (1, []); (1, []); (0, []); (1, [])].
Proof.
  split; [|vm_compute; reflexivity].
  apply (avlhash_refines demo_hmem demo_table0 0x800 2 demo_hash demo_keys 0x1000 54 2 demo_hcmds);
    [apply _|exact demo_hash_respects|lia|lia|lia|lia|lia|by vm_compute|unfold rdisj; lia|].
  repeat (apply Forall_cons; split; [cbn; unfold rng; intuition lia|]). constructor.
Defined.

(** The table after one insertion. *)
Lemma demo_table : exists m h, hash_inv m h [[0x10; 0x11]].
Proof.
  pose proof (avlhash_init_law demo_hmem demo_table0 0x800 2 demo_hash demo_keys 0x1000 54 2 _ demo_hash_respects
    ltac:(lia) ltac:(lia) ltac:(lia) ltac:(lia) ltac:(lia) ltac:(by vm_compute) ltac:(unfold rdisj; lia)) as H.
  destruct (avlhash_init demo_hmem demo_table0 0x800 2 demo_hash demo_keys 0x1000 54 2) as [[m h] ok].
  destruct H as (_ & Hi & Hcmp & Hcap & He & Hp & Ha).
  destruct (avlhash_insert_law m h [] 0x10 Hi) as (m' & h' & r & _ & _ & Hr). cbv zeta in Hr.
  rewrite He, Hcmp, Hcap in Hr. change (54 / (16 + 2)) with 3 in Hr.
  assert (mem_read m 0x10 2 = [0x10; 0x11]) as E.
  { transitivity (mem_read demo_hmem 0x10 2); [|done]. symmetry. apply mem_read_agree. intros x Hx.
    apply Ha. intros Hx'%Hp. unfold rng in *. lia. }
  rewrite E in Hr. cbn in Hr. destruct Hr as (_ & Hr & _). by exists m', h'.
Qed.

Lemma avlhash_foreach_visits_witness :
  exists m h ls, avlhash_foreach (fun n x => n + le_val x) m h 0 =
      Some (fold_left (fun n x => n + le_val x) (concat ls) 0) /\
    [[0x10; 0x11]] ≡ₚ concat ls /\ Z.of_nat (length ls) = h_n_buckets h /\
    forall b xs, ls !! b = Some xs ->
      ascending (h_cmp h) xs /\ Forall (fun x => h_hash h x mod h_n_buckets h = Z.of_nat b) xs.
Proof.
  destruct demo_table as (m & h & Hi). exists m, h.
  exact (avlhash_foreach_visits (fun n x => n + le_val x) m h _ 0 Hi).
Defined.
