(* ===== verification/HashTable.v ===== *)
(** The string-keyed hash table ([src/containers/hashtable.c]) on an allocator of the
    caller's choice.  Shown to be a finite map from keys to values, and to own exactly
    the blocks it allocated: destroying it gives them all back, once each. *)
From stdpp Require Import gmap sets.
From S2P Require Import Prelude.
#[local] Open Scope Z_scope.

(** ** The allocator *)

(** [ht_alloc_fn] and [ht_free_fn], on some allocator state: [alloc] returns a
    pointer or NULL. *)
Class Allocator (A : Type) := {
  al_alloc : A -> Z -> A * Z;
  al_free : A -> Z -> A;
  al_live : A -> gset Z;       (** the blocks handed out and not given back *)
  al_log : A -> list Z         (** every answer so far, 0 for NULL, oldest first *)
}.

(** What the C standard says of [malloc] and [free].  Nothing is said of freeing a
    block that is not live. *)
Class AllocatorLaws (A : Type) `{Allocator A} : Prop := {
  al_alloc_law a n :
    let '(a', p) := al_alloc a n in
    if p =? 0 then al_live a' = al_live a else (p ∉ al_live a) /\ al_live a' = {[p]} ∪ al_live a;
  al_free_law a p : p ∈ al_live a -> al_live (al_free a p) = al_live a ∖ {[p]};
  al_alloc_log a n : al_log (al_alloc a n).1 = al_log a ++ [(al_alloc a n).2];
  al_free_log a p : al_log (al_free a p) = al_log a
}.

(** ** Data *)

(** A string is the bytes before its NUL. *)
Definition key : Type := list Z.

(** An entry with the addresses of its own block and of its key's copy.  A chain is
    the list of its entries. *)
Record Entry := mkEntry {
  e_at : Z;
  e_key_at : Z;
  e_key : key;
  e_value : Z;
  e_hash : Z
}.

Record HashTable := mkHashTable {
  ht_at : Z;
  buckets_at : Z;
  buckets : list (list Entry);
  bucket_count : Z;
  item_count : Z
}.

Definition HT_DEFAULT_BUCKETS : Z := 16.
Definition HT_MAX_LOAD_NUM : Z := 3.
Definition HT_MAX_LOAD_DEN : Z := 4.
Definition SIZEOF_ENTRY : Z := 32.
Definition SIZEOF_TABLE : Z := 40.
Definition SIZEOF_POINTER : Z := 8.

(** ** Helpers *)

Definition ht_hash (s : key) : Z :=
  fold_left (fun h b => u32 (Z.lxor h b * 0x01000193)) s 0x811C9DC5.

Fixpoint pow2_loop (fuel : nat) (p n : Z) : option Z :=
  if negb (p <? n) then Some p else
  match fuel with
  | O => None
  | S fuel => pow2_loop fuel (u64 (Z.shiftl p 1)) n
  end.

(** The shift overflows before the 65th round, so 64 rounds decide. *)
Definition next_pow2 (n : Z) : option Z :=
  if n <? 2 then Some 1 else pow2_loop 64 1 n.

Section table.
Context {A : Type} `{Allocator A}.

(** The copy's address. *)
Definition ht_strdup_with (a : A) (s : key) : A * Z :=
  al_alloc a (u64 (Z.of_nat (length s) + 1)).

Definition alloc_buckets (a : A) (count : Z) : A * Z * list (list Entry) :=
  let '(a, p) := al_alloc a (u64 (count * SIZEOF_POINTER)) in
  (a, p, replicate (Z.to_nat count) []).

Definition bucket_index (hash count : Z) : nat := Z.to_nat (Z.land hash (u64 (count - 1))).

Fixpoint relink_chain (count : Z) (es : list Entry) (new : list (list Entry)) : list (list Entry) :=
  match es with
  | [] => new
  | e :: es => relink_chain count es (alter (cons e) (bucket_index (e_hash e) count) new)
  end.

Definition relink (count : Z) (old new : list (list Entry)) : list (list Entry) :=
  fold_left (fun new es => relink_chain count es new) old new.

Definition ht_resize (a : A) (ht : HashTable) (new_bucket_count : Z) : A * HashTable * Z :=
  let '(a, p, new) := alloc_buckets a new_bucket_count in
  if p =? 0 then (a, ht, -1) else
  let new := relink new_bucket_count (buckets ht) new in
  let a := al_free a (buckets_at ht) in
  (a, mkHashTable (ht_at ht) p new new_bucket_count (item_count ht), 0).

Definition ht_needs_grow (ht : HashTable) : bool :=
  u64 (bucket_count ht * HT_MAX_LOAD_NUM) <? u64 (u64 (item_count ht + 1) * HT_MAX_LOAD_DEN).

(** The position of a key in its chain. *)
Fixpoint chain_find (h : Z) (k : key) (es : list Entry) : option nat :=
  match es with
  | [] => None
  | e :: es =>
      if (e_hash e =? h) && bool_decide (e_key e = k) then Some O
      else match chain_find h k es with None => None | Some i => Some (S i) end
  end.

Definition chain_of (ht : HashTable) (b : nat) : list Entry := nth b (buckets ht) [].

(** A slot is a bucket and a position in its chain. *)
Definition ht_find_slot (ht : HashTable) (k : key) : option (nat * nat) :=
  let h := ht_hash k in
  let b := bucket_index h (bucket_count ht) in
  match chain_find h k (chain_of ht b) with None => None | Some i => Some (b, i) end.

Definition entry_at (ht : HashTable) (s : nat * nat) : option Entry := chain_of ht s.1 !! s.2.

Definition set_buckets (ht : HashTable) (bs : list (list Entry)) (count : Z) : HashTable :=
  mkHashTable (ht_at ht) (buckets_at ht) bs (bucket_count ht) count.

(** ** Public operations *)

Definition ht_create_with_allocator (a : A) (initial_buckets : Z) : option (A * option HashTable) :=
  let '(a, p) := al_alloc a SIZEOF_TABLE in
  if p =? 0 then Some (a, None) else
  match next_pow2 (if initial_buckets =? 0 then HT_DEFAULT_BUCKETS else initial_buckets) with
  | None => None
  | Some count =>
      let '(a, q, bs) := alloc_buckets a count in
      if q =? 0 then Some (al_free a p, None)
      else Some (a, Some (mkHashTable p q bs count 0))
  end.

(** Releasing a chain: value, key, entry. *)
Fixpoint destroy_chain {U} (value_free : option (U -> Z -> U)) (es : list Entry) (a : A) (u : U) : A * U :=
  match es with
  | [] => (a, u)
  | e :: es =>
      let u := match value_free with Some f => f u (e_value e) | None => u end in
      let a := al_free a (e_key_at e) in
      let a := al_free a (e_at e) in
      destroy_chain value_free es a u
  end.

Fixpoint destroy_chains {U} (value_free : option (U -> Z -> U)) (bs : list (list Entry)) (a : A) (u : U)
    : A * U :=
  match bs with
  | [] => (a, u)
  | es :: bs => let '(a, u) := destroy_chain value_free es a u in destroy_chains value_free bs a u
  end.

Definition ht_destroy {U} (a : A) (ht : HashTable) (value_free : option (U -> Z -> U)) (u : U) : A * U :=
  let '(a, u) := destroy_chains value_free (buckets ht) a u in
  let a := al_free a (buckets_at ht) in
  (al_free a (ht_at ht), u).

Definition ht_get (ht : HashTable) (k : key) : Z :=
  match ht_find_slot ht k with
  | Some s => match entry_at ht s with Some e => e_value e | None => 0 end
  | None => 0
  end.

Definition with_value (v : Z) (e : Entry) : Entry := mkEntry (e_at e) (e_key_at e) (e_key e) v (e_hash e).

Definition ht_set (a : A) (ht : HashTable) (k : key) (value : Z) : A * HashTable * Z :=
  let h := ht_hash k in
  match ht_find_slot ht k with
  | Some s =>
      (a, set_buckets ht (alter (alter (with_value value) s.2) s.1 (buckets ht)) (item_count ht), 0)
  | None =>
      let '(a, ht, r) :=
        if ht_needs_grow ht then ht_resize a ht (u64 (bucket_count ht * 2)) else (a, ht, 0) in
      if negb (r =? 0) then (a, ht, -1) else
      let '(a, p) := al_alloc a SIZEOF_ENTRY in
      if p =? 0 then (a, ht, -1) else
      let '(a, q) := ht_strdup_with a k in
      if q =? 0 then (al_free a p, ht, -1) else
      let e := mkEntry p q k value h in
      let b := bucket_index h (bucket_count ht) in
      (a, set_buckets ht (alter (cons e) b (buckets ht)) (u64 (item_count ht + 1)), 0)
  end.

Definition ht_delete {U} (a : A) (ht : HashTable) (k : key) (value_free : option (U -> Z -> U)) (u : U)
    : A * HashTable * U * Z :=
  match ht_find_slot ht k with
  | None => (a, ht, u, 0)
  | Some s =>
      match entry_at ht s with
      | None => (a, ht, u, 0)
      | Some e =>
          let bs := alter (delete s.2) s.1 (buckets ht) in
          let u := match value_free with Some f => f u (e_value e) | None => u end in
          let a := al_free a (e_key_at e) in
          let a := al_free a (e_at e) in
          (a, set_buckets ht bs (u64 (item_count ht - 1)), u, 1)
      end
  end.

Definition ht_count (ht : HashTable) : Z := item_count ht.

End table.

(** ** Placement *)

Definition is_pow2 (n : Z) : Prop := exists k, 0 <= k /\ n = 2 ^ k.

Lemma pow2_pos n : is_pow2 n -> 0 < n.
Proof. intros (k & Hk & ->). by apply Z.pow_pos_nonneg. Qed.

(** Every index is inside an array whose length is a power of two. *)
Lemma bucket_index_range h n : is_pow2 n -> is_u64 n -> (bucket_index h n < Z.to_nat n)%nat.
Proof.
  intros Hp Hn. pose proof (pow2_pos n Hp). destruct Hp as (k & Hk & ->). unfold bucket_index.
  rewrite u64_small by (umach; lia). rewrite land_pow2_ones by done.
  pose proof (Z.mod_pos_bound h (2 ^ k)). lia.
Qed.

Lemma pow2_loop_spec fuel : forall k n, 0 <= k -> 2 ^ k <= 2 ^ 63 -> 2 ^ (k - 1) < n \/ k = 0 -> n <= 2 ^ 63 ->
  64 <= k + Z.of_nat fuel ->
  exists p, pow2_loop fuel (2 ^ k) n = Some p /\ is_pow2 p /\ n <= p /\ (p < 2 * n \/ p = 1).
Proof.
  induction fuel as [|fuel IH]; intros k n Hk Hk63 Hlow Hn Hf.
  - exfalso. apply Z.pow_le_mono_r_iff in Hk63; lia.
  - cbn [pow2_loop]. destruct (Z.ltb_spec (2 ^ k) n) as [Hlt|Hge]; cbn [negb].
    + rewrite Z.shiftl_mul_pow2 by lia. rewrite <-Z.pow_add_r by lia.
      assert (k < 63) by (apply (Z.pow_lt_mono_r_iff 2); lia).
      assert (2 ^ (k + 1) <= 2 ^ 63) by (apply Z.pow_le_mono_r; lia).
      rewrite u64_small.
      * apply IH; [lia|done|left; by replace (k + 1 - 1) with k by lia|done|lia].
      * change (2 ^ 63) with 9223372036854775808 in *. pose proof (Z.pow_nonneg 2 (k + 1)). umach. lia.
    + exists (2 ^ k). split; [done|]. split; [by exists k|]. split; [done|].
      destruct Hlow as [Hlow| ->]; [left|by right]. replace k with (k - 1 + 1) by lia.
      destruct (decide (k = 0)) as [->|]; [change (2 ^ (0 - 1 + 1)) with 1; cbn in Hlow; lia|].
      rewrite Z.pow_add_r by lia. lia.
Qed.

(** The least power of two that is not below [n]. *)
Lemma next_pow2_spec n : 0 <= n <= 2 ^ 63 ->
  exists p, next_pow2 n = Some p /\ is_pow2 p /\ n <= p /\ (p < 2 * n \/ p = 1).
Proof.
  intros Hn. unfold next_pow2. destruct (Z.ltb_spec n 2).
  - exists 1. split; [done|]. split; [by exists 0|]. lia.
  - apply (pow2_loop_spec 64 0 n); lia.
Qed.

(** Above [2 ^ 63] the shift runs out of bits and the loop never ends. *)
Lemma pow2_loop_diverges fuel : forall p n, 2 ^ 63 < n -> (p = 0 \/ exists k, 0 <= k <= 63 /\ p = 2 ^ k) ->
  pow2_loop fuel p n = None.
Proof.
  induction fuel as [|fuel IH]; intros p n Hn Hp; cbn [pow2_loop].
  - rewrite (proj2 (Z.ltb_lt p n)); [done|]. destruct Hp as [->|(k & Hk & ->)]; [lia|].
    assert (2 ^ k <= 2 ^ 63) by (apply Z.pow_le_mono_r; lia). lia.
  - rewrite (proj2 (Z.ltb_lt p n)).
    + cbn [negb]. apply IH; [done|]. destruct Hp as [->|(k & Hk & ->)]; [by left|].
      rewrite Z.shiftl_mul_pow2, <-Z.pow_add_r by lia. destruct (decide (k = 63)) as [->|]; [by left|].
      right. exists (k + 1). split; [lia|]. apply u64_small.
      assert (2 ^ (k + 1) <= 2 ^ 63) by (apply Z.pow_le_mono_r; lia).
      change (2 ^ 63) with 9223372036854775808 in *. pose proof (Z.pow_nonneg 2 (k + 1)). umach. lia.
    + destruct Hp as [->|(k & Hk & ->)]; [lia|]. assert (2 ^ k <= 2 ^ 63) by (apply Z.pow_le_mono_r; lia). lia.
Qed.

(** ** Chains *)

Lemma alter_split {B} (f : B -> B) l b x : l !! b = Some x ->
  exists L R, l = L ++ x :: R /\ length L = b /\ alter f b l = L ++ f x :: R.
Proof.
  intros (L & R & -> & ->)%list_elem_of_split_length. exists L, R. split; [done|]. split; [done|].
  by rewrite alter_app_r_alt, Nat.sub_diag by lia.
Qed.

Lemma chain_find_Some h k es i : chain_find h k es = Some i -> exists e, es !! i = Some e /\ e_key e = k.
Proof.
  revert i. induction es as [|e es IH]; intros i; cbn; [done|].
  destruct (_ && _) eqn:E.
  - intros [= <-]. apply andb_true_iff in E as [_ Ek%bool_decide_eq_true_1]. by exists e.
  - destruct (chain_find h k es) as [j|]; [|done]. intros [= <-]. by apply IH.
Qed.

Lemma chain_find_None k es : Forall (fun e => e_hash e = ht_hash (e_key e)) es ->
  chain_find (ht_hash k) k es = None -> Forall (fun e => e_key e <> k) es.
Proof.
  induction 1 as [|e es He _ IH]; cbn; [constructor|]. destruct (_ && _) eqn:E; [done|].
  destruct (chain_find _ k es); [done|]. intros _. constructor; [|by apply IH].
  intros <-. rewrite He, Z.eqb_refl in E. by rewrite bool_decide_true in E.
Qed.

(** ** Invariant *)

Definition entries (ht : HashTable) : list Entry := concat (buckets ht).

(** [bs] has [count] chains, each entry in the chain of its hash. *)
Record placed (bs : list (list Entry)) (count : Z) : Prop := {
  pl_pow : is_pow2 count;
  pl_len : Z.of_nat (length bs) = count;
  pl_at : forall b es e, bs !! b = Some es -> e ∈ es ->
    e_hash e = ht_hash (e_key e) /\ bucket_index (e_hash e) count = b
}.

Record ht_ok (ht : HashTable) : Prop := {
  ok_placed : placed (buckets ht) (bucket_count ht);
  ok_keys : NoDup (map e_key (entries ht));
  ok_count : item_count ht = Z.of_nat (length (entries ht))
}.

(** The finite map that the table stands for. *)
Definition kv (e : Entry) : key * Z := (e_key e, e_value e).
Definition ht_map (ht : HashTable) : gmap key Z := list_to_map (map kv (entries ht)).

Lemma kv_keys es : (map kv es).*1 = map e_key es.
Proof. induction es; cbn; [done|]. by f_equal. Qed.

Lemma map_perm es es' : NoDup (map e_key es) -> es ≡ₚ es' ->
  (list_to_map (map kv es) : gmap key Z) = list_to_map (map kv es').
Proof. intros Hn Hp. apply list_to_map_proper; [by rewrite kv_keys|by rewrite Hp]. Qed.

Lemma bucket_of_key ht k : placed (buckets ht) (bucket_count ht) -> is_u64 (bucket_count ht) ->
  exists es, buckets ht !! bucket_index (ht_hash k) (bucket_count ht) = Some es /\
    chain_of ht (bucket_index (ht_hash k) (bucket_count ht)) = es /\
    Forall (fun e => e_hash e = ht_hash (e_key e)) es.
Proof.
  intros [Hp Hl Ha] Hu. pose proof (bucket_index_range (ht_hash k) _ Hp Hu) as Hb.
  destruct (lookup_lt_is_Some_2 (buckets ht) (bucket_index (ht_hash k) (bucket_count ht))) as [es Hes]; [lia|].
  exists es. split; [done|]. split; [unfold chain_of; by apply nth_lookup_Some|].
  apply Forall_forall. intros e He. by apply (Ha _ _ _ Hes).
Qed.

(** The search finds the entry of a key if there is one. *)
Lemma find_slot_spec ht k : ht_ok ht -> is_u64 (bucket_count ht) ->
  match ht_find_slot ht k with
  | Some s => exists e L es R, entry_at ht s = Some e /\ e_key e = k /\
      buckets ht !! s.1 = Some es /\ es = L ++ e :: R /\ length L = s.2
  | None => k ∉ map e_key (entries ht)
  end.
Proof.
  intros [Hpl Hk Hn] Hu. unfold ht_find_slot. destruct (bucket_of_key ht k Hpl Hu) as (es & Hes & Hch & Hhash).
  rewrite Hch. destruct (chain_find _ k es) as [i|] eqn:Ef.
  - apply chain_find_Some in Ef as (e & He & <-). unfold entry_at. cbn [fst snd].
    pose proof He as (L & R & -> & HL)%list_elem_of_split_length. symmetry in HL. exists e, L, (L ++ e :: R), R.
    split; [by rewrite Hch|]. by split_and!.
  - intros Hin. apply list_elem_of_In, in_map_iff in Hin as (e & Ek & He).
    unfold entries in He. apply in_concat in He as (es' & Hes' & Hin').
    apply list_elem_of_In, list_elem_of_lookup in Hes' as [b Hb].
    destruct (pl_at _ _ Hpl b es' e Hb (proj2 (list_elem_of_In _ _) Hin')) as [Hh Hbi].
    rewrite Hh, Ek in Hbi. rewrite <-Hbi in Hb. rewrite Hes in Hb. injection Hb as ->.
    pose proof (chain_find_None k es' Hhash Ef) as Hf. rewrite Forall_forall in Hf.
    apply (Hf e); [by apply list_elem_of_In|done].
Qed.

(** ** Changing one chain *)

Lemma concat_at {B} (L : list (list B)) es R : concat (L ++ es :: R) ≡ₚ es ++ concat (L ++ R).
Proof. rewrite !concat_app. cbn. solve_Permutation. Qed.

Lemma placed_alter f bs count b es : placed bs count -> bs !! b = Some es ->
  (forall e, e ∈ f es -> e_hash e = ht_hash (e_key e) /\ bucket_index (e_hash e) count = b) ->
  placed (alter f b bs) count.
Proof.
  intros [Hp Hl Ha] Hb Hf. split; [done|by rewrite length_alter|]. intros b' es' e Hb' He.
  destruct (decide (b = b')) as [<-|Hne].
  - rewrite list_lookup_alter_eq, Hb in Hb'. injection Hb' as <-. auto.
  - rewrite list_lookup_alter_ne in Hb' by done. by apply (Ha b' es').
Qed.

(** Re-linking entries into another array keeps them all and puts each in its chain. *)
Lemma relink_chain_spec count es : forall new,
  placed new count -> is_u64 count -> Forall (fun e => e_hash e = ht_hash (e_key e)) es ->
  placed (relink_chain count es new) count /\ concat (relink_chain count es new) ≡ₚ es ++ concat new.
Proof.
  induction es as [|e es IH]; intros new Hn Hu Hf; cbn [relink_chain]; [done|].
  apply Forall_cons in Hf as [He Hf].
  pose proof (bucket_index_range (e_hash e) count (pl_pow _ _ Hn) Hu) as Hb. pose proof (pl_len _ _ Hn) as Hl.
  destruct (lookup_lt_is_Some_2 new (bucket_index (e_hash e) count)) as [es0 Hes]; [lia|].
  destruct (alter_split (cons e) new _ es0 Hes) as (L & R & E & HL & Ea).
  destruct (IH (alter (cons e) (bucket_index (e_hash e) count) new)) as [H1 H2]; [|done|done|].
  - eapply placed_alter; [done|exact Hes|]. intros e' [->|Hin]%elem_of_cons; [done|].
    by apply (pl_at _ _ Hn _ es0).
  - split; [done|]. rewrite H2, Ea, E, !concat_at. solve_Permutation.
Qed.

Lemma rehash_spec count old : forall new,
  placed new count -> is_u64 count -> Forall (fun e => e_hash e = ht_hash (e_key e)) (concat old) ->
  placed (relink count old new) count /\ concat (relink count old new) ≡ₚ concat old ++ concat new.
Proof.
  unfold relink. induction old as [|es old IH]; intros new Hn Hu Hf; cbn [fold_left concat]; [done|].
  cbn in Hf. apply Forall_app in Hf as [Hf1 Hf2].
  destruct (relink_chain_spec count es new Hn Hu Hf1) as [H1 H2].
  destruct (IH _ H1 Hu Hf2) as [H3 H4]. split; [done|]. rewrite H4, H2. solve_Permutation.
Qed.

Lemma placed_hashes bs count : placed bs count -> Forall (fun e => e_hash e = ht_hash (e_key e)) (concat bs).
Proof.
  intros H. apply Forall_concat, Forall_forall. intros es [b Hb]%list_elem_of_lookup.
  apply Forall_forall. intros e He. by apply (pl_at _ _ H b es).
Qed.

Lemma placed_fresh count : is_pow2 count ->
  placed (replicate (Z.to_nat count) []) count /\ concat (replicate (Z.to_nat count) ([] : list Entry)) = [].
Proof.
  intros Hp. pose proof (pow2_pos _ Hp). split.
  - split; [done|rewrite length_replicate; lia|]. intros b es e [-> _]%lookup_replicate_1 He.
    by apply not_elem_of_nil in He.
  - generalize (Z.to_nat count). intros n. by induction n.
Qed.

(** One chain and the rest of the table. *)
Lemma chain_frame bs b (es : list Entry) : bs !! b = Some es ->
  exists rest, concat bs ≡ₚ es ++ rest /\ forall f, concat (alter f b bs) ≡ₚ f es ++ rest.
Proof.
  intros (L & R & -> & ->)%list_elem_of_split_length. exists (concat (L ++ R)). split; [apply concat_at|].
  intros f. rewrite alter_app_r_alt, Nat.sub_diag by lia. apply concat_at.
Qed.

(** ** Ownership *)

Section owned.
Context {A : Type} `{AllocatorLaws A}.

(** The blocks [bl] are live, distinct, and with [L] make up everything live. *)
Definition owned (a : A) (L : gset Z) (bl : list Z) : Prop :=
  NoDup bl /\ (forall p, p ∈ bl -> p ∉ L) /\ al_live a = L ∪ list_to_set bl.

#[export] Instance owned_proper a L : Proper ((≡ₚ) ==> iff) (owned a L).
Proof.
  intros bl bl' E. unfold owned.
  assert ((list_to_set bl : gset Z) = list_to_set bl') as -> by (apply leibniz_equiv; by rewrite E).
  rewrite E. by setoid_rewrite E.
Qed.

Lemma owned_alloc a L bl n : owned a L bl ->
  let '(a', p) := al_alloc a n in if p =? 0 then owned a' L bl else owned a' L (p :: bl).
Proof.
  intros (Hn & Hd & Hl). pose proof (al_alloc_law a n) as Ha. destruct (al_alloc a n) as [a' p].
  destruct (p =? 0).
  - split_and!; [done..|by rewrite Ha].
  - destruct Ha as [Hp Ha]. rewrite Hl in Hp. apply not_elem_of_union in Hp as [Hp1 Hp2].
    rewrite elem_of_list_to_set in Hp2. split_and!.
    + by constructor.
    + intros q [->|Hq]%elem_of_cons; auto.
    + rewrite Ha, Hl. apply set_eq. intros q. cbn.
      rewrite !elem_of_union, elem_of_singleton, elem_of_list_to_set. tauto.
Qed.

Lemma owned_free a L p bl : owned a L (p :: bl) -> owned (al_free a p) L bl.
Proof.
  intros (Hn & Hd & Hl). apply NoDup_cons in Hn as [Hp Hn]. split_and!; [done| |].
  - intros q Hq. apply Hd. by right.
  - rewrite al_free_law by (rewrite Hl; apply elem_of_union_r, elem_of_list_to_set; by left). rewrite Hl.
    assert (p ∉ L) by (apply Hd; by left). apply set_eq. intros q. cbn.
    rewrite elem_of_difference, !elem_of_union, elem_of_singleton, elem_of_list_to_set.
    split; [tauto|]. intros [Hq|Hq]; (split; [tauto|]); intros ->; done.
Qed.

End owned.

Definition entry_blocks (e : Entry) : list Z := [e_at e; e_key_at e].
Definition blocks_of (es : list Entry) : list Z := concat (map entry_blocks es).
Definition ht_blocks (ht : HashTable) : list Z := ht_at ht :: buckets_at ht :: blocks_of (entries ht).

#[export] Instance blocks_of_proper : Proper ((≡ₚ) ==> (≡ₚ)) blocks_of.
Proof.
  intros es es' E. unfold blocks_of.
  induction E as [|e es es' _ IH|e e' es|es es' es'' _ IH _ IH']; cbn.
  - done.
  - by rewrite IH.
  - solve_Permutation.
  - by rewrite IH.
Qed.

(** ** The laws of the operations *)

Section laws.
Context {A : Type} `{AllocatorLaws A}.

Lemma ht_resize_law a L ht n : ht_ok ht -> is_pow2 n -> is_u64 n -> owned a L (ht_blocks ht) ->
  let '(a', ht', r) := ht_resize a ht n in
  ht_ok ht' /\ owned a' L (ht_blocks ht') /\ entries ht' ≡ₚ entries ht /\ item_count ht' = item_count ht /\
  (r = 0 /\ bucket_count ht' = n \/ r = -1 /\ ht' = ht).
Proof.
  intros [Hpl Hk Hn] Hp Hu Ho. unfold ht_resize, alloc_buckets.
  pose proof (owned_alloc a L _ (u64 (n * SIZEOF_POINTER)) Ho) as Ha.
  destruct (al_alloc a _) as [a1 p]. destruct (p =? 0) eqn:Ep.
  { split_and!; [by split|done|done|done|by right]. }
  destruct (placed_fresh n Hp) as [Hf1 Hf2].
  destruct (rehash_spec n (buckets ht) _ Hf1 Hu (placed_hashes _ _ Hpl)) as [H1 H2].
  rewrite Hf2, app_nil_r in H2.
  assert (entries (mkHashTable (ht_at ht) p (relink n (buckets ht) (replicate (Z.to_nat n) [])) n (item_count ht))
    ≡ₚ entries ht) as He by exact H2.
  split_and!; [split; [done|by rewrite He|by rewrite He]| |done|done|by left].
  apply owned_free. unfold ht_blocks in *. cbn [ht_at buckets_at]. rewrite He.
  eapply owned_proper; [|exact Ha]. solve_Permutation.
Qed.

(** A table is as good as any with its entries. *)
Lemma ht_ok_entries ht es : placed (buckets ht) (bucket_count ht) -> entries ht ≡ₚ es ->
  NoDup (map e_key es) -> item_count ht = Z.of_nat (length es) -> ht_ok ht.
Proof. intros Hp E Hk Hn. split; [done|by rewrite E|by rewrite E]. Qed.

Lemma ht_map_entries ht es : NoDup (map e_key es) -> entries ht ≡ₚ es -> ht_map ht = list_to_map (map kv es).
Proof. intros Hk E. unfold ht_map. symmetry. by apply map_perm. Qed.

Lemma item_count_size ht : ht_ok ht -> item_count ht = Z.of_nat (size (ht_map ht)).
Proof.
  intros [_ Hk ->]. unfold ht_map. rewrite map_size_list_to_map by by rewrite kv_keys.
  by rewrite length_map.
Qed.

(** The slot that a search finds, and what writing to it does. *)
Lemma slot_frame ht k : ht_ok ht -> is_u64 (bucket_count ht) ->
  match ht_find_slot ht k with
  | Some s => exists e rest, entry_at ht s = Some e /\ e_key e = k /\ entries ht ≡ₚ e :: rest /\
      (forall v, let ht' := set_buckets ht (alter (alter (with_value v) s.2) s.1 (buckets ht)) (item_count ht) in
        ht_ok ht' /\ entries ht' ≡ₚ with_value v e :: rest) /\
      (let ht' := set_buckets ht (alter (delete s.2) s.1 (buckets ht)) (item_count ht - 1) in
        ht_ok ht' /\ entries ht' ≡ₚ rest)
  | None => ht_map ht !! k = None
  end.
Proof.
  intros Hok Hu. pose proof (find_slot_spec ht k Hok Hu) as Hs. destruct Hok as [Hpl Hk Hn].
  destruct (ht_find_slot ht k) as [[b i]|]; [|unfold ht_map; apply not_elem_of_list_to_map_1; by rewrite kv_keys].
  destruct Hs as (e & L & es & R & He & Hke & Hb & -> & <-). cbn [fst snd] in *.
  destruct (chain_frame _ _ _ Hb) as (rest & E1 & E2). fold (entries ht) in E1.
  assert (entries ht ≡ₚ e :: (L ++ R ++ rest)) as E by (rewrite E1; solve_Permutation).
  rewrite E in Hk, Hn. exists e, (L ++ R ++ rest). split; [done|]. split; [done|]. split; [done|]. split.
  - intros v. set (ht' := set_buckets _ _ _).
    assert (alter (with_value v) (length L) (L ++ e :: R) = L ++ with_value v e :: R) as Ea
      by by rewrite alter_app_r_alt, Nat.sub_diag by lia.
    assert (entries ht' ≡ₚ with_value v e :: (L ++ R ++ rest)) as E'
      by (unfold ht', entries, set_buckets; cbn [buckets]; rewrite E2, Ea; solve_Permutation).
    split; [|done]. eapply ht_ok_entries; [|exact E'|done|done].
    eapply placed_alter; [done|exact Hb|]. rewrite Ea. intros x Hx. pose proof (fun x => pl_at _ _ Hpl _ _ x Hb) as Hat.
    apply elem_of_app in Hx as [Hx|[->|Hx]%elem_of_cons].
    + apply Hat. apply elem_of_app. by left.
    + apply (Hat e). apply elem_of_app. right. by left.
    + apply Hat. apply elem_of_app. right. by right.
  - set (ht' := set_buckets _ _ _).
    assert (delete (length L) (L ++ e :: R) = L ++ R) as Ea by by rewrite delete_middle.
    assert (entries ht' ≡ₚ L ++ R ++ rest) as E'
      by (unfold ht', entries, set_buckets; cbn [buckets]; rewrite E2, Ea; solve_Permutation).
    split; [|done]. eapply ht_ok_entries; [|exact E'|..].
    + eapply placed_alter; [done|exact Hb|]. rewrite Ea. intros x Hx. apply (pl_at _ _ Hpl _ _ _ Hb).
      apply elem_of_app in Hx as [Hx|Hx]; apply elem_of_app; [by left|right; by right].
    + cbn in Hk. apply NoDup_cons in Hk as [_ Hk]. exact Hk.
    + unfold ht'. cbn in *. lia.
Qed.

(** A table that owns its blocks, of at most [N] entries, three quarters full at most.
    The sizes are far below the machine's: no count wraps. *)
Record good (a : A) (L : gset Z) (N : Z) (ht : HashTable) : Prop := {
  gd_ok : ht_ok ht;
  gd_owned : owned a L (ht_blocks ht);
  gd_items : item_count ht <= N;
  gd_load : item_count ht * HT_MAX_LOAD_DEN <= bucket_count ht * HT_MAX_LOAD_NUM;
  gd_buckets : bucket_count ht <= 2 ^ 59
}.

Lemma good_u64 a L N ht : good a L N ht -> is_u64 (bucket_count ht) /\ 0 < bucket_count ht /\ 0 <= item_count ht.
Proof.
  intros [Hok _ _ _ Hb]. pose proof (pow2_pos _ (pl_pow _ _ (ok_placed _ Hok))). rewrite (ok_count _ Hok).
  change (2 ^ 59) with 576460752303423488 in *. umach. lia.
Qed.

Lemma ht_get_law a L N ht k : good a L N ht -> ht_get ht k = default 0 (ht_map ht !! k).
Proof.
  intros Hg. destruct (good_u64 _ _ _ _ Hg) as [Hu _]. pose proof (gd_ok _ _ _ _ Hg) as Hok.
  pose proof (slot_frame ht k Hok Hu) as Hs. unfold ht_get. destruct (ht_find_slot ht k) as [s|]; [|by rewrite Hs].
  destruct Hs as (e & rest & -> & <- & E & _).
  rewrite (ht_map_entries ht (e :: rest)) by (try done; rewrite <-E; apply Hok).
  cbn. by rewrite lookup_insert_eq.
Qed.

(** Making room for one more entry. *)
Lemma grow_law a L N ht : good a L N ht -> N < 2 ^ 57 ->
  let '(a', ht', r) := if ht_needs_grow ht then ht_resize a ht (u64 (bucket_count ht * 2)) else (a, ht, 0) in
  good a' L N ht' /\ entries ht' ≡ₚ entries ht /\
  (r = 0 /\ (item_count ht' + 1) * HT_MAX_LOAD_DEN <= bucket_count ht' * HT_MAX_LOAD_NUM \/ r = -1).
Proof.
  intros Hg HN. destruct (good_u64 _ _ _ _ Hg) as (Hu & Hp & Hi). pose proof Hg as [Hok Ho Hit Hl Hb].
  unfold ht_needs_grow, HT_MAX_LOAD_NUM, HT_MAX_LOAD_DEN in *.
  change (2 ^ 57) with 144115188075855872 in *. change (2 ^ 59) with 576460752303423488 in *.
  rewrite !u64_small by (rewrite ?u64_small by (umach; lia); umach; lia).
  destruct (Z.ltb_spec (bucket_count ht * 3) ((item_count ht + 1) * 4)) as [Hlt|Hge]; [|split_and!; try done; left; lia].
  pose proof (ht_resize_law a L ht (bucket_count ht * 2) Hok) as Hr.
  destruct (ht_resize a ht _) as [[a' ht'] r]. destruct Hr as (H1 & H2 & H3 & H4 & H5); [|umach; lia|done|].
  { destruct (pl_pow _ _ (ok_placed _ Hok)) as (j & Hj & ->). exists (j + 1). split; [lia|]. by rewrite Z.pow_add_r by lia. }
  destruct H5 as [[-> Hc]|[-> ->]]; [|split_and!; by try right].
  split; [split; unfold HT_MAX_LOAD_NUM, HT_MAX_LOAD_DEN; try done; rewrite ?H4, ?Hc; lia|].
  split; [done|]. left. rewrite H4, Hc. lia.
Qed.

(** Linking a new entry at the head of its chain. *)
Lemma add_entry_law a0 a L N ht p q k v : good a0 L N ht -> N < 2 ^ 57 -> ht_map ht !! k = None ->
  (item_count ht + 1) * HT_MAX_LOAD_DEN <= bucket_count ht * HT_MAX_LOAD_NUM ->
  owned a L (q :: p :: ht_blocks ht) ->
  let ht' := set_buckets ht
    (alter (cons (mkEntry p q k v (ht_hash k))) (bucket_index (ht_hash k) (bucket_count ht)) (buckets ht))
    (u64 (item_count ht + 1)) in
  good a L (N + 1) ht' /\ ht_map ht' = <[k := v]> (ht_map ht).
Proof.
  intros Hg HN Hk Hroom Ho ht'. destruct (good_u64 _ _ _ _ Hg) as (Hu & Hp & Hi). destruct Hg as [Hok _ Hit _ Hb].
  set (e := mkEntry p q k v (ht_hash k)) in ht'. pose proof (ok_placed _ Hok) as Hpl.
  destruct (bucket_of_key ht k Hpl Hu) as (es & Hes & _).
  destruct (chain_frame _ _ _ Hes) as (rest & E1 & E2). fold (entries ht) in E1.
  assert (entries ht' ≡ₚ e :: entries ht) as E
    by (rewrite E1; unfold ht', entries, set_buckets; cbn [buckets]; by rewrite E2).
  change (2 ^ 57) with 144115188075855872 in *.
  assert (item_count ht' = item_count ht + 1) as Hc by (apply u64_small; umach; lia).
  assert (NoDup (map e_key (e :: entries ht))) as Hn.
  { cbn. apply NoDup_cons. split; [|apply Hok]. unfold ht_map in Hk.
    apply not_elem_of_list_to_map_2 in Hk. by rewrite kv_keys in Hk. }
  split; [split|].
  - eapply ht_ok_entries; [|exact E|done|rewrite Hc, (ok_count _ Hok); cbn; lia].
    eapply placed_alter; [done|exact Hes|]. intros x [->|Hx]%elem_of_cons; [done|].
    apply (pl_at _ _ Hpl _ _ _ Hes Hx).
  - eapply owned_proper; [|exact Ho]. unfold ht_blocks. rewrite E. cbn. solve_Permutation.
  - lia.
  - rewrite Hc. exact Hroom.
  - exact Hb.
  - rewrite (ht_map_entries ht' _ Hn E). done.
Qed.

Lemma good_more a L N N' ht : good a L N ht -> N <= N' -> good a L N' ht.
Proof. intros [? ? ? ? ?] ?. split; try done. lia. Qed.

Lemma owned_good a a' L N ht : good a L N ht -> owned a' L (ht_blocks ht) -> good a' L N ht.
Proof. intros [? ? ? ? ?] ?. by split. Qed.

(** [ht_set] binds the key, or reports that memory ran out and changes no binding. *)
Lemma ht_set_law a L N ht k v : good a L N ht -> N < 2 ^ 57 ->
  let '(a', ht', r) := ht_set a ht k v in
  good a' L (N + 1) ht' /\
  (r = 0 /\ ht_map ht' = <[k := v]> (ht_map ht) \/ r = -1 /\ ht_map ht !! k = None /\ ht_map ht' = ht_map ht).
Proof.
  intros Hg HN. destruct (good_u64 _ _ _ _ Hg) as (Hu & _). pose proof Hg as [Hok Ho Hit Hl Hb].
  unfold ht_set. pose proof (slot_frame ht k Hok Hu) as Hs. destruct (ht_find_slot ht k) as [s|].
  - destruct Hs as (e & rest & _ & <- & E & Hv & _). destruct (Hv v) as [Hok' E'].
    assert (NoDup (map e_key (e :: rest))) as Hn by (rewrite <-E; apply Hok).
    split; [split; try done; cbn; try lia|left; split; [done|]].
    + eapply owned_proper; [|exact Ho]. unfold ht_blocks. by rewrite E, E'.
    + rewrite (ht_map_entries ht _ Hn E), (ht_map_entries _ (with_value v e :: rest) Hn E'). cbn.
      by rewrite insert_insert_eq.
  - pose proof (grow_law a L N ht Hg HN) as Hr.
    destruct (if ht_needs_grow ht then _ else _) as [[a1 ht1] r] eqn:Eg. clear Eg.
    destruct Hr as (Hg1 & E1 & Hr).
    assert (ht_map ht1 = ht_map ht) as Em by (apply ht_map_entries; [apply Hok|done]).
    destruct Hr as [[-> Hroom]| ->]; cbn [Z.eqb negb]; cycle 1.
    { split; [apply (good_more _ _ N); [done|lia]|by right]. }
    pose proof (owned_alloc a1 L _ SIZEOF_ENTRY (gd_owned _ _ _ _ Hg1)) as Ha.
    destruct (al_alloc a1 _) as [a2 p]. destruct (p =? 0).
    { split; [apply (good_more _ _ N); [by apply (owned_good a1)|lia]|by right]. }
    unfold ht_strdup_with. pose proof (owned_alloc a2 L _ (u64 (Z.of_nat (length k) + 1)) Ha) as Hq.
    destruct (al_alloc a2 _) as [a3 q]. destruct (q =? 0).
    { apply owned_free in Hq. split; [apply (good_more _ _ N); [by apply (owned_good a1)|lia]|by right]. }
    rewrite <-Em in Hs |- *. destruct (add_entry_law a1 a3 L N ht1 p q k v) as [H1 H2]; try done.
    split; [done|by left].
Qed.

(** [ht_delete] unbinds the key, hands the value to the callback and frees the entry. *)
Lemma ht_delete_law {U} (f : option (U -> Z -> U)) a L N ht k u : good a L N ht -> N < 2 ^ 57 ->
  let '(a', ht', u', r) := ht_delete a ht k f u in
  good a' L N ht' /\ ht_map ht' = delete k (ht_map ht) /\
  match ht_map ht !! k with
  | Some v => r = 1 /\ u' = match f with Some g => g u v | None => u end
  | None => r = 0 /\ u' = u
  end.
Proof.
  intros Hg HN. destruct (good_u64 _ _ _ _ Hg) as (Hu & _ & Hi). pose proof Hg as [Hok Ho Hit Hl Hb].
  unfold ht_delete. pose proof (slot_frame ht k Hok Hu) as Hs. destruct (ht_find_slot ht k) as [s|].
  2:{ rewrite Hs. split_and!; try done. by rewrite delete_id. }
  destruct Hs as (e & rest & -> & <- & E & _ & Hd). destruct Hd as [Hok' E'].
  change (2 ^ 57) with 144115188075855872 in *.
  assert (NoDup (map e_key (e :: rest))) as Hn by (rewrite <-E; apply Hok).
  pose proof (ok_count _ Hok) as Hc. rewrite E in Hc. cbn in Hc.
  rewrite u64_small by (umach; lia). cbn in Hn. apply NoDup_cons in Hn as [Hne Hnr].
  assert (list_to_map (map kv rest) !! e_key e = @None Z) as Hr
    by (apply not_elem_of_list_to_map_1; by rewrite kv_keys).
  rewrite (ht_map_entries ht (e :: rest)) by (try done; cbn; by apply NoDup_cons).
  rewrite (ht_map_entries _ rest Hnr E'). cbn. rewrite lookup_insert_eq, delete_insert_id by done.
  split_and!; try done. split; try done; cbn; unfold HT_MAX_LOAD_NUM, HT_MAX_LOAD_DEN in *; try lia.
  apply owned_free, owned_free. eapply owned_proper; [|exact Ho].
  unfold ht_blocks. rewrite E, E'. cbn. solve_Permutation.
Qed.

Definition values_of (es : list Entry) : list Z := map e_value es.

Lemma destroy_chain_law {U} (f : option (U -> Z -> U)) L bl es : forall a u, owned a L (blocks_of es ++ bl) ->
  let '(a', u') := destroy_chain f es a u in
  owned a' L bl /\ u' = match f with Some g => fold_left g (values_of es) u | None => u end.
Proof.
  induction es as [|e es IH]; intros a u Ho; cbn [destroy_chain].
  - split; [done|by destruct f].
  - pose proof (owned_free (al_free a (e_key_at e)) L (e_at e) (blocks_of es ++ bl)) as H1.
    specialize (IH (al_free (al_free a (e_key_at e)) (e_at e)) (match f with Some g => g u (e_value e) | None => u end)).
    destruct (destroy_chain f es _ _) as [a' u']. destruct IH as [H2 ->].
    + apply H1, owned_free. eapply owned_proper; [|exact Ho]. cbn. solve_Permutation.
    + split; [done|by destruct f].
Qed.

Lemma destroy_chains_law {U} (f : option (U -> Z -> U)) L bl bs : forall a u,
  owned a L (blocks_of (concat bs) ++ bl) ->
  let '(a', u') := destroy_chains f bs a u in
  owned a' L bl /\ u' = match f with Some g => fold_left g (values_of (concat bs)) u | None => u end.
Proof.
  induction bs as [|es bs IH]; intros a u Ho; cbn [destroy_chains].
  - split; [done|by destruct f].
  - pose proof (destroy_chain_law f L (blocks_of (concat bs) ++ bl) es a u) as H1.
    destruct (destroy_chain f es a u) as [a1 u1]. destruct H1 as [H1 ->].
    { eapply owned_proper; [|exact Ho]. cbn. unfold blocks_of. by rewrite map_app, concat_app, app_assoc. }
    specialize (IH a1 (match f with Some g => fold_left g (values_of es) u | None => u end) H1).
    destruct (destroy_chains f bs _ _) as [a2 u2]. destruct IH as [H2 ->]. split; [done|].
    destruct f; [|done]. cbn. unfold values_of. by rewrite map_app, fold_left_app.
Qed.

(** [ht_destroy] gives back every block, and every value to the callback. *)
Lemma ht_destroy_law {U} (f : option (U -> Z -> U)) a L N ht u : good a L N ht ->
  let '(a', u') := ht_destroy a ht f u in
  al_live a' = L /\ u' = match f with Some g => fold_left g (values_of (entries ht)) u | None => u end.
Proof.
  intros Hg. unfold ht_destroy.
  pose proof (destroy_chains_law f L [buckets_at ht; ht_at ht] (buckets ht) a u) as H1.
  destruct (destroy_chains f _ a u) as [a1 u1]. destruct H1 as [H1 ->].
  - eapply owned_proper; [|apply (gd_owned _ _ _ _ Hg)]. unfold ht_blocks. solve_Permutation.
  - split; [|done]. apply owned_free, owned_free in H1. destruct H1 as (_ & _ & ->). cbn. by rewrite union_empty_r_L.
Qed.

Lemma ht_create_law a n : 0 <= n <= 2 ^ 58 ->
  exists a' r, ht_create_with_allocator a n = Some (a', r) /\
  match r with
  | Some ht => good a' (al_live a) 0 ht /\ ht_map ht = ∅
  | None => al_live a' = al_live a
  end.
Proof.
  intros Hn. unfold ht_create_with_allocator, alloc_buckets.
  assert (owned a (al_live a) []) as H0' by (split_and!; [constructor|intros ? []%elem_of_nil|cbn; by rewrite union_empty_r_L]).
  pose proof (owned_alloc a _ _ SIZEOF_TABLE H0') as Ha.
  destruct (al_alloc a SIZEOF_TABLE) as [a1 p]. destruct (p =? 0).
  { exists a1, None. split; [done|]. destruct Ha as (_ & _ & ->). cbn. by rewrite union_empty_r_L. }
  change (2 ^ 58) with 288230376151711744 in *.
  destruct (next_pow2_spec (if n =? 0 then HT_DEFAULT_BUCKETS else n)) as (c & -> & Hp & _ & Hc).
  { unfold HT_DEFAULT_BUCKETS. destruct (n =? 0); lia. }
  pose proof (owned_alloc a1 _ _ (u64 (c * SIZEOF_POINTER)) Ha) as Hq.
  destruct (al_alloc a1 _) as [a2 q]. destruct (q =? 0).
  { eexists _, None. split; [done|]. apply owned_free in Hq. destruct Hq as (_ & _ & ->). cbn. by rewrite union_empty_r_L. }
  eexists a2, (Some _). split; [done|]. destruct (placed_fresh c Hp) as [Hf1 Hf2]. pose proof (pow2_pos _ Hp).
  split; [split|]; cbn.
  - eapply (ht_ok_entries _ []); [done|unfold entries; cbn; by rewrite Hf2|constructor|done].
  - eapply owned_proper; [|exact Hq]. unfold ht_blocks, entries. cbn. rewrite Hf2. cbn. solve_Permutation.
  - done.
  - unfold HT_MAX_LOAD_NUM. lia.
  - change (2 ^ 59) with 576460752303423488. unfold HT_DEFAULT_BUCKETS in Hc. destruct (Z.eqb_spec n 0); lia.
  - unfold ht_map, entries. cbn. by rewrite Hf2.
Qed.

End laws.

(** ** What the allocator answered *)

Section answers.
Context {A : Type} `{AllocatorLaws A}.

(** From [a] to [a'] the allocator answered [ans]. *)
Definition answered (a a' : A) (ans : list Z) : Prop := al_log a' = al_log a ++ ans.

Lemma answered_refl a : answered a a [].
Proof. unfold answered. by rewrite app_nil_r. Qed.

Lemma answered_alloc a a' n p : al_alloc a n = (a', p) -> answered a a' [p].
Proof. intros E. pose proof (al_alloc_log a n) as Hl. by rewrite E in Hl. Qed.

Lemma answered_free a a' ans p : answered a a' ans -> answered a (al_free a' p) ans.
Proof. unfold answered. by rewrite al_free_log. Qed.

Lemma answered_trans a a1 a2 ans ans' : answered a a1 ans -> answered a1 a2 ans' -> answered a a2 (ans ++ ans').
Proof. unfold answered. intros H1 H2. by rewrite H2, H1, app_assoc. Qed.

(** The operation reports a failure exactly when the allocator refused it something. *)
Definition refused (r : Z) (ans : list Z) : Prop := r = -1 /\ 0 ∈ ans \/ r = 0 /\ 0 ∉ ans.

Lemma refused_last ans : 0 ∉ ans -> refused (-1) (ans ++ [0]).
Proof. intros _. left. split; [done|]. apply elem_of_app. right. by apply list_elem_of_singleton. Qed.

Lemma not_null p (ans : list Z) : (p =? 0) = false -> 0 ∉ ans -> 0 ∉ ans ++ [p].
Proof. intros Hp%Z.eqb_neq Hn [Hi|Hi%list_elem_of_singleton]%elem_of_app; [done|lia]. Qed.

Lemma ht_resize_answers a ht n :
  let '(a', ht', r) := ht_resize a ht n in exists ans, answered a a' ans /\ refused r ans.
Proof.
  unfold ht_resize, alloc_buckets. destruct (al_alloc a _) as [a1 p] eqn:E. apply answered_alloc in E.
  destruct (Z.eqb_spec p 0) as [->|Hp]; eexists.
  - split; [exact E|]. by apply (refused_last []), not_elem_of_nil.
  - split; [by apply answered_free|right]. split; [done|]. rewrite list_elem_of_singleton. lia.
Qed.

(** [ht_set] fails exactly when the allocator returned NULL during the call; a key
    that is there needs no memory. *)
Lemma ht_set_answers a ht k v :
  let '(a', ht', r) := ht_set a ht k v in
  exists ans, answered a a' ans /\ refused r ans /\ (ht_find_slot ht k <> None -> ans = []).
Proof.
  unfold ht_set. destruct (ht_find_slot ht k) as [s|] eqn:Es.
  { exists []. split; [apply answered_refl|]. split; [right; split; [done|apply not_elem_of_nil]|done]. }
  assert (exists ans, answered a (if ht_needs_grow ht then ht_resize a ht (u64 (bucket_count ht * 2)) else (a, ht, 0)).1.1 ans /\
    refused (if ht_needs_grow ht then ht_resize a ht (u64 (bucket_count ht * 2)) else (a, ht, 0)).2 ans) as (ans & H1 & H2).
  { destruct (ht_needs_grow ht).
    - pose proof (ht_resize_answers a ht (u64 (bucket_count ht * 2))) as Hr. by destruct (ht_resize a ht _) as [[a' ht'] r].
    - exists []. split; [apply answered_refl|right; split; [done|apply not_elem_of_nil]]. }
  destruct (if ht_needs_grow ht then _ else _) as [[a1 ht1] r]. cbn [fst snd] in *.
  destruct H2 as [[-> Hn]|[-> Hn]]; cbn [Z.eqb negb].
  { exists ans. split; [done|]. split; [by left|done]. }
  destruct (al_alloc a1 _) as [a2 p] eqn:Ep. apply answered_alloc in Ep. pose proof (answered_trans _ _ _ _ _ H1 Ep) as H2.
  destruct (p =? 0) eqn:Hp.
  { apply Z.eqb_eq in Hp as ->. exists (ans ++ [0]). split; [done|]. split; [by apply refused_last|done]. }
  unfold ht_strdup_with. destruct (al_alloc a2 _) as [a3 q] eqn:Eq. apply answered_alloc in Eq.
  pose proof (answered_trans _ _ _ _ _ H2 Eq) as H3. pose proof (not_null _ _ Hp Hn) as Hn'.
  destruct (q =? 0) eqn:Hq; exists ((ans ++ [p]) ++ [q]).
  - apply Z.eqb_eq in Hq as ->. split; [by apply answered_free|]. split; [by apply refused_last|done].
  - split; [done|]. split; [right; split; [done|by apply not_null]|done].
Qed.

Lemma ht_create_answers a n a' r : ht_create_with_allocator a n = Some (a', r) ->
  exists ans, answered a a' ans /\ (r = None <-> 0 ∈ ans).
Proof.
  unfold ht_create_with_allocator, alloc_buckets. destruct (al_alloc a _) as [a1 p] eqn:Ep. apply answered_alloc in Ep.
  destruct (p =? 0) eqn:Hp.
  { apply Z.eqb_eq in Hp as ->. intros [= <- <-]. exists [0]. split; [done|]. split; [by intros; apply list_elem_of_singleton|done]. }
  destruct (next_pow2 _) as [c|]; [|done]. destruct (al_alloc a1 _) as [a2 q] eqn:Eq. apply answered_alloc in Eq.
  pose proof (answered_trans _ _ _ _ _ Ep Eq) as H2. destruct (q =? 0) eqn:Hq; intros [= <- <-]; exists ([p] ++ [q]).
  - apply Z.eqb_eq in Hq as ->. split; [by apply answered_free|]. split; [by intros; apply elem_of_app; right; apply list_elem_of_singleton|done].
  - split; [done|]. split; [done|]. intros Hi. exfalso. revert Hi. apply not_null; [done|]. rewrite list_elem_of_singleton. lia.
Qed.

End answers.

(** ** Scripts *)

Inductive ht_cmd : Type :=
| HSet (k : key) (v : Z)
| HGet (k : key)
| HDelete (k : key)
| HCount.

(** What a finite map does with a command while the allocator answers [ans]: the
    result, the map after it and the values released.  A new binding fails, and
    changes nothing, exactly when one of the answers is NULL; everything else needs
    no memory. *)
Inductive map_step (m : gmap key Z) : ht_cmd -> list Z -> Z -> gmap key Z -> list Z -> Prop :=
| ms_update k v : is_Some (m !! k) -> map_step m (HSet k v) [] 0 (<[k := v]> m) []
| ms_insert k v ans : m !! k = None -> 0 ∉ ans -> map_step m (HSet k v) ans 0 (<[k := v]> m) []
| ms_refused k v ans : m !! k = None -> 0 ∈ ans -> map_step m (HSet k v) ans (-1) m []
| ms_get k : map_step m (HGet k) [] (default 0 (m !! k)) m []
| ms_deleted k v : m !! k = Some v -> map_step m (HDelete k) [] 1 (delete k m) [v]
| ms_absent k : m !! k = None -> map_step m (HDelete k) [] 0 m []
| ms_count : map_step m HCount [] (Z.of_nat (size m)) m [].

(** A script, with the allocator's answers and the result of each command. *)
Inductive map_steps (m : gmap key Z) : list ht_cmd -> list (list Z * Z) -> gmap key Z -> list Z -> Prop :=
| mss_nil : map_steps m [] [] m []
| mss_cons c ans r m1 freed cs rs m2 freed' :
    map_step m c ans r m1 freed -> map_steps m1 cs rs m2 freed' ->
    map_steps m (c :: cs) ((ans, r) :: rs) m2 (freed ++ freed').

(** A callback that records the values it is handed. *)
Definition record_freed (log : list Z) (v : Z) : list Z := log ++ [v].

Lemma record_freed_all vs log : fold_left record_freed vs log = log ++ vs.
Proof.
  revert log. induction vs as [|v vs IH]; intros log; cbn; [by rewrite app_nil_r|].
  rewrite IH. unfold record_freed. by rewrite <-app_assoc.
Qed.

Section scripts.
Context {A : Type} `{AllocatorLaws A}.

Definition ht_exec (a : A) (ht : HashTable) (log : list Z) (c : ht_cmd) : A * HashTable * list Z * Z :=
  match c with
  | HSet k v => let '(a, ht, r) := ht_set a ht k v in (a, ht, log, r)
  | HGet k => (a, ht, log, ht_get ht k)
  | HDelete k => ht_delete a ht k (Some record_freed) log
  | HCount => (a, ht, log, ht_count ht)
  end.

(** What the allocator answered since [a]. *)
Definition answers (a a' : A) : list Z := drop (length (al_log a)) (al_log a').

Lemma answers_eq a a' ans : answered a a' ans -> answers a a' = ans.
Proof. unfold answered, answers. intros ->. by rewrite drop_app_length. Qed.

Fixpoint ht_run (a : A) (ht : HashTable) (log : list Z) (cs : list ht_cmd)
    : A * HashTable * list Z * list (list Z * Z) :=
  match cs with
  | [] => (a, ht, log, [])
  | c :: cs =>
      let '(a', ht, log, r) := ht_exec a ht log c in
      let '(a'', ht, log, rs) := ht_run a' ht log cs in
      (a'', ht, log, (answers a a', r) :: rs)
  end.

Lemma ht_delete_answers {U} (f : option (U -> Z -> U)) a ht k u : answered a (ht_delete a ht k f u).1.1.1 [].
Proof.
  unfold ht_delete. destruct (ht_find_slot ht k) as [s|]; [|apply answered_refl].
  destruct (entry_at ht s); [|apply answered_refl]. apply answered_free, answered_free, answered_refl.
Qed.

Lemma ht_exec_law a L N ht log c : good a L N ht -> N < 2 ^ 57 ->
  let '(a', ht', log', r) := ht_exec a ht log c in
  good a' L (N + 1) ht' /\ exists freed, log' = log ++ freed /\ map_step (ht_map ht) c (answers a a') r (ht_map ht') freed.
Proof.
  intros Hg HN. destruct c as [k v|k|k|]; cbn [ht_exec].
  - pose proof (ht_set_law a L N ht k v Hg HN) as Hs. pose proof (ht_set_answers a ht k v) as Ha.
    pose proof (slot_frame ht k (gd_ok _ _ _ _ Hg) (proj1 (good_u64 _ _ _ _ Hg))) as Hf.
    destruct (ht_set a ht k v) as [[a' ht'] r]. destruct Ha as (ans & Ha & Hr & Hans). rewrite (answers_eq _ _ _ Ha).
    destruct Hs as [Hg' Hs]. split; [done|]. exists []. split; [by rewrite app_nil_r|].
    destruct Hs as [[-> ->]|(-> & Hk & ->)]; (destruct Hr as [[Hr Hz]|[Hr Hz]]; [|]); try done; [|by constructor].
    destruct (ht_map ht !! k) as [v0|] eqn:Ek; [|by constructor].
    rewrite Hans; [constructor; by rewrite Ek|]. intros E0. rewrite E0 in Hf. congruence.
  - split; [apply (good_more _ _ N); [done|lia]|]. exists []. split; [by rewrite app_nil_r|].
    rewrite (answers_eq _ _ _ (answered_refl a)), (ht_get_law a L N ht k Hg). constructor.
  - pose proof (ht_delete_law (Some record_freed) a L N ht k log Hg HN) as Hd.
    pose proof (ht_delete_answers (Some record_freed) a ht k log) as Ha.
    destruct (ht_delete a ht k _ log) as [[[a' ht'] log'] r]. cbn [fst] in Ha. destruct Hd as (Hg' & Em & Hd). rewrite (answers_eq _ _ _ Ha).
    split; [apply (good_more _ _ N); [done|lia]|]. destruct (ht_map ht !! k) as [v|] eqn:Ek.
    + destruct Hd as [-> ->]. exists [v]. split; [done|]. rewrite Em. by constructor.
    + destruct Hd as [-> ->]. exists []. split; [by rewrite app_nil_r|]. rewrite Em, delete_id by done. by constructor.
  - split; [apply (good_more _ _ N); [done|lia]|]. exists []. split; [by rewrite app_nil_r|].
    unfold ht_count. rewrite (answers_eq _ _ _ (answered_refl a)), item_count_size by apply Hg. constructor.
Qed.

Lemma ht_run_law cs : forall a L N ht log, good a L N ht -> N + Z.of_nat (length cs) <= 2 ^ 57 ->
  let '(a', ht', log', rs) := ht_run a ht log cs in
  good a' L (N + Z.of_nat (length cs)) ht' /\
  exists freed, log' = log ++ freed /\ map_steps (ht_map ht) cs rs (ht_map ht') freed.
Proof.
  induction cs as [|c cs IH]; intros a L N ht log Hg HN; cbn [ht_run length] in *.
  - split; [by rewrite Z.add_0_r|]. exists []. split; [by rewrite app_nil_r|constructor].
  - pose proof (ht_exec_law a L N ht log c Hg ltac:(lia)) as Hc.
    destruct (ht_exec a ht log c) as [[[a1 ht1] log1] r]. destruct Hc as (Hg1 & freed & -> & Hc).
    specialize (IH a1 L (N + 1) ht1 (log ++ freed) Hg1 ltac:(lia)).
    destruct (ht_run a1 ht1 _ cs) as [[[a2 ht2] log2] rs]. destruct IH as (Hg2 & freed' & -> & Hcs).
    split; [apply (good_more _ _ _ _ _ Hg2); lia|]. exists (freed ++ freed').
    split; [by rewrite app_assoc|]. by econstructor.
Qed.

Lemma values_of_map ht : ht_ok ht -> values_of (entries ht) ≡ₚ (map_to_list (ht_map ht)).*2.
Proof.
  intros Hok. unfold ht_map. rewrite map_to_list_to_map by (rewrite kv_keys; apply Hok).
  induction (entries ht); cbn; [done|]. by f_equiv.
Qed.

(** C38. A hash table on any allocator that behaves like [malloc] and [free] is a finite
    map: for every initial size up to 2^58 buckets and every script of up to 2^57
    sets, gets, deletes and counts, the results and the values handed to the free
    callback are those of the map.  A set answers -1, and changes no binding, exactly
    when its key is new and the allocator answered NULL during that very call; gets,
    deletes, counts and updates of a bound key ask for no memory.  The creation fails
    exactly when the allocator answered it NULL, and then leaves nothing allocated. *)
Theorem ht_refines_map (a : A) (n : Z) (cs : list ht_cmd) :
  0 <= n <= 2 ^ 58 -> Z.of_nat (length cs) <= 2 ^ 57 ->
  exists a1 r, ht_create_with_allocator a n = Some (a1, r) /\ (r = None <-> 0 ∈ answers a a1) /\
  match r with
  | None => al_live a1 = al_live a
  | Some ht =>
      let '(a2, ht2, freed, rs) := ht_run a1 ht [] cs in map_steps ∅ cs rs (ht_map ht2) freed
  end.
Proof.
  intros Hn Hcs. destruct (ht_create_law a n Hn) as (a1 & r & Hc & Hr). exists a1, r. split; [done|].
  destruct (ht_create_answers _ _ _ _ Hc) as (ans & Ha & Hans). rewrite (answers_eq _ _ _ Ha). split; [done|].
  destruct r as [ht|]; [|done]. destruct Hr as [Hg Em].
  pose proof (ht_run_law cs a1 (al_live a) 0 ht [] Hg Hcs) as H2.
  destruct (ht_run a1 ht [] cs) as [[[a2 ht2] freed] rs]. destruct H2 as (_ & freed' & -> & H2).
  by rewrite Em in H2.
Qed.

(** Nothing leaks and nothing is freed twice: after any script, [ht_destroy] leaves the
    allocator with exactly the blocks that were live before the table was made, and the
    callback has by then been handed every value still bound, after those already
    released. *)
Theorem ht_gives_back (a : A) (n : Z) (cs : list ht_cmd) :
  0 <= n <= 2 ^ 58 -> Z.of_nat (length cs) <= 2 ^ 57 ->
  exists a1 r, ht_create_with_allocator a n = Some (a1, r) /\
  match r with
  | None => al_live a1 = al_live a
  | Some ht =>
      let '(a2, ht2, freed, rs) := ht_run a1 ht [] cs in
      let '(a3, all_freed) := ht_destroy a2 ht2 (Some record_freed) freed in
      al_live a3 = al_live a /\ all_freed ≡ₚ freed ++ (map_to_list (ht_map ht2)).*2
  end.
Proof.
  intros Hn Hcs. destruct (ht_create_law a n Hn) as (a1 & r & -> & Hr). exists a1, r. split; [done|].
  destruct r as [ht|]; [|done]. destruct Hr as [Hg _].
  pose proof (ht_run_law cs a1 (al_live a) 0 ht [] Hg Hcs) as H2.
  destruct (ht_run a1 ht [] cs) as [[[a2 ht2] freed] rs]. destruct H2 as (Hg2 & _).
  pose proof (ht_destroy_law (Some record_freed) a2 _ _ ht2 freed Hg2) as H3.
  destruct (ht_destroy a2 ht2 _ freed) as [a3 u]. destruct H3 as [H3 ->]. split; [done|].
  by rewrite record_freed_all, (values_of_map ht2) by apply Hg2.
Qed.

End scripts.

(** ** A concrete allocator *)

(** Five blocks at most, each above all the others; with its answers. *)
Definition five_blocks : Type := gset Z * list Z.

Definition above (live : gset Z) : Z := 8 + foldr Z.max 0 (elements live).

#[export] Instance five_blocks_alloc : Allocator five_blocks := {
  al_alloc '(live, log) n :=
    if (size live <? 5)%nat then (({[above live]} ∪ live, log ++ [above live]), above live) else ((live, log ++ [0]), 0);
  al_free '(live, log) p := (live ∖ {[p]}, log);
  al_live a := a.1;
  al_log a := a.2
}.

Lemma above_fresh live : (above live ∉ live) /\ 0 < above live.
Proof.
  unfold above. assert (forall l p, p ∈ l -> p <= foldr Z.max 0 l) as Hl.
  { induction l as [|q l IH]; intros p; [by intros []%elem_of_nil|]. cbn.
    intros [->|Hp]%elem_of_cons; [lia|]. specialize (IH p Hp). lia. }
  assert (forall l, 0 <= foldr Z.max 0 l) as Hp by (induction l; cbn; lia).
  split; [|specialize (Hp (elements live)); lia]. intros Hin.
  apply elem_of_elements, Hl in Hin. lia.
Qed.

#[export] Instance five_blocks_laws : AllocatorLaws five_blocks.
Proof.
  split.
  - intros [live log] n. cbn. destruct (size live <=? 4)%nat; [|reflexivity]. destruct (above_fresh live) as [H1 H2]. cbn.
    rewrite (proj2 (Z.eqb_neq (above live) 0)) by lia. by split.
  - by intros [live log] p.
  - intros [live log] n. cbn. by destruct (size live <=? 4)%nat.
  - by intros [live log] p.
Qed.

Definition no_blocks : five_blocks := (∅, []).

(** The fourth call is refused: one entry fits, and an update, but no second one. *)
Definition ht_script : list ht_cmd :=
  [HSet [97] 5; HGet [97]; HSet [97] 7; HSet [98] 9; HGet [98]; HDelete [97]; HGet [97]; HSet [98] 9; HCount].

Lemma ht_refines_map_witness :
  (exists a1 ht a2 ht2 freed rs, ht_create_with_allocator no_blocks 3 = Some (a1, Some ht) /\
    ht_run a1 ht [] ht_script = (a2, ht2, freed, rs) /\ rs.*2 = [0; 5; 0; -1; 0; 1; 0; 0; 1] /\ freed = [7]) /\
  exists a1 r, ht_create_with_allocator no_blocks 3 = Some (a1, r) /\ (r = None <-> 0 ∈ answers no_blocks a1) /\
  match r with
  | None => al_live a1 = al_live no_blocks
  | Some ht =>
      let '(a2, ht2, freed, rs) := ht_run a1 ht [] ht_script in map_steps ∅ ht_script rs (ht_map ht2) freed
  end.
Proof.
  split.
  - eexists _, _, _, _, _, _. split; [vm_compute; reflexivity|]. split; [vm_compute; reflexivity|]. by split.
  - apply (ht_refines_map no_blocks 3 ht_script); [lia|cbn; lia].
Defined.

Lemma ht_gives_back_witness :
  exists a1 r, ht_create_with_allocator no_blocks 3 = Some (a1, r) /\
  match r with
  | None => al_live a1 = al_live no_blocks
  | Some ht =>
      let '(a2, ht2, freed, rs) := ht_run a1 ht [] ht_script in
      let '(a3, all_freed) := ht_destroy a2 ht2 (Some record_freed) freed in
      al_live a3 = al_live no_blocks /\ all_freed ≡ₚ freed ++ (map_to_list (ht_map ht2)).*2
  end.
Proof. apply (ht_gives_back no_blocks 3 ht_script); [lia|cbn; lia]. Defined.
