(* ===== verification/SpscRing.v ===== *)
(** Lock-free single-producer / single-consumer ring
    ([src/containers/spsc_ring.c]).  A push and a pop are programs over two atomic
    cells and plain memory: the accesses of the code in its order, each atomic access
    with the memory order the code gives it.  Here they are run alone, which gives
    the sequential operations; [SpscConc] runs one producer and one consumer
    concurrently. *)
From S2P Require Import Prelude HostMem.

(** ** The structure *)

Record SpscRing := mkSpscRing {
  sr_storage : Z;
  sr_capacity : Z;
  sr_mask : Z;
  sr_element_size : Z;
  sr_head : Z;
  sr_tail : Z
}.

Definition is_pow2 (x : Z) : bool := (2 <=? x) && (Z.land x (x - 1) =? 0).

(** The element slot [i]. *)
Definition spsc_slot (r : SpscRing) (i : Z) : Z :=
  slot (sr_storage r) (sr_element_size r) i.

(** [None] is the [false] return, in which the structure is left as it was. *)
Definition spsc_ring_init (storage capacity element_size : Z) : option SpscRing :=
  if (storage =? 0) || (element_size =? 0) then None
  else if negb (is_pow2 capacity) then None
  else Some (mkSpscRing storage capacity (capacity - 1) element_size 0 0).

Definition spsc_ring_reset (r : SpscRing) : SpscRing :=
  mkSpscRing (sr_storage r) (sr_capacity r) (sr_mask r) (sr_element_size r) 0 0.

Definition set_head (r : SpscRing) (h : Z) : SpscRing :=
  mkSpscRing (sr_storage r) (sr_capacity r) (sr_mask r) (sr_element_size r) h (sr_tail r).
Definition set_tail (r : SpscRing) (t : Z) : SpscRing :=
  mkSpscRing (sr_storage r) (sr_capacity r) (sr_mask r) (sr_element_size r) (sr_head r) t.

(** ** Push and pop as programs *)

(** The two atomic indices, and the memory orders the code uses. *)
Inductive cell := Head | Tail.
Inductive order := Relaxed | Acquire | Release.

Inductive prog :=
  | Ret (b : bool)
  | Load (c : cell) (o : order) (k : Z -> prog)           (* atomic_load_explicit *)
  | Store (c : cell) (v : Z) (o : order) (k : prog)       (* atomic_store_explicit *)
  | Memcpy (dst src n : Z) (k : prog).

Definition push_prog (r : SpscRing) (element : Z) : prog :=
  if element =? 0 then Ret false else
  Load Head Relaxed (fun head =>
  let next := Z.land (u64 (head + 1)) (sr_mask r) in
  Load Tail Acquire (fun tail =>
  if next =? tail then Ret false else
  Memcpy (spsc_slot r head) element (sr_element_size r)
  (Store Head next Release
  (Ret true)))).

Definition pop_prog (r : SpscRing) (out : Z) : prog :=
  if out =? 0 then Ret false else
  Load Tail Relaxed (fun tail =>
  Load Head Acquire (fun head =>
  if tail =? head then Ret false else
  Memcpy out (spsc_slot r tail) (sr_element_size r)
  (Store Tail (Z.land (u64 (tail + 1)) (sr_mask r)) Release
  (Ret true)))).

(** ** Run alone *)

Definition get_cell (r : SpscRing) (c : cell) : Z :=
  match c with Head => sr_head r | Tail => sr_tail r end.
Definition set_cell (r : SpscRing) (c : cell) (v : Z) : SpscRing :=
  match c with Head => set_head r v | Tail => set_tail r v end.

(** A program with nobody else running: a load returns what was last stored. *)
Fixpoint run_alone (p : prog) (m : mem) (r : SpscRing) : mem * SpscRing * bool :=
  match p with
  | Ret b => (m, r, b)
  | Load c _ k => run_alone (k (get_cell r c)) m r
  | Store c v _ k => run_alone k m (set_cell r c v)
  | Memcpy dst src n k => run_alone k (memcpy m dst src n) r
  end.

Definition spsc_ring_push (m : mem) (r : SpscRing) (element : Z) : mem * SpscRing * bool :=
  run_alone (push_prog r element) m r.

Definition spsc_ring_pop (m : mem) (r : SpscRing) (out : Z) : mem * SpscRing * bool :=
  run_alone (pop_prog r out) m r.

Definition spsc_ring_count (r : SpscRing) : Z :=
  Z.land (u64 (sr_head r - sr_tail r)) (sr_mask r).
Definition spsc_ring_empty (r : SpscRing) : bool := sr_head r =? sr_tail r.
Definition spsc_ring_full (r : SpscRing) : bool :=
  Z.land (u64 (sr_head r + 1)) (sr_mask r) =? sr_tail r.
Definition spsc_ring_capacity (r : SpscRing) : Z := sr_capacity r - 1.

(** ** Powers of two *)

Lemma is_pow2_spec x : is_pow2 x = true <-> exists k, 1 <= k /\ x = 2 ^ k.
Proof.
  unfold is_pow2. rewrite andb_true_iff, Z.leb_le, Z.eqb_eq. split.
  - intros [Hx Hl]. exists (Z.log2 x).
    pose proof (Z.log2_spec x ltac:(lia)) as [Hlo Hhi].
    assert (1 <= Z.log2 x) by (apply (Z.log2_le_mono 2); lia). split; [done|].
    destruct (Z.eq_dec x (2 ^ Z.log2 x)) as [|Hne]; [done|exfalso].
    assert (Z.testbit (Z.land x (x - 1)) (Z.log2 x) = true) as Hb;
      [|by rewrite Hl, Z.bits_0 in Hb].
    rewrite Z.land_spec, Z.bit_log2 by lia. simpl.
    replace (Z.log2 x) with (Z.log2 (x - 1)); [apply Z.bit_log2; lia|].
    apply Z.log2_unique; lia.
  - intros (k & Hk & ->). assert (2 ^ 1 <= 2 ^ k) by (apply Z.pow_le_mono_r; lia).
    split; [lia|]. rewrite land_pow2_ones, Z.mod_same by lia. done.
Qed.

Lemma land_mask x cap k : 0 <= k -> cap = 2 ^ k -> Z.land x (cap - 1) = x mod cap.
Proof. intros ? ->. by apply land_pow2_ones. Qed.
