(* ===== verification/SpscConc.v ===== *)
(** One producer and one consumer on the ring of [SpscRing], running concurrently.

    The machine runs the programs [push_prog] and [pop_prog] of the code with the
    release/acquire reading of C11.  An atomic cell keeps every value stored in it; a
    load may return any of them that is not older than one the thread already knows of,
    whatever its order.  What a thread knows of the other (its view) grows only when an
    acquire load reads a release store.  Two accesses of plain memory by different
    threads, one of them a write, that are not ordered by such a pair are a data race,
    which C leaves undefined: the machine records it.  Memory is copied byte by byte,
    the other thread running between any two bytes.  What the model leaves out of C11 is
    a load taking its value from a store that a thread has yet to reach. *)
From S2P Require Import Prelude HostMem SpscRing.

(** ** The machine *)

Inductive tid := Prod | Cons.
Definition other (t : tid) : tid := match t with Prod => Cons | Cons => Prod end.

(** What a thread knows: the newest value of each cell it has read or written, and how
    far each thread has come (a vector clock). *)
Record view := mkView { seen : cell -> nat; clock : tid -> nat }.

(** The shared store.  [cells]: the values stored in each cell, oldest first, each with
    the view its store published.  [rd]/[wr]: each thread's clock at its last read and
    write of each byte, 0 for never. *)
Record store := mkStore {
  bytes : mem;
  cells : cell -> list (Z * view);
  rd : tid -> Z -> nat;
  wr : tid -> Z -> nat;
  race : bool
}.

Definition upd_cell {A} (f : cell -> A) (c : cell) (a : A) : cell -> A := fun c' =>
  match c, c' with Head, Head | Tail, Tail => a | _, _ => f c' end.
Definition upd_tid {A} (f : tid -> A) (t : tid) (a : A) : tid -> A := fun t' =>
  match t, t' with Prod, Prod | Cons, Cons => a | _, _ => f t' end.
Definition upd_at (f : Z -> nat) (x : Z) (n : nat) : Z -> nat := fun y => if y =? x then n else f y.

(** Knowing nothing; knowing what either view knows. *)
Definition no_view : view := mkView (fun _ => O) (fun _ => O).
Definition join (V W : view) : view :=
  mkView (fun c => seen V c `max` seen W c)%nat (fun t => clock V t `max` clock W t)%nat.
Definition see (V : view) (c : cell) (i : nat) : view := mkView (upd_cell (seen V) c i) (clock V).
Definition tick (V : view) (t : tid) : view := mkView (seen V) (upd_tid (clock V) t (S (clock V t))).

(** Thread [t], which knows [V], reads or writes the plain byte at [x]: a race when the
    other thread's last conflicting access is not known to it. *)
Definition read_byte (t : tid) (V : view) (x : Z) (s : store) : store :=
  mkStore (bytes s) (cells s) (upd_tid (rd s) t (upd_at (rd s t) x (clock V t))) (wr s)
    (race s || (clock V (other t) <? wr s (other t) x)%nat).
Definition write_byte (t : tid) (V : view) (x b : Z) (s : store) : store :=
  mkStore (mem_write (bytes s) x [b]) (cells s) (rd s) (upd_tid (wr s) t (upd_at (wr s t) x (clock V t)))
    (race s || (clock V (other t) <? wr s (other t) x)%nat || (clock V (other t) <? rd s (other t) x)%nat).
Definition push_msg (c : cell) (msg : Z * view) (s : store) : store :=
  mkStore (bytes s) (upd_cell (cells s) c (cells s c ++ [msg])) (rd s) (wr s) (race s).

(** One access of thread [t]. *)
Inductive exec (t : tid) : store -> view -> prog -> store -> view -> prog -> Prop :=
  | exec_load s V c o k i v W : (seen V c <= i)%nat -> cells s c !! i = Some (v, W) ->
      exec t s V (Load c o k) s (let V := see V c i in match o with Acquire => join V W | _ => V end) (k v)
  | exec_store s V c v o k :
      let V' := see V c (length (cells s c)) in
      exec t s V (Store c v o k) (push_msg c (v, match o with Release => V' | _ => no_view end) s) (tick V' t) k
  | exec_byte s V d a n k : 0 < n ->
      exec t s V (Memcpy d a n k) (write_byte t V d (bytes s a) (read_byte t V a s)) V (Memcpy (d + 1) (a + 1) (n - 1) k)
  | exec_copied s V d a n k : n <= 0 -> exec t s V (Memcpy d a n k) s V k.

(** ** The two threads *)

(** The call each thread is in, with its pointer; the elements of the pushes and pops
    that have returned true. *)
Record sys := mkSys {
  st : store;
  views : tid -> view;
  calls : tid -> option (Z * prog);
  sent : list (list Z);
  received : list (list Z)
}.

Section machine.
(** The ring, and the memory each thread keeps to itself. *)
Context (r : SpscRing) (mine : tid -> Z -> Prop).
Let esz := sr_element_size r.

Definition entry (t : tid) : Z -> prog := match t with Prod => push_prog r | Cons => pop_prog r end.

(** The two logs after thread [t]'s call on pointer [p] has returned [b]. *)
Definition log (t : tid) (p : Z) (b : bool) (s : sys) : list (list Z) * list (list Z) :=
  let e := if b then [mem_read (bytes (st s)) p esz] else [] in
  match t with Prod => (sent s ++ e, received s) | Cons => (sent s, received s ++ e) end.

(** A thread calls its operation on an element of its own memory, runs it access by
    access and returns; between calls it writes its own memory. *)
Inductive step : sys -> sys -> Prop :=
  | step_call t s p : calls s t = None -> p <> 0 -> (forall x, rng p esz x -> mine t x) ->
      step s (mkSys (st s) (views s) (upd_tid (calls s) t (Some (p, entry t p))) (sent s) (received s))
  | step_exec t s p k st' V' k' : calls s t = Some (p, k) -> exec t (st s) (views s t) k st' V' k' ->
      step s (mkSys st' (upd_tid (views s) t V') (upd_tid (calls s) t (Some (p, k'))) (sent s) (received s))
  | step_return t s p b : calls s t = Some (p, Ret b) ->
      step s (mkSys (st s) (views s) (upd_tid (calls s) t None) (log t p b s).1 (log t p b s).2)
  | step_own t s x b : calls s t = None -> mine t x ->
      step s (mkSys (write_byte t (views s t) x b (st s)) (views s) (calls s) (sent s) (received s)).

(** After [spsc_ring_init]: both indices 0, nothing accessed yet. *)
Definition sys_init (m : mem) : sys :=
  mkSys (mkStore m (fun _ => [(0, no_view)]) (fun _ _ => O) (fun _ _ => O) false)
    (fun t => tick no_view t) (fun _ => None) [] [].

(** The elements sent and the one being sent. *)
Definition offered (s : sys) : list (list Z) :=
  sent s ++ match calls s Prod with Some (p, _) => [mem_read (bytes (st s)) p esz] | None => [] end.
End machine.

(** ** The invariant *)

Section invariant.
Context (r : SpscRing) (mine : tid -> Z -> Prop) (lg : Z).
Local Abbreviation cap := (sr_capacity r).
Local Abbreviation esz := (sr_element_size r).
Hypothesis Hcap : cap = 2 ^ lg.
Hypothesis Hlg : 1 <= lg < 64.
Hypothesis Hmask : sr_mask r = cap - 1.
Hypothesis Hesz : 0 <= esz.
Hypothesis Hring : forall t x, mine t x -> ~ rng (sr_storage r) (cap * esz) x.
Hypothesis Hown : forall x, mine Prod x -> ~ mine Cons x.

(** The slot of the [k]-th element, counted from the first ever sent. *)
Definition kslot (k : nat) : Z := spsc_slot r (Z.of_nat k mod cap).
Definition next (h : Z) : Z := Z.land (u64 (h + 1)) (sr_mask r).

(** A view that has the [k]-th head value covers the writes of the elements before it,
    and one that has the [k]-th tail value covers the reads of the slots freed. *)
Definition sees_data (s : store) (np nc : nat) (W : view) : Prop :=
  forall k x, (nc <= k < np)%nat -> rng (kslot k) esz x -> (k < seen W Head)%nat -> (wr s Prod x <= clock W Prod)%nat.
Definition sees_room (s : store) (np : nat) (W : view) : Prop :=
  forall k x, (np <= k)%nat -> Z.of_nat k < Z.of_nat np + cap -> rng (kslot k) esz x ->
  Z.of_nat k < cap + Z.of_nat (seen W Tail) -> (rd s Cons x <= clock W Cons)%nat.

(** [pub]: the elements published so far; [nc]: how many have been taken out. *)
Record shared_ok (s : store) (V : tid -> view) (pub : list (list Z)) (nc : nat) : Prop := {
  ok_head : length (cells s Head) = S (length pub);
  ok_tail : length (cells s Tail) = S nc;
  ok_msg c i v W : cells s c !! i = Some (v, W) -> v = Z.of_nat i mod cap /\ seen W c = i /\
    (seen W Head <= length pub)%nat /\ (seen W Tail <= nc)%nat;
  ok_p : seen (V Prod) Head = length pub /\ (seen (V Prod) Tail <= nc)%nat /\
    Z.of_nat (length pub) <= Z.of_nat (seen (V Prod) Tail) + cap - 1;
  ok_c : seen (V Cons) Tail = nc /\ (nc <= seen (V Cons) Head <= length pub)%nat;
  ok_data : sees_data s (length pub) nc (V Cons);
  ok_data_msg i v W : cells s Head !! i = Some (v, W) -> sees_data s (length pub) nc W;
  ok_room : sees_room s (length pub) (V Prod);
  ok_room_msg i v W : cells s Tail !! i = Some (v, W) -> sees_room s (length pub) W;
  ok_race : race s = false;
  ok_wr x : (wr s Prod x <= clock (V Prod) Prod)%nat;
  ok_rd x : (rd s Cons x <= clock (V Cons) Cons)%nat;
  ok_cwr x : ~ mine Cons x -> wr s Cons x = O;
  ok_pwr x : mine Cons x -> wr s Prod x = O /\ rd s Prod x = O;
  ok_crd x : mine Prod x -> rd s Cons x = O;
  ok_bytes k v : (nc <= k)%nat -> pub !! k = Some v -> mem_read (bytes s) (kslot k) esz = v
}.

Definition owns (t : tid) (p : Z) : Prop := p <> 0 /\ forall x, rng p esz x -> mine t x.

(** Where the producer is in a push, and what has been done by then. *)
Definition push_store (h : Z) : prog := Store Head (next h) Release (Ret true).
Definition push_room (h el : Z) : prog := Load Tail Acquire (fun tail =>
  if next h =? tail then Ret false else Memcpy (spsc_slot r h) el esz (push_store h)).

Inductive p_at (m : mem) (V : view) (pub snt : list (list Z)) : option (Z * prog) -> Prop :=
  | p_idle : pub = snt -> p_at m V pub snt None
  | p_start p : pub = snt -> owns Prod p -> p_at m V pub snt (Some (p, Load Head Relaxed (fun h => push_room h p)))
  | p_tail p : pub = snt -> owns Prod p ->
      p_at m V pub snt (Some (p, push_room (Z.of_nat (length pub) mod cap) p))
  | p_copy p i d a n : pub = snt -> owns Prod p -> 0 <= i <= esz ->
      Z.of_nat (length pub) + 1 < cap + Z.of_nat (seen V Tail) ->
      mem_read m (kslot (length pub)) i = mem_read m p i ->
      d = kslot (length pub) + i -> a = p + i -> n = esz - i ->
      p_at m V pub snt (Some (p, Memcpy d a n (push_store (Z.of_nat (length pub) mod cap))))
  | p_store p : pub = snt -> owns Prod p ->
      Z.of_nat (length pub) + 1 < cap + Z.of_nat (seen V Tail) ->
      mem_read m (kslot (length pub)) esz = mem_read m p esz ->
      p_at m V pub snt (Some (p, push_store (Z.of_nat (length pub) mod cap)))
  | p_full p : pub = snt -> owns Prod p -> Z.of_nat (length pub) + 1 = cap + Z.of_nat (seen V Tail) ->
      p_at m V pub snt (Some (p, Ret false))
  | p_done p : owns Prod p -> pub = snt ++ [mem_read m p esz] -> p_at m V pub snt (Some (p, Ret true)).

Definition pop_store (t : Z) : prog := Store Tail (next t) Release (Ret true).
Definition pop_some (t out : Z) : prog := Load Head Acquire (fun head =>
  if t =? head then Ret false else Memcpy out (spsc_slot r t) esz (pop_store t)).

(** Likewise the consumer. *)
Definition taken (pub : list (list Z)) (nc : nat) (rcv : list (list Z)) : Prop := length rcv = nc /\ rcv = take nc pub.

Inductive c_at (m : mem) (V : view) (pub : list (list Z)) (nc : nat) (rcv : list (list Z)) : option (Z * prog) -> Prop :=
  | c_idle : taken pub nc rcv -> c_at m V pub nc rcv None
  | c_start p : taken pub nc rcv -> owns Cons p -> c_at m V pub nc rcv (Some (p, Load Tail Relaxed (fun t => pop_some t p)))
  | c_head p : taken pub nc rcv -> owns Cons p ->
      c_at m V pub nc rcv (Some (p, pop_some (Z.of_nat nc mod cap) p))
  | c_copy p i d a n : taken pub nc rcv -> owns Cons p -> 0 <= i <= esz -> (nc < seen V Head)%nat ->
      mem_read m p i = mem_read m (kslot nc) i -> d = p + i -> a = kslot nc + i -> n = esz - i ->
      c_at m V pub nc rcv (Some (p, Memcpy d a n (pop_store (Z.of_nat nc mod cap))))
  | c_store p : taken pub nc rcv -> owns Cons p -> (nc < seen V Head)%nat ->
      mem_read m p esz = mem_read m (kslot nc) esz ->
      c_at m V pub nc rcv (Some (p, pop_store (Z.of_nat nc mod cap)))
  | c_empty p : taken pub nc rcv -> owns Cons p -> seen V Head = nc -> c_at m V pub nc rcv (Some (p, Ret false))
  | c_done p : owns Cons p -> taken pub nc (rcv ++ [mem_read m p esz]) -> c_at m V pub nc rcv (Some (p, Ret true)).

Definition inv (s : sys) : Prop := exists pub nc,
  shared_ok (st s) (views s) pub nc /\
  p_at (bytes (st s)) (views s Prod) pub (sent s) (calls s Prod) /\
  c_at (bytes (st s)) (views s Cons) pub nc (received s) (calls s Cons).

(** ** Slots *)

Lemma cap_range : 2 <= cap < 0x10000000000000000.
Proof.
  rewrite Hcap. split; [apply (Z.pow_le_mono_r 2 1); lia|]. apply (Z.pow_lt_mono_r 2 lg 64); lia.
Qed.

Lemma next_mod n : next (Z.of_nat n mod cap) = Z.of_nat (S n) mod cap.
Proof.
  pose proof cap_range. pose proof (Z.mod_pos_bound (Z.of_nat n) cap ltac:(lia)).
  unfold next. rewrite u64_small, Hmask by (umach; lia). rewrite (land_mask _ _ lg) by (lia || done).
  rewrite Z.add_mod_idemp_l by lia. f_equal. lia.
Qed.

(** Two counters at most [cap] apart with the same remainder. *)
Lemma mod_same (i j : nat) : (i <= j)%nat -> Z.of_nat j - Z.of_nat i <= cap -> Z.of_nat i mod cap = Z.of_nat j mod cap ->
  i = j \/ Z.of_nat j = Z.of_nat i + cap.
Proof.
  pose proof cap_range. intros Hij Hd Heq.
  assert ((Z.of_nat j - Z.of_nat i) mod cap = 0) as H0 by (by rewrite Zminus_mod, <-Heq, Z.sub_diag, Z.mod_0_l by lia).
  destruct (Z.eq_dec (Z.of_nat j - Z.of_nat i) cap); [right; lia|]. rewrite Z.mod_small in H0 by lia. left. lia.
Qed.

Lemma kslot_wrap (i j : nat) : Z.of_nat j = Z.of_nat i + cap -> kslot j = kslot i.
Proof.
  pose proof cap_range. intros E. unfold kslot. rewrite E. f_equal.
  replace (Z.of_nat i + cap) with (Z.of_nat i + 1 * cap) by lia. by rewrite Z.mod_add by lia.
Qed.

Lemma kslot_disj (i j : nat) : (i < j)%nat -> Z.of_nat j - Z.of_nat i < cap -> rdisj (kslot i) esz (kslot j) esz.
Proof.
  intros Hij Hd. apply slot_disj; [done|]. intros Heq. destruct (mod_same i j) as [|]; [lia|lia|done|lia|lia].
Qed.

Lemma kslot_apart (i j : nat) x : i <> j -> - cap < Z.of_nat j - Z.of_nat i < cap -> rng (kslot i) esz x -> ~ rng (kslot j) esz x.
Proof.
  intros Hij Hd. destruct (decide (i < j)%nat).
  - pose proof (kslot_disj i j). unfold rng, rdisj in *. lia.
  - pose proof (kslot_disj j i). unfold rng, rdisj in *. lia.
Qed.

Lemma kslot_ring k x : rng (kslot k) esz x -> rng (sr_storage r) (cap * esz) x.
Proof.
  pose proof cap_range. pose proof (slot_inside (sr_storage r) esz cap (Z.of_nat k mod cap) Hesz
    (Z.mod_pos_bound (Z.of_nat k) cap ltac:(lia))). unfold kslot, spsc_slot, rng in *. lia.
Qed.

Lemma kslot_mine t k x : rng (kslot k) esz x -> ~ mine t x.
Proof. intros Hx Hm. by apply (Hring t x), (kslot_ring k). Qed.

(** ** Every access keeps the shared part of the invariant *)

Lemma shared_read_prod s V pub nc x : mine Prod x -> shared_ok s V pub nc -> shared_ok (read_byte Prod (V Prod) x s) V pub nc.
Proof.
  intros Hx Hs. destruct Hs; split; try done; cbn.
  - rewrite ok_race0, ok_cwr0 by auto. done.
  - intros y Hy. destruct (ok_pwr0 y Hy). split; [done|]. unfold upd_at. destruct (Z.eqb_spec y x) as [->|]; [by destruct (Hown x)|done].
Qed.

Lemma shared_read_cons s V pub nc x : rng (kslot nc) esz x -> (nc < seen (V Cons) Head)%nat ->
  shared_ok s V pub nc -> shared_ok (read_byte Cons (V Cons) x s) V pub nc.
Proof.
  intros Hx Hn Hs. destruct Hs; split; try done; cbn.
  - intros k y Hk Hc Hy Hsee. cbn. unfold upd_at. destruct (Z.eqb_spec y x) as [->|]; [|by eapply ok_room0].
    exfalso. apply (kslot_apart k nc x); [lia|lia|done|done].
  - intros i v W Hi k y Hk Hc Hy Hsee. cbn. unfold upd_at. destruct (Z.eqb_spec y x) as [->|]; [|by eapply ok_room_msg0].
    destruct (ok_msg0 _ _ _ _ Hi) as (_ & _ & _ & ?). exfalso. apply (kslot_apart k nc x); [lia|lia|done|done].
  - rewrite ok_race0. apply Nat.ltb_ge. apply (ok_data0 nc x); try done; lia.
  - intros y. unfold upd_at. by destruct (y =? x).
  - intros y Hy. unfold upd_at. destruct (Z.eqb_spec y x) as [->|]; [|auto]. by destruct (kslot_mine Prod nc x).
Qed.

Lemma bytes_write_other m x b a n : ~ rng a n x -> mem_read (mem_write m x [b]) a n = mem_read m a n.
Proof. intros H. apply mem_read_agree. intros y Hy. apply mem_write_out. unfold rng in *. simpl. lia. Qed.

(** The producer may write its own memory and the slot it has found free. *)
Lemma shared_write_prod s V pub nc x b :
  mine Prod x \/ (rng (kslot (length pub)) esz x /\ Z.of_nat (length pub) + 1 < cap + Z.of_nat (seen (V Prod) Tail)) ->
  shared_ok s V pub nc -> shared_ok (write_byte Prod (V Prod) x b s) V pub nc.
Proof.
  intros Hx Hs. assert (forall k, (nc <= k < length pub)%nat -> ~ rng (kslot k) esz x) as Hk.
  { intros k Hk Hy. destruct Hx as [Hx|[Hx Hr]]; [by apply (kslot_mine Prod k x)|].
    destruct Hs. apply (kslot_apart k (length pub) x); [lia|lia|done|done]. }
  assert (~ mine Cons x) as Hc by (destruct Hx as [|[]]; [auto|by eapply kslot_mine]).
  destruct Hs; split; try done; cbn.
  - intros k y Hn Hy Hsee. cbn. unfold upd_at. destruct (Z.eqb_spec y x) as [->|]; [by destruct (Hk k)|by eapply ok_data0].
  - intros i v W Hi k y Hn Hy Hsee. cbn. unfold upd_at.
    destruct (Z.eqb_spec y x) as [->|]; [by destruct (Hk k)|by eapply ok_data_msg0].
  - rewrite ok_race0, (ok_cwr0 x) by done. cbn. apply Nat.ltb_ge. destruct Hx as [Hx|[Hx Hr]]; [rewrite ok_crd0 by done; lia|].
    apply (ok_room0 (length pub) x); [lia| |done|lia]. pose proof cap_range. lia.
  - intros y. unfold upd_at. by destruct (y =? x).
  - intros y Hy. destruct (ok_pwr0 y Hy). split; [|done]. unfold upd_at. by destruct (Z.eqb_spec y x) as [->|].
  - intros k v Hn Hv. rewrite bytes_write_other; [by apply ok_bytes0|]. apply Hk. by apply lookup_lt_Some in Hv.
Qed.

Lemma shared_write_cons s V pub nc x b : mine Cons x -> shared_ok s V pub nc -> shared_ok (write_byte Cons (V Cons) x b s) V pub nc.
Proof.
  intros Hx Hs. destruct Hs; split; try done; cbn.
  - destruct (ok_pwr0 x Hx) as [-> ->]. by rewrite ok_race0.
  - intros y Hy. unfold upd_at. destruct (Z.eqb_spec y x) as [->|]; [done|auto].
  - intros k v Hn Hv. rewrite bytes_write_other; [by apply ok_bytes0|]. intros Hr. by apply (kslot_mine Cons k x).
Qed.

(** A thread's own index: it can only read what it stored last. *)
Lemma own_load t s V pub nc i v W c : shared_ok s V pub nc -> c = match t with Prod => Head | Cons => Tail end ->
  (seen (V t) c <= i)%nat -> cells s c !! i = Some (v, W) ->
  i = seen (V t) c /\ v = Z.of_nat (match t with Prod => length pub | Cons => nc end) mod cap.
Proof.
  intros Hs -> Hi Hl. pose proof (lookup_lt_Some _ _ _ Hl) as Hlt. destruct Hs, (ok_msg0 _ _ _ _ Hl) as (-> & _).
  destruct t; [rewrite ok_head0 in Hlt; split; [lia|do 2 f_equal; lia]|rewrite ok_tail0 in Hlt; split; [lia|do 2 f_equal; lia]].
Qed.

(** The shared part only looks at the views' entries. *)
Definition same_view (V W : view) : Prop := (forall c, seen V c = seen W c) /\ forall t, clock V t = clock W t.

Lemma shared_views s V V' pub nc : (forall t, same_view (V t) (V' t)) -> shared_ok s V pub nc -> shared_ok s V' pub nc.
Proof.
  intros Hv Hs. destruct (Hv Prod) as [P1 P2], (Hv Cons) as [C1 C2]. destruct Hs; split; try done.
  - by rewrite <-!P1.
  - by rewrite <-!C1.
  - intros k x ? ? ?. rewrite <-C2. apply (ok_data0 k x); [done|done|by rewrite C1].
  - intros k x ? ? ? ?. rewrite <-P2. apply (ok_room0 k x); [done|done|done|by rewrite P1].
  - intros x. by rewrite <-P2.
  - intros x. by rewrite <-C2.
Qed.

Lemma own_load_views t s V pub nc i c : shared_ok s V pub nc -> i = seen (V t) c -> shared_ok s (upd_tid V t (see (V t) c i)) pub nc.
Proof. intros Hs ->. apply (shared_views s V); [|done]. intros []; destruct t; split; try done; by intros []; destruct c. Qed.

(** An acquire load of the other thread's index: what it lets the thread know. *)
Lemma acquire_tail s V pub nc i v W : shared_ok s V pub nc ->
  (seen (V Prod) Tail <= i)%nat -> cells s Tail !! i = Some (v, W) ->
  let V' := join (see (V Prod) Tail i) W in
  shared_ok s (upd_tid V Prod V') pub nc /\ seen V' Tail = i /\ v = Z.of_nat i mod cap /\ (i <= nc)%nat.
Proof.
  intros Hs Hi Hl V'. pose proof (lookup_lt_Some _ _ _ Hl) as Hlt.
  destruct (ok_msg _ _ _ _ Hs _ _ _ _ Hl) as (Hv & Hw & Hh & Ht).
  assert (seen V' Tail = i) as Ei by (cbn; rewrite Hw; lia).
  assert (seen V' Head = length pub) as Eh by (destruct Hs; cbn; lia).
  split; [|by destruct Hs; split_and!; lia].
  destruct Hs; split; try done; cbn [upd_tid].
  - rewrite Eh, Ei. lia.
  - intros k x Hk Hc Hx Hsee. rewrite Ei in Hsee.
    pose proof (ok_room_msg0 _ _ _ Hl k x Hk Hc Hx) as H. rewrite Hw in H. specialize (H Hsee). cbn. lia.
  - intros x. specialize (ok_wr0 x). cbn. lia.
Qed.

Lemma acquire_head s V pub nc i v W : shared_ok s V pub nc ->
  (seen (V Cons) Head <= i)%nat -> cells s Head !! i = Some (v, W) ->
  let V' := join (see (V Cons) Head i) W in
  shared_ok s (upd_tid V Cons V') pub nc /\ seen V' Head = i /\ v = Z.of_nat i mod cap /\ (nc <= i <= length pub)%nat.
Proof.
  intros Hs Hi Hl V'. pose proof (lookup_lt_Some _ _ _ Hl) as Hlt.
  destruct (ok_msg _ _ _ _ Hs _ _ _ _ Hl) as (Hv & Hw & Hh & Ht).
  assert (seen V' Head = i) as Ei by (cbn; rewrite Hw; lia).
  assert (seen V' Tail = nc) as Eh by (destruct Hs; cbn; lia).
  split; [|by destruct Hs; split_and!; lia].
  destruct Hs; split; try done; cbn [upd_tid].
  - rewrite Eh, Ei. lia.
  - intros k x Hk Hx Hsee. rewrite Ei in Hsee.
    pose proof (ok_data_msg0 _ _ _ Hl k x Hk Hx) as H. rewrite Hw in H. specialize (H Hsee). cbn. lia.
  - intros x. specialize (ok_rd0 x). cbn. lia.
Qed.

(** ** The two stores *)

Lemma last_cell {A} (l : list A) a i x : (l ++ [a]) !! i = Some x -> l !! i = Some x \/ (i = length l /\ x = a).
Proof.
  intros [H|[Hge H]]%lookup_app_Some; [by left|right]. apply list_lookup_singleton_Some in H as [? <-]. split; [lia|done].
Qed.

Lemma publish s V pub nc v : shared_ok s V pub nc -> Z.of_nat (length pub) + 1 < cap + Z.of_nat (seen (V Prod) Tail) ->
  mem_read (bytes s) (kslot (length pub)) esz = v ->
  let V' := see (V Prod) Head (length (cells s Head)) in
  shared_ok (push_msg Head (next (Z.of_nat (length pub) mod cap), V') s) (upd_tid V Prod (tick V' Prod)) (pub ++ [v]) nc.
Proof.
  intros Hs Hroom Hv V'. assert (seen V' Head = S (length pub)) as Eh by (cbn; apply Hs).
  assert (length (pub ++ [v]) = S (length pub)) as El by (rewrite length_app; cbn; lia).
  destruct Hs; split; try done; cbn [push_msg cells upd_cell upd_tid bytes rd wr]; rewrite ?El.
  - rewrite length_app. cbn. lia.
  - intros [] i x W H; cbn in H; [apply last_cell in H as [H|[-> [= -> ->]]]|];
      [|rewrite next_mod, ok_head0; split_and!; [done|rewrite Eh; done|rewrite Eh; done|cbn; lia]|].
    all: destruct (ok_msg0 _ _ _ _ H) as (? & ? & ? & ?); split_and!; try done; lia.
  - cbn. rewrite ok_head0. lia.
  - lia.
  - intros k x Hk Hx Hsee. apply (ok_data0 k x); [lia|done|done].
  - intros i x W H k y Hk Hy Hsee. apply last_cell in H as [H|[_ [= -> ->]]]; [|apply ok_wr0].
    destruct (ok_msg0 _ _ _ _ H) as (_ & _ & ? & _). apply (ok_data_msg0 _ _ _ H k y); [lia|done|done].
  - intros k x Hk Hc Hx Hsee. cbn in Hsee.
    apply (ok_room0 k x); [lia| |done|done]. destruct (Z.eq_dec (Z.of_nat k) (Z.of_nat (length pub) + cap)); [|lia]. lia.
  - intros i x W H k y Hk Hc Hy Hsee. destruct (ok_msg0 _ _ _ _ H) as (_ & _ & _ & ?).
    apply (ok_room_msg0 _ _ _ H k y); [lia| |done|done]. destruct (Z.eq_dec (Z.of_nat k) (Z.of_nat (length pub) + cap)); lia.
  - intros x. cbn. specialize (ok_wr0 x). lia.
  - intros k w Hk [Hw|[-> [= ->]]]%last_cell; [by apply ok_bytes0|done].
Qed.

Lemma release_slot s V pub nc : shared_ok s V pub nc -> (nc < seen (V Cons) Head)%nat ->
  let V' := see (V Cons) Tail (length (cells s Tail)) in
  shared_ok (push_msg Tail (next (Z.of_nat nc mod cap), V') s) (upd_tid V Cons (tick V' Cons)) pub (S nc).
Proof.
  intros Hs Hsome V'. assert (seen V' Tail = S nc) as Et by (cbn; apply Hs).
  destruct Hs; split; try done; cbn [push_msg cells upd_cell upd_tid bytes rd wr].
  - rewrite length_app. cbn. lia.
  - intros [] i x W H; cbn in H; [|apply last_cell in H as [H|[-> [= -> ->]]]];
      [| |rewrite next_mod, ok_tail0; split_and!; [done|rewrite Et; done|cbn; lia|rewrite Et; done]].
    all: destruct (ok_msg0 _ _ _ _ H) as (? & ? & ? & ?); split_and!; try done; lia.
  - lia.
  - cbn. rewrite ok_tail0. lia.
  - intros k x Hk Hx Hsee. apply (ok_data0 k x); [lia|done|done].
  - intros i x W H k y Hk Hy Hsee. apply (ok_data_msg0 _ _ _ H k y); [lia|done|done].
  - intros i x W H k y Hk Hc Hy Hsee. apply last_cell in H as [H|[_ [= -> ->]]]; [by apply (ok_room_msg0 _ _ _ H k y)|apply ok_rd0].
  - intros x. cbn. specialize (ok_rd0 x). lia.
  - intros k w Hk Hw. apply ok_bytes0; [lia|done].
Qed.

(** ** The producer's accesses *)

Lemma push_starts p : p <> 0 -> push_prog r p = Load Head Relaxed (fun h => push_room h p).
Proof. intros Hp. unfold push_prog. by rewrite (proj2 (Z.eqb_neq p 0)). Qed.

Lemma pop_starts p : p <> 0 -> pop_prog r p = Load Tail Relaxed (fun t => pop_some t p).
Proof. intros Hp. unfold pop_prog. by rewrite (proj2 (Z.eqb_neq p 0)). Qed.

(** What the other thread does not change about a thread's progress. *)
Lemma p_at_ext m m' V V' pub snt call : seen V' Tail = seen V Tail ->
  (forall x, mine Prod x \/ rng (kslot (length pub)) esz x -> m' x = m x) ->
  p_at m V pub snt call -> p_at m' V' pub snt call.
Proof.
  intros Hv Hm H. assert (forall n, n <= esz -> mem_read m' (kslot (length pub)) n = mem_read m (kslot (length pub)) n) as Es.
  { intros n Hn. apply mem_read_agree. intros x Hx. apply Hm. right. unfold rng in *. lia. }
  assert (forall p n, owns Prod p -> n <= esz -> mem_read m' p n = mem_read m p n) as Ep.
  { intros p n [_ Hp] Hn. apply mem_read_agree. intros x Hx. apply Hm. left. apply Hp. unfold rng in *. lia. }
  destruct H.
  - by constructor.
  - by constructor.
  - by constructor.
  - eapply p_copy; try done; [by rewrite Hv|by rewrite Es, Ep by (done || lia)].
  - apply p_store; try done; [by rewrite Hv|by rewrite Es, Ep by (done || lia)].
  - apply p_full; try done. by rewrite Hv.
  - apply p_done; [done|]. by rewrite Ep by (done || lia).
Qed.

Lemma c_at_ext m m' V V' pub pub' nc rcv call : seen V' Head = seen V Head -> (nc <= length pub)%nat ->
  (seen V Head <= length pub)%nat -> (pub' = pub \/ exists v, pub' = pub ++ [v]) ->
  (forall x, mine Cons x \/ ((nc < length pub)%nat /\ rng (kslot nc) esz x) -> m' x = m x) ->
  c_at m V pub nc rcv call -> c_at m' V' pub' nc rcv call.
Proof.
  intros Hv Hn Hh Hpub Hm H.
  assert (forall l, taken pub nc l -> taken pub' nc l) as Ht.
  { intros l [Hl ->]. split; [done|]. destruct Hpub as [->|[v ->]]; [done|]. by rewrite take_app_le. }
  assert (forall n, n <= esz -> (nc < seen V Head)%nat -> mem_read m' (kslot nc) n = mem_read m (kslot nc) n) as Es.
  { intros n Hn' Hs. apply mem_read_agree. intros x Hx. apply Hm. right. unfold rng in *. split; lia. }
  assert (forall p n, owns Cons p -> n <= esz -> mem_read m' p n = mem_read m p n) as Ep.
  { intros p n [_ Hp] Hn'. apply mem_read_agree. intros x Hx. apply Hm. left. apply Hp. unfold rng in *. lia. }
  destruct H.
  - constructor. auto.
  - constructor; auto.
  - constructor; auto.
  - eapply c_copy; eauto; [by rewrite Hv|by rewrite Es, Ep by (done || lia)].
  - apply c_store; auto; [by rewrite Hv|by rewrite Es, Ep by (done || lia)].
  - apply c_empty; auto. by rewrite Hv.
  - apply c_done; [done|]. rewrite Ep by (done || lia). auto.
Qed.

(** The program point after a load of the tail. *)
Lemma room_found m V pub snt p i : pub = snt -> owns Prod p -> seen V Tail = i -> (i <= length pub)%nat ->
  Z.of_nat (length pub) <= Z.of_nat i + cap - 1 ->
  let h := Z.of_nat (length pub) mod cap in
  p_at m V pub snt (Some (p, if next h =? Z.of_nat i mod cap then Ret false else
    Memcpy (spsc_slot r h) p esz (push_store h))).
Proof.
  intros Hp Ho Hv Hi Hr h. subst h. rewrite next_mod. destruct (Z.eqb_spec (Z.of_nat (S (length pub)) mod cap) (Z.of_nat i mod cap)) as [E|E].
  - apply p_full; [done|done|]. rewrite Hv. destruct (mod_same i (S (length pub))) as [|]; [lia|lia|done|lia|lia].
  - eapply (p_copy _ _ _ _ p 0); [done|done|lia| |done|unfold kslot; lia|lia|lia].
    rewrite Hv. destruct (Z.eq_dec (Z.of_nat (length pub) + 1) (cap + Z.of_nat i)) as [E'|]; [|lia].
      exfalso. apply E. pose proof cap_range. replace (Z.of_nat (S (length pub))) with (Z.of_nat i + 1 * cap) by lia. by rewrite Z.mod_add by lia.
Qed.

Lemma element_found m V pub nc rcv p i : taken pub nc rcv -> owns Cons p -> seen V Head = i -> (nc <= i)%nat ->
  Z.of_nat i - Z.of_nat nc < cap ->
  let t := Z.of_nat nc mod cap in
  c_at m V pub nc rcv (Some (p, if t =? Z.of_nat i mod cap then Ret false else
    Memcpy p (spsc_slot r t) esz (pop_store t))).
Proof.
  intros Hp Ho Hv Hi Hr t. subst t. destruct (Z.eqb_spec (Z.of_nat nc mod cap) (Z.of_nat i mod cap)) as [E|E].
  - apply c_empty; [done|done|]. rewrite Hv. destruct (mod_same nc i) as [|]; [lia|lia|done|lia|lia].
  - eapply (c_copy _ _ _ _ _ p 0); [done|done|lia| |done|lia|unfold kslot; lia|lia].
    rewrite Hv. destruct (decide (nc = i)) as [->|]; [done|lia].
Qed.

(** One more byte of the element in the slot. *)
Lemma copy_next m src dst i : 0 <= i -> mem_read m dst i = mem_read m src i -> (forall x, rng src (i + 1) x -> x <> dst + i) ->
  mem_read (mem_write m (dst + i) [m (src + i)]) dst (i + 1) = mem_read (mem_write m (dst + i) [m (src + i)]) src (i + 1).
Proof.
  intros Hi Hm Hd. rewrite mem_read_write_snoc, bytes_write_other, mem_read_S by (done || (intros H; by apply (Hd _ H))).
  by rewrite Hm.
Qed.

Lemma write_other m x b y : y <> x -> mem_write m x [b] y = m y.
Proof. intros H. apply mem_write_out. unfold rng. simpl. lia. Qed.

(** What an access does, by the program's first instruction. *)
Lemma exec_inv t s V p s' V' p' : exec t s V p s' V' p' ->
  match p with
  | Ret _ => False
  | Load c o k => exists i v W, (seen V c <= i)%nat /\ cells s c !! i = Some (v, W) /\ s' = s /\ p' = k v /\
      V' = match o with Acquire => join (see V c i) W | _ => see V c i end
  | Store c v o k => let W := see V c (length (cells s c)) in
      s' = push_msg c (v, match o with Release => W | _ => no_view end) s /\ V' = tick W t /\ p' = k
  | Memcpy d a n k => V' = V /\ ((n <= 0 /\ s' = s /\ p' = k) \/
      (0 < n /\ s' = write_byte t V d (bytes s a) (read_byte t V a s) /\ p' = Memcpy (d + 1) (a + 1) (n - 1) k))
  end.
Proof. destruct 1; [eexists _, _, _; by destruct o|done|split; [done|by right]|split; [done|by left]]. Qed.

(** One access of the producer. *)
Lemma exec_prod s V pub nc snt rcv ccall p k s' V' k' : shared_ok s V pub nc ->
  p_at (bytes s) (V Prod) pub snt (Some (p, k)) -> c_at (bytes s) (V Cons) pub nc rcv ccall ->
  exec Prod s (V Prod) k s' V' k' ->
  exists pub', shared_ok s' (upd_tid V Prod V') pub' nc /\ p_at (bytes s') V' pub' snt (Some (p, k')) /\
    c_at (bytes s') (V Cons) pub' nc rcv ccall.
Proof.
  intros Hs Hp Hc He%exec_inv. remember (Some (p, k)) as call eqn:Ek.
  destruct Hp as [|q Hpub Ho|q Hpub Ho|q i d a n Hpub Ho Hi Hroom Hm -> -> ->|q Hpub Ho Hroom Hm|q Hpub Ho Hf|q Ho Hpub];
    simplify_eq; cbn in He; try done; pose proof (ok_c _ _ _ _ Hs) as (_ & Hle).
  - destruct He as (i & v & W & Hi & Hl & -> & -> & ->). exists snt.
    destruct (own_load Prod s V snt nc i v W Head) as [-> ->]; [done..|].
    split; [by apply own_load_views|]. split; [by apply p_tail|done].
  - destruct He as (i & v & W & Hi & Hl & -> & -> & ->). exists snt.
    destruct (acquire_tail s V snt nc i v W) as (Hs' & Hi' & -> & Hn); [done..|].
    split; [done|]. split; [|done]. pose proof (ok_p _ _ _ _ Hs') as (_ & _ & Hr).
    cbn [upd_tid] in Hr. rewrite Hi' in Hr. apply room_found; try done. lia.
  - destruct He as [-> [(Hn & -> & ->)|(Hn & -> & ->)]]; exists snt.
    { split; [apply (shared_views _ V); [by intros []|done]|]. split; [|done].
      assert (i = esz) as -> by lia. by apply p_store. }
    destruct Ho as [Hp0 Hmine]. assert (mine Prod (p + i)) as Hpi by (apply Hmine; unfold rng; lia).
    assert (rng (kslot (length snt)) esz (kslot (length snt) + i)) as Hx by (unfold rng; lia).
    pose proof (kslot_mine Prod _ _ Hx) as Hnp. pose proof (kslot_mine Cons _ _ Hx) as Hnc.
    split; [|split].
    + apply (shared_views _ V); [by intros []|]. apply shared_write_prod; [by right|]. by apply shared_read_prod.
    + eapply (p_copy _ _ _ _ p (i + 1)); [done|done|lia|done| |lia..]. apply copy_next; [lia|done|].
      intros y Hy ->. apply Hnp, Hmine. unfold rng in *. lia.
    + apply (c_at_ext (bytes s) _ (V Cons) _ snt); [done|lia|lia|by left| |done]. intros y Hy. apply write_other. intros ->.
      destruct Hy as [Hy|[Hn' Hy]]; [done|]. pose proof (ok_p _ _ _ _ Hs) as (_ & Hpt & _).
      apply (kslot_apart nc (length snt) (kslot (length snt) + i)); [lia|lia|done|done].
  - destruct He as (-> & -> & ->). exists (snt ++ [mem_read (bytes s) p esz]).
    split; [by apply publish|]. split; [by apply p_done|].
    apply (c_at_ext (bytes s) _ (V Cons) _ snt); [done|lia|lia|right; eauto|done|done].
Qed.

(** One access of the consumer. *)
Lemma exec_cons s V pub nc snt rcv pcall p k s' V' k' : shared_ok s V pub nc ->
  p_at (bytes s) (V Prod) pub snt pcall -> c_at (bytes s) (V Cons) pub nc rcv (Some (p, k)) ->
  exec Cons s (V Cons) k s' V' k' ->
  exists nc', shared_ok s' (upd_tid V Cons V') pub nc' /\ p_at (bytes s') (V Prod) pub snt pcall /\
    c_at (bytes s') V' pub nc' rcv (Some (p, k')).
Proof.
  intros Hs Hp Hc He%exec_inv. remember (Some (p, k)) as call eqn:Ek.
  destruct Hc as [|q Ht Ho|q Ht Ho|q i d a n Ht Ho Hi Hsome Hm -> -> ->|q Ht Ho Hsome Hm|q Ht Ho Hf|q Ho Ht];
    simplify_eq; cbn in He; try done; pose proof (ok_c _ _ _ _ Hs) as (_ & Hle).
  - destruct He as (i & v & W & Hi & Hl & -> & -> & ->). exists nc.
    destruct (own_load Cons s V pub nc i v W Tail) as [-> ->]; [done..|].
    split; [by apply own_load_views|]. split; [done|by apply c_head].
  - destruct He as (i & v & W & Hi & Hl & -> & -> & ->). exists nc.
    destruct (acquire_head s V pub nc i v W) as (Hs' & Hi' & -> & Hn); [done..|].
    split; [done|]. split; [done|]. pose proof (ok_p _ _ _ _ Hs) as (_ & Hpt & Hr). apply element_found; try done; lia.
  - destruct He as [-> [(Hn & -> & ->)|(Hn & -> & ->)]]; exists nc.
    { split; [apply (shared_views _ V); [by intros []|done]|]. split; [done|].
      assert (i = esz) as -> by lia. by apply c_store. }
    destruct Ho as [Hp0 Hmine]. assert (mine Cons (p + i)) as Hpi by (apply Hmine; unfold rng; lia).
    assert (rng (kslot nc) esz (kslot nc + i)) as Hx by (unfold rng; lia).
    split; [|split].
    + apply (shared_views _ V); [by intros []|]. apply shared_write_cons; [done|]. by apply shared_read_cons.
    + apply (p_at_ext (bytes s) _ (V Prod)); [done| |done]. intros y Hy. apply write_other. intros ->.
      destruct Hy as [Hy|Hy]; [by apply (Hown (p + i))|by apply (kslot_mine Cons (length pub) (p + i))].
    + eapply (c_copy _ _ _ _ _ p (i + 1)); [done|done|lia|done| |lia..]. apply copy_next; [lia|done|].
      intros y Hy ->. apply (kslot_mine Cons nc (p + i)); [|done]. unfold rng in *. lia.
  - destruct He as (-> & -> & ->). exists (S nc). destruct Ht as [Hl ->].
    destruct (lookup_lt_is_Some_2 pub nc ltac:(lia)) as [v Hv].
    split; [by apply release_slot|]. split; [by apply (p_at_ext (bytes s) _ (V Prod))|]. apply c_done; [done|].
    split; [rewrite length_app; cbn; lia|]. erewrite take_S_r by done. f_equal. f_equal.
    cbn [push_msg bytes]. rewrite <-(ok_bytes _ _ _ _ Hs nc v) by (done || lia). done.
Qed.

(** ** Every step *)

Lemma init_inv m : inv (sys_init m).
Proof.
  pose proof cap_range. exists [], O. cbn. split; [|by split; constructor].
  assert (forall c i v W, [(0, no_view)] !! i = Some (v, W) -> v = Z.of_nat i mod cap /\ seen W c = i /\ (i = 0)%nat /\ W = no_view) as Hm.
  { intros c i v W H'. apply list_lookup_singleton_Some in H' as [-> [= <- <-]].
    split_and!; [|done..]. cbn. by rewrite Z.mod_0_l by lia. }
  split; cbn; try done; try lia.
  - intros c i v W H'. destruct (Hm c _ _ _ H') as (-> & -> & -> & ->). cbn. lia.
  - intros k x Hk. cbn in Hk. lia.
  - intros i v W H' k x Hk. cbn in Hk. lia.
  - intros k x ? ? ? ?. cbn. lia.
  - intros i v W H' k x ? ? ? ?. cbn. lia.
Qed.

Lemma log_prod s p b : log r Prod p b s = (sent s ++ (if b then [mem_read (bytes (st s)) p esz] else []), received s).
Proof. done. Qed.

Lemma step_inv s s' : inv s -> step r mine s s' -> inv s'.
Proof.
  intros (pub & nc & Hs & Hp & Hc) Hst. pose proof (ok_c _ _ _ _ Hs) as (_ & Hle).
  destruct Hst as [t s p Hidle Hp0 Hmine|t s p k st' V' k' Hk He|t s p b Hk|t s x b Hidle Hx].
  - exists pub, nc. cbn. split; [done|]. destruct t; cbn; [split; [|done]|split; [done|]].
    + rewrite Hidle in Hp. inversion Hp. rewrite push_starts by done. by constructor.
    + rewrite Hidle in Hc. inversion Hc. rewrite pop_starts by done. by constructor.
  - destruct t; cbn.
    + rewrite Hk in Hp. destruct (exec_prod _ _ _ _ _ _ _ _ _ _ _ _ Hs Hp Hc He) as (pub' & ? & ? & ?). by exists pub', nc.
    + rewrite Hk in Hc. destruct (exec_cons _ _ _ _ _ _ _ _ _ _ _ _ Hs Hp Hc He) as (nc' & ? & ? & ?). by exists pub, nc'.
  - exists pub, nc. cbn. split; [done|]. destruct t; cbn; [split; [|done]|split; [done|]].
    + rewrite Hk in Hp. inversion Hp; subst; constructor; by rewrite ?app_nil_r.
    + rewrite Hk in Hc. inversion Hc; subst; constructor; by rewrite ?app_nil_r.
  - exists pub, nc. cbn. destruct t; cbn.
    + rewrite Hidle in Hp |- *. inversion Hp; subst. split; [by apply shared_write_prod; [left|]|]. split; [by constructor|].
      apply (c_at_ext (bytes (st s)) _ (views s Cons) _ (sent s)); [done|lia|lia|by left| |done]. intros y Hy. apply write_other. intros ->.
      destruct Hy as [Hy|[_ Hy]]; [by apply (Hown x)|by apply (kslot_mine Prod nc x)].
    + rewrite Hidle in Hc |- *. inversion Hc; subst. split; [by apply shared_write_cons|]. split; [|by constructor].
      apply (p_at_ext (bytes (st s)) _ (views s Prod)); [done| |done]. intros y Hy. apply write_other. intros ->.
      destruct Hy as [Hy|Hy]; [by apply (Hown x)|by apply (kslot_mine Cons (length pub) x)].
Qed.

Lemma reachable_inv m s : rtc (step r mine) (sys_init m) s -> inv s.
Proof.
  generalize (init_inv m). generalize (sys_init m). intros s0 H0 Hr.
  induction Hr as [|s1 s2 s3 Hst _ IH]; [done|]. by eapply IH, step_inv.
Qed.

(** What the invariant says of the two logs. *)
Lemma inv_offered m V pub snt call : p_at m V pub snt call ->
  snt `prefix_of` pub /\ pub `prefix_of` snt ++ match call with Some (p, _) => [mem_read m p esz] | None => [] end.
Proof.
  destruct 1; subst; try (split; [done|by apply prefix_app_r]).
  split; [by apply prefix_app_r|done].
Qed.

Lemma inv_received m V pub nc rcv call : c_at m V pub nc rcv call ->
  rcv `prefix_of` pub /\ (nc <= length rcv + match call with Some _ => 1 | None => 0 end)%nat.
Proof.
  intros H. assert (forall l, taken pub nc l -> l `prefix_of` pub) as Ht by (intros l [_ ->]; apply prefix_take).
  destruct H; try (split; [by auto|match goal with H : taken _ _ _ |- _ => destruct H as [<- _] end; lia]).
  split; [by etrans; [apply prefix_app_r|by apply Ht]|]. match goal with H : taken _ _ _ |- _ => destruct H as [<- _] end.
  rewrite length_app. cbn. lia.
Qed.

Lemma inv_answers s : inv s ->
  (forall p, calls s Prod = Some (p, Ret false) -> Z.of_nat (length (sent s)) = Z.of_nat (seen (views s Prod) Tail) + cap - 1) /\
  (forall p, calls s Cons = Some (p, Ret false) -> seen (views s Cons) Head = length (received s)).
Proof.
  intros (pub & nc & _ & Hp & Hc). split; intros p E.
  - rewrite E in Hp. inversion Hp; subst. lia.
  - rewrite E in Hc. inversion Hc; subst. match goal with H : taken _ _ _ |- _ => destruct H as [-> _] end. done.
Qed.
End invariant.

(** ** What the ring guarantees *)

(** C29. Lossless FIFO delivery, one producer and one consumer at once.  Each runs the
    code of [spsc_ring_push] or [spsc_ring_pop], access by access, on elements of its own
    memory, with the other's accesses falling anywhere between; an index load may return
    any value not older than what the thread knows, and knowledge of the other thread
    comes only from an acquire load that reads a release store.  Then no access is a data
    race; what has been received is, in order and byte for byte, a prefix of what has
    been sent and the element being sent (nothing lost, duplicated, reordered or torn);
    at most [capacity - 1] elements are in flight, one more while a pop has yet to
    return; a push fails only when the ring is full, and a pop only when it is empty, as
    far as the caller has seen the other index. *)
Theorem spsc_delivers_prefix storage capacity element_size r mine m0 s :
  spsc_ring_init storage capacity element_size = Some r ->
  capacity < 2 ^ 64 -> 0 <= element_size ->
  (forall t x, mine t x -> ~ rng storage (capacity * element_size) x) ->
  (forall x, mine Prod x -> ~ mine Cons x) ->
  rtc (step r mine) (sys_init m0) s ->
  race (st s) = false /\
  received s `prefix_of` offered r s /\
  Z.of_nat (length (sent s)) <= Z.of_nat (length (received s)) + spsc_ring_capacity r +
    match calls s Cons with Some _ => 1 | None => 0 end /\
  (forall p, calls s Prod = Some (p, Ret false) ->
     Z.of_nat (length (sent s)) = Z.of_nat (seen (views s Prod) Tail) + capacity - 1) /\
  (forall p, calls s Cons = Some (p, Ret false) -> seen (views s Cons) Head = length (received s)).
Proof.
  unfold spsc_ring_init. intros Hr Hc He Hring Hown Hs.
  destruct (_ || _); [done|]. destruct (is_pow2 capacity) eqn:Hpw; [|done].
  apply is_pow2_spec in Hpw as (k & Hk & Hck). injection Hr as <-. cbn.
  assert (k < 64) by (apply (Z.pow_lt_mono_r_iff 2); lia).
  pose proof (reachable_inv (mkSpscRing storage capacity (capacity - 1) element_size 0 0) mine k Hck ltac:(lia) eq_refl He Hring Hown m0 s Hs) as Hi.
  destruct (inv_answers _ _ k ltac:(lia) _ Hi) as [H1 H2]. destruct Hi as (pub & nc & Ho & Hp & Hcn).
  destruct (inv_offered _ _ _ _ _ _ _ Hp) as [Hsent Hoff]. destruct (inv_received _ _ k _ _ _ _ _ _ Hcn) as [Hrec Hlen].
  apply prefix_length in Hsent. destruct Ho. cbn in *.
  split_and!; [done|by etrans| |done|done]. unfold spsc_ring_capacity. cbn. destruct (calls s Cons); lia.
Qed.

(** ** A run *)

(** The next access of a thread, loads returning the newest value. *)
Definition advance (r : SpscRing) (t : tid) (p : Z) (s : sys) : option sys :=
  let go st' V' k' q := Some (mkSys st' (upd_tid (views s) t V') (upd_tid (calls s) t (Some (q, k'))) (sent s) (received s)) in
  let V := views s t in
  match calls s t with
  | None => Some (mkSys (st s) (views s) (upd_tid (calls s) t (Some (p, entry r t p))) (sent s) (received s))
  | Some (q, Ret b) => Some (mkSys (st s) (views s) (upd_tid (calls s) t None) (log r t q b s).1 (log r t q b s).2)
  | Some (q, Load c o k) =>
      let i := pred (length (cells (st s) c)) in
      match cells (st s) c !! i with
      | Some (v, W) => if (seen V c <=? i)%nat then go (st s) (match o with Acquire => join (see V c i) W | _ => see V c i end) (k v) q else None
      | None => None
      end
  | Some (q, Store c v o k) =>
      let V' := see V c (length (cells (st s) c)) in
      go (push_msg c (v, match o with Release => V' | _ => no_view end) (st s)) (tick V' t) k q
  | Some (q, Memcpy d a n k) =>
      if 0 <? n then go (write_byte t V d (bytes (st s) a) (read_byte t V a (st s))) V (Memcpy (d + 1) (a + 1) (n - 1) k) q
      else go (st s) V k q
  end.

Fixpoint advances (r : SpscRing) (l : list (tid * Z)) (s : sys) : option sys :=
  match l with
  | [] => Some s
  | (t, p) :: l => match advance r t p s with Some s => advances r l s | None => None end
  end.
Lemma advance_step r mine t p s s' : p <> 0 -> (forall x, rng p (sr_element_size r) x -> mine t x) ->
  advance r t p s = Some s' -> step r mine s s'.
Proof.
  unfold advance. intros Hp Hm H. destruct (calls s t) as [[q [b|c o k|c v o k|d a n k]]|] eqn:Ec.
  - injection H as <-. by apply step_return.
  - destruct (cells (st s) c !! _) as [[v W]|] eqn:El; [|done]. destruct (Nat.leb_spec (seen (views s t) c) (pred (length (cells (st s) c)))); [|done].
    injection H as <-. eapply step_exec; [done|]. pose proof (exec_load t (st s) (views s t) c o k _ v W ltac:(done) El) as He. by destruct o.
  - injection H as <-. eapply step_exec; [done|]. apply exec_store.
  - destruct (Z.ltb_spec 0 n); injection H as <-; (eapply step_exec; [done|]); [by apply exec_byte|apply exec_copied; lia].
  - injection H as <-. by apply step_call.
Qed.

Lemma advances_run r mine l s s' : Forall (fun tp => tp.2 <> 0 /\ forall x, rng tp.2 (sr_element_size r) x -> mine tp.1 x) l ->
  advances r l s = Some s' -> rtc (step r mine) s s'.
Proof.
  intros Hl. revert s. induction Hl as [|[t p] l [Hp Hm] _ IH]; intros s; cbn; [by intros [= ->]|].
  destruct (advance r t p s) as [s1|] eqn:E; [|done]. intros H. eapply rtc_l; [by apply (advance_step r mine t p)|by apply IH].
Qed.

(** A ring of four one-byte slots at 100; the producer's memory is at 200, the
    consumer's at 300.  One push is complete, a second is about to publish, and the
    consumer has popped the first byte. *)
Definition demo_ring : SpscRing := mkSpscRing 100 4 3 1 0 0.
Definition demo_mine (t : tid) : Z -> Prop := rng (match t with Prod => 200 | Cons => 300 end) 8.
Definition demo_sched : list (tid * Z) :=
  replicate 7 (Prod, 200) ++ replicate 4 (Prod, 201) ++ replicate 3 (Cons, 300) ++ [(Prod, 201)] ++ replicate 4 (Cons, 300).

Lemma demo_run : exists s, rtc (step demo_ring demo_mine) (sys_init (fun x => x)) s /\
  sent s = [[200]] /\ received s = [[200]] /\ offered demo_ring s = [[200]; [201]].
Proof.
  assert (option_map (fun s => (sent s, received s, offered demo_ring s)) (advances demo_ring demo_sched (sys_init (fun x => x)))
    = Some ([[200]], [[200]], [[200]; [201]])) as H by (by vm_compute).
  destruct (advances _ _ _) as [s|] eqn:E; [|done]. cbn in H. injection H as H1 H2 H3.
  exists s. split; [|exact (conj H1 (conj H2 H3))]. eapply advances_run; [|exact E].
  unfold demo_sched. cbn [replicate app]. clear.
  repeat (apply Forall_cons; split; [split; [done|intros x; unfold demo_mine, rng; cbn; lia]|]). apply Forall_nil_2.
Qed.

Lemma spsc_delivers_prefix_witness : exists s, received s = [[200]] /\ race (st s) = false /\
  received s `prefix_of` offered demo_ring s.
Proof.
  destruct demo_run as (s & Hr & _ & Hrec & _). exists s. split; [exact Hrec|].
  destruct (spsc_delivers_prefix 100 4 1 demo_ring demo_mine (fun x => x) s) as (H1 & H2 & _);
    [reflexivity|reflexivity|discriminate| | |exact Hr|split; [exact H1|exact H2]].
  - intros [] x; unfold demo_mine, rng; lia.
  - intros x; unfold demo_mine, rng; lia.
Defined.

(** The orders matter: with a relaxed load of the head, the consumer's copy of the
    element races with the producer's. *)
Example relaxed_head_races :
  let relax := fix relax p := match p with
    | Load c _ k => Load c Relaxed (fun v => relax (k v)) | Store c v o k => Store c v o (relax k)
    | Memcpy d a n k => Memcpy d a n (relax k) | Ret b => Ret b end in
  let start s := mkSys (st s) (views s) (upd_tid (calls s) Cons (Some (300, relax (pop_prog demo_ring 300)))) (sent s) (received s) in
  match advances demo_ring (replicate 7 (Prod, 200)) (sys_init (fun x => x)) with
  | Some s => option_map (fun s => race (st s)) (advances demo_ring (replicate 3 (Cons, 300)) (start s)) = Some true
  | None => False
  end.
Proof. by vm_compute. Qed.
