(* ===== verification/SlabStack.v ===== *)
(** Slab allocator ([src/memory/slab_stack.c], default build with block magic):
    sixteen bins of power-of-two blocks, each bin with a stack of pointers to
    its free blocks.  The stacks and the block headers live in the caller's
    region of host memory; only the bin table and the statistics are in the
    [SlabAllocator] structure.  The locker calls are not modelled: they bracket
    each operation and change nothing else. *)
From S2P Require Import Prelude HostMem.

Definition SLAB_BIN_COUNT : Z := 16.
Definition SLAB_MIN_BLOCK : Z := 32.
Definition SLAB_HEADER_SIZE : Z := 8.
Definition SLAB_MAGIC_ALLOCATED : Z := 0x4D4D4D4D.
Definition SLAB_MAGIC_FREED : Z := 0xDEADBEEF.

Inductive SlabResult :=
  | SLAB_OK
  | SLAB_ERR_INVALID_ARG
  | SLAB_ERR_NO_SPACE
  | SLAB_ERR_BIN_EXHAUSTED
  | SLAB_ERR_SIZE_TOO_LARGE
  | SLAB_ERR_CORRUPTED
  | SLAB_ERR_DOUBLE_FREE
  | SLAB_ERR_FOREIGN_POINTER.

Record SlabBinInfo := mkBin {
  block_size : Z;
  bucket_count : Z;
  blocks_in_use : Z;
  peak_in_use : Z;
  internal_top : Z;
  internal_stack : Z;
  internal_blocks : Z
}.

Record SlabAllocator := mkSlab {
  total_bytes_managed : Z;
  total_bytes_in_use : Z;
  peak_bytes_in_use : Z;
  alloc_count : Z;
  free_count : Z;
  failed_alloc_count : Z;
  bins : list SlabBinInfo;
  bitmap : Z;
  region : Z;
  region_bytes : Z
}.

(** Header fields of the block whose payload starts at [p]: the magic word,
    then the bin index, in the eight bytes before [p]. *)
Definition header_of (p : Z) : Z := u64 (p - SLAB_HEADER_SIZE).
Definition payload_of (h : Z) : Z := h + SLAB_HEADER_SIZE.
Definition hdr_magic (m : mem) (h : Z) : Z := load32 m h.
Definition hdr_bin (m : mem) (h : Z) : Z := load32 m (h + 4).

(** ** Size classes *)

(** [__builtin_clz] as [sw_clz32] computes it, five masked halvings. *)
Definition sw_clz32 (x : Z) : Z :=
  let '(n, x) := if Z.land x 0xFFFF0000 =? 0 then (16, u32 (Z.shiftl x 16)) else (0, x) in
  let '(n, x) := if Z.land x 0xFF000000 =? 0 then (n + 8, u32 (Z.shiftl x 8)) else (n, x) in
  let '(n, x) := if Z.land x 0xF0000000 =? 0 then (n + 4, u32 (Z.shiftl x 4)) else (n, x) in
  let '(n, x) := if Z.land x 0xC0000000 =? 0 then (n + 2, u32 (Z.shiftl x 2)) else (n, x) in
  if Z.land x 0x80000000 =? 0 then n + 1 else n.

Definition size_to_bin (payload_size : Z) : Z :=
  let total := u64 (payload_size + SLAB_HEADER_SIZE) in
  if total <=? SLAB_MIN_BLOCK then 0 else
  let v := u32 (total - 1) in
  let ceil_log2 := 32 - sw_clz32 v in
  let bin := ceil_log2 - 5 in
  let bin := if bin <? 0 then 0 else bin in
  if SLAB_BIN_COUNT <=? bin then SLAB_BIN_COUNT else bin.

(** ** Initialisation *)

(** Block size of bin [i]. *)
Definition bin_size (i : Z) : Z := Z.shiftl SLAB_MIN_BLOCK i.

(** Bytes of one block with its header. *)
Definition block_total (info : SlabBinInfo) : Z := block_size info + SLAB_HEADER_SIZE.

Fixpoint required_from (i : Z) (counts : list Z) : Z :=
  match counts with
  | [] => 0
  | n :: counts' =>
      (if n =? 0 then 0 else n * 8 + n * (bin_size i + SLAB_HEADER_SIZE))
      + required_from (i + 1) counts'
  end.

Definition slab_required_bytes (cfg : list Z) : Z := required_from 0 cfg + 8.

Definition align8 (p : Z) : Z := Z.land (u64 (p + 7)) (Z.lnot 7).

Definition init_bins (cfg : list Z) : list SlabBinInfo :=
  imap (fun i n => mkBin (bin_size (Z.of_nat i)) n 0 0 0 0 0) cfg.

Definition set_stack (b : SlabBinInfo) (p : Z) : SlabBinInfo :=
  mkBin (block_size b) (bucket_count b) (blocks_in_use b) (peak_in_use b)
    (internal_top b) p (internal_blocks b).
Definition set_blocks (b : SlabBinInfo) (p top : Z) : SlabBinInfo :=
  mkBin (block_size b) (bucket_count b) (blocks_in_use b) (peak_in_use b)
    top (internal_stack b) p.

(** Carve the pointer stacks, bin by bin. *)
Fixpoint carve_stacks (bs : list SlabBinInfo) (cursor : Z) : list SlabBinInfo * Z :=
  match bs with
  | [] => ([], cursor)
  | b :: bs' =>
      if bucket_count b =? 0 then
        let '(r, c) := carve_stacks bs' cursor in (b :: r, c)
      else
        let '(r, c) := carve_stacks bs' (cursor + bucket_count b * 8) in
        (set_stack b cursor :: r, c)
  end.

(** Write the headers of blocks [k, k+n) of bin [i] and push their payload
    pointers. *)
Fixpoint push_blocks (n : nat) (k : Z) (m : mem) (i : Z) (b : SlabBinInfo) (cursor : Z) : mem :=
  match n with
  | O => m
  | S n' =>
      let h := cursor + k * block_total b in
      let m := store32 m (h + 4) i in
      let m := store32 m h SLAB_MAGIC_FREED in
      let m := store64 m (internal_stack b + 8 * k) (payload_of h) in
      push_blocks n' (k + 1) m i b cursor
  end.

(** Carve the block storage, bin by bin. *)
Fixpoint carve_blocks (bs : list SlabBinInfo) (i : Z) (m : mem) (cursor bm total : Z)
    : mem * list SlabBinInfo * Z * Z * Z :=
  match bs with
  | [] => (m, [], cursor, bm, total)
  | b :: bs' =>
      let n := bucket_count b in
      if n =? 0 then
        let '(m, r, c, bm, t) := carve_blocks bs' (i + 1) m cursor bm total in
        (m, b :: r, c, bm, t)
      else
        let cursor := align8 cursor in
        let m := push_blocks (Z.to_nat n) 0 m i b cursor in
        let '(m, r, c, bm, t) :=
          carve_blocks bs' (i + 1) m (cursor + n * block_total b)
            (Z.lor bm (Z.shiftl 1 i)) (u64 (total + n * block_size b)) in
        (m, set_blocks b cursor n :: r, c, bm, t)
  end.

Definition slab_init (m : mem) (a : SlabAllocator) (rgn bytes : Z) (cfg : list Z)
    : mem * SlabAllocator * SlabResult :=
  if rgn =? 0 then (m, a, SLAB_ERR_INVALID_ARG) else
  if bytes <? slab_required_bytes cfg then (m, a, SLAB_ERR_NO_SPACE) else
  let '(bs, cursor) := carve_stacks (init_bins cfg) rgn in
  let '(m, bs, cursor, bm, total) := carve_blocks bs 0 m cursor 0 0 in
  let a := mkSlab total 0 0 0 0 0 bs bm rgn bytes in
  if bytes <? u64 (cursor - rgn) then (m, a, SLAB_ERR_NO_SPACE) else (m, a, SLAB_OK).

Definition slab_zero : SlabAllocator := mkSlab 0 0 0 0 0 0 [] 0 0 0.
Definition slab_destroy (_ : SlabAllocator) : SlabAllocator := slab_zero.

(** ** Allocation *)

Definition bin_at (a : SlabAllocator) (i : Z) : SlabBinInfo :=
  nth (Z.to_nat i) (bins a) (mkBin 0 0 0 0 0 0 0).

Definition count_failure (a : SlabAllocator) : SlabAllocator :=
  mkSlab (total_bytes_managed a) (total_bytes_in_use a) (peak_bytes_in_use a)
    (alloc_count a) (free_count a) (u32 (failed_alloc_count a + 1))
    (bins a) (bitmap a) (region a) (region_bytes a).

Definition slab_alloc (m : mem) (a : SlabAllocator) (n : Z) : mem * SlabAllocator * Z :=
  if n =? 0 then (m, a, 0) else
  let bin := size_to_bin n in
  if SLAB_BIN_COUNT <=? bin then (m, count_failure a, 0) else
  if Z.land (bitmap a) (Z.shiftl 1 bin) =? 0 then (m, count_failure a, 0) else
  let info := bin_at a bin in
  let top := u16 (internal_top info - 1) in
  let user_ptr := load64 m (internal_stack info + 8 * top) in
  let bm := if top =? 0 then Z.land (bitmap a) (not32 (Z.shiftl 1 bin)) else bitmap a in
  let m := store32 m (header_of user_ptr) SLAB_MAGIC_ALLOCATED in
  let used := u16 (blocks_in_use info + 1) in
  let peak := if peak_in_use info <? used then used else peak_in_use info in
  let in_use := u64 (total_bytes_in_use a + block_size info) in
  let peak_bytes := if peak_bytes_in_use a <? in_use then in_use else peak_bytes_in_use a in
  let info := mkBin (block_size info) (bucket_count info) used peak top
                (internal_stack info) (internal_blocks info) in
  (m, mkSlab (total_bytes_managed a) in_use peak_bytes (u32 (alloc_count a + 1))
        (free_count a) (failed_alloc_count a) (<[Z.to_nat bin := info]> (bins a))
        bm (region a) (region_bytes a),
   user_ptr).

(** The header lies in the region. *)
Definition in_region (a : SlabAllocator) (h : Z) : bool :=
  (region a <=? h) && (h <? region a + region_bytes a).

Definition slab_free (m : mem) (a : SlabAllocator) (p : Z) : mem * SlabAllocator * SlabResult :=
  if p =? 0 then (m, a, SLAB_OK) else
  let h := header_of p in
  if negb (in_region a h) then (m, a, SLAB_ERR_FOREIGN_POINTER) else
  if hdr_magic m h =? SLAB_MAGIC_FREED then (m, a, SLAB_ERR_DOUBLE_FREE) else
  if negb (hdr_magic m h =? SLAB_MAGIC_ALLOCATED) then (m, a, SLAB_ERR_CORRUPTED) else
  let bin := hdr_bin m h in
  if SLAB_BIN_COUNT <=? bin then (m, a, SLAB_ERR_CORRUPTED) else
  let info := bin_at a bin in
  if bucket_count info <=? internal_top info then (m, a, SLAB_ERR_DOUBLE_FREE) else
  let m := store64 m (internal_stack info + 8 * internal_top info) p in
  let m := store32 m h SLAB_MAGIC_FREED in
  let used := if 0 <? blocks_in_use info then blocks_in_use info - 1 else blocks_in_use info in
  let in_use := if block_size info <=? total_bytes_in_use a
                then total_bytes_in_use a - block_size info else 0 in
  let info := mkBin (block_size info) (bucket_count info) used (peak_in_use info)
                (u16 (internal_top info + 1)) (internal_stack info) (internal_blocks info) in
  (m, mkSlab (total_bytes_managed a) in_use (peak_bytes_in_use a) (alloc_count a)
        (u32 (free_count a + 1)) (failed_alloc_count a)
        (<[Z.to_nat bin := info]> (bins a)) (Z.lor (bitmap a) (Z.shiftl 1 bin))
        (region a) (region_bytes a),
   SLAB_OK).

Definition slab_block_size (m : mem) (a : SlabAllocator) (p : Z) : Z :=
  if p =? 0 then 0 else
  let h := header_of p in
  if negb (in_region a h) then 0 else
  if negb (hdr_magic m h =? SLAB_MAGIC_ALLOCATED) then 0 else
  let bin := hdr_bin m h in
  if SLAB_BIN_COUNT <=? bin then 0 else block_size (bin_at a bin).

Definition slab_realloc (m : mem) (a : SlabAllocator) (p new_size : Z)
    : mem * SlabAllocator * Z :=
  if p =? 0 then slab_alloc m a new_size else
  if new_size =? 0 then let '(m, a, _) := slab_free m a p in (m, a, 0) else
  let old_cap := slab_block_size m a p in
  if old_cap =? 0 then (m, a, 0) else
  if new_size <=? old_cap then (m, a, p) else
  let '(m, a, np) := slab_alloc m a new_size in
  if np =? 0 then (m, a, 0) else
  let m := memcpy m np p old_cap in
  let '(m, a, _) := slab_free m a p in
  (m, a, np).

(** ** The size classes are the smallest that fit *)

(** One halving of the leading-zero count: a value below [2^k] is shifted up by
    [s], which the count absorbs. *)
Definition clz_half (s k n x : Z) : Z * Z :=
  if Z.land x (0x100000000 - 2 ^ k) =? 0 then (n + s, u32 (Z.shiftl x s)) else (n, x).

Lemma clz_half_spec s k n x :
  0 <= s <= k -> k + s = 32 -> 2 ^ (k - s) <= x < 0x100000000 ->
  let '(n', x') := clz_half s k n x in
  2 ^ k <= x' < 0x100000000 /\ n' - Z.log2 x' = n - Z.log2 x.
Proof.
  intros Hs Hks [Hx Hx2]. unfold clz_half.
  assert (0 < 2 ^ (k - s)) by (apply Z.pow_pos_nonneg; lia).
  rewrite land_high_mask_zero by (umach; lia).
  destruct (Z.ltb_spec x (2 ^ k)) as [Hlt|Hge]; [|done].
  rewrite Z.shiftl_mul_pow2 by lia.
  assert (0x100000000 = 2 ^ k * 2 ^ s) as Hpow
    by (rewrite <-Z.pow_add_r by lia; by rewrite Hks).
  assert (2 ^ k = 2 ^ (k - s) * 2 ^ s) as Hk
    by (rewrite <-Z.pow_add_r by lia; f_equal; lia).
  assert (0 < 2 ^ s) by (apply Z.pow_pos_nonneg; lia).
  assert (x * 2 ^ s < 0x100000000) by (rewrite Hpow; nia).
  rewrite u32_small by (umach; nia). split; [nia|]. rewrite log2_shift by lia. lia.
Qed.

Lemma sw_clz32_spec x : 0 < x < 0x100000000 -> sw_clz32 x = 31 - Z.log2 x.
Proof.
  intros Hx.
  change (sw_clz32 x) with
    (let '(n, x) := clz_half 16 16 0 x in let '(n, x) := clz_half 8 24 n x in
     let '(n, x) := clz_half 4 28 n x in let '(n, x) := clz_half 2 30 n x in
     if Z.land x (0x100000000 - 2 ^ 31) =? 0 then n + 1 else n).
  pose proof (clz_half_spec 16 16 0 x ltac:(lia) ltac:(lia) ltac:(lia)) as H1.
  destruct (clz_half 16 16 0 x) as [n1 x1].
  pose proof (clz_half_spec 8 24 n1 x1 ltac:(lia) ltac:(lia) ltac:(lia)) as H2.
  destruct (clz_half 8 24 n1 x1) as [n2 x2].
  pose proof (clz_half_spec 4 28 n2 x2 ltac:(lia) ltac:(lia) ltac:(lia)) as H3.
  destruct (clz_half 4 28 n2 x2) as [n3 x3].
  pose proof (clz_half_spec 2 30 n3 x3 ltac:(lia) ltac:(lia) ltac:(lia)) as H4.
  destruct (clz_half 2 30 n3 x3) as [n4 x4].
  rewrite land_high_mask_zero by (umach; lia).
  destruct (Z.ltb_spec x4 (2 ^ 31)) as [Hlt|Hge].
  - assert (Z.log2 x4 = 30) by (apply Z.log2_unique; lia). lia.
  - assert (Z.log2 x4 = 31) by (apply Z.log2_unique; lia). lia.
Qed.

(** For every request whose size fits 32 bits with its header, the class is the
    smallest whose block is at least the request plus a header. *)
Lemma size_to_bin_spec n :
  0 < n -> n + SLAB_HEADER_SIZE <= 0x100000000 ->
  let bin := size_to_bin n in
  0 <= bin <= SLAB_BIN_COUNT /\
  (bin < SLAB_BIN_COUNT -> n + SLAB_HEADER_SIZE <= bin_size bin) /\
  (0 < bin -> bin_size (bin - 1) < n + SLAB_HEADER_SIZE).
Proof.
  unfold size_to_bin, SLAB_HEADER_SIZE, SLAB_MIN_BLOCK, SLAB_BIN_COUNT, bin_size. intros Hn Hn2.
  rewrite u64_small by (umach; lia).
  destruct (Z.leb_spec (n + 8) 32); [change (Z.shiftl SLAB_MIN_BLOCK 0) with 32; cbv zeta; change (Z.shiftl 32 0) with 32; lia|].
  rewrite u32_small, sw_clz32_spec by (umach; lia).
  pose proof (Z.log2_spec (n + 8 - 1) ltac:(lia)) as [Hlo Hhi].
  set (l := Z.log2 (n + 8 - 1)) in *.
  assert (5 <= l) by (apply (Z.log2_le_mono 32); lia).
  replace (32 - (31 - l) - 5) with (l - 4) by lia.
  rewrite (proj2 (Z.ltb_ge _ _)) by lia.
  assert (forall j, 0 <= j -> Z.shiftl SLAB_MIN_BLOCK j = 2 ^ (j + 5)) as Hsz.
  { intros. unfold SLAB_MIN_BLOCK. rewrite Z.shiftl_mul_pow2, Z.pow_add_r by lia. lia. }
  destruct (Z.leb_spec 16 (l - 4)); (split; [lia|]); split; intros; try lia;
    rewrite Hsz by lia.
  - assert (2 ^ (16 - 1 + 5) <= 2 ^ l) by (apply Z.pow_le_mono_r; lia). lia.
  - replace (l - 4 + 5) with (Z.succ l) by lia. lia.
  - replace (l - 4 - 1 + 5) with l by lia. lia.
Qed.
