(* ===== verification/SlabInv.v ===== *)
(** Correctness of the slab allocator: the layout [slab_init] carves out of the
    region, the invariant that ties the free-pointer stacks, the block headers,
    the bitmap and the statistics together, and what allocation and release do
    to it. *)
From S2P Require Import Prelude HostMem SlabStack.

(** ** Geometry of the region *)

Definition stk (info : SlabBinInfo) (k : Z) : Z := internal_stack info + 8 * k.
Definition hdr (info : SlabBinInfo) (b : Z) : Z := internal_blocks info + b * block_total info.
Definition block_ptr (info : SlabBinInfo) (b : Z) : Z := hdr info b + SLAB_HEADER_SIZE.

Definition stack_len (info : SlabBinInfo) : Z := bucket_count info * 8.
Definition blocks_len (info : SlabBinInfo) : Z := bucket_count info * block_total info.

(** The areas [f b, f b + len b) of the non-empty bins follow each other in
    [lo, hi). *)
Fixpoint ordered (f len : SlabBinInfo -> Z) (lo : Z) (bs : list SlabBinInfo) (hi : Z) : Prop :=
  match bs with
  | [] => lo <= hi
  | b :: bs' =>
      if bucket_count b =? 0 then ordered f len lo bs' hi
      else lo <= f b /\ ordered f len (f b + len b) bs' hi
  end.

(** Same block size, count and areas: all that the layout depends on. *)
Definition same_geom (x y : SlabBinInfo) : Prop :=
  block_size x = block_size y /\ bucket_count x = bucket_count y /\
  internal_stack x = internal_stack y /\ internal_blocks x = internal_blocks y.

(** Bin [i] has the block size of its class and a 16-bit count. *)
Definition bin_shape (i : nat) (info : SlabBinInfo) : Prop :=
  block_size info = bin_size (Z.of_nat i) /\ is_u16 (bucket_count info).

Record slab_layout (a : SlabAllocator) (mid : Z) : Prop := {
  lay_len : length (bins a) = 16%nat;
  lay_shape i info : bins a !! i = Some info -> bin_shape i info;
  lay_stacks : ordered internal_stack stack_len (region a) (bins a) mid;
  lay_blocks : ordered internal_blocks blocks_len mid (bins a) (region a + region_bytes a);
  lay_region : 0 < region a /\ region a + region_bytes a < 0x10000000000000000
}.

Lemma bin_size_pow i : 0 <= i -> bin_size i = 2 ^ (i + 5).
Proof.
  intros. unfold bin_size, SLAB_MIN_BLOCK. rewrite Z.shiftl_mul_pow2, Z.pow_add_r by lia. lia.
Qed.

Lemma bin_size_bounds i : 0 <= i < 16 -> 32 <= bin_size i <= 0x100000.
Proof.
  intros. rewrite bin_size_pow by lia.
  pose proof (Z.pow_le_mono_r 2 5 (i + 5) ltac:(lia) ltac:(lia)).
  pose proof (Z.pow_le_mono_r 2 (i + 5) 20 ltac:(lia) ltac:(lia)). lia.
Qed.

Lemma bin_shape_total i info :
  (i < 16)%nat -> bin_shape i info ->
  0 <= bucket_count info < 0x10000 /\ 32 <= block_size info <= 0x100000 /\
  40 <= block_total info.
Proof.
  intros Hi [Hs Hc]. pose proof (bin_size_bounds (Z.of_nat i) ltac:(lia)).
  unfold block_total, SLAB_HEADER_SIZE. umach. lia.
Qed.

Section ordered.
Context (f len : SlabBinInfo -> Z).

Lemma ordered_lo lo lo' bs hi :
  lo' <= lo -> ordered f len lo bs hi -> ordered f len lo' bs hi.
Proof.
  intros Hlo. revert lo lo' Hlo. induction bs as [|b bs IH]; simpl; [lia|].
  intros lo lo' Hlo. case_match; [by apply IH|]. intros [? ?]. split; [lia|done].
Qed.

Lemma ordered_hi lo bs hi hi' :
  hi <= hi' -> ordered f len lo bs hi -> ordered f len lo bs hi'.
Proof.
  intros Hhi. revert lo. induction bs as [|b bs IH]; simpl; [lia|].
  intros lo. case_match; [by apply IH|]. intros [? ?]. split; [lia|]. by apply IH.
Qed.

(** The bins' areas have non-negative lengths. *)
Definition lens_ok (bs : list SlabBinInfo) : Prop :=
  Forall (fun b => bucket_count b <> 0 -> 0 <= len b) bs.

Lemma ordered_range lo bs hi : lens_ok bs -> ordered f len lo bs hi -> lo <= hi.
Proof.
  revert lo. induction bs as [|b bs IH]; intros lo Hb; simpl; [done|].
  apply Forall_cons in Hb as [Hb Hbs].
  destruct (Z.eqb_spec (bucket_count b) 0) as [|n]; [by apply IH|].
  intros [? H]. apply IH in H; [|done]. specialize (Hb n). lia.
Qed.

Lemma ordered_lookup lo bs hi i b :
  lens_ok bs -> ordered f len lo bs hi -> bs !! i = Some b -> bucket_count b <> 0 ->
  lo <= f b /\ f b + len b <= hi.
Proof.
  revert lo i. induction bs as [|x bs IH]; intros lo i Hb; [done|].
  apply Forall_cons in Hb as [Hx Hbs]. simpl.
  destruct i as [|i]; simpl; intros Ho Hi Hn.
  - simplify_eq. rewrite (proj2 (Z.eqb_neq _ _) Hn) in Ho. destruct Ho as [? Ho].
    apply ordered_range in Ho; [|done]. lia.
  - destruct (Z.eqb_spec (bucket_count x) 0) as [|Hn0]; [by eapply IH|].
    destruct Ho as [? Ho]. specialize (Hx Hn0). destruct (IH _ i Hbs Ho Hi Hn). lia.
Qed.

Lemma ordered_lt lo bs hi i j x y :
  lens_ok bs -> ordered f len lo bs hi ->
  bs !! i = Some x -> bs !! j = Some y -> (i < j)%nat ->
  bucket_count x <> 0 -> bucket_count y <> 0 -> f x + len x <= f y.
Proof.
  revert lo i j. induction bs as [|z bs IH]; intros lo i j Hb; [done|].
  apply Forall_cons in Hb as [Hz Hbs]. simpl.
  destruct i as [|i], j as [|j]; simpl; intros Ho Hi Hj Hij Hx Hy; try lia.
  - simplify_eq. rewrite (proj2 (Z.eqb_neq _ _) Hx) in Ho. destruct Ho as [? Ho].
    by destruct (ordered_lookup _ _ _ _ _ Hbs Ho Hj Hy).
  - destruct (Z.eqb_spec (bucket_count z) 0) as [|Hn0].
    + eapply IH; eauto. lia.
    + destruct Ho as [? Ho]. eapply IH; eauto. lia.
Qed.

Lemma ordered_apart lo bs hi i j x y :
  lens_ok bs -> ordered f len lo bs hi ->
  bs !! i = Some x -> bs !! j = Some y -> i <> j ->
  bucket_count x <> 0 -> bucket_count y <> 0 ->
  rdisj (f x) (len x) (f y) (len y).
Proof.
  intros Hb Ho Hi Hj Hij Hx Hy. unfold rdisj.
  destruct (decide (i < j)%nat); [left|right]; eapply ordered_lt; eauto; lia.
Qed.

Lemma ordered_insert lo bs hi i x y :
  bs !! i = Some x -> bucket_count x = bucket_count y -> f x = f y -> len x = len y ->
  ordered f len lo bs hi -> ordered f len lo (<[i:=y]> bs) hi.
Proof.
  intros Hi Hc Hf Hl. revert lo i Hi. induction bs as [|z bs IH]; intros lo i Hi; [done|].
  destruct i as [|i]; simpl in *; simplify_eq.
  - by rewrite Hc, Hf, Hl.
  - case_match; [by apply IH|]. intros [??]. split; [done|]. by apply IH.
Qed.

Lemma ordered_same bs bs' lo hi :
  Forall2 (fun x y => bucket_count y = bucket_count x /\ f y = f x /\ len y = len x) bs bs' ->
  ordered f len lo bs hi -> ordered f len lo bs' hi.
Proof.
  intros HF. revert lo. induction HF as [|x y l l' (H1 & H2 & H3) _ IH]; intros lo; [done|].
  simpl. rewrite H1, H2, H3. case_match; [apply IH|]. intros [??]. split; [done|]. by apply IH.
Qed.
End ordered.

Section layout.
Context (a : SlabAllocator) (mid : Z).
Hypothesis L : slab_layout a mid.

Lemma lay_lt i info : bins a !! i = Some info -> (i < 16)%nat.
Proof. intros Hi. apply lookup_lt_Some in Hi. by rewrite (lay_len _ _ L) in Hi. Qed.

Lemma lay_total i info : bins a !! i = Some info ->
  0 <= bucket_count info < 0x10000 /\ 32 <= block_size info <= 0x100000 /\
  40 <= block_total info.
Proof. intros Hi. eapply bin_shape_total; [by eapply lay_lt|by apply (lay_shape _ _ L)]. Qed.

Lemma lay_lens (len : SlabBinInfo -> Z) :
  (forall b, 0 <= bucket_count b -> 0 <= block_total b -> 0 <= len b) ->
  lens_ok len (bins a).
Proof.
  intros Hlen. apply Forall_lookup. intros i info Hi _.
  pose proof (lay_total i info Hi). apply Hlen; lia.
Qed.

Lemma lay_stack_lens : lens_ok stack_len (bins a).
Proof. apply lay_lens. unfold stack_len. lia. Qed.
Lemma lay_block_lens : lens_ok blocks_len (bins a).
Proof. apply lay_lens. unfold blocks_len. nia. Qed.

(** Slots of the pointer stacks are pairwise disjoint. *)
Lemma stk_stk i j x y k l :
  bins a !! i = Some x -> bins a !! j = Some y ->
  0 <= k < bucket_count x -> 0 <= l < bucket_count y -> (i <> j \/ k <> l) ->
  rdisj (stk x k) 8 (stk y l) 8.
Proof.
  intros Hi Hj Hk Hl Hne. destruct (decide (i = j)) as [->|Hij].
  - simplify_eq. unfold rdisj, stk. lia.
  - pose proof (ordered_apart _ _ _ _ _ i j x y lay_stack_lens (lay_stacks _ _ L)
      Hi Hj Hij ltac:(lia) ltac:(lia)).
    unfold rdisj, stk, stack_len in *. lia.
Qed.

Lemma hdr_inside x b :
  0 <= block_total x -> 0 <= b < bucket_count x ->
  internal_blocks x <= hdr x b /\
  hdr x b + block_total x <= internal_blocks x + blocks_len x.
Proof. unfold hdr, blocks_len. nia. Qed.

(** The stacks and the blocks are disjoint. *)
Lemma stk_blk i j x y k b :
  bins a !! i = Some x -> bins a !! j = Some y ->
  0 <= k < bucket_count x -> 0 <= b < bucket_count y ->
  rdisj (stk x k) 8 (hdr y b) (block_total y).
Proof.
  intros Hi Hj Hk Hb. pose proof (lay_total j y Hj). left.
  destruct (ordered_lookup _ _ _ _ _ i x lay_stack_lens (lay_stacks _ _ L) Hi ltac:(lia)).
  destruct (ordered_lookup _ _ _ _ _ j y lay_block_lens (lay_blocks _ _ L) Hj ltac:(lia)).
  pose proof (hdr_inside y b ltac:(lia) Hb). unfold stk, stack_len in *. lia.
Qed.

(** Distinct blocks, headers included, are disjoint. *)
Lemma blk_blk i j x y b c :
  bins a !! i = Some x -> bins a !! j = Some y ->
  0 <= b < bucket_count x -> 0 <= c < bucket_count y -> (i <> j \/ b <> c) ->
  rdisj (hdr x b) (block_total x) (hdr y c) (block_total y).
Proof.
  intros Hi Hj Hb Hc Hne. pose proof (lay_total i x Hi). pose proof (lay_total j y Hj).
  destruct (decide (i = j)) as [->|Hij].
  - simplify_eq. unfold hdr. apply (slot_disj _ _ b c); lia.
  - pose proof (ordered_apart _ _ _ _ _ i j x y lay_block_lens (lay_blocks _ _ L)
      Hi Hj Hij ltac:(lia) ltac:(lia)).
    pose proof (hdr_inside x b ltac:(lia) Hb). pose proof (hdr_inside y c ltac:(lia) Hc).
    unfold rdisj in *. lia.
Qed.

(** Everything is inside the region. *)
Lemma blk_region i x b :
  bins a !! i = Some x -> 0 <= b < bucket_count x ->
  region a <= hdr x b /\ hdr x b + block_total x <= region a + region_bytes a.
Proof.
  intros Hi Hb. pose proof (lay_total i x Hi).
  destruct (ordered_lookup _ _ _ _ _ i x lay_block_lens (lay_blocks _ _ L) Hi ltac:(lia)).
  pose proof (hdr_inside x b ltac:(lia) Hb).
  pose proof (ordered_range _ _ _ _ _ lay_stack_lens (lay_stacks _ _ L)). lia.
Qed.

Lemma stk_region i x k :
  bins a !! i = Some x -> 0 <= k < bucket_count x ->
  region a <= stk x k /\ stk x k + 8 <= region a + region_bytes a.
Proof.
  intros Hi Hk.
  destruct (ordered_lookup _ _ _ _ _ i x lay_stack_lens (lay_stacks _ _ L) Hi ltac:(lia)).
  pose proof (ordered_range _ _ _ _ _ lay_block_lens (lay_blocks _ _ L)).
  unfold stk, stack_len in *. lia.
Qed.

(** A block is named by one bin and one index. *)
Lemma block_ptr_inj i j x y b c :
  bins a !! i = Some x -> bins a !! j = Some y ->
  0 <= b < bucket_count x -> 0 <= c < bucket_count y ->
  block_ptr x b = block_ptr y c -> i = j /\ b = c.
Proof.
  intros Hi Hj Hb Hc Heq. pose proof (lay_total i x Hi). pose proof (lay_total j y Hj).
  destruct (decide (i = j)), (decide (b = c)); [done|exfalso..];
    pose proof (blk_blk i j x y b c Hi Hj Hb Hc ltac:(tauto));
    unfold rdisj, block_ptr in *; lia.
Qed.

Lemma header_of_ptr i x b :
  bins a !! i = Some x -> 0 <= b < bucket_count x -> header_of (block_ptr x b) = hdr x b.
Proof.
  intros Hi Hb. pose proof (blk_region i x b Hi Hb). pose proof (lay_total i x Hi).
  destruct (lay_region _ _ L). unfold header_of, block_ptr.
  rewrite u64_small by (umach; lia). lia.
Qed.
End layout.

(** The layout survives replacing a bin by one of the same geometry. *)
Lemma slab_layout_insert a mid a' i x y :
  slab_layout a mid -> bins a !! i = Some x -> same_geom x y ->
  bins a' = <[i:=y]> (bins a) -> region a' = region a -> region_bytes a' = region_bytes a ->
  slab_layout a' mid.
Proof.
  intros L Hi (Hs & Hc & Hst & Hb) Hbins Hr Hn.
  split; rewrite ?Hbins, ?Hr, ?Hn.
  - rewrite length_insert. apply L.
  - intros j info Hj. destruct (decide (i = j)) as [->|Hne].
    + rewrite list_lookup_insert_eq in Hj by (by eapply lookup_lt_Some). simplify_eq.
      destruct (lay_shape _ _ L _ _ Hi). split; congruence.
    + rewrite list_lookup_insert_ne in Hj by done. by apply L.
  - eapply ordered_insert; [done|done|done| |apply L]. unfold stack_len. congruence.
  - eapply ordered_insert; [done|done|done| |apply L].
    unfold blocks_len, block_total. congruence.
  - apply L.
Qed.

(** ** The state of a bin *)

(** The pointers on the bin's free stack, bottom first. *)
Definition bin_free (m : mem) (info : SlabBinInfo) : list Z :=
  map (fun k => load64 m (stk info (Z.of_nat k))) (seq 0 (Z.to_nat (internal_top info))).

(** The magic a block's header must carry. *)
Definition magic_of (free : list Z) (p : Z) : Z :=
  if decide (p ∈ free) then SLAB_MAGIC_FREED else SLAB_MAGIC_ALLOCATED.

Record bin_ok (m : mem) (i : nat) (info : SlabBinInfo) : Prop := {
  bo_top : 0 <= internal_top info <= bucket_count info;
  bo_used : blocks_in_use info = bucket_count info - internal_top info;
  bo_nodup : NoDup (bin_free m info);
  bo_free p : p ∈ bin_free m info ->
    exists b, 0 <= b < bucket_count info /\ p = block_ptr info b;
  bo_bin b : 0 <= b < bucket_count info -> hdr_bin m (hdr info b) = Z.of_nat i;
  bo_magic b : 0 <= b < bucket_count info ->
    hdr_magic m (hdr info b) = magic_of (bin_free m info) (block_ptr info b)
}.

(** Bytes handed out. *)
Definition used_bytes (bs : list SlabBinInfo) : Z :=
  foldr (fun b n => blocks_in_use b * block_size b + n) 0 bs.

Record slab_inv (m : mem) (a : SlabAllocator) : Prop := {
  si_layout : exists mid, slab_layout a mid;
  si_bins i info : bins a !! i = Some info -> bin_ok m i info;
  si_bitmap i info : bins a !! i = Some info ->
    Z.testbit (bitmap a) (Z.of_nat i) = (0 <? internal_top info);
  si_used : total_bytes_in_use a = used_bytes (bins a)
}.

(** Block [b] of bin [i], with payload at [p], is handed out. *)
Definition live_block (m : mem) (a : SlabAllocator) (i : nat) (info : SlabBinInfo) (b : Z) : Prop :=
  bins a !! i = Some info /\ 0 <= b < bucket_count info /\
  block_ptr info b ∉ bin_free m info.

(** [p] is the payload address of a handed-out block of [n] usable bytes. *)
Definition live (m : mem) (a : SlabAllocator) (p n : Z) : Prop :=
  exists i info b, live_block m a i info b /\ p = block_ptr info b /\ n = block_size info.

Lemma bin_free_length m info : length (bin_free m info) = Z.to_nat (internal_top info).
Proof. unfold bin_free. by rewrite length_map, length_seq. Qed.

(** The free stack depends on its slots only. *)
Lemma bin_free_agree m m' x y :
  internal_top x = internal_top y -> internal_stack x = internal_stack y ->
  (forall k, 0 <= k < internal_top x -> mem_agree (rng (stk x k) 8) m m') ->
  bin_free m' y = bin_free m x.
Proof.
  intros Ht Hs Hag. unfold bin_free. rewrite <-Ht. apply map_seq_ext. intros k Hk.
  unfold stk in *. rewrite <-Hs. symmetry. apply load64_agree, Hag. lia.
Qed.

Lemma frame_agree a n m m' b k :
  mem_frame a n m m' -> rdisj a n b k -> mem_agree (rng b k) m m'.
Proof. intros Hf Hd x Hx. apply Hf. unfold rng, rdisj in *. lia. Qed.

(** A bin depends on its stack slots and headers only. *)
Lemma bin_ok_agree m m' i info :
  bin_ok m i info ->
  (forall k, 0 <= k < bucket_count info -> mem_agree (rng (stk info k) 8) m m') ->
  (forall b, 0 <= b < bucket_count info -> mem_agree (rng (hdr info b) 8) m m') ->
  bin_ok m' i info /\ bin_free m' info = bin_free m info.
Proof.
  intros [] Hstk Hhdr.
  assert (bin_free m' info = bin_free m info) as Hfree
    by (apply bin_free_agree; [done|done|]; intros k Hk; apply Hstk; lia).
  assert (forall b o, 0 <= b < bucket_count info -> 0 <= o <= 4 ->
    load32 m' (hdr info b + o) = load32 m (hdr info b + o)) as Hld.
  { intros b o Hb Ho. symmetry. apply load32_agree. eapply mem_agree_mono; [|by apply (Hhdr b)].
    unfold rng. lia. }
  split; [|done]. split; rewrite ?Hfree; try done.
  - intros b Hb. rewrite <-(bo_bin0 b Hb). by apply Hld.
  - intros b Hb. rewrite <-(bo_magic0 b Hb). unfold hdr_magic. rewrite <-(Z.add_0_r (hdr info b)). by apply Hld.
Qed.

Lemma bin_ok_frame m m' w n i info :
  bin_ok m i info -> mem_frame w n m m' ->
  (forall k, 0 <= k < bucket_count info -> rdisj w n (stk info k) 8) ->
  (forall b, 0 <= b < bucket_count info -> rdisj w n (hdr info b) 8) ->
  bin_ok m' i info /\ bin_free m' info = bin_free m info.
Proof.
  intros Hok Hf Hstk Hhdr. apply bin_ok_agree; [done|..]; intros; (eapply frame_agree; [done|auto]).
Qed.

Lemma used_bytes_insert bs i x y :
  bs !! i = Some x ->
  used_bytes (<[i:=y]> bs) =
  used_bytes bs - blocks_in_use x * block_size x + blocks_in_use y * block_size y.
Proof.
  revert i. induction bs as [|z bs IH]; intros i Hi; [done|].
  destruct i as [|i]; simpl in *; simplify_eq; [lia|]. rewrite (IH i Hi). lia.
Qed.

(** A bin whose use count is within its capacity. *)
Definition use_ok (b : SlabBinInfo) : Prop := 0 <= blocks_in_use b <= bucket_count b.

Lemma bin_ok_use m i info : bin_ok m i info -> use_ok info.
Proof. intros []. unfold use_ok. lia. Qed.

Lemma bins_use_ok m a : slab_inv m a -> Forall use_ok (bins a).
Proof. intros I. apply Forall_lookup. intros i x Hx. by eapply bin_ok_use, si_bins. Qed.

(** What is handed out fits the region. *)
Lemma used_bytes_bound a mid bs :
  slab_layout a mid -> bs = bins a -> Forall use_ok bs ->
  0 <= used_bytes bs <= region_bytes a.
Proof.
  intros L -> Hok.
  assert (forall bs lo hi, lens_ok blocks_len bs ->
    Forall use_ok bs -> Forall (fun b => 0 <= block_size b) bs ->
    ordered internal_blocks blocks_len lo bs hi -> 0 <= used_bytes bs <= hi - lo) as Hsum.
  { unfold use_ok. induction bs as [|b bs IH]; simpl; intros lo hi Hl Hu Hb Ho; [lia|].
    apply Forall_cons in Hl as [Hlb Hl]. apply Forall_cons in Hb as [Hb1 Hb].
    apply Forall_cons in Hu as [Hu1 Hu].
    destruct (Z.eqb_spec (bucket_count b) 0) as [H0|H0].
    - specialize (IH lo hi Hl Hu Hb Ho). nia.
    - destruct Ho as [Hlo Ho]. specialize (IH _ hi Hl Hu Hb Ho).
      unfold blocks_len, block_total, SLAB_HEADER_SIZE in *. nia. }
  pose proof (ordered_range _ _ _ _ _ (lay_stack_lens a mid L) (lay_stacks _ _ L)).
  pose proof (Hsum _ mid (region a + region_bytes a) (lay_block_lens a mid L) Hok) as Hs.
  cut (Forall (fun b => 0 <= block_size b) (bins a)).
  { intros HF. specialize (Hs HF (lay_blocks _ _ L)). lia. }
  apply Forall_lookup. intros i info Hi. pose proof (lay_total a mid L i info Hi). lia.
Qed.

Lemma bin_at_lookup a mid bin :
  slab_layout a mid -> 0 <= bin < 16 -> bins a !! Z.to_nat bin = Some (bin_at a bin).
Proof.
  intros L Hb. unfold bin_at. destruct (nth_lookup_or_length (bins a) (Z.to_nat bin)
    (mkBin 0 0 0 0 0 0 0)) as [H|H]; [done|]. rewrite (lay_len _ _ L) in H. lia.
Qed.

(** ** One block changes hands *)

(** Writes confined to block [b] of bin [i]'s header, and to the slot at the
    top of its stack, leave the other bins alone. *)
Lemma bin_ok_other m m' a mid i j x y b :
  slab_layout a mid -> bins a !! i = Some x -> bins a !! j = Some y -> i <> j ->
  0 <= b < bucket_count x -> bin_ok m j y ->
  mem_frame (hdr x b) 8 m m' -> bin_ok m' j y /\ bin_free m' y = bin_free m y.
Proof.
  intros L Hi Hj Hij Hb Hok Hf. eapply bin_ok_frame; [done|done|..].
  - intros k Hk. pose proof (stk_blk a mid L j i y x k b Hj Hi Hk Hb).
    pose proof (lay_total a mid L i x Hi). unfold rdisj in *. lia.
  - intros c Hc. pose proof (blk_blk a mid L i j x y b c Hi Hj Hb Hc ltac:(tauto)).
    pose proof (lay_total a mid L i x Hi). pose proof (lay_total a mid L j y Hj).
    unfold rdisj in *. lia.
Qed.

Lemma bin_free_snoc m x y :
  0 <= internal_top x -> internal_top y = internal_top x + 1 ->
  internal_stack y = internal_stack x ->
  bin_free m y = bin_free m x ++ [load64 m (stk x (internal_top x))].
Proof.
  intros H0 Ht Hs. unfold bin_free. rewrite Ht, Z2Nat.inj_add, Nat.add_1_r, seq_S, map_app by lia.
  cbn [map]. rewrite Nat.add_0_l, Z2Nat.id by lia. unfold stk. by rewrite Hs.
Qed.

Lemma elem_of_snoc_ne {A} (l : list A) x y : x <> y -> x ∈ l ++ [y] <-> x ∈ l.
Proof. intros. rewrite elem_of_app, list_elem_of_singleton. tauto. Qed.

Lemma magic_of_iff f g p : (p ∈ f <-> p ∈ g) -> magic_of f p = magic_of g p.
Proof. intros H. unfold magic_of. by do 2 case_decide; try tauto. Qed.

(** The bin of which one block has just been handed out. *)
Definition taken (x : SlabBinInfo) (peak : Z) : SlabBinInfo :=
  mkBin (block_size x) (bucket_count x) (blocks_in_use x + 1) peak (internal_top x - 1)
    (internal_stack x) (internal_blocks x).

(** The bin to which one block has just been returned. *)
Definition returned (x : SlabBinInfo) : SlabBinInfo :=
  mkBin (block_size x) (bucket_count x) (blocks_in_use x - 1) (peak_in_use x)
    (internal_top x + 1) (internal_stack x) (internal_blocks x).

Lemma same_geom_taken x peak : same_geom x (taken x peak). Proof. done. Qed.
Lemma same_geom_returned x : same_geom x (returned x). Proof. done. Qed.

Lemma taken_ok m a mid i x peak b :
  slab_layout a mid -> bins a !! i = Some x -> bin_ok m i x -> 0 < internal_top x ->
  0 <= b < bucket_count x ->
  load64 m (stk x (internal_top x - 1)) = block_ptr x b ->
  let m' := store32 m (hdr x b) SLAB_MAGIC_ALLOCATED in
  bin_ok m' i (taken x peak) /\
  bin_free m x = bin_free m' (taken x peak) ++ [block_ptr x b].
Proof.
  intros L Hi Hok Ht Hb Hp m'.
  assert (mem_frame (hdr x b) 4 m m') as Hf by apply store32_frame.
  pose proof (lay_total a mid L i x Hi) as Htot.
  destruct Hok as [Htop Hused Hnd Hfr Hbin Hmag].
  assert (bin_free m' (taken x peak) = bin_free m (taken x peak)) as Heq.
  { apply bin_free_agree; [done|done|]. cbn [internal_top taken]. intros k Hk.
    eapply frame_agree; [done|].
    pose proof (stk_blk a mid L i i x x k b Hi Hi ltac:(lia) Hb).
    unfold stk in *. cbn [internal_stack taken]. unfold rdisj in *. lia. }
  assert (bin_free m x = bin_free m (taken x peak) ++ [block_ptr x b]) as Hsn.
  { rewrite <-Hp. apply (bin_free_snoc m (taken x peak) x); cbn; lia || done. }
  rewrite Heq. split; [|done].
  rewrite Hsn in Hnd. apply NoDup_app in Hnd as (Hnd & Hdj & _).
  split; rewrite ?Heq; cbn [internal_top bucket_count blocks_in_use taken]; try lia; try done.
  - intros p Hin. apply Hfr. rewrite Hsn. apply elem_of_app. by left.
  - intros c Hc. rewrite <-(Hbin c Hc). unfold hdr_bin. change (hdr (taken x peak) c) with (hdr x c).
    eapply load32_frame; [done|]. unfold rdisj.
    destruct (decide (b = c)) as [->|Hne]; [lia|].
    pose proof (blk_blk a mid L i i x x b c Hi Hi Hb Hc ltac:(tauto)).
    unfold rdisj in *. lia.
  - intros c Hc. change (hdr (taken x peak) c) with (hdr x c).
    change (block_ptr (taken x peak) c) with (block_ptr x c).
    destruct (decide (b = c)) as [->|Hne].
    + unfold hdr_magic, m'. rewrite load32_store32_eq. unfold magic_of.
      case_decide as Hin; [|done]. exfalso. apply (Hdj _ Hin). by apply list_elem_of_singleton.
    + pose proof (blk_blk a mid L i i x x b c Hi Hi Hb Hc ltac:(tauto)).
      transitivity (hdr_magic m (hdr x c)).
      { eapply load32_frame; [done|]. unfold rdisj in *. lia. }
      rewrite (Hmag c Hc), Hsn. apply magic_of_iff, elem_of_snoc_ne.
      intros He. by destruct (block_ptr_inj a mid L i i x x c b Hi Hi Hc Hb He).
Qed.

Lemma returned_ok m a mid i x b :
  slab_layout a mid -> bins a !! i = Some x -> bin_ok m i x ->
  0 <= b < bucket_count x -> block_ptr x b ∉ bin_free m x ->
  internal_top x < bucket_count x ->
  let m' := store32 (store64 m (stk x (internal_top x)) (block_ptr x b)) (hdr x b)
              SLAB_MAGIC_FREED in
  bin_ok m' i (returned x) /\ bin_free m' (returned x) = bin_free m x ++ [block_ptr x b].
Proof.
  intros L Hi Hok Hb Hnin Hroom m'.
  pose proof (lay_total a mid L i x Hi) as Htot.
  pose proof (blk_region a mid L i x b Hi Hb). destruct (lay_region _ _ L) as [Hr1 Hr2].
  destruct Hok as [Htop Hused Hnd Hfr Hbin Hmag].
  pose proof (store64_frame m (stk x (internal_top x)) (block_ptr x b)) as Hf1.
  set (m1 := store64 m (stk x (internal_top x)) (block_ptr x b)) in *.
  assert (mem_frame (hdr x b) 4 m1 m') as Hf2 by apply store32_frame.
  assert (forall k, 0 <= k < bucket_count x -> mem_agree (rng (stk x k) 8) m1 m') as Hst.
  { intros k Hk. eapply frame_agree; [done|].
    pose proof (stk_blk a mid L i i x x k b Hi Hi Hk Hb). unfold rdisj in *. lia. }
  assert (bin_free m' (returned x) = bin_free m x ++ [block_ptr x b]) as Hsn.
  { rewrite (bin_free_snoc m' x (returned x)) by (cbn; lia || done). f_equal.
    - apply bin_free_agree; [done|done|]. intros k Hk. transitivity m1; [|apply Hst; lia].
      eapply frame_agree; [done|]. apply (stk_stk a mid L i i x x); try done; lia.
    - f_equal. rewrite <-(load64_agree m1 m') by (apply Hst; lia).
      unfold m1. rewrite load64_store64_eq. apply u64_small.
      unfold block_ptr, SLAB_HEADER_SIZE, is_u64 in *. lia. }
  assert (forall c, 0 <= c < bucket_count x -> forall o, 0 <= o <= 4 ->
      (b <> c \/ o = 4) -> load32 m' (hdr x c + o) = load32 m (hdr x c + o)) as Hld.
  { intros c Hc o Ho Hor. transitivity (load32 m1 (hdr x c + o)).
    - eapply load32_frame; [done|]. destruct (decide (b = c)) as [->|Hne].
      + unfold rdisj. lia.
      + pose proof (blk_blk a mid L i i x x b c Hi Hi Hb Hc ltac:(tauto)).
        unfold rdisj in *. lia.
    - eapply load32_frame; [done|].
      pose proof (stk_blk a mid L i i x x (internal_top x) c Hi Hi ltac:(lia) Hc).
      unfold rdisj in *. lia. }
  split; [|done].
  split; rewrite ?Hsn; cbn [internal_top bucket_count blocks_in_use returned]; try lia.
  - apply NoDup_app. split_and!; [done| |apply NoDup_singleton].
    intros p Hp ->%list_elem_of_singleton. done.
  - intros p [Hp|Hp]%elem_of_app; [by apply Hfr|].
    apply list_elem_of_singleton in Hp. by exists b.
  - intros c Hc. rewrite <-(Hbin c Hc). apply Hld; [done|lia|by right].
  - intros c Hc. change (hdr (returned x) c) with (hdr x c).
    change (block_ptr (returned x) c) with (block_ptr x c). unfold hdr_magic.
    destruct (decide (b = c)) as [->|Hne].
    + unfold m'. rewrite load32_store32_eq. unfold magic_of. case_decide as Hin; [done|].
      destruct Hin. apply elem_of_app. right. by apply list_elem_of_singleton.
    + pose proof (Hld c Hc 0 ltac:(lia) (or_introl Hne)) as He. rewrite !Z.add_0_r in He.
      rewrite He. unfold hdr_magic in Hmag. rewrite (Hmag c Hc).
      apply magic_of_iff. symmetry. apply elem_of_snoc_ne.
      intros He2. by destruct (block_ptr_inj a mid L i i x x c b Hi Hi Hc Hb He2).
Qed.

(** ** Allocator invariant from its bins *)

Lemma slab_inv_update m m' a a' mid i x y :
  slab_layout a mid -> slab_inv m a -> bins a !! i = Some x -> same_geom x y ->
  bins a' = <[i:=y]> (bins a) -> region a' = region a -> region_bytes a' = region_bytes a ->
  (forall j z, i <> j -> bins a !! j = Some z -> bin_ok m' j z) ->
  bin_ok m' i y ->
  Z.testbit (bitmap a') (Z.of_nat i) = (0 <? internal_top y) ->
  (forall j, (j < 16)%nat -> i <> j ->
     Z.testbit (bitmap a') (Z.of_nat j) = Z.testbit (bitmap a) (Z.of_nat j)) ->
  total_bytes_in_use a' =
    used_bytes (bins a) - blocks_in_use x * block_size x + blocks_in_use y * block_size y ->
  slab_inv m' a'.
Proof.
  intros L [_ Hok Hbm _] Hi Hg Hbins Hr Hrb Hoth Hy Hbi Hbj Htot.
  assert (forall j z, bins a' !! j = Some z ->
    (i = j /\ z = y) \/ (i <> j /\ bins a !! j = Some z)) as Hcase.
  { intros j z Hj. rewrite Hbins in Hj. destruct (decide (i = j)) as [->|Hne].
    - rewrite list_lookup_insert_eq in Hj by (by eapply lookup_lt_Some). simplify_eq. auto.
    - rewrite list_lookup_insert_ne in Hj by done. auto. }
  split.
  - exists mid. by eapply slab_layout_insert.
  - intros j z [[<- ->]|[Hne Hj]]%Hcase; auto.
  - intros j z [[<- ->]|[Hne Hj]]%Hcase; [done|].
    rewrite Hbj; [by apply Hbm|by eapply lay_lt|done].
  - rewrite Hbins, (used_bytes_insert _ _ x) by done. done.
Qed.

Lemma same_geom_ptr x y b : same_geom x y -> block_ptr y b = block_ptr x b.
Proof.
  intros (Hs & _ & _ & Hb). unfold block_ptr, hdr, block_total. by rewrite Hs, Hb.
Qed.

(** How the set of live blocks follows one bin's free stack. *)
Lemma live_update m m' a a' mid i x y q s :
  slab_layout a mid -> bins a !! i = Some x -> same_geom x y ->
  bins a' = <[i:=y]> (bins a) ->
  (forall j z, i <> j -> bins a !! j = Some z -> bin_free m' z = bin_free m z) ->
  live m' a' q s <->
  (exists j z c, i <> j /\ live_block m a j z c /\ q = block_ptr z c /\ s = block_size z) \/
  (exists c, 0 <= c < bucket_count x /\ (block_ptr x c ∉ bin_free m' y) /\
     q = block_ptr x c /\ s = block_size x).
Proof.
  intros L Hi Hg Hbins Hoth. pose proof Hg as (Hs & Hc & _). unfold live, live_block.
  split.
  - intros (j & z & c & (Hj & Hrange & Hfree) & -> & ->). rewrite Hbins in Hj.
    destruct (decide (i = j)) as [->|Hne].
    + rewrite list_lookup_insert_eq in Hj by (by eapply lookup_lt_Some). simplify_eq.
      right. exists c. rewrite (same_geom_ptr x z) in * by done. rewrite Hs, Hc. done.
    + rewrite list_lookup_insert_ne in Hj by done. left. exists j, z, c.
      rewrite (Hoth j z) in Hfree by done. done.
  - intros [(j & z & c & Hne & (Hj & Hrange & Hfree) & -> & ->)|(c & Hrange & Hfree & -> & ->)].
    + exists j, z, c. rewrite Hbins, list_lookup_insert_ne, (Hoth j z) by done. done.
    + exists i, y, c. rewrite Hbins, list_lookup_insert_eq by (by eapply lookup_lt_Some).
      rewrite (same_geom_ptr x y) by done. rewrite <-Hs, <-Hc. done.
Qed.

Lemma live_split m a i x q s :
  bins a !! i = Some x ->
  live m a q s <->
  (exists j z c, i <> j /\ live_block m a j z c /\ q = block_ptr z c /\ s = block_size z) \/
  (exists c, 0 <= c < bucket_count x /\ (block_ptr x c ∉ bin_free m x) /\
     q = block_ptr x c /\ s = block_size x).
Proof.
  intros Hi. split.
  - intros (j & z & c & Hl & -> & ->). destruct (decide (i = j)) as [->|Hne].
    + destruct Hl as (Hj & Hc & Hf). simplify_eq. right. by exists c.
    + left. by exists j, z, c.
  - intros [(j & z & c & _ & Hl & -> & ->)|(c & Hr & Hf & -> & ->)].
    + by exists j, z, c.
    + by exists i, x, c.
Qed.

(** ** Facts about live blocks *)

Lemma live_inside m a p s :
  slab_inv m a -> live m a p s ->
  region a + SLAB_HEADER_SIZE <= p /\ p + s <= region a + region_bytes a /\ 0 < p /\ 32 <= s.
Proof.
  intros [[mid L] _ _ _] (i & x & b & (Hi & Hb & _) & -> & ->).
  pose proof (blk_region a mid L i x b Hi Hb). pose proof (lay_total a mid L i x Hi).
  destruct (lay_region _ _ L). unfold block_ptr, block_total, SLAB_HEADER_SIZE in *. lia.
Qed.

Lemma live_disjoint m a p s q t :
  slab_inv m a -> live m a p s -> live m a q t -> p <> q ->
  rdisj (p - SLAB_HEADER_SIZE) (s + SLAB_HEADER_SIZE) (q - SLAB_HEADER_SIZE) (t + SLAB_HEADER_SIZE).
Proof.
  intros [[mid L] _ _ _] (i & x & b & (Hi & Hb & _) & -> & ->)
    (j & y & c & (Hj & Hc & _) & -> & ->) Hne.
  assert (i <> j \/ b <> c) as Hor.
  { destruct (decide (i = j)) as [->|]; [right|by left]. intros ->. simplify_eq. }
  pose proof (blk_blk a mid L i j x y b c Hi Hj Hb Hc Hor).
  unfold rdisj, block_ptr, block_total in *. lia.
Qed.

Lemma live_size_unique m a p s t : slab_inv m a -> live m a p s -> live m a p t -> s = t.
Proof.
  intros [[mid L] _ _ _] (i & x & b & (Hi & Hb & _) & -> & ->)
    (j & y & c & (Hj & Hc & _) & Heq & ->).
  destruct (block_ptr_inj a mid L i j x y b c Hi Hj Hb Hc Heq) as [-> _]. by simplify_eq.
Qed.

(** ** Allocation *)

(** What a successful allocation of [n] bytes does. *)
Record alloc_effect (m : mem) (a : SlabAllocator) (n : Z) (m' : mem) (a' : SlabAllocator)
    (p s : Z) : Prop := {
  ae_size : n + SLAB_HEADER_SIZE <= s;
  ae_fresh t : ~ live m a p t;
  ae_live q t : live m' a' q t <-> live m a q t \/ (q = p /\ t = s);
  ae_frame : mem_frame (p - SLAB_HEADER_SIZE) 4 m m';
  ae_region : region a' = region a /\ region_bytes a' = region_bytes a;
  ae_count : alloc_count a' = u32 (alloc_count a + 1) /\
             total_bytes_in_use a' = total_bytes_in_use a + s
}.

(** The class serves no request: it does not exist or has no free block. *)
Definition bin_unavailable (a : SlabAllocator) (n : Z) : Prop :=
  size_to_bin n = SLAB_BIN_COUNT \/ internal_top (bin_at a (size_to_bin n)) = 0.

Lemma size_to_bin_lt n bin :
  0 < n -> n + SLAB_HEADER_SIZE <= 0x100000000 -> size_to_bin n = bin -> bin < SLAB_BIN_COUNT ->
  0 <= bin < 16 /\ n + SLAB_HEADER_SIZE <= bin_size bin.
Proof.
  intros Hn Hn2 <- Hlt. destruct (size_to_bin_spec n Hn Hn2) as (H1 & H2 & _).
  specialize (H2 Hlt). unfold SLAB_BIN_COUNT in *. lia.
Qed.

(** Handing out one more block keeps the byte count within the region. *)
Lemma taken_bytes_fit m a mid i x :
  slab_layout a mid -> slab_inv m a -> bins a !! i = Some x -> 0 < internal_top x ->
  0 <= total_bytes_in_use a /\ total_bytes_in_use a + block_size x < 0x10000000000000000.
Proof.
  intros L I Hx Ht. pose proof (si_bins _ _ I _ _ Hx) as [Htop Hu _ _ _ _].
  destruct (lay_region _ _ L). rewrite (si_used _ _ I).
  pose proof (used_bytes_insert (bins a) i x (taken x 0) Hx) as Hins. cbn in Hins.
  set (a' := mkSlab 0 0 0 0 0 0 (<[i := taken x 0]> (bins a)) 0 (region a) (region_bytes a)).
  assert (slab_layout a' mid) as L'
    by exact (slab_layout_insert a mid a' i x _ L Hx (same_geom_taken x 0) eq_refl eq_refl eq_refl).
  pose proof (used_bytes_bound a mid _ L eq_refl (bins_use_ok _ _ I)).
  pose proof (used_bytes_bound a' mid _ L' eq_refl) as Hb. cbn [a' bins region_bytes] in Hb.
  rewrite Hins in Hb. cut (Forall use_ok (<[i := taken x 0]> (bins a))).
  { intros HF. specialize (Hb HF). lia. }
  apply Forall_insert; [by eapply bins_use_ok|]. unfold use_ok. cbn. lia.
Qed.

(** [slab_alloc] on a class that has a free block, with the machine
    arithmetic discharged. *)
Lemma slab_alloc_taken m a mid n x bin :
  slab_layout a mid -> slab_inv m a -> n <> 0 -> size_to_bin n = bin ->
  0 <= bin < 16 -> bins a !! Z.to_nat bin = Some x -> 0 < internal_top x ->
  exists b peak peak_bytes,
    0 <= b < bucket_count x /\ load64 m (stk x (internal_top x - 1)) = block_ptr x b /\
    slab_alloc m a n =
      (store32 m (hdr x b) SLAB_MAGIC_ALLOCATED,
       mkSlab (total_bytes_managed a) (total_bytes_in_use a + block_size x) peak_bytes
         (u32 (alloc_count a + 1)) (free_count a) (failed_alloc_count a)
         (<[Z.to_nat bin := taken x peak]> (bins a))
         (if internal_top x - 1 =? 0 then Z.land (bitmap a) (not32 (Z.shiftl 1 bin)) else bitmap a)
         (region a) (region_bytes a),
       block_ptr x b).
Proof.
  intros L I Hn Hbin Hrange Hx Htop.
  pose proof (si_bins _ _ I _ _ Hx) as Hok. pose proof (lay_total a mid L _ x Hx) as Hsz.
  pose proof (bo_top _ _ _ Hok) as Ht. pose proof (bo_used _ _ _ Hok) as Hu.
  assert (load64 m (stk x (internal_top x - 1)) ∈ bin_free m x) as Hin.
  { unfold bin_free. apply list_elem_of_fmap. exists (Z.to_nat (internal_top x - 1)).
    rewrite Z2Nat.id by lia. split; [done|]. apply elem_of_seq. lia. }
  apply (bo_free _ _ _ Hok) in Hin as (b & Hb & Hp).
  pose proof (taken_bytes_fit m a mid _ x L I Hx Htop) as Hfit.
  exists b. eexists. eexists. split; [done|]. split; [done|].
  unfold slab_alloc. rewrite Hbin.
  rewrite (proj2 (Z.eqb_neq _ _) Hn), (proj2 (Z.leb_gt _ _)) by (unfold SLAB_BIN_COUNT; lia).
  rewrite land_bit_zero by lia.
  rewrite <-(Z2Nat.id bin) at 1 by lia. rewrite (si_bitmap _ _ I _ _ Hx).
  rewrite (proj2 (Z.ltb_lt _ _) Htop). cbn [negb].
  pose proof (bin_at_lookup a mid bin L Hrange) as Hba. rewrite Hx in Hba. injection Hba as <-.
  rewrite !u16_small by (umach; lia). rewrite u64_small by (umach; lia).
  change (internal_stack x + 8 * (internal_top x - 1)) with (stk x (internal_top x - 1)).
  rewrite Hp, (header_of_ptr a mid L _ x b Hx Hb). reflexivity.
Qed.

Lemma testbit_bitmap_taken a x bin j :
  0 <= bin < 16 -> 0 <= j < 16 -> 0 < internal_top x ->
  Z.testbit (bitmap a) bin = true ->
  Z.testbit (if internal_top x - 1 =? 0 then Z.land (bitmap a) (not32 (Z.shiftl 1 bin))
             else bitmap a) j =
  if bin =? j then 0 <? internal_top x - 1 else Z.testbit (bitmap a) j.
Proof.
  intros Hb Hj Ht Hset. destruct (Z.eqb_spec (internal_top x - 1) 0) as [H0|H0].
  - rewrite testbit_clear32 by lia. rewrite H0. destruct (Z.eqb_spec bin j) as [->|].
    + by rewrite andb_false_r.
    + by rewrite andb_true_r.
  - destruct (Z.eqb_spec bin j) as [->|]; [|done]. rewrite Hset. symmetry. apply Z.ltb_lt. lia.
Qed.

(** Moving the pointer of block [b] off the top of its bin's free stack makes
    exactly that block live. *)
Lemma live_taken m m' a a' mid i x y b :
  slab_layout a mid -> bins a !! i = Some x -> same_geom x y ->
  bins a' = <[i:=y]> (bins a) ->
  (forall j z, i <> j -> bins a !! j = Some z -> bin_free m' z = bin_free m z) ->
  0 <= b < bucket_count x -> bin_free m x = bin_free m' y ++ [block_ptr x b] ->
  NoDup (bin_free m x) ->
  (forall t, ~ live m a (block_ptr x b) t) /\
  (forall q s, live m' a' q s <-> live m a q s \/ (q = block_ptr x b /\ s = block_size x)).
Proof.
  intros L Hx Hg Hbins Hoth Hb Hsn Hnd. rewrite Hsn in Hnd.
  apply NoDup_app in Hnd as (_ & Hdj & _).
  assert (block_ptr x b ∈ [block_ptr x b]) as Hself by by apply list_elem_of_singleton.
  split.
  - intros t (j & y' & c & (Hj & Hc & Hcf) & Heq & _).
    destruct (block_ptr_inj a mid L _ j x y' b c Hx Hj Hb Hc Heq) as [<- <-].
    rewrite Hx in Hj. injection Hj as <-. apply Hcf. rewrite Hsn. apply elem_of_app. by right.
  - intros q s. rewrite (live_update m m' a a' mid _ x y q s L Hx Hg Hbins Hoth).
    rewrite (live_split m a _ x q s Hx), Hsn. split.
    + intros [Ho|(c & Hc & Hcf & -> & ->)]; [by left; left|].
      destruct (decide (c = b)) as [->|Hne]; [by right|].
      left. right. exists c. split; [done|split; [|done]]. rewrite elem_of_snoc_ne; [done|].
      intros Heq. by destruct (block_ptr_inj a mid L _ _ x x c b Hx Hx Hc Hb Heq).
    + intros [[Ho|(c & Hc & Hcf & -> & ->)]|[-> ->]]; [by left|right..].
      * exists c. split; [done|split; [|done]]. intros Hin. apply Hcf. apply elem_of_app. by left.
      * exists b. split; [done|split; [|done]]. intros Hin. by apply (Hdj _ Hin).
Qed.

Lemma slab_alloc_succeeds m a n :
  slab_inv m a -> 0 < n -> n + SLAB_HEADER_SIZE <= 0x100000000 -> ~ bin_unavailable a n ->
  let '(m', a', p) := slab_alloc m a n in
  slab_inv m' a' /\ p <> 0 /\ exists s, alloc_effect m a n m' a' p s.
Proof.
  intros I Hn Hn2 Hav. destruct (si_layout _ _ I) as [mid L].
  destruct (size_to_bin_spec n Hn Hn2) as (Hr & Hfit & _).
  set (bin := size_to_bin n) in *. unfold bin_unavailable in Hav. fold bin in Hav.
  assert (0 <= bin < 16) as Hbin by (unfold SLAB_BIN_COUNT in *; lia).
  specialize (Hfit ltac:(unfold SLAB_BIN_COUNT; lia)).
  pose proof (bin_at_lookup a mid bin L Hbin) as Hx. set (x := bin_at a bin) in *.
  pose proof (si_bins _ _ I _ _ Hx) as Hok. pose proof (bo_top _ _ _ Hok) as Ht.
  assert (0 < internal_top x) as Htop by lia.
  destruct (slab_alloc_taken m a mid n x bin L I ltac:(lia) eq_refl Hbin Hx Htop)
    as (b & peak & pk & Hb & Hp & ->).
  destruct (taken_ok m a mid _ x peak b L Hx Hok Htop Hb Hp) as [Hok' Hsn].
  set (m' := store32 m (hdr x b) SLAB_MAGIC_ALLOCATED) in *.
  assert (mem_frame (hdr x b) 4 m m') as Hf by apply store32_frame.
  assert (forall j z, Z.to_nat bin <> j -> bins a !! j = Some z ->
    bin_ok m' j z /\ bin_free m' z = bin_free m z) as Hoth.
  { intros j z Hne Hj. apply (bin_ok_other m m' a mid _ j x z b L Hx Hj Hne Hb).
    - by apply (si_bins _ _ I).
    - eapply mem_frame_mono; [| |done]; lia. }
  pose proof (si_bitmap _ _ I _ _ Hx) as Hbit. rewrite Z2Nat.id in Hbit by lia.
  rewrite (proj2 (Z.ltb_lt _ _) Htop) in Hbit.
  pose proof (blk_region a mid L _ x b Hx Hb). destruct (lay_region _ _ L) as [Hr1 _].
  destruct (lay_shape _ _ L _ _ Hx) as [Hbs _]. rewrite Z2Nat.id in Hbs by lia.
  set (a' := mkSlab _ _ _ _ _ _ _ _ _ _).
  split; [|split].
  - apply (slab_inv_update m m' a a' mid (Z.to_nat bin) x (taken x peak));
      cbn [a' bins bitmap region region_bytes total_bytes_in_use]; try done.
    + intros j z Hne Hj. by apply Hoth.
    + rewrite testbit_bitmap_taken by (lia || done). rewrite Z2Nat.id, Z.eqb_refl by lia. done.
    + intros j Hj Hne. rewrite testbit_bitmap_taken by (lia || done).
      destruct (Z.eqb_spec bin (Z.of_nat j)); [lia|done].
    + rewrite (si_used _ _ I). cbn [taken blocks_in_use block_size]. lia.
  - unfold block_ptr, SLAB_HEADER_SIZE. lia.
  - exists (block_size x).
    destruct (live_taken m m' a a' mid (Z.to_nat bin) x (taken x peak) b L Hx (same_geom_taken _ _) eq_refl
      (fun j z Hne Hj => proj2 (Hoth j z Hne Hj)) Hb Hsn (bo_nodup _ _ _ Hok)) as [Hfr Hlv].
    split; cbn; try done; [lia|].
    replace (block_ptr x b - SLAB_HEADER_SIZE) with (hdr x b); [done|]. unfold block_ptr. lia.
Qed.

Lemma slab_alloc_fails m a n :
  slab_inv m a -> 0 < n -> n + SLAB_HEADER_SIZE <= 0x100000000 -> bin_unavailable a n ->
  slab_alloc m a n = (m, count_failure a, 0).
Proof.
  intros I Hn Hn2 Hun. destruct (si_layout _ _ I) as [mid L].
  destruct (size_to_bin_spec n Hn Hn2) as (Hr & _).
  unfold slab_alloc, bin_unavailable, SLAB_BIN_COUNT in *.
  rewrite (proj2 (Z.eqb_neq _ _)) by lia.
  destruct (Z.leb_spec 16 (size_to_bin n)); [done|].
  pose proof (bin_at_lookup a mid (size_to_bin n) L ltac:(lia)) as Hx.
  pose proof (si_bitmap _ _ I _ _ Hx) as Hbit. rewrite Z2Nat.id in Hbit by lia.
  rewrite land_bit_zero, Hbit by lia. destruct Hun as [|H0]; [lia|]. by rewrite H0.
Qed.

Lemma count_failure_inv m a : slab_inv m a -> slab_inv m (count_failure a).
Proof. intros [[mid []] Hok Hbm Hus]. split; try done. by exists mid. Qed.

Lemma count_failure_live m a p s : live m (count_failure a) p s <-> live m a p s.
Proof. done. Qed.

(** ** Release *)

(** A handed-out block leaves room on its bin's stack. *)
Lemma live_room m a mid i x b :
  slab_layout a mid -> bins a !! i = Some x -> bin_ok m i x ->
  0 <= b < bucket_count x -> block_ptr x b ∉ bin_free m x ->
  internal_top x < bucket_count x.
Proof.
  intros L Hx Hok Hb Hnin. pose proof (lay_total a mid L i x Hx).
  assert (block_ptr x b :: bin_free m x ⊆+ map (block_ptr x) (seqZ 0 (bucket_count x))) as Hsub.
  { apply NoDup_submseteq.
    - apply NoDup_cons. split; [done|apply (bo_nodup _ _ _ Hok)].
    - intros p Hp. apply list_elem_of_fmap. apply elem_of_cons in Hp as [->|Hp].
      + exists b. split; [done|]. apply elem_of_seqZ. lia.
      + destruct (bo_free _ _ _ Hok p Hp) as (c & Hc & ->). exists c. split; [done|].
        apply elem_of_seqZ. lia. }
  apply submseteq_length in Hsub. cbn [length] in Hsub.
  rewrite bin_free_length, length_map, length_seqZ in Hsub.
  destruct (bo_top _ _ _ Hok). lia.
Qed.

Lemma magic_live m i x b :
  bin_ok m i x -> 0 <= b < bucket_count x -> block_ptr x b ∉ bin_free m x ->
  hdr_magic m (hdr x b) = SLAB_MAGIC_ALLOCATED.
Proof.
  intros Hok Hb Hn. rewrite (bo_magic _ _ _ Hok b Hb). unfold magic_of. by case_decide.
Qed.

Lemma ptr_in_region a mid i x b :
  slab_layout a mid -> bins a !! i = Some x -> 0 <= b < bucket_count x ->
  block_ptr x b <> 0 /\ in_region a (hdr x b) = true.
Proof.
  intros L Hx Hb. pose proof (blk_region a mid L i x b Hx Hb).
  pose proof (lay_total a mid L i x Hx). destruct (lay_region _ _ L).
  split; [unfold block_ptr, SLAB_HEADER_SIZE; lia|].
  unfold in_region. apply andb_true_iff. split; [apply Z.leb_le|apply Z.ltb_lt]; lia.
Qed.

(** One bin's share of the bytes handed out. *)
Lemma bin_bytes_le m a mid i x :
  slab_layout a mid -> slab_inv m a -> bins a !! i = Some x ->
  blocks_in_use x * block_size x <= used_bytes (bins a).
Proof.
  intros L I Hx.
  assert (Forall (fun b => 0 <= blocks_in_use b * block_size b) (bins a)) as HF.
  { apply Forall_lookup. intros j y Hy. pose proof (lay_total a mid L j y Hy).
    destruct (bin_ok_use _ _ _ (si_bins _ _ I _ _ Hy)). nia. }
  revert i Hx HF. generalize (bins a). induction l as [|y l IH]; intros i Hx HF; [done|].
  apply Forall_cons in HF as [Hy HF]. cbn [used_bytes foldr].
  fold (used_bytes l). assert (0 <= used_bytes l) as Hl.
  { clear -HF. induction HF; [done|]. cbn [used_bytes foldr]. fold (used_bytes l). lia. }
  destruct i as [|i]; cbn in Hx; [injection Hx as ->; lia|]. specialize (IH i Hx HF). lia.
Qed.

(** [slab_free] on a live block. *)
Lemma slab_free_returned m a mid i x b :
  slab_layout a mid -> slab_inv m a -> live_block m a i x b ->
  slab_free m a (block_ptr x b) =
    (store32 (store64 m (stk x (internal_top x)) (block_ptr x b)) (hdr x b) SLAB_MAGIC_FREED,
     mkSlab (total_bytes_managed a) (total_bytes_in_use a - block_size x) (peak_bytes_in_use a)
       (alloc_count a) (u32 (free_count a + 1)) (failed_alloc_count a)
       (<[i := returned x]> (bins a)) (Z.lor (bitmap a) (Z.shiftl 1 (Z.of_nat i)))
       (region a) (region_bytes a),
     SLAB_OK).
Proof.
  intros L I (Hx & Hb & Hn). pose proof (si_bins _ _ I _ _ Hx) as Hok.
  pose proof (live_room m a mid i x b L Hx Hok Hb Hn) as Hroom.
  pose proof (lay_lt a mid L i x Hx) as Hi. pose proof (lay_total a mid L i x Hx).
  destruct (ptr_in_region a mid i x b L Hx Hb) as [Hp Hin].
  pose proof (bo_top _ _ _ Hok). pose proof (bo_used _ _ _ Hok) as Hu.
  pose proof (bin_at_lookup a mid (Z.of_nat i) L ltac:(lia)) as Hba.
  rewrite Nat2Z.id, Hx in Hba. injection Hba as Hba.
  pose proof (bin_bytes_le m a mid i x L I Hx) as Hle.
  assert (block_size x <= total_bytes_in_use a) by (rewrite (si_used _ _ I); nia).
  unfold slab_free. rewrite (header_of_ptr a mid L i x b Hx Hb), (proj2 (Z.eqb_neq _ _) Hp), Hin.
  rewrite (magic_live m i x b Hok Hb Hn), (bo_bin _ _ _ Hok b Hb). cbn [negb].
  rewrite (proj2 (Z.leb_gt SLAB_BIN_COUNT (Z.of_nat i))) by (unfold SLAB_BIN_COUNT; lia).
  rewrite <-Hba. rewrite (proj2 (Z.leb_gt (bucket_count x) _)) by lia.
  rewrite (proj2 (Z.ltb_lt 0 _)), (proj2 (Z.leb_le (block_size x) _)) by lia.
  rewrite u16_small, Nat2Z.id by (umach; lia). reflexivity.
Qed.

(** What releasing the live block [p] of [s] bytes does. *)
Record free_effect (m : mem) (a : SlabAllocator) (p s : Z) (m' : mem) (a' : SlabAllocator)
    : Prop := {
  fe_live q t : live m' a' q t <-> live m a q t /\ q <> p;
  fe_frame q t : live m a q t -> q <> p -> mem_agree (rng q t) m m';
  fe_outside x : ~ rng (region a) (region_bytes a) x -> m' x = m x;
  fe_region : region a' = region a /\ region_bytes a' = region_bytes a;
  fe_count : free_count a' = u32 (free_count a + 1) /\
             total_bytes_in_use a' = total_bytes_in_use a - s
}.

Lemma returned_other m a mid i j x y b :
  slab_layout a mid -> slab_inv m a -> bins a !! i = Some x -> bins a !! j = Some y -> i <> j ->
  0 <= b < bucket_count x -> internal_top x < bucket_count x ->
  let m' := store32 (store64 m (stk x (internal_top x)) (block_ptr x b)) (hdr x b)
              SLAB_MAGIC_FREED in
  bin_ok m' j y /\ bin_free m' y = bin_free m y.
Proof.
  intros L I Hx Hy Hne Hb Hroom m'. pose proof (si_bins _ _ I _ _ Hy) as Hok.
  pose proof (bo_top _ _ _ (si_bins _ _ I _ _ Hx)). pose proof (lay_total a mid L j y Hy).
  destruct (bin_ok_frame m (store64 m (stk x (internal_top x)) (block_ptr x b))
    (stk x (internal_top x)) 8 j y Hok) as [Hok1 Hf1].
  - apply store64_frame.
  - intros k Hk. apply (stk_stk a mid L i j x y); try done; [lia|by left].
  - intros c Hc. pose proof (stk_blk a mid L i j x y (internal_top x) c Hx Hy ltac:(lia) Hc).
    unfold rdisj in *. lia.
  - rewrite <-Hf1. apply (bin_ok_other _ _ a mid i j x y b L Hx Hy Hne Hb Hok1).
    eapply mem_frame_mono; [| |apply store32_frame]; lia.
Qed.

Lemma slab_free_succeeds m a p s :
  slab_inv m a -> live m a p s ->
  let '(m', a', r) := slab_free m a p in
  r = SLAB_OK /\ slab_inv m' a' /\ free_effect m a p s m' a'.
Proof.
  intros I (i & x & b & Hl & -> & ->). destruct (si_layout _ _ I) as [mid L].
  rewrite (slab_free_returned m a mid i x b L I Hl). destruct Hl as (Hx & Hb & Hn).
  pose proof (si_bins _ _ I _ _ Hx) as Hok.
  pose proof (live_room m a mid i x b L Hx Hok Hb Hn) as Hroom.
  destruct (returned_ok m a mid i x b L Hx Hok Hb Hn Hroom) as [Hok' Hsn].
  pose proof (fun j z Hne Hj => returned_other m a mid i j x z b L I Hx Hj Hne Hb Hroom) as Hoth.
  pose proof (lay_lt a mid L i x Hx) as Hi. pose proof (lay_total a mid L i x Hx).
  pose proof (bo_top _ _ _ Hok) as Htop. pose proof (blk_region a mid L i x b Hx Hb).
  pose proof (stk_region a mid L i x (internal_top x) Hx ltac:(lia)).
  cbv zeta in Hok', Hsn, Hoth.
  pose proof (store64_frame m (stk x (internal_top x)) (block_ptr x b)) as Hf1.
  set (m1 := store64 m (stk x (internal_top x)) (block_ptr x b)) in *.
  pose proof (store32_frame m1 (hdr x b) SLAB_MAGIC_FREED) as Hf2.
  set (m' := store32 m1 (hdr x b) SLAB_MAGIC_FREED) in *.
  set (a' := mkSlab _ _ _ _ _ _ _ _ _ _).
  assert (slab_inv m' a') as I'.
  { apply (slab_inv_update m m' a a' mid i x (returned x));
      cbn [a' bins bitmap region region_bytes total_bytes_in_use]; try done.
    - intros j z Hne Hj. by apply Hoth.
    - rewrite testbit_set, Z.eqb_refl, orb_true_r by lia. symmetry. apply Z.ltb_lt. cbn. lia.
    - intros j Hj Hne. rewrite testbit_set by lia.
      destruct (Z.eqb_spec (Z.of_nat i) (Z.of_nat j)); [lia|]. by rewrite orb_false_r.
    - rewrite (si_used _ _ I). cbn [returned blocks_in_use block_size]. lia. }
  split; [done|split; [done|]].
  destruct (live_taken m' m a' a mid i (returned x) x b) as [Hfr Hlv]; try done.
  - by destruct (slab_layout_insert a mid a' i x (returned x) L Hx).
  - cbn. apply list_lookup_insert_eq. by eapply lookup_lt_Some.
  - cbn. by rewrite list_insert_insert_eq, list_insert_id.
  - intros j z Hne Hj. cbn in Hj. rewrite list_lookup_insert_ne in Hj by done.
    symmetry. exact (proj2 (Hoth j z Hne Hj)).
  - apply (bo_nodup _ _ _ Hok').
  - change (block_ptr (returned x) b) with (block_ptr x b) in *.
    assert (live m a (block_ptr x b) (block_size x)) as Hlx by by exists i, x, b.
    split; cbn [a' region region_bytes free_count total_bytes_in_use]; try done.
    + intros q t. rewrite Hlv. split.
      * intros Hq. split; [by left|]. intros ->. by apply (Hfr t).
      * intros [[Hq|[-> _]] Hne]; done.
    + intros q t Hq Hne. pose proof (live_disjoint m a _ _ q t I Hlx Hq ltac:(done)) as Hd.
      transitivity m1; eapply frame_agree; try done.
      * destruct Hq as (j & z & c & (Hz & Hc & _) & -> & ->).
        pose proof (stk_blk a mid L i j x z (internal_top x) c Hx Hz ltac:(lia) Hc).
        unfold rdisj, block_ptr, block_total, SLAB_HEADER_SIZE in *. lia.
      * unfold rdisj, block_ptr, SLAB_HEADER_SIZE in *. lia.
    + intros z Hz. rewrite <-(Hf2 z), <-(Hf1 z); [done|..]; unfold rng in *; lia.
Qed.

(** Releasing a block twice, or a pointer from elsewhere, is refused and
    changes nothing. *)
Lemma slab_free_double m a i x b :
  slab_inv m a -> bins a !! i = Some x -> 0 <= b < bucket_count x ->
  block_ptr x b ∈ bin_free m x ->
  slab_free m a (block_ptr x b) = (m, a, SLAB_ERR_DOUBLE_FREE).
Proof.
  intros I Hx Hb Hin. destruct (si_layout _ _ I) as [mid L].
  destruct (ptr_in_region a mid i x b L Hx Hb) as [Hp Hr].
  unfold slab_free. rewrite (header_of_ptr a mid L i x b Hx Hb), (proj2 (Z.eqb_neq _ _) Hp), Hr.
  rewrite (bo_magic _ _ _ (si_bins _ _ I _ _ Hx) b Hb). unfold magic_of. by case_decide.
Qed.

Lemma slab_free_foreign m a p :
  p <> 0 -> in_region a (header_of p) = false ->
  slab_free m a p = (m, a, SLAB_ERR_FOREIGN_POINTER).
Proof. intros Hp Hr. unfold slab_free. by rewrite (proj2 (Z.eqb_neq _ _) Hp), Hr. Qed.

(** ** Clients *)

(** Memory may change as long as no bin is disturbed. *)
Lemma slab_inv_bins m m' a :
  slab_inv m a -> (forall j z, bins a !! j = Some z -> bin_ok m' j z /\ bin_free m' z = bin_free m z) ->
  slab_inv m' a /\ (forall q t, live m' a q t <-> live m a q t).
Proof.
  intros [HL Hok Hbm Hus] Hoth. split.
  - split; try done. intros j z Hz. by apply Hoth.
  - intros q t. unfold live, live_block. split; intros (j & z & c & (Hz & Hc & Hcf) & Hqt);
      exists j, z, c; destruct (Hoth j z Hz) as [_ He]; split; try done.
    + by rewrite <-He.
    + by rewrite He.
Qed.

(** A client may write what it was given. *)
Lemma slab_inv_client m m' a p s :
  slab_inv m a -> live m a p s -> mem_frame p s m m' ->
  slab_inv m' a /\ (forall q t, live m' a q t <-> live m a q t).
Proof.
  intros I (i & x & b & (Hx & Hb & Hn) & -> & ->) Hf. destruct (si_layout _ _ I) as [mid L].
  pose proof (lay_total a mid L i x Hx) as Htot.
  assert (forall j z, bins a !! j = Some z -> bin_ok m' j z /\ bin_free m' z = bin_free m z) as Hoth.
  { intros j z Hz. pose proof (lay_total a mid L j z Hz).
    eapply bin_ok_frame; [by apply (si_bins _ _ I)|done|..].
    - intros k Hk. pose proof (stk_blk a mid L j i z x k b Hz Hx Hk Hb).
      unfold rdisj, block_ptr, block_total, SLAB_HEADER_SIZE in *. lia.
    - intros c Hc. destruct (decide (i = j /\ b = c)) as [[<- <-]|Hne].
      + rewrite Hx in Hz. injection Hz as <-. unfold rdisj, block_ptr, SLAB_HEADER_SIZE. lia.
      + pose proof (blk_blk a mid L i j x z b c Hx Hz Hb Hc) as Hd.
        assert (i <> j \/ b <> c) as Hor 
          by (destruct (decide (i = j)) as [->|]; [right; intros ->; by apply Hne|by left]).
        specialize (Hd Hor). unfold rdisj, block_ptr, block_total, SLAB_HEADER_SIZE in *. lia. }
  by apply slab_inv_bins.
Qed.

(** The allocator depends on its own region only. *)
Lemma slab_inv_agree m m' a :
  slab_inv m a -> mem_agree (rng (region a) (region_bytes a)) m m' ->
  slab_inv m' a /\ (forall q t, live m' a q t <-> live m a q t).
Proof.
  intros I Hag. destruct (si_layout _ _ I) as [mid L]. apply slab_inv_bins; [done|].
  intros j z Hz. pose proof (lay_total a mid L j z Hz).
  apply bin_ok_agree; [by apply (si_bins _ _ I)|..].
  - intros k Hk. eapply mem_agree_mono; [|exact Hag]. intros x Hx.
    pose proof (stk_region a mid L j z k Hz Hk). unfold rng in *. lia.
  - intros b Hb. eapply mem_agree_mono; [|exact Hag]. intros x Hx.
    pose proof (blk_region a mid L j z b Hz Hb). unfold rng, block_total, SLAB_HEADER_SIZE in *. lia.
Qed.

(** Memory may change in a live block and outside the region. *)
Lemma slab_inv_owner m m' a p s :
  slab_inv m a -> live m a p s ->
  mem_agree (fun x => rng (region a) (region_bytes a) x /\ ~ rng p s x) m m' ->
  slab_inv m' a /\ (forall q t, live m' a q t <-> live m a q t).
Proof.
  intros I Hl Hag. set (m1 := fun x => if decide (rng p s x) then m' x else m x).
  destruct (slab_inv_client m m1 a p s I Hl) as [I1 L1].
  { intros x Hx. unfold m1. by rewrite decide_False. }
  destruct (slab_inv_agree m1 m' a I1) as [I2 L2].
  { intros x Hx. unfold m1. case_decide; [done|]. by apply Hag. }
  split; [done|]. intros q t. by rewrite L2, L1.
Qed.

(** Memory may change in all live blocks at once, and outside the region. *)
Lemma slab_inv_payloads m m' a :
  slab_inv m a ->
  mem_agree (fun x => rng (region a) (region_bytes a) x /\ forall p s, live m a p s -> ~ rng p s x) m m' ->
  slab_inv m' a /\ (forall q t, live m' a q t <-> live m a q t).
Proof.
  intros I Hag. destruct (si_layout _ _ I) as [mid L]. apply slab_inv_bins; [done|].
  intros j z Hz. pose proof (lay_total a mid L j z Hz).
  apply bin_ok_agree; [by apply (si_bins _ _ I)|..].
  - intros k Hk x Hx. apply Hag. pose proof (stk_region a mid L j z k Hz Hk). split; [unfold rng in *; lia|].
    intros p s (i & y & b & (Hy & Hb & _) & -> & ->) Hp.
    pose proof (stk_blk a mid L j i z y k b Hz Hy Hk Hb).
    unfold rng, rdisj, block_ptr, block_total, SLAB_HEADER_SIZE in *. lia.
  - intros c Hc x Hx. apply Hag. pose proof (blk_region a mid L j z c Hz Hc).
    split; [unfold rng, block_total, SLAB_HEADER_SIZE in *; lia|].
    intros p s (i & y & b & (Hy & Hb & _) & -> & ->) Hp.
    destruct (decide (i = j /\ b = c)) as [[-> ->]|Hne].
    + rewrite Hz in Hy. injection Hy as <-. unfold rng, block_ptr, SLAB_HEADER_SIZE in *. lia.
    + pose proof (blk_blk a mid L i j y z b c Hy Hz Hb Hc) as Hd.
      assert (i <> j \/ b <> c) as Hor by lia. specialize (Hd Hor).
      unfold rng, rdisj, block_ptr, block_total, SLAB_HEADER_SIZE in *. lia.
Qed.
