(* ===== verification/SlabInit.v ===== *)
(** The slab allocator from initialisation on: what [slab_init] carves, and what each
    call guarantees.  [SlabClient] is about whole histories of calls. *)
From S2P Require Import Prelude HostMem SlabStack SlabInv.

(** ** Carving one bin *)

Lemma land_lnot7 x : Z.land x (Z.lnot 7) = x / 8 * 8.
Proof.
  change 7 with (Z.ones 3). rewrite <-Z.ldiff_land, Z.ldiff_ones_r by lia.
  by rewrite Z.shiftl_mul_pow2, Z.shiftr_div_pow2 by lia.
Qed.

(** [align8] rounds up to the multiple of eight it is next to. *)
Lemma align8_up c c0 :
  0 <= c -> c0 - 8 < c <= c0 -> c0 mod 8 = 0 -> c + 7 < 0x10000000000000000 -> align8 c = c0.
Proof. intros. unfold align8. rewrite u64_small, land_lnot7 by (umach; lia). zlia. Qed.

Lemma push_blocks_spec n k m i b c top :
  0 <= k -> 8 <= block_total b -> 0 <= c -> is_u32 i ->
  internal_stack b + 8 * (k + Z.of_nat n) <= c ->
  c + (k + Z.of_nat n) * block_total b < 0x10000000000000000 ->
  let m' := push_blocks n k m i b c in
  let y := set_blocks b c top in
  (forall j, k <= j < k + Z.of_nat n ->
     load64 m' (stk y j) = block_ptr y j /\ hdr_magic m' (hdr y j) = SLAB_MAGIC_FREED /\
     hdr_bin m' (hdr y j) = i) /\
  (forall x, ~ rng (stk y k) (8 * Z.of_nat n) x ->
     ~ rng (hdr y k) (Z.of_nat n * block_total b) x -> m' x = m x).
Proof.
  intros Hk Ht Hc Hi. revert k m Hk.
  induction n as [|n IH]; intros k m Hk Hsep Hfit m' y; [split; [intros; lia|done]|].
  cbn [push_blocks] in m'.
  set (m1 := store32 m (c + k * block_total b + 4) i) in m'.
  set (m2 := store32 m1 (c + k * block_total b) SLAB_MAGIC_FREED) in m'.
  set (m3 := store64 m2 (internal_stack b + 8 * k) (payload_of (c + k * block_total b))) in m'.
  pose proof (store32_frame m (c + k * block_total b + 4) i) as F1.
  pose proof (store32_frame m1 (c + k * block_total b) SLAB_MAGIC_FREED) as F2.
  pose proof (store64_frame m2 (internal_stack b + 8 * k) (payload_of (c + k * block_total b))) as F3.
  fold m1 in F1. fold m2 in F2. fold m3 in F3.
  destruct (IH (k + 1) m3 ltac:(lia) ltac:(lia) ltac:(lia)) as [Hent Hfr]. fold m' y in Hent, Hfr.
  assert (forall j, stk y j = internal_stack b + 8 * j) as Hstk by done.
  assert (forall j, hdr y j = c + j * block_total b) as Hhdr by done.
  assert (forall a w, (a + w <= internal_stack b + 8 * (k + 1) \/
     internal_stack b + 8 * (k + 1 + Z.of_nat n) <= a /\ a + w <= c + (k + 1) * block_total b) ->
     mem_agree (rng a w) m3 m') as Hkeep.
  { intros a w Haw x Hx. symmetry. apply Hfr; rewrite ?Hstk, ?Hhdr; unfold rng in *; nia. }
  assert (0 <= k * block_total b) as Hpos by nia.
  split.
  - intros j Hj. destruct (decide (j = k)) as [->|Hne]; [|apply Hent; lia].
    rewrite Hstk, Hhdr. split; [|split].
    + rewrite <-(load64_agree m3 m') by (apply Hkeep; lia).
      unfold m3. rewrite load64_store64_eq, u64_small; [done|].
      unfold payload_of, SLAB_HEADER_SIZE, is_u64. nia.
    + unfold hdr_magic. rewrite <-(load32_agree m3 m') by (apply Hkeep; lia).
      rewrite (load32_frame _ _ _ _ _ F3) by (unfold rdisj; lia).
      unfold m2. by rewrite load32_store32_eq.
    + unfold hdr_bin. rewrite <-(load32_agree m3 m') by (apply Hkeep; lia).
      rewrite (load32_frame _ _ _ _ _ F3) by (unfold rdisj; lia).
      rewrite (load32_frame _ _ _ _ _ F2) by (unfold rdisj; lia).
      unfold m1. rewrite load32_store32_eq. by apply u32_small.
  - intros x Hx1 Hx2. rewrite Hstk, Hhdr in *. rewrite Hfr; rewrite ?Hstk, ?Hhdr.
    + rewrite <-(F3 x), <-(F2 x), <-(F1 x); [done|..]; unfold rng in *; nia.
    + unfold rng in *. nia.
    + unfold rng in *. nia.
Qed.

(** ** Carving all bins *)

(** A bin straight after initialisation: every block is on its free stack. *)
Record fresh_bin (m : mem) (i : Z) (b : SlabBinInfo) : Prop := {
  fb_top : internal_top b = bucket_count b;
  fb_use : blocks_in_use b = 0;
  fb_entry j : 0 <= j < bucket_count b ->
    load64 m (stk b j) = block_ptr b j /\ hdr_magic m (hdr b j) = SLAB_MAGIC_FREED /\
    hdr_bin m (hdr b j) = i
}.

Definition idle (b : SlabBinInfo) : Prop := blocks_in_use b = 0 /\ internal_top b = 0.

(** Same class, capacity and stack area. *)
Definition same_class (x y : SlabBinInfo) : Prop :=
  block_size y = block_size x /\ bucket_count y = bucket_count x /\
  internal_stack y = internal_stack x.

(** Bytes of block storage the bins need. *)
Definition blocks_need (bs : list SlabBinInfo) : Z :=
  foldr (fun b n => blocks_len b + n) 0 bs.

Definition shapes_from (i : nat) (bs : list SlabBinInfo) : Prop :=
  forall k b, bs !! k = Some b -> bin_shape (i + k) b.

Lemma shapes_from_tail i b bs : shapes_from i (b :: bs) -> shapes_from (S i) bs.
Proof. intros H k x Hx. specialize (H (S k) x Hx). by rewrite Nat.add_succ_r in H. Qed.

Lemma blocks_need_nonneg i bs :
  shapes_from i bs -> (i + length bs <= 16)%nat -> 0 <= blocks_need bs.
Proof.
  revert i. induction bs as [|b bs IH]; intros i Hs Hl; [done|]. cbn [blocks_need foldr].
  fold (blocks_need bs). cbn [length] in Hl.
  specialize (IH (S i) (shapes_from_tail _ _ _ Hs) ltac:(lia)).
  pose proof (Hs 0%nat b eq_refl) as Hb. rewrite Nat.add_0_r in Hb.
  pose proof (bin_shape_total i b ltac:(lia) Hb). unfold blocks_len. nia.
Qed.

(** A fresh bin stays fresh under writes that miss its areas. *)
Lemma fresh_bin_frame m m' i b :
  fresh_bin m i b -> 8 <= block_total b ->
  (forall x, rng (internal_stack b) (stack_len b) x -> m' x = m x) ->
  (forall x, rng (internal_blocks b) (blocks_len b) x -> m' x = m x) ->
  fresh_bin m' i b.
Proof.
  intros [Ht Hu He] H8 Hst Hbl. split; [done|done|]. intros j Hj.
  destruct (He j Hj) as (H1 & H2 & H3).
  pose proof (hdr_inside b j ltac:(lia) Hj).
  split; [|split].
  - rewrite <-H1. symmetry. apply load64_agree. intros x Hx. symmetry. apply Hst.
    unfold rng, stk, stack_len in *. lia.
  - rewrite <-H2. symmetry. apply load32_agree. intros x Hx. symmetry. apply Hbl.
    unfold rng in *. lia.
  - rewrite <-H3. symmetry. apply load32_agree. intros x Hx. symmetry. apply Hbl.
    unfold rng in *. lia.
Qed.

Lemma fresh_bin_empty m i b : idle b -> bucket_count b = 0 -> fresh_bin m i b.
Proof. intros [Hu Ht] Hc. split; [lia|lia|]. intros. lia. Qed.

(** What carving the block storage of the bins [bs], the first of which is bin
    [i], leaves behind. *)
Record carved (m : mem) (i : nat) (bs : list SlabBinInfo) (c lo mid hi bm : Z)
    (m' : mem) (bs' : list SlabBinInfo) (c' bm' : Z) : Prop := {
  cv_class : Forall2 same_class bs bs';
  cv_cursor : c <= c' <= hi;
  cv_blocks : ordered internal_blocks blocks_len c bs' c';
  cv_fresh k b : bs' !! k = Some b -> fresh_bin m' (Z.of_nat (i + k)) b;
  cv_frame x : ~ (lo <= x < mid) -> ~ (c <= x < c') -> m' x = m x;
  cv_bitmap k b : bs' !! k = Some b ->
    Z.testbit bm' (Z.of_nat (i + k)) = Z.testbit bm (Z.of_nat (i + k)) || (0 <? internal_top b);
  cv_bitmap_lo j : 0 <= j < Z.of_nat i -> Z.testbit bm' j = Z.testbit bm j
}.

Lemma carve_blocks_empty m i b bs c lo mid hi bm m' bs' c' bm' :
  idle b -> bucket_count b = 0 ->
  carved m (S i) bs c lo mid hi bm m' bs' c' bm' ->
  carved m i (b :: bs) c lo mid hi bm m' (b :: bs') c' bm'.
Proof.
  intros Hid Hc [Hcl Hcur Hbl Hfr Hfm Hb Hlo]. split; try done.
  - by constructor.
  - cbn [ordered]. by rewrite Hc.
  - intros [|k] x Hx; cbn in Hx.
    + injection Hx as <-. by apply fresh_bin_empty.
    + rewrite Nat.add_succ_r. by apply Hfr.
  - intros [|k] x Hx; cbn in Hx.
    + injection Hx as <-. destruct Hid as [_ ->]. rewrite orb_false_r, Nat.add_0_r. apply Hlo. lia.
    + rewrite Nat.add_succ_r. by apply Hb.
  - intros j Hj. apply Hlo. lia.
Qed.

Lemma carve_blocks_bin m m1 i b bs c c0 lo mid hi bm m' bs' c' bm' :
  idle b -> 0 < bucket_count b -> 8 <= block_total b -> c <= c0 -> mid <= c ->
  lo <= internal_stack b -> ordered internal_stack stack_len (internal_stack b + stack_len b) bs mid ->
  internal_stack b + stack_len b <= mid ->
  let y := set_blocks b c0 (bucket_count b) in
  fresh_bin m1 (Z.of_nat i) y ->
  (forall x, ~ rng (internal_stack b) (stack_len b) x -> ~ rng c0 (blocks_len b) x -> m1 x = m x) ->
  carved m1 (S i) bs (c0 + blocks_len b) (internal_stack b + stack_len b) mid hi
    (Z.lor bm (Z.shiftl 1 (Z.of_nat i))) m' bs' c' bm' ->
  carved m i (b :: bs) c lo mid hi bm m' (y :: bs') c' bm'.
Proof.
  intros Hid Hc H8 Hc0 Hmid Hlo Hord Hend y Hy Hm1 [Hcl Hcur Hbl Hfr Hfm Hb Hlow].
  assert (0 <= blocks_len b) by (unfold blocks_len; nia).
  assert (0 <= stack_len b) by (unfold stack_len; nia).
  split.
  - by constructor.
  - lia.
  - cbn [ordered]. cbn [y bucket_count set_blocks].
    rewrite (proj2 (Z.eqb_neq _ _)) by lia. split; [done|]. exact Hbl.
  - intros [|k] x Hx; cbn in Hx; [|rewrite Nat.add_succ_r; by apply Hfr].
    injection Hx as <-. rewrite Nat.add_0_r.
    eapply fresh_bin_frame; [done|done|..]; intros z Hz; apply Hfm;
      change (internal_stack y) with (internal_stack b) in *;
      change (stack_len y) with (stack_len b) in *;
      change (internal_blocks y) with c0 in *;
      change (blocks_len y) with (blocks_len b) in *; unfold rng in Hz; lia.
  - intros x Hx1 Hx2. rewrite Hfm by lia. apply Hm1; unfold rng; lia.
  - intros [|k] x Hx; cbn in Hx.
    + injection Hx as <-. rewrite Nat.add_0_r, Hlow, testbit_set, Z.eqb_refl by lia.
      cbn [y internal_top set_blocks]. by rewrite (proj2 (Z.ltb_lt 0 _)) by lia.
    + rewrite Nat.add_succ_r. cbn [Nat.add] in Hb. rewrite (Hb _ _ Hx).
      rewrite testbit_set by lia. rewrite (proj2 (Z.eqb_neq (Z.of_nat i) _)) by lia.
      by rewrite orb_false_r.
  - intros j Hj. rewrite Hlow, testbit_set by lia.
    rewrite (proj2 (Z.eqb_neq (Z.of_nat i) _)) by lia. by rewrite orb_false_r.
Qed.

Lemma carve_blocks_spec bs : forall i m c c0 lo mid hi bm t,
  Forall idle bs -> shapes_from i bs -> (i + length bs <= 16)%nat ->
  ordered internal_stack stack_len lo bs mid -> mid <= c -> 0 <= c ->
  c0 - 8 < c <= c0 -> c0 mod 8 = 0 -> c0 + blocks_need bs <= hi -> hi < 0x10000000000000000 ->
  let '(m', bs', c', bm', _) := carve_blocks bs (Z.of_nat i) m c bm t in
  carved m i bs c lo mid hi bm m' bs' c' bm'.
Proof.
  induction bs as [|b bs IH]; intros i m c c0 lo mid hi bm t Hid Hsh Hlen Hord Hmid Hc Hc0 H8 Hhi Hmax.
  - cbn in *. split; cbn; try done; lia.
  - apply Forall_cons in Hid as [Hb Hid]. pose proof (shapes_from_tail _ _ _ Hsh) as Hsh'.
    cbn [length] in Hlen. cbn [blocks_need foldr] in Hhi. fold (blocks_need bs) in Hhi.
    pose proof (blocks_need_nonneg _ _ Hsh' ltac:(lia)) as Hneed.
    pose proof (Hsh 0%nat b eq_refl) as Hbs. rewrite Nat.add_0_r in Hbs.
    pose proof (bin_shape_total i b ltac:(lia) Hbs) as (Hn & Hsz & Ht).
    assert (0 <= blocks_len b) by (unfold blocks_len; nia).
    cbn [carve_blocks ordered] in *. replace (Z.of_nat i + 1) with (Z.of_nat (S i)) by lia.
    destruct (Z.eqb_spec (bucket_count b) 0) as [H0|H0].
    + specialize (IH (S i) m c c0 lo mid hi bm t Hid Hsh' ltac:(lia) Hord Hmid Hc Hc0 H8 ltac:(lia) Hmax).
      destruct (carve_blocks bs _ m c bm t) as [[[[m' bs'] c'] bm'] t'].
      by apply carve_blocks_empty.
    + destruct Hord as [Hlo Hord].
      assert (lens_ok stack_len bs) as Hlens.
      { apply Forall_lookup. intros k y Hy _. pose proof (Hsh' k y Hy) as Hsy.
        pose proof (lookup_lt_Some _ _ _ Hy).
        pose proof (bin_shape_total (S i + k) y ltac:(lia) Hsy). unfold stack_len. lia. }
      pose proof (ordered_range _ _ _ _ _ Hlens Hord) as Hend.
      assert (c0 + blocks_len b < 0x10000000000000000) by lia.
      assert (8 * bucket_count b <= blocks_len b) by (unfold blocks_len; nia).
      rewrite (align8_up c c0) by (done || lia).
      pose proof (push_blocks_spec (Z.to_nat (bucket_count b)) 0 m (Z.of_nat i) b c0
        (bucket_count b) ltac:(lia) ltac:(lia) ltac:(lia) ltac:(umach; lia)) as Hpush.
      rewrite Z2Nat.id, !Z.add_0_l in Hpush by lia.
      specialize (Hpush ltac:(unfold stack_len in *; lia) ltac:(unfold blocks_len in *; lia)).
      destruct Hpush as [Hent Hfr].
      set (m1 := push_blocks _ _ _ _ _ _) in *.
      assert ((c0 + blocks_len b) mod 8 = 0) as H8'.
      { unfold blocks_len, block_total. destruct Hbs as [-> _].
        unfold bin_size, SLAB_MIN_BLOCK, SLAB_HEADER_SIZE.
        rewrite Z.shiftl_mul_pow2 by lia.
        replace (bucket_count b * (32 * 2 ^ Z.of_nat i + 8))
          with ((bucket_count b * (4 * 2 ^ Z.of_nat i + 1)) * 8) by ring.
        by rewrite Z.mod_add. }
      specialize (IH (S i) m1 (c0 + blocks_len b) (c0 + blocks_len b) (internal_stack b + stack_len b)
        mid hi (Z.lor bm (Z.shiftl 1 (Z.of_nat i))) (u64 (t + bucket_count b * block_size b))
        Hid Hsh' ltac:(lia) Hord ltac:(lia) ltac:(lia) ltac:(lia) H8' ltac:(lia) Hmax).
      change (c0 + bucket_count b * block_total b) with (c0 + blocks_len b).
      destruct (carve_blocks bs _ m1 _ _ _) as [[[[m' bs'] c'] bm'] t'].
      eapply (carve_blocks_bin m m1); try done; try lia.
      * split; [done|by destruct Hb|]. intros j Hj. apply Hent. cbn in Hj. lia.
      * intros x Hx1 Hx2. apply Hfr.
        -- unfold stk, stack_len in *. cbn [internal_stack set_blocks]. rewrite Z.mul_0_r, Z.add_0_r.
           by replace (8 * bucket_count b) with (bucket_count b * 8) by lia.
        -- unfold hdr. cbn [internal_blocks set_blocks]. by rewrite Z.mul_0_l, Z.add_0_r.
Qed.

(** ** [slab_init] *)

(** Bytes of pointer stacks. *)
Definition stacks_need (bs : list SlabBinInfo) : Z := foldr (fun b n => stack_len b + n) 0 bs.

Lemma carve_stacks_spec bs : forall c,
  Forall (fun b => 0 <= bucket_count b) bs ->
  let '(bs', c') := carve_stacks bs c in
  c' = c + stacks_need bs /\ ordered internal_stack stack_len c bs' c' /\ c <= c' /\
  Forall2 (fun x y => block_size y = block_size x /\ bucket_count y = bucket_count x /\
    (idle x -> idle y)) bs bs'.
Proof.
  induction bs as [|b bs IH]; intros c Hb.
  - cbn. split_and!; try done; lia.
  - apply Forall_cons in Hb as [Hb Hbs]. cbn [carve_stacks stacks_need foldr].
    fold (stacks_need bs). destruct (Z.eqb_spec (bucket_count b) 0) as [H0|H0].
    + specialize (IH c Hbs). destruct (carve_stacks bs c) as [bs' c'].
      destruct IH as (-> & Ho & Hle & HF). split_and!.
      * unfold stack_len. lia.
      * cbn [ordered]. by rewrite H0.
      * lia.
      * by constructor.
    + specialize (IH (c + bucket_count b * 8) Hbs). destruct (carve_stacks bs _) as [bs' c'].
      destruct IH as (-> & Ho & Hle & HF). split_and!.
      * unfold stack_len. lia.
      * cbn [ordered]. cbn [bucket_count set_stack]. rewrite (proj2 (Z.eqb_neq _ _) H0).
        split; [done|]. exact Ho.
      * lia.
      * constructor; [|done]. by split_and!.
Qed.

Lemma init_bins_lookup cfg k b :
  init_bins cfg !! k = Some b -> exists n, cfg !! k = Some n /\ b = mkBin (bin_size (Z.of_nat k)) n 0 0 0 0 0.
Proof.
  unfold init_bins. rewrite list_lookup_imap. destruct (cfg !! k) as [n|] eqn:Hn; [|done].
  intros [= <-]. by exists n.
Qed.

(** The sizing function adds up exactly what carving uses, and seven bytes of
    alignment. *)
Lemma required_from_spec cfg : forall i,
  required_from i cfg =
  stacks_need (imap (fun k n => mkBin (bin_size (i + Z.of_nat k)) n 0 0 0 0 0) cfg) +
  blocks_need (imap (fun k n => mkBin (bin_size (i + Z.of_nat k)) n 0 0 0 0 0) cfg).
Proof.
  induction cfg as [|n cfg IH]; intros i; [done|].
  cbn [required_from imap stacks_need blocks_need foldr].
  rewrite IH. rewrite Z.add_0_r.
  assert (forall A (f g : nat -> Z -> A) l, (forall k x, f k x = g k x) -> imap f l = imap g l) as Hext.
  { intros A f g l He. by apply imap_ext. }
  rewrite (Hext _ (fun k x => mkBin (bin_size (i + 1 + Z.of_nat k)) x 0 0 0 0 0)
    ((fun k n0 => mkBin (bin_size (i + Z.of_nat k)) n0 0 0 0 0 0) ∘ S)).
  2: { intros k x. cbn. f_equal. f_equal. lia. }
  unfold stacks_need, blocks_need.
  set (A := foldr (fun b n => stack_len b + n) 0 _).
  set (B := foldr (fun b n => blocks_len b + n) 0 _).
  unfold stack_len, blocks_len, block_total. cbn [bucket_count block_size].
  destruct (Z.eqb_spec n 0) as [->|]; ring.
Qed.

Lemma fresh_bin_free m i b :
  fresh_bin m i b ->
  bin_free m b = map (fun k => block_ptr b (Z.of_nat k)) (seq 0 (Z.to_nat (bucket_count b))).
Proof.
  intros [Ht _ He]. unfold bin_free. rewrite Ht. apply map_seq_ext. intros k Hk.
  apply He. lia.
Qed.

Lemma fresh_bin_all_free m i b c :
  fresh_bin m i b -> 0 <= c < bucket_count b -> block_ptr b c ∈ bin_free m b.
Proof.
  intros Hf Hc. rewrite (fresh_bin_free m i b Hf). apply list_elem_of_fmap.
  exists (Z.to_nat c). rewrite Z2Nat.id by lia. split; [done|]. apply elem_of_seq. lia.
Qed.

Lemma fresh_bin_ok m i b :
  fresh_bin m (Z.of_nat i) b -> 0 <= bucket_count b -> 0 < block_total b -> bin_ok m i b.
Proof.
  intros Hf Hc Ht. pose proof (fresh_bin_free m _ b Hf) as Hfree.
  pose proof (fun c => fresh_bin_all_free m _ b c Hf) as Hall. destruct Hf as [Htop Huse He].
  split; try lia.
  - rewrite Hfree. apply NoDup_fmap_2_strong; [|apply NoDup_seq].
    intros x y Hx Hy Heq. unfold block_ptr, hdr in Heq. nia.
  - intros p Hp. rewrite Hfree in Hp. apply list_elem_of_fmap in Hp as (k & -> & Hk).
    apply elem_of_seq in Hk. exists (Z.of_nat k). split; [lia|done].
  - intros c Hcr. apply He. lia.
  - intros c Hcr. unfold magic_of. rewrite decide_True by (apply Hall; lia). apply He. lia.
Qed.

Lemma slab_inv_fresh m a mid :
  slab_layout a mid ->
  (forall i b, bins a !! i = Some b -> fresh_bin m (Z.of_nat i) b /\
     Z.testbit (bitmap a) (Z.of_nat i) = (0 <? internal_top b)) ->
  total_bytes_in_use a = 0 ->
  slab_inv m a /\ forall p s, ~ live m a p s.
Proof.
  intros L Hb Ht. split.
  - split; [by exists mid| | |].
    + intros i x Hx. destruct (Hb i x Hx) as [Hf _]. pose proof (lay_total a mid L i x Hx).
      apply fresh_bin_ok; [done|lia..].
    + intros i x Hx. by apply Hb.
    + rewrite Ht. assert (Forall (fun b => blocks_in_use b = 0) (bins a)) as HF.
      { apply Forall_lookup. intros i x Hx. by destruct (Hb i x Hx) as [[] _]. }
      clear -HF. induction HF as [|x l Hx _ IH]; [done|]. cbn [used_bytes foldr].
      fold (used_bytes l). rewrite <-IH, Hx. lia.
  - intros p s (i & x & c & (Hx & Hc & Hn) & _). destruct (Hb i x Hx) as [Hf _].
    apply Hn. by eapply fresh_bin_all_free.
Qed.

(** No block of any class is handed out, and each class has the blocks it was given. *)
Definition bins_fresh (cfg : list Z) (a : SlabAllocator) : Prop :=
  total_bytes_in_use a = 0 /\
  forall k b, bins a !! k = Some b -> cfg !! k = Some (bucket_count b) /\ blocks_in_use b = 0.

Lemma slab_init_state m a rgn bytes cfg :
  length cfg = 16%nat -> Forall is_u16 cfg -> 0 < rgn ->
  rgn + bytes < 0x10000000000000000 -> slab_required_bytes cfg <= bytes ->
  let '(m', a', r) := slab_init m a rgn bytes cfg in
  (r = SLAB_OK /\ slab_inv m' a' /\ (forall p s, ~ live m' a' p s) /\
   region a' = rgn /\ region_bytes a' = bytes /\ mem_frame rgn bytes m m') /\ bins_fresh cfg a'.
Proof.
  intros Hlen Hu16 Hr Hfit Hreq. unfold slab_init.
  rewrite (proj2 (Z.eqb_neq _ _)), (proj2 (Z.ltb_ge _ _)) by lia.
  unfold slab_required_bytes in Hreq. rewrite required_from_spec in Hreq. 
  change (imap _ cfg) with (init_bins cfg) in Hreq.
  assert (Forall (fun b => 0 <= bucket_count b) (init_bins cfg)) as Hpos.
  { apply Forall_lookup. intros k b Hb. apply init_bins_lookup in Hb as (n & Hn & ->).
    rewrite Forall_lookup in Hu16. specialize (Hu16 _ _ Hn). umach. cbn. lia. }
  pose proof (carve_stacks_spec (init_bins cfg) rgn Hpos) as Hst.
  destruct (carve_stacks (init_bins cfg) rgn) as [bs0 c].
  destruct Hst as (Hc & Hord & Hle & HF).
  assert (length bs0 = 16%nat) as Hlen0.
  { rewrite <-(Forall2_length _ _ _ HF). unfold init_bins. by rewrite length_imap. }
  assert (forall k b, bs0 !! k = Some b -> bin_shape k b /\ idle b) as Hbs0.
  { intros k b Hb. destruct (Forall2_lookup_r _ _ _ _ _ HF Hb) as (x & Hx & H1 & H2 & H3).
    apply init_bins_lookup in Hx as (n & Hn & ->). rewrite Forall_lookup in Hu16.
    split; [split; [done|]|by apply H3]. rewrite H2. by apply (Hu16 _ _ Hn). }
  assert (forall k b, bs0 !! k = Some b -> cfg !! k = Some (bucket_count b)) as Hcfg.
  { intros k b Hb. destruct (Forall2_lookup_r _ _ _ _ _ HF Hb) as (x & Hx & _ & H2 & _).
    apply init_bins_lookup in Hx as (n & Hn & ->). by rewrite H2. }
  assert (blocks_need bs0 = blocks_need (init_bins cfg)) as Hneed.
  { clear -HF. induction HF as [|x y l l' (H1 & H2 & _) _ IH]; [done|].
    cbn [blocks_need foldr]. fold (blocks_need l') (blocks_need l).
    rewrite IH. unfold blocks_len, block_total. by rewrite H1, H2. }
  pose proof (carve_blocks_spec bs0 0 m c ((c + 7) / 8 * 8) rgn c (rgn + bytes) 0 0) as Hcv.
  destruct (carve_blocks bs0 0 m c 0 0) as [[[[m' bs'] c'] bm'] t'] eqn:Hcarve.
  change (Z.of_nat 0) with 0 in Hcv. rewrite Hcarve in Hcv.
  destruct Hcv as [Hcl Hcur Hbl Hfr Hfm Hbm _]; try done; try lia.
  - apply Forall_lookup. intros k b Hb. by apply (Hbs0 k).
  - intros k b Hb. by apply (Hbs0 k).
  - zlia.
  - by rewrite Z.mod_mul.
  - rewrite Hneed. zlia.
  - rewrite u64_small by (umach; lia). rewrite (proj2 (Z.ltb_ge _ _)) by lia.
    set (a' := mkSlab _ _ _ _ _ _ _ _ _ _).
    assert (slab_layout a' c) as L.
    { split; cbn [a' bins region region_bytes].
      - by rewrite <-(Forall2_length _ _ _ Hcl).
      - intros k b Hb. destruct (Forall2_lookup_r _ _ _ _ _ Hcl Hb) as (x & Hx & H1 & H2 & _).
        destruct (Hbs0 k x Hx) as [[Hs Hn] _]. split; congruence.
      - eapply ordered_same; [|done]. eapply Forall2_impl; [done|].
        intros x y (_ & H2 & H3). unfold stack_len. by rewrite H2, H3.
      - eapply ordered_hi; [|done]. lia.
      - done. }
    destruct (slab_inv_fresh m' a' c L) as [I Hlv]; [|done|].
    { intros k b Hb. split; [by apply (Hfr k)|]. cbn [a' bitmap]. 
      specialize (Hbm k b Hb). cbn [Nat.add] in Hbm. rewrite Hbm, Z.bits_0. done. }
    split; [split_and!; try done; intros x Hx; symmetry; apply Hfm; unfold rng in Hx; lia|].
    split; [done|]. intros k b Hb. cbn [a' bins] in Hb. split; [|by destruct (Hfr k b Hb)].
    destruct (Forall2_lookup_r _ _ _ _ _ Hcl Hb) as (x & Hx & _ & H2 & _). rewrite H2. by apply Hcfg.
Qed.

Lemma slab_init_establishes m a rgn bytes cfg :
  length cfg = 16%nat -> Forall is_u16 cfg -> 0 < rgn ->
  rgn + bytes < 0x10000000000000000 -> slab_required_bytes cfg <= bytes ->
  let '(m', a', r) := slab_init m a rgn bytes cfg in
  r = SLAB_OK /\ slab_inv m' a' /\ (forall p s, ~ live m' a' p s) /\
  region a' = rgn /\ region_bytes a' = bytes /\ mem_frame rgn bytes m m'.
Proof.
  intros H1 H2 H3 H4 H5. pose proof (slab_init_state m a rgn bytes cfg H1 H2 H3 H4 H5) as H.
  destruct (slab_init m a rgn bytes cfg) as [[m' a'] r]. apply H.
Qed.

(** ** Reallocation *)

(** An allocation leaves the payloads of the live blocks alone. *)
Lemma alloc_keeps_payloads m a n m' a' p s q t :
  slab_inv m' a' -> alloc_effect m a n m' a' p s -> live m a q t ->
  mem_agree (rng q t) m m' /\ rdisj p s q t /\ p <> q.
Proof.
  intros I' [_ Hfr Hlv Hfm _ _] Hq.
  assert (p <> q) as Hne by (intros ->; by apply (Hfr t)).
  assert (live m' a' p s) as Hp by (apply Hlv; by right).
  assert (live m' a' q t) as Hq' by (apply Hlv; by left).
  pose proof (live_disjoint _ _ _ _ _ _ I' Hp Hq' Hne) as Hd.
  pose proof (live_inside _ _ _ _ I' Hp). pose proof (live_inside _ _ _ _ I' Hq').
  unfold SLAB_HEADER_SIZE in *.
  split; [|split]; [|unfold rdisj in *; lia|done].
  eapply frame_agree; [done|]. unfold rdisj in *. lia.
Qed.

Lemma slab_block_size_live m a p s :
  slab_inv m a -> live m a p s -> slab_block_size m a p = s /\ p <> 0.
Proof.
  intros I (i & x & b & (Hx & Hb & Hn) & -> & ->). destruct (si_layout _ _ I) as [mid L].
  destruct (ptr_in_region a mid i x b L Hx Hb) as [Hp Hin]. split; [|done].
  pose proof (si_bins _ _ I _ _ Hx) as Hok. pose proof (lay_lt a mid L i x Hx).
  unfold slab_block_size. rewrite (header_of_ptr a mid L i x b Hx Hb), (proj2 (Z.eqb_neq _ _) Hp), Hin.
  rewrite (magic_live m i x b Hok Hb Hn), (bo_bin _ _ _ Hok b Hb). cbn [negb].
  rewrite (proj2 (Z.leb_gt SLAB_BIN_COUNT (Z.of_nat i))) by (unfold SLAB_BIN_COUNT; lia).
  pose proof (bin_at_lookup a mid (Z.of_nat i) L ltac:(lia)) as Hba.
  rewrite Nat2Z.id, Hx in Hba. by injection Hba as <-.
Qed.

(** What a reallocation that returns [np] in place of [p] guarantees. *)
Record realloc_effect (m : mem) (a : SlabAllocator) (p s n : Z) (m' : mem) (a' : SlabAllocator)
    (np t : Z) : Prop := {
  re_size : n <= t;
  re_live : live m' a' np t;
  re_data : mem_read m' np (Z.min s n) = mem_read m p (Z.min s n);
  re_others q u : q <> np -> live m' a' q u <-> live m a q u /\ q <> p;
  re_keep q u : live m a q u -> q <> p -> mem_agree (rng q u) m m'
}.

Lemma slab_realloc_moves m a p s n m1 a1 np t :
  slab_inv m a -> live m a p s -> s < n -> slab_inv m1 a1 ->
  alloc_effect m a n m1 a1 np t ->
  let m2 := memcpy m1 np p s in
  let '(m', a', _) := slab_free m2 a1 p in
  slab_inv m' a' /\ realloc_effect m a p s n m' a' np t.
Proof.
  intros I Hp Hsn I1 A m2. pose proof (live_inside _ _ _ _ I Hp) as (_ & _ & _ & Hs32).
  destruct (alloc_keeps_payloads _ _ _ _ _ _ _ _ _ I1 A Hp) as (Hag & Hd & Hne).
  pose proof A as [Hsz _ Hlv1 _ _ _]. unfold SLAB_HEADER_SIZE in Hsz.
  assert (live m1 a1 np t) as Hnp1 by (apply Hlv1; by right).
  assert (mem_frame np t m1 m2) as Hf2
    by (eapply mem_frame_mono; [| |apply memcpy_frame]; lia).
  destruct (slab_inv_client m1 m2 a1 np t I1 Hnp1 Hf2) as [I2 Hlv2].
  assert (live m2 a1 p s) as Hp2 by (apply Hlv2, Hlv1; by left).
  assert (live m2 a1 np t) as Hnp2 by by apply Hlv2.
  pose proof (slab_free_succeeds m2 a1 p s I2 Hp2) as Hfree.
  destruct (slab_free m2 a1 p) as [[m' a'] r]. destruct Hfree as (_ & I' & [Hlv' Hkeep _ _ _]).
  split; [done|]. split; [lia|by apply Hlv'| |..].
  - rewrite Z.min_l by lia. transitivity (mem_read m2 np s).
    + symmetry. apply mem_read_agree. intros z Hz. apply (Hkeep np t Hnp2 Hne).
      unfold rng in *. lia.
    + unfold m2. rewrite memcpy_read by lia. symmetry. by apply mem_read_agree.
  - intros q u Hq. rewrite Hlv', Hlv2, Hlv1. split.
    + intros [[?|[-> _]] ?]; [by split|done].
    + intros [? ?]. split; [by left|done].
  - intros q u Hq Hqp. destruct (alloc_keeps_payloads _ _ _ _ _ _ _ _ _ I1 A Hq) as (Hagq & Hdq & Hneq).
    transitivity m1; [done|]. transitivity m2.
    + eapply frame_agree; [done|]. unfold rdisj in *. lia.
    + apply (Hkeep q u); [|done]. apply Hlv2, Hlv1. by left.
Qed.

(** ** What a call finds *)

(** A pointer the caller may hand to [slab_free]: null, one from outside the
    region, or the address of one of the allocator's blocks, live or not. *)
Definition freeable (a : SlabAllocator) (p : Z) : Prop :=
  p = 0 \/ in_region a (header_of p) = false \/
  exists i x b, bins a !! i = Some x /\ 0 <= b < bucket_count x /\ p = block_ptr x b.

Lemma freeable_cases m a p :
  slab_inv m a -> freeable a p -> (exists s, live m a p s) \/ (slab_free m a p).1 = (m, a).
Proof.
  intros I [->|[Hout|(i & x & b & Hx & Hb & ->)]]; [by right|..].
  - right. destruct (decide (p = 0)) as [->|]; [done|]. by rewrite slab_free_foreign.
  - destruct (decide (block_ptr x b ∈ bin_free m x)) as [Hin|Hn].
    + right. by rewrite (slab_free_double m a i x b I Hx Hb).
    + left. exists (block_size x). by exists i, x, b.
Qed.

Lemma alloc_cases m a n :
  slab_inv m a -> 0 < n -> n + SLAB_HEADER_SIZE <= 0x100000000 ->
  slab_alloc m a n = (m, count_failure a, 0) /\ bin_unavailable a n \/
  exists m' a' p s, slab_alloc m a n = (m', a', p) /\ slab_inv m' a' /\ p <> 0 /\
    ~ bin_unavailable a n /\ alloc_effect m a n m' a' p s.
Proof.
  intros I Hn Hn2. assert (Decision (bin_unavailable a n)) as Hd
    by (unfold bin_unavailable; apply _).
  destruct (decide (bin_unavailable a n)) as [Hu|Hu].
  - left. by split; [apply slab_alloc_fails|].
  - right. pose proof (slab_alloc_succeeds m a n I Hn Hn2 Hu) as Hs.
    destruct (slab_alloc m a n) as [[m' a'] p]. destruct Hs as (I' & Hp & s & A).
    by exists m', a', p, s.
Qed.

Lemma alloc_effect_frame m a n m' a' p s :
  slab_inv m' a' -> alloc_effect m a n m' a' p s ->
  mem_frame (region a) (region_bytes a) m m'.
Proof.
  intros I' [_ _ Hlv Hf [Hr Hb] _]. assert (live m' a' p s) as Hl by (apply Hlv; by right).
  pose proof (live_inside _ _ _ _ I' Hl). unfold SLAB_HEADER_SIZE in *.
  eapply mem_frame_mono; [| |done]; lia.
Qed.

(** ** Properties *)

(** Initialising an allocator over a region of at least
    [slab_required_bytes] always succeeds: it returns [SLAB_OK], establishes
    the allocator's invariant with every block free, and writes inside the
    region only. *)
Theorem slab_init_correct m a rgn bytes cfg :
  length cfg = 16%nat -> Forall is_u16 cfg -> 0 < rgn ->
  rgn + bytes < 0x10000000000000000 -> slab_required_bytes cfg <= bytes ->
  let '(m', a', r) := slab_init m a rgn bytes cfg in
  r = SLAB_OK /\ slab_inv m' a' /\ (forall p s, ~ live m' a' p s) /\
  region a' = rgn /\ region_bytes a' = bytes /\ mem_frame rgn bytes m m'.
Proof. apply slab_init_establishes. Qed.

(** An allocation of a non-empty request whose size with its header fits 32
    bits either finds its class empty (or too large) and only counts the
    failure, or returns a block that was not live, is large enough, and becomes
    the only new live block; it writes nothing but that block's header. *)
Theorem slab_alloc_correct m a n :
  slab_inv m a -> 0 < n -> n + SLAB_HEADER_SIZE <= 0x100000000 ->
  let '(m', a', p) := slab_alloc m a n in
  slab_inv m' a' /\
  if decide (p = 0) then m' = m /\ a' = count_failure a /\ bin_unavailable a n
  else ~ bin_unavailable a n /\ exists s, alloc_effect m a n m' a' p s.
Proof.
  intros I Hn Hn2.
  destruct (alloc_cases m a n I Hn Hn2) as [[-> Hu]|(m' & a' & p & s & -> & I' & Hp & Hu & A)].
  - split; [by apply count_failure_inv|done].
  - rewrite decide_False by done. split; [done|]. split; [done|]. by exists s.
Qed.

(** Releasing a live block succeeds, removes exactly that block from the
    live set and leaves the payloads of the others unchanged; releasing a block
    that is already free, or a pointer from outside the region, is refused with
    the matching error and changes nothing. *)
Theorem slab_free_correct m a p :
  slab_inv m a -> freeable a p -> p <> 0 ->
  let '(m', a', r) := slab_free m a p in
  slab_inv m' a' /\
  match r with
  | SLAB_OK => exists s, live m a p s /\ free_effect m a p s m' a'
  | SLAB_ERR_DOUBLE_FREE => m' = m /\ a' = a /\ forall s, ~ live m a p s
  | SLAB_ERR_FOREIGN_POINTER => m' = m /\ a' = a /\ in_region a (header_of p) = false
  | _ => False
  end.
Proof.
  intros I [->|[Hout|(i & x & b & Hx & Hb & ->)]] Hp; [done|by rewrite slab_free_foreign|].
  destruct (decide (block_ptr x b ∈ bin_free m x)) as [Hin|Hn].
  - rewrite (slab_free_double m a i x b I Hx Hb Hin). split; [done|]. split_and!; [done|done|].
    intros s (j & y & c & (Hy & Hc & Hn) & Heq & _). destruct (si_layout _ _ I) as [mid L].
    destruct (block_ptr_inj a mid L i j x y b c Hx Hy Hb Hc Heq) as [<- <-].
    rewrite Hx in Hy. by injection Hy as <-.
  - assert (live m a (block_ptr x b) (block_size x)) as Hl by by exists i, x, b.
    pose proof (slab_free_succeeds m a _ _ I Hl) as Hs.
    destruct (slab_free m a (block_ptr x b)) as [[m' a'] r]. destruct Hs as (-> & I' & F).
    split; [done|]. by exists (block_size x).
Qed.

(** Reallocating a live block to a non-empty size either returns null and
    leaves the heap as it was, or returns a live block at least as large that
    starts with the old contents, in place of the old block and with every other
    live block and its payload unchanged. *)
Theorem slab_realloc_correct m a p s n :
  slab_inv m a -> live m a p s -> 0 < n -> n + SLAB_HEADER_SIZE <= 0x100000000 ->
  let '(m', a', np) := slab_realloc m a p n in
  slab_inv m' a' /\
  if decide (np = 0) then m' = m /\ (forall q t, live m' a' q t <-> live m a q t)
  else exists t, realloc_effect m a p s n m' a' np t.
Proof.
  intros I Hp Hn Hn2. destruct (slab_block_size_live m a p s I Hp) as [Hbs Hp0].
  pose proof (live_inside _ _ _ _ I Hp) as (_ & _ & _ & Hs32).
  unfold slab_realloc. rewrite (proj2 (Z.eqb_neq p 0) Hp0), (proj2 (Z.eqb_neq n 0)), Hbs by lia.
  rewrite (proj2 (Z.eqb_neq s 0)) by lia. destruct (Z.leb_spec n s) as [Hle|Hgt].
  - split; [done|]. rewrite decide_False by done. exists s. split; try done.
    intros q u Hq. tauto.
  - destruct (alloc_cases m a n I Hn Hn2) as [[-> Hu]|(m1 & a1 & np & t & -> & I1 & Hnp & Hu & A)].
    + cbn [Z.eqb]. split; [by apply count_failure_inv|done].
    + rewrite (proj2 (Z.eqb_neq np 0) Hnp).
      pose proof (slab_realloc_moves m a p s n m1 a1 np t I Hp Hgt I1 A) as Hm. cbv zeta in Hm.
      destruct (slab_free _ a1 p) as [[m' a'] r]. destruct Hm as [I' R].
      split; [done|]. rewrite decide_False by done. by exists t.
Qed.

(** Every request whose size with its header fits 32 bits is served from
    the smallest class whose block exceeds the request by a header. *)
Theorem size_class_smallest n :
  0 < n -> n + SLAB_HEADER_SIZE <= 0x100000000 ->
  let bin := size_to_bin n in
  0 <= bin <= SLAB_BIN_COUNT /\
  (bin < SLAB_BIN_COUNT -> n + SLAB_HEADER_SIZE <= bin_size bin) /\
  (forall j, 0 <= j < bin -> bin_size j < n + SLAB_HEADER_SIZE).
Proof.
  intros Hn Hn2. destruct (size_to_bin_spec n Hn Hn2) as (H1 & H2 & H3). cbv zeta.
  split; [done|split; [done|]]. intros j Hj. specialize (H3 ltac:(lia)).
  assert (bin_size j <= bin_size (size_to_bin n - 1)); [|lia].
  rewrite !bin_size_pow by (unfold SLAB_BIN_COUNT in *; lia). apply Z.pow_le_mono_r; lia.
Qed.

(** Requests beyond 32 bits are mis-sized: the class of a request of
    exactly [2^32] bytes, and of the largest [size_t], is the 32-byte class. *)
Theorem size_class_truncates :
  size_to_bin 0x100000000 = 0 /\ size_to_bin 0xFFFFFFFFFFFFFFFF = 0.
Proof. by vm_compute. Qed.

(** ** A small heap *)

Definition demo_cfg : list Z := [2; 1] ++ replicate 14 0.
Definition demo_heap : mem * SlabAllocator := (slab_init (fun _ => 0) slab_zero 0x1000 512 demo_cfg).1.
Definition demo_alloc : mem * SlabAllocator * Z := slab_alloc demo_heap.1 demo_heap.2 20.

Lemma demo_cfg_ok : Forall is_u16 demo_cfg.
Proof. unfold demo_cfg, is_u16. repeat (apply Forall_cons; split; [lia|]). apply Forall_nil_2. Qed.

Lemma demo_heap_inv : slab_inv demo_heap.1 demo_heap.2.
Proof.
  pose proof (slab_init_establishes (fun _ => 0) slab_zero 0x1000 512 demo_cfg eq_refl
    demo_cfg_ok ltac:(lia) ltac:(lia) ltac:(by vm_compute)) as H.
  unfold demo_heap. destruct (slab_init _ _ _ _ _) as [[m a] r]. apply H.
Qed.

Lemma demo_alloc_inv : slab_inv demo_alloc.1.1 demo_alloc.1.2.
Proof.
  pose proof demo_heap_inv as I.
  destruct (alloc_cases demo_heap.1 demo_heap.2 20 I ltac:(lia) ltac:(unfold SLAB_HEADER_SIZE; lia))
    as [[Heq _]|(m' & a' & p & s & Heq & I' & _)]; fold demo_alloc in Heq; rewrite Heq.
  - by apply count_failure_inv.
  - done.
Qed.

Lemma demo_alloc_live : live demo_alloc.1.1 demo_alloc.1.2 4168 32.
Proof.
  exists 0%nat, (bin_at demo_alloc.1.2 0), 1. split; [split; [|split]|split].
  - by vm_compute.
  - by vm_compute.
  - apply (bool_decide_unpack _). by vm_compute.
  - by vm_compute.
  - by vm_compute.
Qed.

Lemma slab_init_correct_witness :
  slab_required_bytes demo_cfg <= 512 /\
  let '(m', a', r) := slab_init (fun _ => 0) slab_zero 0x1000 512 demo_cfg in
  r = SLAB_OK /\ slab_inv m' a' /\ (forall p s, ~ live m' a' p s) /\
  region a' = 0x1000 /\ region_bytes a' = 512 /\ mem_frame 0x1000 512 (fun _ => 0) m'.
Proof.
  assert (slab_required_bytes demo_cfg <= 512) as H by by vm_compute. split; [exact H|].
  exact (slab_init_correct (fun _ => 0) slab_zero 0x1000 512 demo_cfg eq_refl
    demo_cfg_ok ltac:(lia) ltac:(lia) H).
Defined.

Lemma slab_alloc_correct_witness :
  let '(m', a', p) := slab_alloc demo_heap.1 demo_heap.2 20 in
  slab_inv m' a' /\
  if decide (p = 0) then m' = demo_heap.1 /\ a' = count_failure demo_heap.2 /\
    bin_unavailable demo_heap.2 20
  else ~ bin_unavailable demo_heap.2 20 /\
    exists s, alloc_effect demo_heap.1 demo_heap.2 20 m' a' p s.
Proof.
  exact (slab_alloc_correct demo_heap.1 demo_heap.2 20 demo_heap_inv ltac:(lia)
    ltac:(unfold SLAB_HEADER_SIZE; lia)).
Defined.

Lemma slab_free_correct_witness :
  let '(m', a', r) := slab_free demo_alloc.1.1 demo_alloc.1.2 4168 in
  slab_inv m' a' /\
  match r with
  | SLAB_OK => exists s, live demo_alloc.1.1 demo_alloc.1.2 4168 s /\
      free_effect demo_alloc.1.1 demo_alloc.1.2 4168 s m' a'
  | SLAB_ERR_DOUBLE_FREE => m' = demo_alloc.1.1 /\ a' = demo_alloc.1.2 /\
      forall s, ~ live demo_alloc.1.1 demo_alloc.1.2 4168 s
  | SLAB_ERR_FOREIGN_POINTER => m' = demo_alloc.1.1 /\ a' = demo_alloc.1.2 /\
      in_region demo_alloc.1.2 (header_of 4168) = false
  | _ => False
  end.
Proof.
  refine (slab_free_correct demo_alloc.1.1 demo_alloc.1.2 4168 demo_alloc_inv _ ltac:(lia)).
  right. right. exists 0%nat, (bin_at demo_alloc.1.2 0), 1. by vm_compute.
Defined.

Lemma slab_realloc_correct_witness :
  let '(m', a', np) := slab_realloc demo_alloc.1.1 demo_alloc.1.2 4168 50 in
  slab_inv m' a' /\
  if decide (np = 0) then m' = demo_alloc.1.1 /\
    (forall q t, live m' a' q t <-> live demo_alloc.1.1 demo_alloc.1.2 q t)
  else exists t, realloc_effect demo_alloc.1.1 demo_alloc.1.2 4168 32 50 m' a' np t.
Proof.
  exact (slab_realloc_correct demo_alloc.1.1 demo_alloc.1.2 4168 32 50 demo_alloc_inv
    demo_alloc_live ltac:(lia) ltac:(unfold SLAB_HEADER_SIZE; lia)).
Defined.

Lemma size_class_smallest_witness :
  0 < 100 /\ 0 <= size_to_bin 100 <= SLAB_BIN_COUNT.
Proof.
  split; [lia|]. apply (size_class_smallest 100); [lia|unfold SLAB_HEADER_SIZE; lia].
Defined.
