(* ===== verification/SlabClient.v ===== *)
(** The slab allocator as its client sees it: a store of blocks with contents, of so many
    blocks of each size class, that every history of calls and writes follows. *)
From stdpp Require Import gmap.
From S2P Require Import Prelude HostMem SlabStack SlabInv SlabInit.
#[local] Open Scope Z_scope.

(** ** The store *)

(** The blocks the client holds, by payload address: the contents of all their usable
    bytes. *)
Abbreviation blocks := (gmap Z (list Z)).

Definition sum_blocks (f : list Z -> Z) (L : blocks) : Z := map_fold (fun _ bs n => f bs + n) 0 L.

(** The bytes held, and the blocks held of the class of size [2^(k+5)]. *)
Definition bytes_held (L : blocks) : Z := sum_blocks (fun bs => Z.of_nat (length bs)) L.
Definition class_held (k : Z) (L : blocks) : Z :=
  sum_blocks (fun bs => if Z.of_nat (length bs) =? 2 ^ (k + 5) then 1 else 0) L.

(** The class of a request: the least whose block holds it and a header; 16 when none
    does. *)
Definition class_of (n k : Z) : Prop :=
  0 <= k <= 16 /\ (k < 16 -> n + 8 <= 2 ^ (k + 5)) /\ forall j, 0 <= j < k -> 2 ^ (j + 5) < n + 8.

(** What the client does, with the answers it gets. *)
Inductive event :=
  | EvAlloc (n p : Z)
  | EvRealloc (p n q : Z)
  | EvFree (p : Z) (r : SlabResult)
  | EvWrite (p off : Z) (ws : list Z).

(** The store serves a request from its class, unless the client holds all blocks of it. *)
Inductive served (cfg : list Z) (L : blocks) (n : Z) : option Z -> Prop :=
  | served_yes k : class_of n k -> k < 16 -> class_held k L < nth (Z.to_nat k) cfg 0 -> served cfg L n (Some (2 ^ (k + 5)))
  | served_no k : class_of n k -> k = 16 \/ class_held k L = nth (Z.to_nat k) cfg 0 -> served cfg L n None.

Definition overwrite (bs : list Z) (off : nat) (ws : list Z) : list Z := take off bs ++ ws ++ drop (off + length ws) bs.

Inductive store_step (cfg : list Z) : blocks -> event -> blocks -> Prop :=
  | st_alloc L n p size bs : 0 < n -> served cfg L n (Some size) -> p <> 0 -> L !! p = None -> Z.of_nat (length bs) = size ->
      store_step cfg L (EvAlloc n p) (<[p := bs]> L)
  | st_alloc_none L n : n = 0 \/ served cfg L n None -> store_step cfg L (EvAlloc n 0) L
  | st_free L p bs : L !! p = Some bs -> store_step cfg L (EvFree p SLAB_OK) (delete p L)
  | st_free_null L : store_step cfg L (EvFree 0 SLAB_OK) L
  | st_free_wrong L p r : p <> 0 -> L !! p = None -> r = SLAB_ERR_DOUBLE_FREE \/ r = SLAB_ERR_FOREIGN_POINTER ->
      store_step cfg L (EvFree p r) L
  | st_realloc_null L n q L' : store_step cfg L (EvAlloc n q) L' -> store_step cfg L (EvRealloc 0 n q) L'
  | st_realloc_zero L p r L' : p <> 0 -> store_step cfg L (EvFree p r) L' -> store_step cfg L (EvRealloc p 0 0) L'
  | st_realloc_wrong L p n : p <> 0 -> 0 < n -> L !! p = None -> store_step cfg L (EvRealloc p n 0) L
  | st_realloc_stays L p n bs : 0 < n -> L !! p = Some bs -> n <= Z.of_nat (length bs) -> store_step cfg L (EvRealloc p n p) L
  | st_realloc_fails L p n bs : L !! p = Some bs -> Z.of_nat (length bs) < n -> served cfg L n None ->
      store_step cfg L (EvRealloc p n 0) L
  | st_realloc_moves L p n bs q size bs' : L !! p = Some bs -> Z.of_nat (length bs) < n -> served cfg L n (Some size) ->
      q <> 0 -> L !! q = None -> Z.of_nat (length bs') = size -> take (length bs) bs' = bs ->
      store_step cfg L (EvRealloc p n q) (delete p (<[q := bs']> L))
  | st_write L p bs off ws : L !! p = Some bs -> 0 <= off -> off + Z.of_nat (length ws) <= Z.of_nat (length bs) ->
      store_step cfg L (EvWrite p off ws) (<[p := overwrite bs (Z.to_nat off) ws]> L).

Inductive store_run (cfg : list Z) : blocks -> list event -> blocks -> Prop :=
  | store_done L : store_run cfg L [] L
  | store_more L e L1 h L2 : store_step cfg L e L1 -> store_run cfg L1 h L2 -> store_run cfg L (e :: h) L2.

(** ** The allocator *)

(** The requests the allocator sizes right ([size_class_truncates]). *)
Definition request_ok (n : Z) : Prop := 0 <= n /\ n + SLAB_HEADER_SIZE <= 0x100000000.

(** A call passes null, the address of one of the allocator's blocks, held or not, or a
    pointer from outside the region; a write stays in a block that is handed out. *)
Inductive heap_step : mem * SlabAllocator -> event -> mem * SlabAllocator -> Prop :=
  | hs_alloc m a n m' a' p : request_ok n -> slab_alloc m a n = (m', a', p) -> heap_step (m, a) (EvAlloc n p) (m', a')
  | hs_realloc m a p n m' a' q : request_ok n -> freeable a p -> slab_realloc m a p n = (m', a', q) ->
      heap_step (m, a) (EvRealloc p n q) (m', a')
  | hs_free m a p m' a' r : freeable a p -> slab_free m a p = (m', a', r) -> heap_step (m, a) (EvFree p r) (m', a')
  | hs_write m a p s off ws : live m a p s -> 0 <= off -> off + Z.of_nat (length ws) <= s ->
      heap_step (m, a) (EvWrite p off ws) (mem_write m (p + off) ws, a).

Inductive heap_run : mem * SlabAllocator -> list event -> mem * SlabAllocator -> Prop :=
  | heap_done σ : heap_run σ [] σ
  | heap_more σ e σ1 h σ2 : heap_step σ e σ1 -> heap_run σ1 h σ2 -> heap_run σ (e :: h) σ2.

(** ** Sums *)

Lemma sum_insert f L p bs : L !! p = None -> sum_blocks f (<[p := bs]> L) = f bs + sum_blocks f L.
Proof. intros H. unfold sum_blocks. rewrite (map_fold_insert_L (fun _ bs n => f bs + n) 0 p bs L) by (done || (intros; lia)). done. Qed.

Lemma sum_delete f L p bs : L !! p = Some bs -> sum_blocks f (delete p L) = sum_blocks f L - f bs.
Proof.
  intros H. rewrite <-(insert_delete_id L p bs) at 2 by done. rewrite sum_insert by apply lookup_delete_eq. lia.
Qed.

Lemma sum_update f L p bs bs' : L !! p = Some bs -> f bs' = f bs -> sum_blocks f (<[p := bs']> L) = sum_blocks f L.
Proof.
  intros H E. rewrite <-insert_delete_eq, sum_insert, (sum_delete f L p bs) by (done || apply lookup_delete_eq). lia.
Qed.

Lemma overwrite_length bs off ws : (off + length ws <= length bs)%nat -> length (overwrite bs off ws) = length bs.
Proof. intros H. unfold overwrite. rewrite !length_app, length_take, length_drop. lia. Qed.

Lemma mem_read_drop m a n k : 0 <= k <= n -> drop (Z.to_nat k) (mem_read m a n) = mem_read m (a + k) (n - k).
Proof.
  intros H. replace n with (k + (n - k)) at 1 by lia. rewrite mem_read_app by lia.
  rewrite drop_app_length'; [done|]. by rewrite mem_read_length.
Qed.

Lemma mem_read_overwrite m p bs off ws : mem_read m p (Z.of_nat (length bs)) = bs -> (off + length ws <= length bs)%nat ->
  mem_read (mem_write m (p + Z.of_nat off) ws) p (Z.of_nat (length bs)) = overwrite bs off ws.
Proof.
  intros E H. unfold overwrite.
  replace (Z.of_nat (length bs)) with (Z.of_nat off + (Z.of_nat (length ws) + Z.of_nat (length bs - off - length ws))) by lia.
  rewrite !mem_read_app by lia. f_equal; [|f_equal].
  - rewrite mem_read_write_disj by (unfold rdisj; lia). rewrite <-E at 1. rewrite <-(Nat2Z.id off) at 2. by rewrite mem_read_take by lia.
  - by apply mem_read_write_eq.
  - rewrite mem_read_write_disj by (unfold rdisj; lia). rewrite <-E at 2.
    rewrite <-(Nat2Z.id (off + length ws)), mem_read_drop by lia. rewrite Nat2Z.inj_add, Z.add_assoc. f_equal. lia.
Qed.

(** ** The allocator and the store agree *)

Record agrees (m0 : mem) (rgn bytes : Z) (cfg : list Z) (m : mem) (a : SlabAllocator) (L : blocks) : Prop := {
  ag_inv : slab_inv m a;
  ag_live p s : live m a p s <-> exists bs, L !! p = Some bs /\ s = Z.of_nat (length bs);
  ag_data p bs : L !! p = Some bs -> mem_read m p (Z.of_nat (length bs)) = bs;
  ag_total : total_bytes_in_use a = bytes_held L;
  ag_class k b : bins a !! k = Some b -> cfg !! k = Some (bucket_count b) /\ blocks_in_use b = class_held (Z.of_nat k) L;
  ag_place : region a = rgn /\ region_bytes a = bytes /\ mem_frame rgn bytes m0 m
}.

(** [slab_init] starts with the empty store. *)
Lemma fresh_agrees m0 rgn bytes cfg m a :
  region a = rgn /\ region_bytes a = bytes /\ mem_frame rgn bytes m0 m ->
  slab_inv m a -> (forall p s, ~ live m a p s) -> bins_fresh cfg a -> agrees m0 rgn bytes cfg m a ∅.
Proof.
  intros Hpl I Hno [Ht Hc]. split; try done. intros p s. split; [by intros H%Hno|by intros (bs & H & _)].
Qed.

Lemma size_to_bin_class n : 0 < n -> n + SLAB_HEADER_SIZE <= 0x100000000 -> class_of n (size_to_bin n).
Proof.
  intros Hn Hn2. destruct (size_to_bin_spec n Hn Hn2) as (H1 & H2 & H3). unfold SLAB_BIN_COUNT, SLAB_HEADER_SIZE in *.
  split; [done|]. split; [intros Hk; rewrite <-bin_size_pow by lia; auto|]. intros j Hj. rewrite <-bin_size_pow by lia.
  specialize (H3 ltac:(lia)). rewrite bin_size_pow in H3 |- * by lia.
  pose proof (Z.pow_le_mono_r 2 (j + 5) (size_to_bin n - 1 + 5) ltac:(lia) ltac:(lia)). lia.
Qed.

Lemma class_size_inj i j : 0 <= i -> 0 <= j -> 2 ^ (i + 5) = 2 ^ (j + 5) -> i = j.
Proof. intros Hi Hj E. apply Z.pow_inj_r in E; lia. Qed.

Section agree.
Context (m0 : mem) (rgn bytes : Z) (cfg : list Z) (m : mem) (a : SlabAllocator) (L : blocks) (A : agrees m0 rgn bytes cfg m a L).

Lemma store_held_live p bs : L !! p = Some bs -> live m a p (Z.of_nat (length bs)).
Proof. intros H. apply (ag_live _ _ _ _ _ _ _ A). by exists bs. Qed.

(** A class has no free block when the client holds them all. *)
Lemma unavailable_full n : 0 < n -> n + SLAB_HEADER_SIZE <= 0x100000000 ->
  if decide (bin_unavailable a n) then served cfg L n None
  else size_to_bin n < 16 /\ served cfg L n (Some (2 ^ (size_to_bin n + 5))).
Proof.
  intros Hn Hn2. pose proof (size_to_bin_class n Hn Hn2) as Hc. pose proof Hc as [Hr _].
  destruct (decide (size_to_bin n = 16)) as [E16|Hne].
  { rewrite decide_True by (by left). apply (served_no _ _ _ 16); [by rewrite <-E16|by left]. }
  destruct (si_layout _ _ (ag_inv _ _ _ _ _ _ _ A)) as [mid Y].
  pose proof (bin_at_lookup a mid (size_to_bin n) Y ltac:(lia)) as Hx. set (x := bin_at a (size_to_bin n)) in *.
  pose proof (si_bins _ _ (ag_inv _ _ _ _ _ _ _ A) _ _ Hx) as Hok. pose proof (bo_top _ _ _ Hok). pose proof (bo_used _ _ _ Hok).
  destruct (ag_class _ _ _ _ _ _ _ A _ _ Hx) as [Hcfg Hu]. rewrite Z2Nat.id in Hu by lia.
  assert (nth (Z.to_nat (size_to_bin n)) cfg 0 = bucket_count x) as Hnth by (by apply nth_lookup_Some).
  unfold bin_unavailable, SLAB_BIN_COUNT. fold x. case_decide as Hd.
  - destruct Hd as [|Hz]; [lia|]. apply (served_no _ _ _ _ Hc). right. lia.
  - split; [lia|]. apply (served_yes _ _ _ _ Hc); [lia|]. lia.
Qed.

Lemma agrees_alloc n m' a' p : 0 < n -> n + SLAB_HEADER_SIZE <= 0x100000000 -> slab_alloc m a n = (m', a', p) ->
  (p = 0 /\ served cfg L n None /\ m' = m /\ agrees m0 rgn bytes cfg m' a' L) \/
  (p <> 0 /\ L !! p = None /\ exists bs, served cfg L n (Some (Z.of_nat (length bs))) /\ n <= Z.of_nat (length bs) /\
     agrees m0 rgn bytes cfg m' a' (<[p := bs]> L)).
Proof.
  intros Hn Hn2 E. pose proof (ag_inv _ _ _ _ _ _ _ A) as I. pose proof (unavailable_full n Hn Hn2) as Hs.
  destruct (decide (bin_unavailable a n)) as [Hu|Hu].
  { left. rewrite (slab_alloc_fails m a n I Hn Hn2 Hu) in E. injection E as <- <- <-. split_and!; [done|done|done|].
    destruct A. split; try done. by apply count_failure_inv. }
  right. destruct Hs as [Hb Hs]. set (bin := size_to_bin n) in *.
  pose proof (slab_alloc_succeeds m a n I Hn Hn2 Hu) as Hal. rewrite E in Hal. destruct Hal as (I' & Hp & s & Ae).
  destruct (si_layout _ _ I) as [mid Y]. assert (0 <= bin < 16) as Hbin by (pose proof (size_to_bin_class n Hn Hn2) as [Hr _]; fold bin in Hr; lia).
  pose proof (bin_at_lookup a mid bin Y Hbin) as Hx. set (x := bin_at a bin) in *.
  assert (0 < internal_top x) as Htop.
  { pose proof (bo_top _ _ _ (si_bins _ _ I _ _ Hx)). assert (internal_top x <> 0); [|lia]. intros Hz. apply Hu. by right. }
  destruct (slab_alloc_taken m a mid n x bin Y I ltac:(lia) eq_refl Hbin Hx Htop) as (b & peak & pk & _ & _ & E'). rewrite E in E'.
  destruct (lay_shape _ _ Y _ _ Hx) as [Hsz _]. rewrite Z2Nat.id, bin_size_pow in Hsz by lia.
  assert (s = 2 ^ (bin + 5) /\ bins a' = <[Z.to_nat bin := taken x peak]> (bins a)) as [Es Eb].
  { injection E' as E1 E2 E3. pose proof (ae_count _ _ _ _ _ _ _ Ae) as [_ Ht]. rewrite E2 in Ht |- *. cbn in Ht |- *. split; [lia|done]. }
  assert (0 <= s) as Hs0 by (rewrite Es; apply Z.pow_nonneg; lia).
  assert (L !! p = None) as Hfresh.
  { destruct (L !! p) as [bs|] eqn:Ep; [|done]. by destruct (ae_fresh _ _ _ _ _ _ _ Ae _ (store_held_live p bs Ep)). }
  split; [done|]. split; [done|]. exists (mem_read m' p s). rewrite mem_read_length, Z2Nat.id by done.
  split; [by rewrite Es|]. split; [pose proof (ae_size _ _ _ _ _ _ _ Ae); unfold SLAB_HEADER_SIZE in *; lia|].
  split; [done| | | | |].
  - intros q t. rewrite (ae_live _ _ _ _ _ _ _ Ae), (ag_live _ _ _ _ _ _ _ A). split.
    + intros [(bs & Hq & ->)|[-> ->]].
      * exists bs. rewrite lookup_insert_ne; [done|congruence].
      * exists (mem_read m' p s). rewrite lookup_insert_eq, mem_read_length. split; [done|lia].
    + intros (bs & Hq & ->). apply lookup_insert_Some in Hq as [[<- <-]|[Hne Hq]].
      * right. rewrite mem_read_length. split; [done|lia].
      * left. by exists bs.
  - intros q bs Hq. apply lookup_insert_Some in Hq as [[<- <-]|[Hne Hq]]; [by rewrite mem_read_length, Z2Nat.id by done|].
    destruct (alloc_keeps_payloads _ _ _ _ _ _ _ _ _ I' Ae (store_held_live q bs Hq)) as (Hag & _).
    rewrite <-(ag_data _ _ _ _ _ _ _ A q bs Hq) at 2. symmetry. by apply mem_read_agree.
  - unfold bytes_held. rewrite sum_insert, mem_read_length by done. destruct (ae_count _ _ _ _ _ _ _ Ae) as [_ ->].
    rewrite (ag_total _ _ _ _ _ _ _ A). unfold bytes_held. lia.
  - intros k y Hk. rewrite Eb in Hk. unfold class_held. rewrite sum_insert, mem_read_length, Z2Nat.id by done. fold (class_held (Z.of_nat k) L).
    apply list_lookup_insert_Some in Hk as [(<- & <- & _)|[Hne Hk]].
    + destruct (ag_class _ _ _ _ _ _ _ A _ _ Hx) as [H1 H2]. split; [done|]. cbn [taken blocks_in_use]. rewrite H2, Z2Nat.id by lia.
      rewrite Es, Z.eqb_refl. lia.
    + destruct (ag_class _ _ _ _ _ _ _ A _ _ Hk) as [H1 H2]. split; [done|]. rewrite H2. rewrite (proj2 (Z.eqb_neq s _)); [lia|].
      rewrite Es. intros Eq. apply class_size_inj in Eq; lia.
  - destruct (ag_place _ _ _ _ _ _ _ A) as (Er & Ebt & Hf). destruct (ae_region _ _ _ _ _ _ _ Ae) as [-> ->].
    split_and!; [done|done|]. transitivity m; [done|]. pose proof (alloc_effect_frame _ _ _ _ _ _ _ I' Ae) as Hf'. by rewrite Er, Ebt in Hf'.
Qed.

Lemma agrees_free p bs : L !! p = Some bs ->
  let '(m', a', r) := slab_free m a p in r = SLAB_OK /\ agrees m0 rgn bytes cfg m' a' (delete p L).
Proof.
  intros Hp. pose proof (ag_inv _ _ _ _ _ _ _ A) as I. pose proof (store_held_live p bs Hp) as Hl.
  pose proof (slab_free_succeeds m a p _ I Hl) as Hf. destruct Hl as (i & x & b & Hb & Ep & Esz).
  destruct (si_layout _ _ I) as [mid Y]. pose proof (slab_free_returned m a mid i x b Y I Hb) as E. rewrite <-Ep in E.
  destruct (slab_free m a p) as [[m' a'] r]. destruct Hf as (-> & I' & F). split; [done|].
  assert (bins a' = <[i := returned x]> (bins a)) as Eb by (by injection E as _ ->). destruct Hb as (Hx & _).
  destruct (lay_shape _ _ Y _ _ Hx) as [Hsz _]. pose proof (lay_lt a mid Y i x Hx). rewrite bin_size_pow in Hsz by lia.
  split; [done| | | | |].
  - intros q t. rewrite (fe_live _ _ _ _ _ _ F), (ag_live _ _ _ _ _ _ _ A). split.
    + intros [(cs & Hq & ->) Hne]. exists cs. by rewrite lookup_delete_ne.
    + intros (cs & Hq & ->). apply lookup_delete_Some in Hq as [Hne Hq]. split; [by exists cs|done].
  - intros q cs Hq. apply lookup_delete_Some in Hq as [Hne Hq]. rewrite <-(ag_data _ _ _ _ _ _ _ A q cs Hq) at 2. symmetry.
    apply mem_read_agree, (fe_frame _ _ _ _ _ _ F); [by apply store_held_live|done].
  - unfold bytes_held. rewrite (sum_delete _ L p bs Hp). destruct (fe_count _ _ _ _ _ _ F) as [_ ->].
    by rewrite (ag_total _ _ _ _ _ _ _ A).
  - intros k y Hk. rewrite Eb in Hk. unfold class_held. rewrite (sum_delete _ L p bs Hp). fold (class_held (Z.of_nat k) L).
    apply list_lookup_insert_Some in Hk as [(<- & <- & _)|[Hne Hk]].
    + destruct (ag_class _ _ _ _ _ _ _ A _ _ Hx) as [H1 H2]. split; [done|]. cbn [returned blocks_in_use]. rewrite H2, Esz, Hsz, Z.eqb_refl. lia.
    + destruct (ag_class _ _ _ _ _ _ _ A _ _ Hk) as [H1 H2]. split; [done|]. rewrite H2, (proj2 (Z.eqb_neq _ _)); [lia|].
      rewrite Esz, Hsz. intros Eq. apply class_size_inj in Eq; lia.
  - destruct (ag_place _ _ _ _ _ _ _ A) as (Er & Ebt & Hf). destruct (fe_region _ _ _ _ _ _ F) as [-> ->].
    split_and!; [done|done|]. transitivity m; [done|]. intros z Hz. symmetry. apply (fe_outside _ _ _ _ _ _ F). by rewrite Er, Ebt.
Qed.

Lemma agrees_write p bs off ws : L !! p = Some bs -> (off + length ws <= length bs)%nat ->
  agrees m0 rgn bytes cfg (mem_write m (p + Z.of_nat off) ws) a (<[p := overwrite bs off ws]> L).
Proof.
  intros Hp Ho. pose proof (ag_inv _ _ _ _ _ _ _ A) as I. pose proof (store_held_live p bs Hp) as Hl. set (m' := mem_write _ _ _).
  assert (mem_frame p (Z.of_nat (length bs)) m m') as Hf
    by (eapply mem_frame_mono; [| |by apply (mem_write_frame _ _ _ (Z.of_nat (length ws)))]; lia).
  destruct (slab_inv_client m m' a p _ I Hl Hf) as [I' Hlv]. pose proof (overwrite_length bs off ws Ho) as Elen.
  split; [done| | | | |].
  - intros q t. rewrite Hlv, (ag_live _ _ _ _ _ _ _ A). destruct (decide (q = p)) as [->|Hne].
    + rewrite lookup_insert_eq, Hp. split; intros (cs & [= <-] & ->); eexists; split; try done; by rewrite Elen.
    + by rewrite lookup_insert_ne by done.
  - intros q cs Hq. apply lookup_insert_Some in Hq as [[<- <-]|[Hne Hq]].
    + rewrite Elen. apply mem_read_overwrite; [by apply (ag_data _ _ _ _ _ _ _ A)|done].
    + rewrite <-(ag_data _ _ _ _ _ _ _ A q cs Hq) at 2. symmetry. apply mem_read_agree. eapply frame_agree; [exact Hf|].
      pose proof (live_disjoint _ _ _ _ _ _ I Hl (store_held_live q cs Hq) Hne). unfold rdisj, SLAB_HEADER_SIZE in *. lia.
  - unfold bytes_held. rewrite (sum_update _ L p bs); [apply A|done|by rewrite Elen].
  - intros k b Hk. unfold class_held. rewrite (sum_update _ L p bs); [by apply A|done|by rewrite Elen].
  - destruct (ag_place _ _ _ _ _ _ _ A) as (Er & Ebt & Hfr). split_and!; [done|done|]. transitivity m; [done|].
    pose proof (live_inside _ _ _ _ I Hl). unfold SLAB_HEADER_SIZE in *. eapply mem_frame_mono; [| |exact Hf]; lia.
Qed.
End agree.

(** ** Every call *)

Lemma agrees_free_wrong m0 rgn bytes cfg m a L p : agrees m0 rgn bytes cfg m a L -> freeable a p -> p <> 0 -> L !! p = None ->
  exists r, slab_free m a p = (m, a, r) /\ (r = SLAB_ERR_DOUBLE_FREE \/ r = SLAB_ERR_FOREIGN_POINTER).
Proof.
  intros A Hp H0 Hno. pose proof (slab_free_correct m a p (ag_inv _ _ _ _ _ _ _ A) Hp H0) as H.
  destruct (slab_free m a p) as [[m' a'] r]. destruct H as [_ H]. destruct r; try done.
  - destruct H as (s & Hl & _). apply (ag_live _ _ _ _ _ _ _ A) in Hl as (bs & E & _). congruence.
  - destruct H as (-> & -> & _). eauto.
  - destruct H as (-> & -> & _). eauto.
Qed.

(** A release follows the store. *)
Lemma free_follows m0 rgn bytes cfg m a L p m' a' r : agrees m0 rgn bytes cfg m a L -> freeable a p -> slab_free m a p = (m', a', r) ->
  exists L', store_step cfg L (EvFree p r) L' /\ agrees m0 rgn bytes cfg m' a' L'.
Proof.
  intros A Hp E. destruct (decide (p = 0)) as [->|H0].
  { injection E as <- <- <-. exists L. split; [apply st_free_null|done]. }
  destruct (L !! p) as [bs|] eqn:Ep.
  - pose proof (agrees_free _ _ _ _ _ _ _ A p bs Ep) as H. rewrite E in H. destruct H as [-> A'].
    exists (delete p L). split; [by eapply st_free|done].
  - destruct (agrees_free_wrong _ _ _ _ _ _ _ p A Hp H0 Ep) as (r' & E' & Hr). rewrite E in E'. injection E' as -> -> ->.
    exists L. split; [by apply st_free_wrong|done].
Qed.

Lemma alloc_follows m0 rgn bytes cfg m a L n m' a' p : agrees m0 rgn bytes cfg m a L -> request_ok n -> slab_alloc m a n = (m', a', p) ->
  exists L', store_step cfg L (EvAlloc n p) L' /\ agrees m0 rgn bytes cfg m' a' L'.
Proof.
  intros A [Hn Hn2] E. destruct (decide (n = 0)) as [->|Hne].
  { injection E as <- <- <-. exists L. split; [by apply st_alloc_none; left|done]. }
  destruct (agrees_alloc _ _ _ _ _ _ _ A n m' a' p ltac:(lia) Hn2 E) as [(-> & Hs & _ & A')|(Hp & Hf & bs & Hs & _ & A')].
  - exists L. split; [by apply st_alloc_none; right|done].
  - eexists. split; [|exact A']. by eapply st_alloc; [lia|..].
Qed.

(** The size a reallocation finds for a pointer. *)
Lemma size_of_pointer m0 rgn bytes cfg m a L p : agrees m0 rgn bytes cfg m a L -> freeable a p -> p <> 0 ->
  slab_block_size m a p = match L !! p with Some bs => Z.of_nat (length bs) | None => 0 end.
Proof.
  intros A Hp H0. pose proof (ag_inv _ _ _ _ _ _ _ A) as I. destruct (L !! p) as [bs|] eqn:Ep.
  { by apply slab_block_size_live, (store_held_live _ _ _ _ _ _ _ A). }
  unfold slab_block_size. rewrite (proj2 (Z.eqb_neq p 0)) by done. destruct Hp as [?|[Hout|(i & x & b & Hx & Hb & ->)]]; [done|by rewrite Hout|].
  destruct (si_layout _ _ I) as [mid Y]. rewrite (header_of_ptr a mid Y i x b Hx Hb). destruct (in_region a (hdr x b)); [|done]. cbn [negb].
  assert (block_ptr x b ∈ bin_free m x) as Hin.
  { destruct (decide (block_ptr x b ∈ bin_free m x)) as [|Hn]; [done|]. exfalso.
    assert (live m a (block_ptr x b) (block_size x)) as Hl by (by exists i, x, b).
    apply (ag_live _ _ _ _ _ _ _ A) in Hl as (bs & E & _). congruence. }
  rewrite (bo_magic _ _ _ (si_bins _ _ I _ _ Hx) b Hb). unfold magic_of. by rewrite decide_True.
Qed.

Lemma held_positive m0 rgn bytes cfg m a L p bs : agrees m0 rgn bytes cfg m a L -> L !! p = Some bs -> 32 <= Z.of_nat (length bs) /\ 0 < p.
Proof.
  intros A Hp. pose proof (live_inside _ _ _ _ (ag_inv _ _ _ _ _ _ _ A) (store_held_live _ _ _ _ _ _ _ A p bs Hp)). lia.
Qed.

Lemma realloc_follows m0 rgn bytes cfg m a L p n m' a' q : agrees m0 rgn bytes cfg m a L -> request_ok n -> freeable a p ->
  slab_realloc m a p n = (m', a', q) ->
  exists L', store_step cfg L (EvRealloc p n q) L' /\ agrees m0 rgn bytes cfg m' a' L'.
Proof.
  intros A Hn Hp. unfold slab_realloc. destruct (Z.eqb_spec p 0) as [->|H0].
  { intros E. destruct (alloc_follows _ _ _ _ _ _ _ _ _ _ _ A Hn E) as (L' & Hst & A'). exists L'. split; [by apply st_realloc_null|done]. }
  destruct (Z.eqb_spec n 0) as [->|Hn0].
  { destruct (slab_free m a p) as [[m1 a1] r] eqn:Ef. intros [= <- <- <-].
    destruct (free_follows _ _ _ _ _ _ _ _ _ _ _ A Hp Ef) as (L' & Hst & A'). exists L'. split; [by eapply st_realloc_zero|done]. }
  rewrite (size_of_pointer _ _ _ _ _ _ _ _ A Hp H0). destruct (L !! p) as [bs|] eqn:Ep.
  2: { intros [= <- <- <-]. exists L. split; [apply st_realloc_wrong; [done|destruct Hn; lia|done]|done]. }
  pose proof (held_positive _ _ _ _ _ _ _ _ _ A Ep) as [Hlen Hpos]. rewrite (proj2 (Z.eqb_neq (Z.of_nat (length bs)) 0)) by lia.
  destruct (Z.leb_spec n (Z.of_nat (length bs))) as [Hle|Hgt].
  { intros [= <- <- <-]. exists L. split; [eapply st_realloc_stays; [destruct Hn; lia|done|done]|done]. }
  destruct (slab_alloc m a n) as [[m1 a1] np] eqn:Ea.
  destruct (agrees_alloc _ _ _ _ _ _ _ A n m1 a1 np ltac:(lia) (proj2 Hn) Ea) as [(-> & Hs & -> & A1)|(Hnp & Hfr & bs1 & Hs & Hn1 & A1)].
  { intros [= <- <- <-]. exists L. split; [by eapply st_realloc_fails|done]. }
  rewrite (proj2 (Z.eqb_neq np 0)) by done. assert (np <> p) as Hne by congruence.
  assert (mem_read m1 p (Z.of_nat (length bs)) = bs) as Hrd by (apply (ag_data _ _ _ _ _ _ _ A1); by rewrite lookup_insert_ne).
  pose proof (agrees_write _ _ _ _ _ _ _ A1 np bs1 0 bs ltac:(by rewrite lookup_insert_eq) ltac:(lia)) as A2.
  rewrite Z.add_0_r in A2. unfold memcpy. rewrite Hrd. rewrite insert_insert_eq in A2.
  pose proof (agrees_free _ _ _ _ _ _ _ A2 p bs ltac:(by rewrite lookup_insert_ne)) as Hf.
  destruct (slab_free _ a1 p) as [[m2 a2] r]. destruct Hf as [_ A3]. intros [= <- <- <-].
  eexists. split; [|exact A3]. pose proof (overwrite_length bs1 0 bs ltac:(lia)) as El.
  eapply st_realloc_moves; [done|lia|exact Hs|done|done|by rewrite El|].
  unfold overwrite. rewrite take_0. cbn [app]. by rewrite take_app_length.
Qed.

Lemma step_follows m0 rgn bytes cfg σ e σ' L : agrees m0 rgn bytes cfg σ.1 σ.2 L -> heap_step σ e σ' ->
  exists L', store_step cfg L e L' /\ agrees m0 rgn bytes cfg σ'.1 σ'.2 L'.
Proof.
  intros A Hst. destruct Hst as [m a n m' a' p Hn E|m a p n m' a' q Hn Hp E|m a p m' a' r Hp E|m a p s off ws Hl Ho Hw]; cbn [fst snd] in *.
  - by apply (alloc_follows _ _ _ _ m a).
  - by apply (realloc_follows _ _ _ _ m a).
  - by apply (free_follows _ _ _ _ m a).
  - apply (ag_live _ _ _ _ _ _ _ A) in Hl as (bs & Ep & ->). eexists. split; [by apply st_write|].
    rewrite <-(Z2Nat.id off) at 1 by done. apply (agrees_write _ _ _ _ _ _ _ A); [done|lia].
Qed.

Lemma run_follows m0 rgn bytes cfg σ h σ' : heap_run σ h σ' -> forall L, agrees m0 rgn bytes cfg σ.1 σ.2 L ->
  exists L', store_run cfg L h L' /\ agrees m0 rgn bytes cfg σ'.1 σ'.2 L'.
Proof.
  induction 1 as [σ|σ e σ1 h σ2 Hst _ IH]; intros L A; [exists L; split; [constructor|done]|].
  destruct (step_follows _ _ _ _ _ _ _ _ A Hst) as (L1 & Hs & A1). destruct (IH L1 A1) as (L2 & Hr & A2).
  exists L2. split; [by econstructor|done].
Qed.

(** ** The property *)

(** C5. The slab allocator is a store of blocks.  Initialised over a region of at least
    [slab_required_bytes], whatever its caller then does - allocations and reallocations
    of up to 2^32 bytes with the header, releases, and writes into blocks handed out, with
    pointers held, freed, null or foreign - every answer is the one the store gives: a
    request is served, by an address not held and a block of the least class that fits,
    unless the client holds all blocks of that class; a reallocation keeps or moves the
    contents; a wrong release is refused; and a block holds what was last written to it.
    At every moment the blocks held lie inside the region and are disjoint, headers
    included, they are as the store says, byte for byte, the byte statistic is the sum of
    their sizes, and no byte outside the region has changed. *)
Theorem slab_heap_safe m0 a0 rgn bytes cfg h m a :
  length cfg = 16%nat -> Forall is_u16 cfg -> 0 < rgn ->
  rgn + bytes < 2 ^ 64 -> slab_required_bytes cfg <= bytes ->
  let '(m1, a1, r) := slab_init m0 a0 rgn bytes cfg in
  r = SLAB_OK /\
  (heap_run (m1, a1) h (m, a) ->
   exists L, store_run cfg ∅ h L /\
     (forall p bs, L !! p = Some bs -> rgn + SLAB_HEADER_SIZE <= p /\ p + Z.of_nat (length bs) <= rgn + bytes /\
        mem_read m p (Z.of_nat (length bs)) = bs) /\
     (forall p bs q cs, L !! p = Some bs -> L !! q = Some cs -> p <> q ->
        rdisj (p - SLAB_HEADER_SIZE) (Z.of_nat (length bs) + SLAB_HEADER_SIZE)
              (q - SLAB_HEADER_SIZE) (Z.of_nat (length cs) + SLAB_HEADER_SIZE)) /\
     total_bytes_in_use a = bytes_held L /\ mem_frame rgn bytes m0 m).
Proof.
  intros Hlen Hu Hr Hfit Hreq. pose proof (slab_init_state m0 a0 rgn bytes cfg Hlen Hu Hr Hfit Hreq) as Hinit.
  destruct (slab_init m0 a0 rgn bytes cfg) as [[m1 a1] r]. destruct Hinit as [(-> & I1 & Hno & Hr1 & Hb1 & Hf1) Hfresh].
  split; [done|]. intros Hrun. pose proof (fresh_agrees m0 rgn bytes cfg m1 a1 ltac:(done) I1 Hno Hfresh) as A0.
  destruct (run_follows _ _ _ _ _ _ _ Hrun ∅ A0) as (L & Hst & A). cbn [fst snd] in A. exists L.
  pose proof (ag_inv _ _ _ _ _ _ _ A) as I. destruct (ag_place _ _ _ _ _ _ _ A) as (Era & Eba & Hf). split_and!; [done| | |apply A|done].
  - intros p bs Hp. pose proof (live_inside _ _ _ _ I (store_held_live _ _ _ _ _ _ _ A p bs Hp)). rewrite Era, Eba in *.
    split_and!; [lia|lia|]. by apply (ag_data _ _ _ _ _ _ _ A).
  - intros p bs q cs Hp Hq Hne. by apply (live_disjoint m a); [done|apply (store_held_live _ _ _ _ _ _ _ A)..|].
Qed.

(** ** Witness *)

Lemma live_freeable m a p s : live m a p s -> freeable a p.
Proof. intros (i & x & b & (Hx & Hb & _) & -> & _). right. right. by exists i, x, b. Qed.

(** An allocation, a write into the block, and a reallocation that moves it. *)
Definition demo_written : mem := mem_write demo_alloc.1.1 (4168 + 3) [7].
Definition demo_moved : mem * SlabAllocator * Z := slab_realloc demo_written demo_alloc.1.2 4168 50.

Lemma demo_store_run : heap_run demo_heap [EvAlloc 20 4168; EvWrite 4168 3 [7]; EvRealloc 4168 50 demo_moved.2] demo_moved.1.
Proof.
  assert (live demo_written demo_alloc.1.2 4168 32) as Hl.
  { apply (slab_inv_client demo_alloc.1.1 demo_written demo_alloc.1.2 4168 32 demo_alloc_inv demo_alloc_live); [|exact demo_alloc_live].
    eapply mem_frame_mono; [| |apply (mem_write_frame _ _ _ 1)]; cbn; lia. }
  apply (heap_more _ _ demo_alloc.1).
  { assert (demo_alloc.2 = 4168) as E by (vm_compute; reflexivity). unfold demo_alloc in E |- *.
    destruct demo_heap as [m a]. cbn [fst snd] in *. destruct (slab_alloc m a 20) as [[m' a'] p] eqn:Ea. cbn in E |- *. subst p.
    apply hs_alloc; [split; unfold SLAB_HEADER_SIZE; lia|exact Ea]. }
  apply (heap_more _ _ (demo_written, demo_alloc.1.2)).
  { rewrite (surjective_pairing demo_alloc.1) at 1. apply (hs_write _ _ 4168 32 3 [7] demo_alloc_live); cbn; lia. }
  apply (heap_more _ _ demo_moved.1); [|constructor]. unfold demo_moved.
  destruct (slab_realloc demo_written demo_alloc.1.2 4168 50) as [[m a] q] eqn:E. cbn [fst snd].
  apply hs_realloc; [split; unfold SLAB_HEADER_SIZE; lia|by eapply live_freeable|exact E].
Qed.

Lemma slab_heap_safe_witness : exists L, store_run demo_cfg ∅ [EvAlloc 20 4168; EvWrite 4168 3 [7]; EvRealloc 4168 50 demo_moved.2] L /\
  total_bytes_in_use demo_moved.1.2 = bytes_held L.
Proof.
  pose proof (slab_heap_safe (fun _ => 0) slab_zero 0x1000 512 demo_cfg
    [EvAlloc 20 4168; EvWrite 4168 3 [7]; EvRealloc 4168 50 demo_moved.2] demo_moved.1.1 demo_moved.1.2
    eq_refl demo_cfg_ok ltac:(lia) ltac:(lia) ltac:(vm_compute; discriminate)) as H.
  pose proof demo_store_run as R. unfold demo_heap in R.
  destruct (slab_init (fun _ => 0) slab_zero 0x1000 512 demo_cfg) as [[m1 a1] r]. destruct H as [_ H].
  cbn [fst] in R. destruct H as (L & Hs & _ & _ & Ht & _).
  - rewrite <-surjective_pairing. exact R.
  - exists L. split; [exact Hs|exact Ht].
Defined.
