(* ===== verification/Bump.v ===== *)
(** The bump allocator ([src/memory/bump.c]): a region, an offset that only
    moves forward between resets, and marks to rewind to.  The arena is its
    [BumpAllocator] value; only the slab-backed life cycle touches host memory,
    through the operations of [SlabStack].  A [NULL] handle, which every
    operation refuses, has no value here. *)
From S2P Require Import Prelude HostMem SlabStack SlabInv SlabInit.

Definition BUMP_DEFAULT_ALIGNMENT : Z := 8.

Inductive BumpResult := BUMP_OK | BUMP_ERR_INVALID_ARG | BUMP_ERR_NO_SPACE.

Record BumpAllocator := mkBump {
  bp_region : Z;
  bp_region_bytes : Z;
  bp_offset : Z;
  bp_peak_offset : Z;
  bp_parent_slab : Z
}.

Definition is_power_of_two (x : Z) : bool := negb (x =? 0) && (Z.land x (x - 1) =? 0).

(** ** Life cycle *)

Definition bump_init (b : BumpAllocator) (region bytes : Z) : BumpAllocator * BumpResult :=
  if (region =? 0) || (bytes =? 0) then (b, BUMP_ERR_INVALID_ARG) else
  (mkBump region bytes 0 0 0, BUMP_OK).

(** [slab] is the address of the parent allocator, [a] its contents. *)
Definition bump_init_from_slab (m : mem) (b : BumpAllocator) (slab : Z) (a : SlabAllocator)
    (bytes : Z) : mem * SlabAllocator * BumpAllocator * BumpResult :=
  if (slab =? 0) || (bytes =? 0) then (m, a, b, BUMP_ERR_INVALID_ARG) else
  let '(m, a, region) := slab_alloc m a bytes in
  if region =? 0 then (m, a, b, BUMP_ERR_NO_SPACE) else
  (m, a, mkBump region bytes 0 0 slab, BUMP_OK).

Definition bump_destroy (m : mem) (a : SlabAllocator) (b : BumpAllocator)
    : mem * SlabAllocator * BumpAllocator :=
  let '(m, a) :=
    if negb (bp_parent_slab b =? 0) && negb (bp_region b =? 0) then
      let '(m, a, _) := slab_free m a (bp_region b) in (m, a)
    else (m, a) in
  (m, a, mkBump 0 0 0 0 0).

Definition bump_reset (b : BumpAllocator) : BumpAllocator :=
  mkBump (bp_region b) (bp_region_bytes b) 0 0 (bp_parent_slab b).

Definition bump_mark (b : BumpAllocator) : Z := bp_offset b.

Definition bump_rewind_to (b : BumpAllocator) (mark : Z) : BumpAllocator :=
  if bp_offset b <? mark then b else
  mkBump (bp_region b) (bp_region_bytes b) mark (bp_peak_offset b) (bp_parent_slab b).

(** ** Allocation *)

Definition bump_alloc_aligned (b : BumpAllocator) (n alignment : Z) : BumpAllocator * Z :=
  if (bp_region b =? 0) || (n =? 0) then (b, 0) else
  if negb (is_power_of_two alignment) then (b, 0) else
  let mask := alignment - 1 in
  let aligned_off := Z.land (u64 (bp_offset b + mask)) (not64 mask) in
  if aligned_off <? bp_offset b then (b, 0) else
  if bp_region_bytes b <? aligned_off then (b, 0) else
  if bp_region_bytes b - aligned_off <? n then (b, 0) else
  let p := bp_region b + aligned_off in
  let offset := u64 (aligned_off + n) in
  let peak := if bp_peak_offset b <? offset then offset else bp_peak_offset b in
  (mkBump (bp_region b) (bp_region_bytes b) offset peak (bp_parent_slab b), p).

Definition bump_alloc (b : BumpAllocator) (n : Z) : BumpAllocator * Z :=
  bump_alloc_aligned b n BUMP_DEFAULT_ALIGNMENT.

Definition bump_used (b : BumpAllocator) : Z := bp_offset b.
Definition bump_remaining (b : BumpAllocator) : Z := u64 (bp_region_bytes b - bp_offset b).
Definition bump_capacity (b : BumpAllocator) : Z := bp_region_bytes b.
Definition bump_peak (b : BumpAllocator) : Z := bp_peak_offset b.

(** ** Alignment arithmetic *)

Lemma is_power_of_two_spec x : is_u64 x ->
  is_power_of_two x = true <-> exists k, 0 <= k < 64 /\ x = 2 ^ k.
Proof.
  intros Hx. unfold is_power_of_two. split.
  - intros [Hne%negb_true_iff%Z.eqb_neq Hand%Z.eqb_eq]%andb_prop.
    assert (0 < x) as Hpos by (umach; lia). exists (Z.log2 x).
    pose proof (Z.log2_spec x Hpos) as [Hlo Hhi]. pose proof (Z.log2_nonneg x).
    assert (Z.log2 x < 64).
    { apply Z.log2_lt_pow2; [done|]. change (2 ^ 64) with 0x10000000000000000. umach; lia. }
    split; [lia|]. destruct (Z.eqb_spec x (2 ^ Z.log2 x)) as [|Hd]; [done|exfalso].
    assert (Z.testbit (Z.land x (x - 1)) (Z.log2 x) = true) as Hb.
    { rewrite Z.land_spec, Z.bit_log2 by done. cbn [andb].
      replace (Z.log2 x) with (Z.log2 (x - 1)) at 1.
      - apply Z.bit_log2. assert (1 <= 2 ^ Z.log2 x) by (apply (Z.pow_le_mono_r 2 0); lia). lia.
      - apply Z.log2_unique; lia. }
    by rewrite Hand, Z.bits_0 in Hb.
  - intros (k & Hk & ->). assert (0 < 2 ^ k) by (apply Z.pow_pos_nonneg; lia).
    rewrite (proj2 (Z.eqb_neq _ _)) by lia. cbn [negb andb]. apply Z.eqb_eq.
    rewrite land_pow2_ones by lia. apply Z.mod_same. lia.
Qed.

(** The mask of the code rounds down to a multiple of the alignment. *)
Lemma land_not64_mask y k : 0 <= k < 64 -> is_u64 y ->
  Z.land y (not64 (2 ^ k - 1)) = y / 2 ^ k * 2 ^ k.
Proof.
  intros Hk Hy. unfold not64. replace (2 ^ k - 1) with (Z.ones k) by (rewrite Z.ones_equiv; lia).
  rewrite <-Z.shiftr_div_pow2, <-Z.shiftl_mul_pow2 by lia.
  rewrite <-Z.ldiff_ones_r by lia. apply Z.bits_inj'. intros i Hi.
  rewrite Z.land_spec, Z.lxor_spec, Z.ldiff_spec. change 0xFFFFFFFFFFFFFFFF with (Z.ones 64).
  destruct (Z.ltb_spec i 64).
  - by rewrite (Z.ones_spec_low 64 i), xorb_true_r by lia.
  - rewrite (range_bits 64 y) by (change (2 ^ 64) with 0x10000000000000000; umach; lia). done.
Qed.

(** Rounding up in unbounded integers. *)
Definition align_up (off al : Z) : Z := (off + al - 1) / al * al.

Lemma align_up_spec off al : 0 < al ->
  off <= align_up off al < off + al /\ (al | align_up off al).
Proof.
  intros Hal. unfold align_up. split; [|by exists ((off + al - 1) / al)].
  pose proof (Z.div_mod (off + al - 1) al ltac:(lia)). pose proof (Z.mod_pos_bound (off + al - 1) al Hal). lia.
Qed.

Lemma align_up_least off al x : 0 < al -> off <= x -> (al | x) -> align_up off al <= x.
Proof.
  intros Hal Hx [q ->]. pose proof (align_up_spec off al Hal) as [Hr [r Hr2]].
  rewrite Hr2. assert (r < q + 1) by (apply (Z.mul_lt_mono_pos_r al); lia).
  apply Z.mul_le_mono_nonneg_r; lia.
Qed.

(** ** The arena in unbounded integers *)

Record bump_ok (b : BumpAllocator) : Prop := {
  bo_region : 0 < bp_region b;
  bo_bytes : 0 < bp_region_bytes b;
  bo_end : bp_region b + bp_region_bytes b < 0x10000000000000000;
  bo_off : 0 <= bp_offset b <= bp_peak_offset b;
  bo_peak : bp_peak_offset b <= bp_region_bytes b
}.

(** What an allocation promises: [None] when the request is empty, the alignment
    is not a power of two, or the first aligned offset leaves too little room. *)
Definition arena_alloc (b : BumpAllocator) (n al : Z) : option (Z * BumpAllocator) :=
  let off := align_up (bp_offset b) al in
  if (0 <? n) && is_power_of_two al && (off + n <=? bp_region_bytes b) then
    Some (off, mkBump (bp_region b) (bp_region_bytes b) (off + n)
                 (Z.max (bp_peak_offset b) (off + n)) (bp_parent_slab b))
  else None.

Definition arena_result (b : BumpAllocator) (r : option (Z * BumpAllocator)) : BumpAllocator * Z :=
  match r with Some (off, b') => (b', bp_region b + off) | None => (b, 0) end.

(** The wrapping computation finds the aligned offset, or one the code refuses. *)
Lemma aligned_off_cases b k : bump_ok b -> 0 <= k < 64 ->
  let off := Z.land (u64 (bp_offset b + (2 ^ k - 1))) (not64 (2 ^ k - 1)) in
  off = align_up (bp_offset b) (2 ^ k) \/
  off < bp_offset b /\ bp_region_bytes b < align_up (bp_offset b) (2 ^ k).
Proof.
  intros [] Hk off. assert (0 < 2 ^ k) as Hp by (apply Z.pow_pos_nonneg; lia).
  assert (2 ^ k <= 0x8000000000000000) by (apply (Z.pow_le_mono_r 2 k 63); lia).
  unfold off. rewrite land_not64_mask by auto with mach.
  pose proof (align_up_spec (bp_offset b) (2 ^ k) Hp) as [Hu _].
  destruct (Z.ltb_spec (bp_offset b + (2 ^ k - 1)) 0x10000000000000000) as [Hlt|Hge].
  - left. rewrite u64_small by (umach; lia). unfold align_up. do 2 f_equal. lia.
  - right. assert (u64 (bp_offset b + (2 ^ k - 1)) < 2 ^ k) as Hw
      by (unfold u64; rewrite <-(Z.mod_unique_pos (bp_offset b + (2 ^ k - 1)) 0x10000000000000000 1
            (bp_offset b + (2 ^ k - 1) - 0x10000000000000000)) by lia; lia).
    rewrite Z.div_small by (pose proof (is_u64_range (bp_offset b + (2 ^ k - 1))); umach; lia).
    split; [lia|]. assert (0x10000000000000000 <= align_up (bp_offset b) (2 ^ k)); [|lia].
    unfold align_up.
    assert (0x10000000000000000 = 2 ^ (64 - k) * 2 ^ k) as E
      by (rewrite <-Z.pow_add_r by lia; by replace (64 - k + k) with 64 by lia).
    rewrite E. apply Z.mul_le_mono_nonneg_r; [lia|]. apply Z.div_le_lower_bound; lia.
Qed.

Lemma bump_alloc_arena b n al :
  bump_ok b -> is_u64 n -> is_u64 al ->
  bump_alloc_aligned b n al = arena_result b (arena_alloc b n al).
Proof.
  intros Hb Hn Ha. pose proof Hb as []. unfold bump_alloc_aligned, arena_alloc.
  rewrite (proj2 (Z.eqb_neq (bp_region b) 0)) by lia. cbn [orb].
  destruct (Z.eqb_spec n 0) as [->|Hn0]; [done|].
  rewrite (proj2 (Z.ltb_lt 0 n)) by (umach; lia). cbn [andb].
  destruct (is_power_of_two al) eqn:Hp; cbn [negb andb]; [|done].
  apply is_power_of_two_spec in Hp as (k & Hk & ->); [|done].
  pose proof (align_up_spec (bp_offset b) (2 ^ k) ltac:(apply Z.pow_pos_nonneg; lia)) as [Hu _].
  destruct (aligned_off_cases b k Hb Hk) as [->|[Hlt Hno]].
  - set (off := align_up _ _) in *. rewrite (proj2 (Z.ltb_ge off (bp_offset b))) by lia.
    destruct (Z.ltb_spec (bp_region_bytes b) off).
    { by rewrite (proj2 (Z.leb_gt _ _)) by (umach; lia). }
    destruct (Z.ltb_spec (bp_region_bytes b - off) n); [by rewrite (proj2 (Z.leb_gt _ _)) by lia|].
    rewrite (proj2 (Z.leb_le _ _)) by lia. cbn [arena_result].
    rewrite u64_small by (umach; lia). f_equal. f_equal.
    destruct (Z.ltb_spec (bp_peak_offset b) (off + n)); lia.
  - rewrite (proj2 (Z.ltb_lt _ _)) by done. by rewrite (proj2 (Z.leb_gt _ _)) by (umach; lia).
Qed.

Lemma arena_alloc_ok b n al off b' :
  bump_ok b -> is_u64 n -> is_u64 al -> arena_alloc b n al = Some (off, b') ->
  bump_ok b' /\ bp_offset b <= off /\ 0 < n /\ bp_offset b' = off + n /\
  bp_region b' = bp_region b /\ bp_region_bytes b' = bp_region_bytes b.
Proof.
  intros [] Hn Ha. unfold arena_alloc. destruct (Z.ltb_spec 0 n); [|done]. cbn [andb].
  destruct (is_power_of_two al) eqn:Hp; [|done]. cbn [andb].
  apply is_power_of_two_spec in Hp as (k & Hk & ->); [|done].
  pose proof (align_up_spec (bp_offset b) (2 ^ k) ltac:(apply Z.pow_pos_nonneg; lia)) as [Hu _].
  destruct (Z.leb_spec (align_up (bp_offset b) (2 ^ k) + n) (bp_region_bytes b)); [|done].
  intros [= <- <-]. split; [|cbn; lia]. split; cbn; lia.
Qed.

(** ** The blocks an arena has handed out *)

(** The pieces issued and not yet invalidated are kept as start and length, the
    latest first.  The pieces that end at or below [hi]: the ones a rewind to [hi] keeps. *)
Definition below (hi : Z) (l : list (Z * Z)) : list (Z * Z) := filter (fun x => x.1 + x.2 <= hi) l.

Inductive arena_step : BumpAllocator * list (Z * Z) -> BumpAllocator * list (Z * Z) -> Prop :=
  | as_alloc b l n al b' p :
      is_u64 n -> is_u64 al -> bump_alloc_aligned b n al = (b', p) ->
      arena_step (b, l) (b', if p =? 0 then l else (p, n) :: l)
  | as_rewind b l mark :
      is_u64 mark -> arena_step (b, l) (bump_rewind_to b mark, below (bp_region b + mark) l)
  | as_reset b l : arena_step (b, l) (bump_reset b, []).

(** Pieces stacked upwards from [lo], the latest ending at or below [hi]. *)
Fixpoint stacked (lo hi : Z) (l : list (Z * Z)) : Prop :=
  match l with
  | [] => lo <= hi
  | (p, n) :: l => 0 < n /\ p + n <= hi /\ stacked lo p l
  end.

Lemma stacked_hi lo hi hi' l : stacked lo hi l -> hi <= hi' -> stacked lo hi' l.
Proof. destruct l as [|[p n] l]; cbn; [lia|]. intros (? & ? & ?) ?. split_and!; [lia|lia|done]. Qed.

Lemma stacked_lo lo hi l : stacked lo hi l -> lo <= hi.
Proof.
  revert hi. induction l as [|[p n] l IH]; intros hi; cbn; [done|]. intros (? & ? & H%IH). lia.
Qed.

Lemma stacked_range lo hi l p n : stacked lo hi l -> (p, n) ∈ l -> 0 < n /\ lo <= p /\ p + n <= hi.
Proof.
  revert hi. induction l as [|[q k] l IH]; intros hi; cbn; [by intros _ ?%elem_of_nil|].
  intros (Hk & Hh & Hs) [[= -> ->]|Hin]%elem_of_cons.
  - apply stacked_lo in Hs. lia.
  - destruct (IH q Hs Hin) as (? & ? & ?). lia.
Qed.

Lemma stacked_disj lo hi l i j p n q k : stacked lo hi l -> i <> j ->
  l !! i = Some (p, n) -> l !! j = Some (q, k) -> rdisj p n q k.
Proof.
  revert hi i j. induction l as [|[r s] l IH]; intros hi i j; [done|].
  cbn [stacked]. intros (Hs & Hh & Hl) Hne Hi Hj. unfold rdisj.
  destruct i as [|i], j as [|j]; cbn in Hi, Hj; simplify_eq.
  - apply list_elem_of_lookup_2 in Hj. destruct (stacked_range _ _ _ _ _ Hl Hj). lia.
  - apply list_elem_of_lookup_2 in Hi. destruct (stacked_range _ _ _ _ _ Hl Hi). lia.
  - apply (IH r i j); try done. congruence.
Qed.

Lemma stacked_below lo hi mid l : stacked lo hi l -> lo <= mid -> stacked lo mid (below mid l).
Proof.
  revert hi. induction l as [|[p n] l IH]; intros hi; cbn [stacked]; [done|].
  intros (Hn & Hh & Hs) Hm. unfold below. rewrite filter_cons. cbn [fst snd].
  case_decide as Hd; [|by apply (IH p)].
  cbn [stacked]. split; [done|]. split; [done|].
  rewrite (filter_all _ l); [done|]. apply Forall_forall. intros [q k] Hq.
  destruct (stacked_range _ _ _ _ _ Hs Hq). cbn. lia.
Qed.

Lemma stacked_below_same lo hi l : stacked lo hi l -> below hi l = l.
Proof.
  intros Hs. apply filter_all. apply Forall_forall. intros [q k] Hq.
  destruct (stacked_range _ _ _ _ _ Hs Hq). cbn. lia.
Qed.

Definition arena_inv (region bytes : Z) (σ : BumpAllocator * list (Z * Z)) : Prop :=
  bump_ok σ.1 /\ bp_region σ.1 = region /\ bp_region_bytes σ.1 = bytes /\
  stacked region (region + bp_offset σ.1) σ.2.

Lemma alloc_step_inv region bytes b l n al b' p :
  is_u64 n -> is_u64 al -> bump_alloc_aligned b n al = (b', p) ->
  arena_inv region bytes (b, l) ->
  arena_inv region bytes (b', if p =? 0 then l else (p, n) :: l) /\ bp_offset b <= bp_offset b'.
Proof.
  intros Hn Ha Heq (Hb & Hr & Hby & Hst). cbn [fst snd] in *. rewrite bump_alloc_arena in Heq by done.
  destruct (arena_alloc b n al) as [[off b1]|] eqn:E; cbn [arena_result] in Heq; injection Heq as <- <-.
  - apply arena_alloc_ok in E as (Hb1 & Hoff & Hn0 & Ho & Hr1 & Hby1); [|done..]. pose proof Hb as [].
    rewrite (proj2 (Z.eqb_neq _ _)) by lia. split; [|lia].
    split; [done|]. cbn [fst snd stacked]. split_and!; try congruence; try lia.
    apply (stacked_hi _ _ _ _ Hst). lia.
  - split; [done|lia].
Qed.

Lemma arena_step_inv region bytes σ σ' :
  arena_step σ σ' -> arena_inv region bytes σ -> arena_inv region bytes σ'.
Proof.
  intros [b l n al b' p Hn Ha Heq|b l mark Hm|b l] I.
  - by apply (alloc_step_inv _ _ _ _ _ _ _ _ Hn Ha Heq I).
  - destruct I as (Hb & Hr & Hby & Hst). cbn [fst snd] in *. unfold bump_rewind_to.
    pose proof Hb as []. destruct (Z.ltb_spec (bp_offset b) mark) as [Hlt|Hge].
    + split; [done|]. split; [done|]. split; [done|]. cbn [fst snd].
      pose proof (stacked_hi _ _ (region + mark) _ Hst ltac:(lia)) as Hst2.
      rewrite Hr, (stacked_below_same _ _ _ Hst2). done.
    + split; [split; cbn; umach; lia|]. cbn [fst snd bp_region bp_region_bytes bp_offset].
      split_and!; [done..|]. rewrite Hr. apply (stacked_below _ _ _ _ Hst). umach; lia.
  - destruct I as ([] & Hr & Hby & Hst). cbn in *. split; [split; cbn; lia|]. cbn. split_and!; [done|done|lia].
Qed.

Lemma arena_init_inv b0 region bytes :
  0 < region -> 0 < bytes -> region + bytes < 0x10000000000000000 ->
  bump_init b0 region bytes = (mkBump region bytes 0 0 0, BUMP_OK) /\
  forall parent, arena_inv region bytes (mkBump region bytes 0 0 parent, []).
Proof.
  intros Hr Hb He. unfold bump_init.
  rewrite (proj2 (Z.eqb_neq region 0)), (proj2 (Z.eqb_neq bytes 0)) by lia.
  split; [done|]. intros parent. split; [split; cbn; lia|]. cbn. split_and!; [done|done|lia].
Qed.

(** ** Properties *)

(** Allocation from an arena, decided on wrapping 64-bit integers, is the
    allocation in unbounded integers: it fails and changes nothing exactly when
    the request is empty, the alignment is not a power of two or the piece does
    not fit the rest of the region; otherwise the piece starts at the least
    multiple of the alignment (relative to the region) not below the offset, the
    offset moves just past it and the peak records the highest offset. *)
Theorem bump_alloc_correct b n al :
  bump_ok b -> is_u64 n -> is_u64 al ->
  bump_alloc_aligned b n al = arena_result b (arena_alloc b n al) /\
  (arena_alloc b n al = None <->
    n = 0 \/ (forall k, 0 <= k < 64 -> al <> 2 ^ k) \/
    bp_region_bytes b < align_up (bp_offset b) al + n) /\
  forall off b', arena_alloc b n al = Some (off, b') ->
    bump_ok b' /\ bp_offset b' = off + n /\ bp_offset b <= off /\ (al | off) /\
    forall x, bp_offset b <= x -> (al | x) -> off <= x.
Proof.
  intros Hb Hn Ha. split; [by apply bump_alloc_arena|]. pose proof (is_power_of_two_spec al Ha) as Hp.
  split.
  - unfold arena_alloc. destruct (Z.ltb_spec 0 n) as [Hn0|Hn0]; cbn [andb].
    2: { split; [|done]. intros _. left. umach; lia. }
    destruct (is_power_of_two al); cbn [andb].
    2: { split; [|done]. intros _. right. left. intros k Hk ->.
         assert (false = true) by (apply Hp; by exists k). done. }
    destruct (proj1 Hp eq_refl) as (k & Hk & ->).
    destruct (Z.leb_spec (align_up (bp_offset b) (2 ^ k) + n) (bp_region_bytes b)).
    + split; [done|]. intros [|[Hc|]]; [lia|by destruct (Hc k Hk)|lia].
    + split; [|done]. intros _. by right; right.
  - intros off b' E. destruct (arena_alloc_ok _ _ _ _ _ Hb Hn Ha E) as (Hb' & Hoff & _ & Ho & _).
    split_and!; try done.
    + revert E. unfold arena_alloc. destruct (_ && _); [|done]. intros [= <- _]. by eexists.
    + intros x Hx Hd. revert E. unfold arena_alloc. destruct (0 <? n); [|done]. cbn [andb].
      destruct (is_power_of_two al); [|done]. cbn [andb].
      destruct (proj1 Hp eq_refl) as (k & Hk & ->). destruct (_ <=? _); [|done]. intros [= <- _].
      apply align_up_least; [apply Z.pow_pos_nonneg; lia|done|done].
Qed.

(** Safety of an arena over any history of allocations, rewinds (to any
    mark) and resets: the pieces handed out and not invalidated lie inside the
    region below the offset, and no two of them overlap. *)
Theorem bump_arena_safe b0 region bytes b l :
  0 < region -> 0 < bytes -> region + bytes < 0x10000000000000000 ->
  rtc arena_step ((bump_init b0 region bytes).1, []) (b, l) ->
  (forall p n, (p, n) ∈ l -> 0 < n /\ region <= p /\ p + n <= region + bump_used b) /\
  (forall i j p n q k, i <> j -> l !! i = Some (p, n) -> l !! j = Some (q, k) -> rdisj p n q k) /\
  bump_used b <= bump_peak b <= bytes /\ bump_remaining b = bytes - bump_used b.
Proof.
  intros Hr Hb He Hs. destruct (arena_init_inv b0 region bytes Hr Hb He) as [Hi I0].
  rewrite Hi in Hs. cbn [fst] in Hs.
  assert (arena_inv region bytes (b, l)) as (Hok & Hrg & Hby & Hst).
  { specialize (I0 0). revert I0. remember (b, l) as σ eqn:E. clear E. induction Hs as [|σ1 σ2 σ3 H1 _ IH]; [done|].
    intros I. apply IH. by apply (arena_step_inv _ _ _ _ H1). }
  cbn [fst snd] in *. pose proof Hok as []. unfold bump_used, bump_peak, bump_remaining.
  split_and!.
  - intros p n Hin. by apply (stacked_range _ _ _ _ _ Hst).
  - intros i j p n q k. by apply (stacked_disj _ _ _ _ _ _ _ _ _ Hst).
  - lia.
  - lia.
  - rewrite u64_small by (umach; lia). lia.
Qed.

(** The requests of a batch between a mark and its rewind. *)
Definition alloc_one (σ : BumpAllocator * list (Z * Z)) (r : Z * Z) : BumpAllocator * list (Z * Z) :=
  let '(b, p) := bump_alloc_aligned σ.1 r.1 r.2 in (b, if p =? 0 then σ.2 else (p, r.1) :: σ.2).

Definition alloc_all (reqs : list (Z * Z)) (σ : BumpAllocator * list (Z * Z)) :=
  foldl alloc_one σ reqs.

Lemma alloc_all_inv region bytes reqs : forall σ,
  Forall (fun r => is_u64 r.1 /\ is_u64 r.2) reqs -> arena_inv region bytes σ ->
  let σ' := alloc_all reqs σ in
  arena_inv region bytes σ' /\ bp_offset σ.1 <= bp_offset σ'.1 /\
  bp_parent_slab σ'.1 = bp_parent_slab σ.1 /\
  exists new, σ'.2 = new ++ σ.2 /\ Forall (fun x => region + bp_offset σ.1 <= x.1 /\ 0 < x.2) new.
Proof.
  induction reqs as [|[n al] reqs IH]; intros [b l] Hreq I.
  { split; [done|]. split; [cbn; lia|]. split; [done|]. by exists []. }
  apply Forall_cons in Hreq as [[Hn Ha] Hreq]. cbn [fst snd] in *.
  change (alloc_all ((n, al) :: reqs) (b, l)) with (alloc_all reqs (alloc_one (b, l) (n, al))).
  unfold alloc_one. cbn [fst snd].
  destruct (bump_alloc_aligned b n al) as [b1 p] eqn:E.
  pose proof (alloc_step_inv _ _ _ _ _ _ _ _ Hn Ha E I) as [I1 Hoff].
  destruct (IH _ Hreq I1) as (I2 & Hoff2 & Hpar & new & Hnew & Hall). cbn [fst snd] in *.
  assert (bp_parent_slab b1 = bp_parent_slab b) as Hp1.
  { revert E. unfold bump_alloc_aligned. repeat case_match; intros [= <- _]; done. }
  split; [done|]. split; [lia|]. split; [congruence|].
  rewrite Hnew. destruct (Z.eqb_spec p 0) as [->|Hp].
  - exists new. split; [done|]. eapply Forall_impl; [done|]. cbn. intros x. lia.
  - exists (new ++ [(p, n)]). rewrite <-app_assoc. split; [done|].
    apply Forall_app. split; [eapply Forall_impl; [done|]; cbn; intros x; lia|].
    apply Forall_singleton. cbn [fst snd].
    destruct I as (Hb & Hr & _). cbn [fst snd] in *. rewrite bump_alloc_arena in E by done.
    destruct (arena_alloc b n al) as [[off b2]|] eqn:E2; [|by injection E as <- <-].
    apply arena_alloc_ok in E2 as (_ & Ho & Hn0 & _); [|done..]. injection E as <- <-. lia.
Qed.

(** Marks nest: whatever is allocated after a mark, rewinding to it restores
    the offset and leaves live exactly the pieces that were live at the mark;
    only the peak remembers the work in between. *)
Theorem bump_mark_rewind region bytes b l reqs :
  arena_inv region bytes (b, l) -> Forall (fun r => is_u64 r.1 /\ is_u64 r.2) reqs ->
  let σ := alloc_all reqs (b, l) in
  let b' := bump_rewind_to σ.1 (bump_mark b) in
  b' = mkBump (bp_region b) (bp_region_bytes b) (bp_offset b) (bp_peak_offset σ.1) (bp_parent_slab b) /\
  below (region + bump_mark b) σ.2 = l.
Proof.
  intros I Hreq σ b'.
  destruct (alloc_all_inv region bytes reqs (b, l) Hreq I) as (I' & Hoff & Hpar & new & Hnew & Hall).
  fold σ in I', Hoff, Hpar, Hnew. cbn [fst snd] in *. destruct I as (Hb & Hr & Hby & Hst), I' as (_ & Hr' & Hby' & _).
  cbn [fst snd] in *. unfold b', bump_rewind_to, bump_mark. split.
  - rewrite (proj2 (Z.ltb_ge _ _)) by lia. congruence.
  - rewrite Hnew. unfold below. rewrite filter_app.
    rewrite (filter_none _ new).
    + cbn [app]. apply (stacked_below_same _ _ _ Hst).
    + eapply Forall_impl; [done|]. cbn. intros x. lia.
Qed.

(** A slab-backed arena owns exactly one block of its parent: on success the
    whole region is inside a block that was not live before, and destroying the
    arena, at any later time in which the parent has only had its client write
    through the arena, gives the block back, so the parent has the live blocks
    it started with; when the parent cannot serve the request, nothing but its
    failure counter changes. *)
Theorem bump_from_slab_correct m a b0 slab bytes :
  slab_inv m a -> slab <> 0 -> 0 < bytes -> bytes + SLAB_HEADER_SIZE <= 0x100000000 ->
  let '(m1, a1, b, r) := bump_init_from_slab m b0 slab a bytes in
  slab_inv m1 a1 /\
  match r with
  | BUMP_OK => exists s, live m1 a1 (bp_region b) s /\ bytes + SLAB_HEADER_SIZE <= s /\
      arena_inv (bp_region b) bytes (b, []) /\ (forall t, ~ live m a (bp_region b) t) /\
      forall m2 b1, mem_frame (bp_region b) s m1 m2 -> bp_region b1 = bp_region b ->
        bp_parent_slab b1 = slab ->
        let '(m3, a3, b3) := bump_destroy m2 a1 b1 in
        slab_inv m3 a3 /\ (forall q t, live m3 a3 q t <-> live m a q t) /\ bp_region b3 = 0
  | BUMP_ERR_NO_SPACE => m1 = m /\ a1 = count_failure a /\ b = b0 /\ bin_unavailable a bytes
  | BUMP_ERR_INVALID_ARG => False
  end.
Proof.
  intros I Hsl Hby Hby2. unfold bump_init_from_slab.
  rewrite (proj2 (Z.eqb_neq slab 0)), (proj2 (Z.eqb_neq bytes 0)) by lia. cbn [orb].
  destruct (alloc_cases m a bytes I Hby Hby2) as [[-> Hu]|(m1 & a1 & p & s & -> & I1 & Hp & Hu & A)].
  { rewrite Z.eqb_refl. by split; [apply count_failure_inv|]. }
  rewrite (proj2 (Z.eqb_neq p 0)) by done. split; [done|].
  destruct A as [Hsz Hfresh Hlive _ _ _]. assert (live m1 a1 p s) as Hl by (apply Hlive; by right).
  exists s. cbn [bp_region]. pose proof (live_inside _ _ _ _ I1 Hl) as Hin.
  destruct (si_layout _ _ I1) as [mid L]. pose proof (lay_region _ _ L) as Hlr.
  unfold SLAB_HEADER_SIZE in *. split; [done|]. split; [lia|]. split.
  { apply (arena_init_inv b0 p bytes); lia. }
  split; [done|]. intros m2 b1 Hw Hr1 Hp1. cbn [bp_region] in *. unfold bump_destroy.
  rewrite Hr1, Hp1, (proj2 (Z.eqb_neq slab 0)), (proj2 (Z.eqb_neq p 0)) by done. cbn [negb andb].
  destruct (slab_inv_client m1 m2 a1 p s I1 Hl Hw) as [I2 Hl2].
  pose proof (slab_free_succeeds m2 a1 p s I2 (proj2 (Hl2 p s) Hl)) as Hf.
  destruct (slab_free m2 a1 p) as [[m3 a3] rr]. destruct Hf as (_ & I3 & [Hl3 _ _ _ _]).
  split; [done|]. split; [|done]. intros q t. rewrite Hl3, Hl2, Hlive. split.
  - intros [[?|[-> ->]] ?]; done.
  - intros Hq. split; [by left|]. intros ->. by apply (Hfresh t).
Qed.

(** ** Concrete arenas *)

Definition demo_arena : BumpAllocator := (bump_init (mkBump 0 0 0 0 0) 0x2000 64).1.

Lemma demo_arena_inv : arena_inv 0x2000 64 (demo_arena, []).
Proof. by apply (arena_init_inv (mkBump 0 0 0 0 0) 0x2000 64). Qed.

Lemma bump_alloc_correct_witness :
  bump_alloc_aligned demo_arena 5 16 = arena_result demo_arena (arena_alloc demo_arena 5 16) /\
  (arena_alloc demo_arena 5 16 = None <->
    5 = 0 \/ (forall k, 0 <= k < 64 -> 16 <> 2 ^ k) \/
    bp_region_bytes demo_arena < align_up (bp_offset demo_arena) 16 + 5) /\
  forall off b', arena_alloc demo_arena 5 16 = Some (off, b') ->
    bump_ok b' /\ bp_offset b' = off + 5 /\ bp_offset demo_arena <= off /\ (16 | off) /\
    forall x, bp_offset demo_arena <= x -> (16 | x) -> off <= x.
Proof.
  apply (bump_alloc_correct demo_arena 5 16 (proj1 demo_arena_inv)); by vm_compute.
Defined.

(** Two pieces, a rewind to offset 3 that drops the second, and a third piece. *)
Definition demo_history : BumpAllocator * list (Z * Z) :=
  alloc_one (let σ := alloc_all [(3, 1); (20, 8)] (demo_arena, []) in
             (bump_rewind_to σ.1 3, below (0x2000 + 3) σ.2)) (10, 4).

Lemma demo_alloc_step σ n al : is_u64 n -> is_u64 al -> arena_step σ (alloc_one σ (n, al)).
Proof.
  intros Hn Ha. destruct σ as [b l]. unfold alloc_one. cbn [fst snd].
  destruct (bump_alloc_aligned b n al) eqn:E. by apply as_alloc with al.
Qed.

Lemma demo_history_run : rtc arena_step (demo_arena, []) demo_history.
Proof.
  eapply rtc_l; [apply (demo_alloc_step _ 3 1); by vm_compute|].
  eapply rtc_l; [apply (demo_alloc_step _ 20 8); by vm_compute|].
  eapply rtc_l; [apply (as_rewind _ _ 3); by vm_compute|].
  apply rtc_once. apply (demo_alloc_step _ 10 4); by vm_compute.
Qed.

Lemma bump_arena_safe_witness :
  demo_history.2 = [(0x2004, 10); (0x2000, 3)] /\
  (forall p n, (p, n) ∈ demo_history.2 ->
    0 < n /\ 0x2000 <= p /\ p + n <= 0x2000 + bump_used demo_history.1) /\
  (forall i j p n q k, i <> j -> demo_history.2 !! i = Some (p, n) ->
    demo_history.2 !! j = Some (q, k) -> rdisj p n q k) /\
  bump_used demo_history.1 <= bump_peak demo_history.1 <= 64 /\
  bump_remaining demo_history.1 = 64 - bump_used demo_history.1.
Proof.
  split; [by vm_compute|].
  apply (bump_arena_safe (mkBump 0 0 0 0 0) 0x2000 64); [lia|lia|lia|].
  rewrite <-surjective_pairing. exact demo_history_run.
Defined.

Lemma bump_mark_rewind_witness :
  let σ := alloc_all [(3, 1); (20, 8)] (demo_arena, []) in
  bump_rewind_to σ.1 (bump_mark demo_arena) =
    mkBump (bp_region demo_arena) (bp_region_bytes demo_arena) (bp_offset demo_arena)
      (bp_peak_offset σ.1) (bp_parent_slab demo_arena) /\
  below (0x2000 + bump_mark demo_arena) σ.2 = [].
Proof.
  apply (bump_mark_rewind 0x2000 64 demo_arena [] [(3, 1); (20, 8)] demo_arena_inv).
  repeat constructor; by vm_compute.
Defined.

Lemma bump_from_slab_correct_witness :
  let '(m1, a1, b, r) := bump_init_from_slab demo_heap.1 (mkBump 0 0 0 0 0) 0x9000 demo_heap.2 50 in
  slab_inv m1 a1 /\
  match r with
  | BUMP_OK => exists s, live m1 a1 (bp_region b) s /\ 50 + SLAB_HEADER_SIZE <= s /\
      arena_inv (bp_region b) 50 (b, []) /\ (forall t, ~ live demo_heap.1 demo_heap.2 (bp_region b) t) /\
      forall m2 b1, mem_frame (bp_region b) s m1 m2 -> bp_region b1 = bp_region b ->
        bp_parent_slab b1 = 0x9000 ->
        let '(m3, a3, b3) := bump_destroy m2 a1 b1 in
        slab_inv m3 a3 /\
        (forall q t, live m3 a3 q t <-> live demo_heap.1 demo_heap.2 q t) /\ bp_region b3 = 0
  | BUMP_ERR_NO_SPACE => m1 = demo_heap.1 /\ a1 = count_failure demo_heap.2 /\
      b = mkBump 0 0 0 0 0 /\ bin_unavailable demo_heap.2 50
  | BUMP_ERR_INVALID_ARG => False
  end.
Proof.
  exact (bump_from_slab_correct demo_heap.1 demo_heap.2 (mkBump 0 0 0 0 0) 0x9000 50
    demo_heap_inv ltac:(lia) ltac:(lia) ltac:(unfold SLAB_HEADER_SIZE; lia)).
Defined.
