(* ===== verification/VmCpu.v ===== *)
(** The virtual CPU's state and its view of memory ([include/vm/vm_core.h] and
    the first half of [src/vm/vm_core.c]): the register file, the region
    descriptors, trap state and counters of [VmCpu]; [vm_init] and [vm_reset];
    the translation of guest addresses and the accessors built on it.

    The descriptor fields [base], [length] and [writable] carry the prefix
    [rg_]; of the [_internal] words the first, the only one in use, is [internal0].
    A region descriptor points into the host memory of [HostMem]; the guest
    sees the bytes of its regions and nothing else.  Guest loads and stores are
    little-endian [memcpy]s, as on every host the interpreter is built for. *)
From S2P Require Import Prelude HostMem.

(** ** Data *)

Inductive VmStepResult :=
  | VM_STEP_QUANTUM_EXPIRED
  | VM_STEP_ECALL
  | VM_STEP_TRAPPED
  | VM_STEP_HALTED.

Inductive VmTrapCause :=
  | TRAP_NONE
  | TRAP_ILLEGAL_INSTR
  | TRAP_LOAD_FAULT
  | TRAP_STORE_FAULT
  | TRAP_LOAD_MISALIGNED
  | TRAP_STORE_MISALIGNED
  | TRAP_STORE_RO
  | TRAP_INSTR_FETCH_FAULT
  | TRAP_INSTR_MISALIGNED
  | TRAP_ECALL
  | TRAP_BREAKPOINT
  | TRAP_HALT
  | TRAP_WATCHPOINT
  | TRAP_SINGLESTEP.

Inductive VmBlockReason :=
  | BLOCK_NONE
  | BLOCK_YIELDED
  | BLOCK_MAILBOX_RECV
  | BLOCK_SLEEP
  | BLOCK_ON_CHILD
  | BLOCK_FRAME_CONSUMED.

#[export] Instance VmStepResult_eq_dec : EqDecision VmStepResult.
Proof. solve_decision. Defined.
#[export] Instance VmTrapCause_eq_dec : EqDecision VmTrapCause.
Proof. solve_decision. Defined.
#[export] Instance VmBlockReason_eq_dec : EqDecision VmBlockReason.
Proof. solve_decision. Defined.

Record VmRegion := mkRegion {
  rg_base : Z;
  rg_length : Z;
  rg_writable : bool
}.

Definition no_region : VmRegion := mkRegion 0 0 false.

Record VmCpu := mkCpu {
  regs : list Z;
  pc : Z;
  regions : list VmRegion;
  l2_shared : VmRegion;
  trap_cause : VmTrapCause;
  trap_pc : Z;
  trap_addr : Z;
  trap_insn : Z;
  halted : bool;
  in_critical : bool;
  block_reason : VmBlockReason;
  block_deadline : Z;
  block_child_vm : Z;
  reload_period : Z;
  reload_next_deadline : Z;
  vm_id : Z;
  instructions_retired : Z;
  trap_count : Z;
  ecall_count : Z;
  internal0 : Z
}.

Definition VM_GP_REGS : nat := 32.
Definition VM_REGION_COUNT : nat := 4.
Definition VM_REGION_CODE : Z := 0.
Definition VM_REGION_RODATA : Z := 1.
Definition VM_REGION_DATA : Z := 2.
Definition VM_REGION_SHARED : Z := 3.
Definition VM_REG_A0 : Z := 10.
Definition VM_REG_A1 : Z := 11.
Definition VM_REG_A2 : Z := 12.
Definition VM_REG_A3 : Z := 13.
Definition VM_REG_A7 : Z := 17.
Definition UINT16_MAX : Z := 0xFFFF.
Definition UINT32_MAX : Z := 0xFFFFFFFF.

(** ** Field updates *)

Definition set_regs (c : VmCpu) (v : list Z) : VmCpu :=
  mkCpu v (pc c) (regions c) (l2_shared c) (trap_cause c) (trap_pc c) (trap_addr c)
    (trap_insn c) (halted c) (in_critical c) (block_reason c) (block_deadline c)
    (block_child_vm c) (reload_period c) (reload_next_deadline c) (vm_id c)
    (instructions_retired c) (trap_count c) (ecall_count c) (internal0 c).

Definition set_pc (c : VmCpu) (v : Z) : VmCpu :=
  mkCpu (regs c) v (regions c) (l2_shared c) (trap_cause c) (trap_pc c) (trap_addr c)
    (trap_insn c) (halted c) (in_critical c) (block_reason c) (block_deadline c)
    (block_child_vm c) (reload_period c) (reload_next_deadline c) (vm_id c)
    (instructions_retired c) (trap_count c) (ecall_count c) (internal0 c).

Definition set_trap (c : VmCpu) (cause : VmTrapCause) (tpc taddr tinsn : Z) : VmCpu :=
  mkCpu (regs c) (pc c) (regions c) (l2_shared c) cause tpc taddr
    tinsn (halted c) (in_critical c) (block_reason c) (block_deadline c)
    (block_child_vm c) (reload_period c) (reload_next_deadline c) (vm_id c)
    (instructions_retired c) (trap_count c) (ecall_count c) (internal0 c).

Definition set_halted (c : VmCpu) (v : bool) : VmCpu :=
  mkCpu (regs c) (pc c) (regions c) (l2_shared c) (trap_cause c) (trap_pc c) (trap_addr c)
    (trap_insn c) v (in_critical c) (block_reason c) (block_deadline c)
    (block_child_vm c) (reload_period c) (reload_next_deadline c) (vm_id c)
    (instructions_retired c) (trap_count c) (ecall_count c) (internal0 c).

Definition set_counts (c : VmCpu) (retired traps ecalls : Z) : VmCpu :=
  mkCpu (regs c) (pc c) (regions c) (l2_shared c) (trap_cause c) (trap_pc c) (trap_addr c)
    (trap_insn c) (halted c) (in_critical c) (block_reason c) (block_deadline c)
    (block_child_vm c) (reload_period c) (reload_next_deadline c) (vm_id c)
    retired traps ecalls (internal0 c).

(** The scheduler's fields, which the core never touches. *)
Definition set_critical (c : VmCpu) (v : bool) : VmCpu :=
  mkCpu (regs c) (pc c) (regions c) (l2_shared c) (trap_cause c) (trap_pc c) (trap_addr c)
    (trap_insn c) (halted c) v (block_reason c) (block_deadline c)
    (block_child_vm c) (reload_period c) (reload_next_deadline c) (vm_id c)
    (instructions_retired c) (trap_count c) (ecall_count c) (internal0 c).

Definition set_block (c : VmCpu) (r : VmBlockReason) (deadline : Z) : VmCpu :=
  mkCpu (regs c) (pc c) (regions c) (l2_shared c) (trap_cause c) (trap_pc c) (trap_addr c)
    (trap_insn c) (halted c) (in_critical c) r deadline
    (block_child_vm c) (reload_period c) (reload_next_deadline c) (vm_id c)
    (instructions_retired c) (trap_count c) (ecall_count c) (internal0 c).

Definition set_reload (c : VmCpu) (period deadline : Z) : VmCpu :=
  mkCpu (regs c) (pc c) (regions c) (l2_shared c) (trap_cause c) (trap_pc c) (trap_addr c)
    (trap_insn c) (halted c) (in_critical c) (block_reason c) (block_deadline c)
    (block_child_vm c) period deadline (vm_id c)
    (instructions_retired c) (trap_count c) (ecall_count c) (internal0 c).

Definition set_child (c : VmCpu) (child : Z) : VmCpu :=
  mkCpu (regs c) (pc c) (regions c) (l2_shared c) (trap_cause c) (trap_pc c) (trap_addr c)
    (trap_insn c) (halted c) (in_critical c) (block_reason c) (block_deadline c)
    child (reload_period c) (reload_next_deadline c) (vm_id c)
    (instructions_retired c) (trap_count c) (ecall_count c) (internal0 c).

Definition set_vm_id (c : VmCpu) (id : Z) : VmCpu :=
  mkCpu (regs c) (pc c) (regions c) (l2_shared c) (trap_cause c) (trap_pc c) (trap_addr c)
    (trap_insn c) (halted c) (in_critical c) (block_reason c) (block_deadline c)
    (block_child_vm c) (reload_period c) (reload_next_deadline c) id
    (instructions_retired c) (trap_count c) (ecall_count c) (internal0 c).

Definition set_internal (c : VmCpu) (v : Z) : VmCpu :=
  mkCpu (regs c) (pc c) (regions c) (l2_shared c) (trap_cause c) (trap_pc c) (trap_addr c)
    (trap_insn c) (halted c) (in_critical c) (block_reason c) (block_deadline c)
    (block_child_vm c) (reload_period c) (reload_next_deadline c) (vm_id c)
    (instructions_retired c) (trap_count c) (ecall_count c) v.

(** [cpu->regs[i]] and its assignment. *)
Definition reg (c : VmCpu) (i : Z) : Z := nth (Z.to_nat i) (regs c) 0.
Definition set_reg (c : VmCpu) (i v : Z) : VmCpu := set_regs c (<[Z.to_nat i := v]> (regs c)).

(** [trap_cause], [trap_pc] and [trap_addr] of a failed access at [addr]; the
    instruction bits are left as they were. *)
Definition set_fault (c : VmCpu) (cause : VmTrapCause) (addr : Z) : VmCpu :=
  set_trap c cause (pc c) addr (trap_insn c).

(** ** Lifecycle *)

Definition vm_init (id : Z) : VmCpu :=
  mkCpu (replicate VM_GP_REGS 0) 0 (replicate VM_REGION_COUNT no_region) no_region
    TRAP_NONE 0 0 0 false false BLOCK_NONE 0 UINT16_MAX 0 0 id 0 0 0 0.

Definition vm_reset (c : VmCpu) : VmCpu :=
  mkCpu (replicate VM_GP_REGS 0) 0 (regions c) (l2_shared c)
    TRAP_NONE 0 0 0 false false BLOCK_NONE 0 UINT16_MAX 0 0 (vm_id c) 0 0 0 0.

(** ** Address translation *)

(** Region and offset of a guest address. *)
Definition xlat_pick (c : VmCpu) (addr : Z) : VmRegion * Z :=
  let rg := Z.shiftr addr 30 in
  if rg =? VM_REGION_SHARED then
    if negb (Z.land addr 0x20000000 =? 0) then (l2_shared c, Z.land addr 0x1FFFFFFF)
    else (nth 3 (regions c) no_region, Z.land addr 0x1FFFFFFF)
  else (nth (Z.to_nat rg) (regions c) no_region, Z.land addr 0x3FFFFFFF).

(** The access does not fit the region. *)
Definition out_of_region (r : VmRegion) (offset size : Z) : bool :=
  (rg_length r =? 0) || (rg_length r <? offset) || (rg_length r - offset <? size).

(** Host address of a readable range, or the fault recorded on the CPU. *)
Definition xlat_read (c : VmCpu) (addr size : Z) (fault_cause : VmTrapCause)
    : option Z * VmCpu :=
  let '(r, offset) := xlat_pick c addr in
  if out_of_region r offset size then (None, set_fault c fault_cause addr)
  else (Some (rg_base r + offset), c).

Definition xlat_write (c : VmCpu) (addr size : Z) : option Z * VmCpu :=
  let '(r, offset) := xlat_pick c addr in
  if out_of_region r offset size then (None, set_fault c TRAP_STORE_FAULT addr)
  else if negb (rg_writable r) then (None, set_fault c TRAP_STORE_RO addr)
  else (Some (rg_base r + offset), c).

Definition vm_translate_read (c : VmCpu) (addr size : Z) : option Z * VmCpu :=
  if size =? 0 then (None, c) else xlat_read c addr size TRAP_LOAD_FAULT.

Definition vm_translate_write (c : VmCpu) (addr size : Z) : option Z * VmCpu :=
  if size =? 0 then (None, c) else xlat_write c addr size.

Definition vm_read_u32 (m : mem) (c : VmCpu) (addr : Z) : Z * VmCpu :=
  if negb (Z.land addr 3 =? 0) then (0, set_fault c TRAP_LOAD_MISALIGNED addr) else
  match xlat_read c addr 4 TRAP_LOAD_FAULT with
  | (None, c) => (0, c)
  | (Some p, c) => (load32 m p, c)
  end.

Definition vm_write_u32 (m : mem) (c : VmCpu) (addr value : Z) : bool * mem * VmCpu :=
  if negb (Z.land addr 3 =? 0) then (false, m, set_fault c TRAP_STORE_MISALIGNED addr) else
  match xlat_write c addr 4 with
  | (None, c) => (false, m, c)
  | (Some p, c) => (true, store32 m p value, c)
  end.

Definition vm_copy_from_guest (m : mem) (c : VmCpu) (dst guest_src n : Z) : bool * mem * VmCpu :=
  if (dst =? 0) || (n =? 0) then (false, m, c) else
  match xlat_read c guest_src n TRAP_LOAD_FAULT with
  | (None, c) => (false, m, c)
  | (Some p, c) => (true, memcpy m dst p n, c)
  end.

Definition vm_copy_to_guest (m : mem) (c : VmCpu) (guest_dst src n : Z) : bool * mem * VmCpu :=
  if (src =? 0) || (n =? 0) then (false, m, c) else
  match xlat_write c guest_dst n with
  | (None, c) => (false, m, c)
  | (Some p, c) => (true, memcpy m p src n, c)
  end.
