(* ===== verification/VmDecode.v ===== *)
(** Instruction fetch and decoding ([src/vm/vm_core.c]): field and immediate
    extractors, the encoders, CSR reads, and the expansion of the 16-bit
    compressed instructions into 32-bit ones.

    Machine integers are [Z]: a [uint32_t] is its value, an [int32_t] the signed
    value.  Shifts that can leave 32 bits are reduced with [u32] or [s32]. *)
From S2P Require Import Prelude HostMem VmCpu.

(** ** Field extractors *)

Definition opcode_of (insn : Z) : Z := Z.land insn 0x7F.
Definition rd_of (insn : Z) : Z := Z.land (Z.shiftr insn 7) 0x1F.
Definition funct3_of (insn : Z) : Z := Z.land (Z.shiftr insn 12) 0x7.
Definition rs1_of (insn : Z) : Z := Z.land (Z.shiftr insn 15) 0x1F.
Definition rs2_of (insn : Z) : Z := Z.land (Z.shiftr insn 20) 0x1F.
Definition funct7_of (insn : Z) : Z := Z.land (Z.shiftr insn 25) 0x7F.
Definition shamt_of (insn : Z) : Z := Z.land (Z.shiftr insn 20) 0x1F.

(** ** Immediates *)

Definition imm_i (insn : Z) : Z := Z.shiftr (s32 insn) 20.

Definition imm_s (insn : Z) : Z :=
  let hi := Z.land (Z.shiftr insn 25) 0x7F in
  let lo := Z.land (Z.shiftr insn 7) 0x1F in
  let combined := Z.lor (Z.shiftl hi 5) lo in
  Z.shiftr (s32 (Z.shiftl combined 20)) 20.

Definition imm_b (insn : Z) : Z :=
  let b12 := Z.land (Z.shiftr insn 31) 0x1 in
  let b11 := Z.land (Z.shiftr insn 7) 0x1 in
  let b10_5 := Z.land (Z.shiftr insn 25) 0x3F in
  let b4_1 := Z.land (Z.shiftr insn 8) 0xF in
  let combined := Z.lor (Z.lor (Z.lor (Z.shiftl b12 12) (Z.shiftl b11 11))
                    (Z.shiftl b10_5 5)) (Z.shiftl b4_1 1) in
  Z.shiftr (s32 (Z.shiftl combined 19)) 19.

Definition imm_j (insn : Z) : Z :=
  let b20 := Z.land (Z.shiftr insn 31) 0x1 in
  let b19_12 := Z.land (Z.shiftr insn 12) 0xFF in
  let b11 := Z.land (Z.shiftr insn 20) 0x1 in
  let b10_1 := Z.land (Z.shiftr insn 21) 0x3FF in
  let combined := Z.lor (Z.lor (Z.lor (Z.shiftl b20 20) (Z.shiftl b19_12 12))
                    (Z.shiftl b11 11)) (Z.shiftl b10_1 1) in
  Z.shiftr (s32 (Z.shiftl combined 11)) 11.

Definition imm_u (insn : Z) : Z := s32 (Z.land insn 0xFFFFF000).

(** ** Arithmetic shift right *)

Definition sra32 (v shift : Z) : Z :=
  let s := Z.land shift 0x1F in
  if s =? 0 then v else
  let result := Z.shiftr v s in
  if negb (Z.land v 0x80000000 =? 0)
  then Z.lor result (not32 (Z.shiftl 1 (32 - s) - 1)) else result.

(** ** CSRs *)

Definition CSR_CYCLE : Z := 0xC00.
Definition CSR_INSTRET : Z := 0xC02.
Definition CSR_CYCLEH : Z := 0xC80.
Definition CSR_INSTRETH : Z := 0xC82.
Definition CSR_MHARTID : Z := 0xF14.

Definition csr_read (c : VmCpu) (csr : Z) : Z :=
  if (csr =? CSR_CYCLE) || (csr =? CSR_INSTRET)
  then Z.land (instructions_retired c) 0xFFFFFFFF
  else if (csr =? CSR_CYCLEH) || (csr =? CSR_INSTRETH)
  then u32 (Z.shiftr (instructions_retired c) 32)
  else if csr =? CSR_MHARTID then vm_id c
  else 0.

Definition csr_write (c : VmCpu) (_ _ : Z) : VmCpu := c.

(** ** Encoders *)

Definition mk_r (f7 rs2 rs1 f3 rd op : Z) : Z :=
  Z.lor (Z.lor (Z.lor (Z.lor (Z.lor (Z.shiftl f7 25) (Z.shiftl rs2 20)) (Z.shiftl rs1 15))
    (Z.shiftl f3 12)) (Z.shiftl rd 7)) op.

Definition mk_i (imm12 rs1 f3 rd op : Z) : Z :=
  Z.lor (Z.lor (Z.lor (Z.lor (Z.shiftl (Z.land imm12 0xFFF) 20) (Z.shiftl rs1 15))
    (Z.shiftl f3 12)) (Z.shiftl rd 7)) op.

Definition mk_s (imm12 rs2 rs1 f3 op : Z) : Z :=
  let hi := Z.land (Z.shiftr imm12 5) 0x7F in
  let lo := Z.land imm12 0x1F in
  Z.lor (Z.lor (Z.lor (Z.lor (Z.lor (Z.shiftl hi 25) (Z.shiftl rs2 20)) (Z.shiftl rs1 15))
    (Z.shiftl f3 12)) (Z.shiftl lo 7)) op.

Definition mk_b (imm rs2 rs1 f3 op : Z) : Z :=
  let b12 := Z.land (Z.shiftr imm 12) 0x1 in
  let b11 := Z.land (Z.shiftr imm 11) 0x1 in
  let b10_5 := Z.land (Z.shiftr imm 5) 0x3F in
  let b4_1 := Z.land (Z.shiftr imm 1) 0xF in
  Z.lor (Z.lor (Z.lor (Z.lor (Z.lor (Z.lor (Z.lor (Z.shiftl b12 31) (Z.shiftl b10_5 25))
    (Z.shiftl rs2 20)) (Z.shiftl rs1 15)) (Z.shiftl f3 12)) (Z.shiftl b4_1 8))
    (Z.shiftl b11 7)) op.

Definition mk_u (imm rd op : Z) : Z :=
  Z.lor (Z.lor (Z.land imm 0xFFFFF000) (Z.shiftl rd 7)) op.

Definition mk_j (imm rd op : Z) : Z :=
  let b20 := Z.land (Z.shiftr imm 20) 0x1 in
  let b19_12 := Z.land (Z.shiftr imm 12) 0xFF in
  let b11 := Z.land (Z.shiftr imm 11) 0x1 in
  let b10_1 := Z.land (Z.shiftr imm 1) 0x3FF in
  Z.lor (Z.lor (Z.lor (Z.lor (Z.lor (Z.shiftl b20 31) (Z.shiftl b10_1 21)) (Z.shiftl b11 20))
    (Z.shiftl b19_12 12)) (Z.shiftl rd 7)) op.

Definition sign_extend (v bits : Z) : Z :=
  let shift := 32 - bits in Z.shiftr (s32 (Z.shiftl v shift)) shift.

Definition creg (f3 : Z) : Z := f3 + 8.

(** ** The compressed-instruction expander *)

(** [(c >> lo) & mask], shifted to its place in the immediate. *)
Definition cbits (c lo mask to : Z) : Z := Z.shiftl (Z.land (Z.shiftr c lo) mask) to.

Definition expand_q0 (c f3 : Z) : Z :=
  match f3 with
  | 0 =>
      let rd_p := creg (Z.land (Z.shiftr c 2) 0x7) in
      let imm := Z.lor (Z.lor (Z.lor (cbits c 11 0x3 4) (cbits c 7 0xF 6))
                   (cbits c 6 0x1 2)) (cbits c 5 0x1 3) in
      if imm =? 0 then 0 else mk_i imm 2 0x0 rd_p 0x13
  | 2 =>
      let rd_p := creg (Z.land (Z.shiftr c 2) 0x7) in
      let rs1_p := creg (Z.land (Z.shiftr c 7) 0x7) in
      let imm := Z.lor (Z.lor (cbits c 10 0x7 3) (cbits c 6 0x1 2)) (cbits c 5 0x1 6) in
      mk_i imm rs1_p 0x2 rd_p 0x03
  | 6 =>
      let rs2_p := creg (Z.land (Z.shiftr c 2) 0x7) in
      let rs1_p := creg (Z.land (Z.shiftr c 7) 0x7) in
      let imm := Z.lor (Z.lor (cbits c 10 0x7 3) (cbits c 6 0x1 2)) (cbits c 5 0x1 6) in
      mk_s imm rs2_p rs1_p 0x2 0x23
  | _ => 0
  end.

(** Offset of [C.JAL] and [C.J]. *)
Definition cj_imm (c : Z) : Z :=
  Z.lor (Z.lor (Z.lor (Z.lor (Z.lor (Z.lor (Z.lor
    (cbits c 12 0x1 11) (cbits c 11 0x1 4)) (cbits c 9 0x3 8)) (cbits c 8 0x1 10))
    (cbits c 7 0x1 6)) (cbits c 6 0x1 7)) (cbits c 3 0x7 1)) (cbits c 2 0x1 5).

Definition imm6 (c : Z) : Z := Z.lor (cbits c 12 0x1 5) (Z.land (Z.shiftr c 2) 0x1F).

Definition expand_lui_addi16sp (c : Z) : Z :=
  let rd := Z.land (Z.shiftr c 7) 0x1F in
  if rd =? 0 then 0 else
  if rd =? 2 then
    let imm := Z.lor (Z.lor (Z.lor (Z.lor (cbits c 12 0x1 9) (cbits c 6 0x1 4))
                 (cbits c 5 0x1 6)) (cbits c 3 0x3 7)) (cbits c 2 0x1 5) in
    if imm =? 0 then 0 else
    let simm := sign_extend imm 10 in
    mk_i (u32 simm) 2 0x0 2 0x13
  else
    let imm := Z.lor (cbits c 12 0x1 17) (cbits c 2 0x1F 12) in
    if imm =? 0 then 0 else
    let simm := sign_extend imm 18 in
    mk_u (u32 simm) rd 0x37.

Definition expand_alu (c : Z) : Z :=
  let sub := Z.land (Z.shiftr c 10) 0x3 in
  let rd_p := creg (Z.land (Z.shiftr c 7) 0x7) in
  if (sub =? 0) || (sub =? 1) then
    let shamt5 := Z.land (Z.shiftr c 12) 0x1 in
    let shamt40 := Z.land (Z.shiftr c 2) 0x1F in
    if negb (shamt5 =? 0) then 0 else
    let f7 := if sub =? 1 then 0x20 else 0x00 in
    mk_i (Z.lor (Z.shiftl f7 5) shamt40) rd_p 0x5 rd_p 0x13
  else if sub =? 2 then
    let simm := sign_extend (imm6 c) 6 in
    mk_i (u32 simm) rd_p 0x7 rd_p 0x13
  else
    let rs2_p := creg (Z.land (Z.shiftr c 2) 0x7) in
    let op := Z.land (Z.shiftr c 5) 0x3 in
    if negb (Z.land (Z.shiftr c 12) 0x1 =? 0) then 0 else
    match op with
    | 0 => mk_r 0x20 rs2_p rd_p 0x0 rd_p 0x33
    | 1 => mk_r 0x00 rs2_p rd_p 0x4 rd_p 0x33
    | 2 => mk_r 0x00 rs2_p rd_p 0x6 rd_p 0x33
    | 3 => mk_r 0x00 rs2_p rd_p 0x7 rd_p 0x33
    | _ => 0
    end.

Definition expand_branch (c f3 : Z) : Z :=
  let rs1_p := creg (Z.land (Z.shiftr c 7) 0x7) in
  let imm := Z.lor (Z.lor (Z.lor (Z.lor (cbits c 12 0x1 8) (cbits c 10 0x3 3))
               (cbits c 5 0x3 6)) (cbits c 3 0x3 1)) (cbits c 2 0x1 5) in
  let simm := sign_extend imm 9 in
  let branch_f3 := if f3 =? 6 then 0x0 else 0x1 in
  mk_b (u32 simm) 0 rs1_p branch_f3 0x63.

Definition expand_q1 (c f3 : Z) : Z :=
  match f3 with
  | 0 => let rd := Z.land (Z.shiftr c 7) 0x1F in
         mk_i (u32 (sign_extend (imm6 c) 6)) rd 0x0 rd 0x13
  | 1 => mk_j (u32 (sign_extend (cj_imm c) 12)) 1 0x6F
  | 2 => let rd := Z.land (Z.shiftr c 7) 0x1F in
         mk_i (u32 (sign_extend (imm6 c) 6)) 0 0x0 rd 0x13
  | 3 => expand_lui_addi16sp c
  | 4 => expand_alu c
  | 5 => mk_j (u32 (sign_extend (cj_imm c) 12)) 0 0x6F
  | 6 | 7 => expand_branch c f3
  | _ => 0
  end.

Definition expand_jr_mv_add (c : Z) : Z :=
  let rd_or_rs1 := Z.land (Z.shiftr c 7) 0x1F in
  let rs2 := Z.land (Z.shiftr c 2) 0x1F in
  let bit12 := Z.land (Z.shiftr c 12) 0x1 in
  if bit12 =? 0 then
    if rs2 =? 0 then
      if rd_or_rs1 =? 0 then 0 else mk_i 0 rd_or_rs1 0x0 0 0x67
    else mk_r 0x00 rs2 0 0x0 rd_or_rs1 0x33
  else
    if (rd_or_rs1 =? 0) && (rs2 =? 0) then 0x00100073 else
    if rs2 =? 0 then mk_i 0 rd_or_rs1 0x0 1 0x67 else
    if rd_or_rs1 =? 0 then 0 else
    mk_r 0x00 rs2 rd_or_rs1 0x0 rd_or_rs1 0x33.

Definition expand_q2 (c f3 : Z) : Z :=
  match f3 with
  | 0 =>
      let rd := Z.land (Z.shiftr c 7) 0x1F in
      let shamt5 := Z.land (Z.shiftr c 12) 0x1 in
      let shamt40 := Z.land (Z.shiftr c 2) 0x1F in
      if negb (shamt5 =? 0) then 0 else mk_i shamt40 rd 0x1 rd 0x13
  | 2 =>
      let rd := Z.land (Z.shiftr c 7) 0x1F in
      if rd =? 0 then 0 else
      let imm := Z.lor (Z.lor (cbits c 12 0x1 5) (cbits c 4 0x7 2)) (cbits c 2 0x3 6) in
      mk_i imm 2 0x2 rd 0x03
  | 4 => expand_jr_mv_add c
  | 6 =>
      let rs2 := Z.land (Z.shiftr c 2) 0x1F in
      let imm := Z.lor (cbits c 9 0xF 2) (cbits c 7 0x3 6) in
      mk_s imm rs2 2 0x2 0x23
  | _ => 0
  end.

(** The 32-bit instruction a compressed one stands for, 0 when it is reserved
    or unsupported. *)
Definition expand_compressed (c : Z) : Z :=
  let quadrant := Z.land c 0x3 in
  let f3 := Z.land (Z.shiftr c 13) 0x7 in
  if quadrant =? 0 then expand_q0 c f3
  else if quadrant =? 1 then expand_q1 c f3
  else expand_q2 c f3.

(** ** Fetch *)

(** The instruction at [pc] and its size in bytes, or the fault recorded on
    the CPU. *)
Definition fetch_instruction (m : mem) (c : VmCpu) : option (Z * Z) * VmCpu :=
  if negb (Z.land (pc c) 1 =? 0)
  then (None, set_trap c TRAP_INSTR_MISALIGNED (pc c) (pc c) (trap_insn c)) else
  match xlat_read c (pc c) 2 TRAP_INSTR_FETCH_FAULT with
  | (None, c) => (None, c)
  | (Some p, c) =>
      let lo := load16 m p in
      if Z.land lo 3 =? 3 then
        match xlat_read c (u32 (pc c + 2)) 2 TRAP_INSTR_FETCH_FAULT with
        | (None, c) => (None, c)
        | (Some p, c) => (Some (Z.lor (Z.shiftl (load16 m p) 16) lo, 4), c)
        end
      else (Some (lo, 2), c)
  end.
