(* ===== verification/VmExec.v ===== *)
(** The dispatcher ([src/vm/vm_core.c]): [execute_one], one definition per case
    of its outer switch, then [step_once] and [vm_step].

    An execution step returns the C function's boolean with the new CPU and
    host memory; [goto illegal] is the outcome [illegal]. *)
From S2P Require Import Prelude HostMem VmCpu VmDecode.

Definition exec_result : Type := bool * VmCpu * mem.

(** The label [illegal]. *)
Definition illegal (c : VmCpu) (m : mem) (insn : Z) : exec_result :=
  (false, set_trap c TRAP_ILLEGAL_INSTR (pc c) (trap_addr c) insn, m).

(** [cpu->regs[rd] = result; cpu->pc += insn_size; return true]. *)
Definition retire (c : VmCpu) (m : mem) (rd result size : Z) : exec_result :=
  (true, set_pc (set_reg c rd result) (u32 (pc c + size)), m).

(** C's [?:] on a comparison. *)
Definition b2z (b : bool) : Z := if b then 1 else 0.

(** ** OP-IMM *)

Definition op_imm_alu (insn a : Z) : option Z :=
  let imm := imm_i insn in
  let uimm := u32 imm in
  let f7 := funct7_of insn in
  match funct3_of insn with
  | 0 => Some (u32 (a + uimm))
  | 2 => Some (b2z (s32 a <? imm))
  | 3 => Some (b2z (a <? uimm))
  | 4 => Some (Z.lxor a uimm)
  | 6 => Some (Z.lor a uimm)
  | 7 => Some (Z.land a uimm)
  | 1 => if negb (f7 =? 0x00) then None else Some (u32 (Z.shiftl a (shamt_of insn)))
  | 5 => if f7 =? 0x00 then Some (Z.shiftr a (shamt_of insn))
         else if f7 =? 0x20 then Some (sra32 a (shamt_of insn))
         else None
  | _ => None
  end.

Definition exec_op_imm (c : VmCpu) (m : mem) (insn size : Z) : exec_result :=
  match op_imm_alu insn (reg c (rs1_of insn)) with
  | Some result => retire c m (rd_of insn) result size
  | None => illegal c m insn
  end.

(** ** OP *)

(** The M extension's operations on the operands [a] and [b]. *)
Definition mul_alu (f3 a b : Z) : option Z :=
  match f3 with
  | 0 => Some (u32 (a * b))
  | 1 => Some (u32 (Z.shiftr (u64 (s32 a * s32 b)) 32))
  | 2 => Some (u32 (Z.shiftr (u64 (s32 a * b)) 32))
  | 3 => Some (u32 (Z.shiftr (u64 (a * b)) 32))
  | 4 => Some (if b =? 0 then 0xFFFFFFFF
               else if (a =? 0x80000000) && (b =? 0xFFFFFFFF) then 0x80000000
               else u32 (Z.quot (s32 a) (s32 b)))
  | 5 => Some (if b =? 0 then 0xFFFFFFFF else a / b)
  | 6 => Some (if b =? 0 then a
               else if (a =? 0x80000000) && (b =? 0xFFFFFFFF) then 0
               else u32 (Z.rem (s32 a) (s32 b)))
  | 7 => Some (if b =? 0 then a else a mod b)
  | _ => None
  end.

(** The base set's register-register operations. *)
Definition op_alu (f3 f7 a b : Z) : option Z :=
  match f3 with
  | 0 => if f7 =? 0x00 then Some (u32 (a + b))
         else if f7 =? 0x20 then Some (u32 (a - b)) else None
  | 1 => if negb (f7 =? 0x00) then None else Some (u32 (Z.shiftl a (Z.land b 0x1F)))
  | 2 => if negb (f7 =? 0x00) then None else Some (b2z (s32 a <? s32 b))
  | 3 => if negb (f7 =? 0x00) then None else Some (b2z (a <? b))
  | 4 => if negb (f7 =? 0x00) then None else Some (Z.lxor a b)
  | 5 => if f7 =? 0x00 then Some (Z.shiftr a (Z.land b 0x1F))
         else if f7 =? 0x20 then Some (sra32 a (Z.land b 0x1F)) else None
  | 6 => if negb (f7 =? 0x00) then None else Some (Z.lor a b)
  | 7 => if negb (f7 =? 0x00) then None else Some (Z.land a b)
  | _ => None
  end.

Definition exec_op (c : VmCpu) (m : mem) (insn size : Z) : exec_result :=
  let a := reg c (rs1_of insn) in
  let b := reg c (rs2_of insn) in
  let f3 := funct3_of insn in
  let f7 := funct7_of insn in
  match (if f7 =? 0x01 then mul_alu f3 a b else op_alu f3 f7 a b) with
  | Some result => retire c m (rd_of insn) result size
  | None => illegal c m insn
  end.

(** ** LUI and AUIPC *)

Definition exec_lui (c : VmCpu) (m : mem) (insn size : Z) : exec_result :=
  retire c m (rd_of insn) (u32 (imm_u insn)) size.

Definition exec_auipc (c : VmCpu) (m : mem) (insn size : Z) : exec_result :=
  retire c m (rd_of insn) (u32 (pc c + u32 (imm_u insn))) size.

(** ** LOAD *)

Definition misaligned_fault (c : VmCpu) (m : mem) (cause : VmTrapCause) (addr : Z)
    : exec_result := (false, set_fault c cause addr, m).

(** A load of [width] bytes at [addr], aligned by [align_mask], converted by
    [conv]. *)
Definition load_with (c : VmCpu) (m : mem) (insn size addr align_mask width : Z)
    (conv : Z -> Z) : exec_result :=
  if negb (Z.land addr align_mask =? 0)
  then misaligned_fault c m TRAP_LOAD_MISALIGNED addr else
  match xlat_read c addr width TRAP_LOAD_FAULT with
  | (None, c) => (false, c, m)
  | (Some p, c) => retire c m (rd_of insn) (conv p) size
  end.

Definition exec_load (c : VmCpu) (m : mem) (insn size : Z) : exec_result :=
  let addr := u32 (reg c (rs1_of insn) + u32 (imm_i insn)) in
  match funct3_of insn with
  | 0 => load_with c m insn size addr 0 1 (fun p => u32 (s8 (m p)))
  | 1 => load_with c m insn size addr 1 2 (fun p => u32 (s16 (load16 m p)))
  | 2 => load_with c m insn size addr 3 4 (fun p => load32 m p)
  | 4 => load_with c m insn size addr 0 1 (fun p => m p)
  | 5 => load_with c m insn size addr 1 2 (fun p => load16 m p)
  | _ => illegal c m insn
  end.

(** ** STORE *)

Definition store_with (c : VmCpu) (m : mem) (size addr align_mask width : Z)
    (put : Z -> mem) : exec_result :=
  if negb (Z.land addr align_mask =? 0)
  then misaligned_fault c m TRAP_STORE_MISALIGNED addr else
  match xlat_write c addr width with
  | (None, c) => (false, c, m)
  | (Some p, c) => (true, set_pc c (u32 (pc c + size)), put p)
  end.

Definition exec_store (c : VmCpu) (m : mem) (insn size : Z) : exec_result :=
  let addr := u32 (reg c (rs1_of insn) + u32 (imm_s insn)) in
  let value := reg c (rs2_of insn) in
  match funct3_of insn with
  | 0 => store_with c m size addr 0 1 (fun p => mem_write m p [Z.land value 0xFF])
  | 1 => store_with c m size addr 1 2 (fun p => store16 m p (Z.land value 0xFFFF))
  | 2 => store_with c m size addr 3 4 (fun p => store32 m p value)
  | _ => illegal c m insn
  end.

(** ** Control transfer *)

Definition branch_taken (f3 a b : Z) : option bool :=
  match f3 with
  | 0 => Some (a =? b)
  | 1 => Some (negb (a =? b))
  | 4 => Some (s32 a <? s32 b)
  | 5 => Some (s32 b <=? s32 a)
  | 6 => Some (a <? b)
  | 7 => Some (b <=? a)
  | _ => None
  end.

Definition exec_branch (c : VmCpu) (m : mem) (insn size : Z) : exec_result :=
  match branch_taken (funct3_of insn) (reg c (rs1_of insn)) (reg c (rs2_of insn)) with
  | Some true => (true, set_pc c (u32 (pc c + u32 (imm_b insn))), m)
  | Some false => (true, set_pc c (u32 (pc c + size)), m)
  | None => illegal c m insn
  end.

Definition exec_jal (c : VmCpu) (m : mem) (insn size : Z) : exec_result :=
  let link := u32 (pc c + size) in
  let target := u32 (pc c + u32 (imm_j insn)) in
  (true, set_pc (set_reg c (rd_of insn) link) target, m).

Definition exec_jalr (c : VmCpu) (m : mem) (insn size : Z) : exec_result :=
  if negb (funct3_of insn =? 0) then illegal c m insn else
  let link := u32 (pc c + size) in
  let target := Z.land (u32 (reg c (rs1_of insn) + u32 (imm_i insn))) (not32 1) in
  (true, set_pc (set_reg c (rd_of insn) link) target, m).

Definition exec_misc_mem (c : VmCpu) (m : mem) (insn size : Z) : exec_result :=
  let f3 := funct3_of insn in
  if negb (f3 =? 0) && negb (f3 =? 1) then illegal c m insn
  else (true, set_pc c (u32 (pc c + size)), m).

(** ** SYSTEM *)

Definition exec_env (c : VmCpu) (m : mem) (insn size : Z) : exec_result :=
  let imm := Z.land (Z.shiftr insn 20) 0xFFF in
  if imm =? 0x000 then
    let c := set_pc c (u32 (pc c + size)) in
    (false, set_trap c TRAP_ECALL (u32 (pc c - size)) (trap_addr c) (trap_insn c), m)
  else if imm =? 0x001 then
    (false, set_trap c TRAP_BREAKPOINT (pc c) (trap_addr c) insn, m)
  else illegal c m insn.

Definition exec_csr (c : VmCpu) (m : mem) (insn size : Z) : exec_result :=
  let f3 := funct3_of insn in
  let csr := Z.land (Z.shiftr insn 20) 0xFFF in
  let source := if negb (Z.land f3 0x4 =? 0) then rs1_of insn else reg c (rs1_of insn) in
  let old_value := csr_read c csr in
  match
    match Z.land f3 0x3 with
    | 1 => Some (source, true)
    | 2 => Some (Z.lor old_value source, negb (source =? 0))
    | 3 => Some (Z.land old_value (not32 source), negb (source =? 0))
    | _ => None
    end
  with
  | None => illegal c m insn
  | Some (new_value, do_write) =>
      let c := set_reg c (rd_of insn) old_value in
      let c := if do_write then csr_write c csr new_value else c in
      (true, set_pc c (u32 (pc c + size)), m)
  end.

Definition exec_system (c : VmCpu) (m : mem) (insn size : Z) : exec_result :=
  if funct3_of insn =? 0 then exec_env c m insn size else exec_csr c m insn size.

(** ** The outer switch *)

Definition execute_32 (c : VmCpu) (m : mem) (insn size : Z) : exec_result :=
  match opcode_of insn with
  | 0x13 => exec_op_imm c m insn size
  | 0x33 => exec_op c m insn size
  | 0x37 => exec_lui c m insn size
  | 0x17 => exec_auipc c m insn size
  | 0x03 => exec_load c m insn size
  | 0x23 => exec_store c m insn size
  | 0x63 => exec_branch c m insn size
  | 0x6F => exec_jal c m insn size
  | 0x67 => exec_jalr c m insn size
  | 0x0F => exec_misc_mem c m insn size
  | 0x73 => exec_system c m insn size
  | _ => illegal c m insn
  end.

Definition execute_one (c : VmCpu) (m : mem) (insn size : Z) : exec_result :=
  if size =? 2 then
    let expanded := expand_compressed (u16 insn) in
    if expanded =? 0 then illegal c m insn else execute_32 c m expanded size
  else execute_32 c m insn size.

(** ** The dispatch loop *)

Definition bump_trap_count (c : VmCpu) : VmCpu :=
  set_counts c (instructions_retired c) (u32 (trap_count c + 1)) (ecall_count c).

Definition step_once (c : VmCpu) (m : mem) : exec_result :=
  match fetch_instruction m c with
  | (None, c) => (false, bump_trap_count c, m)
  | (Some (insn, size), c) =>
      match execute_one c m insn size with
      | (false, c, m) =>
          (false, if decide (trap_cause c = TRAP_ECALL) then c else bump_trap_count c, m)
      | (true, c, m) =>
          let c := set_reg c 0 0 in
          (true, set_counts c (u64 (instructions_retired c + 1)) (trap_count c) (ecall_count c), m)
      end
  end.

(** The loop from [steps] retired instructions on, [fuel] being what is left of
    the budget: the result, the CPU, the memory and [*out_steps]. *)
Fixpoint vm_loop (fuel : nat) (c : VmCpu) (m : mem) (steps : Z)
    : VmStepResult * VmCpu * mem * Z :=
  match fuel with
  | O => (VM_STEP_QUANTUM_EXPIRED, c, m, steps)
  | S fuel =>
      match step_once c m with
      | (true, c, m) => vm_loop fuel c m (steps + 1)
      | (false, c, m) =>
          match trap_cause c with
          | TRAP_ECALL =>
              (VM_STEP_ECALL,
               set_counts c (instructions_retired c) (trap_count c) (u32 (ecall_count c + 1)),
               m, steps)
          | TRAP_HALT => (VM_STEP_HALTED, set_halted c true, m, steps)
          | _ => (VM_STEP_TRAPPED, c, m, steps)
          end
      end
  end.

Definition vm_step (c : VmCpu) (m : mem) (budget : Z) : VmStepResult * VmCpu * mem * Z :=
  if halted c then (VM_STEP_HALTED, c, m, 0) else
  vm_loop (Z.to_nat budget) (set_trap c TRAP_NONE 0 0 0) m 0.
