(* ===== verification/VmSafety.v ===== *)
(** What one dispatched instruction can do: a summary of every case of
    [execute_one] as one of four effects, on well-formed CPUs. *)
From S2P Require Import Prelude HostMem VmCpu VmDecode VmExec.

(** ** Well-formed CPUs *)

Record cpu_wf (c : VmCpu) : Prop := {
  wf_len : length (regs c) = VM_GP_REGS;
  wf_regs : Forall is_u32 (regs c);
  wf_x0 : reg c 0 = 0;
  wf_pc : is_u32 (pc c);
  wf_even : pc c mod 2 = 0;
  wf_retired : is_u64 (instructions_retired c);
  wf_id : is_u16 (vm_id c)
}.

(** The region an address falls in. *)
Definition region_of (c : VmCpu) (addr : Z) : VmRegion := (xlat_pick c addr).1.

(** The host bytes of a region. *)
Definition region_bytes_of (r : VmRegion) (x : Z) : Prop := rng (rg_base r) (rg_length r) x.

(** The host bytes the guest can address at all, and those it may write. *)
Definition guest_region (c : VmCpu) (r : VmRegion) : Prop :=
  r = l2_shared c \/ exists i, regions c !! i = Some r.
Definition visible (c : VmCpu) (x : Z) : Prop :=
  exists r, guest_region c r /\ region_bytes_of r x.
Definition may_write (c : VmCpu) (x : Z) : Prop :=
  exists r, guest_region c r /\ rg_writable r = true /\ region_bytes_of r x.

Lemma b2z_u32 b : is_u32 (b2z b).
Proof. destruct b; unfold is_u32; simpl; lia. Qed.

#[export] Hint Resolve b2z_u32 : mach.

(** ** Register accesses *)

Lemma reg_u32 c i : cpu_wf c -> is_u32 (reg c i).
Proof.
  intros [_ H _ _ _ _ _]. unfold reg. destruct (nth_in_or_default (Z.to_nat i) (regs c) 0) as [Hin| ->].
  - by apply (proj1 (List.Forall_forall _ _) H).
  - unfold is_u32. lia.
Qed.

Lemma field_range x k n : 0 <= n -> 0 <= Z.land (Z.shiftr x k) (2 ^ n - 1) < 2 ^ n.
Proof.
  intros. rewrite land_pow2_ones by done. apply Z.mod_pos_bound. by apply Z.pow_pos_nonneg.
Qed.

Lemma shamt_range insn : 0 <= shamt_of insn < 32.
Proof. apply (field_range insn 20 5). lia. Qed.
Lemma rs1_range insn : 0 <= rs1_of insn < 32.
Proof. apply (field_range insn 15 5). lia. Qed.
Lemma rd_range insn : 0 <= rd_of insn < 32.
Proof. apply (field_range insn 7 5). lia. Qed.
Lemma funct3_range insn : 0 <= funct3_of insn < 8.
Proof. apply (field_range insn 12 3). lia. Qed.
Lemma shift5_range b : 0 <= Z.land b 0x1F < 32.
Proof. apply (field_range b 0 5). lia. Qed.

#[export] Hint Resolve reg_u32 : mach.

(** ** Every result fits a register *)

Lemma sra32_u32 v s : is_u32 v -> is_u32 (sra32 v s).
Proof.
  intros Hv. unfold sra32. pose proof (shift5_range s) as Hs.
  set (k := Z.land s 0x1F) in *. destruct (k =? 0); [done|].
  case_match; [|by apply u32_shiftr; [|lia]].
  apply u32_lor; [by apply u32_shiftr; [|lia]|]. apply not32_u32.
  rewrite Z.shiftl_1_l. assert (0 < 2 ^ (32 - k) <= 2 ^ 32).
  { split; [apply Z.pow_pos_nonneg; lia|apply Z.pow_le_mono_r; lia]. }
  unfold is_u32. lia.
Qed.

(** Split a match on a three-bit field. *)
Ltac on_field H :=
  match type of H with 0 <= ?f < 8 =>
    assert (f = 0 \/ f = 1 \/ f = 2 \/ f = 3 \/ f = 4 \/ f = 5 \/ f = 6 \/ f = 7) as Hf by lia;
    destruct Hf as [Hf|[Hf|[Hf|[Hf|[Hf|[Hf|[Hf|Hf]]]]]]]; rewrite Hf in *
  end.

Lemma op_imm_alu_u32 insn a r : is_u32 a -> op_imm_alu insn a = Some r -> is_u32 r.
Proof.
  intros Ha. unfold op_imm_alu. pose proof (funct3_range insn) as H3.
  pose proof (shamt_range insn) as Hs.
  on_field H3; repeat case_match; intros [= <-]; auto with mach.
  - apply u32_shiftr; [done|lia].
  - by apply sra32_u32.
  - apply u32_land; [done|]. apply is_u32_range.
Qed.

Lemma op_alu_u32 insn f7 a b r :
  is_u32 a -> is_u32 b -> op_alu (funct3_of insn) f7 a b = Some r -> is_u32 r.
Proof.
  intros Ha Hb. unfold op_alu. pose proof (funct3_range insn) as H3.
  pose proof (shift5_range b) as Hs.
  on_field H3; repeat case_match; intros [= <-]; auto with mach.
  - apply u32_shiftr; [done|lia].
  - by apply sra32_u32.
  - apply u32_land; [done|]. by destruct Hb.
Qed.

Lemma mul_alu_u32 insn a b r :
  is_u32 a -> is_u32 b -> mul_alu (funct3_of insn) a b = Some r -> is_u32 r.
Proof.
  intros Ha Hb. unfold mul_alu. pose proof (funct3_range insn) as H3.
  assert (is_u32 0xFFFFFFFF /\ is_u32 0x80000000 /\ is_u32 0) as (? & ? & ?)
    by (unfold is_u32; lia).
  on_field H3; repeat case_match; intros [= <-]; auto with mach.
  - destruct (Z.eqb_spec b 0); [done|]. unfold is_u32 in *. split; [apply Z.div_pos; lia|].
    apply Z.div_lt_upper_bound; nia.
  - destruct (Z.eqb_spec b 0); [done|]. pose proof (Z.mod_pos_bound a b). unfold is_u32 in *. lia.
Qed.

Lemma csr_read_u32 c csr : cpu_wf c -> is_u32 (csr_read c csr).
Proof.
  intros W. unfold csr_read. repeat case_match; auto with mach.
  - change 0xFFFFFFFF with (2 ^ 32 - 1). rewrite land_pow2_ones by lia. apply is_u32_range.
  - pose proof (wf_id _ W). umach. lia.
  - unfold is_u32. lia.
Qed.

(** Branch and jump offsets are even. *)
Lemma imm_low_bit combined k :
  0 <= k < 32 -> Z.testbit combined 0 = false ->
  Z.testbit (Z.shiftr (s32 (Z.shiftl combined k)) k) 0 = false.
Proof.
  intros Hk Hc. rewrite Z.shiftr_spec, Z.add_0_l, testbit_s32, Z.shiftl_spec by lia.
  by rewrite Z.sub_diag.
Qed.

Lemma shiftl_low_bit a n : 0 < n -> Z.testbit (Z.shiftl a n) 0 = false.
Proof. intros. by rewrite Z.shiftl_spec_low. Qed.

Lemma imm_b_even insn : imm_b insn mod 2 = 0.
Proof.
  apply even_bit. unfold imm_b. apply imm_low_bit; [lia|].
  by rewrite !Z.lor_spec, !shiftl_low_bit by lia.
Qed.

Lemma imm_j_even insn : imm_j insn mod 2 = 0.
Proof.
  apply even_bit. unfold imm_j. apply imm_low_bit; [lia|].
  by rewrite !Z.lor_spec, !shiftl_low_bit by lia.
Qed.

Lemma u32_even z : z mod 2 = 0 -> u32 z mod 2 = 0.
Proof. zlia. Qed.
Lemma u32_add_even a b : a mod 2 = 0 -> b mod 2 = 0 -> u32 (a + b) mod 2 = 0.
Proof. zlia. Qed.
Lemma jalr_target_even x : is_u32 x -> is_u32 (Z.land x (not32 1)) /\ Z.land x (not32 1) mod 2 = 0.
Proof.
  intros Hx. split; [apply u32_land; [done|unfold not32; by vm_compute]|].
  apply even_bit. rewrite Z.land_spec. change (not32 1) with 0xFFFFFFFE.
  apply andb_false_r.
Qed.

(** ** The four effects of an instruction *)

Inductive synchronous : VmTrapCause -> Prop :=
  | sync_illegal : synchronous TRAP_ILLEGAL_INSTR
  | sync_load_fault : synchronous TRAP_LOAD_FAULT
  | sync_store_fault : synchronous TRAP_STORE_FAULT
  | sync_load_misaligned : synchronous TRAP_LOAD_MISALIGNED
  | sync_store_misaligned : synchronous TRAP_STORE_MISALIGNED
  | sync_store_ro : synchronous TRAP_STORE_RO
  | sync_breakpoint : synchronous TRAP_BREAKPOINT.

(** [m'] is [m] with [width] bytes written where [xlat_write] allows it. *)
Definition guest_write (c : VmCpu) (m m' : mem) : Prop :=
  exists addr p bs, 0 < Z.of_nat (length bs) /\ Forall is_u8 bs /\
    xlat_write c addr (Z.of_nat (length bs)) = (Some p, c) /\ m' = mem_write m p bs.

Inductive exec_effect (c : VmCpu) (m : mem) (size : Z) : exec_result -> Prop :=
  | ee_write rd v pc' :
      0 <= rd < 32 -> is_u32 v -> is_u32 pc' -> pc' mod 2 = 0 ->
      exec_effect c m size (true, set_pc (set_reg c rd v) pc', m)
  | ee_jump pc' :
      is_u32 pc' -> pc' mod 2 = 0 -> exec_effect c m size (true, set_pc c pc', m)
  | ee_store m' :
      guest_write c m m' -> exec_effect c m size (true, set_pc c (u32 (pc c + size)), m')
  | ee_trap cause addr insn :
      synchronous cause ->
      exec_effect c m size (false, set_trap c cause (pc c) addr insn, m)
  | ee_ecall :
      exec_effect c m size
        (false, set_trap (set_pc c (u32 (pc c + size))) TRAP_ECALL (pc c) (trap_addr c)
                  (trap_insn c), m).

Lemma illegal_effect c m size insn : exec_effect c m size (illegal c m insn).
Proof. apply ee_trap. constructor. Qed.

Lemma retire_effect c m size rd v :
  cpu_wf c -> size mod 2 = 0 -> 0 <= rd < 32 -> is_u32 v ->
  exec_effect c m size (retire c m rd v size).
Proof.
  intros W Hs Hrd Hv. apply ee_write; auto with mach.
  apply u32_add_even; [apply W|done].
Qed.

#[export] Hint Resolve illegal_effect retire_effect rd_range : mach.

Lemma xlat_read_cases c addr size cause :
  (exists p, xlat_read c addr size cause = (Some p, c)) \/
  xlat_read c addr size cause = (None, set_fault c cause addr).
Proof.
  unfold xlat_read. destruct (xlat_pick c addr) as [r o]. case_match; [by right|left; by eexists].
Qed.

Lemma xlat_write_cases c addr size :
  (exists p, xlat_write c addr size = (Some p, c)) \/
  exists cause, (cause = TRAP_STORE_FAULT \/ cause = TRAP_STORE_RO) /\
    xlat_write c addr size = (None, set_fault c cause addr).
Proof.
  unfold xlat_write. destruct (xlat_pick c addr) as [r o].
  case_match; [right; eauto|]. case_match; [right; eauto|left; by eexists].
Qed.

(** Shared assumptions of the per-opcode lemmas. *)
Section effects.
Context (c : VmCpu) (m : mem) (insn size : Z).
Hypothesis W : cpu_wf c.
Hypothesis Hm : mem_ok m.
Hypothesis Hsize : size mod 2 = 0.

Lemma exec_op_imm_effect : exec_effect c m size (exec_op_imm c m insn size).
Proof.
  unfold exec_op_imm. destruct (op_imm_alu _ _) eqn:E; [|auto with mach].
  apply op_imm_alu_u32 in E; auto with mach.
Qed.

Lemma exec_op_effect : exec_effect c m size (exec_op c m insn size).
Proof.
  unfold exec_op. destruct (if _ =? 1 then _ else _) eqn:E; [|auto with mach].
  apply retire_effect; auto with mach.
  case_match; [eapply mul_alu_u32|eapply op_alu_u32]; try apply E; auto with mach.
Qed.

Lemma load_with_effect addr mask width conv :
  (forall p, is_u32 (conv p)) ->
  exec_effect c m size (load_with c m insn size addr mask width conv).
Proof.
  intros Hc. unfold load_with. case_match; [apply ee_trap; constructor|].
  destruct (xlat_read_cases c addr width TRAP_LOAD_FAULT) as [[p ->]| ->].
  - auto with mach.
  - apply ee_trap. constructor.
Qed.

Lemma byte_u32 p : is_u32 (m p).
Proof. specialize (Hm p). umach. lia. Qed.
Lemma half_u32 p : is_u32 (load16 m p).
Proof. pose proof (load16_range m p Hm). umach. lia. Qed.

Lemma exec_load_effect : exec_effect c m size (exec_load c m insn size).
Proof.
  unfold exec_load. pose proof (funct3_range insn) as H3.
  on_field H3; auto with mach; apply load_with_effect; intros p; auto with mach hostmem.
  - apply byte_u32.
  - apply half_u32.
Qed.

Lemma store_with_effect addr mask width put :
  0 < width ->
  (forall p, exists bs, Z.of_nat (length bs) = width /\ Forall is_u8 bs /\ put p = mem_write m p bs) ->
  exec_effect c m size (store_with c m size addr mask width put).
Proof.
  intros Hw Hput. unfold store_with. case_match; [apply ee_trap; constructor|].
  destruct (xlat_write_cases c addr width) as [[p Hp]|(cause & Hcause & ->)].
  - rewrite Hp. apply ee_store. destruct (Hput p) as (bs & Hl & Hbs & ->).
    exists addr, p, bs. rewrite Hl. done.
  - destruct Hcause as [-> | ->]; apply ee_trap; constructor.
Qed.

Lemma exec_store_effect : exec_effect c m size (exec_store c m insn size).
Proof.
  unfold exec_store. pose proof (funct3_range insn) as H3.
  on_field H3; auto with mach; apply store_with_effect; try lia; intros p; eexists;
    (split; [|split; [|done]]); try done; try apply le_bytes_Forall.
  apply Forall_cons. split; [|done].
  change 0xFF with (2 ^ 8 - 1). rewrite land_pow2_ones by lia.
  unfold is_u8. by apply Z.mod_pos_bound.
Qed.

Lemma next_pc : is_u32 (u32 (pc c + size)) /\ u32 (pc c + size) mod 2 = 0.
Proof. split; [apply is_u32_range|]. apply u32_add_even; [apply W|done]. Qed.

Lemma exec_branch_effect : exec_effect c m size (exec_branch c m insn size).
Proof.
  unfold exec_branch. destruct (branch_taken _ _ _) as [[]|]; [| |auto with mach].
  - apply ee_jump; [apply is_u32_range|].
    apply u32_add_even; [apply W|apply u32_even, imm_b_even].
  - apply ee_jump; apply next_pc.
Qed.

Lemma exec_jal_effect : exec_effect c m size (exec_jal c m insn size).
Proof.
  unfold exec_jal. apply ee_write; [apply rd_range|apply is_u32_range..|].
  apply u32_add_even; [apply W|apply u32_even, imm_j_even].
Qed.

Lemma exec_jalr_effect : exec_effect c m size (exec_jalr c m insn size).
Proof.
  unfold exec_jalr. case_match; [auto with mach|].
  destruct (jalr_target_even (u32 (reg c (rs1_of insn) + u32 (imm_i insn)))); [apply is_u32_range|].
  apply ee_write; try done; [apply rd_range|apply is_u32_range].
Qed.

Lemma exec_misc_mem_effect : exec_effect c m size (exec_misc_mem c m insn size).
Proof.
  unfold exec_misc_mem. case_match; [auto with mach|]. apply ee_jump; apply next_pc.
Qed.

Lemma exec_system_effect : exec_effect c m size (exec_system c m insn size).
Proof.
  unfold exec_system. case_match.
  - unfold exec_env. case_match; [|case_match; [apply ee_trap; constructor|auto with mach]].
    assert (u32 (u32 (pc c + size) - size) = pc c) as Hpc
      by (pose proof (wf_pc _ W); zlia).
    pose proof (ee_ecall c m size) as He. cbn [pc set_pc trap_addr trap_insn]. by rewrite Hpc.
  - unfold exec_csr. pose proof (csr_read_u32 c (Z.land (Z.shiftr insn 20) 0xFFF) W) as Hu.
    assert (0 <= Z.land (funct3_of insn) 3 < 4) as H3
      by (apply (field_range (funct3_of insn) 0 2); lia).
    assert (Z.land (funct3_of insn) 3 = 0 \/ Z.land (funct3_of insn) 3 = 1 \/
      Z.land (funct3_of insn) 3 = 2 \/ Z.land (funct3_of insn) 3 = 3) as [E|[E|[E|E]]] by lia;
      rewrite E; [auto with mach|..]; unfold csr_write; try (case_match);
      (apply ee_write; [apply rd_range|done|apply next_pc..]).
Qed.

Lemma execute_32_effect : exec_effect c m size (execute_32 c m insn size).
Proof.
  unfold execute_32.
  repeat case_match; auto using exec_op_imm_effect, exec_op_effect, exec_load_effect,
    exec_store_effect, exec_branch_effect, exec_jal_effect, exec_jalr_effect,
    exec_misc_mem_effect, exec_system_effect with mach.
  all: apply retire_effect; auto with mach.
Qed.
End effects.

Lemma execute_one_effect c m insn size :
  cpu_wf c -> mem_ok m -> size mod 2 = 0 -> exec_effect c m size (execute_one c m insn size).
Proof.
  intros W Hm Hs. unfold execute_one. case_match; [case_match; [auto with mach|]|];
    by apply execute_32_effect.
Qed.

(** ** One dispatched instruction *)

(** The parts of the CPU the core leaves to the loader and the scheduler. *)
Definition same_host_state (c c' : VmCpu) : Prop :=
  regions c' = regions c /\ l2_shared c' = l2_shared c /\ vm_id c' = vm_id c /\
  in_critical c' = in_critical c /\ block_reason c' = block_reason c /\
  block_deadline c' = block_deadline c /\ block_child_vm c' = block_child_vm c /\
  reload_period c' = reload_period c /\ reload_next_deadline c' = reload_next_deadline c.

#[export] Instance same_host_state_preorder : PreOrder same_host_state.
Proof.
  split; [by intros c; repeat split|]. unfold same_host_state.
  intros c1 c2 c3 H12 H23. repeat match goal with H : _ /\ _ |- _ => destruct H end.
  repeat split; congruence.
Qed.

(** A retired instruction: one register or the memory changes, the program
    counter moves and the retired count advances; no trap field changes. *)
Record retired_step (c : VmCpu) (m : mem) (c' : VmCpu) (m' : mem) : Prop := {
  rs_host : same_host_state c c';
  rs_halted : halted c' = halted c;
  rs_trap : trap_cause c' = trap_cause c /\ trap_pc c' = trap_pc c /\
    trap_addr c' = trap_addr c /\ trap_insn c' = trap_insn c;
  rs_counts : instructions_retired c' = u64 (instructions_retired c + 1) /\
    trap_count c' = trap_count c /\ ecall_count c' = ecall_count c;
  rs_mem : m' = m \/ guest_write c m m'
}.

(** An instruction that stopped the loop: registers and memory are untouched.
    For a trap the program counter is too; an [ECALL] is passed. *)
Record stopped_step (c : VmCpu) (m : mem) (c' : VmCpu) (m' : mem) : Prop := {
  ss_host : same_host_state c c';
  ss_halted : halted c' = halted c;
  ss_regs : regs c' = regs c;
  ss_mem : m' = m;
  ss_retired : instructions_retired c' = instructions_retired c /\
    ecall_count c' = ecall_count c;
  ss_trap_pc : trap_pc c' = pc c;
  ss_cause :
    (trap_cause c' = TRAP_ECALL /\ trap_count c' = trap_count c /\
       (exists size, (size = 2 \/ size = 4) /\ pc c' = u32 (pc c + size))) \/
    ((synchronous (trap_cause c') \/ trap_cause c' = TRAP_INSTR_FETCH_FAULT) /\
       pc c' = pc c /\ trap_count c' = u32 (trap_count c + 1))
}.

Lemma fetch_cases m c :
  cpu_wf c ->
  (exists insn size, (size = 2 \/ size = 4) /\ fetch_instruction m c = (Some (insn, size), c)) \/
  exists addr, fetch_instruction m c = (None, set_fault c TRAP_INSTR_FETCH_FAULT addr).
Proof.
  intros W. unfold fetch_instruction.
  assert (Z.land (pc c) 1 = 0) as ->.
  { change 1 with (2 ^ 1 - 1). rewrite land_pow2_ones by lia. apply W. }
  cbn [negb Z.eqb].
  destruct (xlat_read_cases c (pc c) 2 TRAP_INSTR_FETCH_FAULT) as [[p ->]| ->]; [|by right; eexists].
  case_match; [|left; eexists _, 2; by auto].
  destruct (xlat_read_cases c (u32 (pc c + 2)) 2 TRAP_INSTR_FETCH_FAULT) as [[q ->]| ->];
    [|by right; eexists]. left. eexists _, 4. by auto.
Qed.

Lemma set_reg_wf c i v :
  cpu_wf c -> is_u32 v -> length (regs (set_reg c i v)) = VM_GP_REGS /\ Forall is_u32 (regs (set_reg c i v)).
Proof.
  intros [Hl Hr _ _ _ _ _] Hv. cbn [set_reg set_regs regs].
  split; [by rewrite length_insert|by apply Forall_insert].
Qed.

Lemma reg_x0_squashed c : length (regs c) = VM_GP_REGS -> reg (set_reg c 0 0) 0 = 0.
Proof. unfold reg, set_reg. cbn [set_regs regs]. by destruct (regs c). Qed.

(** Changing anything but registers and program counter keeps a CPU
    well-formed. *)
Lemma cpu_wf_same c c' :
  cpu_wf c -> regs c' = regs c -> vm_id c' = vm_id c -> is_u64 (instructions_retired c') ->
  is_u32 (pc c') -> pc c' mod 2 = 0 -> cpu_wf c'.
Proof. intros [] Hr Hi Hn Hp He. split; unfold reg in *; rewrite ?Hr, ?Hi; try done. Qed.

Lemma retire_wf c rd v pc' :
  cpu_wf c -> is_u32 v -> is_u32 pc' -> pc' mod 2 = 0 ->
  let c1 := set_reg (set_pc (set_reg c rd v) pc') 0 0 in
  cpu_wf (set_counts c1 (u64 (instructions_retired c1 + 1)) (trap_count c1) (ecall_count c1)).
Proof.
  intros W Hv Hp He c1. destruct (set_reg_wf c rd v W Hv) as [Hl Hr].
  split; cbn [set_counts regs pc vm_id instructions_retired].
  - cbn [c1 set_reg set_regs set_pc regs] in *. by rewrite length_insert.
  - cbn [c1 set_reg set_regs set_pc regs] in *. apply Forall_insert; [done|]. unfold is_u32. lia.
  - unfold reg. cbn [set_counts regs]. apply (reg_x0_squashed (set_pc (set_reg c rd v) pc')). done.
  - done.
  - done.
  - apply is_u64_range.
  - apply W.
Qed.

Lemma jump_wf c pc' :
  cpu_wf c -> is_u32 pc' -> pc' mod 2 = 0 ->
  let c1 := set_reg (set_pc c pc') 0 0 in
  cpu_wf (set_counts c1 (u64 (instructions_retired c1 + 1)) (trap_count c1) (ecall_count c1)).
Proof.
  intros W Hp He c1. pose proof W as [Hl Hr Hx Hpc Hev Hre Hid].
  split; cbn [set_counts regs pc vm_id instructions_retired].
  - cbn [c1 set_reg set_regs set_pc regs] in *. by rewrite length_insert.
  - cbn [c1 set_reg set_regs set_pc regs] in *. apply Forall_insert; [done|]. unfold is_u32. lia.
  - unfold reg. cbn [set_counts regs]. by apply (reg_x0_squashed (set_pc c pc')).
  - done.
  - done.
  - apply is_u64_range.
  - done.
Qed.

Lemma step_once_spec c m :
  cpu_wf c -> mem_ok m ->
  (exists c' m', step_once c m = (true, c', m') /\ retired_step c m c' m' /\ cpu_wf c') \/
  (exists c', step_once c m = (false, c', m) /\ stopped_step c m c' m /\ cpu_wf c').
Proof.
  intros W Hm. unfold step_once.
  destruct (fetch_cases m c W) as [(insn & size & Hsize & ->)|(addr & ->)].
  - pose proof (execute_one_effect c m insn size W Hm ltac:(destruct Hsize as [-> | ->]; done)) as He.
    inversion He as [rd v pc' Hrd Hv Hpc Hev Heq|pc' Hpc Hev Heq|m' Hw Heq|cause addr i Hs Heq|Heq].
    + left. eexists _, _. split; [done|]. split; [|by apply retire_wf].
      split; try done. by left.
    + left. eexists _, _. split; [done|]. split; [|by apply jump_wf].
      split; try done. by left.
    + left. eexists _, _. split; [done|]. split.
      * split; try done. by right.
      * apply jump_wf; [done|apply is_u32_range|].
        apply u32_add_even; [apply W|]. by destruct Hsize as [-> | ->].
    + right. eexists. rewrite decide_False by (cbn; intros ->; inversion Hs). split; [done|].
      split; [split; try done; right; cbn; auto|].
      apply (cpu_wf_same c); try done; apply W.
    + right. eexists. rewrite decide_True by done. split; [done|].
      assert (u32 (pc c + size) mod 2 = 0) as Hev.
      { apply u32_add_even; [apply W|]. by destruct Hsize as [-> | ->]. }
      split; [split; try done; left; cbn; split_and!; try done; by exists size|].
      apply (cpu_wf_same c); try done; try apply W. apply is_u32_range.
  - right. eexists. split; [done|]. split.
    + split; try done. right. cbn. auto.
    + apply (cpu_wf_same c); try done; apply W.
Qed.
