(* ===== verification/VmStep.v ===== *)
(** The dispatch loop's guarantees: sandboxing, determinism on the guest's own
    bytes, step accounting, precise traps, and independence of how a budget is
    cut into quanta. *)
From S2P Require Import Prelude HostMem VmCpu VmDecode VmExec VmSafety.

(** ** Translated ranges are inside the guest's regions *)

Lemma xlat_pick_region c addr r o :
  xlat_pick c addr = (r, o) -> rg_length r <> 0 -> guest_region c r /\ 0 <= o.
Proof.
  assert (forall k, rg_length (nth k (regions c) no_region) <> 0 ->
    guest_region c (nth k (regions c) no_region)) as Hnth.
  { intros k Hk. right. exists k. destruct (nth_lookup_or_length (regions c) k no_region) as [H|H]; [done|].
    rewrite nth_overflow in Hk by done. by cbn in Hk. }
  unfold xlat_pick. intros H Hl.
  repeat case_match; injection H as <- <-; (split; [|apply Z.land_nonneg; right; lia]); auto.
  by left.
Qed.

Lemma out_of_region_false r o n :
  out_of_region r o n = false -> rg_length r <> 0 /\ o + n <= rg_length r.
Proof.
  unfold out_of_region. rewrite !orb_false_iff, Z.eqb_neq, !Z.ltb_ge. lia.
Qed.

Lemma xlat_read_inside c addr n cause p c' :
  xlat_read c addr n cause = (Some p, c') ->
  c' = c /\ exists r, guest_region c r /\ rg_base r <= p /\ p + n <= rg_base r + rg_length r.
Proof.
  unfold xlat_read. destruct (xlat_pick c addr) as [r o] eqn:Hp.
  destruct (out_of_region r o n) eqn:Ho; [done|]. intros [= <- <-].
  apply out_of_region_false in Ho as [Hl Ho]. destruct (xlat_pick_region c addr r o Hp Hl).
  split; [done|]. exists r. split; [done|]. lia.
Qed.

Lemma xlat_write_inside c addr n p c' :
  xlat_write c addr n = (Some p, c') ->
  c' = c /\ exists r, guest_region c r /\ rg_writable r = true /\
    rg_base r <= p /\ p + n <= rg_base r + rg_length r.
Proof.
  unfold xlat_write. destruct (xlat_pick c addr) as [r o] eqn:Hp.
  destruct (out_of_region r o n) eqn:Ho; [done|]. destruct (rg_writable r) eqn:Hw; [|done].
  intros [= <- <-].
  apply out_of_region_false in Ho as [Hl Ho]. destruct (xlat_pick_region c addr r o Hp Hl).
  split; [done|]. exists r. split; [done|]. split; [done|]. lia.
Qed.

Lemma xlat_read_visible c addr n cause p c' :
  xlat_read c addr n cause = (Some p, c') -> forall x, rng p n x -> visible c x.
Proof.
  intros H x Hx. apply xlat_read_inside in H as (_ & r & Hr & H1 & H2).
  exists r. split; [done|]. unfold region_bytes_of, rng in *. lia.
Qed.

Lemma guest_write_frame c m m' :
  guest_write c m m' -> mem_agree (fun x => ~ may_write c x) m m'.
Proof.
  intros (addr & p & bs & Hlen & _ & Hp & ->) x Hx.
  apply xlat_write_inside in Hp as (_ & r & Hr & Hw & H1 & H2).
  rewrite mem_write_out; [done|]. intros Hin. apply Hx. exists r.
  split; [done|split; [done|]]. unfold region_bytes_of, rng in *. lia.
Qed.

Lemma guest_write_ok c m m' : guest_write c m m' -> mem_ok m -> mem_ok m'.
Proof. intros (_ & p & bs & _ & Hbs & _ & ->) Hm. by apply mem_write_ok. Qed.

Lemma may_write_host c c' x : same_host_state c c' -> may_write c' x <-> may_write c x.
Proof.
  intros (Hr & Hl & _). unfold may_write, guest_region. by rewrite Hr, Hl.
Qed.
Lemma visible_host c c' x : same_host_state c c' -> visible c' x <-> visible c x.
Proof.
  intros (Hr & Hl & _). unfold visible, guest_region. by rewrite Hr, Hl.
Qed.

(** ** The loop *)

(** The result of a stopped instruction, as [vm_loop] classifies it. *)
Definition stop_result (c : VmCpu) : VmStepResult :=
  if decide (trap_cause c = TRAP_ECALL) then VM_STEP_ECALL else VM_STEP_TRAPPED.

Definition stop_cpu (c : VmCpu) : VmCpu :=
  if decide (trap_cause c = TRAP_ECALL)
  then set_counts c (instructions_retired c) (trap_count c) (u32 (ecall_count c + 1)) else c.

Lemma vm_loop_S fuel c m steps :
  cpu_wf c -> mem_ok m ->
  (exists c' m', retired_step c m c' m' /\ cpu_wf c' /\ mem_ok m' /\
     vm_loop (S fuel) c m steps = vm_loop fuel c' m' (steps + 1)) \/
  (exists c', stopped_step c m c' m /\ cpu_wf (stop_cpu c') /\
     vm_loop (S fuel) c m steps = (stop_result c', stop_cpu c', m, steps)).
Proof.
  intros W Hm. cbn [vm_loop].
  destruct (step_once_spec c m W Hm) as [(c' & m' & -> & R & W')|(c' & -> & P & W')].
  - left. exists c', m'. split_and!; try done.
    destruct (rs_mem _ _ _ _ R) as [->|Hg]; [done|]. by eapply guest_write_ok.
  - right. exists c'. split; [done|]. unfold stop_result, stop_cpu.
    destruct (ss_cause _ _ _ _ P) as [(Hc & _)|([Hs|Hs] & _)].
    + rewrite Hc. rewrite !decide_True by done. split; [|done].
      apply (cpu_wf_same c'); try done; apply W'.
    + rewrite !decide_False by (intros E; rewrite E in Hs; inversion Hs). split; [done|].
      by destruct Hs.
    + rewrite Hs. by rewrite !decide_False by done.
Qed.

Record loop_post (c : VmCpu) (m : mem) (r : VmStepResult) (c' : VmCpu) (m' : mem)
    (n budget : Z) : Prop := {
  lp_frame : mem_agree (fun x => ~ may_write c x) m m';
  lp_host : same_host_state c c';
  lp_wf : cpu_wf c' /\ mem_ok m' /\ halted c' = halted c;
  lp_steps : 0 <= n <= budget;
  lp_retired : instructions_retired c' = u64 (instructions_retired c + n);
  lp_result :
    match r with
    | VM_STEP_QUANTUM_EXPIRED =>
        n = budget /\ trap_cause c' = trap_cause c /\
        trap_count c' = trap_count c /\ ecall_count c' = ecall_count c
    | VM_STEP_ECALL =>
        n < budget /\ trap_cause c' = TRAP_ECALL /\
        (exists size, (size = 2 \/ size = 4) /\ pc c' = u32 (trap_pc c' + size)) /\
        trap_count c' = trap_count c /\ ecall_count c' = u32 (ecall_count c + 1)
    | VM_STEP_TRAPPED =>
        n < budget /\
        (synchronous (trap_cause c') \/ trap_cause c' = TRAP_INSTR_FETCH_FAULT) /\
        trap_pc c' = pc c' /\
        trap_count c' = u32 (trap_count c + 1) /\ ecall_count c' = ecall_count c
    | VM_STEP_HALTED => False
    end
}.

Lemma stop_cpu_same c : same_host_state c (stop_cpu c) /\ halted (stop_cpu c) = halted c /\
  instructions_retired (stop_cpu c) = instructions_retired c /\ trap_cause (stop_cpu c) = trap_cause c /\
  pc (stop_cpu c) = pc c /\ trap_pc (stop_cpu c) = trap_pc c /\
  trap_count (stop_cpu c) = trap_count c /\ regs (stop_cpu c) = regs c.
Proof. unfold stop_cpu. case_decide; split_and!; try done; repeat split. Qed.

Lemma loop_post_stop c m c' budget :
  cpu_wf c -> mem_ok m -> stopped_step c m c' m -> cpu_wf (stop_cpu c') -> 0 < budget ->
  loop_post c m (stop_result c') (stop_cpu c') m 0 budget.
Proof.
  intros W Hm [Hh Hha Hr _ [Hre Hec] Htp Hc] W' Hb.
  destruct (stop_cpu_same c') as (Hs & Hs2 & Hs3 & Hs4 & Hs5 & Hs6 & Hs7 & _).
  split; try done; try lia.
  - by transitivity c'.
  - split_and!; try done. congruence.
  - rewrite Hs3, Hre. pose proof (wf_retired _ W). zlia.
  - unfold stop_result. destruct Hc as [(Hc & Ht & Hpc)|(Hc & Hpc & Ht)].
    + rewrite decide_True by done. rewrite Hs4, Hs5, Hs6, Hs7, Htp.
      split_and!; try done. unfold stop_cpu. rewrite decide_True by done. cbn. congruence.
    + assert (trap_cause c' <> TRAP_ECALL) as Hne
        by (intros E; rewrite E in Hc; destruct Hc as [Hc|Hc]; inversion Hc).
      rewrite decide_False by done. rewrite Hs4, Hs5, Hs6, Hs7.
      split_and!; try done; [congruence|]. unfold stop_cpu. rewrite decide_False by done. congruence.
Qed.

Lemma loop_post_cons c m c1 m1 r c' m' n budget :
  cpu_wf c -> retired_step c m c1 m1 -> loop_post c1 m1 r c' m' n budget ->
  loop_post c m r c' m' (1 + n) (1 + budget).
Proof.
  intros W [Hh Hha (Htc & _ & _ & _) (Hre & Htr & Hec) Hm] [Lf Lh Lw Ls Lr Lres].
  split.
  - transitivity m1.
    + destruct Hm as [->|Hg]; [done|]. by apply guest_write_frame.
    + eapply mem_agree_mono; [|exact Lf]. intros x Hx Hw. apply Hx. by apply (may_write_host c c1).
  - by transitivity c1.
  - split_and!; try apply Lw. destruct Lw as (_ & _ & ->). done.
  - lia.
  - rewrite Lr, Hre. zlia.
  - rewrite Htc, Htr, Hec in Lres. destruct r; try done; destruct Lres as [? Hrest]; (split; [lia|exact Hrest]).
Qed.

Lemma vm_loop_steps fuel : forall c m s,
  vm_loop fuel c m s = let '(r, c', m', n) := vm_loop fuel c m 0 in (r, c', m', s + n).
Proof.
  induction fuel as [|fuel IH]; intros c m s; cbn [vm_loop]; [by rewrite Z.add_0_r|].
  destruct (step_once c m) as [[[] c1] m1].
  - rewrite IH, (IH _ _ (0 + 1)). destruct (vm_loop fuel c1 m1 0) as [[[r c'] m'] n].
    f_equal. lia.
  - by destruct (trap_cause c1); rewrite Z.add_0_r.
Qed.

Lemma vm_loop_post fuel : forall c m,
  cpu_wf c -> mem_ok m ->
  let '(r, c', m', n) := vm_loop fuel c m 0 in loop_post c m r c' m' n (Z.of_nat fuel).
Proof.
  induction fuel as [|fuel IH]; intros c m W Hm.
  - cbn. split; try done; try lia. pose proof (wf_retired _ W). zlia.
  - destruct (vm_loop_S fuel c m 0 W Hm) as [(c1 & m1 & R & W1 & Hm1 & ->)|(c1 & P & W1 & ->)].
    + specialize (IH c1 m1 W1 Hm1). rewrite vm_loop_steps.
      destruct (vm_loop fuel c1 m1 0) as [[[r c'] m'] n]. rewrite Nat2Z.inj_succ, <-Z.add_1_l.
      by eapply loop_post_cons.
    + by apply loop_post_stop.
Qed.

(** ** Cutting the budget *)

Lemma vm_loop_split a b : forall c m s,
  vm_loop (a + b) c m s =
  let '(r, c1, m1, n1) := vm_loop a c m s in
  match r with
  | VM_STEP_QUANTUM_EXPIRED => vm_loop b c1 m1 n1
  | _ => (r, c1, m1, n1)
  end.
Proof.
  induction a as [|a IH]; intros c m s; [done|]. cbn [Nat.add vm_loop].
  destruct (step_once c m) as [[[] c1] m1]; [apply IH|]. by destruct (trap_cause c1).
Qed.

(** The trap fields as [vm_step] clears them. *)
Definition clear_trap (c : VmCpu) : Prop :=
  trap_cause c = TRAP_NONE /\ trap_pc c = 0 /\ trap_addr c = 0 /\ trap_insn c = 0.

Lemma set_trap_clear c : clear_trap c -> set_trap c TRAP_NONE 0 0 0 = c.
Proof. destruct c. unfold clear_trap, set_trap. cbn. by intros (-> & -> & -> & ->). Qed.

Lemma set_trap_wf c : cpu_wf c -> cpu_wf (set_trap c TRAP_NONE 0 0 0).
Proof. intros W. by apply (cpu_wf_same c); try done; apply W. Qed.

Lemma vm_loop_clear fuel : forall c m s c' m' n,
  cpu_wf c -> mem_ok m -> clear_trap c ->
  vm_loop fuel c m s = (VM_STEP_QUANTUM_EXPIRED, c', m', n) -> clear_trap c'.
Proof.
  induction fuel as [|fuel IH]; intros c m s c' m' n W Hm Hc.
  - by intros [= <- <- <-].
  - destruct (vm_loop_S fuel c m s W Hm) as [(c1 & m1 & R & W1 & Hm1 & ->)|(c1 & P & W1 & ->)].
    + apply IH; try done. destruct R as [_ _ (H1 & H2 & H3 & H4) _ _].
      unfold clear_trap in *. by rewrite H1, H2, H3, H4.
    + unfold stop_result. by case_decide.
Qed.

Lemma vm_step_post c m budget :
  cpu_wf c -> mem_ok m -> halted c = false -> 0 <= budget ->
  let '(r, c', m', n) := vm_step c m budget in
  loop_post (set_trap c TRAP_NONE 0 0 0) m r c' m' n budget /\
  (r = VM_STEP_QUANTUM_EXPIRED -> clear_trap c').
Proof.
  intros W Hm Hh Hb. unfold vm_step. rewrite Hh.
  pose proof (vm_loop_post (Z.to_nat budget) _ m (set_trap_wf c W) Hm) as HP.
  pose proof (vm_loop_clear (Z.to_nat budget) (set_trap c TRAP_NONE 0 0 0) m 0) as HC.
  destruct (vm_loop _ _ m 0) as [[[r c'] m'] n]. rewrite Z2Nat.id in HP by done.
  split; [done|]. intros ->. by eapply HC; try done; apply set_trap_wf.
Qed.

Lemma vm_step_split_lemma c m b1 b2 :
  cpu_wf c -> mem_ok m -> halted c = false -> 0 <= b1 -> 0 <= b2 ->
  vm_step c m (b1 + b2) =
  let '(r, c1, m1, n1) := vm_step c m b1 in
  match r with
  | VM_STEP_QUANTUM_EXPIRED =>
      let '(r2, c2, m2, n2) := vm_step c1 m1 b2 in (r2, c2, m2, n1 + n2)
  | _ => (r, c1, m1, n1)
  end.
Proof.
  intros W Hm Hh H1 H2. pose proof (vm_step_post c m b1 W Hm Hh H1) as HP.
  unfold vm_step at 1. rewrite Hh, Z2Nat.inj_add, vm_loop_split by done.
  unfold vm_step in HP |- * at 1. rewrite Hh in *.
  destruct (vm_loop (Z.to_nat b1) _ m 0) as [[[r c1] m1] n1]. destruct HP as [HP HC].
  destruct r; try done. unfold vm_step. destruct HP as [_ _ (_ & _ & Hh1) _ _ _].
  cbn [set_trap halted] in Hh1. rewrite Hh1, Hh, set_trap_clear by by apply HC.
  by rewrite vm_loop_steps.
Qed.

(** ** Determinism on the guest's bytes *)

Definition same_result (c : VmCpu) (r1 r2 : exec_result) : Prop :=
  r1.1 = r2.1 /\ mem_agree (visible c) r1.2 r2.2.

Section local.
Context (c : VmCpu) (m1 m2 : mem) (insn size : Z).
Hypothesis Hag : mem_agree (visible c) m1 m2.

Lemma same_result_refl b c' : same_result c (b, c', m1) (b, c', m2).
Proof. done. Qed.

Lemma visible_rng p n : (forall x, rng p n x -> visible c x) -> mem_agree (rng p n) m1 m2.
Proof. intros H. by eapply mem_agree_mono. Qed.

Lemma load_with_local addr mask width conv1 conv2 :
  (forall p, mem_agree (rng p width) m1 m2 -> conv1 p = conv2 p) ->
  same_result c (load_with c m1 insn size addr mask width conv1)
                (load_with c m2 insn size addr mask width conv2).
Proof.
  intros Hconv. unfold load_with. case_match; [done|].
  destruct (xlat_read c addr width TRAP_LOAD_FAULT) as [[p|] c'] eqn:Hx; [|done].
  assert (mem_agree (rng p width) m1 m2) as Hp
    by (apply visible_rng; by eapply xlat_read_visible).
  apply xlat_read_inside in Hx as [-> _]. by rewrite (Hconv p Hp).
Qed.

Lemma store_with_local addr mask width put1 put2 :
  (forall p, mem_agree (visible c) (put1 p) (put2 p)) ->
  same_result c (store_with c m1 size addr mask width put1)
                (store_with c m2 size addr mask width put2).
Proof.
  intros Hput. unfold store_with. case_match; [done|].
  destruct (xlat_write c addr width) as [[p|] c']; [|done]. split; [done|]. apply Hput.
Qed.

Lemma exec_load_local : same_result c (exec_load c m1 insn size) (exec_load c m2 insn size).
Proof.
  unfold exec_load. repeat case_match; try done; apply load_with_local; intros q Hq;
    rewrite ?(load16_agree m1 m2 q Hq), ?(load32_agree m1 m2 q Hq), ?(Hq q); try done;
    unfold rng; lia.
Qed.

Lemma exec_store_local : same_result c (exec_store c m1 insn size) (exec_store c m2 insn size).
Proof.
  unfold exec_store. repeat case_match; try done; apply store_with_local; intros q;
    by apply mem_write_agree.
Qed.

Lemma execute_32_local : same_result c (execute_32 c m1 insn size) (execute_32 c m2 insn size).
Proof.
  unfold execute_32.
  repeat case_match; auto using exec_load_local, exec_store_local, same_result_refl;
    unfold exec_op_imm, exec_op, exec_branch, exec_jalr, exec_misc_mem, exec_system,
      exec_env, exec_csr; by repeat case_match.
Qed.
End local.

Lemma execute_one_local c m1 m2 insn size :
  mem_agree (visible c) m1 m2 ->
  same_result c (execute_one c m1 insn size) (execute_one c m2 insn size).
Proof.
  intros Hag. unfold execute_one. repeat case_match; try done; by apply execute_32_local.
Qed.

Lemma fetch_local c m1 m2 :
  mem_agree (visible c) m1 m2 -> fetch_instruction m1 c = fetch_instruction m2 c.
Proof.
  intros Hag. unfold fetch_instruction. case_match; [done|].
  assert (forall a p c', xlat_read c a 2 TRAP_INSTR_FETCH_FAULT = (Some p, c') ->
    load16 m1 p = load16 m2 p) as Hld.
  { intros a p c' Hx. apply load16_agree. eapply mem_agree_mono; [|exact Hag].
    by eapply xlat_read_visible. }
  destruct (xlat_read c (pc c) 2 TRAP_INSTR_FETCH_FAULT) as [[p|] c'] eqn:Hx; [|done].
  rewrite (Hld _ _ _ Hx). apply xlat_read_inside in Hx as [-> _]. case_match; [|done].
  destruct (xlat_read c (u32 (pc c + 2)) 2 TRAP_INSTR_FETCH_FAULT) as [[q|] c'] eqn:Hy; [|done].
  by rewrite (Hld _ _ _ Hy).
Qed.

Lemma fetch_same_cpu c m insn size c' :
  fetch_instruction m c = (Some (insn, size), c') -> c' = c.
Proof.
  unfold fetch_instruction. case_match; [done|].
  destruct (xlat_read c (pc c) 2 _) as [[p|] c1] eqn:Hx; [|done].
  apply xlat_read_inside in Hx as [-> _]. case_match; [|by intros [= _ _ <-]].
  destruct (xlat_read c (u32 (pc c + 2)) 2 _) as [[q|] c2] eqn:Hy; [|done].
  apply xlat_read_inside in Hy as [-> _]. by intros [= _ _ <-].
Qed.

Lemma step_once_local c m1 m2 :
  mem_agree (visible c) m1 m2 -> same_result c (step_once c m1) (step_once c m2).
Proof.
  intros Hag. unfold step_once. rewrite (fetch_local c m1 m2 Hag).
  destruct (fetch_instruction m2 c) as [[[insn size]|] c'] eqn:Hf; [|done].
  apply fetch_same_cpu in Hf as ->.
  destruct (execute_one_local c m1 m2 insn size Hag) as [Heq Hm].
  destruct (execute_one c m1 insn size) as [[b1 c1] m1'], (execute_one c m2 insn size) as [[b2 c2] m2'].
  cbn in Heq, Hm. injection Heq as -> ->. by destruct b2.
Qed.

Lemma vm_loop_local fuel : forall c m1 m2 s,
  cpu_wf c -> mem_ok m1 -> mem_ok m2 -> mem_agree (visible c) m1 m2 ->
  let '(r1, c1, m1', n1) := vm_loop fuel c m1 s in
  let '(r2, c2, m2', n2) := vm_loop fuel c m2 s in
  r1 = r2 /\ c1 = c2 /\ n1 = n2 /\ mem_agree (visible c) m1' m2'.
Proof.
  induction fuel as [|fuel IH]; intros c m1 m2 s W H1 H2 Hag; [done|]. cbn [vm_loop].
  destruct (step_once_local c m1 m2 Hag) as [Heq Hm].
  pose proof (step_once_spec c m1 W H1) as S1. pose proof (step_once_spec c m2 W H2) as S2.
  destruct (step_once c m1) as [[b1 c1] m1'], (step_once c m2) as [[b2 c2] m2'].
  cbn in Heq, Hm. injection Heq as -> ->. destruct b2.
  - destruct S1 as [(x & y & [= <- <-] & R1 & W1)|(x & [=] & _)].
    destruct S2 as [(x & y & [= <- <-] & R2 & W2)|(x & [=] & _)].
    assert (forall m m', mem_ok m -> retired_step c m c2 m' -> mem_ok m') as Hok.
    { intros m m' Hmo [_ _ _ _ [->|Hg]]; [done|]. by eapply guest_write_ok. }
    specialize (IH c2 m1' m2' (s + 1) W1 (Hok _ _ H1 R1) (Hok _ _ H2 R2)).
    assert (forall x, visible c2 x <-> visible c x) as Hv
      by (intros x; apply visible_host, R1).
    assert (mem_agree (visible c2) m1' m2') as Hag2
      by (eapply mem_agree_mono; [|exact Hm]; intros x; apply Hv).
    specialize (IH Hag2).
    destruct (vm_loop fuel c2 m1' _) as [[[r1 d1] n1] k1], (vm_loop fuel c2 m2' _) as [[[r2 d2] n2] k2].
    destruct IH as (-> & -> & -> & Hagr). split_and!; try done.
    eapply mem_agree_mono; [|exact Hagr]. intros x. apply Hv.
  - by destruct (trap_cause c2).
Qed.

(** What a quantum leaves alone. *)
Lemma vm_step_effect c m budget :
  cpu_wf c -> mem_ok m -> 0 <= budget ->
  let '(r, c', m', n) := vm_step c m budget in
  mem_agree (fun x => ~ may_write c x) m m' /\ same_host_state c c' /\
  cpu_wf c' /\ mem_ok m'.
Proof.
  intros W Hm Hb. destruct (halted c) eqn:Hh.
  - unfold vm_step. rewrite Hh. done.
  - pose proof (vm_step_post c m budget W Hm Hh Hb) as HP.
    destruct (vm_step c m budget) as [[[r c'] m'] n]. destruct HP as [[Hf Hs (W' & Hm' & _) _ _ _] _].
    split_and!; try done.
Qed.

(** ** Properties *)

(** C1. A quantum of guest code, whatever its instructions, cannot leave its
    sandbox: no host byte outside the guest's writable regions changes, the
    region table, identity and scheduler fields of the CPU are untouched, and
    the CPU stays well-formed ([x0] zero, registers and program counter 32-bit,
    program counter even). *)
Theorem vm_step_sandbox c m budget :
  cpu_wf c -> mem_ok m -> 0 <= budget ->
  let '(r, c', m', n) := vm_step c m budget in
  mem_agree (fun x => ~ may_write c x) m m' /\ same_host_state c c' /\
  cpu_wf c' /\ mem_ok m'.
Proof. apply vm_step_effect. Qed.

(** C2. What a guest computes depends on its own regions only: from host
    memories that agree on the bytes of its regions, a quantum returns the same
    result, CPU state and step count, and memories that agree there again. *)
Theorem vm_step_noninterference c m1 m2 budget :
  cpu_wf c -> mem_ok m1 -> mem_ok m2 -> mem_agree (visible c) m1 m2 ->
  let '(r1, c1, m1', n1) := vm_step c m1 budget in
  let '(r2, c2, m2', n2) := vm_step c m2 budget in
  r1 = r2 /\ c1 = c2 /\ n1 = n2 /\ mem_agree (visible c) m1' m2'.
Proof.
  intros W H1 H2 Hag. unfold vm_step. destruct (halted c); [done|].
  apply (vm_loop_local (Z.to_nat budget) (set_trap c TRAP_NONE 0 0 0)); try done.
  by apply set_trap_wf.
Qed.

(** What [vm_step] reports is what happened: on a VM that is not halted it
    retires at most the budget, advances the retired-instruction counter by
    exactly the reported steps, and returns [QUANTUM_EXPIRED] exactly when the
    whole budget was spent without a trap; an [ECALL] is passed by the program
    counter and counted as an [ECALL] only; a trap leaves the program counter on
    the faulting instruction, has a synchronous cause or is a fetch fault (never
    a misaligned fetch), and is counted as a trap only. *)
Theorem vm_step_reports c m budget :
  cpu_wf c -> mem_ok m -> halted c = false -> 0 <= budget ->
  let '(r, c', m', n) := vm_step c m budget in
  0 <= n <= budget /\ halted c' = false /\
  instructions_retired c' = u64 (instructions_retired c + n) /\
  match r with
  | VM_STEP_QUANTUM_EXPIRED =>
      n = budget /\ trap_cause c' = TRAP_NONE /\
      trap_count c' = trap_count c /\ ecall_count c' = ecall_count c
  | VM_STEP_ECALL =>
      n < budget /\ trap_cause c' = TRAP_ECALL /\
      (exists size, (size = 2 \/ size = 4) /\ pc c' = u32 (trap_pc c' + size)) /\
      trap_count c' = trap_count c /\ ecall_count c' = u32 (ecall_count c + 1)
  | VM_STEP_TRAPPED =>
      n < budget /\
      (synchronous (trap_cause c') \/ trap_cause c' = TRAP_INSTR_FETCH_FAULT) /\
      trap_pc c' = pc c' /\
      trap_count c' = u32 (trap_count c + 1) /\ ecall_count c' = ecall_count c
  | VM_STEP_HALTED => False
  end.
Proof.
  intros W Hm Hh Hb. pose proof (vm_step_post c m budget W Hm Hh Hb) as HP.
  destruct (vm_step c m budget) as [[[r c'] m'] n].
  destruct HP as [[_ _ (_ & _ & Hha) Hs Hr Hres] _]. split; [done|].
  split; [by rewrite Hha|]. split; [done|]. exact Hres.
Qed.

(** C25. Traps and [ECALL]s are precise: when [vm_step] stops after [n] steps,
    the registers and the whole of host memory are those of a run of exactly
    [n] instructions, and [trap_pc] is where that run would continue. *)
Theorem vm_step_precise c m budget r c' m' n :
  cpu_wf c -> mem_ok m -> halted c = false -> 0 <= budget ->
  vm_step c m budget = (r, c', m', n) -> r <> VM_STEP_QUANTUM_EXPIRED ->
  exists c1, vm_step c m n = (VM_STEP_QUANTUM_EXPIRED, c1, m', n) /\
    regs c' = regs c1 /\ trap_pc c' = pc c1.
Proof.
  intros W Hm Hh Hb Hv Hr.
  pose proof (vm_step_post c m budget W Hm Hh Hb) as HP. rewrite Hv in HP.
  destruct HP as [[_ _ _ Hn _ Hres] _].
  assert (n < budget) as Hlt by (destruct r; done || apply Hres).
  pose proof (vm_step_split_lemma c m n (budget - n) W Hm Hh ltac:(lia) ltac:(lia)) as Hsp.
  replace (n + (budget - n)) with budget in Hsp by lia. rewrite Hv in Hsp.
  pose proof (vm_step_post c m n W Hm Hh ltac:(lia)) as HP1.
  destruct (vm_step c m n) as [[[r1 c1] m1] n1]. destruct HP1 as [[_ _ (W1 & Hm1 & Hh1) Hn1 _ Hres1] Hcl].
  destruct r1; try (injection Hsp as -> -> -> ->; destruct Hres1 as [? _]; lia); [|done].
  destruct Hres1 as [-> _]. exists c1. unfold vm_step in Hsp. cbn [halted set_trap] in Hh1.
  rewrite Hh1, Hh in Hsp. rewrite set_trap_clear in Hsp by by apply Hcl.
  replace (Z.to_nat (budget - n)) with (S (Z.to_nat (budget - n - 1))) in Hsp by lia.
  destruct (vm_loop_S (Z.to_nat (budget - n - 1)) c1 m1 0 W1 Hm1)
    as [(c2 & m2 & _ & W2 & Hm2 & Heq)|(c2 & P & _ & Heq)]; rewrite Heq in Hsp.
  - rewrite vm_loop_steps in Hsp.
    pose proof (vm_loop_post (Z.to_nat (budget - n - 1)) c2 m2 W2 Hm2) as HP2.
    destruct (vm_loop _ c2 m2 0) as [[[r3 c3] m3] n3]. injection Hsp as -> -> -> Hn3.
    destruct HP2 as [_ _ _ Hs3 _ _]. lia.
  - injection Hsp as -> -> -> _. destruct (stop_cpu_same c2) as (_ & _ & _ & _ & _ & Htp & _ & Hrg).
    split; [done|]. rewrite Hrg, Htp. split; [apply P|apply P].
Qed.

(** How a budget is cut into quanta is invisible to the guest: stepping
    [b1 + b2] instructions is stepping [b1] and, when that quantum expires,
    stepping [b2] from there, with the same result, state and total of steps. *)
Theorem vm_step_quanta c m b1 b2 :
  cpu_wf c -> mem_ok m -> halted c = false -> 0 <= b1 -> 0 <= b2 ->
  vm_step c m (b1 + b2) =
  let '(r, c1, m1, n1) := vm_step c m b1 in
  match r with
  | VM_STEP_QUANTUM_EXPIRED =>
      let '(r2, c2, m2, n2) := vm_step c1 m1 b2 in (r2, c2, m2, n1 + n2)
  | _ => (r, c1, m1, n1)
  end.
Proof. apply vm_step_split_lemma. Qed.

(** ** A small guest *)

(** [addi x5,x0,7; c.addi x5,1; lui x6,0x80000; sw x5,4(x6); ecall] *)
Definition demo_prog : list Z :=
  le_bytes 4 0x00700293 ++ le_bytes 2 0x0285 ++ le_bytes 4 0x80000337 ++
  le_bytes 4 0x00532223 ++ le_bytes 4 0x00000073.

Definition demo_mem : mem := mem_write (fun _ => 0) 0x1000 demo_prog.

Definition demo_cpu : VmCpu :=
  mkCpu (replicate VM_GP_REGS 0) 0
    [mkRegion 0x1000 64 false; no_region; mkRegion 0x2000 64 true; no_region] no_region
    TRAP_NONE 0 0 0 false false BLOCK_NONE 0 UINT16_MAX 0 0 3 0 0 0 0.

Lemma demo_cpu_wf : cpu_wf demo_cpu.
Proof.
  split; try done.
  unfold demo_cpu. cbn [regs]. by apply Forall_replicate.
Qed.

Lemma demo_mem_ok : mem_ok demo_mem.
Proof.
  apply mem_write_ok; [by intros x|].
  unfold demo_prog. repeat (apply Forall_app; split); apply le_bytes_Forall.
Qed.

(** The five instructions run and the store lands in the data region. *)
Example demo_guest_run :
  let '(r, c, m, n) := vm_step demo_cpu demo_mem 100 in
  r = VM_STEP_ECALL /\ n = 4 /\ reg c 5 = 8 /\ load32 m 0x2004 = 8 /\ trap_pc c = 14.
Proof. by vm_compute. Qed.

Lemma vm_step_sandbox_witness :
  let '(r, c', m', n) := vm_step demo_cpu demo_mem 100 in
  mem_agree (fun x => ~ may_write demo_cpu x) demo_mem m' /\ same_host_state demo_cpu c' /\
  cpu_wf c' /\ mem_ok m'.
Proof. exact (vm_step_sandbox demo_cpu demo_mem 100 demo_cpu_wf demo_mem_ok ltac:(lia)). Defined.

Lemma vm_step_noninterference_witness :
  let m2 := mem_write demo_mem 0x3000 [1] in
  let '(r1, c1, m1', n1) := vm_step demo_cpu demo_mem 100 in
  let '(r2, c2, m2', n2) := vm_step demo_cpu m2 100 in
  r1 = r2 /\ c1 = c2 /\ n1 = n2 /\ mem_agree (visible demo_cpu) m1' m2'.
Proof.
  apply (vm_step_noninterference demo_cpu demo_mem (mem_write demo_mem 0x3000 [1]) 100
    demo_cpu_wf demo_mem_ok).
  - apply mem_write_ok; [apply demo_mem_ok|]. apply Forall_singleton. unfold is_u8. lia.
  - intros x (r & [-> |[i Hi]] & Hx).
    + unfold region_bytes_of, rng in Hx. cbn in Hx. lia.
    + rewrite mem_write_out; [done|]. unfold region_bytes_of, rng in *.
      do 4 (destruct i as [|i]; [injection Hi as <-; cbn in *; lia|]). by destruct i.
Defined.

Lemma vm_step_reports_witness :
  let '(r, c', m', n) := vm_step demo_cpu demo_mem 3 in
  0 <= n <= 3 /\ halted c' = false /\
  instructions_retired c' = u64 (instructions_retired demo_cpu + n).
Proof.
  pose proof (vm_step_reports demo_cpu demo_mem 3 demo_cpu_wf demo_mem_ok eq_refl ltac:(lia)) as H.
  destruct (vm_step demo_cpu demo_mem 3) as [[[r c'] m'] n].
  destruct H as (H1 & H2 & H3 & _). exact (conj H1 (conj H2 H3)).
Defined.

Lemma vm_step_precise_witness :
  let s := vm_step demo_cpu demo_mem 100 in
  exists c1, vm_step demo_cpu demo_mem s.2 = (VM_STEP_QUANTUM_EXPIRED, c1, s.1.2, s.2) /\
    regs s.1.1.2 = regs c1 /\ trap_pc s.1.1.2 = pc c1.
Proof.
  intros s.
  refine (vm_step_precise demo_cpu demo_mem 100 s.1.1.1 s.1.1.2 s.1.2 s.2 demo_cpu_wf
    demo_mem_ok eq_refl ltac:(lia) (quad_eta s) _).
  by vm_compute.
Defined.

Lemma vm_step_quanta_witness :
  vm_step demo_cpu demo_mem (2 + 2) =
  let '(r, c1, m1, n1) := vm_step demo_cpu demo_mem 2 in
  match r with
  | VM_STEP_QUANTUM_EXPIRED =>
      let '(r2, c2, m2, n2) := vm_step c1 m1 2 in (r2, c2, m2, n1 + n2)
  | _ => (r, c1, m1, n1)
  end.
Proof.
  exact (vm_step_quanta demo_cpu demo_mem 2 2 demo_cpu_wf demo_mem_ok eq_refl ltac:(lia) ltac:(lia)).
Defined.
