(* ===== verification/VmLoader.v ===== *)
(** The program loader ([src/vm/vm_loader.c]): validation of an ELF image, and the
    placement of its segments in the regions of a CPU.  Shown: which images are
    refused, with which error and that a refusal touches nothing; and what a
    successful load sets up. *)
From S2P Require Import Prelude HostMem SlabStack SlabInv SlabInit VmCpu VmSafety.

(** ** Data *)

Inductive VmBacking := VM_BACKING_XIP | VM_BACKING_COPY_RAM.

Inductive VmLoadResult :=
  | VM_LOAD_OK
  | VM_LOAD_ERR_TRUNCATED
  | VM_LOAD_ERR_BAD_MAGIC
  | VM_LOAD_ERR_NOT_RV32
  | VM_LOAD_ERR_NOT_LITTLE_ENDIAN
  | VM_LOAD_ERR_BAD_VERSION
  | VM_LOAD_ERR_NOT_RISCV
  | VM_LOAD_ERR_NOT_EXECUTABLE
  | VM_LOAD_ERR_BAD_ENTRY
  | VM_LOAD_ERR_DYNAMIC_FORBIDDEN
  | VM_LOAD_ERR_INTERP_FORBIDDEN
  | VM_LOAD_ERR_SEG_OUT_OF_RANGE
  | VM_LOAD_ERR_SEG_REGION_MISMATCH
  | VM_LOAD_ERR_SEG_BSS_IN_RO
  | VM_LOAD_ERR_SEG_TOO_LARGE
  | VM_LOAD_ERR_UNRESOLVED_RELOCS
  | VM_LOAD_ERR_OUT_OF_RAM
  | VM_LOAD_ERR_DATA_SIZE_TOO_SMALL
  | VM_LOAD_ERR_INVALID_ARG.

#[export] Instance VmLoadResult_eq_dec : EqDecision VmLoadResult.
Proof. solve_decision. Defined.
#[export] Instance VmBacking_eq_dec : EqDecision VmBacking.
Proof. solve_decision. Defined.

(** The arena is passed along with the memory it manages. *)
Record VmLoaderConfig := mkLoaderConfig {
  code_backing : VmBacking;
  rodata_backing : VmBacking;
  region_data_size : Z;
  shared_base : Z;
  shared_size : Z;
  l2_shared_base : Z;
  l2_shared_size : Z
}.

Definition VM_REG_SP : Z := 2.

Definition ELFCLASS32 : Z := 1.
Definition ELFDATA2LSB : Z := 1.
Definition EV_CURRENT : Z := 1.
Definition ET_EXEC : Z := 2.
Definition EM_RISCV : Z := 0xF3.
Definition PT_LOAD : Z := 1.
Definition PT_DYNAMIC : Z := 2.
Definition PT_INTERP : Z := 3.
Definition PF_W : Z := 2.
Definition ELF32_EHDR_SIZE : Z := 52.
Definition ELF32_PHDR_SIZE : Z := 32.

(** [ELFMAG0] to [ELFMAG3]. *)
Definition ELFMAG : list Z := [0x7F; 0x45; 0x4C; 0x46].

(** ** Readers *)

Definition rd16 (m : mem) (p : Z) : Z := load16 m p.
Definition rd32 (m : mem) (p : Z) : Z := load32 m p.

Definition vaddr_to_region (vaddr : Z) : Z := Z.shiftr vaddr 30.

(** The fields of a program header that the loader uses. *)
Record Phdr := mkPhdr {
  p_type : Z;
  p_offset : Z;
  p_vaddr : Z;
  p_filesz : Z;
  p_memsz : Z;
  p_flags : Z
}.

Definition read_phdr (m : mem) (ph : Z) : Phdr :=
  mkPhdr (rd32 m (ph + 0)) (rd32 m (ph + 4)) (rd32 m (ph + 8))
    (rd32 m (ph + 16)) (rd32 m (ph + 20)) (rd32 m (ph + 24)).

(** The header of segment [i] in the table at [phoff]. *)
Definition phdr_at (elf phoff i : Z) : Z := elf + phoff + u32 (i * ELF32_PHDR_SIZE).

(** ** Validation *)

Definition validate_pt_load (vaddr filesz memsz flags : Z) : VmLoadResult :=
  let region := vaddr_to_region vaddr in
  if region =? VM_REGION_SHARED then VM_LOAD_ERR_SEG_OUT_OF_RANGE else
  let offset := Z.land vaddr 0x3FFFFFFF in
  if (0x40000000 <? memsz) || (u32 (0x40000000 - memsz) <? offset) then VM_LOAD_ERR_SEG_TOO_LARGE else
  if memsz <? filesz then VM_LOAD_ERR_SEG_OUT_OF_RANGE else
  let is_writable := negb (Z.land flags PF_W =? 0) in
  if (region =? VM_REGION_CODE) || (region =? VM_REGION_RODATA) then
    if is_writable then VM_LOAD_ERR_SEG_REGION_MISMATCH else
    if filesz <? memsz then VM_LOAD_ERR_SEG_BSS_IN_RO else VM_LOAD_OK
  else VM_LOAD_OK.

(** One round of the first pass. *)
Definition check_segment (elf_size : Z) (p : Phdr) : VmLoadResult :=
  if p_type p =? PT_DYNAMIC then VM_LOAD_ERR_DYNAMIC_FORBIDDEN else
  if p_type p =? PT_INTERP then VM_LOAD_ERR_INTERP_FORBIDDEN else
  if negb (p_type p =? PT_LOAD) then VM_LOAD_OK else
  if (p_filesz p =? 0) && (p_memsz p =? 0) then VM_LOAD_OK else
  if (0 <? p_filesz p) && (elf_size <? u64 (p_offset p + p_filesz p)) then VM_LOAD_ERR_TRUNCATED else
  validate_pt_load (p_vaddr p) (p_filesz p) (p_memsz p) (p_flags p).

(** [n] more segments from [i]. *)
Fixpoint check_segments (n : nat) (i : Z) (m : mem) (elf phoff elf_size : Z) : VmLoadResult :=
  match n with
  | O => VM_LOAD_OK
  | S n =>
      match check_segment elf_size (read_phdr m (phdr_at elf phoff i)) with
      | VM_LOAD_OK => check_segments n (i + 1) m elf phoff elf_size
      | err => err
      end
  end.

Definition e_type (m : mem) (elf : Z) : Z := rd16 m (elf + 16).
Definition e_machine (m : mem) (elf : Z) : Z := rd16 m (elf + 18).
Definition e_version (m : mem) (elf : Z) : Z := rd32 m (elf + 20).
Definition e_entry (m : mem) (elf : Z) : Z := rd32 m (elf + 24).
Definition e_phoff (m : mem) (elf : Z) : Z := rd32 m (elf + 28).
Definition e_phentsz (m : mem) (elf : Z) : Z := rd16 m (elf + 42).
Definition e_phnum (m : mem) (elf : Z) : Z := rd16 m (elf + 44).

(** From the size of the file header to the end of the program headers. *)
Definition check_header (m : mem) (elf elf_size : Z) : VmLoadResult :=
  if elf_size <? ELF32_EHDR_SIZE then VM_LOAD_ERR_TRUNCATED else
  if negb (bool_decide (mem_read m elf 4 = ELFMAG)) then VM_LOAD_ERR_BAD_MAGIC else
  if negb (m (elf + 4) =? ELFCLASS32) then VM_LOAD_ERR_NOT_RV32 else
  if negb (m (elf + 5) =? ELFDATA2LSB) then VM_LOAD_ERR_NOT_LITTLE_ENDIAN else
  if negb (m (elf + 6) =? EV_CURRENT) then VM_LOAD_ERR_BAD_VERSION else
  if negb (e_machine m elf =? EM_RISCV) then VM_LOAD_ERR_NOT_RISCV else
  if negb (e_type m elf =? ET_EXEC) then VM_LOAD_ERR_NOT_EXECUTABLE else
  if negb (e_version m elf =? EV_CURRENT) then VM_LOAD_ERR_BAD_VERSION else
  if negb (e_phentsz m elf =? ELF32_PHDR_SIZE) then VM_LOAD_ERR_INVALID_ARG else
  if negb (vaddr_to_region (e_entry m elf) =? VM_REGION_CODE) then VM_LOAD_ERR_BAD_ENTRY else
  if negb (Z.land (e_entry m elf) 1 =? 0) then VM_LOAD_ERR_BAD_ENTRY else
  if e_phnum m elf =? 0 then VM_LOAD_ERR_INVALID_ARG else
  if elf_size <? u64 (e_phoff m elf + e_phnum m elf * ELF32_PHDR_SIZE) then VM_LOAD_ERR_TRUNCATED else
  VM_LOAD_OK.

(** ** Placement *)

Definition set_regions (c : VmCpu) (rs : list VmRegion) (l2 : VmRegion) : VmCpu :=
  mkCpu (regs c) (pc c) rs l2 (trap_cause c) (trap_pc c) (trap_addr c)
    (trap_insn c) (halted c) (in_critical c) (block_reason c) (block_deadline c)
    (block_child_vm c) (reload_period c) (reload_next_deadline c) (vm_id c)
    (instructions_retired c) (trap_count c) (ecall_count c) (internal0 c).

(** [cpu->regions[i] = r] *)
Definition set_region (c : VmCpu) (i : Z) (r : VmRegion) : VmCpu :=
  set_regions c (<[Z.to_nat i := r]> (regions c)) (l2_shared c).

(** The machine as the loader sees it. *)
Definition machine : Type := mem * SlabAllocator * VmCpu.

Definition apply_pt_load (s : machine) (elf offset filesz memsz vaddr : Z) (cfg : VmLoaderConfig)
    : machine * VmLoadResult :=
  let '(m, a, c) := s in
  let region := vaddr_to_region vaddr in
  if (region =? VM_REGION_CODE) || (region =? VM_REGION_RODATA) then
    let mode := if region =? VM_REGION_CODE then code_backing cfg else rodata_backing cfg in
    match mode with
    | VM_BACKING_XIP =>
        let src := elf + offset in
        if (region =? VM_REGION_CODE) && negb (Z.land src 1 =? 0)
        then (m, a, c, VM_LOAD_ERR_INVALID_ARG)
        else (m, a, set_region c region (mkRegion src filesz false), VM_LOAD_OK)
    | VM_BACKING_COPY_RAM =>
        let '(m, a, dst) := slab_alloc m a filesz in
        if dst =? 0 then (m, a, c, VM_LOAD_ERR_OUT_OF_RAM) else
        let m := memcpy m dst (elf + offset) filesz in
        (m, a, set_region c region (mkRegion dst filesz false), VM_LOAD_OK)
    end
  else
    if region_data_size cfg <? memsz then (m, a, c, VM_LOAD_ERR_DATA_SIZE_TOO_SMALL) else
    let '(m, a, dst) := slab_alloc m a (region_data_size cfg) in
    if dst =? 0 then (m, a, c, VM_LOAD_ERR_OUT_OF_RAM) else
    let m := if 0 <? filesz then memcpy m dst (elf + offset) filesz else m in
    let m := if filesz <? memsz then memset m (dst + filesz) 0 (memsz - filesz) else m in
    (m, a, set_region c region (mkRegion dst (region_data_size cfg) true), VM_LOAD_OK).

Definition loadable (p : Phdr) : bool :=
  (p_type p =? PT_LOAD) && negb ((p_filesz p =? 0) && (p_memsz p =? 0)).

(** The second pass: [n] more segments from [i]. *)
Fixpoint apply_segments (n : nat) (i : Z) (s : machine) (elf phoff : Z) (cfg : VmLoaderConfig)
    : machine * VmLoadResult :=
  match n with
  | O => (s, VM_LOAD_OK)
  | S n =>
      let p := read_phdr s.1.1 (phdr_at elf phoff i) in
      if negb (loadable p) then apply_segments n (i + 1) s elf phoff cfg else
      match apply_pt_load s elf (p_offset p) (p_filesz p) (p_memsz p) (p_vaddr p) cfg with
      | (s, VM_LOAD_OK) => apply_segments n (i + 1) s elf phoff cfg
      | (s, err) => (s, err)
      end
  end.

(** The data region, if no segment provided one. *)
Definition default_data (s : machine) (cfg : VmLoaderConfig) : machine * VmLoadResult :=
  let '(m, a, c) := s in
  if rg_length (nth 2 (regions c) no_region) =? 0 then
    let '(m, a, dst) := slab_alloc m a (region_data_size cfg) in
    if dst =? 0 then (m, a, c, VM_LOAD_ERR_OUT_OF_RAM) else
    let m := memset m dst 0 (region_data_size cfg) in
    (m, a, set_region c VM_REGION_DATA (mkRegion dst (region_data_size cfg) true), VM_LOAD_OK)
  else (m, a, c, VM_LOAD_OK).

(** The shared regions, the entry point and the stack pointer. *)
Definition set_shared (c : VmCpu) (cfg : VmLoaderConfig) : VmCpu :=
  set_regions c
    (<[3%nat := mkRegion (shared_base cfg) (shared_size cfg) (negb (shared_base cfg =? 0))]> (regions c))
    (mkRegion (l2_shared_base cfg) (l2_shared_size cfg) (negb (l2_shared_base cfg =? 0))).

Definition set_start (c : VmCpu) (entry : Z) (cfg : VmLoaderConfig) : VmCpu :=
  let c := set_pc c entry in
  let sp_top := u32 (0x80000000 + region_data_size cfg) in
  set_reg c VM_REG_SP (Z.land sp_top (not32 7)).

Definition vm_load (s : machine) (elf elf_size : Z) (cfg : VmLoaderConfig) : machine * VmLoadResult :=
  if elf =? 0 then (s, VM_LOAD_ERR_INVALID_ARG) else
  if region_data_size cfg =? 0 then (s, VM_LOAD_ERR_INVALID_ARG) else
  let m := s.1.1 in
  match check_header m elf elf_size with
  | VM_LOAD_OK =>
      let entry := e_entry m elf in
      let phoff := e_phoff m elf in
      let phnum := e_phnum m elf in
      match check_segments (Z.to_nat phnum) 0 m elf phoff elf_size with
      | VM_LOAD_OK =>
          match apply_segments (Z.to_nat phnum) 0 s elf phoff cfg with
          | (s, VM_LOAD_OK) =>
              match default_data s cfg with
              | (m, a, c, VM_LOAD_OK) => ((m, a, set_start (set_shared c cfg) entry cfg), VM_LOAD_OK)
              | (s, err) => (s, err)
              end
          | (s, err) => (s, err)
          end
      | err => (s, err)
      end
  | err => (s, err)
  end.

(** ** What an acceptable image is *)

Definition seg_region (p : Phdr) : Z := vaddr_to_region (p_vaddr p).

(** A segment that fits its region, whose bytes are in the file, and that is
    read-only and without zero-fill when its region is. *)
Record seg_ok (elf_size : Z) (p : Phdr) : Prop := {
  so_region : seg_region p <> VM_REGION_SHARED;
  so_fits : p_vaddr p mod 2 ^ 30 + p_memsz p <= 2 ^ 30;
  so_sizes : p_filesz p <= p_memsz p;
  so_file : 0 < p_filesz p -> p_offset p + p_filesz p <= elf_size;
  so_readonly : seg_region p < VM_REGION_DATA -> Z.testbit (p_flags p) 1 = false /\ p_memsz p = p_filesz p
}.

Definition phdr_ok (elf_size : Z) (p : Phdr) : Prop :=
  p_type p <> PT_DYNAMIC /\ p_type p <> PT_INTERP /\ (loadable p = true -> seg_ok elf_size p).

Record header_ok (m : mem) (elf elf_size : Z) : Prop := {
  ho_size : ELF32_EHDR_SIZE <= elf_size;
  ho_magic : mem_read m elf 4 = ELFMAG;
  ho_ident : m (elf + 4) = ELFCLASS32 /\ m (elf + 5) = ELFDATA2LSB /\ m (elf + 6) = EV_CURRENT;
  ho_kind : e_machine m elf = EM_RISCV /\ e_type m elf = ET_EXEC /\ e_version m elf = EV_CURRENT;
  ho_entry : e_entry m elf < 2 ^ 30 /\ e_entry m elf mod 2 = 0;
  ho_phentsz : e_phentsz m elf = ELF32_PHDR_SIZE;
  ho_phnum : 0 < e_phnum m elf;
  ho_phdrs : e_phoff m elf + e_phnum m elf * ELF32_PHDR_SIZE <= elf_size
}.

(** The program headers, in order. *)
Definition phdrs (m : mem) (elf : Z) : list Phdr :=
  map (fun i => read_phdr m (elf + e_phoff m elf + Z.of_nat i * ELF32_PHDR_SIZE))
    (seq 0 (Z.to_nat (e_phnum m elf))).

Record elf_ok (m : mem) (elf elf_size : Z) : Prop := {
  eo_header : header_ok m elf elf_size;
  eo_phdrs : Forall (phdr_ok elf_size) (phdrs m elf)
}.

(** What an error says of a segment, and of the file header. *)
Definition seg_fault (elf_size : Z) (p : Phdr) (r : VmLoadResult) : Prop :=
  match r with
  | VM_LOAD_ERR_DYNAMIC_FORBIDDEN => p_type p = PT_DYNAMIC
  | VM_LOAD_ERR_INTERP_FORBIDDEN => p_type p = PT_INTERP
  | VM_LOAD_ERR_TRUNCATED => loadable p = true /\ 0 < p_filesz p /\ elf_size < p_offset p + p_filesz p
  | VM_LOAD_ERR_SEG_OUT_OF_RANGE =>
      loadable p = true /\ (seg_region p = VM_REGION_SHARED \/ p_memsz p < p_filesz p)
  | VM_LOAD_ERR_SEG_TOO_LARGE => loadable p = true /\ 2 ^ 30 < p_vaddr p mod 2 ^ 30 + p_memsz p
  | VM_LOAD_ERR_SEG_REGION_MISMATCH =>
      loadable p = true /\ seg_region p < VM_REGION_DATA /\ Z.testbit (p_flags p) 1 = true
  | VM_LOAD_ERR_SEG_BSS_IN_RO =>
      loadable p = true /\ seg_region p < VM_REGION_DATA /\ p_filesz p < p_memsz p
  | _ => False
  end.

Definition header_fault (m : mem) (elf elf_size : Z) (r : VmLoadResult) : Prop :=
  match r with
  | VM_LOAD_ERR_TRUNCATED =>
      elf_size < ELF32_EHDR_SIZE \/ elf_size < e_phoff m elf + e_phnum m elf * ELF32_PHDR_SIZE
  | VM_LOAD_ERR_BAD_MAGIC => mem_read m elf 4 <> ELFMAG
  | VM_LOAD_ERR_NOT_RV32 => m (elf + 4) <> ELFCLASS32
  | VM_LOAD_ERR_NOT_LITTLE_ENDIAN => m (elf + 5) <> ELFDATA2LSB
  | VM_LOAD_ERR_BAD_VERSION => m (elf + 6) <> EV_CURRENT \/ e_version m elf <> EV_CURRENT
  | VM_LOAD_ERR_NOT_RISCV => e_machine m elf <> EM_RISCV
  | VM_LOAD_ERR_NOT_EXECUTABLE => e_type m elf <> ET_EXEC
  | VM_LOAD_ERR_BAD_ENTRY => 2 ^ 30 <= e_entry m elf \/ e_entry m elf mod 2 <> 0
  | VM_LOAD_ERR_INVALID_ARG => e_phentsz m elf <> ELF32_PHDR_SIZE \/ e_phnum m elf = 0
  | _ => False
  end.

Definition image_fault (m : mem) (elf elf_size : Z) (r : VmLoadResult) : Prop :=
  header_fault m elf elf_size r \/ Exists (fun p => seg_fault elf_size p r) (phdrs m elf).

(** ** Validation decides acceptance *)

Record phdr_u32 (p : Phdr) : Prop := {
  pu_offset : is_u32 (p_offset p);
  pu_vaddr : is_u32 (p_vaddr p);
  pu_filesz : is_u32 (p_filesz p);
  pu_memsz : is_u32 (p_memsz p);
  pu_flags : is_u32 (p_flags p)
}.

Lemma read_phdr_u32 m ph : mem_ok m -> phdr_u32 (read_phdr m ph).
Proof. intros Hm. split; by apply load32_range. Qed.

Lemma vaddr_to_region_div v : vaddr_to_region v = v / 2 ^ 30.
Proof. unfold vaddr_to_region. by rewrite Z.shiftr_div_pow2. Qed.

Lemma vaddr_to_region_range v : is_u32 v -> 0 <= vaddr_to_region v <= 3.
Proof. rewrite vaddr_to_region_div. zlia. Qed.

Lemma writable_bit f : (Z.land f PF_W =? 0) = negb (Z.testbit f 1).
Proof.
  unfold PF_W. change 2 with (2 ^ 1). destruct (Z.testbit f 1) eqn:E; cbn [negb].
  - apply Z.eqb_neq. intros H0. assert (Z.testbit (Z.land f (2 ^ 1)) 1 = true) as Ht
      by (rewrite Z.land_spec, E; done). by rewrite H0 in Ht.
  - apply Z.eqb_eq, Z.bits_inj'. intros i Hi. rewrite Z.land_spec, Z.bits_0, Z.pow2_bits_eqb by lia.
    destruct (Z.eqb_spec 1 i) as [<-|]; [by rewrite E|apply andb_false_r].
Qed.

Lemma check_segment_cases size p : phdr_u32 p ->
  match check_segment size p with
  | VM_LOAD_OK => phdr_ok size p
  | r => seg_fault size p r
  end.
Proof.
  intros [Ho Hv Hf Hm Hfl]. pose proof (vaddr_to_region_range _ Hv) as Hr.
  unfold check_segment, phdr_ok, loadable. unfold PT_LOAD, PT_DYNAMIC, PT_INTERP.
  destruct (Z.eqb_spec (p_type p) 2); [done|]. destruct (Z.eqb_spec (p_type p) 3); [done|].
  destruct (p_type p =? 1) eqn:Et; cbn [negb andb]; [|done].
  destruct ((p_filesz p =? 0) && (p_memsz p =? 0)) eqn:Ee; cbn [negb]; [done|].
  rewrite (u64_small (p_offset p + p_filesz p)) by (umach; lia).
  destruct ((0 <? p_filesz p) && (size <? p_offset p + p_filesz p)) eqn:Etr.
  { cbn. unfold loadable, PT_LOAD. rewrite Et, Ee. apply andb_true_iff in Etr. split; [done|]. lia. }
  assert (loadable p = true) as Hl by (unfold loadable, PT_LOAD; by rewrite Et, Ee).
  unfold validate_pt_load. fold (seg_region p) in *.
  change 0x3FFFFFFF with (2 ^ 30 - 1). change 0x40000000 with (2 ^ 30). rewrite land_pow2_ones by lia.
  unfold VM_REGION_SHARED, VM_REGION_CODE, VM_REGION_RODATA.
  destruct (Z.eqb_spec (seg_region p) 3); [by cbn; auto|].
  pose proof (Z.mod_pos_bound (p_vaddr p) (2 ^ 30) ltac:(lia)).
  destruct (Z.ltb_spec (2 ^ 30) (p_memsz p)); cbn [orb]; [cbn; split; [done|lia]|].
  rewrite u32_small by (umach; lia).
  destruct (Z.ltb_spec (2 ^ 30 - p_memsz p) (p_vaddr p mod 2 ^ 30)); [cbn; split; [done|lia]|].
  destruct (Z.ltb_spec (p_memsz p) (p_filesz p)); [by cbn; auto|].
  assert (0 < p_filesz p -> p_offset p + p_filesz p <= size) as Hfile
    by (intros; apply andb_false_iff in Etr; lia).
  rewrite writable_bit, negb_involutive.
  destruct (Z.eqb_spec (seg_region p) 0) as [E0|E0], (Z.eqb_spec (seg_region p) 1) as [E1|E1]; cbn [orb];
    try (destruct (Z.testbit (p_flags p) 1) eqn:Eb; [by cbn; unfold VM_REGION_DATA; split_and!; lia || done|];
      destruct (Z.ltb_spec (p_filesz p) (p_memsz p)); [by cbn; unfold VM_REGION_DATA; split_and!; lia || done|]);
    (split_and!; [done|done|]; intros _; split; unfold VM_REGION_SHARED, VM_REGION_DATA; try lia; try done);
    intros; split; lia || done.
Qed.

Lemma e_fields_range m elf : mem_ok m ->
  is_u32 (e_entry m elf) /\ is_u32 (e_phoff m elf) /\ is_u16 (e_phnum m elf).
Proof. intros Hm. split_and!; try apply load32_range; by try apply load16_range. Qed.

Lemma check_header_cases m elf size : mem_ok m ->
  match check_header m elf size with
  | VM_LOAD_OK => header_ok m elf size
  | r => header_fault m elf size r
  end.
Proof.
  intros Hm. destruct (e_fields_range m elf Hm) as (He & Hp & Hn). unfold check_header.
  destruct (Z.ltb_spec size ELF32_EHDR_SIZE); [by left|].
  destruct (bool_decide _) eqn:Emag; cbn [negb]; [apply bool_decide_eq_true in Emag|by apply bool_decide_eq_false in Emag].
  destruct (Z.eqb_spec (m (elf + 4)) ELFCLASS32); cbn [negb]; [|done].
  destruct (Z.eqb_spec (m (elf + 5)) ELFDATA2LSB); cbn [negb]; [|done].
  destruct (Z.eqb_spec (m (elf + 6)) EV_CURRENT); cbn [negb]; [|by left].
  destruct (Z.eqb_spec (e_machine m elf) EM_RISCV); cbn [negb]; [|done].
  destruct (Z.eqb_spec (e_type m elf) ET_EXEC); cbn [negb]; [|done].
  destruct (Z.eqb_spec (e_version m elf) EV_CURRENT); cbn [negb]; [|by right].
  destruct (Z.eqb_spec (e_phentsz m elf) ELF32_PHDR_SIZE); cbn [negb]; [|by left].
  rewrite vaddr_to_region_div. change 1 with (2 ^ 1 - 1). rewrite land_pow2_ones by lia.
  assert (e_entry m elf / 2 ^ 30 = 0 <-> e_entry m elf < 2 ^ 30) as Hdiv by zlia.
  destruct (Z.eqb_spec (e_entry m elf / 2 ^ 30) VM_REGION_CODE) as [E|E]; unfold VM_REGION_CODE in E;
    cbn [negb]; [|left; lia].
  destruct (Z.eqb_spec (e_entry m elf mod 2 ^ 1) 0); cbn [negb]; [|by right].
  destruct (Z.eqb_spec (e_phnum m elf) 0); [by right|].
  rewrite u64_small by (unfold ELF32_PHDR_SIZE; umach; lia).
  destruct (Z.ltb_spec size (e_phoff m elf + e_phnum m elf * ELF32_PHDR_SIZE)); [by right|].
  split; try done; try (umach; lia). split; [by apply Hdiv|done].
Qed.

(** The table entry the loop reads is the one in the list. *)
Lemma phdr_at_u16 elf phoff i : 0 <= i < 0x10000 -> phdr_at elf phoff i = elf + phoff + i * ELF32_PHDR_SIZE.
Proof. intros Hi. unfold phdr_at. rewrite u32_small; [done|]. unfold ELF32_PHDR_SIZE. umach. lia. Qed.

Definition phdrs_from (m : mem) (elf i : Z) (n : nat) : list Phdr :=
  map (fun k => read_phdr m (elf + e_phoff m elf + (i + Z.of_nat k) * ELF32_PHDR_SIZE)) (seq 0 n).

Lemma phdrs_from_S m elf i n :
  phdrs_from m elf i (S n) = read_phdr m (elf + e_phoff m elf + i * ELF32_PHDR_SIZE) :: phdrs_from m elf (i + 1) n.
Proof.
  unfold phdrs_from. rewrite <-cons_seq, <-seq_shift. cbn [map]. rewrite Z.add_0_r. f_equal.
  rewrite map_map. apply map_ext. intros k. do 2 f_equal. lia.
Qed.

Lemma phdrs_from_0 m elf : phdrs m elf = phdrs_from m elf 0 (Z.to_nat (e_phnum m elf)).
Proof. done. Qed.

Lemma check_segments_cases m elf size : mem_ok m -> forall n i, 0 <= i -> i + Z.of_nat n <= 0x10000 ->
  match check_segments n i m elf (e_phoff m elf) size with
  | VM_LOAD_OK => Forall (phdr_ok size) (phdrs_from m elf i n)
  | r => Exists (fun p => seg_fault size p r) (phdrs_from m elf i n)
  end.
Proof.
  intros Hm. induction n as [|n IH]; intros i Hi Hn; cbn [check_segments]; [constructor|].
  rewrite phdrs_from_S, phdr_at_u16 by lia.
  pose proof (check_segment_cases size _ (read_phdr_u32 m (elf + e_phoff m elf + i * ELF32_PHDR_SIZE) Hm)) as Hc.
  specialize (IH (i + 1) ltac:(lia) ltac:(lia)).
  destruct (check_segment size _); try (apply Exists_cons_hd; exact Hc).
  destruct (check_segments n (i + 1) _ _ _ _); try (apply Exists_cons_tl; exact IH).
  apply Forall_cons. by split.
Qed.

(** A fault and acceptance exclude each other. *)
Lemma seg_fault_not_ok size p r : seg_fault size p r -> ~ phdr_ok size p.
Proof.
  intros Hf (Hd & Hi & Hok). destruct r; cbn [seg_fault] in Hf; try done.
  all: destruct Hf as [Hl Hf]; destruct (Hok Hl) as [H1 H2 H3 H4 H5].
  - lia.
  - destruct Hf; [done|lia].
  - destruct Hf as [Hr Hb]. destruct (H5 Hr) as [H6 _]. by rewrite Hb in H6.
  - destruct Hf as [Hr Hb]. destruct (H5 Hr). lia.
  - lia.
Qed.

Lemma header_fault_not_ok m elf size r : header_fault m elf size r -> ~ header_ok m elf size.
Proof.
  intros Hf [H1 H2 (H3 & H4 & H5) (H6 & H7 & H8) [H9 H10] H11 H12 H13].
  destruct r; cbn [header_fault] in Hf; try exact (Hf ltac:(assumption)); try exact Hf;
    destruct Hf as [Hf|Hf]; try exact (Hf ltac:(assumption)); lia.
Qed.

Lemma image_fault_not_ok m elf size r : image_fault m elf size r -> ~ elf_ok m elf size.
Proof.
  intros [Hf|Hf] [Hh Hs]; [by eapply header_fault_not_ok|].
  apply Exists_exists in Hf as (p & Hp & Hf). rewrite Forall_forall in Hs.
  by apply (seg_fault_not_ok _ _ _ Hf), Hs.
Qed.

(** Everything the loader does before it touches anything. *)
Lemma validation_cases (s : machine) elf size cfg : mem_ok s.1.1 -> elf <> 0 -> region_data_size cfg <> 0 ->
  elf_ok s.1.1 elf size /\
    vm_load s elf size cfg =
      match apply_segments (Z.to_nat (e_phnum s.1.1 elf)) 0 s elf (e_phoff s.1.1 elf) cfg with
      | (s', VM_LOAD_OK) =>
          match default_data s' cfg with
          | (m, a, c, VM_LOAD_OK) => ((m, a, set_start (set_shared c cfg) (e_entry s.1.1 elf) cfg), VM_LOAD_OK)
          | (s', err) => (s', err)
          end
      | (s', err) => (s', err)
      end \/
  exists r, r <> VM_LOAD_OK /\ vm_load s elf size cfg = (s, r) /\ image_fault s.1.1 elf size r.
Proof.
  intros Hm He Hd. unfold vm_load. rewrite (proj2 (Z.eqb_neq _ _) He), (proj2 (Z.eqb_neq _ _) Hd).
  set (m := s.1.1) in *. pose proof (check_header_cases m elf size Hm) as Hh.
  destruct (check_header m elf size) eqn:Eh; try (right; eexists; split; [|split; [reflexivity|by left]]; done).
  pose proof (e_fields_range m elf Hm) as (_ & _ & Hn).
  pose proof (check_segments_cases m elf size Hm (Z.to_nat (e_phnum m elf)) 0 ltac:(lia) ltac:(umach; lia)) as Hs.
  rewrite <-phdrs_from_0 in Hs.
  destruct (check_segments _ 0 m elf _ size) eqn:Es;
    try (right; eexists; split; [|split; [reflexivity|by right]]; done).
  left. split; [by split|done].
Qed.

(** ** Properties *)

(** C21. An image that is not an acceptable RV32 executable is refused before anything
    is touched: memory, arena and CPU are as they were, and the error names a fault
    that the image has (in its file header, its program header table, or one of its
    segments). *)
Theorem vm_load_refuses (s : machine) elf size cfg :
  mem_ok s.1.1 -> elf <> 0 -> region_data_size cfg <> 0 -> ~ elf_ok s.1.1 elf size ->
  exists r, vm_load s elf size cfg = (s, r) /\ r <> VM_LOAD_OK /\ image_fault s.1.1 elf size r.
Proof.
  intros Hm He Hd Hn. destruct (validation_cases s elf size cfg Hm He Hd) as [[Hok _]|(r & Hr & E & Hf)]; [done|].
  by exists r.
Qed.

(** ** A small image *)

Definition demo_code : list Z :=
  le_bytes 4 0x00700293 ++ le_bytes 2 0x0285 ++ le_bytes 4 0x80000337 ++
  le_bytes 4 0x00532223 ++ le_bytes 4 0x00000073.

(** A program header of a loadable segment. *)
Definition demo_phdr (offset vaddr filesz memsz flags : Z) : list Z :=
  concat (map (le_bytes 4) [PT_LOAD; offset; vaddr; vaddr; filesz; memsz; flags; 4]).

(** Eighteen bytes of code, and four of data with four zeros to be put at [data]. *)
Definition demo_elf (kind data : Z) : list Z :=
  ELFMAG ++ [ELFCLASS32; ELFDATA2LSB; EV_CURRENT] ++ replicate 9 0 ++
  le_bytes 2 kind ++ le_bytes 2 EM_RISCV ++ le_bytes 4 EV_CURRENT ++ le_bytes 4 0 ++ le_bytes 4 52 ++
  replicate 10 0 ++ le_bytes 2 ELF32_PHDR_SIZE ++ le_bytes 2 2 ++ replicate 6 0 ++
  demo_phdr 116 0 18 18 5 ++ demo_phdr 134 data 4 8 6 ++ demo_code ++ [1; 2; 3; 4].

Definition demo_image_mem (kind data : Z) : mem := mem_write (fun _ => 0) 0x9000 (demo_elf kind data).

Lemma demo_image_ok kind data : mem_ok (demo_image_mem kind data).
Proof.
  apply mem_write_ok; [by intros x|]. unfold demo_elf, demo_phdr, demo_code, ELFMAG.
  repeat (apply Forall_app; split); try apply le_bytes_Forall; try (by apply Forall_replicate);
    try (cbn [map concat]; repeat (apply Forall_app; split); try apply le_bytes_Forall);
    by repeat constructor.
Qed.

Definition demo_cfg_load : VmLoaderConfig := mkLoaderConfig VM_BACKING_XIP VM_BACKING_XIP 24 0 0 0 0.

(** A relocatable object is not an executable. *)
Lemma vm_load_refuses_witness :
  let s := (demo_image_mem 1 0x80000000, slab_zero, vm_init 3) in
  exists r, vm_load s 0x9000 138 demo_cfg_load = (s, r) /\ r <> VM_LOAD_OK /\ image_fault s.1.1 0x9000 138 r.
Proof.
  apply (vm_load_refuses (demo_image_mem 1 0x80000000, slab_zero, vm_init 3)); [apply demo_image_ok|done|done|].
  intros [Hh _]. destruct (ho_kind _ _ _ Hh) as (_ & Ht & _). revert Ht. by vm_compute.
Defined.
