(* ===== verification/VmPlace.v ===== *)
(** What a load sets up ([src/vm/vm_loader.c], second pass): every region holds the
    bytes of its segment, in the image itself or in a fresh block of the arena, and
    the rest of the arena is untouched. *)
From S2P Require Import Prelude HostMem SlabStack SlabInv SlabInit VmCpu VmSafety VmLoader.

(** ** The arena, to those who hold blocks of it *)

(** Every block that was live still is, with its bytes; nothing outside the arena's
    region changed. *)
Record arena_kept (m : mem) (a : SlabAllocator) (m' : mem) (a' : SlabAllocator) : Prop := {
  ak_inv : slab_inv m' a';
  ak_region : region a' = region a /\ region_bytes a' = region_bytes a;
  ak_frame : mem_frame (region a) (region_bytes a) m m';
  ak_live q t : live m a q t -> live m' a' q t /\ mem_agree (rng q t) m m';
  ak_ok : mem_ok m -> mem_ok m'
}.

Lemma arena_kept_refl m a : slab_inv m a -> arena_kept m a m a.
Proof. by split. Qed.

Lemma arena_kept_trans m1 a1 m2 a2 m3 a3 :
  arena_kept m1 a1 m2 a2 -> arena_kept m2 a2 m3 a3 -> arena_kept m1 a1 m3 a3.
Proof.
  intros [I2 [R2 B2] F2 L2 O2] [I3 [R3 B3] F3 L3 O3]. split; try done.
  - split; congruence.
  - rewrite R2, B2 in F3. by transitivity m2.
  - intros q t Hq. destruct (L2 q t Hq) as [Hq2 A2]. destruct (L3 q t Hq2) as [Hq3 A3].
    split; [done|]. by transitivity m2.
  - auto.
Qed.

Lemma slab_alloc_mem_ok m a n : mem_ok m -> mem_ok (slab_alloc m a n).1.1.
Proof.
  intros Hm. unfold slab_alloc. repeat case_match; cbn; try done. all: by apply store32_ok.
Qed.

(** Taking a block and writing what was asked for. *)
Lemma take_block m a n : slab_inv m a -> 0 < n -> n + SLAB_HEADER_SIZE <= 0x100000000 ->
  let '(m1, a1, p) := slab_alloc m a n in
  if decide (p = 0) then arena_kept m a m1 a1 else
  (forall t, ~ live m a p t) /\ mem_frame (region a) (region_bytes a) m m1 /\
  forall m2, mem_frame p n m1 m2 -> (mem_ok m1 -> mem_ok m2) ->
    arena_kept m a m2 a1 /\ exists s, n <= s /\ live m2 a1 p s.
Proof.
  intros I Hn Hn2. pose proof (slab_alloc_mem_ok m a n) as Hok.
  destruct (alloc_cases m a n I Hn Hn2) as [[E _]|(m1 & a1 & p & s & E & I1 & Hp & _ & A)]; rewrite E in *.
  - rewrite decide_True by done. split; try done. by apply count_failure_inv.
  - rewrite decide_False by done. pose proof (alloc_effect_frame _ _ _ _ _ _ _ I1 A) as Hfr.
    pose proof (ae_size _ _ _ _ _ _ _ A) as Hs. unfold SLAB_HEADER_SIZE in Hs.
    assert (live m1 a1 p s) as Hl by (apply (ae_live _ _ _ _ _ _ _ A); by right).
    destruct (ae_region _ _ _ _ _ _ _ A) as [Hr Hb].
    split; [exact (ae_fresh _ _ _ _ _ _ _ A)|]. split; [done|]. intros m2 Hm2 Hok2.
    assert (mem_frame p s m1 m2) as Hm2s by (eapply mem_frame_mono; [| |exact Hm2]; lia).
    destruct (slab_inv_client m1 m2 a1 p s I1 Hl Hm2s) as [I2 Hl2].
    pose proof (live_inside _ _ _ _ I1 Hl) as Hin. unfold SLAB_HEADER_SIZE in Hin. rewrite Hr, Hb in Hin.
    split; [|exists s; split; [lia|by apply Hl2]]. split; try done; [| |auto].
    + transitivity m1; [done|]. eapply mem_frame_mono; [| |exact Hm2]; lia.
    + intros q t Hq. destruct (alloc_keeps_payloads _ _ _ _ _ _ _ _ _ I1 A Hq) as (Hag & Hd & _).
      split; [apply Hl2, (ae_live _ _ _ _ _ _ _ A); by left|]. transitivity m1; [done|].
      by apply (frame_agree p s).
Qed.

(** ** What a region holds *)

(** The segment that decides region [k]: the last one aimed at it. *)
Definition seg_for (k : Z) (ps : list Phdr) : option Phdr :=
  last (filter (fun p => loadable p = true /\ seg_region p = k) ps).

Lemma seg_for_snoc k ps p :
  seg_for k (ps ++ [p]) = if decide (loadable p = true /\ seg_region p = k) then Some p else seg_for k ps.
Proof.
  unfold seg_for. rewrite filter_app, filter_cons, filter_nil. case_decide; [apply last_snoc|by rewrite app_nil_r].
Qed.

Lemma seg_for_Some k ps p : seg_for k ps = Some p -> p ∈ ps /\ loadable p = true /\ seg_region p = k.
Proof.
  intros Hs. assert (p ∈ filter (fun p => loadable p = true /\ seg_region p = k) ps) as Hin.
  { apply last_Some in Hs as [l E]. rewrite E. apply elem_of_app. right. by apply list_elem_of_singleton. }
  apply list_elem_of_filter in Hin. tauto.
Qed.

Section placement.
Context (m0 : mem) (a0 : SlabAllocator) (c0 : VmCpu) (elf size : Z) (cfg : VmLoaderConfig).
Hypothesis arena0 : slab_inv m0 a0.
Hypothesis mem0 : mem_ok m0.
Hypothesis image_outside : rdisj elf size (region a0) (region_bytes a0).
Hypothesis data_size_pos : 0 < region_data_size cfg.
Hypothesis data_size_fits : region_data_size cfg + SLAB_HEADER_SIZE <= 0x100000000.

(** The segment stays where it is in the image. *)
Definition in_place (p : Phdr) : bool :=
  if seg_region p =? VM_REGION_CODE then bool_decide (code_backing cfg = VM_BACKING_XIP)
  else if seg_region p =? VM_REGION_RODATA then bool_decide (rodata_backing cfg = VM_BACKING_XIP)
  else false.

(** Its bytes in the file, then zeros up to its size in memory. *)
Definition segment_bytes (p : Phdr) : list Z :=
  mem_read m0 (elf + p_offset p) (p_filesz p) ++ replicate (Z.to_nat (p_memsz p - p_filesz p)) 0.

(** A block of the arena that was not live before the load. *)
Definition own_block (m : mem) (a : SlabAllocator) (r : VmRegion) : Prop :=
  (forall t, ~ live m0 a0 (rg_base r) t) /\ exists s, live m a (rg_base r) s /\ rg_length r <= s.

(** Region [r] holds segment [p], in the way the code places it: from the start of the
    region on, whatever offset in the region the segment is linked at.  What that means
    for the image is [image_visible]. *)
Record mapped (m : mem) (a : SlabAllocator) (p : Phdr) (r : VmRegion) : Prop := {
  mp_bytes : mem_read m (rg_base r) (p_memsz p) = segment_bytes p;
  mp_writable : rg_writable r = (seg_region p =? VM_REGION_DATA);
  mp_length : rg_length r = if seg_region p =? VM_REGION_DATA then region_data_size cfg else p_filesz p;
  mp_memsz : p_memsz p <= rg_length r;
  mp_place : if in_place p
             then rg_base r = elf + p_offset p /\ (seg_region p = VM_REGION_CODE -> rg_base r mod 2 = 0)
             else own_block m a r
}.

(** The load in progress, with the headers done. *)
Record loading (s : machine) (done : list Phdr) : Prop := {
  ld_arena : arena_kept m0 a0 s.1.1 s.1.2;
  ld_cpu : s.2 = set_regions c0 (regions s.2) (l2_shared c0);
  ld_len : length (regions s.2) = VM_REGION_COUNT;
  ld_done : Forall (fun p => phdr_ok size p /\ phdr_u32 p) done;
  ld_segs k : 0 <= k < 3 ->
    match seg_for k done with
    | Some p => exists r, regions s.2 !! Z.to_nat k = Some r /\ mapped s.1.1 s.1.2 p r
    | None => regions s.2 !! Z.to_nat k = Some no_region
    end;
  ld_apart i j r q s1 s2 : (i < 3)%nat -> (j < 3)%nat -> i <> j ->
    regions s.2 !! i = Some r -> regions s.2 !! j = Some q ->
    live s.1.1 s.1.2 (rg_base r) s1 -> live s.1.1 s.1.2 (rg_base q) s2 -> rg_base r <> rg_base q
}.

(** The image is not touched. *)
Lemma image_kept m a : arena_kept m0 a0 m a -> mem_agree (rng elf size) m0 m.
Proof. intros K x Hx. apply (ak_frame _ _ _ _ K). unfold rng, rdisj in *. lia. Qed.

Lemma image_not_live m a x s : arena_kept m0 a0 m a -> rng elf size x -> ~ live m a x s.
Proof.
  intros K Hx Hl. pose proof (live_inside _ _ _ _ (ak_inv _ _ _ _ K) Hl) as Hin.
  destruct (ak_region _ _ _ _ K) as [Hr Hb]. rewrite Hr, Hb in Hin.
  unfold SLAB_HEADER_SIZE, rng, rdisj in *. lia.
Qed.

Lemma in_place_readonly p : in_place p = true -> seg_region p = VM_REGION_CODE \/ seg_region p = VM_REGION_RODATA.
Proof.
  unfold in_place. destruct (Z.eqb_spec (seg_region p) VM_REGION_CODE); [by left|].
  destruct (Z.eqb_spec (seg_region p) VM_REGION_RODATA); [by right|done].
Qed.

Lemma file_range p : seg_ok size p -> phdr_u32 p -> 0 < p_filesz p -> forall x,
  rng (elf + p_offset p) (p_filesz p) x -> rng elf size x.
Proof. intros [] [] Hf x. unfold rng. umach. lia. Qed.

Lemma readonly_sizes p : seg_ok size p -> phdr_u32 p -> loadable p = true -> seg_region p < VM_REGION_DATA ->
  p_memsz p = p_filesz p /\ 0 < p_filesz p.
Proof.
  intros Hok Hu Hl Hr. destruct (so_readonly _ _ Hok Hr) as [_ Hz]. split; [done|].
  unfold loadable in Hl. destruct Hu. umach. lia.
Qed.

Lemma in_place_sizes p : seg_ok size p -> phdr_u32 p -> loadable p = true -> in_place p = true ->
  p_memsz p = p_filesz p /\ 0 < p_filesz p /\ rng elf size (elf + p_offset p).
Proof.
  intros Hok Hu Hl Hin. destruct (readonly_sizes p Hok Hu Hl) as [Hz Hf].
  { destruct (in_place_readonly p Hin) as [->| ->]; done. }
  split_and!; [done..|]. apply (file_range p Hok Hu Hf). unfold rng. lia.
Qed.

Lemma mapped_kept m a m' a' p r : arena_kept m0 a0 m a -> seg_ok size p -> phdr_u32 p -> loadable p = true ->
  mapped m a p r -> arena_kept m a m' a' -> mapped m' a' p r.
Proof.
  intros K0 Hok Hu Hl [H1 H2 H3 H4 H5] K. pose proof (arena_kept_trans _ _ _ _ _ _ K0 K) as K0'.
  split; [|exact H2|exact H3|exact H4|].
  - rewrite <-H1. symmetry. apply mem_read_agree. destruct (in_place p) eqn:Ein.
    + destruct H5 as [-> _]. destruct (in_place_sizes p Hok Hu Hl Ein) as (-> & _ & _).
      assert (mem_agree (rng elf size) m m') as Hag.
      { transitivity m0; [symmetry; by apply (image_kept m a)|by apply (image_kept m' a')]. }
      eapply mem_agree_mono; [|exact Hag]. intros x Hx. apply (file_range p); try done. unfold rng in Hx. lia.
    + destruct H5 as (_ & s & Hs & Hle). destruct (ak_live _ _ _ _ K _ _ Hs) as [_ Hag].
      eapply mem_agree_mono; [|exact Hag]. intros x. unfold rng. lia.
  - destruct (in_place p); [done|]. destruct H5 as (Hf & s & Hs & Hle). split; [done|]. exists s.
    split; [|done]. by apply (ak_live _ _ _ _ K).
Qed.

Lemma seg_region_range p : phdr_ok size p -> phdr_u32 p -> loadable p = true -> 0 <= seg_region p < 3.
Proof.
  intros (_ & _ & Hok) [_ Hv _ _ _] Hl. destruct (Hok Hl) as [Hr _ _ _ _].
  pose proof (vaddr_to_region_range _ Hv). unfold seg_region, VM_REGION_SHARED in *. lia.
Qed.

Lemma done_seg s done k p : loading s done -> seg_for k done = Some p ->
  seg_ok size p /\ phdr_u32 p /\ loadable p = true /\ seg_region p = k.
Proof.
  intros [_ _ _ Hd _ _] (Hp & Hl & Hk)%seg_for_Some. rewrite Forall_forall in Hd.
  destruct (Hd p Hp) as [(_ & _ & Hok) Hu]. split_and!; auto.
Qed.

(** The regions outlive changes of the rest of the arena. *)
Lemma segs_kept s done m' a' k : loading s done -> arena_kept s.1.1 s.1.2 m' a' -> 0 <= k < 3 ->
  match seg_for k done with
  | Some p => exists r, regions s.2 !! Z.to_nat k = Some r /\ mapped m' a' p r
  | None => regions s.2 !! Z.to_nat k = Some no_region
  end.
Proof.
  intros L K Hk. pose proof (ld_segs _ _ L k Hk) as Hs. destruct (seg_for k done) as [p|] eqn:E; [|done].
  destruct Hs as (r & Hr & Hm). exists r. split; [done|]. destruct (done_seg _ _ _ _ L E) as (Hok & Hu & Hl & _).
  by apply (mapped_kept s.1.1 s.1.2); [apply L|..].
Qed.

(** A region's block is not a new one. *)
Lemma region_live_before s done m' a' i r t : loading s done -> arena_kept s.1.1 s.1.2 m' a' -> (i < 3)%nat ->
  regions s.2 !! i = Some r -> live m' a' (rg_base r) t -> exists t', live s.1.1 s.1.2 (rg_base r) t'.
Proof.
  intros L K Hi Hr Ht. pose proof (ld_segs _ _ L (Z.of_nat i) ltac:(lia)) as Hs. rewrite Nat2Z.id in Hs.
  destruct (seg_for (Z.of_nat i) done) as [p|] eqn:E.
  - destruct Hs as (r' & Hr' & [_ _ _ Hms Hpl]). rewrite Hr in Hr'. injection Hr' as <-.
    destruct (done_seg _ _ _ _ L E) as (Hok & Hu & Hl & _). destruct (in_place p) eqn:Ein.
    + exfalso. destruct Hpl as [Hb _]. refine (image_not_live m' a' _ _ _ _ Ht).
      * by eapply arena_kept_trans; [apply L|].
      * rewrite Hb. by apply in_place_sizes.
    + destruct Hpl as (_ & s' & Hs' & _). by exists s'.
  - rewrite Hr in Hs. injection Hs as ->. pose proof (live_inside _ _ _ _ (ak_inv _ _ _ _ K) Ht). cbn in *. lia.
Qed.

Lemma region_set c k r i : length (regions c) = VM_REGION_COUNT -> 0 <= k < 4 ->
  regions (set_region c k r) !! i = if decide (i = Z.to_nat k) then Some r else regions c !! i.
Proof.
  intros Hl Hk. cbn. case_decide as E; [subst; by rewrite list_lookup_insert_eq by (unfold VM_REGION_COUNT in Hl; lia)|].
  by rewrite list_lookup_insert_ne by done.
Qed.

(** A region set to a block that was not live: the table stays apart. *)
Lemma apart_set s done m' a' k r : loading s done -> arena_kept s.1.1 s.1.2 m' a' -> 0 <= k < 3 ->
  (forall t, ~ live s.1.1 s.1.2 (rg_base r) t) ->
  forall i j r1 r2 s1 s2, (i < 3)%nat -> (j < 3)%nat -> i <> j ->
    regions (set_region s.2 k r) !! i = Some r1 -> regions (set_region s.2 k r) !! j = Some r2 ->
    live m' a' (rg_base r1) s1 -> live m' a' (rg_base r2) s2 -> rg_base r1 <> rg_base r2.
Proof.
  intros L K Hk Hfr i j r1 r2 s1 s2 Hi Hj Hij H1 H2 Hl1 Hl2 Heq.
  rewrite region_set in H1, H2 by (apply L || lia).
  destruct (decide (i = Z.to_nat k)) as [->|], (decide (j = Z.to_nat k)) as [->|]; [done|..].
  - injection H1 as <-. destruct (region_live_before _ _ _ _ _ _ _ L K Hj H2 Hl2) as [t Ht].
    rewrite <-Heq in Ht. by apply (Hfr t).
  - injection H2 as <-. destruct (region_live_before _ _ _ _ _ _ _ L K Hi H1 Hl1) as [t Ht].
    rewrite Heq in Ht. by apply (Hfr t).
  - destruct (region_live_before _ _ _ _ _ _ _ L K Hi H1 Hl1) as [t1 Ht1].
    destruct (region_live_before _ _ _ _ _ _ _ L K Hj H2 Hl2) as [t2 Ht2].
    by apply (ld_apart _ _ L i j r1 r2 t1 t2).
Qed.

Lemma loading_place s done p r m' a' : loading s done -> phdr_ok size p -> phdr_u32 p -> loadable p = true ->
  arena_kept s.1.1 s.1.2 m' a' -> mapped m' a' p r -> (forall t, ~ live s.1.1 s.1.2 (rg_base r) t) ->
  loading (m', a', set_region s.2 (seg_region p) r) (done ++ [p]).
Proof.
  intros L Hok Hu Hl K Hm Hfr. pose proof (seg_region_range p Hok Hu Hl) as Hk. split; cbn [fst snd].
  - eapply arena_kept_trans; [apply L|exact K].
  - rewrite (ld_cpu _ _ L). done.
  - cbn. rewrite length_insert. apply L.
  - apply Forall_app. split; [apply L|]. by apply Forall_singleton.
  - intros k Hk'. rewrite seg_for_snoc. pose proof (segs_kept s done m' a' k L K Hk') as Hs.
    rewrite region_set by (apply L || lia).
    destruct (decide (loadable p = true /\ seg_region p = k)) as [[_ <-]|Hne].
    + rewrite decide_True by done. by exists r.
    + rewrite decide_False by (intros E; apply Hne; split; [done|lia]). exact Hs.
  - by apply (apart_set s done).
Qed.

Lemma loading_skip s done p : loading s done -> phdr_ok size p -> phdr_u32 p -> loadable p = false ->
  loading s (done ++ [p]).
Proof.
  intros [L1 L2 L3 L4 L5 L6] Hok Hu Hl. split; try assumption.
  - apply Forall_app. split; [done|]. by apply Forall_singleton.
  - intros k Hk. rewrite seg_for_snoc, decide_False by (rewrite Hl; by intros [? _]). by apply L5.
Qed.

(** Outcomes of a placement. *)
Definition place_error (r : VmLoadResult) : Prop :=
  r = VM_LOAD_ERR_OUT_OF_RAM \/ r = VM_LOAD_ERR_DATA_SIZE_TOO_SMALL \/ r = VM_LOAD_ERR_INVALID_ARG.

Definition placed_or_not (s : machine) (done : list Phdr) (p : Phdr) (o : machine * VmLoadResult) : Prop :=
  match o with
  | (s', VM_LOAD_OK) => loading s' (done ++ [p])
  | (s', r) => place_error r /\ arena_kept m0 a0 s'.1.1 s'.1.2
  end.

Lemma file_bytes m a p : arena_kept m0 a0 m a -> seg_ok size p -> phdr_u32 p ->
  mem_read m (elf + p_offset p) (p_filesz p) = mem_read m0 (elf + p_offset p) (p_filesz p).
Proof.
  intros K Hok Hu. destruct (decide (0 < p_filesz p)) as [Hf|Hf].
  - symmetry. apply mem_read_agree. eapply mem_agree_mono; [|exact (image_kept m a K)]. by apply file_range.
  - destruct Hu as [_ _ Hz _ _]. replace (p_filesz p) with 0 by (umach; lia). done.
Qed.

(** Code or constants used where they are. *)
Lemma place_xip s done p : loading s done -> phdr_ok size p -> phdr_u32 p -> loadable p = true ->
  in_place p = true -> (seg_region p = VM_REGION_CODE -> (elf + p_offset p) mod 2 = 0) ->
  loading (s.1.1, s.1.2, set_region s.2 (seg_region p) (mkRegion (elf + p_offset p) (p_filesz p) false)) (done ++ [p]).
Proof.
  intros L Hok Hu Hl Hin Hev. pose proof (ld_arena _ _ L) as K. pose proof (proj2 (proj2 Hok) Hl) as Hso.
  destruct (in_place_sizes p Hso Hu Hl Hin) as (Hz & Hf & Hrng).
  assert ((seg_region p =? VM_REGION_DATA) = false) as Hnd
    by (destruct (in_place_readonly p Hin) as [->| ->]; done).
  apply loading_place; [exact L|exact Hok|exact Hu|exact Hl|apply arena_kept_refl, K| |].
  2:{ intros t. by apply (image_not_live s.1.1 s.1.2). }
  split; cbn [rg_base rg_length rg_writable]; rewrite ?Hnd; [|reflexivity|reflexivity|lia|rewrite Hin; by split].
  unfold segment_bytes. rewrite Hz, Z.sub_diag, app_nil_r. by apply (file_bytes _ s.1.2).
Qed.

(** Code or constants copied to a block. *)
Lemma place_copy s done p m1 a1 dst : loading s done -> phdr_ok size p -> phdr_u32 p -> loadable p = true ->
  seg_region p < VM_REGION_DATA -> in_place p = false ->
  slab_alloc s.1.1 s.1.2 (p_filesz p) = (m1, a1, dst) ->
  if decide (dst = 0) then arena_kept m0 a0 m1 a1 else
  loading (memcpy m1 dst (elf + p_offset p) (p_filesz p), a1,
    set_region s.2 (seg_region p) (mkRegion dst (p_filesz p) false)) (done ++ [p]).
Proof.
  intros L Hok Hu Hl Hr Hin E. pose proof (ld_arena _ _ L) as K. pose proof (proj2 (proj2 Hok) Hl) as Hso.
  destruct (readonly_sizes p Hso Hu Hl Hr) as [Hz Hf].
  pose proof (take_block s.1.1 s.1.2 (p_filesz p) (ak_inv _ _ _ _ K) Hf) as Ht. rewrite E in Ht.
  specialize (Ht ltac:(pose proof (so_fits _ _ Hso); pose proof (Z.mod_pos_bound (p_vaddr p) (2 ^ 30) ltac:(lia));
    unfold SLAB_HEADER_SIZE; lia)).
  case_decide; [by eapply arena_kept_trans|]. destruct Ht as (Hfr & Hf1 & Ht).
  destruct (Ht (memcpy m1 dst (elf + p_offset p) (p_filesz p))) as [K2 Hlv];
    [apply memcpy_frame; lia|apply memcpy_ok|].
  assert ((seg_region p =? VM_REGION_DATA) = false) as Hnd by lia.
  apply loading_place; [exact L|exact Hok|exact Hu|exact Hl|exact K2| |exact Hfr].
  split; cbn [rg_base rg_length rg_writable]; rewrite ?Hnd; [|reflexivity|reflexivity|lia|].
  - unfold segment_bytes. rewrite Hz, Z.sub_diag, app_nil_r, memcpy_read by lia.
    transitivity (mem_read s.1.1 (elf + p_offset p) (p_filesz p)); [|by apply (file_bytes _ s.1.2)].
    eapply mem_read_frame; [exact Hf1|]. destruct (ak_region _ _ _ _ K) as [-> ->].
    pose proof (so_file _ _ Hso Hf). destruct Hu. unfold rdisj in *. umach. lia.
  - rewrite Hin. split; [|destruct Hlv as (s' & ? & ?); by exists s'].
    intros t Ht0. by apply (Hfr t), (ak_live _ _ _ _ K).
Qed.

(** The data region: the file's bytes, zeros, and what is left for the stack. *)
Definition fill_data (m : mem) (dst : Z) (p : Phdr) : mem :=
  let m := if 0 <? p_filesz p then memcpy m dst (elf + p_offset p) (p_filesz p) else m in
  if p_filesz p <? p_memsz p then memset m (dst + p_filesz p) 0 (p_memsz p - p_filesz p) else m.

Lemma fill_data_ok m dst p : mem_ok m -> mem_ok (fill_data m dst p).
Proof. intros Hm. unfold fill_data. repeat case_match; auto using memset_ok, memcpy_ok. Qed.

Lemma fill_data_frame m dst p : 0 <= p_filesz p <= p_memsz p -> mem_frame dst (p_memsz p) m (fill_data m dst p).
Proof.
  intros Hp. unfold fill_data. transitivity (if 0 <? p_filesz p then memcpy m dst (elf + p_offset p) (p_filesz p) else m).
  - case_match; [|done]. eapply mem_frame_mono; [| |by apply memcpy_frame; lia]; lia.
  - destruct (Z.ltb_spec (p_filesz p) (p_memsz p)); [|done].
    eapply mem_frame_mono; [| |by apply memset_frame; lia]; lia.
Qed.

Lemma fill_data_read m dst p : 0 <= p_filesz p <= p_memsz p ->
  mem_read m (elf + p_offset p) (p_filesz p) = mem_read m0 (elf + p_offset p) (p_filesz p) ->
  mem_read (fill_data m dst p) dst (p_memsz p) = segment_bytes p.
Proof.
  intros Hp Hsrc. unfold segment_bytes. rewrite <-Hsrc.
  set (m1 := if 0 <? p_filesz p then memcpy m dst (elf + p_offset p) (p_filesz p) else m).
  assert (mem_read m1 dst (p_filesz p) = mem_read m (elf + p_offset p) (p_filesz p)) as H1.
  { unfold m1. destruct (Z.ltb_spec 0 (p_filesz p)); [apply memcpy_read; lia|].
    replace (p_filesz p) with 0 by lia. done. }
  unfold fill_data. fold m1. destruct (Z.ltb_spec (p_filesz p) (p_memsz p)) as [Hlt|Hge].
  - replace (p_memsz p) with (p_filesz p + (p_memsz p - p_filesz p)) at 2 by lia.
    rewrite mem_read_app, memset_read by lia. f_equal. rewrite <-H1.
    eapply mem_read_frame; [by apply memset_frame; lia|]. unfold rdisj. lia.
  - replace (p_memsz p - p_filesz p) with 0 by lia. rewrite app_nil_r, <-H1. f_equal. lia.
Qed.

Lemma place_data s done p m1 a1 dst : loading s done -> phdr_ok size p -> phdr_u32 p -> loadable p = true ->
  seg_region p = VM_REGION_DATA -> p_memsz p <= region_data_size cfg ->
  slab_alloc s.1.1 s.1.2 (region_data_size cfg) = (m1, a1, dst) ->
  if decide (dst = 0) then arena_kept m0 a0 m1 a1 else
  loading (fill_data m1 dst p, a1, set_region s.2 (seg_region p) (mkRegion dst (region_data_size cfg) true)) (done ++ [p]).
Proof.
  intros L Hok Hu Hl Hr Hms E. pose proof (ld_arena _ _ L) as K. pose proof (proj2 (proj2 Hok) Hl) as Hso.
  assert (0 <= p_filesz p <= p_memsz p) as Hsz by (pose proof (so_sizes _ _ Hso); destruct Hu; umach; lia).
  pose proof (take_block s.1.1 s.1.2 (region_data_size cfg) (ak_inv _ _ _ _ K) data_size_pos data_size_fits) as Ht.
  rewrite E in Ht. case_decide; [by eapply arena_kept_trans|]. destruct Ht as (Hfr & Hf1 & Ht).
  destruct (Ht (fill_data m1 dst p)) as [K2 Hlv]; [|apply fill_data_ok|].
  { eapply mem_frame_mono; [| |by apply fill_data_frame]; lia. }
  apply loading_place; [exact L|exact Hok|exact Hu|exact Hl|exact K2| |exact Hfr].
  assert (in_place p = false) as Hin by (unfold in_place; by rewrite Hr).
  split; cbn [rg_base rg_length rg_writable]; rewrite ?Hr; [|reflexivity|reflexivity|lia|].
  - apply fill_data_read; [done|]. transitivity (mem_read s.1.1 (elf + p_offset p) (p_filesz p)); [|by apply (file_bytes _ s.1.2)].
    destruct (decide (0 < p_filesz p)) as [Hf|Hf]; [|by replace (p_filesz p) with 0 by lia].
    eapply mem_read_frame; [exact Hf1|]. destruct (ak_region _ _ _ _ K) as [-> ->].
    pose proof (so_file _ _ Hso Hf). destruct Hu. unfold rdisj in *. umach. lia.
  - rewrite Hin. split; [|destruct Hlv as (s' & ? & ?); by exists s'].
    intros t Ht0. by apply (Hfr t), (ak_live _ _ _ _ K).
Qed.

(** One segment of the second pass. *)
Lemma apply_pt_load_spec s done p : loading s done -> phdr_ok size p -> phdr_u32 p -> loadable p = true ->
  placed_or_not s done p (apply_pt_load s elf (p_offset p) (p_filesz p) (p_memsz p) (p_vaddr p) cfg).
Proof.
  intros L Hok Hu Hl. pose proof (seg_region_range p Hok Hu Hl) as Hk. pose proof (ld_arena _ _ L) as K.
  destruct s as [[m a] c]. cbn [fst snd] in *. unfold apply_pt_load. fold (seg_region p).
  destruct ((seg_region p =? VM_REGION_CODE) || (seg_region p =? VM_REGION_RODATA)) eqn:Ero;
    unfold VM_REGION_CODE, VM_REGION_RODATA in Ero.
  - assert (in_place p = bool_decide ((if seg_region p =? VM_REGION_CODE then code_backing cfg else rodata_backing cfg)
      = VM_BACKING_XIP)) as Hin.
    { unfold in_place. destruct (seg_region p =? VM_REGION_CODE) eqn:Ec; [done|]. unfold VM_REGION_CODE in Ec.
      destruct (Z.eqb_spec (seg_region p) VM_REGION_RODATA) as [|E]; [done|unfold VM_REGION_RODATA in E; lia]. }
    destruct (if seg_region p =? VM_REGION_CODE then _ else _).
    + change 1 with (2 ^ 1 - 1). rewrite land_pow2_ones by lia.
      destruct (_ && _) eqn:Ev; [split; [by right; right|done]|].
      apply (place_xip (m, a, c)); [exact L|exact Hok|exact Hu|exact Hl|exact Hin|].
      intros Hc. rewrite Hc in Ev. cbn [Z.eqb VM_REGION_CODE andb] in Ev. apply negb_false_iff, Z.eqb_eq in Ev. exact Ev.
    + destruct (slab_alloc m a (p_filesz p)) as [[m1 a1] dst] eqn:E.
      pose proof (place_copy (m, a, c) done p m1 a1 dst L Hok Hu Hl ltac:(unfold VM_REGION_DATA; lia) Hin E) as Hd.
      destruct (Z.eqb_spec dst 0); [rewrite decide_True in Hd by done; split; [by left|done]|].
      rewrite decide_False in Hd by done. exact Hd.
  - assert (seg_region p = VM_REGION_DATA) as Ed by (unfold VM_REGION_DATA; lia).
    destruct (Z.ltb_spec (region_data_size cfg) (p_memsz p)); [split; [by right; left|done]|].
    destruct (slab_alloc m a (region_data_size cfg)) as [[m1 a1] dst] eqn:E.
    pose proof (place_data (m, a, c) done p m1 a1 dst L Hok Hu Hl Ed ltac:(lia) E) as Hd.
    destruct (Z.eqb_spec dst 0); [rewrite decide_True in Hd by done; split; [by left|done]|].
    rewrite decide_False in Hd by done. exact Hd.
Qed.

Lemma read_phdr_kept m a ph : arena_kept m0 a0 m a -> elf <= ph -> ph + ELF32_PHDR_SIZE <= elf + size ->
  read_phdr m ph = read_phdr m0 ph.
Proof.
  intros K Hlo Hhi. pose proof (image_kept m a K) as Hag. unfold ELF32_PHDR_SIZE in Hhi.
  assert (forall o, 0 <= o -> o + 4 <= 32 -> rd32 m (ph + o) = rd32 m0 (ph + o)) as Hrd.
  { intros o Ho Ho2. symmetry. apply load32_agree. eapply mem_agree_mono; [|exact Hag]. unfold rng. lia. }
  unfold read_phdr. by rewrite !Hrd by lia.
Qed.

(** The second pass places every segment, or stops at the first that does not fit. *)
Lemma apply_segments_spec n : forall i s done, loading s done -> 0 <= i -> i + Z.of_nat n <= 0x10000 ->
  e_phoff m0 elf + (i + Z.of_nat n) * ELF32_PHDR_SIZE <= size -> Forall (phdr_ok size) (phdrs_from m0 elf i n) ->
  match apply_segments n i s elf (e_phoff m0 elf) cfg with
  | (s', VM_LOAD_OK) => loading s' (done ++ phdrs_from m0 elf i n)
  | (s', r) => place_error r /\ arena_kept m0 a0 s'.1.1 s'.1.2
  end.
Proof.
  induction n as [|n IH]; intros i s done L Hi Hn Hsz Hf; cbn [apply_segments]; [by rewrite app_nil_r|].
  rewrite phdrs_from_S in Hf |- *. apply Forall_cons in Hf as [Hok Hf].
  destruct (e_fields_range m0 elf mem0) as (_ & Hpo & _).
  assert (Hu : phdr_u32 (read_phdr m0 (elf + e_phoff m0 elf + i * ELF32_PHDR_SIZE))) by by apply read_phdr_u32.
  unfold ELF32_PHDR_SIZE in Hsz. rewrite phdr_at_u16 by lia.
  rewrite (read_phdr_kept s.1.1 s.1.2); [|apply L|unfold ELF32_PHDR_SIZE; umach; lia..].
  set (p := read_phdr m0 _) in *.
  assert (forall s', loading s' (done ++ [p]) ->
    match apply_segments n (i + 1) s' elf (e_phoff m0 elf) cfg with
    | (s', VM_LOAD_OK) => loading s' (done ++ p :: phdrs_from m0 elf (i + 1) n)
    | (s', r) => place_error r /\ arena_kept m0 a0 s'.1.1 s'.1.2
    end) as Hnext.
  { intros s' L'. specialize (IH (i + 1) s' (done ++ [p]) L'). rewrite <-app_assoc in IH.
    apply IH; [lia|lia|unfold ELF32_PHDR_SIZE; lia|done]. }
  destruct (loadable p) eqn:El; cbn [negb]; [|by apply Hnext, loading_skip].
  pose proof (apply_pt_load_spec s done p L Hok Hu El) as Hp.
  destruct (apply_pt_load s elf _ _ _ _ cfg) as [s' r]. destruct r; try exact Hp. by apply Hnext.
Qed.

(** What region [k] is in the end. *)
Definition region_spec (m : mem) (a : SlabAllocator) (k : Z) (r : VmRegion) : Prop :=
  match seg_for k (phdrs m0 elf) with
  | Some p => mapped m a p r
  | None =>
      if k =? VM_REGION_DATA then
        own_block m a r /\ rg_length r = region_data_size cfg /\ rg_writable r = true /\
        mem_read m (rg_base r) (region_data_size cfg) = replicate (Z.to_nat (region_data_size cfg)) 0
      else r = no_region
  end.

(** The regions of the guest once the data region is there. *)
Record regions_ready (s : machine) : Prop := {
  rr_arena : arena_kept m0 a0 s.1.1 s.1.2;
  rr_cpu : s.2 = set_regions c0 (regions s.2) (l2_shared c0);
  rr_len : length (regions s.2) = VM_REGION_COUNT;
  rr_regions k : 0 <= k < 3 -> exists r, regions s.2 !! Z.to_nat k = Some r /\ region_spec s.1.1 s.1.2 k r;
  rr_apart i j r q s1 s2 : (i < 3)%nat -> (j < 3)%nat -> i <> j ->
    regions s.2 !! i = Some r -> regions s.2 !! j = Some q ->
    live s.1.1 s.1.2 (rg_base r) s1 -> live s.1.1 s.1.2 (rg_base q) s2 -> rg_base r <> rg_base q
}.

(** A data segment was placed: nothing more to do. *)
Lemma ready_placed s : loading s (phdrs m0 elf) -> seg_for VM_REGION_DATA (phdrs m0 elf) <> None -> regions_ready s.
Proof.
  intros L Hs. split; try apply L. intros k Hk. pose proof (ld_segs _ _ L k Hk) as Hk'. unfold region_spec.
  destruct (seg_for k (phdrs m0 elf)) as [p|] eqn:E; [exact Hk'|]. exists no_region. split; [exact Hk'|].
  destruct (Z.eqb_spec k VM_REGION_DATA); [by subst|done].
Qed.

Lemma ready_default s m1 a1 dst : loading s (phdrs m0 elf) -> seg_for VM_REGION_DATA (phdrs m0 elf) = None ->
  slab_alloc s.1.1 s.1.2 (region_data_size cfg) = (m1, a1, dst) ->
  if decide (dst = 0) then arena_kept m0 a0 m1 a1 else
  regions_ready (memset m1 dst 0 (region_data_size cfg), a1,
    set_region s.2 VM_REGION_DATA (mkRegion dst (region_data_size cfg) true)).
Proof.
  intros L Hs E. pose proof (ld_arena _ _ L) as K.
  pose proof (take_block s.1.1 s.1.2 (region_data_size cfg) (ak_inv _ _ _ _ K) data_size_pos data_size_fits) as Ht.
  rewrite E in Ht. case_decide; [by eapply arena_kept_trans|]. destruct Ht as (Hfr & _ & Ht).
  destruct (Ht (memset m1 dst 0 (region_data_size cfg))) as [K2 Hlv]; [apply memset_frame; lia|apply memset_ok|].
  split; cbn [fst snd].
  - by eapply arena_kept_trans.
  - by rewrite (ld_cpu _ _ L).
  - cbn. rewrite length_insert. apply L.
  - intros k Hk. rewrite region_set by (apply L || done). unfold region_spec.
    case_decide as Ek.
    + assert (k = VM_REGION_DATA) as -> by (unfold VM_REGION_DATA in *; lia). rewrite Hs. eexists. split; [done|].
      cbn [Z.eqb VM_REGION_DATA rg_base rg_length rg_writable]. split_and!; [|done|done|apply memset_read; lia].
      split; [intros t Ht0; by apply (Hfr t), (ak_live _ _ _ _ K)|].
      destruct Hlv as (s' & ? & ?). by exists s'.
    + pose proof (segs_kept s _ _ _ k L K2 Hk) as Hk'.
      destruct (seg_for k (phdrs m0 elf)) as [p|]; [exact Hk'|]. exists no_region. split; [exact Hk'|].
      destruct (Z.eqb_spec k VM_REGION_DATA); [by subst|done].
  - by apply (apart_set s (phdrs m0 elf)).
Qed.

Lemma default_data_spec s : loading s (phdrs m0 elf) ->
  match default_data s cfg with
  | (s', VM_LOAD_OK) => regions_ready s'
  | (s', r) => place_error r /\ arena_kept m0 a0 s'.1.1 s'.1.2
  end.
Proof.
  intros L. pose proof (ld_segs _ _ L VM_REGION_DATA ltac:(by unfold VM_REGION_DATA)) as Hd.
  destruct s as [[m a] c]. cbn [fst snd] in *. unfold default_data. rewrite nth_lookup.
  change (Z.to_nat VM_REGION_DATA) with 2%nat in Hd.
  destruct (seg_for VM_REGION_DATA (phdrs m0 elf)) as [p|] eqn:E.
  - destruct Hd as (r & -> & Hm). destruct (done_seg _ _ _ _ L E) as (_ & _ & _ & Hr).
    pose proof (mp_length _ _ _ _ Hm) as Hl. rewrite Hr in Hl. cbn [Z.eqb VM_REGION_DATA] in Hl.
    change (default no_region (Some r)) with r.
    rewrite (proj2 (Z.eqb_neq (rg_length r) 0)) by (rewrite Hl; cbn; lia).
    apply ready_placed; [exact L|]. by rewrite E.
  - rewrite Hd. change (rg_length (default no_region (Some no_region)) =? 0) with true. cbv iota.
    destruct (slab_alloc m a (region_data_size cfg)) as [[m1 a1] dst] eqn:Ea.
    pose proof (ready_default (m, a, c) m1 a1 dst L E Ea) as Hr.
    destruct (Z.eqb_spec dst 0); [rewrite decide_True in Hr by done; split; [by left|done]|].
    rewrite decide_False in Hr by done. exact Hr.
Qed.

(** The CPU a load hands back. *)
Record vm_loaded (m : mem) (a : SlabAllocator) (c : VmCpu) : Prop := {
  vl_cpu : c = set_regions (set_regs (set_pc c0 (e_entry m0 elf)) (regs c)) (regions c) (l2_shared c);
  vl_sp : regs c = <[2%nat := 0x80000000 + (region_data_size cfg - region_data_size cfg mod 8)]> (regs c0);
  vl_data_size : region_data_size cfg <= 0x100000;
  vl_len : length (regions c) = VM_REGION_COUNT;
  vl_shared : regions c !! 3%nat = Some (mkRegion (shared_base cfg) (shared_size cfg) (negb (shared_base cfg =? 0)));
  vl_l2 : l2_shared c = mkRegion (l2_shared_base cfg) (l2_shared_size cfg) (negb (l2_shared_base cfg =? 0));
  vl_regions k : 0 <= k < 3 -> exists r, regions c !! Z.to_nat k = Some r /\ region_spec m a k r;
  vl_apart i j r q s1 s2 : (i < 3)%nat -> (j < 3)%nat -> i <> j ->
    regions c !! i = Some r -> regions c !! j = Some q ->
    live m a (rg_base r) s1 -> live m a (rg_base q) s2 -> rg_base r <> rg_base q
}.

Lemma live_size_le m a p s : slab_inv m a -> live m a p s -> s <= 0x100000.
Proof.
  intros I (i & x & b & (Hx & _) & _ & ->). destruct (si_layout _ _ I) as [mid L].
  pose proof (lay_total a mid L i x Hx). lia.
Qed.

(** The data region is a block, so it has at most a megabyte. *)
Lemma data_size_le s : regions_ready s -> region_data_size cfg <= 0x100000.
Proof.
  intros R. destruct (rr_regions _ R 2 ltac:(lia)) as (r & _ & Hr). unfold region_spec in Hr.
  assert (exists s', live s.1.1 s.1.2 (rg_base r) s' /\ region_data_size cfg <= s') as (s' & Hl & Hle).
  { destruct (seg_for 2 (phdrs m0 elf)) as [p|] eqn:E.
    - destruct (seg_for_Some _ _ _ E) as (_ & _ & Hp). destruct Hr as [_ _ Hlen _ Hpl].
      unfold in_place in Hpl. rewrite Hp in Hlen, Hpl. cbn in Hlen, Hpl. destruct Hpl as (_ & s' & ? & ?).
      exists s'. split; [done|]. lia.
    - cbn in Hr. destruct Hr as ((_ & s' & ? & ?) & Hlen & _). exists s'. split; [done|]. lia. }
  pose proof (live_size_le _ _ _ _ (ak_inv _ _ _ _ (rr_arena _ R)) Hl). lia.
Qed.

Lemma stack_top d : 0 < d <= 0x100000 -> Z.land (u32 (0x80000000 + d)) (not32 7) = 0x80000000 + (d - d mod 8).
Proof.
  intros Hd. rewrite u32_small by (umach; lia). change (not32 7) with (0x100000000 - 2 ^ 3).
  rewrite land_high_mask by (umach; lia). change (2 ^ 3) with 8.
  rewrite (Z.mod_eq d 8) by lia. replace (0x80000000 + d) with (d + 0x10000000 * 8) by lia.
  rewrite Z.div_add by lia. lia.
Qed.

Lemma finish s : regions_ready s ->
  vm_loaded s.1.1 s.1.2 (set_start (set_shared s.2 cfg) (e_entry m0 elf) cfg).
Proof.
  intros R. pose proof (rr_len _ R) as Hlen. pose proof (rr_cpu _ R) as Hc.
  assert (forall i, (i < 3)%nat -> regions (set_start (set_shared s.2 cfg) (e_entry m0 elf) cfg) !! i = regions s.2 !! i) as Hreg.
  { intros i Hi. cbn. apply list_lookup_insert_ne. lia. }
  split.
  - rewrite Hc. done.
  - cbn. rewrite stack_top by (pose proof (data_size_le s R); lia). rewrite Hc. done.
  - exact (data_size_le s R).
  - cbn. by rewrite length_insert.
  - cbn. apply list_lookup_insert_eq. unfold VM_REGION_COUNT in Hlen. lia.
  - done.
  - intros k Hk. rewrite Hreg by lia. by apply R.
  - intros i j r q s1 s2 Hi Hj Hij. rewrite !Hreg by lia. by apply (rr_apart _ R).
Qed.

(** A CPU as [vm_init] leaves it. *)
Definition no_regions : Prop :=
  length (regions c0) = VM_REGION_COUNT /\ forall i, (i < 3)%nat -> regions c0 !! i = Some no_region.

Lemma loading_start : no_regions -> loading (m0, a0, c0) [].
Proof.
  intros [Hl Hr]. split; cbn [fst snd].
  - by apply arena_kept_refl.
  - by destruct c0.
  - exact Hl.
  - constructor.
  - intros k Hk. apply Hr. lia.
  - intros i j r q s1 s2 Hi Hj Hij Hr1 Hr2 Hl1 _. rewrite Hr in Hr1 by done. injection Hr1 as <-.
    pose proof (live_inside _ _ _ _ arena0 Hl1). cbn in *. lia.
Qed.

Lemma load_spec : elf <> 0 -> no_regions ->
  match vm_load (m0, a0, c0) elf size cfg with
  | ((m, a, c), VM_LOAD_OK) => elf_ok m0 elf size /\ arena_kept m0 a0 m a /\ vm_loaded m a c
  | (s, r) =>
      elf_ok m0 elf size /\ place_error r /\ arena_kept m0 a0 s.1.1 s.1.2 \/
      image_fault m0 elf size r /\ s = (m0, a0, c0)
  end.
Proof.
  intros He Hc. destruct (validation_cases (m0, a0, c0) elf size cfg) as [[Hok ->]|(r & Hr & -> & Hf)];
    [done|done|lia|..]; cbn [fst snd] in *.
  2:{ destruct r; try done; by right. }
  destruct Hok as [Hh Hs]. destruct (e_fields_range m0 elf mem0) as (_ & Hpo & Hpn).
  pose proof (ho_phdrs _ _ _ Hh) as Htab.
  pose proof (apply_segments_spec (Z.to_nat (e_phnum m0 elf)) 0 (m0, a0, c0) [] (loading_start Hc)) as Ha.
  rewrite <-phdrs_from_0 in Ha. specialize (Ha ltac:(lia) ltac:(umach; lia)).
  rewrite Z.add_0_l, Z2Nat.id in Ha by (umach; lia). specialize (Ha Htab Hs).
  destruct (apply_segments _ 0 _ _ _ _) as [[[m1 a1] c1] r].
  destruct r; try (left; split; [by split|exact Ha]).
  pose proof (default_data_spec (m1, a1, c1) Ha) as Hd. destruct (default_data (m1, a1, c1) cfg) as [[[m a] c] r].
  destruct r; try (left; split; [by split|exact Hd]).
  split; [by split|]. split; [apply (rr_arena _ Hd)|]. apply (finish (m, a, c) Hd).
Qed.

End placement.

(** ** What the guest sees *)

(** The layout of the linker script ([examples/common/guest.ld], [vm_loader.h]): every
    segment starts at the base of its region, and a region has at most one. *)
Record linked (m : mem) (elf : Z) : Prop := {
  lk_base p : p ∈ phdrs m elf -> loadable p = true -> p_vaddr p mod 2 ^ 30 = 0;
  lk_one i j p q : phdrs m elf !! i = Some p -> phdrs m elf !! j = Some q ->
    loadable p = true -> loadable q = true -> seg_region p = seg_region q -> i = j
}.

(** Byte [i] of a segment, as the image has it. *)
Definition image_byte (m : mem) (elf : Z) (p : Phdr) (i : Z) : Z :=
  if i <? p_filesz p then m (elf + p_offset p + i) else 0.

(** The guest [c] reads every byte of every segment of the image at the address it is
    linked at, and can write there exactly in the data region. *)
Definition image_visible (m : mem) (elf : Z) (m' : mem) (c : VmCpu) : Prop :=
  forall p i, p ∈ phdrs m elf -> loadable p = true -> 0 <= i < p_memsz p ->
    exists x, vm_translate_read c (p_vaddr p + i) 1 = (Some x, c) /\ m' x = image_byte m elf p i /\
      ((vm_translate_write c (p_vaddr p + i) 1).1 = if seg_region p =? VM_REGION_DATA then Some x else None).

Lemma seg_for_linked m elf p : linked m elf -> p ∈ phdrs m elf -> loadable p = true -> seg_for (seg_region p) (phdrs m elf) = Some p.
Proof.
  intros [_ H1] [i Hi]%list_elem_of_lookup Hl. unfold seg_for.
  set (P := fun q => loadable q = true /\ seg_region q = seg_region p).
  assert (p ∈ filter P (phdrs m elf)) as Hin by (apply list_elem_of_filter; split; [done|by eapply list_elem_of_lookup_2]).
  destruct (last (filter P (phdrs m elf))) as [q|] eqn:El; [|apply last_None in El; rewrite El in Hin; by apply elem_of_nil in Hin].
  assert (q ∈ filter P (phdrs m elf)) as Hq.
  { apply last_Some in El as [l E]. rewrite E. apply elem_of_app. right. by apply list_elem_of_singleton. }
  apply list_elem_of_filter in Hq as [[Hql Hqr] [j Hj]%list_elem_of_lookup].
  assert (j = i) as -> by by eapply H1. congruence.
Qed.

Lemma translate_in_region c k r x : 0 <= k < 3 -> regions c !! Z.to_nat k = Some r -> 0 <= x < rg_length r -> x < 2 ^ 30 ->
  vm_translate_read c (k * 2 ^ 30 + x) 1 = (Some (rg_base r + x), c) /\
  (vm_translate_write c (k * 2 ^ 30 + x) 1).1 = if rg_writable r then Some (rg_base r + x) else None.
Proof.
  intros Hk Hr Hx Hb. unfold vm_translate_read, vm_translate_write, xlat_read, xlat_write. cbn [Z.eqb].
  assert (xlat_pick c (k * 2 ^ 30 + x) = (r, x)) as ->.
  { unfold xlat_pick. rewrite Z.shiftr_div_pow2 by lia. rewrite Z.div_add_l, (Z.div_small x), Z.add_0_r by lia.
    rewrite (proj2 (Z.eqb_neq k VM_REGION_SHARED)) by (unfold VM_REGION_SHARED; lia).
    rewrite nth_lookup, Hr. change 0x3FFFFFFF with (2 ^ 30 - 1). rewrite land_pow2_ones by lia.
    rewrite Z.add_comm, Z.mod_add, Z.mod_small by lia. done. }
  assert (out_of_region r x 1 = false) as ->.
  { unfold out_of_region. rewrite !orb_false_iff, Z.eqb_neq, !Z.ltb_ge. lia. }
  split; [done|]. by destruct (rg_writable r).
Qed.

Lemma nth_replicate_0 n i : nth i (replicate n 0) 0 = 0.
Proof. revert i. induction n; intros [|i]; cbn; auto. Qed.

Lemma loaded_visible m0 a0 c0 elf size cfg m a c : elf_ok m0 elf size -> mem_ok m0 -> linked m0 elf ->
  vm_loaded m0 a0 c0 elf cfg m a c -> image_visible m0 elf m c.
Proof.
  intros [_ Hok] Hm Hlk L p i Hp Hl Hi. rewrite Forall_forall in Hok. destruct (Hok p Hp) as (_ & _ & Hs). specialize (Hs Hl).
  assert (phdr_u32 p) as Hu.
  { unfold phdrs in Hp. apply list_elem_of_fmap in Hp as (n & -> & _). by apply read_phdr_u32. }
  pose proof (seg_region_range size p (Hok p Hp) Hu Hl) as Hk.
  destruct (vl_regions _ _ _ _ _ _ _ _ L (seg_region p) Hk) as (r & Hr & Hspec). unfold region_spec in Hspec.
  rewrite (seg_for_linked m0 elf p Hlk Hp Hl) in Hspec. destruct Hspec as [Hb Hw _ Hms _].
  pose proof (lk_base _ _ Hlk p Hp Hl) as Hv.
  assert (p_vaddr p = seg_region p * 2 ^ 30) as Ev.
  { unfold seg_region, vaddr_to_region. rewrite Z.shiftr_div_pow2 by lia. pose proof (Z.div_mod (p_vaddr p) (2 ^ 30) ltac:(lia)). lia. }
  pose proof (so_fits _ _ Hs) as Hfit. rewrite Hv in Hfit.
  destruct (translate_in_region c (seg_region p) r i Hk Hr ltac:(lia) ltac:(lia)) as [H1 H2].
  rewrite <-Ev in H1, H2. exists (rg_base r + i). split; [done|]. split; [|by rewrite H2, Hw].
  pose proof (f_equal (fun l => nth (Z.to_nat i) l 0) Hb) as Hn. cbv beta in Hn.
  rewrite mem_read_nth, Z2Nat.id in Hn by lia. rewrite Hn. unfold segment_bytes, image_byte.
  destruct (Z.ltb_spec i (p_filesz p)).
  - rewrite app_nth1 by (rewrite mem_read_length; lia). by rewrite mem_read_nth, Z2Nat.id by lia.
  - rewrite app_nth2 by (rewrite mem_read_length; lia). apply nth_replicate_0.
Qed.

(** ** Properties *)


(** ** A small arena *)

Lemma push_blocks_mem_ok n : forall k m i b c, mem_ok m -> mem_ok (push_blocks n k m i b c).
Proof.
  induction n as [|n IH]; intros k m i b c Hm; cbn [push_blocks]; [done|].
  apply IH, mem_write_ok; [by do 2 apply store32_ok|apply le_bytes_Forall].
Qed.

Lemma carve_blocks_mem_ok bs : forall i m c bm t, mem_ok m -> mem_ok (carve_blocks bs i m c bm t).1.1.1.1.
Proof.
  induction bs as [|b bs IH]; intros i m c bm t Hm; cbn [carve_blocks]; [done|]. case_match.
  - specialize (IH (i + 1) m c bm t Hm). by destruct (carve_blocks bs (i + 1) m c bm t) as [[[[m' r] c'] bm'] t'].
  - set (m1 := push_blocks _ _ _ _ _ _). assert (mem_ok m1) as Hm1 by by apply push_blocks_mem_ok.
    match goal with |- context [carve_blocks bs (i + 1) m1 ?c ?bm ?t] => specialize (IH (i + 1) m1 c bm t Hm1);
      by destruct (carve_blocks bs (i + 1) m1 c bm t) as [[[[m' r] c'] bm'] t'] end.
Qed.

Lemma slab_init_mem_ok m a rgn bytes cfg : mem_ok m -> mem_ok (slab_init m a rgn bytes cfg).1.1.
Proof.
  intros Hm. unfold slab_init. do 2 (case_match; [done|]). destruct (carve_stacks _ _) as [bs c].
  pose proof (carve_blocks_mem_ok bs 0 m c 0 0 Hm) as H1.
  destruct (carve_blocks bs 0 m c 0 0) as [[[[m' r] c'] bm'] t']. by case_match.
Qed.

(** An image at [0x9000] and an arena at [0x1000]. *)
Definition demo_arena (data : Z) : mem * SlabAllocator :=
  (slab_init (demo_image_mem ET_EXEC data) slab_zero 0x1000 512 demo_cfg).1.

Lemma demo_arena_start data : slab_inv (demo_arena data).1 (demo_arena data).2 /\ mem_ok (demo_arena data).1 /\
  region (demo_arena data).2 = 0x1000 /\ region_bytes (demo_arena data).2 = 512.
Proof.
  pose proof (slab_init_establishes (demo_image_mem ET_EXEC data) slab_zero 0x1000 512 demo_cfg eq_refl
    demo_cfg_ok ltac:(lia) ltac:(lia) ltac:(by vm_compute)) as H.
  pose proof (slab_init_mem_ok (demo_image_mem ET_EXEC data) slab_zero 0x1000 512 demo_cfg (demo_image_ok _ _)) as Hm.
  unfold demo_arena. destruct (slab_init _ _ _ _ _) as [[m a] r]. by destruct H as (_ & I & _ & Hr & Hb & _).
Qed.

Definition demo_load (data : Z) : machine * VmLoadResult :=
  vm_load ((demo_arena data).1, (demo_arena data).2, vm_init 3) 0x9000 138 demo_cfg_load.

(** The load succeeds: code stays in the image, data gets a block, and the guest sees
    its four bytes of data and four zeros. *)
Example demo_loads :
  let '((m, a, c), r) := demo_load 0x80000000 in
  r = VM_LOAD_OK /\ regions c !! 0%nat = Some (mkRegion 0x9074 18 false) /\ regions c !! 1%nat = Some no_region /\
  reg c VM_REG_SP = 0x80000018 /\ (vm_read_u32 m c 0x80000000).1 = 0x04030201 /\ (vm_read_u32 m c 0x80000004).1 = 0.
Proof. by vm_compute. Qed.

Lemma linked_list m elf ps : phdrs m elf = ps -> Forall (fun p => p_vaddr p mod 2 ^ 30 = 0) ps -> NoDup (map seg_region ps) ->
  linked m elf.
Proof.
  intros E Hf Hn. rewrite <-E in *. split.
  - intros p Hp _. rewrite Forall_forall in Hf. by apply Hf.
  - intros i j p q Hi Hj _ _ Hr. apply (NoDup_lookup _ i j (seg_region p) Hn).
    + by apply (list_lookup_fmap_Some_2 _ _ _ _ Hi).
    + rewrite Hr. by apply (list_lookup_fmap_Some_2 _ _ _ _ Hj).
Qed.

Lemma demo_linked : linked (demo_arena 0x80000000).1 0x9000.
Proof.
  apply (linked_list _ _ [mkPhdr 1 116 0 18 18 5; mkPhdr 1 134 0x80000000 4 8 6]).
  - vm_compute. reflexivity.
  - repeat constructor.
  - change (NoDup [0; 2]). by apply (bool_decide_unpack _).
Qed.


Example demo_misplaced :
  (demo_load 0x80000010).2 = VM_LOAD_OK /\
  (vm_read_u32 (demo_load 0x80000010).1.1.1 (demo_load 0x80000010).1.2 0x80000000).1 = 0x04030201 /\
  (vm_read_u32 (demo_load 0x80000010).1.1.1 (demo_load 0x80000010).1.2 0x80000010).1 = 0.
Proof. by vm_compute. Qed.

(** A segment linked above the start of its region is accepted, but its offset in the
    region is dropped: the bytes linked at [0x80000010] are found at [0x80000000]. *)
Lemma segment_offset_dropped :
  let '((m, a, c), r) := demo_load 0x80000010 in
  r = VM_LOAD_OK /\ elf_ok (demo_arena 0x80000010).1 0x9000 138 /\
  (vm_read_u32 m c 0x80000000).1 = 0x04030201 /\ (vm_read_u32 m c 0x80000010).1 = 0.
Proof.
  destruct (demo_arena_start 0x80000010) as (I & Hm & Hr & Hb).
  pose proof (load_spec (demo_arena 0x80000010).1 (demo_arena 0x80000010).2 (vm_init 3) 0x9000 138 demo_cfg_load I Hm) as H.
  rewrite Hr, Hb in H. specialize (H ltac:(unfold rdisj; lia) ltac:(done) ltac:(done) ltac:(done)).
  assert (no_regions (vm_init 3)) as Hn by (split; [done|]; intros i Hi; by do 3 (destruct i as [|i]; [done|]); lia).
  specialize (H Hn). fold (demo_load 0x80000010) in H.
  destruct demo_misplaced as (H1 & H2 & H3).
  destruct (demo_load 0x80000010) as [[[m a] c] r]. cbn [fst snd] in *. subst r.
  destruct H as [H _]. by split_and!.
Qed.

(** A data region of almost 4 GB is accepted on a block of 32 bytes: the bound on
    [region_data_size] in [vm_load_correct] is needed. *)
Lemma data_region_oversized :
  let cfg := mkLoaderConfig VM_BACKING_XIP VM_BACKING_XIP 0xFFFFFFFC 0 0 0 0 in
  let '((m, a, c), r) := vm_load ((demo_arena 0x80000000).1, (demo_arena 0x80000000).2, vm_init 3) 0x9000 138 cfg in
  r = VM_LOAD_OK /\ regions c !! 2%nat = Some (mkRegion 0x1048 0xFFFFFFFC true) /\ slab_block_size m a 0x1048 = 32.
Proof. by vm_compute. Qed.
