(* ===== verification/VmGuests.v ===== *)
(** Guests side by side: programs loaded from one arena ([vm_load]), run in turn
    ([vm_step]) and unloaded again (the region release of [vm_system_unload_vm] in
    [src/vm/vm_system.c]).  Shown: over any history no guest touches another's
    private memory, its own code, or the allocator. *)
From stdpp Require Import gmap.
From S2P Require Import Prelude HostMem SlabStack SlabInv SlabInit.
From S2P Require Import VmCpu VmExec VmSafety VmStep VmLoader VmPlace.
#[local] Open Scope Z_scope.

(** ** Unloading *)

(** The loop of [vm_system_unload_vm] over the regions; [SlabResult]s are ignored. *)
Fixpoint free_regions (m : mem) (a : SlabAllocator) (rs : list VmRegion) : mem * SlabAllocator * list VmRegion :=
  match rs with
  | [] => (m, a, [])
  | r :: rs =>
      if rg_base r =? 0 then
        let '(m, a, rs) := free_regions m a rs in (m, a, r :: rs)
      else
        let '(m, a, _) := slab_free m a (rg_base r) in
        let '(m, a, rs) := free_regions m a rs in
        (m, a, mkRegion 0 0 (rg_writable r) :: rs)
  end.

(** What releasing a guest's regions does to the arena: the blocks of [F] go, the
    others stay as they are. *)
Record arena_released (F : Z -> Prop) (m : mem) (a : SlabAllocator) (m' : mem) (a' : SlabAllocator) : Prop := {
  ar_inv : slab_inv m' a';
  ar_region : region a' = region a /\ region_bytes a' = region_bytes a;
  ar_frame : mem_frame (region a) (region_bytes a) m m';
  ar_live q t : live m' a' q t <-> live m a q t /\ ~ F q;
  ar_kept q t : live m a q t -> ~ F q -> mem_agree (rng q t) m m';
  ar_ok : mem_ok m -> mem_ok m'
}.

Lemma slab_free_mem_ok m a p : mem_ok m -> mem_ok (slab_free m a p).1.1.
Proof.
  intros Hm. unfold slab_free. repeat case_match; cbn; try done.
  all: apply store32_ok, mem_write_ok; [done|apply le_bytes_Forall].
Qed.

(** A region the loop may meet: absent, outside the arena, or a block. *)
Definition releasable (m : mem) (a : SlabAllocator) (r : VmRegion) : Prop :=
  rg_base r = 0 \/ (in_region a (header_of (rg_base r)) = false /\ forall t, ~ live m a (rg_base r) t) \/
  exists s, live m a (rg_base r) s.

Definition bases (rs : list VmRegion) (p : Z) : Prop := exists r, r ∈ rs /\ rg_base r = p.

Lemma arena_released_more (F G : Z -> Prop) m a m' a' : (forall q t, live m a q t -> F q <-> G q) ->
  arena_released F m a m' a' -> arena_released G m a m' a'.
Proof.
  intros H [H1 H2 H3 H4 H5 H6]. split; try done.
  - intros q t. rewrite H4. split; intros [Hq Hf]; (split; [done|]); by rewrite (H q t Hq) in *.
  - intros q t Hq Hf. apply H5; [done|]. by rewrite (H q t Hq).
Qed.

Lemma arena_released_trans (F G : Z -> Prop) m1 a1 m2 a2 m3 a3 : arena_released F m1 a1 m2 a2 ->
  arena_released G m2 a2 m3 a3 -> arena_released (fun q => F q \/ G q) m1 a1 m3 a3.
Proof.
  intros [_ [R2 B2] F2 L2 K2 O2] [I3 [R3 B3] F3 L3 K3 O3]. split; [done|split; congruence|..].
  - rewrite R2, B2 in F3. by transitivity m2.
  - intros q t. rewrite L3, L2. tauto.
  - intros q t Hq Hn. transitivity m2; [apply K2; tauto|]. apply K3; [|tauto]. apply L2. tauto.
  - auto.
Qed.

Lemma free_block m a p s : slab_inv m a -> live m a p s ->
  let '(m', a', _) := slab_free m a p in arena_released (eq p) m a m' a'.
Proof.
  intros I Hs. pose proof (slab_free_mem_ok m a p) as Hok. pose proof (slab_free_succeeds m a p s I Hs) as Hfs.
  destruct (slab_free m a p) as [[m' a'] r]. destruct Hfs as (_ & I' & [Fl Ff Fo Fr _]). split; [done|done|..|done].
  - intros x Hx. symmetry. by apply Fo.
  - intros q t. rewrite Fl. split; intros [Hq Hne]; (split; [done|]); congruence.
  - intros q t Hq Hne. apply (Ff q t Hq). congruence.
Qed.

Lemma free_regions_spec rs : forall m a, slab_inv m a -> (forall r, r ∈ rs -> releasable m a r) ->
  (forall k l r q s t, rs !! k = Some r -> rs !! l = Some q -> live m a (rg_base r) s -> live m a (rg_base q) t ->
    k <> l -> rg_base r <> rg_base q) ->
  let '(m', a', _) := free_regions m a rs in arena_released (bases rs) m a m' a'.
Proof.
  induction rs as [|r rs IH]; intros m a I Hrel Hap; cbn [free_regions].
  { split; try done. intros q t. split; [|tauto]. intros Hq. split; [done|]. intros (r & Hr & _). by apply not_elem_of_nil in Hr. }
  assert (forall k l r q s t, rs !! k = Some r -> rs !! l = Some q -> live m a (rg_base r) s -> live m a (rg_base q) t ->
    k <> l -> rg_base r <> rg_base q) as Hap'.
  { intros k l r1 r2 s t H1 H2 Hl1 Hl2 Hne. apply (Hap (S k) (S l) r1 r2 s t); [done|done|done|done|lia]. }
  assert (forall r, r ∈ rs -> releasable m a r) as Hrel' by (intros r' Hr'; apply Hrel; by right).
  assert (forall m' a', (forall t, ~ live m a (rg_base r) t) -> arena_released (bases rs) m a m' a' ->
    arena_released (bases (r :: rs)) m a m' a') as Hskip.
  { intros m' a' Hnl. apply arena_released_more. intros q t Hq. split; intros (r' & Hr' & <-).
    - exists r'. split; [by right|done].
    - apply elem_of_cons in Hr' as [->|Hr']; [by apply Hnl in Hq|by exists r']. }
  destruct (Z.eqb_spec (rg_base r) 0) as [E0|E0].
  - specialize (IH m a I Hrel' Hap'). destruct (free_regions m a rs) as [[m' a'] rs']. apply Hskip; [|done].
    intros t Ht. pose proof (live_inside _ _ _ _ I Ht). lia.
  - destruct (Hrel r) as [?|[[Hf Hnl]|[s Hs]]]; [by left|done|..].
    + rewrite (slab_free_foreign m a _ E0 Hf). specialize (IH m a I Hrel' Hap').
      destruct (free_regions m a rs) as [[m' a'] rs']. by apply Hskip.
    + pose proof (free_block m a _ s I Hs) as H1. destruct (slab_free m a (rg_base r)) as [[m1 a1] res].
      specialize (IH m1 a1 (ar_inv _ _ _ _ _ H1)). destruct (free_regions m1 a1 rs) as [[m' a'] rs'].
      eapply arena_released_more; [|apply (arena_released_trans _ (bases rs) _ _ _ _ _ _ H1), IH].
      * intros q t _. unfold bases. split.
        -- intros [<-|(r' & Hr' & <-)]; [exists r; split; [by left|done]|exists r'; split; [by right|done]].
        -- intros (r' & [->|Hr']%elem_of_cons & <-); [by left|right; by exists r'].
      * intros r' Hr'. destruct (Hrel' r' Hr') as [?|[[Hf' Hnl']|[s' Hs']]]; [by left|right; left|right; right].
        -- destruct (ar_region _ _ _ _ _ H1) as [Fr Fb]. split; [unfold in_region; by rewrite Fr, Fb|].
           intros t Ht. apply (ar_live _ _ _ _ _ H1) in Ht as [Ht _]. by apply (Hnl' t).
        -- exists s'. apply (ar_live _ _ _ _ _ H1). split; [done|]. apply list_elem_of_lookup in Hr' as [k Hk].
           by apply (Hap 0%nat (S k) r r' s s').
      * intros k l r1 r2 s1 s2 E1 E2 Hl1 Hl2. apply (ar_live _ _ _ _ _ H1) in Hl1 as [Hl1 _], Hl2 as [Hl2 _].
        by apply (Hap' k l r1 r2 s1 s2).
Qed.

(** ** The invariant *)

Section guests.
Context (img sh : Z -> Prop) (rgn bytes : Z).

(** Program images, shared memory and the arena are apart, the first two at least a
    block header above the arena's end. *)
Record memory_map : Prop := {
  mm_img_sh x : img x -> ~ sh x;
  mm_img_arena x : img x -> ~ rng rgn (bytes + SLAB_HEADER_SIZE) x;
  mm_sh_arena x : sh x -> ~ rng rgn (bytes + SLAB_HEADER_SIZE) x;
  mm_range x : img x \/ sh x -> SLAB_HEADER_SIZE <= x < 0x10000000000000000
}.
Hypothesis Map : memory_map.

(** One of the first three regions of a guest. *)
Inductive private (m : mem) (a : SlabAllocator) (r : VmRegion) : Prop :=
  | pr_none : r = no_region -> private m a r
  | pr_image : rg_writable r = false -> 0 < rg_length r -> (forall x, region_bytes_of r x -> img x) -> private m a r
  | pr_block s : live m a (rg_base r) s -> 0 < rg_length r <= s -> private m a r.

Record guest_ok (m : mem) (a : SlabAllocator) (c : VmCpu) : Prop := {
  go_wf : cpu_wf c;
  go_len : length (regions c) = VM_REGION_COUNT;
  go_private k r : (k < 3)%nat -> regions c !! k = Some r -> private m a r;
  go_readonly k r : (k < 2)%nat -> regions c !! k = Some r -> rg_writable r = false;
  go_shared_base r : regions c !! 3%nat = Some r -> rg_base r = 0 \/ sh (rg_base r);
  go_shared r x : regions c !! 3%nat = Some r \/ r = l2_shared c -> region_bytes_of r x -> sh x
}.

(** The system: host memory, the arena, and the guests by slot. *)
Definition system : Type := mem * SlabAllocator * gmap nat VmCpu.

Record sys_ok (σ : system) : Prop := {
  so_arena : slab_inv σ.1.1 σ.1.2;
  so_mem : mem_ok σ.1.1;
  so_where : region σ.1.2 = rgn /\ region_bytes σ.1.2 = bytes;
  so_guest i c : σ.2 !! i = Some c -> guest_ok σ.1.1 σ.1.2 c;
  so_apart i j k l c d r q s t : σ.2 !! i = Some c -> σ.2 !! j = Some d -> (k < 3)%nat -> (l < 3)%nat ->
    regions c !! k = Some r -> regions d !! l = Some q ->
    live σ.1.1 σ.1.2 (rg_base r) s -> live σ.1.1 σ.1.2 (rg_base q) t -> (i, k) <> (j, l) -> rg_base r <> rg_base q
}.

Lemma live_not_outside m a p s : slab_inv m a -> region a = rgn -> region_bytes a = bytes ->
  live m a p s -> ~ img p /\ ~ sh p /\ p <> 0 /\ forall x, rng p s x -> ~ img x /\ ~ sh x /\ rng rgn bytes x.
Proof.
  intros I Hr Hb Hl. pose proof (live_inside _ _ _ _ I Hl) as Hin. rewrite Hr, Hb in Hin.
  unfold SLAB_HEADER_SIZE in Hin.
  assert (forall x, rng p s x -> ~ img x /\ ~ sh x /\ rng rgn bytes x) as Hx.
  { intros x Hx. unfold rng in Hx. split_and!; [| |unfold rng; lia]; intros H;
      [apply (mm_img_arena Map x H)|apply (mm_sh_arena Map x H)]; unfold rng, SLAB_HEADER_SIZE; lia. }
  assert (rng p s p) as Hp by (unfold rng; lia). destruct (Hx p Hp) as (? & ? & ?). split_and!; auto. lia.
Qed.

Lemma private_kept m a m' a' r : (forall q t, live m a q t -> live m' a' q t) -> private m a r -> private m' a' r.
Proof. intros H [?|? ? ?|s ? ?]; [by apply pr_none|by apply pr_image|by eapply pr_block; [apply H|]]. Qed.

(** A private region whose base is live is a block. *)
Lemma private_live m a m' a' r t : slab_inv m' a' -> region a' = rgn -> region_bytes a' = bytes ->
  private m a r -> live m' a' (rg_base r) t -> exists s, live m a (rg_base r) s.
Proof.
  intros I Hr Hb Hp Hl. destruct (live_not_outside _ _ _ _ I Hr Hb Hl) as (Hi & _ & H0 & _).
  destruct Hp as [->|_ Hlen Him|s Hs _]; [done| |by exists s].
  exfalso. apply Hi, Him. unfold region_bytes_of, rng. lia.
Qed.

(** What a guest may write: shared memory and its data block. *)
Lemma writes_where m a c x : guest_ok m a c -> may_write c x ->
  sh x \/ exists r s, regions c !! 2%nat = Some r /\ live m a (rg_base r) s /\ rg_length r <= s /\
    rng (rg_base r) (rg_length r) x.
Proof.
  intros G (r & Hr & Hw & Hx). destruct Hr as [->|[k Hk]].
  - left. apply (go_shared _ _ _ G (l2_shared c)); [by right|done].
  - pose proof (lookup_lt_Some _ _ _ Hk) as Hlt. rewrite (go_len _ _ _ G) in Hlt. unfold VM_REGION_COUNT in Hlt.
    destruct (decide (k = 3%nat)) as [->|]; [left; apply (go_shared _ _ _ G r); [by left|done]|].
    destruct (decide (k = 2%nat)) as [->|].
    2:{ rewrite (go_readonly _ _ _ G k r) in Hw by (done || lia). done. }
    right. destruct (go_private _ _ _ G 2 r ltac:(lia) Hk) as [->|Hro _ _|s Hs Hl].
    + done.
    + by rewrite Hro in Hw.
    + exists r, s. split_and!; try done. lia.
Qed.

(** What changes when a guest runs, or the host acts for it. *)
Definition reach (c : VmCpu) (x : Z) : Prop := sh x \/ may_write c x.

Lemma reach_where m a c x : guest_ok m a c -> reach c x ->
  sh x \/ exists r s, regions c !! 2%nat = Some r /\ live m a (rg_base r) s /\ rg_length r <= s /\
    rng (rg_base r) (rg_length r) x.
Proof. intros G [Hs|Hw]; [by left|by apply writes_where]. Qed.

(** Nothing private but its own data region is in a guest's reach. *)
Lemma others_unwritten σ i c j d k r x : sys_ok σ -> σ.2 !! i = Some c -> σ.2 !! j = Some d -> (k < 3)%nat ->
  regions d !! k = Some r -> (j, k) <> (i, 2%nat) -> region_bytes_of r x -> ~ reach c x.
Proof.
  intros [I _ [Hr Hb] HG HA] Hi Hj Hk Hd Hne Hx Hw.
  destruct (reach_where _ _ _ _ (HG _ _ Hi) Hw) as [Hsh|(r2 & s & H2 & Hl2 & Hle & Hx2)].
  - destruct (go_private _ _ _ (HG _ _ Hj) k r Hk Hd) as [->|_ _ Him|s Hs Hlen].
    + unfold region_bytes_of, rng in Hx. cbn in Hx. lia.
    + by apply (mm_img_sh Map x (Him x Hx)).
    + destruct (live_not_outside _ _ _ _ I Hr Hb Hs) as (_ & _ & _ & Ho).
      destruct (Ho x) as (_ & Hns & _); [unfold region_bytes_of, rng in *; lia|done].
  - destruct (live_not_outside _ _ _ _ I Hr Hb Hl2) as (_ & _ & _ & Ho).
    destruct (go_private _ _ _ (HG _ _ Hj) k r Hk Hd) as [->|_ _ Him|s' Hs' Hlen].
    + unfold region_bytes_of, rng in Hx. cbn in Hx. lia.
    + destruct (Ho x) as (Hni & _); [unfold rng in *; lia|by apply Hni, Him].
    + pose proof (HA j i k 2%nat d c r r2 s' s Hj Hi Hk ltac:(lia) Hd H2 Hs' Hl2 Hne) as Hbase.
      pose proof (live_disjoint _ _ _ _ _ _ I Hs' Hl2 Hbase) as Hdj.
      unfold region_bytes_of, rng, rdisj, SLAB_HEADER_SIZE in *. lia.
Qed.

(** Nor is the allocator. *)
Lemma arena_unwritten σ i c m' : sys_ok σ -> σ.2 !! i = Some c ->
  mem_agree (fun x => ~ reach c x) σ.1.1 m' ->
  slab_inv m' σ.1.2 /\ (forall q t, live m' σ.1.2 q t <-> live σ.1.1 σ.1.2 q t).
Proof.
  intros [I _ [Hr Hb] HG _] Hi Hag. pose proof (HG _ _ Hi) as G.
  destruct (lookup_lt_is_Some_2 (regions c) 2) as [r H2]; [rewrite (go_len _ _ _ G); unfold VM_REGION_COUNT; lia|].
  assert (forall x, rng rgn bytes x -> ~ sh x) as Hsh.
  { intros x Hx Hs. apply (mm_sh_arena Map x Hs). unfold rng, SLAB_HEADER_SIZE in *. lia. }
  assert ((forall t, ~ live σ.1.1 σ.1.2 (rg_base r) t) \/ exists s, live σ.1.1 σ.1.2 (rg_base r) s /\ rg_length r <= s)
    as [Hno|(s & Hs & Hle)].
  { destruct (go_private _ _ _ G 2 r ltac:(lia) H2) as [->|_ Hlen Him|s Hs Hlen].
    - left. intros t Ht. by destruct (live_not_outside _ _ _ _ I Hr Hb Ht) as (_ & _ & ? & _).
    - left. intros t Ht. destruct (live_not_outside _ _ _ _ I Hr Hb Ht) as (Hni & _). apply Hni, Him.
      unfold region_bytes_of, rng. lia.
    - right. exists s. split; [done|lia]. }
  - apply slab_inv_agree; [done|]. rewrite Hr, Hb. intros x Hx. apply Hag. intros Hw.
    destruct (reach_where _ _ _ _ G Hw) as [H|(r' & s & H2' & Hs & _)]; [by apply (Hsh x)|].
    rewrite H2 in H2'. injection H2' as <-. by apply (Hno s).
  - apply (slab_inv_owner _ _ _ (rg_base r) s); [done|done|]. rewrite Hr, Hb. intros x [Hx Hout]. apply Hag. intros Hw.
    destruct (reach_where _ _ _ _ G Hw) as [H|(r' & s' & H2' & _ & _ & Hx')]; [by apply (Hsh x)|].
    rewrite H2 in H2'. injection H2' as <-. apply Hout. unfold rng in *. lia.
Qed.

Lemma guest_ok_same m a m' a' c c' : (forall q t, live m a q t -> live m' a' q t) ->
  guest_ok m a c -> cpu_wf c' -> regions c' = regions c -> l2_shared c' = l2_shared c -> guest_ok m' a' c'.
Proof.
  intros Hl [H1 H2 H3 H4 H5 H6] W Hr Hl2. split; rewrite ?Hr, ?Hl2; try done.
  intros k r Hk Hd. eapply private_kept; [exact Hl|by eapply H3].
Qed.

(** Memory and one guest's registers change; the blocks stay. *)
Lemma sys_ok_update m a gs m' i c c' : sys_ok (m, a, gs) -> mem_ok m' -> slab_inv m' a ->
  (forall q t, live m' a q t <-> live m a q t) -> gs !! i = Some c ->
  cpu_wf c' -> regions c' = regions c -> l2_shared c' = l2_shared c -> sys_ok (m', a, <[i := c']> gs).
Proof.
  intros [I Hm Hw HG HA] Hm' I' Hl Hi W Hr Hl2. cbn [fst snd] in *.
  assert (forall j d', <[i := c']> gs !! j = Some d' -> exists d, gs !! j = Some d /\ regions d' = regions d) as Hback.
  { intros j d' Hj. destruct (decide (j = i)) as [->|Hne].
    - rewrite lookup_insert_eq in Hj. injection Hj as <-. by exists c.
    - rewrite lookup_insert_ne in Hj by done. by exists d'. }
  split; cbn [fst snd]; try done.
  - intros j d' Hj. destruct (decide (j = i)) as [->|Hne].
    + rewrite lookup_insert_eq in Hj. injection Hj as <-.
      eapply guest_ok_same; [|by apply (HG i c)|done..]. intros q t. apply Hl.
    + rewrite lookup_insert_ne in Hj by done. pose proof (HG _ _ Hj) as G.
      eapply guest_ok_same; [|exact G|apply G|done..]. intros q t. apply Hl.
  - intros j1 j2 k l d1 d2 r q s t H1 H2 Hk Hk2 Hr1 Hr2 Hl1 Hl2' Hne.
    destruct (Hback _ _ H1) as (e1 & E1 & Q1), (Hback _ _ H2) as (e2 & E2 & Q2). rewrite Q1 in Hr1. rewrite Q2 in Hr2.
    apply Hl in Hl1, Hl2'. by apply (HA j1 j2 k l e1 e2 r q s t).
Qed.

(** ** Loading *)

Lemma sys_ok_kept m a gs m' a' : sys_ok (m, a, gs) -> arena_kept m a m' a' -> sys_ok (m', a', gs).
Proof.
  intros [I Hm [Hr Hb] HG HA] K. cbn [fst snd] in *. destruct (ak_region _ _ _ _ K) as [Hr' Hb'].
  rewrite Hr in Hr'. rewrite Hb in Hb'. pose proof (ak_inv _ _ _ _ K) as I'.
  split; cbn [fst snd]; [done|by apply (ak_ok _ _ _ _ K)|done|..].
  - intros i c Hi. pose proof (HG _ _ Hi) as G. eapply guest_ok_same; [|exact G|apply G|done..].
    intros q t Hq. by apply (ak_live _ _ _ _ K).
  - intros i j k l c d r q s t Hi Hj Hk Hl Hrc Hrd Hlr Hlq.
    destruct (private_live m a m' a' r s I' Hr' Hb') as [s' Hs']; [exact (go_private _ _ _ (HG _ _ Hi) k r Hk Hrc)|done|].
    destruct (private_live m a m' a' q t I' Hr' Hb') as [t' Ht']; [exact (go_private _ _ _ (HG _ _ Hj) l q Hl Hrd)|done|].
    by apply (HA i j k l c d r q s' t').
Qed.

(** What the host asks of a load: the image and the shared areas are what they
    should be, and the data region has a 32-bit size with its header. *)
Record load_ok (elf size : Z) (cfg : VmLoaderConfig) : Prop := {
  lo_elf : elf <> 0;
  lo_image x : rng elf size x -> img x;
  lo_apart : rdisj elf size rgn bytes;
  lo_data : 0 < region_data_size cfg /\ region_data_size cfg + SLAB_HEADER_SIZE <= 0x100000000;
  lo_shared_base : shared_base cfg = 0 \/ sh (shared_base cfg);
  lo_shared x : rng (shared_base cfg) (shared_size cfg) x \/ rng (l2_shared_base cfg) (l2_shared_size cfg) x -> sh x
}.

Lemma vm_init_wf id : is_u16 id -> cpu_wf (vm_init id).
Proof.
  intros Hid. split; try done. unfold vm_init. cbn [regs]. by apply Forall_replicate.
Qed.

Lemma vm_init_no_regions id : no_regions (vm_init id).
Proof. split; [done|]. intros i Hi. cbn. by do 3 (destruct i as [|i]; [done|]); lia. Qed.

(** A region that holds a segment or the default data is private to the guest. *)
Lemma region_spec_private m a elf size cfg m' a' k r : mem_ok m -> elf_ok m elf size -> load_ok elf size cfg ->
  0 <= k < 3 -> region_spec m a elf cfg m' a' k r ->
  private m' a' r /\ (k < 2 -> rg_writable r = false) /\
  forall t, live m' a' (rg_base r) t -> slab_inv m' a' -> region a' = rgn -> region_bytes a' = bytes ->
    own_block m a m' a' r.
Proof.
  intros Hm [_ Hps] Lo Hk Hs. unfold region_spec in Hs. destruct (seg_for k (phdrs m elf)) as [p|] eqn:E.
  - destruct (seg_for_Some _ _ _ E) as (Hp & Hl & Hpk). rewrite Forall_forall in Hps.
    pose proof (proj2 (proj2 (Hps p Hp)) Hl) as Hok.
    assert (phdr_u32 p) as Hu.
    { unfold phdrs in Hp. apply list_elem_of_In, in_map_iff in Hp as (n & <- & _). by apply read_phdr_u32. }
    destruct Hs as [_ Hw Hlen _ Hpl]. rewrite Hpk in Hw, Hlen.
    assert (k < 2 -> p_memsz p = p_filesz p /\ 0 < p_filesz p) as Hro
      by (intros; apply (readonly_sizes size p Hok Hu Hl); unfold VM_REGION_DATA; lia).
    assert (0 < rg_length r) as Hpos.
    { rewrite Hlen. pose proof (lo_data _ _ _ Lo). destruct (Z.eqb_spec k VM_REGION_DATA) as [|Ek]; [lia|].
      unfold VM_REGION_DATA in Ek. lia. }
    assert (k < 2 -> rg_writable r = false) as Hwr.
    { intros. rewrite Hw. apply Z.eqb_neq. unfold VM_REGION_DATA. lia. }
    destruct (in_place cfg p) eqn:Ein.
    + destruct (in_place_readonly cfg p Ein) as [Ec|Ec]; unfold VM_REGION_CODE, VM_REGION_RODATA in Ec;
        (destruct (in_place_sizes elf size cfg p Hok Hu Hl Ein) as (_ & Hf & _)).
      all: assert (forall x, region_bytes_of r x -> img x) as Him
        by (intros x Hx; apply (lo_image _ _ _ Lo), (file_range elf size p Hok Hu Hf);
            destruct Hpl as [<- _]; unfold region_bytes_of in Hx; rewrite Hlen in Hx;
            destruct (Z.eqb_spec k VM_REGION_DATA) as [Ek|]; [unfold VM_REGION_DATA in Ek; lia|done]).
      all: split; [apply pr_image; auto with lia|split; [done|]].
      all: intros t Ht I Hr Hb; destruct (live_not_outside _ _ _ _ I Hr Hb Ht) as (Hni & _);
        exfalso; apply Hni, Him; unfold region_bytes_of, rng; lia.
    + split; [destruct Hpl as (_ & s & ? & ?); eapply pr_block; [done|lia]|]. by split.
  - destruct (Z.eqb_spec k VM_REGION_DATA) as [->|Ek].
    + destruct Hs as (Hown & Hlen & _). pose proof (lo_data _ _ _ Lo).
      split; [destruct Hown as (_ & s & ? & ?); eapply pr_block; [done|lia]|]. by split.
    + subst r. split; [by apply pr_none|]. split; [done|].
      intros t Ht I Hr Hb. by destruct (live_not_outside _ _ _ _ I Hr Hb Ht) as (_ & _ & ? & _).
Qed.

Section loaded.
Context (m : mem) (a : SlabAllocator) (id elf size : Z) (cfg : VmLoaderConfig).
Context (m' : mem) (a' : SlabAllocator) (c' : VmCpu).
Hypothesis Mem : mem_ok m.
Hypothesis Id : is_u16 id.
Hypothesis Lo : load_ok elf size cfg.
Hypothesis Eo : elf_ok m elf size.
Hypothesis V : vm_loaded m a (vm_init id) elf cfg m' a' c'.

Lemma loaded_region k r : (k < 3)%nat -> regions c' !! k = Some r ->
  private m' a' r /\ ((k < 2)%nat -> rg_writable r = false) /\
  forall t, live m' a' (rg_base r) t -> slab_inv m' a' -> region a' = rgn -> region_bytes a' = bytes ->
    own_block m a m' a' r.
Proof.
  intros Hk Hr. destruct (vl_regions _ _ _ _ _ _ _ _ V (Z.of_nat k) ltac:(lia)) as (r' & Hr' & Hs).
  rewrite Nat2Z.id, Hr in Hr'. injection Hr' as <-.
  destruct (region_spec_private m a elf size cfg m' a' (Z.of_nat k) r Mem Eo Lo ltac:(lia) Hs) as (H1 & H2 & H3).
  split_and!; try done. intros. apply H2. lia.
Qed.

Lemma loaded_wf : cpu_wf c'.
Proof.
  pose proof (vl_cpu _ _ _ _ _ _ _ _ V) as Hc. pose proof (vl_sp _ _ _ _ _ _ _ _ V) as Hs.
  destruct (e_fields_range m elf Mem) as (He & _ & _). destruct (ho_entry _ _ _ (eo_header _ _ _ Eo)) as [_ Hev].
  destruct (vm_init_wf id Id) as [_ Hregs _ _ _ _ _].
  assert (pc c' = e_entry m elf) as Hpc by by rewrite Hc.
  split.
  - rewrite Hs, length_insert. done.
  - rewrite Hs. apply Forall_insert; [done|].
    pose proof (vl_data_size _ _ _ _ _ _ _ _ V). pose proof (lo_data _ _ _ Lo).
    pose proof (Z.mod_pos_bound (region_data_size cfg) 8 ltac:(lia)).
    pose proof (Z.mod_le (region_data_size cfg) 8 ltac:(lia) ltac:(lia)). umach. lia.
  - unfold reg. rewrite Hs. done.
  - by rewrite Hpc.
  - by rewrite Hpc.
  - by rewrite Hc.
  - by rewrite Hc.
Qed.

Lemma loaded_guest : guest_ok m' a' c'.
Proof.
  split.
  - apply loaded_wf.
  - apply V.
  - intros k r Hk Hr. by apply (loaded_region k r).
  - intros k r Hk Hr. by apply (loaded_region k r); [lia|..].
  - intros r Hr. rewrite (vl_shared _ _ _ _ _ _ _ _ V) in Hr. injection Hr as <-. apply (lo_shared_base _ _ _ Lo).
  - intros r x Hr Hx. apply (lo_shared _ _ _ Lo). destruct Hr as [Hr| ->].
    + rewrite (vl_shared _ _ _ _ _ _ _ _ V) in Hr. injection Hr as <-. by left.
    + rewrite (vl_l2 _ _ _ _ _ _ _ _ V) in Hx. by right.
Qed.
End loaded.

(** A loaded guest joins the others. *)
Lemma sys_ok_load m a gs i id elf size cfg m' a' c' r : sys_ok (m, a, gs) -> gs !! i = None -> is_u16 id ->
  load_ok elf size cfg -> vm_load (m, a, vm_init id) elf size cfg = ((m', a', c'), r) ->
  arena_kept m a m' a' /\
  sys_ok (m', a', if decide (r = VM_LOAD_OK) then <[i := c']> gs else gs).
Proof.
  intros S Hi Hid Lo E. pose proof S as [I Hm [Hr Hb] HG HA]. cbn [fst snd] in *.
  pose proof (lo_data _ _ _ Lo) as [Hd1 Hd2]. pose proof (lo_apart _ _ _ Lo) as Hap. rewrite <-Hr, <-Hb in Hap.
  pose proof (load_spec m a (vm_init id) elf size cfg I Hm Hap Hd1 Hd2 (lo_elf _ _ _ Lo) (vm_init_no_regions id)) as H.
  rewrite E in H. case_decide as Er.
  2:{ assert (arena_kept m a m' a') as K.
      { destruct r; try done; destruct H as [(_ & _ & K)|[_ [= -> -> _]]]; try exact K; by apply arena_kept_refl. }
      split; [done|]. by eapply sys_ok_kept. }
  subst r. destruct H as (Eo & K & V). split; [done|]. pose proof (sys_ok_kept _ _ _ _ _ S K) as [I' Hm' [Hr' Hb'] HG' HA'].
  cbn [fst snd] in *.
  assert (forall j d, <[i := c']> gs !! j = Some d -> j = i /\ d = c' \/ gs !! j = Some d /\ j <> i) as Hcase.
  { intros j d Hj. destruct (decide (j = i)) as [->|Hne].
    - rewrite lookup_insert_eq in Hj. injection Hj as <-. by left.
    - rewrite lookup_insert_ne in Hj by done. by right. }
  assert (forall j d k l r q s t, gs !! j = Some d -> (k < 3)%nat -> (l < 3)%nat -> regions c' !! k = Some r ->
    regions d !! l = Some q -> live m' a' (rg_base r) s -> live m' a' (rg_base q) t -> rg_base r <> rg_base q) as Hnew.
  { intros j d k l r q s t Hj Hk Hl Hrr Hq Hs Ht Heq.
    destruct (loaded_region m a id elf size cfg m' a' c' Hm Lo Eo V k r Hk Hrr) as (_ & _ & Hown).
    destruct (Hown s Hs I' Hr' Hb') as [Hfr _].
    destruct (private_live m a m' a' q t I' Hr' Hb' (go_private _ _ _ (HG _ _ Hj) l q Hl Hq) Ht) as [t' Ht'].
    rewrite <-Heq in Ht'. by apply (Hfr t'). }
  split; cbn [fst snd]; [done|done|done|..].
  - intros j d Hj. destruct (Hcase j d Hj) as [[-> ->]|[Hj' _]]; [|by apply (HG' j)].
    by apply (loaded_guest m a id elf size cfg).
  - intros j1 j2 k l d1 d2 r q s t H1 H2 Hk Hl Hr1 Hr2 Hl1 Hl2 Hne.
    destruct (Hcase _ _ H1) as [[-> ->]|[H1' _]], (Hcase _ _ H2) as [[-> ->]|[H2' _]].
    + apply (vl_apart _ _ _ _ _ _ _ _ V k l r q s t); try done. congruence.
    + by apply (Hnew j2 d2 k l r q s t).
    + intros Heq. symmetry in Heq. by apply (Hnew j1 d1 l k q r t s) in Heq.
    + by apply (HA' j1 j2 k l d1 d2 r q s t).
Qed.

(** ** Unloading *)

Lemma outside_foreign m a p : slab_inv m a -> region a = rgn -> region_bytes a = bytes -> img p \/ sh p ->
  in_region a (header_of p) = false /\ forall t, ~ live m a p t.
Proof.
  intros I Hr Hb Hp. pose proof (mm_range Map p Hp). split.
  - assert (~ rng rgn (bytes + SLAB_HEADER_SIZE) p) as Hn
      by (destruct Hp; [by apply (mm_img_arena Map)|by apply (mm_sh_arena Map)]).
    unfold in_region, header_of, rng, SLAB_HEADER_SIZE in *. rewrite Hr, Hb, u64_small by (umach; lia).
    apply not_true_iff_false. lia.
  - intros t Ht. destruct (live_not_outside _ _ _ _ I Hr Hb Ht) as (? & ? & _). tauto.
Qed.

Lemma guest_releasable m a c r : slab_inv m a -> region a = rgn -> region_bytes a = bytes -> guest_ok m a c ->
  r ∈ regions c -> releasable m a r.
Proof.
  intros I Hr Hb G [k Hk]%list_elem_of_lookup. pose proof (lookup_lt_Some _ _ _ Hk) as Hlt.
  rewrite (go_len _ _ _ G) in Hlt. unfold VM_REGION_COUNT in Hlt. destruct (decide (k = 3%nat)) as [->|].
  - destruct (go_shared_base _ _ _ G r Hk) as [?|Hsh]; [by left|right; left].
    apply (outside_foreign m a); auto.
  - destruct (go_private _ _ _ G k r ltac:(lia) Hk) as [->|_ Hlen Him|s Hs _]; [by left|right; left|right; right; by exists s].
    apply (outside_foreign m a); try done. left. apply Him. unfold region_bytes_of, rng. lia.
Qed.

(** The shared region is no block. *)
Lemma block_index m a c k r s : slab_inv m a -> region a = rgn -> region_bytes a = bytes -> guest_ok m a c ->
  regions c !! k = Some r -> live m a (rg_base r) s -> (k < 3)%nat.
Proof.
  intros I Hr Hb G Hk Hs. pose proof (lookup_lt_Some _ _ _ Hk) as Hlt. rewrite (go_len _ _ _ G) in Hlt.
  unfold VM_REGION_COUNT in Hlt. destruct (decide (k = 3%nat)) as [->|]; [|lia]. exfalso.
  destruct (live_not_outside _ _ _ _ I Hr Hb Hs) as (_ & Hns & H0 & _). by destruct (go_shared_base _ _ _ G r Hk).
Qed.

Lemma guest_bases_apart m a gs i c k l r q s t : sys_ok (m, a, gs) -> gs !! i = Some c ->
  regions c !! k = Some r -> regions c !! l = Some q -> live m a (rg_base r) s -> live m a (rg_base q) t ->
  k <> l -> rg_base r <> rg_base q.
Proof.
  intros [I _ [Hr Hb] HG HA] Hi Hk Hl Hs Ht Hne. cbn [fst snd] in *. pose proof (HG _ _ Hi) as G.
  apply (HA i i k l c c r q s t); try done; [by apply (block_index m a c k r s)|by apply (block_index m a c l q t)|congruence].
Qed.

Lemma sys_ok_unload m a gs i c : sys_ok (m, a, gs) -> gs !! i = Some c ->
  let '(m', a', _) := free_regions m a (regions c) in
  sys_ok (m', a', delete i gs) /\ arena_released (bases (regions c)) m a m' a'.
Proof.
  intros S Hi. pose proof S as [I Hm [Hr Hb] HG HA]. cbn [fst snd] in *.
  pose proof (free_regions_spec (regions c) m a I) as Hf.
  destruct (free_regions m a (regions c)) as [[m' a'] rs].
  destruct Hf as [I' [Hr' Hb'] Hfr Hl Hkp Hok]; [intros r; exact (guest_releasable m a c r I Hr Hb (HG _ _ Hi))|
    intros k l r q s t Hk Hl; exact (guest_bases_apart m a gs i c k l r q s t S Hi Hk Hl)|].
  split; [|by split]. assert (forall j d, delete i gs !! j = Some d -> j <> i /\ gs !! j = Some d) as Hdel
    by (intros j d [? ?]%lookup_delete_Some; done).
  split; cbn [fst snd]; [done|auto|split; congruence|..].
  - intros j d [Hne Hj]%Hdel. pose proof (HG _ _ Hj) as G. destruct G as [G1 G2 G3 G4 G5 G6]. split; try done.
    intros k r Hk Hd. destruct (G3 k r Hk Hd) as [?|? ? ?|s Hs ?]; [by apply pr_none|by apply pr_image|].
    eapply pr_block; [|done]. apply Hl. split; [done|]. intros (q & [k' Hq]%list_elem_of_lookup & Heq).
    assert (exists t, live m a (rg_base q) t) as [t Ht] by (rewrite Heq; by exists s).
    pose proof (block_index m a c k' q t I Hr Hb (HG _ _ Hi) Hq Ht) as Hk'.
    apply (HA i j k' k c d q r t s); try done. congruence.
  - intros j1 j2 k l d1 d2 r q s t [_ H1]%Hdel [_ H2]%Hdel Hk Hl' Hr1 Hr2 [Hl1 _]%Hl [Hl2 _]%Hl.
    by apply (HA j1 j2 k l d1 d2 r q s t).
Qed.

(** ** Histories *)

Inductive sys_step : system -> system -> Prop :=
  | ss_load m a gs i id elf size cfg m' a' c' r :
      gs !! i = None -> is_u16 id -> load_ok elf size cfg ->
      vm_load (m, a, vm_init id) elf size cfg = ((m', a', c'), r) ->
      sys_step (m, a, gs) (m', a', if decide (r = VM_LOAD_OK) then <[i := c']> gs else gs)
  | ss_run m a gs i c budget r c' m' n :
      gs !! i = Some c -> 0 <= budget -> vm_step c m budget = (r, c', m', n) ->
      sys_step (m, a, gs) (m', a, <[i := c']> gs)
  | ss_host m a gs i c c' m' :   (** a handler or the scheduler, for guest [i] *)
      gs !! i = Some c -> cpu_wf c' -> regions c' = regions c -> l2_shared c' = l2_shared c ->
      mem_ok m' -> mem_agree (fun x => ~ reach c x) m m' ->
      sys_step (m, a, gs) (m', a, <[i := c']> gs)
  | ss_unload m a gs i c m' a' rs :
      gs !! i = Some c -> free_regions m a (regions c) = (m', a', rs) ->
      sys_step (m, a, gs) (m', a', delete i gs).

(** A quantum changes only what is in reach. *)
Lemma run_reach m a gs i c budget r c' m' n : sys_ok (m, a, gs) -> gs !! i = Some c -> 0 <= budget ->
  vm_step c m budget = (r, c', m', n) ->
  cpu_wf c' /\ regions c' = regions c /\ l2_shared c' = l2_shared c /\ mem_ok m' /\
  mem_agree (fun x => ~ reach c x) m m'.
Proof.
  intros S Hi Hb E. pose proof (so_guest _ S i c Hi) as G.
  pose proof (vm_step_effect c m budget (go_wf _ _ _ G) (so_mem _ S) Hb) as H. rewrite E in H.
  destruct H as (Hag & (Hr & Hl & _) & W & Hm). split_and!; try done.
  eapply mem_agree_mono; [|exact Hag]. unfold reach. tauto.
Qed.

Lemma sys_step_ok σ σ' : sys_step σ σ' -> sys_ok σ -> sys_ok σ'.
Proof.
  intros St S. destruct St as [m a gs i id elf size cfg m' a' c' r Hi Hid Lo E|m a gs i c budget r c' m' n Hi Hb E
    |m a gs i c c' m' Hi W Hr Hl Hm Hag|m a gs i c m' a' rs Hi E].
  - by apply (sys_ok_load _ _ _ _ _ _ _ _ _ _ _ _ S Hi Hid Lo E).
  - destruct (run_reach _ _ _ _ _ _ _ _ _ _ S Hi Hb E) as (W & Hr & Hl & Hm & Hag).
    destruct (arena_unwritten _ _ _ _ S Hi Hag) as [I' Hlv]. by eapply sys_ok_update.
  - destruct (arena_unwritten _ _ _ _ S Hi Hag) as [I' Hlv]. by eapply sys_ok_update.
  - pose proof (sys_ok_unload m a gs i c S Hi) as H. rewrite E in H. apply H.
Qed.

Lemma sys_ok_empty m a : slab_inv m a -> mem_ok m -> region a = rgn -> region_bytes a = bytes -> sys_ok (m, a, ∅).
Proof. intros. by split. Qed.

Lemma sys_run_ok m0 a0 σ : slab_inv m0 a0 -> mem_ok m0 -> region a0 = rgn -> region_bytes a0 = bytes ->
  rtc sys_step (m0, a0, ∅) σ -> sys_ok σ.
Proof.
  intros I Hm Hr Hb Hrun. pose proof (sys_ok_empty _ _ I Hm Hr Hb) as S0.
  induction Hrun as [|x y z Hxy _ IH]; [done|]. by apply IH, (sys_step_ok x).
Qed.

(** A private region rides out a change that spares its block. *)
Lemma private_bytes m a m' r : private m a r -> mem_frame rgn bytes m m' ->
  (forall t, live m a (rg_base r) t -> mem_agree (rng (rg_base r) t) m m') -> mem_agree (region_bytes_of r) m m'.
Proof.
  intros Hp Hf Hb x Hx. destruct Hp as [->|_ _ Him|s Hs Hl].
  - unfold region_bytes_of, rng in Hx. cbn in Hx. lia.
  - apply Hf. intros Hr. apply (mm_img_arena Map x (Him x Hx)). unfold rng, SLAB_HEADER_SIZE in *. lia.
  - apply (Hb s Hs). unfold region_bytes_of, rng in *. lia.
Qed.

Lemma load_spares m a gs i id elf size cfg m' a' c' r j d k q : sys_ok (m, a, gs) -> gs !! i = None -> is_u16 id ->
  load_ok elf size cfg -> vm_load (m, a, vm_init id) elf size cfg = ((m', a', c'), r) ->
  gs !! j = Some d -> (k < 3)%nat -> regions d !! k = Some q -> mem_agree (region_bytes_of q) m m'.
Proof.
  intros S Hi Hid Lo E Hj Hk Hq. destruct (sys_ok_load _ _ _ _ _ _ _ _ _ _ _ _ S Hi Hid Lo E) as [K _].
  destruct (so_where _ S) as [Hr Hb]. pose proof (ak_frame _ _ _ _ K) as Hf. cbn [fst snd] in *. rewrite Hr, Hb in Hf.
  apply (private_bytes m a); [by apply (go_private _ _ _ (so_guest _ S j d Hj) k)|done|].
  intros t Ht. by apply (ak_live _ _ _ _ K).
Qed.

Lemma unload_spares m a gs i c m' a' rs j d k q : sys_ok (m, a, gs) -> gs !! i = Some c ->
  free_regions m a (regions c) = (m', a', rs) -> gs !! j = Some d -> j <> i -> (k < 3)%nat ->
  regions d !! k = Some q -> mem_agree (region_bytes_of q) m m'.
Proof.
  intros S Hi E Hj Hne Hk Hq. pose proof (sys_ok_unload m a gs i c S Hi) as H. rewrite E in H. destruct H as [_ R].
  pose proof S as [I _ [Hr Hb] HG HA]. pose proof (ar_frame _ _ _ _ _ R) as Hf. cbn [fst snd] in *. rewrite Hr, Hb in Hf.
  apply (private_bytes m a); [by apply (go_private _ _ _ (HG j d Hj) k)|done|].
  intros t Ht. apply (ar_kept _ _ _ _ _ R); [done|]. intros (r & [l Hl]%list_elem_of_lookup & Heq).
  assert (live m a (rg_base r) t) as Ht' by by rewrite Heq.
  pose proof (block_index m a c l r t I Hr Hb (HG _ _ Hi) Hl Ht') as Hl3.
  apply (HA i j l k c d r q t t); try done. congruence.
Qed.

End guests.

(** ** Properties *)

(** C4. Guests are isolated from one another, from the allocator and from their own
    code: after any history of loads, quanta, host calls and unloads on one arena, a
    quantum of guest [i] leaves the arena's bookkeeping and set of live blocks intact,
    writes nothing but shared memory and [i]'s own data region, and in particular no
    byte of any region of another guest and no byte of [i]'s code or constants, even
    when these are blocks of the same arena. *)
Theorem guests_isolated img sh m0 a0 m a gs i c budget :
  memory_map img sh (region a0) (region_bytes a0) -> slab_inv m0 a0 -> mem_ok m0 ->
  rtc (sys_step img sh (region a0) (region_bytes a0)) (m0, a0, ∅) (m, a, gs) ->
  gs !! i = Some c -> 0 <= budget ->
  let '(_, c', m', _) := vm_step c m budget in
  slab_inv m' a /\ (forall p s, live m' a p s <-> live m a p s) /\
  (forall x, ~ sh x -> m' x <> m x -> exists q, regions c !! 2%nat = Some q /\ region_bytes_of q x) /\
  (forall j d k q x, gs !! j = Some d -> (k < 3)%nat -> regions d !! k = Some q -> (j, k) <> (i, 2%nat) ->
     region_bytes_of q x -> m' x = m x).
Proof.
  intros M I Hm Hrun Hi Hb. pose proof (sys_run_ok img sh _ _ M _ _ _ I Hm eq_refl eq_refl Hrun) as S.
  destruct (vm_step c m budget) as [[[r c'] m'] n] eqn:E.
  destruct (run_reach _ _ _ _ _ _ _ _ _ _ _ _ _ _ S Hi Hb E) as (_ & _ & _ & _ & Hag).
  destruct (arena_unwritten _ _ _ _ M _ _ _ _ S Hi Hag) as [I' Hlv]. split_and!; [done|done|..].
  - intros x Hs Hx. assert (Decision (exists q, regions c !! 2%nat = Some q /\ region_bytes_of q x)) as D.
    { destruct (regions c !! 2%nat) as [q|]; [|right; intros (q & ? & _); done].
      destruct (decide (rng (rg_base q) (rg_length q) x)) as [Hq|Hq]; [left; by exists q|].
      right. intros (q' & [= <-] & Hq'). by apply Hq. }
    destruct D as [D|D]; [done|]. exfalso. apply Hx. symmetry. apply Hag. intros Hr.
    destruct (reach_where _ _ _ _ _ _ (so_guest _ _ _ _ _ S i c Hi) Hr) as [?|(q & _ & Hq & _ & _ & Hxq)]; [done|].
    apply D. by exists q.
  - intros j d k q x Hj Hk Hq Hne Hx. symmetry. apply Hag.
    by apply (others_unwritten _ _ _ _ M (m, a, gs) i c j d k q).
Qed.

(** Loading and unloading leave the other guests alone: after any history, loading
    a program (also when it fails) or unloading guest [i] changes no byte of any region
    of the guests that stay, and unloading gives back exactly the blocks of [i]'s
    regions. *)
Theorem load_unload_isolated img sh m0 a0 m a gs i :
  memory_map img sh (region a0) (region_bytes a0) -> slab_inv m0 a0 -> mem_ok m0 ->
  rtc (sys_step img sh (region a0) (region_bytes a0)) (m0, a0, ∅) (m, a, gs) ->
  match gs !! i with
  | None => forall id elf size cfg, is_u16 id -> load_ok img sh (region a0) (region_bytes a0) elf size cfg ->
      let '((m', _, _), _) := vm_load (m, a, vm_init id) elf size cfg in
      forall j d k q, gs !! j = Some d -> (k < 3)%nat -> regions d !! k = Some q -> mem_agree (region_bytes_of q) m m'
  | Some c =>
      let '(m', a', _) := free_regions m a (regions c) in
      slab_inv m' a' /\ (forall p s, live m' a' p s <-> live m a p s /\ ~ bases (regions c) p) /\
      forall j d k q, gs !! j = Some d -> j <> i -> (k < 3)%nat -> regions d !! k = Some q ->
        mem_agree (region_bytes_of q) m m'
  end.
Proof.
  intros M I Hm Hrun. pose proof (sys_run_ok img sh _ _ M _ _ _ I Hm eq_refl eq_refl Hrun) as S.
  destruct (gs !! i) as [c|] eqn:Hi.
  - pose proof (sys_ok_unload _ _ _ _ M m a gs i c S Hi) as H.
    destruct (free_regions m a (regions c)) as [[m' a'] rs] eqn:E. destruct H as [_ R].
    split_and!; [apply R|apply R|]. intros j d k q. by apply (unload_spares _ _ _ _ M _ _ _ _ _ _ _ _ _ _ _ _ S Hi E).
  - intros id elf size cfg Hid Lo. destruct (vm_load _ elf size cfg) as [[[m' a'] c'] r] eqn:E.
    intros j d k q. by apply (load_spares _ _ _ _ M _ _ _ _ _ _ _ _ _ _ _ _ _ _ _ _ S Hi Hid Lo E).
Qed.

(** ** Two guests *)

(** The image of [VmLoader] at [0x9000], no shared memory, the arena at [0x1000]. *)
Definition demo_img (x : Z) : Prop := rng 0x9000 138 x.
Definition demo_sh (x : Z) : Prop := False.

Lemma demo_map : memory_map demo_img demo_sh 0x1000 512.
Proof. split; unfold demo_img, demo_sh, rng, SLAB_HEADER_SIZE; intros; lia || tauto. Qed.

Lemma demo_load_ok : load_ok demo_img demo_sh 0x1000 512 0x9000 138 demo_cfg_load.
Proof. split; unfold demo_img, demo_sh, rng, rdisj, SLAB_HEADER_SIZE; cbn; intros; lia || auto. Qed.

Definition first_load : machine * VmLoadResult := demo_load 0x80000000.
Definition second_load : machine * VmLoadResult :=
  vm_load (first_load.1.1.1, first_load.1.1.2, vm_init 4) 0x9000 138 demo_cfg_load.

(** Two copies of the program, in slots 3 and 4. *)
Definition two_guests : gmap nat VmCpu := <[4%nat := second_load.1.2]> (<[3%nat := first_load.1.2]> ∅).

Lemma two_guests_loaded : first_load.2 = VM_LOAD_OK /\ second_load.2 = VM_LOAD_OK.
Proof. by vm_compute. Qed.

Lemma second_load_eq : vm_load (first_load.1.1.1, first_load.1.1.2, vm_init 4) 0x9000 138 demo_cfg_load = second_load.
Proof. unfold second_load. reflexivity. Qed.

Lemma load_step img sh rgn bytes m a gs i id elf size cfg o : gs !! i = None -> is_u16 id ->
  load_ok img sh rgn bytes elf size cfg -> vm_load (m, a, vm_init id) elf size cfg = o -> o.2 = VM_LOAD_OK ->
  sys_step img sh rgn bytes (m, a, gs) (o.1.1.1, o.1.1.2, <[i := o.1.2]> gs).
Proof.
  intros Hi Hid Lo E Ho. destruct o as [[[m' a'] c'] r]. cbn in Ho. subst r.
  exact (ss_load img sh rgn bytes m a gs i id elf size cfg m' a' c' VM_LOAD_OK Hi Hid Lo E).
Qed.

Lemma two_loads img sh rgn bytes m a elf size cfg o1 o2 : load_ok img sh rgn bytes elf size cfg ->
  vm_load (m, a, vm_init 3) elf size cfg = o1 -> o1.2 = VM_LOAD_OK ->
  vm_load (o1.1.1.1, o1.1.1.2, vm_init 4) elf size cfg = o2 -> o2.2 = VM_LOAD_OK ->
  rtc (sys_step img sh rgn bytes) (m, a, ∅)
    (o2.1.1.1, o2.1.1.2, <[4%nat := o2.1.2]> (<[3%nat := o1.1.2]> ∅)).
Proof.
  intros Lo E1 H1 E2 H2. eapply rtc_l; [|apply rtc_once].
  - by apply (load_step _ _ _ _ m a ∅ 3 3 elf size cfg o1).
  - by apply (load_step _ _ _ _ _ _ (<[3%nat := o1.1.2]> ∅) 4 4 elf size cfg o2).
Qed.

Lemma two_guests_run :
  rtc (sys_step demo_img demo_sh 0x1000 512)
    ((demo_arena 0x80000000).1, (demo_arena 0x80000000).2, ∅) (second_load.1.1.1, second_load.1.1.2, two_guests).
Proof.
  exact (two_loads _ _ _ _ _ _ _ _ _ first_load second_load demo_load_ok eq_refl (proj1 two_guests_loaded)
    second_load_eq (proj2 two_guests_loaded)).
Qed.

(** The first guest runs to its call while the second is loaded. *)
Lemma guests_isolated_witness :
  let m := second_load.1.1.1 in let a := second_load.1.1.2 in let c := first_load.1.2 in
  ((vm_step c m 100).1.1.1 = VM_STEP_ECALL /\ load32 (vm_step c m 100).1.2 (rg_base (nth 2 (regions c) no_region) + 4) = 8) /\
  let '(_, c', m', _) := vm_step c m 100 in
  slab_inv m' a /\ (forall p s, live m' a p s <-> live m a p s) /\
  (forall x, ~ demo_sh x -> m' x <> m x -> exists q, regions c !! 2%nat = Some q /\ region_bytes_of q x) /\
  (forall j d k q x, two_guests !! j = Some d -> (k < 3)%nat -> regions d !! k = Some q -> (j, k) <> (3%nat, 2%nat) ->
     region_bytes_of q x -> m' x = m x).
Proof.
  destruct (demo_arena_start 0x80000000) as (I & Hm & Hr & Hb). split; [split; by vm_compute|].
  apply (guests_isolated demo_img demo_sh (demo_arena 0x80000000).1 (demo_arena 0x80000000).2
    second_load.1.1.1 second_load.1.1.2 two_guests 3 first_load.1.2 100); rewrite ?Hr, ?Hb.
  - exact demo_map.
  - exact I.
  - exact Hm.
  - exact two_guests_run.
  - reflexivity.
  - lia.
Defined.

Lemma load_unload_isolated_witness :
  let m := second_load.1.1.1 in let a := second_load.1.1.2 in
  match two_guests !! 3%nat with
  | None => forall id elf size cfg, is_u16 id -> load_ok demo_img demo_sh 0x1000 512 elf size cfg ->
      let '((m', _, _), _) := vm_load (m, a, vm_init id) elf size cfg in
      forall j d k q, two_guests !! j = Some d -> (k < 3)%nat -> regions d !! k = Some q -> mem_agree (region_bytes_of q) m m'
  | Some c =>
      let '(m', a', _) := free_regions m a (regions c) in
      slab_inv m' a' /\ (forall p s, live m' a' p s <-> live m a p s /\ ~ bases (regions c) p) /\
      forall j d k q, two_guests !! j = Some d -> j <> 3%nat -> (k < 3)%nat -> regions d !! k = Some q ->
        mem_agree (region_bytes_of q) m m'
  end.
Proof.
  destruct (demo_arena_start 0x80000000) as (I & Hm & Hr & Hb). cbv zeta.
  pose proof (load_unload_isolated demo_img demo_sh (demo_arena 0x80000000).1 (demo_arena 0x80000000).2
    second_load.1.1.1 second_load.1.1.2 two_guests 3) as H.
  rewrite Hr, Hb in H. apply H; [exact demo_map|exact I|exact Hm|exact two_guests_run].
Defined.
