(* ===== verification/Rv32Spec.v ===== *)
(** The abstract specification of the interpreter: the RV32IMC instructions the
    CPU accepts as an abstract syntax, their decoding as the tables of the
    instruction-set manual give it (bit fields, immediates as weighted sums), and their meaning in integer arithmetic on
    signed and unsigned register values.  Nothing here follows the code; the
    file [Rv32Refine] proves that the code implements it. *)
From S2P Require Import Prelude HostMem VmCpu.

(** ** Values *)

(** Bits [lo, lo+n) of [x], and the signed value of an [n]-bit field. *)
Definition bits (x lo n : Z) : Z := Z.land (Z.shiftr x lo) (Z.ones n).
Definition sx (n v : Z) : Z := if v <? 2 ^ (n - 1) then v else v - 2 ^ n.

Lemma bits_div x lo n : 0 <= lo -> 0 <= n -> bits x lo n = (x / 2 ^ lo) mod 2 ^ n.
Proof. intros. unfold bits. by rewrite Z.land_ones, Z.shiftr_div_pow2. Qed.

Definition signed (x : Z) : Z := sx 32 x.
Definition trunc (x : Z) : Z := x mod 2 ^ 32.

(** ** Instructions *)

Inductive alu_op := ADD | SUB | SLL | SLT | SLTU | XOR | SRL | SRA | OR | AND.
Inductive mul_op := MUL | MULH | MULHSU | MULHU | DIV | DIVU | REM | REMU.
Inductive load_op := LB | LH | LW | LBU | LHU.
Inductive store_op := SB | SH | SW.
Inductive branch_op := BEQ | BNE | BLT | BGE | BLTU | BGEU.

Inductive instr :=
  | ALUI (op : alu_op) (rd rs1 imm : Z)
  | ALU (op : alu_op) (rd rs1 rs2 : Z)
  | MULDIV (op : mul_op) (rd rs1 rs2 : Z)
  | LUI (rd imm : Z)
  | AUIPC (rd imm : Z)
  | LOAD (op : load_op) (rd rs1 imm : Z)
  | STORE (op : store_op) (rs1 rs2 imm : Z)
  | BRANCH (op : branch_op) (rs1 rs2 imm : Z)
  | JAL (rd imm : Z)
  | JALR (rd rs1 imm : Z)
  | FENCE
  | ECALL
  | EBREAK
  | CSR (rd csr : Z).

#[export] Instance instr_eq_dec : EqDecision instr.
Proof. unfold EqDecision, Decision. repeat decide equality. Defined.

(** ** 32-bit encodings *)

Definition i_imm (w : Z) : Z := sx 12 (bits w 20 12).
Definition s_imm (w : Z) : Z := sx 12 (bits w 25 7 * 32 + bits w 7 5).
Definition b_imm (w : Z) : Z :=
  sx 13 (bits w 31 1 * 4096 + bits w 7 1 * 2048 + bits w 25 6 * 32 + bits w 8 4 * 2).
Definition j_imm (w : Z) : Z :=
  sx 21 (bits w 31 1 * 1048576 + bits w 12 8 * 4096 + bits w 20 1 * 2048 + bits w 21 10 * 2).
Definition u_imm (w : Z) : Z := bits w 12 20 * 4096.

Definition decode_op_imm (w : Z) : option alu_op :=
  match bits w 12 3 with
  | 0 => Some ADD | 2 => Some SLT | 3 => Some SLTU
  | 4 => Some XOR | 6 => Some OR | 7 => Some AND
  | 1 => if bits w 25 7 =? 0 then Some SLL else None
  | 5 => if bits w 25 7 =? 0 then Some SRL
         else if bits w 25 7 =? 32 then Some SRA else None
  | _ => None
  end.

Definition is_shift (op : alu_op) : bool :=
  match op with SLL | SRL | SRA => true | _ => false end.

Definition decode_op (f3 f7 : Z) : option alu_op :=
  match f7, f3 with
  | 0, 0 => Some ADD | 32, 0 => Some SUB
  | 0, 1 => Some SLL | 0, 2 => Some SLT | 0, 3 => Some SLTU | 0, 4 => Some XOR
  | 0, 5 => Some SRL | 32, 5 => Some SRA
  | 0, 6 => Some OR | 0, 7 => Some AND
  | _, _ => None
  end.

Definition decode_mul (f3 : Z) : option mul_op :=
  match f3 with
  | 0 => Some MUL | 1 => Some MULH | 2 => Some MULHSU | 3 => Some MULHU
  | 4 => Some DIV | 5 => Some DIVU | 6 => Some REM | 7 => Some REMU
  | _ => None
  end.

Definition decode_load (f3 : Z) : option load_op :=
  match f3 with
  | 0 => Some LB | 1 => Some LH | 2 => Some LW | 4 => Some LBU | 5 => Some LHU
  | _ => None
  end.

Definition decode_store (f3 : Z) : option store_op :=
  match f3 with 0 => Some SB | 1 => Some SH | 2 => Some SW | _ => None end.

Definition decode_branch (f3 : Z) : option branch_op :=
  match f3 with
  | 0 => Some BEQ | 1 => Some BNE | 4 => Some BLT | 5 => Some BGE | 6 => Some BLTU
  | 7 => Some BGEU | _ => None
  end.

Definition decode_system (w : Z) : option instr :=
  match bits w 12 3 with
  | 0 => match bits w 20 12 with 0 => Some ECALL | 1 => Some EBREAK | _ => None end
  | 4 => None
  | _ => Some (CSR (bits w 7 5) (bits w 20 12))
  end.

Definition decode32 (w : Z) : option instr :=
  let rd := bits w 7 5 in
  let rs1 := bits w 15 5 in
  let rs2 := bits w 20 5 in
  let f3 := bits w 12 3 in
  match bits w 0 7 with
  | 0x13 =>
      op ← decode_op_imm w;
      Some (ALUI op rd rs1 (if is_shift op then rs2 else i_imm w))
  | 0x33 =>
      if bits w 25 7 =? 1 then op ← decode_mul f3; Some (MULDIV op rd rs1 rs2)
      else op ← decode_op f3 (bits w 25 7); Some (ALU op rd rs1 rs2)
  | 0x37 => Some (LUI rd (u_imm w))
  | 0x17 => Some (AUIPC rd (u_imm w))
  | 0x03 => op ← decode_load f3; Some (LOAD op rd rs1 (i_imm w))
  | 0x23 => op ← decode_store f3; Some (STORE op rs1 rs2 (s_imm w))
  | 0x63 => op ← decode_branch f3; Some (BRANCH op rs1 rs2 (b_imm w))
  | 0x6F => Some (JAL rd (j_imm w))
  | 0x67 => if f3 =? 0 then Some (JALR rd rs1 (i_imm w)) else None
  | 0x0F => if f3 <? 2 then Some FENCE else None
  | 0x73 => decode_system w
  | _ => None
  end.

(** ** 16-bit encodings *)

(** [x8 .. x15], named by a three-bit field. *)
Definition cr (c lo : Z) : Z := 8 + bits c lo 3.

Definition ci_imm (c : Z) : Z := sx 6 (bits c 12 1 * 32 + bits c 2 5).
Definition cl_imm (c : Z) : Z := bits c 5 1 * 64 + bits c 10 3 * 8 + bits c 6 1 * 4.
Definition j11_imm (c : Z) : Z :=
  sx 12 (bits c 12 1 * 2048 + bits c 8 1 * 1024 + bits c 9 2 * 256 + bits c 6 1 * 128 +
         bits c 7 1 * 64 + bits c 2 1 * 32 + bits c 11 1 * 16 + bits c 3 3 * 2).
Definition cb_imm (c : Z) : Z :=
  sx 9 (bits c 12 1 * 256 + bits c 5 2 * 64 + bits c 2 1 * 32 + bits c 10 2 * 8 +
        bits c 3 2 * 2).
Definition addi4spn_imm (c : Z) : Z :=
  bits c 7 4 * 64 + bits c 11 2 * 16 + bits c 5 1 * 8 + bits c 6 1 * 4.
Definition addi16sp_imm (c : Z) : Z :=
  sx 10 (bits c 12 1 * 512 + bits c 3 2 * 128 + bits c 5 1 * 64 + bits c 2 1 * 32 +
         bits c 6 1 * 16).
Definition clui_imm (c : Z) : Z := trunc (sx 18 (bits c 12 1 * 131072 + bits c 2 5 * 4096)).
Definition lwsp_imm (c : Z) : Z := bits c 2 2 * 64 + bits c 12 1 * 32 + bits c 4 3 * 4.
Definition swsp_imm (c : Z) : Z := bits c 7 2 * 64 + bits c 9 4 * 4.

Definition decode_q0 (c : Z) : option instr :=
  match bits c 13 3 with
  | 0 => if addi4spn_imm c =? 0 then None else Some (ALUI ADD (cr c 2) 2 (addi4spn_imm c))
  | 2 => Some (LOAD LW (cr c 2) (cr c 7) (cl_imm c))
  | 6 => Some (STORE SW (cr c 7) (cr c 2) (cl_imm c))
  | _ => None
  end.

Definition decode_q1_alu (c : Z) : option instr :=
  let rd := cr c 7 in
  match bits c 10 2 with
  | 0 => if bits c 12 1 =? 0 then Some (ALUI SRL rd rd (bits c 2 5)) else None
  | 1 => if bits c 12 1 =? 0 then Some (ALUI SRA rd rd (bits c 2 5)) else None
  | 2 => Some (ALUI AND rd rd (ci_imm c))
  | _ =>
      if negb (bits c 12 1 =? 0) then None else
      Some (ALU (match bits c 5 2 with 0 => SUB | 1 => XOR | 2 => OR | _ => AND end)
             rd rd (cr c 2))
  end.

Definition decode_q1 (c : Z) : option instr :=
  let rd := bits c 7 5 in
  match bits c 13 3 with
  | 0 => Some (ALUI ADD rd rd (ci_imm c))
  | 1 => Some (JAL 1 (j11_imm c))
  | 2 => Some (ALUI ADD rd 0 (ci_imm c))
  | 3 =>
      if rd =? 2 then
        if addi16sp_imm c =? 0 then None else Some (ALUI ADD 2 2 (addi16sp_imm c))
      else if clui_imm c =? 0 then None else Some (LUI rd (clui_imm c))
  | 4 => decode_q1_alu c
  | 5 => Some (JAL 0 (j11_imm c))
  | 6 => Some (BRANCH BEQ (cr c 7) 0 (cb_imm c))
  | _ => Some (BRANCH BNE (cr c 7) 0 (cb_imm c))
  end.

Definition decode_q2 (c : Z) : option instr :=
  let rd := bits c 7 5 in
  let rs2 := bits c 2 5 in
  match bits c 13 3 with
  | 0 => if bits c 12 1 =? 0 then Some (ALUI SLL rd rd rs2) else None
  | 2 => if rd =? 0 then None else Some (LOAD LW rd 2 (lwsp_imm c))
  | 4 =>
      if bits c 12 1 =? 0 then
        if rs2 =? 0 then if rd =? 0 then None else Some (JALR 0 rd 0)
        else Some (ALU ADD rd 0 rs2)
      else
        if rs2 =? 0 then if rd =? 0 then Some EBREAK else Some (JALR 1 rd 0)
        else Some (ALU ADD rd rd rs2)
  | 6 => Some (STORE SW 2 rs2 (swsp_imm c))
  | _ => None
  end.

Definition decode16 (c : Z) : option instr :=
  match bits c 0 2 with
  | 0 => decode_q0 c
  | 1 => decode_q1 c
  | _ => decode_q2 c
  end.

(** The manual's no-operation hints with destination [x0] that the interpreter
    refuses: [c.lui x0] and [c.add x0]. *)
Definition refused_hint (c : Z) : bool :=
  (bits c 7 5 =? 0) &&
  ((bits c 0 2 =? 1) && (bits c 13 3 =? 3) && negb (clui_imm c =? 0)
   || (bits c 0 2 =? 2) && (bits c 13 3 =? 4) && (bits c 12 1 =? 1) && negb (bits c 2 5 =? 0)).

(** What the interpreter accepts among the compressed instructions. *)
Definition decode16_supported (c : Z) : option instr :=
  if refused_hint c then None else decode16 c.

(** ** Meaning *)

Definition alu_spec (op : alu_op) (a b : Z) : Z :=
  match op with
  | ADD => trunc (a + b)
  | SUB => trunc (a - b)
  | SLL => trunc (a * 2 ^ (b mod 32))
  | SLT => if signed a <? signed b then 1 else 0
  | SLTU => if a <? b then 1 else 0
  | XOR => Z.lxor a b
  | SRL => a / 2 ^ (b mod 32)
  | SRA => trunc (signed a / 2 ^ (b mod 32))
  | OR => Z.lor a b
  | AND => Z.land a b
  end.

(** Division rounds toward zero; by zero it gives all ones, and the remainder
    the dividend.  The quotient of [-2^31] by [-1] is truncated. *)
Definition mul_spec (op : mul_op) (a b : Z) : Z :=
  match op with
  | MUL => trunc (a * b)
  | MULH => trunc (signed a * signed b / 2 ^ 32)
  | MULHSU => trunc (signed a * b / 2 ^ 32)
  | MULHU => a * b / 2 ^ 32
  | DIV => if b =? 0 then 2 ^ 32 - 1 else trunc (Z.quot (signed a) (signed b))
  | DIVU => if b =? 0 then 2 ^ 32 - 1 else a / b
  | REM => if b =? 0 then a else trunc (Z.rem (signed a) (signed b))
  | REMU => if b =? 0 then a else a mod b
  end.

Definition branch_spec (op : branch_op) (a b : Z) : bool :=
  match op with
  | BEQ => a =? b
  | BNE => negb (a =? b)
  | BLT => signed a <? signed b
  | BGE => signed b <=? signed a
  | BLTU => a <? b
  | BGEU => b <=? a
  end.

Definition load_size (op : load_op) : Z := match op with LB | LBU => 1 | LH | LHU => 2 | LW => 4 end.
Definition store_size (op : store_op) : Z := match op with SB => 1 | SH => 2 | SW => 4 end.

Definition load_value (op : load_op) (v : Z) : Z :=
  match op with
  | LB => trunc (sx 8 v)
  | LH => trunc (sx 16 v)
  | LW | LBU | LHU => v
  end.

(** Writing [x0] has no effect. *)
Definition wr (c : VmCpu) (rd v : Z) : VmCpu := if rd =? 0 then c else set_reg c rd v.

(** The counters of the CPU this interpreter exposes; other CSRs read zero. *)
Definition csr_spec (c : VmCpu) (csr : Z) : Z :=
  if (csr =? 0xC00) || (csr =? 0xC02) then instructions_retired c mod 2 ^ 32
  else if (csr =? 0xC80) || (csr =? 0xC82) then instructions_retired c / 2 ^ 32
  else if csr =? 0xF14 then vm_id c
  else 0.

(** An instruction either completes with a new CPU and memory, makes an
    environment call, or raises a trap that changes nothing but the trap
    fields. *)
Inductive outcome :=
  | Done (c : VmCpu) (m : mem)
  | Call
  | Trap (cause : VmTrapCause) (addr : option Z).

Definition access_spec {A} (c : VmCpu) (x : option Z * VmCpu) (k : Z -> A)
    (fault : VmTrapCause -> A) : A :=
  match x with
  | (Some p, _) => k p
  | (None, c') => fault (trap_cause c')
  end.

Definition rv_exec (c : VmCpu) (m : mem) (i : instr) (size : Z) : outcome :=
  let next := trunc (pc c + size) in
  let done rd v := Done (set_pc (wr c rd v) next) m in
  match i with
  | ALUI op rd rs1 imm => done rd (alu_spec op (reg c rs1) (trunc imm))
  | ALU op rd rs1 rs2 => done rd (alu_spec op (reg c rs1) (reg c rs2))
  | MULDIV op rd rs1 rs2 => done rd (mul_spec op (reg c rs1) (reg c rs2))
  | LUI rd imm => done rd imm
  | AUIPC rd imm => done rd (trunc (pc c + imm))
  | LOAD op rd rs1 imm =>
      let addr := trunc (reg c rs1 + imm) in
      if negb (addr mod load_size op =? 0) then Trap TRAP_LOAD_MISALIGNED (Some addr) else
      access_spec c (xlat_read c addr (load_size op) TRAP_LOAD_FAULT)
        (fun p => done rd (load_value op (le_val (mem_read m p (load_size op)))))
        (fun cause => Trap cause (Some addr))
  | STORE op rs1 rs2 imm =>
      let addr := trunc (reg c rs1 + imm) in
      if negb (addr mod store_size op =? 0) then Trap TRAP_STORE_MISALIGNED (Some addr) else
      access_spec c (xlat_write c addr (store_size op))
        (fun p => Done (set_pc c next)
                    (mem_write m p (le_bytes (Z.to_nat (store_size op)) (reg c rs2))))
        (fun cause => Trap cause (Some addr))
  | BRANCH op rs1 rs2 imm =>
      Done (set_pc c (if branch_spec op (reg c rs1) (reg c rs2)
                      then trunc (pc c + imm) else next)) m
  | JAL rd imm => Done (set_pc (wr c rd next) (trunc (pc c + imm))) m
  | JALR rd rs1 imm =>
      let target := trunc (reg c rs1 + imm) in
      Done (set_pc (wr c rd next) (target - target mod 2)) m
  | FENCE => Done (set_pc c next) m
  | ECALL => Call
  | EBREAK => Trap TRAP_BREAKPOINT None
  | CSR rd csr => done rd (csr_spec c csr)
  end.
