(* ===== verification/Rv32Refine.v ===== *)
(** The interpreter implements the specification of [Rv32Spec]: the extractors
    read the manual's fields, the expander maps every compressed encoding to
    the 32-bit one with the same meaning, each arithmetic routine computes the
    specified integer function, and a dispatched instruction takes the step the
    specification takes. *)
From S2P Require Import Prelude HostMem VmCpu VmDecode VmExec VmSafety VmStep Rv32Spec.

(** ** Fields *)

Lemma bits_land x lo n : 0 <= lo -> 0 <= n -> Z.land (Z.shiftr x lo) (2 ^ n - 1) = bits x lo n.
Proof. intros. unfold bits. by rewrite Z.ones_equiv, Z.sub_1_r. Qed.

(** Read a masked shift as a field. *)
Ltac as_field w lo n :=
  let mk := eval compute in (2 ^ n - 1) in
  replace (Z.land (Z.shiftr w lo) mk) with (bits w lo n)
    by (symmetry; exact (bits_land w lo n ltac:(lia) ltac:(lia))).

Lemma bits_field_range x lo n : 0 <= n -> 0 <= bits x lo n < 2 ^ n.
Proof. intros. unfold bits. rewrite Z.land_ones by done. apply Z.mod_pos_bound. by apply Z.pow_pos_nonneg. Qed.

Lemma opcode_bits w : opcode_of w = bits w 0 7.
Proof. exact (bits_land w 0 7 ltac:(lia) ltac:(lia)). Qed.
Lemma rd_bits w : rd_of w = bits w 7 5.
Proof. exact (bits_land w 7 5 ltac:(lia) ltac:(lia)). Qed.
Lemma funct3_bits w : funct3_of w = bits w 12 3.
Proof. exact (bits_land w 12 3 ltac:(lia) ltac:(lia)). Qed.
Lemma rs1_bits w : rs1_of w = bits w 15 5.
Proof. exact (bits_land w 15 5 ltac:(lia) ltac:(lia)). Qed.
Lemma rs2_bits w : rs2_of w = bits w 20 5.
Proof. exact (bits_land w 20 5 ltac:(lia) ltac:(lia)). Qed.
Lemma shamt_bits w : shamt_of w = bits w 20 5.
Proof. exact (bits_land w 20 5 ltac:(lia) ltac:(lia)). Qed.
Lemma funct7_bits w : funct7_of w = bits w 25 7.
Proof. exact (bits_land w 25 7 ltac:(lia) ltac:(lia)). Qed.

(** ** Immediates *)

Lemma lor_fields a n b : 0 <= n -> 0 <= b < 2 ^ n -> Z.lor (Z.shiftl a n) b = a * 2 ^ n + b.
Proof.
  intros Hn Hb. rewrite (lor_disjoint_add _ _ n), Z.shiftl_mul_pow2; try done.
  rewrite Z.shiftl_mul_pow2 by done. apply Z.mod_mul. lia.
Qed.

(** Placing an [n]-bit field on top of a 32-bit word and shifting it back down
    arithmetically sign-extends it. *)
Lemma sign_extend_field n v :
  0 < n <= 32 -> 0 <= v < 2 ^ n -> Z.shiftr (s32 (Z.shiftl v (32 - n))) (32 - n) = sx n v.
Proof.
  intros Hn Hv. unfold sx, s32.
  rewrite Z.shiftl_mul_pow2, Z.shiftr_div_pow2 by lia.
  set (p := 2 ^ (32 - n)). assert (0 < p) by (apply Z.pow_pos_nonneg; lia).
  assert (2 ^ n = 2 * 2 ^ (n - 1)) as Hn1
    by (rewrite <-Z.pow_succ_r by lia; f_equal; lia).
  assert (2 ^ (n - 1) * p = 0x80000000) as Hp.
  { unfold p. rewrite <-Z.pow_add_r by lia. by replace (n - 1 + (32 - n)) with 31 by lia. }
  set (h := 2 ^ (n - 1)) in *. rewrite Hn1 in *.
  destruct (Z.ltb_spec v h).
  - rewrite Z.mod_small by nia. rewrite Z.add_simpl_r. apply Z.div_mul. lia.
  - replace ((v * p + 0x80000000) mod 0x100000000) with (v * p + 0x80000000 - 0x100000000).
    + replace (v * p + 0x80000000 - 0x100000000 - 0x80000000) with ((v - 2 * h) * p) by nia.
      apply Z.div_mul. lia.
    + apply (Z.mod_unique_pos _ _ 1); nia.
Qed.

Lemma s32_signed x : is_u32 x -> s32 x = signed x.
Proof. unfold signed, sx. intros. destruct (Z.ltb_spec x (2 ^ (32 - 1))); zlia. Qed.

Lemma imm_i_spec w : is_u32 w -> imm_i w = i_imm w.
Proof.
  intros Hw. unfold imm_i, i_imm, sx. rewrite bits_div by lia. rewrite s32_signed by done. unfold signed, sx.
  rewrite Z.shiftr_div_pow2 by lia. change (2 ^ (32 - 1)) with 0x80000000.
  change (2 ^ 32) with 0x100000000. change (2 ^ 20) with 0x100000.
  change (2 ^ 12) with 4096. change (2 ^ (12 - 1)) with 2048.
  destruct (Z.ltb_spec w 0x80000000), (Z.ltb_spec (w / 0x100000 mod 4096) 2048); zlia.
Qed.

Lemma imm_s_spec w : imm_s w = s_imm w.
Proof.
  unfold imm_s, s_imm. pose proof (bits_field_range w 25 7 ltac:(lia)). pose proof (bits_field_range w 7 5 ltac:(lia)).
  as_field w 25 7.
  as_field w 7 5.
  rewrite lor_fields by lia. apply (sign_extend_field 12); lia.
Qed.

Lemma imm_b_spec w : imm_b w = b_imm w.
Proof.
  unfold imm_b, b_imm.
  pose proof (bits_field_range w 31 1 ltac:(lia)). pose proof (bits_field_range w 7 1 ltac:(lia)).
  pose proof (bits_field_range w 25 6 ltac:(lia)). pose proof (bits_field_range w 8 4 ltac:(lia)).
  as_field w 31 1.
  as_field w 7 1.
  as_field w 25 6.
  as_field w 8 4.
  rewrite <-!Z.lor_assoc. rewrite (Z.shiftl_mul_pow2 (bits w 8 4)) by lia.
  rewrite (lor_fields _ 5), (lor_fields _ 11), (lor_fields _ 12) by lia.
  rewrite !Z.add_assoc. apply (sign_extend_field 13); lia.
Qed.

Lemma imm_j_spec w : imm_j w = j_imm w.
Proof.
  unfold imm_j, j_imm.
  pose proof (bits_field_range w 31 1 ltac:(lia)). pose proof (bits_field_range w 12 8 ltac:(lia)).
  pose proof (bits_field_range w 20 1 ltac:(lia)). pose proof (bits_field_range w 21 10 ltac:(lia)).
  as_field w 31 1.
  as_field w 12 8.
  as_field w 20 1.
  as_field w 21 10.
  rewrite <-!Z.lor_assoc. rewrite (Z.shiftl_mul_pow2 (bits w 21 10)) by lia.
  rewrite (lor_fields _ 11), (lor_fields _ 12), (lor_fields _ 20) by lia.
  rewrite !Z.add_assoc. apply (sign_extend_field 21); lia.
Qed.

Lemma imm_u_spec w : is_u32 w -> u32 (imm_u w) = u_imm w /\ is_u32 (u_imm w).
Proof.
  intros Hw. unfold imm_u, u_imm. rewrite u32_s32.
  change 0xFFFFF000 with (0x100000000 - 2 ^ 12). rewrite land_high_mask by (done || lia).
  rewrite bits_div by lia. change (2 ^ 12) with 4096. change (2 ^ 20) with 0x100000. split; zlia.
Qed.

(** ** Arithmetic *)

Lemma mod32_land b : Z.land b 0x1F = b mod 32.
Proof. exact (land_pow2_ones b 5 ltac:(lia)). Qed.

Lemma land_sign v : is_u32 v -> (Z.land v 0x80000000 =? 0) = (v <? 0x80000000).
Proof. exact (land_high_mask_zero v 31 ltac:(lia)). Qed.

(** The shift that fills in ones by hand is the arithmetic one. *)
Lemma sra32_spec a b : is_u32 a -> sra32 a b = trunc (signed a / 2 ^ (b mod 32)).
Proof.
  intros Ha. unfold sra32. rewrite mod32_land. set (s := b mod 32).
  assert (0 <= s < 32) as Hs by (apply Z.mod_pos_bound; lia).
  rewrite land_sign, Z.shiftr_div_pow2 by (done || lia).
  assert (0 < 2 ^ s) as Hp by (apply Z.pow_pos_nonneg; lia).
  assert (2 ^ s * 2 ^ (32 - s) = 2 ^ 32) as H32
    by (rewrite <-Z.pow_add_r by lia; f_equal; lia).
  set (p := 2 ^ s) in *. set (q := 2 ^ (32 - s)) in *.
  unfold trunc, signed, sx. change (2 ^ (32 - 1)) with 0x80000000. 
  destruct (Z.eqb_spec s 0) as [H0|H0].
  - unfold p. rewrite H0, Z.div_1_r. umach.
    destruct (Z.ltb_spec a 0x80000000); [by rewrite Z.mod_small by lia|].
    change (2 ^ 32) with 0x100000000. apply (Z.mod_unique_pos _ _ (-1)); lia.
  - assert (0 <= a / p) by (apply Z.div_pos; umach; lia).
    destruct (Z.ltb_spec a 0x80000000) as [Hlt|Hge]; cbn [negb].
    + rewrite Z.mod_small; [done|]. split; [done|]. apply Z.div_lt_upper_bound; [done|].
      umach. nia.
    + assert (a / p < q) as Hq by (apply Z.div_lt_upper_bound; [done|]; umach; nia).
      rewrite Z.shiftl_1_l. fold q.
      assert (not32 (q - 1) = (p - 1) * q) as ->.
      { unfold not32. change 0xFFFFFFFF with (Z.ones 32).
        replace (q - 1) with (Z.ones (32 - s)) by (rewrite Z.ones_equiv; unfold q; lia).
        replace ((p - 1) * q) with (Z.shiftl (Z.ones s) (32 - s)).
        2: { rewrite Z.shiftl_mul_pow2, Z.ones_equiv by lia. by unfold p, q, Z.pred. }
        apply Z.bits_inj'. intros i Hi. rewrite Z.lxor_spec, Z.shiftl_spec by lia.
        destruct (Z.ltb_spec i (32 - s)).
        - rewrite !Z.ones_spec_low by lia. by rewrite Z.testbit_neg_r by lia.
        - rewrite (Z.ones_spec_high (32 - s)) by lia. destruct (Z.ltb_spec i 32).
          + by rewrite !Z.ones_spec_low by lia.
          + by rewrite !Z.ones_spec_high by lia. }
      rewrite Z.lor_comm. replace ((p - 1) * q) with (Z.shiftl (p - 1) (32 - s))
        by (by rewrite Z.shiftl_mul_pow2 by lia).
      rewrite lor_fields by (fold q; lia). fold q.
      rewrite <-H32. replace (a - p * q) with (a + (- q) * p) by ring.
      rewrite Z.div_add by lia. apply (Z.mod_unique_pos _ _ (-1)); nia.
Qed.

Lemma i_imm_range w : -2048 <= i_imm w < 2048.
Proof.
  unfold i_imm, sx. pose proof (bits_field_range w 20 12 ltac:(lia)).
  change (2 ^ 12) with 4096 in *. change (2 ^ (12 - 1)) with 2048.
  destruct (Z.ltb_spec (bits w 20 12) 2048); lia.
Qed.

Lemma signed_trunc v : -0x80000000 <= v < 0x80000000 -> signed (trunc v) = v.
Proof.
  intros Hv. unfold trunc. change (v mod 2 ^ 32) with (u32 v).
  rewrite <-s32_signed, s32_u32 by apply is_u32_range. zlia.
Qed.

Lemma shift_amount s : 0 <= s < 32 -> trunc s mod 32 = s.
Proof. intros. unfold trunc. rewrite (Z.mod_small s (2 ^ 32)) by lia. by apply Z.mod_small. Qed.

Lemma high_word p : u32 (Z.shiftr (u64 p) 32) = trunc (p / 2 ^ 32).
Proof.
  rewrite Z.shiftr_div_pow2 by lia. unfold trunc. change (2 ^ 32) with 0x100000000. zlia.
Qed.

Lemma op_imm_alu_spec w a :
  is_u32 w -> is_u32 a ->
  op_imm_alu w a =
  op ← decode_op_imm w;
  Some (alu_spec op a (trunc (if is_shift op then bits w 20 5 else i_imm w))).
Proof.
  intros Hw Ha. unfold op_imm_alu, decode_op_imm.
  rewrite imm_i_spec, funct3_bits, funct7_bits, shamt_bits by done.
  pose proof (bits_field_range w 12 3 ltac:(lia)) as H3. change (2 ^ 3) with 8 in H3.
  pose proof (bits_field_range w 20 5 ltac:(lia)) as Hs. change (2 ^ 5) with 32 in Hs.
  pose proof (i_imm_range w).
  on_field H3; try done; cbn [mbind option_bind is_shift alu_spec].
  - destruct (bits w 25 7 =? 0); [|done]. cbn [negb is_shift mbind option_bind alu_spec].
    by rewrite shift_amount, Z.shiftl_mul_pow2 by lia.
  - by rewrite s32_signed, signed_trunc by (done || lia).
  - destruct (bits w 25 7 =? 0); [|destruct (bits w 25 7 =? 32); [|done]];
      cbn [is_shift mbind option_bind alu_spec]; rewrite shift_amount by lia.
    + by rewrite Z.shiftr_div_pow2 by lia.
    + rewrite sra32_spec by done. by rewrite (Z.mod_small _ 32) by lia.
Qed.

Lemma op_alu_spec f3 f7 a b :
  0 <= f3 < 8 -> f7 <> 1 -> 0 <= f7 -> is_u32 a -> is_u32 b ->
  op_alu f3 f7 a b = op ← decode_op f3 f7; Some (alu_spec op a b).
Proof.
  intros H3 H1 H0 Ha Hb. unfold op_alu, decode_op. rewrite mod32_land.
  assert (0 <= b mod 32 < 32) by (apply Z.mod_pos_bound; lia).
  assert (f7 = 0 \/ f7 = 32 \/ (f7 <> 0 /\ f7 <> 32)) as [->|[->|[N0 N32]]] by lia.
  - on_field H3; cbn [mbind option_bind alu_spec negb Z.eqb]; try done;
      rewrite ?Z.shiftl_mul_pow2, ?Z.shiftr_div_pow2, ?s32_signed by (done || lia); done.
  - on_field H3; cbn [mbind option_bind alu_spec negb Z.eqb]; try done.
    cbn [Pos.eqb]. rewrite <-mod32_land. f_equal. rewrite sra32_spec by done.
    by rewrite mod32_land, Z.mod_mod.
  - rewrite (proj2 (Z.eqb_neq f7 0) N0), (proj2 (Z.eqb_neq f7 32) N32). cbn [negb].
    on_field H3; by repeat case_match.
Qed.

Lemma mul_alu_spec f3 a b :
  0 <= f3 < 8 -> is_u32 a -> is_u32 b ->
  mul_alu f3 a b = op ← decode_mul f3; Some (mul_spec op a b).
Proof.
  intros H3 Ha Hb. unfold mul_alu, decode_mul.
  on_field H3; cbn [mbind option_bind mul_spec]; rewrite ?high_word, ?s32_signed by done; try done.
  - f_equal. unfold trunc. apply Z.mod_small. split; [apply Z.div_pos; umach; nia|].
    apply Z.div_lt_upper_bound; [lia|]. change (2 ^ 32) with 0x100000000. umach. nia.
  - destruct (Z.eqb_spec b 0); [done|].
    destruct (Z.eqb_spec a 0x80000000) as [->|]; [|done].
    by destruct (Z.eqb_spec b 0xFFFFFFFF) as [->|].
  - destruct (Z.eqb_spec b 0); [done|].
    destruct (Z.eqb_spec a 0x80000000) as [->|]; [|done].
    by destruct (Z.eqb_spec b 0xFFFFFFFF) as [->|].
Qed.

Lemma branch_taken_spec f3 a b :
  is_u32 a -> is_u32 b -> branch_taken f3 a b = op ← decode_branch f3; Some (branch_spec op a b).
Proof.
  intros Ha Hb. unfold branch_taken, decode_branch. rewrite !s32_signed by done.
  by repeat case_match.
Qed.

Lemma csr_read_spec c csr : is_u64 (instructions_retired c) -> csr_read c csr = csr_spec c csr.
Proof.
  intros Hr. unfold csr_read, csr_spec, CSR_CYCLE, CSR_INSTRET, CSR_CYCLEH, CSR_INSTRETH, CSR_MHARTID.
  repeat case_match; try done.
  - exact (land_pow2_ones _ 32 ltac:(lia)).
  - rewrite Z.shiftr_div_pow2 by lia. apply u32_small. change (2 ^ 32) with 0x100000000. zlia.
Qed.

(** ** The expander *)

(** One compressed encoding: refused exactly when the specification (less the
    refused hints) has no instruction for it, and otherwise expanded to a 32-bit
    word with the same decoding. *)
Definition expands_right (c : Z) : bool :=
  let w := expand_compressed c in
  let d := decode16_supported c in
  if w =? 0 then match d with None => true | Some _ => false end
  else match d, decode32 w with
       | Some i, Some j =>
           bool_decide (i = j) && implb (bool_decide (i = EBREAK)) (w =? 0x00100073)
       | _, _ => false
       end && (0 <=? w) && (w <? 0x100000000).

(** [f] on every number whose binary digits above the lowest [k] are [x]. *)
Fixpoint all_words (k : nat) (f : Z -> bool) (x : Z) : bool :=
  match k with
  | O => f x
  | S k => all_words k f (2 * x) && all_words k f (2 * x + 1)
  end.

Lemma all_words_spec k f : forall x c,
  all_words k f x = true -> x * 2 ^ Z.of_nat k <= c < (x + 1) * 2 ^ Z.of_nat k -> f c = true.
Proof.
  induction k as [|k IH]; intros x c Hf Hc.
  - cbn in Hf. by replace c with x by lia.
  - cbn [all_words] in Hf. apply andb_true_iff in Hf as [Hl Hr].
    rewrite Nat2Z.inj_succ, Z.pow_succ_r in Hc by lia.
    destruct (Z.ltb_spec c ((2 * x + 1) * 2 ^ Z.of_nat k)).
    + apply (IH (2 * x)); [done|lia].
    + apply (IH (2 * x + 1)); [done|lia].
Qed.

(** All the 16-bit words, the ones that start a 32-bit instruction excepted. *)
Lemma expand_all : all_words 16 (fun c => (bits c 0 2 =? 3) || expands_right c) 0 = true.
Proof. vm_cast_no_check (eq_refl true). Qed.

Lemma expands_right_spec c : is_u16 c -> bits c 0 2 <> 3 -> expands_right c = true.
Proof.
  intros Hc H3. pose proof (all_words_spec 16 _ 0 c expand_all ltac:(umach; lia)) as H.
  cbv beta in H. by rewrite (proj2 (Z.eqb_neq _ _) H3) in H.
Qed.

(** ** The step *)

(** How the specification's outcome is recorded in the CPU.  [w] is the 32-bit
    word a breakpoint reports. *)
Definition rv_commit (c : VmCpu) (m : mem) (w size : Z) (o : outcome) : exec_result :=
  match o with
  | Done c' m' =>
      (true, set_counts c' (u64 (instructions_retired c + 1)) (trap_count c) (ecall_count c), m')
  | Call =>
      (false, set_trap (set_pc c (trunc (pc c + size))) TRAP_ECALL (pc c) (trap_addr c)
                (trap_insn c), m)
  | Trap cause (Some addr) => (false, bump_trap_count (set_fault c cause addr), m)
  | Trap cause None => (false, bump_trap_count (set_trap c cause (pc c) (trap_addr c) w), m)
  end.

(** One step of the specified machine on a fetched word. *)
Definition rv_step (c : VmCpu) (m : mem) : exec_result :=
  match fetch_instruction m c with
  | (None, c) => (false, bump_trap_count c, m)
  | (Some (w, size), _) =>
      match (if size =? 2 then decode16_supported w else decode32 w) with
      | None =>
          (false, bump_trap_count (set_trap c TRAP_ILLEGAL_INSTR (pc c) (trap_addr c) w), m)
      | Some i =>
          rv_commit c m (if size =? 2 then 0x00100073 else w) size (rv_exec c m i size)
      end
  end.

(** What [step_once] does after [execute_one]. *)
Definition finish (r : exec_result) : exec_result :=
  match r with
  | (false, c, m) =>
      (false, if decide (trap_cause c = TRAP_ECALL) then c else bump_trap_count c, m)
  | (true, c, m) =>
      let c := set_reg c 0 0 in
      (true, set_counts c (u64 (instructions_retired c + 1)) (trap_count c) (ecall_count c), m)
  end.

Section step.
Context (c : VmCpu) (m : mem) (w size : Z).
Hypothesis W : cpu_wf c.
Hypothesis Hm : mem_ok m.
Hypothesis Hw : is_u32 w.

(** The machine instruction [w] takes the specified step. *)
Definition meets (r : exec_result) (i : instr) : Prop :=
  finish r = rv_commit c m w size (rv_exec c m i size).

Lemma squash_write rd v pc' :
  set_reg (set_pc (set_reg c rd v) pc') 0 0 = set_pc (wr c rd v) pc' \/ rd < 0.
Proof.
  destruct (decide (rd < 0)); [by right|left]. unfold wr, set_reg, set_pc, set_regs. cbn.
  pose proof (wf_x0 _ W) as H0. pose proof (wf_len _ W) as Hl. unfold reg in H0.
  change (Z.to_nat 0) with 0%nat in *. destruct (regs c) as [|x rs] eqn:Hr; [done|].
  cbn in H0. subst x. destruct (Z.eqb_spec rd 0) as [->|Hne]; [by rewrite Hr|].
  destruct (Z.to_nat rd) as [|k] eqn:Hk; [lia|]. done.
Qed.

Lemma finish_retire rd v :
  0 <= rd ->
  finish (retire c m rd v size) = rv_commit c m w size (Done (set_pc (wr c rd v) (trunc (pc c + size))) m).
Proof.
  intros Hrd. unfold retire, finish, rv_commit.
  destruct (squash_write rd v (u32 (pc c + size))) as [->|]; [|lia].
  unfold wr. by case_match.
Qed.

Lemma finish_write rd v pc' :
  0 <= rd ->
  finish (true, set_pc (set_reg c rd v) pc', m) = rv_commit c m w size (Done (set_pc (wr c rd v) pc') m).
Proof.
  intros Hrd. unfold finish, rv_commit.
  destruct (squash_write rd v pc') as [->|]; [|lia]. unfold wr. by case_match.
Qed.

Lemma finish_jump pc' m' :
  finish (true, set_pc c pc', m') = rv_commit c m w size (Done (set_pc c pc') m').
Proof.
  unfold finish, rv_commit, set_reg. cbn [set_pc regs set_regs].
  pose proof (wf_x0 _ W) as H0. pose proof (wf_len _ W) as Hl. unfold reg in H0.
  change (Z.to_nat 0) with 0%nat in *.
  assert (<[0%nat:=0]> (regs c) = regs c) as ->; [|done].
  destruct (regs c) as [|x rs]; [done|]. cbn in *. by rewrite H0.
Qed.

Lemma finish_fault cause addr :
  cause <> TRAP_ECALL ->
  finish (false, set_fault c cause addr, m) = rv_commit c m w size (Trap cause (Some addr)).
Proof. intros Hc. unfold finish, rv_commit. by rewrite decide_False. Qed.

Lemma rd_nonneg : 0 <= bits w 7 5.
Proof. by apply bits_field_range. Qed.

Lemma pc_add v : is_u32 v -> u32 (pc c + v) = trunc (pc c + v).
Proof. done. Qed.

Lemma trunc_add_r a b : trunc (a + trunc b) = trunc (a + b).
Proof. unfold trunc. by rewrite Zplus_mod_idemp_r. Qed.

(** [match] on the decoded operation, as [decode32] writes it. *)
Definition illegal_step : exec_result :=
  (false, bump_trap_count (set_trap c TRAP_ILLEGAL_INSTR (pc c) (trap_addr c) w), m).

Lemma finish_illegal : finish (illegal c m w) = illegal_step.
Proof. done. Qed.

Definition meets_opt (r : exec_result) (oi : option instr) : Prop :=
  finish r = match oi with Some i => rv_commit c m w size (rv_exec c m i size) | None => illegal_step end.

Lemma op_imm_meets :
  meets_opt (exec_op_imm c m w size)
    (op ← decode_op_imm w;
     Some (ALUI op (bits w 7 5) (bits w 15 5) (if is_shift op then bits w 20 5 else i_imm w))).
Proof.
  unfold meets_opt, exec_op_imm. rewrite op_imm_alu_spec by auto with mach.
  destruct (decode_op_imm w) as [op|]; cbn [mbind option_bind]; [|done].
  rewrite rd_bits, rs1_bits. apply finish_retire, rd_nonneg.
Qed.

Lemma op_meets :
  meets_opt (exec_op c m w size)
    (if bits w 25 7 =? 1
     then op ← decode_mul (bits w 12 3); Some (MULDIV op (bits w 7 5) (bits w 15 5) (bits w 20 5))
     else op ← decode_op (bits w 12 3) (bits w 25 7);
          Some (ALU op (bits w 7 5) (bits w 15 5) (bits w 20 5))).
Proof.
  unfold meets_opt, exec_op. rewrite funct7_bits, funct3_bits, rd_bits, rs1_bits, rs2_bits.
  pose proof (bits_field_range w 12 3 ltac:(lia)) as H3. pose proof (bits_field_range w 25 7 ltac:(lia)) as H7.
  destruct (Z.eqb_spec (bits w 25 7) 1) as [_|Hne].
  - rewrite mul_alu_spec by auto with mach.
    destruct (decode_mul _) as [op|]; cbn [mbind option_bind]; [|done].
    apply finish_retire, rd_nonneg.
  - rewrite op_alu_spec by (auto with mach; lia).
    destruct (decode_op _ _) as [op|]; cbn [mbind option_bind]; [|done].
    apply finish_retire, rd_nonneg.
Qed.

(** Loads and stores: the byte counts and alignment masks the code passes are
    those of the operation. *)
Lemma load_meets op addr mask conv :
  Z.land addr mask = addr mod load_size op ->
  (forall p, conv p = load_value op (le_val (mem_read m p (load_size op)))) ->
  finish (load_with c m w size addr mask (load_size op) conv) =
  rv_commit c m w size
    (if negb (addr mod load_size op =? 0) then Trap TRAP_LOAD_MISALIGNED (Some addr) else
     access_spec c (xlat_read c addr (load_size op) TRAP_LOAD_FAULT)
      (fun p => Done (set_pc (wr c (bits w 7 5) (load_value op (le_val (mem_read m p (load_size op)))))
                  (trunc (pc c + size))) m)
      (fun cause => Trap cause (Some addr))).
Proof.
  intros Hmask Hconv. unfold load_with. rewrite Hmask. case_match; [by apply finish_fault|].
  destruct (xlat_read_cases c addr (load_size op) TRAP_LOAD_FAULT) as [[p ->]| ->];
    cbn [access_spec].
  - rewrite Hconv, rd_bits. apply finish_retire, rd_nonneg.
  - by apply finish_fault.
Qed.

Lemma store_meets op addr mask put value :
  Z.land addr mask = addr mod store_size op ->
  (forall p, put p = mem_write m p (le_bytes (Z.to_nat (store_size op)) value)) ->
  finish (store_with c m size addr mask (store_size op) put) =
  rv_commit c m w size
    (if negb (addr mod store_size op =? 0) then Trap TRAP_STORE_MISALIGNED (Some addr) else
     access_spec c (xlat_write c addr (store_size op))
      (fun p => Done (set_pc c (trunc (pc c + size)))
                  (mem_write m p (le_bytes (Z.to_nat (store_size op)) value)))
      (fun cause => Trap cause (Some addr))).
Proof.
  intros Hmask Hput. unfold store_with. rewrite Hmask. case_match; [by apply finish_fault|].
  destruct (xlat_write_cases c addr (store_size op)) as [[p ->]|(cause & Hc & ->)];
    cbn [access_spec].
  - rewrite Hput. apply finish_jump.
  - apply finish_fault. by destruct Hc as [-> | ->].
Qed.

Lemma mask_mod addr k : 0 <= k -> Z.land addr (2 ^ k - 1) = addr mod 2 ^ k.
Proof. intros. by apply land_pow2_ones. Qed.

Lemma le_val_one p : le_val (mem_read m p 1) = m p.
Proof.
  unfold mem_read. change (Z.to_nat 1) with 1%nat. cbn [seq map le_val Z.of_nat].
  by rewrite Z.mul_0_r, !Z.add_0_r.
Qed.

Lemma signed_byte v : is_u8 v -> u32 (s8 v) = trunc (sx 8 v).
Proof.
  intros Hv. f_equal. unfold sx. change (2 ^ (8 - 1)) with 0x80. change (2 ^ 8) with 0x100.
  destruct (Z.ltb_spec v 0x80); zlia.
Qed.

Lemma signed_half v : is_u16 v -> u32 (s16 v) = trunc (sx 16 v).
Proof.
  intros Hv. f_equal. unfold sx. change (2 ^ (16 - 1)) with 0x8000. change (2 ^ 16) with 0x10000.
  destruct (Z.ltb_spec v 0x8000); zlia.
Qed.

Lemma load_op_meets :
  meets_opt (exec_load c m w size)
    (op ← decode_load (bits w 12 3); Some (LOAD op (bits w 7 5) (bits w 15 5) (i_imm w))).
Proof.
  unfold meets_opt, exec_load. rewrite imm_i_spec, funct3_bits, rs1_bits by done.
  change (u32 (reg c (bits w 15 5) + u32 (i_imm w)))
    with (trunc (reg c (bits w 15 5) + trunc (i_imm w))).
  rewrite trunc_add_r. pose proof (bits_field_range w 12 3 ltac:(lia)) as H3. change (2 ^ 3) with 8 in H3.
  on_field H3; try done; cbn [decode_load mbind option_bind rv_exec].
  - apply (load_meets LB); [by rewrite Z.land_0_r, Z.mod_1_r|].
    intros p. cbn [load_size load_value]. rewrite le_val_one. apply signed_byte, Hm.
  - apply (load_meets LH); [exact (mask_mod _ 1 ltac:(lia))|].
    intros p. apply signed_half. by apply load16_range.
  - by apply (load_meets LW); [exact (mask_mod _ 2 ltac:(lia))|].
  - apply (load_meets LBU); [by rewrite Z.land_0_r, Z.mod_1_r|].
    intros p. cbn [load_size load_value]. by rewrite le_val_one.
  - by apply (load_meets LHU); [exact (mask_mod _ 1 ltac:(lia))|].
Qed.

Lemma le_bytes_half v : le_bytes 2 (v mod 2 ^ 16) = le_bytes 2 v.
Proof.
  change (2 ^ 16) with 0x10000. cbn [le_bytes]. f_equal; [zlia|]. f_equal. zlia.
Qed.

Lemma store_op_meets :
  meets_opt (exec_store c m w size)
    (op ← decode_store (bits w 12 3); Some (STORE op (bits w 15 5) (bits w 20 5) (s_imm w))).
Proof.
  unfold meets_opt, exec_store. rewrite imm_s_spec, funct3_bits, rs1_bits, rs2_bits.
  change (u32 (reg c (bits w 15 5) + u32 (s_imm w)))
    with (trunc (reg c (bits w 15 5) + trunc (s_imm w))).
  rewrite trunc_add_r. pose proof (bits_field_range w 12 3 ltac:(lia)) as H3. change (2 ^ 3) with 8 in H3.
  on_field H3; try done; cbn [decode_store mbind option_bind rv_exec].
  - apply (store_meets SB); [by rewrite Z.land_0_r, Z.mod_1_r|].
    intros p. cbn. by rewrite (mask_mod _ 8 ltac:(lia) : Z.land _ 0xFF = _).
  - apply (store_meets SH); [exact (mask_mod _ 1 ltac:(lia))|].
    intros p. unfold store16. f_equal.
    rewrite (mask_mod _ 16 ltac:(lia) : Z.land _ 0xFFFF = _). apply le_bytes_half.
  - by apply (store_meets SW); [exact (mask_mod _ 2 ltac:(lia))|].
Qed.

Lemma branch_meets :
  meets_opt (exec_branch c m w size)
    (op ← decode_branch (bits w 12 3); Some (BRANCH op (bits w 15 5) (bits w 20 5) (b_imm w))).
Proof.
  unfold meets_opt, exec_branch. rewrite imm_b_spec, funct3_bits, rs1_bits, rs2_bits.
  rewrite branch_taken_spec by auto with mach.
  destruct (decode_branch _) as [op|]; cbn [mbind option_bind rv_exec]; [|done].
  change (u32 (pc c + u32 (b_imm w))) with (trunc (pc c + trunc (b_imm w))).
  rewrite trunc_add_r. destruct (branch_spec op _ _); apply finish_jump.
Qed.

Lemma jal_meets : meets_opt (exec_jal c m w size) (Some (JAL (bits w 7 5) (j_imm w))).
Proof.
  unfold meets_opt, exec_jal. rewrite imm_j_spec, rd_bits.
  change (u32 (pc c + u32 (j_imm w))) with (trunc (pc c + trunc (j_imm w))).
  rewrite trunc_add_r. apply finish_write, rd_nonneg.
Qed.

Lemma clear_bit0 x : is_u32 x -> Z.land x (not32 1) = x - x mod 2.
Proof.
  intros Hx. change (not32 1) with (0x100000000 - 2 ^ 1).
  rewrite land_high_mask by (done || lia). change (2 ^ 1) with 2. zlia.
Qed.

Lemma jalr_meets :
  meets_opt (exec_jalr c m w size)
    (if bits w 12 3 =? 0 then Some (JALR (bits w 7 5) (bits w 15 5) (i_imm w)) else None).
Proof.
  unfold meets_opt, exec_jalr. rewrite imm_i_spec, funct3_bits, rd_bits, rs1_bits by done.
  destruct (bits w 12 3 =? 0); cbn [negb]; [|done].
  rewrite clear_bit0 by apply is_u32_range.
  change (u32 (reg c (bits w 15 5) + u32 (i_imm w)))
    with (trunc (reg c (bits w 15 5) + trunc (i_imm w))).
  rewrite trunc_add_r. apply finish_write, rd_nonneg.
Qed.

Lemma misc_mem_meets :
  meets_opt (exec_misc_mem c m w size) (if bits w 12 3 <? 2 then Some FENCE else None).
Proof.
  unfold meets_opt, exec_misc_mem. rewrite funct3_bits. pose proof (bits_field_range w 12 3 ltac:(lia)).
  destruct (Z.eqb_spec (bits w 12 3) 0) as [->|]; [apply finish_jump|].
  destruct (Z.eqb_spec (bits w 12 3) 1) as [->|]; [apply finish_jump|].
  by rewrite (proj2 (Z.ltb_ge _ _)) by lia.
Qed.

Lemma system_meets :
  meets_opt (exec_system c m w size) (decode_system w).
Proof.
  unfold meets_opt, exec_system, exec_env, exec_csr, decode_system.
  rewrite funct3_bits, rd_bits, rs1_bits.
  pose proof (bits_land w 20 12 ltac:(lia) ltac:(lia)) as Hi.
  change (2 ^ 12 - 1) with 0xFFF in Hi. rewrite Hi.
  pose proof (bits_field_range w 12 3 ltac:(lia)) as H3. change (2 ^ 3) with 8 in H3.
  assert (u32 (u32 (pc c + size) - size) = pc c) as Hpc by (pose proof (wf_pc _ W); zlia).
  rewrite csr_read_spec by apply W. unfold csr_write.
  on_field H3;
    repeat match goal with
      | |- context [Z.land (Zpos ?a) (Zpos ?b)] =>
          let v := eval compute in (Z.land (Zpos a) (Zpos b)) in
          change (Z.land (Zpos a) (Zpos b)) with v
      end; cbv beta iota zeta; cbn [Z.eqb Pos.eqb negb];
    try (repeat case_match; apply finish_write, rd_nonneg); [|done].
  destruct (Z.eqb_spec (bits w 20 12) 0) as [->|H0].
  - unfold finish, rv_commit. rewrite decide_True by done. cbn [pc set_pc trap_addr trap_insn].
    by rewrite Hpc.
  - destruct (Z.eqb_spec (bits w 20 12) 1) as [->|H1]; [done|].
    rewrite finish_illegal. by repeat case_match.
Qed.

Lemma lui_meets : meets_opt (exec_lui c m w size) (Some (LUI (bits w 7 5) (u_imm w))).
Proof.
  unfold meets_opt, exec_lui. destruct (imm_u_spec w Hw) as [-> _]. rewrite rd_bits.
  apply finish_retire, rd_nonneg.
Qed.

Lemma auipc_meets : meets_opt (exec_auipc c m w size) (Some (AUIPC (bits w 7 5) (u_imm w))).
Proof.
  unfold meets_opt, exec_auipc. destruct (imm_u_spec w Hw) as [-> _]. rewrite rd_bits.
  apply finish_retire, rd_nonneg.
Qed.

Lemma execute_32_meets : meets_opt (execute_32 c m w size) (decode32 w).
Proof.
  unfold execute_32, decode32. rewrite opcode_bits.
  repeat match goal with |- context [match ?x with _ => _ end] =>
    match type of x with
    | Z => destruct x
    | positive => destruct x
    end; try exact finish_illegal
  end;
    auto using op_imm_meets, op_meets, load_op_meets, store_op_meets, branch_meets, jal_meets,
      jalr_meets, misc_mem_meets, system_meets, lui_meets, auipc_meets.
Qed.
End step.

Lemma fetch_word m c w size c' :
  mem_ok m -> fetch_instruction m c = (Some (w, size), c') ->
  c' = c /\ ((size = 2 /\ is_u16 w /\ bits w 0 2 <> 3) \/ (size = 4 /\ is_u32 w)).
Proof.
  intros Hm Hf. pose proof (fetch_same_cpu _ _ _ _ _ Hf) as ->. split; [done|].
  unfold fetch_instruction in Hf. destruct (negb _); [done|].
  destruct (xlat_read c (pc c) 2 _) as [[p|] c1] eqn:Hx; [|done].
  apply xlat_read_inside in Hx as [-> _]. pose proof (load16_range m p Hm) as Hlo.
  destruct (Z.eqb_spec (Z.land (load16 m p) 3) 3) as [H3|H3].
  - destruct (xlat_read c (u32 (pc c + 2)) 2 _) as [[q|] c2] eqn:Hy; [|done].
    injection Hf as <- <- _. right. split; [done|]. pose proof (load16_range m q Hm) as Hhi.
    rewrite lor_fields by (umach; lia). change (2 ^ 16) with 0x10000. umach. lia.
  - injection Hf as <- <-. left. split; [done|]. split; [done|]. exact H3.
Qed.

(** Only a breakpoint reports the instruction word. *)
Lemma commit_word c m w w' size i :
  i <> EBREAK ->
  rv_commit c m w size (rv_exec c m i size) = rv_commit c m w' size (rv_exec c m i size).
Proof.
  intros Hi. destruct i; try done; cbn [rv_exec]; (case_match; [done|]).
  - by destruct (xlat_read _ _ _ _) as [[?|] ?].
  - by destruct (xlat_write _ _ _) as [[?|] ?].
Qed.

Lemma step_once_meets c m : cpu_wf c -> mem_ok m -> step_once c m = rv_step c m.
Proof.
  intros W Hm. unfold rv_step.
  assert (step_once c m = match fetch_instruction m c with
    | (None, c) => (false, bump_trap_count c, m)
    | (Some (w, size), c) => finish (execute_one c m w size) end) as ->.
  { unfold step_once. destruct (fetch_instruction m c) as [[[w size]|] c1]; [|done].
    by destruct (execute_one c1 m w size) as [[[] ?] ?]. }
  destruct (fetch_instruction m c) as [[[w size]|] c1] eqn:Hf; [|done].
  destruct (fetch_word _ _ _ _ _ Hm Hf) as [-> [(-> & Hw & H3)|[-> Hw]]];
    unfold execute_one; cbn [Z.eqb Pos.eqb].
  - pose proof (expands_right_spec w Hw H3) as Hx. unfold expands_right in Hx.
    replace (u16 w) with w by (symmetry; umach; by apply Z.mod_small).
    destruct (Z.eqb_spec (expand_compressed w) 0) as [H0|H0].
    + by destruct (decode16_supported w).
    + destruct (decode16_supported w) as [i|]; [|done].
      destruct (decode32 (expand_compressed w)) as [j|] eqn:Hj; [|done].
      rewrite !andb_true_iff, Z.leb_le, Z.ltb_lt in Hx. destruct Hx as [[[Heq Hbrk] Hlo] Hhi].
      apply bool_decide_eq_true in Heq as <-.
      pose proof (execute_32_meets c m (expand_compressed w) 2 W Hm ltac:(umach; lia)) as HM.
      unfold meets_opt in HM. rewrite Hj in HM. rewrite HM.
      destruct (decide (i = EBREAK)) as [->|Hne]; [|by apply commit_word].
      rewrite bool_decide_true in Hbrk by done. cbn [implb] in Hbrk.
      by apply Z.eqb_eq in Hbrk as ->.
  - pose proof (execute_32_meets c m w 4 W Hm Hw) as HM. unfold meets_opt in HM. rewrite HM.
    by destruct (decode32 w).
Qed.

(** ** Runs of the specified machine *)

(** [rv_step] iterated over a budget, with the results [vm_step] documents. *)
Fixpoint rv_loop (fuel : nat) (c : VmCpu) (m : mem) (steps : Z)
    : VmStepResult * VmCpu * mem * Z :=
  match fuel with
  | O => (VM_STEP_QUANTUM_EXPIRED, c, m, steps)
  | S fuel =>
      match rv_step c m with
      | (true, c, m) => rv_loop fuel c m (steps + 1)
      | (false, c, m) =>
          if decide (trap_cause c = TRAP_ECALL) then
            (VM_STEP_ECALL,
             set_counts c (instructions_retired c) (trap_count c) (u32 (ecall_count c + 1)), m, steps)
          else (VM_STEP_TRAPPED, c, m, steps)
      end
  end.

Definition rv_run (c : VmCpu) (m : mem) (budget : Z) : VmStepResult * VmCpu * mem * Z :=
  if halted c then (VM_STEP_HALTED, c, m, 0) else
  rv_loop (Z.to_nat budget) (set_trap c TRAP_NONE 0 0 0) m 0.

Lemma vm_loop_refines fuel : forall c m s,
  cpu_wf c -> mem_ok m -> vm_loop fuel c m s = rv_loop fuel c m s.
Proof.
  induction fuel as [|fuel IH]; intros c m s W Hm; [done|]. cbn [vm_loop rv_loop].
  pose proof (step_once_spec c m W Hm) as HS. rewrite <-step_once_meets by done.
  destruct (step_once c m) as [[[] c1] m1].
  - destruct HS as [(x & y & [= <- <-] & R & W1)|(x & [=] & _)]. apply IH; [done|].
    destruct R as [_ _ _ _ [->|Hg]]; [done|]. by eapply guest_write_ok.
  - destruct HS as [(x & y & [=] & _)|(x & [= <- ->] & P & W1)].
    destruct (ss_cause _ _ _ _ P) as [(Hc & _)|([Hs|Hs] & _)].
    + by rewrite Hc.
    + rewrite decide_False by (intros E; rewrite E in Hs; inversion Hs). by destruct Hs.
    + by rewrite Hs.
Qed.

(** ** Properties *)

(** C3. The interpreter implements RV32IMC: from a well-formed CPU, [vm_step]
    returns exactly the result, CPU, memory and step count of the machine that
    decodes each fetched word by the manual's tables and executes it by its
    integer-arithmetic meaning (compressed words by the 16-bit tables, without
    the two refused hints). *)
Theorem vm_step_implements_rv32imc c m budget :
  cpu_wf c -> mem_ok m -> vm_step c m budget = rv_run c m budget.
Proof.
  intros W Hm. unfold vm_step, rv_run. destruct (halted c); [done|].
  apply vm_loop_refines; [by apply set_trap_wf|done].
Qed.

(** The compressed-instruction expander is right on every 16-bit word that
    does not start a 32-bit instruction: it gives 0 exactly when the
    specification has no instruction for the word (or the word is one of the two
    refused hints), and otherwise a 32-bit word that decodes to that
    instruction. *)
Theorem expand_compressed_correct c :
  is_u16 c -> bits c 0 2 <> 3 ->
  is_u32 (expand_compressed c) /\
  if expand_compressed c =? 0 then decode16_supported c = None
  else decode16_supported c <> None /\ decode32 (expand_compressed c) = decode16_supported c.
Proof.
  intros Hc H3. pose proof (expands_right_spec c Hc H3) as Hx. unfold expands_right in Hx.
  destruct (Z.eqb_spec (expand_compressed c) 0) as [->|Hne].
  - split; [unfold is_u32; lia|]. by destruct (decode16_supported c).
  - destruct (decode16_supported c) as [i|]; [|done].
    destruct (decode32 (expand_compressed c)) as [j|] eqn:Hj; [|done].
    rewrite !andb_true_iff, Z.leb_le, Z.ltb_lt in Hx. destruct Hx as [[[Heq _] Hlo] Hhi].
    apply bool_decide_eq_true in Heq as <-. split; [umach; lia|]. done.
Qed.

(** The register-register arithmetic computes the specified integer
    functions on every pair of 32-bit operands: wrapped sums, differences and
    products, the high halves of signed, mixed and unsigned products, division
    toward zero with its two special cases, signed and unsigned comparisons, and
    the arithmetic shift that the code builds from logical ones. *)
Theorem op_arithmetic_correct f3 f7 a b :
  0 <= f3 < 8 -> 0 <= f7 -> is_u32 a -> is_u32 b ->
  (if f7 =? 1 then mul_alu f3 a b else op_alu f3 f7 a b) =
  (if f7 =? 1 then op ← decode_mul f3; Some (mul_spec op a b)
   else op ← decode_op f3 f7; Some (alu_spec op a b)).
Proof.
  intros H3 H7 Ha Hb. destruct (Z.eqb_spec f7 1); [by apply mul_alu_spec|by apply op_alu_spec].
Qed.

(** The manual makes [c.lui x0] and [c.add x0] hints, which have no effect; the
    interpreter refuses them as illegal. *)
Theorem hints_refused :
  refused_hint 0x6005 = true /\ expand_compressed 0x6005 = 0 /\ decode16 0x6005 = Some (LUI 0 0x1000) /\
  refused_hint 0x9006 = true /\ expand_compressed 0x9006 = 0 /\ decode16 0x9006 = Some (ALU ADD 0 0 1).
Proof. by vm_compute. Qed.

Lemma vm_step_implements_rv32imc_witness :
  vm_step demo_cpu demo_mem 100 = rv_run demo_cpu demo_mem 100.
Proof. exact (vm_step_implements_rv32imc demo_cpu demo_mem 100 demo_cpu_wf demo_mem_ok). Defined.

Lemma expand_compressed_correct_witness :
  is_u32 (expand_compressed 0x0285) /\
  if expand_compressed 0x0285 =? 0 then decode16_supported 0x0285 = None
  else decode16_supported 0x0285 <> None /\
    decode32 (expand_compressed 0x0285) = decode16_supported 0x0285.
Proof. apply (expand_compressed_correct 0x0285); [unfold is_u16; lia|by vm_compute]. Defined.

Lemma op_arithmetic_correct_witness :
  mul_alu 4 0x80000000 0xFFFFFFFF = Some 0x80000000 /\
  mul_alu 4 0x80000000 0xFFFFFFFF = Some (mul_spec DIV 0x80000000 0xFFFFFFFF).
Proof.
  split; [done|].
  apply (op_arithmetic_correct 4 1 0x80000000 0xFFFFFFFF); unfold is_u32; lia.
Defined.
