(* ===== verification/Bitset.v ===== *)
(** The bit set ([src/containers/bitset.c]) over caller-owned 32-bit words, and the
    count-trailing-zeros of [include/math/bits.h] it scans with.  The compiler's
    [__builtin_popcount] is modelled as the number of set bits, which is its
    documented meaning; [bits_ctz32] is the portable code. *)
From S2P Require Import Prelude HostMem.

Definition BITSET_NPOS : Z := 0xFFFFFFFFFFFFFFFF.
Definition BITSET_WORDS (nbits : Z) : Z := u64 (nbits + 31) / 32.

Record Bitset := mkBitset {
  bs_words : Z;
  bs_nbits : Z;
  bs_nwords : Z;
  bs_hint : Z
}.

Definition set_hint (bs : Bitset) (h : Z) : Bitset :=
  mkBitset (bs_words bs) (bs_nbits bs) (bs_nwords bs) h.

(** ** Bit scans *)

(** One step of the portable [bits_ctz32]: [n] zeros below [mask]. *)
Definition ctz_half (mask k : Z) (st : Z * Z) : Z * Z :=
  let '(n, x) := st in
  if Z.land x mask =? 0 then (n + k, Z.shiftr x k) else (n, x).

Definition bits_ctz32 (x : Z) : Z :=
  if x =? 0 then 32 else
  let '(n, x) := ctz_half 0x3 2 (ctz_half 0xF 4 (ctz_half 0xFF 8 (ctz_half 0xFFFF 16 (0, x)))) in
  if Z.land x 0x1 =? 0 then n + 1 else n.

Definition bits_popcount32 (x : Z) : Z :=
  Z.of_nat (length (filter (fun i => Z.testbit x (Z.of_nat i) = true) (seq 0 32))).

(** ** Operations *)

(** [bs->words[w]] and its assignment. *)
Definition word (m : mem) (bs : Bitset) (w : Z) : Z := load32 m (bs_words bs + 4 * w).
Definition put_word (m : mem) (bs : Bitset) (w v : Z) : mem := store32 m (bs_words bs + 4 * w) v.

Definition tail_mask (bs : Bitset) : Z :=
  let rem := Z.land (bs_nbits bs) 31 in
  if rem =? 0 then 0xFFFFFFFF else Z.shiftl 1 rem - 1.

Definition bitset_words (nbits : Z) : Z := BITSET_WORDS nbits.
Definition bitset_bytes (nbits : Z) : Z := u64 (BITSET_WORDS nbits * 4).

Definition bitset_init (words nbits : Z) : Bitset := mkBitset words nbits (BITSET_WORDS nbits) 0.

(** [for (w = 0; w < nwords; w++) words[w] = v], [n] words being left. *)
Fixpoint fill_words (n : nat) (m : mem) (bs : Bitset) (w v : Z) : mem :=
  match n with
  | O => m
  | S n => fill_words n (put_word m bs w v) bs (w + 1) v
  end.

Definition bitset_clear_all (m : mem) (bs : Bitset) : mem * Bitset :=
  if bs_words bs =? 0 then (m, bs) else
  (fill_words (Z.to_nat (bs_nwords bs)) m bs 0 0, set_hint bs 0).

Definition bitset_set_all (m : mem) (bs : Bitset) : mem * Bitset :=
  if (bs_words bs =? 0) || (bs_nwords bs =? 0) then (m, bs) else
  let m := fill_words (Z.to_nat (bs_nwords bs)) m bs 0 0xFFFFFFFF in
  let last := bs_nwords bs - 1 in
  (put_word m bs last (Z.land (word m bs last) (tail_mask bs)), set_hint bs 0).

Definition bitset_set (m : mem) (bs : Bitset) (i : Z) : mem :=
  if bs_nbits bs <=? i then m else
  put_word m bs (i / 32) (Z.lor (word m bs (i / 32)) (Z.shiftl 1 (Z.land i 31))).

Definition bitset_clear (m : mem) (bs : Bitset) (i : Z) : mem * Bitset :=
  if bs_nbits bs <=? i then (m, bs) else
  let m := put_word m bs (i / 32) (Z.land (word m bs (i / 32)) (not32 (Z.shiftl 1 (Z.land i 31)))) in
  let w := i / 32 in
  (m, if w <? bs_hint bs then set_hint bs w else bs).

Definition bitset_test (m : mem) (bs : Bitset) (i : Z) : bool :=
  if bs_nbits bs <=? i then false else
  negb (Z.land (Z.shiftr (word m bs (i / 32)) (Z.land i 31)) 1 =? 0).

(** The counting loop from word [w] on, [n] words being left. *)
Fixpoint count_words (n : nat) (m : mem) (bs : Bitset) (w acc : Z) : Z :=
  match n with
  | O => acc
  | S n => count_words n m bs (w + 1) (acc + bits_popcount32 (word m bs w))
  end.

Definition bitset_popcount (m : mem) (bs : Bitset) : Z :=
  if bs_words bs =? 0 then 0 else count_words (Z.to_nat (bs_nwords bs)) m bs 0 0.

Fixpoint scan_set (n : nat) (m : mem) (bs : Bitset) (w : Z) : Z :=
  match n with
  | O => BITSET_NPOS
  | S n =>
      if negb (word m bs w =? 0) then
        let i := w * 32 + bits_ctz32 (word m bs w) in
        if i <? bs_nbits bs then i else BITSET_NPOS
      else scan_set n m bs (w + 1)
  end.

Definition bitset_find_first_set (m : mem) (bs : Bitset) : Z :=
  if bs_words bs =? 0 then BITSET_NPOS else scan_set (Z.to_nat (bs_nwords bs)) m bs 0.

(** One pass of [bitset_find_first_clear] over [n] words from [w] on: the index
    found, with its word. *)
Fixpoint scan_clear (n : nat) (m : mem) (bs : Bitset) (w : Z) : option (Z * Z) :=
  match n with
  | O => None
  | S n =>
      let inv := not32 (word m bs w) in
      let inv := if w =? bs_nwords bs - 1 then Z.land inv (tail_mask bs) else inv in
      let i := w * 32 + bits_ctz32 inv in
      if negb (inv =? 0) && (i <? bs_nbits bs) then Some (i, w)
      else scan_clear n m bs (w + 1)
  end.

Definition bitset_find_first_clear (m : mem) (bs : Bitset) : Z * Bitset :=
  if (bs_words bs =? 0) || (bs_nwords bs =? 0) then (BITSET_NPOS, bs) else
  match scan_clear (Z.to_nat (bs_nwords bs - bs_hint bs)) m bs (bs_hint bs) with
  | Some (i, w) => (i, set_hint bs w)
  | None =>
      match scan_clear (Z.to_nat (bs_hint bs)) m bs 0 with
      | Some (i, w) => (i, set_hint bs w)
      | None => (BITSET_NPOS, bs)
      end
  end.

(** ** The scans find the lowest bit *)

Lemma ctz_half_spec k n x x0 :
  0 < k -> 0 <= n -> x0 = x * 2 ^ n -> (exists j, 0 <= j < 2 * k /\ Z.testbit x j = true) ->
  let '(n', x') := ctz_half (2 ^ k - 1) k (n, x) in
  0 <= n' /\ x0 = x' * 2 ^ n' /\ exists j, 0 <= j < k /\ Z.testbit x' j = true.
Proof.
  intros Hk Hn -> (j & Hj & Hb). unfold ctz_half. rewrite land_pow2_ones by lia.
  destruct (Z.eqb_spec (x mod 2 ^ k) 0) as [E|E].
  - assert (k <= j).
    { destruct (Z.leb_spec k j); [done|]. rewrite <-(Z.mod_pow2_bits_low x k j) in Hb by lia.
      by rewrite E, Z.bits_0 in Hb. }
    split; [lia|]. split.
    + rewrite Z.shiftr_div_pow2, Z.pow_add_r by lia.
      rewrite (Z.div_mod x (2 ^ k)) at 1 by (apply Z.pow_nonzero; lia). rewrite E. ring.
    + exists (j - k). split; [lia|]. rewrite Z.shiftr_spec by lia. by replace (j - k + k) with j by lia.
  - split; [done|]. split; [done|].
    pose proof (Z.mod_pos_bound x (2 ^ k) ltac:(apply Z.pow_pos_nonneg; lia)).
    exists (Z.log2 (x mod 2 ^ k)).
    assert (0 <= Z.log2 (x mod 2 ^ k) < k) as Hl
      by (split; [apply Z.log2_nonneg|apply Z.log2_lt_pow2; lia]).
    split; [done|]. rewrite <-(Z.mod_pow2_bits_low x k) by lia. apply Z.bit_log2. lia.
Qed.

Lemma bits_ctz32_spec x :
  is_u32 x -> x <> 0 ->
  0 <= bits_ctz32 x < 32 /\ Z.testbit x (bits_ctz32 x) = true /\
  forall j, 0 <= j < bits_ctz32 x -> Z.testbit x j = false.
Proof.
  intros Hx Hne. unfold bits_ctz32. rewrite (proj2 (Z.eqb_neq x 0)) by done.
  assert (exists j, 0 <= j < 32 /\ Z.testbit x j = true) as H0.
  { exists (Z.log2 x). umach. split; [|apply Z.bit_log2; lia]. split; [apply Z.log2_nonneg|].
    apply Z.log2_lt_pow2; [lia|]. change (2 ^ 32) with 0x100000000. lia. }
  pose proof (ctz_half_spec 16 0 x x ltac:(lia) ltac:(lia) ltac:(lia) H0) as H1.
  change (2 ^ 16 - 1) with 0xFFFF in H1. destruct (ctz_half 0xFFFF 16 (0, x)) as [n1 x1].
  destruct H1 as (Hn1 & E1 & H1).
  pose proof (ctz_half_spec 8 n1 x1 x ltac:(lia) Hn1 E1 H1) as H2.
  change (2 ^ 8 - 1) with 0xFF in H2. destruct (ctz_half 0xFF 8 (n1, x1)) as [n2 x2].
  destruct H2 as (Hn2 & E2 & H2).
  pose proof (ctz_half_spec 4 n2 x2 x ltac:(lia) Hn2 E2 H2) as H3.
  change (2 ^ 4 - 1) with 0xF in H3. destruct (ctz_half 0xF 4 (n2, x2)) as [n3 x3].
  destruct H3 as (Hn3 & E3 & H3).
  pose proof (ctz_half_spec 2 n3 x3 x ltac:(lia) Hn3 E3 H3) as H4.
  change (2 ^ 2 - 1) with 0x3 in H4. destruct (ctz_half 0x3 2 (n3, x3)) as [n x'].
  destruct H4 as (Hn & E & (j & Hj & Hb)).
  assert (forall r, n <= r -> Z.testbit x r = Z.testbit x' (r - n)) as Hbit.
  { intros r Hr. rewrite E, Z.mul_pow2_bits by lia. done. }
  assert (forall r, 0 <= r < n -> Z.testbit x r = false) as Hlow.
  { intros r Hr. rewrite E. apply Z.mul_pow2_bits_low. lia. }
  assert (forall r, Z.testbit x r = true -> r < 32) as H32.
  { intros r Hr. destruct (Z.ltb_spec r 32); [done|].
    rewrite <-(Z.mod_small x (2 ^ 32)) in Hr by (umach; lia).
    by rewrite Z.mod_pow2_bits_high in Hr by lia. }
  change 0x1 with (2 ^ 1 - 1). rewrite land_pow2_ones by lia. change (2 ^ 1) with 2.
  assert (x' mod 2 = if Z.testbit x' 0 then 1 else 0) as Hm
    by (rewrite Z.bit0_odd, Zmod_odd; by destruct (Z.odd x')).
  destruct (Z.testbit x' 0) eqn:Hb0; rewrite Hm; cbn [Z.eqb].
  - assert (Z.testbit x n = true) as Ht by (rewrite Hbit, Z.sub_diag by lia; done).
    specialize (H32 _ Ht). split_and!; [lia..|done|done].
  - assert (j = 1) as -> by (destruct (Z.eqb_spec j 0) as [->|]; [congruence|lia]).
    assert (Z.testbit x (n + 1) = true) as Ht
      by (rewrite Hbit by lia; by replace (n + 1 - n) with 1 by lia).
    specialize (H32 _ Ht). split_and!; [lia..|done|]. intros r Hr.
    destruct (Z.eqb_spec r n) as [->|]; [by rewrite Hbit, Z.sub_diag by lia|apply Hlow; lia].
Qed.

(** ** Words and bits *)

Definition bit (m : mem) (bs : Bitset) (i : Z) : bool := Z.testbit (word m bs (i / 32)) (i mod 32).

Lemma land_31 i : Z.land i 31 = i mod 32.
Proof. change 31 with (2 ^ 5 - 1). by rewrite land_pow2_ones by lia. Qed.

Lemma word_put m bs w w' v : word (put_word m bs w v) bs w' = if decide (w' = w) then u32 v else word m bs w'.
Proof.
  unfold word, put_word. case_decide; [subst; apply load32_store32_eq|].
  apply load32_store32_disj. unfold rdisj. lia.
Qed.

Lemma bit_put m bs w v i :
  bit (put_word m bs w v) bs i =
  if decide (i / 32 = w) then Z.testbit (u32 v) (i mod 32) else bit m bs i.
Proof. unfold bit. rewrite word_put. by case_decide. Qed.

Lemma bit_word m bs w j : 0 <= j < 32 -> bit m bs (32 * w + j) = Z.testbit (word m bs w) j.
Proof.
  intros Hj. unfold bit. f_equal; [f_equal|].
  - symmetry. apply (Z.div_unique_pos _ _ _ j); lia.
  - symmetry. apply (Z.mod_unique_pos _ _ w); lia.
Qed.

Lemma not32_bit x j : 0 <= j < 32 -> Z.testbit (not32 x) j = negb (Z.testbit x j).
Proof.
  intros. unfold not32. rewrite Z.lxor_spec. change 0xFFFFFFFF with (Z.ones 32).
  by rewrite Z.ones_spec_low, xorb_true_r by lia.
Qed.

(** ** The set a bitset stands for *)

Record bitset_sim (m : mem) (bs : Bitset) (P : Z -> bool) : Prop := {
  bm_words : bs_words bs <> 0;
  bm_nbits : 0 < bs_nbits bs < 2 ^ 62;
  bm_nwords : bs_nwords bs = BITSET_WORDS (bs_nbits bs);
  bm_mem : mem_ok m;
  bm_bits : forall i, 0 <= i < bs_nbits bs -> bit m bs i = P i;
  bm_tail : forall i, bs_nbits bs <= i < 32 * bs_nwords bs -> bit m bs i = false;
  bm_hint : 0 <= bs_hint bs < bs_nwords bs;
  bm_full : forall i, 0 <= i < bs_nbits bs -> i < 32 * bs_hint bs -> P i = true
}.

Lemma bitset_words_range nbits : 0 <= nbits < 2 ^ 62 ->
  32 * (BITSET_WORDS nbits - 1) < nbits <= 32 * BITSET_WORDS nbits.
Proof. change (2 ^ 62) with 0x4000000000000000. intros H. unfold BITSET_WORDS. zlia. Qed.

Lemma nwords_range m bs P : bitset_sim m bs P ->
  32 * (bs_nwords bs - 1) < bs_nbits bs <= 32 * bs_nwords bs.
Proof.
  intros Hs. rewrite (bm_nwords _ _ _ Hs). apply bitset_words_range. pose proof (bm_nbits _ _ _ Hs). lia.
Qed.

Lemma word_u32 m bs w : mem_ok m -> is_u32 (word m bs w).
Proof. apply load32_range. Qed.

Lemma put_word_ok m bs w v : mem_ok m -> mem_ok (put_word m bs w v).
Proof. apply store32_ok. Qed.

Lemma tail_mask_bit bs j : 0 <= bs_nbits bs -> 0 <= j < 32 ->
  Z.testbit (tail_mask bs) j = (bs_nbits bs mod 32 =? 0) || (j <? bs_nbits bs mod 32).
Proof.
  intros Hn Hj. unfold tail_mask. rewrite land_31.
  destruct (Z.eqb_spec (bs_nbits bs mod 32) 0) as [E|E]; cbn [orb].
  - change 0xFFFFFFFF with (Z.ones 32). by apply Z.ones_spec_low.
  - pose proof (Z.mod_pos_bound (bs_nbits bs) 32). rewrite Z.sub_1_r.
    change (Z.pred (Z.shiftl 1 (bs_nbits bs mod 32))) with (Z.ones (bs_nbits bs mod 32)).
    destruct (Z.ltb_spec j (bs_nbits bs mod 32)); [apply Z.ones_spec_low; lia|].
    apply Z.ones_spec_high. lia.
Qed.

(** The inverted word that the scan looks at has exactly the free indices. *)
Definition inverted (m : mem) (bs : Bitset) (w : Z) : Z :=
  let inv := not32 (word m bs w) in
  if w =? bs_nwords bs - 1 then Z.land inv (tail_mask bs) else inv.

Lemma inverted_bit m bs P w j :
  bitset_sim m bs P -> 0 <= w < bs_nwords bs -> 0 <= j < 32 ->
  Z.testbit (inverted m bs w) j = (32 * w + j <? bs_nbits bs) && negb (P (32 * w + j)).
Proof.
  intros Hs Hw Hj. pose proof (nwords_range _ _ _ Hs) as Hn. pose proof (bm_nbits _ _ _ Hs).
  assert (Z.testbit (inverted m bs w) j =
          (32 * w + j <? bs_nbits bs) && negb (bit m bs (32 * w + j))) as ->.
  { rewrite bit_word by done. unfold inverted. destruct (Z.eqb_spec w (bs_nwords bs - 1)) as [->|].
    - rewrite Z.land_spec, not32_bit, tail_mask_bit by lia. rewrite andb_comm. f_equal.
      destruct (Z.eqb_spec (bs_nbits bs mod 32) 0), (Z.ltb_spec j (bs_nbits bs mod 32)),
        (Z.ltb_spec (32 * (bs_nwords bs - 1) + j) (bs_nbits bs)); try done; zlia.
    - rewrite not32_bit by lia. by rewrite (proj2 (Z.ltb_lt _ _)) by lia. }
  destruct (Z.ltb_spec (32 * w + j) (bs_nbits bs)); [|done]. by rewrite (bm_bits _ _ _ Hs) by lia.
Qed.

Lemma inverted_u32 m bs w : mem_ok m -> 0 <= bs_nbits bs -> is_u32 (inverted m bs w).
Proof.
  intros Hm Hn. pose proof (not32_u32 _ (word_u32 m bs w Hm)) as Hi.
  unfold inverted. destruct (_ =? _); [|done]. apply (bits_range 32); [done| |].
  - apply Z.land_nonneg. umach. lia.
  - intros j Hj. by rewrite Z.land_spec, (range_bits 32 (not32 _)).
Qed.

(** ** The scans *)

Lemma scan_clear_spec m bs P n : bitset_sim m bs P -> forall w,
  0 <= w -> w + Z.of_nat n <= bs_nwords bs ->
  match scan_clear n m bs w with
  | Some (i, w') => w <= w' < w + Z.of_nat n /\ 32 * w' <= i /\ 0 <= i < bs_nbits bs /\ P i = false /\
      forall j, 32 * w <= j < i -> P j = true
  | None => forall j, 32 * w <= j < 32 * (w + Z.of_nat n) -> j < bs_nbits bs -> P j = true
  end.
Proof.
  intros Hs. induction n as [|n IH]; intros w Hw Hn; cbn [scan_clear]; [intros; lia|].
  fold (inverted m bs w).
  pose proof (inverted_bit m bs P w) as Hbit.
  destruct (Z.eqb_spec (inverted m bs w) 0) as [E|E]; cbn [negb andb].
  - assert (forall j, 32 * w <= j < 32 * (w + 1) -> j < bs_nbits bs -> P j = true) as Hfull.
    { intros j Hj Hlt. specialize (Hbit (j - 32 * w) Hs ltac:(lia) ltac:(lia)).
      rewrite E, Z.bits_0 in Hbit. replace (32 * w + (j - 32 * w)) with j in Hbit by lia.
      rewrite (proj2 (Z.ltb_lt _ _)) in Hbit by lia. by destruct (P j). }
    specialize (IH (w + 1) ltac:(lia) ltac:(lia)).
    destruct (scan_clear n m bs (w + 1)) as [[i w']|].
    + destruct IH as (H1 & H2 & H3 & H4 & H5). split_and!; try lia; [done|].
      intros j Hj. destruct (Z.ltb_spec j (32 * (w + 1))); [apply Hfull; lia|apply H5; lia].
    + intros j Hj Hlt. destruct (Z.ltb_spec j (32 * (w + 1))); [apply Hfull; lia|apply IH; lia].
  - pose proof (bm_nbits _ _ _ Hs).
    destruct (bits_ctz32_spec _ (inverted_u32 m bs w (bm_mem _ _ _ Hs) ltac:(lia)) E)
      as (Hc & Hset & Hlow).
    set (k := bits_ctz32 (inverted m bs w)) in *.
    rewrite Hbit in Hset by (done || lia). apply andb_prop in Hset as [Hlt%Z.ltb_lt Hp].
    rewrite (proj2 (Z.ltb_lt _ _)) by lia. split_and!; try lia.
    + replace (w * 32 + k) with (32 * w + k) by lia. by apply negb_true_iff.
    + intros j Hj. specialize (Hlow (j - 32 * w) ltac:(lia)).
      rewrite Hbit in Hlow by (done || lia). replace (32 * w + (j - 32 * w)) with j in Hlow by lia.
      rewrite (proj2 (Z.ltb_lt _ _)) in Hlow by lia. by apply negb_false_iff in Hlow.
Qed.

Lemma scan_set_spec m bs P n : bitset_sim m bs P -> forall w,
  0 <= w -> w + Z.of_nat n = bs_nwords bs ->
  (forall j, 32 * w <= j < bs_nbits bs -> P j = false) /\ scan_set n m bs w = BITSET_NPOS \/
  (32 * w <= scan_set n m bs w < bs_nbits bs /\ P (scan_set n m bs w) = true /\
   forall j, 32 * w <= j < scan_set n m bs w -> P j = false).
Proof.
  intros Hs. pose proof (nwords_range _ _ _ Hs) as Hr.
  induction n as [|n IH]; intros w Hw Hn; cbn [scan_set]; [left; split; [intros; lia|done]|].
  destruct (Z.eqb_spec (word m bs w) 0) as [E|E]; cbn [negb].
  - assert (forall j, 32 * w <= j < 32 * (w + 1) -> j < bs_nbits bs -> P j = false) as Hnone.
    { intros j Hj Hlt. rewrite <-(bm_bits _ _ _ Hs) by lia.
      replace j with (32 * w + (j - 32 * w)) by lia. by rewrite bit_word, E, Z.bits_0 by lia. }
    destruct (IH (w + 1) ltac:(lia) ltac:(lia)) as [[Hf ->]|(Hi & Hp & Hf)].
    + left. split; [|done]. intros j Hj.
      destruct (Z.ltb_spec j (32 * (w + 1))); [apply Hnone; lia|apply Hf; lia].
    + right. split; [lia|]. split; [done|]. intros j Hj.
      destruct (Z.ltb_spec j (32 * (w + 1))); [apply Hnone; lia|apply Hf; lia].
  - destruct (bits_ctz32_spec _ (word_u32 m bs w (bm_mem _ _ _ Hs)) E) as (Hc & Hset & Hlow).
    set (k := bits_ctz32 (word m bs w)) in *. rewrite <-bit_word in Hset by lia.
    destruct (Z.ltb_spec (w * 32 + k) (bs_nbits bs)) as [Hlt|Hge].
    + right. replace (w * 32 + k) with (32 * w + k) in * by lia.
      split; [lia|]. split; [by rewrite <-(bm_bits _ _ _ Hs) by lia|].
      intros j Hj. specialize (Hlow (j - 32 * w) ltac:(lia)). rewrite <-bit_word in Hlow by lia.
      rewrite (bm_bits _ _ _ Hs) in Hlow by lia. by replace (32 * w + (j - 32 * w)) with j in Hlow by lia.
    + rewrite (bm_tail _ _ _ Hs) in Hset by lia. done.
Qed.

(** ** Counting *)

(** The number of indices below [n] that satisfy [f]. *)
Fixpoint count_true (f : Z -> bool) (n : nat) : Z :=
  match n with O => 0 | S n => count_true f n + (if f (Z.of_nat n) then 1 else 0) end.

Lemma count_true_ext f g n :
  (forall i, 0 <= i < Z.of_nat n -> f i = g i) -> count_true f n = count_true g n.
Proof.
  induction n as [|n IH]; intros H; cbn [count_true]; [done|]. rewrite IH by (intros; apply H; lia).
  by rewrite H by lia.
Qed.

Lemma count_true_add f a b :
  count_true f (a + b) = count_true f a + count_true (fun i => f (Z.of_nat a + i)) b.
Proof.
  induction b as [|b IH]; cbn [count_true]; [rewrite Nat.add_0_r; lia|].
  rewrite Nat.add_succ_r. cbn [count_true]. rewrite IH, Nat2Z.inj_add. lia.
Qed.

Lemma popcount_count x : bits_popcount32 x = count_true (Z.testbit x) 32.
Proof.
  unfold bits_popcount32. generalize 32%nat. intros n. induction n as [|n IH]; [done|].
  rewrite seq_S, filter_app, length_app, Nat2Z.inj_add, IH. cbn [count_true Nat.add].
  rewrite filter_cons, filter_nil. case_decide as E; cbn [length]; [by rewrite E|].
  by destruct (Z.testbit x (Z.of_nat n)).
Qed.

Lemma count_words_spec m bs n : forall w acc, 0 <= w ->
  count_words n m bs w acc = acc + count_true (fun i => bit m bs (32 * w + i)) (n * 32).
Proof.
  induction n as [|n IH]; intros w acc Hw; [symmetry; apply Z.add_0_r|].
  cbn [count_words Nat.mul]. rewrite IH, popcount_count, count_true_add by lia.
  rewrite (count_true_ext (fun i => bit m bs (32 * w + i)) (Z.testbit (word m bs w)))
    by (intros i Hi; apply bit_word; lia).
  rewrite <-Z.add_assoc, (count_true_ext (fun i => bit m bs (32 * (w + 1) + i))
    (fun i => bit m bs (32 * w + (Z.of_nat 32 + i)))); [done|].
  intros i Hi. by replace (32 * (w + 1) + i) with (32 * w + (Z.of_nat 32 + i)) by lia.
Qed.

Lemma popcount_sim m bs P : bitset_sim m bs P ->
  bitset_popcount m bs = count_true P (Z.to_nat (bs_nbits bs)).
Proof.
  intros Hs. unfold bitset_popcount. rewrite (proj2 (Z.eqb_neq _ 0)) by apply Hs.
  pose proof (nwords_range _ _ _ Hs) as Hr. pose proof (bm_nbits _ _ _ Hs).
  rewrite count_words_spec by lia. rewrite Z.add_0_l.
  replace (Z.to_nat (bs_nwords bs) * 32)%nat
    with (Z.to_nat (bs_nbits bs) + Z.to_nat (32 * bs_nwords bs - bs_nbits bs))%nat by lia.
  rewrite count_true_add.
  rewrite (count_true_ext _ (fun _ => false) (Z.to_nat (32 * bs_nwords bs - bs_nbits bs))).
  - assert (forall n, count_true (fun _ => false) n = 0) as -> by (induction n; cbn; lia).
    rewrite Z.add_0_r. apply count_true_ext. intros i Hi. rewrite Z.mul_0_r, Z.add_0_l.
    apply (bm_bits _ _ _ Hs). lia.
  - intros i Hi. rewrite Z.mul_0_r, Z.add_0_l. apply (bm_tail _ _ _ Hs). lia.
Qed.

(** ** Updates *)

Lemma bit_fill n : forall m bs w v i,
  0 <= w ->
  bit (fill_words n m bs w v) bs i =
  if decide (w <= i / 32 < w + Z.of_nat n) then Z.testbit (u32 v) (i mod 32) else bit m bs i.
Proof.
  induction n as [|n IH]; intros m bs w v i Hw; cbn [fill_words].
  - by rewrite decide_False by lia.
  - rewrite IH, bit_put by lia.
    destruct (decide (i / 32 = w)); repeat case_decide; try done; lia.
Qed.

Lemma fill_ok n : forall m bs w v, mem_ok m -> mem_ok (fill_words n m bs w v).
Proof. induction n as [|n IH]; intros m bs w v Hm; [done|]. by apply IH, put_word_ok. Qed.

Lemma div32_range i n : 0 <= i < 32 * n -> 0 <= i / 32 < n.
Proof. intros. zlia. Qed.

(** All words written with [v] and the hint reset. *)
Lemma fill_sim m bs P b :
  bitset_sim m bs P ->
  let m1 := fill_words (Z.to_nat (bs_nwords bs)) m bs 0 (if b : bool then 0xFFFFFFFF else 0) in
  mem_ok m1 /\ forall i, 0 <= i < 32 * bs_nwords bs -> bit m1 bs i = b.
Proof.
  intros Hs m1. split; [apply fill_ok, Hs|]. intros i Hi. unfold m1.
  pose proof (div32_range i _ Hi). rewrite bit_fill by lia.
  rewrite decide_True by lia. destruct b.
  - change (u32 0xFFFFFFFF) with (Z.ones 32). apply Z.ones_spec_low. apply Z.mod_pos_bound. lia.
  - change (u32 0) with 0. apply Z.bits_0.
Qed.

Lemma set_hint_sim m bs P h :
  bitset_sim m bs P -> 0 <= h < bs_nwords bs ->
  (forall i, 0 <= i < bs_nbits bs -> i < 32 * h -> P i = true) -> bitset_sim m (set_hint bs h) P.
Proof. intros [] Hh Hf. by split. Qed.

Lemma clear_all_sim m bs P : bitset_sim m bs P ->
  bitset_sim (bitset_clear_all m bs).1 (bitset_clear_all m bs).2 (fun _ => false).
Proof.
  intros Hs. unfold bitset_clear_all. rewrite (proj2 (Z.eqb_neq _ 0)) by apply Hs.
  pose proof (nwords_range _ _ _ Hs). pose proof (bm_nbits _ _ _ Hs).
  destruct (fill_sim m bs P false Hs) as [Hm Hb]. cbn [fst snd].
  destruct Hs. split; try done; cbn [set_hint bs_nbits bs_nwords bs_hint]; try lia.
  - intros i Hi. apply Hb. lia.
  - intros i Hi. apply Hb. lia.
Qed.

Lemma set_all_sim m bs P : bitset_sim m bs P ->
  bitset_sim (bitset_set_all m bs).1 (bitset_set_all m bs).2 (fun _ => true).
Proof.
  intros Hs. unfold bitset_set_all. rewrite (proj2 (Z.eqb_neq (bs_words bs) 0)) by apply Hs.
  pose proof (nwords_range _ _ _ Hs) as Hr. pose proof (bm_nbits _ _ _ Hs).
  rewrite (proj2 (Z.eqb_neq (bs_nwords bs) 0)) by lia. cbn [orb].
  destruct (fill_sim m bs P true Hs) as [Hm Hb].
  set (m1 := fill_words _ m bs 0 _) in *. cbn [fst snd].
  assert (forall i, 0 <= i < 32 * bs_nwords bs ->
    bit (put_word m1 bs (bs_nwords bs - 1) (Z.land (word m1 bs (bs_nwords bs - 1)) (tail_mask bs)))
      (set_hint bs 0) i = (i <? bs_nbits bs)) as Hbit.
  { intros i Hi. change (bit ?m (set_hint bs 0) i) with (bit m bs i). rewrite bit_put.
    destruct (decide (i / 32 = bs_nwords bs - 1)) as [E|E].
    - assert (0 <= i mod 32 < 32) by (apply Z.mod_pos_bound; lia).
      rewrite testbit_u32, Z.land_spec, tail_mask_bit by lia.
      rewrite <-bit_word by lia. rewrite <-E.
      replace (32 * (i / 32) + i mod 32) with i by (apply Z.div_mod; lia).
      rewrite Hb by done. cbn [andb].
      destruct (Z.eqb_spec (bs_nbits bs mod 32) 0), (Z.ltb_spec (i mod 32) (bs_nbits bs mod 32)),
        (Z.ltb_spec i (bs_nbits bs)); try done; zlia.
    - rewrite Hb by done. symmetry. apply Z.ltb_lt. zlia. }
  destruct Hs. split; try done; cbn [set_hint bs_nbits bs_nwords bs_hint]; try lia.
  - by apply put_word_ok.
  - intros i Hi. rewrite Hbit by lia. apply Z.ltb_lt; lia.
  - intros i Hi. rewrite Hbit by lia. apply Z.ltb_ge; lia.
Qed.

(** Rewriting the one word of index [i] so that its bit becomes [b]. *)
Lemma put_bit_sim m bs P i b v :
  bitset_sim m bs P -> 0 <= i < bs_nbits bs ->
  (forall j, 0 <= j < 32 -> Z.testbit v j = if decide (j = i mod 32) then b else Z.testbit (word m bs (i / 32)) j) ->
  forall k, 0 <= k -> bit (put_word m bs (i / 32) v) bs k = if decide (k = i) then b else bit m bs k.
Proof.
  intros Hs Hi Hv k Hk. rewrite bit_put.
  assert (0 <= k mod 32 < 32) by (apply Z.mod_pos_bound; lia).
  destruct (decide (k / 32 = i / 32)) as [E|E].
  - rewrite testbit_u32, Hv by lia. destruct (decide (k mod 32 = i mod 32)) as [E2|E2].
    + rewrite decide_True; [done|]. rewrite (Z.div_mod k 32), (Z.div_mod i 32) by lia. congruence.
    + rewrite decide_False by congruence. unfold bit. by rewrite E.
  - by rewrite decide_False by congruence.
Qed.

Lemma set_sim m bs P i : bitset_sim m bs P -> 0 <= i ->
  bitset_sim (bitset_set m bs i) bs (fun k => P k || (k =? i)).
Proof.
  intros Hs Hi. pose proof (nwords_range _ _ _ Hs) as Hr. unfold bitset_set. rewrite land_31.
  destruct (Z.leb_spec (bs_nbits bs) i) as [Hge|Hlt].
  { destruct Hs. split; try done.
    - intros k Hk. rewrite (proj2 (Z.eqb_neq k i)) by lia. rewrite orb_false_r. auto.
    - intros k Hk Hk2. by rewrite bm_full0. }
  assert (0 <= i mod 32 < 32) by (apply Z.mod_pos_bound; lia).
  pose proof (put_bit_sim m bs P i true (Z.lor (word m bs (i / 32)) (Z.shiftl 1 (i mod 32))) Hs
    ltac:(lia)) as Hb.
  assert (forall k, 0 <= k -> bit (put_word m bs (i / 32) (Z.lor (word m bs (i / 32)) (Z.shiftl 1 (i mod 32)))) bs k
    = bit m bs k || (k =? i)) as Hbit.
  { intros k Hk. rewrite Hb; [|intros j Hj; rewrite testbit_set by lia|done].
    - destruct (decide (k = i)) as [->|]; [by rewrite Z.eqb_refl, orb_true_r|].
      rewrite (proj2 (Z.eqb_neq k i)) by done. by rewrite orb_false_r.
    - destruct (decide (j = i mod 32)) as [->|]; [by rewrite Z.eqb_refl, orb_true_r|].
      rewrite (proj2 (Z.eqb_neq _ _)) by done. by rewrite orb_false_r. }
  destruct Hs. split; try done.
  - by apply put_word_ok.
  - intros k Hk. rewrite Hbit by lia. f_equal. auto.
  - intros k Hk. rewrite Hbit by lia. rewrite bm_tail0 by done. apply Z.eqb_neq. lia.
  - intros k Hk Hk2. by rewrite bm_full0.
Qed.

Lemma clear_sim m bs P i : bitset_sim m bs P -> 0 <= i ->
  bitset_sim (bitset_clear m bs i).1 (bitset_clear m bs i).2 (fun k => P k && negb (k =? i)).
Proof.
  intros Hs Hi. pose proof (nwords_range _ _ _ Hs) as Hr. unfold bitset_clear. rewrite land_31.
  destruct (Z.leb_spec (bs_nbits bs) i) as [Hge|Hlt]; cbn [fst snd].
  { destruct Hs. split; try done.
    - intros k Hk. rewrite (proj2 (Z.eqb_neq k i)) by lia. rewrite andb_true_r. auto.
    - intros k Hk Hk2. rewrite bm_full0 by done. by rewrite (proj2 (Z.eqb_neq k i)) by lia. }
  assert (0 <= i mod 32 < 32) by (apply Z.mod_pos_bound; lia).
  set (v := Z.land (word m bs (i / 32)) (not32 (Z.shiftl 1 (i mod 32)))).
  assert (forall k, 0 <= k -> bit (put_word m bs (i / 32) v) bs k = bit m bs k && negb (k =? i)) as Hbit.
  { intros k Hk. rewrite (put_bit_sim m bs P i false v Hs ltac:(lia)); [| |done].
    - destruct (decide (k = i)) as [->|]; [by rewrite Z.eqb_refl, andb_false_r|].
      rewrite (proj2 (Z.eqb_neq k i)) by done. by rewrite andb_true_r.
    - intros j Hj. unfold v. rewrite testbit_clear32 by lia. rewrite Z.eqb_sym.
      destruct (decide (j = i mod 32)) as [->|]; [by rewrite Z.eqb_refl, andb_false_r|].
      rewrite (proj2 (Z.eqb_neq j _)) by done. by rewrite andb_true_r. }
  assert (0 <= i / 32 < bs_nwords bs) as Hw by (apply div32_range; lia).
  assert (bitset_sim (put_word m bs (i / 32) v) (set_hint bs (Z.min (i / 32) (bs_hint bs)))
    (fun k => P k && negb (k =? i))) as Hsim.
  { destruct Hs. split; try done; cbn [set_hint bs_nbits bs_nwords bs_hint bs_words]; try lia.
    - by apply put_word_ok.
    - intros k Hk. change (bit ?m (set_hint bs ?h) k) with (bit m bs k). rewrite Hbit by lia. f_equal. auto.
    - intros k Hk. change (bit ?m (set_hint bs ?h) k) with (bit m bs k).
      rewrite Hbit by lia. by rewrite bm_tail0.
    - intros k Hk Hk2. assert (32 * (i / 32) <= i) by zlia.
      rewrite bm_full0 by lia. by rewrite (proj2 (Z.eqb_neq k i)) by lia. }
  destruct (Z.ltb_spec (i / 32) (bs_hint bs)).
  - by rewrite Z.min_l in Hsim by lia.
  - rewrite Z.min_r in Hsim by lia. by destruct bs.
Qed.

(** ** Queries *)

(** The lowest index below [n] that satisfies [f]. *)
Definition least (f : Z -> bool) (n : nat) : Z :=
  match find (fun i => f (Z.of_nat i)) (seq 0 n) with
  | Some i => Z.of_nat i
  | None => BITSET_NPOS
  end.

Lemma find_seq_least (f : nat -> bool) n s i :
  (s <= i < s + n)%nat -> f i = true -> (forall j, (s <= j < i)%nat -> f j = false) ->
  find f (seq s n) = Some i.
Proof.
  revert s. induction n as [|n IH]; intros s Hi Hf Hlow; [lia|]. cbn [seq find].
  destruct (decide (s = i)) as [->|]; [by rewrite Hf|].
  rewrite Hlow by lia. apply IH; [lia|done|]. intros j Hj. apply Hlow. lia.
Qed.

Lemma least_found f n i :
  0 <= i < Z.of_nat n -> f i = true -> (forall j, 0 <= j < i -> f j = false) -> least f n = i.
Proof.
  intros Hi Hf Hlow. unfold least. rewrite (find_seq_least _ n 0 (Z.to_nat i)).
  - lia.
  - lia.
  - by rewrite Z2Nat.id by lia.
  - intros j Hj. apply Hlow. lia.
Qed.

Lemma least_none f n : (forall j, 0 <= j < Z.of_nat n -> f j = false) -> least f n = BITSET_NPOS.
Proof.
  intros H. unfold least. destruct (find _ _) as [i|] eqn:E; [|done].
  apply find_some in E as [Hi%in_seq Ht]. rewrite H in Ht by lia. done.
Qed.

Lemma test_sim m bs P i : bitset_sim m bs P -> 0 <= i ->
  bitset_test m bs i = (i <? bs_nbits bs) && P i.
Proof.
  intros Hs Hi. unfold bitset_test. rewrite land_31.
  destruct (Z.leb_spec (bs_nbits bs) i); [by rewrite (proj2 (Z.ltb_ge _ _)) by lia|].
  rewrite (proj2 (Z.ltb_lt _ _)) by lia. cbn [andb]. rewrite <-(bm_bits _ _ _ Hs) by lia.
  change 1 with (2 ^ 1 - 1) at 1. rewrite land_pow2_ones by lia. change (2 ^ 1) with 2.
  rewrite Zmod_odd, <-Z.bit0_odd, Z.shiftr_spec, Z.add_0_l by lia.
  unfold bit. by destruct (Z.testbit _ _).
Qed.

Lemma find_first_set_sim m bs P : bitset_sim m bs P ->
  bitset_find_first_set m bs = least P (Z.to_nat (bs_nbits bs)).
Proof.
  intros Hs. unfold bitset_find_first_set. rewrite (proj2 (Z.eqb_neq _ 0)) by apply Hs.
  pose proof (bm_hint _ _ _ Hs). pose proof (bm_nbits _ _ _ Hs).
  destruct (scan_set_spec m bs P (Z.to_nat (bs_nwords bs)) Hs 0 ltac:(lia) ltac:(lia))
    as [[Hn ->]|(Hi & Hp & Hn)].
  - symmetry. apply least_none. intros j Hj. apply Hn. lia.
  - symmetry. apply least_found; [lia|done|]. intros j Hj. apply Hn. lia.
Qed.

(** The rolling hint does not change the answer: the index found is the lowest
    free one of the whole set. *)
Lemma find_first_clear_sim m bs P : bitset_sim m bs P ->
  let r := bitset_find_first_clear m bs in
  r.1 = least (fun i => negb (P i)) (Z.to_nat (bs_nbits bs)) /\ bitset_sim m r.2 P.
Proof.
  intros Hs r. unfold r, bitset_find_first_clear.
  pose proof (bm_hint _ _ _ Hs) as Hh. pose proof (bm_nbits _ _ _ Hs). pose proof (bm_full _ _ _ Hs) as Hf.
  rewrite (proj2 (Z.eqb_neq (bs_words bs) 0)) by apply Hs.
  rewrite (proj2 (Z.eqb_neq (bs_nwords bs) 0)) by lia. cbn [orb].
  pose proof (scan_clear_spec m bs P (Z.to_nat (bs_nwords bs - bs_hint bs)) Hs (bs_hint bs)
    ltac:(lia) ltac:(lia)) as H1.
  destruct (scan_clear _ m bs (bs_hint bs)) as [[i w]|]; cbn [fst snd].
  { destruct H1 as (Hw & Hiw & Hi & Hp & Hlow).
    assert (forall j, 0 <= j < i -> P j = true) as Hall.
    { intros j Hj. destruct (Z.ltb_spec j (32 * bs_hint bs)); [apply Hf|apply Hlow]; lia. }
    split.
    - symmetry. apply least_found; [lia|by rewrite Hp|]. intros j Hj. by rewrite Hall.
    - apply set_hint_sim; [done|lia|]. intros j Hj Hlt. apply Hall. lia. }
  pose proof (scan_clear_spec m bs P (Z.to_nat (bs_hint bs)) Hs 0 ltac:(lia) ltac:(lia)) as H2.
  destruct (scan_clear _ m bs 0) as [[i w]|]; cbn [fst snd].
  { destruct H2 as (Hw & Hiw & Hi & Hp & Hlow). split.
    - symmetry. apply least_found; [lia|by rewrite Hp|]. intros j Hj. by rewrite Hlow by lia.
    - apply set_hint_sim; [done|lia|]. intros j Hj Hlt. apply Hlow. lia. }
  split; [|done]. symmetry. apply least_none. intros j Hj.
  destruct (Z.ltb_spec j (32 * bs_hint bs)); [rewrite Hf by lia; done|].
  pose proof (nwords_range _ _ _ Hs). rewrite H1 by lia. done.
Qed.

(** ** Scripts *)

Inductive bitset_cmd :=
  | BSet (i : Z)
  | BClear (i : Z)
  | BSetAll
  | BClearAll
  | BTest (i : Z)
  | BCount
  | BFirstSet
  | BFirstClear.

Definition cmd_ok (c : bitset_cmd) : Prop :=
  match c with BSet i | BClear i | BTest i => is_u64 i | _ => True end.

(** One call on the implementation: the value returned (0 for [void]) and the
    state after it. *)
Definition bitset_do (c : bitset_cmd) (σ : mem * Bitset) : Z * (mem * Bitset) :=
  let '(m, bs) := σ in
  match c with
  | BSet i => (0, (bitset_set m bs i, bs))
  | BClear i => (0, bitset_clear m bs i)
  | BSetAll => (0, bitset_set_all m bs)
  | BClearAll => (0, bitset_clear_all m bs)
  | BTest i => (Z.b2z (bitset_test m bs i), σ)
  | BCount => (bitset_popcount m bs, σ)
  | BFirstSet => (bitset_find_first_set m bs, σ)
  | BFirstClear => let '(i, bs) := bitset_find_first_clear m bs in (i, (m, bs))
  end.

(** The same call on a set of indices below [n]. *)
Definition set_do (n : Z) (c : bitset_cmd) (P : Z -> bool) : Z * (Z -> bool) :=
  match c with
  | BSet i => (0, fun k => P k || (k =? i))
  | BClear i => (0, fun k => P k && negb (k =? i))
  | BSetAll => (0, fun _ => true)
  | BClearAll => (0, fun _ => false)
  | BTest i => (Z.b2z ((i <? n) && P i), P)
  | BCount => (count_true P (Z.to_nat n), P)
  | BFirstSet => (least P (Z.to_nat n), P)
  | BFirstClear => (least (fun i => negb (P i)) (Z.to_nat n), P)
  end.

Fixpoint script {S} (do : bitset_cmd -> S -> Z * S) (cs : list bitset_cmd) (s : S) : list Z :=
  match cs with
  | [] => []
  | c :: cs => let '(r, s) := do c s in r :: script do cs s
  end.

Lemma do_sim c m bs P : cmd_ok c -> bitset_sim m bs P ->
  let r := bitset_do c (m, bs) in let a := set_do (bs_nbits bs) c P in
  r.1 = a.1 /\ bitset_sim r.2.1 r.2.2 a.2 /\ bs_nbits r.2.2 = bs_nbits bs.
Proof.
  intros Hc Hs. destruct c as [i|i| | |i| | |]; cbn [bitset_do set_do cmd_ok fst snd] in *.
  - split; [done|]. split; [|done]. apply set_sim; [done|umach; lia].
  - split; [done|]. split; [apply clear_sim; [done|umach; lia]|].
    unfold bitset_clear. by repeat case_match.
  - split; [done|]. split; [by apply set_all_sim with P|]. unfold bitset_set_all. by case_match.
  - split; [done|]. split; [by apply clear_all_sim with P|]. unfold bitset_clear_all. by case_match.
  - split; [|done]. f_equal. apply test_sim; [done|umach; lia].
  - split; [by apply popcount_sim|done].
  - split; [by apply find_first_set_sim|done].
  - pose proof (find_first_clear_sim m bs P Hs) as [H1 H2].
    unfold bitset_find_first_clear in *. repeat case_match; cbn [fst snd] in *; by simplify_eq.
Qed.

Lemma init_sim m words nbits :
  mem_ok m -> words <> 0 -> 0 < nbits < 2 ^ 62 ->
  let r := bitset_clear_all m (bitset_init words nbits) in
  bitset_sim r.1 r.2 (fun _ => false) /\ bs_nbits r.2 = nbits.
Proof.
  intros Hm Hw Hn. pose proof (bitset_words_range nbits ltac:(lia)) as Hr.
  unfold bitset_clear_all, bitset_init. cbn [bs_words bs_nwords].
  rewrite (proj2 (Z.eqb_neq words 0)) by done. cbn [fst snd]. split; [|done].
  set (bs := mkBitset _ _ _ _).
  assert (forall i, 0 <= i < 32 * BITSET_WORDS nbits ->
    bit (fill_words (Z.to_nat (BITSET_WORDS nbits)) m bs 0 0) bs i = false) as Hb.
  { intros i Hi. pose proof (div32_range i _ Hi).
    rewrite bit_fill by lia. rewrite decide_True by lia. apply Z.bits_0. }
  split; cbn; try done; try lia.
  - by apply fill_ok.
  - intros i Hi. apply Hb. lia.
  - intros i Hi. apply Hb. lia.
Qed.

(** A bit set over caller-owned words implements a set of indices: after
    initialisation and [bitset_clear_all], every script of calls returns what
    the abstract set returns.  Out-of-range indices are ignored, the population
    count is the cardinality, and both searches return the lowest index (the
    rolling hint of [bitset_find_first_clear] never makes it miss a lower free
    index) or [BITSET_NPOS] exactly when there is none. *)
Theorem bitset_refines m words nbits cs :
  mem_ok m -> words <> 0 -> 0 < nbits < 2 ^ 62 -> Forall cmd_ok cs ->
  script bitset_do cs (bitset_clear_all m (bitset_init words nbits)) =
  script (set_do nbits) cs (fun _ => false).
Proof.
  intros Hm Hw Hn Hcs. destruct (init_sim m words nbits Hm Hw Hn) as [Hs Hb].
  destruct (bitset_clear_all m (bitset_init words nbits)) as [m0 bs]. cbn [fst snd] in *. clear m Hm.
  revert m0 bs Hs Hb. generalize (fun _ : Z => false).
  induction Hcs as [|c cs Hc Hcs IH]; intros P m bs Hs Hb; [done|]. cbn [script].
  destruct (do_sim c m bs P Hc Hs) as (Hr & Hs' & Hb'). rewrite Hb in *.
  destruct (bitset_do c (m, bs)) as [r [m' bs']], (set_do nbits c P) as [r' P'].
  cbn [fst snd] in *. subst. f_equal. by apply IH.
Qed.

(** ** A concrete script *)

Definition demo_cmds : list bitset_cmd :=
  [BSetAll; BFirstClear; BClear 33; BClear 5; BFirstClear; BSet 5; BFirstClear; BCount; BTest 33; BSet 900].

Lemma bitset_refines_witness :
  script bitset_do demo_cmds (bitset_clear_all (fun _ => 0) (bitset_init 0x1000 40)) =
    script (set_do 40) demo_cmds (fun _ => false) /\
  script (set_do 40) demo_cmds (fun _ => false) = [0; 18446744073709551615; 0; 0; 5; 0; 33; 39; 0; 0].
Proof.
  split; [|by vm_compute].
  apply (bitset_refines (fun _ => 0) 0x1000 40 demo_cmds); [done|done|by split|].
  repeat constructor; by vm_compute.
Defined.
