(* ===== verification/VmMailbox.v ===== *)
(** The VM mailbox ([src/vm/vm_mailbox.c]): a bounded queue of messages with a
    whitelist of senders.  A queue slot is the sender's id (two little-endian
    bytes) followed by the payload.  The mailbox is written against the
    [ByteFifo] interface; the code's queue is the instance [FifoQueue].

    The scratch array of [vm_mailbox_send], [_recv] and [_peek] is an automatic
    variable: the model takes its address as an argument.  The locker brackets
    the operations and is not modelled; a null mailbox pointer is not either. *)
From S2P Require Import Prelude HostMem FifoQueue.

Definition VM_MAILBOX_WHITELIST_BITS : Z := 64.
Definition VM_MAILBOX_MAX_SLOT_SIZE : Z := 4096.
Definition VM_MAILBOX_SLOT_OVERHEAD : Z := 2.

Inductive VmMailboxResult :=
  | VM_MBOX_OK
  | VM_MBOX_ERR_INVALID_ARG
  | VM_MBOX_ERR_NOT_WHITELISTED
  | VM_MBOX_ERR_FULL
  | VM_MBOX_ERR_EMPTY
  | VM_MBOX_ERR_BAD_VM_ID.

Section mailbox.
Context {Q : Type} `{ByteFifo Q}.

Record VmMailbox := mkMailbox {
  sends_accepted : Z;
  sends_rejected_full : Z;
  sends_rejected_perm : Z;
  recvs : Z;
  slot_size : Z;
  depth : Z;
  whitelist : Z;
  mb_fifo : Q
}.

Definition set_fifo (m : VmMailbox) (q : Q) : VmMailbox :=
  mkMailbox (sends_accepted m) (sends_rejected_full m) (sends_rejected_perm m) (recvs m)
    (slot_size m) (depth m) (whitelist m) q.
Definition set_whitelist (m : VmMailbox) (w : Z) : VmMailbox :=
  mkMailbox (sends_accepted m) (sends_rejected_full m) (sends_rejected_perm m) (recvs m)
    (slot_size m) (depth m) w (mb_fifo m).
Definition set_stats (m : VmMailbox) (accepted full perm received : Z) : VmMailbox :=
  mkMailbox accepted full perm received (slot_size m) (depth m) (whitelist m) (mb_fifo m).

Definition INTERNAL_SLOT_BYTES (payload_bytes : Z) : Z :=
  payload_bytes + VM_MAILBOX_SLOT_OVERHEAD.

(** ** Whitelist *)

Definition whitelist_id_valid (vm_id : Z) : bool := vm_id <? VM_MAILBOX_WHITELIST_BITS.
Definition whitelist_bit (vm_id : Z) : Z := Z.shiftl 1 vm_id.

Definition vm_mailbox_whitelist_set (m : VmMailbox) (id : Z) : VmMailbox * VmMailboxResult :=
  if negb (whitelist_id_valid id) then (m, VM_MBOX_ERR_BAD_VM_ID) else
  (set_whitelist m (Z.lor (whitelist m) (whitelist_bit id)), VM_MBOX_OK).

Definition vm_mailbox_whitelist_clear (m : VmMailbox) (id : Z) : VmMailbox * VmMailboxResult :=
  if negb (whitelist_id_valid id) then (m, VM_MBOX_ERR_BAD_VM_ID) else
  (set_whitelist m (Z.land (whitelist m) (not64 (whitelist_bit id))), VM_MBOX_OK).

Definition vm_mailbox_whitelist_check (m : VmMailbox) (id : Z) : bool :=
  if negb (whitelist_id_valid id) then false else
  negb (Z.land (whitelist m) (whitelist_bit id) =? 0).

Definition vm_mailbox_whitelist_set_all (m : VmMailbox) : VmMailbox :=
  set_whitelist m (not64 0).
Definition vm_mailbox_whitelist_clear_all (m : VmMailbox) : VmMailbox :=
  set_whitelist m 0.

(** ** Lifecycle *)

Definition vm_mailbox_required_storage_bytes (slot depth : Z) : Z :=
  if (slot =? 0) || (VM_MAILBOX_MAX_SLOT_SIZE <? slot) then 0 else
  if depth =? 0 then 0 else
  (slot + VM_MAILBOX_SLOT_OVERHEAD) * depth.

Definition vm_mailbox_init (m : VmMailbox) (storage slot dep : Z) : VmMailbox * VmMailboxResult :=
  if storage =? 0 then (m, VM_MBOX_ERR_INVALID_ARG) else
  if (slot =? 0) || (VM_MAILBOX_MAX_SLOT_SIZE <? slot) then (m, VM_MBOX_ERR_INVALID_ARG) else
  if dep =? 0 then (m, VM_MBOX_ERR_INVALID_ARG) else
  (mkMailbox 0 0 0 0 slot dep 0 (bf_init storage dep (INTERNAL_SLOT_BYTES slot)), VM_MBOX_OK).

Definition vm_mailbox_reset (m : VmMailbox) : VmMailbox := set_fifo m (bf_reset (mb_fifo m)).

(** ** Send, receive, peek *)

Definition vm_mailbox_send (h : mem) (m : VmMailbox) (scratch sender payload payload_size : Z)
    : mem * VmMailbox * VmMailboxResult :=
  if payload =? 0 then (h, m, VM_MBOX_ERR_INVALID_ARG) else
  if negb (payload_size =? slot_size m) then (h, m, VM_MBOX_ERR_INVALID_ARG) else
  if negb (whitelist_id_valid sender) then (h, m, VM_MBOX_ERR_BAD_VM_ID) else
  let h := store16 h scratch sender in
  let h := memcpy h (scratch + VM_MAILBOX_SLOT_OVERHEAD) payload payload_size in
  if Z.land (whitelist m) (whitelist_bit sender) =? 0 then
    (h, set_stats m (sends_accepted m) (sends_rejected_full m)
          (u32 (sends_rejected_perm m + 1)) (recvs m), VM_MBOX_ERR_NOT_WHITELISTED)
  else
    let '(h, q, ok) := bf_push h (mb_fifo m) scratch in
    if negb ok then
      (h, set_stats (set_fifo m q) (sends_accepted m) (u32 (sends_rejected_full m + 1))
            (sends_rejected_perm m) (recvs m), VM_MBOX_ERR_FULL)
    else
      (h, set_stats (set_fifo m q) (u32 (sends_accepted m + 1)) (sends_rejected_full m)
            (sends_rejected_perm m) (recvs m), VM_MBOX_OK).

(** Split the scratch slot into the sender's id and the payload. *)
Definition split_slot (h : mem) (m : VmMailbox) (scratch out_payload out_sender : Z) : mem :=
  let h := if out_sender =? 0 then h else memcpy h out_sender scratch 2 in
  if out_payload =? 0 then h
  else memcpy h out_payload (scratch + VM_MAILBOX_SLOT_OVERHEAD) (slot_size m).

Definition vm_mailbox_recv (h : mem) (m : VmMailbox) (scratch out_payload out_sender : Z)
    : mem * VmMailbox * VmMailboxResult :=
  if out_payload =? 0 then (h, m, VM_MBOX_ERR_INVALID_ARG) else
  let '(h, q, ok) := bf_pop h (mb_fifo m) scratch in
  if negb ok then (h, set_fifo m q, VM_MBOX_ERR_EMPTY) else
  let m := set_stats (set_fifo m q) (sends_accepted m) (sends_rejected_full m)
             (sends_rejected_perm m) (u32 (recvs m + 1)) in
  (split_slot h m scratch out_payload out_sender, m, VM_MBOX_OK).

Definition vm_mailbox_peek (h : mem) (m : VmMailbox) (scratch out_payload out_sender : Z)
    : mem * VmMailboxResult :=
  let '(h, ok) := bf_peek h (mb_fifo m) scratch in
  if negb ok then (h, VM_MBOX_ERR_EMPTY) else
  (split_slot h m scratch out_payload out_sender, VM_MBOX_OK).

(** ** Queries *)

Definition vm_mailbox_count (m : VmMailbox) : Z := bf_count (mb_fifo m).
Definition vm_mailbox_free_slots (m : VmMailbox) : Z := u64 (depth m - bf_count (mb_fifo m)).
Definition vm_mailbox_capacity (m : VmMailbox) : Z := depth m.
Definition vm_mailbox_empty (m : VmMailbox) : bool := bf_empty (mb_fifo m).
Definition vm_mailbox_full (m : VmMailbox) : bool := bf_full (mb_fifo m).
End mailbox.
Arguments VmMailbox Q : clear implicits.

(** ** The abstract mailbox

    Messages in order of arrival, the set of senders allowed, and the two sizes
    fixed at initialisation. *)
Record AbsMailbox := mkAbs {
  am_messages : list (Z * list Z);
  am_allowed : Z -> bool;
  am_slot : Z;
  am_depth : Z
}.

Inductive mb_cmd :=
  | MSend (sender payload size : Z)
  | MRecv (out_payload out_sender : Z)
  | MPeek (out_payload out_sender : Z)
  | MAllow (id : Z)
  | MDeny (id : Z)
  | MAllowAll
  | MDenyAll
  | MReset.

(** What the caller sees: the result code and the message delivered. *)
Definition mb_obs : Type := VmMailboxResult * option (Z * list Z).

Definition abs_set_allowed (a : AbsMailbox) (f : Z -> bool) : AbsMailbox :=
  mkAbs (am_messages a) f (am_slot a) (am_depth a).
Definition abs_set_messages (a : AbsMailbox) (l : list (Z * list Z)) : AbsMailbox :=
  mkAbs l (am_allowed a) (am_slot a) (am_depth a).

(** The specification of one call; [h] is the caller's memory, from which a
    payload is taken. *)
Definition abs_cmd (h : mem) (a : AbsMailbox) (c : mb_cmd) : AbsMailbox * mb_obs :=
  match c with
  | MSend sender payload size =>
      if (payload =? 0) || negb (size =? am_slot a) then (a, (VM_MBOX_ERR_INVALID_ARG, None)) else
      if 64 <=? sender then (a, (VM_MBOX_ERR_BAD_VM_ID, None)) else
      if negb (am_allowed a sender) then (a, (VM_MBOX_ERR_NOT_WHITELISTED, None)) else
      if Z.of_nat (length (am_messages a)) =? am_depth a then (a, (VM_MBOX_ERR_FULL, None)) else
      (abs_set_messages a (am_messages a ++ [(sender, mem_read h payload size)]),
       (VM_MBOX_OK, None))
  | MRecv _ _ =>
      match am_messages a with
      | [] => (a, (VM_MBOX_ERR_EMPTY, None))
      | x :: l => (abs_set_messages a l, (VM_MBOX_OK, Some x))
      end
  | MPeek _ _ =>
      match am_messages a with
      | [] => (a, (VM_MBOX_ERR_EMPTY, None))
      | x :: _ => (a, (VM_MBOX_OK, Some x))
      end
  | MAllow id =>
      if 64 <=? id then (a, (VM_MBOX_ERR_BAD_VM_ID, None)) else
      (abs_set_allowed a (fun j => am_allowed a j || (j =? id)), (VM_MBOX_OK, None))
  | MDeny id =>
      if 64 <=? id then (a, (VM_MBOX_ERR_BAD_VM_ID, None)) else
      (abs_set_allowed a (fun j => am_allowed a j && negb (j =? id)), (VM_MBOX_OK, None))
  | MAllowAll => (abs_set_allowed a (fun _ => true), (VM_MBOX_OK, None))
  | MDenyAll => (abs_set_allowed a (fun _ => false), (VM_MBOX_OK, None))
  | MReset => (abs_set_messages a [], (VM_MBOX_OK, None))
  end.

Section refinement.
Context {Q : Type} `{ByteFifoLaws Q}.
(** Where the automatic scratch array lives. *)
Context (scratch : Z).

Local Abbreviation SCRATCH_BYTES := 4098.

(** The calls of the code, with the delivered message read back from the
    caller's buffers. *)
Definition impl_call (h : mem) (m : VmMailbox Q) (c : mb_cmd) : mem * VmMailbox Q * mb_obs :=
  match c with
  | MSend sender payload size =>
      let '(h, m, r) := vm_mailbox_send h m scratch sender payload size in (h, m, (r, None))
  | MRecv out_payload out_sender =>
      let '(h, m, r) := vm_mailbox_recv h m scratch out_payload out_sender in
      (h, m, (r, match r with
                 | VM_MBOX_OK => Some (load16 h out_sender, mem_read h out_payload (slot_size m))
                 | _ => None
                 end))
  | MPeek out_payload out_sender =>
      let '(h, r) := vm_mailbox_peek h m scratch out_payload out_sender in
      (h, m, (r, match r with
                 | VM_MBOX_OK => Some (load16 h out_sender, mem_read h out_payload (slot_size m))
                 | _ => None
                 end))
  | MAllow id => let '(m, r) := vm_mailbox_whitelist_set m id in (h, m, (r, None))
  | MDeny id => let '(m, r) := vm_mailbox_whitelist_clear m id in (h, m, (r, None))
  | MAllowAll => (h, vm_mailbox_whitelist_set_all m, (VM_MBOX_OK, None))
  | MDenyAll => (h, vm_mailbox_whitelist_clear_all m, (VM_MBOX_OK, None))
  | MReset => (h, vm_mailbox_reset m, (VM_MBOX_OK, None))
  end.

(** A message as the slot that carries it. *)
Definition encode (x : Z * list Z) : list Z := le_bytes 2 x.1 ++ x.2.

Record mb_sim (h : mem) (m : VmMailbox Q) (a : AbsMailbox) : Prop := {
  ms_inv : bf_inv (mb_fifo m);
  ms_slot : 0 < slot_size m <= VM_MAILBOX_MAX_SLOT_SIZE /\ am_slot a = slot_size m;
  ms_block : bf_block (mb_fifo m) = INTERNAL_SLOT_BYTES (slot_size m);
  ms_depth : bf_capacity (mb_fifo m) = am_depth a;
  ms_items : bf_items h (mb_fifo m) = map encode (am_messages a);
  ms_msgs : Forall (fun x => is_u16 x.1 /\ Z.of_nat (length x.2) = slot_size m) (am_messages a);
  ms_allowed id : 0 <= id < 64 -> Z.testbit (whitelist m) id = am_allowed a id
}.

(** The caller's buffers are apart from the scratch array, from the queue's
    storage and from each other. *)
Definition apart (m : VmMailbox Q) (p n : Z) : Prop :=
  rdisj p n scratch SCRATCH_BYTES /\ rdisj p n (bf_base (mb_fifo m)) (bf_bytes (mb_fifo m)).

Definition cmd_ok (m : VmMailbox Q) (c : mb_cmd) : Prop :=
  rdisj scratch SCRATCH_BYTES (bf_base (mb_fifo m)) (bf_bytes (mb_fifo m)) /\
  match c with
  | MSend sender payload size => is_u16 sender /\ (payload <> 0 -> apart m payload size)
  | MRecv p s | MPeek p s =>
      p <> 0 /\ s <> 0 /\ apart m p (slot_size m) /\ apart m s 2 /\ rdisj p (slot_size m) s 2
  | MAllow id | MDeny id => 0 <= id
  | _ => True
  end.

Lemma compose_slot h sender payload n :
  0 <= n -> rdisj payload n scratch 2 ->
  rdisj payload n (scratch + 2) n ->
  mem_read (memcpy (store16 h scratch sender) (scratch + 2) payload n) scratch (n + 2) =
  encode (sender, mem_read h payload n).
Proof.
  intros Hn Hd Hd2. replace (n + 2) with (2 + n) by lia. rewrite mem_read_app by lia.
  unfold encode. cbn [fst snd]. f_equal.
  - rewrite (mem_read_frame (store16 h scratch sender) _ (scratch + 2) n)
      by (by apply memcpy_frame || (unfold rdisj; lia)).
    unfold store16. by rewrite mem_read_write_eq.
  - rewrite memcpy_read by done. eapply mem_read_frame; [apply store16_frame|].
    unfold rdisj in *. lia.
Qed.

(** The scratch slot holding a message delivers it. *)
Lemma split_slot_delivers h (m : VmMailbox Q) x p s :
  p <> 0 -> s <> 0 -> 0 < slot_size m <= 4096 ->
  mem_read h scratch (slot_size m + 2) = encode x -> is_u16 x.1 ->
  Z.of_nat (length x.2) = slot_size m ->
  rdisj p (slot_size m) scratch SCRATCH_BYTES -> rdisj s 2 scratch SCRATCH_BYTES ->
  rdisj p (slot_size m) s 2 ->
  let h' := split_slot h m scratch p s in
  load16 h' s = x.1 /\ mem_read h' p (slot_size m) = x.2 /\
  mem_agree (fun y => ~ rng p (slot_size m) y /\ ~ rng s 2 y) h h'.
Proof.
  intros Hp Hs Hn Henc Hx1 Hx2 Hd1 Hd2 Hd3 h'.
  replace (slot_size m + 2) with (2 + slot_size m) in Henc by lia.
  rewrite mem_read_app in Henc by lia. unfold encode in Henc.
  apply app_inj_1 in Henc as [H1 H2]; [|by rewrite mem_read_length].
  unfold h', split_slot. rewrite (proj2 (Z.eqb_neq p 0) Hp), (proj2 (Z.eqb_neq s 0) Hs).
  unfold VM_MAILBOX_SLOT_OVERHEAD. set (h1 := memcpy h s scratch 2).
  assert (mem_frame s 2 h h1) as F1 by (by apply memcpy_frame).
  pose proof (memcpy_frame h1 p (scratch + 2) (slot_size m) ltac:(lia)) as F2.
  split; [|split].
  - unfold load16. rewrite (mem_read_frame _ _ _ _ _ _ F2) by done.
    unfold h1. rewrite memcpy_read, H1, le_val_bytes by lia.
    apply Z.mod_small. change (0x100 ^ Z.of_nat 2) with 0x10000. exact Hx1.
  - rewrite memcpy_read by lia. rewrite (mem_read_frame _ _ _ _ _ _ F1); [done|].
    unfold rdisj in *. lia.
  - intros y [Hy1 Hy2]. rewrite <-(F2 y) by done. by apply F1.
Qed.

(** Nothing but the scratch array, the queue's storage and the caller's output
    buffers is written. *)
Definition written (m : VmMailbox Q) (c : mb_cmd) (x : Z) : Prop :=
  rng scratch SCRATCH_BYTES x \/ rng (bf_base (mb_fifo m)) (bf_bytes (mb_fifo m)) x \/
  match c with
  | MRecv p s | MPeek p s => rng p (slot_size m) x \/ rng s 2 x
  | _ => False
  end.

Definition step_ok (h : mem) (m : VmMailbox Q) (a : AbsMailbox) (c : mb_cmd) : Prop :=
  let '(h', m', o) := impl_call h m c in
  let '(a', o') := abs_cmd h a c in
  mb_sim h' m' a' /\ o = o' /\ mem_agree (fun x => ~ written m c x) h h'.

Lemma items_len h (m : VmMailbox Q) a :
  mb_sim h m a -> length (bf_items h (mb_fifo m)) = length (am_messages a).
Proof. intros [_ _ _ _ Hi _ _]. by rewrite Hi, length_map. Qed.

(** The simulation survives writes away from the queue's storage. *)
Lemma mb_sim_frame h h' (m : VmMailbox Q) a :
  mb_sim h m a -> mem_agree (rng (bf_base (mb_fifo m)) (bf_bytes (mb_fifo m))) h h' ->
  mb_sim h' m a.
Proof.
  intros [] Hag. split; try done. rewrite <-ms_items0. apply bf_items_agree; [done|].
  exact Hag.
Qed.

(** Replacing the queue and the counters. *)
Lemma mb_sim_queue h h' (m m' : VmMailbox Q) a l :
  mb_sim h m a -> bf_inv (mb_fifo m') -> bf_same (mb_fifo m) (mb_fifo m') ->
  slot_size m' = slot_size m -> whitelist m' = whitelist m ->
  bf_items h' (mb_fifo m') = map encode l ->
  Forall (fun x => is_u16 x.1 /\ Z.of_nat (length x.2) = slot_size m) l ->
  mb_sim h' m' (abs_set_messages a l).
Proof.
  intros [] Hi (Hb & Hc & Hk) Hs Hw Hit Hl. split; cbn; rewrite ?Hs, ?Hw, ?Hc, ?Hk; done.
Qed.

Lemma send_step h m a sender payload size :
  mb_sim h m a -> cmd_ok m (MSend sender payload size) -> step_ok h m a (MSend sender payload size).
Proof.
  intros S [Hsc [Hid Hap]]. pose proof S as [Hi [Hsl Has] Hbl Hde Hit Hms Hal].
  unfold step_ok, impl_call, abs_cmd, vm_mailbox_send. rewrite Has.
  destruct (Z.eqb_spec payload 0) as [->|Hp]; [done|]. cbn [orb].
  destruct (Z.eqb_spec size (slot_size m)) as [->|]; cbn [negb]; [|done].
  destruct (Hap Hp) as [Hd1 Hd2]. unfold VM_MAILBOX_MAX_SLOT_SIZE in Hsl.
  unfold whitelist_id_valid, VM_MAILBOX_WHITELIST_BITS. rewrite Z.ltb_antisym.
  destruct (Z.leb_spec 64 sender) as [|Hs]; cbn [negb]; [done|].
  unfold whitelist_bit. rewrite land_bit_zero by (umach; lia).
  rewrite (Hal sender) by (umach; lia).
  set (h1 := memcpy _ _ payload _).
  assert (mem_frame scratch SCRATCH_BYTES h h1) as F1.
  { transitivity (store16 h scratch sender); (eapply mem_frame_mono; [| |]);
      [..|apply memcpy_frame]; try apply store16_frame; unfold VM_MAILBOX_SLOT_OVERHEAD; lia. }
  assert (forall P : Z -> Prop, (forall x, P x -> ~ rng scratch SCRATCH_BYTES x) ->
    mem_agree P h h1) as Hout by (intros P HP x Hx; apply F1, HP, Hx).
  assert (mb_sim h1 m a) as S1.
  { apply (mb_sim_frame h); [done|]. apply Hout. intros x. unfold rng, rdisj in *. lia. }
  destruct (am_allowed a sender); cbn [negb].
  - pose proof (bf_push_law h1 (mb_fifo m) scratch Hi) as HP.
    destruct (bf_push h1 (mb_fifo m) scratch) as [[h2 q] ok].
    destruct HP as (Hi2 & Hsame & F2 & HP). rewrite (items_len h1 m a S1), Hde in HP.
    assert (mem_agree (fun x => ~ written m (MSend sender payload (slot_size m)) x) h h2) as Hfr.
    { intros x Hx. transitivity (h1 x); [apply F1|apply F2]; intros Hr; apply Hx; unfold written; auto. }
    destruct (Z.eqb_spec (Z.of_nat (length (am_messages a))) (am_depth a)) as [Heq|Hne].
    + destruct HP as (-> & -> & ->). split; [|done]. destruct S1. by split.
    + destruct HP as (-> & Hnew). cbn [negb]. split; [|done].
      apply (mb_sim_queue h1 h2 m); try done.
      * cbn [mb_fifo set_stats set_fifo]. rewrite Hnew, (ms_items _ _ _ S1), map_app. f_equal. cbn [map]. f_equal.
        rewrite Hbl. unfold h1. apply compose_slot; [lia|..]; unfold rdisj in *; lia.
      * apply Forall_app. split; [done|]. apply Forall_singleton. cbn.
        rewrite mem_read_length. umach. lia.
  - split; [destruct S1; by split|]. split; [done|].
    apply Hout. intros x Hx Hr. apply Hx. by left.
Qed.

Lemma recv_step h m a p s :
  mb_sim h m a -> cmd_ok m (MRecv p s) -> step_ok h m a (MRecv p s).
Proof.
  intros S (Hsc & Hp & Hs & [Hp1 Hp2] & [Hs1 Hs2] & Hps).
  pose proof S as [Hi [Hsl Has] Hbl Hde Hit Hms Hal].
  unfold VM_MAILBOX_MAX_SLOT_SIZE, INTERNAL_SLOT_BYTES, VM_MAILBOX_SLOT_OVERHEAD in *.
  unfold step_ok, impl_call, abs_cmd, vm_mailbox_recv. rewrite (proj2 (Z.eqb_neq p 0) Hp).
  pose proof (bf_pop_law h (mb_fifo m) scratch Hi) as HP. rewrite Hbl in HP.
  specialize (HP ltac:(unfold rdisj in *; lia)).
  destruct (bf_pop h (mb_fifo m) scratch) as [[h1 q] ok].
  destruct HP as (Hi1 & Hsame & F1 & HP). rewrite Hit in HP.
  destruct (am_messages a) as [|x l] eqn:Hl; cbn [map] in HP.
  - destruct HP as (-> & -> & ->). cbn [negb]. split; [|done]. destruct S. by split.
  - destruct HP as (-> & Hx & Hrest). cbn [negb]. apply Forall_cons in Hms as [[Hx1 Hx2] Hms].
    destruct (split_slot_delivers h1 m x p s Hp Hs Hsl Hx Hx1 Hx2 Hp1 Hs1 Hps)
      as (H1 & H2 & F2).
    split; [|split].
    + apply (mb_sim_queue h _ m); try done. cbn [set_stats set_fifo mb_fifo]. rewrite <-Hrest.
      apply bf_items_agree; [done|]. intros y Hy. apply F2.
      rewrite (bf_same_bytes _ _ Hsame) in Hy. destruct Hsame as (Hb2 & _). rewrite Hb2 in Hy.
      unfold rng, rdisj in *. lia.
    + unfold split_slot in *. cbn [slot_size set_stats set_fifo] in *.
      rewrite H1, H2. by destruct x.
    + intros y Hy. transitivity (h1 y).
      * apply F1. intros Hr. apply Hy. left. unfold rng in *. lia.
      * apply F2. split; intros Hr; apply Hy; right; right; auto.
Qed.

Lemma peek_step h m a p s :
  mb_sim h m a -> cmd_ok m (MPeek p s) -> step_ok h m a (MPeek p s).
Proof.
  intros S (Hsc & Hp & Hs & [Hp1 Hp2] & [Hs1 Hs2] & Hps).
  pose proof S as [Hi [Hsl Has] Hbl Hde Hit Hms Hal].
  unfold VM_MAILBOX_MAX_SLOT_SIZE, INTERNAL_SLOT_BYTES, VM_MAILBOX_SLOT_OVERHEAD in *.
  unfold step_ok, impl_call, abs_cmd, vm_mailbox_peek.
  pose proof (bf_peek_law h (mb_fifo m) scratch Hi) as HP. rewrite Hbl in HP.
  destruct (bf_peek h (mb_fifo m) scratch) as [h1 ok]. destruct HP as (F1 & HP). rewrite Hit in HP.
  destruct (am_messages a) as [|x l] eqn:Hl; cbn [map] in HP.
  - destruct HP as (-> & ->). done.
  - destruct HP as (-> & Hx). cbn [negb]. apply Forall_cons in Hms as [[Hx1 Hx2] Hms].
    destruct (split_slot_delivers h1 m x p s Hp Hs Hsl Hx Hx1 Hx2 Hp1 Hs1 Hps)
      as (H1 & H2 & F2).
    split; [|split].
    + apply (mb_sim_frame h); [done|]. intros y Hy. transitivity (h1 y).
      * apply F1. unfold rng, rdisj in *. lia.
      * apply F2. unfold rng, rdisj in *. lia.
    + rewrite H1, H2. by destruct x.
    + intros y Hy. transitivity (h1 y).
      * apply F1. intros Hr. apply Hy. left. unfold rng in *. lia.
      * apply F2. split; intros Hr; apply Hy; right; right; auto.
Qed.

Lemma whitelist_step h m a c :
  mb_sim h m a -> cmd_ok m c ->
  match c with MAllow _ | MDeny _ | MAllowAll | MDenyAll => True | _ => False end ->
  step_ok h m a c.
Proof.
  intros S [_ Hc] Hk. pose proof S as [Hi Hsl Hbl Hde Hit Hms Hal].
  unfold step_ok. destruct c as [| | |id|id| | |]; try done; cbn [impl_call abs_cmd].
  - unfold vm_mailbox_whitelist_set, whitelist_id_valid, VM_MAILBOX_WHITELIST_BITS.
    rewrite Z.ltb_antisym. destruct (64 <=? id); cbn [negb]; [done|]. split; [|done].
    split; try done. intros j Hj. cbn. unfold whitelist_bit.
    rewrite testbit_set, Hal, Z.eqb_sym by lia. done.
  - unfold vm_mailbox_whitelist_clear, whitelist_id_valid, VM_MAILBOX_WHITELIST_BITS.
    rewrite Z.ltb_antisym. destruct (64 <=? id); cbn [negb]; [done|]. split; [|done].
    split; try done. intros j Hj. cbn. by rewrite testbit_clear64, Hal by lia.
  - split; [|done]. split; try done. intros j Hj. cbn [whitelist vm_mailbox_whitelist_set_all set_whitelist].
    change (not64 0) with (Z.ones 64). by rewrite Z.ones_spec_low by lia.
  - split; [|done]. split; try done. intros j Hj. apply Z.bits_0.
Qed.

Lemma reset_step h m a : mb_sim h m a -> step_ok h m a MReset.
Proof.
  intros S. unfold step_ok. cbn [impl_call abs_cmd]. split; [|done].
  destruct (bf_reset_law (mb_fifo m) (ms_inv _ _ _ S)) as (Hi & Hs & He).
  by apply (mb_sim_queue h h m).
Qed.
End refinement.

(** ** Properties *)

(** C28. The mailbox refines the abstract message queue: on any queue that meets
    the [ByteFifo] laws, every send, receive, peek, whitelist change and reset
    returns the specified result, delivers the specified message (sender and
    payload bytes), keeps the simulation, and writes only the scratch array, the
    queue's storage and the caller's output buffers.  In particular only
    whitelisted senders get messages in, and messages leave in order,
    unchanged, under the id they were sent with. *)
Theorem mailbox_refines {Q} `{ByteFifoLaws Q} scratch h (m : VmMailbox Q) a c :
  mb_sim h m a -> cmd_ok scratch m c ->
  let '(h', m', o) := impl_call scratch h m c in
  let '(a', o') := abs_cmd h a c in
  mb_sim h' m' a' /\ o = o' /\ mem_agree (fun x => ~ written scratch m c x) h h'.
Proof.
  intros S Hc. destruct c.
  - by apply send_step.
  - by apply recv_step.
  - by apply peek_step.
  - by apply whitelist_step.
  - by apply whitelist_step.
  - by apply whitelist_step.
  - by apply whitelist_step.
  - by apply reset_step.
Qed.

(** Initialisation over the code's FIFO queue accepts exactly the
    documented arguments and establishes the simulation with the empty mailbox
    that allows no sender. *)
Theorem mailbox_init_correct m0 storage slot dep h :
  is_u16 slot -> is_u16 dep ->
  let '(m, r) := vm_mailbox_init m0 storage slot dep in
  (r = VM_MBOX_OK <->
     storage <> 0 /\ 0 < slot <= VM_MAILBOX_MAX_SLOT_SIZE /\ 0 < dep) /\
  (r = VM_MBOX_OK -> mb_sim (Q:=FifoQueue) h m (mkAbs [] (fun _ => false) slot dep)) /\
  (r <> VM_MBOX_OK -> r = VM_MBOX_ERR_INVALID_ARG /\ m = m0).
Proof.
  intros Hs Hd. unfold vm_mailbox_init, VM_MAILBOX_MAX_SLOT_SIZE. umach.
  destruct (Z.eqb_spec storage 0) as [->|Hst]; [split; [split; [done|lia]|done]|].
  destruct (Z.eqb_spec slot 0) as [->|Hs0]; [split; [split; [done|lia]|done]|]. cbn [orb].
  destruct (Z.ltb_spec 4096 slot); [split; [split; [done|lia]|done]|].
  destruct (Z.eqb_spec dep 0) as [->|Hd0]; [split; [split; [done|lia]|done]|].
  split; [split; [lia|done]|]. split; [|done]. intros _.
  destruct (bf_init_law (Q:=FifoQueue) storage dep (INTERNAL_SLOT_BYTES slot))
    as (Hi & Hb & Hc & Hk & He); [lia|unfold INTERNAL_SLOT_BYTES, VM_MAILBOX_SLOT_OVERHEAD; lia|].
  split; cbn [mb_fifo slot_size whitelist am_slot am_depth am_messages am_allowed]; try done.
  - unfold VM_MAILBOX_MAX_SLOT_SIZE. lia.
  - intros id _. apply Z.bits_0.
Qed.

Definition demo_mailbox : VmMailbox FifoQueue :=
  mkMailbox 0 0 0 0 2 1 2 (fifo_init 0x1000 1 4).

Lemma demo_mailbox_sim h :
  mb_sim h demo_mailbox (mkAbs [] (fun id => id =? 1) 2 1).
Proof.
  destruct (bf_init_law (Q:=FifoQueue) 0x1000 1 4 ltac:(lia) ltac:(lia)) as (Hi & Hb & Hc & Hk & He).
  split; try done; cbn [demo_mailbox mb_fifo slot_size whitelist am_allowed].
  intros id Hid. change 2 with (2 ^ 1). rewrite Z.pow2_bits_eqb by lia. apply Z.eqb_sym.
Qed.

Lemma mailbox_refines_witness :
  let h := mem_write (fun _ => 0) 0x500 [7; 9] in
  let c := MSend 1 0x500 2 in
  let '(h', m', o) := impl_call 0x4000 h demo_mailbox c in
  let '(a', o') := abs_cmd h (mkAbs [] (fun id => id =? 1) 2 1) c in
  mb_sim h' m' a' /\ o = o' /\
  mem_agree (fun x => ~ written 0x4000 demo_mailbox c x) h h'.
Proof.
  apply (mailbox_refines 0x4000 (mem_write (fun _ => 0) 0x500 [7; 9]) demo_mailbox).
  - apply demo_mailbox_sim.
  - unfold cmd_ok, apart, rdisj, bf_bytes. cbn. umach. lia.
Defined.

Lemma mailbox_init_correct_witness :
  let '(m, r) := vm_mailbox_init demo_mailbox 0x1000 4096 8 in
  (r = VM_MBOX_OK <->
     0x1000 <> 0 /\ 0 < 4096 <= VM_MAILBOX_MAX_SLOT_SIZE /\ 0 < 8) /\
  (r = VM_MBOX_OK ->
     mb_sim (Q:=FifoQueue) (fun _ => 0) m (mkAbs [] (fun _ => false) 4096 8)) /\
  (r <> VM_MBOX_OK -> r = VM_MBOX_ERR_INVALID_ARG /\ m = demo_mailbox).
Proof.
  apply (mailbox_init_correct demo_mailbox 0x1000 4096 8 (fun _ => 0)); unfold is_u16; lia.
Defined.
