(* ===== verification/VmEcall.v ===== *)
(** The ECALL router ([src/vm/vm_ecall.c]) and the handlers that touch only the
    calling CPU ([src/vm/vm_ecall_handlers.c]).

    A handler is a C function pointer [void (VmCpu *cpu, void *system)]: it acts on
    the whole store through two pointers, so it is a function of the two addresses
    and the world [W].  What a client needs of the world is the interface
    [CpuStore]: the [VmCpu] that an address holds, and its replacement.  Slots are
    function pointers, so a slot is an [option]; the null router pointer is not
    modelled (the router is passed by value and returned). *)
From S2P Require Import Prelude HostMem VmCpu.
From stdpp Require Import gmap.

Local Open Scope Z_scope.

Class CpuStore (W : Type) := {
  cpu_at : W -> Z -> VmCpu;
  put_cpu : W -> Z -> VmCpu -> W
}.

Class CpuStoreLaws (W : Type) `{CpuStore W} : Prop := {
  cpu_at_put : forall w p c, cpu_at (put_cpu w p c) p = c;
  cpu_at_put_other : forall w p q c, p <> q -> cpu_at (put_cpu w p c) q = cpu_at w q
}.

(** ** Numbers *)

Definition SYS_EXIT : Z := 93.
Definition SYS_SELF : Z := 1024.
Definition SYS_YIELD : Z := 1040.
Definition SYS_CRITICAL_ENTER : Z := 1041.
Definition SYS_CRITICAL_EXIT : Z := 1042.
Definition VM_EBUSY : Z := 16.
Definition VM_EINVAL : Z := 22.
Definition VM_ENOSYS : Z := 38.
Definition VM_ETIMEDOUT : Z := 110.
Definition VM_ECALL_LINUX_RANGE_START : Z := 0.
Definition VM_ECALL_LINUX_RANGE_SIZE : Z := 256.
Definition VM_ECALL_VM_RANGE_START : Z := 1024.
Definition VM_ECALL_VM_RANGE_SIZE : Z := 256.

Section router.
Context {W : Type} `{CpuStore W}.

(** A handler takes the addresses of the CPU and of the system. *)
Definition VmEcallHandler : Type := Z -> Z -> W -> W.

Record VmEcallRouter := mkRouter {
  linux_slots : list (option VmEcallHandler);
  vm_slots : list (option VmEcallHandler);
  fallback : option VmEcallHandler
}.

(** ** Handlers that touch only the CPU *)

Definition with_cpu (cpu : Z) (f : VmCpu -> VmCpu) (w : W) : W :=
  if cpu =? 0 then w else put_cpu w cpu (f (cpu_at w cpu)).

Definition default_fallback : VmEcallHandler := fun cpu _ =>
  with_cpu cpu (fun c => set_reg c VM_REG_A0 (u32 (- VM_ENOSYS))).

Definition vm_handle_exit : VmEcallHandler := fun cpu _ =>
  with_cpu cpu (fun c => set_halted c true).

Definition vm_handle_self : VmEcallHandler := fun cpu _ =>
  with_cpu cpu (fun c => set_reg c VM_REG_A0 (vm_id c)).

Definition vm_handle_yield : VmEcallHandler := fun cpu _ =>
  with_cpu cpu (fun c => set_block (set_reg c VM_REG_A0 0) BLOCK_YIELDED (block_deadline c)).

Definition vm_handle_critical_enter : VmEcallHandler := fun cpu _ =>
  with_cpu cpu (fun c =>
    if in_critical c then set_reg c VM_REG_A0 (u32 (- VM_EBUSY))
    else set_reg (set_critical c true) VM_REG_A0 0).

Definition vm_handle_critical_exit : VmEcallHandler := fun cpu _ =>
  with_cpu cpu (fun c =>
    if negb (in_critical c) then set_reg c VM_REG_A0 (u32 (- VM_EINVAL))
    else set_reg (set_critical c false) VM_REG_A0 0).

(** ** The table *)

(** The address of a slot: which of the two arrays, and the index. *)
Inductive slot_ref := LinuxSlot (i : Z) | VmSlot (i : Z).

Definition slot_for (syscall_num : Z) : option slot_ref :=
  if syscall_num <? VM_ECALL_LINUX_RANGE_START + VM_ECALL_LINUX_RANGE_SIZE
  then Some (LinuxSlot (syscall_num - VM_ECALL_LINUX_RANGE_START))
  else if (VM_ECALL_VM_RANGE_START <=? syscall_num) &&
          (syscall_num <? VM_ECALL_VM_RANGE_START + VM_ECALL_VM_RANGE_SIZE)
  then Some (VmSlot (syscall_num - VM_ECALL_VM_RANGE_START))
  else None.

(** Reading and writing through a slot's address. *)
Definition slot_read (r : VmEcallRouter) (s : slot_ref) : option VmEcallHandler :=
  match s with
  | LinuxSlot i => nth (Z.to_nat i) (linux_slots r) None
  | VmSlot i => nth (Z.to_nat i) (vm_slots r) None
  end.

Definition slot_write (r : VmEcallRouter) (s : slot_ref) (h : option VmEcallHandler)
    : VmEcallRouter :=
  match s with
  | LinuxSlot i => mkRouter (<[Z.to_nat i := h]> (linux_slots r)) (vm_slots r) (fallback r)
  | VmSlot i => mkRouter (linux_slots r) (<[Z.to_nat i := h]> (vm_slots r)) (fallback r)
  end.

Definition vm_ecall_router_init : VmEcallRouter :=
  mkRouter (replicate (Z.to_nat VM_ECALL_LINUX_RANGE_SIZE) None)
    (replicate (Z.to_nat VM_ECALL_VM_RANGE_SIZE) None) (Some default_fallback).

Definition vm_ecall_register (r : VmEcallRouter) (syscall_num : Z)
    (handler : option VmEcallHandler) : VmEcallRouter * bool :=
  match handler with
  | None => (r, false)
  | Some h =>
      match slot_for syscall_num with
      | None => (r, false)
      | Some slot =>
          match slot_read r slot with
          | Some _ => (r, false)
          | None => (slot_write r slot (Some h), true)
          end
      end
  end.

Definition vm_ecall_unregister (r : VmEcallRouter) (syscall_num : Z) : VmEcallRouter * bool :=
  match slot_for syscall_num with
  | None => (r, false)
  | Some slot =>
      match slot_read r slot with
      | None => (r, false)
      | Some _ => (slot_write r slot None, true)
      end
  end.

Definition vm_ecall_set_fallback (r : VmEcallRouter) (fb : option VmEcallHandler) : VmEcallRouter :=
  mkRouter (linux_slots r) (vm_slots r)
    (Some (match fb with Some f => f | None => default_fallback end)).

Definition vm_ecall_dispatch (r : VmEcallRouter) (cpu system : Z) (w : W) : W :=
  if cpu =? 0 then w else
  let syscall_num := reg (cpu_at w cpu) VM_REG_A7 in
  let handler :=
    match slot_for syscall_num with Some slot => slot_read r slot | None => None end in
  match handler with
  | Some h => h cpu system w
  | None =>
      match fallback r with
      | Some f => f cpu system w
      | None => put_cpu w cpu (set_reg (cpu_at w cpu) VM_REG_A0 (u32 (- VM_ENOSYS)))
      end
  end.

(** ** Bulk registration *)

Definition cpu_handler_entries : list (Z * VmEcallHandler) :=
  [(SYS_EXIT, vm_handle_exit); (SYS_SELF, vm_handle_self); (SYS_YIELD, vm_handle_yield);
   (SYS_CRITICAL_ENTER, vm_handle_critical_enter); (SYS_CRITICAL_EXIT, vm_handle_critical_exit)].

(** The loop over the entries, [done] being the numbers registered so far; a
    refusal unregisters them. *)
Fixpoint install_loop (r : VmEcallRouter) (done : list Z)
    (entries : list (Z * VmEcallHandler)) : VmEcallRouter * bool :=
  match entries with
  | [] => (r, true)
  | (num, h) :: rest =>
      match vm_ecall_register r num (Some h) with
      | (r, true) => install_loop r (done ++ [num]) rest
      | (r, false) => (foldl (fun r num => (vm_ecall_unregister r num).1) r done, false)
      end
  end.

Definition vm_ecall_install_cpu_handlers (r : VmEcallRouter) : VmEcallRouter * bool :=
  install_loop r [] cpu_handler_entries.

(** ** The abstract router: a finite map from syscall numbers to handlers *)

Definition routable (n : Z) : Prop := 0 <= n < 256 \/ 1024 <= n < 1280.

#[export] Instance routable_dec n : Decision (routable n).
Proof. unfold routable. apply _. Defined.

Record abs_router := mkAbsRouter {
  entries : gmap Z VmEcallHandler;
  otherwise : VmEcallHandler
}.

Inductive router_op :=
  | Register (n : Z) (h : option VmEcallHandler)
  | Unregister (n : Z)
  | SetFallback (f : option VmEcallHandler).

Definition op_number (o : router_op) : Z :=
  match o with Register n _ | Unregister n => n | SetFallback _ => 0 end.

Definition router_op_impl (r : VmEcallRouter) (o : router_op) : VmEcallRouter * bool :=
  match o with
  | Register n h => vm_ecall_register r n h
  | Unregister n => vm_ecall_unregister r n
  | SetFallback f => (vm_ecall_set_fallback r f, true)
  end.

Definition router_op_spec (a : abs_router) (o : router_op) : abs_router * bool :=
  match o with
  | Register n (Some h) =>
      if decide (routable n /\ entries a !! n = None)
      then (mkAbsRouter (<[n := h]> (entries a)) (otherwise a), true) else (a, false)
  | Register n None => (a, false)
  | Unregister n =>
      if decide (is_Some (entries a !! n))
      then (mkAbsRouter (delete n (entries a)) (otherwise a), true) else (a, false)
  | SetFallback f => (mkAbsRouter (entries a) (default default_fallback f), true)
  end.

Fixpoint router_run {R} (step : R -> router_op -> R * bool) (r : R) (os : list router_op)
    : R * list bool :=
  match os with
  | [] => (r, [])
  | o :: os => let '(r, b) := step r o in let '(r, bs) := router_run step r os in (r, b :: bs)
  end.

Definition abs_empty : abs_router := mkAbsRouter ∅ default_fallback.

(** What a number is routed to. *)
Definition routed (r : VmEcallRouter) (n : Z) : option VmEcallHandler :=
  match slot_for n with Some s => slot_read r s | None => None end.

Record router_sim (r : VmEcallRouter) (a : abs_router) : Prop := {
  sim_linux : length (linux_slots r) = 256%nat;
  sim_vm : length (vm_slots r) = 256%nat;
  sim_routed : forall n, 0 <= n -> routed r n = entries a !! n;
  sim_fallback : fallback r = Some (otherwise a)
}.
End router.
Arguments VmEcallHandler W : clear implicits.
Arguments VmEcallRouter W : clear implicits.
Arguments abs_router W : clear implicits.
Arguments router_op W : clear implicits.

Section router_proofs.
Context {W : Type} `{CpuStore W}.
Implicit Types (r : VmEcallRouter W) (a : abs_router W).

Lemma slot_for_routable n s : 0 <= n -> slot_for n = Some s -> routable n.
Proof.
  unfold slot_for, routable, VM_ECALL_LINUX_RANGE_START, VM_ECALL_LINUX_RANGE_SIZE,
    VM_ECALL_VM_RANGE_START, VM_ECALL_VM_RANGE_SIZE. intros Hn.
  destruct (Z.ltb_spec n (0 + 256)); [lia|].
  destruct (Z.leb_spec 1024 n), (Z.ltb_spec n (1024 + 256)); simpl; try done. lia.
Qed.

Lemma slot_for_none n : slot_for n = None -> ~ routable n.
Proof.
  unfold slot_for, routable, VM_ECALL_LINUX_RANGE_START, VM_ECALL_LINUX_RANGE_SIZE,
    VM_ECALL_VM_RANGE_START, VM_ECALL_VM_RANGE_SIZE.
  destruct (Z.ltb_spec n (0 + 256)); [done|].
  destruct (Z.leb_spec 1024 n), (Z.ltb_spec n (1024 + 256)); simpl; try done; lia.
Qed.

(** Writing the slot of a number reroutes that number and no other. *)
Lemma routed_write r n k s h :
  length (linux_slots r) = 256%nat -> length (vm_slots r) = 256%nat ->
  0 <= n -> 0 <= k -> slot_for n = Some s ->
  routed (slot_write r s h) k = if decide (k = n) then h else routed r k.
Proof.
  intros Hl Hv Hn Hk. unfold routed, slot_for, VM_ECALL_LINUX_RANGE_START,
    VM_ECALL_LINUX_RANGE_SIZE, VM_ECALL_VM_RANGE_START, VM_ECALL_VM_RANGE_SIZE.
  destruct (Z.ltb_spec n (0 + 256)), (Z.leb_spec 1024 n), (Z.ltb_spec n (1024 + 256));
    simpl; intros [= <-]; try lia;
    destruct (Z.ltb_spec k (0 + 256)), (Z.leb_spec 1024 k), (Z.ltb_spec k (1024 + 256));
    simpl; case_decide; subst; try lia; try done;
    rewrite !nth_lookup; try (rewrite list_lookup_insert_eq by lia; done);
    rewrite list_lookup_insert_ne by lia; done.
Qed.

Lemma slot_write_lengths r s h :
  length (linux_slots (slot_write r s h)) = length (linux_slots r) /\
  length (vm_slots (slot_write r s h)) = length (vm_slots r).
Proof. destruct s; simpl; by rewrite length_insert. Qed.

Lemma slot_write_fallback r s h : fallback (slot_write r s h) = fallback r.
Proof. by destruct s. Qed.

Lemma nth_replicate_default {A} (x : A) n i : nth i (replicate n x) x = x.
Proof. revert i. induction n; intros [|i]; simpl; auto. Qed.

Lemma routed_init n : routed (vm_ecall_router_init (W := W)) n = None.
Proof. unfold routed. destruct (slot_for n) as [[i|i]|]; try done; apply nth_replicate_default. Qed.

Lemma router_init_sim : router_sim (vm_ecall_router_init (W := W)) abs_empty.
Proof.
  split; [done..| |done].
  intros n _. rewrite routed_init. symmetry. apply lookup_empty.
Qed.

(** A write through a slot is an update of the map. *)
Lemma router_sim_write r a n s h e :
  router_sim r a -> 0 <= n -> slot_for n = Some s ->
  (forall k, e !! k = if decide (k = n) then h else entries a !! k) ->
  router_sim (slot_write r s h) (mkAbsRouter e (otherwise a)).
Proof.
  intros [Hl Hv Hr Hf] Hn Hs He.
  destruct (slot_write_lengths r s h) as [El Ev].
  split; [congruence..| |by rewrite slot_write_fallback].
  intros k Hk. rewrite (routed_write r n) by done. simpl. rewrite He.
  case_decide; [done|by apply Hr].
Qed.

Lemma router_op_sim r a o :
  router_sim r a -> 0 <= op_number o ->
  router_sim (router_op_impl r o).1 (router_op_spec a o).1 /\
  (router_op_impl r o).2 = (router_op_spec a o).2.
Proof.
  intros Hsim Hn. pose proof (sim_routed _ _ Hsim) as Hr.
  destruct o as [n [h|]|n|f]; simpl in *.
  - specialize (Hr n Hn). unfold routed in Hr. destruct (slot_for n) as [s|] eqn:Hs.
    + rewrite Hr. destruct (entries a !! n) as [h'|] eqn:E.
      * rewrite decide_False by (intros [_ ?]; congruence). done.
      * rewrite decide_True by (split; [by eapply slot_for_routable|done]). simpl.
        split; [|done]. eapply router_sim_write; try done.
        intros k. rewrite lookup_insert. do 2 case_decide; congruence.
    + rewrite decide_False by (intros [? ?]; by eapply slot_for_none). done.
  - done.
  - specialize (Hr n Hn). unfold routed in Hr. unfold vm_ecall_unregister.
    destruct (slot_for n) as [s|] eqn:Hs.
    + rewrite Hr. destruct (entries a !! n) as [h'|] eqn:E.
      * rewrite decide_True by done. split; [|done]. eapply router_sim_write; try done.
        intros k. rewrite lookup_delete. do 2 case_decide; congruence.
      * rewrite decide_False by (intros [? ?]; congruence). done.
    + rewrite <-Hr, decide_False by (by intros [? ?]). done.
  - destruct Hsim. split; [|done]. by split.
Qed.

Lemma router_run_sim r a os :
  router_sim r a -> Forall (fun o => 0 <= op_number o) os ->
  router_sim (router_run router_op_impl r os).1 (router_run router_op_spec a os).1 /\
  (router_run router_op_impl r os).2 = (router_run router_op_spec a os).2.
Proof.
  intros Hs Hos. revert r a Hs. induction Hos as [|o os Ho _ IH]; intros r a Hs; [done|].
  destruct (router_op_sim r a o Hs Ho) as [Hs' Hb]. simpl.
  destruct (router_op_impl r o) as [r1 b1], (router_op_spec a o) as [a1 b2]; simpl in *.
  destruct (IH r1 a1 Hs') as [Hs'' Hbs].
  destruct (router_run router_op_impl r1 os), (router_run router_op_spec a1 os); simpl in *.
  by split; [|f_equal].
Qed.

Lemma dispatch_sim r a cpu system w :
  router_sim r a -> cpu <> 0 -> 0 <= reg (cpu_at w cpu) VM_REG_A7 ->
  vm_ecall_dispatch r cpu system w =
  default (otherwise a) (entries a !! reg (cpu_at w cpu) VM_REG_A7) cpu system w.
Proof.
  intros Hs Hc H0. unfold vm_ecall_dispatch. rewrite (proj2 (Z.eqb_neq cpu 0)) by done.
  fold (routed r (reg (cpu_at w cpu) VM_REG_A7)).
  rewrite (sim_routed _ _ Hs) by done. rewrite (sim_fallback _ _ Hs).
  by destruct (entries a !! _).
Qed.

(** ** Bulk registration is all or nothing *)

(** A router is determined by what it routes. *)
Lemma router_sim_inj r1 r2 a : router_sim r1 a -> router_sim r2 a -> r1 = r2.
Proof.
  intros [Hl1 Hv1 Hr1 Hf1] [Hl2 Hv2 Hr2 Hf2].
  destruct r1 as [l1 v1 f1], r2 as [l2 v2 f2]; simpl in *.
  assert (l1 = l2) as ->.
  { apply (list_eq_nth None); [congruence|]. intros i Hi.
    specialize (Hr1 (Z.of_nat i)). rewrite <-(Hr2 (Z.of_nat i)) in Hr1 by lia.
    revert Hr1. unfold routed, slot_for, VM_ECALL_LINUX_RANGE_START, VM_ECALL_LINUX_RANGE_SIZE.
    rewrite (proj2 (Z.ltb_lt _ _)) by lia. simpl.
    rewrite Z.sub_0_r, Nat2Z.id. intros E. by rewrite E by lia. }
  assert (v1 = v2) as ->; [|congruence].
  apply (list_eq_nth None); [congruence|]. intros i Hi.
  specialize (Hr1 (1024 + Z.of_nat i)). rewrite <-(Hr2 (1024 + Z.of_nat i)) in Hr1 by lia.
  revert Hr1. unfold routed, slot_for, VM_ECALL_LINUX_RANGE_START, VM_ECALL_LINUX_RANGE_SIZE,
    VM_ECALL_VM_RANGE_START, VM_ECALL_VM_RANGE_SIZE.
  rewrite (proj2 (Z.ltb_ge _ _)), (proj2 (Z.leb_le _ _)), (proj2 (Z.ltb_lt _ _)) by lia. simpl.
  replace (1024 + Z.of_nat i - 1024) with (Z.of_nat i) by lia.
  rewrite Nat2Z.id. intros E. by rewrite E by lia.
Qed.

(** Removing numbers one by one removes them all. *)
Lemma unregister_all r a ns :
  router_sim r a -> Forall (fun n => 0 <= n) ns ->
  exists a', router_sim (foldl (fun r n => (vm_ecall_unregister r n).1) r ns) a' /\
    otherwise a' = otherwise a /\
    (forall k, entries a' !! k = if decide (k ∈ ns) then None else entries a !! k).
Proof.
  intros Hs Hns. revert r a Hs. induction Hns as [|n ns Hn _ IH]; intros r a Hs.
  { exists a. split_and!; [done|done|]. intros k. rewrite decide_False; [done|].
    apply not_elem_of_nil. }
  destruct (router_op_sim r a (Unregister n) Hs Hn) as [Hs' _]. simpl in Hs'.
  destruct (IH _ _ Hs') as (a' & Hs'' & Ho & He). exists a'. split_and!; [done| |].
  - rewrite Ho. by case_decide.
  - intros k. rewrite He. destruct (decide (k ∈ ns)) as [Hin|Hni].
    + by rewrite decide_True by (by right).
    + destruct (decide (k = n)) as [->|Hne].
      * rewrite (decide_True (P := n ∈ n :: ns)) by (by left).
        case_decide as Hp; simpl; [by rewrite lookup_delete, decide_True|].
        destruct (entries a !! n) eqn:E; [|done]. destruct Hp. by eexists.
      * rewrite (decide_False (P := k ∈ n :: ns)) by (intros [?|?]%elem_of_cons; done).
        case_decide; simpl; [|done]. by rewrite lookup_delete, decide_False.
Qed.

(** The registration loop from a state where [done] was added to [base]. *)
Lemma install_loop_sim base r a done es :
  router_sim r a -> Forall (fun n => 0 <= n) done ->
  Forall (fun e => 0 <= e.1 /\ routable e.1) es -> NoDup es.*1 ->
  (forall k, k ∈ done -> entries base !! k = None) ->
  (forall k, k ∉ done -> entries a !! k = entries base !! k) ->
  otherwise a = otherwise base ->
  let '(r', b) := install_loop r done es in
  if b
  then Forall (fun e => entries a !! e.1 = None) es /\
       router_sim r' (mkAbsRouter (list_to_map es ∪ entries a) (otherwise base))
  else router_sim r' base /\ Exists (fun e => entries a !! e.1 <> None) es.
Proof.
  intros Hs Hd Hes. revert r a done Hs Hd.
  induction Hes as [|[n h] es [Hn Hrt] Hes IH]; intros r a done Hs Hd Hnd Hb Ha Ho;
    cbn [install_loop fmap list_fmap fst] in *.
  { simpl. split; [constructor|]. rewrite (left_id_L ∅ (∪)), <-Ho. by destruct a. }
  apply NoDup_cons in Hnd as [Hnotin Hnd].
  destruct (router_op_sim r a (Register n (Some h)) Hs Hn) as [Hs' Hb'].
  cbn [router_op_impl router_op_spec] in Hs', Hb'.
  destruct (vm_ecall_register r n (Some h)) as [r1 b1]. cbn [fst snd] in Hs', Hb'. subst b1.
  destruct (decide (entries a !! n = None)) as [Hfree|Htaken].
  - rewrite (decide_True (P := routable n /\ _)) in * by done. simpl in *.
    specialize (IH r1 _ (done ++ [n]) Hs').
    assert (n ∉ done -> entries base !! n = None) as Hbn by (intros; by rewrite <-Ha).
    assert (Hside : forall k, k ∈ done ++ [n] -> entries base !! k = None).
    { intros k [?| ->%list_elem_of_singleton]%elem_of_app; [by apply Hb|].
      destruct (decide (n ∈ done)); auto. }
    specialize (IH ltac:(apply Forall_app; auto) Hnd Hside).
    assert (Hout : forall k, k ∉ done ++ [n] ->
      <[n:=h]> (entries a) !! k = entries base !! k).
    { intros k Hk. rewrite not_elem_of_app, not_elem_of_cons in Hk. destruct Hk as [? [? _]].
      rewrite lookup_insert_ne by congruence. auto. }
    specialize (IH Hout Ho). revert IH.
    destruct (install_loop r1 (done ++ [n]) es) as [r' []]; simpl; intros IH.
    + destruct IH as [Hf Hsim]. split.
      * constructor; [done|]. eapply Forall_impl; [exact Hf|]. intros [k hk] Hk. simpl in *.
        apply lookup_insert_None in Hk. tauto.
      * rewrite <-insert_union_l, insert_union_r; [done|].
        by apply not_elem_of_list_to_map_1.
    + destruct IH as [Hsim Hex]. split; [done|]. right.
      apply List.Exists_exists in Hex as ([k hk] & Hin & Hk). apply List.Exists_exists.
      exists (k, hk). split; [done|]. simpl in *. intros E. apply Hk.
      rewrite lookup_insert_ne; [done|]. intros ->. apply Hnotin.
      apply list_elem_of_fmap. exists (k, hk). split; [done|]. by apply list_elem_of_In.
  - rewrite (decide_False (P := routable n /\ _)) in * by tauto. simpl in *.
    destruct (unregister_all r1 a done Hs' Hd) as (a' & Hsim & Ho' & He).
    split; [|by left].
    replace base with a'; [done|]. destruct a' as [e' o'], base as [e o]; simpl in *.
    f_equal; [|congruence]. apply map_eq. intros k. rewrite He. case_decide; [by rewrite Hb|auto].
Qed.
End router_proofs.

(** What each of the five calls does to the calling CPU, any other number being
    answered [-ENOSYS]: [EXIT] halts it and leaves its registers alone, [SELF]
    returns its id, [YIELD] marks it as yielded, and a critical section neither
    nests nor ends twice. *)
Definition cpu_call_spec (c : VmCpu) : VmCpu :=
  let a7 := reg c VM_REG_A7 in
  let return_ c v := set_reg c VM_REG_A0 v in
  if a7 =? 93 then set_halted c true
  else if a7 =? 1024 then return_ c (vm_id c)
  else if a7 =? 1040 then return_ (set_block c BLOCK_YIELDED (block_deadline c)) 0
  else if a7 =? 1041 then
    if in_critical c then return_ c (2 ^ 32 - 16) else return_ (set_critical c true) 0
  else if a7 =? 1042 then
    if in_critical c then return_ (set_critical c false) 0 else return_ c (2 ^ 32 - 22)
  else return_ c (2 ^ 32 - 38).

Definition cpu_router {W} `{CpuStore W} : VmEcallRouter W :=
  (vm_ecall_install_cpu_handlers vm_ecall_router_init).1.

Lemma cpu_entries_routable {W} `{CpuStore W} :
  Forall (fun e => 0 <= e.1 /\ routable e.1) (cpu_handler_entries (W := W)).
Proof.
  unfold cpu_handler_entries, routable, SYS_EXIT, SYS_SELF, SYS_YIELD, SYS_CRITICAL_ENTER,
    SYS_CRITICAL_EXIT.
  repeat (apply Forall_cons; split; [simpl; lia|]). by apply Forall_nil.
Qed.

Lemma cpu_entries_nodup {W} `{CpuStore W} : NoDup (cpu_handler_entries (W := W)).*1.
Proof. by apply (bool_decide_unpack _). Qed.

Lemma cpu_entry_lookup {W} `{CpuStore W} n :
  (list_to_map (cpu_handler_entries (W := W)) : gmap Z (VmEcallHandler W)) !! n =
  if n =? 93 then Some vm_handle_exit else if n =? 1024 then Some vm_handle_self
  else if n =? 1040 then Some vm_handle_yield else if n =? 1041 then Some vm_handle_critical_enter
  else if n =? 1042 then Some vm_handle_critical_exit else None.
Proof.
  unfold cpu_handler_entries. simpl. rewrite !lookup_insert.
  rewrite lookup_empty. unfold SYS_EXIT, SYS_SELF, SYS_YIELD, SYS_CRITICAL_ENTER, SYS_CRITICAL_EXIT.
  repeat case_decide; subst; try done;
    rewrite !(fun k => proj2 (Z.eqb_neq n k)) by congruence; done.
Qed.

Lemma cpu_router_sim {W} `{CpuStore W} :
  router_sim (cpu_router (W := W)) (mkAbsRouter (list_to_map cpu_handler_entries) default_fallback).
Proof.
  pose proof (install_loop_sim abs_empty _ _ [] cpu_handler_entries
    (router_init_sim (W := W))) as Hi.
  unfold cpu_router.
  destruct (vm_ecall_install_cpu_handlers (vm_ecall_router_init (W := W))) as [r b] eqn:E.
  unfold vm_ecall_install_cpu_handlers in E. rewrite E in Hi.
  specialize (Hi ltac:(constructor) cpu_entries_routable cpu_entries_nodup
    ltac:(by intros ? ?%elem_of_nil) ltac:(done) ltac:(done)).
  destruct b; [|by vm_compute in E]. destruct Hi as [_ Hs].
  cbn [entries otherwise abs_empty] in Hs. by rewrite (right_id_L ∅ (∪)) in Hs.
Qed.

Lemma cpu_router_dispatch {W} `{CpuStore W} cpu system (w : W) :
  cpu <> 0 -> 0 <= reg (cpu_at w cpu) VM_REG_A7 ->
  vm_ecall_dispatch cpu_router cpu system w = put_cpu w cpu (cpu_call_spec (cpu_at w cpu)).
Proof.
  intros Hc Ha7. rewrite (dispatch_sim _ _ _ _ _ cpu_router_sim) by done.
  cbn [entries otherwise]. rewrite cpu_entry_lookup.
  unfold cpu_call_spec. set (n := reg (cpu_at w cpu) VM_REG_A7) in *.
  assert (forall f, with_cpu cpu f w = put_cpu w cpu (f (cpu_at w cpu))) as Hw.
  { intros f. unfold with_cpu. by rewrite (proj2 (Z.eqb_neq cpu 0)). }
  destruct (n =? 93), (n =? 1024), (n =? 1040), (n =? 1041), (n =? 1042);
    cbn [default]; try apply Hw;
    etransitivity; [apply Hw|]; f_equal; by destruct (in_critical _).
Qed.

(** The bare store: one [VmCpu] at every address. *)
#[export] Instance bare_store : CpuStore (Z -> VmCpu) := {|
  cpu_at w p := w p;
  put_cpu w p c := fun q => if decide (p = q) then c else w q
|}.

#[export] Instance bare_store_laws : CpuStoreLaws (Z -> VmCpu).
Proof. split; intros; simpl; by case_decide. Qed.

(** ** Properties *)

(** The router implements a finite map from syscall numbers to handlers with a
    default: after any sequence of registrations, removals and changes of the
    fallback on a fresh router, every call reported success or failure exactly as
    the map does (a number outside 0..255 and 1024..1279, a taken number, an absent
    number and a null handler are refused), and dispatching runs the handler that
    the map has for the number in [a7], or else the fallback. *)
Theorem router_refines_map {W} `{CpuStore W} os cpu system (w : W) :
  Forall (fun o => 0 <= op_number o) os -> cpu <> 0 -> 0 <= reg (cpu_at w cpu) VM_REG_A7 ->
  let '(r, bs) := router_run router_op_impl vm_ecall_router_init os in
  let '(a, bs') := router_run router_op_spec abs_empty os in
  bs = bs' /\
  vm_ecall_dispatch r cpu system w =
  default (otherwise a) (entries a !! reg (cpu_at w cpu) VM_REG_A7) cpu system w.
Proof.
  intros Hos Hc H0. destruct (router_run_sim _ _ os router_init_sim Hos) as [Hs Hb].
  destruct (router_run router_op_impl _ os), (router_run router_op_spec _ os); simpl in *.
  split; [done|by apply dispatch_sim].
Qed.

(** Installing the CPU handlers is all or nothing: on a router that represents a
    map, it succeeds exactly when the five numbers are free, and then adds exactly
    the five handlers; otherwise the roll-back leaves the router as it was. *)
Theorem install_all_or_nothing {W} `{CpuStore W} (r : VmEcallRouter W) a :
  router_sim r a ->
  let '(r', ok) := vm_ecall_install_cpu_handlers r in
  if ok
  then Forall (fun e => entries a !! e.1 = None) cpu_handler_entries /\
       router_sim r' (mkAbsRouter (list_to_map cpu_handler_entries ∪ entries a) (otherwise a))
  else r' = r /\ Exists (fun e => entries a !! e.1 <> None) cpu_handler_entries.
Proof.
  intros Hs. pose proof (install_loop_sim a r a [] cpu_handler_entries Hs) as Hi.
  specialize (Hi ltac:(constructor) cpu_entries_routable cpu_entries_nodup).
  unfold vm_ecall_install_cpu_handlers.
  destruct (install_loop r [] cpu_handler_entries) as [r' []].
  - destruct Hi as [Hf Hs']; [by intros ? ?%elem_of_nil|done..|]. by split.
  - destruct Hi as [Hs' He]; [by intros ? ?%elem_of_nil|done..|].
    split; [by apply (router_sim_inj _ _ a)|done].
Qed.

(** System calls end to end: dispatching through a fresh router with the CPU
    handlers installed replaces the calling CPU by what the call's number says, and
    changes nothing else in the world. *)
Theorem cpu_calls_correct {W} `{CpuStore W} cpu system (w : W) :
  cpu <> 0 -> 0 <= reg (cpu_at w cpu) VM_REG_A7 ->
  vm_ecall_dispatch (vm_ecall_install_cpu_handlers vm_ecall_router_init).1 cpu system w =
  put_cpu w cpu (cpu_call_spec (cpu_at w cpu)).
Proof. apply cpu_router_dispatch. Qed.

(** ** Witnesses *)

(** A store whose CPU at address 8 is about to enter a critical section. *)
Definition demo_store : Z -> VmCpu := fun _ => set_reg (vm_init 5) VM_REG_A7 SYS_CRITICAL_ENTER.

Definition demo_ops : list (router_op (Z -> VmCpu)) :=
  [Register 1041 (Some vm_handle_exit); Register 1041 (Some vm_handle_self);
   Register 300 (Some vm_handle_self); Unregister 1041; Unregister 1041;
   Register 1041 (Some vm_handle_critical_enter); SetFallback None].

Lemma router_refines_map_witness :
  (router_run router_op_impl vm_ecall_router_init demo_ops).2
    = [true; false; false; true; false; true; true] /\
  let '(r, bs) := router_run router_op_impl vm_ecall_router_init demo_ops in
  let '(a, bs') := router_run router_op_spec abs_empty demo_ops in
  bs = bs' /\
  vm_ecall_dispatch r 8 0 demo_store =
  default (otherwise a) (entries a !! reg (cpu_at demo_store 8) VM_REG_A7) 8 0 demo_store.
Proof.
  split; [reflexivity|]. apply router_refines_map.
  - unfold demo_ops. repeat (apply Forall_cons; split; [simpl; lia|]). by apply Forall_nil.
  - lia.
  - vm_compute. discriminate.
Defined.

Lemma install_all_or_nothing_witness :
  let '(r', ok) := vm_ecall_install_cpu_handlers (vm_ecall_router_init (W := Z -> VmCpu)) in
  if ok
  then Forall (fun e => (∅ : gmap Z (VmEcallHandler (Z -> VmCpu))) !! e.1 = None)
         cpu_handler_entries /\
       router_sim r' (mkAbsRouter (list_to_map cpu_handler_entries ∪ ∅) default_fallback)
  else r' = vm_ecall_router_init /\
       Exists (fun e => (∅ : gmap Z (VmEcallHandler (Z -> VmCpu))) !! e.1 <> None)
         cpu_handler_entries.
Proof. exact (install_all_or_nothing vm_ecall_router_init abs_empty router_init_sim). Defined.

Lemma cpu_calls_correct_witness :
  let w' := vm_ecall_dispatch (vm_ecall_install_cpu_handlers vm_ecall_router_init).1
              8 0 demo_store in
  w' = put_cpu demo_store 8 (cpu_call_spec (cpu_at demo_store 8)) /\
  in_critical (w' 8) = true /\ in_critical (w' 9) = false.
Proof.
  split; [|by split]. apply cpu_calls_correct; [lia|vm_compute; discriminate].
Defined.
