(* ===== verification/VmSched.v ===== *)
(** The cooperative scheduler ([src/vm/vm_sched.c]).

    The scheduler holds pointers to CPUs that its caller owns, so its state lives
    in a [World]: the scheduler, the CPU that each address holds, the host memory
    and the rest of the system [S].  Callbacks are functions on the world.  The
    configuration, written by [vm_sched_init] only, is an argument of the
    operations; so is the router it points to.

    [vm_sched_step] contains a [for (;;)] whose length the guest decides; it takes
    a fuel and returns [None] when the fuel runs out. *)
From S2P Require Import Prelude HostMem VmCpu VmExec VmEcall.

Definition VM_SCHED_MAX_VMS : Z := 64.

Inductive VmTrapAction := VM_TRAP_TERMINATE | VM_TRAP_RESUME | VM_TRAP_LOG_AND_TERMINATE.
Inductive VmSchedStepResult := VM_SCHED_RAN | VM_SCHED_IDLE | VM_SCHED_ALL_HALTED.

#[export] Instance VmSchedStepResult_eq_dec : EqDecision VmSchedStepResult.
Proof. solve_decision. Defined.

Record VmSched := mkSched {
  total_quanta_run : Z;
  total_instructions : Z;
  global_tick : Z;
  trapped_vms : Z;
  registered_count : Z;
  vms : list Z;
  debt : list Z;
  critical_section_consumed : list Z;
  ready : Z;
  blocked : Z;
  cursor : Z
}.

Record World (S : Type) := mkWorld {
  w_sched : VmSched;
  w_cpus : Z -> VmCpu;
  w_mem : mem;
  w_sys : S
}.
Arguments mkWorld {S} _ _ _ _.
Arguments w_sched {S} _.
Arguments w_cpus {S} _ _.
Arguments w_mem {S} _ _.
Arguments w_sys {S} _.

#[export] Instance world_store S : CpuStore (World S) := {|
  cpu_at w p := w_cpus w p;
  put_cpu w p c :=
    mkWorld (w_sched w) (fun q => if decide (p = q) then c else w_cpus w q) (w_mem w) (w_sys w)
|}.

#[export] Instance world_store_laws S : CpuStoreLaws (World S).
Proof. split; intros; simpl; by case_decide. Qed.

(** ** Field updates *)

(** [a[i]] and [a[i] = v] on the fixed arrays. *)
Definition aget (a : list Z) (i : Z) : Z := nth (Z.to_nat i) a 0.
Definition aset (a : list Z) (i v : Z) : list Z := <[Z.to_nat i := v]> a.

Definition set_sets (s : VmSched) (r b : Z) : VmSched :=
  mkSched (total_quanta_run s) (total_instructions s) (global_tick s) (trapped_vms s)
    (registered_count s) (vms s) (debt s) (critical_section_consumed s) r b (cursor s).
Definition set_slot (s : VmSched) (i p count : Z) : VmSched :=
  mkSched (total_quanta_run s) (total_instructions s) (global_tick s) (trapped_vms s)
    count (aset (vms s) i p) (debt s) (critical_section_consumed s)
    (ready s) (blocked s) (cursor s).
Definition set_debt (s : VmSched) (i v : Z) : VmSched :=
  mkSched (total_quanta_run s) (total_instructions s) (global_tick s) (trapped_vms s)
    (registered_count s) (vms s) (aset (debt s) i v) (critical_section_consumed s)
    (ready s) (blocked s) (cursor s).
Definition set_consumed (s : VmSched) (i v : Z) : VmSched :=
  mkSched (total_quanta_run s) (total_instructions s) (global_tick s) (trapped_vms s)
    (registered_count s) (vms s) (debt s) (aset (critical_section_consumed s) i v)
    (ready s) (blocked s) (cursor s).
Definition set_cursor (s : VmSched) (v : Z) : VmSched :=
  mkSched (total_quanta_run s) (total_instructions s) (global_tick s) (trapped_vms s)
    (registered_count s) (vms s) (debt s) (critical_section_consumed s)
    (ready s) (blocked s) v.
Definition set_tick (s : VmSched) (t : Z) : VmSched :=
  mkSched (total_quanta_run s) (total_instructions s) t (trapped_vms s)
    (registered_count s) (vms s) (debt s) (critical_section_consumed s)
    (ready s) (blocked s) (cursor s).
Definition set_totals (s : VmSched) (quanta instructions trapped : Z) : VmSched :=
  mkSched quanta instructions (global_tick s) trapped
    (registered_count s) (vms s) (debt s) (critical_section_consumed s)
    (ready s) (blocked s) (cursor s).

Definition vm_at (s : VmSched) (i : Z) : Z := aget (vms s) i.
Definition clear_slot_counters (s : VmSched) (i : Z) : VmSched :=
  set_consumed (set_debt s i 0) i 0.

(** ** Bitmaps *)

Definition bm_set (b id : Z) : Z := Z.lor b (Z.shiftl 1 id).
Definition bm_clear (b id : Z) : Z := Z.land b (not64 (Z.shiftl 1 id)).
Definition bm_test (b id : Z) : bool := negb (Z.land b (Z.shiftl 1 id) =? 0).

(** The loop of [find_next_ready] from [i] on, [n] iterations being left. *)
Fixpoint find_from (n : nat) (ready start i : Z) : Z :=
  match n with
  | O => -1
  | S n =>
      let id := (start + i) mod VM_SCHED_MAX_VMS in
      if bm_test ready id then id else find_from n ready start (i + 1)
  end.

Definition find_next_ready (ready start : Z) : Z :=
  if ready =? 0 then -1 else find_from (Z.to_nat VM_SCHED_MAX_VMS) ready start 0.

(** [while ((b & 1u) == 0) { b >>= 1; id++; }]. *)
Fixpoint lowest_set (fuel : nat) (b id : Z) : Z :=
  match fuel with
  | O => id
  | S fuel => if Z.land b 1 =? 0 then lowest_set fuel (Z.shiftr b 1) (id + 1) else id
  end.

(** The ids that [while (blocked) { ...; blocked &= blocked - 1; ... }] visits on
    the local copy [b], in order. *)
Fixpoint bitmap_ids (fuel : nat) (b : Z) : list Z :=
  match fuel with
  | O => []
  | S fuel =>
      if b =? 0 then []
      else lowest_set 64 b 0 :: bitmap_ids fuel (Z.land b (b - 1))
  end.

Section sched.
Context {S : Type}.
Implicit Types w : World S.

Definition set_sched (w : World S) (s : VmSched) : World S :=
  mkWorld s (w_cpus w) (w_mem w) (w_sys w).
Definition set_mem (w : World S) (m : mem) : World S :=
  mkWorld (w_sched w) (w_cpus w) m (w_sys w).

(** ** Configuration *)

Record VmSchedConfig := mkConfig {
  baseline_quantum : Z;
  max_critical_overrun : Z;
  trap_handler : option (Z -> Z -> World S -> World S * VmTrapAction);
  idle_handler : option (Z -> Z -> World S -> World S);
  ecall_router : option (VmEcallRouter (World S));
  tick_source : option (Z -> World S -> World S * Z);
  tick_source_userdata : Z;
  ticks_per_second : Z;
  system : Z
}.

Definition default_trap_handler : Z -> Z -> World S -> World S * VmTrapAction :=
  fun _ _ w => (w, VM_TRAP_TERMINATE).
Definition default_idle_handler : Z -> Z -> World S -> World S := fun _ _ w => w.

Definition zero_config : VmSchedConfig := mkConfig 0 0 None None None None 0 0 0.

(** The configuration that [vm_sched_init] leaves in the scheduler. *)
Definition init_config (cfg : option VmSchedConfig) : VmSchedConfig :=
  let cfg := match cfg with Some cfg => cfg | None => zero_config end in
  let trap := match trap_handler cfg with Some h => h | None => default_trap_handler end in
  let idle := match idle_handler cfg with Some h => h | None => default_idle_handler end in
  let baseline := if baseline_quantum cfg =? 0 then 1000 else baseline_quantum cfg in
  let overrun :=
    if max_critical_overrun cfg =? 0 then u32 (10 * baseline) else max_critical_overrun cfg in
  mkConfig baseline overrun (Some trap) (Some idle) (ecall_router cfg) (tick_source cfg)
    (tick_source_userdata cfg) (ticks_per_second cfg) (system cfg).

Definition zero_sched : VmSched :=
  mkSched 0 0 0 0 0 (replicate 64 0) (replicate 64 0) (replicate 64 0) 0 0 0.

Definition vm_sched_init (w : World S) (cfg : option VmSchedConfig) : World S * VmSchedConfig :=
  (set_sched w zero_sched, init_config cfg).
(** ** Registration *)

(** The loop of [vm_sched_register] from slot [i] on, [n] slots being left. *)
Definition take_slot (w : World S) (i cpu : Z) : World S :=
  let s := w_sched w in
  let w := put_cpu w cpu (set_vm_id (cpu_at w cpu) i) in
  set_sched w
    (clear_slot_counters
       (set_sets (set_slot s i cpu (u16 (registered_count s + 1)))
          (bm_set (ready s) i) (blocked s)) i).

Fixpoint register_from (n : nat) (w : World S) (i cpu : Z) : World S * Z :=
  match n with
  | O => (w, -1)
  | Datatypes.S n =>
      if vm_at (w_sched w) i =? 0 then (take_slot w i cpu, i)
      else register_from n w (i + 1) cpu
  end.

Definition vm_sched_register (w : World S) (cpu : Z) : World S * Z :=
  if cpu =? 0 then (w, -2) else register_from (Z.to_nat VM_SCHED_MAX_VMS) w 0 cpu.

Definition vm_sched_register_at (w : World S) (cpu requested_id : Z) : World S * Z :=
  if VM_SCHED_MAX_VMS <=? requested_id then (w, -1) else
  if cpu =? 0 then (w, -3) else
  if negb (vm_at (w_sched w) requested_id =? 0) then (w, -2) else
  (take_slot w requested_id cpu, 0).

Definition vm_sched_unregister (w : World S) (id : Z) : World S :=
  let s := w_sched w in
  if VM_SCHED_MAX_VMS <=? id then w else
  if vm_at s id =? 0 then w else
  let count := if 0 <? registered_count s then registered_count s - 1 else registered_count s in
  set_sched w
    (clear_slot_counters
       (set_sets (set_slot s id 0 count) (bm_clear (ready s) id) (bm_clear (blocked s) id)) id).

Definition vm_sched_get (w : World S) (id : Z) : Z :=
  if VM_SCHED_MAX_VMS <=? id then 0 else vm_at (w_sched w) id.

(** ** Wake and halt *)

(** [bm_clear(&s->blocked, id); bm_set(&s->ready, id)]. *)
Definition make_ready (w : World S) (id : Z) : World S :=
  let s := w_sched w in
  set_sched w (set_sets s (bm_set (ready s) id) (bm_clear (blocked s) id)).

(** [bm_clear] on both sets. *)
Definition drop_vm (w : World S) (id : Z) : World S :=
  let s := w_sched w in
  set_sched w (set_sets s (bm_clear (ready s) id) (bm_clear (blocked s) id)).

(** Clearing [block_reason] and [block_deadline] and returning [a0]. *)
Definition unblock (c : VmCpu) (a0 : Z) : VmCpu :=
  set_reg (set_block c BLOCK_NONE 0) VM_REG_A0 (u32 a0).

Definition vm_sched_wake_mailbox (w : World S) (id a0 : Z) : World S * bool :=
  let s := w_sched w in
  if VM_SCHED_MAX_VMS <=? id then (w, false) else
  let cpu := vm_at s id in
  if cpu =? 0 then (w, false) else
  if negb (bool_decide (block_reason (cpu_at w cpu) = BLOCK_MAILBOX_RECV)) then (w, false) else
  if negb (bm_test (blocked s) id) then (w, false) else
  (make_ready (put_cpu w cpu (unblock (cpu_at w cpu) a0)) id, true).

Definition vm_sched_wake_child (w : World S) (id a0 : Z) : World S * bool :=
  let s := w_sched w in
  if VM_SCHED_MAX_VMS <=? id then (w, false) else
  let cpu := vm_at s id in
  if cpu =? 0 then (w, false) else
  if negb (bool_decide (block_reason (cpu_at w cpu) = BLOCK_ON_CHILD)) then (w, false) else
  if negb (bm_test (blocked s) id) then (w, false) else
  (make_ready (put_cpu w cpu (set_child (unblock (cpu_at w cpu) a0) UINT16_MAX)) id, true).

(** The body of the loop of [vm_sched_wake_frame_consumed]. *)
Definition wake_frame_waiter (now_consumed : Z) (st : World S * Z) (id : Z) : World S * Z :=
  let '(w, woken) := st in
  let cpu := vm_at (w_sched w) id in
  if cpu =? 0 then (w, woken) else
  let c := cpu_at w cpu in
  if negb (bool_decide (block_reason c = BLOCK_FRAME_CONSUMED)) then (w, woken) else
  if block_deadline c <=? now_consumed
  then (make_ready (put_cpu w cpu (unblock c 0)) id, u32 (woken + 1))
  else (w, woken).

Definition vm_sched_wake_frame_consumed (w : World S) (now_consumed : Z) : World S * Z :=
  foldl (wake_frame_waiter now_consumed) (w, 0) (bitmap_ids 64 (blocked (w_sched w))).

Definition vm_sched_halt (w : World S) (id : Z) : World S :=
  if VM_SCHED_MAX_VMS <=? id then w else
  let cpu := vm_at (w_sched w) id in
  if cpu =? 0 then w else
  drop_vm (put_cpu w cpu (set_halted (cpu_at w cpu) true)) id.

(** ** Timeouts *)

Definition tick_reached (now deadline : Z) : bool := 0 <=? s32 (u32 (now - deadline)).

(** What the [switch] decides for a blocked CPU: the value to wake it with, if it
    wakes, and the deadline it contributes, if it waits for one. *)
Definition timeout_decision (now : Z) (c : VmCpu) : option Z * option Z :=
  let on_deadline a0 :=
    if tick_reached now (block_deadline c) then (Some a0, None)
    else (None, Some (u32 (block_deadline c - now))) in
  match block_reason c with
  | BLOCK_YIELDED => (Some 0, None)
  | BLOCK_SLEEP => on_deadline 0
  | BLOCK_MAILBOX_RECV =>
      if block_deadline c =? 0 then (None, None) else on_deadline (- VM_ETIMEDOUT)
  | BLOCK_ON_CHILD => (None, None)
  | BLOCK_FRAME_CONSUMED => (None, None)
  | BLOCK_NONE => (Some 0, None)
  end.

Definition check_timeout (st : World S * Z) (id : Z) : World S * Z :=
  let '(w, next_delta) := st in
  let cpu := vm_at (w_sched w) id in
  if cpu =? 0 then (w, next_delta) else
  let c := cpu_at w cpu in
  let '(wake, deadline) := timeout_decision (global_tick (w_sched w)) c in
  let next_delta :=
    match deadline with
    | Some delta => if delta <? next_delta then delta else next_delta
    | None => next_delta
    end in
  match wake with
  | Some a0 => (make_ready (put_cpu w cpu (unblock c a0)) id, next_delta)
  | None => (w, next_delta)
  end.

Definition wake_expired_timeouts (w : World S) : World S * Z :=
  foldl check_timeout (w, UINT32_MAX) (bitmap_ids 64 (blocked (w_sched w))).

Definition apply_block_transition (w : World S) (id : Z) : World S :=
  let s := w_sched w in
  let cpu := vm_at s id in
  if cpu =? 0 then w else
  if bool_decide (block_reason (cpu_at w cpu) = BLOCK_NONE) then w else
  set_sched w (set_sets s (bm_clear (ready s) id) (bm_set (blocked s) id)).
(** ** One scheduling decision *)

Section step.
(** The configuration; [vm_sched_init] has put a trap and an idle handler in it, so
    the [default]s below never apply to an initialised scheduler. *)
Variable cfg : VmSchedConfig.

Definition max_overrun : Z := max_critical_overrun cfg.

(** The default action of [handle_trap]. *)
Definition terminate_trapped (w : World S) (id cpu : Z) : World S :=
  drop_vm (put_cpu w cpu (set_halted (cpu_at w cpu) true)) id.

Definition handle_trap (w : World S) (id : Z) : World S :=
  let cpu := vm_at (w_sched w) id in
  if cpu =? 0 then w else
  let '(w, action) :=
    (default default_trap_handler (trap_handler cfg)) cpu (system cfg) w in
  match action with
  | VM_TRAP_RESUME => put_cpu w cpu (set_trap (cpu_at w cpu) TRAP_NONE 0 0 0)
  | VM_TRAP_LOG_AND_TERMINATE =>
      let s := w_sched w in
      terminate_trapped
        (set_sched w (set_totals s (total_quanta_run s) (total_instructions s)
                        (u32 (trapped_vms s + 1)))) id cpu
  | VM_TRAP_TERMINATE => terminate_trapped w id cpu
  end.

(** The quantum and the debt it pays. *)
Definition effective_quantum (s : VmSched) (id : Z) : Z * Z :=
  let baseline := baseline_quantum cfg in
  let cap := baseline / 2 in
  let owed := aget (debt s) id in
  let pay := if owed <? cap then owed else cap in
  (u32 (baseline - pay), pay).

Definition pay_debt (w : World S) (id debt_paid : Z) : World S :=
  let s := w_sched w in
  let owed := aget (debt s) id in
  set_sched w (set_debt s id (if debt_paid <=? owed then owed - debt_paid else 0)).

(** [s->global_tick = s->config.tick_source(...)] when there is a source. *)
Definition sample_tick (w : World S) : World S :=
  match tick_source cfg with
  | Some f =>
      let '(w, t) := f (tick_source_userdata cfg) w in set_sched w (set_tick (w_sched w) (u32 t))
  | None => w
  end.

(** Running the CPU for [budget] and the bookkeeping that follows every [vm_step]. *)
Definition run_quantum (w : World S) (cpu budget : Z) : World S * VmStepResult * Z :=
  let '(r, c, m, used) := vm_step (cpu_at w cpu) (w_mem w) budget in
  let w := set_mem (put_cpu w cpu c) m in
  let s := w_sched w in
  let w := set_sched w (set_totals s (u64 (total_quanta_run s + 1))
                          (u64 (total_instructions s + used)) (trapped_vms s)) in
  let w :=
    match tick_source cfg with
    | Some _ => sample_tick w
    | None => let s := w_sched w in set_sched w (set_tick s (u32 (global_tick s + used)))
    end in
  (w, r, used).

(** The runaway critical section. *)
Definition kill_runaway (w : World S) (id cpu : Z) : World S :=
  let c := cpu_at w cpu in
  let w := put_cpu w cpu (set_trap (set_halted c true) TRAP_HALT (trap_pc c) (trap_addr c)
                            (trap_insn c)) in
  let s := w_sched w in
  let s := set_sets s (bm_clear (ready s) id) (blocked s) in
  set_sched w (set_debt (set_consumed s id 0) id 0).

Definition dispatch_ecall (w : World S) (cpu : Z) : World S :=
  match ecall_router cfg with
  | Some r => vm_ecall_dispatch r cpu (system cfg) w
  | None => put_cpu w cpu (set_reg (cpu_at w cpu) VM_REG_A0 (u32 (- VM_ENOSYS)))
  end.

(** What one turn of the [for (;;)] does: stop, or run again with a new budget. *)
Definition turn (w : World S) (id cpu debt_paid budget : Z) : World S * option Z :=
  let '(w, r, used) := run_quantum w cpu budget in
  match r with
  | VM_STEP_QUANTUM_EXPIRED =>
      if in_critical (cpu_at w cpu) then
        let s := w_sched w in
        let consumed := u32 (aget (critical_section_consumed s) id + used) in
        let w := set_sched w (set_consumed s id consumed) in
        if max_overrun <? consumed then (kill_runaway w id cpu, None) else
        let s := w_sched w in
        (set_sched w (set_debt s id (u32 (aget (debt s) id + used))), Some (baseline_quantum cfg))
      else
        let w := pay_debt w id debt_paid in
        let w := if negb (in_critical (cpu_at w cpu))
                 then set_sched w (set_consumed (w_sched w) id 0) else w in
        (w, None)
  | VM_STEP_ECALL =>
      let w := dispatch_ecall w cpu in
      if halted (cpu_at w cpu) then (drop_vm w id, None) else
      if negb (bool_decide (block_reason (cpu_at w cpu) = BLOCK_NONE))
      then (apply_block_transition w id, None) else
      if budget <=? used then (pay_debt w id debt_paid, None) else
      (w, Some (budget - used))
  | VM_STEP_HALTED => (drop_vm w id, None)
  | VM_STEP_TRAPPED => (handle_trap w id, None)
  end.

Fixpoint turns (fuel : nat) (w : World S) (id cpu debt_paid budget : Z) : option (World S) :=
  match fuel with
  | O => None
  | Datatypes.S fuel =>
      match turn w id cpu debt_paid budget with
      | (w, None) => Some w
      | (w, Some budget) => turns fuel w id cpu debt_paid budget
      end
  end.

(** The clock and the timeouts, before anything is picked. *)
Definition housekeep (w : World S) : World S := (wake_expired_timeouts (sample_tick w)).1.

(** The decision itself: nothing to run, or the next ready VM and its turns. *)
Definition run_next (fuel : nat) (w : World S) : option (World S * VmSchedStepResult) :=
  let s := w_sched w in
  if ready s =? 0 then
    Some (w, if blocked s =? 0 then VM_SCHED_ALL_HALTED else VM_SCHED_IDLE)
  else
    let next := find_next_ready (ready s) (cursor s) in
    if next <? 0 then Some (w, VM_SCHED_IDLE) else
    let cpu := vm_at s next in
    let '(budget, debt_paid) := effective_quantum s next in
    match turns fuel w next cpu debt_paid budget with
    | Some w =>
        Some (set_sched w (set_cursor (w_sched w) ((next + 1) mod VM_SCHED_MAX_VMS)), VM_SCHED_RAN)
    | None => None
    end.

Definition vm_sched_step (fuel : nat) (w : World S) : option (World S * VmSchedStepResult) :=
  run_next fuel (housekeep w).

(** What [vm_sched_run] does when a step found nothing to run. *)
Definition idle_cycle (w : World S) : World S :=
  let '(w, delta) := wake_expired_timeouts w in
  let w := (default default_idle_handler (idle_handler cfg)) delta (system cfg) w in
  match tick_source cfg with
  | Some _ => sample_tick w
  | None => let s := w_sched w in set_sched w (set_tick s (u32 (global_tick s + 1)))
  end.

(** The driver, [n] cycles at most (the code's [max_cycles], or a bound on an
    unbounded run); [fuel] is for each step. *)
Fixpoint vm_sched_run (n fuel : nat) (w : World S) : option (World S * bool) :=
  match n with
  | O => Some (w, false)
  | Datatypes.S n =>
      match vm_sched_step fuel w with
      | None => None
      | Some (w, VM_SCHED_ALL_HALTED) => Some (w, true)
      | Some (w, VM_SCHED_IDLE) => vm_sched_run n fuel (idle_cycle w)
      | Some (w, VM_SCHED_RAN) => vm_sched_run n fuel w
      end
  end.
End step.
End sched.
Arguments VmSchedConfig S : clear implicits.
