(* ===== verification/VmSchedInv.v ===== *)
(** Invariants of the scheduler: its bitmaps as sets of ids, well-formed worlds,
    and that registration, waking, halting and timeouts keep a world well-formed. *)
From S2P Require Import Prelude HostMem VmCpu VmDecode VmExec VmSafety VmEcall VmSched.

(** ** 64-bit sets *)

Lemma u64_bits b : is_u64 b -> forall j, 64 <= j -> Z.testbit b j = false.
Proof. intros Hb j Hj. by apply (range_bits 64). Qed.

Lemma bits_u64 b : 0 <= b -> (forall j, 64 <= j -> Z.testbit b j = false) -> is_u64 b.
Proof. by apply (bits_range 64). Qed.

Lemma bm_test_spec b i : 0 <= i -> bm_test b i = Z.testbit b i.
Proof. intros. unfold bm_test. rewrite land_bit_zero by done. apply negb_involutive. Qed.

Lemma bm_set_bit b i j : 0 <= i -> 0 <= j -> Z.testbit (bm_set b i) j = Z.testbit b j || (i =? j).
Proof. intros. by apply testbit_set. Qed.

Lemma bm_clear_bit b i j : 0 <= i -> 0 <= j < 64 ->
  Z.testbit (bm_clear b i) j = Z.testbit b j && negb (j =? i).
Proof. intros. by apply testbit_clear64. Qed.

Lemma bm_set_u64 b i : 0 <= i < 64 -> is_u64 b -> is_u64 (bm_set b i).
Proof.
  intros Hi Hb. apply bits_u64.
  - unfold bm_set. apply Z.lor_nonneg. split; [umach; lia|]. rewrite Z.shiftl_nonneg. lia.
  - intros j Hj. rewrite bm_set_bit by lia. rewrite (u64_bits b) by done.
    by rewrite (proj2 (Z.eqb_neq i j)) by lia.
Qed.

Lemma bm_clear_u64 b i : is_u64 b -> is_u64 (bm_clear b i).
Proof.
  intros Hb. apply bits_u64.
  - unfold bm_clear. apply Z.land_nonneg. left. umach. lia.
  - intros j Hj. unfold bm_clear. by rewrite Z.land_spec, (u64_bits b).
Qed.

(** Clearing the lowest set bit. *)
Lemma land_pred_bit b k j :
  0 <= k -> Z.testbit b k = true -> (forall i, 0 <= i < k -> Z.testbit b i = false) ->
  Z.testbit (Z.land b (b - 1)) j = Z.testbit b j && negb (j =? k).
Proof.
  intros Hk Hb Hlow. destruct (Z.ltb_spec j 0) as [Hneg|Hj].
  { by rewrite !Z.testbit_neg_r. }
  assert (0 < 2 ^ k) as Hp by (apply Z.pow_pos_nonneg; lia).
  assert (2 ^ (k + 1) = 2 * 2 ^ k) as H2 by (rewrite Z.pow_add_r by lia; lia).
  assert (b mod 2 ^ (k + 1) = 2 ^ k) as Hm.
  { apply Z.bits_inj'. intros i Hi. rewrite Z.pow2_bits_eqb by lia.
    destruct (Z.ltb_spec i (k + 1)).
    - rewrite Z.mod_pow2_bits_low by lia. destruct (Z.eqb_spec k i) as [<-|]; [done|].
      apply Hlow. lia.
    - rewrite Z.mod_pow2_bits_high by lia. symmetry. apply Z.eqb_neq. lia. }
  pose proof (Z.div_mod b (2 ^ (k + 1)) ltac:(lia)) as Hd. rewrite Hm in Hd.
  rewrite Z.land_spec. destruct (Z.ltb_spec j k).
  - by rewrite Hlow by lia.
  - destruct (Z.eqb_spec j k) as [->|Hne]; simpl.
    + rewrite andb_false_r. replace (Z.testbit (b - 1) k) with false; [apply andb_false_r|].
      symmetry. apply Z.testbit_false; [lia|].
      replace ((b - 1) / 2 ^ k) with (2 * (b / 2 ^ (k + 1))).
      { rewrite Z.mul_comm. by apply Z.mod_mul. }
      apply (Z.div_unique_pos _ _ _ (2 ^ k - 1)); [lia|]. rewrite H2 in *. lia.
    + rewrite andb_true_r. replace (Z.testbit (b - 1) j) with (Z.testbit b j).
      { by destruct (Z.testbit b j). }
      replace j with ((j - (k + 1)) + (k + 1)) by lia.
      rewrite <-!Z.shiftr_spec by lia. f_equal. rewrite !Z.shiftr_div_pow2 by lia.
      apply (Z.div_unique_pos _ _ _ (2 ^ k - 1)); lia.
Qed.

Lemma lowest_set_spec n : forall b id,
  (exists k, 0 <= k < Z.of_nat n /\ Z.testbit b k = true) ->
  let k := lowest_set n b id - id in
  0 <= k < Z.of_nat n /\ Z.testbit b k = true /\ (forall i, 0 <= i < k -> Z.testbit b i = false).
Proof.
  induction n as [|n IH]; intros b id (k & Hk & Hb); [lia|]. cbn [lowest_set].
  assert (Z.land b 1 = if Z.testbit b 0 then 1 else 0) as ->.
  { rewrite Z.bit0_odd. change 1 with (Z.ones 1) at 1. rewrite Z.land_ones by lia.
    change (2 ^ 1) with 2. rewrite Zmod_odd. by destruct (Z.odd b). }
  destruct (Z.testbit b 0) eqn:H0; cbn [Z.eqb].
  - rewrite Z.sub_diag. split_and!; [lia..|done|lia].
  - destruct (IH (Z.shiftr b 1) (id + 1)) as (Hr & Ht & Hl).
    + exists (k - 1). assert (k <> 0) by congruence. rewrite Z.shiftr_spec by lia.
      split; [lia|]. by replace (k - 1 + 1) with k by lia.
    + set (r := lowest_set n (Z.shiftr b 1) (id + 1)) in *.
      rewrite Z.shiftr_spec in Ht by lia.
      replace (r - (id + 1) + 1) with (r - id) in Ht by lia.
      split; [lia|]. split; [done|]. intros i Hi. destruct (Z.eqb_spec i 0) as [->|]; [done|].
      specialize (Hl (i - 1) ltac:(lia)). rewrite Z.shiftr_spec in Hl by lia.
      by replace (i - 1 + 1) with i in Hl by lia.
Qed.

(** The loop over a bitmap visits the members of the set, each once. *)
Lemma bitmap_ids_spec n : forall b,
  is_u64 b -> (n <= 64)%nat -> (forall i, 0 <= i < 64 - Z.of_nat n -> Z.testbit b i = false) ->
  NoDup (bitmap_ids n b) /\
  (forall i, i ∈ bitmap_ids n b <-> 0 <= i < 64 /\ Z.testbit b i = true).
Proof.
  induction n as [|n IH]; intros b Hb Hn Hlow; cbn [bitmap_ids].
  { split; [constructor|]. intros i. rewrite elem_of_nil. split; [done|].
    intros [Hi Ht]. rewrite Hlow in Ht by lia. done. }
  destruct (Z.eqb_spec b 0) as [->|Hne].
  { split; [constructor|]. intros i. rewrite elem_of_nil, Z.bits_0. by split; [|intros []]. }
  assert (exists k, 0 <= k < 64 /\ Z.testbit b k = true) as Hex.
  { exists (Z.log2 b). umach. split; [|apply Z.bit_log2; lia].
    split; [apply Z.log2_nonneg|]. apply Z.log2_lt_pow2; [lia|]. change (2 ^ 64) with 0x10000000000000000. lia. }
  destruct (lowest_set_spec 64 b 0 Hex) as (Hk & Ht & Hl). rewrite Z.sub_0_r in *.
  set (k := lowest_set 64 b 0) in *.
  assert (64 - Z.of_nat (S n) <= k) as Hge.
  { destruct (Z.leb_spec (64 - Z.of_nat (S n)) k); [done|]. rewrite Hlow in Ht by lia. done. }
  pose proof (land_pred_bit b k) as Hbit.
  destruct (IH (Z.land b (b - 1))) as [Hnd Hin].
  - apply bits_u64; [apply Z.land_nonneg; umach; lia|]. intros j Hj.
    by rewrite Z.land_spec, (u64_bits b).
  - lia.
  - intros i Hi. rewrite Hbit by (done || lia). destruct (Z.eqb_spec i k); simpl; [apply andb_false_r|].
    by rewrite Hl by lia.
  - split.
    + constructor; [|done]. rewrite Hin, Hbit by (done || lia). rewrite Z.eqb_refl, andb_false_r. by intros [].
    + intros i. rewrite elem_of_cons, Hin, Hbit by (done || lia).
      destruct (Z.eqb_spec i k) as [->|]; simpl; [|rewrite andb_true_r].
      * split; [auto|]. intros _. by left.
      * split; [intros [|]; done|auto].
Qed.

Lemma bitmap_ids_all b : is_u64 b ->
  NoDup (bitmap_ids 64 b) /\
  (forall i, i ∈ bitmap_ids 64 b <-> 0 <= i < 64 /\ Z.testbit b i = true).
Proof. intros Hb. apply bitmap_ids_spec; [done|lia|lia]. Qed.

(** Picking: the first member of the set at or after [start], going round. *)
Lemma find_from_spec n : forall r start i,
  0 <= i -> 0 <= start ->
  let id := find_from n r start i in
  (id = -1 /\ forall e, i <= e < i + Z.of_nat n -> Z.testbit r ((start + e) mod 64) = false) \/
  (exists d, i <= d < i + Z.of_nat n /\ id = (start + d) mod 64 /\ Z.testbit r id = true /\
     forall e, i <= e < d -> Z.testbit r ((start + e) mod 64) = false).
Proof.
  induction n as [|n IH]; intros r start i Hi Hs; cbn [find_from]; [left; split; [done|lia]|].
  unfold VM_SCHED_MAX_VMS.
  assert (0 <= (start + i) mod 64 < 64) by (apply Z.mod_pos_bound; lia).
  rewrite bm_test_spec by lia. destruct (Z.testbit r ((start + i) mod 64)) eqn:Ht.
  - right. exists i. split_and!; [lia..|done|done|lia].
  - destruct (IH r start (i + 1) ltac:(lia) Hs) as [[E Hf]|(d & Hd & E & Hb & Hf)].
    + left. split; [done|]. intros e He. destruct (Z.eqb_spec e i) as [->|]; [done|]. apply Hf. lia.
    + right. exists d. split; [lia|]. split; [done|]. split; [done|].
      intros e He. destruct (Z.eqb_spec e i) as [->|]; [done|]. apply Hf. lia.
Qed.

Lemma find_next_ready_spec r start :
  is_u64 r -> 0 <= start < 64 -> r <> 0 ->
  exists d, 0 <= d < 64 /\ find_next_ready r start = (start + d) mod 64 /\
    Z.testbit r ((start + d) mod 64) = true /\
    (forall e, 0 <= e < d -> Z.testbit r ((start + e) mod 64) = false).
Proof.
  intros Hr Hs Hne. unfold find_next_ready. rewrite (proj2 (Z.eqb_neq r 0)) by done.
  destruct (find_from_spec 64 r start 0) as [[_ Hf]|(d & Hd & E & Hb & Hf)]; [lia..| |].
  - destruct Hne. apply Z.bits_inj'. intros j Hj. rewrite Z.bits_0.
    destruct (Z.ltb_spec j 64); [|by apply u64_bits].
    specialize (Hf ((j - start) mod 64)).
    rewrite Zplus_mod_idemp_r in Hf. replace (start + (j - start)) with j in Hf by lia.
    rewrite (Z.mod_small j) in Hf by lia. apply Hf.
    assert (0 <= (j - start) mod 64 < 64) by (apply Z.mod_pos_bound; lia). lia.
  - exists d. unfold VM_SCHED_MAX_VMS. change (Z.to_nat 64) with 64%nat. rewrite E in Hb.
    split_and!; [lia..|done|done|]. intros e He. apply Hf. lia.
Qed.

(** ** Well-formed scheduler states *)

Lemma aget_aset a i j v : (0 <= i < Z.of_nat (length a)) -> 0 <= j ->
  aget (aset a i v) j = if decide (j = i) then v else aget a j.
Proof.
  intros Hi Hj. unfold aget, aset. rewrite !nth_lookup. case_decide.
  - subst. by rewrite list_lookup_insert_eq by lia.
  - by rewrite list_lookup_insert_ne by lia.
Qed.

Lemma aset_length a i v : length (aset a i v) = length a.
Proof. apply length_insert. Qed.

(** The number of slots in use. *)
Definition in_use (l : list Z) : Z := Z.of_nat (length (filter (fun p => p <> 0) l)).

Lemma in_use_insert l i p q :
  l !! i = Some p ->
  in_use (<[i := q]> l) =
  in_use l + (if decide (q = 0) then 0 else 1) - (if decide (p = 0) then 0 else 1).
Proof.
  intros Hp. pose proof (lookup_lt_Some _ _ _ Hp) as Hi. unfold in_use.
  rewrite insert_take_drop by done. rewrite <-(take_drop_middle l i p Hp) at 3.
  rewrite !filter_app, !length_app, !filter_cons.
  repeat case_decide; cbn [length]; try lia; tauto.
Qed.

Lemma in_use_bound l : 0 <= in_use l <= Z.of_nat (length l).
Proof. unfold in_use. pose proof (length_filter (fun p => p <> 0) l). lia. Qed.

Record sched_wf (s : VmSched) : Prop := {
  sw_len : length (vms s) = 64%nat /\ length (debt s) = 64%nat /\
    length (critical_section_consumed s) = 64%nat;
  sw_u32 : Forall is_u32 (debt s) /\ Forall is_u32 (critical_section_consumed s);
  sw_u64 : is_u64 (ready s) /\ is_u64 (blocked s);
  sw_disj : forall i, 0 <= i < 64 -> Z.testbit (ready s) i = true -> Z.testbit (blocked s) i = false;
  sw_ready : forall i, 0 <= i < 64 -> Z.testbit (ready s) i = true -> vm_at s i <> 0;
  sw_blocked : forall i, 0 <= i < 64 -> Z.testbit (blocked s) i = true -> vm_at s i <> 0;
  sw_cursor : 0 <= cursor s < 64;
  sw_count : registered_count s = in_use (vms s);
  sw_distinct : forall i j, 0 <= i < 64 -> 0 <= j < 64 -> vm_at s i <> 0 ->
    vm_at s i = vm_at s j -> i = j
}.

(** The CPUs in the slots are well-formed and carry their slot's number. *)
Record world_ok {S} (w : World S) : Prop := {
  wo_sched : sched_wf (w_sched w);
  wo_cpu : forall i, 0 <= i < 64 -> vm_at (w_sched w) i <> 0 ->
    cpu_wf (cpu_at w (vm_at (w_sched w) i)) /\ vm_id (cpu_at w (vm_at (w_sched w) i)) = i;
  wo_mem : mem_ok (w_mem w)
}.

Lemma sched_wf_sets s r b :
  sched_wf s -> is_u64 r -> is_u64 b ->
  (forall i, 0 <= i < 64 -> Z.testbit r i = true -> vm_at s i <> 0 /\ Z.testbit b i = false) ->
  (forall i, 0 <= i < 64 -> Z.testbit b i = true -> vm_at s i <> 0) ->
  sched_wf (set_sets s r b).
Proof. intros [] Hr Hb H1 H2. split; try done; intros i Hi Ht; by destruct (H1 i Hi Ht). Qed.

Lemma sched_wf_ready s id :
  sched_wf s -> 0 <= id < 64 -> vm_at s id <> 0 ->
  sched_wf (set_sets s (bm_set (ready s) id) (bm_clear (blocked s) id)).
Proof.
  intros Hs Hid Hp. destruct (sw_u64 _ Hs) as [Hr Hb].
  apply sched_wf_sets; [done|by apply bm_set_u64|by apply bm_clear_u64| |].
  - intros i Hi. rewrite bm_set_bit, bm_clear_bit by lia.
    destruct (Z.eqb_spec id i) as [<-|Hne]; [by rewrite Z.eqb_refl, andb_false_r|].
    rewrite orb_false_r. intros Ht. split; [by apply (sw_ready _ Hs)|]. by rewrite (sw_disj _ Hs).
  - intros i Hi. rewrite bm_clear_bit by lia. intros [Ht _]%andb_prop. by apply (sw_blocked _ Hs).
Qed.

Lemma sched_wf_drop s id :
  sched_wf s -> 0 <= id < 64 ->
  sched_wf (set_sets s (bm_clear (ready s) id) (bm_clear (blocked s) id)).
Proof.
  intros Hs Hid. destruct (sw_u64 _ Hs) as [Hr Hb].
  apply sched_wf_sets; [done|by apply bm_clear_u64..| |].
  - intros i Hi. rewrite !bm_clear_bit by lia. intros [Ht _]%andb_prop.
    split; [by apply (sw_ready _ Hs)|]. by rewrite (sw_disj _ Hs).
  - intros i Hi. rewrite bm_clear_bit by lia. intros [Ht _]%andb_prop. by apply (sw_blocked _ Hs).
Qed.

Lemma sched_wf_block s id :
  sched_wf s -> 0 <= id < 64 -> vm_at s id <> 0 ->
  sched_wf (set_sets s (bm_clear (ready s) id) (bm_set (blocked s) id)).
Proof.
  intros Hs Hid Hp. destruct (sw_u64 _ Hs) as [Hr Hb].
  apply sched_wf_sets; [done|by apply bm_clear_u64|by apply bm_set_u64| |].
  - intros i Hi. rewrite bm_set_bit, bm_clear_bit by lia. rewrite (Z.eqb_sym id).
    intros [Ht Hne]%andb_prop. split; [by apply (sw_ready _ Hs)|].
    rewrite (sw_disj _ Hs) by done. by destruct (i =? id).
  - intros i Hi. rewrite bm_set_bit by lia. destruct (Z.eqb_spec id i) as [<-|Hne]; [done|].
    rewrite orb_false_r. by apply (sw_blocked _ Hs).
Qed.

Lemma aget_u32 a i : Forall is_u32 a -> is_u32 (aget a i).
Proof.
  intros Ha. unfold aget. rewrite nth_lookup. destruct (a !! Z.to_nat i) as [x|] eqn:E; [|done].
  by apply (proj1 (Forall_lookup _ _) Ha _ _ E).
Qed.

Lemma sched_wf_debt s i v : sched_wf s -> is_u32 v -> sched_wf (set_debt s i v).
Proof.
  intros [(? & ? & ?) [? ?]] Hv. split; try done.
  - cbn. by rewrite aset_length.
  - split; [by apply Forall_insert|done].
Qed.

Lemma sched_wf_consumed s i v : sched_wf s -> is_u32 v -> sched_wf (set_consumed s i v).
Proof.
  intros [(? & ? & ?) [? ?]] Hv. split; try done.
  - cbn. by rewrite aset_length.
  - split; [done|by apply Forall_insert].
Qed.

Lemma sched_wf_counters s i : sched_wf s -> sched_wf (clear_slot_counters s i).
Proof. intros. by apply sched_wf_consumed; [apply sched_wf_debt|]. Qed.

Lemma sched_wf_tick s t : sched_wf s -> sched_wf (set_tick s t).
Proof. by intros []. Qed.

Lemma sched_wf_totals s q n t : sched_wf s -> sched_wf (set_totals s q n t).
Proof. by intros []. Qed.

Lemma sched_wf_cursor s v : sched_wf s -> 0 <= v < 64 -> sched_wf (set_cursor s v).
Proof. by intros [] ?. Qed.

Lemma vm_at_zero i : vm_at zero_sched i = 0.
Proof.
  unfold vm_at, aget. cbn [vms zero_sched]. rewrite nth_lookup.
  destruct (replicate 64 0 !! Z.to_nat i) eqn:E; [|done]. by apply lookup_replicate in E as [-> _].
Qed.

Lemma sched_wf_zero : sched_wf zero_sched.
Proof.
  split; try done; [by split; apply Forall_replicate|..].
  - intros i _. cbn. by rewrite Z.bits_0.
  - intros i _. cbn. by rewrite Z.bits_0.
  - intros i _. cbn. by rewrite Z.bits_0.
  - intros i j _ _. by rewrite vm_at_zero.
Qed.

Create HintDb sched discriminated.
#[export] Hint Resolve sched_wf_counters sched_wf_tick
  sched_wf_totals sched_wf_cursor sched_wf_drop : sched.

(** Filling a free slot and emptying a used one. *)
Lemma vm_at_slot s i p n j :
  sched_wf s -> 0 <= i < 64 -> 0 <= j ->
  vm_at (set_slot s i p n) j = if decide (j = i) then p else vm_at s j.
Proof.
  intros Hs Hi Hj. destruct (sw_len _ Hs) as [Hl _].
  unfold vm_at. cbn [vms set_slot]. by apply aget_aset; lia.
Qed.

Lemma vm_at_lookup s i : sched_wf s -> 0 <= i < 64 -> vms s !! Z.to_nat i = Some (vm_at s i).
Proof.
  intros Hs Hi. destruct (sw_len _ Hs) as [Hl _].
  destruct (lookup_lt_is_Some_2 (vms s) (Z.to_nat i) ltac:(lia)) as [x Hx].
  rewrite Hx. f_equal. unfold vm_at, aget. by rewrite nth_lookup, Hx.
Qed.

Lemma registered_bound s : sched_wf s -> 0 <= registered_count s <= 64.
Proof.
  intros Hs. rewrite (sw_count _ Hs). pose proof (in_use_bound (vms s)).
  destruct (sw_len _ Hs) as [Hl _]. lia.
Qed.

Lemma sched_wf_take s i p :
  sched_wf s -> 0 <= i < 64 -> vm_at s i = 0 -> p <> 0 ->
  (forall j, 0 <= j < 64 -> vm_at s j <> p) ->
  sched_wf (clear_slot_counters
    (set_sets (set_slot s i p (u16 (registered_count s + 1))) (bm_set (ready s) i) (blocked s)) i).
Proof.
  intros Hs Hi H0 Hp Hnew. apply sched_wf_counters.
  pose proof (vm_at_slot s i p (u16 (registered_count s + 1))) as Hat.
  assert (forall j, 0 <= j < 64 -> vm_at s j <> 0 ->
    vm_at (set_slot s i p (u16 (registered_count s + 1))) j <> 0) as Hstay.
  { intros j Hj Hne. rewrite Hat by (done || lia). by case_decide. }
  pose proof Hs as [(Hl & Hl2 & Hl3) _ [Hr Hb] Hd Hrd Hbl Hc Hn Hi2].
  split; try done.
  - cbn. by rewrite aset_length.
  - apply Hs.
  - split; [by apply bm_set_u64|done].
  - cbn [ready blocked set_sets]. intros j Hj. rewrite bm_set_bit by lia.
    destruct (Z.eqb_spec i j) as [<-|]; [|rewrite orb_false_r; by apply Hd].
    intros _. destruct (Z.testbit (blocked s) i) eqn:E; [|done]. by apply Hbl in E.
  - cbn [ready set_sets]. intros j Hj. rewrite bm_set_bit by lia. change (vm_at (set_sets ?x _ _) j) with (vm_at x j).
    destruct (Z.eqb_spec i j) as [<-|]; [|rewrite orb_false_r; auto].
    intros _. rewrite Hat by (done || lia). by rewrite decide_True.
  - intros j Hj Hb'. apply Hstay; [done|]. by apply Hbl.
  - cbn [vms registered_count set_sets set_slot]. unfold aset.
    rewrite (in_use_insert _ _ _ _ (vm_at_lookup s i Hs Hi)), H0.
    rewrite decide_False, decide_True by done. pose proof (registered_bound s Hs).
    rewrite u16_small by (umach; lia). lia.
  - intros j k Hj Hk. change (vm_at (set_sets ?x _ _) j) with (vm_at x j).
    change (vm_at (set_sets ?x _ _) k) with (vm_at x k).
    rewrite !Hat by (done || lia). repeat case_decide; subst; try done.
    + intros _ E. by destruct (Hnew k Hk).
    + intros _ E. by destruct (Hnew j Hj).
    + auto.
Qed.

Lemma sched_wf_remove s i :
  sched_wf s -> 0 <= i < 64 -> vm_at s i <> 0 ->
  sched_wf (clear_slot_counters
    (set_sets (set_slot s i 0 (registered_count s - 1)) (bm_clear (ready s) i)
       (bm_clear (blocked s) i)) i).
Proof.
  intros Hs Hi Hp. apply sched_wf_counters.
  pose proof (fun j => vm_at_slot s i 0 (registered_count s - 1) j Hs Hi) as Hat.
  destruct (sw_len _ Hs) as (Hl & Hl2 & Hl3). destruct (sw_u64 _ Hs) as [Hr Hb].
  assert (Hbits : forall b j, 0 <= j < 64 ->
    (Z.testbit b j = true -> vm_at s j <> 0) ->
    Z.testbit (bm_clear b i) j = true -> vm_at (set_slot s i 0 (registered_count s - 1)) j <> 0).
  { intros b j Hj Hbj. rewrite bm_clear_bit, Hat by lia.
    intros [Ht Hne%negb_true_iff%Z.eqb_neq]%andb_prop. rewrite decide_False by done. auto. }
  split.
  - cbn. by rewrite aset_length.
  - apply Hs.
  - split; by apply bm_clear_u64.
  - cbn [ready blocked set_sets]. intros j Hj. rewrite !bm_clear_bit by lia.
    intros [Ht _]%andb_prop. by rewrite (sw_disj _ Hs).
  - cbn [ready set_sets]. intros j Hj. apply Hbits; [done|]. by apply (sw_ready _ Hs).
  - cbn [blocked set_sets]. intros j Hj. apply Hbits; [done|]. by apply (sw_blocked _ Hs).
  - apply Hs.
  - cbn [vms registered_count set_sets set_slot]. unfold aset.
    rewrite (in_use_insert _ _ _ _ (vm_at_lookup s i Hs Hi)).
    rewrite decide_True, decide_False by done. rewrite (sw_count _ Hs). lia.
  - intros j k Hj Hk. change (vm_at (set_sets ?x _ _) j) with (vm_at x j).
    change (vm_at (set_sets ?x _ _) k) with (vm_at x k). rewrite !Hat by lia.
    repeat case_decide; subst; try done. by apply (sw_distinct _ Hs).
Qed.

(** ** Well-formed worlds *)

Lemma set_a0_wf c v : cpu_wf c -> is_u32 v -> cpu_wf (set_reg c VM_REG_A0 v).
Proof.
  intros W Hv. destruct (set_reg_wf c VM_REG_A0 v W Hv) as [Hl Hr].
  pose proof (wf_len _ W) as Hlen. unfold VM_GP_REGS in *.
  split; try apply W; try done.
  transitivity (reg c 0); [|apply W]. unfold reg, set_reg. cbn [regs set_regs]. rewrite !nth_lookup.
  by rewrite list_lookup_insert_ne by done.
Qed.

Lemma cpu_wf_host c c' :
  cpu_wf c -> regs c' = regs c -> pc c' = pc c -> instructions_retired c' = instructions_retired c ->
  vm_id c' = vm_id c -> cpu_wf c'.
Proof. intros W Hr Hp Hi Hv. apply (cpu_wf_same c); rewrite ?Hp, ?Hi; try done; apply W. Qed.

Lemma unblock_wf c a0 : cpu_wf c -> cpu_wf (unblock c a0).
Proof. intros W. apply set_a0_wf; [by apply (cpu_wf_host c)|auto with mach]. Qed.

Section world.
Context {S : Type}.
Implicit Types w : World S.

Lemma world_ok_put w p c :
  world_ok w -> cpu_wf c -> vm_id c = vm_id (cpu_at w p) -> world_ok (put_cpu w p c).
Proof.
  intros [Hs Hc Hm] W Hid. split; try done. intros i Hi Hp.
  destruct (Hc i Hi Hp) as [W' Hid']. cbn [put_cpu cpu_at world_store w_cpus w_sched] in *.
  destruct (decide (p = vm_at (w_sched w) i)) as [->|]; [|done]. split; [done|congruence].
Qed.

Lemma world_ok_sched w s :
  world_ok w -> sched_wf s -> vms s = vms (w_sched w) -> world_ok (set_sched w s).
Proof.
  intros [Hs Hc Hm] Hs' Hv. split; [done| |done]. intros i Hi.
  unfold vm_at in *. cbn [set_sched w_sched]. rewrite Hv. by apply Hc.
Qed.

Lemma world_ok_mem w m : world_ok w -> mem_ok m -> world_ok (set_mem w m).
Proof. by intros []. Qed.

Lemma make_ready_ok w id :
  world_ok w -> 0 <= id < 64 -> vm_at (w_sched w) id <> 0 -> world_ok (make_ready w id).
Proof. intros Hw Hi Hp. apply world_ok_sched; [done| |done]. by apply sched_wf_ready; [apply Hw|..]. Qed.

Lemma drop_vm_ok w id : world_ok w -> 0 <= id < 64 -> world_ok (drop_vm w id).
Proof. intros Hw Hi. apply world_ok_sched; [done| |done]. apply sched_wf_drop; [apply Hw|done]. Qed.

(** A CPU in a slot, unblocked and made ready. *)
Lemma wake_ok w id c :
  world_ok w -> 0 <= id < 64 -> vm_at (w_sched w) id <> 0 ->
  cpu_wf c -> vm_id c = vm_id (cpu_at w (vm_at (w_sched w) id)) ->
  world_ok (make_ready (put_cpu w (vm_at (w_sched w) id) c) id).
Proof. intros. apply make_ready_ok; [by apply world_ok_put|done..]. Qed.

Lemma take_slot_ok w i cpu :
  world_ok w -> 0 <= i < 64 -> vm_at (w_sched w) i = 0 -> cpu <> 0 -> cpu_wf (cpu_at w cpu) ->
  (forall j, 0 <= j < 64 -> vm_at (w_sched w) j <> cpu) -> world_ok (take_slot w i cpu).
Proof.
  intros Hw Hi H0 Hcpu W Hnew. pose proof (wo_sched _ Hw) as Hs. split.
  - unfold take_slot. cbn [set_sched w_sched]. by apply sched_wf_take.
  - intros j Hj. unfold take_slot. cbn [set_sched w_sched]. unfold clear_slot_counters.
    change (vm_at (set_consumed ?x _ _) j) with (vm_at x j).
    change (vm_at (set_debt ?x _ _) j) with (vm_at x j).
    change (vm_at (set_sets ?x _ _) j) with (vm_at x j).
    rewrite vm_at_slot by (done || lia). cbn [cpu_at put_cpu world_store w_cpus set_sched].
    case_decide as E; [subst j|].
    + intros _. rewrite decide_True by done. split; [|done].
      destruct W. split; try done. unfold is_u16. cbn. lia.
    + intros Hne. rewrite decide_False by (intros Eq; by apply (Hnew j)).
      by apply Hw.
  - apply Hw.
Qed.

(** The loop of [vm_sched_register] takes the lowest free slot. *)
Lemma register_from_spec n : forall w i cpu,
  0 <= i -> i + Z.of_nat n = 64 ->
  let '(w', r) := register_from n w i cpu in
  (r = -1 /\ w' = w /\ forall j, i <= j < 64 -> vm_at (w_sched w) j <> 0) \/
  (i <= r < 64 /\ w' = take_slot w r cpu /\ vm_at (w_sched w) r = 0 /\
   forall j, i <= j < r -> vm_at (w_sched w) j <> 0).
Proof.
  induction n as [|n IH]; intros w i cpu H0 Hi; cbn [register_from].
  - left. split_and!; [done..|lia].
  - destruct (Z.eqb_spec (vm_at (w_sched w) i) 0) as [E|E].
    + right. split_and!; [lia..|done|done|lia].
    + specialize (IH w (i + 1) cpu ltac:(lia) ltac:(lia)).
      destruct (register_from n w (i + 1) cpu) as [w' r].
      destruct IH as [(-> & -> & Hj)|(Hr & -> & Hz & Hj)]; [left|right]; split_and!;
        try done; try lia; intros j Hj'; destruct (Z.eqb_spec j i) as [->|]; try done; apply Hj; lia.
Qed.

Lemma register_ok w cpu :
  world_ok w -> cpu_wf (cpu_at w cpu) -> (forall j, 0 <= j < 64 -> cpu <> 0 -> vm_at (w_sched w) j <> cpu) ->
  world_ok (vm_sched_register w cpu).1.
Proof.
  intros Hw W Hnew. unfold vm_sched_register. destruct (Z.eqb_spec cpu 0); [done|].
  pose proof (register_from_spec 64 w 0 cpu ltac:(lia) ltac:(lia)) as Hr.
  change (Z.to_nat VM_SCHED_MAX_VMS) with 64%nat.
  destruct (register_from 64 w 0 cpu) as [w' r].
  destruct Hr as [(_ & -> & _)|(Hr & -> & Hz & _)]; [done|]. apply take_slot_ok; auto.
Qed.

Lemma register_at_ok w cpu id :
  world_ok w -> cpu_wf (cpu_at w cpu) -> 0 <= id ->
  (forall j, 0 <= j < 64 -> cpu <> 0 -> vm_at (w_sched w) j <> cpu) ->
  world_ok (vm_sched_register_at w cpu id).1.
Proof.
  intros Hw W Hid Hnew. unfold vm_sched_register_at, VM_SCHED_MAX_VMS.
  destruct (Z.leb_spec 64 id); [done|]. destruct (Z.eqb_spec cpu 0); [done|].
  destruct (Z.eqb_spec (vm_at (w_sched w) id) 0); simpl; [|done]. apply take_slot_ok; auto.
Qed.

Lemma unregister_ok w id : world_ok w -> 0 <= id -> world_ok (vm_sched_unregister w id).
Proof.
  intros Hw Hid. pose proof (wo_sched _ Hw) as Hs. unfold vm_sched_unregister, VM_SCHED_MAX_VMS.
  destruct (Z.leb_spec 64 id); [done|]. destruct (Z.eqb_spec (vm_at (w_sched w) id) 0); [done|].
  assert (0 < registered_count (w_sched w)) as Hpos.
  { rewrite (sw_count _ Hs).
    pose proof (in_use_insert _ _ _ 0 (vm_at_lookup _ id Hs ltac:(lia))) as Hu.
    rewrite decide_True, decide_False in Hu by done.
    pose proof (in_use_bound (<[Z.to_nat id:=0]> (vms (w_sched w)))). lia. }
  rewrite (proj2 (Z.ltb_lt _ _)) by done. split.
  - by apply sched_wf_remove; [|lia|].
  - intros j Hj. cbn [set_sched w_sched]. unfold clear_slot_counters.
    change (vm_at (set_consumed ?x _ _) j) with (vm_at x j).
    change (vm_at (set_debt ?x _ _) j) with (vm_at x j).
    change (vm_at (set_sets ?x _ _) j) with (vm_at x j).
    rewrite vm_at_slot by (done || lia). case_decide; [done|]. by apply Hw.
  - apply Hw.
Qed.

Lemma wake_mailbox_ok w id a0 : world_ok w -> 0 <= id -> world_ok (vm_sched_wake_mailbox w id a0).1.
Proof.
  intros Hw Hid. unfold vm_sched_wake_mailbox, VM_SCHED_MAX_VMS.
  destruct (Z.leb_spec 64 id); [done|]. destruct (Z.eqb_spec (vm_at (w_sched w) id) 0); [done|].
  destruct (negb _); [done|]. destruct (negb _); [done|].
  destruct (wo_cpu _ Hw id ltac:(lia) ltac:(done)) as [W _].
  apply wake_ok; try done. by apply unblock_wf.
Qed.

Lemma wake_child_ok w id a0 : world_ok w -> 0 <= id -> world_ok (vm_sched_wake_child w id a0).1.
Proof.
  intros Hw Hid. unfold vm_sched_wake_child, VM_SCHED_MAX_VMS.
  destruct (Z.leb_spec 64 id); [done|]. destruct (Z.eqb_spec (vm_at (w_sched w) id) 0); [done|].
  destruct (negb _); [done|]. destruct (negb _); [done|].
  destruct (wo_cpu _ Hw id ltac:(lia) ltac:(done)) as [W _].
  apply wake_ok; try done. apply (cpu_wf_host (unblock (cpu_at w (vm_at (w_sched w) id)) a0)); try done.
  by apply unblock_wf.
Qed.

Lemma halt_ok w id : world_ok w -> 0 <= id -> world_ok (vm_sched_halt w id).
Proof.
  intros Hw Hid. unfold vm_sched_halt, VM_SCHED_MAX_VMS.
  destruct (Z.leb_spec 64 id); [done|]. destruct (Z.eqb_spec (vm_at (w_sched w) id) 0); [done|].
  destruct (wo_cpu _ Hw id ltac:(lia) ltac:(done)) as [W _].
  apply drop_vm_ok; [|lia]. apply world_ok_put; [done| |done]. by apply (cpu_wf_host (cpu_at w (vm_at (w_sched w) id))).
Qed.
End world.
