(* ===== verification/VmSchedWake.v ===== *)
(** Waking blocked VMs: the two loops over the blocked set of
    [src/vm/vm_sched.c] ([wake_expired_timeouts] and
    [vm_sched_wake_frame_consumed]) as one pass that wakes exactly the VMs whose
    wait is over. *)
From S2P Require Import Prelude HostMem VmCpu VmDecode VmExec VmSafety VmStep VmEcall VmSched.
From S2P Require Import VmSchedInv.

(** The scheduler but for the two sets. *)
Definition same_but_sets (s s' : VmSched) : Prop := set_sets s' 0 0 = set_sets s 0 0.

#[export] Instance same_but_sets_equiv : Equivalence same_but_sets.
Proof. unfold same_but_sets. split; [done|by intros ?|intros ? ? ?; congruence]. Qed.

Lemma same_but_sets_vms s s' : same_but_sets s s' -> vms s' = vms s.
Proof. unfold same_but_sets, set_sets. congruence. Qed.

Lemma same_but_sets_tick s s' : same_but_sets s s' -> global_tick s' = global_tick s.
Proof. unfold same_but_sets, set_sets. congruence. Qed.

Lemma same_but_sets_cursor s s' : same_but_sets s s' -> cursor s' = cursor s.
Proof. unfold same_but_sets, set_sets. congruence. Qed.

Section wake.
Context {S : Type}.
Implicit Types w : World S.

(** One visit of a loop that wakes a VM when [dec] gives its CPU a successor. *)
Definition wake_if (dec : VmCpu -> option VmCpu) (w : World S) (id : Z) : World S :=
  let cpu := vm_at (w_sched w) id in
  if cpu =? 0 then w else
  match dec (cpu_at w cpu) with
  | Some c => make_ready (put_cpu w cpu c) id
  | None => w
  end.

(** The successors are well-formed CPUs of the same VM. *)
Definition dec_ok (dec : VmCpu -> option VmCpu) : Prop :=
  forall c c', cpu_wf c -> dec c = Some c' -> cpu_wf c' /\ vm_id c' = vm_id c.

Lemma unblock_dec_ok (f : VmCpu -> option Z) : dec_ok (fun c => unblock c <$> f c).
Proof.
  intros c c' W. destruct (f c) as [a0|]; [|done]. intros [= <-]. split; [by apply unblock_wf|done].
Qed.

(** The CPU of a slot, before and after. *)
Definition slot_cpu (w : World S) (id : Z) : VmCpu := cpu_at w (vm_at (w_sched w) id).

(** What a pass over the slots in [P] does to slot [id]: [woken] by [dec], or the
    same as before. *)
Definition slot_woken (w' : World S) (id : Z) (c : VmCpu) : Prop :=
  Z.testbit (ready (w_sched w')) id = true /\ Z.testbit (blocked (w_sched w')) id = false /\
  slot_cpu w' id = c.

Definition slot_same (w w' : World S) (id : Z) : Prop :=
  Z.testbit (ready (w_sched w')) id = Z.testbit (ready (w_sched w)) id /\
  Z.testbit (blocked (w_sched w')) id = Z.testbit (blocked (w_sched w)) id /\
  slot_cpu w' id = slot_cpu w id.

Record wake_pass (dec : VmCpu -> option VmCpu) (P : Z -> Prop) (w w' : World S) : Prop := {
  wp_ok : world_ok w';
  wp_sched : same_but_sets (w_sched w) (w_sched w');
  wp_rest : w_mem w' = w_mem w /\ w_sys w' = w_sys w;
  wp_woken : forall id c, 0 <= id < 64 -> P id -> dec (slot_cpu w id) = Some c ->
    slot_woken w' id c;
  wp_kept : forall id, 0 <= id < 64 -> (P id -> dec (slot_cpu w id) = None) ->
    vm_at (w_sched w) id <> 0 -> slot_same w w' id
}.

Lemma wake_if_pass dec w id :
  dec_ok dec -> world_ok w -> 0 <= id < 64 -> vm_at (w_sched w) id <> 0 ->
  wake_pass dec (fun i => i = id) w (wake_if dec w id).
Proof.
  intros Hok Hw Hid Hp. unfold wake_if. rewrite (proj2 (Z.eqb_neq _ 0)) by done.
  fold (slot_cpu w id). destruct (dec (slot_cpu w id)) as [c|] eqn:Hd.
  - destruct (wo_cpu _ Hw id Hid Hp) as [W _]. destruct (Hok _ _ W Hd) as [W' Hv]. split.
    + by apply wake_ok.
    + done.
    + done.
    + intros i a1 Hi -> Hd'. unfold slot_woken, make_ready. cbn [set_sched w_sched ready blocked set_sets put_cpu world_store].
      rewrite bm_set_bit, bm_clear_bit, Z.eqb_refl, orb_true_r, andb_false_r by lia.
      split_and!; [done..|]. unfold slot_cpu. cbn. rewrite decide_True by done.
      unfold slot_cpu in *. congruence.
    + intros i Hi Hno Hpi.
      assert (i <> id) as Hne by (intros ->; by rewrite Hno in Hd).
      unfold slot_same, make_ready. cbn [set_sched w_sched ready blocked set_sets put_cpu world_store].
      rewrite bm_set_bit, bm_clear_bit by lia.
      rewrite (proj2 (Z.eqb_neq id i)), (proj2 (Z.eqb_neq i id)), orb_false_r, andb_true_r by lia.
      split_and!; [done..|]. unfold slot_cpu. cbn.
      change (vm_at (set_sets ?s _ _) i) with (vm_at s i).
      rewrite decide_False; [done|]. intros E. apply Hne. symmetry.
      by apply (sw_distinct _ (wo_sched _ Hw)).
  - split; try done. intros i a0 Hi -> Hd'. congruence.
Qed.

Lemma slot_cpu_kept dec P w w' id :
  wake_pass dec P w w' -> 0 <= id < 64 -> ~ P id -> vm_at (w_sched w) id <> 0 ->
  slot_cpu w' id = slot_cpu w id.
Proof. intros Hp Hid HP Hv. by apply (wp_kept _ _ _ _ Hp). Qed.

Lemma vm_at_pass dec P w w' id :
  wake_pass dec P w w' -> vm_at (w_sched w') id = vm_at (w_sched w) id.
Proof. intros Hp. unfold vm_at. by rewrite (same_but_sets_vms _ _ (wp_sched _ _ _ _ Hp)). Qed.

(** Two passes over disjoint slots are one. *)
Lemma wake_pass_trans dec (P Q : Z -> Prop) w w1 w2 :
  (forall i, P i -> 0 <= i < 64 /\ vm_at (w_sched w) i <> 0) ->
  (forall i, Q i -> 0 <= i < 64 /\ vm_at (w_sched w) i <> 0) ->
  (forall i, P i -> ~ Q i) -> (forall i, P i \/ ~ P i) -> (forall i, Q i \/ ~ Q i) ->
  wake_pass dec P w w1 -> wake_pass dec Q w1 w2 -> wake_pass dec (fun i => P i \/ Q i) w w2.
Proof.
  intros HP HQ Hdis decP decQ H1 H2. split.
  - apply H2.
  - etrans; [apply H1|apply H2].
  - destruct (wp_rest _ _ _ _ H1), (wp_rest _ _ _ _ H2). split; congruence.
  - intros i a0 Hi [Hpi|Hqi] Hd.
    + destruct (wp_woken _ _ _ _ H1 i a0 Hi Hpi Hd) as (Hr & Hb & Hc).
      destruct (wp_kept _ _ _ _ H2 i Hi) as (Hr' & Hb' & Hc').
      { intros Hq. by destruct (Hdis i Hpi). }
      { rewrite (vm_at_pass _ _ _ _ _ H1). by apply HP. }
      unfold slot_woken. split_and!; congruence.
    + assert (~ P i) as Hnp by (intros Hpi; by apply (Hdis i)).
      destruct (wp_kept _ _ _ _ H1 i Hi ltac:(done) (proj2 (HQ i Hqi))) as (_ & _ & Hc).
      destruct (wp_woken _ _ _ _ H2 i a0 Hi Hqi) as (Hr & Hb & Hc'); [congruence|].
      unfold slot_woken. split_and!; congruence.
  - intros i Hi Hno Hv.
    destruct (wp_kept _ _ _ _ H1 i Hi ltac:(auto) Hv) as (Hr & Hb & Hc).
    destruct (wp_kept _ _ _ _ H2 i Hi) as (Hr' & Hb' & Hc').
    { rewrite Hc. auto. }
    { by rewrite (vm_at_pass _ _ _ _ _ H1). }
    unfold slot_same. split_and!; congruence.
Qed.

Lemma wake_pass_iff dec (P Q : Z -> Prop) w w' :
  (forall i, P i <-> Q i) -> wake_pass dec P w w' -> wake_pass dec Q w w'.
Proof.
  intros HPQ []. split; try done.
  - intros. eapply wp_woken0; [done|by apply HPQ|done].
  - intros i Hi Hq. apply wp_kept0; [done|]. intros. by apply Hq, HPQ.
Qed.

Lemma wake_all_pass dec ids : dec_ok dec -> forall w,
  world_ok w -> NoDup ids -> (forall i, i ∈ ids -> 0 <= i < 64 /\ vm_at (w_sched w) i <> 0) ->
  wake_pass dec (fun i => i ∈ ids) w (foldl (wake_if dec) w ids).
Proof.
  intros Hok. induction ids as [|id ids IH]; intros w Hw Hnd Hin; cbn [foldl].
  { split; try done. by intros ? ? _ ?%elem_of_nil. }
  apply NoDup_cons in Hnd as [Hni Hnd]. destruct (Hin id ltac:(by left)) as [Hid Hp].
  pose proof (wake_if_pass dec w id Hok Hw Hid Hp) as H1.
  assert (Hrest : forall i, i ∈ ids -> 0 <= i < 64 /\ vm_at (w_sched w) i <> 0)
    by (intros i Hi; apply Hin; by right).
  eapply wake_pass_iff; [|apply (wake_pass_trans dec (fun i => i = id) (fun i => i ∈ ids) w (wake_if dec w id))].
  - intros i. by rewrite elem_of_cons.
  - intros i ->. by split.
  - done.
  - by intros i ->.
  - intros i. destruct (decide (i = id)); auto.
  - intros i. destruct (decide (i ∈ ids)); auto.
  - done.
  - apply IH; [apply H1|done|]. intros i Hi. rewrite (vm_at_pass _ _ _ _ _ H1). auto.
Qed.

(** ** The timeout loop *)

Definition timeout_wake (now : Z) (c : VmCpu) : option VmCpu :=
  unblock c <$> (timeout_decision now c).1.

Lemma wake_if_tick dec w id : global_tick (w_sched (wake_if dec w id)) = global_tick (w_sched w).
Proof. unfold wake_if. destruct (_ =? 0); [done|]. by destruct (dec _). Qed.

Lemma check_timeout_fst st id :
  (check_timeout st id).1 =
  wake_if (timeout_wake (global_tick (w_sched st.1))) st.1 id.
Proof.
  destruct st as [w d]. unfold check_timeout, wake_if, timeout_wake. cbn [fst].
  destruct (_ =? 0); [done|]. destruct (timeout_decision _ _) as [[a0|] x]; done.
Qed.

Lemma check_timeouts_fst t ids : forall (st : World S * Z),
  global_tick (w_sched st.1) = t ->
  (foldl check_timeout st ids).1 = foldl (wake_if (timeout_wake t)) st.1 ids.
Proof.
  induction ids as [|id ids IH]; intros st Ht; cbn [foldl]; [done|].
  rewrite IH, check_timeout_fst, Ht; [done|]. rewrite check_timeout_fst. by rewrite wake_if_tick.
Qed.

(** The running minimum of the deadlines. *)
Definition closer (d : Z) (x : option Z) : Z :=
  match x with Some x => if x <? d then x else d | None => d end.

Lemma check_timeouts_snd t ids : forall (w : World S) d,
  world_ok w -> NoDup ids -> (forall i, i ∈ ids -> 0 <= i < 64 /\ vm_at (w_sched w) i <> 0) ->
  global_tick (w_sched w) = t ->
  (foldl check_timeout (w, d) ids).2 =
  foldl closer d ((fun id => (timeout_decision t (slot_cpu w id)).2) <$> ids).
Proof.
  induction ids as [|id ids IH]; intros w d Hw Hnd Hin Ht; [done|].
  apply NoDup_cons in Hnd as [Hni Hnd]. destruct (Hin id ltac:(by left)) as [Hid Hp].
  pose proof (wake_if_pass (timeout_wake t) w id (unblock_dec_ok _) Hw Hid Hp) as Hpass.
  assert (Hrest : forall i, i ∈ ids -> 0 <= i < 64 /\ vm_at (w_sched w) i <> 0)
    by (intros i Hi; apply Hin; by right).
  rewrite fmap_cons. cbn [foldl].
  destruct (check_timeout (w, d) id) as [w1 d1] eqn:E.
  assert (w1 = wake_if (timeout_wake t) w id) as Hw1.
  { change w1 with (w1, d1).1. rewrite <-E, check_timeout_fst. cbn [fst]. by rewrite Ht. }
  assert (d1 = closer d (timeout_decision t (slot_cpu w id)).2) as ->.
  { revert E. unfold check_timeout. rewrite (proj2 (Z.eqb_neq _ 0)) by done.
    rewrite Ht. unfold slot_cpu.
    destruct (timeout_decision t _) as [[a0|] [x|]]; cbn; by intros [= _ <-]. }
  rewrite Hw1.
  rewrite IH.
  - f_equal. apply list_fmap_ext. intros k i Hi. f_equal. f_equal.
    apply list_elem_of_lookup_2 in Hi.
    apply (slot_cpu_kept _ _ _ _ _ Hpass); [by apply Hrest| |by apply Hrest].
    intros ->. done.
  - apply Hpass.
  - done.
  - intros i Hi. rewrite (vm_at_pass _ _ _ _ _ Hpass). auto.
  - by rewrite wake_if_tick.
Qed.

Lemma closer_min xs : forall d,
  let r := foldl closer d xs in
  r <= d /\ (forall x, Some x ∈ xs -> r <= x) /\ (r = d \/ Some r ∈ xs).
Proof.
  induction xs as [|x xs IH]; intros d; cbn [foldl].
  { split_and!; [lia|by intros ? ?%elem_of_nil|by left]. }
  destruct (IH (closer d x)) as (H1 & H2 & H3).
  assert (closer d x <= d /\ (forall y, x = Some y -> closer d x <= y) /\
    (closer d x = d \/ x = Some (closer d x))) as (Hc1 & Hc2 & Hc3).
  { destruct x as [y|]; cbn; [|split_and!; [lia|done|by left]].
    destruct (Z.ltb_spec y d); split_and!; try lia; try (by left); try (by right);
      intros ? [= <-]; lia. }
  split_and!; [lia| |].
  - intros y [Hy|Hy]%elem_of_cons; [|by apply H2]. specialize (Hc2 y (eq_sym Hy)). lia.
  - destruct H3 as [->|H3]; [|right; by right].
    destruct Hc3 as [->| E]; [by left|]. right. rewrite <-E. by left.
Qed.
End wake.

(** ** What ends a wait *)

(** The clock is past the deadline: by less than half its period, going round. *)
Definition past (now deadline : Z) : Prop := (now - deadline) mod 2 ^ 32 < 2 ^ 31.

(** The value a blocked CPU is woken with, when its wait is over. *)
Inductive due (now : Z) (c : VmCpu) : Z -> Prop :=
  | due_yielded : block_reason c = BLOCK_YIELDED -> due now c 0
  | due_none : block_reason c = BLOCK_NONE -> due now c 0
  | due_sleep : block_reason c = BLOCK_SLEEP -> past now (block_deadline c) -> due now c 0
  | due_timeout : block_reason c = BLOCK_MAILBOX_RECV -> block_deadline c <> 0 ->
      past now (block_deadline c) -> due now c (-110).

(** The ticks a blocked CPU still has to wait, when it waits for the clock. *)
Inductive waits (now : Z) (c : VmCpu) : Z -> Prop :=
  | waits_sleep : block_reason c = BLOCK_SLEEP -> ~ past now (block_deadline c) ->
      waits now c ((block_deadline c - now) mod 2 ^ 32)
  | waits_mailbox : block_reason c = BLOCK_MAILBOX_RECV -> block_deadline c <> 0 ->
      ~ past now (block_deadline c) -> waits now c ((block_deadline c - now) mod 2 ^ 32).

Lemma tick_reached_past now d : BoolSpec (past now d) (~ past now d) (tick_reached now d).
Proof.
  unfold tick_reached, past. destruct (Z.leb_spec 0 (s32 (u32 (now - d)))); constructor;
    change (2 ^ 32) with 0x100000000; change (2 ^ 31) with 0x80000000; zlia.
Qed.

Lemma decision_due now c a0 : (timeout_decision now c).1 = Some a0 <-> due now c a0.
Proof.
  unfold timeout_decision, VM_ETIMEDOUT. split.
  - destruct (block_reason c) eqn:Hr; try done; [intros [= <-]; by constructor..| |].
    + destruct (Z.eqb_spec (block_deadline c) 0); [done|].
      destruct (tick_reached_past now (block_deadline c)); [|done]. intros [= <-]. by constructor.
    + destruct (tick_reached_past now (block_deadline c)); [|done]. intros [= <-]. by constructor.
  - intros []; rewrite H; try done.
    + by destruct (tick_reached_past now (block_deadline c)).
    + rewrite (proj2 (Z.eqb_neq _ 0)) by done. by destruct (tick_reached_past now (block_deadline c)).
Qed.

Lemma decision_waits now c x : (timeout_decision now c).2 = Some x <-> waits now c x.
Proof.
  unfold timeout_decision. split.
  - destruct (block_reason c) eqn:Hr; try done.
    + destruct (Z.eqb_spec (block_deadline c) 0); [done|].
      destruct (tick_reached_past now (block_deadline c)); [done|]. intros [= <-]. by constructor.
    + destruct (tick_reached_past now (block_deadline c)); [done|]. intros [= <-]. by constructor.
  - intros []; rewrite H; try (rewrite (proj2 (Z.eqb_neq _ 0)) by done);
      by destruct (tick_reached_past now (block_deadline c)).
Qed.

Section frame.
Context {S : Type}.
Implicit Types w : World S.

(** ** The loop over the frame waiters *)

Definition frame_wake (now_consumed : Z) (c : VmCpu) : option VmCpu :=
  unblock c <$>
  (if bool_decide (block_reason c = BLOCK_FRAME_CONSUMED) && (block_deadline c <=? now_consumed)
   then Some 0 else None).

Lemma wake_frame_fst n (st : World S * Z) id :
  (wake_frame_waiter n st id).1 = wake_if (frame_wake n) st.1 id.
Proof.
  destruct st as [w k]. unfold wake_frame_waiter, wake_if, frame_wake. cbn [fst].
  destruct (_ =? 0); [done|]. destruct (bool_decide _); cbn; [|done]. by destruct (_ <=? n).
Qed.

Lemma wake_frames_fst n ids : forall (st : World S * Z),
  (foldl (wake_frame_waiter n) st ids).1 = foldl (wake_if (frame_wake n)) st.1 ids.
Proof.
  induction ids as [|id ids IH]; intros st; cbn [foldl]; [done|]. by rewrite IH, wake_frame_fst.
Qed.

(** The blocked set is the set of slots that both loops visit. *)
Lemma blocked_ids w :
  world_ok w ->
  NoDup (bitmap_ids 64 (blocked (w_sched w))) /\
  (forall i, i ∈ bitmap_ids 64 (blocked (w_sched w)) <->
     0 <= i < 64 /\ Z.testbit (blocked (w_sched w)) i = true) /\
  (forall i, i ∈ bitmap_ids 64 (blocked (w_sched w)) -> 0 <= i < 64 /\ vm_at (w_sched w) i <> 0).
Proof.
  intros Hw. pose proof (wo_sched _ Hw) as Hs.
  destruct (bitmap_ids_all _ (proj2 (sw_u64 _ Hs))) as [Hnd Hin]. split_and!; [done|done|].
  intros i [Hi Ht]%Hin. split; [done|]. by apply (sw_blocked _ Hs).
Qed.

Lemma wake_expired_pass w :
  world_ok w ->
  wake_pass (timeout_wake (global_tick (w_sched w)))
    (fun i => i ∈ bitmap_ids 64 (blocked (w_sched w))) w (wake_expired_timeouts w).1.
Proof.
  intros Hw. destruct (blocked_ids w Hw) as (Hnd & _ & Hin). unfold wake_expired_timeouts.
  rewrite (check_timeouts_fst (global_tick (w_sched w))) by done. cbn [fst].
  apply wake_all_pass; [apply unblock_dec_ok|done..].
Qed.

Lemma wake_expired_ok w : world_ok w -> world_ok (wake_expired_timeouts w).1.
Proof. intros Hw. apply (wake_expired_pass w Hw). Qed.

Lemma wake_frame_pass w n :
  world_ok w ->
  wake_pass (frame_wake n) (fun i => i ∈ bitmap_ids 64 (blocked (w_sched w))) w
    (vm_sched_wake_frame_consumed w n).1.
Proof.
  intros Hw. destruct (blocked_ids w Hw) as (Hnd & _ & Hin). unfold vm_sched_wake_frame_consumed.
  rewrite wake_frames_fst. cbn [fst]. apply wake_all_pass; [apply unblock_dec_ok|done..].
Qed.
End frame.

(** ** Properties *)

(** Deadlines survive the clock's wrap-around: for a deadline and a clock that
    are less than 2^31 ticks apart, however often the 32-bit counter has wrapped,
    [tick_reached] on the 32-bit values says whether the clock has reached the
    deadline. *)
Theorem deadline_wraps now deadline :
  - 2 ^ 31 <= now - deadline < 2 ^ 31 ->
  tick_reached (u32 now) (u32 deadline) = (deadline <=? now).
Proof.
  intros H. change (2 ^ 31) with 0x80000000 in H. unfold tick_reached.
  rewrite u32_sub, s32_u32. assert (s32 (now - deadline) = now - deadline) as -> by zlia.
  destruct (Z.leb_spec 0 (now - deadline)), (Z.leb_spec deadline now); lia.
Qed.

(** Timeout housekeeping wakes exactly the VMs whose wait is over: a blocked VM
    that yielded, or whose sleep or timed receive is past its deadline, becomes
    ready with the wait cleared and the documented value in [a0] (0, or -ETIMEDOUT
    for a receive); every other VM, its CPU and its place in the two sets stay as
    they were, as do memory, slots, debts and the clock.  The number returned is the
    shortest remaining wait, or UINT32_MAX when no VM waits for the clock. *)
Theorem wake_expired_correct {S} (w : World S) :
  world_ok w ->
  let now := global_tick (w_sched w) in
  let waiting id := 0 <= id < 64 /\ Z.testbit (blocked (w_sched w)) id = true in
  let '(w', delta) := wake_expired_timeouts w in
  world_ok w' /\ same_but_sets (w_sched w) (w_sched w') /\
  w_mem w' = w_mem w /\ w_sys w' = w_sys w /\
  (forall id a0, waiting id -> due now (slot_cpu w id) a0 -> slot_woken w' id (unblock (slot_cpu w id) a0)) /\
  (forall id, 0 <= id < 64 -> vm_at (w_sched w) id <> 0 ->
     (waiting id -> forall a0, ~ due now (slot_cpu w id) a0) -> slot_same w w' id) /\
  (forall id t, waiting id -> waits now (slot_cpu w id) t -> delta <= t) /\
  (delta = UINT32_MAX \/ exists id, waiting id /\ waits now (slot_cpu w id) delta).
Proof.
  intros Hw now waiting. destruct (blocked_ids w Hw) as (Hnd & Hiff & Hin).
  unfold wake_expired_timeouts. revert Hnd Hiff Hin.
  generalize (bitmap_ids 64 (blocked (w_sched w))). intros ids Hnd Hiff Hin.
  pose proof (check_timeouts_snd now ids w UINT32_MAX Hw Hnd Hin eq_refl) as Hd.
  pose proof (wake_all_pass _ ids (unblock_dec_ok (fun c => (timeout_decision now c).1)) w Hw Hnd Hin) as Hp.
  fold (timeout_wake now) in Hp.
  change w with (w, UINT32_MAX).1 in Hp at 2. rewrite <-(check_timeouts_fst now) in Hp by done.
  destruct (foldl check_timeout (w, UINT32_MAX) ids) as [w' delta]. cbn [fst snd] in *.
  match type of Hd with _ = foldl closer _ ?xs => destruct (closer_min xs UINT32_MAX) as (_ & Hle & Hex) end.
  rewrite <-Hd in *. destruct (wp_rest _ _ _ _ Hp).
  split_and!; [apply Hp|apply Hp|done|done| | | |].
  - intros id a0 [Hi Hb] Hdue. apply (wp_woken _ _ _ _ Hp); [done|by apply Hiff|].
    unfold timeout_wake. fold now. apply decision_due in Hdue. by rewrite Hdue.
  - intros id Hi Hv Hno. apply (wp_kept _ _ _ _ Hp); [done| |done]. intros Hb%Hiff.
    unfold timeout_wake. destruct (timeout_decision _ _).1 as [a0|] eqn:E; [|done].
    apply decision_due in E. by destruct (Hno Hb a0).
  - intros id t Hb Ht. apply Hle, list_elem_of_fmap. exists id.
    split; [|by apply Hiff]. symmetry. by apply decision_waits.
  - destruct Hex as [->|Hex]; [by left|right].
    apply list_elem_of_fmap in Hex as (id & E & Hi%Hiff). exists id.
    split; [done|]. by apply decision_waits.
Qed.

(** The shape of the two event wake-ups: guards, then one slot woken by [f]. *)
Definition wake_guarded {S} (r : VmBlockReason) (f : VmCpu -> VmCpu) (w : World S) (id : Z)
    : World S * bool :=
  if VM_SCHED_MAX_VMS <=? id then (w, false) else
  if vm_at (w_sched w) id =? 0 then (w, false) else
  if negb (bool_decide (block_reason (slot_cpu w id) = r)) then (w, false) else
  if negb (bm_test (blocked (w_sched w)) id) then (w, false) else
  (make_ready (put_cpu w (vm_at (w_sched w) id) (f (slot_cpu w id))) id, true).

Lemma wake_guarded_spec {S} (w : World S) id r f :
  (forall c, cpu_wf c -> cpu_wf (f c) /\ vm_id (f c) = vm_id c) -> world_ok w -> 0 <= id ->
  let blocked_for := id < 64 /\ Z.testbit (blocked (w_sched w)) id = true /\
    block_reason (slot_cpu w id) = r in
  let '(w', ok) := wake_guarded r f w id in
  if ok then blocked_for /\ world_ok w' /\ same_but_sets (w_sched w) (w_sched w') /\
    slot_woken w' id (f (slot_cpu w id)) /\
    (forall j, 0 <= j < 64 -> j <> id -> vm_at (w_sched w) j <> 0 -> slot_same w w' j)
  else ~ blocked_for /\ w' = w.
Proof.
  intros Hf Hw Hid blocked_for. unfold wake_guarded, VM_SCHED_MAX_VMS.
  destruct (Z.leb_spec 64 id). { split; [|done]. intros []. lia. }
  destruct (Z.eqb_spec (vm_at (w_sched w) id) 0) as [E|E].
  { split; [|done]. intros (? & Hb & _). by apply (sw_blocked _ (wo_sched _ Hw)) in Hb. }
  case_bool_decide as Hr; cbn [negb]; [|split; [by intros (_ & _ & ?)|done]].
  rewrite bm_test_spec by done.
  destruct (Z.testbit (blocked (w_sched w)) id) eqn:Hb; cbn [negb].
  2: { split; [|done]. intros (_ & Hb' & _). congruence. }
  split; [done|].
  assert (wake_if (fun c => Some (f c)) w id =
    make_ready (put_cpu w (vm_at (w_sched w) id) (f (slot_cpu w id))) id) as <-.
  { unfold wake_if. by rewrite (proj2 (Z.eqb_neq _ 0)). }
  assert (dec_ok (fun c => Some (f c))) as Hok by (intros c c' W [= <-]; auto).
  pose proof (wake_if_pass _ w id Hok Hw ltac:(lia) E) as Hpass.
  split_and!; [apply Hpass|apply Hpass|by apply (wp_woken _ _ _ _ Hpass); [lia|..]|].
  intros j Hj Hne Hv. apply (wp_kept _ _ _ _ Hpass); [done| |done]. congruence.
Qed.

(** Event wake-ups are exact.  Waking a VM for its mailbox or for its child
    succeeds precisely when the id is a registered VM blocked for that reason; it is
    then ready with [a0] delivered and every other VM as before; otherwise nothing
    at all changes. *)
Theorem wake_event_correct {S} (w : World S) id a0 :
  world_ok w -> 0 <= id ->
  let blocked_for r := id < 64 /\ Z.testbit (blocked (w_sched w)) id = true /\
    block_reason (slot_cpu w id) = r in
  let woken w' c := world_ok w' /\ same_but_sets (w_sched w) (w_sched w') /\
    slot_woken w' id c /\
    (forall j, 0 <= j < 64 -> j <> id -> vm_at (w_sched w) j <> 0 -> slot_same w w' j) in
  (let '(w', ok) := vm_sched_wake_mailbox w id a0 in
   if ok then blocked_for BLOCK_MAILBOX_RECV /\ woken w' (unblock (slot_cpu w id) a0)
   else ~ blocked_for BLOCK_MAILBOX_RECV /\ w' = w) /\
  (let '(w', ok) := vm_sched_wake_child w id a0 in
   if ok then blocked_for BLOCK_ON_CHILD /\
     woken w' (set_child (unblock (slot_cpu w id) a0) UINT16_MAX)
   else ~ blocked_for BLOCK_ON_CHILD /\ w' = w).
Proof.
  intros Hw Hid blocked_for woken. split.
  - apply (wake_guarded_spec w id BLOCK_MAILBOX_RECV (fun c => unblock c a0)); [|done..].
    intros c W. split; [by apply unblock_wf|done].
  - apply (wake_guarded_spec w id BLOCK_ON_CHILD (fun c => set_child (unblock c a0) UINT16_MAX));
      [|done..].
    intros c W. split; [|done]. by apply (cpu_wf_host (unblock c a0)); [apply unblock_wf|..].
Qed.

(** ** A receiver that times out *)

(** One VM, in slot 0, blocked on its mailbox until tick 90; the clock shows 100. *)
Definition receiver : VmCpu := set_block demo_cpu BLOCK_MAILBOX_RECV 90.
Definition ready_world : World unit :=
  (vm_sched_register (mkWorld (set_tick zero_sched 100) (fun _ => receiver) (fun _ => 0) tt) 8).1.
Definition receiver_world : World unit := set_sched ready_world (set_sets (w_sched ready_world) 0 1).

Lemma ready_world_ok : world_ok ready_world.
Proof.
  assert (cpu_wf receiver) as W by (by apply (cpu_wf_host demo_cpu); [apply demo_cpu_wf|..]).
  apply register_ok; [|exact W|].
  - split; [apply sched_wf_tick, sched_wf_zero| |by intros x]. intros i _. cbn [w_sched].
    change (vm_at (set_tick zero_sched 100) i) with (vm_at zero_sched i). by rewrite vm_at_zero.
  - intros j _ _. cbn [w_sched].
    change (vm_at (set_tick zero_sched 100) j) with (vm_at zero_sched j). by rewrite vm_at_zero.
Qed.

Lemma receiver_world_ok : world_ok receiver_world.
Proof.
  destruct ready_world_ok as [Hs Hc Hm]. split; [|exact Hc|exact Hm].
  apply sched_wf_sets; [exact Hs|by vm_compute|by vm_compute| |].
  - intros i _. by rewrite Z.bits_0.
  - intros i Hi Ht. destruct (decide (i = 0)) as [->|Hne]; [by vm_compute|].
    rewrite Z.bits_above_log2 in Ht; [done|lia|cbn; lia].
Qed.

Lemma deadline_wraps_witness :
  let now := 2 ^ 32 + 5 in let deadline := 2 ^ 32 - 7 in
  tick_reached (u32 now) (u32 deadline) = (deadline <=? now) /\ u32 now = 5.
Proof. split; [apply deadline_wraps; lia|reflexivity]. Defined.

Lemma wake_expired_correct_witness :
  let w := receiver_world in
  let now := global_tick (w_sched w) in
  let waiting id := 0 <= id < 64 /\ Z.testbit (blocked (w_sched w)) id = true in
  let '(w', delta) := wake_expired_timeouts w in
  world_ok w' /\ same_but_sets (w_sched w) (w_sched w') /\
  w_mem w' = w_mem w /\ w_sys w' = w_sys w /\
  (forall id a0, waiting id -> due now (slot_cpu w id) a0 -> slot_woken w' id (unblock (slot_cpu w id) a0)) /\
  (forall id, 0 <= id < 64 -> vm_at (w_sched w) id <> 0 ->
     (waiting id -> forall a0, ~ due now (slot_cpu w id) a0) -> slot_same w w' id) /\
  (forall id t, waiting id -> waits now (slot_cpu w id) t -> delta <= t) /\
  (delta = UINT32_MAX \/ exists id, waiting id /\ waits now (slot_cpu w id) delta).
Proof. exact (wake_expired_correct receiver_world receiver_world_ok). Defined.

Lemma wake_event_correct_witness :
  let w := receiver_world in
  let blocked_for r := 0 < 64 /\ Z.testbit (blocked (w_sched w)) 0 = true /\
    block_reason (slot_cpu w 0) = r in
  let woken w' c := world_ok w' /\ same_but_sets (w_sched w) (w_sched w') /\
    slot_woken w' 0 c /\
    (forall j, 0 <= j < 64 -> j <> 0 -> vm_at (w_sched w) j <> 0 -> slot_same w w' j) in
  (let '(w', ok) := vm_sched_wake_mailbox w 0 12 in
   if ok then blocked_for BLOCK_MAILBOX_RECV /\ woken w' (unblock (slot_cpu w 0) 12)
   else ~ blocked_for BLOCK_MAILBOX_RECV /\ w' = w) /\
  (let '(w', ok) := vm_sched_wake_child w 0 12 in
   if ok then blocked_for BLOCK_ON_CHILD /\
     woken w' (set_child (unblock (slot_cpu w 0) 12) UINT16_MAX)
   else ~ blocked_for BLOCK_ON_CHILD /\ w' = w).
Proof. exact (wake_event_correct receiver_world 0 12 receiver_world_ok ltac:(lia)). Defined.
