(* ===== verification/VmSchedStep.v ===== *)
(** One scheduling decision ([vm_sched_step]) and the driver ([vm_sched_run]): a
    world stays well-formed under every operation and callback, the loop inside a
    decision ends, ready VMs are served in turn, and the quantum a VM gets. *)
From S2P Require Import Prelude HostMem VmCpu VmDecode VmExec VmSafety VmStep VmEcall VmSched.
From S2P Require Import VmSchedInv VmSchedWake.

(** ** What the host's callbacks owe the scheduler

    The clock only reads; a system call and a trap handler keep the world
    well-formed and leave the VM they run for in its slot. *)
Record callbacks_ok {S} (cfg : VmSchedConfig S) : Prop := {
  cb_quantum : 0 < baseline_quantum cfg < 2 ^ 32;
  cb_tick : forall f w, tick_source cfg = Some f ->
    let w' := (f (tick_source_userdata cfg) w).1 in
    w_sched w' = w_sched w /\ w_mem w' = w_mem w /\ forall p, cpu_at w' p = cpu_at w p;
  cb_ecall : forall w id, world_ok w -> 0 <= id < 64 -> vm_at (w_sched w) id <> 0 ->
    let w' := dispatch_ecall cfg w (vm_at (w_sched w) id) in
    world_ok w' /\ vm_at (w_sched w') id = vm_at (w_sched w) id;
  cb_trap : forall h w id, trap_handler cfg = Some h ->
    world_ok w -> 0 <= id < 64 -> vm_at (w_sched w) id <> 0 ->
    let w' := (h (vm_at (w_sched w) id) (system cfg) w).1 in
    world_ok w' /\ vm_at (w_sched w') id = vm_at (w_sched w) id;
  cb_idle : forall h d w, idle_handler cfg = Some h -> world_ok w -> world_ok (h d (system cfg) w)
}.

(** ** A quantum on a well-formed CPU *)

Lemma vm_step_ok c m budget :
  cpu_wf c -> mem_ok m -> 0 <= budget ->
  let '(r, c', m', n) := vm_step c m budget in
  cpu_wf c' /\ mem_ok m' /\ same_host_state c c' /\ 0 <= n <= budget /\
  match r with
  | VM_STEP_QUANTUM_EXPIRED => halted c = false /\ n = budget
  | VM_STEP_ECALL => halted c = false /\ n < budget
  | VM_STEP_TRAPPED => True
  | VM_STEP_HALTED => halted c = true
  end.
Proof.
  intros W Hm Hb. destruct (halted c) eqn:Hh.
  - unfold vm_step. rewrite Hh. split_and!; (done || lia).
  - pose proof (vm_step_post c m budget W Hm Hh Hb) as Hp.
    destruct (vm_step c m budget) as [[[r c'] m'] n]. destruct Hp as [[_ Hho (Hw & Hm' & _) Hn _ Hr] _].
    split_and!; [done|done|done|lia|lia|]. destruct r; try done; split; (done || lia).
Qed.

Section step.
Context {S : Type} (cfg : VmSchedConfig S) (Hcb : callbacks_ok cfg).
Implicit Types w : World S.

Lemma sample_tick_ok w : world_ok w -> world_ok (sample_tick cfg w) /\
  (forall p, cpu_at (sample_tick cfg w) p = cpu_at w p) /\
  w_mem (sample_tick cfg w) = w_mem w /\
  exists t, w_sched (sample_tick cfg w) = set_tick (w_sched w) t.
Proof.
  intros Hw. unfold sample_tick. destruct (tick_source cfg) as [f|] eqn:Hf.
  - destruct (cb_tick cfg Hcb f w Hf) as (Hs & Hm & Hc).
    destruct (f (tick_source_userdata cfg) w) as [w' t]. cbn [fst] in *.
    split_and!; [|done|done|].
    + destruct Hw as [Hws Hwc Hwm]. split.
      * cbn. rewrite Hs. by apply sched_wf_tick.
      * cbn. intros i. change (vm_at (set_tick ?s _) i) with (vm_at s i). rewrite Hs. intros Hi Hp.
        change (w_cpus w' ?p) with (cpu_at w' p). rewrite Hc. by apply Hwc.
      * cbn. by rewrite Hm.
    + exists (u32 t). cbn. by rewrite Hs.
  - split_and!; try done. exists (global_tick (w_sched w)). by destruct (w_sched w).
Qed.

(** The loop's view of the VM it runs. *)
Definition in_slot (w : World S) (id cpu : Z) : Prop :=
  0 <= id < 64 /\ vm_at (w_sched w) id = cpu /\ cpu <> 0.

Lemma in_slot_wf w id cpu : world_ok w -> in_slot w id cpu ->
  cpu_wf (cpu_at w cpu) /\ vm_id (cpu_at w cpu) = id.
Proof. intros Hw (Hi & <- & Hp). by apply (wo_cpu _ Hw). Qed.

(** Changes of the scheduler that keep the slots. *)
Lemma set_sched_ok w id cpu s :
  world_ok w -> in_slot w id cpu -> sched_wf s -> vms s = vms (w_sched w) ->
  world_ok (set_sched w s) /\ in_slot (set_sched w s) id cpu.
Proof.
  intros Hw (Hi & Hv & Hp) Hs E. split; [by apply world_ok_sched|].
  split_and!; [lia..| |done]. unfold vm_at in *. cbn. by rewrite E.
Qed.

Lemma run_quantum_ok w id cpu budget :
  world_ok w -> in_slot w id cpu -> 0 <= budget ->
  let '(w', r, used) := run_quantum cfg w cpu budget in
  world_ok w' /\ in_slot w' id cpu /\ 0 <= used <= budget.
Proof.
  intros Hw Hin Hb. destruct (in_slot_wf _ _ _ Hw Hin) as [W Hid]. unfold run_quantum.
  pose proof (vm_step_ok (cpu_at w cpu) (w_mem w) budget W (wo_mem _ Hw) Hb) as Hst.
  destruct (vm_step _ _ _) as [[[r c] m] used]. destruct Hst as (W' & Hm & Hh & Hu & _).
  assert (world_ok (set_mem (put_cpu w cpu c) m)) as Hw1.
  { apply world_ok_mem; [|done]. apply world_ok_put; [done..|]. apply Hh. }
  set (w1 := set_mem (put_cpu w cpu c) m) in *.
  assert (in_slot w1 id cpu) as Hin1 by done.
  destruct (set_sched_ok w1 id cpu (set_totals (w_sched w1)
     (u64 (total_quanta_run (w_sched w1) + 1)) (u64 (total_instructions (w_sched w1) + used))
     (trapped_vms (w_sched w1))) Hw1 Hin1 (sched_wf_totals _ _ _ _ (wo_sched _ Hw1)) eq_refl) as [Hw2 Hin2].
  match type of Hw2 with world_ok ?x => set (w2 := x) in * end.
  destruct (tick_source cfg) as [f|] eqn:Hf.
  - destruct (sample_tick_ok w2 Hw2) as (Hw3 & _ & _ & t & Hs).
    split_and!; [done| |lia..].
    destruct Hin2 as (Hi & Hv & Hp). split_and!; [lia..| |done]. rewrite Hs. exact Hv.
  - destruct (set_sched_ok w2 id cpu (set_tick (w_sched w2) (u32 (global_tick (w_sched w2) + used))) Hw2 Hin2
      (sched_wf_tick _ _ (wo_sched _ Hw2)) eq_refl). split_and!; (done || lia).
Qed.

Lemma drop_ok w id cpu : world_ok w -> in_slot w id cpu -> world_ok (drop_vm w id).
Proof. intros Hw Hin. by apply drop_vm_ok; [|apply Hin]. Qed.

Lemma terminate_ok w id cpu : world_ok w -> in_slot w id cpu -> world_ok (terminate_trapped w id cpu).
Proof.
  intros Hw Hin. destruct (in_slot_wf _ _ _ Hw Hin) as [W Hid].
  apply drop_vm_ok; [|apply Hin]. apply world_ok_put; [done| |done]. by apply (cpu_wf_host (cpu_at w cpu)).
Qed.

Lemma handle_trap_ok w id cpu : world_ok w -> in_slot w id cpu -> world_ok (handle_trap cfg w id).
Proof.
  intros Hw Hin. unfold handle_trap. pose proof Hin as (Hi & Hv & Hp). rewrite Hv.
  rewrite (proj2 (Z.eqb_neq _ 0)) by done.
  assert (let w' := (default default_trap_handler (trap_handler cfg) cpu (system cfg) w).1 in
          world_ok w' /\ in_slot w' id cpu) as Hh.
  { destruct (trap_handler cfg) as [h|] eqn:Ht; [|done]. cbn [default].
    rewrite <-Hv in Hp. destruct (cb_trap cfg Hcb h w id Ht Hw Hi Hp) as [Hw' Hv'].
    rewrite Hv in *. split; [done|]. by split_and!; [lia..| |]. }
  destruct (default default_trap_handler (trap_handler cfg) cpu (system cfg) w) as [w1 a].
  cbn [fst] in Hh. destruct Hh as [Hw1 Hin1]. destruct a.
  - by apply terminate_ok.
  - destruct (in_slot_wf _ _ _ Hw1 Hin1) as [W Hid]. apply world_ok_put; [done| |done].
    by apply (cpu_wf_host (cpu_at w1 cpu)).
  - destruct (set_sched_ok w1 id cpu (set_totals (w_sched w1) (total_quanta_run (w_sched w1))
      (total_instructions (w_sched w1)) (u32 (trapped_vms (w_sched w1) + 1))) Hw1 Hin1
      (sched_wf_totals _ _ _ _ (wo_sched _ Hw1)) eq_refl). by apply terminate_ok.
Qed.

Lemma kill_runaway_ok w id cpu : world_ok w -> in_slot w id cpu -> world_ok (kill_runaway w id cpu).
Proof.
  intros Hw Hin. destruct (in_slot_wf _ _ _ Hw Hin) as [W Hid]. unfold kill_runaway.
  set (w1 := put_cpu w cpu _).
  assert (world_ok w1) as Hw1.
  { apply world_ok_put; [done| |done]. by apply (cpu_wf_host (cpu_at w cpu)). }
  pose proof (wo_sched _ Hw1) as Hs. apply world_ok_sched; [done| |done].
  apply sched_wf_debt; [apply sched_wf_consumed; [|done]|done]. destruct (sw_u64 _ Hs) as [Hr Hb].
  destruct Hin as (Hi & _ & _).
  apply sched_wf_sets; [done|by apply bm_clear_u64|done| |apply (sw_blocked _ Hs)].
  intros i Hi'. rewrite bm_clear_bit by lia. intros [Ht _]%andb_prop.
  split; [by apply (sw_ready _ Hs)|by apply (sw_disj _ Hs)].
Qed.

Lemma pay_debt_ok w id cpu d : world_ok w -> in_slot w id cpu -> 0 <= d ->
  world_ok (pay_debt w id d) /\ in_slot (pay_debt w id d) id cpu.
Proof.
  intros Hw Hin Hd. apply set_sched_ok; try done. apply sched_wf_debt; [apply Hw|].
  pose proof (aget_u32 _ id (proj1 (sw_u32 _ (wo_sched _ Hw)))).
  destruct (Z.leb_spec d (aget (debt (w_sched w)) id)); umach; lia.
Qed.

Lemma block_ok w id cpu : world_ok w -> in_slot w id cpu -> world_ok (apply_block_transition w id).
Proof.
  intros Hw (Hi & Hv & Hp). unfold apply_block_transition. rewrite Hv.
  rewrite (proj2 (Z.eqb_neq _ 0)) by done. case_bool_decide; [done|].
  apply world_ok_sched; [done| |done]. apply sched_wf_block; [apply Hw|done|congruence].
Qed.

Lemma turn_ok w id cpu paid budget :
  world_ok w -> in_slot w id cpu -> 0 <= budget -> 0 <= paid ->
  let '(w', next) := turn cfg w id cpu paid budget in
  world_ok w' /\ (forall b, next = Some b -> in_slot w' id cpu /\ 0 <= b).
Proof.
  intros Hw Hin Hb Hpd. unfold turn. pose proof (run_quantum_ok w id cpu budget Hw Hin Hb) as Hq.
  destruct (run_quantum cfg w cpu budget) as [[w1 r] used]. destruct Hq as (Hw1 & Hin1 & Hu).
  destruct r.
  - destruct (in_critical (cpu_at w1 cpu)) eqn:Hc.
    + destruct (set_sched_ok w1 id cpu (set_consumed (w_sched w1) id
        (u32 (aget (critical_section_consumed (w_sched w1)) id + used))) Hw1 Hin1
        (sched_wf_consumed _ _ _ (wo_sched _ Hw1) (is_u32_range _)) eq_refl) as [Hw2 Hin2].
      destruct (_ <? _).
      * split; [by apply kill_runaway_ok|done].
      * match type of Hw2 with world_ok ?x => set (w2 := x) in * end.
        destruct (set_sched_ok w2 id cpu (set_debt (w_sched w2) id
          (u32 (aget (debt (w_sched w2)) id + used))) Hw2 Hin2
          (sched_wf_debt _ _ _ (wo_sched _ Hw2) (is_u32_range _)) eq_refl). split; [done|].
        intros b [= <-]. split; [done|]. pose proof (cb_quantum _ Hcb). lia.
    + destruct (pay_debt_ok w1 id cpu paid Hw1 Hin1 Hpd) as [Hw2 Hin2]. split; [|done].
      destruct (negb _); [|done]. by apply (set_sched_ok _ id cpu);
        [..|apply sched_wf_consumed; [apply Hw2|done]|].
  - destruct Hin1 as (Hi & Hv & Hp). rewrite <-Hv in Hp.
    destruct (cb_ecall cfg Hcb w1 id Hw1 Hi Hp) as [Hw2 Hv2]. rewrite Hv in *.
    assert (in_slot (dispatch_ecall cfg w1 cpu) id cpu) as Hin2 by (by split_and!; [lia..| |]).
    destruct (halted _); [split; [by apply (drop_ok _ _ cpu)|done]|].
    destruct (negb _); [split; [by apply (block_ok _ _ cpu)|done]|].
    destruct (Z.leb_spec budget used); [split; [by apply (pay_debt_ok _ _ cpu)|done]|].
    split; [done|]. intros b [= <-]. split; [done|lia].
  - split; [by apply (handle_trap_ok _ _ cpu)|done].
  - split; [by apply (drop_ok _ _ cpu)|done].
Qed.

Lemma turns_ok fuel : forall w id cpu paid budget w',
  world_ok w -> in_slot w id cpu -> 0 <= budget -> 0 <= paid ->
  turns cfg fuel w id cpu paid budget = Some w' -> world_ok w'.
Proof.
  induction fuel as [|fuel IH]; intros w id cpu paid budget w' Hw Hin Hb Hpd; [done|]. cbn [turns].
  pose proof (turn_ok w id cpu paid budget Hw Hin Hb Hpd) as Ht.
  destruct (turn cfg w id cpu paid budget) as [w1 [b|]]; [|by intros [= <-]; apply Ht].
  destruct Ht as [Hw1 Hn]. destruct (Hn b eq_refl). by apply IH.
Qed.

Lemma housekeep_ok w : world_ok w -> world_ok (housekeep cfg w) /\
  cursor (w_sched (housekeep cfg w)) = cursor (w_sched w).
Proof.
  intros Hw. destruct (sample_tick_ok w Hw) as (Hw1 & _ & _ & t & Hs). unfold housekeep.
  split; [by apply wake_expired_ok|].
  rewrite (same_but_sets_cursor (w_sched (sample_tick cfg w))); [by rewrite Hs|].
  apply (wake_expired_pass _ Hw1).
Qed.

(** The slot that a decision serves. *)
Definition chosen (w : World S) : Z := find_next_ready (ready (w_sched w)) (cursor (w_sched w)).

Lemma chosen_slot w : world_ok w -> ready (w_sched w) <> 0 ->
  in_slot w (chosen w) (vm_at (w_sched w) (chosen w)) /\
  Z.testbit (ready (w_sched w)) (chosen w) = true.
Proof.
  intros Hw Hne. pose proof (wo_sched _ Hw) as Hs.
  destruct (find_next_ready_spec _ (cursor (w_sched w)) (proj1 (sw_u64 _ Hs)) (sw_cursor _ Hs) Hne)
    as (d & Hd & E & Hb & _). unfold chosen. rewrite E.
  assert (0 <= (cursor (w_sched w) + d) mod 64 < 64) by (apply Z.mod_pos_bound; lia).
  split; [|done]. split_and!; [lia..|done|]. by apply (sw_ready _ Hs).
Qed.

(** The quantum is between half the baseline and the baseline, and what is missing
    is the debt it pays. *)
Lemma quantum_range s id :
  sched_wf s ->
  let '(budget, paid) := effective_quantum cfg s id in
  let owed := aget (debt s) id in
  budget + paid = baseline_quantum cfg /\ paid = Z.min owed (baseline_quantum cfg / 2) /\
  1 <= budget <= baseline_quantum cfg /\ 0 <= paid <= owed.
Proof.
  intros Hs. unfold effective_quantum. pose proof (cb_quantum _ Hcb) as Hq.
  pose proof (aget_u32 _ id (proj1 (sw_u32 _ Hs))) as Ho.
  set (b := baseline_quantum cfg) in *. set (owed := aget (debt s) id) in *.
  change (2 ^ 32) with 0x100000000 in Hq.
  assert (0 <= b / 2 < b) by zlia.
  destruct (Z.ltb_spec owed (b / 2)); rewrite u32_small by (umach; lia); split_and!; umach; lia.
Qed.

(** The cases of a decision. *)
Lemma run_next_cases fuel w w' r :
  world_ok w -> run_next cfg fuel w = Some (w', r) ->
  (ready (w_sched w) = 0 /\ w' = w /\
     r = if blocked (w_sched w) =? 0 then VM_SCHED_ALL_HALTED else VM_SCHED_IDLE) \/
  (ready (w_sched w) <> 0 /\ r = VM_SCHED_RAN /\ exists w1,
     turns cfg fuel w (chosen w) (vm_at (w_sched w) (chosen w))
       (effective_quantum cfg (w_sched w) (chosen w)).2
       (effective_quantum cfg (w_sched w) (chosen w)).1 = Some w1 /\
     w' = set_sched w1 (set_cursor (w_sched w1) ((chosen w + 1) mod 64))).
Proof.
  intros Hw. unfold run_next. destruct (Z.eqb_spec (ready (w_sched w)) 0) as [E|E].
  { intros [= <- <-]. by left. }
  destruct (chosen_slot w Hw E) as [(Hi & _) _].
  change (find_next_ready (ready (w_sched w)) (cursor (w_sched w))) with (chosen w).
  rewrite (proj2 (Z.ltb_ge _ _)) by lia.
  destruct (effective_quantum cfg (w_sched w) (chosen w)) as [budget paid]. cbn [fst snd].
  destruct (turns _ _ _ _ _ _ _) as [w1|]; [|done]. intros [= <- <-].
  right. split_and!; [done..|]. by exists w1.
Qed.

Lemma run_next_ok fuel w w' r : world_ok w -> run_next cfg fuel w = Some (w', r) -> world_ok w'.
Proof.
  intros Hw Hr. destruct (run_next_cases _ _ _ _ Hw Hr) as [(_ & -> & _)|(Hne & _ & w1 & Ht & ->)]; [done|].
  destruct (chosen_slot w Hw Hne) as [Hin _].
  pose proof (quantum_range _ (chosen w) (wo_sched _ Hw)) as Hq.
  destruct (effective_quantum cfg (w_sched w) (chosen w)) as [budget paid]. cbn [fst snd] in Ht.
  destruct Hq as (_ & _ & Hb & Hpd).
  assert (world_ok w1) as Hw1 by (apply (turns_ok _ _ _ _ _ _ _ Hw Hin) in Ht; (done || lia)).
  apply world_ok_sched; [done| |done]. apply sched_wf_cursor; [apply Hw1|].
  apply Z.mod_pos_bound. lia.
Qed.

Lemma step_ok fuel w w' r : world_ok w -> vm_sched_step cfg fuel w = Some (w', r) -> world_ok w'.
Proof. intros Hw. apply run_next_ok, housekeep_ok, Hw. Qed.

Lemma idle_ok w : world_ok w -> world_ok (idle_cycle cfg w).
Proof.
  intros Hw. unfold idle_cycle. pose proof (wake_expired_ok w Hw) as Hw1.
  destruct (wake_expired_timeouts w) as [w1 d]. cbn [fst] in Hw1.
  assert (world_ok (default default_idle_handler (idle_handler cfg) d (system cfg) w1)) as Hw2.
  { destruct (idle_handler cfg) as [h|] eqn:Hh; [|done]. by apply (cb_idle cfg Hcb). }
  destruct (tick_source cfg); [by apply sample_tick_ok|].
  apply world_ok_sched; [done| |done]. apply sched_wf_tick, Hw2.
Qed.

Lemma run_ok n fuel : forall w w' b,
  world_ok w -> vm_sched_run cfg n fuel w = Some (w', b) -> world_ok w'.
Proof.
  induction n as [|n IH]; intros w w' b Hw; cbn [vm_sched_run]; [by intros [= <- _]|].
  destruct (vm_sched_step cfg fuel w) as [[w1 []]|] eqn:Hs; [..|done];
    apply step_ok in Hs; try done.
  - by apply IH.
  - apply IH. by apply idle_ok.
  - by intros [= <- _].
Qed.
End step.

(** ** Everything the host can do *)

(** A call of the scheduler's interface.  Who registers a CPU owns it as the header asks
    (it has been set up by [vm_init], so that it is well-formed) and registers it once;
    the code checks neither ([registered_twice]). *)
Inductive api_call {S} : World S -> World S -> Prop :=
  | api_register w cpu : cpu_wf (cpu_at w cpu) ->
      (forall j, 0 <= j < 64 -> cpu <> 0 -> vm_at (w_sched w) j <> cpu) ->
      api_call w (vm_sched_register w cpu).1
  | api_register_at w cpu id : cpu_wf (cpu_at w cpu) -> 0 <= id ->
      (forall j, 0 <= j < 64 -> cpu <> 0 -> vm_at (w_sched w) j <> cpu) ->
      api_call w (vm_sched_register_at w cpu id).1
  | api_unregister w id : 0 <= id -> api_call w (vm_sched_unregister w id)
  | api_wake_mailbox w id a0 : 0 <= id -> api_call w (vm_sched_wake_mailbox w id a0).1
  | api_wake_child w id a0 : 0 <= id -> api_call w (vm_sched_wake_child w id a0).1
  | api_wake_frame w n : api_call w (vm_sched_wake_frame_consumed w n).1
  | api_halt w id : 0 <= id -> api_call w (vm_sched_halt w id).

(** What the host's code may do besides: write a CPU without giving it another number,
    write memory, change its own state - nothing that turns a well-formed CPU or memory
    into an ill-formed one.  It does not touch the scheduler's record. *)
Inductive host_step {S} : World S -> World S -> Prop :=
  | hs_api w w' : api_call w w' -> host_step w w'
  | hs_cpu w p c : (cpu_wf (cpu_at w p) -> cpu_wf c) -> vm_id c = vm_id (cpu_at w p) -> host_step w (put_cpu w p c)
  | hs_mem w m : (mem_ok (w_mem w) -> mem_ok m) -> host_step w (set_mem w m)
  | hs_own w s : host_step w (mkWorld (w_sched w) (w_cpus w) (w_mem w) s).

(** Callbacks made of such steps.  A system call and a trap handler are called for a
    well-formed CPU in a slot and leave it there; the clock only reads. *)
Record host_ok {S} (cfg : VmSchedConfig S) : Prop := {
  ho_quantum : 0 < baseline_quantum cfg < 2 ^ 32;
  ho_tick : forall f w, tick_source cfg = Some f ->
    let w' := (f (tick_source_userdata cfg) w).1 in
    w_sched w' = w_sched w /\ w_mem w' = w_mem w /\ forall p, cpu_at w' p = cpu_at w p;
  ho_ecall : forall w id, 0 <= id < 64 -> let cpu := vm_at (w_sched w) id in cpu <> 0 -> cpu_wf (cpu_at w cpu) ->
    rtc host_step w (dispatch_ecall cfg w cpu) /\ vm_at (w_sched (dispatch_ecall cfg w cpu)) id = cpu;
  ho_trap : forall h w id, trap_handler cfg = Some h ->
    0 <= id < 64 -> let cpu := vm_at (w_sched w) id in cpu <> 0 -> cpu_wf (cpu_at w cpu) ->
    rtc host_step w (h cpu (system cfg) w).1 /\ vm_at (w_sched (h cpu (system cfg) w).1) id = cpu;
  ho_idle : forall h d w, idle_handler cfg = Some h -> rtc host_step w (h d (system cfg) w)
}.

(** What the host does from outside: calls of the interface, its own writes, decisions
    and runs. *)
Inductive sched_action {S} (cfg : VmSchedConfig S) : World S -> World S -> Prop :=
  | act_host w w' : host_step w w' -> sched_action cfg w w'
  | act_step fuel w w' r : vm_sched_step cfg fuel w = Some (w', r) -> sched_action cfg w w'
  | act_run n fuel w w' b : vm_sched_run cfg n fuel w = Some (w', b) -> sched_action cfg w w'.

Lemma api_call_ok {S} (w w' : World S) : world_ok w -> api_call w w' -> world_ok w'.
Proof.
  intros Hw Ha. destruct Ha.
  - by apply register_ok.
  - by apply register_at_ok.
  - by apply unregister_ok.
  - by apply wake_mailbox_ok.
  - by apply wake_child_ok.
  - apply (wake_frame_pass w n Hw).
  - by apply halt_ok.
Qed.

Lemma host_step_ok {S} (w w' : World S) : world_ok w -> host_step w w' -> world_ok w'.
Proof.
  intros Hw Hst. destruct Hst as [w1 w2 Ha|w1 p c Hc Hi|w1 m Hm|w1 s].
  - by apply (api_call_ok w1).
  - destruct Hw as [Hs Hcpu Hmem]. split; [done| |done]. intros i Hi' Hp.
    change (vm_at (w_sched (put_cpu w1 p c)) i) with (vm_at (w_sched w1) i) in *.
    destruct (Hcpu i Hi' Hp) as [W Hid]. destruct (decide (p = vm_at (w_sched w1) i)) as [->|Hne].
    + rewrite cpu_at_put. split; [by apply Hc|congruence].
    + rewrite cpu_at_put_other by done. by split.
  - apply world_ok_mem; [done|]. apply Hm, Hw.
  - by destruct Hw.
Qed.

Lemma host_steps_ok {S} (w w' : World S) : world_ok w -> rtc host_step w w' -> world_ok w'.
Proof. intros Hw Hr. induction Hr as [|w1 w2 w3 Ha _ IH]; [done|]. apply IH. by apply (host_step_ok w1). Qed.

(** Such callbacks keep a well-formed world well-formed. *)
Lemma host_callbacks {S} (cfg : VmSchedConfig S) : host_ok cfg -> callbacks_ok cfg.
Proof.
  intros [H1 H2 H3 H4 H5]. split; [done|done|..].
  - intros w id Hw Hi Hp w'. destruct (H3 w id Hi Hp) as [Hr Hv]; [by apply (wo_cpu _ Hw)|].
    split; [by apply (host_steps_ok w)|done].
  - intros h w id Hh Hw Hi Hp w'. destruct (H4 h w id Hh Hi Hp) as [Hr Hv]; [by apply (wo_cpu _ Hw)|].
    split; [by apply (host_steps_ok w)|done].
  - intros h d w Hh Hw. apply (host_steps_ok w); [done|by apply H5].
Qed.

Lemma action_ok {S} (cfg : VmSchedConfig S) w w' :
  callbacks_ok cfg -> world_ok w -> sched_action cfg w w' -> world_ok w'.
Proof.
  intros Hcb Hw Ha. destruct Ha.
  - by apply (host_step_ok w).
  - by eapply step_ok.
  - by eapply run_ok.
Qed.

Lemma actions_ok {S} (cfg : VmSchedConfig S) w w' :
  callbacks_ok cfg -> world_ok w -> rtc (sched_action cfg) w w' -> world_ok w'.
Proof.
  intros Hcb Hw Hr. induction Hr as [|w1 w2 w3 Ha _ IH]; [done|].
  apply IH. by eapply action_ok.
Qed.

Lemma init_ok {S} (w : World S) cfg : mem_ok (w_mem w) -> world_ok (vm_sched_init w cfg).1.
Proof.
  intros Hm. split; [apply sched_wf_zero| |done]. intros i _. cbn [vm_sched_init fst set_sched w_sched].
  by rewrite vm_at_zero.
Qed.

(** A ready VM is served within 64 decisions: each one that serves another brings
    the cursor closer to it. *)
Section fair.
Context {S : Type} (cfg : VmSchedConfig S) (Hcb : callbacks_ok cfg).

Definition distance (w : World S) (i : Z) : Z := (i - cursor (w_sched w)) mod 64.

Lemma chosen_closer w i :
  world_ok w -> 0 <= i < 64 -> Z.testbit (ready (w_sched w)) i = true ->
  chosen w = i \/ (i - (chosen w + 1) mod 64) mod 64 < distance w i.
Proof.
  intros Hw Hi Hr. pose proof (wo_sched _ Hw) as Hs. pose proof (sw_cursor _ Hs) as Hc.
  assert (ready (w_sched w) <> 0) as Hne by (intros E; by rewrite E, Z.bits_0 in Hr).
  destruct (find_next_ready_spec _ (cursor (w_sched w)) (proj1 (sw_u64 _ Hs)) Hc Hne)
    as (d & Hd & E & Hb & Hf). unfold chosen, distance. rewrite E.
  set (cur := cursor (w_sched w)) in *. set (k := (i - cur) mod 64).
  assert (0 <= k < 64) as Hk by (apply Z.mod_pos_bound; lia).
  assert ((cur + k) mod 64 = i) as Hik.
  { unfold k. rewrite Zplus_mod_idemp_r. replace (cur + (i - cur)) with i by lia.
    apply Z.mod_small. lia. }
  destruct (Z.lt_trichotomy d k) as [Hlt|[->|Hgt]].
  - right. rewrite Zplus_mod_idemp_l, Zminus_mod_idemp_r.
    rewrite <-Hik at 1. rewrite Zminus_mod_idemp_l.
    replace (cur + k - (cur + d + 1)) with (k - d - 1) by lia. rewrite Z.mod_small by lia. lia.
  - by left.
  - rewrite <-Hik in Hr. by rewrite Hf in Hr by lia.
Qed.

Lemma run_next_cursor fuel w w' :
  world_ok w -> run_next cfg fuel w = Some (w', VM_SCHED_RAN) ->
  cursor (w_sched w') = (chosen w + 1) mod 64.
Proof.
  intros Hw Hst.
  destruct (run_next_cases _ _ _ _ _ Hw Hst) as [(_ & _ & E)|(_ & _ & w1 & _ & ->)].
  - by destruct (_ =? 0).
  - generalize ((chosen w + 1) mod 64). done.
Qed.

Lemma step_cursor fuel w w' :
  world_ok w -> vm_sched_step cfg fuel w = Some (w', VM_SCHED_RAN) ->
  cursor (w_sched w') = (chosen (housekeep cfg w) + 1) mod 64.
Proof. intros Hw. apply run_next_cursor, housekeep_ok, Hw. done. Qed.
End fair.

(** ** Properties *)

(** C18. The scheduler's invariant.  Whatever sequence of registrations, removals,
    wake-ups, halts, decisions and runs follows [vm_sched_init], and whatever the
    guests do: the ready and blocked sets are disjoint, contain registered VMs only,
    and are 64-bit; no CPU is in two slots; the registered count is the number of
    slots in use; the cursor is a slot; and every registered CPU is well-formed, so
    that [vm_step]'s guarantees hold for it, and carries its slot's number as its
    id.  The host's side, which the code does not check: a CPU is well-formed (set up
    by [vm_init]) when it is registered and is in no slot yet; and the callbacks -
    system calls, trap handler, idle handler - consist of calls of the same interface
    and of writes to CPUs, memory and their own state that keep a well-formed CPU
    well-formed and its id, and leave the VM they run for in its slot ([host_ok]).
    That such callbacks keep the invariant is proved, not assumed. *)
Theorem sched_invariant {S} (w0 w : World S) (conf : option (VmSchedConfig S)) :
  let '(w1, cfg) := vm_sched_init w0 conf in
  host_ok cfg -> mem_ok (w_mem w0) -> rtc (sched_action cfg) w1 w -> world_ok w.
Proof.
  destruct (vm_sched_init w0 conf) as [w1 cfg] eqn:E. intros Hcb Hm Hr.
  apply (actions_ok cfg w1); [by apply host_callbacks| |done].
  change w1 with (w1, cfg).1. rewrite <-E. by apply init_ok.
Qed.

(** C20. Round-robin is starvation-free: in 64 consecutive decisions that each run
    some VM (the host may act in between, as long as it leaves the cursor alone), a
    VM that is ready at every one of them is served by one of them. *)
Theorem round_robin {S} (cfg : VmSchedConfig S) fuel (ws : nat -> World S) i :
  callbacks_ok cfg -> 0 <= i < 64 ->
  (forall k, (k < 64)%nat -> world_ok (ws k) /\
     Z.testbit (ready (w_sched (housekeep cfg (ws k)))) i = true /\
     exists w', vm_sched_step cfg fuel (ws k) = Some (w', VM_SCHED_RAN) /\
       cursor (w_sched (ws (Datatypes.S k))) = cursor (w_sched w')) ->
  exists k, (k < 64)%nat /\ chosen (housekeep cfg (ws k)) = i.
Proof.
  intros Hcb Hi Hrun.
  assert (forall k, (k < 64)%nat ->
    (exists j, (j <= k)%nat /\ chosen (housekeep cfg (ws j)) = i) \/
    (i - (chosen (housekeep cfg (ws k)) + 1) mod 64) mod 64 < 63 - Z.of_nat k) as H.
  2: { destruct (H 63%nat ltac:(lia)) as [(j & Hj & E)|Hneg]; [exists j; split; [lia|done]|].
       pose proof (Z.mod_pos_bound (i - (chosen (housekeep cfg (ws 63%nat)) + 1) mod 64) 64). lia. }
  induction k as [|k IH]; intros Hk;
    destruct (Hrun _ Hk) as (Hw & Hr & _);
    destruct (housekeep_ok cfg Hcb _ Hw) as [Hw1 Hcur];
    destruct (chosen_closer _ i Hw1 Hi Hr) as [E|Hlt]; try (left; eexists; split; [|exact E]; lia);
    unfold distance in Hlt; rewrite Hcur in Hlt.
  - right. pose proof (Z.mod_pos_bound (i - cursor (w_sched (ws 0%nat))) 64). lia.
  - destruct (IH ltac:(lia)) as [(j & Hj & E)|Hd]; [left; exists j; split; [lia|done]|right].
    destruct (Hrun k ltac:(lia)) as (Hwk & _ & w' & Hst & Hc).
    rewrite Hc, (step_cursor cfg Hcb _ _ _ Hwk Hst) in Hlt. lia.
Qed.

(** ** A small system

    Two guests that jump to themselves, the CPU handlers, a quantum of two. *)

Lemma call_spec_wf c : cpu_wf c -> cpu_wf (cpu_call_spec c) /\ vm_id (cpu_call_spec c) = vm_id c.
Proof.
  intros W. unfold cpu_call_spec.
  assert (forall c' v, cpu_wf c' -> is_u32 v ->
    cpu_wf (set_reg c' VM_REG_A0 v) /\ vm_id (set_reg c' VM_REG_A0 v) = vm_id c') as Ha0.
  { intros c' v W' Hv. split; [by apply set_a0_wf|done]. }
  assert (is_u32 (vm_id c)) by (pose proof (wf_id _ W); umach; lia).
  assert (forall v, cpu_wf (set_critical c v)) as Hcr by (intros v; by apply (cpu_wf_host c)).
  repeat case_match; try (by split; [apply (cpu_wf_host c)|]);
    match goal with
    | |- cpu_wf (set_reg ?c' _ ?v) /\ _ => destruct (Ha0 c' v) as [? ->]
    end; try done; try (by apply Hcr); try (umach; lia). by apply (cpu_wf_host c).
Qed.

Definition demo_conf : VmSchedConfig unit :=
  mkConfig 2 20 None None (Some cpu_router) None 0 0 0.
Definition demo_cfg : VmSchedConfig unit := init_config (Some demo_conf).

Lemma cpu_router_call {S} (cfg : VmSchedConfig S) w cpu : ecall_router cfg = Some cpu_router -> cpu <> 0 ->
  cpu_wf (cpu_at w cpu) -> dispatch_ecall cfg w cpu = put_cpu w cpu (cpu_call_spec (cpu_at w cpu)).
Proof.
  intros Hr Hp W. unfold dispatch_ecall. rewrite Hr. apply cpu_router_dispatch; [done|].
  apply (reg_u32 _ VM_REG_A7 W).
Qed.

Lemma demo_host : host_ok demo_cfg.
Proof.
  split.
  - cbn. change (2 ^ 32) with 0x100000000. lia.
  - done.
  - intros w id Hi cpu Hp W. rewrite (cpu_router_call demo_cfg w cpu eq_refl Hp W). split; [|done].
    apply rtc_once, hs_cpu; [intros _|]; by apply call_spec_wf.
  - intros h w id [= <-] Hi cpu Hp W. by split; [apply rtc_refl|].
  - intros h d w [= <-]. apply rtc_refl.
Qed.

Lemma demo_callbacks : callbacks_ok demo_cfg.
Proof. apply host_callbacks, demo_host. Qed.

(** A CPU registered twice is in two slots, the first of which no longer has its id. *)
Example registered_twice :
  let w := (vm_sched_register (vm_sched_register (mkWorld zero_sched (fun _ => demo_cpu) (fun _ => 0) tt) 8).1 8).1 in
  vm_at (w_sched w) 0 = 8 /\ vm_at (w_sched w) 1 = 8 /\ vm_id (cpu_at w 8) = 1.
Proof. by vm_compute. Qed.

(** [j .] at the start of the code region. *)
Definition spin_mem : mem := mem_write (fun _ => 0) 0x1000 (le_bytes 4 0x6F).
Definition spin_world : World unit := mkWorld zero_sched (fun _ => demo_cpu) spin_mem tt.
Definition two_spinners : World unit :=
  (vm_sched_register (vm_sched_register spin_world 8).1 16).1.

Lemma spin_mem_ok : mem_ok spin_mem.
Proof. apply mem_write_ok; [by intros x|apply le_bytes_Forall]. Qed.

Lemma two_spinners_actions : rtc (sched_action demo_cfg) spin_world two_spinners.
Proof.
  eapply rtc_l; [|eapply rtc_l; [|apply rtc_refl]].
  - apply act_host, hs_api, (api_register _ 8); [apply demo_cpu_wf|]. intros j _ _. cbn [spin_world w_sched].
    by rewrite vm_at_zero.
  - apply act_host, hs_api, (api_register _ 16); [apply demo_cpu_wf|].
    intros j Hj _. destruct (decide (j = 0)) as [->|]; [done|].
    change (vm_at (take_slot spin_world 0 8).(w_sched) j <> 16).
    unfold take_slot, clear_slot_counters. cbn [set_sched w_sched].
    change (vm_at (set_consumed ?x _ _) j) with (vm_at x j).
    change (vm_at (set_debt ?x _ _) j) with (vm_at x j).
    change (vm_at (set_sets ?x _ _) j) with (vm_at x j).
    rewrite vm_at_slot by (apply sched_wf_zero || lia). rewrite decide_False by done.
    cbn [put_cpu world_store w_sched spin_world]. by rewrite vm_at_zero.
Qed.

Lemma two_spinners_ok : world_ok two_spinners.
Proof.
  apply (actions_ok demo_cfg spin_world); [apply demo_callbacks| |apply two_spinners_actions].
  by apply (init_ok spin_world (Some demo_conf)), spin_mem_ok.
Qed.

(** A run of [n] decisions that each serve some VM while [i] is ready. *)
Definition next_world (w : World unit) : World unit :=
  match vm_sched_step demo_cfg 3 w with Some (w', _) => w' | None => w end.

Fixpoint serves (n : nat) (i : Z) (w : World unit) : bool :=
  match n with
  | O => true
  | Datatypes.S n =>
      Z.testbit (ready (w_sched (housekeep demo_cfg w))) i &&
      match vm_sched_step demo_cfg 3 w with
      | Some (w', VM_SCHED_RAN) => serves n i w'
      | _ => false
      end
  end.

Lemma serves_run n i : forall w, serves n i w = true -> world_ok w ->
  forall k, (k < n)%nat ->
  world_ok (Nat.iter k next_world w) /\
  Z.testbit (ready (w_sched (housekeep demo_cfg (Nat.iter k next_world w)))) i = true /\
  vm_sched_step demo_cfg 3 (Nat.iter k next_world w) =
    Some (Nat.iter (Datatypes.S k) next_world w, VM_SCHED_RAN).
Proof.
  induction n as [|n IH]; intros w Hs Hw k Hk; [lia|]. cbn [serves] in Hs.
  apply andb_prop in Hs as [Hr Hs].
  destruct (vm_sched_step demo_cfg 3 w) as [[w' []]|] eqn:E; try done.
  assert (next_world w = w') as Hn by (unfold next_world; by rewrite E).
  destruct k as [|k].
  { change (Nat.iter 0 next_world w) with w. change (Nat.iter 1 next_world w) with (next_world w).
    by rewrite Hn. }
  rewrite (Nat.iter_succ_r (Datatypes.S k)), (Nat.iter_succ_r k), Hn.
  apply IH; [done| |lia]. by apply (step_ok demo_cfg demo_callbacks 3 w w' VM_SCHED_RAN).
Qed.

(** ** Witnesses *)

Lemma sched_invariant_witness :
  mem_ok (w_mem spin_world) /\ rtc (sched_action demo_cfg) spin_world two_spinners /\
  world_ok two_spinners.
Proof.
  split; [apply spin_mem_ok|]. split; [apply two_spinners_actions|].
  exact (sched_invariant spin_world two_spinners (Some demo_conf) demo_host spin_mem_ok
    two_spinners_actions).
Defined.

Lemma round_robin_witness :
  exists k, (k < 64)%nat /\ chosen (housekeep demo_cfg (Nat.iter k next_world two_spinners)) = 1.
Proof.
  assert (serves 64 1 two_spinners = true) as Hs by (vm_compute; reflexivity).
  apply (round_robin demo_cfg 3 (fun k => Nat.iter k next_world two_spinners) 1).
  - apply demo_callbacks.
  - lia.
  - intros k Hk. destruct (serves_run 64 1 two_spinners Hs two_spinners_ok k Hk) as (Hw & Hr & Hst).
    split; [exact Hw|]. split; [exact Hr|]. eexists. split; [exact Hst|reflexivity].
Defined.
