(* ===== verification/VmSchedLive.v ===== *)
(** The loop inside a scheduling decision: it ends, and what a quantum costs.

    The loop runs the chosen VM again after every system call and, inside a critical
    section, after every quantum.  It ends because a call that retires no
    instruction moves the program counter forward in its region, a call that does
    shrinks the budget, and a quantum spent in a critical section raises the
    consumption towards the cap. *)
From S2P Require Import Prelude HostMem VmCpu VmDecode VmExec VmSafety VmStep VmEcall VmSched.
From S2P Require Import VmSchedInv VmSchedWake VmSchedStep.

(** ** A call that retires nothing moves forward *)

(** The offset of an address in its region, and what is left of the region. *)
Definition room (c : VmCpu) : Z :=
  rg_length (xlat_pick c (pc c)).1 - (xlat_pick c (pc c)).2.

(** Every region is shorter than the smallest window it can occupy. *)
Definition small_regions (c : VmCpu) : Prop :=
  forall addr, rg_length (region_of c addr) < 0x20000000 - 2.

Lemma xlat_pick_arith c a :
  is_u32 a ->
  xlat_pick c a =
  if a <? 0xC0000000 then (nth (Z.to_nat (a / 0x40000000)) (regions c) no_region, a mod 0x40000000)
  else if a <? 0xE0000000 then (nth 3 (regions c) no_region, a - 0xC0000000)
  else (l2_shared c, a - 0xE0000000).
Proof.
  intros Ha. unfold xlat_pick, VM_REGION_SHARED. rewrite Z.shiftr_div_pow2 by lia.
  change (2 ^ 30) with 0x40000000.
  change 0x20000000 with (Z.shiftl 1 29). rewrite land_bit_zero by lia.
  change 0x1FFFFFFF with (2 ^ 29 - 1). change 0x3FFFFFFF with (2 ^ 30 - 1).
  rewrite !land_pow2_ones by lia. rewrite negb_involutive, Z.testbit_odd, Z.shiftr_div_pow2 by lia.
  change (2 ^ 29) with 0x20000000. change (2 ^ 30) with 0x40000000.
  destruct (Z.ltb_spec a 0xC0000000).
  - rewrite (proj2 (Z.eqb_neq _ 3)); [done|]. zlia.
  - assert (a / 0x40000000 = 3) as -> by zlia. cbn [Z.eqb Pos.eqb].
    destruct (Z.ltb_spec a 0xE0000000).
    + assert (a / 0x20000000 = 6) as -> by zlia. cbn. f_equal. zlia.
    + assert (a / 0x20000000 = 7) as -> by zlia. cbn. f_equal. zlia.
Qed.

Lemma xlat_pick_advance c a k :
  is_u32 a -> 0 <= k -> (xlat_pick c a).2 + k < 0x20000000 ->
  xlat_pick c (u32 (a + k)) = ((xlat_pick c a).1, (xlat_pick c a).2 + k).
Proof.
  intros Ha Hk. rewrite (xlat_pick_arith c a Ha).
  destruct (Z.ltb_spec a 0xC0000000) as [H1|H1]; [|destruct (Z.ltb_spec a 0xE0000000) as [H2|H2]];
    cbn [fst snd]; intros Hlt.
  - assert (0 <= a mod 0x40000000 < 0x40000000 /\ a = 0x40000000 * (a / 0x40000000) + a mod 0x40000000)
      as [Hm Hd] by (split; [apply Z.mod_pos_bound; lia|apply Z.div_mod; lia]).
    assert (a + k < 0xC0000000) as Hw by (umach; lia).
    rewrite u32_small by (umach; lia). rewrite xlat_pick_arith by (umach; lia).
    rewrite (proj2 (Z.ltb_lt _ _)) by done.
    rewrite <-(Z.div_unique_pos (a + k) 0x40000000 (a / 0x40000000) (a mod 0x40000000 + k)) by lia.
    by rewrite <-(Z.mod_unique_pos (a + k) 0x40000000 (a / 0x40000000) (a mod 0x40000000 + k)) by lia.
  - rewrite u32_small by (umach; lia). rewrite xlat_pick_arith by (umach; lia).
    rewrite (proj2 (Z.ltb_ge _ _)), (proj2 (Z.ltb_lt _ _)) by lia. f_equal. lia.
  - rewrite u32_small by (umach; lia). rewrite xlat_pick_arith by (umach; lia).
    rewrite !(proj2 (Z.ltb_ge _ _)) by lia. f_equal. lia.
Qed.

Lemma vm_loop_ge fuel : forall c m s r c' m' n,
  vm_loop fuel c m s = (r, c', m', n) -> s <= n.
Proof.
  induction fuel as [|fuel IH]; intros c m s r c' m' n; cbn [vm_loop].
  - intros [= <- <- <- <-]. lia.
  - destruct (step_once c m) as [[[] c1] m1].
    + intros H%IH. lia.
    + destruct (trap_cause c1); intros [= <- <- <- <-]; lia.
Qed.

(** The first instruction of a quantum was an [ECALL]. *)
Lemma step_ecall c m c' m' :
  cpu_wf c -> mem_ok m -> step_once c m = (false, c', m') -> trap_cause c' = TRAP_ECALL ->
  (exists size, (size = 2 \/ size = 4) /\ pc c' = u32 (pc c + size)) /\ 2 <= room c.
Proof.
  intros W Hm Hst Hc. split.
  - destruct (step_once_spec c m W Hm) as [(c1 & m1 & E & _)|(c1 & E & P & _)];
      rewrite Hst in E; [done|]. injection E as <- ->.
    destruct (ss_cause _ _ _ _ P) as [(_ & _ & ?)|([Hs|Hs] & _)]; [done| |congruence].
    rewrite Hc in Hs. inversion Hs.
  - revert Hst. unfold step_once, fetch_instruction.
    destruct (negb _); [intros [= <- <-]; done|].
    unfold xlat_read at 1. unfold room. destruct (xlat_pick c (pc c)) as [r o]. cbn [fst snd].
    destruct (out_of_region r o 2) eqn:E; [intros [= <- <-]; done|]. intros _.
    unfold out_of_region in E. apply orb_false_elim in E as [_ E]. lia.
Qed.

Lemma room_ecall c c' size :
  small_regions c -> is_u32 (pc c) -> 2 <= room c -> size = 2 \/ size = 4 ->
  regions c' = regions c -> l2_shared c' = l2_shared c -> pc c' = u32 (pc c + size) ->
  room c' = room c - size.
Proof.
  intros Hs Hp Hr Hsz Hrg Hl2 Hpc. specialize (Hs (pc c)). unfold room, region_of in *.
  assert (xlat_pick c' (pc c') = xlat_pick c (pc c')) as ->
    by (unfold xlat_pick; by rewrite Hrg, Hl2).
  rewrite Hpc, xlat_pick_advance by (done || lia). cbn [fst snd]. lia.
Qed.

Lemma vm_step_ecall c m budget c' m' :
  cpu_wf c -> mem_ok m -> 0 < budget -> vm_step c m budget = (VM_STEP_ECALL, c', m', 0) ->
  (exists size, (size = 2 \/ size = 4) /\ pc c' = u32 (pc c + size)) /\ 2 <= room c.
Proof.
  intros W Hm Hb. unfold vm_step. destruct (halted c); [done|].
  destruct (Z.to_nat budget) as [|fuel] eqn:E; [lia|]. cbn [vm_loop].
  set (c0 := set_trap c TRAP_NONE 0 0 0). assert (cpu_wf c0) as W0 by (by apply set_trap_wf).
  destruct (step_once c0 m) as [[[] c1] m1] eqn:Hst; [intros H%vm_loop_ge; lia|].
  destruct (trap_cause c1) eqn:Hc; try done. intros [= <- _].
  apply (step_ecall c0 m c1 m1 W0 Hm Hst Hc).
Qed.

(** ** The loop ends *)

(** What a system call must leave alone for the loop to progress: the program
    counter and the regions of the VM it serves, and its consumption. *)
Definition calls_progress {S} (cfg : VmSchedConfig S) : Prop := forall w id,
  world_ok w -> 0 <= id < 64 -> vm_at (w_sched w) id <> 0 ->
  let cpu := vm_at (w_sched w) id in
  let w' := dispatch_ecall cfg w cpu in
  pc (cpu_at w' cpu) = pc (cpu_at w cpu) /\ regions (cpu_at w' cpu) = regions (cpu_at w cpu) /\
  l2_shared (cpu_at w' cpu) = l2_shared (cpu_at w cpu) /\
  aget (critical_section_consumed (w_sched w')) id = aget (critical_section_consumed (w_sched w)) id.

Section live.
Context {S : Type} (cfg : VmSchedConfig S) (Hcb : callbacks_ok cfg) (Hcp : calls_progress cfg)
  (Hcap : max_overrun cfg + baseline_quantum cfg < 2 ^ 32).
Implicit Types w : World S.

Definition consumed (w : World S) (id : Z) : Z := aget (critical_section_consumed (w_sched w)) id.

Record looping (w : World S) (id cpu budget : Z) : Prop := {
  lo_world : world_ok w;
  lo_slot : in_slot w id cpu;
  lo_budget : 1 <= budget <= baseline_quantum cfg;
  lo_consumed : 0 <= consumed w id <= max_overrun cfg;
  lo_regions : small_regions (cpu_at w cpu)
}.

Lemma run_quantum_facts w id cpu budget :
  world_ok w -> in_slot w id cpu -> 1 <= budget ->
  let '(w1, r, used) := run_quantum cfg w cpu budget in
  let c := cpu_at w cpu in
  let c1 := cpu_at w1 cpu in
  consumed w1 id = consumed w id /\ regions c1 = regions c /\ l2_shared c1 = l2_shared c /\
  (r = VM_STEP_QUANTUM_EXPIRED -> used = budget) /\
  (r = VM_STEP_ECALL -> 0 <= used < budget /\
     (used = 0 -> (exists size, (size = 2 \/ size = 4) /\ pc c1 = u32 (pc c + size)) /\ 2 <= room c)).
Proof.
  intros Hw Hin Hb. destruct (in_slot_wf _ _ _ Hw Hin) as [W Hid]. unfold run_quantum.
  pose proof (vm_step_ok (cpu_at w cpu) (w_mem w) budget W (wo_mem _ Hw) ltac:(lia)) as Hst.
  pose proof (vm_step_ecall (cpu_at w cpu) (w_mem w) budget) as Hec.
  destruct (vm_step _ _ _) as [[[r c] m] used]. destruct Hst as (W' & Hm & Hh & Hu & Hr).
  set (w1 := set_mem (put_cpu w cpu c) m). set (s1 := set_totals _ _ _ _).
  assert (world_ok (set_sched w1 s1)) as Hw2.
  { apply world_ok_sched; [apply world_ok_mem; [apply world_ok_put; try done; apply Hh|done]| |done].
    apply sched_wf_totals. apply Hw. }
  assert (cpu_at (set_sched w1 s1) cpu = c) as Hc by (cbn; by rewrite decide_True).
  assert (Hfacts : forall w2, cpu_at w2 cpu = c -> consumed w2 id = consumed w id ->
    consumed w2 id = consumed w id /\ regions (cpu_at w2 cpu) = regions (cpu_at w cpu) /\
    l2_shared (cpu_at w2 cpu) = l2_shared (cpu_at w cpu) /\
    (r = VM_STEP_QUANTUM_EXPIRED -> used = budget) /\
    (r = VM_STEP_ECALL -> 0 <= used < budget /\
       (used = 0 -> (exists size, (size = 2 \/ size = 4) /\
          pc (cpu_at w2 cpu) = u32 (pc (cpu_at w cpu) + size)) /\ 2 <= room (cpu_at w cpu)))).
  { intros w2 -> Hcs. destruct Hh as (Hrg & Hl2 & _). split_and!; [done..| |].
    - intros ->. by destruct Hr.
    - intros ->. destruct Hr as [_ Hlt]. split; [lia|]. intros ->.
      by apply (Hec c m W (wo_mem _ Hw)); [lia|]. }
  destruct (tick_source cfg) as [f|] eqn:Hf; [|by apply Hfacts].
  destruct (sample_tick_ok cfg Hcb _ Hw2) as (_ & Hcpu & _ & t & Hs).
  apply Hfacts; [by rewrite Hcpu|]. unfold consumed. by rewrite Hs.
Qed.

(** Each turn that continues is a step down: more consumption, or a smaller budget,
    or less room. *)
Lemma turn_progress w id cpu paid budget w' b' :
  looping w id cpu budget -> 0 <= paid -> turn cfg w id cpu paid budget = (w', Some b') ->
  looping w' id cpu b' /\
  (consumed w id < consumed w' id \/
   (consumed w' id = consumed w id /\
    (b' < budget \/
     (b' = budget /\ 2 <= room (cpu_at w cpu) /\ room (cpu_at w' cpu) <= room (cpu_at w cpu) - 2)))).
Proof.
  intros [Hw Hin Hb Hco Hrg] Hpd Ht.
  pose proof (turn_ok cfg Hcb w id cpu paid budget Hw Hin ltac:(lia) Hpd) as Hok. rewrite Ht in Hok.
  destruct Hok as [Hw' Hin']. destruct (Hin' b' eq_refl) as [Hin1 _]. clear Hin'.
  revert Ht. unfold turn.
  pose proof (run_quantum_ok cfg Hcb w id cpu budget Hw Hin ltac:(lia)) as Hq.
  pose proof (run_quantum_facts w id cpu budget Hw Hin ltac:(lia)) as Hf.
  destruct (run_quantum cfg w cpu budget) as [[w1 r] used].
  destruct Hq as (Hw1 & Hs1 & Hu). destruct Hf as (Hc1 & Hr1 & Hl1 & Hexp & Hec).
  assert (small_regions (cpu_at w1 cpu)) as Hrg1
    by (intros a; specialize (Hrg a); unfold region_of, xlat_pick in *; by rewrite Hr1, Hl1).
  destruct r; [|..|done|done].
  - specialize (Hexp eq_refl). subst used. destruct (in_critical _); [|done].
    fold (consumed w1 id). rewrite Hc1.
    assert (u32 (consumed w id + budget) = consumed w id + budget) as ->
      by (apply u32_small; change (2 ^ 32) with 0x100000000 in Hcap; umach; lia).
    destruct (Z.ltb_spec (max_overrun cfg) (consumed w id + budget)); [done|]. intros [= <- <-].
    pose proof (cb_quantum _ Hcb).
    assert (consumed (set_sched w1 (set_consumed (w_sched w1) id (consumed w id + budget))) id =
            consumed w id + budget) as E.
    { unfold consumed. cbn [set_sched w_sched set_consumed critical_section_consumed].
      destruct (sw_len _ (wo_sched _ Hw1)) as (_ & _ & Hlen). destruct Hin as (Hi & _).
      rewrite aget_aset by lia. by rewrite decide_True. }
    split; [split; [done|done|lia| |done]|left]; unfold consumed in *; cbn in E |- *; rewrite E; lia.
  - destruct (Hec eq_refl) as [Hlt Hzero].
    destruct Hs1 as (Hi & Hv & Hp). pose proof Hp as Hp'. rewrite <-Hv in Hp'.
    destruct (Hcp w1 id Hw1 Hi Hp') as (Hpc & Hr2 & Hl2 & Hc2). rewrite Hv in *.
    destruct (halted _); [done|]. destruct (negb _); [done|].
    destruct (Z.leb_spec budget used); [done|]. intros [= <- <-].
    assert (consumed (dispatch_ecall cfg w1 cpu) id = consumed w id) as E
      by (unfold consumed in *; congruence).
    split.
    + split; [done|done|lia|by rewrite E|].
      intros a. specialize (Hrg1 a). unfold region_of, xlat_pick in *. by rewrite Hr2, Hl2.
    + right. split; [done|]. destruct (Z.eqb_spec used 0) as [->|]; [right|left; lia].
      destruct (Hzero eq_refl) as [(size & Hsz & Hpc1) Hroom].
      split; [lia|]. split; [done|].
      rewrite (room_ecall (cpu_at w cpu) _ size); try done; try congruence; [lia|].
      destruct (in_slot_wf _ _ _ Hw Hin) as [W _]. apply W.
Qed.

Lemma turns_end A : forall B R w id cpu paid budget,
  looping w id cpu budget -> 0 <= paid ->
  Z.to_nat (max_overrun cfg - consumed w id) = A -> Z.to_nat budget = B ->
  Z.to_nat (room (cpu_at w cpu) + 4) = R ->
  exists n, forall fuel, (n <= fuel)%nat ->
    exists w', turns cfg fuel w id cpu paid budget = Some w'.
Proof.
  induction A as [A IHA] using lt_wf_ind. intros B.
  induction B as [B IHB] using lt_wf_ind. intros R.
  induction R as [R IHR] using lt_wf_ind. intros w id cpu paid budget Hl Hpd HA HB HR.
  destruct (turn cfg w id cpu paid budget) as [w1 [b1|]] eqn:Ht.
  2: { exists 1%nat. intros [|fuel] Hf; [lia|]. exists w1. cbn [turns]. by rewrite Ht. }
  destruct (turn_progress _ _ _ _ _ _ _ Hl Hpd Ht) as [Hl1 Hdec].
  assert (exists n, forall fuel, (n <= fuel)%nat ->
    exists w', turns cfg fuel w1 id cpu paid b1 = Some w') as [n Hn].
  { destruct Hl as [_ _ Hb Hc _]. pose proof (lo_consumed _ _ _ _ Hl1).
    pose proof (lo_budget _ _ _ _ Hl1).
    destruct Hdec as [Hlt|(Heq & [Hlt|(-> & Hroom & Hlt)])].
    - by apply (IHA (Z.to_nat (max_overrun cfg - consumed w1 id)) ltac:(lia) (Z.to_nat b1)
        (Z.to_nat (room (cpu_at w1 cpu) + 4)) w1 id cpu paid b1 Hl1 Hpd).
    - apply (IHB (Z.to_nat b1) ltac:(lia) (Z.to_nat (room (cpu_at w1 cpu) + 4)) w1 id cpu paid b1
        Hl1 Hpd); [by rewrite Heq|done..].
    - apply (IHR (Z.to_nat (room (cpu_at w1 cpu) + 4)) ltac:(lia) w1 id cpu paid budget Hl1 Hpd);
        [by rewrite Heq|done..]. }
  exists (Datatypes.S n). intros [|fuel] Hf; [lia|]. cbn [turns]. rewrite Ht. apply Hn. lia.
Qed.
End live.

(** What a quantum does to the scheduler's own state. *)
Lemma run_quantum_sched {S} (cfg : VmSchedConfig S) w cpu budget :
  callbacks_ok cfg -> world_ok w -> cpu_wf (cpu_at w cpu) -> 0 <= budget ->
  let '(w1, r, used) := run_quantum cfg w cpu budget in
  exists t, w_sched w1 =
    set_tick (set_totals (w_sched w) (u64 (total_quanta_run (w_sched w) + 1))
                (u64 (total_instructions (w_sched w) + used)) (trapped_vms (w_sched w))) t /\
  same_host_state (cpu_at w cpu) (cpu_at w1 cpu) /\ 0 <= used <= budget.
Proof.
  intros Hcb Hw W Hb. unfold run_quantum.
  pose proof (vm_step_ok (cpu_at w cpu) (w_mem w) budget W (wo_mem _ Hw) Hb) as Hst.
  destruct (vm_step _ _ _) as [[[r c] m] used]. destruct Hst as (_ & _ & Hh & Hu & _).
  assert (same_host_state (cpu_at w cpu) (if decide (cpu = cpu) then c else w_cpus w cpu)) as Hc
    by (by rewrite decide_True).
  unfold sample_tick. destruct (tick_source cfg) as [f|] eqn:Hf; [|by eexists].
  match goal with |- context [f ?u ?x] => destruct (cb_tick cfg Hcb f x Hf) as (Hs & _ & Hcpu);
    destruct (f u x) as [w' t] end.
  cbn [fst] in *. exists (u32 t). split; [cbn [set_sched w_sched]; by rewrite Hs|].
  split; [|done]. specialize (Hcpu cpu). cbn [cpu_at world_store set_sched w_cpus set_mem put_cpu] in *.
  by rewrite Hcpu.
Qed.

Lemma run_next_returns {S} (cfg : VmSchedConfig S) w :
  callbacks_ok cfg -> calls_progress cfg -> max_overrun cfg + baseline_quantum cfg < 2 ^ 32 ->
  world_ok w ->
  (ready (w_sched w) <> 0 ->
     consumed w (chosen w) <= max_overrun cfg /\
     small_regions (cpu_at w (vm_at (w_sched w) (chosen w)))) ->
  exists n, forall fuel, (n <= fuel)%nat -> exists w' r, run_next cfg fuel w = Some (w', r).
Proof.
  intros Hcb Hcp Hcap Hw Hyp. unfold run_next.
  destruct (Z.eqb_spec (ready (w_sched w)) 0) as [E|E]; [exists O; by eauto|].
  destruct (Hyp E) as [Hco Hrg]. destruct (chosen_slot w Hw E) as [Hin _].
  fold (chosen w). pose proof Hin as (Hi & _). rewrite (proj2 (Z.ltb_ge _ _)) by lia.
  pose proof (quantum_range cfg Hcb _ (chosen w) (wo_sched _ Hw)) as Hq.
  destruct (effective_quantum cfg (w_sched w) (chosen w)) as [budget paid].
  destruct Hq as (_ & _ & Hb & Hpd).
  assert (looping cfg w (chosen w) (vm_at (w_sched w) (chosen w)) budget) as Hl.
  { split; try done. split; [|done].
    apply (aget_u32 _ _ (proj2 (sw_u32 _ (wo_sched _ Hw)))). }
  destruct (turns_end cfg Hcb Hcp Hcap _ _ _ _ _ _ paid _ Hl ltac:(lia) eq_refl eq_refl eq_refl)
    as [n Hn].
  exists n. intros fuel Hf. destruct (Hn fuel Hf) as [w' ->]. by eauto.
Qed.

(** ** Properties *)

(** C19. A scheduling decision ends.  In a well-formed world, when the cap on
    critical sections is in force, system calls do not rewind the guests they serve
    and the regions of the VM about to run are smaller than their windows, the loop
    of [vm_sched_step] comes to a stop whatever the guest executes: from some fuel
    on the decision always returns. *)
Theorem sched_step_returns {S} (cfg : VmSchedConfig S) w :
  callbacks_ok cfg -> calls_progress cfg -> max_critical_overrun cfg + baseline_quantum cfg < 2 ^ 32 ->
  world_ok w ->
  let w1 := housekeep cfg w in
  (ready (w_sched w1) <> 0 ->
     consumed w1 (chosen w1) <= max_critical_overrun cfg /\
     small_regions (cpu_at w1 (vm_at (w_sched w1) (chosen w1)))) ->
  exists n, forall fuel, (n <= fuel)%nat -> exists w' r, vm_sched_step cfg fuel w = Some (w', r).
Proof.
  intros Hcb Hcp Hcap Hw w1 Hyp. by apply run_next_returns, Hyp; [..|apply housekeep_ok].
Qed.

(** Quanta and debt.  The VM that a decision serves gets the baseline quantum
    less the debt it pays, never less than half of it; when it spends that quantum
    outside a critical section and without a call, the decision retires exactly that
    many instructions, lowers its debt by exactly what was withheld, and leaves the
    other VMs' debts alone. *)
Theorem quantum_and_debt {S} (cfg : VmSchedConfig S) w fuel :
  callbacks_ok cfg -> world_ok w -> ready (w_sched w) <> 0 ->
  let id := chosen w in
  let cpu := vm_at (w_sched w) id in
  let baseline := baseline_quantum cfg in
  let withheld := Z.min (aget (debt (w_sched w)) id) (baseline / 2) in
  let quantum := baseline - withheld in
  (run_quantum cfg w cpu quantum).1.2 = VM_STEP_QUANTUM_EXPIRED ->
  in_critical (cpu_at w cpu) = false ->
  baseline <= 2 * quantum <= 2 * baseline /\
  exists w', run_next cfg (Datatypes.S fuel) w = Some (w', VM_SCHED_RAN) /\
    total_instructions (w_sched w') = u64 (total_instructions (w_sched w) + quantum) /\
    (forall j, 0 <= j -> aget (debt (w_sched w')) j =
       if decide (j = id) then aget (debt (w_sched w)) id - withheld
       else aget (debt (w_sched w)) j).
Proof.
  intros Hcb Hw Hne id cpu baseline withheld quantum Hexp Hcrit.
  destruct (chosen_slot w Hw Hne) as [Hin _]. fold id in Hin. fold cpu in Hin.
  destruct (in_slot_wf _ _ _ Hw Hin) as [W _].
  pose proof (quantum_range cfg Hcb _ id (wo_sched _ Hw)) as Hq. unfold run_next.
  rewrite (proj2 (Z.eqb_neq _ 0)) by done. fold (chosen w). fold id. fold cpu.
  pose proof Hin as (Hi & _ & _). rewrite (proj2 (Z.ltb_ge _ _)) by lia.
  destruct (effective_quantum cfg (w_sched w) id) as [budget paid].
  destruct Hq as (Hsum & Hpd & Hb & Hpo). fold baseline in Hsum, Hpd, Hb.
  assert (paid = withheld) as -> by done. assert (budget = quantum) as -> by (unfold quantum; lia).
  assert (0 <= withheld <= baseline / 2) as Hwh by lia.
  assert (2 * (baseline / 2) <= baseline) as Hhalf by zlia.
  split; [unfold quantum; lia|]. cbn [turns]. unfold turn.
  pose proof (run_quantum_sched cfg w cpu quantum Hcb Hw W ltac:(lia)) as Hs.
  pose proof (run_quantum_facts cfg Hcb w id cpu quantum Hw Hin ltac:(lia)) as Hf.
  destruct (run_quantum cfg w cpu quantum) as [[w1 r] used]. cbn [fst snd] in Hexp. subst r.
  destruct Hs as (t & Hs & Hh & _). destruct Hf as (_ & _ & _ & Hused & _).
  rewrite (Hused eq_refl) in *.
  assert (in_critical (cpu_at w1 cpu) = false) as Hc1 by (destruct Hh as (_ & _ & _ & -> & _); done).
  rewrite Hc1.
  assert (in_critical (cpu_at (pay_debt w1 id withheld) cpu) = false) as -> by done. cbn [negb].
  eexists. split; [done|]. unfold pay_debt.
  cbn [set_sched w_sched set_cursor set_consumed set_debt debt total_instructions]. rewrite Hs.
  split; [done|]. intros j Hj. cbn [set_tick set_totals debt]. destruct (sw_len _ (wo_sched _ Hw)) as (_ & Hlen & _).
  rewrite aget_aset by lia. case_decide; [|done]. by rewrite (proj2 (Z.leb_le _ _)) by lia.
Qed.

(** ** A guest that hides its critical section

    [ecall; j .-4] with [SYS_SELF] in [a7], inside a critical section, under a
    quantum of 4 and a cap of 8. *)
Definition capped_conf : VmSchedConfig unit :=
  mkConfig 4 8 None None (Some cpu_router) None 0 0 0.
Definition capped_cfg : VmSchedConfig unit := init_config (Some capped_conf).
Definition call_loop : World unit :=
  (vm_sched_register
     (mkWorld zero_sched
        (fun _ => set_critical (set_reg demo_cpu VM_REG_A7 SYS_SELF) true)
        (mem_write (fun _ => 0) 0x1000 (le_bytes 4 0x73 ++ le_bytes 4 0xFFDFF06F)) tt) 8).1.

(** The cap is checked against the last slice of each quantum only: a guest that
    makes a system call every other instruction has one instruction in four counted
    here, and retires 36 instructions in one critical section before the cap of 8
    stops it. *)
Lemma critical_cap_undercounts :
  max_critical_overrun capped_cfg = 8 /\
  match vm_sched_step capped_cfg 80 call_loop with
  | Some (w', _) => total_instructions (w_sched w') = 36 /\ halted (cpu_at w' 8) = true
  | None => False
  end.
Proof. split; [done|]. vm_compute. done. Qed.

(** ** Witnesses *)

Lemma cpu_calls_progress {S} (cfg : VmSchedConfig S) :
  ecall_router cfg = Some cpu_router -> calls_progress cfg.
Proof.
  intros Hr w id Hw Hi Hp cpu w'. destruct (wo_cpu _ Hw id Hi Hp) as [W _].
  pose proof (cpu_router_call cfg w cpu Hr Hp W) as E.
  subst w' cpu. rewrite E. cbn. rewrite decide_True by done.
  unfold cpu_call_spec. by repeat case_match.
Qed.

Lemma small_regions_host c c' :
  small_regions c -> regions c' = regions c -> l2_shared c' = l2_shared c -> small_regions c'.
Proof. intros H Hr Hl a. specialize (H a). unfold region_of, xlat_pick in *. by rewrite Hr, Hl. Qed.

Lemma two_spinners_regions : small_regions demo_cpu.
Proof.
  intros a. unfold region_of, xlat_pick, demo_cpu. cbn [regions l2_shared].
  destruct (_ =? _); [by destruct (negb _)|]. cbn [fst].
  by destruct (Z.to_nat _) as [|[|[|[|[]]]]].
Qed.

Lemma sched_step_returns_witness :
  max_critical_overrun demo_cfg + baseline_quantum demo_cfg < 2 ^ 32 /\
  exists n, forall fuel, (n <= fuel)%nat ->
    exists w' r, vm_sched_step demo_cfg fuel two_spinners = Some (w', r).
Proof.
  split; [reflexivity|]. apply sched_step_returns.
  - apply demo_callbacks.
  - apply cpu_calls_progress. reflexivity.
  - reflexivity.
  - apply two_spinners_ok.
  - intros _. split; [vm_compute; discriminate|].
    apply (small_regions_host demo_cpu); [apply two_spinners_regions|vm_compute; reflexivity..].
Defined.

Lemma quantum_and_debt_witness :
  exists w', run_next demo_cfg 1 two_spinners = Some (w', VM_SCHED_RAN) /\
    total_instructions (w_sched w') = u64 (total_instructions (w_sched two_spinners) + 2).
Proof.
  destruct (quantum_and_debt demo_cfg two_spinners 0 demo_callbacks two_spinners_ok) as [_ (w' & H1 & H2 & _)].
  - vm_compute. discriminate.
  - vm_compute. reflexivity.
  - vm_compute. reflexivity.
  - exists w'. split; [exact H1|exact H2].
Defined.
