(* ===== verification/VmSystem.v ===== *)
(** The VM system ([src/vm/vm_system.c], the cooperative build): the scheduler, the
    ECALL router, the two slabs, a mailbox and an allocation list per VM, and the
    ECALL handlers that need them.

    State: [VmSystem] is the part [S] of the scheduler's [World]; CPUs are where the
    scheduler keeps them.  The configuration, which only [vm_system_init] writes, is
    an argument, and so are the unload hooks (callbacks on the world), the addresses
    of the automatic variables of the message handlers, and [sizeof(VmCpu)].  The
    scheduler is reached through the table of [vm_sched_ops_coop.c], whose entries
    are the functions of [VmSched]. *)
From stdpp Require Import list.
From S2P Require Import Prelude HostMem RingBuffer FifoQueue SlabStack VmCpu VmExec VmLoader VmGuests VmMailbox VmEcall VmSched.
#[local] Open Scope Z_scope.

(** ** Numbers *)

Definition SYS_TICKS_NOW : Z := 1043.
Definition SYS_TICK_HZ : Z := 1044.
Definition SYS_SLEEP_TICKS : Z := 1045.
Definition SYS_SLEEP_UNTIL : Z := 1046.
Definition SYS_SET_RELOAD_PERIOD : Z := 1047.
Definition SYS_YIELD_UNTIL_RELOAD : Z := 1048.
Definition SYS_ALLOC : Z := 1056.
Definition SYS_FREE : Z := 1057.
Definition SYS_SEND : Z := 1072.
Definition SYS_RECV : Z := 1073.
Definition SYS_MAILBOX_INFO : Z := 1074.
Definition SYS_WHITELIST_ADD : Z := 1075.
Definition SYS_WHITELIST_REMOVE : Z := 1076.
Definition SYS_SLAB_STATS : Z := 1106.
Definition SYS_VM_STATS : Z := 1107.

Definition VM_EPERM : Z := 1.
Definition VM_ENOENT : Z := 2.
Definition VM_EIO : Z := 5.
Definition VM_EAGAIN : Z := 11.
Definition VM_ENOMEM : Z := 12.
Definition VM_EFAULT : Z := 14.

Definition VM_PER_VM_ALLOC_CAP : Z := 32.
Definition SHARED_GUEST_BASE : Z := 0xC0000000.
Definition VM_SLAB_STATS_VERSION : Z := 1.
Definition VM_VM_STATS_VERSION : Z := 1.
Definition VM_SLAB_STATS_BIN_COUNT : Z := 16.

Definition DEFAULT_BASELINE_QUANTUM : Z := 5000.
Definition DEFAULT_MAX_CRITICAL_OVERRUN : Z := 50000.
Definition DEFAULT_MAILBOX_SLOT_SIZE : Z := 32.
Definition DEFAULT_MAILBOX_DEPTH : Z := 8.
Definition DEFAULT_SLAB_BUCKETS : list Z := [16; 16; 8; 8; 4; 2; 1; 1; 0; 0; 0; 0; 0; 0; 0; 0].

(** ** State *)

Record VmAllocTracking := mkTracking {
  t_blocks : list Z;
  t_count : Z
}.

Definition zero_tracking : VmAllocTracking :=
  mkTracking (replicate (Z.to_nat VM_PER_VM_ALLOC_CAP) 0) 0.

Definition zero_mailbox : VmMailbox FifoQueue :=
  mkMailbox 0 0 0 0 0 0 0 (mkFifoQueue (mkRingBuffer 0 0 0 0 0 0)).

Record VmSystem := mkSystem {
  sys_vms : list Z;
  sys_mailboxes : list (VmMailbox FifoQueue);
  sys_tracking : list VmAllocTracking;
  sys_shared : SlabAllocator;
  sys_local : SlabAllocator
}.

Definition zero_system : VmSystem :=
  mkSystem (replicate 64 0) (replicate 64 zero_mailbox) (replicate 64 zero_tracking) slab_zero slab_zero.

Definition SysWorld : Type := World VmSystem.

(** [sys->vms[i]], [sys->mailboxes[i]] and [sys->alloc_tracking[i]]. *)
Definition vm_slot (w : SysWorld) (i : Z) : Z := aget (sys_vms (w_sys w)) i.
Definition mailbox_at (w : SysWorld) (i : Z) : VmMailbox FifoQueue :=
  nth (Z.to_nat i) (sys_mailboxes (w_sys w)) zero_mailbox.
Definition tracking_at (w : SysWorld) (i : Z) : VmAllocTracking :=
  nth (Z.to_nat i) (sys_tracking (w_sys w)) zero_tracking.

(** ** Assignments *)

Definition set_sys (w : SysWorld) (s : VmSystem) : SysWorld :=
  mkWorld (w_sched w) (w_cpus w) (w_mem w) s.
Definition set_vm_slot (w : SysWorld) (i p : Z) : SysWorld :=
  let s := w_sys w in
  set_sys w (mkSystem (aset (sys_vms s) i p) (sys_mailboxes s) (sys_tracking s) (sys_shared s) (sys_local s)).
Definition set_mailbox (w : SysWorld) (i : Z) (mb : VmMailbox FifoQueue) : SysWorld :=
  let s := w_sys w in
  set_sys w (mkSystem (sys_vms s) (<[Z.to_nat i := mb]> (sys_mailboxes s)) (sys_tracking s) (sys_shared s) (sys_local s)).
Definition set_tracking (w : SysWorld) (i : Z) (t : VmAllocTracking) : SysWorld :=
  let s := w_sys w in
  set_sys w (mkSystem (sys_vms s) (sys_mailboxes s) (<[Z.to_nat i := t]> (sys_tracking s)) (sys_shared s) (sys_local s)).
Definition set_shared_slab (w : SysWorld) (m : mem) (a : SlabAllocator) : SysWorld :=
  let s := w_sys w in
  mkWorld (w_sched w) (w_cpus w) m (mkSystem (sys_vms s) (sys_mailboxes s) (sys_tracking s) a (sys_local s)).
Definition set_local_slab (w : SysWorld) (m : mem) (a : SlabAllocator) : SysWorld :=
  let s := w_sys w in
  mkWorld (w_sched w) (w_cpus w) m (mkSystem (sys_vms s) (sys_mailboxes s) (sys_tracking s) (sys_shared s) a).

(** The slabs' operations on the world. *)
Definition shared_alloc (w : SysWorld) (n : Z) : SysWorld * Z :=
  let '(m, a, p) := slab_alloc (w_mem w) (sys_shared (w_sys w)) n in (set_shared_slab w m a, p).
Definition shared_free (w : SysWorld) (p : Z) : SysWorld * SlabResult :=
  let '(m, a, r) := slab_free (w_mem w) (sys_shared (w_sys w)) p in (set_shared_slab w m a, r).
Definition local_alloc (w : SysWorld) (n : Z) : SysWorld * Z :=
  let '(m, a, p) := slab_alloc (w_mem w) (sys_local (w_sys w)) n in (set_local_slab w m a, p).
Definition local_free (w : SysWorld) (p : Z) : SysWorld * SlabResult :=
  let '(m, a, r) := slab_free (w_mem w) (sys_local (w_sys w)) p in (set_local_slab w m a, r).

(** [cpu->regs[VM_REG_A0] = v], and the errno returns. *)
Definition ret (w : SysWorld) (cpu v : Z) : SysWorld :=
  put_cpu w cpu (set_reg (cpu_at w cpu) VM_REG_A0 (u32 v)).
Definition fail (w : SysWorld) (cpu e : Z) : SysWorld := ret w cpu (- e).

(** [cpu->trap_cause = TRAP_NONE] *)
Definition clear_cause (c : VmCpu) : VmCpu :=
  set_trap c TRAP_NONE (trap_pc c) (trap_addr c) (trap_insn c).

(** ** Configuration *)

Record VmSystemConfig := mkSysConfig {
  shared_storage : Z;
  shared_storage_size : Z;
  l2_shared_storage : Z;
  l2_shared_storage_size : Z;
  local_storage : Z;
  local_storage_size : Z;
  slab_config : list Z;
  sc_baseline_quantum : Z;
  sc_max_critical_overrun : Z;
  sc_tick_source : option (Z -> SysWorld -> SysWorld * Z);
  sc_tick_source_userdata : Z;
  sc_ticks_per_second : Z;
  sc_trap_handler : option (Z -> Z -> SysWorld -> SysWorld * VmTrapAction);
  sc_idle_handler : option (Z -> Z -> SysWorld -> SysWorld);
  default_mailbox_slot_size : Z;
  default_mailbox_depth : Z;
  max_vms : Z;
  spawn_data_kb : Z
}.

(** ** Tracking of shared blocks *)

(** [vm_system_get_mailbox]: the mailbox of a slot in use. *)
Definition vm_system_get_mailbox (w : SysWorld) (id : Z) : option (VmMailbox FifoQueue) :=
  if VM_SCHED_MAX_VMS <=? id then None else
  if vm_slot w id =? 0 then None else Some (mailbox_at w id).

(** The first index of [blocks] that holds [p]. *)
Definition find_block (p : Z) (blocks : list Z) : option nat := fst <$> list_find (eq p) blocks.

Definition track_alloc (w : SysWorld) (id host_p : Z) : SysWorld * bool :=
  if VM_SCHED_MAX_VMS <=? id then (w, false) else
  let t := tracking_at w id in
  if VM_PER_VM_ALLOC_CAP <=? t_count t then (w, false) else
  match find_block 0 (t_blocks t) with
  | Some i => (set_tracking w id (mkTracking (<[i := host_p]> (t_blocks t)) (u8 (t_count t + 1))), true)
  | None => (w, false)
  end.

Definition untrack_alloc (w : SysWorld) (id host_p : Z) : SysWorld * bool :=
  if VM_SCHED_MAX_VMS <=? id then (w, false) else
  let t := tracking_at w id in
  match find_block host_p (t_blocks t) with
  | Some i => (set_tracking w id (mkTracking (<[i := 0]> (t_blocks t)) (u8 (t_count t - 1))), true)
  | None => (w, false)
  end.

Definition addr_in_shared (guest_addr : Z) : bool := Z.land guest_addr 0xC0000000 =? 0xC0000000.

(** [while ((int32_t)(now - next) >= 0 && safety-- > 0) next += period] *)
Fixpoint next_reload (safety : nat) (now period next : Z) : Z :=
  match safety with
  | O => next
  | S safety =>
      if tick_reached now next then next_reload safety now period (u32 (next + period)) else next
  end.

Definition RELOAD_SAFETY : nat := Z.to_nat 1024.

(** ** Statistics records, as the bytes the guest gets *)

Definition pack_bin_info (b : SlabBinInfo) : Z :=
  Z.lor (Z.land (bucket_count b) 0xFFFF) (Z.shiftl (Z.land (blocks_in_use b) 0xFFFF) 16).

Definition slab_words (a : SlabAllocator) : list Z :=
  [total_bytes_managed a; total_bytes_in_use a; peak_bytes_in_use a;
   alloc_count a; free_count a; failed_alloc_count a].

Definition bin_words (a : SlabAllocator) : list Z :=
  map (fun i => pack_bin_info (bin_at a (Z.of_nat i))) (seq 0 (Z.to_nat VM_SLAB_STATS_BIN_COUNT)).

Definition words_bytes (ws : list Z) : list Z := flat_map (le_bytes 4) ws.

Definition VmSlabStatsRecord_size : Z := 180.
Definition slab_stats_record (ls ss : SlabAllocator) : list Z :=
  le_bytes 2 VM_SLAB_STATS_VERSION ++ le_bytes 2 VM_SLAB_STATS_BIN_COUNT ++
  words_bytes (slab_words ls ++ slab_words ss ++ bin_words ls ++ bin_words ss).

Definition VmVmStatsRecord_size : Z := 40.
Definition vm_stats_record (target : VmCpu) (target_id alloc_count : Z) (mb : VmMailbox FifoQueue) : list Z :=
  let state := if halted target then 0
               else if bool_decide (block_reason target = BLOCK_NONE) then 1 else 2 in
  let len r := rg_length (nth (Z.to_nat r) (regions target) no_region) in
  let rb := fifo_rb (mb_fifo mb) in
  le_bytes 2 VM_VM_STATS_VERSION ++ le_bytes 2 target_id ++
  le_bytes 1 state ++ le_bytes 1 (if in_critical target then 1 else 0) ++ le_bytes 1 alloc_count ++ le_bytes 1 0 ++
  words_bytes [len VM_REGION_CODE; len VM_REGION_RODATA; len VM_REGION_DATA;
    rb_capacity rb * rb_element_size rb; instructions_retired target;
    Z.shiftr (instructions_retired target) 32; trap_count target; ecall_count target].

(** ** Handlers *)

Section handlers.
Variable cfg : VmSystemConfig.
(** The automatic variables of the message handlers: the mailbox's scratch array
    and the sender's id. *)
Variables scratch sender_var : Z.

Definition ops_now (w : SysWorld) : Z := global_tick (w_sched w).

(** A handler of a CPU in a system, both pointers being checked first. *)
Definition sys_handler (body : Z -> SysWorld -> SysWorld) : VmEcallHandler SysWorld :=
  fun cpu system w => if (cpu =? 0) || (system =? 0) then w else body cpu w.

Definition handle_alloc : VmEcallHandler SysWorld := sys_handler (fun cpu w =>
  let c := cpu_at w cpu in
  let size := reg c VM_REG_A0 in
  if size =? 0 then fail w cpu VM_EINVAL else
  if VM_PER_VM_ALLOC_CAP <=? t_count (tracking_at w (vm_id c)) then fail w cpu VM_ENOMEM else
  let '(w, host_p) := shared_alloc w size in
  if host_p =? 0 then fail w cpu VM_ENOMEM else
  match track_alloc w (vm_id c) host_p with
  | (w, false) => let '(w, _) := shared_free w host_p in fail w cpu VM_ENOMEM
  | (w, true) =>
      let base := shared_storage cfg in
      if (host_p <? base) || (shared_storage_size cfg <=? host_p - base) then
        let '(w, _) := untrack_alloc w (vm_id c) host_p in
        let '(w, _) := shared_free w host_p in fail w cpu VM_ENOMEM
      else ret w cpu (SHARED_GUEST_BASE + u32 (host_p - base))
  end).

Definition handle_free : VmEcallHandler SysWorld := sys_handler (fun cpu w =>
  let c := cpu_at w cpu in
  let guest_addr := reg c VM_REG_A0 in
  if negb (addr_in_shared guest_addr) then fail w cpu VM_EINVAL else
  let offset := u32 (guest_addr - SHARED_GUEST_BASE) in
  if shared_storage_size cfg <=? offset then fail w cpu VM_EINVAL else
  let host_p := shared_storage cfg + offset in
  match untrack_alloc w (vm_id c) host_p with
  | (w, false) => fail w cpu VM_EINVAL
  | (w, true) =>
      match shared_free w host_p with
      | (w, SLAB_OK) => ret w cpu 0
      | (w, _) => fail w cpu VM_EINVAL
      end
  end).

(** The delivery into the memory of a receiver that waits, if it does. *)
Definition deliver_now (w : SysWorld) (cpu target target_id : Z) (mb : VmMailbox FifoQueue)
    (payload payload_size : Z) : SysWorld * bool :=
  let tc := cpu_at w target in
  if negb (bool_decide (block_reason tc = BLOCK_MAILBOX_RECV)) then (w, false) else
  match vm_translate_write tc (internal0 tc) payload_size with
  | (None, tc) => (put_cpu w target tc, false)
  | (Some dst, _) =>
      let w := set_mem w (memcpy (w_mem w) dst payload payload_size) in
      let w := put_cpu w target (clear_cause (cpu_at w target)) in
      let w := (vm_sched_wake_mailbox w target_id (vm_id (cpu_at w cpu))).1 in
      let w := put_cpu w target (set_internal (cpu_at w target) 0) in
      let w := ret w cpu 0 in
      (set_mailbox w target_id
         (set_stats mb (u32 (sends_accepted mb + 1)) (sends_rejected_full mb)
            (sends_rejected_perm mb) (recvs mb)), true)
  end.

Definition queue_message (w : SysWorld) (cpu target_id : Z) (mb : VmMailbox FifoQueue)
    (payload payload_size : Z) : SysWorld :=
  let '(m, mb, r) :=
    vm_mailbox_send (w_mem w) mb scratch (vm_id (cpu_at w cpu)) payload (u16 payload_size) in
  let w := set_mailbox (set_mem w m) target_id mb in
  match r with
  | VM_MBOX_OK => ret w cpu 0
  | VM_MBOX_ERR_NOT_WHITELISTED | VM_MBOX_ERR_BAD_VM_ID => fail w cpu VM_EPERM
  | VM_MBOX_ERR_FULL => fail w cpu VM_EAGAIN
  | _ => fail w cpu VM_EINVAL
  end.

Definition handle_send : VmEcallHandler SysWorld := sys_handler (fun cpu w =>
  let c := cpu_at w cpu in
  let target_id := reg c VM_REG_A0 in
  let guest_payload := reg c VM_REG_A1 in
  let payload_size := reg c VM_REG_A2 in
  if VM_SCHED_MAX_VMS <=? target_id then fail w cpu VM_ENOENT else
  let target := vm_slot w target_id in
  match vm_system_get_mailbox w (u16 target_id) with
  | None => fail w cpu VM_ENOENT
  | Some mb =>
      if target =? 0 then fail w cpu VM_ENOENT else
      if negb (payload_size =? slot_size mb) then fail w cpu VM_EINVAL else
      match vm_translate_read c guest_payload payload_size with
      | (None, c) => fail (put_cpu w cpu (clear_cause c)) cpu VM_EFAULT
      | (Some payload, _) =>
          if negb (vm_mailbox_whitelist_check mb (vm_id c)) then fail w cpu VM_EPERM else
          match deliver_now w cpu target target_id mb payload payload_size with
          | (w, true) => w
          | (w, false) => queue_message w cpu target_id mb payload payload_size
          end
      end
  end).

Definition handle_recv : VmEcallHandler SysWorld := sys_handler (fun cpu w =>
  let c := cpu_at w cpu in
  let guest_dest := reg c VM_REG_A0 in
  let timeout := reg c VM_REG_A1 in
  match vm_system_get_mailbox w (vm_id c) with
  | None => fail w cpu VM_EINVAL
  | Some mb =>
      match vm_translate_write c guest_dest (slot_size mb) with
      | (None, c) => fail (put_cpu w cpu (clear_cause c)) cpu VM_EFAULT
      | (Some dest, _) =>
          let m := store16 (w_mem w) sender_var 0 in
          let '(m, mb, r) := vm_mailbox_recv m mb scratch dest sender_var in
          let w := set_mailbox (set_mem w m) (vm_id c) mb in
          match r with
          | VM_MBOX_OK => ret w cpu (load16 (w_mem w) sender_var)
          | VM_MBOX_ERR_EMPTY =>
              if timeout =? 0 then fail w cpu VM_EAGAIN else
              if in_critical c then fail w cpu VM_EBUSY else
              let deadline := if timeout =? UINT32_MAX then 0 else u32 (ops_now w + timeout) in
              put_cpu w cpu (set_block (set_internal (cpu_at w cpu) guest_dest) BLOCK_MAILBOX_RECV deadline)
          | _ => fail w cpu VM_EINVAL
          end
      end
  end).

Definition handle_mailbox_info : VmEcallHandler SysWorld := sys_handler (fun cpu w =>
  let c := cpu_at w cpu in
  let target_id := reg c VM_REG_A0 in
  if VM_SCHED_MAX_VMS <=? target_id then fail w cpu VM_ENOENT else
  match vm_system_get_mailbox w (u16 target_id) with
  | None => fail w cpu VM_ENOENT
  | Some mb =>
      if negb (vm_mailbox_whitelist_check mb (vm_id c)) then fail w cpu VM_EPERM else
      let w := ret w cpu (slot_size mb) in
      put_cpu w cpu (set_reg (cpu_at w cpu) VM_REG_A1 (u32 (vm_mailbox_free_slots mb)))
  end).

(** [handle_whitelist_add] and [handle_whitelist_remove] differ in one call. *)
Definition whitelist_handler (op : VmMailbox FifoQueue -> Z -> VmMailbox FifoQueue * VmMailboxResult)
    : VmEcallHandler SysWorld := sys_handler (fun cpu w =>
  let c := cpu_at w cpu in
  let sender_id := reg c VM_REG_A0 in
  match vm_system_get_mailbox w (vm_id c) with
  | None => fail w cpu VM_EINVAL
  | Some mb =>
      let '(mb, r) := op mb (u16 sender_id) in
      let w := set_mailbox w (vm_id c) mb in
      match r with VM_MBOX_OK => ret w cpu 0 | _ => fail w cpu VM_ENOENT end
  end).

Definition handle_whitelist_add : VmEcallHandler SysWorld := whitelist_handler vm_mailbox_whitelist_set.
Definition handle_whitelist_remove : VmEcallHandler SysWorld := whitelist_handler vm_mailbox_whitelist_clear.

Definition handle_ticks_now : VmEcallHandler SysWorld := sys_handler (fun cpu w => ret w cpu (ops_now w)).

Definition handle_tick_hz : VmEcallHandler SysWorld :=
  sys_handler (fun cpu w => ret w cpu (sc_ticks_per_second cfg)).

Definition handle_sleep_ticks : VmEcallHandler SysWorld := sys_handler (fun cpu w =>
  let n := reg (cpu_at w cpu) VM_REG_A0 in
  if n =? 0 then
    let w := ret w cpu 0 in
    let c := cpu_at w cpu in put_cpu w cpu (set_block c BLOCK_YIELDED (block_deadline c))
  else put_cpu w cpu (set_block (cpu_at w cpu) BLOCK_SLEEP (u32 (ops_now w + n)))).

Definition handle_sleep_until : VmEcallHandler SysWorld := sys_handler (fun cpu w =>
  let deadline := reg (cpu_at w cpu) VM_REG_A0 in
  if tick_reached (ops_now w) deadline then
    let w := ret w cpu 0 in
    let c := cpu_at w cpu in put_cpu w cpu (set_block c BLOCK_YIELDED (block_deadline c))
  else put_cpu w cpu (set_block (cpu_at w cpu) BLOCK_SLEEP deadline)).

Definition handle_set_reload_period : VmEcallHandler SysWorld := sys_handler (fun cpu w =>
  let c := cpu_at w cpu in
  let p := reg c VM_REG_A0 in
  let deadline := if p =? 0 then 0 else u32 (ops_now w + p) in
  ret (put_cpu w cpu (set_reload c p deadline)) cpu 0).

Definition handle_yield_until_reload : VmEcallHandler SysWorld := sys_handler (fun cpu w =>
  let c := cpu_at w cpu in
  if reload_period c =? 0 then
    let w := ret w cpu 0 in
    let c := cpu_at w cpu in put_cpu w cpu (set_block c BLOCK_YIELDED (block_deadline c))
  else
    let now := ops_now w in
    let period := reload_period c in
    let next := next_reload RELOAD_SAFETY now period (reload_next_deadline c) in
    put_cpu w cpu (set_block (set_reload c period (u32 (next + period))) BLOCK_SLEEP next)).

(** [vm_translate_write] to a record, and the record's [memcpy]. *)
Definition write_record (w : SysWorld) (cpu guest_ptr size : Z) (rec : list Z) : SysWorld :=
  match vm_translate_write (cpu_at w cpu) guest_ptr size with
  | (None, c) => fail (put_cpu w cpu (clear_cause c)) cpu VM_EFAULT
  | (Some host_buf, _) => ret (set_mem w (mem_write (w_mem w) host_buf rec)) cpu size
  end.

Definition handle_slab_stats : VmEcallHandler SysWorld := sys_handler (fun cpu w =>
  let c := cpu_at w cpu in
  let guest_ptr := reg c VM_REG_A0 in
  let buf_size := reg c VM_REG_A1 in
  if buf_size <? VmSlabStatsRecord_size then fail w cpu VM_EINVAL else
  write_record w cpu guest_ptr VmSlabStatsRecord_size
    (slab_stats_record (sys_local (w_sys w)) (sys_shared (w_sys w)))).

Definition handle_vm_stats : VmEcallHandler SysWorld := sys_handler (fun cpu w =>
  let c := cpu_at w cpu in
  let arg_vm_id := reg c VM_REG_A0 in
  let guest_ptr := reg c VM_REG_A1 in
  let buf_size := reg c VM_REG_A2 in
  if buf_size <? VmVmStatsRecord_size then fail w cpu VM_EINVAL else
  if negb (arg_vm_id =? 0xFFFF) && (VM_SCHED_MAX_VMS <=? arg_vm_id) then fail w cpu VM_EINVAL else
  let target_id := if arg_vm_id =? 0xFFFF then vm_id c else arg_vm_id in
  let target := vm_slot w target_id in
  if target =? 0 then fail w cpu VM_ENOENT else
  write_record w cpu guest_ptr VmVmStatsRecord_size
    (vm_stats_record (cpu_at w target) target_id (t_count (tracking_at w target_id))
       (mailbox_at w target_id))).

Definition system_handler_entries : list (Z * VmEcallHandler SysWorld) :=
  [(SYS_ALLOC, handle_alloc); (SYS_FREE, handle_free); (SYS_SEND, handle_send); (SYS_RECV, handle_recv);
   (SYS_MAILBOX_INFO, handle_mailbox_info); (SYS_WHITELIST_ADD, handle_whitelist_add);
   (SYS_WHITELIST_REMOVE, handle_whitelist_remove); (SYS_TICKS_NOW, handle_ticks_now);
   (SYS_TICK_HZ, handle_tick_hz); (SYS_SLEEP_TICKS, handle_sleep_ticks);
   (SYS_SLEEP_UNTIL, handle_sleep_until); (SYS_SET_RELOAD_PERIOD, handle_set_reload_period);
   (SYS_YIELD_UNTIL_RELOAD, handle_yield_until_reload); (SYS_SLAB_STATS, handle_slab_stats);
   (SYS_VM_STATS, handle_vm_stats)].

Definition install_system_handlers (r : VmEcallRouter SysWorld) : VmEcallRouter SysWorld * bool :=
  install_loop r [] system_handler_entries.

(** ** Guests *)

Inductive VmSystemResult :=
  | VM_SYS_OK
  | VM_SYS_ERR_FULL
  | VM_SYS_ERR_NO_ARENA_SPACE
  | VM_SYS_ERR_LOAD_FAILED
  | VM_SYS_ERR_INVALID_ARG.

Record VmLoadVmResult := mkLoadVmResult {
  lv_code : VmSystemResult;
  lv_load_result : VmLoadResult;
  lv_assigned_vm_id : Z
}.

(** The arguments of [vm_system_load_vm_with_mailbox]. *)
Record LoadRequest := mkLoadRequest {
  lq_elf_image : Z;
  lq_elf_size : Z;
  lq_data_region_size : Z;
  lq_code_backing : VmBacking;
  lq_rodata_backing : VmBacking;
  lq_mailbox_slot_size : Z;
  lq_mailbox_depth : Z
}.

Definition loader_config (q : LoadRequest) : VmLoaderConfig :=
  mkLoaderConfig (lq_code_backing q) (lq_rodata_backing q) (lq_data_region_size q)
    (shared_storage cfg) (u32 (shared_storage_size cfg))
    (l2_shared_storage cfg) (u32 (l2_shared_storage_size cfg)).

Variable sizeof_VmCpu : Z.

(** The loop that frees the regions of a CPU, in the error path and on unload. *)
Definition release_regions (w : SysWorld) (cpu : Z) : SysWorld :=
  let c := cpu_at w cpu in
  let '(m, a, rs) := free_regions (w_mem w) (sys_local (w_sys w)) (regions c) in
  put_cpu (set_local_slab w m a) cpu (set_regions c rs (l2_shared c)).

(** The [fail] label: [cpu], [assigned] and [mbox_storage] as far as acquired. *)
Definition unwind (w : SysWorld) (cpu assigned mbox_storage : Z) : SysWorld :=
  let w := if cpu =? 0 then w else release_regions w cpu in
  let w := if 0 <=? assigned then set_vm_slot (vm_sched_unregister w assigned) assigned 0 else w in
  let w := if mbox_storage =? 0 then w else (local_free w mbox_storage).1 in
  if cpu =? 0 then w else (local_free w cpu).1.

Definition vm_system_load_vm_with_mailbox (w : SysWorld) (q : LoadRequest) : SysWorld * VmLoadVmResult :=
  let err code := mkLoadVmResult code VM_LOAD_OK (-1) in
  if (lq_elf_image q =? 0) || (lq_elf_size q =? 0) || (lq_data_region_size q =? 0)
  then (w, err VM_SYS_ERR_INVALID_ARG) else
  let '(w, cpu) := local_alloc w sizeof_VmCpu in
  if cpu =? 0 then (unwind w 0 (-1) 0, err VM_SYS_ERR_NO_ARENA_SPACE) else
  let w := put_cpu w cpu (vm_init 0) in
  let '(w, assigned) := vm_sched_register w cpu in
  if assigned <? 0 then (unwind w cpu assigned 0, err VM_SYS_ERR_FULL) else
  let w := set_vm_slot w assigned cpu in
  let w := set_tracking w assigned zero_tracking in
  let bytes := vm_mailbox_required_storage_bytes (lq_mailbox_slot_size q) (lq_mailbox_depth q) in
  if bytes =? 0 then (unwind w cpu assigned 0, err VM_SYS_ERR_INVALID_ARG) else
  let '(w, mbox_storage) := local_alloc w bytes in
  if mbox_storage =? 0 then (unwind w cpu assigned 0, err VM_SYS_ERR_NO_ARENA_SPACE) else
  match vm_mailbox_init (mailbox_at w assigned) mbox_storage (lq_mailbox_slot_size q) (lq_mailbox_depth q) with
  | (mb, VM_MBOX_OK) =>
      let w := set_mailbox w assigned mb in
      let '((m, a, c), lr) :=
        vm_load (w_mem w, sys_local (w_sys w), cpu_at w cpu) (lq_elf_image q) (lq_elf_size q) (loader_config q) in
      let w := put_cpu (set_local_slab w m a) cpu c in
      match lr with
      | VM_LOAD_OK => (w, mkLoadVmResult VM_SYS_OK VM_LOAD_OK assigned)
      | _ => (unwind w cpu assigned mbox_storage, mkLoadVmResult VM_SYS_ERR_LOAD_FAILED lr (-1))
      end
  | (mb, _) => (unwind (set_mailbox w assigned mb) cpu assigned mbox_storage, err VM_SYS_ERR_INVALID_ARG)
  end.

Definition vm_system_load_vm (w : SysWorld) (elf_image elf_size data_region_size : Z)
    (code rodata : VmBacking) : SysWorld * VmLoadVmResult :=
  vm_system_load_vm_with_mailbox w
    (mkLoadRequest elf_image elf_size data_region_size code rodata
       (default_mailbox_slot_size cfg) (default_mailbox_depth cfg)).
End handlers.

(** ** Unloading *)

(** An unload hook and its userdata. *)
Definition unload_hook : Type := option (Z -> Z -> SysWorld -> SysWorld) * Z.

Definition vm_system_register_unload_hook (hooks : list unload_hook)
    (hook : option (Z -> Z -> SysWorld -> SysWorld)) (userdata : Z) : list unload_hook * bool :=
  match hook with
  | None => (hooks, false)
  | Some _ => if 8 <=? Z.of_nat (length hooks) then (hooks, false) else (hooks ++ [(hook, userdata)], true)
  end.

Definition run_hooks (hooks : list unload_hook) (id : Z) (w : SysWorld) : SysWorld :=
  foldl (fun w h => match h.1 with Some f => f id h.2 w | None => w end) w hooks.

(** Freeing the tracked blocks, one after the other. *)
Definition free_tracked (w : SysWorld) (blocks : list Z) : SysWorld :=
  foldl (fun w p => if p =? 0 then w else (shared_free w p).1) w blocks.

Definition release_tracking (w : SysWorld) (id : Z) : SysWorld :=
  let t := tracking_at w id in
  if 0 <? t_count t then
    set_tracking (free_tracked w (t_blocks t)) id (mkTracking (map (fun _ => 0) (t_blocks t)) 0)
  else w.

Section unload.
Variable hooks : list unload_hook.

Definition vm_system_unload_vm (w : SysWorld) (id : Z) : SysWorld * bool :=
  if VM_SCHED_MAX_VMS <=? id then (w, false) else
  let cpu := vm_slot w id in
  if cpu =? 0 then (w, false) else
  let w := put_cpu w cpu (set_halted (cpu_at w cpu) true) in
  let w := run_hooks hooks id w in
  let w := release_regions w cpu in
  let w := release_tracking w id in
  let mbox_storage := rb_storage (fifo_rb (mb_fifo (mailbox_at w id))) in
  let w := if mbox_storage =? 0 then w else (local_free w mbox_storage).1 in
  let w := (local_free w cpu).1 in
  let w := vm_sched_unregister w id in
  let w := set_vm_slot w id 0 in
  (set_mailbox w id zero_mailbox, true).

(** ** Reaping *)

Definition waits_for (w : SysWorld) (cid pid : Z) : bool :=
  let p := vm_slot w pid in
  negb (p =? 0) && bool_decide (block_reason (cpu_at w p) = BLOCK_ON_CHILD) &&
  (block_child_vm (cpu_at w p) =? cid).

(** The search for the parent, [n] slots from [pid]. *)
Fixpoint find_parent (n : nat) (w : SysWorld) (cid pid : Z) : Z :=
  match n with
  | O => UINT16_MAX
  | S n => if waits_for w cid pid then pid else find_parent n w cid (pid + 1)
  end.

(** A synchronous exception, from [TRAP_ILLEGAL_INSTR] to [TRAP_INSTR_MISALIGNED]. *)
Definition crashed (t : VmTrapCause) : bool :=
  match t with
  | TRAP_ILLEGAL_INSTR | TRAP_LOAD_FAULT | TRAP_STORE_FAULT | TRAP_LOAD_MISALIGNED
  | TRAP_STORE_MISALIGNED | TRAP_STORE_RO | TRAP_INSTR_FETCH_FAULT | TRAP_INSTR_MISALIGNED => true
  | _ => false
  end.

Definition exit_status (child : VmCpu) : Z :=
  if crashed (trap_cause child) then - VM_EIO else Z.land (reg child VM_REG_A0) 0xff.

Definition reap_one (w : SysWorld) (cid : Z) : SysWorld :=
  let child := vm_slot w cid in
  if (child =? 0) || negb (halted (cpu_at w child)) then w else
  let parent_id := find_parent (Z.to_nat VM_SCHED_MAX_VMS) w cid 0 in
  let w := if parent_id =? UINT16_MAX then w
           else (vm_sched_wake_child w parent_id (exit_status (cpu_at w child))).1 in
  (vm_system_unload_vm w cid).1.

Definition vm_system_reap_halted_children (w : SysWorld) : SysWorld :=
  foldl reap_one w (map Z.of_nat (seq 0 (Z.to_nat VM_SCHED_MAX_VMS))).

Definition vm_system_step (sched_cfg : VmSchedConfig VmSystem) (fuel : nat) (w : SysWorld)
    : option (SysWorld * VmSchedStepResult) :=
  match vm_sched_step sched_cfg fuel w with
  | Some (w, r) => Some (vm_system_reap_halted_children w, r)
  | None => None
  end.

Definition vm_system_run (sched_cfg : VmSchedConfig VmSystem) (max_cycles fuel : nat) (w : SysWorld)
    : option (SysWorld * bool) := vm_sched_run sched_cfg max_cycles fuel w.
End unload.

Definition vm_system_destroy (w : SysWorld) : SysWorld :=
  let halt w i :=
    let cpu := vm_slot w i in
    if cpu =? 0 then w else put_cpu w cpu (set_halted (cpu_at w cpu) true) in
  let w := foldl halt w (map Z.of_nat (seq 0 (Z.to_nat VM_SCHED_MAX_VMS))) in
  mkWorld zero_sched (w_cpus w) (w_mem w) zero_system.

(** ** Sizing and initialisation *)

(** [slab_bin_for_size] ([slab_stack.h]): doubling from the smallest class. *)
Fixpoint bin_from (n : nat) (sz total bin : Z) : Z :=
  match n with
  | O => bin
  | S n => if sz <? total then bin_from n (Z.shiftl sz 1) total (bin + 1) else bin
  end.
Definition slab_bin_for_size (bytes : Z) : Z := bin_from 15 32 (u64 (bytes + SLAB_HEADER_SIZE)) 0.

(** [cfg.bucket_counts[bin] += n] on 16-bit counts. *)
Definition add_buckets (counts : list Z) (bin n : Z) : list Z :=
  aset counts bin (u16 (aget counts bin + n)).

Definition local_buckets (sizeof_VmCpu max_vms spawn_data_kb : Z) : list Z :=
  let headroom := u16 (if max_vms <? 32 then 1 else max_vms / 16) in
  let per_bin_slots := u16 (max_vms + headroom) in
  let bin_cpu := slab_bin_for_size sizeof_VmCpu in
  let bin_mbox := slab_bin_for_size 2048 in
  let bin_data := slab_bin_for_size (u64 (spawn_data_kb * 1024)) in
  let counts := replicate 16 0 in
  let counts := add_buckets counts bin_cpu per_bin_slots in
  let counts := add_buckets counts bin_mbox per_bin_slots in
  let counts := add_buckets counts bin_data per_bin_slots in
  let bin_segment_hi := if 0 <? bin_data then bin_data - 1 else 0 in
  foldl (fun counts b => add_buckets counts (Z.of_nat b) per_bin_slots) counts
    (seq 0 (Z.to_nat (bin_segment_hi + 1))).

Definition vm_system_local_required (sizeof_VmCpu max_vms spawn_data_kb : Z) : Z :=
  let max_vms := if max_vms =? 0 then 8 else max_vms in
  let spawn_data_kb := if spawn_data_kb =? 0 then 16 else spawn_data_kb in
  slab_required_bytes (local_buckets sizeof_VmCpu max_vms spawn_data_kb).

Definition or_default (v d : Z) : Z := if v =? 0 then d else v.

(** The configuration with its defaults filled in. *)
Definition fill_config (c : VmSystemConfig) : VmSystemConfig :=
  mkSysConfig (shared_storage c) (shared_storage_size c) (l2_shared_storage c) (l2_shared_storage_size c)
    (local_storage c) (local_storage_size c)
    (if forallb (Z.eqb 0) (slab_config c) then DEFAULT_SLAB_BUCKETS else slab_config c)
    (or_default (sc_baseline_quantum c) DEFAULT_BASELINE_QUANTUM)
    (or_default (sc_max_critical_overrun c) DEFAULT_MAX_CRITICAL_OVERRUN)
    (sc_tick_source c) (sc_tick_source_userdata c) (sc_ticks_per_second c) (sc_trap_handler c) (sc_idle_handler c)
    (or_default (default_mailbox_slot_size c) DEFAULT_MAILBOX_SLOT_SIZE)
    (or_default (default_mailbox_depth c) DEFAULT_MAILBOX_DEPTH)
    (or_default (max_vms c) 8) (or_default (spawn_data_kb c) 16).

(** [vm_system_init] on the system at [sys]: the world, and on success the filled
    configuration and the scheduler's (with the router in it). *)
Definition vm_system_init (w : SysWorld) (sys : Z) (cfg : VmSystemConfig) (sizeof_VmCpu scratch sender_var : Z)
    : SysWorld * option (VmSystemConfig * VmSchedConfig VmSystem) :=
  if (shared_storage cfg =? 0) || (shared_storage_size cfg =? 0) then (w, None) else
  if (local_storage cfg =? 0) || (local_storage_size cfg =? 0) then (w, None) else
  let w := set_sys w zero_system in
  let cfg := fill_config cfg in
  match slab_init (w_mem w) (sys_shared (w_sys w)) (shared_storage cfg) (shared_storage_size cfg) (slab_config cfg) with
  | (m, a, SLAB_OK) =>
      let w := set_shared_slab w m a in
      match slab_init (w_mem w) (sys_local (w_sys w)) (local_storage cfg) (local_storage_size cfg)
              (local_buckets sizeof_VmCpu (max_vms cfg) (spawn_data_kb cfg)) with
      | (m, a, SLAB_OK) =>
          let w := set_local_slab w m a in
          match vm_ecall_install_cpu_handlers vm_ecall_router_init with
          | (r, true) =>
              match install_system_handlers cfg scratch sender_var r with
              | (r, true) =>
                  let '(w, sched_cfg) := vm_sched_init w
                    (Some (mkConfig (sc_baseline_quantum cfg) (sc_max_critical_overrun cfg)
                             (sc_trap_handler cfg) (sc_idle_handler cfg) (Some r) (sc_tick_source cfg)
                             (sc_tick_source_userdata cfg) (sc_ticks_per_second cfg) sys)) in
                  (w, Some (cfg, sched_cfg))
              | (_, false) => (w, None)
              end
          | (_, false) => (w, None)
          end
      | (m, a, _) => (set_local_slab w m a, None)
      end
  | (m, a, _) => (set_shared_slab w m a, None)
  end.
