(* ===== verification/VmSysInit.v ===== *)
(** Initialisation of the VM system ([vm_system_init], [vm_system_local_required] and
    [install_system_handlers] in [src/vm/vm_system.c]): when it succeeds, and the
    state it leaves. *)
From stdpp Require Import list gmap.
From S2P Require Import Prelude HostMem FifoQueue SlabStack SlabInv SlabInit VmCpu VmMailbox VmEcall VmSched VmSystem.
#[local] Open Scope Z_scope.

(** ** Sizing *)

Lemma bin_from_range n : forall sz total bin, bin <= bin_from n sz total bin <= bin + Z.of_nat n.
Proof.
  induction n as [|n IH]; intros sz total bin; cbn [bin_from]; [lia|].
  destruct (sz <? total); [|lia]. specialize (IH (Z.shiftl sz 1) total (bin + 1)). lia.
Qed.

Lemma slab_bin_range n : 0 <= slab_bin_for_size n < 16.
Proof. unfold slab_bin_for_size. pose proof (bin_from_range 15 32 (u64 (n + SLAB_HEADER_SIZE)) 0). lia. Qed.

(** The doubling loop stops at the first class that is large enough, or the last. *)
Lemma bin_from_spec n : forall i total, 0 <= i -> (i = 0 \/ bin_size (i - 1) < total) ->
  let b := bin_from n (bin_size i) total i in
  i <= b <= i + Z.of_nat n /\ (b < i + Z.of_nat n -> total <= bin_size b) /\ (b = 0 \/ bin_size (b - 1) < total).
Proof.
  induction n as [|n IH]; intros i total Hi Hlow b; cbn [bin_from] in b.
  { subst b. split_and!; [lia|lia|lia|done]. }
  destruct (Z.ltb_spec (bin_size i) total) as [Hlt|Hge].
  - assert (Z.shiftl (bin_size i) 1 = bin_size (i + 1)) as E.
    { unfold bin_size. rewrite Z.shiftl_shiftl by lia. f_equal. }
    subst b. rewrite E. destruct (IH (i + 1) total ltac:(lia)) as (H1 & H2 & H3).
    { right. by replace (i + 1 - 1) with i by lia. }
    split_and!; [lia|lia| |done]. intros Hb. apply H2. lia.
  - subst b. split_and!; [lia|lia|intros; lia|done].
Qed.

(** [slab_bin_for_size] names the class that [slab_alloc] serves the size from. *)
Lemma slab_bin_for_size_agrees n : 0 < n -> n + SLAB_HEADER_SIZE <= 0x100000 ->
  slab_bin_for_size n = size_to_bin n.
Proof.
  intros Hn Hmax. unfold SLAB_HEADER_SIZE in *. destruct (size_to_bin_spec n Hn) as (Hr & Hfit & Hlow);
    [unfold SLAB_HEADER_SIZE; lia|]. unfold SLAB_BIN_COUNT, SLAB_HEADER_SIZE in *.
  unfold slab_bin_for_size, SLAB_HEADER_SIZE. rewrite u64_small by (umach; lia).
  change 32 with (bin_size 0) at 1.
  destruct (bin_from_spec 15 0 (n + 8) ltac:(lia) ltac:(by left)) as (H1 & H2 & H3).
  set (b := bin_from 15 (bin_size 0) (n + 8) 0) in *. set (s := size_to_bin n) in *.
  assert (s <> 16) as Hs.
  { intros E. rewrite E in Hlow. specialize (Hlow ltac:(lia)). change (bin_size (16 - 1)) with 0x100000 in Hlow. lia. }
  specialize (Hfit ltac:(lia)).
  assert (n + 8 <= bin_size b) as Hb.
  { destruct (decide (b = 15)) as [->|]; [|apply H2; lia]. change (bin_size 15) with 0x100000. lia. }
  assert (forall i j, 0 <= i -> 0 <= j -> bin_size (i - 1) < n + 8 -> n + 8 <= bin_size j -> 0 < i -> i <= j) as Hmono.
  { intros i j Hi Hj Hlo Hhi Hpos. destruct (Z.le_gt_cases i j); [done|].
    assert (bin_size j <= bin_size (i - 1)); [|lia]. rewrite !bin_size_pow by lia. apply Z.pow_le_mono_r; lia. }
  apply Z.le_antisymm.
  - destruct H3 as [->|H3]; [lia|]. destruct (decide (b = 0)); [lia|]. apply Hmono; try done; lia.
  - destruct (decide (s = 0)); [lia|]. apply Hmono; try done; lia.
Qed.

Definition counts_ok (l : list Z) : Prop := length l = 16%nat /\ Forall is_u16 l.

Lemma add_buckets_ok l b n : counts_ok l -> counts_ok (add_buckets l b n).
Proof.
  intros [Hl Hf]. unfold add_buckets, aset. split; [by rewrite length_insert|].
  apply Forall_insert; [done|apply is_u16_range].
Qed.

Lemma local_buckets_ok sz mv kb : counts_ok (local_buckets sz mv kb).
Proof.
  unfold local_buckets. cbv zeta. set (n := u16 (mv + _)).
  assert (forall bs l, counts_ok l -> counts_ok (foldl (fun c b => add_buckets c (Z.of_nat b) n) l bs)) as Hf.
  { intros bs. induction bs as [|b bs IH]; intros l Hl; [done|]. cbn [foldl]. by apply IH, add_buckets_ok. }
  apply Hf. repeat apply add_buckets_ok. split; [done|]. by apply Forall_replicate.
Qed.

(** ** The state after initialisation *)

(** What an embedder has to provide: two storage areas in the address space, apart
    from each other, the shared one within the guests' window. *)
Record storage_ok (cfg : VmSystemConfig) : Prop := {
  st_config : counts_ok (slab_config cfg);
  st_shared : 0 < shared_storage cfg /\ shared_storage cfg + shared_storage_size cfg < 0x10000000000000000;
  st_window : shared_storage_size cfg <= 0x40000000;
  st_local : 0 < local_storage cfg /\ local_storage cfg + local_storage_size cfg < 0x10000000000000000;
  st_apart : rdisj (shared_storage cfg) (shared_storage_size cfg) (local_storage cfg) (local_storage_size cfg)
}.

(** The two areas are large enough. *)
Definition storage_fits (cfg : VmSystemConfig) (sizeof_VmCpu : Z) : Prop :=
  slab_required_bytes (slab_config (fill_config cfg)) <= shared_storage_size cfg /\
  slab_required_bytes (local_buckets sizeof_VmCpu (max_vms (fill_config cfg)) (spawn_data_kb (fill_config cfg)))
    <= local_storage_size cfg.

Record fresh_system (w0 : SysWorld) (cfg : VmSystemConfig) (w : SysWorld) : Prop := {
  fs_shared : slab_inv (w_mem w) (sys_shared (w_sys w));
  fs_local : slab_inv (w_mem w) (sys_local (w_sys w));
  fs_shared_region : region (sys_shared (w_sys w)) = shared_storage cfg /\
                     region_bytes (sys_shared (w_sys w)) = shared_storage_size cfg;
  fs_local_region : region (sys_local (w_sys w)) = local_storage cfg /\
                    region_bytes (sys_local (w_sys w)) = local_storage_size cfg;
  fs_idle p s : ~ live (w_mem w) (sys_shared (w_sys w)) p s /\ ~ live (w_mem w) (sys_local (w_sys w)) p s;
  fs_tables : sys_vms (w_sys w) = replicate 64 0 /\ sys_mailboxes (w_sys w) = replicate 64 zero_mailbox /\
              sys_tracking (w_sys w) = replicate 64 zero_tracking;
  fs_sched : w_sched w = zero_sched;
  fs_mem : mem_agree (fun x => ~ rng (shared_storage cfg) (shared_storage_size cfg) x /\
                               ~ rng (local_storage cfg) (local_storage_size cfg) x) (w_mem w0) (w_mem w)
}.

(** Installing handlers on free numbers succeeds and adds them. *)
Lemma install_free (r : VmEcallRouter SysWorld) (a : abs_router SysWorld) es : router_sim r a -> Forall (fun e => 0 <= e.1 /\ routable e.1) es -> NoDup es.*1 ->
  Forall (fun e => entries a !! e.1 = None) es ->
  exists r', install_loop r [] es = (r', true) /\
    router_sim r' (mkAbsRouter (list_to_map es ∪ entries a) (otherwise a)).
Proof.
  intros Hs Hes Hnd Hfree.
  pose proof (install_loop_sim a r a [] es Hs ltac:(constructor) Hes Hnd ltac:(by intros ? ?%elem_of_nil)
    ltac:(done) eq_refl) as Hi.
  destruct (install_loop r [] es) as [r' []]; [exists r'; by destruct Hi|].
  destruct Hi as [_ Hex]. exfalso. rewrite Forall_forall in Hfree.
  apply List.Exists_exists in Hex as (e & Hin & He). apply He, Hfree. by apply list_elem_of_In.
Qed.

Lemma system_entries_routable cfg sc sv : Forall (fun e => 0 <= e.1 /\ routable e.1) (system_handler_entries cfg sc sv).
Proof. by apply (bool_decide_unpack _). Qed.

Lemma system_entries_nodup cfg sc sv : NoDup (system_handler_entries cfg sc sv).*1.
Proof. by apply (bool_decide_unpack _). Qed.

Lemma system_entries_free cfg sc sv :
  Forall (fun e => (list_to_map (cpu_handler_entries (W:=SysWorld)) : gmap Z _) !! e.1 = None)
    (system_handler_entries cfg sc sv).
Proof.
  repeat (apply Forall_cons; split; [rewrite cpu_entry_lookup; reflexivity|]). by apply Forall_nil.
Qed.

Lemma install_both cfg sc sv : exists r,
  install_system_handlers cfg sc sv (vm_ecall_install_cpu_handlers vm_ecall_router_init).1 = (r, true) /\
  router_sim r (mkAbsRouter (list_to_map (system_handler_entries cfg sc sv) ∪ list_to_map cpu_handler_entries)
    default_fallback).
Proof.
  apply (install_free _ _ _ (cpu_router_sim (W:=SysWorld)));
    [apply system_entries_routable|apply system_entries_nodup|apply system_entries_free].
Qed.

Lemma fill_counts cfg : counts_ok (slab_config cfg) -> counts_ok (slab_config (fill_config cfg)).
Proof.
  intros H. cbn [fill_config slab_config]. destruct (forallb _ _); [|done]. split; [done|].
  by apply (bool_decide_unpack _).
Qed.

Lemma required_pos l : counts_ok l -> 0 < slab_required_bytes l.
Proof.
  intros [_ Hf]. unfold slab_required_bytes. assert (forall i, 0 <= required_from i l) as H.
  { induction Hf as [|n l Hn _ IH]; intros i; cbn [required_from]; [lia|]. specialize (IH (i + 1)).
    assert (0 <= bin_size i) by (by apply Z.shiftl_nonneg). unfold SLAB_HEADER_SIZE. umach.
    destruct (n =? 0); [lia|]. nia. }
  specialize (H 0). lia.
Qed.

(** A slab over enough storage. *)
Lemma slab_init_cases m a rgn bytes cfg : counts_ok cfg -> 0 < rgn -> rgn + bytes < 0x10000000000000000 ->
  let '(m', a', r) := slab_init m a rgn bytes cfg in
  if slab_required_bytes cfg <=? bytes
  then r = SLAB_OK /\ slab_inv m' a' /\ (forall p s, ~ live m' a' p s) /\ region a' = rgn /\ region_bytes a' = bytes /\
       mem_frame rgn bytes m m'
  else r = SLAB_ERR_NO_SPACE.
Proof.
  intros [Hl Hf] Hr Hb. destruct (Z.leb_spec (slab_required_bytes cfg) bytes) as [Hle|Hlt].
  - by apply slab_init_establishes.
  - unfold slab_init. rewrite (proj2 (Z.eqb_neq rgn 0)) by lia. by rewrite (proj2 (Z.ltb_lt _ _)) by lia.
Qed.

(** ** Properties *)

(** C9. Initialisation succeeds exactly when both storage areas hold their slabs with the
    configured (or default) block counts.  It then leaves two empty slabs over the two
    areas, empty tables, a cleared scheduler whose configuration points back to the
    system, and a router with the twenty standard handlers; nothing outside the two
    areas is written. *)
Theorem vm_system_init_correct w sys cfg sizeof_VmCpu scratch sender_var : storage_ok cfg ->
  let '(w', o) := vm_system_init w sys cfg sizeof_VmCpu scratch sender_var in
  match o with
  | None => ~ storage_fits cfg sizeof_VmCpu
  | Some (cfg', sched_cfg) =>
      storage_fits cfg sizeof_VmCpu /\ cfg' = fill_config cfg /\ fresh_system w cfg w' /\
      system sched_cfg = sys /\ 0 < shared_storage_size cfg /\
      exists r, ecall_router sched_cfg = Some r /\
        forall cpu wx, cpu <> 0 -> 0 <= reg (cpu_at wx cpu) VM_REG_A7 ->
          vm_ecall_dispatch r cpu sys wx =
          default default_fallback
            ((list_to_map (system_handler_entries cfg' scratch sender_var) ∪ list_to_map cpu_handler_entries
               : gmap Z (VmEcallHandler SysWorld)) !! reg (cpu_at wx cpu) VM_REG_A7) cpu sys wx
  end.
Proof.
  intros [Hcfg [Hs1 Hs2] Hw [Hl1 Hl2] Hap]. unfold vm_system_init, storage_fits.
  pose proof (fill_counts _ Hcfg) as Hc1. set (cfg' := fill_config cfg) in *.
  pose proof (local_buckets_ok sizeof_VmCpu (max_vms cfg') (spawn_data_kb cfg')) as Hc2.
  set (lb := local_buckets _ _ _) in *.
  pose proof (required_pos _ Hc1) as Hp1. pose proof (required_pos _ Hc2) as Hp2.
  rewrite (proj2 (Z.eqb_neq (shared_storage cfg) 0)), (proj2 (Z.eqb_neq (local_storage cfg) 0)) by lia. cbn [orb].
  destruct (Z.eqb_spec (shared_storage_size cfg) 0) as [E1|E1]; [lia|].
  destruct (Z.eqb_spec (local_storage_size cfg) 0) as [E2|E2]; [lia|].
  cbn [set_sys w_mem w_sys zero_system sys_shared].
  change (shared_storage cfg') with (shared_storage cfg). change (shared_storage_size cfg') with (shared_storage_size cfg).
  change (local_storage cfg') with (local_storage cfg). change (local_storage_size cfg') with (local_storage_size cfg).
  pose proof (slab_init_cases (w_mem w) slab_zero _ _ _ Hc1 Hs1 Hs2) as HS.
  destruct (slab_init (w_mem w) slab_zero (shared_storage cfg) (shared_storage_size cfg) (slab_config cfg')) as [[m1 a1] r1].
  destruct (Z.leb_spec (slab_required_bytes (slab_config cfg')) (shared_storage_size cfg)) as [Hf1|Hf1].
  2:{ subst r1. cbn beta iota. intros [H _]. lia. }
  destruct HS as (-> & I1 & N1 & R1 & B1 & F1). cbn [set_shared_slab zero_system w_mem w_sys sys_local sys_vms sys_mailboxes sys_tracking set_sys].
  pose proof (slab_init_cases m1 slab_zero _ _ _ Hc2 Hl1 Hl2) as HL.
  destruct (slab_init m1 slab_zero (local_storage cfg) (local_storage_size cfg) lb) as [[m2 a2] r2].
  destruct (Z.leb_spec (slab_required_bytes lb) (local_storage_size cfg)) as [Hf2|Hf2].
  2:{ subst r2. cbn beta iota. intros [_ H]. lia. }
  destruct HL as (-> & I2 & N2 & R2 & B2 & F2).
  destruct (install_both cfg' scratch sender_var) as (r & Er & Hr).
  change (vm_ecall_install_cpu_handlers (vm_ecall_router_init (W:=SysWorld)))
    with ((vm_ecall_install_cpu_handlers (vm_ecall_router_init (W:=SysWorld))).1, true).
  cbn beta iota. rewrite Er. cbn [vm_sched_init init_config].
  assert (mem_agree (rng (region a1) (region_bytes a1)) m1 m2) as Hag.
  { rewrite R1, B1. intros x Hx. apply F2. unfold rng, rdisj in *. lia. }
  destruct (slab_inv_agree _ _ _ I1 Hag) as [I1' L1].
  split_and!; [lia|lia|done| |done|lia|].
  - split; cbn; try done.
    + intros p s. rewrite L1. by split.
    + intros x [Hx1 Hx2]. transitivity (m1 x); [by apply F1|by apply F2].
  - exists r. split; [done|]. intros cpu wx Hcpu Ha7. by rewrite (dispatch_sim _ _ _ _ _ Hr).
Qed.

(** ** A small system *)

(** Shared storage of 1 KB at [0x10000], local storage of 28 KB at [0x20000]. *)
Definition demo_config : VmSystemConfig :=
  mkSysConfig 0x10000 1024 0 0 0x20000 28672 (4 :: 2 :: replicate 14 0) 0 0 None 0 0 None None 0 0 2 1.

Definition blank_world : SysWorld := mkWorld zero_sched (fun _ => vm_init 0) (fun _ => 0) zero_system.

Definition demo_world : SysWorld := (vm_system_init blank_world 0x500 demo_config 600 0x40000 0x42000).1.

Lemma demo_storage_ok : storage_ok demo_config.
Proof. split; cbn; unfold rdisj; try lia. split; [done|]. by apply (bool_decide_unpack _). Qed.

Lemma init_eq w sys cfg sz sc sv : match (vm_system_init w sys cfg sz sc sv).2 with Some _ => true | None => false end = true ->
  exists c, vm_system_init w sys cfg sz sc sv = ((vm_system_init w sys cfg sz sc sv).1, Some c).
Proof. destruct (vm_system_init w sys cfg sz sc sv) as [w' [c|]]; [by exists c|done]. Qed.

Lemma demo_boots : exists c, vm_system_init blank_world 0x500 demo_config 600 0x40000 0x42000 = (demo_world, Some c).
Proof. apply init_eq. by vm_compute. Qed.

Lemma vm_system_init_correct_witness :
  storage_fits demo_config 600 /\ fresh_system blank_world demo_config demo_world.
Proof.
  pose proof (vm_system_init_correct blank_world 0x500 demo_config 600 0x40000 0x42000 demo_storage_ok) as H.
  destruct demo_boots as [[c s] E]. rewrite E in H. destruct H as (H1 & _ & H2 & _). exact (conj H1 H2).
Defined.
