(* ===== verification/VmSysMem.v ===== *)
(** Shared memory of the guests: SYS_ALLOC, SYS_FREE and what an unload gives back
    ([handle_alloc], [handle_free], [track_alloc], [untrack_alloc] and the tracking
    loop of [vm_system_unload_vm] in [src/vm/vm_system.c]).  The invariant: the live
    blocks of the shared slab are exactly the tracked ones, each tracked once. *)
From stdpp Require Import list.
From S2P Require Import Prelude HostMem SlabStack SlabInv SlabInit VmCpu VmGuests VmEcall VmSched VmSchedInv VmSystem VmSysInit.
#[local] Open Scope Z_scope.

(** ** Requests that truncate *)

(** A request within seven bytes of 4 GB is served as one of a single byte. *)
Lemma size_to_bin_wraps n : 0x100000000 < n + SLAB_HEADER_SIZE -> n < 0x100000000 -> size_to_bin n = 0.
Proof.
  unfold SLAB_HEADER_SIZE. intros H1 H2.
  assert (n = 0xFFFFFFF9 \/ n = 0xFFFFFFFA \/ n = 0xFFFFFFFB \/ n = 0xFFFFFFFC \/ n = 0xFFFFFFFD \/
    n = 0xFFFFFFFE \/ n = 0xFFFFFFFF) as Hn by lia.
  by repeat destruct Hn as [->|Hn]; [..|subst n].
Qed.

Lemma slab_alloc_class m a n k : n <> 0 -> k <> 0 -> size_to_bin n = size_to_bin k -> slab_alloc m a n = slab_alloc m a k.
Proof.
  intros Hn Hk E. unfold slab_alloc. rewrite (proj2 (Z.eqb_neq n 0) Hn), (proj2 (Z.eqb_neq k 0) Hk).
  cbv zeta. by rewrite E.
Qed.

(** What a request of [n] bytes, any [uint32_t] but 0, is served as. *)
Definition served (n : Z) : Z := if 0x100000000 <? n + SLAB_HEADER_SIZE then 1 else n.

Lemma served_alloc m a n : is_u32 n -> n <> 0 ->
  slab_alloc m a n = slab_alloc m a (served n) /\ 0 < served n /\ served n + SLAB_HEADER_SIZE <= 0x100000000.
Proof.
  intros Hn H0. unfold served, is_u32 in *. destruct (Z.ltb_spec 0x100000000 (n + SLAB_HEADER_SIZE)) as [H|H].
  - split; [|unfold SLAB_HEADER_SIZE; lia]. apply slab_alloc_class; [done|done|].
    by rewrite size_to_bin_wraps by lia.
  - split; [done|lia].
Qed.

(** ** Who holds what *)

(** Block [p] is in slot [k] of VM [i]'s list. *)
Definition held (w : SysWorld) (i k : nat) (p : Z) : Prop :=
  p <> 0 /\ exists t, sys_tracking (w_sys w) !! i = Some t /\ t_blocks t !! k = Some p.

Definition tracking_ok (t : VmAllocTracking) : Prop :=
  length (t_blocks t) = 32%nat /\ t_count t = in_use (t_blocks t).

Lemma find_block_Some p bs k : find_block p bs = Some k -> bs !! k = Some p.
Proof.
  unfold find_block. destruct (list_find (eq p) bs) as [[i x]|] eqn:E; [|done]. intros [= <-].
  apply list_find_Some in E as (? & <- & _). done.
Qed.

Lemma find_block_None p bs : find_block p bs = None -> p ∉ bs.
Proof.
  unfold find_block. destruct (list_find (eq p) bs) as [[i x]|] eqn:E; [done|]. intros _ Hp.
  apply list_find_None in E. rewrite Forall_forall in E. by apply (E p Hp).
Qed.

Lemma in_use_full l : 0 ∉ l -> in_use l = Z.of_nat (length l).
Proof.
  intros H. unfold in_use. f_equal. induction l as [|p l IH]; [done|]. apply not_elem_of_cons in H as [H1 H2].
  rewrite filter_cons_True by congruence. cbn [length]. by rewrite IH.
Qed.

Lemma in_use_empty l : in_use l = 0 -> forall p, p ∈ l -> p = 0.
Proof.
  unfold in_use. intros H p Hp. destruct (decide (p = 0)) as [|Hn]; [done|].
  assert (p ∈ filter (fun p => p <> 0) l) as Hin by (by apply list_elem_of_filter).
  destruct (filter (fun p => p <> 0) l); [by apply not_elem_of_nil in Hin|done].
Qed.

Lemma tracking_insert t k p q : tracking_ok t -> t_blocks t !! k = Some p -> (p = 0 <-> q <> 0) ->
  tracking_ok (mkTracking (<[k := q]> (t_blocks t)) (u8 (t_count t + (if decide (q = 0) then -1 else 1)))).
Proof.
  intros [Hl Hc] Hk Hpq. split; cbn; [by rewrite length_insert|].
  pose proof (in_use_insert _ _ _ q Hk) as Hi. pose proof (in_use_bound (t_blocks t)) as Hb.
  pose proof (in_use_bound (<[k := q]> (t_blocks t))) as Hb2. rewrite length_insert, Hl in Hb2.
  rewrite Hc. rewrite Hi in *. unfold u8. repeat case_decide; rewrite ?Z.mod_small; lia.
Qed.

Section heap.
Context (cfg : VmSystemConfig).

Record heap_ok (w : SysWorld) : Prop := {
  ho_slab : slab_inv (w_mem w) (sys_shared (w_sys w));
  ho_region : region (sys_shared (w_sys w)) = shared_storage cfg /\
              region_bytes (sys_shared (w_sys w)) = shared_storage_size cfg;
  ho_size : shared_storage_size cfg <= 0x40000000;
  ho_vms : length (sys_tracking (w_sys w)) = 64%nat;
  ho_tracking i t : sys_tracking (w_sys w) !! i = Some t -> tracking_ok t;
  ho_live p : (exists s, live (w_mem w) (sys_shared (w_sys w)) p s) <-> exists i k, held w i k p;
  ho_once i k j l p : held w i k p -> held w j l p -> i = j /\ k = l
}.

Lemma tracking_lookup w id : heap_ok w -> 0 <= id < 64 ->
  sys_tracking (w_sys w) !! Z.to_nat id = Some (tracking_at w id) /\ tracking_ok (tracking_at w id).
Proof.
  intros H Hid. destruct (lookup_lt_is_Some_2 (sys_tracking (w_sys w)) (Z.to_nat id)) as [t Ht];
    [rewrite (ho_vms _ H); lia|].
  unfold tracking_at. rewrite nth_lookup, Ht. split; [done|]. by apply (ho_tracking _ H _ _ Ht).
Qed.

Lemma held_live w i k p : heap_ok w -> held w i k p -> exists s, live (w_mem w) (sys_shared (w_sys w)) p s.
Proof. intros H Hh. apply (ho_live _ H). by exists i, k. Qed.

(** Writing slot [k] of VM [id]'s list. *)
Lemma held_put w id k v n : 0 <= id -> (k < 32)%nat -> length (sys_tracking (w_sys w)) = 64%nat -> id < 64 ->
  length (t_blocks (tracking_at w id)) = 32%nat ->
  forall i l p, held (set_tracking w id (mkTracking (<[k := v]> (t_blocks (tracking_at w id))) n)) i l p <->
    if decide ((i, l) = (Z.to_nat id, k)) then p = v /\ v <> 0 else held w i l p.
Proof.
  intros Hid Hk Hl64 Hlt Hlen i l p. unfold held. cbn [set_tracking w_sys sys_tracking set_sys].
  destruct (lookup_lt_is_Some_2 (sys_tracking (w_sys w)) (Z.to_nat id)) as [t Ht]; [lia|].
  assert (tracking_at w id = t) as Et by (unfold tracking_at; by rewrite nth_lookup, Ht).
  rewrite Et in *. destruct (decide (i = Z.to_nat id)) as [->|Hi].
  - rewrite list_lookup_insert_eq by lia. destruct (decide (l = k)) as [->|Hk'].
    + rewrite decide_True by done. split.
      * intros (Hp & t' & [= <-] & Hl'). cbn in Hl'. rewrite list_lookup_insert_eq in Hl' by lia. by simplify_eq.
      * intros [-> Hv]. split; [done|]. eexists. split; [done|]. cbn. by rewrite list_lookup_insert_eq by lia.
    + rewrite decide_False by congruence. split.
      * intros (Hp & t' & [= <-] & Hl'). cbn in Hl'. rewrite list_lookup_insert_ne in Hl' by done.
        split; [done|]. by exists t.
      * intros (Hp & t' & Ht' & Hl'). split; [done|]. eexists. split; [done|]. cbn.
        rewrite list_lookup_insert_ne by done. congruence.
  - rewrite list_lookup_insert_ne by done. rewrite decide_False by congruence. done.
Qed.

(** ** Allocation *)

Lemma sys_handler_run body cpu system w : cpu <> 0 -> system <> 0 -> sys_handler body cpu system w = body cpu w.
Proof. intros Hc Hs. unfold sys_handler. by rewrite (proj2 (Z.eqb_neq _ _) Hc), (proj2 (Z.eqb_neq _ _) Hs). Qed.

(** A VM with room in its list has a free slot. *)
Lemma free_slot t : tracking_ok t -> t_count t < VM_PER_VM_ALLOC_CAP ->
  exists k, find_block 0 (t_blocks t) = Some k /\ t_blocks t !! k = Some 0 /\ (k < 32)%nat.
Proof.
  intros [Hl Hc] Hlt. unfold VM_PER_VM_ALLOC_CAP in Hlt. destruct (find_block 0 (t_blocks t)) as [k|] eqn:E.
  - exists k. pose proof (find_block_Some _ _ _ E) as Hk. split_and!; [done|done|].
    apply lookup_lt_Some in Hk. lia.
  - apply find_block_None, in_use_full in E. lia.
Qed.

(** The world after VM [id] got block [p], in slot [k] of its list. *)
Definition given (w : SysWorld) (m : mem) (a : SlabAllocator) (id : Z) (k : nat) (p : Z) : SysWorld :=
  let t := tracking_at w id in
  set_tracking (set_shared_slab w m a) id (mkTracking (<[k := p]> (t_blocks t)) (u8 (t_count t + 1))).

(** The outcomes of SYS_ALLOC. *)
Inductive alloc_outcome (w : SysWorld) (cpu : Z) : SysWorld -> Prop :=
  | ao_zero : reg (cpu_at w cpu) VM_REG_A0 = 0 -> alloc_outcome w cpu (fail w cpu VM_EINVAL)
  | ao_cap : t_count (tracking_at w (vm_id (cpu_at w cpu))) = VM_PER_VM_ALLOC_CAP ->
      alloc_outcome w cpu (fail w cpu VM_ENOMEM)
  | ao_full : let a := sys_shared (w_sys w) in
      bin_unavailable a (served (reg (cpu_at w cpu) VM_REG_A0)) ->
      alloc_outcome w cpu (fail (set_shared_slab w (w_mem w) (count_failure a)) cpu VM_ENOMEM)
  | ao_block m a p s k : let c := cpu_at w cpu in
      alloc_effect (w_mem w) (sys_shared (w_sys w)) (served (reg c VM_REG_A0)) m a p s ->
      slab_inv m a -> t_blocks (tracking_at w (vm_id c)) !! k = Some 0 ->
      shared_storage cfg + SLAB_HEADER_SIZE <= p /\ p + s <= shared_storage cfg + shared_storage_size cfg ->
      alloc_outcome w cpu (ret (given w m a (vm_id c) k p) cpu (SHARED_GUEST_BASE + (p - shared_storage cfg))).

Lemma handle_alloc_outcome w cpu system : heap_ok w -> cpu <> 0 -> system <> 0 ->
  0 <= vm_id (cpu_at w cpu) < 64 -> is_u32 (reg (cpu_at w cpu) VM_REG_A0) ->
  alloc_outcome w cpu (handle_alloc cfg cpu system w).
Proof.
  intros H Hc Hs Hid Hn. unfold handle_alloc. rewrite sys_handler_run by done. cbv zeta.
  set (c := cpu_at w cpu) in *. set (n := reg c VM_REG_A0) in *.
  destruct (Z.eqb_spec n 0) as [E0|E0]; [by apply ao_zero|].
  destruct (tracking_lookup w _ H Hid) as [Ht Hok]. set (t := tracking_at w (vm_id c)) in *.
  destruct (Z.leb_spec VM_PER_VM_ALLOC_CAP (t_count t)) as [Hcap|Hcap].
  { apply ao_cap. fold c t. destruct Hok as [Hl Hu]. pose proof (in_use_bound (t_blocks t)).
    unfold VM_PER_VM_ALLOC_CAP in *. lia. }
  destruct (served_alloc (w_mem w) (sys_shared (w_sys w)) n Hn E0) as (Ea & Hn1 & Hn2).
  unfold shared_alloc. rewrite Ea.
  destruct (alloc_cases _ _ (served n) (ho_slab _ H) Hn1 Hn2) as [[-> Hun]|(m & a & p & s & -> & I & Hp & Hav & A)].
  { cbn [Z.eqb]. by apply (ao_full w cpu). }
  rewrite (proj2 (Z.eqb_neq p 0) Hp). destruct (free_slot t Hok Hcap) as (k & Hf & Hk & Hk32).
  assert (track_alloc (set_shared_slab w m a) (vm_id c) p = (given w m a (vm_id c) k p, true)) as ->.
  { unfold track_alloc, VM_SCHED_MAX_VMS. rewrite (proj2 (Z.leb_gt 64 (vm_id c))) by lia.
    change (tracking_at (set_shared_slab w m a) (vm_id c)) with t.
    rewrite (proj2 (Z.leb_gt _ _) Hcap), Hf. done. }
  assert (live m a p s) as Hl by (apply (ae_live _ _ _ _ _ _ _ A); by right).
  pose proof (live_inside _ _ _ _ I Hl) as Hin. destruct (ae_region _ _ _ _ _ _ _ A) as [Er Eb].
  destruct (ho_region _ H) as [Hr Hb]. rewrite Er, Eb, Hr, Hb in Hin. pose proof (ho_size _ H).
  unfold SLAB_HEADER_SIZE in Hin.
  rewrite (proj2 (Z.ltb_ge p _)), (proj2 (Z.leb_gt _ _)) by lia. cbn [orb].
  rewrite u32_small by (umach; lia). apply (ao_block w cpu m a p s k); try done. unfold SLAB_HEADER_SIZE. lia.
Qed.

(** Changing registers keeps the heap. *)
Lemma heap_ok_same w w' : heap_ok w -> w_mem w' = w_mem w -> sys_shared (w_sys w') = sys_shared (w_sys w) ->
  sys_tracking (w_sys w') = sys_tracking (w_sys w) -> heap_ok w'.
Proof.
  intros [H1 H2 H3 H4 H5 H6 H7] Em Ea Et. split; unfold held in *; rewrite ?Em, ?Ea, ?Et; done.
Qed.

Lemma heap_ok_given w m a id k p s n : heap_ok w -> 0 <= id < 64 -> slab_inv m a ->
  alloc_effect (w_mem w) (sys_shared (w_sys w)) n m a p s -> t_blocks (tracking_at w id) !! k = Some 0 ->
  p <> 0 -> heap_ok (given w m a id k p).
Proof.
  intros H Hid I A Hk Hp. destruct (tracking_lookup w id H Hid) as [Ht Hok].
  pose proof (lookup_lt_Some _ _ _ Hk) as Hk32. destruct Hok as [Hl Hc].
  destruct (ae_region _ _ _ _ _ _ _ A) as [Er Eb]. destruct (ho_region _ H) as [Hr Hb].
  assert (forall i l q, held (given w m a id k p) i l q <->
    if decide ((i, l) = (Z.to_nat id, k)) then q = p /\ p <> 0 else held w i l q) as Hh
    by (apply (held_put (set_shared_slab w m a)); [lia|lia|apply (ho_vms _ H)|lia|done]).
  assert (forall i l, ~ held w i l p) as Hnew.
  { intros i l Hq. destruct (held_live w i l p H Hq) as [t Hq']. by apply (ae_fresh _ _ _ _ _ _ _ A t). }
  assert (~ exists q, held w (Z.to_nat id) k q) as Hfree.
  { intros (q & Hq0 & t & Ht' & Hq). rewrite Ht in Ht'. injection Ht' as <-. congruence. }
  split; cbn [given set_tracking set_shared_slab set_sys w_sys sys_shared sys_tracking w_mem].
  - done.
  - split; congruence.
  - apply (ho_size _ H).
  - rewrite length_insert. apply (ho_vms _ H).
  - intros i t. rewrite list_lookup_insert_Some. intros [(<- & <- & _)|[_ Hi]]; [|by apply (ho_tracking _ H i)].
    pose proof (tracking_insert (tracking_at w id) k 0 p (conj Hl Hc) Hk) as HT.
    rewrite (decide_False (P := p = 0)) in HT by done. apply HT. tauto.
  - intros q. split.
    + intros [t Hq]. apply (ae_live _ _ _ _ _ _ _ A) in Hq as [Hq|[-> _]].
      * destruct (proj1 (ho_live _ H q) (ex_intro _ t Hq)) as (i & l & Hil). exists i, l. apply Hh.
        case_decide as E; [|done]. injection E as -> ->. exfalso. apply Hfree. by exists q.
      * exists (Z.to_nat id), k. apply Hh. by rewrite decide_True.
    + intros (i & l & Hil). apply Hh in Hil. case_decide.
      * destruct Hil as [-> _]. exists s. apply (ae_live _ _ _ _ _ _ _ A). by right.
      * destruct (held_live w i l q H Hil) as [t Hq]. exists t. apply (ae_live _ _ _ _ _ _ _ A). by left.
  - intros i l j o q H1 H2. apply Hh in H1, H2. case_decide as E1; case_decide as E2.
    + injection E1 as -> ->. injection E2 as -> ->. done.
    + destruct H2 as [-> _]. by apply Hnew in H1.
    + destruct H1 as [-> _]. by apply Hnew in H2.
    + by apply (ho_once _ H i l j o q).
Qed.

Lemma heap_ok_fail w cpu e : heap_ok w -> heap_ok (fail w cpu e).
Proof. intros H. by apply (heap_ok_same w). Qed.

Lemma alloc_outcome_ok w cpu w' : heap_ok w -> 0 <= vm_id (cpu_at w cpu) < 64 -> alloc_outcome w cpu w' -> heap_ok w'.
Proof.
  intros H Hid [E|E|a E|m a p s k c A I Hk Hin].
  - by apply heap_ok_fail.
  - by apply heap_ok_fail.
  - apply heap_ok_fail. destruct H as [H1 H2 H3 H4 H5 H6 H7]. split; try done. by apply count_failure_inv.
  - apply (heap_ok_same (given w m a (vm_id c) k p)); try done. eapply heap_ok_given; try done.
    assert (live m a p s) as Hl by (apply (ae_live _ _ _ _ _ _ _ A); by right).
    pose proof (live_inside _ _ _ _ I Hl). lia.
Qed.

(** ** Release *)

Lemma addr_in_shared_spec g : is_u32 g -> addr_in_shared g = (SHARED_GUEST_BASE <=? g).
Proof.
  intros Hg. unfold addr_in_shared, SHARED_GUEST_BASE.
  assert (Z.land g 0xC0000000 = Z.shiftl (Z.land (Z.shiftr g 30) 3) 30) as ->.
  { apply Z.bits_inj'. intros n Hn. change 0xC0000000 with (Z.shiftl 3 30).
    rewrite Z.land_spec. destruct (Z.ltb_spec n 30).
    - by rewrite !Z.shiftl_spec_low, andb_false_r by done.
    - rewrite !Z.shiftl_spec_high, Z.land_spec, Z.shiftr_spec by lia. by replace (n - 30 + 30) with n by lia. }
  rewrite Z.shiftr_div_pow2 by lia. change 3 with (Z.ones 2) at 1. rewrite Z.land_ones by lia.
  rewrite Z.shiftl_mul_pow2 by lia. umach. change (2 ^ 30) with 0x40000000. change (2 ^ 2) with 4.
  destruct (Z.eqb_spec (g / 0x40000000 mod 4 * 0x40000000) 0xC0000000), (Z.leb_spec 0xC0000000 g); try done;
    Z.to_euclidean_division_equations; lia.
Qed.

(** The host address of a guest address in the shared region. *)
Definition guest_block (g : Z) : Z := shared_storage cfg + (g - SHARED_GUEST_BASE).

Definition given_back (w : SysWorld) (m : mem) (a : SlabAllocator) (id : Z) (k : nat) : SysWorld :=
  let t := tracking_at w id in
  set_shared_slab (set_tracking w id (mkTracking (<[k := 0]> (t_blocks t)) (u8 (t_count t - 1)))) m a.

Inductive free_outcome (w : SysWorld) (cpu : Z) : SysWorld -> Prop :=
  | fo_refused : let c := cpu_at w cpu in
      (forall k, ~ held w (Z.to_nat (vm_id c)) k (guest_block (reg c VM_REG_A0))) ->
      free_outcome w cpu (fail w cpu VM_EINVAL)
  | fo_freed m a s k : let c := cpu_at w cpu in let p := guest_block (reg c VM_REG_A0) in
      held w (Z.to_nat (vm_id c)) k p -> free_effect (w_mem w) (sys_shared (w_sys w)) p s m a -> slab_inv m a ->
      free_outcome w cpu (ret (given_back w m a (vm_id c) k) cpu 0).

Lemma held_inside w i k p : heap_ok w -> held w i k p ->
  shared_storage cfg + SLAB_HEADER_SIZE <= p < shared_storage cfg + shared_storage_size cfg.
Proof.
  intros H Hh. destruct (held_live w i k p H Hh) as [s Hs]. destruct (ho_region _ H) as [Hr Hb].
  pose proof (live_inside _ _ _ _ (ho_slab _ H) Hs). rewrite Hr, Hb in *. lia.
Qed.

Lemma held_at w id k p : heap_ok w -> 0 <= id < 64 ->
  held w (Z.to_nat id) k p <-> p <> 0 /\ t_blocks (tracking_at w id) !! k = Some p.
Proof.
  intros H Hid. destruct (tracking_lookup w id H Hid) as [Ht _]. unfold held. rewrite Ht.
  split; [intros (Hp & t & [= <-] & Hk); done|intros [Hp Hk]; split; [done|by eexists]].
Qed.

Lemma handle_free_outcome w cpu system : heap_ok w -> cpu <> 0 -> system <> 0 ->
  0 <= vm_id (cpu_at w cpu) < 64 -> is_u32 (reg (cpu_at w cpu) VM_REG_A0) ->
  free_outcome w cpu (handle_free cfg cpu system w).
Proof.
  intros H Hc Hs Hid Hg. unfold handle_free. rewrite sys_handler_run by done. cbv zeta.
  set (c := cpu_at w cpu) in *. set (g := reg c VM_REG_A0) in *. rewrite addr_in_shared_spec by done.
  assert (forall k, held w (Z.to_nat (vm_id c)) k (guest_block g) ->
    SHARED_GUEST_BASE <= g /\ g - SHARED_GUEST_BASE < shared_storage_size cfg) as Hin.
  { intros k Hk. pose proof (held_inside _ _ _ _ H Hk) as Hi. unfold guest_block, SLAB_HEADER_SIZE in Hi. lia. }
  destruct (Z.leb_spec SHARED_GUEST_BASE g) as [Hge|Hlt]; cbn [negb].
  2:{ apply (fo_refused w cpu). intros k Hk. destruct (Hin k Hk). lia. }
  rewrite u32_small by (unfold SHARED_GUEST_BASE in *; umach; lia).
  destruct (Z.leb_spec (shared_storage_size cfg) (g - SHARED_GUEST_BASE)) as [Hbig|Hsm].
  { apply (fo_refused w cpu). intros k Hk. destruct (Hin k Hk). lia. }
  change (shared_storage cfg + (g - SHARED_GUEST_BASE)) with (guest_block g).
  unfold untrack_alloc, VM_SCHED_MAX_VMS. rewrite (proj2 (Z.leb_gt 64 (vm_id c))) by lia.
  destruct (tracking_lookup w _ H Hid) as [Ht _].
  destruct (find_block (guest_block g) (t_blocks (tracking_at w (vm_id c)))) as [k|] eqn:Ef.
  2:{ apply (fo_refused w cpu). intros k [_ Hk]%held_at; [|done|done]. apply find_block_None in Ef.
      apply Ef, list_elem_of_lookup. by exists k. }
  apply find_block_Some in Ef. set (w1 := set_tracking _ _ _).
  destruct (decide (guest_block g = 0)) as [E0|E0].
  { exfalso. destruct (si_layout _ _ (ho_slab _ H)) as [mid L]. destruct (lay_region _ _ L) as [Hr0 _].
    destruct (ho_region _ H) as [Hr _]. unfold guest_block in E0. lia. }
  assert (held w (Z.to_nat (vm_id c)) k (guest_block g)) as Hk by (by apply held_at).
  destruct (held_live _ _ _ _ H Hk) as [s Hl]. unfold shared_free. cbn [w_mem w_sys sys_shared].
  change (w_mem w1) with (w_mem w). change (sys_shared (w_sys w1)) with (sys_shared (w_sys w)).
  pose proof (slab_free_succeeds _ _ _ _ (ho_slab _ H) Hl) as Hf.
  destruct (slab_free (w_mem w) (sys_shared (w_sys w)) (guest_block g)) as [[m a] r].
  destruct Hf as (-> & I & F). by apply (fo_freed w cpu m a s k).
Qed.

Lemma heap_ok_back w m a id k p s : heap_ok w -> 0 <= id < 64 -> held w (Z.to_nat id) k p -> slab_inv m a ->
  free_effect (w_mem w) (sys_shared (w_sys w)) p s m a -> heap_ok (given_back w m a id k).
Proof.
  intros H Hid Hk I F. destruct (tracking_lookup w id H Hid) as [Ht [Hl Hc]].
  pose proof (proj1 (held_at w id k p H Hid) Hk) as [Hp Hkp]. pose proof (lookup_lt_Some _ _ _ Hkp).
  destruct (fe_region _ _ _ _ _ _ F) as [Er Eb]. destruct (ho_region _ H) as [Hr Hb].
  assert (forall i l q, held (given_back w m a id k) i l q <-> held w i l q /\ q <> p) as Hh.
  { intros i l q. transitivity (held (set_tracking w id
      (mkTracking (<[k := 0]> (t_blocks (tracking_at w id))) (u8 (t_count (tracking_at w id) - 1)))) i l q); [done|].
    rewrite held_put by (apply (ho_vms _ H) || lia || done). case_decide as E.
    - injection E as -> ->. split; [tauto|]. intros [[Hq (t & Ht' & Hq')] Hne]. rewrite Ht in Ht'. injection Ht' as <-.
      congruence.
    - split; [|tauto]. intros Hq. split; [done|]. intros ->. destruct (ho_once _ H _ _ _ _ _ Hq Hk). congruence. }
  split; cbn [given_back set_tracking set_shared_slab set_sys w_sys sys_shared sys_tracking w_mem].
  - done.
  - split; congruence.
  - apply (ho_size _ H).
  - rewrite length_insert. apply (ho_vms _ H).
  - intros i t. rewrite list_lookup_insert_Some. intros [(<- & <- & _)|[_ Hi]]; [|by apply (ho_tracking _ H i)].
    pose proof (tracking_insert (tracking_at w id) k p 0 (conj Hl Hc) Hkp) as HT.
    rewrite (decide_True (P := 0 = 0)) in HT by done. apply HT. lia.
  - intros q. split.
    + intros [t [Hq Hne]%(fe_live _ _ _ _ _ _ F)]. destruct (proj1 (ho_live _ H q) (ex_intro _ t Hq)) as (i & l & Hil).
      exists i, l. by apply Hh.
    + intros (i & l & [Hil Hne]%Hh). destruct (held_live w i l q H Hil) as [t Hq]. exists t.
      by apply (fe_live _ _ _ _ _ _ F).
  - intros i l j o q [H1 _]%Hh [H2 _]%Hh. by apply (ho_once _ H i l j o q).
Qed.

Lemma free_outcome_ok w cpu w' : heap_ok w -> 0 <= vm_id (cpu_at w cpu) < 64 -> free_outcome w cpu w' -> heap_ok w'.
Proof.
  intros H Hid [c E|m a s k c p Hk F I]; [by apply heap_ok_fail|].
  apply (heap_ok_same (given_back w m a (vm_id c) k)); try done. by eapply heap_ok_back.
Qed.

(** ** What an unload gives back *)

Lemma free_tracked_spec bs : forall w, slab_inv (w_mem w) (sys_shared (w_sys w)) ->
  (forall p, p ∈ bs -> p <> 0 -> exists s, live (w_mem w) (sys_shared (w_sys w)) p s) ->
  (forall k l p, bs !! k = Some p -> bs !! l = Some p -> p <> 0 -> k = l) ->
  let w' := free_tracked w bs in
  arena_released (fun p => p ∈ bs) (w_mem w) (sys_shared (w_sys w)) (w_mem w') (sys_shared (w_sys w')) /\
  w' = set_shared_slab w (w_mem w') (sys_shared (w_sys w')).
Proof.
  induction bs as [|p bs IH]; intros w I Hl Hd w'.
  { split; [|by destruct w as [? ? ? []]]. split; try done. intros q t. split; [|tauto].
    intros Hq. split; [done|apply not_elem_of_nil]. }
  assert (forall k l p, bs !! k = Some p -> bs !! l = Some p -> p <> 0 -> k = l) as Hd'.
  { intros k l q Hk Hq Hn. assert (S k = S l) by (by apply (Hd _ _ q)). lia. }
  unfold w', free_tracked. cbn [foldl]. destruct (Z.eqb_spec p 0) as [->|Hp].
  - destruct (IH w I) as [R E]; [intros q Hq; apply Hl; by right|done|]. split; [|exact E].
    eapply arena_released_more; [|exact R]. intros q t Hq. rewrite elem_of_cons. split; [tauto|].
    intros [->|?]; [|done]. exfalso. pose proof (live_inside _ _ _ _ I Hq). lia.
  - destruct (Hl p) as [s Hs]; [by left|done|]. pose proof (free_block _ _ p s I Hs) as R1.
    unfold shared_free. destruct (slab_free (w_mem w) (sys_shared (w_sys w)) p) as [[m1 a1] r]. cbn [fst].
    set (w1 := set_shared_slab w m1 a1). fold (free_tracked w1 bs).
    destruct (IH w1) as [R2 E2]; [exact (ar_inv _ _ _ _ _ R1)| |done|].
    + intros q Hq Hn. destruct (Hl q) as [t Ht]; [by right|done|]. exists t.
      apply (ar_live _ _ _ _ _ R1). split; [done|]. intros ->.
      apply list_elem_of_lookup in Hq as [l Hq]. assert (0%nat = S l) by (by apply (Hd _ _ q)). done.
    + split; [|exact E2]. eapply arena_released_more; [|exact (arena_released_trans _ _ _ _ _ _ _ _ R1 R2)].
      intros q t _. rewrite elem_of_cons.
      split; (intros [->|?]; [by left|by right]).
Qed.

(** Releasing VM [id]'s blocks. *)
Record released (w : SysWorld) (id : Z) (w' : SysWorld) : Prop := {
  rl_ok : heap_ok w';
  rl_held i k p : held w' i k p <-> held w i k p /\ i <> Z.to_nat id;
  rl_blocks : arena_released (fun p => exists k, held w (Z.to_nat id) k p)
    (w_mem w) (sys_shared (w_sys w)) (w_mem w') (sys_shared (w_sys w'));
  rl_rest : w_sched w' = w_sched w /\ w_cpus w' = w_cpus w /\ sys_vms (w_sys w') = sys_vms (w_sys w) /\
    sys_mailboxes (w_sys w') = sys_mailboxes (w_sys w) /\ sys_local (w_sys w') = sys_local (w_sys w)
}.

Lemma in_use_zeros {A} (l : list A) : in_use (map (fun _ => 0) l) = 0.
Proof. unfold in_use. induction l as [|x l IH]; [done|]. cbn [map]. by rewrite filter_cons_False by tauto. Qed.

Lemma release_tracking_spec w id : heap_ok w -> 0 <= id < 64 -> released w id (release_tracking w id).
Proof.
  intros H Hid. destruct (tracking_lookup w id H Hid) as [Ht [Hl Hc]]. unfold release_tracking.
  set (t := tracking_at w id) in *. pose proof (held_at w id) as Hat. fold t in Hat.
  destruct (Z.ltb_spec 0 (t_count t)) as [Hpos|Hz].
  2:{ assert (forall k p, ~ held w (Z.to_nat id) k p) as Hno.
      { intros k p [Hp Hk]%Hat; [|done|done]. apply Hp. pose proof (in_use_bound (t_blocks t)).
        apply (in_use_empty (t_blocks t)); [lia|]. apply list_elem_of_lookup. by exists k. }
      split; [done| | |done].
      - intros i k p. split; [|tauto]. intros Hh. split; [done|]. intros ->. by apply (Hno k p).
      - split; try apply (ho_slab _ H); try done. intros q s. split; [|tauto]. intros Hq. split; [done|].
        intros [k Hk]. by apply (Hno k q). }
  destruct (free_tracked_spec (t_blocks t) w (ho_slab _ H)) as [R E].
  { intros p [k Hk]%list_elem_of_lookup Hp. apply (held_live w (Z.to_nat id) k p H). by apply Hat. }
  { intros k l p Hk Hl' Hp. apply (ho_once _ H (Z.to_nat id) k (Z.to_nat id) l p); by apply Hat. }
  set (w1 := free_tracked w (t_blocks t)) in *.
  assert (sys_tracking (w_sys w1) = sys_tracking (w_sys w)) as Etr by (by rewrite E).
  assert (forall i k p, held (set_tracking w1 id (mkTracking (map (fun _ => 0) (t_blocks t)) 0)) i k p <->
    held w i k p /\ i <> Z.to_nat id) as Hh.
  { intros i k p. unfold held. cbn [set_tracking set_sys w_sys sys_tracking]. rewrite Etr.
    destruct (decide (i = Z.to_nat id)) as [->|Hi].
    - split; [|tauto]. rewrite list_lookup_insert_eq by (rewrite (ho_vms _ H); lia).
      intros (Hp & t' & [= <-] & Hk). cbn [t_blocks] in Hk. apply list_lookup_fmap_Some in Hk as (? & ? & _). congruence.
    - rewrite list_lookup_insert_ne by done. tauto. }
  assert (arena_released (fun p => exists k, held w (Z.to_nat id) k p)
    (w_mem w) (sys_shared (w_sys w)) (w_mem w1) (sys_shared (w_sys w1))) as R'.
  { eapply arena_released_more; [|exact R]. intros q s Hq. rewrite list_elem_of_lookup.
    assert (q <> 0) as Hq0 by (pose proof (live_inside _ _ _ _ (ho_slab _ H) Hq); lia).
    split; intros [k Hk]; exists k; by apply Hat. }
  split; [|exact Hh|exact R'|by rewrite E].
  destruct R' as [R1 [R2 R2'] _ R4 _ _]. destruct (ho_region _ H) as [Hr Hb].
  split; cbn [set_tracking set_sys w_sys sys_shared sys_tracking w_mem].
  - done.
  - split; congruence.
  - apply (ho_size _ H).
  - rewrite length_insert, Etr. apply (ho_vms _ H).
  - intros i u. rewrite Etr, list_lookup_insert_Some. intros [(<- & <- & _)|[_ Hi]]; [|by apply (ho_tracking _ H i)].
    split; cbn; [by rewrite length_map|]. by rewrite in_use_zeros.
  - intros q. split.
    + intros [s [Hq Hne]%R4]. destruct (proj1 (ho_live _ H q) (ex_intro _ s Hq)) as (i & l & Hil).
      exists i, l. apply Hh. split; [done|]. intros ->. apply Hne. by exists l.
    + intros (i & l & [Hil Hne]%Hh). destruct (held_live w i l q H Hil) as [s Hq]. exists s. apply R4.
      split; [done|]. intros [k Hk]. by destruct (ho_once _ H _ _ _ _ _ Hil Hk).
  - intros i l j o q [H1 _]%Hh [H2 _]%Hh. by apply (ho_once _ H i l j o q).
Qed.

(** ** Histories *)

(** An allocation or release by any guest, an unload, or anything else that leaves
    the tables and, in the shared region, everything but the blocks held alone. *)
Inductive heap_call (w : SysWorld) : SysWorld -> Prop :=
  | hc_alloc cpu system : cpu <> 0 -> system <> 0 -> 0 <= vm_id (cpu_at w cpu) < 64 ->
      is_u32 (reg (cpu_at w cpu) VM_REG_A0) -> heap_call w (handle_alloc cfg cpu system w)
  | hc_free cpu system : cpu <> 0 -> system <> 0 -> 0 <= vm_id (cpu_at w cpu) < 64 ->
      is_u32 (reg (cpu_at w cpu) VM_REG_A0) -> heap_call w (handle_free cfg cpu system w)
  | hc_unload id : 0 <= id < 64 -> heap_call w (release_tracking w id)
  | hc_other w' : sys_shared (w_sys w') = sys_shared (w_sys w) -> sys_tracking (w_sys w') = sys_tracking (w_sys w) ->
      mem_agree (fun x => rng (shared_storage cfg) (shared_storage_size cfg) x /\
        forall i k p s, held w i k p -> live (w_mem w) (sys_shared (w_sys w)) p s -> ~ rng p s x) (w_mem w) (w_mem w') ->
      heap_call w w'.

Lemma heap_call_ok w w' : heap_call w w' -> heap_ok w -> heap_ok w'.
Proof.
  intros St H. destruct St as [cpu system Hc Hs Hid Hn|cpu system Hc Hs Hid Hn|id Hid|w' Ea Et Hag].
  - eapply alloc_outcome_ok; [done|exact Hid|]. by apply handle_alloc_outcome.
  - eapply free_outcome_ok; [done|exact Hid|]. by apply handle_free_outcome.
  - apply (rl_ok w id), release_tracking_spec; done.
  - destruct (slab_inv_payloads (w_mem w) (w_mem w') (sys_shared (w_sys w)) (ho_slab _ H)) as [I Hl].
    { destruct (ho_region _ H) as [-> ->]. intros x [Hx Hp]. apply Hag. split; [done|].
      intros i k p s _ Hs. by apply Hp. }
    destruct H as [H1 H2 H3 H4 H5 H6 H7]. split; unfold held in *; rewrite ?Ea, ?Et; try done.
    intros p. rewrite <-H6. split; intros [s Hs]; exists s; by apply Hl.
Qed.

Lemma heap_calls_ok w w' : rtc heap_call w w' -> heap_ok w -> heap_ok w'.
Proof. induction 1 as [|x y z Hxy _ IH]; [done|]. intros H. by apply IH, (heap_call_ok x). Qed.
End heap.

Lemma fresh_heap_ok w0 cfg w : storage_ok cfg -> fresh_system w0 cfg w -> heap_ok (fill_config cfg) w.
Proof.
  intros Hst [H1 _ H3 _ H5 (_ & _ & H6) _ _].
  assert (forall i k p, ~ held w i k p) as Hno.
  { intros i k p (Hp & t & Ht & Hk). rewrite H6 in Ht. apply lookup_replicate in Ht as [-> _].
    apply lookup_replicate in Hk as [-> _]. done. }
  split; [done|done|apply (st_window _ Hst)|by rewrite H6| | |].
  - intros i t Ht. rewrite H6 in Ht. apply lookup_replicate in Ht as [-> _]. done.
  - intros p. split; [intros [s Hs]; by destruct (H5 p s)|intros (i & k & Hk); by apply Hno in Hk].
  - intros i k j l p Hk. by apply Hno in Hk.
Qed.

(** ** Properties *)

(** SYS_ALLOC in a system whose live shared blocks are the tracked ones: it returns
    [-EINVAL] for an empty request, [-ENOMEM] when the guest holds 32 blocks or no
    block of the class is free, and otherwise the guest address of a block that nobody
    held, inside the shared storage, which the caller alone holds from then on; on an
    error nothing but [a0] (and the slab's failure counter) changes. *)
Theorem sys_alloc_correct cfg w cpu system : heap_ok cfg w -> cpu <> 0 -> system <> 0 ->
  0 <= vm_id (cpu_at w cpu) < 64 -> is_u32 (reg (cpu_at w cpu) VM_REG_A0) ->
  heap_ok cfg (handle_alloc cfg cpu system w) /\ alloc_outcome cfg w cpu (handle_alloc cfg cpu system w).
Proof.
  intros H Hc Hs Hid Hn. pose proof (handle_alloc_outcome cfg w cpu system H Hc Hs Hid Hn) as Ho.
  split; [by eapply alloc_outcome_ok|done].
Qed.

(** SYS_FREE succeeds exactly for the address of a block that the caller holds, and
    then takes that block and no other; anything else (an address outside the shared
    window or storage, a block freed before, another guest's block, an address inside a
    block) is answered [-EINVAL] and changes nothing. *)
Theorem sys_free_correct cfg w cpu system : heap_ok cfg w -> cpu <> 0 -> system <> 0 ->
  0 <= vm_id (cpu_at w cpu) < 64 -> is_u32 (reg (cpu_at w cpu) VM_REG_A0) ->
  heap_ok cfg (handle_free cfg cpu system w) /\ free_outcome cfg w cpu (handle_free cfg cpu system w).
Proof.
  intros H Hc Hs Hid Hn. pose proof (handle_free_outcome cfg w cpu system H Hc Hs Hid Hn) as Ho.
  split; [by eapply free_outcome_ok|done].
Qed.

(** C6. Over any history of a freshly initialised system, in which guests allocate and free
    with arbitrary arguments, write to the blocks they hold and are unloaded: blocks
    held at different places are disjoint, headers included, and inside the shared
    storage; every live block is held by somebody; nobody holds more than 32; and an
    unload gives back exactly the blocks of the unloaded guest. *)
Theorem shared_heap_safe w0 sys cfg sz scratch sender_var cfg' sched_cfg w1 w : storage_ok cfg ->
  vm_system_init w0 sys cfg sz scratch sender_var = (w1, Some (cfg', sched_cfg)) -> rtc (heap_call cfg') w1 w ->
  let a := sys_shared (w_sys w) in
  (forall i k p j l q, held w i k p -> held w j l q -> (i, k) <> (j, l) ->
     exists s t, live (w_mem w) a p s /\ live (w_mem w) a q t /\
       shared_storage cfg + SLAB_HEADER_SIZE <= p /\ p + s <= shared_storage cfg + shared_storage_size cfg /\
       rdisj (p - SLAB_HEADER_SIZE) (s + SLAB_HEADER_SIZE) (q - SLAB_HEADER_SIZE) (t + SLAB_HEADER_SIZE)) /\
  (forall p s, live (w_mem w) a p s -> exists i k, held w i k p) /\
  (forall id, 0 <= id < 64 ->
     0 <= t_count (tracking_at w id) <= 32 /\
     let w' := release_tracking w id in
     (forall i k p, held w' i k p <-> held w i k p /\ i <> Z.to_nat id) /\
     (forall p s, live (w_mem w') (sys_shared (w_sys w')) p s <->
        live (w_mem w) a p s /\ ~ exists k, held w (Z.to_nat id) k p)).
Proof.
  intros Hst Hinit Hrun a. pose proof (vm_system_init_correct w0 sys cfg sz scratch sender_var Hst) as Hi.
  rewrite Hinit in Hi. destruct Hi as (_ & -> & Hf & _).
  pose proof (heap_calls_ok _ _ _ Hrun (fresh_heap_ok _ _ _ Hst Hf)) as H. split_and!.
  - intros i k p j l q Hp Hq Hne. destruct (held_live _ w i k p H Hp) as [s Hs], (held_live _ w j l q H Hq) as [t Ht].
    exists s, t. assert (p <> q) as Hpq by (intros ->; destruct (ho_once _ _ H _ _ _ _ _ Hp Hq); congruence).
    pose proof (live_inside _ _ _ _ (ho_slab _ _ H) Hs) as Hin. destruct (ho_region _ _ H) as [Hr Hb].
    rewrite Hr, Hb in Hin. cbn [fill_config shared_storage shared_storage_size] in Hin.
    split_and!; [done|done|lia|lia|]. by apply (live_disjoint _ _ _ _ _ _ (ho_slab _ _ H) Hs Ht).
  - intros p s Hs. apply (ho_live _ _ H). by exists s.
  - intros id Hid. destruct (tracking_lookup _ w id H Hid) as [_ [Hl Hc]]. split.
    { pose proof (in_use_bound (t_blocks (tracking_at w id))). lia. }
    destruct (release_tracking_spec _ w id H Hid) as [_ R1 R2 _]. split; [done|]. intros p s. apply (ar_live _ _ _ _ _ R2).
Qed.

(** ** The small system *)

(** A guest in slot 3 asks for [n] bytes. *)
Definition asking (n : Z) : SysWorld :=
  put_cpu demo_world 0x600 (set_reg (vm_init 3) VM_REG_A0 n).

Definition demo_filled : VmSystemConfig := fill_config demo_config.

Lemma asking_ok n : heap_ok demo_filled (asking n).
Proof.
  apply (heap_ok_same _ demo_world); [|done..].
  pose proof (vm_system_init_correct blank_world 0x500 demo_config 600 0x40000 0x42000 demo_storage_ok) as H.
  destruct demo_boots as [[c s] E]. rewrite E in H. destruct H as (_ & _ & Hf & _).
  exact (fresh_heap_ok _ _ _ demo_storage_ok Hf).
Qed.

Lemma asking_reg n : vm_id (cpu_at (asking n) 0x600) = 3 /\ reg (cpu_at (asking n) 0x600) VM_REG_A0 = n.
Proof. done. Qed.

Definition after_alloc : SysWorld := handle_alloc demo_filled 0x600 0x500 (asking 20).

Lemma sys_alloc_correct_witness :
  heap_ok demo_filled after_alloc /\ alloc_outcome demo_filled (asking 20) 0x600 after_alloc.
Proof. apply (sys_alloc_correct demo_filled (asking 20) 0x600 0x500); [apply asking_ok|done|done|done|done]. Defined.

Lemma after_alloc_ok : heap_ok demo_filled after_alloc.
Proof.
  apply (alloc_outcome_ok _ (asking 20) 0x600); [exact (asking_ok 20)|done|].
  by apply (handle_alloc_outcome demo_filled (asking 20) 0x600 0x500 (asking_ok 20)).
Qed.

(** The block is at offset 176 of the storage; freeing it works once. *)
Definition after_free : SysWorld := handle_free demo_filled 0x600 0x500 after_alloc.

Example alloc_then_free :
  reg (cpu_at after_alloc 0x600) VM_REG_A0 = SHARED_GUEST_BASE + 176 /\
  t_count (tracking_at after_alloc 3) = 1 /\ t_count (tracking_at after_free 3) = 0 /\
  reg (cpu_at after_free 0x600) VM_REG_A0 = 0 /\
  reg (cpu_at (handle_free demo_filled 0x600 0x500
    (put_cpu after_free 0x600 (cpu_at after_alloc 0x600))) 0x600) VM_REG_A0 = u32 (- VM_EINVAL).
Proof. vm_compute. done. Qed.

Lemma sys_free_correct_witness :
  heap_ok demo_filled after_free /\ free_outcome demo_filled after_alloc 0x600 after_free.
Proof.
  apply (sys_free_correct demo_filled after_alloc 0x600 0x500); [exact after_alloc_ok|done|done|by vm_compute|].
  by vm_compute.
Defined.

Lemma demo_calls : rtc (heap_call demo_filled) demo_world after_alloc.
Proof.
  apply (rtc_l _ _ (asking 20)); [|apply rtc_once].
  - by apply hc_other.
  - by apply hc_alloc.
Qed.

Lemma shared_heap_safe_witness :
  (forall p s, live (w_mem after_alloc) (sys_shared (w_sys after_alloc)) p s -> exists i k, held after_alloc i k p) /\
  (forall i k p, held (release_tracking after_alloc 3) i k p <-> held after_alloc i k p /\ i <> 3%nat).
Proof.
  destruct demo_boots as [[c s] E]. assert (c = demo_filled) as Ec.
  { pose proof (vm_system_init_correct blank_world 0x500 demo_config 600 0x40000 0x42000 demo_storage_ok) as H.
    rewrite E in H. by destruct H as (_ & -> & _). }
  subst c. destruct (shared_heap_safe blank_world 0x500 demo_config 600 0x40000 0x42000 demo_filled s demo_world
    after_alloc demo_storage_ok E demo_calls) as (_ & H2 & H3).
  split; [exact H2|]. exact (proj1 (proj2 (H3 3 ltac:(lia)))).
Defined.

(** ** What guests can do to the allocator

    A request within seven bytes of 4 GB gets a block of 32 bytes. *)
Lemma huge_request_truncates :
  let w := handle_alloc demo_filled 0x600 0x500 (asking 0xFFFFFFFF) in
  reg (cpu_at w 0x600) VM_REG_A0 = SHARED_GUEST_BASE + 176 /\
  slab_block_size (w_mem w) (sys_shared (w_sys w)) (0x10000 + 176) = 32.
Proof. vm_compute. done. Qed.

(** The free stacks of the shared slab lie in the shared storage, which every guest may
    write: after one such store ([0x18] is the slot the next 32-byte request pops), SYS_ALLOC
    writes the allocation mark to a host address of the guest's choosing, outside
    the storage, although it then refuses the block. *)
Lemma free_stack_exposed :
  let w := asking 20 in
  let w1 := set_mem w (store64 (w_mem w) (0x10000 + 0x18) 0x7008) in
  let w2 := handle_alloc demo_filled 0x600 0x500 w1 in
  mem_frame (shared_storage demo_config) (shared_storage_size demo_config) (w_mem w) (w_mem w1) /\
  ~ rng (shared_storage demo_config) (shared_storage_size demo_config) 0x7000 /\
  load32 (w_mem w1) 0x7000 = 0 /\ load32 (w_mem w2) 0x7000 = SLAB_MAGIC_ALLOCATED /\
  reg (cpu_at w2 0x600) VM_REG_A0 = u32 (- VM_ENOMEM).
Proof.
  split_and!; [|cbn; unfold rng; lia|by vm_compute|by vm_compute|by vm_compute].
  intros x Hx. apply store64_frame. cbn in Hx. unfold rng in *. lia.
Qed.
