(* ===== verification/VmSysTime.v ===== *)
(** Clocks of the guests: sleeping and the reload timer ([handle_sleep_ticks],
    [handle_sleep_until], [handle_set_reload_period] and [handle_yield_until_reload] in
    [src/vm/vm_system.c]), against the scheduler's rule for waking ([timeout_decision]).
    The 32-bit clock wraps; the statements use an unbounded clock [T] of which the
    scheduler's tick is [u32 T]. *)
From S2P Require Import Prelude HostMem VmCpu VmEcall VmSched VmSchedInv VmSystem.
#[local] Open Scope Z_scope.

(** ** The wrapping comparison *)

Lemma tick_reached_wide T D : - 0x80000000 <= T - D < 0x80000000 -> tick_reached (u32 T) (u32 D) = (D <=? T).
Proof.
  intros H. unfold tick_reached. replace (u32 (u32 T - u32 D)) with (u32 (T - D))
    by (unfold u32; by rewrite <-Zminus_mod). destruct (Z.leb_spec D T); [apply Z.leb_le|apply Z.leb_gt]; zlia.
Qed.

Lemma u32_idem z : u32 (u32 z) = u32 z.
Proof. zlia. Qed.

(** A CPU that waits for [u32 D] is woken, with 0 in [a0], from the tick [D] on. *)
Lemma timed_wake c T D : block_reason c = BLOCK_SLEEP -> block_deadline c = u32 D ->
  - 0x80000000 <= T - D < 0x80000000 ->
  timeout_decision (u32 T) c = if D <=? T then (Some 0, None) else (None, Some (D - T)).
Proof.
  intros Hr Hd H. unfold timeout_decision. rewrite Hr, Hd, (tick_reached_wide T D H).
  destruct (Z.leb_spec D T); [done|]. do 2 f_equal. zlia.
Qed.

(** ** The reload loop *)

Lemma next_reload_wide p T : 0 < p < 0x80000000 -> forall n D, - 0x80000000 <= T - D < 0x80000000 ->
  next_reload n (u32 T) p (u32 D) =
  u32 (if T <? D then D else D + p * Z.min (Z.of_nat n) ((T - D) / p + 1)).
Proof.
  intros Hp n. induction n as [|n IH]; intros D HD; cbn [next_reload].
  - destruct (Z.ltb_spec T D); [done|]. f_equal.
    assert (0 <= (T - D) / p) by (apply Z.div_pos; lia). lia.
  - rewrite (tick_reached_wide T D HD). destruct (Z.ltb_spec T D), (Z.leb_spec D T); try lia.
    rewrite u32_add_l, IH by lia. f_equal.
    assert ((T - D) / p = (T - (D + p)) / p + 1) as E.
    { replace (T - D) with (T - (D + p) + 1 * p) by lia. by rewrite Z.div_add by lia. }
    destruct (Z.ltb_spec T (D + p)) as [Hlt|Hge].
    + assert ((T - (D + p)) / p = -1) as E1; [|lia]. symmetry. apply (Z.div_unique _ _ _ (T - D)); lia.
    + assert (0 <= (T - (D + p)) / p) by (apply Z.div_pos; lia). lia.
Qed.

(** The first boundary after [T], counting from [D] in steps of [p]. *)
Definition boundary_after (T D p : Z) : Z := if T <? D then D else D + p * ((T - D) / p + 1).

Lemma boundary_after_spec T D p : 0 < p ->
  T < boundary_after T D p /\ (D <= T -> boundary_after T D p <= T + p) /\
  exists k, 0 <= k /\ boundary_after T D p = D + p * k.
Proof.
  intros Hp. unfold boundary_after. destruct (Z.ltb_spec T D) as [H|H].
  - split_and!; [done|lia|]. exists 0. lia.
  - pose proof (Z.div_mod (T - D) p ltac:(lia)). pose proof (Z.mod_pos_bound (T - D) p Hp).
    split_and!; [nia|intros; nia|]. exists ((T - D) / p + 1). split; [|done].
    assert (0 <= (T - D) / p) by (apply Z.div_pos; lia). lia.
Qed.

Lemma next_reload_boundary p T D : 0 < p < 0x80000000 -> - 0x80000000 <= T - D < 0x80000000 ->
  T - D < 1024 * p -> next_reload RELOAD_SAFETY (u32 T) p (u32 D) = u32 (boundary_after T D p).
Proof.
  intros Hp HD Hlate. rewrite next_reload_wide by done. f_equal. unfold boundary_after, RELOAD_SAFETY.
  destruct (Z.ltb_spec T D); [done|]. rewrite Z2Nat.id by lia.
  assert ((T - D) / p < 1024) by (apply Z.div_lt_upper_bound; lia). lia.
Qed.

(** Handlers that only put a CPU back. *)
Definition only_cpu (cpu : Z) (w w' : SysWorld) : Prop :=
  w_sched w' = w_sched w /\ w_mem w' = w_mem w /\ w_sys w' = w_sys w /\
  forall q, q <> cpu -> cpu_at w' q = cpu_at w q.

Lemma only_cpu_put cpu w c : only_cpu cpu w (put_cpu w cpu c).
Proof. split_and!; try done. intros q Hq. by rewrite cpu_at_put_other by congruence. Qed.

Lemma only_cpu_ret cpu w v : only_cpu cpu w (ret w cpu v).
Proof. apply only_cpu_put. Qed.

Lemma only_cpu_trans cpu w1 w2 w3 : only_cpu cpu w1 w2 -> only_cpu cpu w2 w3 -> only_cpu cpu w1 w3.
Proof.
  intros (A1 & B1 & C1 & D1) (A2 & B2 & C2 & D2). split_and!; try congruence.
  intros q Hq. by rewrite D2, D1.
Qed.

(** [BLOCK_YIELDED] with 0 in [a0]. *)
Definition yielded (c : VmCpu) : VmCpu := let c := set_reg c VM_REG_A0 0 in set_block c BLOCK_YIELDED (block_deadline c).

Lemma ret_yield w cpu : (let w := ret w cpu 0 in
    let c := cpu_at w cpu in put_cpu w cpu (set_block c BLOCK_YIELDED (block_deadline c))) =
  put_cpu (ret w cpu 0) cpu (yielded (cpu_at w cpu)).
Proof. cbv zeta. unfold ret. by rewrite cpu_at_put. Qed.

(** ** Properties *)

(** C27. SYS_SLEEP_TICKS and SYS_SLEEP_UNTIL wake on time, also across the wrap of the
    32-bit clock: a sleep of [n <= 2^31] ticks from tick [T] (until tick [T + n], with
    [-2^31 < n <= 2^31]) changes only the caller's CPU, which the scheduler then wakes,
    with 0 in [a0], at every check from tick [T + n] on and at none before, for checks
    before tick [T + 2^31]; a sleep of no ticks, or until a tick that has passed, is a
    yield.  Longer sleeps are outside the wrapping comparison's range and are not
    covered (they end at once, [long_sleep_is_none]). *)
Theorem sleep_wakes_on_time cpu system w T n : cpu <> 0 -> system <> 0 -> ops_now w = u32 T ->
  let c := cpu_at w cpu in
  (reg c VM_REG_A0 = n -> 0 <= n <= 0x80000000 ->
    let w' := handle_sleep_ticks cpu system w in
    only_cpu cpu w w' /\
    if n =? 0 then cpu_at w' cpu = yielded c
    else forall T', T <= T' < T + 0x80000000 ->
      timeout_decision (u32 T') (cpu_at w' cpu) =
      if T + n <=? T' then (Some 0, None) else (None, Some (T + n - T'))) /\
  (reg c VM_REG_A0 = u32 (T + n) -> - 0x80000000 < n <= 0x80000000 ->
    let w' := handle_sleep_until cpu system w in
    only_cpu cpu w w' /\
    if n <=? 0 then cpu_at w' cpu = yielded c
    else forall T', T <= T' < T + 0x80000000 ->
      timeout_decision (u32 T') (cpu_at w' cpu) =
      if T + n <=? T' then (Some 0, None) else (None, Some (T + n - T'))).
Proof.
  intros Hc Hs Hnow c. split; intros Hr Hn w'; subst w'; unfold handle_sleep_ticks, handle_sleep_until, sys_handler;
    rewrite (proj2 (Z.eqb_neq _ _) Hc), (proj2 (Z.eqb_neq _ _) Hs), Hnow; cbn [orb]; fold c; rewrite Hr.
  - destruct (Z.eqb_spec n 0) as [->|H0].
    + rewrite ret_yield. split; [eapply only_cpu_trans; [apply only_cpu_ret|apply only_cpu_put]|apply cpu_at_put].
    + split; [apply only_cpu_put|]. intros T' HT. rewrite cpu_at_put, u32_add_l. apply timed_wake; [done|done|lia].
  - rewrite tick_reached_wide by lia. destruct (Z.leb_spec (T + n) T), (Z.leb_spec n 0); try lia.
    + rewrite ret_yield. split; [eapply only_cpu_trans; [apply only_cpu_ret|apply only_cpu_put]|apply cpu_at_put].
    + split; [apply only_cpu_put|]. intros T' HT. rewrite cpu_at_put. apply timed_wake; [done|done|lia].
Qed.

(** The reload timer keeps its phase: a yield at tick [T], with the next boundary [D] at
    most 1024 periods [p] behind, sleeps until the first boundary after [T] (one of [D],
    [D + p], [D + 2p], ..., at most one period away when [D] has passed), is woken there
    and not before, and leaves the boundary after that as the next one: however late the
    guest is, boundaries are skipped, never shifted and never fired in a burst. *)
Theorem yield_until_reload_on_boundary cpu system w T D p : cpu <> 0 -> system <> 0 -> ops_now w = u32 T ->
  reload_period (cpu_at w cpu) = p -> reload_next_deadline (cpu_at w cpu) = u32 D ->
  0 < p < 0x80000000 -> - 0x80000000 <= T - D < 0x80000000 -> T - D < 1024 * p ->
  let w' := handle_yield_until_reload cpu system w in
  let B := boundary_after T D p in
  only_cpu cpu w w' /\ reload_period (cpu_at w' cpu) = p /\ reload_next_deadline (cpu_at w' cpu) = u32 (B + p) /\
  T < B /\ (D <= T -> B <= T + p) /\ (exists k, 0 <= k /\ B = D + p * k) /\
  forall T', T <= T' < T + 0x80000000 ->
    timeout_decision (u32 T') (cpu_at w' cpu) = if B <=? T' then (Some 0, None) else (None, Some (B - T')).
Proof.
  intros Hc Hs Hnow Hp Hd Hp2 HD Hl w' B. pose proof (boundary_after_spec T D p ltac:(lia)) as (H1 & H2 & H3).
  fold B in H1, H2, H3. subst w'. unfold handle_yield_until_reload, sys_handler.
  rewrite (proj2 (Z.eqb_neq _ _) Hc), (proj2 (Z.eqb_neq _ _) Hs), Hnow. cbn [orb].
  rewrite Hp, Hd, (proj2 (Z.eqb_neq p 0)), next_reload_boundary by lia. fold B. rewrite u32_add_l.
  split; [apply only_cpu_put|]. rewrite cpu_at_put. split_and!; try done.
  intros T' HT. apply timed_wake; [done|done|]. destruct (Z.ltb_spec T D) as [Hlt|Hge].
  - assert (B = D) as -> by (unfold B, boundary_after; by rewrite (proj2 (Z.ltb_lt _ _))). lia.
  - specialize (H2 Hge). lia.
Qed.

(** ** Limits *)

(** A guest more than 1024 periods late is put to sleep until a tick that has passed
    already, and again on its next yield: a burst. *)
Lemma reload_burst : next_reload RELOAD_SAFETY 5000 1 1000 = 2024 /\ tick_reached 5000 2024 = true /\
  next_reload RELOAD_SAFETY 5000 1 (2024 + 1) = 3049 /\ tick_reached 5000 3049 = true.
Proof. by vm_compute. Qed.

(** A sleep of more than 2^31 ticks is over at once. *)
Lemma long_sleep_is_none T n : 0x80000000 < n < 0x100000000 -> tick_reached (u32 T) (u32 (u32 T + n)) = true.
Proof.
  intros Hn. rewrite u32_add_l. replace (u32 (T + n)) with (u32 (T + n - 0x100000000)) by zlia.
  rewrite tick_reached_wide by lia. apply Z.leb_le. lia.
Qed.

(** ** Witnesses *)

(** A guest at [0x600] with 300 in [a0], at tick [now]; its reload timer has period 100 and
    next boundary [d]. *)
Definition timed_world (now d : Z) : SysWorld :=
  put_cpu (mkWorld (set_tick zero_sched now) (fun _ => vm_init 0) (fun _ => 0) zero_system) 0x600
    (set_reload (set_reg (vm_init 3) VM_REG_A0 300) 100 d).

(** A sleep of 300 ticks that starts 100 ticks before the wrap. *)
Lemma sleep_wakes_on_time_witness :
  let w' := handle_sleep_ticks 0x600 0x500 (timed_world 0xFFFFFF9C 0) in
  block_deadline (cpu_at w' 0x600) = 200 /\ only_cpu 0x600 (timed_world 0xFFFFFF9C 0) w' /\
  forall T', 0xFFFFFF9C <= T' < 0xFFFFFF9C + 0x80000000 ->
    timeout_decision (u32 T') (cpu_at w' 0x600) =
    if 0xFFFFFF9C + 300 <=? T' then (Some 0, None) else (None, Some (0xFFFFFF9C + 300 - T')).
Proof.
  split; [done|].
  exact (proj1 (sleep_wakes_on_time 0x600 0x500 (timed_world 0xFFFFFF9C 0) 0xFFFFFF9C 300 ltac:(done) ltac:(done) eq_refl)
    eq_refl ltac:(lia)).
Defined.

(** 250 ticks late on a period of 100: the boundary 50 ticks ahead. *)
Lemma yield_until_reload_on_boundary_witness :
  let w' := handle_yield_until_reload 0x600 0x500 (timed_world 1250 1000) in
  reload_next_deadline (cpu_at w' 0x600) = u32 (boundary_after 1250 1000 100 + 100) /\
  boundary_after 1250 1000 100 = 1300 /\ block_deadline (cpu_at w' 0x600) = 1300.
Proof.
  split_and!; [|done|done].
  apply (yield_until_reload_on_boundary 0x600 0x500 (timed_world 1250 1000) 1250 1000 100); done || lia.
Defined.
