(* ===== verification/VmSysMsg.v ===== *)
(** Messages between guests: SYS_SEND and SYS_RECV ([handle_send], [handle_recv] in
    [src/vm/vm_system.c]) over the mailbox of one receiver, with the direct delivery to a
    receiver that waits.  The channel of a VM is the abstract mailbox of [VmMailbox]
    together with the rule that a receiver waits only on an empty queue; messages are
    shown to arrive once, in order and unchanged. *)
From S2P Require Import Prelude HostMem FifoQueue SlabStack VmCpu VmExec VmSafety VmStep VmLoader VmGuests VmMailbox VmEcall VmSched VmSchedInv VmSystem VmSysTime.
#[local] Open Scope Z_scope.

Lemma reg_set_a0 c x : cpu_wf c -> reg (set_reg c VM_REG_A0 x) VM_REG_A0 = x.
Proof.
  intros W. unfold reg, set_reg. cbn [regs set_regs]. rewrite nth_lookup, list_lookup_insert_eq; [done|].
  rewrite (wf_len _ W). vm_compute. lia.
Qed.

Lemma mailbox_at_set w i mb : 0 <= i < Z.of_nat (length (sys_mailboxes (w_sys w))) -> mailbox_at (set_mailbox w i mb) i = mb.
Proof. intros Hi. unfold mailbox_at, set_mailbox. cbn. by rewrite nth_lookup, list_lookup_insert_eq by lia. Qed.

Lemma set_mailbox_length w i mb :
  length (sys_mailboxes (w_sys (set_mailbox w i mb))) = length (sys_mailboxes (w_sys w)).
Proof. unfold set_mailbox. cbn. by rewrite length_insert. Qed.

Lemma rdisj_pointwise a n b k : 0 < n -> 0 < k -> (forall x, rng a n x -> ~ rng b k x) -> rdisj a n b k.
Proof. intros Hn Hk H. specialize (H (Z.max a b)). unfold rng, rdisj in *. lia. Qed.

Lemma bf_same_refl (q : FifoQueue) : bf_same q q.
Proof. done. Qed.

(** Sending and receiving leave the queue where it is. *)
Lemma send_same h (m : VmMailbox FifoQueue) s id p n : bf_inv (mb_fifo m) ->
  let '(_, m', _) := vm_mailbox_send h m s id p n in bf_same (mb_fifo m) (mb_fifo m').
Proof.
  intros Hi. unfold vm_mailbox_send. destruct (p =? 0); [done|]. destruct (negb _); [done|]. destruct (negb _); [done|].
  destruct (_ =? 0); [done|]. match goal with |- context [bf_push ?h ?q ?s] => pose proof (bf_push_law h q s Hi) as HP;
    destruct (bf_push h q s) as [[h' q'] ok] end.
  destruct HP as (_ & Hs & _). by destruct ok.
Qed.

Lemma recv_same h (m : VmMailbox FifoQueue) s p o : bf_inv (mb_fifo m) ->
  rdisj s (bf_block (mb_fifo m)) (bf_base (mb_fifo m)) (bf_bytes (mb_fifo m)) ->
  let '(_, m', _) := vm_mailbox_recv h m s p o in bf_same (mb_fifo m) (mb_fifo m').
Proof.
  intros Hi Hd. unfold vm_mailbox_recv. destruct (p =? 0); [done|].
  pose proof (bf_pop_law h _ s Hi Hd) as HP. destruct (bf_pop h (mb_fifo m) s) as [[h' q'] ok].
  destruct HP as (_ & Hs & _). by destruct ok.
Qed.

(** Nothing is written when there is nothing to receive. *)
Lemma recv_empty h (m : VmMailbox FifoQueue) a s p o : mb_sim h m a -> am_messages a = [] -> p <> 0 ->
  rdisj s (bf_block (mb_fifo m)) (bf_base (mb_fifo m)) (bf_bytes (mb_fifo m)) ->
  (vm_mailbox_recv h m s p o).1.1 = h.
Proof.
  intros S Hm Hp Hd. unfold vm_mailbox_recv. rewrite (proj2 (Z.eqb_neq p 0) Hp).
  pose proof (bf_pop_law h _ s (ms_inv _ _ _ S) Hd) as HP. rewrite (ms_items _ _ _ S), Hm in HP.
  destruct (bf_pop h (mb_fifo m) s) as [[h' q'] ok]. destruct HP as (_ & _ & _ & HP). cbn [map] in HP.
  by destruct HP as (-> & -> & ->).
Qed.

Lemma sim_bound h (m : VmMailbox FifoQueue) a : mb_sim h m a -> Z.of_nat (length (am_messages a)) <= am_depth a.
Proof.
  intros S. rewrite <-(items_len _ _ _ S), <-(ms_depth _ _ _ S). apply bf_items_length, (ms_inv _ _ _ S).
Qed.

Lemma cpu_at_ready (w : SysWorld) id q : cpu_at (make_ready w id) q = cpu_at w q.
Proof. done. Qed.

Section channel.
Context (scratch sender_var : Z) (v : Z).

(** The host's own bytes: the null address, the automatic variables, and the storage
    of the receiver's mailbox. *)
Definition host_area (mb : VmMailbox FifoQueue) (x : Z) : Prop :=
  x = 0 \/ rng scratch 4098 x \/ rng sender_var 2 x \/ rng (bf_base (mb_fifo mb)) (bf_bytes (mb_fifo mb)) x.

Definition receiver (w : SysWorld) : VmCpu := cpu_at w (vm_slot w v).
Definition waiting (w : SysWorld) : Prop := block_reason (receiver w) = BLOCK_MAILBOX_RECV.

(** A guest reaches none of the host's bytes. *)
Definition guest_apart (w : SysWorld) (c : VmCpu) : Prop :=
  forall x, visible c x -> ~ host_area (mailbox_at w v) x.

Record chan_ok (w : SysWorld) (a : AbsMailbox) : Prop := {
  ch_id : 0 <= v < 64;
  ch_slot : vm_slot w v <> 0 /\ vm_at (w_sched w) v = vm_slot w v;
  ch_len : length (sys_mailboxes (w_sys w)) = 64%nat;
  ch_wf : cpu_wf (receiver w) /\ vm_id (receiver w) = v;
  ch_sim : mb_sim (w_mem w) (mailbox_at w v) a;
  ch_depth : 0 < am_depth a;
  ch_area : rdisj scratch 4098 (bf_base (mb_fifo (mailbox_at w v))) (bf_bytes (mb_fifo (mailbox_at w v))) /\
    rdisj sender_var 2 (bf_base (mb_fifo (mailbox_at w v))) (bf_bytes (mb_fifo (mailbox_at w v))) /\
    rdisj sender_var 2 scratch 4098 /\ sender_var <> 0;
  ch_guest : guest_apart w (receiver w);
  ch_waiting : waiting w -> am_messages a = [] /\ bm_test (blocked (w_sched w)) v = true /\
    exists d, vm_translate_write (receiver w) (internal0 (receiver w)) (am_slot a) = (Some d, receiver w)
}.

Lemma host_area_same mb mb' x : bf_same (mb_fifo mb) (mb_fifo mb') -> host_area mb' x <-> host_area mb x.
Proof.
  intros H. pose proof (bf_same_bytes _ _ H) as Hb. destruct H as (H1 & _). unfold host_area. by rewrite Hb, H1.
Qed.

Lemma visible_same c c' x : regions c' = regions c -> l2_shared c' = l2_shared c -> visible c' x <-> visible c x.
Proof. intros Hr Hl. unfold visible, guest_region. by rewrite Hr, Hl. Qed.

(** What a step has to keep. *)
Lemma chan_ok_step w a w' a' : chan_ok w a ->
  vm_slot w' v = vm_slot w v -> vm_at (w_sched w') v = vm_at (w_sched w) v ->
  length (sys_mailboxes (w_sys w')) = length (sys_mailboxes (w_sys w)) ->
  cpu_wf (receiver w') -> vm_id (receiver w') = vm_id (receiver w) ->
  regions (receiver w') = regions (receiver w) -> l2_shared (receiver w') = l2_shared (receiver w) ->
  mb_sim (w_mem w') (mailbox_at w' v) a' -> am_depth a' = am_depth a ->
  bf_same (mb_fifo (mailbox_at w v)) (mb_fifo (mailbox_at w' v)) ->
  (waiting w' -> am_messages a' = [] /\ bm_test (blocked (w_sched w')) v = true /\
    exists d, vm_translate_write (receiver w') (internal0 (receiver w')) (am_slot a') = (Some d, receiver w')) ->
  chan_ok w' a'.
Proof.
  intros [H1 [H2 H2'] H3 [H4 H4'] H5 H6 H7 H8 H9] Es Ev El W Ei Er El2 Hsim Hd Hq Hw.
  pose proof (bf_same_bytes _ _ Hq) as Hb. pose proof Hq as (Hb' & _).
  split; [done|split; congruence|congruence|split; congruence|done|congruence| | |done].
  - by rewrite Hb, Hb'.
  - intros x Hx Hh. apply (host_area_same _ _ x Hq) in Hh. apply (H8 x); [|done].
    by apply (visible_same (receiver w) (receiver w') x Er El2).
Qed.

Definition same_place (c c' : VmCpu) : Prop :=
  vm_id c' = vm_id c /\ regions c' = regions c /\ l2_shared c' = l2_shared c.

(** Writing back a CPU whose place in the channel is the same. *)
Definition same_role (c c' : VmCpu) : Prop :=
  vm_id c' = vm_id c /\ regions c' = regions c /\ l2_shared c' = l2_shared c /\
  block_reason c' = block_reason c /\ internal0 c' = internal0 c.

Lemma xlat_pick_same c c' addr : regions c' = regions c -> l2_shared c' = l2_shared c -> xlat_pick c' addr = xlat_pick c addr.
Proof. intros Hr Hl. unfold xlat_pick. by rewrite Hr, Hl. Qed.

Lemma translate_write_same c c' addr n d : regions c' = regions c -> l2_shared c' = l2_shared c ->
  vm_translate_write c addr n = (Some d, c) -> vm_translate_write c' addr n = (Some d, c').
Proof.
  intros Hr Hl. unfold vm_translate_write, xlat_write. rewrite (xlat_pick_same c c') by done.
  destruct (n =? 0); [done|]. destruct (xlat_pick c addr) as [r o]. repeat case_match; intros [= <-]; done.
Qed.

Lemma chan_ok_put w a cpu c' : chan_ok w a -> cpu_wf c' -> same_role (cpu_at w cpu) c' -> chan_ok (put_cpu w cpu c') a.
Proof.
  intros H W (E1 & E2 & E3 & E4 & E5). set (w' := put_cpu w cpu c').
  assert (cpu_wf (receiver w') /\ same_role (receiver w) (receiver w')) as [W' (F1 & F2 & F3 & F4 & F5)].
  { unfold receiver, w'. change (vm_slot (put_cpu w cpu c') v) with (vm_slot w v).
    destruct (decide (cpu = vm_slot w v)) as [<-|Hne]; [by rewrite cpu_at_put|].
    rewrite cpu_at_put_other by done. split; [apply (ch_wf _ _ H)|done]. }
  apply (chan_ok_step w a); try done; [apply (ch_sim _ _ H)|].
  intros Hw. destruct (ch_waiting _ _ H) as (Hm & Hbl & d & Hd); [unfold waiting in *; congruence|].
  split_and!; [done|done|]. exists d. rewrite F5. by apply (translate_write_same (receiver w)).
Qed.

Lemma chan_ok_ret w a cpu x : chan_ok w a -> cpu_wf (cpu_at w cpu) -> chan_ok (ret w cpu x) a.
Proof. intros H W. apply chan_ok_put; [done|apply set_a0_wf; [done|apply is_u32_range]|done]. Qed.

(** ** Sending *)

(** The errno of a send to the channel, if it fails. *)
Definition send_error (w : SysWorld) (a : AbsMailbox) (cpu : Z) : option Z :=
  let c := cpu_at w cpu in
  let size := reg c VM_REG_A2 in
  if negb (size =? am_slot a) then Some VM_EINVAL else
  match (vm_translate_read c (reg c VM_REG_A1) size).1 with
  | None => Some VM_EFAULT
  | Some _ =>
      if (64 <=? vm_id c) || negb (am_allowed a (vm_id c)) then Some VM_EPERM else
      if bool_decide (block_reason (receiver w) = BLOCK_MAILBOX_RECV) then None else
      if Z.of_nat (length (am_messages a)) =? am_depth a then Some VM_EAGAIN else None
  end.

(** A call of SYS_SEND to [v], by a guest that runs. *)
Record sender_ok (w : SysWorld) (cpu : Z) : Prop := {
  sd_ptr : cpu <> 0;
  sd_wf : cpu_wf (cpu_at w cpu);
  sd_target : reg (cpu_at w cpu) VM_REG_A0 = v;
  sd_runs : block_reason (cpu_at w cpu) = BLOCK_NONE;
  sd_apart : guest_apart w (cpu_at w cpu)
}.

Definition the_message (w : SysWorld) (a : AbsMailbox) (cpu payload : Z) : Z * list Z :=
  (vm_id (cpu_at w cpu), mem_read (w_mem w) payload (am_slot a)).

(** Nothing but the host's bytes changed. *)
Definition host_only (w w' : SysWorld) : Prop :=
  mem_agree (fun x => ~ host_area (mailbox_at w v) x) (w_mem w) (w_mem w').

(** The message is in the receiver's buffer, its sender in the receiver's [a0]. *)
Record delivered (w : SysWorld) (a : AbsMailbox) (m : Z * list Z) (w' : SysWorld) : Prop := {
  dl_run : block_reason (receiver w') = BLOCK_NONE /\ bm_test (ready (w_sched w')) v = true /\
           bm_test (blocked (w_sched w')) v = false;
  dl_sender : reg (receiver w') VM_REG_A0 = m.1;
  dl_buffer : exists d, vm_translate_write (receiver w) (internal0 (receiver w)) (am_slot a) = (Some d, receiver w) /\
    mem_read (w_mem w') d (am_slot a) = m.2 /\ mem_frame d (am_slot a) (w_mem w) (w_mem w')
}.

(** What SYS_SEND does. *)
Definition sent (w : SysWorld) (a : AbsMailbox) (cpu : Z) (w' : SysWorld) : Prop :=
  (forall q, q <> cpu -> q <> vm_slot w v -> cpu_at w' q = cpu_at w q) /\
  match send_error w a cpu with
  | Some e => reg (cpu_at w' cpu) VM_REG_A0 = u32 (- e) /\ chan_ok w' a /\ host_only w w' /\
      (cpu <> vm_slot w v -> receiver w' = receiver w)
  | None => reg (cpu_at w' cpu) VM_REG_A0 = 0 /\ exists p,
      let m := the_message w a cpu p in
      vm_translate_read (cpu_at w cpu) (reg (cpu_at w cpu) VM_REG_A1) (am_slot a) = (Some p, cpu_at w cpu) /\
      if bool_decide (block_reason (receiver w) = BLOCK_MAILBOX_RECV)
      then delivered w a m w' /\ chan_ok w' a
      else chan_ok w' (abs_set_messages a (am_messages a ++ [m])) /\ host_only w w' /\
        (cpu <> vm_slot w v -> receiver w' = receiver w)
  end.

Lemma receiver_put w cpu c : cpu <> vm_slot w v -> receiver (put_cpu w cpu c) = receiver w.
Proof.
  intros Hne. unfold receiver. change (vm_slot (put_cpu w cpu c) v) with (vm_slot w v). by rewrite cpu_at_put_other.
Qed.

(** What holds after a return that changes the caller's CPU only. *)
Lemma sent_refused w a cpu c e : chan_ok w a -> sender_ok w cpu -> cpu_wf c -> same_role (cpu_at w cpu) c ->
  let w' := fail (put_cpu w cpu c) cpu e in
  (forall q, q <> cpu -> q <> vm_slot w v -> cpu_at w' q = cpu_at w q) /\
  reg (cpu_at w' cpu) VM_REG_A0 = u32 (- e) /\ chan_ok w' a /\ host_only w w' /\
  (cpu <> vm_slot w v -> receiver w' = receiver w).
Proof.
  intros H Hs W Hr w'. assert (chan_ok (put_cpu w cpu c) a) as H1 by (by apply chan_ok_put).
  subst w'. unfold fail. split_and!.
  - intros q Hq _. unfold ret. by rewrite !cpu_at_put_other by congruence.
  - unfold ret. rewrite !cpu_at_put. by apply reg_set_a0.
  - apply chan_ok_ret; [done|by rewrite cpu_at_put].
  - done.
  - intros Hne. unfold ret. by rewrite !receiver_put by done.
Qed.

Lemma translate_read_cases c addr n : exists o c', vm_translate_read c addr n = (o, c') /\
  (o <> None -> c' = c) /\ (forall p, o = Some p -> 0 < n -> forall x, rng p n x -> visible c x) /\
  (cpu_wf c -> cpu_wf (clear_cause c')) /\ same_role c (clear_cause c').
Proof.
  unfold vm_translate_read. destruct (n =? 0).
  - exists None, c. split_and!; try done. intros W. by apply (cpu_wf_host c).
  - destruct (xlat_read_cases c addr n TRAP_LOAD_FAULT) as [[p Hp]|Hp]; rewrite Hp.
    + exists (Some p), c. split_and!; try done; [|intros W; by apply (cpu_wf_host c)].
      intros q [= <-] _. by apply (xlat_read_visible _ _ _ _ _ _ Hp).
    + exists None, (set_fault c TRAP_LOAD_FAULT addr). split_and!; try done. intros W. by apply (cpu_wf_host c).
Qed.

Lemma translate_write_cases c addr n : exists o c', vm_translate_write c addr n = (o, c') /\
  (o <> None -> c' = c) /\ (forall p, o = Some p -> forall x, rng p n x -> visible c x) /\
  (cpu_wf c -> cpu_wf (clear_cause c')) /\ same_role c (clear_cause c').
Proof.
  unfold vm_translate_write. destruct (n =? 0).
  - exists None, c. split_and!; try done. intros W. by apply (cpu_wf_host c).
  - destruct (xlat_write_cases c addr n) as [[p Hp]|(cause & _ & Hp)]; rewrite Hp.
    + exists (Some p), c. split_and!; try done; [|intros W; by apply (cpu_wf_host c)].
      intros q [= <-] x Hx. apply xlat_write_inside in Hp as (_ & r & Hr & _ & H1 & H2). exists r.
      split; [done|]. unfold region_bytes_of, rng in *. lia.
    + exists None, (set_fault c cause addr). split_and!; try done. intros W. by apply (cpu_wf_host c).
Qed.

(** A guest buffer is apart from the host's areas. *)
Lemma buffer_apart w a c p n : chan_ok w a -> guest_apart w c -> 0 < n -> (forall x, rng p n x -> visible c x) ->
  p <> 0 /\ rdisj p n scratch 4098 /\ rdisj p n sender_var 2 /\
  rdisj p n (bf_base (mb_fifo (mailbox_at w v))) (bf_bytes (mb_fifo (mailbox_at w v))).
Proof.
  intros H Hg Hn Hv. assert (forall x, rng p n x -> ~ host_area (mailbox_at w v) x) as Hx by (intros x Hx; by apply Hg, Hv).
  assert (0 < bf_bytes (mb_fifo (mailbox_at w v))) as Hb.
  { unfold bf_bytes. rewrite (ms_block _ _ _ (ch_sim _ _ H)), (ms_depth _ _ _ (ch_sim _ _ H)).
    pose proof (ch_depth _ _ H). pose proof (ms_slot _ _ _ (ch_sim _ _ H)) as [? _].
    unfold INTERNAL_SLOT_BYTES, VM_MAILBOX_SLOT_OVERHEAD. nia. }
  unfold host_area in Hx. split_and!.
  - intros ->. apply (Hx 0); [unfold rng; lia|by left].
  - apply rdisj_pointwise; [lia|lia|]. intros x H1 H2. apply (Hx x H1). auto.
  - apply rdisj_pointwise; [lia|lia|]. intros x H1 H2. apply (Hx x H1). auto.
  - apply rdisj_pointwise; [lia|lia|]. intros x H1 H2. apply (Hx x H1). auto.
Qed.

Lemma chan_slot w a : chan_ok w a -> 0 < am_slot a <= 4096 /\ slot_size (mailbox_at w v) = am_slot a.
Proof. intros H. pose proof (ms_slot _ _ _ (ch_sim _ _ H)) as [? ->]. done. Qed.

(** The direct delivery. *)
Lemma deliver_now_spec w a cpu p : chan_ok w a -> sender_ok w cpu -> waiting w ->
  let mb := mailbox_at w v in
  let '(w', b) := deliver_now w cpu (vm_slot w v) v mb p (am_slot a) in
  b = true /\ (forall q, q <> cpu -> q <> vm_slot w v -> cpu_at w' q = cpu_at w q) /\
  reg (cpu_at w' cpu) VM_REG_A0 = 0 /\ delivered w a (the_message w a cpu p) w' /\ chan_ok w' a.
Proof.
  intros H Hs Hw mb. destruct (ch_waiting _ _ H Hw) as (Hmsg & Hbl & d & Hd).
  destruct (ch_slot _ _ H) as [Hs0 Hva]. destruct (chan_slot _ _ H) as [Hn Hmb]. pose proof (ch_id _ _ H) as Hv.
  assert (cpu <> vm_slot w v) as Hne.
  { intros ->. pose proof (sd_runs _ _ Hs) as Hr. unfold waiting, receiver in Hw. congruence. }
  set (tp := vm_slot w v) in *. unfold deliver_now. fold tp in Hd. change (cpu_at w tp) with (receiver w).
  rewrite bool_decide_eq_true_2 by exact Hw. cbn [negb]. rewrite Hd.
  set (m1 := memcpy (w_mem w) d p (am_slot a)). set (w2 := put_cpu (set_mem w m1) tp _).
  assert (vm_sched_wake_mailbox w2 v (vm_id (cpu_at w2 cpu)) =
    (make_ready (put_cpu w2 tp (unblock (clear_cause (receiver w)) (vm_id (cpu_at w cpu)))) v, true)) as ->.
  { unfold vm_sched_wake_mailbox, VM_SCHED_MAX_VMS. rewrite (proj2 (Z.leb_gt 64 v)) by lia.
    change (w_sched w2) with (w_sched w). rewrite Hva. fold tp. rewrite (proj2 (Z.eqb_neq tp 0)) by done.
    unfold w2. rewrite cpu_at_put, cpu_at_put_other by done.
    rewrite bool_decide_eq_true_2 by exact Hw. cbn [negb]. by rewrite Hbl. }
  cbn [fst]. set (w3 := make_ready _ v).
  assert (cpu_at w3 tp = unblock (clear_cause (receiver w)) (vm_id (cpu_at w cpu))) as E3
    by (unfold w3; rewrite cpu_at_ready; apply cpu_at_put).
  rewrite E3. set (tc' := set_internal _ 0). set (w4 := put_cpu w3 tp tc').
  assert (forall q, q <> tp -> cpu_at w4 q = cpu_at w q) as Hother.
  { intros q Hq. unfold w4, w3. rewrite cpu_at_put_other, cpu_at_ready, cpu_at_put_other by done.
    unfold w2. by rewrite cpu_at_put_other by done. }
  set (w5 := ret w4 cpu 0). set (mb' := set_stats mb _ _ _ _). set (w6 := set_mailbox w5 v mb').
  assert (cpu_at w6 tp = tc') as Etp.
  { change (cpu_at w6 tp) with (cpu_at w5 tp). unfold w5, ret. rewrite cpu_at_put_other by done. apply cpu_at_put. }
  assert (receiver w6 = tc') as Erc by exact Etp.
  assert (mailbox_at w6 v = mb') as Emb by (apply mailbox_at_set; change (sys_mailboxes (w_sys w5)) with (sys_mailboxes (w_sys w)); rewrite (ch_len _ _ H); lia).
  pose proof (ch_wf _ _ H) as [Wr Hid].
  assert (cpu_wf tc') as Wt by (apply (cpu_wf_host (unblock (receiver w) (vm_id (cpu_at w cpu)))); try done; by apply unblock_wf).
  destruct (translate_write_cases (receiver w) (internal0 (receiver w)) (am_slot a)) as (o & c' & Eo & _ & Hvis & _ & _).
  rewrite Hd in Eo. injection Eo as <- <-. specialize (Hvis d eq_refl).
  destruct (buffer_apart w a (receiver w) d (am_slot a) H (ch_guest _ _ H) ltac:(lia) Hvis) as (_ & _ & _ & Hst).
  assert (mem_frame d (am_slot a) (w_mem w) m1) as Hfr by (apply memcpy_frame; lia).
  split_and!; [done|..].
  - intros q Hq1 Hq2. change (cpu_at w6 q) with (cpu_at w5 q). unfold w5, ret. rewrite cpu_at_put_other by done. by apply Hother.
  - change (cpu_at w6 cpu) with (cpu_at w5 cpu). unfold w5, ret. rewrite cpu_at_put, Hother by done.
    apply reg_set_a0, (sd_wf _ _ Hs).
  - split.
    + rewrite Erc. split; [done|]. change (w_sched w6) with (w_sched w3). unfold w3, make_ready. cbn [w_sched set_sched set_sets ready blocked].
      change (w_sched (put_cpu w2 tp _)) with (w_sched w). rewrite !bm_test_spec by lia.
      rewrite bm_set_bit, bm_clear_bit, !Z.eqb_refl by lia. split; [apply orb_true_r|by rewrite andb_false_r].
    + rewrite Erc. unfold tc'. change (reg (set_internal ?c 0) VM_REG_A0) with (reg c VM_REG_A0). unfold unblock.
      rewrite reg_set_a0 by (by apply (cpu_wf_host (receiver w))). cbn [the_message fst].
      pose proof (wf_id _ (sd_wf _ _ Hs)). apply u32_small. umach. lia.
    + exists d. split; [done|]. split; [|done]. change (w_mem w6) with m1. unfold m1. by rewrite memcpy_read by lia.
  - apply (chan_ok_step w a); rewrite ?Erc; try done.
    + etransitivity; [apply set_mailbox_length|done].
    + rewrite Emb. destruct (mb_sim_frame (w_mem w) m1 mb a (ch_sim _ _ H)) as [].
      { intros x Hx. apply Hfr. fold mb in Hst. unfold rng, rdisj in *. lia. }
      by split.
    + by rewrite Emb.
    + unfold waiting. rewrite Erc. done.
Qed.

(** Storing the mailbox and the memory that an operation on it returns. *)
Lemma chan_ok_store w a h m a' : chan_ok w a -> mb_sim h m a' -> am_depth a' = am_depth a -> am_slot a' = am_slot a ->
  bf_same (mb_fifo (mailbox_at w v)) (mb_fifo m) -> (waiting w -> am_messages a' = []) ->
  let w' := set_mailbox (set_mem w h) v m in chan_ok w' a' /\ mailbox_at w' v = m.
Proof.
  intros H Hsim Hd Hsl Hq Hw w'.
  assert (mailbox_at w' v = m) as Em.
  { apply mailbox_at_set. change (sys_mailboxes (w_sys (set_mem w h))) with (sys_mailboxes (w_sys w)).
    rewrite (ch_len _ _ H). pose proof (ch_id _ _ H). lia. }
  split; [|done]. apply (chan_ok_step w a); rewrite ?Em; try done.
  - etransitivity; [apply set_mailbox_length|done].
  - apply (ch_wf _ _ H).
  - intros Hw'. destruct (ch_waiting _ _ H Hw') as (_ & Hb & Ht). rewrite Hsl. by split; [apply Hw|].
Qed.

Lemma allowed_check w a id : chan_ok w a -> 0 <= id ->
  vm_mailbox_whitelist_check (mailbox_at w v) id = negb ((64 <=? id) || negb (am_allowed a id)).
Proof.
  intros H Hid. unfold vm_mailbox_whitelist_check, whitelist_id_valid, VM_MAILBOX_WHITELIST_BITS. rewrite Z.ltb_antisym.
  destruct (Z.leb_spec 64 id) as [|Hlt]; [done|]. cbn [negb orb]. unfold whitelist_bit. rewrite land_bit_zero by lia.
  rewrite (ms_allowed _ _ _ (ch_sim _ _ H)) by lia. by rewrite !negb_involutive.
Qed.

Lemma queue_message_spec w a cpu p : chan_ok w a -> sender_ok w cpu -> ~ waiting w ->
  (64 <=? vm_id (cpu_at w cpu)) || negb (am_allowed a (vm_id (cpu_at w cpu))) = false ->
  (forall x, rng p (am_slot a) x -> visible (cpu_at w cpu) x) ->
  let w' := queue_message scratch w cpu v (mailbox_at w v) p (am_slot a) in
  (forall q, q <> cpu -> q <> vm_slot w v -> cpu_at w' q = cpu_at w q) /\
  host_only w w' /\ (cpu <> vm_slot w v -> receiver w' = receiver w) /\
  if Z.of_nat (length (am_messages a)) =? am_depth a
  then reg (cpu_at w' cpu) VM_REG_A0 = u32 (- VM_EAGAIN) /\ chan_ok w' a
  else reg (cpu_at w' cpu) VM_REG_A0 = 0 /\
       chan_ok w' (abs_set_messages a (am_messages a ++ [the_message w a cpu p])).
Proof.
  intros H Hs Hw Hal Hvis. destruct (chan_slot _ _ H) as [Hn Hmb]. destruct (ch_area _ _ H) as (A1 & A2 & A3 & A4).
  apply orb_false_iff in Hal as [Hal1 Hal2]. apply negb_false_iff in Hal2.
  pose proof (wf_id _ (sd_wf _ _ Hs)) as Hid. set (c := cpu_at w cpu) in *.
  destruct (buffer_apart w a c p (am_slot a) H (sd_apart _ _ Hs) ltac:(lia) Hvis) as (Hp & D1 & D2 & D3).
  pose proof (send_step scratch (w_mem w) (mailbox_at w v) a (vm_id c) p (am_slot a) (ch_sim _ _ H)) as Hst.
  pose proof (send_same (w_mem w) (mailbox_at w v) scratch (vm_id c) p (am_slot a) (ms_inv _ _ _ (ch_sim _ _ H))) as Hsame.
  unfold step_ok, impl_call, abs_cmd in Hst. unfold queue_message. fold c.
  replace (u16 (am_slot a)) with (am_slot a) by (symmetry; apply u16_small; umach; lia).
  destruct (vm_mailbox_send (w_mem w) (mailbox_at w v) scratch (vm_id c) p (am_slot a)) as [[h m] r].
  rewrite (proj2 (Z.eqb_neq p 0) Hp), Z.eqb_refl, Hal1, Hal2 in Hst. cbn [orb negb] in Hst.
  specialize (Hst ltac:(split; [done|split; [done|by split]])).
  assert (forall a' x, chan_ok (set_mailbox (set_mem w h) v m) a' -> bf_same (mb_fifo (mailbox_at w v)) (mb_fifo m) ->
    mem_agree (fun x => ~ written scratch (mailbox_at w v) (MSend (vm_id c) p (am_slot a)) x) (w_mem w) h ->
    let w' := ret (set_mailbox (set_mem w h) v m) cpu x in
    (forall q, q <> cpu -> q <> vm_slot w v -> cpu_at w' q = cpu_at w q) /\
    host_only w w' /\ (cpu <> vm_slot w v -> receiver w' = receiver w) /\
    reg (cpu_at w' cpu) VM_REG_A0 = u32 x /\ chan_ok w' a') as Hret.
  { intros a' x H' _ Hag w'. split_and!.
    - intros q Hq _. unfold w', ret. rewrite cpu_at_put_other by done. done.
    - intros y Hy. apply Hag. unfold written. intros [Hy'|[Hy'|[]]]; apply Hy; unfold host_area; auto.
    - intros Hne. unfold w', ret. by rewrite receiver_put by done.
    - unfold w', ret. rewrite cpu_at_put. apply reg_set_a0, (sd_wf _ _ Hs).
    - apply chan_ok_ret; [done|apply (sd_wf _ _ Hs)]. }
  destruct (Z.of_nat (length (am_messages a)) =? am_depth a).
  - destruct Hst as (Hsim & [= ->] & Hag).
    destruct (chan_ok_store w a h m a H Hsim eq_refl eq_refl Hsame ltac:(done)) as [H' _].
    destruct (Hret a (- VM_EAGAIN) H' Hsame Hag) as (R1 & R2 & R3 & R4 & R5). by split_and!.
  - destruct Hst as (Hsim & [= ->] & Hag).
    destruct (chan_ok_store w a h m _ H Hsim eq_refl eq_refl Hsame ltac:(done)) as [H' _].
    destruct (Hret _ 0 H' Hsame Hag) as (R1 & R2 & R3 & R4 & R5). split_and!; try done.
Qed.

(** SYS_SEND to the channel does what [sent] says. *)
Lemma handle_send_spec w a cpu system : chan_ok w a -> sender_ok w cpu -> system <> 0 ->
  sent w a cpu (handle_send scratch cpu system w).
Proof.
  intros H Hs Hsys. pose proof (ch_id _ _ H) as Hv. destruct (ch_slot _ _ H) as [Hs0 Hva].
  destruct (chan_slot _ _ H) as [Hn Hmb]. pose proof (sd_wf _ _ Hs) as W.
  unfold handle_send, sys_handler. rewrite (proj2 (Z.eqb_neq _ _) (sd_ptr _ _ Hs)), (proj2 (Z.eqb_neq _ _) Hsys). cbn [orb].
  unfold sent, send_error. rewrite (sd_target _ _ Hs). set (c := cpu_at w cpu) in *.
  unfold VM_SCHED_MAX_VMS. rewrite (proj2 (Z.leb_gt 64 v)) by lia.
  replace (u16 v) with v by (symmetry; apply u16_small; umach; lia).
  assert (vm_system_get_mailbox w v = Some (mailbox_at w v)) as ->.
  { unfold vm_system_get_mailbox, VM_SCHED_MAX_VMS. rewrite (proj2 (Z.leb_gt 64 v)) by lia.
    by rewrite (proj2 (Z.eqb_neq (vm_slot w v) 0)). }
  rewrite (proj2 (Z.eqb_neq (vm_slot w v) 0)), Hmb by done.
  assert (forall e, (forall q, q <> cpu -> q <> vm_slot w v -> cpu_at (fail w cpu e) q = cpu_at w q) /\
    reg (cpu_at (fail w cpu e) cpu) VM_REG_A0 = u32 (- e) /\ chan_ok (fail w cpu e) a /\ host_only w (fail w cpu e) /\
    (cpu <> vm_slot w v -> receiver (fail w cpu e) = receiver w)) as Hfail.
  { intros e. split_and!.
    - intros q Hq _. unfold fail, ret. by rewrite cpu_at_put_other by done.
    - unfold fail, ret. rewrite cpu_at_put. by apply reg_set_a0.
    - by apply chan_ok_ret.
    - done.
    - intros Hne. unfold fail, ret. by rewrite receiver_put. }
  destruct (Z.eqb_spec (reg c VM_REG_A2) (am_slot a)) as [->|Hne]; cbn [negb]; [|apply Hfail].
  destruct (translate_read_cases c (reg c VM_REG_A1) (am_slot a)) as (o & c' & Eo & Hsame & Hvis & Wc & Hrole).
  rewrite Eo. cbn [fst]. destruct o as [p|]; [|by apply sent_refused; [..|apply Wc|]].
  specialize (Hvis p eq_refl ltac:(lia)). rewrite (Hsame ltac:(done)).
  rewrite (allowed_check w a) by (apply H || apply (wf_id _ W)). rewrite negb_involutive.
  destruct ((64 <=? vm_id c) || negb (am_allowed a (vm_id c))) eqn:Hal; [apply Hfail|].
  destruct (bool_decide (block_reason (receiver w) = BLOCK_MAILBOX_RECV)) eqn:Hw.
  - apply bool_decide_eq_true in Hw. pose proof (deliver_now_spec w a cpu p H Hs Hw) as Hd. cbv zeta in Hd.
    destruct (deliver_now w cpu (vm_slot w v) v (mailbox_at w v) p (am_slot a)) as [w' b].
    destruct Hd as (-> & H1 & H2 & H3 & H4). split; [done|]. split; [done|]. exists p. split; [f_equal; by apply Hsame|]. by split.
  - apply bool_decide_eq_false in Hw.
    assert (deliver_now w cpu (vm_slot w v) v (mailbox_at w v) p (am_slot a) = (w, false)) as ->.
    { unfold deliver_now. change (cpu_at w (vm_slot w v)) with (receiver w). by rewrite bool_decide_eq_false_2. }
    pose proof (queue_message_spec w a cpu p H Hs Hw Hal Hvis) as (Q1 & Q2 & Q3 & Q4).
    destruct (Z.of_nat (length (am_messages a)) =? am_depth a).
    + destruct Q4. by split_and!.
    + destruct Q4 as [Q4 Q5]. split; [done|]. split; [done|]. exists p. split; [f_equal; by apply Hsame|]. by split_and!.
Qed.

(** The statistics of a mailbox after a message, and after a refused one. *)
Definition count_sent (mb : VmMailbox FifoQueue) : VmMailbox FifoQueue :=
  set_stats mb (u32 (sends_accepted mb + 1)) (sends_rejected_full mb) (sends_rejected_perm mb) (recvs mb).
Definition count_full (mb : VmMailbox FifoQueue) : VmMailbox FifoQueue :=
  set_stats mb (sends_accepted mb) (u32 (sends_rejected_full mb + 1)) (sends_rejected_perm mb) (recvs mb).

(** The exact state after a SYS_SEND, apart from memory: the CPUs, the scheduler and
    the system's records.  A fault on the caller's buffer leaves the address of the
    fault and the pc in the caller's trap registers, with no cause pending. *)
Definition send_effect (w : SysWorld) (a : AbsMailbox) (cpu : Z) (w' : SysWorld) : Prop :=
  let c := cpu_at w cpu in
  let mb := mailbox_at w v in
  match send_error w a cpu with
  | Some e =>
      cpu_at w' cpu = set_reg (if e =? VM_EFAULT then clear_cause (set_fault c TRAP_LOAD_FAULT (reg c VM_REG_A1)) else c)
        VM_REG_A0 (u32 (- e)) /\
      (forall q, q <> cpu -> cpu_at w' q = cpu_at w q) /\ w_sched w' = w_sched w /\
      if e =? VM_EAGAIN then w_sys w' = w_sys (set_mailbox w v (count_full mb)) else w_mem w' = w_mem w /\ w_sys w' = w_sys w
  | None =>
      cpu_at w' cpu = set_reg c VM_REG_A0 0 /\
      if bool_decide (block_reason (receiver w) = BLOCK_MAILBOX_RECV) then
        receiver w' = set_internal (unblock (clear_cause (receiver w)) (vm_id c)) 0 /\
        w_sched w' = w_sched (make_ready w v) /\ w_sys w' = w_sys (set_mailbox w v (count_sent mb))
      else
        (forall q, q <> cpu -> cpu_at w' q = cpu_at w q) /\ w_sched w' = w_sched w /\
        exists q, w_sys w' = w_sys (set_mailbox w v (count_sent (set_fifo mb q)))
  end.

Lemma fail_effect w cpu c e : let w' := fail (put_cpu w cpu c) cpu e in
  cpu_at w' cpu = set_reg c VM_REG_A0 (u32 (- e)) /\ (forall q, q <> cpu -> cpu_at w' q = cpu_at w q) /\
  w_sched w' = w_sched w /\ w_mem w' = w_mem w /\ w_sys w' = w_sys w.
Proof.
  unfold fail, ret. split_and!; try done; [by rewrite !cpu_at_put|]. intros q Hq. by rewrite !cpu_at_put_other by congruence.
Qed.

Lemma fail_effect_same w cpu e : let w' := fail w cpu e in
  cpu_at w' cpu = set_reg (cpu_at w cpu) VM_REG_A0 (u32 (- e)) /\ (forall q, q <> cpu -> cpu_at w' q = cpu_at w q) /\
  w_sched w' = w_sched w /\ w_mem w' = w_mem w /\ w_sys w' = w_sys w.
Proof.
  unfold fail, ret. split_and!; try done; [by rewrite !cpu_at_put|]. intros q Hq. by rewrite !cpu_at_put_other by congruence.
Qed.

Lemma deliver_now_effect w a cpu p : chan_ok w a -> sender_ok w cpu -> waiting w ->
  let w' := (deliver_now w cpu (vm_slot w v) v (mailbox_at w v) p (am_slot a)).1 in
  cpu_at w' cpu = set_reg (cpu_at w cpu) VM_REG_A0 0 /\
  receiver w' = set_internal (unblock (clear_cause (receiver w)) (vm_id (cpu_at w cpu))) 0 /\
  w_sched w' = w_sched (make_ready w v) /\ w_sys w' = w_sys (set_mailbox w v (count_sent (mailbox_at w v))).
Proof.
  intros H Hs Hw. destruct (ch_waiting _ _ H Hw) as (_ & Hbl & d & Hd).
  destruct (ch_slot _ _ H) as [Hs0 Hva]. pose proof (ch_id _ _ H) as Hv.
  assert (cpu <> vm_slot w v) as Hne.
  { intros ->. pose proof (sd_runs _ _ Hs) as Hr. unfold waiting, receiver in Hw. congruence. }
  unfold deliver_now. change (cpu_at w (vm_slot w v)) with (receiver w).
  rewrite bool_decide_eq_true_2 by exact Hw. cbn [negb]. rewrite Hd.
  set (tp := vm_slot w v) in *. set (w2 := put_cpu (set_mem w _) tp _).
  assert (vm_sched_wake_mailbox w2 v (vm_id (cpu_at w2 cpu)) =
    (make_ready (put_cpu w2 tp (unblock (clear_cause (receiver w)) (vm_id (cpu_at w cpu)))) v, true)) as ->.
  { unfold vm_sched_wake_mailbox, VM_SCHED_MAX_VMS. rewrite (proj2 (Z.leb_gt 64 v)) by lia.
    change (w_sched w2) with (w_sched w). rewrite Hva. fold tp. rewrite (proj2 (Z.eqb_neq tp 0)) by done.
    unfold w2. rewrite cpu_at_put, cpu_at_put_other by done.
    rewrite bool_decide_eq_true_2 by exact Hw. cbn [negb]. by rewrite Hbl. }
  cbn [fst]. set (w3 := make_ready _ v).
  assert (cpu_at w3 tp = unblock (clear_cause (receiver w)) (vm_id (cpu_at w cpu))) as E3
    by (unfold w3; rewrite cpu_at_ready; apply cpu_at_put).
  rewrite E3. set (tc := set_internal _ 0). split_and!; try done.
  - change (cpu_at (ret (put_cpu w3 tp tc) cpu 0) cpu = set_reg (cpu_at w cpu) VM_REG_A0 0). unfold ret.
    rewrite cpu_at_put, cpu_at_put_other by done. unfold w3. rewrite cpu_at_ready, cpu_at_put_other by done.
    unfold w2. rewrite cpu_at_put_other by done. done.
  - unfold receiver at 1. change (cpu_at (ret (put_cpu w3 tp tc) cpu 0) tp = tc).
    unfold ret. rewrite cpu_at_put_other by done. apply cpu_at_put.
Qed.

Lemma send_mailbox h (m : VmMailbox FifoQueue) id p n : bf_inv (mb_fifo m) ->
  let '(_, m', r) := vm_mailbox_send h m scratch id p n in
  (r = VM_MBOX_OK -> exists q, m' = count_sent (set_fifo m q)) /\ (r = VM_MBOX_ERR_FULL -> m' = count_full m).
Proof.
  intros Hi. unfold vm_mailbox_send. destruct (p =? 0); [done|]. destruct (negb _); [done|]. destruct (negb _); [done|].
  destruct (_ =? 0); [done|]. match goal with |- context [bf_push ?h ?q ?s] => pose proof (bf_push_law h q s Hi) as HP;
    destruct (bf_push h q s) as [[h' q'] ok] end.
  destruct HP as (_ & _ & _ & HP). destruct ok; cbn [negb]; (split; [|done || intros _]); intros; [by exists q'| done |].
  destruct (_ =? _); [|by destruct HP]. destruct HP as (_ & _ & ->). by destruct m.
Qed.

Lemma queue_message_effect w a cpu p : chan_ok w a -> sender_ok w cpu ->
  (64 <=? vm_id (cpu_at w cpu)) || negb (am_allowed a (vm_id (cpu_at w cpu))) = false ->
  (forall x, rng p (am_slot a) x -> visible (cpu_at w cpu) x) ->
  let w' := queue_message scratch w cpu v (mailbox_at w v) p (am_slot a) in
  let full := Z.of_nat (length (am_messages a)) =? am_depth a in
  cpu_at w' cpu = set_reg (cpu_at w cpu) VM_REG_A0 (if full then u32 (- VM_EAGAIN) else 0) /\
  (forall q, q <> cpu -> cpu_at w' q = cpu_at w q) /\ w_sched w' = w_sched w /\
  if full then w_sys w' = w_sys (set_mailbox w v (count_full (mailbox_at w v)))
  else exists q, w_sys w' = w_sys (set_mailbox w v (count_sent (set_fifo (mailbox_at w v) q))).
Proof.
  intros H Hs Hal Hvis. destruct (chan_slot _ _ H) as [Hn Hmb]. destruct (ch_area _ _ H) as (A1 & _).
  apply orb_false_iff in Hal as [Hal1 Hal2]. apply negb_false_iff in Hal2.
  pose proof (wf_id _ (sd_wf _ _ Hs)) as Hid. set (c := cpu_at w cpu) in *.
  destruct (buffer_apart w a c p (am_slot a) H (sd_apart _ _ Hs) ltac:(lia) Hvis) as (Hp & D1 & D2 & D3).
  pose proof (send_step scratch (w_mem w) (mailbox_at w v) a (vm_id c) p (am_slot a) (ch_sim _ _ H)) as Hst.
  pose proof (send_mailbox (w_mem w) (mailbox_at w v) (vm_id c) p (am_slot a) (ms_inv _ _ _ (ch_sim _ _ H))) as Hm.
  unfold step_ok, impl_call, abs_cmd in Hst. unfold queue_message. fold c.
  replace (u16 (am_slot a)) with (am_slot a) by (symmetry; apply u16_small; umach; lia).
  destruct (vm_mailbox_send (w_mem w) (mailbox_at w v) scratch (vm_id c) p (am_slot a)) as [[h m] r].
  rewrite (proj2 (Z.eqb_neq p 0) Hp), Z.eqb_refl, Hal1, Hal2 in Hst. cbn [orb negb] in Hst.
  specialize (Hst ltac:(split; [done|split; [done|by split]])). destruct Hm as [Hm1 Hm2].
  destruct (Z.of_nat (length (am_messages a)) =? am_depth a); destruct Hst as (_ & [= ->] & _).
  - pose proof (fail_effect_same (set_mailbox (set_mem w h) v m) cpu VM_EAGAIN) as (E1 & E2 & E3 & _ & E5).
    split_and!; [exact E1|exact E2|exact E3|]. rewrite (Hm2 eq_refl) in *. exact E5.
  - destruct (Hm1 eq_refl) as (q & ->). unfold ret. split_and!; [by rewrite cpu_at_put| |done|by exists q].
    intros q' Hq'. by rewrite cpu_at_put_other by congruence.
Qed.

Lemma handle_send_effect w a cpu system : chan_ok w a -> sender_ok w cpu -> system <> 0 ->
  send_effect w a cpu (handle_send scratch cpu system w).
Proof.
  intros H Hs Hsys. pose proof (ch_id _ _ H) as Hv. destruct (ch_slot _ _ H) as [Hs0 Hva].
  destruct (chan_slot _ _ H) as [Hn Hmb]. pose proof (sd_wf _ _ Hs) as W.
  unfold handle_send, sys_handler. rewrite (proj2 (Z.eqb_neq _ _) (sd_ptr _ _ Hs)), (proj2 (Z.eqb_neq _ _) Hsys). cbn [orb].
  unfold send_effect, send_error. rewrite (sd_target _ _ Hs). set (c := cpu_at w cpu) in *.
  unfold VM_SCHED_MAX_VMS. rewrite (proj2 (Z.leb_gt 64 v)) by lia.
  replace (u16 v) with v by (symmetry; apply u16_small; umach; lia).
  assert (vm_system_get_mailbox w v = Some (mailbox_at w v)) as ->.
  { unfold vm_system_get_mailbox, VM_SCHED_MAX_VMS. rewrite (proj2 (Z.leb_gt 64 v)) by lia.
    by rewrite (proj2 (Z.eqb_neq (vm_slot w v) 0)). }
  rewrite (proj2 (Z.eqb_neq (vm_slot w v) 0)), Hmb by done.
  destruct (Z.eqb_spec (reg c VM_REG_A2) (am_slot a)) as [->|Hne]; cbn [negb]; [|exact (fail_effect_same w cpu VM_EINVAL)].
  destruct (translate_read_cases c (reg c VM_REG_A1) (am_slot a)) as (o & c' & Eo & Hsame & Hvis & _).
  rewrite Eo. cbn [fst]. destruct o as [p|].
  2: { pose proof (fail_effect w cpu (clear_cause c') VM_EFAULT) as He.
       assert (c' = set_fault c TRAP_LOAD_FAULT (reg c VM_REG_A1)) as ->; [|exact He].
       revert Eo. unfold vm_translate_read. rewrite (proj2 (Z.eqb_neq (am_slot a) 0)) by lia.
       destruct (xlat_read_cases c (reg c VM_REG_A1) (am_slot a) TRAP_LOAD_FAULT) as [[p Hp]|Hp]; rewrite Hp; by intros [= <-]. }
  specialize (Hvis p eq_refl ltac:(lia)).
  rewrite (allowed_check w a) by (apply H || apply (wf_id _ W)). rewrite negb_involutive.
  destruct ((64 <=? vm_id c) || negb (am_allowed a (vm_id c))) eqn:Hal; [exact (fail_effect_same w cpu VM_EPERM)|].
  destruct (bool_decide (block_reason (receiver w) = BLOCK_MAILBOX_RECV)) eqn:Hw.
  - apply bool_decide_eq_true in Hw. pose proof (deliver_now_effect w a cpu p H Hs Hw) as He.
    pose proof (deliver_now_spec w a cpu p H Hs Hw) as Hd. cbv zeta in Hd.
    destruct (deliver_now w cpu (vm_slot w v) v (mailbox_at w v) p (am_slot a)) as [w' b].
    destruct Hd as (-> & _). exact He.
  - apply bool_decide_eq_false in Hw.
    assert (deliver_now w cpu (vm_slot w v) v (mailbox_at w v) p (am_slot a) = (w, false)) as ->.
    { unfold deliver_now. change (cpu_at w (vm_slot w v)) with (receiver w). by rewrite bool_decide_eq_false_2. }
    pose proof (queue_message_effect w a cpu p H Hs Hal Hvis) as (Q1 & Q2 & Q3 & Q4).
    by destruct (Z.of_nat (length (am_messages a)) =? am_depth a).
Qed.

(** ** Receiving *)

(** A call of SYS_RECV by the receiver, which runs. *)
Record receiver_ok (w : SysWorld) (cpu : Z) : Prop := {
  rv_ptr : cpu = vm_slot w v;
  rv_runs : block_reason (receiver w) = BLOCK_NONE
}.

(** What [turn] does with the receiver after the call. *)
Definition settled (w : SysWorld) : SysWorld := apply_block_transition w v.

(** When the wait of a blocked receiver ends; 0 stands for never. *)
Definition recv_deadline (w : SysWorld) (timeout : Z) : Z :=
  if timeout =? UINT32_MAX then 0 else u32 (ops_now w + timeout).

(** What SYS_RECV does. *)
Definition recv_done (w : SysWorld) (a : AbsMailbox) (w' : SysWorld) : Prop :=
  let r := receiver w in
  let dest := reg r VM_REG_A0 in
  let timeout := reg r VM_REG_A1 in
  let refused e := reg (receiver w') VM_REG_A0 = u32 (- e) /\ block_reason (receiver w') = BLOCK_NONE /\
                   chan_ok w' a /\ host_only w w' in
  (forall q, q <> vm_slot w v -> cpu_at w' q = cpu_at w q) /\
  match (vm_translate_write r dest (am_slot a)).1, am_messages a with
  | None, _ => refused VM_EFAULT
  | Some d, m :: l =>
      reg (receiver w') VM_REG_A0 = m.1 /\ mem_read (w_mem w') d (am_slot a) = m.2 /\
      block_reason (receiver w') = BLOCK_NONE /\ chan_ok w' (abs_set_messages a l) /\
      mem_agree (fun x => ~ host_area (mailbox_at w v) x /\ ~ rng d (am_slot a) x) (w_mem w) (w_mem w')
  | Some d, [] =>
      if timeout =? 0 then refused VM_EAGAIN else
      if in_critical r then refused VM_EBUSY else
      waiting w' /\ internal0 (receiver w') = dest /\ regs (receiver w') = regs r /\
      block_deadline (receiver w') = recv_deadline w timeout /\
      chan_ok (settled w') a /\ host_only w w'
  end.

Lemma cpu_at_receiver (w : SysWorld) : cpu_at w (vm_slot w v) = receiver w.
Proof. done. Qed.

Lemma recv_refused w a w1 e : chan_ok w1 a -> vm_slot w1 v = vm_slot w v ->
  block_reason (receiver w1) = BLOCK_NONE -> host_only w w1 ->
  (forall q, q <> vm_slot w v -> cpu_at w1 q = cpu_at w q) ->
  let w' := fail w1 (vm_slot w v) e in
  (forall q, q <> vm_slot w v -> cpu_at w' q = cpu_at w q) /\
  reg (receiver w') VM_REG_A0 = u32 (- e) /\ block_reason (receiver w') = BLOCK_NONE /\ chan_ok w' a /\ host_only w w'.
Proof.
  intros H Hs Hb Hh Hq w'. pose proof (ch_wf _ _ H) as [W _].
  assert (receiver w' = set_reg (receiver w1) VM_REG_A0 (u32 (- e))) as Er.
  { unfold receiver at 1, w', fail, ret. change (vm_slot (put_cpu w1 (vm_slot w v) _) v) with (vm_slot w1 v).
    rewrite Hs, cpu_at_put. unfold receiver. by rewrite Hs. }
  split_and!.
  - intros q Hne. unfold w', fail, ret. rewrite cpu_at_put_other by done. by apply Hq.
  - rewrite Er. by apply reg_set_a0.
  - by rewrite Er.
  - apply chan_ok_ret; [done|]. by rewrite <-Hs.
  - done.
Qed.

(** The receiver goes to sleep on its empty queue. *)
Lemma recv_blocks w a w1 dest t d : chan_ok w1 a -> am_messages a = [] -> vm_slot w1 v = vm_slot w v ->
  vm_translate_write (receiver w1) dest (am_slot a) = (Some d, receiver w1) ->
  let w' := put_cpu w1 (vm_slot w v) (set_block (set_internal (receiver w1) dest) BLOCK_MAILBOX_RECV t) in
  receiver w' = set_block (set_internal (receiver w1) dest) BLOCK_MAILBOX_RECV t /\ chan_ok (settled w') a.
Proof.
  intros H Hm Hs Hd w'. pose proof (ch_wf _ _ H) as [W _]. pose proof (ch_id _ _ H) as Hv.
  assert (receiver w' = set_block (set_internal (receiver w1) dest) BLOCK_MAILBOX_RECV t) as Er.
  { unfold receiver at 1, w'. change (vm_slot (put_cpu w1 (vm_slot w v) _) v) with (vm_slot w1 v).
    by rewrite Hs, cpu_at_put. }
  split; [done|]. destruct (ch_slot _ _ H) as [Hs0 Hva].
  assert (settled w' = set_sched w' (set_sets (w_sched w') (bm_clear (ready (w_sched w')) v) (bm_set (blocked (w_sched w')) v))) as ->.
  { unfold settled, apply_block_transition. change (vm_at (w_sched w') v) with (vm_at (w_sched w1) v).
    rewrite Hva, (proj2 (Z.eqb_neq (vm_slot w1 v) 0)) by done.
    rewrite bool_decide_eq_false_2; [done|]. change (cpu_at w' (vm_slot w1 v)) with (receiver w'). by rewrite Er. }
  set (w2 := set_sched w' _). assert (receiver w2 = receiver w') as E2 by done.
  apply (chan_ok_step w1 a); rewrite ?E2, ?Er; try done; [|apply (ch_sim _ _ H)|].
  - by apply (cpu_wf_host (receiver w1)).
  - intros _. split_and!; [done| |exists d; by apply (translate_write_same (receiver w1))].
    unfold w2. cbn [w_sched set_sched set_sets blocked]. rewrite bm_test_spec, bm_set_bit, Z.eqb_refl by lia. apply orb_true_r.
Qed.

(** The call on the mailbox, with the buffer [d] of the receiver. *)
Lemma recv_call w a d : chan_ok w a -> ~ waiting w -> (forall x, rng d (am_slot a) x -> visible (receiver w) x) ->
  let '(h, m, res) := vm_mailbox_recv (store16 (w_mem w) sender_var 0) (mailbox_at w v) scratch d sender_var in
  let w1 := set_mailbox (set_mem w h) v m in
  match am_messages a with
  | [] => res = VM_MBOX_ERR_EMPTY /\ chan_ok w1 a /\ host_only w w1
  | x :: l => res = VM_MBOX_OK /\ chan_ok w1 (abs_set_messages a l) /\ (load16 h sender_var, mem_read h d (am_slot a)) = x /\
      is_u16 x.1 /\ mem_agree (fun y => ~ host_area (mailbox_at w v) y /\ ~ rng d (am_slot a) y) (w_mem w) h
  end.
Proof.
  intros H Hnw Hvis. destruct (chan_slot _ _ H) as [Hn Hmb]. destruct (ch_area _ _ H) as (A1 & A2 & A3 & A4).
  destruct (buffer_apart w a _ d (am_slot a) H (ch_guest _ _ H) ltac:(lia) Hvis) as (Hd0 & D1 & D2 & D3).
  set (h0 := store16 (w_mem w) sender_var 0). set (mb := mailbox_at w v) in *.
  assert (mem_frame sender_var 2 (w_mem w) h0) as F0 by apply store16_frame.
  assert (mb_sim h0 mb a) as S0.
  { apply (mb_sim_frame (w_mem w)); [apply (ch_sim _ _ H)|]. intros x Hx. apply F0. unfold rng, rdisj in *. lia. }
  assert (cmd_ok scratch mb (MRecv d sender_var)) as Hcmd.
  { split; [done|]. rewrite Hmb. split_and!; [done|done|by split|by split|done]. }
  pose proof (recv_step scratch h0 mb a d sender_var S0 Hcmd) as Hst.
  assert (rdisj scratch (bf_block (mb_fifo mb)) (bf_base (mb_fifo mb)) (bf_bytes (mb_fifo mb))) as Dscr.
  { rewrite (ms_block _ _ _ S0), Hmb. unfold INTERNAL_SLOT_BYTES, VM_MAILBOX_SLOT_OVERHEAD.
    pose proof (ms_slot _ _ _ S0) as [[? ?] _]. unfold VM_MAILBOX_MAX_SLOT_SIZE in *. unfold rdisj in *. lia. }
  pose proof (recv_same h0 mb scratch d sender_var (ms_inv _ _ _ S0) Dscr) as Hbf.
  pose proof (fun Hm => recv_empty h0 mb a scratch d sender_var S0 Hm Hd0 Dscr) as Hemp.
  pose proof (ms_msgs _ _ _ S0) as Hmsgs.
  unfold step_ok, impl_call, abs_cmd in Hst.
  destruct (vm_mailbox_recv h0 mb scratch d sender_var) as [[h m] res]. cbn [fst] in Hemp. intros w1.
  destruct (am_messages a) as [|x l] eqn:Hl; destruct Hst as (Hsim & Hres & Hw).
  - specialize (Hemp eq_refl). subst h. split_and!; [congruence|by apply (chan_ok_store w a h0 m a)|].
    intros x Hx. apply (F0 x). intros Hr. apply Hx. unfold host_area. auto.
  - destruct (ms_slot _ _ _ Hsim) as [_ Hsl]. apply Forall_cons in Hmsgs as [[Hu _] _].
    split_and!; [by destruct res|by apply (chan_ok_store w a h m (abs_set_messages a l))| |done|].
    + change (am_slot a) with (am_slot (abs_set_messages a l)). rewrite Hsl. destruct res; congruence.
    + intros y [Hy Hyd]. rewrite (F0 y) by (intros Hr; apply Hy; unfold host_area; auto).
      apply Hw. unfold written. rewrite Hmb. unfold host_area in Hy. tauto.
Qed.

(** SYS_RECV on the channel does what [recv_done] says. *)
Lemma handle_recv_spec w a cpu system : chan_ok w a -> receiver_ok w cpu -> system <> 0 ->
  recv_done w a (handle_recv scratch sender_var cpu system w).
Proof.
  intros H [-> Hrun] Hsys. pose proof (ch_id _ _ H) as Hv. destruct (ch_slot _ _ H) as [Hs0 Hva].
  destruct (chan_slot _ _ H) as [Hn Hmb]. destruct (ch_wf _ _ H) as [W Hid].
  assert (~ waiting w) as Hnw by (unfold waiting; congruence).
  unfold handle_recv, sys_handler. rewrite (proj2 (Z.eqb_neq _ _) Hs0), (proj2 (Z.eqb_neq _ _) Hsys). cbn [orb].
  unfold recv_done. rewrite !cpu_at_receiver, Hid.
  assert (vm_system_get_mailbox w v = Some (mailbox_at w v)) as ->.
  { unfold vm_system_get_mailbox, VM_SCHED_MAX_VMS. rewrite (proj2 (Z.leb_gt 64 v)) by lia.
    by rewrite (proj2 (Z.eqb_neq (vm_slot w v) 0)). }
  rewrite Hmb. set (r := receiver w) in *. set (dest := reg r VM_REG_A0).
  destruct (translate_write_cases r dest (am_slot a)) as (o & c' & Eo & Hsame & Hvis & Wc & Hrole).
  rewrite Eo. cbn [fst]. destruct o as [d|].
  2: { apply recv_refused; [apply chan_ok_put; [done|by apply Wc|done]|done|..|done|].
       - unfold receiver. change (vm_slot (put_cpu w _ _) v) with (vm_slot w v). rewrite cpu_at_put.
         destruct Hrole as (_ & _ & _ & -> & _). done.
       - intros q Hq. by rewrite cpu_at_put_other. }
  specialize (Hvis d eq_refl). rewrite (Hsame ltac:(done)) in Eo. pose proof (recv_call w a d H Hnw Hvis) as Hcall.
  destruct (vm_mailbox_recv _ _ scratch d sender_var) as [[h m] res].
  set (w1 := set_mailbox (set_mem w h) v m) in *. change (receiver w1) with r.
  destruct (am_messages a) as [|x l] eqn:Hl.
  - destruct Hcall as (-> & H1 & Hho).
    destruct (reg r VM_REG_A1 =? 0); [by apply recv_refused|]. destruct (in_critical r); [by apply recv_refused|].
    destruct (recv_blocks w a w1 dest (recv_deadline w (reg r VM_REG_A1)) d H1 Hl eq_refl Eo) as [Er Hc].
    change (ops_now w1) with (ops_now w). fold (recv_deadline w (reg r VM_REG_A1)). change (cpu_at w1 (vm_slot w v)) with (receiver w1).
    split; [intros q Hq; by rewrite cpu_at_put_other|].
    split_and!; try done; unfold waiting; by rewrite Er.
  - destruct Hcall as (-> & H1 & <- & Hu & Hag). cbn [fst snd] in *. change (w_mem w1) with h.
    assert (receiver (ret w1 (vm_slot w v) (load16 h sender_var)) = set_reg r VM_REG_A0 (u32 (load16 h sender_var))) as Er.
    { unfold receiver at 1, ret. change (vm_slot (put_cpu w1 _ _) v) with (vm_slot w v). by rewrite cpu_at_put. }
    rewrite Er, reg_set_a0, u32_small by (done || (umach; lia)). split_and!; try done; [|by apply chan_ok_ret].
    intros q Hq. unfold ret. by rewrite cpu_at_put_other.
Qed.

(** When a receiver that has gone to sleep is woken: with no message it sleeps for ever
    when the timeout is UINT32_MAX; with a finite timeout it is woken with ETIMEDOUT at
    every check from the end of the timeout on and at none before.  The clock is the
    unbounded [T]; it is checked within 2^31 ticks. *)
Definition recv_wakes (w w' : SysWorld) : Prop :=
  let timeout := reg (receiver w) VM_REG_A1 in
  (timeout = UINT32_MAX -> forall now, timeout_decision now (receiver w') = (None, None)) /\
  forall T, ops_now w = u32 T -> 0 < timeout <= 2 ^ 31 -> u32 (T + timeout) <> 0 ->
    forall T', T <= T' < T + 2 ^ 31 ->
      timeout_decision (u32 T') (receiver w') =
      if T + timeout <=? T' then (Some (- VM_ETIMEDOUT), None) else (None, Some (T + timeout - T')).

Lemma recv_done_wakes w a w' : recv_done w a w' -> waiting w' -> recv_wakes w w'.
Proof.
  intros [_ Hd] Hw. assert (block_deadline (receiver w') = recv_deadline w (reg (receiver w) VM_REG_A1)) as Hdl.
  { unfold waiting in Hw. destruct (vm_translate_write _ _ _).1 as [d|]; [|destruct Hd as (_ & Hb & _); congruence].
    destruct (am_messages a); [|destruct Hd as (_ & _ & Hb & _); congruence].
    destruct (_ =? 0); [destruct Hd as (_ & Hb & _); congruence|]. destruct (in_critical _); [destruct Hd as (_ & Hb & _); congruence|].
    by destruct Hd as (_ & _ & _ & -> & _). }
  unfold recv_wakes, timeout_decision. rewrite Hw, Hdl. unfold recv_deadline. change (2 ^ 31) with 0x80000000. split.
  - intros ->. done.
  - intros T Hnow Ht Hz T' HT'. rewrite (proj2 (Z.eqb_neq _ UINT32_MAX)) by (unfold UINT32_MAX; lia).
    rewrite Hnow, u32_add_l, (proj2 (Z.eqb_neq _ 0)) by done. rewrite tick_reached_wide by lia.
    destruct (Z.leb_spec (T + reg (receiver w) VM_REG_A1) T'); [done|]. do 2 f_equal. zlia.
Qed.

(** ** Histories

    What the two ends observe: the sender that gets 0 has offered a message, and the
    receiver has a message in its hands when a call returns it or when its wait ends
    with one. *)
Definition message : Type := Z * list Z.

Definition offered (w : SysWorld) (cpu : Z) (w' : SysWorld) : list message :=
  let c := cpu_at w cpu in
  let n := slot_size (mailbox_at w v) in
  if negb (reg (cpu_at w' cpu) VM_REG_A0 =? 0) then [] else
  match (vm_translate_read c (reg c VM_REG_A1) n).1 with
  | Some p => [(vm_id c, mem_read (w_mem w) p n)]
  | None => []
  end.

(** The message in the receiver's buffer at guest address [addr]. *)
Definition in_hands (w : SysWorld) (addr : Z) (w' : SysWorld) : list message :=
  let n := slot_size (mailbox_at w v) in
  match (vm_translate_write (receiver w) addr n).1 with
  | Some d => [(reg (receiver w') VM_REG_A0, mem_read (w_mem w') d n)]
  | None => []
  end.

Definition handed (w w' : SysWorld) : list message :=
  if bool_decide (waiting w /\ ~ waiting w') then in_hands w (internal0 (receiver w)) w' else [].

Definition returned (w w' : SysWorld) : list message :=
  if bool_decide (waiting w') || negb (reg (receiver w') VM_REG_A0 <? 0x10000) then []
  else in_hands w (reg (receiver w) VM_REG_A0) w'.

(** Everything else that happens in the system: it leaves the queue, its storage and
    the receiver's place alone, and no one starts to wait. *)
Record quiet (w w' : SysWorld) : Prop := {
  qt_slot : vm_slot w' v = vm_slot w v /\ vm_at (w_sched w') v = vm_at (w_sched w) v;
  qt_len : length (sys_mailboxes (w_sys w')) = length (sys_mailboxes (w_sys w));
  qt_cpu : cpu_wf (receiver w') /\ same_place (receiver w) (receiver w');
  qt_queue : mb_fifo (mailbox_at w' v) = mb_fifo (mailbox_at w v) /\
             slot_size (mailbox_at w' v) = slot_size (mailbox_at w v);
  qt_mem : mem_agree (rng (bf_base (mb_fifo (mailbox_at w v))) (bf_bytes (mb_fifo (mailbox_at w v)))) (w_mem w) (w_mem w');
  qt_wait : waiting w' -> waiting w /\ internal0 (receiver w') = internal0 (receiver w) /\
            bm_test (blocked (w_sched w')) v = true
}.

(** A run of the system from [w0], with the messages accepted and received on the way. *)
Inductive chan_run (w0 : SysWorld) : list message -> list message -> SysWorld -> Prop :=
  | run_start : chan_run w0 [] [] w0
  | run_send acc rcv w cpu system : chan_run w0 acc rcv w -> sender_ok w cpu -> system <> 0 ->
      let w' := handle_send scratch cpu system w in
      chan_run w0 (acc ++ offered w cpu w') (rcv ++ handed w w') w'
  | run_recv acc rcv w cpu system : chan_run w0 acc rcv w -> receiver_ok w cpu -> system <> 0 ->
      let w' := handle_recv scratch sender_var cpu system w in
      chan_run w0 acc (rcv ++ returned w w') (settled w')
  | run_other acc rcv w w' : chan_run w0 acc rcv w -> quiet w w' -> chan_run w0 acc rcv w'.

Lemma quiet_ok w w' a : chan_ok w a -> quiet w w' ->
  chan_ok w' (abs_set_allowed a (Z.testbit (whitelist (mailbox_at w' v)))).
Proof.
  intros H [[Q1 Q1'] Q2 [Q3 (Q4 & Q5 & Q6)] [Q7 Q8] Q9 Q10]. apply (chan_ok_step w a); try done; [|by rewrite Q7|].
  - destruct (mb_sim_frame _ _ _ _ (ch_sim _ _ H) Q9) as [S1 S2 S3 S4 S5 S6 S7].
    split; cbn [am_slot am_depth am_messages am_allowed abs_set_allowed]; rewrite ?Q7, ?Q8; try done.
  - intros Hw. destruct (Q10 Hw) as (Hw0 & Hi & Hb). destruct (ch_waiting _ _ H Hw0) as (Hm & _ & d & Hd).
    split_and!; [done|done|]. exists d. rewrite Hi. by apply (translate_write_same (receiver w)).
Qed.

Lemma errno_nonzero w a cpu e : send_error w a cpu = Some e -> (u32 (- e) =? 0) = false.
Proof. unfold send_error. repeat case_match; intros [= <-]; vm_compute; done. Qed.

Lemma in_hands_one w a addr w' d : chan_ok w a -> vm_translate_write (receiver w) addr (am_slot a) = (Some d, receiver w) ->
  in_hands w addr w' = [(reg (receiver w') VM_REG_A0, mem_read (w_mem w') d (am_slot a))].
Proof. intros H Hd. destruct (chan_slot _ _ H) as [_ Hmb]. unfold in_hands. by rewrite Hmb, Hd. Qed.

(** One send, seen from both ends. *)
Lemma send_history w a cpu w' : chan_ok w a -> sender_ok w cpu -> sent w a cpu w' ->
  exists l, chan_ok w' (abs_set_messages a l) /\ am_messages a ++ offered w cpu w' = handed w w' ++ l.
Proof.
  intros H Hs [_ Hsent]. unfold offered, handed. destruct (chan_slot _ _ H) as [_ Hmb]. rewrite Hmb.
  destruct (send_error w a cpu) as [e|] eqn:He.
  - destruct Hsent as (Ha & H' & _ & Hr). rewrite Ha, (errno_nonzero _ _ _ _ He). cbn [negb].
    exists (am_messages a). rewrite bool_decide_eq_false_2; [split; [by destruct a|apply app_nil_r]|].
    intros [Hw Hnw]. apply Hnw. unfold waiting. rewrite Hr; [done|]. intros ->.
    pose proof (sd_runs _ _ Hs) as Hrun. unfold waiting, receiver in Hw. congruence.
  - destruct Hsent as (-> & p & -> & Hcase). cbn [negb fst Z.eqb].
    change (vm_id (cpu_at w cpu), mem_read (w_mem w) p (am_slot a)) with (the_message w a cpu p).
    case_bool_decide as Hw.
    + destruct Hcase as [Hd H']. destruct (ch_waiting _ _ H Hw) as (Hm & _). exists [].
      destruct (dl_buffer _ _ _ _ Hd) as (d & Ht & Hb & _).
      rewrite bool_decide_eq_true_2 by (split; [done|unfold waiting; by rewrite (proj1 (dl_run _ _ _ _ Hd))]).
      rewrite (in_hands_one w a _ w' d H Ht), (dl_sender _ _ _ _ Hd), Hb, Hm.
      split; [by rewrite <-Hm; destruct a|by destruct (the_message w a cpu p)].
    + destruct Hcase as (H' & _). eexists. split; [exact H'|]. by rewrite bool_decide_eq_false_2 by tauto.
Qed.

Lemma settled_id w a : chan_ok w a -> block_reason (receiver w) = BLOCK_NONE -> settled w = w.
Proof.
  intros H Hr. unfold settled, apply_block_transition. destruct (ch_slot _ _ H) as [_ ->].
  rewrite cpu_at_receiver, bool_decide_eq_true_2 by done. by destruct (vm_slot w v =? 0).
Qed.

Lemma abs_set_same a : abs_set_messages a (am_messages a) = a.
Proof. by destruct a. Qed.

Lemma errno_high e : In e [VM_EFAULT; VM_EAGAIN; VM_EBUSY] -> (u32 (- e) <? 0x10000) = false.
Proof. by intros [<-|[<-|[<-|[]]]]. Qed.

(** One receive. *)
Lemma recv_history w a w' : chan_ok w a -> recv_done w a w' ->
  exists l, chan_ok (settled w') (abs_set_messages a l) /\ am_messages a = returned w w' ++ l.
Proof.
  intros H [_ Hd]. unfold returned.
  destruct (translate_write_cases (receiver w) (reg (receiver w) VM_REG_A0) (am_slot a)) as (o & c' & Eo & Hsame & _).
  rewrite Eo in Hd. cbn [fst] in Hd.
  assert (forall e, In e [VM_EFAULT; VM_EAGAIN; VM_EBUSY] ->
    reg (receiver w') VM_REG_A0 = u32 (- e) /\ block_reason (receiver w') = BLOCK_NONE /\ chan_ok w' a /\ host_only w w' ->
    exists l, chan_ok (settled w') (abs_set_messages a l) /\
      am_messages a = (if bool_decide (waiting w') || negb (reg (receiver w') VM_REG_A0 <? 0x10000) then []
                       else in_hands w (reg (receiver w) VM_REG_A0) w') ++ l) as Hrefused.
  { intros e He (Ha & Hb & H' & _). exists (am_messages a).
    rewrite Ha, (errno_high e He), orb_true_r, abs_set_same, (settled_id _ a) by done. done. }
  destruct o as [d|]; [|apply (Hrefused VM_EFAULT); [cbn; tauto|done]]. rewrite (Hsame ltac:(done)) in Eo.
  destruct (am_messages a) as [|[id body] l] eqn:Hl.
  - destruct (reg (receiver w) VM_REG_A1 =? 0); [apply (Hrefused VM_EAGAIN); [cbn; tauto|done]|].
    destruct (in_critical (receiver w)); [apply (Hrefused VM_EBUSY); [cbn; tauto|done]|].
    destruct Hd as (Hw & _ & _ & _ & H' & _). exists []. rewrite bool_decide_eq_true_2 by done.
    by rewrite <-Hl, abs_set_same.
  - destruct Hd as (Ha & Hb & Hr & H' & _). cbn [fst snd] in *. exists l.
    rewrite (settled_id _ _ H' Hr). split; [done|].
    rewrite bool_decide_eq_false_2 by (unfold waiting; by rewrite Hr). cbn [orb].
    assert ((reg (receiver w') VM_REG_A0 <? 0x10000) = true) as ->.
    { pose proof (ms_msgs _ _ _ (ch_sim _ _ H)) as Hall. rewrite Hl in Hall. apply Forall_cons in Hall as [[Hu _] _].
      rewrite Ha. cbn [fst] in Hu. apply Z.ltb_lt. umach. lia. }
    by rewrite (in_hands_one w a _ w' d H Eo), Ha, Hb.
Qed.

Lemma chan_run_history w0 a0 acc rcv w : chan_ok w0 a0 -> am_messages a0 = [] -> chan_run w0 acc rcv w ->
  exists a, chan_ok w a /\ acc = rcv ++ am_messages a /\ am_slot a = am_slot a0 /\ am_depth a = am_depth a0.
Proof.
  intros H0 Hm. induction 1 as [|acc rcv w cpu system _ IH Hs Hsys|acc rcv w cpu system _ IH Hs Hsys|acc rcv w w' _ IH Hq].
  - exists a0. by rewrite Hm.
  - destruct IH as (a & H & -> & Ha).
    destruct (send_history w a cpu _ H Hs (handle_send_spec w a cpu system H Hs Hsys)) as (l & H' & Hl).
    exists (abs_set_messages a l). split; [done|]. split; [|done]. cbn [am_messages abs_set_messages]. rewrite <-!app_assoc. by f_equal.
  - destruct IH as (a & H & -> & Ha).
    destruct (recv_history w a _ H (handle_recv_spec w a cpu system H Hs Hsys)) as (l & H' & Hl).
    exists (abs_set_messages a l). split; [done|]. split; [|done]. cbn [am_messages abs_set_messages]. rewrite <-app_assoc. by f_equal.
  - destruct IH as (a & H & -> & Ha). eexists. split; [by apply (quiet_ok w)|done].
Qed.
End channel.

(** C10. A SYS_SEND to a VM fails with the errno its arguments and the mailbox call for,
    or returns 0.  A failing call changes the caller's [a0] - and, for EFAULT, the
    address and pc of the fault in its trap registers - and, for EAGAIN only, the host's
    scratch bytes and the mailbox's count of refused messages; every other CPU field,
    CPU, byte and record, and the scheduler, are as before.  A successful call changes
    the caller's [a0] to 0, and the message, with the sender's identifier, is last in
    the receiver's queue; or, when the receiver already waits in SYS_RECV, the message
    is in the buffer the receiver named, the sender in its [a0], and the receiver is
    taken off its wait and made ready in the scheduler.  No other CPU changes. *)
Theorem send_correct scratch sender_var v w a cpu system :
  chan_ok scratch sender_var v w a -> sender_ok scratch sender_var v w cpu -> system <> 0 ->
  let w' := handle_send scratch cpu system w in
  sent scratch sender_var v w a cpu w' /\ send_effect v w a cpu w'.
Proof. intros H1 H2 H3. split; [by apply handle_send_spec|]. by apply (handle_send_effect scratch sender_var). Qed.

(** C11. A SYS_RECV returns the oldest message of the caller's mailbox, the bytes in the
    caller's buffer and the sender in [a0], and takes it off the queue; on an empty
    queue it returns EAGAIN when the timeout is 0, EBUSY inside a critical section, and
    otherwise blocks the caller; a buffer that is not all writable returns EFAULT; no
    other CPU changes.  A caller that blocks at tick [T] with a timeout of [t] ticks is
    woken with ETIMEDOUT at every check of the scheduler from tick [T + t] on and at none
    before, for [t] up to 2^31, checks up to [T + 2^31], and unless [T + t] is 0 on the
    32-bit clock, which the code takes for "no timeout"; with UINT32_MAX it is never
    woken by the clock. *)
Theorem recv_correct scratch sender_var v w a cpu system :
  chan_ok scratch sender_var v w a -> receiver_ok v w cpu -> system <> 0 ->
  let w' := handle_recv scratch sender_var cpu system w in
  recv_done scratch sender_var v w a w' /\ (waiting v w' -> recv_wakes v w w').
Proof.
  intros H1 H2 H3 w'. pose proof (handle_recv_spec scratch sender_var v w a cpu system H1 H2 H3) as H.
  split; [done|]. by apply (recv_done_wakes scratch sender_var v w a).
Qed.

(** C8. Whatever the interleaving of sends, receives and everything else, the messages the
    receiver has been handed, by a call that returned one or by a delivery that ended
    its wait, followed by those in its mailbox are the messages accepted from the
    senders, in order: each arrives at most once, unchanged, and none is lost. *)
Theorem messages_fifo scratch sender_var v w0 a0 acc rcv w :
  chan_ok scratch sender_var v w0 a0 -> am_messages a0 = [] -> chan_run scratch sender_var v w0 acc rcv w ->
  exists a, chan_ok scratch sender_var v w a /\ acc = rcv ++ am_messages a /\
    (waiting v w -> acc = rcv) /\ Z.of_nat (length acc) - Z.of_nat (length rcv) <= am_depth a0.
Proof.
  intros H0 Hm Hrun. destruct (chan_run_history _ _ _ _ _ _ _ _ H0 Hm Hrun) as (a & H & -> & _ & Hd).
  exists a. split_and!; [done|done| |].
  - intros Hw. destruct (ch_waiting _ _ _ _ _ H Hw) as (-> & _). apply app_nil_r.
  - unfold message in *. rewrite length_app, <-Hd. pose proof (sim_bound _ _ _ (ch_sim _ _ _ _ _ H)). lia.
Qed.

(** Guest 1 at [0x600] sends two bytes to guest 2 at [0x700], which waits for them. *)
Definition chan_cpu (id a0 a1 a2 base : Z) : VmCpu :=
  set_region (set_reg (set_reg (set_reg (vm_init id) VM_REG_A0 a0) VM_REG_A1 a1) VM_REG_A2 a2)
    VM_REGION_DATA (mkRegion base 16 true).

Definition chan_world : SysWorld :=
  put_cpu (put_cpu (mkWorld
    (mkSched 0 0 0 0 2 (aset (aset (replicate 64 0) 1 0x600) 2 0x700) (replicate 64 0) (replicate 64 0) 6 0 0)
    (fun _ => vm_init 0) (mem_write (fun _ => 0) 0x9000 [7; 9])
    (mkSystem (aset (aset (replicate 64 0) 1 0x600) 2 0x700) (<[2%nat := demo_mailbox]> (replicate 64 zero_mailbox))
       (replicate 64 zero_tracking) slab_zero slab_zero))
    0x600 (chan_cpu 1 2 0x80000000 2 0x9000)) 0x700 (chan_cpu 2 0x80000004 0xFFFFFFFF 0 0xA000).

Lemma chan_cpu_wf id a0 a1 a2 base : is_u16 id -> is_u32 a0 -> is_u32 a1 -> is_u32 a2 -> cpu_wf (chan_cpu id a0 a1 a2 base).
Proof.
  intros Hid H0 H1 H2. split; try done. unfold chan_cpu. cbn.
  repeat (apply Forall_cons; split; [first [done | unfold is_u32; lia]|]). apply Forall_nil. done.
Qed.

Lemma chan_cpu_apart (w : SysWorld) id a0 a1 a2 base : mailbox_at w 2 = demo_mailbox -> 0x5000 <= base ->
  guest_apart 0x3000 0x4800 2 w (chan_cpu id a0 a1 a2 base).
Proof.
  intros Hm Hb x (r & Hr & Hx). rewrite Hm. unfold host_area, rng, bf_bytes. cbn. unfold region_bytes_of, rng in Hx. umach.
  assert (r = no_region \/ r = mkRegion base 16 true) as [->| ->]; [|cbn in Hx; lia..].
  destruct Hr as [->|[i Hi]]; [by left|].
  do 4 (destruct i as [|i]; [injection Hi as <-; auto|]). by destruct i.
Qed.

Definition chan_abs : AbsMailbox := mkAbs [] (fun id => id =? 1) 2 1.

Lemma chan_world_ok : chan_ok 0x3000 0x4800 2 chan_world chan_abs.
Proof.
  split; try done.
  - split; [apply (chan_cpu_wf 2)|done]; unfold is_u16, is_u32; lia.
  - apply demo_mailbox_sim.
  - change (mailbox_at chan_world 2) with demo_mailbox. unfold rdisj, bf_bytes. cbn. umach. lia.
  - apply (chan_cpu_apart _ 2); [done|lia].
Qed.

Lemma chan_sender_ok : sender_ok 0x3000 0x4800 2 chan_world 0x600.
Proof.
  split; try done; [apply (chan_cpu_wf 1); unfold is_u16, is_u32; lia|]. apply (chan_cpu_apart _ 1); [done|lia].
Qed.

Lemma chan_receiver_ok : receiver_ok 2 chan_world 0x700.
Proof. by split. Qed.

Definition chan_world_asking : SysWorld := handle_recv 0x3000 0x4800 0x700 0x500 chan_world.
Definition chan_world_waiting : SysWorld := settled 2 chan_world_asking.
Definition chan_world_delivered : SysWorld := handle_send 0x3000 0x600 0x500 chan_world_waiting.

Lemma chan_sender_waiting : sender_ok 0x3000 0x4800 2 chan_world_waiting 0x600.
Proof.
  assert (cpu_at chan_world_waiting 0x600 = chan_cpu 1 2 0x80000000 2 0x9000) as E by (vm_compute; reflexivity).
  split; rewrite ?E; try done; [apply (chan_cpu_wf 1); unfold is_u16, is_u32; lia|].
  apply (chan_cpu_apart _ 1); [vm_compute; reflexivity|lia].
Qed.

Lemma send_correct_witness :
  (sent 0x3000 0x4800 2 chan_world chan_abs 0x600 (handle_send 0x3000 0x600 0x500 chan_world) /\
   send_effect 2 chan_world chan_abs 0x600 (handle_send 0x3000 0x600 0x500 chan_world)) /\
  send_error 2 chan_world chan_abs 0x600 = None.
Proof. split; [exact (send_correct _ _ 2 _ _ 0x600 0x500 chan_world_ok chan_sender_ok ltac:(done))|by vm_compute]. Defined.

Lemma recv_correct_witness :
  (recv_done 0x3000 0x4800 2 chan_world chan_abs (handle_recv 0x3000 0x4800 0x700 0x500 chan_world) /\
   (waiting 2 (handle_recv 0x3000 0x4800 0x700 0x500 chan_world) ->
    recv_wakes 2 chan_world (handle_recv 0x3000 0x4800 0x700 0x500 chan_world))) /\
  waiting 2 (handle_recv 0x3000 0x4800 0x700 0x500 chan_world).
Proof.
  split; [exact (recv_correct _ _ 2 _ _ 0x700 0x500 chan_world_ok chan_receiver_ok ltac:(done))|by vm_compute].
Defined.

(** The receiver waits, the sender's message goes straight into its buffer. *)
Lemma run_recv_send scratch sender_var v w0 cpu cpu' system w1 w2 w3 acc rcv : receiver_ok v w0 cpu -> system <> 0 ->
  w1 = handle_recv scratch sender_var cpu system w0 -> w2 = settled v w1 -> w3 = handle_send scratch cpu' system w2 ->
  sender_ok scratch sender_var v w2 cpu' -> offered v w2 cpu' w3 = acc -> returned v w0 w1 ++ handed v w2 w3 = rcv ->
  chan_run scratch sender_var v w0 acc rcv w3.
Proof.
  intros Hr Hs -> -> -> Hs' <- <-.
  apply (run_send scratch sender_var v w0 [] (returned v w0 (handle_recv scratch sender_var cpu system w0))); [|done|done].
  apply (run_recv scratch sender_var v w0 [] [] w0 cpu system); [constructor|done|done].
Qed.

Lemma chan_demo_run : chan_run 0x3000 0x4800 2 chan_world [(1, [7; 9])] [(1, [7; 9])] chan_world_delivered.
Proof.
  apply (run_recv_send 0x3000 0x4800 2 chan_world 0x700 0x600 0x500 chan_world_asking chan_world_waiting chan_world_delivered).
  - exact chan_receiver_ok.
  - done.
  - unfold chan_world_asking. reflexivity.
  - unfold chan_world_waiting. reflexivity.
  - unfold chan_world_delivered. reflexivity.
  - exact chan_sender_waiting.
  - vm_compute. reflexivity.
  - vm_compute. reflexivity.
Qed.

Lemma messages_fifo_witness :
  exists a, chan_ok 0x3000 0x4800 2 chan_world_delivered a /\ [(1, [7; 9])] = [(1, [7; 9])] ++ am_messages a /\
    (waiting 2 chan_world_delivered -> [(1, [7; 9])] = [(1, [7; 9])]) /\ 1 - 1 <= 1.
Proof. exact (messages_fifo _ _ 2 _ _ _ _ _ chan_world_ok eq_refl chan_demo_run). Defined.

(** A finite timeout that ends at tick 0 modulo [2^32] is stored as "for ever". *)
Lemma recv_timeout_lost (w : SysWorld) t : ops_now w + t = 2 ^ 32 -> t <> UINT32_MAX ->
  recv_deadline w t = 0 /\ forall now c, block_reason c = BLOCK_MAILBOX_RECV -> block_deadline c = recv_deadline w t ->
    timeout_decision now c = (None, None).
Proof.
  intros Ht Hne. assert (recv_deadline w t = 0) as E.
  { unfold recv_deadline. rewrite (proj2 (Z.eqb_neq t _)) by done. by rewrite Ht. }
  split; [done|]. intros now c Hr Hd. unfold timeout_decision. by rewrite Hr, Hd, E.
Qed.

(** A sender identifier is cut to 16 bits before the whitelist looks at it: 0x10003
    stands for VM 3 instead of for no VM. *)
Lemma whitelist_id_cut :
  let w := put_cpu chan_world 0x700 (chan_cpu 2 0x10003 0 0 0xA000) in
  let w' := handle_whitelist_add 0x700 0x500 w in
  reg (cpu_at w' 0x700) VM_REG_A0 = 0 /\ vm_mailbox_whitelist_check (mailbox_at w 2) 3 = false /\
  vm_mailbox_whitelist_check (mailbox_at w' 2) 3 = true.
Proof. split_and!; vm_compute; reflexivity. Qed.
