(* ===== verification/TrashFs.v ===== *)
(** The trash file system, [src/storage/trashfs.c]: a volume in a region of host memory
    with a superblock, a free-block bitmap, a table of inodes and data blocks; files and
    directories as trees of blocks below an inode.  This file holds the code.  TrashTree
    and TrashFile prove allocation, reading and writing, TrashFree the release of blocks,
    TrashFmt formatting and mounting, TrashDir and TrashSlot the directories, TrashPath,
    TrashLink and TrashName paths and the operations on names.

    A volume handle is a value that the operations take and return, next to the memory
    that holds the region; a file or directory handle names its inode and is used with
    the volume it was opened on.  Strings are lists of bytes without the final NUL.
    Loops take a fuel computed from their bounds; [None] would mean that the loop does
    not end, and the theorems show that it always does on a well-formed volume. *)
From S2P Require Import Prelude HostMem.
#[local] Open Scope Z_scope.

(** ** Format constants *)

Definition TRASHFS_MAGIC : Z := 0x54524653.
Definition TRASHFS_VERSION_MAJOR : Z := 1.
Definition TRASHFS_VERSION_MINOR : Z := 0.
Definition TRASHFS_BLOCK_SIZE : Z := 128.
Definition TRASHFS_INODE_SIZE : Z := 64.
Definition TRASHFS_DIRENT_SIZE : Z := 48.
Definition TRASHFS_INODES_PER_BLOCK : Z := TRASHFS_BLOCK_SIZE / TRASHFS_INODE_SIZE.
Definition TRASHFS_PTRS_PER_BLOCK : Z := TRASHFS_BLOCK_SIZE / 4.
Definition TRASHFS_DIRECT_PTRS : Z := 8.
Definition TRASHFS_NAME_MAX : Z := 32.
Definition TRASHFS_MIN_BYTES : Z := 16 * 1024.
Definition TRASHFS_INODES_FLOOR : Z := 16.
Definition TRASHFS_BYTES_PER_INODE : Z := 2048.
Definition TRASHFS_BLOCKS_PER_INODE : Z := TRASHFS_BYTES_PER_INODE / TRASHFS_BLOCK_SIZE.
Definition TRASHFS_BLOCK_NONE : Z := 0.
Definition TRASHFS_MODE_USED : Z := 1.
Definition TRASHFS_MODE_DIR : Z := 2.
Definition TRASHFS_TYPE_FILE : Z := 0.
Definition TRASHFS_TYPE_DIR : Z := 1.
Definition TRASHFS_ROOT_INODE : Z := 0.
Definition TRASHFS_SEEK_SET : Z := 0.
Definition TRASHFS_SEEK_CUR : Z := 1.
Definition TRASHFS_SEEK_END : Z := 2.
Definition TRASHFS_O_CREAT : Z := 1.
Definition TRASHFS_O_TRUNC : Z := 2.
Definition TRASHFS_O_APPEND : Z := 4.
Definition TRASHFS_MAX_PATH_COMPS : Z := 40.
Definition TRASHFS_PATH_DEPTH : Z := 40.

Inductive TrashfsResult :=
  | TRASHFS_OK
  | TRASHFS_ERR_INVALID_ARG
  | TRASHFS_ERR_TOO_SMALL
  | TRASHFS_ERR_BAD_MAGIC
  | TRASHFS_ERR_BAD_VERSION
  | TRASHFS_ERR_BAD_GEOMETRY
  | TRASHFS_ERR_NO_SPACE
  | TRASHFS_ERR_NOT_FOUND
  | TRASHFS_ERR_IO
  | TRASHFS_ERR_EXISTS
  | TRASHFS_ERR_NOT_EMPTY
  | TRASHFS_ERR_NOT_DIR.

#[export] Instance trashfs_result_dec : EqDecision TrashfsResult.
Proof. solve_decision. Defined.

Record TrashfsGeom := mkGeom {
  g_total_blocks : Z;
  g_bitmap_start : Z;
  g_bitmap_blocks : Z;
  g_inode_start : Z;
  g_inode_blocks : Z;
  g_inode_count : Z;
  g_data_start : Z
}.

Record TrashfsVolume := mkVolume {
  v_region : Z;
  v_region_bytes : Z;
  total_blocks : Z;
  bitmap_start : Z;
  bitmap_blocks : Z;
  inode_start : Z;
  inode_blocks : Z;
  inode_count : Z;
  data_start : Z;
  free_blocks : Z;
  free_inodes : Z;
  mounted : bool
}.

Definition zero_volume : TrashfsVolume := mkVolume 0 0 0 0 0 0 0 0 0 0 0 false.

Definition set_free (v : TrashfsVolume) (blocks inodes : Z) : TrashfsVolume :=
  mkVolume (v_region v) (v_region_bytes v) (total_blocks v) (bitmap_start v) (bitmap_blocks v)
    (inode_start v) (inode_blocks v) (inode_count v) (data_start v) blocks inodes (mounted v).

Record TrashfsFile := mkFile { f_inode : Z; f_size : Z; f_pos : Z; f_is_dir : bool; f_open : bool }.
Record TrashfsDir := mkDir { d_inode : Z; d_size : Z; d_pos : Z; d_open : bool }.
Record TrashfsDirent_Out := mkDirent { de_name : list Z; de_type : Z; de_inode : Z; de_size : Z }.

(** ** Bytes, blocks and inodes *)

Definition rd32 (m : mem) (p : Z) : Z := load32 m p.
Definition rd16 (m : mem) (p : Z) : Z := load16 m p.
Definition wr32 (m : mem) (p v : Z) : mem := store32 m p v.
Definition wr16 (m : mem) (p v : Z) : mem := store16 m p v.

Definition block_ptr (region block : Z) : Z := region + block * TRASHFS_BLOCK_SIZE.

Definition inode_ptr (vol : TrashfsVolume) (i : Z) : Z :=
  block_ptr (v_region vol) (u32 (inode_start vol + i / TRASHFS_INODES_PER_BLOCK)) +
  i mod TRASHFS_INODES_PER_BLOCK * TRASHFS_INODE_SIZE.

(** ** Format *)

Definition ceil_div (a b : Z) : Z := u32 (a + b - 1) / b.

Definition compute_geometry (total_blocks inode_hint : Z) : option TrashfsGeom :=
  let bitmap_start := 1 in
  let bitmap_bytes := ceil_div total_blocks 8 in
  let bitmap_blocks := ceil_div bitmap_bytes TRASHFS_BLOCK_SIZE in
  let bitmap_blocks := if bitmap_blocks =? 0 then 1 else bitmap_blocks in
  let icount :=
    if inode_hint =? 0 then
      let icount := total_blocks / TRASHFS_BLOCKS_PER_INODE in
      if icount <? TRASHFS_INODES_FLOOR then TRASHFS_INODES_FLOOR else icount
    else inode_hint in
  let inode_blocks := ceil_div icount TRASHFS_INODES_PER_BLOCK in
  let inode_count := u32 (inode_blocks * TRASHFS_INODES_PER_BLOCK) in
  let inode_start := u32 (bitmap_start + bitmap_blocks) in
  let data_start := u32 (inode_start + inode_blocks) in
  if total_blocks <=? data_start then None else
  Some (mkGeom total_blocks bitmap_start bitmap_blocks inode_start inode_blocks inode_count data_start).

(** The byte and the mask of a block's bit in a bitmap at [bm]. *)
Definition bit_byte (bm block : Z) : Z := bm + Z.shiftr block 3.
Definition bit_mask (block : Z) : Z := u8 (Z.shiftl 1 (Z.land block 7)).

Definition bitmap_set (m : mem) (region : Z) (g : TrashfsGeom) (block : Z) : mem :=
  let a := bit_byte (block_ptr region (g_bitmap_start g)) block in
  mem_write m a [Z.lor (m a) (bit_mask block)].

(** [for (b = 0; b < n; b++) bitmap_set(region, &g, b)]. *)
Fixpoint mark_metadata (m : mem) (region : Z) (g : TrashfsGeom) (n : nat) : mem :=
  match n with
  | O => m
  | S n => bitmap_set (mark_metadata m region g n) region g (Z.of_nat n)
  end.

Definition write_superblock (m : mem) (sb : Z) (g : TrashfsGeom) (free_blocks free_inodes now : Z) : mem :=
  let m := wr32 m (sb + 0) TRASHFS_MAGIC in
  let m := wr16 m (sb + 4) TRASHFS_VERSION_MAJOR in
  let m := wr16 m (sb + 6) TRASHFS_VERSION_MINOR in
  let m := wr32 m (sb + 8) TRASHFS_BLOCK_SIZE in
  let m := wr32 m (sb + 12) (g_total_blocks g) in
  let m := wr32 m (sb + 16) (g_bitmap_start g) in
  let m := wr32 m (sb + 20) (g_bitmap_blocks g) in
  let m := wr32 m (sb + 24) (g_inode_start g) in
  let m := wr32 m (sb + 28) (g_inode_blocks g) in
  let m := wr32 m (sb + 32) (g_inode_count g) in
  let m := wr32 m (sb + 36) (g_data_start g) in
  let m := wr32 m (sb + 40) TRASHFS_ROOT_INODE in
  let m := wr32 m (sb + 44) free_blocks in
  let m := wr32 m (sb + 48) free_inodes in
  let m := wr32 m (sb + 52) 0 in
  wr32 m (sb + 56) now.

Definition trashfs_format (m : mem) (region region_bytes inode_hint now : Z) : mem * TrashfsResult :=
  if region =? 0 then (m, TRASHFS_ERR_INVALID_ARG) else
  if negb (region_bytes mod TRASHFS_BLOCK_SIZE =? 0) then (m, TRASHFS_ERR_INVALID_ARG) else
  if region_bytes <? TRASHFS_MIN_BYTES then (m, TRASHFS_ERR_TOO_SMALL) else
  let total_blocks := region_bytes / TRASHFS_BLOCK_SIZE in
  match compute_geometry total_blocks inode_hint with
  | None => (m, TRASHFS_ERR_BAD_GEOMETRY)
  | Some g =>
      let m := memset m region 0 region_bytes in
      let m := mark_metadata m region g (Z.to_nat (g_data_start g)) in
      let root_block := g_data_start g in
      let m := bitmap_set m region g root_block in
      let inode0 := block_ptr region (g_inode_start g) in
      let m := wr16 m (inode0 + 0) (Z.lor TRASHFS_MODE_USED TRASHFS_MODE_DIR) in
      let m := wr16 m (inode0 + 2) 1 in
      let m := wr32 m (inode0 + 4) 0 in
      let m := wr32 m (inode0 + 8) now in
      let m := wr32 m (inode0 + 12) now in
      let m := wr32 m (inode0 + 16) root_block in
      let used_blocks := u32 (g_data_start g + 1) in
      let free_blocks := u32 (total_blocks - used_blocks) in
      let free_inodes := u32 (g_inode_count g - 1) in
      (write_superblock m (block_ptr region 0) g free_blocks free_inodes now, TRASHFS_OK)
  end.

(** ** Mount *)

Definition block_bit (m : mem) (bm b : Z) : bool :=
  negb (Z.land (Z.shiftr (m (bit_byte bm b)) (Z.land b 7)) 1 =? 0).

(** Clear bits among the [n] blocks from [b]. *)
Fixpoint count_free_blocks (m : mem) (bm : Z) (n : nat) (b : Z) : Z :=
  match n with
  | O => 0
  | S n => (if block_bit m bm b then 0 else 1) + count_free_blocks m bm n (b + 1)
  end.

Definition inode_used (m : mem) (vol : TrashfsVolume) (i : Z) : bool :=
  negb (Z.land (rd16 m (inode_ptr vol i + 0)) TRASHFS_MODE_USED =? 0).

(** Unused inodes among the [n] from [i]. *)
Fixpoint count_free_inodes (m : mem) (vol : TrashfsVolume) (n : nat) (i : Z) : Z :=
  match n with
  | O => 0
  | S n => (if inode_used m vol i then 0 else 1) + count_free_inodes m vol n (i + 1)
  end.

Definition rebuild_caches (m : mem) (vol : TrashfsVolume) : TrashfsVolume :=
  let bm := block_ptr (v_region vol) (bitmap_start vol) in
  let blocks := count_free_blocks m bm (Z.to_nat (total_blocks vol - data_start vol)) (data_start vol) in
  set_free vol blocks (count_free_inodes m vol (Z.to_nat (inode_count vol)) 0).

(** [region] is not null. *)
Definition trashfs_mount (m : mem) (vol : TrashfsVolume) (region region_bytes : Z) : TrashfsVolume * TrashfsResult :=
  if region_bytes <? TRASHFS_MIN_BYTES then (vol, TRASHFS_ERR_TOO_SMALL) else
  let sb := block_ptr region 0 in
  if negb (rd32 m (sb + 0) =? TRASHFS_MAGIC) then (zero_volume, TRASHFS_ERR_BAD_MAGIC) else
  if negb (rd16 m (sb + 4) =? TRASHFS_VERSION_MAJOR) then (zero_volume, TRASHFS_ERR_BAD_VERSION) else
  let block_size := rd32 m (sb + 8) in
  let total_blocks := rd32 m (sb + 12) in
  let bitmap_start := rd32 m (sb + 16) in
  let bitmap_blocks := rd32 m (sb + 20) in
  let inode_start := rd32 m (sb + 24) in
  let inode_blocks := rd32 m (sb + 28) in
  let inode_count := rd32 m (sb + 32) in
  let data_start := rd32 m (sb + 36) in
  let root_inode := rd32 m (sb + 40) in
  if negb (block_size =? TRASHFS_BLOCK_SIZE) then (zero_volume, TRASHFS_ERR_BAD_GEOMETRY) else
  if negb (total_blocks =? region_bytes / TRASHFS_BLOCK_SIZE) then (zero_volume, TRASHFS_ERR_BAD_GEOMETRY) else
  if negb (bitmap_start =? 1) then (zero_volume, TRASHFS_ERR_BAD_GEOMETRY) else
  if negb (inode_start =? u32 (bitmap_start + bitmap_blocks)) then (zero_volume, TRASHFS_ERR_BAD_GEOMETRY) else
  if negb (data_start =? u32 (inode_start + inode_blocks)) then (zero_volume, TRASHFS_ERR_BAD_GEOMETRY) else
  if total_blocks <=? data_start then (zero_volume, TRASHFS_ERR_BAD_GEOMETRY) else
  if negb (inode_count =? u32 (inode_blocks * TRASHFS_INODES_PER_BLOCK)) then (zero_volume, TRASHFS_ERR_BAD_GEOMETRY) else
  if negb (root_inode =? TRASHFS_ROOT_INODE) then (zero_volume, TRASHFS_ERR_BAD_GEOMETRY) else
  let vol := mkVolume region region_bytes total_blocks bitmap_start bitmap_blocks inode_start inode_blocks
               inode_count data_start 0 0 true in
  (rebuild_caches m vol, TRASHFS_OK).

Definition trashfs_total_blocks (vol : TrashfsVolume) : Z := total_blocks vol.
Definition trashfs_free_blocks (vol : TrashfsVolume) : Z := free_blocks vol.
Definition trashfs_inode_count (vol : TrashfsVolume) : Z := inode_count vol.
Definition trashfs_free_inodes (vol : TrashfsVolume) : Z := free_inodes vol.

(** ** Allocation of blocks and inodes *)

Definition bitmap_of (vol : TrashfsVolume) : Z := block_ptr (v_region vol) (bitmap_start vol).

Definition bitmap_test_v (m : mem) (vol : TrashfsVolume) (block : Z) : bool :=
  block_bit m (bitmap_of vol) block.
Definition bitmap_set_v (m : mem) (vol : TrashfsVolume) (block : Z) : mem :=
  let a := bit_byte (bitmap_of vol) block in
  mem_write m a [Z.lor (m a) (bit_mask block)].
Definition bitmap_clear_v (m : mem) (vol : TrashfsVolume) (block : Z) : mem :=
  let a := bit_byte (bitmap_of vol) block in
  mem_write m a [Z.land (m a) (u8 (not32 (Z.shiftl 1 (Z.land block 7))))].

(** The first block among the [n] from [b] whose bit is clear. *)
Fixpoint find_free_block (m : mem) (vol : TrashfsVolume) (n : nat) (b : Z) : option Z :=
  match n with
  | O => None
  | S n => if bitmap_test_v m vol b then find_free_block m vol n (b + 1) else Some b
  end.

Definition alloc_block_v (m : mem) (vol : TrashfsVolume) : mem * TrashfsVolume * Z :=
  match find_free_block m vol (Z.to_nat (total_blocks vol - data_start vol)) (data_start vol) with
  | Some b =>
      let m := bitmap_set_v m vol b in
      let m := memset m (block_ptr (v_region vol) b) 0 TRASHFS_BLOCK_SIZE in
      (m, if 0 <? free_blocks vol then set_free vol (free_blocks vol - 1) (free_inodes vol) else vol, b)
  | None => (m, vol, TRASHFS_BLOCK_NONE)
  end.

Definition free_block_v (m : mem) (vol : TrashfsVolume) (block : Z) : mem * TrashfsVolume :=
  if block =? TRASHFS_BLOCK_NONE then (m, vol) else
  if (block <? data_start vol) || (total_blocks vol <=? block) then (m, vol) else
  if bitmap_test_v m vol block
  then (bitmap_clear_v m vol block, set_free vol (u32 (free_blocks vol + 1)) (free_inodes vol))
  else (m, vol).

Fixpoint find_free_inode (m : mem) (vol : TrashfsVolume) (n : nat) (i : Z) : option Z :=
  match n with
  | O => None
  | S n => if inode_used m vol i then find_free_inode m vol n (i + 1) else Some i
  end.

(** [None] for [UINT32_MAX]. *)
Definition alloc_inode_v (m : mem) (vol : TrashfsVolume) : TrashfsVolume * option Z :=
  match find_free_inode m vol (Z.to_nat (inode_count vol)) 0 with
  | Some i => (if 0 <? free_inodes vol then set_free vol (free_blocks vol) (free_inodes vol - 1) else vol, Some i)
  | None => (vol, None)
  end.

(** The block named by the pointer at [slot], allocated and stored there if there is
    none: the step that [bmap_alloc] repeats at each level. *)
Definition ensure_slot (m : mem) (vol : TrashfsVolume) (slot : Z) : mem * TrashfsVolume * Z :=
  let b := rd32 m slot in
  if b =? TRASHFS_BLOCK_NONE then
    let '(m, vol, b) := alloc_block_v m vol in
    if b =? TRASHFS_BLOCK_NONE then (m, vol, TRASHFS_BLOCK_NONE) else (wr32 m slot b, vol, b)
  else (m, vol, b).

Definition ptr_slot (vol : TrashfsVolume) (block idx : Z) : Z := block_ptr (v_region vol) block + idx * 4.

Definition bmap_alloc (m : mem) (vol : TrashfsVolume) (inode lbn : Z) : mem * TrashfsVolume * Z :=
  let P := TRASHFS_PTRS_PER_BLOCK in
  if lbn <? TRASHFS_DIRECT_PTRS then ensure_slot m vol (inode + 16 + lbn * 4) else
  let lbn := lbn - TRASHFS_DIRECT_PTRS in
  if lbn <? P then
    let '(m, vol, single) := ensure_slot m vol (inode + 48) in
    if single =? TRASHFS_BLOCK_NONE then (m, vol, TRASHFS_BLOCK_NONE) else
    ensure_slot m vol (ptr_slot vol single lbn)
  else
  let lbn := lbn - P in
  if lbn <? P * P then
    let '(m, vol, dbl) := ensure_slot m vol (inode + 52) in
    if dbl =? TRASHFS_BLOCK_NONE then (m, vol, TRASHFS_BLOCK_NONE) else
    let '(m, vol, l1) := ensure_slot m vol (ptr_slot vol dbl (lbn / P)) in
    if l1 =? TRASHFS_BLOCK_NONE then (m, vol, TRASHFS_BLOCK_NONE) else
    ensure_slot m vol (ptr_slot vol l1 (lbn mod P))
  else
  let lbn := lbn - P * P in
  if lbn <? P * P * P then
    let '(m, vol, triple) := ensure_slot m vol (inode + 56) in
    if triple =? TRASHFS_BLOCK_NONE then (m, vol, TRASHFS_BLOCK_NONE) else
    let '(m, vol, l1) := ensure_slot m vol (ptr_slot vol triple (lbn / (P * P))) in
    if l1 =? TRASHFS_BLOCK_NONE then (m, vol, TRASHFS_BLOCK_NONE) else
    let '(m, vol, l2) := ensure_slot m vol (ptr_slot vol l1 (lbn / P mod P)) in
    if l2 =? TRASHFS_BLOCK_NONE then (m, vol, TRASHFS_BLOCK_NONE) else
    ensure_slot m vol (ptr_slot vol l2 (lbn mod P))
  else (m, vol, TRASHFS_BLOCK_NONE).

(** ** The read-only walk *)

Definition ptr_in_block (m : mem) (vol : TrashfsVolume) (block idx : Z) : Z :=
  if block =? TRASHFS_BLOCK_NONE then TRASHFS_BLOCK_NONE else rd32 m (ptr_slot vol block idx).

Definition map_lbn (m : mem) (vol : TrashfsVolume) (inode lbn : Z) : Z :=
  let P := TRASHFS_PTRS_PER_BLOCK in
  if lbn <? TRASHFS_DIRECT_PTRS then rd32 m (inode + 16 + lbn * 4) else
  let lbn := lbn - TRASHFS_DIRECT_PTRS in
  if lbn <? P then ptr_in_block m vol (rd32 m (inode + 48)) lbn else
  let lbn := lbn - P in
  if lbn <? P * P then
    let l1 := ptr_in_block m vol (rd32 m (inode + 52)) (lbn / P) in
    ptr_in_block m vol l1 (lbn mod P)
  else
  let lbn := lbn - P * P in
  if lbn <? P * P * P then
    let l1 := ptr_in_block m vol (rd32 m (inode + 56)) (lbn / (P * P)) in
    let l2 := ptr_in_block m vol l1 (lbn / P mod P) in
    ptr_in_block m vol l2 (lbn mod P)
  else TRASHFS_BLOCK_NONE.

(** ** Files *)

Definition file_at (f : TrashfsFile) (pos : Z) : TrashfsFile := mkFile (f_inode f) (f_size f) pos (f_is_dir f) (f_open f).

Fixpoint read_loop (fuel : nat) (m : mem) (vol : TrashfsVolume) (f : TrashfsFile) (buf n done : Z)
    : option (mem * TrashfsFile * Z) :=
  if negb ((done <? n) && (f_pos f <? f_size f)) then Some (m, f, done) else
  match fuel with
  | O => None
  | S fuel =>
      let lbn := f_pos f / TRASHFS_BLOCK_SIZE in
      let boff := f_pos f mod TRASHFS_BLOCK_SIZE in
      let avail := TRASHFS_BLOCK_SIZE - boff in
      let left_in_file := f_size f - f_pos f in
      let want := n - done in
      let chunk := if want <? avail then want else avail in
      let chunk := if left_in_file <? chunk then left_in_file else chunk in
      let blk := map_lbn m vol (inode_ptr vol (f_inode f)) lbn in
      let m :=
        if blk =? TRASHFS_BLOCK_NONE then memset m (buf + done) 0 chunk
        else memcpy m (buf + done) (block_ptr (v_region vol) blk + boff) chunk in
      read_loop fuel m vol (file_at f (f_pos f + chunk)) buf n (done + chunk)
  end.

(** The count read comes with the result. *)
Definition trashfs_read (m : mem) (vol : TrashfsVolume) (f : TrashfsFile) (buf n : Z)
    : option (mem * TrashfsFile * Z * TrashfsResult) :=
  if negb (f_open f) || (buf =? 0) then Some (m, f, 0, TRASHFS_ERR_INVALID_ARG) else
  '(m, f, done) ← read_loop (Z.to_nat n) m vol f buf n 0;
  Some (m, f, done, TRASHFS_OK).

(** [None] when the arguments are refused. *)
Definition lseek_base (f : TrashfsFile) (whence : Z) : option Z :=
  if whence =? TRASHFS_SEEK_SET then Some 0 else
  if whence =? TRASHFS_SEEK_CUR then Some (f_pos f) else
  if whence =? TRASHFS_SEEK_END then Some (f_size f) else None.

Definition trashfs_lseek (f : TrashfsFile) (off whence : Z) : TrashfsFile * TrashfsResult :=
  if negb (f_open f) then (f, TRASHFS_ERR_INVALID_ARG) else
  match lseek_base f whence with
  | None => (f, TRASHFS_ERR_INVALID_ARG)
  | Some base =>
      let np := base + off in
      if np <? 0 then (f, TRASHFS_ERR_INVALID_ARG) else
      if 0xFFFFFFFF <? np then (f, TRASHFS_ERR_INVALID_ARG) else
      (file_at f np, TRASHFS_OK)
  end.

Definition trashfs_close (f : TrashfsFile) : TrashfsFile * TrashfsResult :=
  (mkFile (f_inode f) (f_size f) (f_pos f) (f_is_dir f) false, TRASHFS_OK).

Fixpoint write_loop (fuel : nat) (m : mem) (vol : TrashfsVolume) (f : TrashfsFile) (src n done : Z)
    : option (mem * TrashfsVolume * TrashfsFile * Z) :=
  if negb (done <? n) then Some (m, vol, f, done) else
  match fuel with
  | O => None
  | S fuel =>
      let lbn := f_pos f / TRASHFS_BLOCK_SIZE in
      let boff := f_pos f mod TRASHFS_BLOCK_SIZE in
      let room := TRASHFS_BLOCK_SIZE - boff in
      let want := n - done in
      let chunk := if want <? room then want else room in
      let '(m, vol, blk) := bmap_alloc m vol (inode_ptr vol (f_inode f)) lbn in
      if blk =? TRASHFS_BLOCK_NONE then Some (m, vol, f, done) else
      let m := memcpy m (block_ptr (v_region vol) blk + boff) (src + done) chunk in
      let pos := u32 (f_pos f + chunk) in
      let size := if f_size f <? pos then pos else f_size f in
      write_loop fuel m vol (mkFile (f_inode f) size pos (f_is_dir f) (f_open f)) src n (done + chunk)
  end.

Definition trashfs_write (m : mem) (vol : TrashfsVolume) (f : TrashfsFile) (buf n now : Z)
    : option (mem * TrashfsVolume * TrashfsFile * Z * TrashfsResult) :=
  if negb (f_open f) || (buf =? 0) then Some (m, vol, f, 0, TRASHFS_ERR_INVALID_ARG) else
  if f_is_dir f then Some (m, vol, f, 0, TRASHFS_ERR_INVALID_ARG) else
  '(m, vol, f, done) ← write_loop (Z.to_nat n) m vol f buf n 0;
  let inode := inode_ptr vol (f_inode f) in
  let m := wr32 m (inode + 4) (f_size f) in
  let m := wr32 m (inode + 12) now in
  Some (m, vol, f, done, if (done =? 0) && (0 <? n) then TRASHFS_ERR_NO_SPACE else TRASHFS_OK).

(** [for (i = 0; i < n; i++) free_block_v(vol, rd32(base + i * 4))]. *)
Fixpoint free_pointers (m : mem) (vol : TrashfsVolume) (base : Z) (n : nat) : mem * TrashfsVolume :=
  match n with
  | O => (m, vol)
  | S n =>
      let '(m, vol) := free_pointers m vol base n in
      free_block_v m vol (rd32 m (base + Z.of_nat n * 4))
  end.

(** The pointer block at [block] with everything below it, one, two or three levels
    deep. *)
Fixpoint free_indirect (level : nat) (m : mem) (vol : TrashfsVolume) (block : Z) : mem * TrashfsVolume :=
  let base := block_ptr (v_region vol) block in
  let P := Z.to_nat TRASHFS_PTRS_PER_BLOCK in
  let '(m, vol) :=
    match level with
    | O => free_pointers m vol base P
    | S level =>
        foldl (fun st i =>
          let '(m, vol) := st in
          let l1 := rd32 m (base + Z.of_nat i * 4) in
          if l1 =? TRASHFS_BLOCK_NONE then (m, vol) else free_indirect level m vol l1) (m, vol) (seq 0 P)
    end in
  free_block_v m vol block.

(** The blocks below the pointer at [slot] of an inode, and the pointer. *)
Definition free_slot (level : nat) (m : mem) (vol : TrashfsVolume) (slot : Z) : mem * TrashfsVolume :=
  let b := rd32 m slot in
  let '(m, vol) := if b =? TRASHFS_BLOCK_NONE then (m, vol) else free_indirect level m vol b in
  (wr32 m slot TRASHFS_BLOCK_NONE, vol).

(** The first [n] direct pointers. *)
Fixpoint free_direct (m : mem) (vol : TrashfsVolume) (inode : Z) (n : nat) : mem * TrashfsVolume :=
  match n with
  | O => (m, vol)
  | S n =>
      let '(m, vol) := free_direct m vol inode n in
      let slot := inode + 16 + Z.of_nat n * 4 in
      let '(m, vol) := free_block_v m vol (rd32 m slot) in
      (wr32 m slot TRASHFS_BLOCK_NONE, vol)
  end.

Definition free_all_blocks (m : mem) (vol : TrashfsVolume) (inode : Z) : mem * TrashfsVolume :=
  let '(m, vol) := free_direct m vol inode (Z.to_nat TRASHFS_DIRECT_PTRS) in
  let '(m, vol) := free_slot 0 m vol (inode + 48) in
  let '(m, vol) := free_slot 1 m vol (inode + 52) in
  free_slot 2 m vol (inode + 56).

(** ** Directory entries *)

Definition dirent_align (off : Z) : Z :=
  let pos := off mod TRASHFS_BLOCK_SIZE in
  if TRASHFS_BLOCK_SIZE <? pos + TRASHFS_DIRENT_SIZE then u32 (off + (TRASHFS_BLOCK_SIZE - pos)) else off.

(** The loop over the slots of a directory that five functions share: from the offset
    [off], the first slot with a block for which [stop] holds, as the address of the slot
    and the offset after it, or the final offset. *)
Fixpoint dir_scan (fuel : nat) (m : mem) (vol : TrashfsVolume) (dn dsize : Z) (stop : Z -> bool) (off : Z)
    : option (option Z * Z) :=
  if dsize <? u32 (off + TRASHFS_DIRENT_SIZE) then Some (None, off) else
  let off := dirent_align off in
  if dsize <? u32 (off + TRASHFS_DIRENT_SIZE) then Some (None, off) else
  match fuel with
  | O => None
  | S fuel =>
      let next := u32 (off + TRASHFS_DIRENT_SIZE) in
      let blk := map_lbn m vol dn (off / TRASHFS_BLOCK_SIZE) in
      if blk =? TRASHFS_BLOCK_NONE then dir_scan fuel m vol dn dsize stop next else
      let e := block_ptr (v_region vol) blk + off mod TRASHFS_BLOCK_SIZE in
      if stop e then Some (Some e, next) else dir_scan fuel m vol dn dsize stop next
  end.

(** The scan of a whole directory. *)
Definition dir_slots (m : mem) (vol : TrashfsVolume) (dir_ino : Z) (stop : Z -> bool) : option (option Z * Z) :=
  let dn := inode_ptr vol dir_ino in
  let dsize := rd32 m (dn + 4) in
  dir_scan (Z.to_nat dsize) m vol dn dsize stop 0.

(** A live entry named [name]. *)
Definition entry_named (m : mem) (name : list Z) (e : Z) : bool :=
  negb (rd32 m (e + 0) =? 0) && (m (e + 5) =? Z.of_nat (length name)) &&
  bool_decide (mem_read m (e + 6) (Z.of_nat (length name)) = name).

(** The inode and the type of the entry found. *)
Definition dir_find_in (m : mem) (vol : TrashfsVolume) (dir_ino : Z) (name : list Z) : option (option (Z * Z)) :=
  '(e, _) ← dir_slots m vol dir_ino (entry_named m name);
  Some (match e with Some e => Some (rd32 m (e + 0), m (e + 4)) | None => None end).

Definition dir_is_empty (m : mem) (vol : TrashfsVolume) (dir_ino : Z) : option bool :=
  '(e, _) ← dir_slots m vol dir_ino (fun e => negb (rd32 m (e + 0) =? 0));
  Some (match e with Some _ => false | None => true end).

Definition dir_clear_entry_in (m : mem) (vol : TrashfsVolume) (dir_ino : Z) (name : list Z) : option (mem * bool) :=
  '(e, _) ← dir_slots m vol dir_ino (entry_named m name);
  Some (match e with Some e => (memset m e 0 TRASHFS_DIRENT_SIZE, true) | None => (m, false) end).

(** The address of the slot, or [None] for a null pointer. *)
Definition dir_alloc_dirent_in (m : mem) (vol : TrashfsVolume) (dir_ino : Z)
    : option (mem * TrashfsVolume * option Z) :=
  let dn := inode_ptr vol dir_ino in
  let dsize := rd32 m (dn + 4) in
  '(e, _) ← dir_slots m vol dir_ino (fun e => rd32 m (e + 0) =? 0);
  match e with
  | Some e => Some (m, vol, Some e)
  | None =>
      let off := dirent_align dsize in
      let '(m, vol, blk) := bmap_alloc m vol dn (off / TRASHFS_BLOCK_SIZE) in
      if blk =? TRASHFS_BLOCK_NONE then Some (m, vol, None) else
      let e := block_ptr (v_region vol) blk + off mod TRASHFS_BLOCK_SIZE in
      Some (wr32 m (dn + 4) (u32 (off + TRASHFS_DIRENT_SIZE)), vol, Some e)
  end.

(** ** Paths *)

Definition SLASH : Z := 47.
Definition DOT : list Z := [46].
Definition DOTDOT : list Z := [46; 46].

(** One component more, unless it is too long or one too many. *)
Definition push_component (cs : list (list Z)) (name : list Z) : option (list (list Z)) :=
  if TRASHFS_NAME_MAX <? Z.of_nat (length name) then None else
  if TRASHFS_MAX_PATH_COMPS <=? Z.of_nat (length cs) then None else Some (cs ++ [name]).

(** The two pointers of the code are the rest of the path and the component read so far. *)
Fixpoint tokenize (path name : list Z) (cs : list (list Z)) : option (list (list Z)) :=
  match path with
  | [] => match name with [] => Some cs | _ => push_component cs name end
  | c :: path =>
      if c =? SLASH then
        match name with
        | [] => tokenize path [] cs
        | _ => cs ← push_component cs name; tokenize path [] cs
        end
      else tokenize path (name ++ [c]) cs
  end.

(** [None] stands for [TRASHFS_ERR_INVALID_ARG]. *)
Definition path_tokenize (path : list Z) : option (list (list Z)) := tokenize path [] [].

(** The walk below [cur], of type [cur_type]; [stack] holds the directories on the way,
    the current one first. *)
Fixpoint path_walk (m : mem) (vol : TrashfsVolume) (cs : list (list Z)) (allow_last_nondir : bool)
    (stack : list Z) (cur cur_type : Z) : option (TrashfsResult + Z * Z) :=
  match cs with
  | [] => Some (inr (cur, cur_type))
  | nm :: cs =>
      let last := match cs with [] => true | _ => false end in
      if bool_decide (nm = DOT) then path_walk m vol cs allow_last_nondir stack cur cur_type else
      if bool_decide (nm = DOTDOT) then
        let stack := match stack with _ :: (_ :: _) as s => s | s => s end in
        path_walk m vol cs allow_last_nondir stack (default TRASHFS_ROOT_INODE (head stack)) TRASHFS_TYPE_DIR
      else
        found ← dir_find_in m vol cur nm;
        match found with
        | None => Some (inl TRASHFS_ERR_NOT_FOUND)
        | Some (ino, type) =>
            if negb last || negb allow_last_nondir then
              if negb (type =? TRASHFS_TYPE_DIR) then Some (inl TRASHFS_ERR_NOT_DIR) else
              if TRASHFS_PATH_DEPTH <=? Z.of_nat (length stack) then Some (inl TRASHFS_ERR_INVALID_ARG) else
              path_walk m vol cs allow_last_nondir (ino :: stack) ino type
            else path_walk m vol cs allow_last_nondir stack ino type
        end
  end.

Definition path_step (m : mem) (vol : TrashfsVolume) (cs : list (list Z)) (allow_last_nondir : bool)
    : option (TrashfsResult + Z * Z) :=
  path_walk m vol cs allow_last_nondir [TRASHFS_ROOT_INODE] TRASHFS_ROOT_INODE TRASHFS_TYPE_DIR.

(** The inode and the type of the target. *)
Definition resolve_full (m : mem) (vol : TrashfsVolume) (path : list Z) : option (TrashfsResult + Z * Z) :=
  match path_tokenize path with
  | None => Some (inl TRASHFS_ERR_INVALID_ARG)
  | Some cs => path_step m vol cs true
  end.

(** The inode of the parent, and the leaf. *)
Definition resolve_parent (m : mem) (vol : TrashfsVolume) (path : list Z) : option (TrashfsResult + Z * list Z) :=
  match path_tokenize path with
  | None => Some (inl TRASHFS_ERR_INVALID_ARG)
  | Some cs =>
      match last cs with
      | None => Some (inl TRASHFS_ERR_INVALID_ARG)
      | Some leaf =>
          if bool_decide (leaf = []) || bool_decide (leaf = DOT) || bool_decide (leaf = DOTDOT)
          then Some (inl TRASHFS_ERR_INVALID_ARG) else
          r ← path_step m vol (removelast cs) false;
          Some (match r with inl e => inl e | inr (parent, _) => inr (parent, leaf) end)
      end
  end.

(** ** Directories *)

Definition trashfs_opendir (m : mem) (vol : TrashfsVolume) (path : list Z) : option (TrashfsResult + TrashfsDir) :=
  if negb (mounted vol) then Some (inl TRASHFS_ERR_INVALID_ARG) else
  r ← resolve_full m vol path;
  match r with
  | inl e => Some (inl e)
  | inr (ino, type) =>
      if negb (type =? TRASHFS_TYPE_DIR) then Some (inl TRASHFS_ERR_NOT_DIR) else
      Some (inr (mkDir ino (rd32 m (inode_ptr vol ino + 4)) 0 true))
  end.

(** The entry, if there is one, comes with the handle. *)
Definition trashfs_readdir (m : mem) (vol : TrashfsVolume) (d : TrashfsDir)
    : option (TrashfsDir * option TrashfsDirent_Out * TrashfsResult) :=
  if negb (d_open d) then Some (d, None, TRASHFS_ERR_INVALID_ARG) else
  '(e, off) ← dir_scan (Z.to_nat (d_size d)) m vol (inode_ptr vol (d_inode d)) (d_size d)
                (fun e => negb (rd32 m (e + 0) =? 0)) (d_pos d);
  let d := mkDir (d_inode d) (d_size d) off (d_open d) in
  match e with
  | None => Some (d, None, TRASHFS_OK)
  | Some e =>
      let elen := m (e + 5) in
      let elen := if TRASHFS_NAME_MAX <? elen then TRASHFS_NAME_MAX else elen in
      let einode := rd32 m (e + 0) in
      Some (d, Some (mkDirent (mem_read m (e + 6) elen) (m (e + 4)) einode
                       (rd32 m (inode_ptr vol einode + 4))), TRASHFS_OK)
  end.

Definition trashfs_closedir (d : TrashfsDir) : TrashfsDir * TrashfsResult :=
  (mkDir (d_inode d) (d_size d) (d_pos d) false, TRASHFS_OK).

(** ** Names *)

(** An entry for inode [ino] in the slot at [slot]. *)
Definition fill_dirent (m : mem) (slot ino type : Z) (name : list Z) : mem :=
  let len := Z.of_nat (length name) in
  let m := wr32 m (slot + 0) ino in
  let m := mem_write m (slot + 4) [type] in
  let m := mem_write m (slot + 5) [u8 len] in
  let m := mem_write m (slot + 6) name in
  memset m (slot + 6 + len) 0 (TRASHFS_DIRENT_SIZE - 6 - len).

(** The reservation of an inode is undone when there is no room for its entry. *)
Definition unreserve (vol : TrashfsVolume) : TrashfsVolume := set_free vol (free_blocks vol) (u32 (free_inodes vol + 1)).

(** A new file in [parent]. *)
Definition create_file (m : mem) (vol : TrashfsVolume) (parent : Z) (name : list Z)
    : option (mem * TrashfsVolume * (TrashfsResult + Z)) :=
  match alloc_inode_v m vol with
  | (vol, None) => Some (m, vol, inl TRASHFS_ERR_NO_SPACE)
  | (vol, Some newino) =>
      '(m, vol, slot) ← dir_alloc_dirent_in m vol parent;
      match slot with
      | None => Some (m, unreserve vol, inl TRASHFS_ERR_NO_SPACE)
      | Some slot =>
          let inode := inode_ptr vol newino in
          let m := memset m inode 0 TRASHFS_INODE_SIZE in
          let m := wr16 m (inode + 0) TRASHFS_MODE_USED in
          let m := wr16 m (inode + 2) 1 in
          Some (fill_dirent m slot newino TRASHFS_TYPE_FILE name, vol, inr newino)
      end
  end.

(** The handle on an inode that exists, truncated or at its end if the flags say so. *)
Definition open_inode (m : mem) (vol : TrashfsVolume) (flags ino type : Z) : mem * TrashfsVolume * TrashfsFile :=
  let is_dir := type =? TRASHFS_TYPE_DIR in
  let inode := inode_ptr vol ino in
  let '(m, vol, size) :=
    if negb (Z.land flags TRASHFS_O_TRUNC =? 0) && negb is_dir then
      let '(m, vol) := free_all_blocks m vol inode in
      (wr32 m (inode + 4) 0, vol, 0)
    else (m, vol, rd32 m (inode + 4)) in
  (m, vol, mkFile ino size (if Z.land flags TRASHFS_O_APPEND =? 0 then 0 else size) is_dir true).

Definition trashfs_open (m : mem) (vol : TrashfsVolume) (name : list Z) (flags : Z)
    : option (mem * TrashfsVolume * (TrashfsResult + TrashfsFile)) :=
  if negb (mounted vol) then Some (m, vol, inl TRASHFS_ERR_INVALID_ARG) else
  r ← resolve_parent m vol name;
  match r with
  | inl e => Some (m, vol, inl e)
  | inr (parent, nm) =>
      found ← dir_find_in m vol parent nm;
      match found with
      | Some (ino, type) => let '(m, vol, f) := open_inode m vol flags ino type in Some (m, vol, inr f)
      | None =>
          if Z.land flags TRASHFS_O_CREAT =? 0 then Some (m, vol, inl TRASHFS_ERR_NOT_FOUND) else
          '(m, vol, r) ← create_file m vol parent nm;
          match r with
          | inl e => Some (m, vol, inl e)
          | inr ino => let '(m, vol, f) := open_inode m vol flags ino TRASHFS_TYPE_FILE in Some (m, vol, inr f)
          end
      end
  end.

(** The blocks and the inode of a removed entry. *)
Definition release_inode (m : mem) (vol : TrashfsVolume) (ino : Z) : mem * TrashfsVolume :=
  let inode := inode_ptr vol ino in
  let '(m, vol) := free_all_blocks m vol inode in
  (memset m inode 0 TRASHFS_INODE_SIZE, unreserve vol).

Definition trashfs_unlink (m : mem) (vol : TrashfsVolume) (name : list Z) : option (mem * TrashfsVolume * TrashfsResult) :=
  if negb (mounted vol) then Some (m, vol, TRASHFS_ERR_INVALID_ARG) else
  r ← resolve_parent m vol name;
  match r with
  | inl e => Some (m, vol, e)
  | inr (parent, nm) =>
      found ← dir_find_in m vol parent nm;
      match found with
      | None => Some (m, vol, TRASHFS_ERR_NOT_FOUND)
      | Some (ino, type) =>
          if type =? TRASHFS_TYPE_DIR then Some (m, vol, TRASHFS_ERR_NOT_DIR) else
          '(m, _) ← dir_clear_entry_in m vol parent nm;
          let '(m, vol) := release_inode m vol ino in
          Some (m, vol, TRASHFS_OK)
      end
  end.

Definition trashfs_mkdir (m : mem) (vol : TrashfsVolume) (path : list Z) (now : Z)
    : option (mem * TrashfsVolume * TrashfsResult) :=
  if negb (mounted vol) then Some (m, vol, TRASHFS_ERR_INVALID_ARG) else
  r ← resolve_parent m vol path;
  match r with
  | inl e => Some (m, vol, e)
  | inr (parent, nm) =>
      found ← dir_find_in m vol parent nm;
      match found with
      | Some _ => Some (m, vol, TRASHFS_ERR_EXISTS)
      | None =>
          match alloc_inode_v m vol with
          | (vol, None) => Some (m, vol, TRASHFS_ERR_NO_SPACE)
          | (vol, Some newino) =>
              '(m, vol, slot) ← dir_alloc_dirent_in m vol parent;
              match slot with
              | None => Some (m, unreserve vol, TRASHFS_ERR_NO_SPACE)
              | Some slot =>
                  let inode := inode_ptr vol newino in
                  let m := memset m inode 0 TRASHFS_INODE_SIZE in
                  let m := wr16 m (inode + 0) (Z.lor TRASHFS_MODE_USED TRASHFS_MODE_DIR) in
                  let m := wr16 m (inode + 2) 1 in
                  let m := wr32 m (inode + 8) now in
                  let m := wr32 m (inode + 12) now in
                  Some (fill_dirent m slot newino TRASHFS_TYPE_DIR nm, vol, TRASHFS_OK)
              end
          end
      end
  end.

Definition trashfs_rmdir (m : mem) (vol : TrashfsVolume) (path : list Z) : option (mem * TrashfsVolume * TrashfsResult) :=
  if negb (mounted vol) then Some (m, vol, TRASHFS_ERR_INVALID_ARG) else
  r ← resolve_full m vol path;
  match r with
  | inl e => Some (m, vol, e)
  | inr (ino, type) =>
      if negb (type =? TRASHFS_TYPE_DIR) then Some (m, vol, TRASHFS_ERR_NOT_DIR) else
      if ino =? TRASHFS_ROOT_INODE then Some (m, vol, TRASHFS_ERR_INVALID_ARG) else
      empty ← dir_is_empty m vol ino;
      if negb empty then Some (m, vol, TRASHFS_ERR_NOT_EMPTY) else
      r ← resolve_parent m vol path;
      match r with
      | inl e => Some (m, vol, e)
      | inr (parent, nm) =>
          '(m, cleared) ← dir_clear_entry_in m vol parent nm;
          if negb cleared then Some (m, vol, TRASHFS_ERR_NOT_FOUND) else
          let '(m, vol) := release_inode m vol ino in
          Some (m, vol, TRASHFS_OK)
      end
  end.
