(* ===== verification/TrashTree.v ===== *)
(** The blocks of a trash volume: the free-block bitmap as a set of blocks, and the
    pointer trees below an inode.  A volume is described by the blocks in use and, for
    each inode, a tree of blocks per pointer; [bmap_alloc] inserts into a tree, [map_lbn]
    looks a logical block up, [free_all_blocks] gives a tree back. *)
From S2P Require Import Prelude HostMem TrashFs.
#[local] Open Scope Z_scope.

Ltac tfs := unfold TRASHFS_BLOCK_NONE, TRASHFS_PTRS_PER_BLOCK, TRASHFS_INODES_PER_BLOCK, TRASHFS_BLOCK_SIZE,
  TRASHFS_INODE_SIZE, TRASHFS_DIRENT_SIZE, TRASHFS_DIRECT_PTRS, TRASHFS_ROOT_INODE in *.

(** ** Geometry *)

Record vol_ok (vol : TrashfsVolume) : Prop := {
  vo_region : 0 < v_region vol;
  vo_bytes : total_blocks vol * 128 <= 0xFFFFFFFF;
  vo_bitmap : bitmap_start vol = 1 /\ 0 < bitmap_blocks vol /\ total_blocks vol <= bitmap_blocks vol * 1024;
  vo_inodes : inode_start vol = 1 + bitmap_blocks vol /\ 0 < inode_blocks vol /\ inode_count vol = inode_blocks vol * 2;
  vo_data : data_start vol = inode_start vol + inode_blocks vol /\ data_start vol < total_blocks vol
}.

Definition data_block (vol : TrashfsVolume) (b : Z) : Prop := data_start vol <= b < total_blocks vol.

(** The bytes of a block, of the bitmap, and of the inode table. *)
Definition in_block (vol : TrashfsVolume) (b x : Z) : Prop := rng (block_ptr (v_region vol) b) 128 x.
Definition in_bitmap (vol : TrashfsVolume) (x : Z) : Prop := rng (bitmap_of vol) (bitmap_blocks vol * 128) x.
Definition in_inodes (vol : TrashfsVolume) (x : Z) : Prop :=
  rng (block_ptr (v_region vol) (inode_start vol)) (inode_blocks vol * 128) x.

Lemma vol_ok_free vol x y : vol_ok (set_free vol x y) <-> vol_ok vol.
Proof. split; intros []; by split. Qed.

Lemma in_block_inj vol b c x : in_block vol b x -> in_block vol c x -> b = c.
Proof. unfold in_block, block_ptr, rng. tfs. lia. Qed.

Lemma data_not_bitmap vol b x : vol_ok vol -> data_block vol b -> in_block vol b x -> ~ in_bitmap vol x.
Proof.
  intros [? ? (H1 & H2 & H3) (H4 & H5 & H6) (H7 & H8)] [Hb _]. unfold in_block, in_bitmap, bitmap_of, block_ptr, rng.
  rewrite H1. tfs. nia.
Qed.

Lemma inode_ptr_eq vol i : vol_ok vol -> 0 <= i < inode_count vol ->
  inode_ptr vol i = block_ptr (v_region vol) (inode_start vol) + i * 64.
Proof.
  intros [? ? (H1 & H2 & H3) (H4 & H5 & H6) (H7 & H8)] Hi. unfold inode_ptr, block_ptr. tfs.
  change (128 / 64) with 2. pose proof (Z.div_mod i 2 ltac:(lia)) as Hd. pose proof (Z.mod_pos_bound i 2 ltac:(lia)) as Hm.
  rewrite u32_small by (unfold is_u32; lia). lia.
Qed.

Lemma inode_inside vol i x : vol_ok vol -> 0 <= i < inode_count vol -> rng (inode_ptr vol i) 64 x -> in_inodes vol x.
Proof.
  intros W Hi Hx. rewrite (inode_ptr_eq _ _ W Hi) in Hx. destruct W as [? ? _ (_ & _ & H6) _].
  unfold in_inodes, rng in *. lia.
Qed.

Lemma data_not_inodes vol b x : vol_ok vol -> data_block vol b -> in_block vol b x -> ~ in_inodes vol x.
Proof.
  intros [? ? _ _ (H7 & H8)] [Hb _]. unfold in_block, in_inodes, block_ptr, rng. tfs. nia.
Qed.

Lemma inodes_not_bitmap vol x : vol_ok vol -> in_inodes vol x -> ~ in_bitmap vol x.
Proof.
  intros [? ? (H1 & _) (H4 & _) _]. unfold in_inodes, in_bitmap, bitmap_of, block_ptr, rng. rewrite H1. tfs. nia.
Qed.

(** ** Bits *)

Lemma block_bit_spec m bm b : 0 <= b -> block_bit m bm b = Z.testbit (m (bm + b / 8)) (b mod 8).
Proof.
  intros Hb. unfold block_bit, bit_byte. rewrite (Z.shiftr_div_pow2 b 3) by lia. change (2 ^ 3) with 8.
  change 7 with (2 ^ 3 - 1). rewrite (land_pow2_ones b 3) by lia. change (2 ^ 3) with 8.
  pose proof (Z.mod_pos_bound b 8 ltac:(lia)) as Hm.
  pose proof (land_bit_zero (Z.shiftr (m (bm + b / 8)) (b mod 8)) 0 ltac:(lia)) as E. change (Z.shiftl 1 0) with 1 in E.
  by rewrite E, negb_involutive, Z.shiftr_spec by lia.
Qed.

Lemma bit_mask_spec b : 0 <= b -> bit_mask b = Z.shiftl 1 (b mod 8).
Proof.
  intros Hb. unfold bit_mask. change 7 with (2 ^ 3 - 1). rewrite (land_pow2_ones b 3) by lia. change (2 ^ 3) with 8.
  pose proof (Z.mod_pos_bound b 8 ltac:(lia)) as Hm. rewrite Z.shiftl_1_l. unfold u8. apply Z.mod_small.
  split; [apply Z.pow_nonneg; lia|]. change 256 with (2 ^ 8). apply Z.pow_lt_mono_r; lia.
Qed.

Lemma testbit_clear8 x i j : 0 <= i < 8 -> 0 <= j < 8 ->
  Z.testbit (Z.land x (u8 (not32 (Z.shiftl 1 i)))) j = Z.testbit x j && negb (i =? j).
Proof.
  intros Hi Hj. unfold u8. change 256 with (2 ^ 8). rewrite Z.land_spec, Z.mod_pow2_bits_low by lia.
  rewrite <-testbit_clear32 by lia. by rewrite Z.land_spec.
Qed.

Lemma bit_coords b c : 0 <= b -> 0 <= c -> b / 8 = c / 8 -> b mod 8 = c mod 8 -> b = c.
Proof. intros. rewrite (Z.div_mod b 8), (Z.div_mod c 8) by lia. lia. Qed.

(** Reading a bit after a byte of the bitmap was replaced. *)
Lemma block_bit_write m bm b c v : 0 <= b -> 0 <= c ->
  block_bit (mem_write m (bm + b / 8) [v]) bm c = if c / 8 =? b / 8 then Z.testbit v (c mod 8) else block_bit m bm c.
Proof.
  intros Hb Hc. rewrite !block_bit_spec by done. destruct (Z.eqb_spec (c / 8) (b / 8)) as [->|Hne].
  - by rewrite mem_write_one.
  - rewrite mem_write_out; [done|]. unfold rng. cbn [length]. lia.
Qed.

Lemma bit_byte_eq bm b : 0 <= b -> bit_byte bm b = bm + b / 8.
Proof. intros. unfold bit_byte. by rewrite Z.shiftr_div_pow2. Qed.

Lemma block_bit_set m bm b c : 0 <= b -> 0 <= c ->
  block_bit (mem_write m (bit_byte bm b) [Z.lor (m (bit_byte bm b)) (bit_mask b)]) bm c = block_bit m bm c || (b =? c).
Proof.
  intros Hb Hc. rewrite bit_byte_eq, bit_mask_spec, block_bit_write by done.
  destruct (Z.eqb_spec (c / 8) (b / 8)) as [E|Hne].
  - rewrite testbit_set by (apply Z.mod_pos_bound; lia). rewrite <-E, <-block_bit_spec by done. f_equal.
    destruct (Z.eqb_spec b c) as [->|Hbc]; [by rewrite Z.eqb_refl|]. apply Z.eqb_neq. intros E2.
    apply Hbc. by apply bit_coords.
  - rewrite (proj2 (Z.eqb_neq b c)); [by rewrite orb_false_r|]. by intros ->.
Qed.

Lemma block_bit_clear m bm b c : 0 <= b -> 0 <= c ->
  block_bit (mem_write m (bit_byte bm b) [Z.land (m (bit_byte bm b)) (u8 (not32 (Z.shiftl 1 (Z.land b 7))))]) bm c =
  block_bit m bm c && negb (b =? c).
Proof.
  intros Hb Hc. rewrite bit_byte_eq, block_bit_write by done. change 7 with (2 ^ 3 - 1).
  rewrite (land_pow2_ones b 3) by lia. change (2 ^ 3) with 8. destruct (Z.eqb_spec (c / 8) (b / 8)) as [E|Hne].
  - rewrite testbit_clear8 by (apply Z.mod_pos_bound; lia). rewrite <-E, <-block_bit_spec by done. do 2 f_equal.
    destruct (Z.eqb_spec b c) as [->|Hbc]; [by rewrite Z.eqb_refl|]. apply Z.eqb_neq. intros E2.
    apply Hbc. by apply bit_coords.
  - rewrite (proj2 (Z.eqb_neq b c)); [by rewrite andb_true_r|]. by intros ->.
Qed.

Lemma lor_u8 x y : is_u8 x -> is_u8 y -> is_u8 (Z.lor x y).
Proof.
  unfold is_u8. intros Hx Hy. change 256 with (2 ^ 8) in *. apply bits_range; [lia|by apply Z.lor_nonneg; lia|].
  intros j Hj. by rewrite Z.lor_spec, !(range_bits 8) by lia.
Qed.

Lemma land_u8 x y : is_u8 x -> is_u8 y -> is_u8 (Z.land x y).
Proof.
  unfold is_u8. intros Hx Hy. change 256 with (2 ^ 8) in *. apply bits_range; [lia|apply Z.land_nonneg; lia|].
  intros j Hj. by rewrite Z.land_spec, (range_bits 8) by lia.
Qed.

(** ** Blocks in use *)

Record alloc_ok (m : mem) (vol : TrashfsVolume) (A : list Z) : Prop := {
  ao_vol : vol_ok vol;
  ao_mem : mem_ok m;
  ao_nodup : NoDup A;
  ao_data b : b ∈ A -> data_block vol b;
  ao_bits b : data_block vol b -> block_bit m (bitmap_of vol) b = bool_decide (b ∈ A);
  ao_free : free_blocks vol = total_blocks vol - data_start vol - Z.of_nat (length A)
}.

(** Addresses that allocating or writing the blocks of [F] leaves alone. *)
Definition outside (vol : TrashfsVolume) (F : list Z) (x : Z) : Prop :=
  ~ in_bitmap vol x /\ forall b, b ∈ F -> ~ in_block vol b x.

Lemma outside_sub vol F G x : F ⊆ G -> outside vol G x -> outside vol F x.
Proof. intros Hs [H1 H2]. split; [done|]. intros b Hb. by apply H2, Hs. Qed.

Lemma agree_outside vol F G m1 m2 m3 : mem_agree (outside vol F) m1 m2 -> mem_agree (outside vol G) m2 m3 ->
  mem_agree (outside vol (F ++ G)) m1 m3.
Proof.
  intros H1 H2 x Hx. rewrite (H1 x), (H2 x); [done|..]; eapply outside_sub; [|exact Hx| |exact Hx]; set_solver.
Qed.

Lemma alloc_ok_perm m vol A A' : A ≡ₚ A' -> alloc_ok m vol A -> alloc_ok m vol A'.
Proof.
  intros HP [H1 H2 H3 H4 H5 H6]. split; [done|done|by rewrite <-HP| | |by rewrite <-HP].
  - intros b. rewrite <-HP. apply H4.
  - intros b Hb. rewrite H5 by done. apply bool_decide_ext. by rewrite HP.
Qed.

#[export] Instance alloc_ok_proper m vol : Proper ((≡ₚ) ==> iff) (alloc_ok m vol).
Proof. intros A A' HP. split; by apply alloc_ok_perm. Qed.

(** Distinct blocks of the data area: no more than there are. *)
Lemma data_blocks_seqZ vol A : NoDup A -> (forall b, b ∈ A -> data_block vol b) ->
  A ⊆+ seqZ (data_start vol) (total_blocks vol - data_start vol).
Proof. intros Hn Hd. apply NoDup_submseteq; [done|]. intros b Hb%Hd. rewrite elem_of_seqZ. unfold data_block in Hb. lia. Qed.

Lemma alloc_length m vol A : alloc_ok m vol A -> Z.of_nat (length A) <= total_blocks vol - data_start vol.
Proof.
  intros [[] _ H3 H4 _ _]. pose proof (submseteq_length _ _ (data_blocks_seqZ vol A H3 H4)) as Hl.
  rewrite length_seqZ in Hl. lia.
Qed.

Lemma find_free_block_spec m vol n b : match find_free_block m vol n b with
  | Some c => b <= c < b + Z.of_nat n /\ bitmap_test_v m vol c = false
  | None => forall c, b <= c < b + Z.of_nat n -> bitmap_test_v m vol c = true
  end.
Proof.
  revert b. induction n as [|n IH]; intros b; cbn [find_free_block]; [intros c Hc; lia|].
  destruct (bitmap_test_v m vol b) eqn:Hb; [|split; [lia|done]]. specialize (IH (b + 1)).
  destruct (find_free_block m vol n (b + 1)) as [c|]; [split; [lia|apply IH]|].
  intros c Hc. destruct (decide (c = b)) as [->|]; [done|]. apply IH. lia.
Qed.

(** The bit of a data block lies in the bitmap. *)
Lemma bit_in_bitmap vol b : vol_ok vol -> data_block vol b -> in_bitmap vol (bit_byte (bitmap_of vol) b).
Proof.
  intros [? ? (H1 & H2 & H3) (H4 & H5 & H6) (H7 & H8)] [Hb1 Hb2]. rewrite bit_byte_eq by lia. unfold in_bitmap, rng. zlia.
Qed.

Lemma data_block_pos vol b : vol_ok vol -> data_block vol b -> 0 < b.
Proof. intros [? ? (H1 & H2 & H3) (H4 & H5 & H6) (H7 & H8)] [Hb _]. lia. Qed.

Lemma nth_replicate_zero n i : nth i (replicate n (u8 0)) 0 = 0.
Proof. revert i. induction n; intros [|i]; cbn; auto. Qed.

(** Allocation takes a block that is not in use and clears it; it fails when all are. *)
Lemma alloc_block_spec m vol A : alloc_ok m vol A -> let '(m', vol', b) := alloc_block_v m vol in
  if b =? 0 then m' = m /\ vol' = vol /\ Z.of_nat (length A) = total_blocks vol - data_start vol
  else (b ∉ A) /\ data_block vol b /\ vol' = set_free vol (free_blocks vol - 1) (free_inodes vol) /\
    alloc_ok m' vol' (b :: A) /\ mem_agree (outside vol [b]) m m' /\ (forall x, in_block vol b x -> m' x = 0).
Proof.
  intros H. pose proof H as [W Wm H3 H4 H5 H6]. unfold alloc_block_v.
  pose proof (find_free_block_spec m vol (Z.to_nat (total_blocks vol - data_start vol)) (data_start vol)) as Hf.
  pose proof (vo_data _ W) as [Hd1 Hd2]. rewrite Z2Nat.id in Hf by lia.
  destruct (find_free_block _ _ _ _) as [b|].
  - destruct Hf as [Hb Hbit]. assert (data_block vol b) as Hdb by (unfold data_block; lia).
    pose proof (data_block_pos _ _ W Hdb) as Hpos. rewrite (proj2 (Z.eqb_neq b 0)) by lia.
    unfold bitmap_test_v in Hbit. rewrite H5 in Hbit by done. apply bool_decide_eq_false in Hbit.
    assert (NoDup (b :: A)) as Hnd by (by constructor).
    assert (forall c, c ∈ b :: A -> data_block vol c) as Hda by (intros c [->|Hc]%elem_of_cons; auto).
    assert (Z.of_nat (length (b :: A)) <= total_blocks vol - data_start vol) as Hlen.
    { pose proof (submseteq_length _ _ (data_blocks_seqZ vol (b :: A) Hnd Hda)) as Hl. rewrite length_seqZ in Hl. lia. }
    cbn [length] in Hlen. rewrite (proj2 (Z.ltb_lt 0 _)) by lia.
    set (m1 := bitmap_set_v m vol b). set (m2 := memset m1 _ _ _).
    assert (mem_agree (fun x => ~ in_block vol b x) m1 m2) as F2 by (apply memset_frame; done).
    assert (mem_agree (fun x => ~ in_bitmap vol x) m m1) as F1.
    { intros x Hx. symmetry. apply mem_write_out. cbn [length]. intros Hr. apply Hx.
      assert (x = bit_byte (bitmap_of vol) b) as -> by (unfold rng in Hr; lia). by apply bit_in_bitmap. }
    split_and!; [done|done|done| | |].
    + split; cbn [total_blocks data_start free_blocks set_free length]; [by apply vol_ok_free| |done| | |lia].
      * apply memset_ok, mem_write_ok; [done|]. constructor; [|constructor]. apply lor_u8; [apply Wm|apply is_u8_range].
      * exact Hda.
      * intros c Hc. change (data_block vol c) in Hc. change (bitmap_of (set_free vol _ _)) with (bitmap_of vol).
        pose proof (data_block_pos _ _ W Hc) as Hcp.
        assert (block_bit m2 (bitmap_of vol) c = block_bit m1 (bitmap_of vol) c) as ->.
        { unfold block_bit. rewrite <-(F2 (bit_byte (bitmap_of vol) c)); [done|]. intros Hin.
          apply (data_not_bitmap vol b _ W Hdb Hin). by apply bit_in_bitmap. }
        unfold m1, bitmap_set_v. rewrite block_bit_set, H5 by (done || lia).
        destruct (Z.eqb_spec b c) as [->|Hbc].
        { rewrite orb_true_r. symmetry. apply bool_decide_eq_true. set_solver. }
        rewrite orb_false_r. apply bool_decide_ext. set_solver.
    + intros x [Hx1 Hx2]. rewrite (F1 x Hx1). apply F2, Hx2. set_solver.
    + intros x Hx. unfold m2, memset. rewrite mem_write_in by (rewrite length_replicate; exact Hx). apply nth_replicate_zero.
  - cbn [Z.eqb]. split_and!; [done|done|]. apply Z.le_antisymm; [by eapply alloc_length|].
    assert (seqZ (data_start vol) (total_blocks vol - data_start vol) ⊆+ A) as Hs.
    { apply NoDup_submseteq; [apply NoDup_seqZ|]. intros c Hc. rewrite elem_of_seqZ in Hc.
      specialize (Hf c ltac:(lia)). unfold bitmap_test_v in Hf. rewrite H5 in Hf by (unfold data_block; lia).
      by apply bool_decide_eq_true in Hf. }
    apply submseteq_length in Hs. rewrite length_seqZ in Hs. lia.
Qed.

(** Freeing gives a block in use back. *)
Lemma free_block_spec m vol b A : alloc_ok m vol (b :: A) -> let '(m', vol') := free_block_v m vol b in
  vol' = set_free vol (free_blocks vol + 1) (free_inodes vol) /\ alloc_ok m' vol' A /\
  mem_agree (fun x => ~ in_bitmap vol x) m m'.
Proof.
  intros H. pose proof (alloc_length _ _ _ H) as Hlen. destruct H as [W Wm H3 H4 H5 H6]. cbn [length] in *.
  assert (data_block vol b) as Hdb by (apply H4; by left). pose proof (data_block_pos _ _ W Hdb) as Hpos.
  unfold free_block_v. tfs. rewrite (proj2 (Z.eqb_neq b 0)) by lia. destruct Hdb as [Hb1 Hb2].
  rewrite (proj2 (Z.ltb_ge b _)), (proj2 (Z.leb_gt _ b)) by lia. cbn [orb].
  unfold bitmap_test_v. rewrite H5, bool_decide_eq_true_2 by (done || by left).
  pose proof (vo_bytes _ W) as Hmax. pose proof (vo_data _ W) as [Hd0 Hd]. pose proof (vo_inodes _ W) as (Hi1 & Hi2 & _). pose proof (vo_bitmap _ W) as (_ & Hi3 & _).
  rewrite u32_small by (unfold is_u32; lia). split; [done|].
  assert (data_block vol b) as Hdb by done. apply NoDup_cons in H3 as [Hnb Hnd].
  split; [split; cbn [total_blocks data_start free_blocks set_free]; [by apply vol_ok_free| |done| | |lia]|].
  - apply mem_write_ok; [done|]. constructor; [|constructor]. apply land_u8; [apply Wm|apply is_u8_range].
  - intros c Hc. apply H4. by right.
  - intros c Hc. change (bitmap_of (set_free vol _ _)) with (bitmap_of vol). change (data_block vol c) in Hc.
    pose proof (data_block_pos _ _ W Hc) as Hcp. unfold bitmap_clear_v. rewrite block_bit_clear, H5 by (done || lia).
    destruct (Z.eqb_spec b c) as [->|Hne].
    + rewrite andb_false_r. symmetry. by apply bool_decide_eq_false.
    + rewrite andb_true_r. apply bool_decide_ext. rewrite elem_of_cons. naive_solver.
  - intros x Hx. symmetry. apply mem_write_out. cbn [length]. intros Hr. apply Hx.
    assert (x = bit_byte (bitmap_of vol) b) as -> by (unfold rng in Hr; lia). by apply bit_in_bitmap.
Qed.

(** ** Trees of blocks *)

(** What a block pointer leads to: nothing, or a block with, above the data blocks, the
    trees of its 32 pointers. *)
Inductive tree :=
  | Hole
  | Blk (b : Z) (kids : list tree).

Definition root (t : tree) : Z := match t with Hole => 0 | Blk b _ => b end.
Definition kids_of (t : tree) : list tree := match t with Hole => [] | Blk _ kids => kids end.

(** All blocks of a tree, and those above the data. *)
Fixpoint tblocks (t : tree) : list Z :=
  match t with Hole => [] | Blk b kids => b :: concat (map tblocks kids) end.

Fixpoint inner (level : nat) (t : tree) : list Z :=
  match level, t with
  | S l, Blk b kids => b :: concat (map (inner l) kids)
  | _, _ => []
  end.

Definition pow32 (l : nat) : Z := 32 ^ Z.of_nat l.

(** The data block at index [idx] below a pointer. *)
Fixpoint leaf (level : nat) (t : tree) (idx : Z) : Z :=
  match level with
  | O => root t
  | S l => leaf l (nth (Z.to_nat (idx / pow32 l)) (kids_of t) Hole) (idx mod pow32 l)
  end.

(** The address of pointer [i] of a block. *)
Definition block_slot (vol : TrashfsVolume) (b : Z) (i : nat) : Z := block_ptr (v_region vol) b + Z.of_nat i * 4.

Section rep.
Context (m : mem) (vol : TrashfsVolume).

Fixpoint rep (level : nat) (t : tree) : Prop :=
  match t with
  | Hole => True
  | Blk b kids =>
      data_block vol b /\
      match level with
      | O => kids = []
      | S l => length kids = 32%nat /\
          forall i k, kids !! i = Some k -> rd32 m (block_slot vol b i) = root k /\ rep l k
      end
  end.

(** An array of pointers, their addresses given by [sl] and their levels by [lv]. *)
Definition arr_rep (sl : nat -> Z) (lv : nat -> nat) (kids : list tree) : Prop :=
  forall i k, kids !! i = Some k -> rd32 m (sl i) = root k /\ rep (lv i) k.
End rep.

Definition all_blocks (ts : list tree) : list Z := concat (map tblocks ts).

Lemma rep_S m vol l b kids : rep m vol (S l) (Blk b kids) <->
  data_block vol b /\ length kids = 32%nat /\ arr_rep m vol (block_slot vol b) (fun _ => l) kids.
Proof. done. Qed.

Lemma rep_hole m vol l : rep m vol l Hole.
Proof. by destruct l. Qed.

Lemma nth_hole i : nth i [] Hole = Hole.
Proof. by destruct i. Qed.

Lemma elem_all_blocks ts b : b ∈ all_blocks ts <-> exists i t, ts !! i = Some t /\ b ∈ tblocks t.
Proof.
  unfold all_blocks. induction ts as [|t ts IH]; cbn [map concat].
  - split; [by intros ?%elem_of_nil|by intros (i & t & Hi & _)].
  - rewrite elem_of_app, IH. split.
    + intros [Hb|(i & t' & Hi & Hb)]; [by exists 0%nat, t|by exists (S i), t'].
    + intros ([|i] & t' & Hi & Hb); [injection Hi as <-; by left|right; by exists i, t'].
Qed.

Lemma inner_sub l t : inner l t ⊆ tblocks t.
Proof.
  revert t. induction l as [|l IH]; intros [|b kids]; cbn [inner tblocks]; try apply list_subseteq_nil.
  apply list_subseteq_skip. induction kids as [|k kids IHk]; cbn [map concat]; [done|].
  intros x [Hx|Hx]%elem_of_app; apply elem_of_app; [left; by apply (IH k)|right; by apply IHk].
Qed.

Lemma elem_inner l b kids c : c ∈ inner (S l) (Blk b kids) <-> c = b \/ exists i k, kids !! i = Some k /\ c ∈ inner l k.
Proof.
  cbn [inner]. rewrite elem_of_cons. apply or_iff_compat_l. induction kids as [|k kids IH]; cbn [map concat].
  - split; [by intros ?%elem_of_nil|by intros (i & t & Hi & _)].
  - rewrite elem_of_app, IH. split.
    + intros [Hc|(i & t & Hi & Hc)]; [by exists 0%nat, k|by exists (S i), t].
    + intros ([|i] & t & Hi & Hc); [injection Hi as <-; by left|right; by exists i, t].
Qed.

(** Only the pointer blocks matter. *)
Lemma rep_agree_inner m m' vol l t : rep m vol l t ->
  (forall b x, b ∈ inner l t -> in_block vol b x -> m x = m' x) -> rep m' vol l t.
Proof.
  revert t. induction l as [|l IH]; intros [|b kids]; cbn [rep]; try done.
  intros (Hb & Hlen & Hk) Hag. split; [done|]. split; [done|]. intros i k Hi. destruct (Hk i k Hi) as [Hr Hrep]. split.
  - rewrite <-Hr. unfold rd32. symmetry. apply load32_agree. intros x Hx. apply (Hag b); [apply elem_inner; by left|].
    apply lookup_lt_Some in Hi. unfold block_slot, in_block, rng in *. lia.
  - apply IH; [done|]. intros c x Hc. apply Hag, elem_inner. eauto.
Qed.

Lemma tree_same m m' vol l t : rep m vol l t ->
  (forall b x, b ∈ tblocks t -> in_block vol b x -> m x = m' x) -> rep m' vol l t.
Proof. intros H Hag. apply (rep_agree_inner m); [done|]. intros b x Hb. by apply Hag, (inner_sub l). Qed.

Lemma rep_data m vol l t b : rep m vol l t -> b ∈ tblocks t -> data_block vol b.
Proof.
  revert t. induction l as [|l IH]; intros [|c kids]; cbn [rep tblocks]; try (by intros _ ?%elem_of_nil).
  - intros [Hc ->] [->|Hb]%elem_of_cons; [done|]. by apply elem_of_nil in Hb.
  - intros (Hc & _ & Hk) [->|Hb]%elem_of_cons; [done|]. apply elem_all_blocks in Hb as (i & k & Hi & Hb).
    apply (IH k); [|done]. by apply (Hk i k).
Qed.

(** ** Lookup *)

Lemma kid_rep m vol sl lv kids i : arr_rep m vol sl lv kids -> (i < length kids)%nat ->
  rd32 m (sl i) = root (nth i kids Hole) /\ rep m vol (lv i) (nth i kids Hole).
Proof.
  intros H Hi. destruct (lookup_lt_is_Some_2 kids i Hi) as [k Hk]. rewrite (nth_lookup_Some _ _ _ _ Hk). by apply H.
Qed.

Lemma pow32_pos l : 0 < pow32 l.
Proof. apply Z.pow_pos_nonneg; lia. Qed.

Lemma pow32_S l : pow32 (S l) = 32 * pow32 l.
Proof. unfold pow32. by rewrite Nat2Z.inj_succ, Z.pow_succ_r by lia. Qed.

Lemma idx_split l idx : 0 <= idx < pow32 (S l) -> 0 <= idx / pow32 l < 32 /\ 0 <= idx mod pow32 l < pow32 l.
Proof.
  intros [H1 H2]. pose proof (pow32_pos l) as Hp. rewrite pow32_S in H2. split; [|by apply Z.mod_pos_bound].
  split; [by apply Z.div_pos|]. apply Z.div_lt_upper_bound; lia.
Qed.

Lemma data_root m vol l t : vol_ok vol -> rep m vol l t -> root t = 0 <-> t = Hole.
Proof.
  intros W H. destruct t as [|b kids]; [done|]. split; [|done]. cbn [root]. intros ->.
  assert (data_block vol 0) as Hd by (destruct l; apply H). by apply (data_block_pos _ _ W) in Hd.
Qed.

Lemma leaf_hole l idx : leaf l Hole idx = 0.
Proof.
  revert idx. induction l as [|l IH]; intros idx; cbn [leaf kids_of]; [done|]. by rewrite nth_hole.
Qed.

(** One step of the read-only walk. *)
Lemma ptr_in_block_spec m vol l t i : vol_ok vol -> rep m vol (S l) t -> 0 <= i < 32 ->
  ptr_in_block m vol (root t) i = root (nth (Z.to_nat i) (kids_of t) Hole) /\
  rep m vol l (nth (Z.to_nat i) (kids_of t) Hole).
Proof.
  intros W H Hi. unfold ptr_in_block. tfs. destruct t as [|b kids]; cbn [root kids_of].
  - rewrite nth_hole. split; [done|apply rep_hole].
  - rewrite rep_S in H. destruct H as (Hb & Hlen & Hk). pose proof (data_block_pos _ _ W Hb) as Hpos.
    rewrite (proj2 (Z.eqb_neq b 0)) by lia. destruct (kid_rep _ _ _ _ _ (Z.to_nat i) Hk ltac:(lia)) as [Hr Hrep].
    unfold block_slot in Hr. rewrite Z2Nat.id in Hr by lia. done.
Qed.

(** ** Insertion *)

(** What an allocation along a path of a tree has done: [F] are the blocks it took, [r] the
    data block at [idx], or 0, and [X] holds the bytes outside them that it may have written. *)
Record grown (l : nat) (m : mem) (vol : TrashfsVolume) (A : list Z) (t : tree) (idx : Z) (m' : mem)
    (vol' : TrashfsVolume) (t' : tree) (F : list Z) (r : Z) (X : Z -> Prop) : Prop := {
  gr_alloc : alloc_ok m' vol' (F ++ A);
  gr_vol : vol' = set_free vol (free_blocks vol') (free_inodes vol);
  gr_blocks : tblocks t' ≡ₚ F ++ tblocks t;
  gr_rep : rep m' vol l t';
  gr_leaf j : 0 <= j < pow32 l -> leaf l t' j = if j =? idx then r else leaf l t j;
  gr_new : if r =? 0 then leaf l t idx = 0 /\ free_blocks vol' = 0
           else leaf l t idx = r \/ (leaf l t idx = 0 /\ r ∈ F /\ forall x, in_block vol r x -> m' x = 0);
  gr_mem : mem_agree (fun x => outside vol F x /\ ~ X x) m m'
}.

Fixpoint alloc_at (l : nat) (m : mem) (vol : TrashfsVolume) (b idx : Z) : mem * TrashfsVolume * Z :=
  match l with
  | O => (m, vol, b)
  | S l =>
      let '(m, vol, c) := ensure_slot m vol (ptr_slot vol b (idx / pow32 l)) in
      if c =? TRASHFS_BLOCK_NONE then (m, vol, TRASHFS_BLOCK_NONE) else alloc_at l m vol c (idx mod pow32 l)
  end.

Definition fresh_tree (l : nat) (c : Z) : tree :=
  match l with O => Blk c [] | S _ => Blk c (replicate 32 Hole) end.

Lemma fresh_blocks l c : tblocks (fresh_tree l c) = [c].
Proof. by destruct l. Qed.

Lemma fresh_rep m vol l c : data_block vol c -> (forall x, in_block vol c x -> m x = 0) -> rep m vol l (fresh_tree l c).
Proof.
  intros Hc Hz. destruct l as [|l]; [done|]. cbn [fresh_tree]. apply rep_S. split; [done|]. split; [done|].
  intros i k Hi. apply lookup_replicate in Hi as [-> Hi]. split; [|apply rep_hole]. cbn [root].
  unfold rd32, load32. rewrite (mem_read_agree m (fun _ => 0)); [done|].
  intros x Hx. apply Hz. unfold block_slot, in_block, rng in *. lia.
Qed.

Lemma fresh_leaf l c j : leaf l (fresh_tree l c) j = match l with O => c | S _ => 0 end.
Proof.
  destruct l as [|l]; [done|]. cbn [fresh_tree leaf kids_of].
  assert (nth (Z.to_nat (j / pow32 l)) (replicate 32 Hole) Hole = Hole) as ->; [|apply leaf_hole].
  generalize (Z.to_nat (j / pow32 l)). intros i. do 33 (destruct i as [|i]; [done|]). done.
Qed.

(** A slot that shares bytes with neither the bitmap nor a block that is not in use. *)
Definition slot_apart (vol : TrashfsVolume) (s : Z) (A : list Z) : Prop :=
  forall x, rng s 4 x -> ~ in_bitmap vol x /\ forall c, data_block vol c -> in_block vol c x -> c ∈ A.

Lemma wr32_agree m s v : mem_agree (fun x => ~ rng s 4 x) m (wr32 m s v).
Proof. apply store32_frame. Qed.

Lemma alloc_ok_agree m m' vol A : alloc_ok m vol A -> mem_ok m' -> mem_agree (in_bitmap vol) m m' -> alloc_ok m' vol A.
Proof.
  intros [W Wm H3 H4 H5 H6] Wm' Hag. split; try done. intros b Hb. rewrite <-H5 by done. unfold block_bit.
  rewrite <-(Hag (bit_byte (bitmap_of vol) b)); [done|]. by apply bit_in_bitmap.
Qed.

(** The pointer at [s], allocated if need be. *)
Lemma ensure_slot_spec m vol s A : alloc_ok m vol A -> slot_apart vol s A ->
  let '(m', vol', c) := ensure_slot m vol s in
  if rd32 m s =? 0 then
    if c =? 0 then m' = m /\ vol' = vol /\ free_blocks vol = 0
    else (c ∉ A) /\ data_block vol c /\ vol' = set_free vol (free_blocks vol - 1) (free_inodes vol) /\
      alloc_ok m' vol' (c :: A) /\ rd32 m' s = c /\ (forall x, in_block vol c x -> m' x = 0) /\
      mem_agree (fun x => outside vol [c] x /\ ~ rng s 4 x) m m'
  else m' = m /\ vol' = vol /\ c = rd32 m s.
Proof.
  intros H Hs. unfold ensure_slot. tfs. destruct (Z.eqb_spec (rd32 m s) 0) as [Hz|Hnz]; [|done].
  pose proof (alloc_block_spec m vol A H) as Ha. destruct (alloc_block_v m vol) as [[m1 vol1] c].
  destruct (Z.eqb_spec c 0) as [E|Hc].
  - destruct Ha as (-> & -> & Hl). cbn [Z.eqb]. split_and!; try done. rewrite (ao_free _ _ _ H). lia.
  - destruct Ha as (Hn & Hd & -> & H1 & Hag & Hzero). rewrite (proj2 (Z.eqb_neq c 0)) by done.
    assert (is_u32 c) as Hu.
    { pose proof (ao_vol _ _ _ H) as W. pose proof (data_block_pos _ _ W Hd). pose proof (vo_bytes _ W). unfold data_block, is_u32 in *. lia. }
    assert (forall x, in_block vol c x -> ~ rng s 4 x) as Hsc by (intros x Hx Hr; apply Hn; by apply (Hs x Hr)).
    split_and!; try done.
    + apply (alloc_ok_agree m1); [done|by apply store32_ok, (ao_mem _ _ _ H1)|].
      intros x Hx. apply wr32_agree. intros Hr. by apply (Hs x Hr).
    + unfold rd32, wr32. rewrite load32_store32_eq. by apply u32_small.
    + intros x Hx. rewrite <-(wr32_agree m1 s c x); [by apply Hzero|by apply Hsc].
    + intros x [Hx1 Hx2]. rewrite (Hag x Hx1). by apply wr32_agree.
Qed.

(** Replacing one tree of an array. *)
Lemma all_blocks_insert ts i t t' F : ts !! i = Some t -> tblocks t' ≡ₚ F ++ tblocks t ->
  all_blocks (<[i := t']> ts) ≡ₚ F ++ all_blocks ts.
Proof.
  intros Hi HP. unfold all_blocks. revert i Hi. induction ts as [|u ts IH]; intros [|i] Hi; try done; cbn in *.
  - injection Hi as ->. by rewrite HP, app_assoc.
  - rewrite (IH i Hi), !app_assoc. by rewrite (Permutation_app_comm (tblocks u) F).
Qed.

Lemma all_blocks_at ts i t : ts !! i = Some t -> tblocks t ⊆ all_blocks ts.
Proof. intros Hi b Hb. apply elem_all_blocks. eauto. Qed.

Lemma NoDup_at ts i t : NoDup (all_blocks ts) -> ts !! i = Some t -> NoDup (tblocks t).
Proof.
  unfold all_blocks. revert i. induction ts as [|u ts IH]; intros [|i] Hn Hi; try done; cbn in *;
    apply NoDup_app in Hn as (H1 & _ & H2); [by injection Hi as ->|by apply (IH i)].
Qed.

Lemma NoDup_apart ts i j t u b : NoDup (all_blocks ts) -> ts !! i = Some t -> ts !! j = Some u ->
  b ∈ tblocks t -> b ∈ tblocks u -> i = j.
Proof.
  unfold all_blocks. revert i j. induction ts as [|w ts IH]; intros [|i] [|j] Hn Hi Hj Hb Hc; try done; cbn in *;
    apply NoDup_app in Hn as (H1 & H2 & H3).
  - exfalso. injection Hi as ->. apply (H2 b Hb). by apply (all_blocks_at ts j u).
  - exfalso. injection Hj as ->. apply (H2 b Hc). by apply (all_blocks_at ts i t).
  - f_equal. by apply IH.
Qed.

Lemma arr_rep_update m m' vol sl lv kids i t' : arr_rep m vol sl lv kids -> (i < length kids)%nat ->
  rd32 m' (sl i) = root t' -> rep m' vol (lv i) t' ->
  (forall j x, (j < length kids)%nat -> j <> i -> rng (sl j) 4 x -> m x = m' x) ->
  (forall j k b x, kids !! j = Some k -> j <> i -> b ∈ tblocks k -> in_block vol b x -> m x = m' x) ->
  arr_rep m' vol sl lv (<[i := t']> kids).
Proof.
  intros H Hi Hr Hrep Hs Hb j k Hj. apply list_lookup_insert_Some in Hj as [(<- & <- & _)|(Hne & Hj)]; [done|].
  destruct (H j k Hj) as [Hrj Hkj]. apply lookup_lt_Some in Hj as Hlt. split.
  - rewrite <-Hrj. unfold rd32. symmetry. apply load32_agree. intros x Hx. by apply (Hs j).
  - apply (tree_same m); [done|]. intros b x Hin. by apply (Hb j k).
Qed.

Definition in_blocks (vol : TrashfsVolume) (l : list Z) (x : Z) : Prop := exists c, c ∈ l /\ in_block vol c x.

Definition alloc_at_ok (l : nat) : Prop := forall m vol A b kids idx,
  let t := Blk b kids in
  alloc_ok m vol A -> rep m vol l t -> NoDup (tblocks t) -> tblocks t ⊆ A -> 0 <= idx < pow32 l ->
  let '(m', vol', r) := alloc_at l m vol b idx in
  exists t' F, grown l m vol A t idx m' vol' t' F r (in_blocks vol (inner l t)) /\ root t' = b.

(** Where the [n] pointers of an array lie: apart from each other, in no block of its trees
    and in none that is free. *)
Record array_apart (vol : TrashfsVolume) (sl : nat -> Z) (n : nat) (kids : list tree) (A : list Z) : Prop := {
  aa_slots i j : (i < n)%nat -> (j < n)%nat -> i <> j -> rdisj (sl i) 4 (sl j) 4;
  aa_bitmap i x : (i < n)%nat -> rng (sl i) 4 x -> ~ in_bitmap vol x;
  aa_blocks i x c : (i < n)%nat -> rng (sl i) 4 x -> data_block vol c -> in_block vol c x -> c ∈ A /\ c ∉ all_blocks kids
}.

(** The step [bmap_alloc] makes at a pointer of an array, with all that follows below. *)
Definition alloc_below (l : nat) (m : mem) (vol : TrashfsVolume) (s idx : Z) : mem * TrashfsVolume * Z :=
  let '(m, vol, c) := ensure_slot m vol s in
  if c =? TRASHFS_BLOCK_NONE then (m, vol, TRASHFS_BLOCK_NONE) else alloc_at l m vol c idx.

Lemma grown_nothing l m vol A t idx X : alloc_ok m vol A -> rep m vol l t -> leaf l t idx = 0 -> free_blocks vol = 0 ->
  grown l m vol A t idx m vol t [] 0 X.
Proof.
  intros H Hr Hl Hf. split; try done; [by destruct vol|]. intros j Hj. by destruct (Z.eqb_spec j idx) as [->|].
Qed.

Lemma fresh_not_old m vol F A b : alloc_ok m vol (F ++ A) -> b ∈ F -> b ∈ A -> False.
Proof. intros H Hf Ha. apply (ao_nodup _ _ _) in H. apply NoDup_app in H as (_ & H & _). by apply (H b). Qed.

Lemma vol_data vol x y b : data_block (set_free vol x y) b <-> data_block vol b.
Proof. done. Qed.

Lemma inner_fresh l c : inner l (fresh_tree l c) ⊆ [c].
Proof. rewrite <-(fresh_blocks l c). apply inner_sub. Qed.

Lemma fresh_shape l c : exists kids, fresh_tree l c = Blk c kids.
Proof. destruct l; eexists; done. Qed.

(** The second half of a step on a pointer that was null: the path grows below the
    block just taken. *)
Lemma grown_below l m vol A s c idx m1 vol1 m' vol' t' F r : vol_ok vol ->
  (c ∉ A) -> vol1 = set_free vol (free_blocks vol - 1) (free_inodes vol) ->
  mem_agree (fun x => outside vol [c] x /\ ~ rng s 4 x) m m1 -> (forall x, in_block vol c x -> m1 x = 0) ->
  grown l m1 vol1 (c :: A) (fresh_tree l c) idx m' vol' t' F r (in_blocks vol1 (inner l (fresh_tree l c))) ->
  0 <= idx < pow32 l -> root t' = c -> c <> 0 ->
  grown l m vol A Hole idx m' vol' t' (F ++ [c]) r (rng s 4).
Proof.
  intros W Hc -> Hag Hz [G1 G2 G3 G4 G5 G6 G7] Hidx Hr Hc0. rewrite fresh_blocks in G3. split.
  - by rewrite <-app_assoc.
  - exact G2.
  - cbn [tblocks]. by rewrite app_nil_r.
  - done.
  - intros j Hj. rewrite G5 by done. destruct (Z.eqb_spec j idx) as [|Hne]; [done|]. rewrite fresh_leaf, leaf_hole.
    destruct l; [|done]. unfold pow32 in *. cbn in Hj, Hidx. lia.
  - rewrite leaf_hole. rewrite fresh_leaf in G6. destruct l as [|l].
    + specialize (G5 idx Hidx). rewrite Z.eqb_refl in G5. cbn [leaf] in G5. rewrite Hr in G5. subst r.
      rewrite (proj2 (Z.eqb_neq c 0)) by done. right. split; [done|]. split; [by apply elem_of_app; right; left|].
      intros x Hx. destruct (decide (c ∈ F)) as [Hin|Hni].
      * exfalso. apply (fresh_not_old _ _ _ _ c G1 Hin). by left.
      * rewrite <-(G7 x); [by apply Hz|]. split; [split|].
        -- apply (data_not_bitmap vol c); [done| |done].
           pose proof (ao_data _ _ _ G1 c) as Hd. rewrite G2 in Hd. apply Hd, elem_of_app. right. by left.
        -- intros b Hb Hbx. apply Hni. by rewrite (in_block_inj vol c b x).
        -- by intros (d & Hd & _); apply elem_of_nil in Hd.
    + destruct (Z.eqb_spec r 0); [done|]. destruct G6 as [|(_ & Hin & H0)]; [done|]. right. split; [done|]. split; [|done].
      apply elem_of_app. by left.
  - intros x [[Hx1 Hx2] Hx3]. transitivity (m1 x).
    + apply Hag. split; [split; [done|]|done]. intros b Hb. apply Hx2, elem_of_app. by right.
    + apply G7. split; [split; [done|]|].
      * intros b Hb. apply Hx2, elem_of_app. by left.
      * intros (d & Hd%inner_fresh & Hdx). apply (Hx2 d); [|done]. apply elem_of_app. by right.
Qed.

(** The pointer itself survives what happens below it. *)
Lemma grown_slot l m vol A t idx m' vol' t' F r X s : grown l m vol A t idx m' vol' t' F r X ->
  (forall x, rng s 4 x -> ~ in_bitmap vol x /\ ~ X x /\ forall c, data_block vol c -> in_block vol c x -> c ∈ A) ->
  rd32 m' s = rd32 m s.
Proof.
  intros G Hs. unfold rd32. symmetry. apply load32_agree. intros x Hx. apply (gr_mem _ _ _ _ _ _ _ _ _ _ _ _ G).
  destruct (Hs x Hx) as (Hx1 & Hx2 & Hx3). split; [split; [done|]|done]. intros b Hb Hbx.
  pose proof (gr_alloc _ _ _ _ _ _ _ _ _ _ _ _ G) as GA. apply (fresh_not_old _ _ _ _ b GA Hb), Hx3; [|done].
  pose proof (ao_data _ _ _ GA b) as Hd. rewrite (gr_vol _ _ _ _ _ _ _ _ _ _ _ _ G) in Hd. apply Hd, elem_of_app. by left.
Qed.

(** One pointer, and everything below. *)
Lemma alloc_below_grown l m vol A s t idx : alloc_at_ok l -> alloc_ok m vol A -> rep m vol l t -> rd32 m s = root t ->
  NoDup (tblocks t) -> tblocks t ⊆ A -> 0 <= idx < pow32 l ->
  (forall x, rng s 4 x -> ~ in_bitmap vol x /\ forall c, data_block vol c -> in_block vol c x -> c ∈ A /\ c ∉ tblocks t) ->
  let '(m', vol', r) := alloc_below l m vol s idx in
  exists t' F, grown l m vol A t idx m' vol' t' F r (fun x => rng s 4 x \/ in_blocks vol (inner l t) x) /\ rd32 m' s = root t'.
Proof.
  intros IH H Hrep Hs Hnd Hsub Hidx Hap. pose proof (ao_vol _ _ _ H) as W.
  pose proof (ensure_slot_spec m vol s A H (fun x Hx => conj (proj1 (Hap x Hx)) (fun c Hc Hcx => proj1 (proj2 (Hap x Hx) c Hc Hcx)))) as He.
  unfold alloc_below. tfs. destruct (ensure_slot m vol s) as [[m1 vol1] c]. rewrite Hs in He.
  destruct (Z.eqb_spec (root t) 0) as [E0|Hne].
  - rewrite (data_root _ _ _ _ W Hrep) in E0. subst t. destruct (Z.eqb_spec c 0) as [Ec|Hc].
    + destruct He as (-> & -> & Hf). exists Hole, []. split; [|done]. by apply grown_nothing; [| |apply leaf_hole|].
    + destruct He as (Hn & Hd & Ev & H1 & Hrd & Hz & Hag). destruct (fresh_shape l c) as [kk Ek].
      pose proof (IH m1 vol1 (c :: A) c kk idx) as Hat. cbv zeta in Hat. rewrite <-Ek, fresh_blocks in Hat.
      destruct (alloc_at l m1 vol1 c idx) as [[m' vol'] r].
      destruct Hat as (t' & F & G & Hr); [done|apply fresh_rep; by subst vol1|apply NoDup_singleton|by intros b ->%list_elem_of_singleton; left|done|].
      exists t', (F ++ [c]). split.
      * destruct (grown_below l m vol A s c idx m1 vol1 m' vol' t' F r) as []; try done. split; try done.
        intros x [Hx1 Hx2]. apply gr_mem0. split; [done|]. intros Hr'. apply Hx2. by left.
      * rewrite Hr, <-Hrd. apply (grown_slot _ _ _ _ _ _ _ _ _ _ _ _ s G). subst vol1. intros x Hx. destruct (Hap x Hx) as [Hx1 Hx2].
        split_and!; [done| |intros d Hd2 Hdx; right; by apply (Hx2 d)].
        intros (d & Hd2%inner_fresh & Hdx). apply list_elem_of_singleton in Hd2. subst d. apply Hn. by apply (Hx2 c).
  - destruct He as (-> & -> & ->). destruct t as [|b kids]; [done|]. cbn [root] in *.
    rewrite (proj2 (Z.eqb_neq b 0)) by done. pose proof (IH m vol A b kids idx H Hrep Hnd Hsub Hidx) as Hat.
    destruct (alloc_at l m vol b idx) as [[m' vol'] r]. destruct Hat as (t' & F & G & Hr). exists t', F. split.
    + destruct G. split; try done. intros x [Hx1 Hx2]. apply gr_mem0. split; [done|]. intros Hr'. apply Hx2. by right.
    + rewrite Hr, <-Hs. apply (grown_slot _ _ _ _ _ _ _ _ _ _ _ _ s G). intros x Hx. destruct (Hap x Hx) as [Hx1 Hx2].
      split_and!; [done| |intros d Hd Hdx; by apply (Hx2 d)].
      intros (d & Hd & Hdx). apply inner_sub in Hd. destruct (Hx2 d) as [_ Hx3]; [by apply (rep_data m vol l (Blk b kids))|done|done].
Qed.

(** The step on an array. *)
Lemma alloc_below_array l m vol A sl lv kids i t idx : alloc_at_ok l -> alloc_ok m vol A ->
  arr_rep m vol sl lv kids -> kids !! i = Some t -> lv i = l -> NoDup (all_blocks kids) -> all_blocks kids ⊆ A ->
  array_apart vol sl (length kids) kids A -> 0 <= idx < pow32 l ->
  let '(m', vol', r) := alloc_below l m vol (sl i) idx in
  exists t' F, grown l m vol A t idx m' vol' t' F r (fun x => rng (sl i) 4 x \/ in_blocks vol (inner l t) x) /\
    arr_rep m' vol' sl lv (<[i := t']> kids).
Proof.
  intros IH H Harr Hi Hl Hnd Hsub [Ap1 Ap2 Ap3] Hidx. destruct (Harr i t Hi) as [Hr Hrep]. rewrite Hl in Hrep.
  apply lookup_lt_Some in Hi as Hlt.
  pose proof (alloc_below_grown l m vol A (sl i) t idx IH H Hrep Hr (NoDup_at _ _ _ Hnd Hi)
    (fun b Hb => Hsub b (all_blocks_at _ _ _ Hi b Hb)) Hidx) as Hg.
  destruct (alloc_below l m vol (sl i) idx) as [[m' vol'] r]. destruct Hg as (t' & F & G & Hrd).
  { intros x Hx. split; [by apply (Ap2 i)|]. intros c Hc Hcx. destruct (Ap3 i x c Hlt Hx Hc Hcx) as [Hx3 Hx4].
    split; [done|]. intros Hb. by apply Hx4, (all_blocks_at _ _ _ Hi). }
  exists t', F. split; [done|]. pose proof (gr_alloc _ _ _ _ _ _ _ _ _ _ _ _ G) as GA.
  assert (forall b, b ∈ F -> data_block vol b) as HF.
  { intros b Hb. pose proof (ao_data _ _ _ GA b) as Hd. rewrite (gr_vol _ _ _ _ _ _ _ _ _ _ _ _ G) in Hd. apply Hd, elem_of_app. by left. }
  assert (arr_rep m' vol sl lv (<[i:=t']> kids)) as Harr'.
  { apply (arr_rep_update m); [done|done|done|rewrite Hl; apply (gr_rep _ _ _ _ _ _ _ _ _ _ _ _ G)|..].
    - intros j x Hj Hne Hx. apply (gr_mem _ _ _ _ _ _ _ _ _ _ _ _ G). split; [split; [by apply (Ap2 j)|]|].
      + intros b Hb Hbx. apply (fresh_not_old _ _ _ _ b GA Hb). apply (Ap3 j x b); [done|done|by apply HF|done].
      + intros [Hx3|(d & Hd & Hdx)].
        * specialize (Ap1 j i Hj Hlt Hne). unfold rng, rdisj in *. lia.
        * apply inner_sub, (all_blocks_at _ _ _ Hi) in Hd as Hd2.
          destruct (Ap3 j x d) as [_ Hx4]; [done|done|by apply (ao_data _ _ _ H), Hsub|done|done].
    - intros j k b x Hj Hne Hb Hbx. apply (gr_mem _ _ _ _ _ _ _ _ _ _ _ _ G).
      assert (b ∈ A) as HbA by (apply Hsub; by apply (all_blocks_at _ _ _ Hj)).
      pose proof (ao_data _ _ _ H b HbA) as Hbd. split; [split|].
      + by apply (data_not_bitmap vol b); [apply (ao_vol _ _ _ H)|..].
      + intros d Hd Hdx. apply (fresh_not_old _ _ _ _ d GA Hd). by rewrite (in_block_inj vol d b x).
      + intros [Hx3|(d & Hd & Hdx)].
        * destruct (Ap3 i x b Hlt Hx3 Hbd Hbx) as [_ Hx4]. by apply Hx4, (all_blocks_at _ _ _ Hj).
        * apply inner_sub in Hd. rewrite (in_block_inj vol d b x) in Hd by done. apply Hne. by apply (NoDup_apart kids j i k t b). }
  rewrite (gr_vol _ _ _ _ _ _ _ _ _ _ _ _ G). exact Harr'.
Qed.

Lemma nth_insert_tree kids i j t' : (i < length kids)%nat ->
  nth j (<[i := t']> kids) Hole = if decide (i = j) then t' else nth j kids Hole.
Proof.
  intros Hi. rewrite !nth_lookup. case_decide as E; [subst; by rewrite list_lookup_insert_eq|by rewrite list_lookup_insert_ne].
Qed.

Lemma inner_kid l b kids i t : kids !! i = Some t -> inner l t ⊆ inner (S l) (Blk b kids).
Proof. intros Hi c Hc. apply elem_inner. eauto. Qed.

(** From the step on the pointers of a block to the block. *)
Lemma grown_block l m vol A b kids i t idx m' vol' t' F r : kids !! i = Some t -> 0 <= idx < pow32 (S l) ->
  i = Z.to_nat (idx / pow32 l) -> data_block vol b -> length kids = 32%nat ->
  grown l m vol A t (idx mod pow32 l) m' vol' t' F r
    (fun x => rng (block_slot vol b i) 4 x \/ in_blocks vol (inner l t) x) ->
  arr_rep m' vol' (block_slot vol b) (fun _ => l) (<[i := t']> kids) ->
  grown (S l) m vol A (Blk b kids) idx m' vol' (Blk b (<[i := t']> kids)) F r (in_blocks vol (inner (S l) (Blk b kids))).
Proof.
  intros Hi Hidx Ei Hb Hlen [G1 G2 G3 G4 G5 G6 G7] Harr. apply lookup_lt_Some in Hi as Hlt.
  destruct (idx_split l idx Hidx) as [Hq Hm]. assert (nth i kids Hole = t) as Hnt by (by apply nth_lookup_Some). split; try done.
  - cbn [tblocks]. rewrite (all_blocks_insert kids i t t' F Hi G3). unfold all_blocks. by rewrite Permutation_middle.
  - apply rep_S. rewrite length_insert. split; [done|]. split; [done|]. rewrite G2 in Harr. exact Harr.
  - intros j Hj. cbn [leaf kids_of]. destruct (idx_split l j Hj) as [Hqj Hmj]. rewrite nth_insert_tree by done.
    pose proof (pow32_pos l) as Hp. destruct (decide (i = Z.to_nat (j / pow32 l))) as [Ej|Hne].
    + rewrite G5 by done. rewrite <-Ej, Hnt. assert (idx / pow32 l = j / pow32 l) as Ed by lia.
      destruct (Z.eqb_spec (j mod pow32 l) (idx mod pow32 l)) as [Em|Em], (Z.eqb_spec j idx) as [->|Hji]; try done.
      exfalso. apply Hji. rewrite (Z.div_mod j (pow32 l)), (Z.div_mod idx (pow32 l)), Em, Ed by lia. done.
    + destruct (Z.eqb_spec j idx) as [->|]; [|done]. by destruct Hne.
  - cbn [leaf kids_of]. by rewrite <-Ei, Hnt.
  - intros x [Hx1 Hx2]. apply G7. split; [done|]. intros [Hx3|(c & Hc & Hcx)]; apply Hx2.
    + exists b. split; [cbn [inner]; by left|]. unfold block_slot, in_block, rng in *. lia.
    + exists c. split; [|done]. by apply (inner_kid l b kids i t).
Qed.

Lemma alloc_at_all l : alloc_at_ok l.
Proof.
  induction l as [|l IH]; intros m vol A b kids idx t H Hrep Hnd Hsub Hidx.
  - cbn [alloc_at]. exists t, []. split; [|done]. unfold pow32 in Hidx. cbn in Hidx. assert (idx = 0) as -> by lia.
    assert (0 < b) as Hb by (apply (data_block_pos vol); [apply (ao_vol _ _ _ H)|apply Hrep]).
    split; try done; [by destruct vol| |].
    + intros j Hj. unfold pow32 in Hj. cbn in Hj. assert (j = 0) as -> by lia. done.
    + rewrite (proj2 (Z.eqb_neq b 0)) by lia. by left.
  - cbn [alloc_at]. pose proof Hrep as (Hb & Hlen & Harr)%rep_S. destruct (idx_split l idx Hidx) as [Hq Hm].
    set (i := Z.to_nat (idx / pow32 l)). destruct (lookup_lt_is_Some_2 kids i ltac:(lia)) as [k Hk].
    cbn [tblocks t] in Hnd, Hsub. apply NoDup_cons in Hnd as [Hnb Hnd].
    assert (array_apart vol (block_slot vol b) (length kids) kids A) as Hap.
    { assert (forall i x, (i < length kids)%nat -> rng (block_slot vol b i) 4 x -> in_block vol b x) as Hin
        by (unfold block_slot, in_block, rng; intros; lia). split.
      - intros i1 i2 _ _ Hne. unfold block_slot, rdisj. lia.
      - intros i1 x Hi1 Hx. by apply (data_not_bitmap vol b); [apply (ao_vol _ _ _ H)|done|apply (Hin i1)].
      - intros i1 x c Hi1 Hx _ Hc. rewrite (in_block_inj vol c b x) by (done || by apply (Hin i1)). split; [apply Hsub; by left|done]. }
    pose proof (alloc_below_array l m vol A _ _ kids i k (idx mod pow32 l) IH H Harr Hk eq_refl Hnd
      (fun b' Hb' => Hsub b' (list_elem_of_further _ _ _ Hb')) Hap Hm) as Hstep.
    unfold alloc_below in Hstep. unfold ptr_slot. unfold block_slot in Hstep at 1.
    replace (Z.of_nat i) with (idx / pow32 l) in Hstep by lia.
    destruct (ensure_slot m vol (block_ptr (v_region vol) b + idx / pow32 l * 4)) as [[m1 vol1] c]. tfs.
    destruct (if c =? 0 then (m1, vol1, 0) else alloc_at l m1 vol1 c (idx mod pow32 l)) as [[m' vol'] r].
    destruct Hstep as (k' & F & G & Harr'). exists (Blk b (<[i := k']> kids)), F. split; [|done].
    by apply (grown_block l m vol A b kids i k idx m' vol' k' F r).
Qed.
