(* ===== verification/TrashFile.v ===== *)
(** Files of a trash volume: what an inode's eleven pointers make of its logical blocks,
    the invariant of the whole volume, and reading and writing as operations on the bytes
    of a file. *)
From S2P Require Import Prelude HostMem TrashFs TrashTree.
#[local] Open Scope Z_scope.

(** ** The pointers of an inode *)

Definition inode_level (j : nat) : nat := (j - 7)%nat.

(** The pointer that leads to a logical block, and the index below it. *)
Definition locate (lbn : Z) : option (nat * Z) :=
  if lbn <? 8 then Some (Z.to_nat lbn, 0) else
  if lbn - 8 <? 32 then Some (8%nat, lbn - 8) else
  if lbn - 8 - 32 <? 1024 then Some (9%nat, lbn - 8 - 32) else
  if lbn - 8 - 32 - 1024 <? 32768 then Some (10%nat, lbn - 8 - 32 - 1024) else None.

Definition max_blocks : Z := 8 + 32 + 1024 + 32768.

(** The data block at a logical block number, the trees of the pointers being [tr]. *)
Definition ileaf (tr : nat -> tree) (lbn : Z) : Z :=
  match locate lbn with
  | Some (j, idx) => leaf (inode_level j) (tr j) idx
  | None => 0
  end.

Lemma locate_bounds lbn j idx : 0 <= lbn -> locate lbn = Some (j, idx) ->
  (j < 11)%nat /\ 0 <= idx < pow32 (inode_level j).
Proof.
  intros Hl. unfold locate, inode_level, pow32.
  destruct (Z.ltb_spec lbn 8); [intros [= <- <-]; split; [lia|]|].
  { replace (Z.to_nat lbn - 7)%nat with 0%nat by lia. cbn. lia. }
  destruct (Z.ltb_spec (lbn - 8) 32); [intros [= <- <-]; split; [lia|cbn; lia]|].
  destruct (Z.ltb_spec (lbn - 8 - 32) 1024); [intros [= <- <-]; split; [lia|cbn; lia]|].
  destruct (Z.ltb_spec (lbn - 8 - 32 - 1024) 32768); [intros [= <- <-]; split; [lia|cbn; lia]|done].
Qed.

Lemma locate_inj l1 l2 j idx : 0 <= l1 -> 0 <= l2 -> locate l1 = Some (j, idx) -> locate l2 = Some (j, idx) -> l1 = l2.
Proof. intros H1 H2. unfold locate. repeat case_match; intros; simplify_eq; lia. Qed.

Lemma locate_none lbn : 0 <= lbn -> locate lbn = None <-> max_blocks <= lbn.
Proof. intros H. unfold locate, max_blocks. repeat case_match; split; intros; try done; lia. Qed.

Lemma pow32_1 : pow32 1 = 32. Proof. done. Qed.
Lemma pow32_2 : pow32 2 = 1024. Proof. done. Qed.

Lemma below_0 m vol s : ensure_slot m vol s = alloc_below 0 m vol s 0.
Proof.
  unfold alloc_below. cbn [alloc_at]. destruct (ensure_slot m vol s) as [[m' vol'] c].
  tfs. by destruct (Z.eqb_spec c 0) as [->|].
Qed.

Lemma alloc_at_S l m vol b idx : alloc_at (S l) m vol b idx =
  alloc_below l m vol (ptr_slot vol b (idx / pow32 l)) (idx mod pow32 l).
Proof. done. Qed.

Lemma below_idx0 m vol s idx : alloc_below 0 m vol s idx = ensure_slot m vol s.
Proof. by rewrite below_0. Qed.

(** [bmap_alloc] is the walk below one of the eleven pointers. *)
Lemma bmap_alloc_eq m vol inode lbn : 0 <= lbn -> bmap_alloc m vol inode lbn =
  match locate lbn with
  | Some (j, idx) => alloc_below (inode_level j) m vol (inode + 16 + Z.of_nat j * 4) idx
  | None => (m, vol, 0)
  end.
Proof.
  intros Hl. unfold bmap_alloc, locate. tfs. change (128 / 4) with 32. change (32 * 32 * 32) with 32768. change (32 * 32) with 1024.
  destruct (Z.ltb_spec lbn 8).
  { unfold inode_level. replace (Z.to_nat lbn - 7)%nat with 0%nat by lia. rewrite below_idx0. do 2 f_equal. lia. }
  destruct (Z.ltb_spec (lbn - 8) 32) as [H1|H1].
  { change (inode_level 8) with 1%nat. unfold alloc_below at 1. change (inode + 16 + Z.of_nat 8 * 4) with (inode + 16 + 32).
    replace (inode + 16 + 32) with (inode + 48) by lia. destruct (ensure_slot m vol (inode + 48)) as [[m1 v1] c]. tfs.
    destruct (c =? 0); [done|]. rewrite alloc_at_S, below_idx0. by rewrite Z.div_1_r. }
  destruct (Z.ltb_spec (lbn - 8 - 32) 1024) as [H2|H2].
  { change (inode_level 9) with 2%nat. unfold alloc_below at 1. replace (inode + 16 + Z.of_nat 9 * 4) with (inode + 52) by lia.
    destruct (ensure_slot m vol (inode + 52)) as [[m1 v1] c]. tfs.
    destruct (c =? 0); [done|]. rewrite alloc_at_S. unfold alloc_below. rewrite pow32_1.
    destruct (ensure_slot m1 v1 _) as [[m2 v2] c2]. tfs.
    destruct (c2 =? 0); [done|]. rewrite alloc_at_S, below_idx0. by rewrite Z.div_1_r. }
  destruct (Z.ltb_spec (lbn - 8 - 32 - 1024) 32768) as [H3|H3]; [|done].
  set (k := lbn - 8 - 32 - 1024). change (inode_level 10) with 3%nat. unfold alloc_below at 1.
  replace (inode + 16 + Z.of_nat 10 * 4) with (inode + 56) by lia.
  destruct (ensure_slot m vol (inode + 56)) as [[m1 v1] c]. tfs.
  destruct (c =? 0); [done|]. rewrite alloc_at_S. unfold alloc_below. rewrite pow32_2.
  destruct (ensure_slot m1 v1 _) as [[m2 v2] c2]. tfs. destruct (c2 =? 0); [done|]. rewrite alloc_at_S. unfold alloc_below.
  rewrite pow32_1. assert (k mod 1024 / 32 = k / 32 mod 32) as -> by zlia.
  destruct (ensure_slot m2 v2 _) as [[m3 v3] c3]. tfs. destruct (c3 =? 0); [done|]. rewrite alloc_at_S, below_idx0.
  rewrite Z.div_1_r. change (pow32 1) with 32. by assert (k mod 1024 mod 32 = k mod 32) as -> by zlia.
Qed.

(** [map_lbn] finds the leaf. *)
Lemma walk_leaf m vol l t idx : vol_ok vol -> rep m vol (S l) t -> 0 <= idx < pow32 (S l) ->
  exists t', ptr_in_block m vol (root t) (idx / pow32 l) = root t' /\ rep m vol l t' /\
    leaf (S l) t idx = leaf l t' (idx mod pow32 l) /\ 0 <= idx mod pow32 l < pow32 l.
Proof.
  intros W H Hidx. destruct (idx_split l idx Hidx) as [Hq Hm].
  destruct (ptr_in_block_spec m vol l t (idx / pow32 l) W H Hq) as [H1 H2]. eauto.
Qed.

Lemma map_lbn_spec m vol inode tr lbn : vol_ok vol -> 0 <= lbn ->
  (forall j, (j < 11)%nat -> rd32 m (inode + 16 + Z.of_nat j * 4) = root (tr j) /\ rep m vol (inode_level j) (tr j)) ->
  map_lbn m vol inode lbn = ileaf tr lbn.
Proof.
  intros W Hl Hp. unfold map_lbn, ileaf. tfs. change (128 / 4) with 32. change (32 * 32 * 32) with 32768. change (32 * 32) with 1024.
  unfold locate. destruct (Z.ltb_spec lbn 8).
  { destruct (Hp (Z.to_nat lbn) ltac:(lia)) as [Hr _]. rewrite Z2Nat.id in Hr by lia. rewrite Hr.
    unfold inode_level. by replace (Z.to_nat lbn - 7)%nat with 0%nat by lia. }
  destruct (Z.ltb_spec (lbn - 8) 32) as [H1|H1].
  { destruct (Hp 8%nat ltac:(lia)) as [Hr Hrep]. replace (inode + 48) with (inode + 16 + Z.of_nat 8 * 4) by lia. rewrite Hr.
    destruct (walk_leaf m vol 0 _ (lbn - 8) W Hrep) as (t1 & E1 & R1 & L1 & _); [rewrite pow32_1; lia|].
    change (pow32 0) with 1 in E1. rewrite Z.div_1_r in E1. rewrite E1. symmetry. exact L1. }
  destruct (Z.ltb_spec (lbn - 8 - 32) 1024) as [H2|H2].
  { destruct (Hp 9%nat ltac:(lia)) as [Hr Hrep]. replace (inode + 52) with (inode + 16 + Z.of_nat 9 * 4) by lia. rewrite Hr.
    destruct (walk_leaf m vol 1 _ (lbn - 8 - 32) W Hrep) as (t1 & E1 & R1 & L1 & B1); [rewrite pow32_2; lia|].
    rewrite pow32_1 in E1, L1, B1. rewrite E1. destruct (walk_leaf m vol 0 t1 _ W R1 B1) as (t2 & E2 & R2 & L2 & _).
    change (pow32 0) with 1 in E2. rewrite Z.div_1_r in E2. rewrite E2. symmetry. etransitivity; [exact L1|exact L2]. }
  destruct (Z.ltb_spec (lbn - 8 - 32 - 1024) 32768) as [H3|H3]; [|done].
  set (k := lbn - 8 - 32 - 1024) in *. destruct (Hp 10%nat ltac:(lia)) as [Hr Hrep].
  replace (inode + 56) with (inode + 16 + Z.of_nat 10 * 4) by lia. rewrite Hr.
  destruct (walk_leaf m vol 2 _ k W Hrep) as (t1 & E1 & R1 & L1 & B1); [change (pow32 3) with 32768; lia|].
  rewrite pow32_2 in E1, L1, B1. rewrite E1. destruct (walk_leaf m vol 1 t1 _ W R1 B1) as (t2 & E2 & R2 & L2 & B2).
  rewrite pow32_1 in E2, L2, B2. assert (k mod 1024 / 32 = k / 32 mod 32) as Ek by zlia. rewrite Ek in E2. rewrite E2.
  destruct (walk_leaf m vol 0 t2 _ W R2 B2) as (t3 & E3 & R3 & L3 & _). change (pow32 0) with 1 in E3. rewrite Z.div_1_r in E3.
  assert (k mod 1024 mod 32 = k mod 32) as Em by zlia. rewrite Em in E3. rewrite E3.
  symmetry. etransitivity; [exact L1|]. etransitivity; [exact L2|exact L3].
Qed.

(** ** The volume *)

(** The eleven pointers of all inodes, one array of trees. *)
Definition fs_slot (vol : TrashfsVolume) (k : nat) : Z :=
  inode_ptr vol (Z.of_nat (k / 11)) + 16 + Z.of_nat (k mod 11) * 4.
Definition fs_level (k : nat) : nat := inode_level (k mod 11).

Definition fs_index (i : Z) (j : nat) : nat := (11 * Z.to_nat i + j)%nat.
Definition itree (fs : list tree) (i : Z) (j : nat) : tree := nth (fs_index i j) fs Hole.

(** The pointers of the inodes lead to the trees [fs], whose blocks are those in use and
    all different. *)
Record fs_ok (m : mem) (vol : TrashfsVolume) (fs : list tree) : Prop := {
  fs_alloc : alloc_ok m vol (all_blocks fs);
  fs_len : length fs = (11 * Z.to_nat (inode_count vol))%nat;
  fs_rep : arr_rep m vol (fs_slot vol) fs_level fs
}.

Definition an_inode (vol : TrashfsVolume) (i : Z) : Prop := 0 <= i < inode_count vol.

Lemma index_split i j : (j < 11)%nat -> (fs_index i j / 11 = Z.to_nat i)%nat /\ (fs_index i j mod 11 = j)%nat.
Proof.
  intros Hj. unfold fs_index. rewrite Nat.mul_comm. split.
  - rewrite Nat.div_add_l by lia. rewrite (Nat.div_small j 11) by lia. lia.
  - rewrite Nat.add_comm, Nat.Div0.mod_add. by apply Nat.mod_small.
Qed.

Lemma slot_at vol i j : 0 <= i -> (j < 11)%nat -> fs_slot vol (fs_index i j) = inode_ptr vol i + 16 + Z.of_nat j * 4.
Proof. intros Hi Hj. unfold fs_slot. destruct (index_split i j Hj) as [-> ->]. by rewrite Z2Nat.id. Qed.

Lemma index_lt m vol fs i j : fs_ok m vol fs -> an_inode vol i -> (j < 11)%nat -> (fs_index i j < length fs)%nat.
Proof. intros H Hi Hj. rewrite (fs_len _ _ _ H). unfold fs_index, an_inode in *. lia. Qed.

Lemma itree_rep m vol fs i j : fs_ok m vol fs -> an_inode vol i -> (j < 11)%nat ->
  rd32 m (inode_ptr vol i + 16 + Z.of_nat j * 4) = root (itree fs i j) /\ rep m vol (inode_level j) (itree fs i j).
Proof.
  intros H Hi Hj. pose proof (kid_rep _ _ _ _ _ (fs_index i j) (fs_rep _ _ _ H) (index_lt _ _ _ _ _ H Hi Hj)) as Hk.
  unfold fs_level in Hk. rewrite slot_at in Hk by (done || apply Hi). by rewrite (proj2 (index_split i j Hj)) in Hk.
Qed.

Lemma fs_map_lbn m vol fs i lbn : fs_ok m vol fs -> an_inode vol i -> 0 <= lbn ->
  map_lbn m vol (inode_ptr vol i) lbn = ileaf (itree fs i) lbn.
Proof.
  intros H Hi Hl. apply map_lbn_spec; [apply (ao_vol _ _ _ (fs_alloc _ _ _ H))|done|].
  intros j Hj. by apply (itree_rep m vol fs).
Qed.

(** The pointers of the inode table. *)
Lemma ptr_slot_inside vol k : vol_ok vol -> (k < 11 * Z.to_nat (inode_count vol))%nat ->
  exists i j, an_inode vol i /\ (j < 11)%nat /\ k = fs_index i j.
Proof.
  intros W Hk. exists (Z.of_nat (k / 11)), (k mod 11)%nat. pose proof (Nat.div_mod_eq k 11). pose proof (Nat.mod_upper_bound k 11 ltac:(lia)).
  unfold an_inode, fs_index. split_and!; [lia|apply Nat2Z.inj_lt in Hk; zify; nia|lia|lia].
Qed.

Lemma fs_slot_inodes vol k x : vol_ok vol -> (k < 11 * Z.to_nat (inode_count vol))%nat -> rng (fs_slot vol k) 4 x ->
  in_inodes vol x.
Proof.
  intros W Hk Hx. destruct (ptr_slot_inside vol k W Hk) as (i & j & Hi & Hj & ->). rewrite slot_at in Hx by (done || apply Hi).
  apply (inode_inside vol i); [done|done|]. unfold rng in *. lia.
Qed.

Lemma fs_array m vol fs : fs_ok m vol fs -> array_apart vol (fs_slot vol) (length fs) fs (all_blocks fs).
Proof.
  intros H. pose proof (ao_vol _ _ _ (fs_alloc _ _ _ H)) as W. rewrite (fs_len _ _ _ H). split.
  - intros k1 k2 H1 H2 Hne. destruct (ptr_slot_inside vol k1 W H1) as (i1 & j1 & Hi1 & Hj1 & ->).
    destruct (ptr_slot_inside vol k2 W H2) as (i2 & j2 & Hi2 & Hj2 & ->). rewrite !slot_at by (apply Hi1 || apply Hi2 || done).
    rewrite !inode_ptr_eq by done. unfold fs_index, rdisj, an_inode in *. nia.
  - intros k x Hk Hx. apply (inodes_not_bitmap vol x W). by apply (fs_slot_inodes vol k).
  - intros k x c Hk Hx Hc Hcx. exfalso. apply (data_not_inodes vol c x W Hc Hcx). by apply (fs_slot_inodes vol k).
Qed.

(** ** Data blocks *)

Lemma leaf_in l t k : leaf l t k <> 0 -> leaf l t k ∈ tblocks t.
Proof.
  revert t k. induction l as [|l IH]; intros [|b kids] k; cbn [leaf kids_of root tblocks]; rewrite ?nth_hole, ?leaf_hole; try done.
  - intros _. by left.
  - intros Hne. right. set (n := Z.to_nat (k / pow32 l)) in *. specialize (IH _ _ Hne).
    destruct (lookup_lt_is_Some_2 kids n) as [u Hu].
    { destruct (decide (n < length kids)%nat) as [|Hge]; [done|]. rewrite nth_overflow, leaf_hole in Hne by lia. done. }
    rewrite (nth_lookup_Some _ _ _ _ Hu) in *. by apply (all_blocks_at kids n u).
Qed.

(** The subtree with the data block. *)
Lemma leaf_kid l b kids k : leaf (S l) (Blk b kids) k <> 0 ->
  exists u, kids !! Z.to_nat (k / pow32 l) = Some u /\ leaf (S l) (Blk b kids) k = leaf l u (k mod pow32 l).
Proof.
  cbn [leaf kids_of]. set (n := Z.to_nat (k / pow32 l)). intros Hne.
  destruct (lookup_lt_is_Some_2 kids n) as [u Hu].
  { destruct (decide (n < length kids)%nat) as [|Hge]; [done|]. rewrite nth_overflow, leaf_hole in Hne by lia. done. }
  exists u. split; [done|]. by rewrite (nth_lookup_Some _ _ _ _ Hu).
Qed.

Lemma leaf_not_inner l t k : NoDup (tblocks t) -> leaf l t k <> 0 -> leaf l t k ∉ inner l t.
Proof.
  revert t k. induction l as [|l IH]; intros [|b kids] k Hnd Hne Hin; try (by apply elem_of_nil in Hin).
  destruct (leaf_kid l b kids k Hne) as (u & Hu & E). rewrite E in *. cbn [tblocks] in *.
  apply NoDup_cons in Hnd as [Hnb Hnd]. apply leaf_in in Hne as Hlu. apply elem_inner in Hin as [Hb|(j & w & Hj & Hw)].
  - apply Hnb. rewrite <-Hb. by apply (all_blocks_at kids _ u Hu).
  - pose proof (NoDup_apart kids _ _ _ _ _ Hnd Hu Hj Hlu (inner_sub l w _ Hw)) as <-.
    rewrite Hu in Hj. injection Hj as <-. by apply (IH u (k mod pow32 l) (NoDup_at _ _ _ Hnd Hu)).
Qed.

Lemma leaf_inj l t k k' : NoDup (tblocks t) -> 0 <= k < pow32 l -> 0 <= k' < pow32 l ->
  leaf l t k <> 0 -> leaf l t k = leaf l t k' -> k = k'.
Proof.
  revert t k k'. induction l as [|l IH]; intros t k k' Hnd Hk Hk' Hne E; [unfold pow32 in *; cbn in *; lia|].
  destruct t as [|b kids]; [by rewrite leaf_hole in Hne|]. assert (leaf (S l) (Blk b kids) k' <> 0) as Hne' by congruence.
  destruct (leaf_kid l b kids k Hne) as (u & Hu & E1). destruct (leaf_kid l b kids k' Hne') as (u' & Hu' & E2).
  destruct (idx_split l k Hk) as [Hq Hm]. destruct (idx_split l k' Hk') as [Hq' Hm']. rewrite E1, E2 in *.
  cbn [tblocks] in Hnd. apply NoDup_cons in Hnd as [_ Hnd].
  assert (Z.to_nat (k / pow32 l) = Z.to_nat (k' / pow32 l)) as Ei.
  { apply (NoDup_apart kids _ _ u u' (leaf l u (k mod pow32 l)) Hnd Hu Hu'); [by apply leaf_in|]. rewrite E. by apply leaf_in. }
  rewrite Ei, Hu' in Hu. injection Hu as ->. pose proof (IH u _ _ (NoDup_at _ _ _ Hnd Hu') Hm Hm' Hne E) as Em.
  pose proof (pow32_pos l). rewrite (Z.div_mod k (pow32 l)), (Z.div_mod k' (pow32 l)) by lia. nia.
Qed.

Lemma itree_lookup m vol fs i j : fs_ok m vol fs -> an_inode vol i -> (j < 11)%nat -> fs !! fs_index i j = Some (itree fs i j).
Proof.
  intros H Hi Hj. destruct (lookup_lt_is_Some_2 fs (fs_index i j) (index_lt _ _ _ _ _ H Hi Hj)) as [t Ht].
  unfold itree. by rewrite (nth_lookup_Some _ _ _ _ Ht).
Qed.

(** The logical block of an inode is a block in use. *)
Lemma ileaf_in m vol fs i lbn : fs_ok m vol fs -> an_inode vol i -> 0 <= lbn -> ileaf (itree fs i) lbn <> 0 ->
  ileaf (itree fs i) lbn ∈ all_blocks fs.
Proof.
  intros H Hi Hl. unfold ileaf. destruct (locate lbn) as [[j idx]|] eqn:E; [|done]. intros Hne.
  destruct (locate_bounds _ _ _ Hl E) as [Hj _]. by apply (all_blocks_at fs _ _ (itree_lookup _ _ _ _ _ H Hi Hj)), leaf_in.
Qed.

Lemma ileaf_data m vol fs i lbn : fs_ok m vol fs -> an_inode vol i -> 0 <= lbn -> ileaf (itree fs i) lbn <> 0 ->
  data_block vol (ileaf (itree fs i) lbn).
Proof. intros H Hi Hl Hne. apply (ao_data _ _ _ (fs_alloc _ _ _ H)). by apply (ileaf_in m vol). Qed.

(** No two logical blocks share a data block. *)
Lemma ileaf_inj m vol fs i i' l l' : fs_ok m vol fs -> an_inode vol i -> an_inode vol i' -> 0 <= l -> 0 <= l' ->
  ileaf (itree fs i) l <> 0 -> ileaf (itree fs i) l = ileaf (itree fs i') l' -> i = i' /\ l = l'.
Proof.
  intros H Hi Hi' Hl Hl' Hne E. unfold ileaf in *.
  destruct (locate l) as [[j idx]|] eqn:E1; [|done]. destruct (locate l') as [[j' idx']|] eqn:E2; [|congruence].
  destruct (locate_bounds _ _ _ Hl E1) as [Hj Hb]. destruct (locate_bounds _ _ _ Hl' E2) as [Hj' Hb'].
  pose proof (itree_lookup _ _ _ _ _ H Hi Hj) as Ht. pose proof (itree_lookup _ _ _ _ _ H Hi' Hj') as Ht'.
  pose proof (ao_nodup _ _ _ (fs_alloc _ _ _ H)) as Hnd.
  assert (fs_index i j = fs_index i' j') as Ei.
  { apply (NoDup_apart fs _ _ _ _ (leaf (inode_level j) (itree fs i j) idx) Hnd Ht Ht'); [by apply leaf_in|].
    rewrite E. apply leaf_in. congruence. }
  assert (i = i' /\ j = j') as [<- <-] by (unfold fs_index, an_inode in *; lia).
  split; [done|]. apply (locate_inj l l' j idx Hl Hl' E1). rewrite E2. do 2 f_equal. symmetry.
  by apply (leaf_inj _ _ _ _ (NoDup_at _ _ _ Hnd Ht) Hb Hb').
Qed.

(** The bytes of the eleven pointers of an inode. *)
Definition in_pointers (vol : TrashfsVolume) (i x : Z) : Prop := rng (inode_ptr vol i + 16) 44 x.

(** A byte that is data or lies outside the tables: the only blocks it may be in are data
    blocks of files. *)
Definition file_data (vol : TrashfsVolume) (fs : list tree) (x : Z) : Prop :=
  forall b, data_block vol b -> in_block vol b x ->
    exists i lbn, an_inode vol i /\ 0 <= lbn /\ b = ileaf (itree fs i) lbn.

(** A data block is no pointer block. *)
Lemma ileaf_not_inner m vol fs i lbn k t : fs_ok m vol fs -> an_inode vol i -> 0 <= lbn -> ileaf (itree fs i) lbn <> 0 ->
  fs !! k = Some t -> ileaf (itree fs i) lbn ∉ inner (inode_level (k mod 11)) t.
Proof.
  intros H Hi Hl. unfold ileaf. destruct (locate lbn) as [[j idx]|] eqn:E; [|done]. intros Hne Hk Hin.
  destruct (locate_bounds _ _ _ Hl E) as [Hj _]. pose proof (itree_lookup _ _ _ _ _ H Hi Hj) as Ht.
  pose proof (ao_nodup _ _ _ (fs_alloc _ _ _ H)) as Hnd.
  assert (fs_index i j = k) as <- by (eapply (NoDup_apart fs _ _ _ _ _ Hnd Ht Hk); [by apply leaf_in|by eapply inner_sub]).
  rewrite Ht in Hk. injection Hk as <-. rewrite (proj2 (index_split i j Hj)) in Hin.
  by apply (leaf_not_inner _ _ _ (NoDup_at _ _ _ Hnd Ht) Hne).
Qed.

(** What the allocation of a logical block does to the volume. *)
Record mapped (m : mem) (vol : TrashfsVolume) (fs : list tree) (i lbn : Z) (m' : mem) (vol' : TrashfsVolume)
    (fs' : list tree) (r : Z) : Prop := {
  mp_ok : fs_ok m' vol' fs';
  mp_vol : vol' = set_free vol (free_blocks vol') (free_inodes vol);
  mp_leaf i' k : an_inode vol i' -> 0 <= k ->
    ileaf (itree fs' i') k = if decide (i' = i /\ k = lbn) then r else ileaf (itree fs i') k;
  mp_none : r = 0 -> ileaf (itree fs i) lbn = 0 /\ (free_blocks vol' = 0 \/ max_blocks <= lbn);
  mp_some : r <> 0 -> data_block vol r /\ (ileaf (itree fs i) lbn = r \/
    (ileaf (itree fs i) lbn = 0 /\ (r ∉ all_blocks fs) /\ forall x, in_block vol r x -> m' x = 0));
  mp_mem x : ~ in_bitmap vol x -> ~ in_pointers vol i x -> file_data vol fs x -> m x = m' x
}.

Lemma fs_level_at i j : (j < 11)%nat -> fs_level (fs_index i j) = inode_level j.
Proof. intros Hj. unfold fs_level. by rewrite (proj2 (index_split i j Hj)). Qed.

Lemma index_inj i j i' j' : 0 <= i -> 0 <= i' -> (j < 11)%nat -> (j' < 11)%nat -> fs_index i j = fs_index i' j' -> i = i' /\ j = j'.
Proof. unfold fs_index. intros. split; lia. Qed.

Lemma ileaf_insert vol fs i i' j lbn k idx t' r : an_inode vol i -> an_inode vol i' -> 0 <= lbn -> 0 <= k ->
  locate lbn = Some (j, idx) -> (fs_index i j < length fs)%nat ->
  (forall x, 0 <= x < pow32 (inode_level j) ->
     leaf (inode_level j) t' x = if x =? idx then r else leaf (inode_level j) (itree fs i j) x) ->
  ileaf (itree (<[fs_index i j := t']> fs) i') k = if decide (i' = i /\ k = lbn) then r else ileaf (itree fs i') k.
Proof.
  intros Hi Hi' Hl Hk El Hlt Hlf. destruct (locate_bounds _ _ _ Hl El) as [Hj Hidx]. unfold ileaf.
  destruct (locate k) as [[j' idx']|] eqn:Ek; [|case_decide as E; [destruct E as [_ ->]; congruence|done]].
  destruct (locate_bounds _ _ _ Hk Ek) as [Hj' Hidx']. unfold itree at 1. rewrite nth_insert_tree by done.
  destruct (decide (fs_index i j = fs_index i' j')) as [E|Hne].
  - destruct (index_inj _ _ _ _ (proj1 Hi) (proj1 Hi') Hj Hj' E) as [<- <-]. rewrite Hlf by done.
    destruct (Z.eqb_spec idx' idx) as [->|Hne].
    + rewrite decide_True; [done|]. split; [done|]. by apply (locate_inj k lbn j idx).
    + rewrite decide_False; [done|]. intros [_ ->]. congruence.
  - rewrite decide_False; [done|]. intros [-> ->]. apply Hne. congruence.
Qed.

Lemma bmap_alloc_mapped m vol fs i lbn : fs_ok m vol fs -> an_inode vol i -> 0 <= lbn ->
  let '(m', vol', r) := bmap_alloc m vol (inode_ptr vol i) lbn in exists fs', mapped m vol fs i lbn m' vol' fs' r.
Proof.
  intros H Hi Hl. rewrite bmap_alloc_eq by done. destruct (locate lbn) as [[j idx]|] eqn:El.
  2: { exists fs. split; try done; [by destruct vol| |].
       - intros i' k _ _. case_decide as E; [|done]. destruct E as [-> ->]. unfold ileaf. by rewrite El.
       - intros _. unfold ileaf. rewrite El. split; [done|]. right. by apply locate_none. }
  destruct (locate_bounds _ _ _ Hl El) as [Hj Hidx]. pose proof (itree_lookup _ _ _ _ _ H Hi Hj) as Ht.
  pose proof (ao_nodup _ _ _ (fs_alloc _ _ _ H)) as Hnd. set (t := itree fs i j) in *.
  pose proof (alloc_below_array (inode_level j) m vol (all_blocks fs) (fs_slot vol) fs_level fs (fs_index i j) t idx
    (alloc_at_all _) (fs_alloc _ _ _ H) (fs_rep _ _ _ H) Ht (fs_level_at i j Hj) Hnd (reflexivity _) (fs_array _ _ _ H) Hidx) as Hs.
  rewrite slot_at in Hs by (done || apply Hi).
  destruct (alloc_below _ _ _ _ _) as [[m' vol'] r]. destruct Hs as (t' & F & G & Harr).
  exists (<[fs_index i j := t']> fs). pose proof (index_lt _ _ _ _ _ H Hi Hj) as Hlt.
  assert (ileaf (itree fs i) lbn = leaf (inode_level j) t idx) as Eold by (unfold ileaf; by rewrite El).
  split.
  - split; [|rewrite length_insert, (fs_len _ _ _ H); by rewrite (gr_vol _ _ _ _ _ _ _ _ _ _ _ _ G)|].
    + rewrite (all_blocks_insert fs _ t t' F Ht (gr_blocks _ _ _ _ _ _ _ _ _ _ _ _ G)). apply (gr_alloc _ _ _ _ _ _ _ _ _ _ _ _ G).
    + rewrite (gr_vol _ _ _ _ _ _ _ _ _ _ _ _ G) in Harr |- *. exact Harr.
  - apply (gr_vol _ _ _ _ _ _ _ _ _ _ _ _ G).
  - intros i' k Hi' Hk. by apply (ileaf_insert vol fs i i' j lbn k idx t' r Hi Hi' Hl Hk El Hlt (gr_leaf _ _ _ _ _ _ _ _ _ _ _ _ G)).
  - intros ->. rewrite Eold. pose proof (gr_new _ _ _ _ _ _ _ _ _ _ _ _ G) as [Hn Hf]. auto.
  - intros Hr. pose proof (gr_new _ _ _ _ _ _ _ _ _ _ _ _ G) as Hn. rewrite (proj2 (Z.eqb_neq r 0) Hr) in Hn. rewrite Eold.
    pose proof (gr_alloc _ _ _ _ _ _ _ _ _ _ _ _ G) as GA. split.
    + pose proof (ao_data _ _ _ GA r) as Hd. rewrite (gr_vol _ _ _ _ _ _ _ _ _ _ _ _ G) in Hd. apply Hd, elem_of_app.
      destruct Hn as [<-|(_ & Hin & _)]; [right|by left]. rewrite <-Eold. apply (ileaf_in m vol); [done..|congruence].
    + destruct Hn as [|(H0 & Hin & Hz)]; [by left|right]. split; [done|]. split; [|done]. intros Ha.
      by apply (fresh_not_old _ _ _ _ r GA Hin).
  - intros x Hb Hp Hfd. apply (gr_mem _ _ _ _ _ _ _ _ _ _ _ _ G).
    pose proof (gr_alloc _ _ _ _ _ _ _ _ _ _ _ _ G) as GA. split; [split; [done|]|].
    + intros b HbF Hbx. pose proof (ao_data _ _ _ GA b) as Hd. rewrite (gr_vol _ _ _ _ _ _ _ _ _ _ _ _ G) in Hd.
      specialize (Hd (proj2 (elem_of_app _ _ _) (or_introl HbF))). destruct (Hfd b Hd Hbx) as (i2 & l2 & Hi2 & Hl2 & ->).
      pose proof (data_block_pos _ _ (ao_vol _ _ _ (fs_alloc _ _ _ H)) Hd) as Hpos.
      apply (fresh_not_old _ _ _ _ _ GA HbF), (ileaf_in m vol); [done..|lia].
    + intros [Hs|(d & Hd & Hdx)]; [apply Hp; unfold in_pointers, rng in *; lia|].
      assert (data_block vol d) as Hdd by (apply (ao_data _ _ _ (fs_alloc _ _ _ H)); apply (all_blocks_at _ _ _ Ht); by apply (inner_sub (inode_level j))).
      destruct (Hfd d Hdd Hdx) as (i2 & l2 & Hi2 & Hl2 & ->).
      pose proof (data_block_pos _ _ (ao_vol _ _ _ (fs_alloc _ _ _ H)) Hdd) as Hpos.
      apply (ileaf_not_inner m vol fs i2 l2 (fs_index i j) t H Hi2 Hl2 ltac:(lia) Ht). by rewrite (proj2 (index_split i j Hj)).
Qed.

(** ** Contents *)

(** The byte of inode [i] at offset [pos]: a hole reads as zero. *)
Definition fbyte (m : mem) (vol : TrashfsVolume) (fs : list tree) (i pos : Z) : Z :=
  let b := ileaf (itree fs i) (pos / 128) in
  if b =? 0 then 0 else m (block_ptr (v_region vol) b + pos mod 128).

Definition fbytes (m : mem) (vol : TrashfsVolume) (fs : list tree) (i pos n : Z) : list Z :=
  map (fun k => fbyte m vol fs i (pos + Z.of_nat k)) (seq 0 (Z.to_nat n)).

(** The bytes that hold the structure of the volume: the bitmap, the pointers of the
    inodes, and the pointer blocks. *)
Definition structure (vol : TrashfsVolume) (fs : list tree) (x : Z) : Prop :=
  in_bitmap vol x \/ (exists i, an_inode vol i /\ in_pointers vol i x) \/
  (exists k t b, fs !! k = Some t /\ b ∈ inner (fs_level k) t /\ in_block vol b x).

Lemma fs_ok_agree m m' vol fs : fs_ok m vol fs -> mem_ok m' -> mem_agree (structure vol fs) m m' -> fs_ok m' vol fs.
Proof.
  intros H Wm Hag. pose proof (ao_vol _ _ _ (fs_alloc _ _ _ H)) as W. split; [|apply (fs_len _ _ _ H)|].
  - apply (alloc_ok_agree m); [apply (fs_alloc _ _ _ H)|done|]. intros x Hx. apply Hag. by left.
  - intros k t Hk. destruct (fs_rep _ _ _ H k t Hk) as [Hr Hrep]. apply lookup_lt_Some in Hk as Hlt. split.
    + rewrite <-Hr. unfold rd32. symmetry. apply load32_agree. intros x Hx. apply Hag. right. left.
      rewrite (fs_len _ _ _ H) in Hlt. destruct (ptr_slot_inside vol k W Hlt) as (i & j & Hi & Hj & ->). exists i. split; [done|].
      rewrite slot_at in Hx by (done || apply Hi). unfold in_pointers, rng in *. lia.
    + apply (rep_agree_inner m); [done|]. intros b x Hb Hx. apply Hag. right. right. eauto 6.
Qed.

(** The bytes of a data block are not structure. *)
Lemma data_not_structure m vol fs i lbn x : fs_ok m vol fs -> an_inode vol i -> 0 <= lbn -> ileaf (itree fs i) lbn <> 0 ->
  in_block vol (ileaf (itree fs i) lbn) x -> ~ structure vol fs x.
Proof.
  intros H Hi Hl Hne Hx. pose proof (ao_vol _ _ _ (fs_alloc _ _ _ H)) as W. pose proof (ileaf_data _ _ _ _ _ H Hi Hl Hne) as Hd.
  intros [Hb|[(i2 & Hi2 & Hp)|(k & t & b & Hk & Hb & Hbx)]].
  - by apply (data_not_bitmap vol _ x W Hd).
  - apply (data_not_inodes vol _ x W Hd Hx), (inode_inside vol i2); [done|done|]. unfold in_pointers, rng in *. lia.
  - rewrite (in_block_inj vol b (ileaf (itree fs i) lbn) x) in Hb by done.
    by apply (ileaf_not_inner m vol fs i lbn k t).
Qed.

Lemma fbyte_agree m m' vol fs i pos : fs_ok m vol fs -> an_inode vol i -> 0 <= pos ->
  (forall x, in_block vol (ileaf (itree fs i) (pos / 128)) x -> ileaf (itree fs i) (pos / 128) <> 0 -> m x = m' x) ->
  fbyte m' vol fs i pos = fbyte m vol fs i pos.
Proof.
  intros H Hi Hp Hag. unfold fbyte. destruct (Z.eqb_spec (ileaf (itree fs i) (pos / 128)) 0) as [|Hne]; [done|].
  symmetry. apply Hag; [|done]. pose proof (Z.mod_pos_bound pos 128 ltac:(lia)). unfold in_block, rng. lia.
Qed.

(** Allocation changes no content. *)
Lemma fbyte_mapped m vol fs i lbn m' vol' fs' r i' pos : fs_ok m vol fs -> an_inode vol i -> 0 <= lbn ->
  mapped m vol fs i lbn m' vol' fs' r -> an_inode vol i' -> 0 <= pos -> fbyte m' vol' fs' i' pos = fbyte m vol fs i' pos.
Proof.
  intros H Hi Hl G Hi' Hp. pose proof (ao_vol _ _ _ (fs_alloc _ _ _ H)) as W. unfold fbyte. assert (0 <= pos / 128) as Hq by (by apply Z.div_pos).
  pose proof (Z.mod_pos_bound pos 128 ltac:(lia)) as Hm. rewrite (mp_vol _ _ _ _ _ _ _ _ _ G). cbn [v_region set_free].
  assert (forall b x, b = ileaf (itree fs i') (pos / 128) -> b <> 0 -> in_block vol b x -> m' x = m x) as Hsame.
  { intros b x -> Hne Hx. symmetry. pose proof (ileaf_data _ _ _ _ _ H Hi' Hq Hne) as Hd. apply (mp_mem _ _ _ _ _ _ _ _ _ G).
    - by apply (data_not_bitmap vol _ x W Hd).
    - intros Hpx. apply (data_not_inodes vol _ x W Hd Hx), (inode_inside vol i); [done|done|]. unfold in_pointers, rng in *. lia.
    - intros c Hc Hcx. exists i', (pos / 128). split; [done|]. split; [done|]. by apply (in_block_inj vol c _ x). }
  assert (forall b, in_block vol b (block_ptr (v_region vol) b + pos mod 128)) as Hin by (intros b; unfold in_block, rng; lia).
  rewrite (mp_leaf _ _ _ _ _ _ _ _ _ G) by done. case_decide as E.
  - destruct E as [E1 E2]. subst i' lbn. destruct (Z.eqb_spec r 0) as [Er|Hr].
    + by rewrite (proj1 (mp_none _ _ _ _ _ _ _ _ _ G Er)).
    + destruct (mp_some _ _ _ _ _ _ _ _ _ G Hr) as [_ [E|(E & _ & Hz)]].
      * rewrite E, (proj2 (Z.eqb_neq r 0) Hr). by apply (Hsame r).
      * rewrite E. cbn [Z.eqb]. by apply Hz.
  - destruct (Z.eqb_spec (ileaf (itree fs i') (pos / 128)) 0) as [|Hne]; [done|]. by apply (Hsame _ _ eq_refl).
Qed.

(** Writing into the data block of a logical block. *)
Lemma fbyte_write m vol fs i lbn boff bs i' pos : fs_ok m vol fs -> an_inode vol i -> 0 <= lbn -> ileaf (itree fs i) lbn <> 0 ->
  0 <= boff -> boff + Z.of_nat (length bs) <= 128 -> an_inode vol i' -> 0 <= pos ->
  fbyte (mem_write m (block_ptr (v_region vol) (ileaf (itree fs i) lbn) + boff) bs) vol fs i' pos =
  if decide (i' = i /\ lbn * 128 + boff <= pos < lbn * 128 + boff + Z.of_nat (length bs))
  then nth (Z.to_nat (pos - (lbn * 128 + boff))) bs 0 else fbyte m vol fs i' pos.
Proof.
  intros H Hi Hl Hne Hb Hlen Hi' Hp. set (r := ileaf (itree fs i) lbn) in *. assert (0 <= pos / 128) as Hq by (by apply Z.div_pos).
  pose proof (Z.mod_pos_bound pos 128 ltac:(lia)) as Hm. pose proof (Z.div_mod pos 128 ltac:(lia)) as Hdm. case_decide as E.
  - destruct E as [-> E]. assert (pos / 128 = lbn) as Eq by lia. unfold fbyte. rewrite Eq. fold r.
    rewrite (proj2 (Z.eqb_neq r 0) Hne). rewrite mem_write_in by (unfold rng; lia). f_equal. lia.
  - unfold fbyte. destruct (Z.eqb_spec (ileaf (itree fs i') (pos / 128)) 0) as [|Hne']; [done|].
    apply mem_write_out. intros Hr. apply E.
    destruct (ileaf_inj _ _ _ _ _ _ _ H Hi' Hi Hq Hl Hne') as [-> Eq].
    { fold r. unfold rng, block_ptr in Hr. tfs. lia. }
    split; [done|]. rewrite Eq in Hr. fold r in Hr. unfold rng in Hr. lia.
Qed.

Definition in_volume (vol : TrashfsVolume) (x : Z) : Prop := rng (v_region vol) (total_blocks vol * 128) x.

Lemma block_in_volume vol b x : vol_ok vol -> data_block vol b -> in_block vol b x -> in_volume vol x.
Proof.
  intros W Hd. pose proof (data_block_pos _ _ W Hd). destruct Hd. unfold in_block, in_volume, block_ptr, rng. tfs. nia.
Qed.

Lemma inodes_in_volume vol x : vol_ok vol -> in_inodes vol x -> in_volume vol x.
Proof. intros [? ? (H1 & H2 & H3) (H4 & H5 & H6) (H7 & H8)]. unfold in_inodes, in_volume, block_ptr, rng. tfs. nia. Qed.

Lemma structure_in_volume m vol fs x : fs_ok m vol fs -> structure vol fs x -> in_volume vol x.
Proof.
  intros H. pose proof (ao_vol _ _ _ (fs_alloc _ _ _ H)) as W. intros [Hb|[(i & Hi & Hp)|(k & t & b & Hk & Hb & Hbx)]].
  - destruct W as [? ? (H1 & H2 & H3) (H4 & H5 & H6) (H7 & H8)]. unfold in_bitmap, bitmap_of, in_volume, block_ptr, rng in *. rewrite H1 in Hb. tfs. nia.
  - apply (inodes_in_volume vol x W), (inode_inside vol i); [done|done|]. unfold in_pointers, rng in *. lia.
  - apply (block_in_volume vol b x W); [|done]. apply (ao_data _ _ _ (fs_alloc _ _ _ H)). apply (all_blocks_at _ _ _ Hk). by eapply inner_sub.
Qed.

(** A change outside the volume is no change of the volume. *)
Lemma fs_ok_outside m m' vol fs : fs_ok m vol fs -> mem_ok m' -> mem_agree (in_volume vol) m m' ->
  fs_ok m' vol fs /\ forall i pos, an_inode vol i -> 0 <= pos -> fbyte m' vol fs i pos = fbyte m vol fs i pos.
Proof.
  intros H Wm Hag. split.
  - apply (fs_ok_agree m); [done|done|]. intros x Hx. by apply Hag, (structure_in_volume m vol fs).
  - intros i pos Hi Hp. apply fbyte_agree; [done|done|done|]. intros x Hx Hne. apply Hag.
    apply (block_in_volume vol (ileaf (itree fs i) (pos / 128))); [apply (ao_vol _ _ _ (fs_alloc _ _ _ H))| |done].
    apply (ileaf_data m); [done|done|by apply Z.div_pos|done].
Qed.

(** ** Reading *)

Lemma fbytes_length m vol fs i pos n : length (fbytes m vol fs i pos n) = Z.to_nat n.
Proof. unfold fbytes. by rewrite length_map, length_seq. Qed.

Lemma fbytes_nth m vol fs i pos n k : (k < Z.to_nat n)%nat -> nth k (fbytes m vol fs i pos n) 0 = fbyte m vol fs i (pos + Z.of_nat k).
Proof. intros H. unfold fbytes. by rewrite nth_map_seq. Qed.

Lemma fbytes_ext m m' vol vol' fs fs' i pos n : (forall p, pos <= p < pos + n -> fbyte m' vol' fs' i p = fbyte m vol fs i p) ->
  fbytes m' vol' fs' i pos n = fbytes m vol fs i pos n.
Proof. intros H. apply map_seq_ext. intros k Hk. apply H. lia. Qed.

Lemma fbytes_app m vol fs i pos a b : 0 <= a -> 0 <= b ->
  fbytes m vol fs i pos (a + b) = fbytes m vol fs i pos a ++ fbytes m vol fs i (pos + a) b.
Proof.
  intros Ha Hb. apply (list_eq_nth 0); rewrite ?length_app, !fbytes_length; [lia|].
  intros k Hk. rewrite fbytes_nth by lia. destruct (decide (k < Z.to_nat a)%nat).
  - rewrite app_nth1 by (rewrite fbytes_length; lia). by rewrite fbytes_nth.
  - rewrite app_nth2 by (rewrite fbytes_length; lia). rewrite fbytes_length, fbytes_nth by lia. f_equal. lia.
Qed.

(** The bytes of one piece of a block. *)
Lemma fbytes_chunk m vol fs i pos chunk : 0 <= pos -> 0 <= chunk -> pos mod 128 + chunk <= 128 ->
  let b := ileaf (itree fs i) (pos / 128) in
  fbytes m vol fs i pos chunk =
    if b =? 0 then replicate (Z.to_nat chunk) (u8 0) else mem_read m (block_ptr (v_region vol) b + pos mod 128) chunk.
Proof.
  intros Hp Hc Hm b. unfold fbytes, mem_read. pose proof (Z.mod_pos_bound pos 128 ltac:(lia)) as Hb.
  pose proof (Z.div_mod pos 128 ltac:(lia)) as Hdm.
  assert (forall k, (k < Z.to_nat chunk)%nat -> (pos + Z.of_nat k) / 128 = pos / 128 /\ (pos + Z.of_nat k) mod 128 = pos mod 128 + Z.of_nat k) as Hk.
  { intros k Hk. split; [symmetry; apply (Z.div_unique_pos _ 128 _ (pos mod 128 + Z.of_nat k)); lia|].
    symmetry. apply (Z.mod_unique_pos _ 128 (pos / 128)); lia. }
  destruct (Z.eqb_spec b 0) as [E|E].
  - apply (list_eq_nth 0); rewrite length_map, length_seq; [by rewrite length_replicate|]. intros k Hlt.
    rewrite nth_map_seq by done. unfold fbyte. destruct (Hk k Hlt) as [-> _]. fold b. rewrite E. symmetry. apply nth_replicate_zero.
  - apply map_seq_ext. intros k Hlt. unfold fbyte. destruct (Hk k Hlt) as [-> ->]. fold b.
    rewrite (proj2 (Z.eqb_neq b 0) E). f_equal. lia.
Qed.

Lemma file_at_same f p : p = f_pos f -> file_at f p = f.
Proof. intros ->. by destruct f. Qed.

(** One turn of the reading loop copies one piece. *)
Lemma read_piece m vol fs i pos dst chunk : fs_ok m vol fs -> an_inode vol i -> 0 <= pos -> 0 <= chunk -> pos mod 128 + chunk <= 128 ->
  (forall x, rng dst chunk x -> ~ in_volume vol x) ->
  let blk := map_lbn m vol (inode_ptr vol i) (pos / 128) in
  let m' := if blk =? 0 then memset m dst 0 chunk else memcpy m dst (block_ptr (v_region vol) blk + pos mod 128) chunk in
  mem_ok m' /\ mem_read m' dst chunk = fbytes m vol fs i pos chunk /\ mem_frame dst chunk m m'.
Proof.
  intros H Hi Hp Hc Hm Hap blk m'. assert (mem_ok m) as Wm by apply (ao_mem _ _ _ (fs_alloc _ _ _ H)).
  rewrite (fbytes_chunk m vol fs i pos chunk) by done. subst m' blk.
  rewrite (fs_map_lbn m vol fs i (pos / 128) H Hi) by (by apply Z.div_pos). set (b := ileaf _ _).
  destruct (b =? 0); split_and!;
    [by apply memset_ok|by apply memset_read|by apply memset_frame|by apply memcpy_ok|by apply memcpy_read|by apply memcpy_frame].
Qed.

Lemma read_loop_spec vol fs buf n fuel : forall m f done, fs_ok m vol fs -> an_inode vol (f_inode f) -> 0 <= f_pos f ->
  0 <= done <= n -> n - done <= Z.of_nat fuel -> (forall x, rng buf n x -> ~ in_volume vol x) ->
  let k := Z.max 0 (Z.min (n - done) (f_size f - f_pos f)) in
  exists m', read_loop fuel m vol f buf n done = Some (m', file_at f (f_pos f + k), done + k) /\ mem_ok m' /\
    mem_read m' (buf + done) k = fbytes m vol fs (f_inode f) (f_pos f) k /\ mem_frame (buf + done) k m m'.
Proof.
  induction fuel as [|fuel IH]; intros m f done H Hi Hp Hd Hf Hap k.
  all: pose proof (ao_mem _ _ _ (fs_alloc _ _ _ H)) as Wm.
  all: cbn [read_loop]; destruct ((done <? n) && (f_pos f <? f_size f)) eqn:E; cbn [negb].
  all: try (assert (k = 0) as -> by (unfold k; apply andb_false_iff in E as [E|E]; apply Z.ltb_ge in E; lia);
    exists m; rewrite file_at_same, Z.add_0_r by lia; by split_and!).
  { apply andb_true_iff in E as [E _]. apply Z.ltb_lt in E. lia. }
  apply andb_true_iff in E as [E1%Z.ltb_lt E2%Z.ltb_lt]. tfs. pose proof (Z.mod_pos_bound (f_pos f) 128 ltac:(lia)) as Hm.
  set (c0 := if n - done <? 128 - f_pos f mod 128 then n - done else 128 - f_pos f mod 128).
  set (chunk := if f_size f - f_pos f <? c0 then f_size f - f_pos f else c0).
  assert (0 < chunk <= k /\ f_pos f mod 128 + chunk <= 128) as [Hc Hc2].
  { unfold chunk, c0, k. destruct (Z.ltb_spec (n - done) (128 - f_pos f mod 128)), (Z.ltb_spec (f_size f - f_pos f) c0); unfold c0 in *; 
      repeat case_match; lia. }
  pose proof (read_piece m vol fs (f_inode f) (f_pos f) (buf + done) chunk H Hi Hp ltac:(lia) Hc2) as Hpiece.
  cbv zeta in Hpiece. set (m1 := if _ =? 0 then _ else _) in *.
  destruct Hpiece as (Wm1 & Hr1 & Hf1); [intros x Hx; apply Hap; unfold rng, k in *; lia|].
  assert (mem_agree (in_volume vol) m m1) as Hag by (intros x Hx; apply Hf1; intros Hr; apply (Hap x); [unfold rng, k in *; lia|done]).
  destruct (fs_ok_outside m m1 vol fs H Wm1 Hag) as [H1 Hsame].
  destruct (IH m1 (file_at f (f_pos f + chunk)) (done + chunk)) as (m' & -> & Wm' & Hr' & Hf'); try done; cbn [file_at f_pos f_inode f_size] in *; try lia.
  replace (Z.max 0 (Z.min (n - (done + chunk)) (f_size f - (f_pos f + chunk)))) with (k - chunk) in * by lia.
  exists m'. split_and!; [do 2 f_equal; [f_equal; unfold file_at; cbn; f_equal|]; lia|done| |].
  - replace k with (chunk + (k - chunk)) by lia. rewrite mem_read_app, fbytes_app by lia. f_equal.
    + rewrite <-Hr1. apply (mem_read_frame _ _ _ _ _ _ Hf'). unfold rdisj. lia.
    + rewrite <-Z.add_assoc, Hr'. apply fbytes_ext. intros p Hp'. apply Hsame; [done|lia].
  - intros x Hx. rewrite (Hf1 x) by (unfold rng in *; lia). apply Hf'. unfold rng in *. lia.
Qed.

(** ** Writing *)

(** [k] bytes from [src] are now at [pos] in inode [i]; the other bytes of all files, the
    headers of the inodes and all memory outside the volume are as before. *)
Record wrote (src i pos k : Z) (m : mem) (vol : TrashfsVolume) (fs : list tree) (m' : mem) (vol' : TrashfsVolume)
    (fs' : list tree) : Prop := {
  wr_ok : fs_ok m' vol' fs';
  wr_vol : vol' = set_free vol (free_blocks vol') (free_inodes vol);
  wr_bytes i' p : an_inode vol i' -> 0 <= p ->
    fbyte m' vol' fs' i' p = if decide (i' = i /\ pos <= p < pos + k) then m (src + (p - pos)) else fbyte m vol fs i' p;
  wr_out x : ~ in_volume vol x -> m' x = m x;
  wr_head i' x : an_inode vol i' -> rng (inode_ptr vol i') 64 x -> ~ in_pointers vol i x -> m' x = m x;
  wr_super x : rng (v_region vol) 128 x -> m' x = m x
}.

Lemma wrote_trans src i pos k k' m vol fs m1 vol1 fs1 m2 vol2 fs2 : 0 <= k -> 0 <= k' ->
  (forall x, rng src (k + k') x -> ~ in_volume vol x) ->
  wrote src i pos k m vol fs m1 vol1 fs1 -> wrote (src + k) i (pos + k) k' m1 vol1 fs1 m2 vol2 fs2 ->
  wrote src i pos (k + k') m vol fs m2 vol2 fs2.
Proof.
  intros Hk Hk' Hap [A1 A2 A3 A4 A5 A6] [B1 B2 B3 B4 B5 B6]. rewrite A2 in B3, B4, B5, B6.
  change (free_inodes (set_free vol (free_blocks vol1) (free_inodes vol))) with (free_inodes vol) in *.
  split; [done|by rewrite B2, A2| | | |].
  - intros i' p Hi Hp. rewrite (B3 i' p Hi Hp).
    assert (fbyte m1 (set_free vol (free_blocks vol1) (free_inodes vol)) fs1 i' p = fbyte m1 vol1 fs1 i' p) as -> by (by rewrite <-A2).
    rewrite (A3 i' p Hi Hp). destruct (decide (i' = i)) as [->|Hne].
    2: { rewrite !decide_False; [done|tauto..]. }
    destruct (decide (pos <= p < pos + k)); [|destruct (decide (pos + k <= p < pos + k + k'))].
    + rewrite decide_False, !decide_True by lia. done.
    + rewrite !decide_True by lia. rewrite A4 by (apply Hap; unfold rng; lia). f_equal. lia.
    + rewrite !decide_False by lia. done.
  - intros x Hx. rewrite (B4 x Hx). by apply A4.
  - intros i' x Hi Hx Hp. rewrite (B5 i' x Hi Hx Hp). by apply (A5 i').
  - intros x Hx. rewrite (B6 x Hx). by apply A6.
Qed.

Lemma wrote_nothing src i pos m vol fs : fs_ok m vol fs -> wrote src i pos 0 m vol fs m vol fs.
Proof. intros H. split; try done; [by destruct vol|]. intros i' p _ _. by rewrite decide_False by lia. Qed.

Lemma header_place vol i' i x : vol_ok vol -> an_inode vol i -> an_inode vol i' -> rng (inode_ptr vol i') 16 x ->
  ~ in_bitmap vol x /\ ~ in_pointers vol i x /\ in_inodes vol x.
Proof.
  intros W Hi Hi' Hx. assert (in_inodes vol x) as Hin by (apply (inode_inside vol i'); [done|done|unfold rng in *; lia]).
  split; [by apply inodes_not_bitmap|]. split; [|done]. rewrite (inode_ptr_eq vol i') in Hx by done.
  unfold in_pointers. rewrite (inode_ptr_eq vol i) by done. unfold rng, an_inode in *. lia.
Qed.

Lemma table_place vol i x : vol_ok vol -> an_inode vol i -> rng (inode_ptr vol i) 64 x -> ~ in_bitmap vol x /\ in_inodes vol x.
Proof.
  intros W Hi Hx. assert (in_inodes vol x) as Hin by (by apply (inode_inside vol i)). split; [by apply inodes_not_bitmap|done].
Qed.

(** The pointers of an inode lie in its own part of the table, past the header. *)
Lemma pointers_place vol i i' x : vol_ok vol -> an_inode vol i -> an_inode vol i' -> rng (inode_ptr vol i') 64 x ->
  in_pointers vol i x -> i' = i /\ ~ rng (inode_ptr vol i) 16 x.
Proof.
  intros W Hi Hi' Hx Hp. unfold in_pointers in Hp. rewrite !(inode_ptr_eq vol) in * by done. unfold rng, an_inode in *. split; lia.
Qed.

Lemma super_place vol i x : vol_ok vol -> an_inode vol i -> rng (v_region vol) 128 x ->
  ~ in_bitmap vol x /\ ~ in_pointers vol i x /\ (forall b, data_block vol b -> ~ in_block vol b x).
Proof.
  intros W Hi Hx. pose proof W as [? ? (H1 & H2 & H3) (H4 & H5 & H6) (H7 & H8)]. split_and!.
  - unfold in_bitmap, bitmap_of, block_ptr, rng in *. rewrite H1. tfs. lia.
  - unfold in_pointers. rewrite (inode_ptr_eq vol i) by done. unfold block_ptr, rng, an_inode in *. tfs. lia.
  - intros b [Hb _]. unfold in_block, block_ptr, rng in *. tfs. lia.
Qed.

(** Allocation alone writes no byte of any file. *)
Lemma mapped_wrote src pos m vol fs i lbn m' vol' fs' r : fs_ok m vol fs -> an_inode vol i -> 0 <= lbn ->
  mapped m vol fs i lbn m' vol' fs' r -> wrote src i pos 0 m vol fs m' vol' fs'.
Proof.
  intros H Hi Hl G. pose proof (ao_vol _ _ _ (fs_alloc _ _ _ H)) as W. split.
  - apply (mp_ok _ _ _ _ _ _ _ _ _ G).
  - apply (mp_vol _ _ _ _ _ _ _ _ _ G).
  - intros i' p Hi' Hp. rewrite decide_False by lia. by apply (fbyte_mapped m vol fs i lbn m' vol' fs' r).
  - intros x Hx. symmetry. apply (mp_mem _ _ _ _ _ _ _ _ _ G).
    + intros Hb. apply Hx, (structure_in_volume m vol fs); [done|by left].
    + intros Hp. apply Hx, (structure_in_volume m vol fs); [done|right; left; by exists i].
    + intros b Hb Hbx. exfalso. apply Hx. by apply (block_in_volume vol b).
  - intros i' x Hi' Hx H2. destruct (table_place vol i' x W Hi' Hx) as (H1 & H3). symmetry.
    apply (mp_mem _ _ _ _ _ _ _ _ _ G); [done|done|]. intros b Hb Hbx. exfalso. by apply (data_not_inodes vol b x).
  - intros x Hx. destruct (super_place vol i x W Hi Hx) as (H1 & H2 & H3). symmetry.
    apply (mp_mem _ _ _ _ _ _ _ _ _ G); [done|done|]. intros b Hb Hbx. exfalso. by apply (H3 b).
Qed.

(** Bytes put into the data block of a logical block. *)
Lemma put_wrote src m vol fs i pos k : fs_ok m vol fs -> an_inode vol i -> 0 <= pos -> 0 <= k -> pos mod 128 + k <= 128 ->
  let b := ileaf (itree fs i) (pos / 128) in b <> 0 ->
  wrote src i pos k m vol fs (memcpy m (block_ptr (v_region vol) b + pos mod 128) src k) vol fs.
Proof.
  intros H Hi Hp Hk Hm b Hb. pose proof (ao_vol _ _ _ (fs_alloc _ _ _ H)) as W. assert (0 <= pos / 128) as Hq by (by apply Z.div_pos).
  pose proof (Z.mod_pos_bound pos 128 ltac:(lia)) as Hmb. pose proof (Z.div_mod pos 128 ltac:(lia)) as Hdm.
  pose proof (ileaf_data _ _ _ _ _ H Hi Hq Hb) as Hd.
  set (m' := memcpy m _ src k). assert (mem_agree (fun x => ~ in_block vol b x) m m') as Hag.
  { intros x Hx. apply (memcpy_frame m (block_ptr (v_region vol) b + pos mod 128) src k Hk). intros Hr. apply Hx. unfold in_block, rng in *. lia. }
  assert (Z.of_nat (length (mem_read m src k)) = k) as Hlen by (rewrite mem_read_length; lia).
  split; [|by destruct vol| | | |].
  - apply (fs_ok_agree m); [done|apply memcpy_ok, (ao_mem _ _ _ (fs_alloc _ _ _ H))|].
    intros x Hx. apply Hag. intros Hbx. by apply (data_not_structure m vol fs i (pos / 128) x).
  - intros i' p Hi' Hp'. unfold m', memcpy. rewrite (fbyte_write m vol fs i (pos / 128) (pos mod 128)) by (done || lia). rewrite Hlen.
    replace (pos / 128 * 128 + pos mod 128) with pos by lia. destruct (decide (i' = i /\ pos <= p < pos + k)) as [[_ E]|]; [|done].
    rewrite mem_read_nth by lia. f_equal. lia.
  - intros x Hx. symmetry. apply Hag. intros Hbx. apply Hx. by apply (block_in_volume vol b).
  - intros i' x Hi' Hx _. symmetry. apply Hag. intros Hbx. destruct (table_place vol i' x W Hi' Hx) as (_ & H3).
    by apply (data_not_inodes vol b x).
  - intros x Hx. symmetry. apply Hag. intros Hbx. by apply (proj2 (proj2 (super_place vol i x W Hi Hx)) b).
Qed.

(** One turn of the writing loop. *)
Lemma write_piece src m vol fs i pos k : fs_ok m vol fs -> an_inode vol i -> 0 <= pos -> 0 <= k -> pos mod 128 + k <= 128 ->
  (forall x, rng src k x -> ~ in_volume vol x) ->
  let '(m1, vol1, b) := bmap_alloc m vol (inode_ptr vol i) (pos / 128) in exists fs',
    if b =? 0 then wrote src i pos 0 m vol fs m1 vol1 fs' /\ (free_blocks vol1 = 0 \/ max_blocks <= pos / 128)
    else wrote src i pos k m vol fs (memcpy m1 (block_ptr (v_region vol1) b + pos mod 128) src k) vol1 fs' /\ pos / 128 < max_blocks.
Proof.
  intros H Hi Hp Hk Hm Hap. assert (0 <= pos / 128) as Hq by (by apply Z.div_pos).
  pose proof (bmap_alloc_mapped m vol fs i (pos / 128) H Hi Hq) as Hg.
  destruct (bmap_alloc m vol (inode_ptr vol i) (pos / 128)) as [[m1 vol1] b]. destruct Hg as [fs' G]. exists fs'.
  pose proof (mapped_wrote src pos _ _ _ _ _ _ _ _ _ H Hi Hq G) as W1. destruct (Z.eqb_spec b 0) as [E|Hb].
  - split; [done|]. by apply (mp_none _ _ _ _ _ _ _ _ _ G).
  - assert (ileaf (itree fs' i) (pos / 128) = b) as Eb by (rewrite (mp_leaf _ _ _ _ _ _ _ _ _ G) by done; by rewrite decide_True).
    assert (an_inode vol1 i) as Hi1 by (by rewrite (mp_vol _ _ _ _ _ _ _ _ _ G)).
    split.
    + pose proof (put_wrote src m1 vol1 fs' i pos k (mp_ok _ _ _ _ _ _ _ _ _ G) Hi1 Hp Hk Hm) as W2. cbv zeta in W2. rewrite Eb in W2.
      apply (wrote_trans src i pos 0 k m vol fs m1 vol1 fs'); [lia|lia|done|done|]. rewrite !Z.add_0_r. by apply W2.
    + destruct (Z.lt_ge_cases (pos / 128) max_blocks) as [|Hge]; [done|]. exfalso. apply Hb. rewrite <-Eb. unfold ileaf.
      by rewrite (proj2 (locate_none _ Hq) Hge).
Qed.

(** The handle after [k] bytes were written. *)
Definition file_wrote (f : TrashfsFile) (k : Z) : TrashfsFile :=
  if k =? 0 then f else mkFile (f_inode f) (Z.max (f_size f) (f_pos f + k)) (f_pos f + k) (f_is_dir f) (f_open f).

Lemma file_wrote_twice f c k : 0 < c -> 0 <= k -> file_wrote (file_wrote f c) k = file_wrote f (c + k).
Proof.
  intros Hc Hk. unfold file_wrote at 2. rewrite (proj2 (Z.eqb_neq c 0)) by lia. unfold file_wrote.
  rewrite (proj2 (Z.eqb_neq (c + k) 0)) by lia. destruct (Z.eqb_spec k 0) as [->|]; cbn; f_equal; lia.
Qed.

Lemma wrote_same src i pos k m vol fs m' vol' fs' : wrote src i pos k m vol fs m' vol' fs' ->
  (forall j, an_inode vol' j <-> an_inode vol j) /\ (forall x, in_volume vol' x <-> in_volume vol x).
Proof. intros G. rewrite (wr_vol _ _ _ _ _ _ _ _ _ _ G). done. Qed.

Lemma write_loop_spec src n fuel : forall m vol fs f done, fs_ok m vol fs -> an_inode vol (f_inode f) -> 0 <= f_pos f ->
  0 <= done <= n -> n - done <= Z.of_nat fuel -> (forall x, rng src n x -> ~ in_volume vol x) ->
  exists m' vol' fs' k, 0 <= k <= n - done /\
    write_loop fuel m vol f src n done = Some (m', vol', file_wrote f k, done + k) /\
    wrote (src + done) (f_inode f) (f_pos f) k m vol fs m' vol' fs' /\
    (k < n - done -> free_blocks vol' = 0 \/ max_blocks <= (f_pos f + k) / 128) /\ (k = 0 \/ f_pos f + k < 2 ^ 32).
Proof.
  induction fuel as [|fuel IH]; intros m vol fs f done H Hi Hp Hd Hf Hap.
  all: cbn [write_loop]; destruct (Z.ltb_spec done n) as [Hlt|Hge]; cbn [negb]; try lia.
  all: try (exists m, vol, fs, 0; rewrite Z.add_0_r; split_and!; [lia|lia|done|by apply wrote_nothing|lia|by left]).
  tfs. pose proof (Z.mod_pos_bound (f_pos f) 128 ltac:(lia)) as Hm.
  set (chunk := if n - done <? 128 - f_pos f mod 128 then n - done else 128 - f_pos f mod 128).
  assert (0 < chunk <= n - done /\ f_pos f mod 128 + chunk <= 128) as [Hc Hc2].
  { unfold chunk. destruct (Z.ltb_spec (n - done) (128 - f_pos f mod 128)); lia. }
  pose proof (write_piece (src + done) m vol fs (f_inode f) (f_pos f) chunk H Hi Hp ltac:(lia) Hc2) as Hw.
  destruct (bmap_alloc m vol (inode_ptr vol (f_inode f)) (f_pos f / 128)) as [[m1 vol1] b].
  destruct Hw as [fs1 Hw]; [intros x Hx; apply Hap; unfold rng in *; lia|].
  destruct (b =? 0).
  { destruct Hw as [Hw Hfull]. exists m1, vol1, fs1, 0. rewrite !Z.add_0_r. split_and!; try done; [lia|by left]. }
  destruct Hw as [Hw Hmax]. destruct (wrote_same _ _ _ _ _ _ _ _ _ _ Hw) as [Hin Hvx].
  assert (0 < f_pos f + chunk < 2 ^ 32) as Hb.
  { unfold max_blocks in Hmax. pose proof (Z.div_mod (f_pos f) 128 ltac:(lia)). lia. }
  rewrite (u32_small (f_pos f + chunk)) by (unfold is_u32; lia).
  assert (mkFile (f_inode f) (if f_size f <? f_pos f + chunk then f_pos f + chunk else f_size f) (f_pos f + chunk) (f_is_dir f) (f_open f)
    = file_wrote f chunk) as ->.
  { unfold file_wrote. rewrite (proj2 (Z.eqb_neq chunk 0)) by lia. f_equal. destruct (Z.ltb_spec (f_size f) (f_pos f + chunk)); lia. }
  assert (f_inode (file_wrote f chunk) = f_inode f /\ f_pos (file_wrote f chunk) = f_pos f + chunk) as [Ei Ep].
  { unfold file_wrote. by rewrite (proj2 (Z.eqb_neq chunk 0)) by lia. }
  destruct (IH _ vol1 fs1 (file_wrote f chunk) (done + chunk) (wr_ok _ _ _ _ _ _ _ _ _ _ Hw)) as (m' & vol' & fs' & k & Hk & -> & Hw' & Hs & Hb').
  1-5: rewrite ?Ei, ?Ep; try lia; first [by apply Hin | intros x Hx Hv; by apply (Hap x Hx), Hvx].
  rewrite Ei, Ep in Hw'. rewrite Ep in Hs, Hb'. exists m', vol', fs', (chunk + k). split_and!; [lia|lia| | | |right; lia].
  - rewrite file_wrote_twice by lia. by rewrite Z.add_assoc.
  - eapply (wrote_trans _ _ _ chunk k m vol fs _ vol1 fs1); [lia|lia|intros x Hx; apply Hap; unfold rng in *; lia|exact Hw|].
    by rewrite <-Z.add_assoc.
  - intros Hk'. rewrite Z.add_assoc. apply Hs. lia.
Qed.

(** ** The calls *)

(** The size that an inode records, and a handle in use on a well-formed volume. *)
Definition isize (m : mem) (vol : TrashfsVolume) (i : Z) : Z := rd32 m (inode_ptr vol i + 4).

Record file_ok (vol : TrashfsVolume) (f : TrashfsFile) : Prop := {
  fo_open : f_open f = true;
  fo_inode : an_inode vol (f_inode f);
  fo_pos : is_u32 (f_pos f);
  fo_size : is_u32 (f_size f)
}.

(** [trashfs_read] returns the bytes of the file from the position on, as many as were
    asked for or as there are before the end, and advances the position; it changes
    nothing but the buffer. *)
Lemma read_spec m vol fs f buf n : fs_ok m vol fs -> file_ok vol f -> buf <> 0 -> 0 <= n ->
  (forall x, rng buf n x -> ~ in_volume vol x) ->
  let k := Z.max 0 (Z.min n (f_size f - f_pos f)) in
  exists m', trashfs_read m vol f buf n = Some (m', file_at f (f_pos f + k), k, TRASHFS_OK) /\
    fs_ok m' vol fs /\ mem_read m' buf k = fbytes m vol fs (f_inode f) (f_pos f) k /\ mem_frame buf k m m'.
Proof.
  intros H [Ho Hi Hp Hs] Hb Hn Hap k. unfold trashfs_read. rewrite Ho, (proj2 (Z.eqb_neq buf 0) Hb). cbn [negb orb].
  destruct (read_loop_spec vol fs buf n (Z.to_nat n) m f 0) as (m' & -> & Wm & Hr & Hf); [done|done|apply Hp|lia|lia|done|].
  rewrite Z.sub_0_r, !Z.add_0_r, Z.add_0_l in *. fold k in Hr, Hf |- *. exists m'. split; [done|]. split; [|done].
  apply (fs_ok_outside m); [done|done|]. intros x Hx. apply Hf. intros Hr'. apply (Hap x); [unfold rng, k in *; lia|done].
Qed.

(** The header of an inode is not structure, and its size and time are not data. *)
Lemma header_change m m' vol fs i : fs_ok m vol fs -> an_inode vol i -> mem_ok m' -> mem_frame (inode_ptr vol i) 16 m m' ->
  fs_ok m' vol fs /\ (forall i' p, an_inode vol i' -> 0 <= p -> fbyte m' vol fs i' p = fbyte m vol fs i' p) /\
  (forall x, ~ in_volume vol x -> m' x = m x) /\ (forall x, rng (v_region vol) 128 x -> m' x = m x).
Proof.
  intros H Hi Wm Hag. pose proof (ao_vol _ _ _ (fs_alloc _ _ _ H)) as W.
  split_and!.
  - apply (fs_ok_agree m); [done|done|]. intros x Hs. apply Hag. intros Hx.
    destruct (header_place vol i i x W Hi Hi Hx) as (Hb & Hp & Hin). destruct Hs as [|[(i2 & Hi2 & Hp2)|(k & t & b & Hk & Hbi & Hbx)]]; [done|..].
    + rewrite inode_ptr_eq in Hx by done. unfold in_pointers in Hp2. rewrite inode_ptr_eq in Hp2 by done. unfold rng in *. lia.
    + apply (data_not_inodes vol b x W); [|done|done]. apply (ao_data _ _ _ (fs_alloc _ _ _ H)), (all_blocks_at _ _ _ Hk). by eapply inner_sub.
  - intros i' p Hi' Hp. apply fbyte_agree; [done|done|done|]. intros x Hx Hne. apply Hag. intros Hr.
    destruct (header_place vol i i x W Hi Hi Hr) as (_ & _ & Hin).
    assert (0 <= p / 128) as Hq by (by apply Z.div_pos).
    apply (data_not_inodes vol _ x W (ileaf_data _ _ _ _ _ H Hi' Hq Hne) Hx Hin).
  - intros x Hx. symmetry. apply Hag. intros Hr. apply Hx, (inodes_in_volume vol x W). by apply (header_place vol i i x W Hi Hi Hr).
  - intros x Hx. symmetry. apply Hag. intros Hr. rewrite inode_ptr_eq in Hr by done. destruct W as [? ? (H1 & H2 & H3) (H4 & H5 & H6) (H7 & H8)].
    unfold block_ptr, rng, an_inode in *. tfs. lia.
Qed.

Lemma header_write m vol fs i off v : fs_ok m vol fs -> an_inode vol i -> 0 <= off <= 12 ->
  let m' := wr32 m (inode_ptr vol i + off) v in
  fs_ok m' vol fs /\ (forall i' p, an_inode vol i' -> 0 <= p -> fbyte m' vol fs i' p = fbyte m vol fs i' p) /\
  (forall x, ~ in_volume vol x -> m' x = m x) /\ (forall x, rng (v_region vol) 128 x -> m' x = m x).
Proof.
  intros H Hi Ho m'. apply (header_change m m' vol fs i); [done|done|apply store32_ok, (ao_mem _ _ _ (fs_alloc _ _ _ H))|].
  intros x Hx. apply wr32_agree. intros Hr. apply Hx. unfold rng in *. lia.
Qed.

Lemma isize_wr m vol i i' v : vol_ok vol -> an_inode vol i -> an_inode vol i' ->
  isize (wr32 m (inode_ptr vol i + 4) v) vol i' = (if decide (i' = i) then u32 v else isize m vol i') /\
  isize (wr32 m (inode_ptr vol i + 12) v) vol i' = isize m vol i'.
Proof.
  intros W Hi Hi'. unfold isize, rd32, wr32. case_decide as E.
  - subst. rewrite load32_store32_eq. split; [done|]. apply load32_store32_disj. unfold rdisj. lia.
  - rewrite !(inode_ptr_eq vol) by done. unfold an_inode in *. split; apply load32_store32_disj; unfold rdisj; lia.
Qed.

Lemma mode_wr m vol i i' off v : vol_ok vol -> an_inode vol i -> an_inode vol i' -> 2 <= off <= 12 ->
  rd16 (wr32 m (inode_ptr vol i + off) v) (inode_ptr vol i') = rd16 m (inode_ptr vol i').
Proof.
  intros W Hi Hi' Ho. unfold rd16, wr32. symmetry. apply load16_agree. intros x Hx. apply store32_frame.
  rewrite !(inode_ptr_eq vol) in * by done. unfold rng, an_inode in *. lia.
Qed.

(** What a write does. *)
Record written_to (buf n now : Z) (m : mem) (vol : TrashfsVolume) (fs : list tree) (f : TrashfsFile) (m' : mem)
    (vol' : TrashfsVolume) (f' : TrashfsFile) (done : Z) (fs' : list tree) : Prop := {
  wt_ok : fs_ok m' vol' fs' /\ vol' = set_free vol (free_blocks vol') (free_inodes vol);
  wt_count : 0 <= done <= n /\ f' = file_wrote f done;
  wt_bytes i p : an_inode vol i -> 0 <= p ->
    fbyte m' vol' fs' i p =
    if decide (i = f_inode f /\ f_pos f <= p < f_pos f + done) then m (buf + (p - f_pos f)) else fbyte m vol fs i p;
  wt_size i : an_inode vol i -> isize m' vol' i = if decide (i = f_inode f) then f_size f' else isize m vol i;
  wt_mode i : an_inode vol i -> rd16 m' (inode_ptr vol i) = rd16 m (inode_ptr vol i);
  wt_table i x : an_inode vol i -> i <> f_inode f -> rng (inode_ptr vol i) 64 x -> m' x = m x;
  wt_full : done < n -> free_blocks vol' = 0 \/ max_blocks <= (f_pos f + done) / 128;
  wt_out x : ~ in_volume vol x -> m' x = m x;
  wt_super x : rng (v_region vol) 128 x -> m' x = m x
}.

Lemma file_wrote_ok vol f k : file_ok vol f -> 0 <= k -> f_pos f + k < 2 ^ 32 ->
  file_ok vol (file_wrote f k).
Proof.
  intros [H1 H2 H3 H4] Hk Hb. unfold file_wrote. destruct (k =? 0); split; cbn; try done; unfold is_u32 in *; lia.
Qed.

Lemma write_spec m vol fs f buf n now : fs_ok m vol fs -> file_ok vol f -> f_is_dir f = false -> buf <> 0 -> 0 <= n ->
  (forall x, rng buf n x -> ~ in_volume vol x) ->
  exists m' vol' f' done fs',
    trashfs_write m vol f buf n now =
      Some (m', vol', f', done, if (done =? 0) && (0 <? n) then TRASHFS_ERR_NO_SPACE else TRASHFS_OK) /\
    written_to buf n now m vol fs f m' vol' f' done fs'.
Proof.
  intros H F Hd Hb Hn Hap. pose proof F as [Ho Hi Hp Hs]. unfold trashfs_write. rewrite Ho, (proj2 (Z.eqb_neq buf 0) Hb), Hd. cbn [negb orb].
  destruct (write_loop_spec buf n (Z.to_nat n) m vol fs f 0 H Hi ltac:(apply Hp) ltac:(lia) ltac:(lia) Hap)
    as (m1 & vol1 & fs1 & k & Hk & -> & G & Hfull & Hbd).
  rewrite Z.sub_0_r, ?Z.add_0_l, ?Z.add_0_r in *. cbn [mbind option_bind].
  destruct (wrote_same _ _ _ _ _ _ _ _ _ _ G) as [Hin Hvx]. pose proof (wr_ok _ _ _ _ _ _ _ _ _ _ G) as H1.
  pose proof (ao_vol _ _ _ (fs_alloc _ _ _ H1)) as W1. assert (f_inode (file_wrote f k) = f_inode f) as Ei by (unfold file_wrote; by destruct (k =? 0)).
  rewrite Ei. apply Hin in Hi as Hi1.
  destruct (header_write m1 vol1 fs1 (f_inode f) 4 (f_size (file_wrote f k)) H1 Hi1 ltac:(lia)) as (H2 & B2 & O2 & S2).
  set (m2 := wr32 m1 _ _) in *.
  destruct (header_write m2 vol1 fs1 (f_inode f) 12 now H2 Hi1 ltac:(lia)) as (H3 & B3 & O3 & S3). set (m3 := wr32 m2 _ _) in *.
  pose proof (ao_vol _ _ _ (fs_alloc _ _ _ H)) as W.
  assert (forall i x, an_inode vol i -> rng (inode_ptr vol i) 16 x -> m1 x = m x) as Hhead.
  { intros i x Hi' Hx. apply (wr_head _ _ _ _ _ _ _ _ _ _ G i x Hi'); [unfold rng in *; lia|]. intros Hp'.
    destruct (pointers_place vol (f_inode f) i x W Hi Hi' ltac:(unfold rng in *; lia) Hp') as [-> Hn']. done. }
  exists m3, vol1, (file_wrote f k), k, fs1. split; [done|]. split.
  - split; [done|apply (wr_vol _ _ _ _ _ _ _ _ _ _ G)].
  - done.
  - intros i p Hi' Hp'. apply Hin in Hi' as Hi1'. rewrite B3, B2 by done. apply (wr_bytes _ _ _ _ _ _ _ _ _ _ G); done.
  - intros i Hi'. apply Hin in Hi' as Hi1'. unfold m3. rewrite (proj2 (isize_wr m2 vol1 (f_inode f) i now W1 Hi1 Hi1')).
    unfold m2. rewrite (proj1 (isize_wr m1 vol1 (f_inode f) i _ W1 Hi1 Hi1')). case_decide as E.
    + apply u32_small. unfold file_wrote. destruct (Z.eqb_spec k 0) as [|Hk0]; [done|]. cbn.
      unfold is_u32 in *. lia.
    + unfold isize, rd32. rewrite (wr_vol _ _ _ _ _ _ _ _ _ _ G). symmetry. apply load32_agree. intros x Hx. symmetry.
      apply (Hhead i x Hi'). change (rng (inode_ptr vol i + 4) 4 x) in Hx. unfold rng in *. lia.
  - intros i Hi'. apply Hin in Hi' as Hi1'. assert (inode_ptr vol1 = inode_ptr vol) as Ep by (by rewrite (wr_vol _ _ _ _ _ _ _ _ _ _ G)).
    rewrite <-Ep. unfold m3, m2. rewrite !mode_wr by (done || lia). rewrite Ep. unfold rd16. symmetry. apply load16_agree. intros x Hx. symmetry.
    apply (Hhead i x Hi'). unfold rng in *. lia.
  - intros i x Hi' Hne Hx. assert (forall a, rng (inode_ptr vol1 (f_inode f) + a) 4 x -> 0 <= a <= 60 -> False) as Hout.
    { intros a Ha Hab. rewrite (wr_vol _ _ _ _ _ _ _ _ _ _ G) in Ha. change (inode_ptr (set_free vol _ _)) with (inode_ptr vol) in Ha.
      rewrite !(inode_ptr_eq vol) in * by done. unfold rng, an_inode in *. lia. }
    unfold m3, m2, wr32. rewrite <-!store32_frame by (intros Hr; eapply Hout; [exact Hr|lia]).
    apply (wr_head _ _ _ _ _ _ _ _ _ _ G i x Hi' Hx). intros Hp'.
    by destruct (pointers_place vol (f_inode f) i x W Hi Hi' Hx Hp').
  - done.
  - intros x Hx. rewrite O3, O2 by (by rewrite Hvx). by apply (wr_out _ _ _ _ _ _ _ _ _ _ G).
  - assert (v_region vol1 = v_region vol) as Er by (by rewrite (wr_vol _ _ _ _ _ _ _ _ _ _ G)).
    intros x Hx. rewrite S3, S2 by (by rewrite Er). by apply (wr_super _ _ _ _ _ _ _ _ _ _ G).
Qed.
