(* ===== verification/TrashFree.v ===== *)
(** Giving blocks back: [free_all_blocks] of [src/storage/trashfs.c] walks the four kinds
    of pointer of an inode, returns every block below them to the bitmap, and leaves the
    inode with no pointers.  Other inodes, and all bytes but the bitmap and the pointers
    of this inode, stay as they are. *)
From S2P Require Import Prelude HostMem TrashFs TrashTree TrashFile.
#[local] Open Scope Z_scope.

(** ** One tree *)

(** The blocks [l] have been given back. *)
Record freed (A l : list Z) (m : mem) (vol : TrashfsVolume) (m' : mem) (vol' : TrashfsVolume) : Prop := {
  fr_alloc : alloc_ok m' vol' A;
  fr_vol : vol' = set_free vol (free_blocks vol + Z.of_nat (length l)) (free_inodes vol);
  fr_mem : mem_agree (fun x => ~ in_bitmap vol x) m m'
}.

Lemma freed_nothing A m vol : alloc_ok m vol A -> freed A [] m vol m vol.
Proof. intros H. split; [done| |done]. cbn. rewrite Z.add_0_r. by destruct vol. Qed.

Lemma freed_trans A B l l' m vol m1 vol1 m2 vol2 : freed B l m vol m1 vol1 -> freed A l' m1 vol1 m2 vol2 ->
  freed A (l ++ l') m vol m2 vol2.
Proof.
  intros [_ E1 M1] [H2 E2 M2]. split; [done| |].
  - rewrite E2, E1. cbn [free_blocks free_inodes set_free]. rewrite length_app. unfold set_free. f_equal. lia.
  - intros x Hx. rewrite (M1 x Hx). apply M2. by rewrite E1.
Qed.

Lemma free_block_freed A b m vol : alloc_ok m vol (b :: A) ->
  freed A [b] m vol (free_block_v m vol b).1 (free_block_v m vol b).2.
Proof.
  intros H. pose proof (free_block_spec m vol b A H) as G. destruct (free_block_v m vol b) as [m' vol'].
  destruct G as (E & H' & Hm). by split.
Qed.

(** A tree whose blocks are in use keeps its shape when other blocks are given back. *)
Lemma freed_rep A l m vol m' vol' lv t : vol_ok vol -> freed A l m vol m' vol' -> rep m vol lv t -> rep m' vol' lv t.
Proof.
  intros W G R. assert (rep m' vol lv t) as R'.
  { apply (tree_same m); [done|]. intros b x Hb Hx. apply (fr_mem _ _ _ _ _ _ G).
    apply (data_not_bitmap vol b x W); [by apply (rep_data m vol lv t)|done]. }
  rewrite (fr_vol _ _ _ _ _ _ G). exact R'.
Qed.

Lemma freed_ptr A l m vol m' vol' b i : vol_ok vol -> freed A l m vol m' vol' -> data_block vol b -> (i < 32)%nat ->
  rd32 m' (block_slot vol b i) = rd32 m (block_slot vol b i).
Proof.
  intros W G Hb Hi. symmetry. apply load32_agree. intros x Hx. apply (fr_mem _ _ _ _ _ _ G).
  apply (data_not_bitmap vol b x W Hb). unfold in_block, block_slot, rng in *. lia.
Qed.

(** The loop over the 32 pointers of a block, one tree each. *)
Lemma free_kids lv reg b step : (forall m vol A k i, v_region vol = reg -> data_block vol b -> alloc_ok m vol (tblocks k ++ A) -> rep m vol lv k ->
    rd32 m (block_slot vol b i) = root k -> (i < 32)%nat ->
    freed A (tblocks k) m vol (step (m, vol) i).1 (step (m, vol) i).2) ->
  forall kids m vol A i, v_region vol = reg -> data_block vol b -> alloc_ok m vol (all_blocks kids ++ A) -> (i + length kids <= 32)%nat ->
  arr_rep m vol (fun k => block_slot vol b (i + k)) (fun _ => lv) kids ->
  freed A (all_blocks kids) m vol (foldl step (m, vol) (seq i (length kids))).1 (foldl step (m, vol) (seq i (length kids))).2.
Proof.
  intros Hstep. induction kids as [|k kids IH]; intros m vol A i Hg Hb H Hlen R; [by apply freed_nothing|].
  cbn [length seq foldl]. cbn [length] in Hlen. pose proof (ao_vol _ _ _ H) as W.
  change (all_blocks (k :: kids)) with (tblocks k ++ all_blocks kids) in *. rewrite <-app_assoc in H.
  destruct (R 0%nat k eq_refl) as [Hr Rk]. rewrite Nat.add_0_r in Hr.
  pose proof (Hstep m vol _ k i Hg Hb H Rk Hr ltac:(lia)) as G1. destruct (step (m, vol) i) as [m1 vol1]. cbn [fst snd] in G1.
  assert (data_block vol1 b) as Hb1 by (by rewrite (fr_vol _ _ _ _ _ _ G1)).
  eapply freed_trans; [exact G1|]. apply IH; [by rewrite (fr_vol _ _ _ _ _ _ G1)|done|apply (fr_alloc _ _ _ _ _ _ G1)|lia|].
  intros j t Hj. apply lookup_lt_Some in Hj as Hlt. destruct (R (S j) t Hj) as [Hr' R']. split; [|by apply (freed_rep _ _ _ _ _ _ _ _ W G1)].
  assert (block_slot vol1 b (S i + j) = block_slot vol b (i + S j)) as -> by (rewrite (fr_vol _ _ _ _ _ _ G1); f_equal; lia).
  rewrite <-Hr'. apply (freed_ptr _ _ _ _ _ _ _ _ W G1 Hb). lia.
Qed.

Lemma free_pointers_loop base n : forall m vol,
  free_pointers m vol base n = foldl (fun st i => free_block_v st.1 st.2 (rd32 st.1 (base + Z.of_nat i * 4))) (m, vol) (seq 0 n).
Proof.
  induction n as [|n IH]; intros m vol; [done|]. rewrite seq_S, foldl_app. cbn [foldl free_pointers]. rewrite IH.
  by destruct (foldl _ _ _).
Qed.

(** Giving back the data block of a pointer. *)
Lemma free_leaf m vol A k : alloc_ok m vol (tblocks k ++ A) -> rep m vol 0 k ->
  freed A (tblocks k) m vol (free_block_v m vol (root k)).1 (free_block_v m vol (root k)).2.
Proof.
  intros H R. destruct k as [|c kids]; [by apply freed_nothing|]. destruct R as [_ ->]. cbn [tblocks map concat app root] in *.
  by apply free_block_freed.
Qed.

(** The loop of [free_indirect] over the pointers of a block. *)
Definition free_kids_of (level : nat) (base : Z) (m : mem) (vol : TrashfsVolume) : mem * TrashfsVolume :=
  match level with
  | O => free_pointers m vol base 32
  | S level =>
      foldl (fun st i =>
        let '(m, vol) := st in
        let l1 := rd32 m (base + Z.of_nat i * 4) in
        if l1 =? TRASHFS_BLOCK_NONE then (m, vol) else free_indirect level m vol l1) (m, vol) (seq 0 32)
  end.

Lemma free_indirect_eq level m vol b : free_indirect level m vol b =
  free_block_v (free_kids_of level (block_ptr (v_region vol) b) m vol).1 (free_kids_of level (block_ptr (v_region vol) b) m vol).2 b.
Proof.
  destruct level; cbn [free_indirect free_kids_of]; change (Z.to_nat TRASHFS_PTRS_PER_BLOCK) with 32%nat.
  - by destruct (free_pointers _ _ _ _).
  - by destruct (foldl _ _ _).
Qed.

(** All trees below a pointer block go back. *)
Lemma free_kids_freed level : forall m vol A b kids, rep m vol (S level) (Blk b kids) -> alloc_ok m vol (all_blocks kids ++ A) ->
  freed A (all_blocks kids) m vol (free_kids_of level (block_ptr (v_region vol) b) m vol).1
    (free_kids_of level (block_ptr (v_region vol) b) m vol).2.
Proof.
  induction level as [|level IH]; intros m vol A b kids (Hb & Hlen & R) H; cbn [free_kids_of].
  - rewrite free_pointers_loop, <-Hlen. apply (free_kids 0 (v_region vol) b); [|done|done|exact H|lia|exact R].
    intros m1 vol1 A1 k i Hg Hb1 Ha Rk Hr Hi. cbn [fst snd]. unfold block_slot in Hr. rewrite Hg in Hr. rewrite Hr. by apply free_leaf.
  - rewrite <-Hlen. apply (free_kids (S level) (v_region vol) b); [|done|done|exact H|lia|exact R].
    intros m1 vol1 A1 k i Hg Hb1 Ha Rk Hr Hi. cbn [fst snd]. unfold block_slot in Hr. rewrite Hg in Hr. rewrite Hr. tfs.
    destruct (Z.eqb_spec (root k) 0) as [E|E].
    + apply (data_root m1 vol1 (S level)) in E; [|apply (ao_vol _ _ _ Ha)|done]. subst k. by apply freed_nothing.
    + destruct k as [|c ks]; [done|]. cbn [root]. rewrite free_indirect_eq. cbn [tblocks app] in *. fold (all_blocks ks) in *.
      rewrite Permutation_middle in Ha. pose proof (IH m1 vol1 _ c ks Rk Ha) as G.
      destruct (freed_trans _ _ _ _ _ _ _ _ _ _ G (free_block_freed _ _ _ _ (fr_alloc _ _ _ _ _ _ G))) as [G1 G2 G3].
      split; [done| |done]. rewrite G2. f_equal. rewrite length_app. cbn [length]. lia.
Qed.

(** The blocks below a pointer of an inode, by its level. *)
Definition free_pointer (level : nat) (m : mem) (vol : TrashfsVolume) (b : Z) : mem * TrashfsVolume :=
  match level with
  | O => free_block_v m vol b
  | S l => if b =? TRASHFS_BLOCK_NONE then (m, vol) else free_indirect l m vol b
  end.

Lemma free_pointer_freed level m vol A t : rep m vol level t -> alloc_ok m vol (tblocks t ++ A) ->
  freed A (tblocks t) m vol (free_pointer level m vol (root t)).1 (free_pointer level m vol (root t)).2.
Proof.
  intros R H. destruct level as [|level]; [by apply free_leaf|]. cbn [free_pointer]. tfs.
  destruct (Z.eqb_spec (root t) 0) as [E|E].
  - apply (data_root m vol (S level)) in E; [|apply (ao_vol _ _ _ H)|done]. subst t. by apply freed_nothing.
  - destruct t as [|c ks]; [done|]. cbn [root]. rewrite free_indirect_eq. cbn [tblocks app] in *. fold (all_blocks ks) in *.
    rewrite Permutation_middle in H. pose proof (free_kids_freed level m vol _ c ks R H) as G.
    destruct (freed_trans _ _ _ _ _ _ _ _ _ _ G (free_block_freed _ _ _ _ (fr_alloc _ _ _ _ _ _ G))) as [G1 G2 G3].
    split; [done| |done]. rewrite G2. f_equal. rewrite length_app. cbn [length]. lia.
Qed.

(** ** All pointers of an inode *)

(** A pointer and what it leads to. *)
Definition drop_slot (level : nat) (m : mem) (vol : TrashfsVolume) (s : Z) : mem * TrashfsVolume :=
  let '(m, vol) := free_pointer level m vol (rd32 m s) in (wr32 m s TRASHFS_BLOCK_NONE, vol).

Lemma free_all_blocks_eq m vol inode : free_all_blocks m vol inode =
  foldl (fun st j => drop_slot (inode_level j) st.1 st.2 (inode + 16 + Z.of_nat j * 4)) (m, vol) (seq 0 11).
Proof.
  assert (forall n, (n <= 8)%nat -> free_direct m vol inode n =
    foldl (fun st j => drop_slot (inode_level j) st.1 st.2 (inode + 16 + Z.of_nat j * 4)) (m, vol) (seq 0 n)) as Hd.
  { induction n as [|n IH]; intros Hn; [done|]. rewrite seq_S, foldl_app. cbn [foldl free_direct]. rewrite IH by lia.
    destruct (foldl _ _ _) as [m1 vol1]. cbn [fst snd Nat.add]. unfold drop_slot. replace (inode_level n) with 0%nat by (unfold inode_level; lia).
    cbn [free_pointer]. by destruct (free_block_v _ _ _). }
  change (seq 0 11) with (seq 0 8 ++ [8; 9; 10]%nat). rewrite foldl_app. unfold free_all_blocks.
  change (Z.to_nat TRASHFS_DIRECT_PTRS) with 8%nat. rewrite Hd by lia. destruct (foldl _ _ (seq 0 8)) as [m1 vol1].
  cbn [foldl fst snd]. replace (inode + 16 + Z.of_nat 8 * 4) with (inode + 48) by lia.
  replace (inode + 16 + Z.of_nat 9 * 4) with (inode + 52) by lia. replace (inode + 16 + Z.of_nat 10 * 4) with (inode + 56) by lia.
  assert (forall l m vol s, drop_slot (S l) m vol s = free_slot l m vol s) as E by done.
  change (inode_level 8) with 1%nat. change (inode_level 9) with 2%nat. change (inode_level 10) with 3%nat. rewrite !E.
  destruct (free_slot 0 m1 vol1 _) as [m2 vol2]. cbn [fst snd]. destruct (free_slot 1 m2 vol2 _) as [m3 vol3]. by cbn [fst snd].
Qed.

(** What dropping some pointers of inode [i] does: the trees [fs] become [fs']. *)
Record dropped (i : Z) (js : list nat) (m : mem) (vol : TrashfsVolume) (fs : list tree) (m' : mem) (vol' : TrashfsVolume)
    (fs' : list tree) : Prop := {
  dr_ok : fs_ok m' vol' fs';
  dr_vol : vol' = set_free vol (free_blocks vol') (free_inodes vol);
  dr_tree i' j : 0 <= i' -> (j < 11)%nat -> itree fs' i' j = if decide (i' = i /\ j ∈ js) then Hole else itree fs i' j;
  dr_free : free_blocks vol' + Z.of_nat (length (all_blocks fs')) = free_blocks vol + Z.of_nat (length (all_blocks fs));
  dr_mem x : ~ in_bitmap vol x -> ~ in_pointers vol i x -> m x = m' x
}.

Lemma drop_slot_fs m vol fs i j : fs_ok m vol fs -> an_inode vol i -> (j < 11)%nat ->
  dropped i [j] m vol fs (drop_slot (inode_level j) m vol (inode_ptr vol i + 16 + Z.of_nat j * 4)).1
    (drop_slot (inode_level j) m vol (inode_ptr vol i + 16 + Z.of_nat j * 4)).2 (<[fs_index i j := Hole]> fs).
Proof.
  intros H Hi Hj. pose proof (ao_vol _ _ _ (fs_alloc _ _ _ H)) as W. destruct (itree_rep m vol fs i j H Hi Hj) as [Hr R].
  unfold drop_slot. rewrite Hr. set (t := itree fs i j) in *. pose proof (itree_lookup m vol fs i j H Hi Hj) as Ht. fold t in Ht.
  pose proof (index_lt _ _ _ _ _ H Hi Hj) as Hlt. set (k := fs_index i j) in *. set (fs' := <[k := Hole]> fs).
  assert (all_blocks fs ≡ₚ tblocks t ++ all_blocks fs') as HP.
  { rewrite <-(list_insert_id fs k t Ht). rewrite <-(list_insert_insert_eq fs k t Hole). fold fs'.
    apply (all_blocks_insert fs' k Hole t); [by apply list_lookup_insert_eq|]. cbn. by rewrite app_nil_r. }
  pose proof (fs_alloc _ _ _ H) as Ha. rewrite HP in Ha. pose proof (free_pointer_freed (inode_level j) m vol _ t R Ha) as G.
  destruct (free_pointer _ _ _ _) as [m1 vol1]. cbn [fst snd] in *. destruct G as [G1 G2 G3].
  set (s := inode_ptr vol i + 16 + Z.of_nat j * 4) in *. assert (fs_slot vol k = s) as Es by (apply slot_at; [apply Hi|done]).
  pose proof (fs_array m vol fs H) as AA. rewrite <-Es. set (m2 := wr32 m1 (fs_slot vol k) 0). fold m2.
  assert (forall x, ~ in_bitmap vol x -> ~ rng (fs_slot vol k) 4 x -> m x = m2 x) as Hag.
  { intros x Hb Hs. rewrite (G3 x Hb). by apply wr32_agree. }
  assert (mem_ok m2) as Wm2 by (apply store32_ok, (ao_mem _ _ _ G1)).
  assert (alloc_ok m2 vol1 (all_blocks fs')) as Ha2.
  { apply (alloc_ok_agree m1); [exact G1|done|]. intros x Hx. apply wr32_agree. intros Hs.
    rewrite G2 in Hx. exact (aa_bitmap _ _ _ _ _ AA k x Hlt Hs Hx). }
  split.
  - split; [done|rewrite G2; unfold fs'; rewrite length_insert; apply (fs_len _ _ _ H)|].
    assert (arr_rep m2 vol (fs_slot vol) fs_level fs') as R2; [|rewrite G2; exact R2].
    apply (arr_rep_update m); [apply (fs_rep _ _ _ H)|done| |apply rep_hole| |].
    + unfold m2, rd32, wr32. by rewrite load32_store32_eq.
    + intros j' x Hj' Hne Hx. apply Hag; [by apply (aa_bitmap _ _ _ _ _ AA j')|].
      pose proof (aa_slots _ _ _ _ _ AA j' k Hj' Hlt Hne) as Hd. unfold rdisj, rng in *. lia.
    + intros j' u b x Hu Hne Hb Hx. assert (data_block vol b) as Hd.
      { apply (ao_data _ _ _ (fs_alloc _ _ _ H)). by apply (all_blocks_at fs j' u). }
      apply Hag; [by apply (data_not_bitmap vol b x W)|]. intros Hs.
      apply (aa_blocks _ _ _ _ _ AA k x b Hlt Hs Hd Hx). by apply (all_blocks_at fs j' u).
  - rewrite G2. done.
  - intros i' j' Hi' Hj'. unfold itree at 1, fs'. rewrite nth_insert_tree by done. fold k. destruct (decide (k = fs_index i' j')) as [E|E].
    + destruct (index_inj i j i' j' (proj1 Hi) Hi' Hj Hj' E) as [<- <-]. rewrite decide_True; [done|]. split; [done|]. by left.
    + rewrite decide_False; [done|]. intros [-> Hin]. apply list_elem_of_singleton in Hin as ->. by apply E.
  - rewrite G2. cbn [free_blocks set_free]. rewrite HP, length_app. lia.
  - intros x Hb Hp. apply Hag; [done|]. rewrite Es. unfold in_pointers, s, rng in *. lia.
Qed.

Lemma dropped_trans i js js' m vol fs m1 vol1 fs1 m2 vol2 fs2 : dropped i js m vol fs m1 vol1 fs1 ->
  dropped i js' m1 vol1 fs1 m2 vol2 fs2 -> dropped i (js ++ js') m vol fs m2 vol2 fs2.
Proof.
  intros [A1 A2 A3 A4 A5] [B1 B2 B3 B4 B5]. split; [done| | |lia|].
  - rewrite B2, A2. done.
  - intros i' j Hi' Hj. rewrite B3, A3 by done. repeat case_decide; try done; rewrite ?elem_of_app in *; naive_solver.
  - intros x Hb Hp. rewrite (A5 x Hb Hp). apply B5; rewrite A2; done.
Qed.

Lemma dropped_nothing i m vol fs : fs_ok m vol fs -> dropped i [] m vol fs m vol fs.
Proof.
  intros H. split; try done; [by destruct vol|]. intros i' j _ _. rewrite decide_False; [done|]. intros [_ Hin]. by apply elem_of_nil in Hin.
Qed.

Lemma drop_slots i js : (forall j, j ∈ js -> (j < 11)%nat) -> forall m vol fs, fs_ok m vol fs -> an_inode vol i ->
  exists m' vol' fs', foldl (fun st j => drop_slot (inode_level j) st.1 st.2 (inode_ptr vol i + 16 + Z.of_nat j * 4)) (m, vol) js = (m', vol') /\
    dropped i js m vol fs m' vol' fs'.
Proof.
  induction js as [|j js IH]; intros Hjs m vol fs H Hi.
  - exists m, vol, fs. split; [done|by apply dropped_nothing].
  - cbn [foldl fst snd]. pose proof (drop_slot_fs m vol fs i j H Hi (Hjs j ltac:(by left))) as G.
    destruct (drop_slot _ _ _ _) as [m1 vol1]. cbn [fst snd] in G. set (fs1 := <[_ := _]> fs) in *.
    pose proof (dr_vol _ _ _ _ _ _ _ _ G) as Ev. assert (an_inode vol1 i) as Hi1 by (by rewrite Ev).
    destruct (IH ltac:(intros j' Hj'; apply Hjs; by right) m1 vol1 fs1 (dr_ok _ _ _ _ _ _ _ _ G) Hi1) as (m' & vol' & fs' & E & G').
    exists m', vol', fs'. split.
    + assert (inode_ptr vol1 i = inode_ptr vol i) as Ep by (by rewrite Ev). by rewrite Ep in E.
    + apply (dropped_trans i [j] js m vol fs m1 vol1 fs1); done.
Qed.

(** [free_all_blocks] takes all trees of the inode away, and nothing else. *)
Lemma free_all_blocks_spec m vol fs i : fs_ok m vol fs -> an_inode vol i ->
  exists m' vol' fs', free_all_blocks m vol (inode_ptr vol i) = (m', vol') /\ dropped i (seq 0 11) m vol fs m' vol' fs'.
Proof.
  intros H Hi. rewrite free_all_blocks_eq. apply drop_slots; [|done|done]. intros j Hj. apply elem_of_seq in Hj. lia.
Qed.
