(* ===== verification/TrashFmt.v ===== *)
(** Making and mounting a trash volume: [trashfs_format] writes an empty volume that
    [trashfs_mount] accepts, and mounting any well-formed volume recovers the counts of
    free blocks and inodes from the bitmap and the inode table. *)
From S2P Require Import Prelude HostMem TrashFs TrashTree TrashFile.
#[local] Open Scope Z_scope.

(** ** Counting *)

Definition unused (m : mem) (vol : TrashfsVolume) : Z :=
  Z.of_nat (length (filter (fun i => inode_used m vol i = false) (seqZ 0 (inode_count vol)))).

Lemma count_free_blocks_eq m bm n b :
  count_free_blocks m bm n b = Z.of_nat (length (filter (fun c => block_bit m bm c = false) (seqZ b (Z.of_nat n)))).
Proof.
  revert b. induction n as [|n IH]; intros b; [done|]. cbn [count_free_blocks]. rewrite Nat2Z.inj_succ, seqZ_cons by lia.
  rewrite filter_cons, IH, <-Z.add_1_r, Z.pred_succ by lia. destruct (block_bit m bm b) eqn:E; case_decide; try done.
  cbn [length]. lia.
Qed.

Lemma count_free_inodes_eq m vol n i :
  count_free_inodes m vol n i = Z.of_nat (length (filter (fun c => inode_used m vol c = false) (seqZ i (Z.of_nat n)))).
Proof.
  revert i. induction n as [|n IH]; intros i; [done|]. cbn [count_free_inodes]. rewrite Nat2Z.inj_succ, seqZ_cons by lia.
  rewrite filter_cons, IH, <-Z.add_1_r, Z.pred_succ by lia. destruct (inode_used m vol i) eqn:E; case_decide; try done.
  cbn [length]. lia.
Qed.

(** The clear bits of the data area are the blocks not in use. *)
Lemma clear_bits m vol A : alloc_ok m vol A ->
  count_free_blocks m (bitmap_of vol) (Z.to_nat (total_blocks vol - data_start vol)) (data_start vol) = free_blocks vol.
Proof.
  intros H. pose proof (vo_data _ (ao_vol _ _ _ H)) as [_ Hd]. rewrite count_free_blocks_eq, Z2Nat.id, (ao_free _ _ _ H) by lia.
  set (l := seqZ (data_start vol) (total_blocks vol - data_start vol)).
  assert (A ++ filter (fun c => block_bit m (bitmap_of vol) c = false) l ≡ₚ l) as HP.
  { apply NoDup_Permutation.
    - apply NoDup_app. split; [apply (ao_nodup _ _ _ H)|]. split; [|apply NoDup_filter, NoDup_seqZ].
      intros b Hb Hf%list_elem_of_filter. destruct Hf as [Hf _]. rewrite (ao_bits _ _ _ H), bool_decide_eq_true_2 in Hf; [done|done|].
      by apply (ao_data _ _ _ H).
    - apply NoDup_seqZ.
    - intros b. rewrite elem_of_app, list_elem_of_filter. unfold l. rewrite elem_of_seqZ. split.
      + intros [Hb|[_ Hb]]; [|done]. apply (ao_data _ _ _ H) in Hb. unfold data_block in Hb. lia.
      + intros Hb. destruct (decide (b ∈ A)) as [|Hn]; [by left|right]. split; [|done].
        rewrite (ao_bits _ _ _ H) by (unfold data_block; lia). by apply bool_decide_eq_false_2. }
  apply Permutation_length in HP. rewrite length_app in HP. unfold l in HP at 2. rewrite length_seqZ in HP. lia.
Qed.

(** ** Mounting *)

(** The superblock describes the volume. *)
Record sb_ok (m : mem) (vol : TrashfsVolume) : Prop := {
  sb_magic : rd32 m (v_region vol + 0) = TRASHFS_MAGIC;
  sb_major : rd16 m (v_region vol + 4) = TRASHFS_VERSION_MAJOR;
  sb_block_size : rd32 m (v_region vol + 8) = TRASHFS_BLOCK_SIZE;
  sb_total : rd32 m (v_region vol + 12) = total_blocks vol;
  sb_bitmap_start : rd32 m (v_region vol + 16) = bitmap_start vol;
  sb_bitmap_blocks : rd32 m (v_region vol + 20) = bitmap_blocks vol;
  sb_inode_start : rd32 m (v_region vol + 24) = inode_start vol;
  sb_inode_blocks : rd32 m (v_region vol + 28) = inode_blocks vol;
  sb_inode_count : rd32 m (v_region vol + 32) = inode_count vol;
  sb_data_start : rd32 m (v_region vol + 36) = data_start vol;
  sb_root : rd32 m (v_region vol + 40) = TRASHFS_ROOT_INODE;
  sb_bytes : v_region_bytes vol = total_blocks vol * 128 /\ TRASHFS_MIN_BYTES <= v_region_bytes vol;
  sb_mounted : mounted vol = true
}.

Lemma mount_spec m vol A v0 : alloc_ok m vol A -> sb_ok m vol ->
  trashfs_mount m v0 (v_region vol) (v_region_bytes vol) = (set_free vol (free_blocks vol) (unused m vol), TRASHFS_OK).
Proof.
  intros H S. pose proof (ao_vol _ _ _ H) as [V1 V2 (V3 & V4 & V5) (V6 & V7 & V8) (V9 & V10)]. destruct (sb_bytes _ _ S) as [B1 B2].
  unfold trashfs_mount. rewrite (proj2 (Z.ltb_ge _ _) B2). cbv zeta.
  replace (block_ptr (v_region vol) 0) with (v_region vol) by (unfold block_ptr; lia).
  rewrite (sb_magic _ _ S), (sb_major _ _ S), (sb_block_size _ _ S), (sb_total _ _ S), (sb_bitmap_start _ _ S), (sb_bitmap_blocks _ _ S),
    (sb_inode_start _ _ S), (sb_inode_blocks _ _ S), (sb_inode_count _ _ S), (sb_data_start _ _ S), (sb_root _ _ S).
  rewrite !Z.eqb_refl. cbn [negb]. tfs. rewrite B1, Z.div_mul, Z.eqb_refl, V3 by lia. cbn [negb Z.eqb Pos.eqb].
  change (128 / 64) with 2. rewrite !u32_small by (unfold is_u32; lia). rewrite <-V6, <-V8, <-V9, !Z.eqb_refl. cbn [negb].
  rewrite (proj2 (Z.leb_gt _ _)) by lia. f_equal. rewrite <-B1, <-V3, <-(sb_mounted _ _ S).
  unfold rebuild_caches. cbn [v_region bitmap_start total_blocks data_start inode_count].
  change (block_ptr (v_region vol) (bitmap_start vol)) with (bitmap_of vol). rewrite (clear_bits m vol A H).
  rewrite count_free_inodes_eq, Z2Nat.id by lia. unfold set_free, unused. done.
Qed.

(** ** Stores and loads of the superblock *)

Lemma rd32_same m a v : rd32 (wr32 m a v) a = u32 v.
Proof. apply load32_store32_eq. Qed.

Lemma rd32_wr32 m a v b : rdisj a 4 b 4 -> rd32 (wr32 m a v) b = rd32 m b.
Proof. apply load32_store32_disj. Qed.

Lemma rd32_wr16 m a v b : rdisj a 2 b 4 -> rd32 (wr16 m a v) b = rd32 m b.
Proof. apply load32_frame, store16_frame. Qed.

Lemma rd16_frame m m' a n b : mem_frame a n m m' -> rdisj a n b 2 -> rd16 m' b = rd16 m b.
Proof. intros H Hd. unfold rd16, load16. by rewrite (mem_read_frame _ _ _ _ _ _ H Hd). Qed.

Lemma rd16_wr32 m a v b : rdisj a 4 b 2 -> rd16 (wr32 m a v) b = rd16 m b.
Proof. apply rd16_frame, store32_frame. Qed.

Lemma rd16_wr16 m a v b : rdisj a 2 b 2 -> rd16 (wr16 m a v) b = rd16 m b.
Proof. apply rd16_frame, store16_frame. Qed.

Lemma rd16_same m a v : rd16 (wr16 m a v) a = u16 v.
Proof. apply load16_store16_eq. Qed.

Ltac rd_back := repeat first
  [ rewrite rd32_same | rewrite rd16_same | rewrite rd32_wr32 by (unfold rdisj; lia) | rewrite rd32_wr16 by (unfold rdisj; lia)
  | rewrite rd16_wr32 by (unfold rdisj; lia) | rewrite rd16_wr16 by (unfold rdisj; lia) ].

Lemma frame_wr32 a n m m' p v : mem_frame a n m m' -> a <= p -> p + 4 <= a + n -> mem_frame a n m (wr32 m' p v).
Proof. intros H H1 H2. etransitivity; [exact H|]. eapply mem_frame_mono; [| |apply store32_frame]; lia. Qed.

Lemma frame_wr16 a n m m' p v : mem_frame a n m m' -> a <= p -> p + 2 <= a + n -> mem_frame a n m (wr16 m' p v).
Proof. intros H H1 H2. etransitivity; [exact H|]. eapply mem_frame_mono; [| |apply store16_frame]; lia. Qed.

Lemma wr32_ok m p v : mem_ok m -> mem_ok (wr32 m p v).
Proof. apply store32_ok. Qed.

Lemma wr16_ok m p v : mem_ok m -> mem_ok (wr16 m p v).
Proof. intros. apply mem_write_ok; [done|]. apply le_bytes_Forall. Qed.

Lemma superblock_frame m sb g fb fi now : mem_frame sb 60 m (write_superblock m sb g fb fi now).
Proof. unfold write_superblock. repeat (apply frame_wr32 || apply frame_wr16); try lia. reflexivity. Qed.

Lemma superblock_ok m sb g fb fi now : mem_ok m -> mem_ok (write_superblock m sb g fb fi now).
Proof. intros H. unfold write_superblock. repeat (apply wr32_ok || apply wr16_ok). done. Qed.

(** The volume that a geometry describes. *)
Definition geom_volume (region : Z) (g : TrashfsGeom) : TrashfsVolume :=
  mkVolume region (g_total_blocks g * 128) (g_total_blocks g) (g_bitmap_start g) (g_bitmap_blocks g) (g_inode_start g)
    (g_inode_blocks g) (g_inode_count g) (g_data_start g) (g_total_blocks g - g_data_start g - 1) (g_inode_count g - 1) true.

Lemma superblock_sb_ok m region g fb fi now : vol_ok (geom_volume region g) -> TRASHFS_MIN_BYTES <= g_total_blocks g * 128 ->
  sb_ok (write_superblock m region g fb fi now) (geom_volume region g).
Proof.
  intros [V1 V2 (V3 & V4 & V5) (V6 & V7 & V8) (V9 & V10)] Hmin. cbn in *. unfold write_superblock.
  split; cbn [geom_volume v_region total_blocks bitmap_start bitmap_blocks inode_start inode_blocks inode_count data_start v_region_bytes mounted];
    try done; rd_back; try done; apply u32_small; unfold is_u32; lia.
Qed.

(** ** Geometry *)

Lemma ceil_div_spec a b : 0 <= a -> 0 < b -> a + b <= 2 ^ 32 -> a <= ceil_div a b * b < a + b.
Proof.
  intros Ha Hb Hw. unfold ceil_div. rewrite u32_small by (unfold is_u32; lia).
  pose proof (Z.div_mod (a + b - 1) b ltac:(lia)). pose proof (Z.mod_pos_bound (a + b - 1) b Hb). nia.
Qed.

(** The number of inodes asked for, before it is rounded up to whole blocks. *)
Definition wanted_inodes (total hint : Z) : Z :=
  if hint =? 0 then (if total / 16 <? 16 then 16 else total / 16) else hint.

Lemma compute_geometry_spec total hint region : 0 < region -> 128 <= total -> total * 128 <= 0xFFFFFFFF -> 0 <= hint < 0xFFFFFFFF ->
  let bb := ceil_div (ceil_div total 8) 128 in
  let ib := ceil_div (wanted_inodes total hint) 2 in
  match compute_geometry total hint with
  | None => total <= 1 + bb + ib
  | Some g => g = mkGeom total 1 bb (1 + bb) ib (ib * 2) (1 + bb + ib) /\ vol_ok (geom_volume region g)
  end.
Proof.
  intros Hr H1 H2 Hh bb ib. unfold compute_geometry. tfs. change TRASHFS_BLOCKS_PER_INODE with 16. change TRASHFS_INODES_FLOOR with 16.
  change (128 / 64) with 2. fold (wanted_inodes total hint). fold ib. fold bb.
  pose proof (ceil_div_spec total 8 ltac:(lia) ltac:(lia) ltac:(lia)) as C1.
  pose proof (ceil_div_spec (ceil_div total 8) 128 ltac:(lia) ltac:(lia) ltac:(lia)) as C2. fold bb in C2.
  assert (0 < wanted_inodes total hint <= 0xFFFFFFFE) as Hw.
  { unfold wanted_inodes. assert (0 <= total / 16 <= total) by (split; [apply Z.div_pos|apply Z.div_le_upper_bound]; lia).
    destruct (Z.eqb_spec hint 0), (Z.ltb_spec (total / 16) 16); lia. }
  pose proof (ceil_div_spec (wanted_inodes total hint) 2 ltac:(lia) ltac:(lia) ltac:(lia)) as C3. fold ib in C3.
  rewrite (proj2 (Z.eqb_neq bb 0)) by lia. rewrite !(u32_small (1 + bb)) by (unfold is_u32; lia).
  rewrite (u32_small (1 + bb + ib)) by (unfold is_u32; lia). destruct (Z.leb_spec total (1 + bb + ib)); [done|].
  rewrite u32_small by (unfold is_u32; lia). split; [done|]. split; cbn; lia.
Qed.

(** ** Format *)

(** The trees of an empty volume: one block, below the first pointer of the root. *)
Definition empty_fs (vol : TrashfsVolume) : list tree :=
  Blk (data_start vol) [] :: replicate (11 * Z.to_nat (inode_count vol) - 1) Hole.

Section format.
Context (m : mem) (region : Z) (g : TrashfsGeom) (now : Z).
Let vol := geom_volume region g.
Context (W : vol_ok vol) (Wm : mem_ok m).
Let bm := bitmap_of vol.

Let m0 := memset m region 0 (g_total_blocks g * 128).
Let m1 := bitmap_set (mark_metadata m0 region g (Z.to_nat (g_data_start g))) region g (g_data_start g).

Lemma bitmap_set_frame h b : 0 <= b < g_total_blocks g -> mem_frame bm (bitmap_blocks vol * 128) h (bitmap_set h region g b).
Proof.
  intros Hb. destruct W as [? ? (H1 & H2 & H3) _ _]. cbn in *. eapply mem_frame_mono; [| |apply (mem_write_frame _ _ _ 1); done].
  - change (block_ptr region (g_bitmap_start g)) with bm. rewrite bit_byte_eq by lia. pose proof (Z.div_pos b 8 ltac:(lia) ltac:(lia)). lia.
  - change (block_ptr region (g_bitmap_start g)) with bm. rewrite bit_byte_eq by lia. zlia.
Qed.

Lemma bitmap_set_ok h b : mem_ok h -> mem_ok (bitmap_set h region g b).
Proof. intros H. apply mem_write_ok; [done|]. constructor; [|constructor]. apply lor_u8; [apply H|apply is_u8_range]. Qed.

Lemma mark_spec h n : mem_ok h -> Z.of_nat n <= g_total_blocks g ->
  let h' := mark_metadata h region g n in
  mem_ok h' /\ mem_frame bm (bitmap_blocks vol * 128) h h' /\
  forall c, 0 <= c -> block_bit h' bm c = block_bit h bm c || (c <? Z.of_nat n).
Proof.
  intros Hh. induction n as [|n IH]; intros Hn.
  - split_and!; [done|done|]. intros c Hc. cbn [mark_metadata]. rewrite (proj2 (Z.ltb_ge c _)) by lia. by rewrite orb_false_r.
  - destruct (IH ltac:(lia)) as (H1 & H2 & H3). cbn [mark_metadata]. split_and!.
    + by apply bitmap_set_ok.
    + etransitivity; [exact H2|]. apply bitmap_set_frame. lia.
    + intros c Hc. unfold bitmap_set. change (block_ptr region (g_bitmap_start g)) with bm. rewrite block_bit_set, H3 by lia.
      rewrite <-orb_assoc. f_equal. destruct (Z.ltb_spec c (Z.of_nat n)), (Z.eqb_spec (Z.of_nat n) c), (Z.ltb_spec c (Z.of_nat (S n))); lia || done.
Qed.

Lemma data_start_bounds : 0 < g_data_start g < g_total_blocks g.
Proof. destruct W as [? ? (H1 & H2 & H3) (H4 & H5 & H6) (H7 & H8)]. cbn in *. lia. Qed.

(** After the bitmap is written: the blocks of the tables and of the root are marked, and
    the rest of the volume is zero. *)
Lemma marked_spec : mem_ok m1 /\ (forall c, data_block vol c -> block_bit m1 bm c = (c =? g_data_start g)) /\
  (forall x, in_volume vol x -> ~ in_bitmap vol x -> m1 x = 0).
Proof.
  pose proof data_start_bounds as Hd. assert (mem_ok m0) as W0 by (by apply memset_ok).
  destruct (mark_spec m0 (Z.to_nat (g_data_start g)) W0 ltac:(lia)) as (H1 & H2 & H3). rewrite Z2Nat.id in H3 by lia.
  assert (0 <= g_total_blocks g * 128) as Hsz by lia.
  assert (forall x, in_volume vol x -> m0 x = 0) as Hz.
  { intros x Hx. unfold m0, memset. rewrite mem_write_in; [apply nth_replicate_zero|]. rewrite length_replicate, Z2Nat.id by done. exact Hx. }
  split_and!.
  - by apply bitmap_set_ok.
  - intros c Hc. pose proof (data_block_pos _ _ W Hc) as Hpos. unfold m1, bitmap_set at 1.
    change (block_ptr region (g_bitmap_start g)) with bm. rewrite block_bit_set, H3 by lia.
    assert (block_bit m0 bm c = false) as ->.
    { rewrite block_bit_spec, Hz; [apply Z.bits_0| |lia]. pose proof (bit_in_bitmap vol c W Hc) as Hb. rewrite bit_byte_eq in Hb by lia.
      destruct W as [? ? (V1 & V2 & V3) (V4 & V5 & V6) (V7 & V8)]. unfold bm, in_bitmap, in_volume, bitmap_of, block_ptr, rng in *.
      rewrite V1 in *. cbn in *. tfs. lia. }
    destruct Hc as [Hc _]. cbn in Hc. rewrite (proj2 (Z.ltb_ge c _)) by done. cbn [orb]. apply Z.eqb_sym.
  - intros x Hx Hb. unfold m1. rewrite <-(bitmap_set_frame (mark_metadata m0 region g (Z.to_nat (g_data_start g))) (g_data_start g) ltac:(lia) x Hb).
    rewrite <-(H2 x Hb). by apply Hz.
Qed.

Let inode0 := block_ptr region (g_inode_start g).
Let m2 := wr32 (wr32 (wr32 (wr32 (wr16 (wr16 m1 (inode0 + 0) (Z.lor TRASHFS_MODE_USED TRASHFS_MODE_DIR)) (inode0 + 2) 1)
  (inode0 + 4) 0) (inode0 + 8) now) (inode0 + 12) now) (inode0 + 16) (g_data_start g).
Let m3 fb fi := write_superblock m2 region g fb fi now.

Lemma header_frame : mem_frame inode0 20 m1 m2.
Proof. unfold m2. repeat (apply frame_wr32 || apply frame_wr16); try lia. reflexivity. Qed.

Lemma inode0_eq : inode_ptr vol 0 = inode0.
Proof. rewrite inode_ptr_eq; [|done|]; [change (v_region vol) with region; change (inode_start vol) with (g_inode_start g); unfold inode0; lia|].
  destruct W as [? ? _ (H4 & H5 & H6) _]. cbn in *. lia. Qed.

(** Where the header of the root and the superblock lie. *)
Lemma tables_apart x : (rng inode0 20 x -> in_inodes vol x /\ ~ rng region 60 x) /\ (rng region 60 x -> in_volume vol x /\ ~ in_inodes vol x /\
  ~ in_bitmap vol x /\ forall b, data_block vol b -> ~ in_block vol b x).
Proof.
  destruct W as [V0 ? (V1 & V2 & V3) (V4 & V5 & V6) (V7 & V8)]. unfold in_inodes, inode0, in_bitmap, in_volume, bitmap_of, data_block, in_block, block_ptr, rng.
  rewrite V1. cbn in *. tfs. split; [lia|]. intros Hx. split_and!; lia.
Qed.

Context (fb fi : Z).
Let m' := m3 fb fi.

Lemma formatted_agree x : ~ rng inode0 20 x -> ~ rng region 60 x -> m' x = m1 x.
Proof. intros H1 H2. transitivity (m2 x); symmetry; [by apply superblock_frame|by apply header_frame]. Qed.

Lemma formatted_ok : mem_ok m'.
Proof.
  destruct marked_spec as (H1 & _). unfold m', m3, m2. apply superblock_ok. repeat (apply wr32_ok || apply wr16_ok). exact H1.
Qed.

Lemma header_load n off v : rd32 m2 (inode0 + off) = v -> n = 4 -> 0 <= off -> off + n <= 20 -> rd32 m' (inode0 + off) = v.
Proof.
  intros <- -> H1 H2. unfold rd32. apply (load32_frame m2 m' region 60); [apply superblock_frame|].
  destruct W as [? ? (V1 & V2 & V3) (V4 & V5 & V6) (V7 & V8)]. unfold inode0, block_ptr, rdisj. cbn in *. tfs. lia.
Qed.

Lemma formatted_zero x : in_volume vol x -> ~ in_bitmap vol x -> ~ rng inode0 20 x -> ~ rng region 60 x -> m' x = 0.
Proof. intros H1 H2 H3 H4. rewrite formatted_agree by done. by apply marked_spec. Qed.

Lemma all_holes n : all_blocks (replicate n Hole) = [].
Proof. unfold all_blocks. induction n; cbn; auto. Qed.

Lemma formatted_alloc : alloc_ok m' vol [data_start vol].
Proof.
  pose proof data_start_bounds as Hd. destruct marked_spec as (_ & Hb & _). split; [done|apply formatted_ok|apply NoDup_singleton| | |].
  - intros b ->%list_elem_of_singleton. unfold data_block. cbn. lia.
  - intros b Hdb. unfold block_bit. rewrite formatted_agree.
    + etransitivity; [exact (Hb b Hdb)|]. cbn [data_start vol geom_volume]. symmetry. destruct (Z.eqb_spec b (g_data_start g)) as [->|Hne].
      * apply bool_decide_eq_true. by left.
      * apply bool_decide_eq_false. by intros ->%list_elem_of_singleton.
    + intros Hx. apply (inodes_not_bitmap vol _ W (proj1 (proj1 (tables_apart _) Hx))). by apply bit_in_bitmap.
    + intros Hx. destruct (proj2 (tables_apart _) Hx) as (_ & _ & Hn & _). by apply Hn, bit_in_bitmap.
  - cbn. lia.
Qed.

Lemma zero_load32 a : (forall x, rng a 4 x -> m' x = 0) -> rd32 m' a = 0.
Proof. intros Hz. unfold rd32, load32. by rewrite (mem_read_agree m' (fun _ => 0)). Qed.

Lemma zero_load16 a : (forall x, rng a 2 x -> m' x = 0) -> rd16 m' a = 0.
Proof. intros Hz. unfold rd16, load16. by rewrite (mem_read_agree m' (fun _ => 0)). Qed.

(** The inode table, but for the header and the first pointer of the root, is zero. *)
Lemma table_zero x : in_inodes vol x -> ~ rng inode0 20 x -> m' x = 0.
Proof.
  intros Hx Hn. apply formatted_zero; [by apply inodes_in_volume|by apply inodes_not_bitmap|done|].
  intros Hs. destruct (proj2 (tables_apart x) Hs) as (_ & Hni & _). done.
Qed.

Lemma formatted_fs : fs_ok m' vol (empty_fs vol).
Proof.
  assert (0 < inode_count vol) as Hc by (destruct W as [? ? _ (V4 & V5 & V6) _]; lia).
  assert (length (empty_fs vol) = (11 * Z.to_nat (inode_count vol))%nat) as Hlen.
  { unfold empty_fs. cbn [length]. rewrite length_replicate. lia. }
  split; [|done|].
  - assert (all_blocks (empty_fs vol) = [data_start vol]) as ->; [|apply formatted_alloc].
    unfold empty_fs, all_blocks. cbn [map concat tblocks]. rewrite <-(app_nil_r [data_start vol]) at 2. f_equal. apply all_holes.
  - intros k t Hk. apply lookup_lt_Some in Hk as Hlt. rewrite Hlen in Hlt. unfold empty_fs in Hk. destruct k as [|k]; cbn in Hk.
    + injection Hk as <-. split.
      * assert (fs_slot vol 0 = inode0 + 16) as ->.
        { change 0%nat with (fs_index 0 0) at 1. rewrite slot_at, inode0_eq by lia. lia. }
        apply (header_load 4); [unfold m2; rewrite rd32_same; apply u32_small; destruct data_start_bounds; pose proof (vo_bytes _ W) as Hv; cbn in Hv; unfold is_u32; cbn [root]; lia|lia..].
      * cbn. split; [|done]. unfold data_block. pose proof data_start_bounds. cbn. lia.
    + apply lookup_replicate in Hk as [-> Hk]. split; [|apply rep_hole]. apply zero_load32. intros x Hx.
      apply table_zero; [by apply (fs_slot_inodes vol (S k))|]. destruct (ptr_slot_inside vol (S k) W Hlt) as (i & j & Hi & Hj & E).
      rewrite E, slot_at in Hx by (done || apply Hi). rewrite <-inode0_eq. rewrite (inode_ptr_eq vol i), (inode_ptr_eq vol 0) in * by (done || lia).
      unfold fs_index, rng, an_inode in *. lia.
Qed.

(** The inodes but the root's are blank. *)
Lemma formatted_blank i x : an_inode vol i -> i <> 0 -> rng (inode_ptr vol i) 64 x -> m' x = 0.
Proof.
  intros Hi Hne Hx. apply table_zero; [by apply (inode_inside vol i)|]. rewrite <-inode0_eq.
  rewrite (inode_ptr_eq vol i), (inode_ptr_eq vol 0) in * by (done || unfold an_inode in *; lia). unfold rng, an_inode in *. lia.
Qed.

Lemma formatted_used i : an_inode vol i -> inode_used m' vol i = (i =? 0).
Proof.
  intros Hi. unfold inode_used. rewrite Z.add_0_r. destruct (Z.eqb_spec i 0) as [->|Hne].
  - rewrite inode0_eq. assert (rd16 m' inode0 = 3) as ->; [|done].
    transitivity (rd16 m2 inode0).
    { apply (rd16_frame m2 m' region 60); [apply superblock_frame|].
      destruct W as [? ? (V1 & V2 & V3) (V4 & V5 & V6) (V7 & V8)]. unfold inode0, block_ptr, rdisj. cbn in *. tfs. lia. }
    unfold m2. rewrite Z.add_0_r. rd_back. done.
  - rewrite zero_load16; [done|]. intros x Hx. apply (formatted_blank i); [done|done|]. unfold rng in *. lia.
Qed.

Lemma formatted_unused : unused m' vol = inode_count vol - 1.
Proof.
  assert (0 < inode_count vol) as Hc by (destruct W as [? ? _ (V4 & V5 & V6) _]; lia).
  unfold unused. rewrite seqZ_cons, filter_cons by lia. rewrite decide_False by (rewrite formatted_used by (unfold an_inode; lia); done).
  rewrite filter_all; [rewrite length_seqZ; lia|]. apply Forall_forall. intros i Hi. rewrite elem_of_seqZ in Hi.
  rewrite formatted_used by (unfold an_inode; lia). apply Z.eqb_neq. lia.
Qed.

Lemma formatted_root : isize m' vol 0 = 0 /\ rd16 m' (inode_ptr vol 0) = 3.
Proof.
  unfold isize. rewrite inode0_eq. split.
  - apply (header_load 4); [unfold m2; rd_back; done|lia..].
  - transitivity (rd16 m2 inode0); [|unfold m2; rewrite Z.add_0_r; rd_back; done].
    apply (rd16_frame m2 m' region 60); [apply superblock_frame|].
    destruct W as [? ? (V1 & V2 & V3) (V4 & V5 & V6) (V7 & V8)]. unfold inode0, block_ptr, rdisj. cbn in *. tfs. lia.
Qed.
End format.

(** ** The volume as a whole *)

Record volume_ok (m : mem) (vol : TrashfsVolume) (fs : list tree) : Prop := {
  vk_fs : fs_ok m vol fs;
  vk_super : sb_ok m vol;
  vk_free : free_inodes vol = unused m vol
}.

(** Mounting a well-formed volume gives back the handle it had. *)
Lemma remount m vol fs v0 : volume_ok m vol fs -> trashfs_mount m v0 (v_region vol) (v_region_bytes vol) = (vol, TRASHFS_OK).
Proof.
  intros [H S F]. rewrite (mount_spec m vol _ v0 (fs_alloc _ _ _ H) S), <-F. by destruct vol.
Qed.

Lemma sb_agree m m' vol x y : sb_ok m vol -> (forall a, rng (v_region vol) 128 a -> m' a = m a) -> sb_ok m' (set_free vol x y).
Proof.
  intros S Hag.
  assert (forall o, 0 <= o <= 100 -> rd32 m' (v_region vol + o) = rd32 m (v_region vol + o)) as H32
    by (intros o Ho; apply load32_agree; intros a Ha; apply Hag; unfold rng in *; lia).
  assert (rd16 m' (v_region vol + 4) = rd16 m (v_region vol + 4)) as H16
    by (apply load16_agree; intros a Ha; apply Hag; unfold rng in *; lia).
  destruct S; split; cbn [v_region total_blocks bitmap_start bitmap_blocks inode_start inode_blocks inode_count data_start v_region_bytes mounted set_free];
    try done; try (by rewrite H16); by rewrite H32 by lia.
Qed.

Lemma filter_ext_elem {A} (P Q : A -> Prop) `{forall x, Decision (P x)} `{forall x, Decision (Q x)} (l : list A) :
  (forall x, x ∈ l -> P x <-> Q x) -> filter P l = filter Q l.
Proof.
  induction l as [|x l IH]; intros Hl; [done|]. rewrite !filter_cons, IH by (intros y Hy; apply Hl; by right).
  pose proof (Hl x ltac:(by left)) as Hx. by repeat case_decide; tauto || f_equal.
Qed.

Lemma unused_agree m m' vol x y : (forall i, an_inode vol i -> rd16 m' (inode_ptr vol i) = rd16 m (inode_ptr vol i)) ->
  unused m' (set_free vol x y) = unused m vol.
Proof.
  intros Hag. unfold unused. cbn [inode_count set_free]. do 2 f_equal. apply filter_ext_elem. intros i Hi.
  rewrite elem_of_seqZ in Hi. unfold inode_used. change (inode_ptr (set_free vol x y) i) with (inode_ptr vol i).
  rewrite !Z.add_0_r, Hag by (unfold an_inode; lia). done.
Qed.

Lemma written_volume buf n now m vol fs f m' vol' f' done fs' : volume_ok m vol fs ->
  written_to buf n now m vol fs f m' vol' f' done fs' -> volume_ok m' vol' fs'.
Proof.
  intros [H S F] G. destruct (wt_ok _ _ _ _ _ _ _ _ _ _ _ _ G) as [H' E]. split; [done| |].
  - rewrite E. apply (sb_agree m); [done|apply (wt_super _ _ _ _ _ _ _ _ _ _ _ _ G)].
  - rewrite E. rewrite (unused_agree m); [done|]. apply (wt_mode _ _ _ _ _ _ _ _ _ _ _ _ G).
Qed.

Lemma format_spec m region bytes hint now : mem_ok m -> 0 < region -> is_u32 bytes -> 0 <= hint < 0xFFFFFFFF ->
  let total := bytes / 128 in
  let '(m', r) := trashfs_format m region bytes hint now in
  (r = TRASHFS_OK <-> bytes mod 128 = 0 /\ TRASHFS_MIN_BYTES <= bytes /\
     1 + ceil_div (ceil_div total 8) 128 + ceil_div (wanted_inodes total hint) 2 < total) /\
  (r <> TRASHFS_OK -> m' = m) /\
  (r = TRASHFS_OK -> exists vol, v_region vol = region /\ v_region_bytes vol = bytes /\ volume_ok m' vol (empty_fs vol) /\
     isize m' vol 0 = 0 /\ rd16 m' (inode_ptr vol 0) = Z.lor TRASHFS_MODE_USED TRASHFS_MODE_DIR /\
     free_blocks vol = total_blocks vol - data_start vol - 1 /\ free_inodes vol = inode_count vol - 1 /\
     inode_count vol = 2 * ceil_div (wanted_inodes total hint) 2 /\
     forall i x, an_inode vol i -> i <> 0 -> rng (inode_ptr vol i) 64 x -> m' x = 0).
Proof.
  intros Wm Hr Hb Hh total. unfold trashfs_format. tfs. rewrite (proj2 (Z.eqb_neq region 0)) by lia. fold total.
  destruct (Z.eqb_spec (bytes mod 128) 0) as [E|E]; cbn [negb]; [|split; [split; [discriminate|tauto]|split; [done|discriminate]]].
  destruct (Z.ltb_spec bytes TRASHFS_MIN_BYTES) as [Hlt|Hge]; [split; [split; [discriminate|lia]|split; [done|discriminate]]|].
  assert (bytes = total * 128) as Et by (unfold total; pose proof (Z.div_mod bytes 128 ltac:(lia)); lia).
  assert (128 <= total) as Ht by (unfold TRASHFS_MIN_BYTES in Hge; lia).
  pose proof (compute_geometry_spec total hint region Hr Ht ltac:(unfold is_u32 in Hb; lia) Hh) as Hg. cbv zeta in Hg.
  destruct (compute_geometry total hint) as [g|]; [|split; [split; [discriminate|lia]|split; [done|discriminate]]].
  destruct Hg as [Eg W]. set (vol := geom_volume region g) in *.
  assert (g_total_blocks g = total) as Etot by (by rewrite Eg).
  assert (1 + ceil_div (ceil_div total 8) 128 + ceil_div (wanted_inodes total hint) 2 < total) as Hfit.
  { pose proof (vo_data _ W) as [_ Hd]. unfold vol in Hd. rewrite Eg in Hd. exact Hd. }
  split; [done|]. split; [done|]. intros _. exists vol. rewrite Et, <-Etot.
  replace (block_ptr region 0) with region by (unfold block_ptr; lia).
  set (fb := u32 _). set (fi := u32 _).
  split_and!; [done|done| | | |done|done|by unfold vol; rewrite Eg; apply Z.mul_comm|].
  - split; [by apply formatted_fs|apply superblock_sb_ok; [done|lia]|symmetry; by apply formatted_unused].
  - by apply formatted_root.
  - by apply formatted_root.
  - by apply formatted_blank.
Qed.

(** The hint asks for an inode table that fits, or leaves the number to the default. *)
Definition hint_fits (bytes hint : Z) : Prop :=
  let total := bytes / 128 in
  hint = 0 \/ 1 + (((total + 7) / 8) + 127) / 128 + (hint + 1) / 2 < total.

(** The default table always fits. *)
Lemma tables_fit bytes hint : is_u32 bytes -> TRASHFS_MIN_BYTES <= bytes -> 0 <= hint -> hint_fits bytes hint ->
  let total := bytes / 128 in
  hint < 0xFFFFFFFF /\ 1 + ceil_div (ceil_div total 8) 128 + ceil_div (wanted_inodes total hint) 2 < total.
Proof.
  intros Hb Hm Hh Hf total. unfold hint_fits, wanted_inodes, ceil_div, TRASHFS_MIN_BYTES, is_u32 in *.
  assert (128 <= total < 2 ^ 25) as Ht by (subst total; split; [apply Z.div_le_lower_bound|apply Z.div_lt_upper_bound]; lia).
  fold total in Hf. clearbody total. change (2 ^ 25) with 33554432 in Ht. clear Hb Hm bytes. unfold u32.
  assert (0 <= (total + 7) / 8 <= total) as H8 by zlia. replace (total + 8 - 1) with (total + 7) by lia.
  rewrite (Z.mod_small (total + 7)) by lia. replace ((total + 7) / 8 + 128 - 1) with ((total + 7) / 8 + 127) by lia.
  rewrite (Z.mod_small ((total + 7) / 8 + 127)) by lia.
  destruct Hf as [->|Hf].
  - split; [lia|]. cbn [Z.eqb]. destruct (Z.ltb_spec (total / 16) 16); rewrite Z.mod_small by zlia; zlia.
  - assert (0 <= ((total + 7) / 8 + 127) / 128) by zlia. assert (hint < 2 * total) by zlia.
    split; [lia|]. destruct (Z.eqb_spec hint 0) as [->|]; [destruct (Z.ltb_spec (total / 16) 16); rewrite Z.mod_small by zlia; zlia|].
    rewrite Z.mod_small by lia. replace (hint + 2 - 1) with (hint + 1) by lia. done.
Qed.

(** C23. [trashfs_format], with no inode hint or one that fits ([hint_fits]), succeeds
    exactly when there is a region and it is a whole number of blocks and large enough.
    Then the region holds an empty volume, which [trashfs_mount] accepts, whatever the
    handle held before: one directory, the root, of size 0, all other inodes and all
    blocks but the tables and the root's first free, and as many inodes as were asked
    for, or one for 16 blocks and no less than 16, rounded up to whole blocks.  Otherwise
    the error says which of the three fails, and memory is as it was. *)
Theorem trash_format_mounts m region bytes hint now : mem_ok m -> 0 <= region -> is_u32 bytes -> 0 <= hint -> hint_fits bytes hint ->
  let '(m', r) := trashfs_format m region bytes hint now in
  r = (if (region =? 0) || negb (bytes mod 128 =? 0) then TRASHFS_ERR_INVALID_ARG
       else if bytes <? TRASHFS_MIN_BYTES then TRASHFS_ERR_TOO_SMALL else TRASHFS_OK) /\
  (r <> TRASHFS_OK -> m' = m) /\
  (r = TRASHFS_OK -> exists vol, (forall v0, trashfs_mount m' v0 region bytes = (vol, TRASHFS_OK)) /\
     volume_ok m' vol (empty_fs vol) /\ isize m' vol 0 = 0 /\
     rd16 m' (inode_ptr vol 0) = Z.lor TRASHFS_MODE_USED TRASHFS_MODE_DIR /\
     free_blocks vol = total_blocks vol - data_start vol - 1 /\ free_inodes vol = inode_count vol - 1 /\
     inode_count vol = 2 * (((if hint =? 0 then Z.max 16 (bytes / 128 / 16) else hint) + 1) / 2)).
Proof.
  intros Wm Hr Hb Hh Hf. destruct (Z.eqb_spec region 0) as [->|Hne]; cbn [orb].
  { unfold trashfs_format. by rewrite Z.eqb_refl. }
  destruct (Z.eqb_spec (bytes mod 128) 0) as [E|E]; cbn [negb].
  2: { unfold trashfs_format. tfs. by rewrite (proj2 (Z.eqb_neq region 0)), (proj2 (Z.eqb_neq (bytes mod 128) 0)). }
  destruct (Z.ltb_spec bytes TRASHFS_MIN_BYTES) as [Hlt|Hge].
  { unfold trashfs_format. tfs. by rewrite (proj2 (Z.eqb_neq region 0)), E, (proj2 (Z.ltb_lt bytes TRASHFS_MIN_BYTES)). }
  destruct (tables_fit bytes hint Hb Hge Hh Hf) as [Hh' Hfit].
  pose proof (format_spec m region bytes hint now Wm ltac:(lia) Hb ltac:(lia)) as H. cbv zeta in H.
  destruct (trashfs_format m region bytes hint now) as [m' r]. destruct H as (H1 & H2 & H3).
  assert (r = TRASHFS_OK) as -> by (by apply H1). split; [done|]. split; [done|].
  intros _. destruct (H3 eq_refl) as (vol & <- & <- & Hv & H4 & H5 & H6 & H7 & H8 & _). exists vol.
  split; [intros v0; by apply (remount m' vol (empty_fs vol))|]. split_and!; try done. rewrite H8. f_equal.
  unfold wanted_inodes, ceil_div, is_u32 in *. rewrite u32_small.
  - f_equal. destruct (hint =? 0); [|lia]. destruct (Z.ltb_spec (v_region_bytes vol / 128 / 16) 16); lia.
  - unfold is_u32. destruct (hint =? 0); [|lia]. destruct (Z.ltb_spec (v_region_bytes vol / 128 / 16) 16); [lia|]. zlia.
Qed.

(** C13. A write through an open file of a well-formed volume, by a handle that has the file's
    size, ends, and reports how many bytes it stored: these and no other bytes of any
    file have changed, the file's size has grown to the end of what was written if that
    is past it and is as it was if not, the handle has the new size and position, and a
    short count means that no block is free or the file has its maximal size; NO_SPACE
    means that nothing was written.  The volume stays well-formed, so that mounting it
    again gives the same handle, and no memory outside the volume changes. *)
Theorem trash_write_correct m vol fs f buf n now : volume_ok m vol fs -> file_ok vol f -> f_is_dir f = false ->
  f_size f = isize m vol (f_inode f) ->
  buf <> 0 -> 0 <= n -> (forall x, rng buf n x -> ~ in_volume vol x) ->
  exists m' vol' f' done fs',
    trashfs_write m vol f buf n now =
      Some (m', vol', f', done, if (done =? 0) && (0 <? n) then TRASHFS_ERR_NO_SPACE else TRASHFS_OK) /\
    written_to buf n now m vol fs f m' vol' f' done fs' /\
    (let size := isize m vol (f_inode f) in
     isize m' vol' (f_inode f) = if done =? 0 then size else Z.max size (f_pos f + done)) /\
    f_size f' = isize m' vol' (f_inode f) /\ f_pos f' = f_pos f + done /\
    volume_ok m' vol' fs' /\
    (forall v0, trashfs_mount m' v0 (v_region vol) (v_region_bytes vol) = (vol', TRASHFS_OK)).
Proof.
  intros H F Hd Hsz Hb Hn Hap. destruct (write_spec m vol fs f buf n now (vk_fs _ _ _ H) F Hd Hb Hn Hap) as (m' & vol' & f' & dn & fs' & E & G).
  exists m', vol', f', dn, fs'. pose proof (written_volume _ _ _ _ _ _ _ _ _ _ _ _ H G) as H'.
  pose proof (wt_size _ _ _ _ _ _ _ _ _ _ _ _ G (f_inode f) (fo_inode _ _ F)) as Es. rewrite decide_True in Es by done.
  destruct (wt_count _ _ _ _ _ _ _ _ _ _ _ _ G) as [Hdn Ef].
  assert (f_size f' = (if dn =? 0 then f_size f else Z.max (f_size f) (f_pos f + dn)) /\ f_pos f' = f_pos f + dn) as [E1 E2].
  { rewrite Ef. unfold file_wrote. destruct (Z.eqb_spec dn 0); cbn; lia. }
  split_and!; [done|done|by rewrite Es, E1, Hsz|done|done|done|].
  intros v0. pose proof (remount m' vol' fs' v0 H') as R. destruct (wt_ok _ _ _ _ _ _ _ _ _ _ _ _ G) as [_ Ev]. rewrite Ev in R at 1 2. exact R.
Qed.

(** A read returns the bytes of the file from the position on, as many as were asked for
    or as remain before the end, holes as zeros, and advances the position; nothing but
    the buffer changes. *)
Theorem trash_read_correct m vol fs f buf n : volume_ok m vol fs -> file_ok vol f -> buf <> 0 -> 0 <= n ->
  (forall x, rng buf n x -> ~ in_volume vol x) ->
  let k := Z.max 0 (Z.min n (f_size f - f_pos f)) in
  exists m', trashfs_read m vol f buf n = Some (m', file_at f (f_pos f + k), k, TRASHFS_OK) /\
    mem_read m' buf k = fbytes m vol fs (f_inode f) (f_pos f) k /\ mem_frame buf k m m' /\ volume_ok m' vol fs.
Proof.
  intros H F Hb Hn Hap k. destruct (read_spec m vol fs f buf n (vk_fs _ _ _ H) F Hb Hn Hap) as (m' & E & H' & Hr & Hf).
  fold k in E, Hr, Hf. exists m'. split_and!; [done|done|done|].
  pose proof (ao_vol _ _ _ (fs_alloc _ _ _ (vk_fs _ _ _ H))) as W.
  assert (forall x, in_volume vol x -> m' x = m x) as Hag.
  { intros x Hx. symmetry. apply Hf. intros Hr'. apply (Hap x); [unfold rng, k in *; lia|done]. }
  assert (0 < inode_count vol) as Hc by (destruct W as [? ? _ (? & ? & ?) _]; lia).
  destruct H as [H S Fr]. destruct vol as [v1 v2 v3 v4 v5 v6 v7 v8 v9 v10 v11 v12] eqn:Ev. split; [done| |].
  - apply (sb_agree m m' (mkVolume v1 v2 v3 v4 v5 v6 v7 v8 v9 v10 v11 v12) v10 v11); [done|]. intros a Ha. apply Hag.
    destruct W as [? ? (? & ? & ?) (? & ? & ?) (? & ?)]. unfold in_volume, rng in *. cbn in *. lia.
  - rewrite Fr. symmetry. apply (unused_agree m m' (mkVolume v1 v2 v3 v4 v5 v6 v7 v8 v9 v10 v11 v12) v10 v11).
    intros i Hi. apply load16_agree. intros a Ha. apply Hag, (inodes_in_volume _ _ W), (inode_inside _ i); [done|done|]. unfold rng in *. lia.
Qed.

(** C22. What was written is read back: after a write of [done] bytes, a read at the same place
    delivers exactly these bytes. *)
Theorem trash_write_read m vol fs f buf n now buf' : volume_ok m vol fs -> file_ok vol f -> f_is_dir f = false ->
  buf <> 0 -> buf' <> 0 -> 0 <= n -> (forall x, rng buf n x \/ rng buf' n x -> ~ in_volume vol x) ->
  exists m1 vol1 f1 done r, trashfs_write m vol f buf n now = Some (m1, vol1, f1, done, r) /\
    exists m2 f2, trashfs_lseek f1 (f_pos f) TRASHFS_SEEK_SET = (file_at f1 (f_pos f), TRASHFS_OK) /\
      trashfs_read m1 vol1 (file_at f1 (f_pos f)) buf' done = Some (m2, f2, done, TRASHFS_OK) /\
      mem_read m2 buf' done = mem_read m buf done.
Proof.
  intros H F Hd Hb Hb' Hn Hap.
  destruct (write_spec m vol fs f buf n now (vk_fs _ _ _ H) F Hd Hb Hn (fun x Hx => Hap x (or_introl Hx))) as (m1 & vol1 & f1 & dn & fs1 & E & G).
  exists m1, vol1, f1, dn. eexists. split; [exact E|]. pose proof (wt_count _ _ _ _ _ _ _ _ _ _ _ _ G) as [Hdn Ef1].
  destruct (wt_ok _ _ _ _ _ _ _ _ _ _ _ _ G) as [H1 Ev]. pose proof F as [Fo Fi Fp Fs].
  assert (f_open f1 = true /\ f_inode f1 = f_inode f /\ is_u32 (f_size f1) /\ (dn = 0 \/ f_pos f + dn <= f_size f1)) as (O1 & O2 & O3 & O4).
  { pose proof (wt_size _ _ _ _ _ _ _ _ _ _ _ _ G _ Fi) as Hsz. rewrite decide_True in Hsz by done. split_and!.
    - rewrite Ef1. unfold file_wrote. by destruct (dn =? 0).
    - rewrite Ef1. unfold file_wrote. by destruct (dn =? 0).
    - rewrite <-Hsz. apply load32_range, (ao_mem _ _ _ (fs_alloc _ _ _ H1)).
    - rewrite Ef1. unfold file_wrote. destruct (Z.eqb_spec dn 0); [by left|right]. cbn. lia. }
  assert (file_ok vol1 (file_at f1 (f_pos f))) as F1 by (split; cbn; [done|rewrite O2, Ev; exact Fi|done|done]).
  destruct (read_spec m1 vol1 fs1 (file_at f1 (f_pos f)) buf' dn H1 F1 Hb' ltac:(lia)) as (m2 & Er & _ & Hr & _).
  { intros x Hx. rewrite Ev. apply Hap. right. unfold rng in *. lia. }
  cbn [file_at f_size f_pos f_inode] in Er, Hr. replace (Z.max 0 (Z.min dn (f_size f1 - f_pos f))) with dn in * by lia.
  exists m2. eexists. split; [|split; [exact Er|]].
  - unfold trashfs_lseek. rewrite O1. cbn [negb lseek_base TRASHFS_SEEK_SET]. unfold lseek_base, TRASHFS_SEEK_SET. cbn [Z.eqb].
    rewrite Z.add_0_l, (proj2 (Z.ltb_ge _ 0)), (proj2 (Z.ltb_ge _ _)) by (unfold is_u32 in Fp; lia). done.
  - rewrite Hr, O2. unfold fbytes, mem_read. apply map_seq_ext. intros k Hk.
    rewrite (wt_bytes _ _ _ _ _ _ _ _ _ _ _ _ G) by (done || (unfold is_u32 in Fp; lia)). rewrite decide_True by lia. f_equal. lia.
Qed.

(** ** A small volume *)

(** A region of the least size, formatted where every byte was 7, at address 0x1000. *)
Definition demo_mem : mem := fst (trashfs_format (fun _ => 7) 0x1000 16384 0 5).
Definition demo_vol : TrashfsVolume := mkVolume 0x1000 16384 128 1 1 2 8 16 10 117 15 true.
Definition demo_file : TrashfsFile := mkFile 1 0 0 false true.

Lemma sevens_ok : mem_ok (fun _ => 7).
Proof. intros a. unfold is_u8. lia. Qed.

Lemma demo_format : snd (trashfs_format (fun _ => 7) 0x1000 16384 0 5) = TRASHFS_OK.
Proof. vm_compute. reflexivity. Qed.

Lemma demo_mount : trashfs_mount demo_mem zero_volume 0x1000 16384 = (demo_vol, TRASHFS_OK).
Proof. vm_compute. reflexivity. Qed.

Lemma formatted_mounted m region bytes hint now vol : mem_ok m -> 0 < region -> is_u32 bytes -> 0 <= hint < 0xFFFFFFFF ->
  snd (trashfs_format m region bytes hint now) = TRASHFS_OK ->
  trashfs_mount (fst (trashfs_format m region bytes hint now)) zero_volume region bytes = (vol, TRASHFS_OK) ->
  let m' := fst (trashfs_format m region bytes hint now) in
  volume_ok m' vol (empty_fs vol) /\ isize m' vol 0 = 0 /\ rd16 m' (inode_ptr vol 0) = Z.lor TRASHFS_MODE_USED TRASHFS_MODE_DIR /\
  forall i x, an_inode vol i -> i <> 0 -> rng (inode_ptr vol i) 64 x -> m' x = 0.
Proof.
  intros Wm Hr Hb Hh Hok Hm. pose proof (format_spec m region bytes hint now Wm Hr Hb Hh) as H. cbv zeta in H.
  destruct (trashfs_format m region bytes hint now) as [m' r]. cbn [fst snd] in *. destruct H as (_ & _ & H).
  destruct (H Hok) as (v & Er & Eb & Hv & Hs & Hmo & _ & _ & _ & Hz). pose proof (remount m' v _ zero_volume Hv) as R. rewrite Er, Eb, Hm in R.
  injection R as ->. split_and!; [exact Hv|exact Hs|exact Hmo|exact Hz].
Qed.

Lemma demo_formatted : volume_ok demo_mem demo_vol (empty_fs demo_vol) /\ isize demo_mem demo_vol 0 = 0 /\
  rd16 demo_mem (inode_ptr demo_vol 0) = Z.lor TRASHFS_MODE_USED TRASHFS_MODE_DIR /\
  forall i x, an_inode demo_vol i -> i <> 0 -> rng (inode_ptr demo_vol i) 64 x -> demo_mem x = 0.
Proof.
  apply (formatted_mounted (fun _ => 7) 0x1000 16384 0 5 demo_vol sevens_ok); [lia|split; lia|lia|exact demo_format|exact demo_mount].
Qed.

Lemma demo_ok : volume_ok demo_mem demo_vol (empty_fs demo_vol).
Proof. apply demo_formatted. Qed.

Lemma demo_file_ok : file_ok demo_vol demo_file.
Proof. split; cbn; [reflexivity|split; cbn; lia|split; lia|split; lia]. Qed.

Lemma demo_file_size : f_size demo_file = isize demo_mem demo_vol (f_inode demo_file).
Proof. vm_compute. reflexivity. Qed.

Lemma demo_apart a n x : rng a n x -> a + n <= 0x1000 \/ 0x5000 <= a -> ~ in_volume demo_vol x.
Proof. unfold in_volume, rng. cbn. lia. Qed.

Lemma demo_buffer x : rng 0x100 300 x -> ~ in_volume demo_vol x.
Proof. intros H. apply (demo_apart 0x100 300 x H). lia. Qed.

Lemma trash_format_mounts_witness :
  snd (trashfs_format (fun _ => 7) 0x1000 16384 0 5) = TRASHFS_OK /\
  exists vol, trashfs_mount demo_mem zero_volume 0x1000 16384 = (vol, TRASHFS_OK) /\ free_inodes vol = inode_count vol - 1 /\
    inode_count vol = 16.
Proof.
  pose proof (trash_format_mounts (fun _ => 7) 0x1000 16384 0 5 sevens_ok ltac:(lia) ltac:(split; lia) ltac:(lia) (or_introl eq_refl)) as H.
  unfold demo_mem. destruct (trashfs_format (fun _ => 7) 0x1000 16384 0 5) as [m' r]. destruct H as (E & _ & H).
  split; [exact E|]. destruct (H E) as (vol & H1 & _ & _ & _ & _ & H2 & H3). exists vol. split; [apply H1|]. split; [exact H2|exact H3].
Defined.

Lemma trash_write_correct_witness : exists m' vol' f' done fs', trashfs_write demo_mem demo_vol demo_file 0x100 300 6 =
    Some (m', vol', f', done, if (done =? 0) && (0 <? 300) then TRASHFS_ERR_NO_SPACE else TRASHFS_OK) /\
  written_to 0x100 300 6 demo_mem demo_vol (empty_fs demo_vol) demo_file m' vol' f' done fs'.
Proof.
  destruct (trash_write_correct demo_mem demo_vol (empty_fs demo_vol) demo_file 0x100 300 6 demo_ok demo_file_ok eq_refl demo_file_size
    ltac:(lia) ltac:(lia) demo_buffer) as (m' & vol' & f' & dn & fs' & E & G & _).
  exists m', vol', f', dn, fs'. split; [exact E|exact G].
Defined.

(** A handle that claims more than the file has reads zeros, as from any hole. *)
Lemma trash_read_correct_witness : exists m', trashfs_read demo_mem demo_vol (mkFile 1 200 100 false true) 0x100 300 =
  Some (m', mkFile 1 200 200 false true, 100, TRASHFS_OK).
Proof.
  destruct (trash_read_correct demo_mem demo_vol (empty_fs demo_vol) (mkFile 1 200 100 false true) 0x100 300 demo_ok
    ltac:(split; cbn; [reflexivity|split; cbn; lia|split; lia|split; lia])
    ltac:(lia) ltac:(lia) demo_buffer) as (m' & E & _).
  exists m'. exact E.
Defined.

Lemma trash_write_read_witness : exists m1 vol1 f1 done r, trashfs_write demo_mem demo_vol demo_file 0x100 300 6 = Some (m1, vol1, f1, done, r) /\
  exists m2 f2, trashfs_read m1 vol1 (file_at f1 0) 0x100000 done = Some (m2, f2, done, TRASHFS_OK) /\
    mem_read m2 0x100000 done = mem_read demo_mem 0x100 done.
Proof.
  destruct (trash_write_read demo_mem demo_vol (empty_fs demo_vol) demo_file 0x100 300 6 0x100000 demo_ok demo_file_ok eq_refl
    ltac:(lia) ltac:(lia) ltac:(lia)) as (m1 & vol1 & f1 & dn & r & E & m2 & f2 & _ & Er & Hr).
  - intros x [Hx|Hx]; [apply (demo_apart 0x100 300 x Hx); left|apply (demo_apart 0x100000 300 x Hx); right]; lia.
  - exists m1, vol1, f1, dn, r. split; [exact E|]. exists m2, f2. split; [exact Er|exact Hr].
Defined.

(** ** Where the code falls short *)

(** A hint near the top of 32 bits wraps to no inodes at all, and formatting succeeds: the
    table is empty and the root's inode lies in the root's first data block.  A hint that
    does not fit is refused, not clamped. *)
Example hint_wraps : compute_geometry 128 0xFFFFFFFF = Some (mkGeom 128 1 1 2 0 0 2) /\
  snd (trashfs_format (fun _ => 7) 0x1000 16384 0xFFFFFFFF 5) = TRASHFS_OK.
Proof. split; vm_compute; reflexivity. Qed.

Example hint_refused : compute_geometry 128 1000 = None.
Proof. reflexivity. Qed.

(** The sums of the superblock are compared after they wrap: a volume whose inode table
    begins half a terabyte past the region mounts. *)
Example mount_accepts_wrapped :
  let '(vol, r) := trashfs_mount (write_superblock (fun _ => 0) 0x1000 (mkGeom 128 1 0xFFFFFEFF 0xFFFFFF00 0x110 0x220 0x10) 0 0 0)
                     zero_volume 0x1000 16384 in
  r = TRASHFS_OK /\ inode_ptr vol 0 = 0x1000 + 0xFFFFFF00 * 128.
Proof. vm_compute. split; reflexivity. Qed.

(** A handle opened before another one extended the file still has the old size, and its
    next write records that: the file ends where this write ends. *)
Lemma stale_handle_truncates m vol fs f buf n now : volume_ok m vol fs -> file_ok vol f -> f_is_dir f = false ->
  buf <> 0 -> 0 <= n -> (forall x, rng buf n x -> ~ in_volume vol x) -> f_size f <= f_pos f ->
  exists m' vol' f' done r, trashfs_write m vol f buf n now = Some (m', vol', f', done, r) /\
    (0 < done -> isize m' vol (f_inode f) = f_pos f + done).
Proof.
  intros H F Hd Hb Hn Hap Hs. destruct (write_spec m vol fs f buf n now (vk_fs _ _ _ H) F Hd Hb Hn Hap) as (m' & vol' & f' & dn & fs' & E & G).
  exists m', vol', f', dn. eexists. split; [exact E|]. intros Hdn. destruct (wt_ok _ _ _ _ _ _ _ _ _ _ _ _ G) as [_ Ev].
  change (isize m' vol (f_inode f)) with (isize m' (set_free vol (free_blocks vol') (free_inodes vol)) (f_inode f)).
  rewrite <-Ev, (wt_size _ _ _ _ _ _ _ _ _ _ _ _ G) by apply F. rewrite decide_True by done.
  rewrite (proj2 (wt_count _ _ _ _ _ _ _ _ _ _ _ _ G)). unfold file_wrote. rewrite (proj2 (Z.eqb_neq dn 0)) by lia. cbn. lia.
Qed.
