(* ===== verification/TrashDir.v ===== *)
(** Directories: a directory is a file of 48-byte slots, two to a block, each empty or an
    entry that names an inode.  Here the scans of [src/storage/trashfs.c] are shown to
    end, and to look names up, find free slots, clear and fill entries as operations on a
    finite map from names to inodes. *)
From stdpp Require Import gmap.
From S2P Require Import Prelude HostMem TrashFs TrashTree TrashFile TrashFree TrashFmt.
#[local] Open Scope Z_scope.

(** ** Slots *)

(** The offset of slot [j], and the size of a directory of [n] slots. *)
Definition slot_off (j : Z) : Z := j / 2 * 128 + j mod 2 * 48.
Definition after (n : Z) : Z := if n =? 0 then 0 else slot_off (n - 1) + 48.

Lemma half_parts j : j = 2 * (j / 2) + j mod 2 /\ 0 <= j mod 2 < 2.
Proof. split; [apply Z.div_mod; lia|apply Z.mod_pos_bound; lia]. Qed.

Lemma slot_off_div j : slot_off j / 128 = j / 2 /\ slot_off j mod 128 = j mod 2 * 48.
Proof.
  destruct (half_parts j) as [_ Hm]. unfold slot_off.
  split; symmetry; [apply (Z.div_unique _ 128 _ (j mod 2 * 48))|apply (Z.mod_unique _ 128 (j / 2))]; lia.
Qed.

Lemma slot_off_lt j k : j < k -> slot_off j + 48 <= slot_off k.
Proof. intros Hjk. destruct (half_parts j) as [Ej Hj], (half_parts k) as [Ek Hk]. unfold slot_off. nia. Qed.

Lemma after_S n : 0 <= n -> after (n + 1) = slot_off n + 48.
Proof. intros Hn. unfold after. rewrite (proj2 (Z.eqb_neq _ _)) by lia. do 2 f_equal. lia. Qed.

Lemma after_le_off n : 0 <= n -> after n <= slot_off n.
Proof. intros Hn. unfold after. destruct (Z.eqb_spec n 0) as [->|]; [done|]. apply slot_off_lt. lia. Qed.

Lemma after_mono j n : 0 <= j <= n -> after j <= after n.
Proof.
  intros H. destruct (decide (j = n)) as [->|]; [lia|]. etransitivity; [apply (after_le_off j); lia|].
  unfold after. rewrite (proj2 (Z.eqb_neq n 0)) by lia. destruct (decide (j = n - 1)) as [->|]; [lia|].
  pose proof (slot_off_lt j (n - 1) ltac:(lia)). lia.
Qed.

Lemma after_bounds n : 0 <= n -> n <= after n /\ after n <= n * 64 + 48.
Proof.
  intros Hn. unfold after. destruct (Z.eqb_spec n 0) as [->|]; [lia|]. destruct (half_parts (n - 1)) as [E H]. unfold slot_off. lia.
Qed.

Definition max_slots : Z := 2 * max_blocks.

Lemma after_u32 n : 0 <= n <= max_slots -> 0 <= after n <= 0xFFFFFF.
Proof. unfold max_slots, max_blocks. intros Hn. pose proof (after_bounds n ltac:(lia)). lia. Qed.

Lemma align_after n : 0 <= n <= max_slots -> dirent_align (after n) = slot_off n.
Proof.
  intros Hn. pose proof (after_u32 n Hn) as Hu. unfold dirent_align, after in *. tfs. destruct (Z.eqb_spec n 0) as [->|Hne]; [done|].
  pose proof (half_parts n) as [En Hm]. pose proof (half_parts (n - 1)) as [Ep Hp].
  rewrite Zplus_mod, (proj2 (slot_off_div (n - 1))). change (48 mod 128) with 48. unfold slot_off in *.
  destruct (decide (n mod 2 = 0)) as [E|E].
  - assert ((n - 1) mod 2 = 1 /\ n / 2 = (n - 1) / 2 + 1) as [E1 E2] by lia. rewrite E1, E2, E in *.
    change ((1 * 48 + 48) mod 128) with 96. change (128 <? 96 + 48) with true. cbv iota.
    rewrite u32_small by (unfold is_u32; lia). lia.
  - assert ((n - 1) mod 2 = 0 /\ n / 2 = (n - 1) / 2 /\ n mod 2 = 1) as (E1 & E2 & E3) by lia. rewrite E1, E2, E3 in *.
    change ((0 * 48 + 48) mod 128) with 48. change (128 <? 48 + 48) with false. cbv iota. lia.
Qed.

(** ** Well-formed directories *)

Record dir_ok (m : mem) (vol : TrashfsVolume) (i n : Z) : Prop := {
  do_inode : an_inode vol i;
  do_count : 0 <= n <= max_slots;
  do_size : isize m vol i = after n
}.

Definition slot_block (fs : list tree) (i j : Z) : Z := ileaf (itree fs i) (j / 2).
Definition slot_addr (vol : TrashfsVolume) (fs : list tree) (i j : Z) : Z :=
  block_ptr (v_region vol) (slot_block fs i j) + j mod 2 * 48.

(** The scan stops at slot [j]. *)
Definition stops (vol : TrashfsVolume) (fs : list tree) (i : Z) (stop : Z -> bool) (j : Z) : bool :=
  negb (slot_block fs i j =? 0) && stop (slot_addr vol fs i j).

(** A scan visits the slots in order up to the first at which it stops. *)
Lemma dir_scan_spec m vol fs i n stop fuel : forall k, fs_ok m vol fs -> dir_ok m vol i n -> 0 <= k <= n -> n - k <= Z.of_nat fuel ->
  dir_scan fuel m vol (inode_ptr vol i) (after n) stop (after k) =
  Some (match find (stops vol fs i stop) (seqZ k (n - k)) with
        | Some j => (Some (slot_addr vol fs i j), after (j + 1)) | None => (None, after n) end).
Proof.
  induction fuel as [|fuel IH]; intros k H D Hk Hf; pose proof (do_count _ _ _ _ D) as Hn;
    pose proof (after_u32 k ltac:(lia)) as Hku; cbn [dir_scan]; tfs; rewrite (u32_small (after k + 48)) by (unfold is_u32; lia).
  - assert (k = n) as -> by lia. rewrite (proj2 (Z.ltb_lt _ _)), Z.sub_diag by lia. done.
  - destruct (decide (k = n)) as [->|Hne].
    { rewrite (proj2 (Z.ltb_lt _ _)), Z.sub_diag by lia. done. }
    pose proof (after_le_off k ltac:(lia)) as Hak. pose proof (after_mono (k + 1) n ltac:(lia)) as Hkn. rewrite after_S in Hkn by lia.
    pose proof (after_u32 n Hn) as Hnu. rewrite (proj2 (Z.ltb_ge _ _)), align_after, u32_small, (proj2 (Z.ltb_ge _ _)) by (unfold is_u32; lia).
    destruct (slot_off_div k) as [-> ->]. rewrite (fs_map_lbn m vol fs) by (done || apply D || (apply Z.div_pos; lia)).
    rewrite <-(after_S k), (seqZ_cons k) by lia. cbn [find]. unfold stops at 1. fold (slot_block fs i k). fold (slot_addr vol fs i k).
    rewrite <-Z.add_1_r, IH by (done || lia). replace (Z.pred (n - k)) with (n - (k + 1)) by lia.
    destruct (slot_block fs i k =? 0); cbn [negb andb]; [done|]. by destruct (stop (slot_addr vol fs i k)).
Qed.

Lemma dir_slots_spec m vol fs i n stop : fs_ok m vol fs -> dir_ok m vol i n -> dir_slots m vol i stop =
  Some (match find (stops vol fs i stop) (seqZ 0 n) with
        | Some j => (Some (slot_addr vol fs i j), after (j + 1)) | None => (None, after n) end).
Proof.
  intros H D. unfold dir_slots. fold (isize m vol i). rewrite (do_size _ _ _ _ D). pose proof (do_count _ _ _ _ D) as Hn.
  pose proof (dir_scan_spec m vol fs i n stop (Z.to_nat (after n)) 0 H D ltac:(lia)) as E. rewrite Z.sub_0_r in E. apply E.
  pose proof (after_bounds n ltac:(lia)). lia.
Qed.

(** ** Entries *)

(** A name, with the inode and the type it stands for. *)
Definition dentry : Type := list Z * (Z * Z).

Definition parse (bs : list Z) : option dentry :=
  let ino := le_val (take 4 bs) in
  if ino =? 0 then None else Some (take (Z.to_nat (nth 5 bs 0)) (drop 6 bs), (ino, nth 4 bs 0)).

Definition sbytes (m : mem) (vol : TrashfsVolume) (fs : list tree) (i j : Z) : list Z := fbytes m vol fs i (slot_off j) 48.
Definition entry (m : mem) (vol : TrashfsVolume) (fs : list tree) (i j : Z) : option dentry := parse (sbytes m vol fs i j).

Lemma sbytes_eq m vol fs i j : 0 <= j -> sbytes m vol fs i j =
  if slot_block fs i j =? 0 then replicate 48 0 else mem_read m (slot_addr vol fs i j) 48.
Proof.
  intros Hj. unfold sbytes. destruct (half_parts j) as [Ej Hm]. assert (0 <= slot_off j) as H0 by (unfold slot_off; lia).
  rewrite fbytes_chunk; [|done|lia|rewrite (proj2 (slot_off_div j)); lia]. cbv zeta. by destruct (slot_off_div j) as [-> ->].
Qed.

Lemma nth_mem_read m a n k : 0 <= k < n -> nth (Z.to_nat k) (mem_read m a n) 0 = m (a + k).
Proof. intros Hk. rewrite mem_read_nth by lia. f_equal. lia. Qed.

Lemma drop_mem_read m a n k : 0 <= k <= n -> drop (Z.to_nat k) (mem_read m a n) = mem_read m (a + k) (n - k).
Proof.
  intros Hk. replace n with (k + (n - k)) at 1 by lia. rewrite mem_read_app by lia. by rewrite drop_app_length' by (rewrite mem_read_length; lia).
Qed.

(** The entry of a slot with a block, as the code reads it. *)
Lemma entry_mem m vol fs i j : 0 <= j -> slot_block fs i j <> 0 -> let e := slot_addr vol fs i j in
  entry m vol fs i j = if rd32 m e =? 0 then None else
    Some (take (Z.to_nat (m (e + 5))) (mem_read m (e + 6) 42), (rd32 m e, m (e + 4))).
Proof.
  intros Hj Hb e. unfold entry, parse. rewrite sbytes_eq, (proj2 (Z.eqb_neq _ 0) Hb) by done. fold e.
  change 4%nat with (Z.to_nat 4) at 1. rewrite mem_read_take by lia. change 6%nat with (Z.to_nat 6). rewrite drop_mem_read by lia.
  change 5%nat with (Z.to_nat 5). change (nth 4 (mem_read m e 48) 0) with (nth (Z.to_nat 4) (mem_read m e 48) 0).
  rewrite !nth_mem_read by lia. done.
Qed.

Lemma entry_hole m vol fs i j : 0 <= j -> slot_block fs i j = 0 -> entry m vol fs i j = None.
Proof. intros Hj Hb. unfold entry. by rewrite sbytes_eq, Hb. Qed.

Lemma stops_live m vol fs i j : 0 <= j ->
  stops vol fs i (fun e => negb (rd32 m (e + 0) =? 0)) j = bool_decide (is_Some (entry m vol fs i j)).
Proof.
  intros Hj. unfold stops. destruct (Z.eqb_spec (slot_block fs i j) 0) as [E|E]; cbn [negb andb].
  - by rewrite entry_hole, bool_decide_eq_false_2 by (done || by intros [? ?]).
  - rewrite Z.add_0_r, entry_mem by done. destruct (_ =? 0); cbn [negb]; symmetry; [by apply bool_decide_eq_false; intros [? ?]|by apply bool_decide_eq_true].
Qed.

(** The tokenizer lets no name longer than 32 bytes pass; a slot has room for 42. *)
Lemma stops_named m vol fs i j name : mem_ok m -> 0 <= j -> (length name <= 32)%nat ->
  stops vol fs i (entry_named m name) j = bool_decide (fst <$> entry m vol fs i j = Some name).
Proof.
  intros Wm Hj Hl. unfold stops. destruct (Z.eqb_spec (slot_block fs i j) 0) as [E|E]; cbn [negb andb].
  - by rewrite entry_hole.
  - rewrite entry_mem by done. cbv zeta. set (e := slot_addr vol fs i j). unfold entry_named. rewrite Z.add_0_r.
    destruct (rd32 m e =? 0); [done|]. cbn [negb andb fmap option_fmap option_map fst].
    pose proof (Wm (e + 5)) as Hu. unfold is_u8 in Hu. destruct (Z.eqb_spec (m (e + 5)) (Z.of_nat (length name))) as [El|El]; cbn [andb].
    + rewrite El, mem_read_take by lia. apply bool_decide_ext. by split; [intros ->|intros [= ->]].
    + symmetry. apply bool_decide_eq_false. intros [= En]. apply El.
      apply (f_equal length) in En. rewrite length_take, mem_read_length in En. lia.
Qed.

(** ** Directories as maps *)

Definition entries (m : mem) (vol : TrashfsVolume) (fs : list tree) (i n : Z) : list dentry :=
  omap (entry m vol fs i) (seqZ 0 n).
Definition dir_map (m : mem) (vol : TrashfsVolume) (fs : list tree) (i n : Z) : gmap (list Z) (Z * Z) :=
  list_to_map (entries m vol fs i n).

Lemma find_ext {A} (p q : A -> bool) l : (forall x, x ∈ l -> p x = q x) -> find p l = find q l.
Proof.
  induction l as [|x l IH]; intros H; [done|]. cbn [find]. rewrite (H x) by (by left). rewrite IH; [done|].
  intros y Hy. apply H. by right.
Qed.

(** The first entry with a name is the one the map holds. *)
Lemma find_named {B} (g : Z -> option (list Z * B)) name l :
  match find (fun j => bool_decide (fst <$> g j = Some name)) l with Some j => snd <$> g j | None => None end =
  (list_to_map (omap g l) : gmap (list Z) B) !! name.
Proof.
  induction l as [|j l IH]; [done|]. cbn [find omap list_omap]. destruct (g j) as [[nm v]|] eqn:E; cbn [fmap option_fmap option_map fst].
  - case_bool_decide as En.
    + injection En as ->. rewrite E. cbn [list_to_map foldr uncurry fst snd]. by rewrite lookup_insert_eq.
    + cbn [list_to_map foldr uncurry fst snd]. rewrite lookup_insert_ne by congruence. exact IH.
  - rewrite bool_decide_eq_false_2 by done. exact IH.
Qed.

Lemma dir_map_find m vol fs i n name : dir_map m vol fs i n !! name =
  match find (fun j => bool_decide (fst <$> entry m vol fs i j = Some name)) (seqZ 0 n) with
  | Some j => snd <$> entry m vol fs i j | None => None end.
Proof. symmetry. apply find_named. Qed.

Lemma find_in {A} (p : A -> bool) l x : find p l = Some x -> x ∈ l /\ p x = true.
Proof. intros H. apply find_some in H as [Hx Hp]. split; [by apply list_elem_of_In|done]. Qed.

Lemma find_not {A} (p : A -> bool) l x : find p l = None -> x ∈ l -> p x = false.
Proof. intros H Hx. apply (find_none _ _ H). by apply list_elem_of_In. Qed.

Lemma stops_named_find m vol fs i n name : mem_ok m -> (length name <= 32)%nat ->
  find (stops vol fs i (entry_named m name)) (seqZ 0 n) =
  find (fun j => bool_decide (fst <$> entry m vol fs i j = Some name)) (seqZ 0 n).
Proof. intros Wm Hl. apply find_ext. intros j Hj%elem_of_seqZ. apply stops_named; [done|lia|done]. Qed.

(** An entry found lies in a slot with a block. *)
Lemma live_block m vol fs i j d : 0 <= j -> entry m vol fs i j = Some d -> slot_block fs i j <> 0.
Proof. intros Hj E Hb. by rewrite entry_hole in E. Qed.

Lemma fs_mem_ok m vol fs : fs_ok m vol fs -> mem_ok m.
Proof. intros H. apply (ao_mem _ _ _ (fs_alloc _ _ _ H)). Qed.

Lemma dir_find_in_spec m vol fs i n name : fs_ok m vol fs -> dir_ok m vol i n -> (length name <= 32)%nat ->
  dir_find_in m vol i name = Some (dir_map m vol fs i n !! name).
Proof.
  intros H D Hl. unfold dir_find_in. rewrite (dir_slots_spec m vol fs i n) by done. cbn [mbind option_bind].
  rewrite stops_named_find by (done || by eapply fs_mem_ok). rewrite dir_map_find.
  destruct (find _ _) as [j|] eqn:E; [|done]. apply find_in in E as [Hj%elem_of_seqZ Hp]. apply bool_decide_eq_true in Hp.
  destruct (entry m vol fs i j) as [d|] eqn:Ee; [|done]. pose proof (live_block _ _ _ _ _ _ (proj1 Hj) Ee) as Hb.
  rewrite entry_mem in Ee by (done || lia). cbv zeta in Ee. rewrite Z.add_0_r. destruct (_ =? 0); [done|]. by injection Ee as <-.
Qed.

Lemma entries_in m vol fs i n d : d ∈ entries m vol fs i n <-> exists j, 0 <= j < n /\ entry m vol fs i j = Some d.
Proof.
  unfold entries. rewrite list_elem_of_omap. split; intros (j & Hj & E); exists j; rewrite elem_of_seqZ in *; split; done || lia.
Qed.

Lemma dir_is_empty_spec m vol fs i n : fs_ok m vol fs -> dir_ok m vol i n ->
  dir_is_empty m vol i = Some (bool_decide (entries m vol fs i n = [])).
Proof.
  intros H D. unfold dir_is_empty. rewrite (dir_slots_spec m vol fs i n) by done. cbn [mbind option_bind].
  rewrite (find_ext _ (fun j => bool_decide (is_Some (entry m vol fs i j)))).
  2: { intros j Hj%elem_of_seqZ. apply stops_live. lia. }
  destruct (find _ _) as [j|] eqn:E; f_equal; symmetry.
  - apply find_in in E as [Hj%elem_of_seqZ Hp]. apply bool_decide_eq_true in Hp as [d Hd]. apply bool_decide_eq_false. intros En.
    assert (d ∈ entries m vol fs i n) as Hin by (apply entries_in; exists j; split; [lia|done]). rewrite En in Hin. by apply elem_of_nil in Hin.
  - apply bool_decide_eq_true. destruct (entries m vol fs i n) as [|d l] eqn:El; [done|].
    assert (d ∈ entries m vol fs i n) as Hin by (rewrite El; by left). apply entries_in in Hin as (j & Hj & Hd).
    pose proof (find_not _ _ j E ltac:(apply elem_of_seqZ; lia)) as Hf. apply bool_decide_eq_false in Hf. by destruct Hf.
Qed.

Lemma omap_ext_elem {A C} (f g : A -> option C) (l : list A) : (forall x, x ∈ l -> f x = g x) -> omap f l = omap g l.
Proof.
  induction l as [|x l IH]; intros Hl; [done|]. cbn [omap list_omap]. rewrite (Hl x) by (by left). rewrite IH; [done|].
  intros y Hy. apply Hl. by right.
Qed.

(** ** What a step keeps *)

Definition none (_ : Z) : Prop := False.
Definition only (i : Z) (k : Z) : Prop := k = i.

Lemma not_none i : ~ none i.
Proof. by intros []. Qed.

Lemma not_only i k : k <> i -> ~ only i k.
Proof. done. Qed.

#[export] Hint Resolve not_none not_only : core.

(** Only the inodes in [B] may have other contents, those in [H] another header, and those
    in [P] other pointers. *)
Record kept (B H P : Z -> Prop) (m : mem) (vol : TrashfsVolume) (fs : list tree) (m' : mem) (vol' : TrashfsVolume)
    (fs' : list tree) : Prop := {
  kp_ok : fs_ok m' vol' fs';
  kp_vol : vol' = set_free vol (free_blocks vol') (free_inodes vol');
  kp_bytes i p : an_inode vol i -> ~ B i -> 0 <= p -> fbyte m' vol' fs' i p = fbyte m vol fs i p;
  kp_head i x : an_inode vol i -> ~ H i -> rng (inode_ptr vol i) 16 x -> m' x = m x;
  kp_ptrs i x : an_inode vol i -> ~ P i -> rng (inode_ptr vol i + 16) 48 x -> m' x = m x;
  kp_super x : rng (v_region vol) 128 x -> m' x = m x;
  kp_out x : ~ in_volume vol x -> m' x = m x
}.

Lemma kept_refl B H P m vol fs : fs_ok m vol fs -> kept B H P m vol fs m vol fs.
Proof. intros Hf. split; try done. by destruct vol. Qed.

Lemma kept_weaken (B H P B' H' P' : Z -> Prop) m vol fs m' vol' fs' : (forall i, B i -> B' i) -> (forall i, H i -> H' i) -> (forall i, P i -> P' i) ->
  kept B H P m vol fs m' vol' fs' -> kept B' H' P' m vol fs m' vol' fs'.
Proof. intros HB HH HP [K1 K2 K3 K4 K5 K6 K7]. split; try done; naive_solver. Qed.

Lemma keeps_trans B H P m vol fs m1 vol1 fs1 m2 vol2 fs2 : kept B H P m vol fs m1 vol1 fs1 -> kept B H P m1 vol1 fs1 m2 vol2 fs2 ->
  kept B H P m vol fs m2 vol2 fs2.
Proof.
  intros [A1 A2 A3 A4 A5 A6 A7] [B1 B2 B3 B4 B5 B6 B7]. rewrite A2 in B4, B5, B6, B7. split.
  - done.
  - rewrite B2, A2. done.
  - intros i p Hi Hn Hp. rewrite B3; [by apply A3|by rewrite A2|done|done].
  - intros i x Hi Hn Hx. rewrite (B4 i x Hi Hn Hx). by apply (A4 i).
  - intros i x Hi Hn Hx. rewrite (B5 i x Hi Hn Hx). by apply (A5 i).
  - intros x Hx. rewrite (B6 x Hx). by apply A6.
  - intros x Hx. rewrite (B7 x Hx). by apply A7.
Qed.

Lemma kept_vol B H P m vol fs m' vol' fs' : kept B H P m vol fs m' vol' fs' ->
  (forall i, an_inode vol' i <-> an_inode vol i) /\ inode_ptr vol' = inode_ptr vol /\ v_region vol' = v_region vol /\
  inode_count vol' = inode_count vol.
Proof. intros K. rewrite (kp_vol _ _ _ _ _ _ _ _ _ K). done. Qed.

Lemma kept_entry B H P m vol fs m' vol' fs' i j : kept B H P m vol fs m' vol' fs' -> an_inode vol i -> ~ B i -> 0 <= j ->
  entry m' vol' fs' i j = entry m vol fs i j.
Proof.
  intros K Hi Hn Hj. unfold entry, sbytes. f_equal. apply fbytes_ext. intros p Hp. apply (kp_bytes _ _ _ _ _ _ _ _ _ K); [done|done|].
  destruct (half_parts j). unfold slot_off in Hp. lia.
Qed.

Lemma kept_entries B H P m vol fs m' vol' fs' i n : kept B H P m vol fs m' vol' fs' -> an_inode vol i -> ~ B i ->
  entries m' vol' fs' i n = entries m vol fs i n.
Proof.
  intros K Hi Hn. apply omap_ext_elem. intros j Hj%elem_of_seqZ. apply (kept_entry _ _ _ _ _ _ _ _ _ _ _ K Hi Hn). lia.
Qed.

Lemma kept_size B H P m vol fs m' vol' fs' i : kept B H P m vol fs m' vol' fs' -> an_inode vol i -> ~ H i ->
  isize m' vol' i = isize m vol i /\ rd16 m' (inode_ptr vol' i) = rd16 m (inode_ptr vol i).
Proof.
  intros K Hi Hn. destruct (kept_vol _ _ _ _ _ _ _ _ _ K) as (_ & Ep & _). unfold isize, rd32, rd16. rewrite Ep.
  split; symmetry; [apply load32_agree|apply load16_agree]; intros x Hx; symmetry; apply (kp_head _ _ _ _ _ _ _ _ _ K i); try done;
    unfold rng in *; lia.
Qed.

Lemma kept_dir B H P m vol fs m' vol' fs' i n : kept B H P m vol fs m' vol' fs' -> ~ H i -> dir_ok m vol i n -> dir_ok m' vol' i n.
Proof.
  intros K Hn [D1 D2 D3]. split; [by apply (kept_vol _ _ _ _ _ _ _ _ _ K)|done|].
  by rewrite (proj1 (kept_size _ _ _ _ _ _ _ _ _ _ K D1 Hn)).
Qed.

(** ** The steps *)

(** Bytes of a data block. *)
Lemma slot_in_block vol fs i j x : 0 <= j -> rng (slot_addr vol fs i j) 48 x -> in_block vol (slot_block fs i j) x.
Proof. intros Hj Hx. destruct (half_parts j). unfold slot_addr, in_block, rng in *. lia. Qed.

Lemma slot_change m m' vol fs i j : fs_ok m vol fs -> an_inode vol i -> 0 <= j -> slot_block fs i j <> 0 -> mem_ok m' ->
  mem_frame (slot_addr vol fs i j) 48 m m' ->
  kept (only i) none none m vol fs m' vol fs /\ forall j', 0 <= j' -> j' <> j -> entry m' vol fs i j' = entry m vol fs i j'.
Proof.
  intros H Hi Hj Hb Wm Hf. pose proof (ao_vol _ _ _ (fs_alloc _ _ _ H)) as W. assert (0 <= j / 2) as Hq by (apply Z.div_pos; lia).
  pose proof (ileaf_data m vol fs i (j / 2) H Hi Hq Hb) as Hd. fold (slot_block fs i j) in Hd.
  assert (forall x, ~ in_block vol (slot_block fs i j) x -> m' x = m x) as Hag.
  { intros x Hx. symmetry. apply Hf. intros Hr. apply Hx. by apply (slot_in_block vol fs i j). }
  split; [split|].
  - apply (fs_ok_agree m); [done|done|]. intros x Hx. symmetry. apply Hag. intros Hbx.
    by apply (data_not_structure m vol fs i (j / 2) x).
  - by destruct vol.
  - intros i' p Hi' Hn Hp. apply fbyte_agree; [done|done|done|]. intros x Hx Hne. symmetry. apply Hag. intros Hbx.
    apply Hn. unfold only. apply (ileaf_inj m vol fs i' i (p / 128) (j / 2) H Hi' Hi ltac:(by apply Z.div_pos) Hq Hne).
    by apply (in_block_inj vol _ _ x).
  - intros i' x Hi' _ Hx. apply Hag. intros Hbx. apply (data_not_inodes vol _ x W Hd Hbx), (inode_inside vol i'); [done|done|]. unfold rng in *. lia.
  - intros i' x Hi' _ Hx. apply Hag. intros Hbx. apply (data_not_inodes vol _ x W Hd Hbx), (inode_inside vol i'); [done|done|]. unfold rng in *. lia.
  - intros x Hx. apply Hag. intros Hbx. by apply (proj2 (proj2 (super_place vol i x W Hi Hx)) (slot_block fs i j)).
  - intros x Hx. apply Hag. intros Hbx. apply Hx. by apply (block_in_volume vol (slot_block fs i j)).
  - intros j' Hj' Hne. unfold entry. f_equal. rewrite !sbytes_eq by done. destruct (Z.eqb_spec (slot_block fs i j') 0) as [|Hb']; [done|].
    apply mem_read_agree. intros x Hx. symmetry. apply Hf. intros Hr.
    pose proof (slot_in_block vol fs i j' x Hj' Hx) as B1. pose proof (slot_in_block vol fs i j x Hj Hr) as B2.
    pose proof (in_block_inj vol _ _ x B1 B2) as E.
    destruct (ileaf_inj m vol fs i i (j' / 2) (j / 2) H Hi Hi ltac:(apply Z.div_pos; lia) Hq Hb' E) as [_ Eq].
    unfold slot_addr in Hx, Hr. rewrite E in Hx. destruct (half_parts j) as [Ej Mj], (half_parts j') as [Ej' Mj']. unfold rng in *. lia.
Qed.

Lemma header_kept m m' vol fs i : fs_ok m vol fs -> an_inode vol i -> mem_ok m' -> mem_frame (inode_ptr vol i) 16 m m' ->
  kept none (only i) none m vol fs m' vol fs.
Proof.
  intros H Hi Wm Hf. pose proof (ao_vol _ _ _ (fs_alloc _ _ _ H)) as W.
  destruct (header_change m m' vol fs i H Hi Wm Hf) as (H1 & H2 & H3 & H4). split; try done.
  - by destruct vol.
  - intros i' p Hi' _ Hp. by apply H2.
  - intros i' x Hi' Hn Hx. symmetry. apply Hf. intros Hr. apply Hn. unfold only. rewrite !(inode_ptr_eq vol) in * by done.
    unfold rng, an_inode in *. lia.
  - intros i' x Hi' _ Hx. symmetry. apply Hf. intros Hr. rewrite !(inode_ptr_eq vol) in * by done. unfold rng, an_inode in *. lia.
Qed.

(** Inode headers and the superblock lie outside the bitmap, the pointers and the data. *)
Lemma map_kept m vol fs i lbn m' vol' fs' r : fs_ok m vol fs -> an_inode vol i -> 0 <= lbn ->
  mapped m vol fs i lbn m' vol' fs' r -> kept none none (only i) m vol fs m' vol' fs'.
Proof.
  intros H Hi Hl G. pose proof (ao_vol _ _ _ (fs_alloc _ _ _ H)) as W. destruct (mapped_wrote 0 0 _ _ _ _ _ _ _ _ _ H Hi Hl G) as [H1 H2 H3 H4 H5 H6].
  split; try done.
  - rewrite H2. done.
  - intros i' p Hi' _ Hp. rewrite H3 by done. by rewrite decide_False by lia.
  - intros i' x Hi' _ Hx. apply (H5 i'); [done|unfold rng in *; lia|]. intros Hp.
    by destruct (pointers_place vol i i' x W Hi Hi' ltac:(unfold rng in *; lia) Hp) as [-> Hn].
  - intros i' x Hi' Hn Hx. apply (H5 i'); [done|unfold rng in *; lia|]. intros Hp. apply Hn.
    by destruct (pointers_place vol i i' x W Hi Hi' ltac:(unfold rng in *; lia) Hp) as [-> _].
Qed.

Lemma ileaf_trees (f g : nat -> tree) k : 0 <= k -> (forall j, (j < 11)%nat -> f j = g j) -> ileaf f k = ileaf g k.
Proof.
  intros Hk E. unfold ileaf. destruct (locate k) as [[j idx]|] eqn:El; [|done]. by rewrite E by apply (locate_bounds _ _ _ Hk El).
Qed.

Lemma dropped_kept m vol fs i m' vol' fs' : fs_ok m vol fs -> an_inode vol i -> dropped i (seq 0 11) m vol fs m' vol' fs' ->
  kept (only i) none (only i) m vol fs m' vol' fs' /\ (forall j, (j < 11)%nat -> itree fs' i j = Hole).
Proof.
  intros H Hi G. pose proof (ao_vol _ _ _ (fs_alloc _ _ _ H)) as W.
  assert (forall x, in_volume vol x -> ~ in_bitmap vol x -> ~ in_pointers vol i x -> m' x = m x) as Hag
    by (intros x _ Hb Hp; symmetry; by apply (dr_mem _ _ _ _ _ _ _ _ G)).
  assert (forall i' x, an_inode vol i' -> rng (inode_ptr vol i') 64 x -> ~ in_pointers vol i x -> m' x = m x) as Ht.
  { intros i' x Hi' Hx Hp. destruct (table_place vol i' x W Hi' Hx) as [Hb Hin]. apply Hag; [by apply inodes_in_volume|done|done]. }
  split; [split|].
  - apply (dr_ok _ _ _ _ _ _ _ _ G).
  - rewrite (dr_vol _ _ _ _ _ _ _ _ G). done.
  - intros i' p Hi' Hn Hp. assert (0 <= p / 128) as Hq by (by apply Z.div_pos).
    assert (ileaf (itree fs' i') (p / 128) = ileaf (itree fs i') (p / 128)) as El.
    { apply ileaf_trees; [done|]. intros j Hj. rewrite (dr_tree _ _ _ _ _ _ _ _ G) by (done || apply Hi'). rewrite decide_False; [done|]. by intros [-> _]. }
    unfold fbyte. rewrite El, (dr_vol _ _ _ _ _ _ _ _ G). cbn [v_region set_free].
    destruct (Z.eqb_spec (ileaf (itree fs i') (p / 128)) 0) as [|Hne]; [done|].
    pose proof (ileaf_data _ _ _ _ _ H Hi' Hq Hne) as Hd. set (b := ileaf (itree fs i') (p / 128)) in *.
    assert (in_block vol b (block_ptr (v_region vol) b + p mod 128)) as Hx.
    { pose proof (Z.mod_pos_bound p 128 ltac:(lia)). unfold in_block, rng. lia. }
    apply Hag; [by apply (block_in_volume vol b)|by apply (data_not_bitmap vol b)|]. intros Hp'.
    apply (data_not_inodes vol b _ W Hd Hx), (inode_inside vol i); [done|done|]. unfold in_pointers, rng in *. lia.
  - intros i' x Hi' _ Hx. apply (Ht i'); [done|unfold rng in *; lia|]. intros Hp.
    by destruct (pointers_place vol i i' x W Hi Hi' ltac:(unfold rng in *; lia) Hp) as [-> Hn].
  - intros i' x Hi' Hn Hx. apply (Ht i'); [done|unfold rng in *; lia|]. intros Hp. apply Hn.
    by destruct (pointers_place vol i i' x W Hi Hi' ltac:(unfold rng in *; lia) Hp) as [-> _].
  - intros x Hx. destruct (super_place vol i x W Hi Hx) as (H1 & H2 & _). symmetry. by apply (dr_mem _ _ _ _ _ _ _ _ G).
  - intros x Hx. symmetry. apply (dr_mem _ _ _ _ _ _ _ _ G).
    + intros Hb. apply Hx, (structure_in_volume m vol fs); [done|by left].
    + intros Hp. apply Hx, (structure_in_volume m vol fs); [done|right; left; by exists i].
  - intros j Hj. rewrite (dr_tree _ _ _ _ _ _ _ _ G) by (done || apply Hi). rewrite decide_True; [done|]. split; [done|]. apply elem_of_seq. lia.
Qed.

(** An inode without blocks may be overwritten, as long as its pointers stay zero. *)
Lemma inode_kept m m' vol fs i : fs_ok m vol fs -> an_inode vol i -> (forall j, (j < 11)%nat -> itree fs i j = Hole) -> mem_ok m' ->
  mem_frame (inode_ptr vol i) 64 m m' -> (forall x, in_pointers vol i x -> m' x = 0) ->
  kept none (only i) (only i) m vol fs m' vol fs.
Proof.
  intros H Hi Hh Wm Hf Hz. pose proof (ao_vol _ _ _ (fs_alloc _ _ _ H)) as W.
  assert (forall x, ~ in_inodes vol x -> m' x = m x) as Hag.
  { intros x Hx. symmetry. apply Hf. intros Hr. apply Hx. by apply (inode_inside vol i). }
  assert (forall i' x, an_inode vol i' -> i' <> i -> rng (inode_ptr vol i') 64 x -> m' x = m x) as Ht.
  { intros i' x Hi' Hne Hx. symmetry. apply Hf. intros Hr. rewrite !(inode_ptr_eq vol) in * by done. unfold rng, an_inode in *. lia. }
  split.
  - split; [|apply (fs_len _ _ _ H)|].
    + apply (alloc_ok_agree m); [apply (fs_alloc _ _ _ H)|done|]. intros x Hx. symmetry. apply Hag. intros Hin. by apply (inodes_not_bitmap vol x).
    + intros k t Hk. destruct (fs_rep _ _ _ H k t Hk) as [Hr Hrep]. apply lookup_lt_Some in Hk as Hlt. rewrite (fs_len _ _ _ H) in Hlt.
      destruct (ptr_slot_inside vol k W Hlt) as (i' & j & Hi' & Hj & ->). split.
      * rewrite slot_at in * by (done || apply Hi'). destruct (decide (i' = i)) as [->|Hne].
        -- rewrite (itree_lookup m vol fs i j H Hi Hj) in Hk. injection Hk as <-. rewrite Hh by done. cbn [root].
           unfold rd32, load32. rewrite (mem_read_agree m' (fun _ => 0)); [done|]. intros x Hx. apply Hz. unfold in_pointers, rng in *. lia.
        -- rewrite <-Hr. symmetry. apply load32_agree. intros x Hx. symmetry. apply (Ht i'); [done|done|]. unfold rng in *. lia.
      * apply (tree_same m); [done|]. intros b x Hb Hx. symmetry. apply Hag.
        apply (data_not_inodes vol b x W); [by apply (rep_data m vol (fs_level (fs_index i' j)) t)|done].
  - by destruct vol.
  - intros i' p Hi' _ Hp. apply fbyte_agree; [done|done|done|]. intros x Hx Hne. symmetry. apply Hag.
    apply (data_not_inodes vol _ x W (ileaf_data m vol fs i' (p / 128) H Hi' ltac:(by apply Z.div_pos) Hne) Hx).
  - intros i' x Hi' Hn Hx. apply (Ht i'); [done|done|]. unfold rng in *. lia.
  - intros i' x Hi' Hn Hx. apply (Ht i'); [done|done|]. unfold rng in *. lia.
  - intros x Hx. apply Hag. destruct W as [? ? (V1 & V2 & V3) (V4 & V5 & V6) (V7 & V8)]. unfold in_inodes, block_ptr, rng in *. tfs. lia.
  - intros x Hx. apply Hag. intros Hin. apply Hx. by apply inodes_in_volume.
Qed.
