(* ===== verification/TrashSlot.v ===== *)
(** Changing a directory: finding room for an entry, filling a slot, clearing one, and the
    effect on the map from names to inodes. *)
From stdpp Require Import gmap.
From S2P Require Import Prelude HostMem TrashFs TrashTree TrashFile TrashFree TrashFmt TrashDir.
#[local] Open Scope Z_scope.

(** ** Lists of entries *)

Lemma omap_one {A C} (f g : A -> option C) (l : list A) x d : NoDup l -> x ∈ l -> f x = None -> g x = Some d ->
  (forall y, y ∈ l -> y <> x -> g y = f y) -> omap g l ≡ₚ d :: omap f l.
Proof.
  intros Hn Hx Hf Hg Hs. induction l as [|y l IH]; [by apply elem_of_nil in Hx|]. apply NoDup_cons in Hn as [Hy Hn].
  cbn [omap list_omap]. apply elem_of_cons in Hx as [<-|Hx].
  - assert (omap g l = omap f l) as E by (apply omap_ext_elem; intros z Hz; apply Hs; [by right|by intros ->]).
    rewrite Hf, Hg. constructor. by rewrite <-E.
  - assert (y <> x) as Hne by (by intros ->). rewrite (Hs y) by (done || by left).
    assert (omap g l ≡ₚ d :: omap f l) as E by (apply IH; [done|done|intros z Hz; apply Hs; by right]).
    destruct (f y); [|done]. by rewrite E, Permutation_swap.
Qed.

(** What a directory holds: entries with different names, read as a map. *)
Record dir_at (m : mem) (vol : TrashfsVolume) (fs : list tree) (i : Z) (d : gmap (list Z) (Z * Z)) (n : Z) : Prop := {
  da_ok : dir_ok m vol i n;
  da_names : NoDup (entries m vol fs i n).*1;
  da_map : d = dir_map m vol fs i n
}.

Lemma dir_at_add m vol fs i d n m' vol' fs' n' nm v : dir_at m vol fs i d n -> dir_ok m' vol' i n' -> d !! nm = None ->
  entries m' vol' fs' i n' ≡ₚ (nm, v) :: entries m vol fs i n -> dir_at m' vol' fs' i (<[nm := v]> d) n'.
Proof.
  intros [D1 D2 D3] D' Hnm HP. assert (NoDup (entries m' vol' fs' i n').*1) as Hnd.
  { rewrite HP. cbn [fmap list_fmap fst]. apply NoDup_cons. split; [|done]. apply not_elem_of_list_to_map_2. subst d. exact Hnm. }
  split; [done|done|]. subst d. unfold dir_map. symmetry.
  transitivity (list_to_map ((nm, v) :: entries m vol fs i n) : gmap (list Z) (Z * Z)); [|done]. by apply list_to_map_proper.
Qed.

Lemma dir_at_remove m vol fs i d n m' vol' fs' nm v : dir_at m vol fs i d n -> dir_ok m' vol' i n ->
  entries m vol fs i n ≡ₚ (nm, v) :: entries m' vol' fs' i n -> dir_at m' vol' fs' i (delete nm d) n.
Proof.
  intros [D1 D2 D3] D' HP. rewrite HP in D2. cbn [fmap list_fmap fst] in D2. apply NoDup_cons in D2 as [Hn Hnd].
  split; [done|done|]. subst d. unfold dir_map. symmetry.
  transitivity (delete nm (list_to_map ((nm, v) :: entries m' vol' fs' i n) : gmap (list Z) (Z * Z))).
  - cbn [list_to_map foldr uncurry]. rewrite delete_insert_id; [done|]. by apply not_elem_of_list_to_map_1.
  - f_equal. symmetry. apply list_to_map_proper; [|done]. rewrite HP. cbn. apply NoDup_cons. by split.
Qed.

Lemma dir_at_kept B H P m vol fs m' vol' fs' i d n : kept B H P m vol fs m' vol' fs' -> ~ B i -> ~ H i ->
  dir_at m vol fs i d n -> dir_at m' vol' fs' i d n.
Proof.
  intros K HB HH [D1 D2 D3]. pose proof (kept_entries _ _ _ _ _ _ _ _ _ i n K (do_inode _ _ _ _ D1) HB) as E.
  split; [by apply (kept_dir _ _ _ _ _ _ _ _ _ _ _ K)|by rewrite E|]. subst d. unfold dir_map. by rewrite E.
Qed.

Lemma dir_at_lookup m vol fs i d n nm v : dir_at m vol fs i d n -> d !! nm = Some v ->
  exists j, 0 <= j < n /\ entry m vol fs i j = Some (nm, v).
Proof.
  intros [D1 D2 D3] E. subst d. apply elem_of_list_to_map_2 in E. by apply entries_in in E.
Qed.

(** ** Filling and clearing a slot *)

Lemma fill_dirent_spec m e ino type name : mem_ok m -> 0 < ino <= 0xFFFFFFFF -> is_u8 type -> Forall is_u8 name -> (length name <= 32)%nat ->
  let m' := fill_dirent m e ino type name in
  mem_ok m' /\ mem_frame e 48 m m' /\ rd32 m' e = ino /\ m' (e + 4) = type /\ m' (e + 5) = Z.of_nat (length name) /\
  take (length name) (mem_read m' (e + 6) 42) = name.
Proof.
  intros Wm Hi Ht Hn Hl m'. unfold m', fill_dirent. rewrite Z.add_0_r. unfold TRASHFS_DIRENT_SIZE. set (len := Z.of_nat (length name)).
  set (m1 := wr32 m e ino). set (m2 := mem_write m1 (e + 4) [type]). set (m3 := mem_write m2 (e + 5) [u8 len]).
  set (m4 := mem_write m3 (e + 6) name). set (m5 := memset m4 (e + 6 + len) 0 (48 - 6 - len)).
  assert (u8 len = len) as Elen by (unfold u8; apply Z.mod_small; lia).
  assert (mem_frame e 4 m m1) as F1 by apply store32_frame.
  assert (mem_frame (e + 4) 1 m1 m2) as F2 by (by apply mem_write_frame).
  assert (mem_frame (e + 5) 1 m2 m3) as F3 by (by apply mem_write_frame).
  assert (mem_frame (e + 6) len m3 m4) as F4 by (by apply mem_write_frame).
  assert (mem_frame (e + 6 + len) (48 - 6 - len) m4 m5) as F5 by (apply memset_frame; lia).
  split_and!.
  - apply memset_ok, mem_write_ok; [|done]. apply mem_write_ok; [|by apply Forall_singleton, is_u8_range].
    apply mem_write_ok; [|by apply Forall_singleton]. by apply store32_ok.
  - intros x Hx. rewrite (F1 x), (F2 x), (F3 x), (F4 x), (F5 x); [done|unfold rng in *; lia..].
  - transitivity (rd32 m1 e); [|unfold m1, rd32, wr32; rewrite load32_store32_eq; apply u32_small; unfold is_u32; lia].
    symmetry. apply load32_agree. intros x Hx. rewrite (F2 x), (F3 x), (F4 x), (F5 x); [done|unfold rng in *; lia..].
  - rewrite <-(F5 (e + 4)), <-(F4 (e + 4)), <-(F3 (e + 4)) by (unfold rng; lia). apply mem_write_one.
  - rewrite <-(F5 (e + 5)), <-(F4 (e + 5)) by (unfold rng; lia). rewrite <-Elen. apply mem_write_one.
  - replace (length name) with (Z.to_nat len) at 1 by lia. rewrite mem_read_take by lia.
    rewrite <-(mem_read_agree m4 m5) by (intros x Hx; apply F5; unfold rng in *; lia). by apply mem_read_write_eq.
Qed.

(** The slot of directory [i] at index [j] now holds the entry. *)
Lemma fill_slot m vol fs i j ino type name : fs_ok m vol fs -> an_inode vol i -> 0 <= j -> slot_block fs i j <> 0 ->
  0 < ino <= 0xFFFFFFFF -> is_u8 type -> Forall is_u8 name -> (length name <= 32)%nat ->
  let m' := fill_dirent m (slot_addr vol fs i j) ino type name in
  kept (only i) none none m vol fs m' vol fs /\ entry m' vol fs i j = Some (name, (ino, type)) /\
  forall j', 0 <= j' -> j' <> j -> entry m' vol fs i j' = entry m vol fs i j'.
Proof.
  intros H Hi Hj Hb Hino Ht Hn Hl m'. destruct (fill_dirent_spec m (slot_addr vol fs i j) ino type name (fs_mem_ok _ _ _ H) Hino Ht Hn Hl)
    as (W' & F & E1 & E2 & E3 & E4). fold m' in W', F, E1, E2, E3, E4.
  destruct (slot_change m m' vol fs i j H Hi Hj Hb W' F) as [K Ho]. split; [done|]. split; [|done].
  rewrite entry_mem by done. cbv zeta. rewrite E1, E2, E3, Nat2Z.id, E4, (proj2 (Z.eqb_neq ino 0)) by lia. done.
Qed.

Lemma clear_slot m vol fs i j : fs_ok m vol fs -> an_inode vol i -> 0 <= j -> slot_block fs i j <> 0 ->
  let m' := memset m (slot_addr vol fs i j) 0 TRASHFS_DIRENT_SIZE in
  kept (only i) none none m vol fs m' vol fs /\ entry m' vol fs i j = None /\
  forall j', 0 <= j' -> j' <> j -> entry m' vol fs i j' = entry m vol fs i j'.
Proof.
  intros H Hi Hj Hb m'. assert (mem_ok m') as W' by (apply memset_ok, (fs_mem_ok _ _ _ H)).
  destruct (slot_change m m' vol fs i j H Hi Hj Hb W' ltac:(by apply memset_frame)) as [K Ho]. split; [done|]. split; [|done].
  unfold entry. rewrite sbytes_eq by done. rewrite (proj2 (Z.eqb_neq _ 0) Hb). unfold m'. by rewrite memset_read.
Qed.

(** Removing the entry with a name. *)
Lemma dir_clear_spec m vol fs i d n name v : fs_ok m vol fs -> dir_at m vol fs i d n -> (length name <= 32)%nat -> d !! name = Some v ->
  exists m', dir_clear_entry_in m vol i name = Some (m', true) /\ kept (only i) none none m vol fs m' vol fs /\
    dir_at m' vol fs i (delete name d) n.
Proof.
  intros H D Hl Hv. pose proof (da_ok _ _ _ _ _ _ D) as D1. unfold dir_clear_entry_in. rewrite (dir_slots_spec m vol fs i n) by done.
  cbn [mbind option_bind]. rewrite stops_named_find by (done || by eapply fs_mem_ok).
  rewrite (da_map _ _ _ _ _ _ D), dir_map_find in Hv. destruct (find _ _) as [j|] eqn:Ef; [|done].
  apply find_in in Ef as [Hj%elem_of_seqZ Hp]. apply bool_decide_eq_true in Hp. destruct (entry m vol fs i j) as [[nm v']|] eqn:Ee; [|done].
  injection Hp as ->. injection Hv as ->. pose proof (live_block _ _ _ _ _ _ (proj1 Hj) Ee) as Hb.
  destruct (clear_slot m vol fs i j H (do_inode _ _ _ _ D1) ltac:(lia) Hb) as (K & E1 & E2). set (m' := memset _ _ _ _) in *.
  exists m'. split; [done|]. split; [done|]. apply (dir_at_remove m vol fs i d n m' vol fs name v); [done| |].
  - by apply (kept_dir _ _ _ _ _ _ _ _ _ _ _ K).
  - apply (omap_one _ _ _ j); [apply NoDup_seqZ|apply elem_of_seqZ; lia|done|done|].
    intros y Hy%elem_of_seqZ Hne. symmetry. apply E2; [lia|done].
Qed.

(** ** Room for an entry *)

Lemma stops_dead m vol fs i j : 0 <= j -> stops vol fs i (fun e => rd32 m (e + 0) =? 0) j = true ->
  slot_block fs i j <> 0 /\ entry m vol fs i j = None.
Proof.
  intros Hj. unfold stops. rewrite andb_true_iff, negb_true_iff, Z.eqb_neq, Z.add_0_r. intros [Hb He]. split; [done|].
  rewrite entry_mem by done. cbv zeta. by rewrite He.
Qed.

(** The slot [j] of a directory that now has [n'] slots is free to be filled. *)
Record room (m : mem) (vol : TrashfsVolume) (fs : list tree) (i n : Z) (m' : mem) (vol' : TrashfsVolume) (fs' : list tree)
    (j n' : Z) : Prop := {
  rm_kept : kept none (only i) (only i) m vol fs m' vol' fs';
  rm_dir : dir_ok m' vol' i n';
  rm_slot : 0 <= j < n' /\ slot_block fs' i j <> 0;
  rm_free : (n' = n /\ entry m vol fs i j = None) \/ (n' = n + 1 /\ j = n);
  rm_mode : rd16 m' (inode_ptr vol' i) = rd16 m (inode_ptr vol i)
}.

(** A directory grows by a slot once its block is there. *)
Lemma grow_dir m vol fs i n m1 vol1 fs1 r : fs_ok m vol fs -> dir_ok m vol i n ->
  mapped m vol fs i (n / 2) m1 vol1 fs1 r -> r <> 0 ->
  room m vol fs i n (wr32 m1 (inode_ptr vol1 i + 4) (after (n + 1))) vol1 fs1 n (n + 1) /\
  slot_addr vol1 fs1 i n = block_ptr (v_region vol1) r + n mod 2 * 48.
Proof.
  intros H D G Hr. pose proof (do_inode _ _ _ _ D) as Hi. pose proof (do_count _ _ _ _ D) as Hn.
  assert (0 <= n / 2) as Hq by (apply Z.div_pos; lia). pose proof (map_kept m vol fs i _ _ _ _ _ H Hi Hq G) as K1.
  assert (slot_block fs1 i n = r) as Eb by (unfold slot_block; rewrite (mp_leaf _ _ _ _ _ _ _ _ _ G) by done; by rewrite decide_True).
  assert (n + 1 <= max_slots) as Hmax.
  { destruct (Z.lt_ge_cases (n / 2) max_blocks) as [Hlt|Hge]; [destruct (half_parts n); unfold max_slots; lia|]. exfalso. apply Hr.
    rewrite <-Eb. unfold slot_block, ileaf. by rewrite (proj2 (locate_none _ Hq) Hge). }
  pose proof (kp_ok _ _ _ _ _ _ _ _ _ K1) as H1. destruct (kept_vol _ _ _ _ _ _ _ _ _ K1) as (Ei & Ep & Er & _).
  assert (an_inode vol1 i) as Hi1 by (by apply Ei). set (m2 := wr32 _ _ _).
  assert (mem_frame (inode_ptr vol1 i) 16 m1 m2) as F by (intros x Hx; apply wr32_agree; unfold rng in *; lia).
  pose proof (header_kept m1 m2 vol1 fs1 i H1 Hi1 ltac:(by apply store32_ok, (fs_mem_ok _ _ _ H1)) F) as K2.
  pose proof (ao_vol _ _ _ (fs_alloc _ _ _ H1)) as W1. split; [|by unfold slot_addr; rewrite Eb]. split.
  - apply (keeps_trans _ _ _ m vol fs m1 vol1 fs1); [by apply (kept_weaken none none (only i))|by apply (kept_weaken none (only i) none)].
  - split; [done|lia|]. unfold m2. rewrite (proj1 (isize_wr m1 vol1 i i _ W1 Hi1 Hi1)), decide_True by done.
    apply u32_small. pose proof (after_u32 (n + 1) ltac:(lia)). unfold is_u32. lia.
  - rewrite Eb. split; [lia|done].
  - right. done.
  - unfold m2. rewrite (mode_wr m1 vol1 i i 4 _ W1 Hi1 Hi1) by lia. by apply (kept_size _ _ _ _ _ _ _ _ _ i K1).
Qed.

Lemma dir_alloc_spec m vol fs i n : fs_ok m vol fs -> dir_ok m vol i n ->
  exists m' vol' fs' slot, dir_alloc_dirent_in m vol i = Some (m', vol', slot) /\ free_inodes vol' = free_inodes vol /\
  match slot with
  | None => kept none none (only i) m vol fs m' vol' fs' /\ (free_blocks vol' = 0 \/ max_slots <= n)
  | Some e => exists j n', room m vol fs i n m' vol' fs' j n' /\ e = slot_addr vol' fs' i j
  end.
Proof.
  intros H D. pose proof (do_inode _ _ _ _ D) as Hi. pose proof (do_count _ _ _ _ D) as Hn.
  unfold dir_alloc_dirent_in. rewrite (dir_slots_spec m vol fs i n) by done. cbn [mbind option_bind].
  destruct (find _ _) as [j|] eqn:Ef.
  - apply find_in in Ef as [Hj%elem_of_seqZ Hp]. apply stops_dead in Hp as [Hb He]; [|lia].
    exists m, vol, fs, (Some (slot_addr vol fs i j)). split; [done|]. split; [done|]. exists j, n. split; [|done].
    split; [by apply kept_refl|done|split; [lia|done]|by left|done].
  - fold (isize m vol i). rewrite (do_size _ _ _ _ D), align_after by done. tfs. destruct (slot_off_div n) as [-> ->].
    assert (0 <= n / 2) as Hq by (apply Z.div_pos; lia). pose proof (bmap_alloc_mapped m vol fs i (n / 2) H Hi Hq) as G.
    destruct (bmap_alloc m vol (inode_ptr vol i) (n / 2)) as [[m1 vol1] r]. destruct G as [fs1 G]. pose proof (mp_vol _ _ _ _ _ _ _ _ _ G) as Ev.
    destruct (Z.eqb_spec r 0) as [E|Hr].
    + exists m1, vol1, fs1, None. split; [done|]. split; [by rewrite Ev|]. split; [by apply (map_kept m vol fs i (n / 2) m1 vol1 fs1 r)|].
      destruct (proj2 (mp_none _ _ _ _ _ _ _ _ _ G E)) as [Hf|Hf]; [by left|right]. destruct (half_parts n). unfold max_slots. lia.
    + destruct (grow_dir m vol fs i n m1 vol1 fs1 r H D G Hr) as [R E]. assert (inode_ptr vol1 i = inode_ptr vol i) as Ep by (by rewrite Ev).
      rewrite Ep in R. pose proof (after_u32 (n + 1) (do_count _ _ _ _ (rm_dir _ _ _ _ _ _ _ _ _ _ R))) as Hu. rewrite after_S in Hu by lia.
      rewrite u32_small by (unfold is_u32; lia). rewrite <-after_S by lia. eexists _, vol1, fs1, (Some _). split; [done|].
      split; [by rewrite Ev|]. exists n, (n + 1). split; [exact R|]. symmetry. exact E.
Qed.

(** Filling the slot that was found adds the entry to the directory. *)
Lemma fill_room m vol fs i d n m1 vol1 fs1 j n1 ino type name : fs_ok m vol fs -> dir_at m vol fs i d n ->
  room m vol fs i n m1 vol1 fs1 j n1 -> d !! name = None -> 0 < ino <= 0xFFFFFFFF -> is_u8 type -> Forall is_u8 name -> (length name <= 32)%nat ->
  forall m2, kept none (fun k => k <> i) (fun k => k <> i) m1 vol1 fs1 m2 vol1 fs1 ->
  let m' := fill_dirent m2 (slot_addr vol1 fs1 i j) ino type name in
  kept (only i) none none m2 vol1 fs1 m' vol1 fs1 /\ dir_at m' vol1 fs1 i (<[name := (ino, type)]> d) n1.
Proof.
  intros H D R Hd Hino Ht Hn Hl m2 K2 m'. destruct R as [K1 D1 [Hj Hb] Hfree _].
  pose proof (kp_ok _ _ _ _ _ _ _ _ _ K2) as H2. pose proof (do_inode _ _ _ _ D1) as Hi1.
  destruct (fill_slot m2 vol1 fs1 i j ino type name H2 Hi1 ltac:(lia) Hb Hino Ht Hn Hl) as (K3 & E & Ho). fold m' in K3, E, Ho.
  split; [done|]. assert (dir_ok m' vol1 i n1) as D'.
  { apply (kept_dir _ _ _ _ _ _ _ _ _ i n1 K3); [done|]. apply (kept_dir _ _ _ _ _ _ _ _ _ i n1 K2); [|done]. intros Hc. by apply Hc. }
  assert (forall j', 0 <= j' -> j' <> j -> entry m' vol1 fs1 i j' = entry m vol fs i j') as Es.
  { intros j' Hj' Hne. rewrite Ho by done. rewrite (kept_entry _ _ _ _ _ _ _ _ _ i j' K2) by done.
    apply (kept_entry _ _ _ _ _ _ _ _ _ i j' K1); [apply (do_inode _ _ _ _ (da_ok _ _ _ _ _ _ D))|done|done]. }
  apply (dir_at_add m vol fs i d n); [done|done|done|]. pose proof (do_count _ _ _ _ (da_ok _ _ _ _ _ _ D)) as Hn0.
  destruct Hfree as [[-> He]|[-> ->]].
  - apply (omap_one _ _ _ j); [apply NoDup_seqZ|apply elem_of_seqZ; lia|done|done|]. intros y Hy%elem_of_seqZ Hne. apply Es; [lia|done].
  - unfold entries. rewrite (seqZ_app 0 n 1), omap_app by lia. rewrite (seqZ_cons (0 + n) 1), (seqZ_nil _ (Z.pred 1)), Z.add_0_l by lia.
    cbn [omap list_omap]. rewrite E, Permutation_app_comm. cbn [app]. constructor.
    erewrite omap_ext_elem; [done|]. intros y Hy%elem_of_seqZ. apply Es; lia.
Qed.
