(* ===== verification/TrashPath.v ===== *)
(** The name space of a trash volume: directories as finite maps from names to inodes, the
    invariant that ties them to the volume, and the resolution of paths. *)
From stdpp Require Import gmap.
From S2P Require Import Prelude HostMem TrashFs TrashTree TrashFile TrashFree TrashFmt TrashDir TrashSlot.
#[local] Open Scope Z_scope.

(** ** The name space *)

(** For the inode of each directory, the inode and the type behind each name. *)
Abbreviation dirmap := (gmap (list Z) (Z * Z)).
Abbreviation namespace := (gmap Z dirmap).

Definition imode (m : mem) (vol : TrashfsVolume) (i : Z) : Z := rd16 m (inode_ptr vol i).
Definition DIR_MODE : Z := Z.lor TRASHFS_MODE_USED TRASHFS_MODE_DIR.

Definition named (N : namespace) (p : Z) (nm : list Z) (ino ty : Z) : Prop :=
  exists d, N !! p = Some d /\ d !! nm = Some (ino, ty).

(** Every name leads to an inode in use, a directory or a file as its type says; no inode
    has two names; the inodes not in use are blank; and every inode in use but the root
    has a name. *)
Record names_ok (m : mem) (vol : TrashfsVolume) (fs : list tree) (N : namespace) : Prop := {
  nm_vol : volume_ok m vol fs;
  nm_root : is_Some (N !! TRASHFS_ROOT_INODE);
  nm_dir i d : N !! i = Some d -> imode m vol i = DIR_MODE /\ exists n, dir_at m vol fs i d n;
  nm_entry p nm ino ty : named N p nm ino ty -> an_inode vol ino /\ ino <> TRASHFS_ROOT_INODE /\
    ((ty = TRASHFS_TYPE_DIR /\ is_Some (N !! ino)) \/ (ty = TRASHFS_TYPE_FILE /\ N !! ino = None /\ imode m vol ino = TRASHFS_MODE_USED));
  nm_short p nm ino ty : named N p nm ino ty -> (length nm <= 32)%nat;
  nm_once p nm q nm' ino ty ty' : named N p nm ino ty -> named N q nm' ino ty' -> p = q /\ nm = nm';
  nm_blank i x : an_inode vol i -> inode_used m vol i = false -> rng (inode_ptr vol i) 64 x -> m x = 0;
  nm_linked i : an_inode vol i -> inode_used m vol i = true -> i <> TRASHFS_ROOT_INODE -> exists p nm ty, named N p nm i ty
}.

Lemma names_fs m vol fs N : names_ok m vol fs N -> fs_ok m vol fs.
Proof. intros H. apply (vk_fs _ _ _ (nm_vol _ _ _ _ H)). Qed.

Lemma used_mode m vol i : inode_used m vol i = negb (Z.land (imode m vol i) 1 =? 0).
Proof. unfold inode_used, imode. by rewrite Z.add_0_r. Qed.

(** ** Paths *)

(** What a component is: a name that fits an entry. *)
Definition name_ok (nm : list Z) : Prop := (length nm <= 32)%nat /\ Forall is_u8 nm.

Lemma push_component_ok cs nm cs' : push_component cs nm = Some cs' -> Forall is_u8 nm -> Forall name_ok cs -> Forall name_ok cs'.
Proof.
  unfold push_component, TRASHFS_NAME_MAX. destruct (Z.ltb_spec 32 (Z.of_nat (length nm))); [done|].
  destruct (_ <=? _); [done|]. intros [= <-] Hn Hcs. apply Forall_app. split; [done|]. apply Forall_singleton. split; [lia|done].
Qed.

Lemma tokenize_ok path : forall nm cs cs', tokenize path nm cs = Some cs' -> Forall is_u8 path -> Forall is_u8 nm -> Forall name_ok cs ->
  Forall name_ok cs'.
Proof.
  induction path as [|c path IH]; intros nm cs cs' E Hp Hn Hcs; cbn [tokenize] in E.
  - destruct nm as [|b nm]; [by injection E as <-|]. by apply (push_component_ok cs (b :: nm) cs').
  - apply Forall_cons in Hp as [Hc Hp]. destruct (c =? SLASH); [|apply (IH _ _ _ E Hp); [apply Forall_app; split; [done|by apply Forall_singleton]|done]].
    destruct nm as [|b nm]; [by apply (IH _ _ _ E Hp)|]. destruct (push_component cs (b :: nm)) as [cs1|] eqn:E1; [|done].
    cbn [mbind option_bind] in E. apply (IH _ _ _ E Hp); [done|]. by apply (push_component_ok cs (b :: nm) cs1).
Qed.

Lemma path_tokenize_ok path cs : path_tokenize path = Some cs -> Forall is_u8 path -> Forall name_ok cs.
Proof. intros E Hp. by apply (tokenize_ok path [] [] cs E Hp). Qed.

(** No component is empty. *)
Lemma push_nonempty cs nm cs' : push_component cs nm = Some cs' -> nm <> [] -> Forall (fun x => x <> []) cs -> Forall (fun x => x <> []) cs'.
Proof.
  unfold push_component. repeat case_match; try done. intros [= <-] Hn Hcs. apply Forall_app. split; [done|by apply Forall_singleton].
Qed.

Lemma tokenize_nonempty path : forall nm cs cs', tokenize path nm cs = Some cs' -> Forall (fun x => x <> []) cs -> forall x, x ∈ cs' -> x <> [].
Proof.
  assert (forall nm cs cs', tokenize path nm cs = Some cs' -> Forall (fun x => x <> []) cs -> Forall (fun x => x <> []) cs') as H.
  { induction path as [|c path IH]; intros nm cs cs' E Hcs; cbn [tokenize] in E.
    - destruct nm as [|b nm]; [by injection E as <-|]. by apply (push_nonempty cs (b :: nm) cs').
    - destruct (c =? SLASH); [|by apply (IH _ _ _ E)]. destruct nm as [|b nm]; [by apply (IH _ _ _ E)|].
      destruct (push_component cs (b :: nm)) as [cs1|] eqn:E1; [|done]. apply (IH _ _ _ E). by apply (push_nonempty cs (b :: nm) cs1). }
  intros nm cs cs' E Hcs x Hx. specialize (H nm cs cs' E Hcs). rewrite Forall_forall in H. by apply H.
Qed.

(** The walk over the name space. *)
Fixpoint walk (N : namespace) (cs : list (list Z)) (allow_last_nondir : bool) (stack : list Z) (cur cur_type : Z)
    : TrashfsResult + Z * Z :=
  match cs with
  | [] => inr (cur, cur_type)
  | nm :: cs =>
      if bool_decide (nm = DOT) then walk N cs allow_last_nondir stack cur cur_type else
      if bool_decide (nm = DOTDOT) then
        let stack := match stack with _ :: (_ :: _) as s => s | s => s end in
        walk N cs allow_last_nondir stack (default TRASHFS_ROOT_INODE (head stack)) TRASHFS_TYPE_DIR
      else
        match N !! cur ≫= (.!! nm) with
        | None => inl TRASHFS_ERR_NOT_FOUND
        | Some (ino, type) =>
            if match cs with [] => allow_last_nondir | _ => false end then inr (ino, type)
            else if negb (type =? TRASHFS_TYPE_DIR) then inl TRASHFS_ERR_NOT_DIR
            else if TRASHFS_PATH_DEPTH <=? Z.of_nat (length stack) then inl TRASHFS_ERR_INVALID_ARG
            else walk N cs allow_last_nondir (ino :: stack) ino type
        end
  end.

Definition target (N : namespace) (path : list Z) : TrashfsResult + Z * Z :=
  match path_tokenize path with
  | None => inl TRASHFS_ERR_INVALID_ARG
  | Some cs => walk N cs true [TRASHFS_ROOT_INODE] TRASHFS_ROOT_INODE TRASHFS_TYPE_DIR
  end.

(** The directory that holds the last component, and that component. *)
Definition parent (N : namespace) (path : list Z) : TrashfsResult + Z * list Z :=
  match path_tokenize path with
  | None => inl TRASHFS_ERR_INVALID_ARG
  | Some cs =>
      match last cs with
      | None => inl TRASHFS_ERR_INVALID_ARG
      | Some leaf =>
          if bool_decide (leaf = []) || bool_decide (leaf = DOT) || bool_decide (leaf = DOTDOT) then inl TRASHFS_ERR_INVALID_ARG else
          match walk N (removelast cs) false [TRASHFS_ROOT_INODE] TRASHFS_ROOT_INODE TRASHFS_TYPE_DIR with
          | inl e => inl e
          | inr (p, _) => inr (p, leaf)
          end
      end
  end.

Lemma Forall_removelast {A} (P : A -> Prop) l : Forall P l -> Forall P (removelast l).
Proof.
  induction l as [|x l IH]; intros Hl; [done|]. apply Forall_cons in Hl as [Hx Hl]. cbn [removelast].
  destruct l; [done|]. apply Forall_cons. split; [done|by apply IH].
Qed.

(** Errors are errors. *)
Lemma walk_error N cs : forall allow stack cur ty e, walk N cs allow stack cur ty = inl e -> e <> TRASHFS_OK.
Proof.
  induction cs as [|nm cs IH]; intros allow stack cur ty e; cbn [walk]; [done|]. case_bool_decide; [by apply IH|].
  case_bool_decide; [by apply IH|]. destruct (_ ≫= _) as [[ino type]|]; [|by intros [= <-]].
  destruct (match cs with [] => _ | _ => _ end); [done|]. destruct (negb _); [by intros [= <-]|]. destruct (_ <=? _); [by intros [= <-]|]. by apply IH.
Qed.

Lemma parent_error N path e : parent N path = inl e -> e <> TRASHFS_OK.
Proof.
  unfold parent. destruct (path_tokenize path) as [cs|]; [|by intros [= <-]]. destruct (last cs) as [leaf|]; [|by intros [= <-]].
  destruct (_ || _); [by intros [= <-]|]. destruct (walk _ _ _ _ _ _) as [e'|[p ty]] eqn:E; [|done]. intros [= <-]. by apply walk_error in E.
Qed.

Lemma target_error N path e : target N path = inl e -> e <> TRASHFS_OK.
Proof. unfold target. destruct (path_tokenize path) as [cs|]; [|by intros [= <-]]. apply walk_error. Qed.

(** Walking to a last component is walking to its directory and looking it up there. *)
Lemma walk_snoc N leaf cs : leaf <> DOT -> leaf <> DOTDOT -> forall stack cur ty, walk N (cs ++ [leaf]) true stack cur ty =
  match walk N cs false stack cur ty with
  | inl e => inl e
  | inr (p, _) => match N !! p ≫= (.!! leaf) with Some x => inr x | None => inl TRASHFS_ERR_NOT_FOUND end
  end.
Proof.
  intros H1 H2. induction cs as [|nm cs IH]; intros stack cur ty; cbn [app walk].
  - rewrite !bool_decide_eq_false_2 by done. by destruct (_ ≫= _) as [[ino type]|].
  - case_bool_decide; [by apply IH|]. case_bool_decide; [by apply IH|]. destruct (N !! cur ≫= _) as [[ino type]|]; [|done].
    assert (match cs ++ [leaf] with [] => true | _ => false end = false) as -> by (by destruct cs).
    assert (match cs with [] => false | _ => false end = false) as -> by (by destruct cs).
    destruct (negb _); [done|]. destruct (_ <=? _); [done|]. by apply IH.
Qed.

Lemma target_parent N path ino ty p nm : target N path = inr (ino, ty) -> parent N path = inr (p, nm) -> N !! p ≫= (.!! nm) = Some (ino, ty).
Proof.
  unfold target, parent. destruct (path_tokenize path) as [cs|]; [|done]. destruct (last cs) as [leaf|] eqn:El; [|done].
  destruct (_ || _) eqn:Eb; [done|]. rewrite !orb_false_iff, !bool_decide_eq_false in Eb. destruct Eb as [[_ Hd] Hdd].
  assert (cs = removelast cs ++ [leaf]) as Ecs.
  { apply last_Some in El as [l ->]. by rewrite removelast_last. }
  rewrite Ecs at 1. rewrite walk_snoc by done. destruct (walk _ _ _ _ _ _) as [e|[q t]]; [done|]. intros E [= <- <-].
  destruct (N !! q ≫= (.!! leaf)) as [x|]; [|done]. by injection E as ->.
Qed.

(** A path whose last component is a name: not empty, and not ending in [.] or [..]. *)
Definition ends_in_name (path : list Z) : Prop :=
  match path_tokenize path with
  | None => True
  | Some cs => exists leaf, last cs = Some leaf /\ leaf <> DOT /\ leaf <> DOTDOT
  end.

(** Such a path leads where its last component, looked up in the directory that holds
    it, does. *)
Lemma target_by_parent N path : ends_in_name path -> target N path =
  match parent N path with
  | inl e => inl e
  | inr (p, nm) => match N !! p ≫= (.!! nm) with Some x => inr x | None => inl TRASHFS_ERR_NOT_FOUND end
  end.
Proof.
  unfold ends_in_name, target, parent. destruct (path_tokenize path) as [cs|] eqn:Ecs; [|done].
  intros (leaf & El & H1 & H2). rewrite El. destruct (decide (leaf = [])) as [->|Hne].
  { exfalso. by apply (tokenize_nonempty path [] [] cs Ecs (Forall_nil_2 _) []); [apply last_Some_elem_of|]. }
  rewrite !bool_decide_eq_false_2 by done. cbn [orb]. apply last_Some in El as [l ->]. rewrite removelast_last, walk_snoc by done.
  by destruct (walk _ _ _ _ _ _) as [e|[q t]].
Qed.

Section resolve.
Context (m : mem) (vol : TrashfsVolume) (fs : list tree) (N : namespace) (H : names_ok m vol fs N).

Lemma find_in_dir cur nm : is_Some (N !! cur) -> name_ok nm -> dir_find_in m vol cur nm = Some (N !! cur ≫= (.!! nm)).
Proof.
  intros [d Hd] [Hl _]. destruct (nm_dir _ _ _ _ H cur d Hd) as [_ [n D]]. rewrite Hd. cbn [mbind option_bind].
  rewrite (dir_find_in_spec m vol fs cur n nm (names_fs _ _ _ _ H) (da_ok _ _ _ _ _ _ D) Hl). by rewrite (da_map _ _ _ _ _ _ D).
Qed.

Lemma named_lookup cur nm ino ty : N !! cur ≫= (.!! nm) = Some (ino, ty) -> named N cur nm ino ty.
Proof. intros E. apply bind_Some in E as (d & Hd & E). by exists d. Qed.

(** The inode and type a walk ends at. *)
Definition place_ok (i ty : Z) : Prop :=
  an_inode vol i /\ ((ty = TRASHFS_TYPE_DIR /\ is_Some (N !! i)) \/ (ty = TRASHFS_TYPE_FILE /\ N !! i = None)).

Lemma dir_place i : is_Some (N !! i) -> place_ok i TRASHFS_TYPE_DIR.
Proof.
  intros [d Hd]. split; [|left; split; [done|by exists d]]. destruct (nm_dir _ _ _ _ H i d Hd) as [_ [n D]].
  apply (do_inode _ _ _ _ (da_ok _ _ _ _ _ _ D)).
Qed.

Lemma path_walk_correct cs : forall allow stack cur, Forall name_ok cs -> is_Some (N !! cur) ->
  Forall (fun i => is_Some (N !! i)) stack ->
  path_walk m vol cs allow stack cur TRASHFS_TYPE_DIR = Some (walk N cs allow stack cur TRASHFS_TYPE_DIR) /\
  (forall i ty, walk N cs allow stack cur TRASHFS_TYPE_DIR = inr (i, ty) -> place_ok i ty /\ (allow = false -> is_Some (N !! i))).
Proof.
  induction cs as [|nm cs IH]; intros allow stack cur Hcs Hcur Hst; cbn [path_walk walk].
  { split; [done|]. intros i ty [= <- <-]. split; [by apply dir_place|done]. }
  apply Forall_cons in Hcs as [Hnm Hcs]. case_bool_decide; [by apply IH|]. case_bool_decide.
  - set (st := match stack with _ :: (_ :: _) as s => s | s => s end).
    assert (Forall (fun i => is_Some (N !! i)) st) as Hst'.
    { unfold st. destruct stack as [|a [|b l]]; [done|done|]. by apply Forall_cons in Hst as [_ ?]. }
    apply IH; [done| |done]. destruct st as [|a l]; [apply (nm_root _ _ _ _ H)|]. by apply Forall_cons in Hst' as [? _].
  - rewrite (find_in_dir cur nm) by done. cbn [mbind option_bind].
    destruct (N !! cur ≫= (.!! nm)) as [[ino type]|] eqn:E; [|done].
    destruct (nm_entry _ _ _ _ H cur nm ino type (named_lookup _ _ _ _ E)) as (Hi & _ & Hty).
    assert (place_ok ino type) as Hpl by (split; [done|tauto]).
    assert (negb (match cs with [] => true | _ => false end) || negb allow = negb (match cs with [] => allow | _ => false end)) as Eb by (by destruct cs).
    rewrite Eb. destruct (match cs with [] => allow | _ => false end) eqn:El; cbn [negb].
    + destruct cs; [|done]. cbn [path_walk]. split; [done|]. intros i ty [= <- <-]. split; [done|]. intros ->. done.
    + destruct (Z.eqb_spec type TRASHFS_TYPE_DIR) as [->|]; cbn [negb]; [|done]. destruct (_ <=? _); [done|].
      assert (is_Some (N !! ino)) as Hd by (destruct Hty as [[_ ?]|[? _]]; [done|discriminate]). apply IH; [done|done|by apply Forall_cons].
Qed.

Lemma path_step_correct cs allow : Forall name_ok cs ->
  path_step m vol cs allow = Some (walk N cs allow [TRASHFS_ROOT_INODE] TRASHFS_ROOT_INODE TRASHFS_TYPE_DIR) /\
  (forall i ty, walk N cs allow [TRASHFS_ROOT_INODE] TRASHFS_ROOT_INODE TRASHFS_TYPE_DIR = inr (i, ty) ->
     place_ok i ty /\ (allow = false -> is_Some (N !! i))).
Proof.
  intros Hcs. pose proof (nm_root _ _ _ _ H). apply path_walk_correct; [done|done|by apply Forall_singleton].
Qed.

Lemma resolve_full_correct path : Forall is_u8 path -> resolve_full m vol path = Some (target N path) /\
  forall i ty, target N path = inr (i, ty) -> place_ok i ty.
Proof.
  intros Hp. unfold resolve_full, target. destruct (path_tokenize path) as [cs|] eqn:E; [|done].
  destruct (path_step_correct cs true (path_tokenize_ok path cs E Hp)) as [E1 E2]. split; [done|]. intros i ty Hw. by apply E2.
Qed.

Lemma resolve_parent_correct path : Forall is_u8 path -> resolve_parent m vol path = Some (parent N path) /\
  forall p nm, parent N path = inr (p, nm) -> is_Some (N !! p) /\ name_ok nm.
Proof.
  intros Hp. unfold resolve_parent, parent. destruct (path_tokenize path) as [cs|] eqn:E; [|done].
  pose proof (path_tokenize_ok path cs E Hp) as Hcs. destruct (last cs) as [leaf|] eqn:El; [|done].
  destruct (_ || _); [done|]. assert (Forall name_ok (removelast cs)) as Hr by (by apply Forall_removelast).
  destruct (path_step_correct (removelast cs) false Hr) as [-> E2]. cbn [mbind option_bind].
  destruct (walk _ _ _ _ _ _) as [e|[q ty]]; [done|]. split; [done|]. intros p nm [= <- <-]. split; [by apply (E2 q ty)|].
  rewrite Forall_forall in Hcs. apply Hcs. by apply last_Some_elem_of.
Qed.
End resolve.
