(* ===== verification/TrashLink.v ===== *)
(** Names that come and go: a new inode linked into a directory, and a name removed with
    its inode and blocks, keep the name space and the volume in step. *)
From stdpp Require Import gmap.
From S2P Require Import Prelude HostMem TrashFs TrashTree TrashFile TrashFree TrashFmt TrashDir TrashSlot TrashPath.
#[local] Open Scope Z_scope.

(** ** Counting inodes *)

Lemma filter_flip {A} (P Q : A -> Prop) `{forall x, Decision (P x)} `{forall x, Decision (Q x)} (l : list A) i :
  NoDup l -> i ∈ l -> P i -> ~ Q i -> (forall j, j ∈ l -> j <> i -> P j <-> Q j) ->
  length (filter P l) = S (length (filter Q l)).
Proof.
  induction l as [|x l IH]; intros Hn Hi Hp Hq Hs; [by apply elem_of_nil in Hi|]. apply NoDup_cons in Hn as [Hx Hn].
  rewrite !filter_cons. apply elem_of_cons in Hi as [<-|Hi].
  - rewrite decide_True, decide_False by done. cbn [length]. do 2 f_equal. apply filter_ext_elem.
    intros j Hj. apply Hs; [by right|]. by intros ->.
  - assert (x <> i) as Hne by (by intros ->). pose proof (Hs x ltac:(by left) Hne) as Hx'.
    pose proof (IH Hn Hi Hp Hq ltac:(intros j Hj; apply Hs; by right)) as E. repeat case_decide; cbn [length]; try tauto; lia.
Qed.

Lemma unused_flip m vol m' vol' i : inode_count vol' = inode_count vol -> an_inode vol i -> inode_used m vol i = false ->
  inode_used m' vol' i = true -> (forall k, an_inode vol k -> k <> i -> inode_used m' vol' k = inode_used m vol k) ->
  unused m vol = unused m' vol' + 1.
Proof.
  intros Ec Hi H0 H1 Hs. unfold unused. rewrite Ec.
  rewrite (filter_flip (fun k => inode_used m vol k = false) (fun k => inode_used m' vol' k = false) _ i); [lia|apply NoDup_seqZ| |done| |].
  - apply elem_of_seqZ. unfold an_inode in Hi. lia.
  - by rewrite H1.
  - intros j Hj%elem_of_seqZ Hne. rewrite Hs; [done|unfold an_inode; lia|done].
Qed.

Lemma unused_bounds m vol : 0 <= inode_count vol -> 0 <= unused m vol <= inode_count vol.
Proof.
  intros Hc. unfold unused. split; [lia|].
  pose proof (length_filter (fun i => inode_used m vol i = false) (seqZ 0 (inode_count vol))) as Hl. rewrite length_seqZ in Hl. lia.
Qed.

Lemma kept_super B H P m vol fs m' vol' fs' : kept B H P m vol fs m' vol' fs' -> sb_ok m vol -> sb_ok m' vol'.
Proof.
  intros K S. rewrite (kp_vol _ _ _ _ _ _ _ _ _ K). apply (sb_agree m); [done|]. apply (kp_super _ _ _ _ _ _ _ _ _ K).
Qed.

Lemma kept_used B H P m vol fs m' vol' fs' i : kept B H P m vol fs m' vol' fs' -> an_inode vol i -> ~ H i ->
  inode_used m' vol' i = inode_used m vol i.
Proof. intros K Hi Hn. rewrite !used_mode. unfold imode. by rewrite (proj2 (kept_size _ _ _ _ _ _ _ _ _ i K Hi Hn)). Qed.

(** A handle that counts inodes otherwise. *)
Lemma fs_ok_inodes m vol fs y : fs_ok m vol fs -> fs_ok m (set_free vol (free_blocks vol) y) fs.
Proof. intros [[H1 H2 H3 H4 H5 H6] H7 H8]. split; [split|done|done]; try done. by apply vol_ok_free. Qed.

Lemma kept_inodes B H P m vol fs m' vol' fs' y z : kept B H P m (set_free vol (free_blocks vol) y) fs m' vol' fs' ->
  kept B H P m vol fs m' (set_free vol' (free_blocks vol') z) fs'.
Proof.
  intros [K1 K2 K3 K4 K5 K6 K7]. split; try done.
  - by apply fs_ok_inodes.
  - rewrite K2. done.
Qed.

Lemma dir_at_inodes m vol fs i d n y : dir_at m vol fs i d n -> dir_at m (set_free vol (free_blocks vol) y) fs i d n.
Proof. intros [[H1 H2 H3] H4 H5]. split; [by split|exact H4|exact H5]. Qed.

(** A blank inode has no blocks. *)
Lemma blank_trees m vol fs i : fs_ok m vol fs -> an_inode vol i -> (forall x, rng (inode_ptr vol i) 64 x -> m x = 0) ->
  forall j, (j < 11)%nat -> itree fs i j = Hole.
Proof.
  intros H Hi Hz j Hj. destruct (itree_rep m vol fs i j H Hi Hj) as [Hr R].
  apply (data_root m vol (inode_level j)); [apply (ao_vol _ _ _ (fs_alloc _ _ _ H))|done|]. rewrite <-Hr.
  unfold rd32, load32. rewrite (mem_read_agree m (fun _ => 0)); [done|]. intros x Hx. apply Hz. unfold rng in *. lia.
Qed.

Lemma find_free_inode_spec m vol n i : match find_free_inode m vol n i with
  | Some c => i <= c < i + Z.of_nat n /\ inode_used m vol c = false
  | None => forall c, i <= c < i + Z.of_nat n -> inode_used m vol c = true
  end.
Proof.
  revert i. induction n as [|n IH]; intros i; cbn [find_free_inode]; [intros c Hc; lia|].
  destruct (inode_used m vol i) eqn:Hi; [|split; [lia|done]]. specialize (IH (i + 1)).
  destruct (find_free_inode m vol n (i + 1)) as [c|]; [split; [lia|apply IH]|].
  intros c Hc. destruct (decide (c = i)) as [->|]; [done|]. apply IH. lia.
Qed.

(** An inode is found if the count is not zero. *)
Lemma alloc_inode_spec m vol : 0 < inode_count vol -> free_inodes vol = unused m vol -> match alloc_inode_v m vol with
  | (vol', Some i) => an_inode vol i /\ inode_used m vol i = false /\ 0 < free_inodes vol /\
      vol' = set_free vol (free_blocks vol) (free_inodes vol - 1)
  | (vol', None) => vol' = vol /\ free_inodes vol = 0
  end.
Proof.
  intros Hc Hf. unfold alloc_inode_v. pose proof (find_free_inode_spec m vol (Z.to_nat (inode_count vol)) 0) as G.
  destruct (find_free_inode _ _ _ _) as [i|].
  - destruct G as [Hi Hu]. assert (an_inode vol i) as Hin by (unfold an_inode; lia). assert (0 < free_inodes vol) as Hp.
    { rewrite Hf. unfold unused. assert (i ∈ filter (fun c => inode_used m vol c = false) (seqZ 0 (inode_count vol))) as Hin'
        by (apply list_elem_of_filter; split; [done|apply elem_of_seqZ; lia]).
      destruct (filter _ _); [by apply elem_of_nil in Hin'|cbn [length]; lia]. }
    rewrite (proj2 (Z.ltb_lt 0 _) Hp). done.
  - split; [done|]. rewrite Hf. unfold unused. destruct (filter _ _) as [|c l] eqn:E; [done|].
    assert (c ∈ filter (fun c => inode_used m vol c = false) (seqZ 0 (inode_count vol))) as Hin by (rewrite E; by left).
    apply list_elem_of_filter in Hin as [Hu Hin]. apply elem_of_seqZ in Hin. rewrite G in Hu by lia. done.
Qed.

(** ** A new name *)

Definition link (N : namespace) (p : Z) (d : dirmap) (nm : list Z) (ino ty : Z) : namespace :=
  let N := <[p := <[nm := (ino, ty)]> d]> N in
  if ty =? TRASHFS_TYPE_DIR then <[ino := ∅]> N else N.

Section link.
Context (N : namespace) (p : Z) (d : dirmap) (nm : list Z) (ino ty : Z).
Context (Hp : N !! p = Some d) (Hnm : d !! nm = None) (Hino : N !! ino = None).

Lemma link_lookup i : link N p d nm ino ty !! i =
  if bool_decide (i = ino /\ ty = TRASHFS_TYPE_DIR) then Some ∅ else if decide (i = p) then Some (<[nm := (ino, ty)]> d) else N !! i.
Proof.
  unfold link. assert (ino <> p) as Hne by congruence. destruct (Z.eqb_spec ty TRASHFS_TYPE_DIR) as [E|E].
  - destruct (decide (i = ino)) as [->|Hi]; [by rewrite lookup_insert_eq, bool_decide_eq_true_2|].
    rewrite lookup_insert_ne, bool_decide_eq_false_2 by (done || tauto). case_decide as Hip; [subst; by rewrite lookup_insert_eq|by rewrite lookup_insert_ne].
  - rewrite bool_decide_eq_false_2 by tauto. case_decide as Hip; [subst; by rewrite lookup_insert_eq|by rewrite lookup_insert_ne].
Qed.

Lemma link_named q nm' ino' ty' : named (link N p d nm ino ty) q nm' ino' ty' <->
  (q = p /\ nm' = nm /\ ino' = ino /\ ty' = ty) \/ named N q nm' ino' ty'.
Proof.
  unfold named. rewrite link_lookup. assert (ino <> p) as Hne by congruence. split.
  - intros (d' & Hd & E). case_bool_decide as E1; [injection Hd as <-; by rewrite lookup_empty in E|].
    case_decide as E2; [|right; by exists d']. subst q. injection Hd as <-. destruct (decide (nm' = nm)) as [->|Hn].
    + rewrite lookup_insert_eq in E. injection E as <- <-. by left.
    + rewrite lookup_insert_ne in E by done. right. by exists d.
  - intros [(-> & -> & -> & ->)|(d' & Hd & E)].
    + exists (<[nm := (ino, ty)]> d). rewrite bool_decide_eq_false_2, decide_True by (done || (intros [? _]; congruence)). by rewrite lookup_insert_eq.
    + destruct (decide (q = p)) as [->|Hq].
      * exists (<[nm := (ino, ty)]> d). rewrite bool_decide_eq_false_2 by (intros [? _]; congruence). split; [done|]. rewrite Hp in Hd. injection Hd as <-.
        rewrite lookup_insert_ne; [done|]. intros <-. congruence.
      * exists d'. rewrite bool_decide_eq_false_2 by (intros [? _]; congruence). done.
Qed.
End link.

(** The memory [m1] with room for the entry, [m2] with the inode, [m3] with both. *)
Section new_name.
Context (m : mem) (vol : TrashfsVolume) (fs : list tree) (N : namespace) (H : names_ok m vol fs N).
Context (p : Z) (d : dirmap) (n : Z) (nm : list Z) (ino ty : Z).
Context (Hp : N !! p = Some d) (D : dir_at m vol fs p d n) (Hnm : d !! nm = None) (Hname : name_ok nm).
Context (Hi : an_inode vol ino) (Hu : inode_used m vol ino = false).
Context (m1 : mem) (vol1 : TrashfsVolume) (fs1 : list tree) (j n1 : Z) (R : room m vol fs p n m1 vol1 fs1 j n1).
Context (m2 : mem) (Wm2 : mem_ok m2) (F : mem_frame (inode_ptr vol1 ino) 64 m1 m2).
Context (Hz : forall x, rng (inode_ptr vol1 ino + 4) 4 x \/ rng (inode_ptr vol1 ino + 16) 48 x -> m2 x = 0).
Context (Hty : (ty = TRASHFS_TYPE_DIR /\ imode m2 vol1 ino = DIR_MODE) \/ (ty = TRASHFS_TYPE_FILE /\ imode m2 vol1 ino = TRASHFS_MODE_USED)).

Let m3 := fill_dirent m2 (slot_addr vol1 fs1 p j) ino ty nm.
Let vol3 := set_free vol1 (free_blocks vol1) (free_inodes vol - 1).
Let touched (k : Z) : Prop := k = p \/ k = ino.

Lemma parent_mode : imode m vol p = DIR_MODE.
Proof. apply (nm_dir _ _ _ _ H p d Hp). Qed.

Lemma new_not_parent : ino <> p.
Proof. intros E. subst ino. rewrite used_mode, parent_mode in Hu. done. Qed.

Lemma new_not_dir : N !! ino = None.
Proof.
  destruct (N !! ino) as [d'|] eqn:E; [|done]. destruct (nm_dir _ _ _ _ H ino d' E) as [Hm _].
  rewrite used_mode, Hm in Hu. done.
Qed.

Lemma new_number : 0 < ino <= 0xFFFFFFFF.
Proof.
  destruct (nm_root _ _ _ _ H) as [d0 H0]. destruct (nm_dir _ _ _ _ H 0 d0 H0) as [Hm _].
  assert (ino <> 0) as Hne by (intros ->; rewrite used_mode, Hm in Hu; done).
  destruct (ao_vol _ _ _ (fs_alloc _ _ _ (names_fs _ _ _ _ H))) as [? V1 (? & V2 & V3) (V4 & V5 & V6) (V7 & V8)].
  unfold an_inode in Hi. lia.
Qed.

Lemma new_steps : kept none touched touched m vol fs m2 vol1 fs1 /\ kept (only p) touched touched m vol fs m3 vol1 fs1 /\
  kept (only p) none none m2 vol1 fs1 m3 vol1 fs1 /\ dir_at m3 vol1 fs1 p (<[nm := (ino, ty)]> d) n1.
Proof.
  pose proof (rm_kept _ _ _ _ _ _ _ _ _ _ R) as K1. pose proof (kp_ok _ _ _ _ _ _ _ _ _ K1) as H1.
  destruct (kept_vol _ _ _ _ _ _ _ _ _ K1) as (Ei & Ep & _). assert (an_inode vol1 ino) as Hi1 by (by apply Ei).
  pose proof new_not_parent as Hne. pose proof (names_fs _ _ _ _ H) as Hf.
  assert (forall x, rng (inode_ptr vol1 ino) 64 x -> m1 x = 0) as Hb.
  { intros x Hx. rewrite Ep in Hx. transitivity (m x); [|by apply (nm_blank _ _ _ _ H ino)].
    destruct (decide (rng (inode_ptr vol ino) 16 x)) as [Hr|Hr].
    - by apply (kp_head _ _ _ _ _ _ _ _ _ K1 ino x Hi (not_only _ _ Hne)).
    - apply (kp_ptrs _ _ _ _ _ _ _ _ _ K1 ino x Hi (not_only _ _ Hne)). unfold rng in *. lia. }
  assert (kept none (only ino) (only ino) m1 vol1 fs1 m2 vol1 fs1) as K2.
  { apply inode_kept; [done|done|by apply (blank_trees m1 vol1)|done|done|]. intros x Hx. apply Hz. right. unfold in_pointers, rng in *. lia. }
  destruct Hname as [Hl Hn8].
  destruct (fill_room m vol fs p d n m1 vol1 fs1 j n1 ino ty nm Hf D R Hnm new_number) with (m2 := m2) as [K3 D3]; [|done|done| |].
  { destruct Hty as [[-> _]|[-> _]]; unfold is_u8, TRASHFS_TYPE_DIR, TRASHFS_TYPE_FILE; lia. }
  { apply (kept_weaken none (only ino) (only ino)); [done|by intros k ->|by intros k ->|done]. }
  fold m3 in K3, D3. assert (kept none touched touched m vol fs m2 vol1 fs1) as K12.
  { apply (keeps_trans _ _ _ m vol fs m1 vol1 fs1).
    - apply (kept_weaken none (only p) (only p)); [done|by left|by left|done].
    - apply (kept_weaken none (only ino) (only ino)); [done|by right|by right|done]. }
  split; [done|]. split; [|by split]. apply (keeps_trans _ _ _ m vol fs m2 vol1 fs1).
  - by apply (kept_weaken none touched touched).
  - by apply (kept_weaken (only p) none none).
Qed.

Lemma new_modes i : an_inode vol i -> imode m3 vol1 i = if decide (i = ino) then imode m2 vol1 ino else imode m vol i.
Proof.
  intros Hi'. destruct new_steps as (K12 & K & K3 & _). destruct (kept_vol _ _ _ _ _ _ _ _ _ K) as (Ei & Ep & _).
  assert (imode m3 vol1 i = imode m2 vol1 i) as -> by (apply (kept_size _ _ _ _ _ _ _ _ _ i K3); [by apply Ei|done]).
  destruct (decide (i = ino)) as [->|Hne]; [done|]. destruct (decide (i = p)) as [->|Hnp].
  - transitivity (imode m1 vol1 p); [|exact (rm_mode _ _ _ _ _ _ _ _ _ _ R)]. unfold imode, rd16. rewrite Ep. symmetry. apply load16_agree.
    intros x Hx. apply F. rewrite Ep. pose proof (ao_vol _ _ _ (fs_alloc _ _ _ (names_fs _ _ _ _ H))) as W.
    rewrite !(inode_ptr_eq vol) in * by done. pose proof new_not_parent. unfold rng, an_inode in *. lia.
  - apply (kept_size _ _ _ _ _ _ _ _ _ i K12); [done|]. intros [?|?]; done.
Qed.

Lemma new_used i : an_inode vol i -> inode_used m3 vol1 i = (if decide (i = ino) then true else inode_used m vol i).
Proof.
  intros Hi'. rewrite !used_mode, new_modes by done. case_decide; [|done]. destruct Hty as [[_ ->]|[_ ->]]; done.
Qed.

Lemma new_volume : free_inodes vol = unused m vol -> volume_ok m3 vol3 fs1.
Proof.
  intros Hf. destruct new_steps as (_ & K & _ & _). destruct (kept_vol _ _ _ _ _ _ _ _ _ K) as (Ei & Ep & _ & Ec). split.
  - apply fs_ok_inodes, (kp_ok _ _ _ _ _ _ _ _ _ K).
  - apply (sb_agree m3 m3 vol1); [|done]. apply (kept_super _ _ _ _ _ _ _ _ _ K). apply (vk_super _ _ _ (nm_vol _ _ _ _ H)).
  - change (unused m3 vol3) with (unused m3 vol1). cbn [free_inodes vol3 set_free].
    rewrite Hf, (unused_flip m vol m3 vol1 ino Ec Hi Hu); [lia| |].
    + rewrite new_used by done. by rewrite decide_True.
    + intros k Hk Hne. rewrite new_used by done. by rewrite decide_False.
Qed.

Lemma new_place i d' : N !! i = Some d' -> i <> p -> (exists n', dir_at m vol fs i d' n') -> exists n', dir_at m3 vol3 fs1 i d' n'.
Proof.
  intros Hd Hne [n' D']. exists n'. destruct new_steps as (_ & K & _ & _). apply dir_at_inodes, (dir_at_kept _ _ _ _ _ _ _ _ _ _ _ _ K); [done| |done].
  intros [?|E]; [done|]. subst i. by rewrite new_not_dir in Hd.
Qed.

Lemma link_ok : (ty = TRASHFS_TYPE_DIR -> isize m2 vol1 ino = 0) -> names_ok m3 vol3 fs1 (link N p d nm ino ty).
Proof.
  intros Hsz. pose proof new_not_dir as Hnd. pose proof new_not_parent as Hne. destruct new_steps as (K12 & K & K3 & D3).
  destruct (kept_vol _ _ _ _ _ _ _ _ _ K) as (Ei & Ep & _ & _). pose proof (link_named N p d nm ino ty Hp Hnm Hnd) as LN.
  split.
  - apply new_volume, (vk_free _ _ _ (nm_vol _ _ _ _ H)).
  - rewrite link_lookup by done. case_bool_decide; [by eexists|]. case_decide; [by eexists|]. apply (nm_root _ _ _ _ H).
  - intros i d' Hd. rewrite link_lookup in Hd by done. change (imode m3 vol3 i) with (imode m3 vol1 i). case_bool_decide as E1; [|case_decide as E2].
    + destruct E1 as [-> Et]. injection Hd as <-. rewrite new_modes, decide_True by done. split; [destruct Hty as [[_ ?]|[Ef _]]; [done|by rewrite Et in Ef]|].
      assert (dir_ok m3 vol1 ino 0) as D0.
      { split; [by apply Ei|unfold max_slots, max_blocks; lia|]. rewrite (proj1 (kept_size _ _ _ _ _ _ _ _ _ ino K3 (proj2 (Ei ino) Hi) (not_none ino))).
        by apply Hsz. }
      exists 0. apply dir_at_inodes. split; [exact D0|apply NoDup_nil_2|reflexivity].
    + injection Hd as <-. subst i. rewrite new_modes, decide_False by (done || apply (do_inode _ _ _ _ (da_ok _ _ _ _ _ _ D))).
      split; [apply parent_mode|]. exists n1. by apply dir_at_inodes.
    + destruct (nm_dir _ _ _ _ H i d' Hd) as [Hm Hd']. split; [|exact (new_place i d' Hd E2 Hd')]. destruct Hd' as [n' D'].
      rewrite new_modes, decide_False by (apply (do_inode _ _ _ _ (da_ok _ _ _ _ _ _ D')) || (intros ->; congruence)). done.
  - intros q nm' ino' ty' [(-> & -> & -> & ->)|Ho]%LN; change (imode m3 vol3) with (imode m3 vol1).
    + split; [by apply Ei|]. split; [pose proof new_number; unfold TRASHFS_ROOT_INODE; lia|]. rewrite link_lookup, new_modes by done.
      rewrite (decide_True (P := ino = ino)) by done. destruct Hty as [[-> _]|[-> ?]]; [left; split; [done|]; by rewrite bool_decide_eq_true_2|right].
      rewrite bool_decide_eq_false_2, decide_False by (done || by intros [_ ?]). done.
    + destruct (nm_entry _ _ _ _ H q nm' ino' ty' Ho) as (Hi' & Hr & Hc). split; [by apply Ei|]. split; [done|].
      destruct Hc as [[-> [d' Hd']]|(-> & Hn' & Hm')]; rewrite link_lookup by done.
      * left. split; [done|]. case_bool_decide; [by eexists|]. case_decide; by eexists.
      * right. assert (ino' <> ino) as Hno by (intros ->; rewrite used_mode, Hm' in Hu; done). assert (ino' <> p) as Hnp by (intros ->; by rewrite Hp in Hn').
        rewrite new_modes, bool_decide_eq_false_2, !decide_False by (done || by intros [? _]).
        done.
  - intros q nm' ino' ty' [(-> & -> & _)|Ho]%LN; [apply Hname|by apply (nm_short _ _ _ _ H _ _ _ _ Ho)].
  - intros q1 nm1 q2 nm2 i t1 t2 [(-> & -> & -> & ->)|H1]%LN [(-> & -> & E & ->)|H2]%LN.
    + done.
    + exfalso. destruct (nm_entry _ _ _ _ H _ _ _ _ H2) as (_ & _ & [[_ [d' Hd']]|(_ & _ & Hm)]); [by rewrite Hnd in Hd'|]. rewrite used_mode, Hm in Hu. done.
    + exfalso. subst i. destruct (nm_entry _ _ _ _ H _ _ _ _ H1) as (_ & _ & [[_ [d' Hd']]|(_ & _ & Hm)]); [by rewrite Hnd in Hd'|]. rewrite used_mode, Hm in Hu. done.
    + by apply (nm_once _ _ _ _ H q1 nm1 q2 nm2 i t1 t2).
  - intros i x Hi' Hu' Hx. apply Ei in Hi'. change (inode_used m3 vol3 i) with (inode_used m3 vol1 i) in Hu'. rewrite new_used in Hu' by done. case_decide as En; [done|].
    change (inode_ptr vol3 i) with (inode_ptr vol1 i) in Hx. rewrite Ep in Hx. rewrite <-(nm_blank _ _ _ _ H i x Hi' Hu' Hx).
    assert (~ touched i) as Ht by (intros [->| ->]; [rewrite used_mode, parent_mode in Hu'; done|done]).
    destruct (decide (rng (inode_ptr vol i) 16 x)) as [Hr|Hr]; [by apply (kp_head _ _ _ _ _ _ _ _ _ K i)|].
    apply (kp_ptrs _ _ _ _ _ _ _ _ _ K i); [done|done|]. unfold rng in *. lia.
  - intros i Hi' Hu' Hr. apply Ei in Hi'. change (inode_used m3 vol3 i) with (inode_used m3 vol1 i) in Hu'. rewrite new_used in Hu' by done.
    case_decide as En; [subst i; exists p, nm, ty; apply LN; by left|].
    destruct (nm_linked _ _ _ _ H i Hi' Hu' Hr) as (q & nm' & t & Hq). exists q, nm', t. apply LN. by right.
Qed.
End new_name.

(** ** A name removed *)

Definition unlink_name (N : namespace) (p : Z) (d : dirmap) (nm : list Z) (ino : Z) : namespace :=
  delete ino (<[p := delete nm d]> N).

Section gone.
Context (m : mem) (vol : TrashfsVolume) (fs : list tree) (N : namespace) (H : names_ok m vol fs N).
Context (p : Z) (d : dirmap) (n : Z) (nm : list Z) (ino ty : Z).
Context (Hp : N !! p = Some d) (D : dir_at m vol fs p d n) (Hnm : d !! nm = Some (ino, ty)).
Context (Hempty : ty = TRASHFS_TYPE_DIR -> N !! ino = Some ∅).
Context (m1 : mem) (K1 : kept (only p) none none m vol fs m1 vol fs) (D1 : dir_at m1 vol fs p (delete nm d) n).

Let both (k : Z) : Prop := k = p \/ k = ino.

Lemma gone_named : named N p nm ino ty.
Proof. by exists d. Qed.

Lemma gone_inode : an_inode vol ino /\ ino <> TRASHFS_ROOT_INODE.
Proof. destruct (nm_entry _ _ _ _ H _ _ _ _ gone_named) as (H1 & H2 & _). done. Qed.

Lemma gone_not_parent : ino <> p.
Proof.
  intros E. destruct (nm_entry _ _ _ _ H _ _ _ _ gone_named) as (_ & _ & [[Et _]|(_ & Hn & _)]).
  - specialize (Hempty Et). rewrite E, Hp in Hempty. injection Hempty as Ed. rewrite Ed, lookup_empty in Hnm. done.
  - rewrite E, Hp in Hn. done.
Qed.

Lemma gone_used : inode_used m vol ino = true.
Proof.
  rewrite used_mode. destruct (nm_entry _ _ _ _ H _ _ _ _ gone_named) as (_ & _ & [[_ [d' Hd']]|(_ & _ & ->)]); [|done].
  destruct (nm_dir _ _ _ _ H ino d' Hd') as [-> _]. done.
Qed.

Lemma gone_lookup i : unlink_name N p d nm ino !! i = if decide (i = ino) then None else if decide (i = p) then Some (delete nm d) else N !! i.
Proof.
  unfold unlink_name. case_decide as E1; [subst; by rewrite lookup_delete_eq|]. rewrite lookup_delete_ne by done.
  case_decide as E2; [subst; by rewrite lookup_insert_eq|by rewrite lookup_insert_ne].
Qed.

Lemma gone_names q nm' ino' ty' : named (unlink_name N p d nm ino) q nm' ino' ty' <-> named N q nm' ino' ty' /\ ino' <> ino.
Proof.
  pose proof gone_not_parent as Hne. split.
  - intros (d' & Hd & E). rewrite gone_lookup in Hd. case_decide as E1; [done|].
    assert (named N q nm' ino' ty' /\ (q = p -> nm' <> nm)) as [Ho Hn].
    { case_decide as E2; [subst q; injection Hd as <-|by split; [exists d'|]]. apply lookup_delete_Some in E as [Hn E]. split; [by exists d|done]. }
    split; [done|]. intros ->. destruct (nm_once _ _ _ _ H _ _ _ _ _ _ _ Ho gone_named) as [-> ->]. by apply Hn.
  - intros [(d' & Hd & E) Hn]. assert (q <> ino) as Hq.
    { intros ->. destruct (nm_entry _ _ _ _ H _ _ _ _ gone_named) as (_ & _ & [[Et _]|(_ & Hn' & _)]); [|by rewrite Hn' in Hd].
      rewrite (Hempty Et) in Hd. injection Hd as <-. by rewrite lookup_empty in E. }
    destruct (decide (q = p)) as [->|Hqp].
    + exists (delete nm d). rewrite gone_lookup, decide_False, decide_True by done. split; [done|]. rewrite Hp in Hd. injection Hd as <-.
      rewrite lookup_delete_ne; [done|]. intros <-. rewrite Hnm in E. by injection E as <- _.
    + exists d'. by rewrite gone_lookup, !decide_False.
Qed.

(** The blocks and the inode go back. *)
Lemma gone_steps : exists m3 vol2 fs2, release_inode m1 vol ino = (m3, unreserve vol2) /\ free_inodes vol2 = free_inodes vol /\
  kept both (only ino) (only ino) m vol fs m3 vol2 fs2 /\ (forall x, rng (inode_ptr vol ino) 64 x -> m3 x = 0) /\
  kept (only ino) (only ino) (only ino) m1 vol fs m3 vol2 fs2.
Proof.
  destruct gone_inode as [Hi _]. pose proof (kp_ok _ _ _ _ _ _ _ _ _ K1) as H1.
  destruct (free_all_blocks_spec m1 vol fs ino H1 Hi) as (m2 & vol2 & fs2 & E & G).
  destruct (dropped_kept m1 vol fs ino m2 vol2 fs2 H1 Hi G) as [K2 Hh]. pose proof (dr_vol _ _ _ _ _ _ _ _ G) as Ev.
  assert (inode_ptr vol2 ino = inode_ptr vol ino) as Ep by (by rewrite Ev). set (m3 := memset m2 (inode_ptr vol ino) 0 TRASHFS_INODE_SIZE).
  assert (forall x, rng (inode_ptr vol ino) 64 x -> m3 x = 0) as Hz.
  { intros x Hx. unfold m3, memset. rewrite mem_write_in; [apply nth_replicate_zero|]. by rewrite length_replicate. }
  assert (kept none (only ino) (only ino) m2 vol2 fs2 m3 vol2 fs2) as K3.
  { pose proof (kp_ok _ _ _ _ _ _ _ _ _ K2) as H2. apply inode_kept; [done|by rewrite Ev|done|by apply memset_ok, (fs_mem_ok _ _ _ H2)| |].
    - rewrite Ep. by apply memset_frame.
    - intros x Hx. apply Hz. unfold in_pointers in Hx. rewrite Ep in Hx. unfold rng in *. lia. }
  assert (kept (only ino) (only ino) (only ino) m1 vol fs m3 vol2 fs2) as K23.
  { apply (keeps_trans _ _ _ m1 vol fs m2 vol2 fs2).
    - by apply (kept_weaken (only ino) none (only ino)).
    - by apply (kept_weaken none (only ino) (only ino)). }
  exists m3, vol2, fs2. split_and!; [|by rewrite Ev| |done|done].
  - unfold release_inode. rewrite E. done.
  - apply (keeps_trans _ _ _ m vol fs m1 vol fs); [|]; eapply kept_weaken; [| | |exact K1| | | |exact K23]; by (try by left) || by (try by right) || done.
Qed.

Context (m3 : mem) (vol2 : TrashfsVolume) (fs2 : list tree).
Context (Ef : free_inodes vol2 = free_inodes vol) (K : kept both (only ino) (only ino) m vol fs m3 vol2 fs2).
Context (Hz : forall x, rng (inode_ptr vol ino) 64 x -> m3 x = 0) (K23 : kept (only ino) (only ino) (only ino) m1 vol fs m3 vol2 fs2).

Lemma gone_blank : inode_used m3 vol2 ino = false /\ (forall i, an_inode vol i -> i <> ino -> imode m3 vol2 i = imode m vol i).
Proof.
  destruct (kept_vol _ _ _ _ _ _ _ _ _ K) as (Ei & Ep & _). split.
  - rewrite used_mode. unfold imode, rd16, load16. rewrite (mem_read_agree m3 (fun _ => 0)); [done|]. intros x Hx. rewrite Ep in Hx.
    apply Hz. unfold rng in *. lia.
  - intros i Hi Hne. by apply (kept_size _ _ _ _ _ _ _ _ _ i K).
Qed.

Lemma gone_volume : volume_ok m3 (unreserve vol2) fs2.
Proof.
  destruct gone_inode as [Hi _]. destruct (kept_vol _ _ _ _ _ _ _ _ _ K) as (Ei & Ep & _ & Ec). pose proof (nm_vol _ _ _ _ H) as V. split.
  - apply fs_ok_inodes, (kp_ok _ _ _ _ _ _ _ _ _ K).
  - apply (sb_agree m3 m3 vol2); [|done]. by apply (kept_super _ _ _ _ _ _ _ _ _ K), V.
  - change (unused m3 (unreserve vol2)) with (unused m3 vol2). cbn [free_inodes unreserve set_free].
    rewrite Ef, (vk_free _ _ _ V). assert (unused m3 vol2 = unused m vol + 1) as ->.
    { apply (unused_flip m3 vol2 m vol ino); [done|by apply Ei|apply gone_blank|exact gone_used|]. intros k Hk Hne. symmetry.
      apply (kept_used _ _ _ _ _ _ _ _ _ k K); [by apply Ei|by apply not_only]. }
    apply u32_small. destruct (ao_vol _ _ _ (fs_alloc _ _ _ (vk_fs _ _ _ V))) as [? V1 (? & V2 & V3) (V4 & V5 & V6) (V7 & V8)].
    pose proof (unused_bounds m vol ltac:(lia)). unfold is_u32. lia.
Qed.

Lemma unlink_ok : names_ok m3 (unreserve vol2) fs2 (unlink_name N p d nm ino).
Proof.
  pose proof gone_not_parent as Hne. pose proof gone_names as GN. destruct gone_blank as [Hbl Hmo].
  destruct (kept_vol _ _ _ _ _ _ _ _ _ K) as (Ei & Ep & _ & _). assert (forall i, inode_used m3 (unreserve vol2) i = inode_used m3 vol2 i) as Eu by done.
  assert (forall i, an_inode vol i -> i <> ino -> inode_used m3 vol2 i = inode_used m vol i) as Hus
    by (intros i Hi Hn; rewrite !used_mode; by rewrite Hmo).
  split.
  - apply gone_volume.
  - rewrite gone_lookup. rewrite decide_False by (destruct gone_inode; congruence). case_decide; [by eexists|apply (nm_root _ _ _ _ H)].
  - intros i d' Hd. rewrite gone_lookup in Hd. case_decide as E1; [done|]. change (imode m3 (unreserve vol2) i) with (imode m3 vol2 i).
    case_decide as E2.
    + injection Hd as <-. subst i. rewrite Hmo by (done || apply (do_inode _ _ _ _ (da_ok _ _ _ _ _ _ D))).
      split; [apply (nm_dir _ _ _ _ H p d Hp)|]. exists n. apply dir_at_inodes, (dir_at_kept _ _ _ _ _ _ _ _ _ _ _ _ K23); [by apply not_only..|done].
    + destruct (nm_dir _ _ _ _ H i d' Hd) as [Hm [n' D']]. rewrite Hmo by (done || apply (do_inode _ _ _ _ (da_ok _ _ _ _ _ _ D'))).
      split; [done|]. exists n'. apply dir_at_inodes, (dir_at_kept _ _ _ _ _ _ _ _ _ _ _ _ K); [by intros [?|?]|by apply not_only|done].
  - intros q nm' i t [Ho Hn]%GN. destruct (nm_entry _ _ _ _ H q nm' i t Ho) as (Hi & Hr & Hc). split; [by apply Ei|]. split; [done|].
    change (imode m3 (unreserve vol2) i) with (imode m3 vol2 i). rewrite Hmo, gone_lookup, (decide_False (P := i = ino)) by done.
    destruct Hc as [[-> [d' Hd']]|(-> & Hn' & Hm')]; [left|right].
    + split; [done|]. case_decide; by eexists.
    + rewrite decide_False; [done|]. intros ->. by rewrite Hp in Hn'.
  - intros q nm' i t [Ho _]%GN. by apply (nm_short _ _ _ _ H _ _ _ _ Ho).
  - intros q1 nm1 q2 nm2 i t1 t2 [H1 _]%GN [H2 _]%GN. by apply (nm_once _ _ _ _ H q1 nm1 q2 nm2 i t1 t2).
  - intros i x Hi Hu Hx. apply Ei in Hi. rewrite Eu in Hu. change (inode_ptr (unreserve vol2) i) with (inode_ptr vol2 i) in Hx. rewrite Ep in Hx.
    destruct (decide (i = ino)) as [->|Hn]; [by apply Hz|]. rewrite Hus in Hu by done. rewrite <-(nm_blank _ _ _ _ H i x Hi Hu Hx).
    destruct (decide (rng (inode_ptr vol i) 16 x)) as [Hr|Hr]; [by apply (kp_head _ _ _ _ _ _ _ _ _ K i)|].
    apply (kp_ptrs _ _ _ _ _ _ _ _ _ K i); [done|by apply not_only|]. unfold rng in *. lia.
  - intros i Hi Hu Hr. apply Ei in Hi. rewrite Eu in Hu. destruct (decide (i = ino)) as [->|Hn]; [by rewrite Hbl in Hu|].
    rewrite Hus in Hu by done. destruct (nm_linked _ _ _ _ H i Hi Hu Hr) as (q & nm' & t & Hq). exists q, nm', t. by apply GN.
Qed.
End gone.
