(* ===== verification/TrashName.v ===== *)
(** The operations on names, from a path to the volume: opening with creation and
    truncation, unlinking, making and removing directories, listing them.  On a volume
    that holds a name space each of them ends, does to the name space what its
    specification says, and leaves the files it is not about as they were. *)
From stdpp Require Import gmap.
From S2P Require Import Prelude HostMem TrashFs TrashTree TrashFile TrashFree TrashFmt TrashDir TrashSlot TrashPath TrashLink.
#[local] Open Scope Z_scope.

(** ** Changes of contents *)

(** A step that keeps the directories and the modes keeps the name space. *)
Lemma names_kept (B HH P : Z -> Prop) m vol fs N m' vol' fs' : names_ok m vol fs N -> kept B HH P m vol fs m' vol' fs' ->
  (forall i, B i \/ HH i -> N !! i = None) -> (forall i, HH i -> imode m' vol' i = imode m vol i) ->
  (forall i, HH i \/ P i -> inode_used m vol i = true) -> free_inodes vol' = free_inodes vol -> names_ok m' vol' fs' N.
Proof.
  intros H K Hn Hm Hu Ef. destruct (kept_vol _ _ _ _ _ _ _ _ _ K) as (Ei & Ep & _ & Ec). pose proof (nm_vol _ _ _ _ H) as V.
  assert (forall i, an_inode vol i -> imode m' vol' i = imode m vol i) as Hmo.
  { intros i Hi. destruct (decide (imode m' vol' i = imode m vol i)) as [|Hne]; [done|]. apply (kept_size _ _ _ _ _ _ _ _ _ i K Hi).
    intros Hh. by apply Hne, Hm. }
  assert (forall i, an_inode vol i -> inode_used m' vol' i = inode_used m vol i) as Hus by (intros i Hi; rewrite !used_mode; by rewrite Hmo).
  split.
  - split; [apply (kp_ok _ _ _ _ _ _ _ _ _ K)|by apply (kept_super _ _ _ _ _ _ _ _ _ K), V|]. rewrite Ef, (vk_free _ _ _ V).
    unfold unused. rewrite Ec. do 2 f_equal. apply filter_ext_elem. intros i Hi%elem_of_seqZ. rewrite Hus; [done|unfold an_inode; lia].
  - apply (nm_root _ _ _ _ H).
  - intros i d Hd. destruct (nm_dir _ _ _ _ H i d Hd) as [Hd1 [n D]]. rewrite Hmo by apply (do_inode _ _ _ _ (da_ok _ _ _ _ _ _ D)).
    split; [done|]. exists n. apply (dir_at_kept _ _ _ _ _ _ _ _ _ _ _ _ K); [| |done]; intros Hb; by rewrite Hn in Hd by tauto.
  - intros p nm ino ty Ho. destruct (nm_entry _ _ _ _ H _ _ _ _ Ho) as (Hi & Hr & Hc). split; [by apply Ei|]. split; [done|]. by rewrite Hmo.
  - apply (nm_short _ _ _ _ H).
  - apply (nm_once _ _ _ _ H).
  - intros i x Hi Hu' Hx. apply Ei in Hi. rewrite Hus in Hu' by done. rewrite Ep in Hx. rewrite <-(nm_blank _ _ _ _ H i x Hi Hu' Hx).
    destruct (decide (rng (inode_ptr vol i) 16 x)) as [Hr|Hr].
    + apply (kp_head _ _ _ _ _ _ _ _ _ K i); [done| |done]. intros Hh. by rewrite Hu in Hu' by tauto.
    + apply (kp_ptrs _ _ _ _ _ _ _ _ _ K i); [done| |unfold rng in *; lia]. intros Hh. by rewrite Hu in Hu' by tauto.
  - intros i Hi Hu' Hr. apply Ei in Hi. rewrite Hus in Hu' by done. by apply (nm_linked _ _ _ _ H).
Qed.

(** A write touches one file. *)
Lemma written_kept buf n now m vol fs f m' vol' f' done fs' : written_to buf n now m vol fs f m' vol' f' done fs' ->
  kept (only (f_inode f)) (only (f_inode f)) (only (f_inode f)) m vol fs m' vol' fs'.
Proof.
  intros G. destruct (wt_ok _ _ _ _ _ _ _ _ _ _ _ _ G) as [H' Ev]. split.
  - done.
  - rewrite Ev. done.
  - intros i p Hi Hn Hp. rewrite (wt_bytes _ _ _ _ _ _ _ _ _ _ _ _ G) by done. rewrite decide_False; [done|]. by intros [? _].
  - intros i x Hi Hn Hx. apply (wt_table _ _ _ _ _ _ _ _ _ _ _ _ G i); [done|done|]. unfold rng in *. lia.
  - intros i x Hi Hn Hx. apply (wt_table _ _ _ _ _ _ _ _ _ _ _ _ G i); [done|done|]. unfold rng in *. lia.
  - apply (wt_super _ _ _ _ _ _ _ _ _ _ _ _ G).
  - apply (wt_out _ _ _ _ _ _ _ _ _ _ _ _ G).
Qed.

Lemma written_names buf n now m vol fs f m' vol' f' done fs' N : names_ok m vol fs N ->
  written_to buf n now m vol fs f m' vol' f' done fs' -> an_inode vol (f_inode f) -> N !! f_inode f = None ->
  inode_used m vol (f_inode f) = true -> names_ok m' vol' fs' N.
Proof.
  intros H G Hi Hn Hu. destruct (wt_ok _ _ _ _ _ _ _ _ _ _ _ _ G) as [_ Ev].
  apply (names_kept _ _ _ m vol fs N m' vol' fs' H (written_kept _ _ _ _ _ _ _ _ _ _ _ _ G)).
  - by intros i [->| ->].
  - intros i ->. unfold imode. assert (inode_ptr vol' = inode_ptr vol) as -> by (by rewrite Ev). by apply (wt_mode _ _ _ _ _ _ _ _ _ _ _ _ G).
  - by intros i [->| ->].
  - by rewrite Ev.
Qed.

(** Content and size of a file are the same. *)
Definition same_file (m : mem) (vol : TrashfsVolume) (fs : list tree) (m' : mem) (vol' : TrashfsVolume) (fs' : list tree) (i : Z) : Prop :=
  isize m' vol' i = isize m vol i /\ forall p, 0 <= p -> fbyte m' vol' fs' i p = fbyte m vol fs i p.

Lemma kept_same B H P m vol fs m' vol' fs' i : kept B H P m vol fs m' vol' fs' -> an_inode vol i -> ~ B i -> ~ H i ->
  same_file m vol fs m' vol' fs' i.
Proof.
  intros K Hi HB HH. split; [by apply (kept_size _ _ _ _ _ _ _ _ _ i K)|]. intros p Hp. by apply (kp_bytes _ _ _ _ _ _ _ _ _ K).
Qed.

(** ** Opening an inode *)

Definition truncates (flags ty : Z) : bool := negb (Z.land flags TRASHFS_O_TRUNC =? 0) && negb (ty =? TRASHFS_TYPE_DIR).

(** The handle on an inode. *)
Record opened (m : mem) (vol : TrashfsVolume) (flags ino ty : Z) (f : TrashfsFile) : Prop := {
  op_file : file_ok vol f /\ f_inode f = ino /\ f_is_dir f = (ty =? TRASHFS_TYPE_DIR);
  op_size : f_size f = isize m vol ino /\ (truncates flags ty = true -> f_size f = 0);
  op_pos : f_pos f = if Z.land flags TRASHFS_O_APPEND =? 0 then 0 else f_size f
}.

Lemma truncate_steps m vol fs i : fs_ok m vol fs -> an_inode vol i -> exists m' vol' fs',
  free_all_blocks m vol (inode_ptr vol i) = (m', vol') /\ free_inodes vol' = free_inodes vol /\
  let m2 := wr32 m' (inode_ptr vol i + 4) 0 in
  kept (only i) (only i) (only i) m vol fs m2 vol' fs' /\ isize m2 vol' i = 0 /\ imode m2 vol' i = imode m vol i.
Proof.
  intros H Hi. destruct (free_all_blocks_spec m vol fs i H Hi) as (m1 & vol1 & fs1 & E & G).
  destruct (dropped_kept m vol fs i m1 vol1 fs1 H Hi G) as [K1 _]. pose proof (dr_vol _ _ _ _ _ _ _ _ G) as Ev.
  pose proof (kp_ok _ _ _ _ _ _ _ _ _ K1) as H1. assert (inode_ptr vol1 i = inode_ptr vol i) as Ep by (by rewrite Ev).
  assert (an_inode vol1 i) as Hi1 by (by rewrite Ev). pose proof (ao_vol _ _ _ (fs_alloc _ _ _ H1)) as W1.
  exists m1, vol1, fs1. split; [done|]. split; [by rewrite Ev|]. cbv zeta. set (m2 := wr32 _ _ _).
  assert (kept none (only i) none m1 vol1 fs1 m2 vol1 fs1) as K2.
  { apply header_kept; [done|done|by apply store32_ok, (fs_mem_ok _ _ _ H1)|]. intros x Hx. apply wr32_agree. rewrite Ep in Hx. unfold rng in *. lia. }
  split; [|split].
  - apply (keeps_trans _ _ _ m vol fs m1 vol1 fs1); [by apply (kept_weaken (only i) none (only i))|by apply (kept_weaken none (only i) none)].
  - unfold m2. rewrite <-Ep, (proj1 (isize_wr m1 vol1 i i 0 W1 Hi1 Hi1)). by rewrite decide_True.
  - unfold imode, m2. rewrite <-(proj2 (kept_size _ _ _ _ _ _ _ _ _ i K1 Hi (not_none i))).
    rewrite <-Ep, (mode_wr m1 vol1 i i 4 0 W1 Hi1 Hi1) by lia. done.
Qed.

Lemma open_inode_spec m vol fs N flags ino ty : names_ok m vol fs N -> place_ok vol N ino ty -> inode_used m vol ino = true ->
  exists m' vol' fs' f, open_inode m vol flags ino ty = (m', vol', f) /\ names_ok m' vol' fs' N /\ opened m' vol' flags ino ty f /\
    kept (fun i => i = ino /\ truncates flags ty = true) (fun i => i = ino /\ truncates flags ty = true)
         (fun i => i = ino /\ truncates flags ty = true) m vol fs m' vol' fs'.
Proof.
  intros H [Hi Hty] Hu. pose proof (names_fs _ _ _ _ H) as Hf. unfold open_inode. fold (truncates flags ty). fold (isize m vol ino).
  destruct (truncates flags ty) eqn:Et.
  - destruct (truncate_steps m vol fs ino Hf Hi) as (m1 & vol1 & fs1 & -> & Ef & K & Hs & Hm). set (m2 := wr32 _ _ _) in *. cbv zeta in K, Hs, Hm.
    assert (N !! ino = None) as Hn.
    { destruct Hty as [[-> _]|[_ ?]]; [|done]. unfold truncates in Et. by rewrite andb_false_r in Et. }
    eexists m2, vol1, fs1, _. split; [done|]. split; [|split].
    + apply (names_kept _ _ _ m vol fs N m2 vol1 fs1 H K); [by intros i [->| ->]|by intros i ->|by intros i [->| ->]|done].
    + split; [split; [split|]|split|]; cbn; try done; try (by destruct (_ =? 0)). by rewrite (kp_vol _ _ _ _ _ _ _ _ _ K).
    + by apply (kept_weaken (only ino) (only ino) (only ino)).
  - eexists m, vol, fs, _. split; [done|]. split; [done|]. split; [|by apply kept_refl].
    assert (is_u32 (isize m vol ino)) as Hs by apply load32_range, (fs_mem_ok _ _ _ Hf).
    split; [split; [split|]|split|]; cbn; try done; [by destruct (_ =? 0)|by rewrite Et].
Qed.

(** ** Creating *)

(** Why there is no room for a new name. *)
Definition no_room (vol : TrashfsVolume) (n : Z) : Prop := free_inodes vol = 0 \/ free_blocks vol = 0 \/ max_slots <= n.

(** The inode of a new file or directory, before its entry. *)
Definition new_inode (m : mem) (inode mode : Z) (now : option Z) : mem :=
  let m := memset m inode 0 TRASHFS_INODE_SIZE in
  let m := wr16 m (inode + 0) mode in
  let m := wr16 m (inode + 2) 1 in
  match now with Some t => wr32 (wr32 m (inode + 8) t) (inode + 12) t | None => m end.

Lemma new_inode_spec m a mode now : mem_ok m -> is_u16 mode -> let m' := new_inode m a mode now in
  mem_ok m' /\ mem_frame a 64 m m' /\ (forall x, rng (a + 4) 4 x \/ rng (a + 16) 48 x -> m' x = 0) /\ rd16 m' a = mode.
Proof.
  intros Wm Hm m'. unfold m', new_inode. rewrite Z.add_0_r. unfold TRASHFS_INODE_SIZE.
  set (m0 := memset m a 0 64). set (m1 := wr16 m0 a mode). set (m2 := wr16 m1 (a + 2) 1).
  set (m3 := match now with Some t => _ | None => m2 end).
  assert (forall x, ~ rng a 4 x -> ~ rng (a + 8) 8 x -> m3 x = m0 x) as Hag.
  { intros x H1 H2. assert (m2 x = m0 x) as E.
    { unfold m2, m1, wr16. rewrite <-!store16_frame by (unfold rng in *; lia). done. }
    unfold m3. destruct now; [|done]. unfold wr32. rewrite <-!store32_frame by (unfold rng in *; lia). done. }
  split_and!.
  - assert (mem_ok m2) as W2 by (apply wr16_ok, wr16_ok, memset_ok, Wm). unfold m3. destruct now; [|done]. by apply wr32_ok, wr32_ok.
  - intros x Hx. rewrite (memset_frame m a 0 64 ltac:(lia) x Hx). symmetry. apply Hag; unfold rng in *; lia.
  - intros x Hx. rewrite Hag by (unfold rng in *; lia). unfold m0, memset. rewrite mem_write_in; [apply nth_replicate_zero|].
    rewrite length_replicate. unfold rng in *. lia.
  - transitivity (rd16 m1 a); [|unfold m1; rewrite rd16_same; by apply u16_small]. assert (rd16 m2 a = rd16 m1 a) as E by (apply rd16_wr16; unfold rdisj; lia).
    unfold m3. destruct now; [|done]. rewrite !rd16_wr32 by (unfold rdisj; lia). exact E.
Qed.

Section create.
Context (m : mem) (vol : TrashfsVolume) (fs : list tree) (N : namespace) (H : names_ok m vol fs N).
Context (p : Z) (d : dirmap) (n : Z) (nm : list Z) (Hp : N !! p = Some d) (D : dir_at m vol fs p d n).

(** The reservation of an inode and a slot: either both are there, or the name space is as
    it was. *)
Lemma reserve_spec : match alloc_inode_v m vol with
  | (vol0, None) => vol0 = vol /\ free_inodes vol = 0
  | (vol0, Some ino) => an_inode vol ino /\ inode_used m vol ino = false /\
      exists m1 vol1 fs1 slot, dir_alloc_dirent_in m vol0 p = Some (m1, vol1, slot) /\ free_inodes vol1 = free_inodes vol - 1 /\
      match slot with
      | None => names_ok m1 (unreserve vol1) fs1 N /\ no_room (unreserve vol1) n /\
          kept none none (only p) m vol fs m1 (unreserve vol1) fs1
      | Some e => exists j n1, room m vol fs p n m1 vol1 fs1 j n1 /\ e = slot_addr vol1 fs1 p j
      end
  end.
Proof.
  pose proof (nm_vol _ _ _ _ H) as V. pose proof (names_fs _ _ _ _ H) as Hf.
  destruct (ao_vol _ _ _ (fs_alloc _ _ _ Hf)) as [? V1 (? & V2 & V3) (V4 & V5 & V6) (V7 & V8)].
  pose proof (alloc_inode_spec m vol ltac:(lia) (vk_free _ _ _ V)) as A. destruct (alloc_inode_v m vol) as [vol0 [ino|]]; [|done].
  destruct A as (Hi & Hu & Hpos & ->). split; [done|]. split; [done|]. set (vol0 := set_free vol (free_blocks vol) (free_inodes vol - 1)).
  assert (fs_ok m vol0 fs) as Hf0 by (by apply fs_ok_inodes). pose proof (dir_at_inodes _ _ _ _ _ _ (free_inodes vol - 1) D) as D0. fold vol0 in D0.
  destruct (dir_alloc_spec m vol0 fs p n Hf0 (da_ok _ _ _ _ _ _ D0)) as (m1 & vol1 & fs1 & slot & E & Ef & G). exists m1, vol1, fs1, slot.
  split; [done|]. split; [done|]. assert (set_free vol0 (free_blocks vol0) (free_inodes vol) = vol) as Ev by (unfold vol0; by destruct vol).
  destruct slot as [e|].
  - destruct G as (j & n1 & [R1 R2 R3 R4 R5] & ->). exists j, n1. split; [|done].
    split; [|done|done| |exact R5].
    + destruct R1 as [K1 K2 K3 K4 K5 K6 K7]. by split.
    + destruct R4 as [[-> E4]|R4]; [left|by right]. split; [done|exact E4].
  - destruct G as [K Hfull]. assert (unreserve vol1 = set_free vol1 (free_blocks vol1) (free_inodes vol)) as Eu.
    { unfold unreserve. rewrite Ef. f_equal. cbn [free_inodes vol0 set_free]. replace (free_inodes vol - 1 + 1) with (free_inodes vol) by lia.
      pose proof (unused_bounds m vol ltac:(lia)). rewrite (vk_free _ _ _ V). apply u32_small. unfold is_u32. lia. }
    assert (kept none none (only p) m vol fs m1 (unreserve vol1) fs1) as K'.
    { rewrite Eu. apply (kept_inodes _ _ _ m vol fs m1 vol1 fs1 (free_inodes vol - 1)). exact K. }
    split; [|split; [|done]].
    + apply (names_kept _ _ _ m vol fs N m1 _ fs1 H K'); [by intros i [[]|[]]|by intros i []| |by rewrite Eu].
      intros i [[]| ->]. rewrite used_mode, (proj1 (nm_dir _ _ _ _ H p d Hp)). done.
    + rewrite Eu. right. destruct Hfull as [Hb|Hb]; [left; exact Hb|by right].
Qed.

Context (Hnm : d !! nm = None) (Hname : name_ok nm).

(** With both there, the new inode and its entry extend the name space. *)
Lemma new_entry ino ty mode now m1 vol1 fs1 j n1 : an_inode vol ino -> inode_used m vol ino = false ->
  room m vol fs p n m1 vol1 fs1 j n1 -> free_inodes vol1 = free_inodes vol - 1 ->
  (ty = TRASHFS_TYPE_DIR /\ mode = DIR_MODE) \/ (ty = TRASHFS_TYPE_FILE /\ mode = TRASHFS_MODE_USED) ->
  let m2 := new_inode m1 (inode_ptr vol1 ino) mode now in
  let m3 := fill_dirent m2 (slot_addr vol1 fs1 p j) ino ty nm in
  names_ok m3 vol1 fs1 (link N p d nm ino ty) /\ isize m3 vol1 ino = 0 /\ inode_used m3 vol1 ino = true /\
  kept (only p) (fun k => k = p \/ k = ino) (fun k => k = p \/ k = ino) m vol fs m3 vol1 fs1.
Proof.
  intros Hi Hu R Ef Hty m2 m3. pose proof (kp_ok _ _ _ _ _ _ _ _ _ (rm_kept _ _ _ _ _ _ _ _ _ _ R)) as H1.
  assert (is_u16 mode) as Hm16 by (destruct Hty as [[_ ->]|[_ ->]]; by split).
  destruct (new_inode_spec m1 (inode_ptr vol1 ino) mode now (fs_mem_ok _ _ _ H1) Hm16) as (W2 & F2 & Z2 & M2). fold m2 in W2, F2, Z2, M2.
  assert ((ty = TRASHFS_TYPE_DIR /\ imode m2 vol1 ino = DIR_MODE) \/ (ty = TRASHFS_TYPE_FILE /\ imode m2 vol1 ino = TRASHFS_MODE_USED)) as Hty2
    by (unfold imode; rewrite M2; destruct Hty as [[-> ->]|[-> ->]]; auto).
  assert (isize m2 vol1 ino = 0) as Hs.
  { unfold isize, rd32, load32. rewrite (mem_read_agree m2 (fun _ => 0)); [done|]. intros x Hx. apply Z2. by left. }
  destruct (new_steps m vol fs N H p d n nm ino ty Hp D Hnm Hname Hi Hu m1 vol1 fs1 j n1 R m2 W2 F2 Z2 Hty2) as (_ & K & K3 & _).
  fold m3 in K, K3. destruct (kept_vol _ _ _ _ _ _ _ _ _ K) as (Ei & _). split_and!.
  - pose proof (link_ok m vol fs N H p d n nm ino ty Hp D Hnm Hname Hi Hu m1 vol1 fs1 j n1 R m2 W2 F2 Z2 Hty2 (fun _ => Hs)) as L.
    fold m3 in L. rewrite <-Ef in L. assert (set_free vol1 (free_blocks vol1) (free_inodes vol1) = vol1) as E by (by destruct vol1). by rewrite E in L.
  - rewrite (proj1 (kept_size _ _ _ _ _ _ _ _ _ ino K3 (proj2 (Ei ino) Hi) (not_none ino))). exact Hs.
  - etransitivity; [exact (new_used m vol fs N H p d n nm ino ty Hp D Hnm Hname Hi Hu m1 vol1 fs1 j n1 R m2 W2 F2 Z2 Hty2 ino Hi)|].
    by rewrite decide_True.
  - exact K.
Qed.
End create.

(** Files in use, but for those in [T], are as they were. *)
Definition files_same (T : Z -> Prop) (N : namespace) (m : mem) (vol : TrashfsVolume) (fs : list tree) (m' : mem)
    (vol' : TrashfsVolume) (fs' : list tree) : Prop :=
  forall i, an_inode vol i -> inode_used m vol i = true -> N !! i = None -> ~ T i -> same_file m vol fs m' vol' fs' i.

Lemma same_file_trans m vol fs m1 vol1 fs1 m2 vol2 fs2 i : same_file m vol fs m1 vol1 fs1 i -> same_file m1 vol1 fs1 m2 vol2 fs2 i ->
  same_file m vol fs m2 vol2 fs2 i.
Proof. intros [A1 A2] [B1 B2]. split; [by rewrite B1|]. intros p Hp. by rewrite B2, A2. Qed.

Lemma files_same_refl T N m vol fs : files_same T N m vol fs m vol fs.
Proof. done. Qed.

Lemma files_same_kept (B HH P T : Z -> Prop) N m vol fs m' vol' fs' : kept B HH P m vol fs m' vol' fs' ->
  (forall i, B i \/ HH i -> T i \/ is_Some (N !! i) \/ inode_used m vol i = false) -> files_same T N m vol fs m' vol' fs'.
Proof.
  intros K Hs i Hi Hu Hn Ht. apply (kept_same B HH P _ _ _ _ _ _ _ K); [done|..]; intros Hb;
    (destruct (Hs i ltac:(tauto)) as [?|[[x Hx]|Hf]]; [done|by rewrite Hn in Hx|by rewrite Hu in Hf]).
Qed.

(** What opening does to the name space, by the directory that holds the last component. *)
Definition open_at (N : namespace) (path : list Z) (flags : Z) (m : mem) (vol : TrashfsVolume) (m' : mem) (vol' : TrashfsVolume)
    (N' : namespace) (r : TrashfsResult + TrashfsFile) : Prop :=
  match parent N path with
  | inl e => N' = N /\ r = inl e
  | inr (p, nm) =>
      match N !! p ≫= (.!! nm) with
      | Some (ino, ty) => N' = N /\ exists f, r = inr f /\ opened m' vol' flags ino ty f
      | None =>
          if Z.land flags TRASHFS_O_CREAT =? 0 then N' = N /\ r = inl TRASHFS_ERR_NOT_FOUND else
          (N' = N /\ r = inl TRASHFS_ERR_NO_SPACE /\ exists n, isize m vol p = after n /\ no_room vol' n) \/
          exists d ino f, N !! p = Some d /\ inode_used m vol ino = false /\ N' = link N p d nm ino TRASHFS_TYPE_FILE /\
            r = inr f /\ opened m' vol' flags ino TRASHFS_TYPE_FILE f /\ f_size f = 0
      end
  end.

(** What opening does to the name space, by what the whole path leads to. *)
Definition open_outcome (N : namespace) (path : list Z) (flags : Z) (m : mem) (vol : TrashfsVolume) (m' : mem) (vol' : TrashfsVolume)
    (N' : namespace) (r : TrashfsResult + TrashfsFile) : Prop :=
  match target N path with
  | inr (ino, ty) => N' = N /\ exists f, r = inr f /\ opened m' vol' flags ino ty f
  | inl e =>
      match parent N path with
      | inl _ => N' = N /\ r = inl e
      | inr (p, nm) =>
          (* only the last component is missing *)
          if Z.land flags TRASHFS_O_CREAT =? 0 then N' = N /\ r = inl TRASHFS_ERR_NOT_FOUND else
          (N' = N /\ r = inl TRASHFS_ERR_NO_SPACE /\ exists n, isize m vol p = after n /\ no_room vol' n) \/
          exists d ino f, N !! p = Some d /\ inode_used m vol ino = false /\ N' = link N p d nm ino TRASHFS_TYPE_FILE /\
            r = inr f /\ opened m' vol' flags ino TRASHFS_TYPE_FILE f /\ f_size f = 0
      end
  end.

Definition truncated (N : namespace) (path : list Z) (flags : Z) (i : Z) : Prop :=
  exists p nm ty, parent N path = inr (p, nm) /\ named N p nm i ty /\ truncates flags ty = true.

Section ops.
Context (m : mem) (vol : TrashfsVolume) (fs : list tree) (N : namespace) (H : names_ok m vol fs N).

Lemma mounted_yes : mounted vol = true.
Proof. apply (sb_mounted _ _ (vk_super _ _ _ (nm_vol _ _ _ _ H))). Qed.

(** A name that exists is opened. *)
Lemma open_existing p nm ino ty flags path : parent N path = inr (p, nm) -> named N p nm ino ty ->
  exists m' vol' fs' f, open_inode m vol flags ino ty = (m', vol', f) /\ names_ok m' vol' fs' N /\ opened m' vol' flags ino ty f /\
    files_same (truncated N path flags) N m vol fs m' vol' fs' /\ (forall x, ~ in_volume vol x -> m' x = m x).
Proof.
  intros Hpar Hnam. destruct (nm_entry _ _ _ _ H _ _ _ _ Hnam) as (Hi & _ & Hc).
  assert (place_ok vol N ino ty) as Hpl by (split; [done|tauto]). assert (inode_used m vol ino = true) as Hu.
  { rewrite used_mode. destruct Hc as [[_ [d' Hd']]|(_ & _ & ->)]; [|done]. by rewrite (proj1 (nm_dir _ _ _ _ H ino d' Hd')). }
  destruct (open_inode_spec m vol fs N flags ino ty H Hpl Hu) as (m' & vol' & fs' & f & E & H' & O & K).
  exists m', vol', fs', f. split_and!; [done|done|done| |apply (kp_out _ _ _ _ _ _ _ _ _ K)].
  apply (files_same_kept _ _ _ _ _ _ _ _ _ _ _ K). intros i [[-> Ht]|[-> Ht]]; left; by exists p, nm, ty.
Qed.

(** A name that does not exist is created if there is room. *)
Lemma create_file_spec p d nm : N !! p = Some d -> d !! nm = None -> name_ok nm ->
  exists m' vol' fs' r, create_file m vol p nm = Some (m', vol', r) /\
    kept (only p) (fun k => k = p \/ inode_used m vol k = false) (fun k => k = p \/ inode_used m vol k = false) m vol fs m' vol' fs' /\
    match r with
    | inl e => e = TRASHFS_ERR_NO_SPACE /\ names_ok m' vol' fs' N /\ exists n, isize m vol p = after n /\ no_room vol' n
    | inr ino => an_inode vol ino /\ inode_used m vol ino = false /\ names_ok m' vol' fs' (link N p d nm ino TRASHFS_TYPE_FILE) /\
        isize m' vol' ino = 0 /\ inode_used m' vol' ino = true
    end.
Proof.
  intros Hp Hnm Hname. destruct (nm_dir _ _ _ _ H p d Hp) as [_ [n D]]. pose proof (do_size _ _ _ _ (da_ok _ _ _ _ _ _ D)) as Hsz.
  pose proof (reserve_spec m vol fs N H p d n Hp D) as A. unfold create_file. destruct (alloc_inode_v m vol) as [vol0 [ino|]].
  - destruct A as (Hi & Hu & m1 & vol1 & fs1 & slot & -> & Ef & A). cbn [mbind option_bind]. destruct slot as [e|].
    + destruct A as (j & n1 & R & ->).
      pose proof (new_entry m vol fs N H p d n nm Hp D Hnm Hname ino TRASHFS_TYPE_FILE TRASHFS_MODE_USED None m1 vol1 fs1 j n1 Hi Hu R Ef
        (or_intror (conj eq_refl eq_refl))) as A. cbv zeta in A. destruct A as (H' & Hs & Hu' & K).
      eexists _, vol1, fs1, (inr ino). split; [done|]. split; [|done].
      apply (kept_weaken (only p) (fun k => k = p \/ k = ino) (fun k => k = p \/ k = ino)); [done| | |exact K]; intros k [->| ->]; auto.
    + destruct A as (H' & Hr & K). exists m1, (unreserve vol1), fs1, (inl TRASHFS_ERR_NO_SPACE). split; [done|].
      split; [|by split; [|split; [|exists n]]]. apply (kept_weaken none none (only p)); [by intros i []|by intros i []|by left|done].
  - destruct A as [-> Hf]. exists m, vol, fs, (inl TRASHFS_ERR_NO_SPACE). split; [done|]. split; [by apply kept_refl, (names_fs _ _ _ _ H)|].
    split; [done|]. split; [done|]. exists n. split; [done|]. by left.
Qed.
End ops.

Lemma open_at_correct m vol fs N path flags : names_ok m vol fs N -> Forall is_u8 path ->
  exists m' vol' fs' N' r, trashfs_open m vol path flags = Some (m', vol', r) /\ names_ok m' vol' fs' N' /\
    open_at N path flags m vol m' vol' N' r /\ files_same (truncated N path flags) N m vol fs m' vol' fs' /\
    (forall x, ~ in_volume vol x -> m' x = m x).
Proof.
  intros H Hpath. unfold trashfs_open, open_at. rewrite (mounted_yes m vol fs N H). cbn [negb].
  destruct (resolve_parent_correct m vol fs N H path Hpath) as [-> Hpar]. cbn [mbind option_bind].
  destruct (parent N path) as [e|[p nm]] eqn:Ep; [by exists m, vol, fs, N, (inl e)|]. destruct (Hpar p nm eq_refl) as [[d Hd] Hname].
  rewrite (find_in_dir m vol fs N H p nm) by (done || by exists d). cbn [mbind option_bind].
  destruct (N !! p ≫= (.!! nm)) as [[ino ty]|] eqn:En.
  - destruct (open_existing m vol fs N H p nm ino ty flags path Ep (named_lookup _ _ _ _ _ En)) as (m' & vol' & fs' & f & -> & H' & O & S & X).
    exists m', vol', fs', N, (inr f). split_and!; [done|done|done|by exists f|done|done].
  - destruct (_ =? 0) eqn:Ec; [by exists m, vol, fs, N, (inl TRASHFS_ERR_NOT_FOUND)|].
    rewrite Hd in En. cbn [mbind option_bind] in En.
    destruct (create_file_spec m vol fs N H p d nm Hd En Hname) as (m1 & vol1 & fs1 & r & -> & K & C). cbn [mbind option_bind].
    destruct r as [e|ino].
    + destruct C as (-> & H1 & Hr). exists m1, vol1, fs1, N, (inl TRASHFS_ERR_NO_SPACE). split_and!; [done|done|by left| |apply (kp_out _ _ _ _ _ _ _ _ _ K)].
      apply (files_same_kept _ _ _ _ _ _ _ _ _ _ _ K). intros i [->|[->|Hf]]; [right; left; by exists d|right; left; by exists d|by right; right].
    + destruct C as (Hi & Hu & H1 & Hs & Hu1). set (N1 := link N p d nm ino TRASHFS_TYPE_FILE) in *. destruct (kept_vol _ _ _ _ _ _ _ _ _ K) as (Ei & _).
      assert (N !! ino = None) as Hno by (by apply (new_not_dir m vol fs N H)).
      assert (named N1 p nm ino TRASHFS_TYPE_FILE) as Hn1 by (apply link_named; auto).
      destruct (nm_entry _ _ _ _ H1 _ _ _ _ Hn1) as (_ & _ & Hc). assert (place_ok vol1 N1 ino TRASHFS_TYPE_FILE) as Hpl by (split; [by apply Ei|tauto]).
      destruct (open_inode_spec m1 vol1 fs1 N1 flags ino TRASHFS_TYPE_FILE H1 Hpl Hu1) as (m2 & vol2 & fs2 & f & -> & H2 & O & K2).
      exists m2, vol2, fs2, N1, (inr f). destruct (kept_vol _ _ _ _ _ _ _ _ _ K) as (_ & _ & Er & _). split_and!; [done|done| | |].
      * right. exists d, ino, f. split_and!; try done. destruct (op_size _ _ _ _ _ _ O) as [E1 E2].
        destruct (truncates flags TRASHFS_TYPE_FILE) eqn:Et; [by apply E2|]. rewrite E1, <-Hs.
        apply (kept_size _ _ _ _ _ _ _ _ _ ino K2); [by apply Ei|]. by intros [_ ?].
      * intros i Hi' Hu' Hn' _. assert (i <> p) as Hip by (intros ->; by rewrite Hd in Hn'). assert (i <> ino) as Hio by (intros ->; by rewrite Hu in Hu').
        apply (same_file_trans _ _ _ m1 vol1 fs1).
        -- apply (kept_same _ _ _ _ _ _ _ _ _ i K); [done|done|]. intros [?|Hf]; [done|by rewrite Hf in Hu'].
        -- apply (kept_same _ _ _ _ _ _ _ _ _ i K2); [by apply Ei|by intros [? _]..].
      * intros x Hx. rewrite (kp_out _ _ _ _ _ _ _ _ _ K2 x); [by apply (kp_out _ _ _ _ _ _ _ _ _ K)|].
        by rewrite (kp_vol _ _ _ _ _ _ _ _ _ K).
Qed.

(** C12. Opening a path that ends in a name ([ends_in_name]) ends, on every volume that
    holds a name space.  If the whole path leads to a file or a directory, that is
    opened; if only its last component is missing, it is created when that was asked
    for and an inode, a block and a slot are free: a new, empty file is linked into its
    directory; otherwise the error is the one the walk along the path meets - a
    component that is missing or no directory, a name of more than 32 bytes, more than 40
    components or more than 39 directories below one another - and the name space is left alone.  No other
    file changes, unless the flags truncate the one that is opened.  (Paths without such
    a name, the root among them, are refused as a wrong argument, [open_root_refused].) *)
Theorem trash_open_correct m vol fs N path flags : names_ok m vol fs N -> Forall is_u8 path -> ends_in_name path ->
  exists m' vol' fs' N' r, trashfs_open m vol path flags = Some (m', vol', r) /\ names_ok m' vol' fs' N' /\
    open_outcome N path flags m vol m' vol' N' r /\ files_same (truncated N path flags) N m vol fs m' vol' fs' /\
    (forall x, ~ in_volume vol x -> m' x = m x).
Proof.
  intros H Hpath Hend. destruct (open_at_correct m vol fs N path flags H Hpath) as (m' & vol' & fs' & N' & r & E & H' & O & S & X).
  exists m', vol', fs', N', r. split_and!; [done|done| |done|done]. unfold open_outcome. unfold open_at in O.
  rewrite (target_by_parent N path Hend). destruct (parent N path) as [e|[p nm]]; [done|]. by destruct (_ ≫= _) as [[ino ty]|].
Qed.

(** The other paths are refused, the root among them. *)
Lemma open_root_refused m vol fs N flags : names_ok m vol fs N ->
  trashfs_open m vol [47] flags = Some (m, vol, inl TRASHFS_ERR_INVALID_ARG) /\
  trashfs_unlink m vol [47] = Some (m, vol, TRASHFS_ERR_INVALID_ARG).
Proof. intros H. unfold trashfs_open, trashfs_unlink. by rewrite (mounted_yes m vol fs N H). Qed.

(** [a/.] names the directory [a], and unlinking it is refused as a wrong argument. *)
Lemma unlink_dot_refused m vol fs N : names_ok m vol fs N ->
  trashfs_unlink m vol [97; 47; 46] = Some (m, vol, TRASHFS_ERR_INVALID_ARG).
Proof. intros H. unfold trashfs_unlink. by rewrite (mounted_yes m vol fs N H). Qed.

(** ** Removing *)

Definition unlink_at (N : namespace) (path : list Z) (N' : namespace) (r : TrashfsResult) : Prop :=
  match parent N path with
  | inl e => N' = N /\ r = e
  | inr (p, nm) =>
      match N !! p ≫= (.!! nm) with
      | None => N' = N /\ r = TRASHFS_ERR_NOT_FOUND
      | Some (ino, ty) =>
          if ty =? TRASHFS_TYPE_DIR then N' = N /\ r = TRASHFS_ERR_NOT_DIR
          else r = TRASHFS_OK /\ exists d, N !! p = Some d /\ N' = unlink_name N p d nm ino
      end
  end.

Definition unlink_outcome (N : namespace) (path : list Z) (N' : namespace) (r : TrashfsResult) : Prop :=
  match target N path with
  | inl e => N' = N /\ r = e
  | inr (ino, ty) =>
      if ty =? TRASHFS_TYPE_DIR then N' = N /\ r = TRASHFS_ERR_NOT_DIR
      else r = TRASHFS_OK /\ exists p nm d, parent N path = inr (p, nm) /\ N !! p = Some d /\ N' = unlink_name N p d nm ino
  end.

(** The file, or empty directory, that [nm] names in [p] goes. *)
Lemma remove_name_spec m vol fs N p d nm ino ty : names_ok m vol fs N -> N !! p = Some d -> d !! nm = Some (ino, ty) -> (length nm <= 32)%nat ->
  (ty = TRASHFS_TYPE_DIR -> N !! ino = Some ∅) ->
  exists m1 m' vol' fs', dir_clear_entry_in m vol p nm = Some (m1, true) /\ release_inode m1 vol ino = (m', vol') /\
    names_ok m' vol' fs' (unlink_name N p d nm ino) /\ free_inodes vol' = free_inodes vol + 1 /\
    files_same (only ino) N m vol fs m' vol' fs' /\ (forall x, ~ in_volume vol x -> m' x = m x).
Proof.
  intros H Hp Hnm Hl He. destruct (nm_dir _ _ _ _ H p d Hp) as [_ [n D]].
  destruct (dir_clear_spec m vol fs p d n nm (ino, ty) (names_fs _ _ _ _ H) D Hl Hnm) as (m1 & E & K1 & D1).
  destruct (gone_steps m vol fs N H p d nm ino ty Hp Hnm m1 K1) as (m' & vol2 & fs' & E2 & Ef & K & Hz & K23).
  exists m1, m', (unreserve vol2), fs'. split; [done|]. split; [done|].
  pose proof (unlink_ok m vol fs N H p d n nm ino ty Hp D Hnm He m1 D1 m' vol2 fs' Ef K Hz K23) as H'. split; [exact H'|].
  split; [|split].
  - rewrite (vk_free _ _ _ (nm_vol _ _ _ _ H')), (vk_free _ _ _ (nm_vol _ _ _ _ H)).
    change (unused m' (unreserve vol2)) with (unused m' vol2). destruct (kept_vol _ _ _ _ _ _ _ _ _ K) as (Ei & _ & _ & Ec).
    destruct (gone_inode m vol fs N H p d nm ino ty Hp Hnm) as [Hi _].
    apply (unused_flip m' vol2 m vol ino); [done|by apply Ei| | |].
    + by apply (gone_blank m vol fs p ino m' vol2 fs').
    + by apply (gone_used m vol fs N H p d nm ino ty).
    + intros k Hk Hne. symmetry. apply (kept_used _ _ _ _ _ _ _ _ _ k K); [by apply Ei|by apply not_only].
  - intros i Hi Hu Hn Ht. apply (kept_same _ _ _ _ _ _ _ _ _ i K); [done| |done]. intros [->|?]; [by rewrite Hp in Hn|done].
  - apply (kp_out _ _ _ _ _ _ _ _ _ K).
Qed.

Lemma unlink_at_correct m vol fs N path : names_ok m vol fs N -> Forall is_u8 path ->
  exists m' vol' fs' N' r, trashfs_unlink m vol path = Some (m', vol', r) /\ names_ok m' vol' fs' N' /\ unlink_at N path N' r /\
    files_same (fun i => exists p nm, parent N path = inr (p, nm) /\ named N p nm i TRASHFS_TYPE_FILE) N m vol fs m' vol' fs' /\
    free_inodes vol' = free_inodes vol + (if bool_decide (r = TRASHFS_OK) then 1 else 0) /\ (forall x, ~ in_volume vol x -> m' x = m x).
Proof.
  intros H Hpath. unfold trashfs_unlink, unlink_at. rewrite (mounted_yes m vol fs N H). cbn [negb].
  assert (forall e : TrashfsResult, e <> TRASHFS_OK -> free_inodes vol = free_inodes vol + (if bool_decide (e = TRASHFS_OK) then 1 else 0)) as Hno
    by (intros e He; rewrite bool_decide_eq_false_2 by done; lia).
  destruct (resolve_parent_correct m vol fs N H path Hpath) as [-> Hpar]. cbn [mbind option_bind].
  destruct (parent N path) as [e|[p nm]] eqn:Ep.
  { exists m, vol, fs, N, e. split_and!; try done. apply Hno. by apply (parent_error N path). }
  destruct (Hpar p nm eq_refl) as [[d Hd] Hname].
  rewrite (find_in_dir m vol fs N H p nm) by (done || by exists d). cbn [mbind option_bind].
  destruct (N !! p ≫= (.!! nm)) as [[ino ty]|] eqn:En; [|exists m, vol, fs, N, TRASHFS_ERR_NOT_FOUND; split_and!; try done; by apply Hno].
  destruct (Z.eqb_spec ty TRASHFS_TYPE_DIR) as [|Hty]; [exists m, vol, fs, N, TRASHFS_ERR_NOT_DIR; split_and!; try done; by apply Hno|].
  pose proof (named_lookup _ _ _ _ _ En) as Hnam. rewrite Hd in En. cbn [mbind option_bind] in En.
  destruct (remove_name_spec m vol fs N p d nm ino ty H Hd En (proj1 Hname) ltac:(done)) as (m1 & m' & vol' & fs' & -> & Er & H' & Ef & S & X).
  cbn [mbind option_bind]. rewrite Er. exists m', vol', fs', (unlink_name N p d nm ino), TRASHFS_OK. split_and!; [done|done|done|by exists d| |by rewrite bool_decide_eq_true_2|done].
  - intros i Hi Hu Hn Ht. apply S; [done|done|done|]. intros ->. apply Ht. exists p, nm. split; [done|].
    destruct (nm_entry _ _ _ _ H _ _ _ _ Hnam) as (_ & _ & [[? _]|[-> _]]); done.
Qed.

(** C14. Unlinking a path that ends in a name removes the name of the file it leads to, its
    inode and its blocks; a directory is refused as such, and a path that leads nowhere
    with the error the walk along it meets.  It ends, and changes no other file.
    (Paths without such a name are refused as a wrong argument, [unlink_dot_refused].) *)
Theorem trash_unlink_correct m vol fs N path : names_ok m vol fs N -> Forall is_u8 path -> ends_in_name path ->
  exists m' vol' fs' N' r, trashfs_unlink m vol path = Some (m', vol', r) /\ names_ok m' vol' fs' N' /\ unlink_outcome N path N' r /\
    files_same (fun i => exists p nm, parent N path = inr (p, nm) /\ named N p nm i TRASHFS_TYPE_FILE) N m vol fs m' vol' fs' /\
    free_inodes vol' = free_inodes vol + (if bool_decide (r = TRASHFS_OK) then 1 else 0) /\ (forall x, ~ in_volume vol x -> m' x = m x).
Proof.
  intros H Hpath Hend. destruct (unlink_at_correct m vol fs N path H Hpath) as (m' & vol' & fs' & N' & r & E & H' & O & S & Ef & X).
  exists m', vol', fs', N', r. split_and!; [done|done| |done|done|done]. unfold unlink_outcome. unfold unlink_at in O.
  rewrite (target_by_parent N path Hend). destruct (parent N path) as [e|[p nm]]; [done|].
  destruct (_ ≫= _) as [[ino ty]|]; [|done]. destruct (ty =? _); [done|]. destruct O as (-> & d & Hd & ->).
  split; [done|]. by exists p, nm, d.
Qed.

Definition rmdir_outcome (N : namespace) (path : list Z) (N' : namespace) (r : TrashfsResult) : Prop :=
  match target N path with
  | inl e => N' = N /\ r = e
  | inr (ino, ty) =>
      if negb (ty =? TRASHFS_TYPE_DIR) then N' = N /\ r = TRASHFS_ERR_NOT_DIR else
      if ino =? TRASHFS_ROOT_INODE then N' = N /\ r = TRASHFS_ERR_INVALID_ARG else
      if bool_decide (N !! ino <> Some ∅) then N' = N /\ r = TRASHFS_ERR_NOT_EMPTY else
      match parent N path with
      | inl e => N' = N /\ r = e
      | inr (p, nm) => r = TRASHFS_OK /\ exists d, N !! p = Some d /\ N' = unlink_name N p d nm ino
      end
  end.

Lemma empty_map m vol fs i d n : dir_at m vol fs i d n -> entries m vol fs i n = [] <-> d = ∅.
Proof.
  intros D. rewrite (da_map _ _ _ _ _ _ D). unfold dir_map. split; [by intros ->|]. intros E.
  destruct (entries m vol fs i n) as [|[nm v] l]; [done|]. cbn [list_to_map foldr uncurry fst snd] in E. by apply insert_non_empty in E.
Qed.


(** ** Making directories *)

Definition mkdir_outcome (N : namespace) (path : list Z) (m : mem) (vol vol' : TrashfsVolume) (N' : namespace) (r : TrashfsResult) : Prop :=
  match parent N path with
  | inl e => N' = N /\ r = e
  | inr (p, nm) =>
      match N !! p ≫= (.!! nm) with
      | Some _ => N' = N /\ r = TRASHFS_ERR_EXISTS
      | None =>
          (N' = N /\ r = TRASHFS_ERR_NO_SPACE /\ exists n, isize m vol p = after n /\ no_room vol' n) \/
          (r = TRASHFS_OK /\ exists d ino, N !! p = Some d /\ inode_used m vol ino = false /\ N' = link N p d nm ino TRASHFS_TYPE_DIR)
      end
  end.

(** C16. Making a directory links a new, empty one under a name that was free, or fails for
    want of an inode, a block or a slot and leaves the name space alone.  No file changes. *)
Theorem trash_mkdir_correct m vol fs N path now : names_ok m vol fs N -> Forall is_u8 path ->
  exists m' vol' fs' N' r, trashfs_mkdir m vol path now = Some (m', vol', r) /\ names_ok m' vol' fs' N' /\
    mkdir_outcome N path m vol vol' N' r /\ files_same none N m vol fs m' vol' fs' /\ (forall x, ~ in_volume vol x -> m' x = m x).
Proof.
  intros H Hpath. unfold trashfs_mkdir, mkdir_outcome. rewrite (mounted_yes m vol fs N H). cbn [negb].
  destruct (resolve_parent_correct m vol fs N H path Hpath) as [-> Hpar]. cbn [mbind option_bind].
  destruct (parent N path) as [e|[p nm]] eqn:Ep; [by exists m, vol, fs, N, e|]. destruct (Hpar p nm eq_refl) as [[d Hd] Hname].
  rewrite (find_in_dir m vol fs N H p nm) by (done || by exists d). cbn [mbind option_bind].
  destruct (N !! p ≫= (.!! nm)) as [x|] eqn:En; [by exists m, vol, fs, N, TRASHFS_ERR_EXISTS|].
  rewrite Hd in En. cbn [mbind option_bind] in En. destruct (nm_dir _ _ _ _ H p d Hd) as [_ [n D]].
  pose proof (do_size _ _ _ _ (da_ok _ _ _ _ _ _ D)) as Hsz.
  pose proof (reserve_spec m vol fs N H p d n Hd D) as A. destruct (alloc_inode_v m vol) as [vol0 [ino|]].
  - destruct A as (Hi & Hu & m1 & vol1 & fs1 & slot & -> & Ef & A). cbn [mbind option_bind]. destruct slot as [e|].
    + destruct A as (j & n1 & R & ->).
      pose proof (new_entry m vol fs N H p d n nm Hd D En Hname ino TRASHFS_TYPE_DIR DIR_MODE (Some now) m1 vol1 fs1 j n1 Hi Hu R Ef
        (or_introl (conj eq_refl eq_refl))) as A. cbv zeta in A. destruct A as (H' & _ & _ & K).
      eexists _, vol1, fs1, _, TRASHFS_OK. split; [done|]. split; [exact H'|]. split; [|split; [|apply (kp_out _ _ _ _ _ _ _ _ _ K)]].
      * right. split; [done|]. by exists d, ino.
      * apply (files_same_kept _ _ _ _ _ _ _ _ _ _ _ K). intros k [->|[->| ->]]; [right; left; by exists d|right; left; by exists d|by right; right].
    + destruct A as (H' & Hr & K). exists m1, (unreserve vol1), fs1, N, TRASHFS_ERR_NO_SPACE. split; [done|]. split; [done|].
      split; [left; split; [done|]; split; [done|]; by exists n|]. split; [|apply (kp_out _ _ _ _ _ _ _ _ _ K)].
      apply (files_same_kept _ _ _ _ _ _ _ _ _ _ _ K). by intros k [[]|[]].
  - destruct A as [-> Hf]. exists m, vol, fs, N, TRASHFS_ERR_NO_SPACE. split_and!; [done|done| |done|done].
    left. split; [done|]. split; [done|]. exists n. split; [done|]. by left.
Qed.

(** ** Listing *)

(** What [trashfs_readdir] reports of an entry. *)
Definition dirent_of (m : mem) (vol : TrashfsVolume) (e : dentry) : TrashfsDirent_Out :=
  mkDirent (take 32 e.1) e.2.2 e.2.1 (isize m vol e.2.1).

Lemma readdir_spec m vol fs i n k : fs_ok m vol fs -> dir_ok m vol i n -> 0 <= k <= n ->
  trashfs_readdir m vol (mkDir i (after n) (after k) true) =
  Some (match find (fun j => bool_decide (is_Some (entry m vol fs i j))) (seqZ k (n - k)) with
        | Some j => (mkDir i (after n) (after (j + 1)) true, dirent_of m vol <$> entry m vol fs i j, TRASHFS_OK)
        | None => (mkDir i (after n) (after n) true, None, TRASHFS_OK)
        end).
Proof.
  intros H D Hk. unfold trashfs_readdir. cbn [d_open negb d_inode d_size d_pos].
  rewrite (dir_scan_spec m vol fs i n _ _ k H D Hk) by (pose proof (after_bounds n ltac:(lia)); lia). cbn [mbind option_bind].
  rewrite (find_ext _ (fun j => bool_decide (is_Some (entry m vol fs i j)))) by (intros j Hj%elem_of_seqZ; apply stops_live; lia).
  destruct (find _ _) as [j|] eqn:Ef; [|done]. apply find_in in Ef as [Hj%elem_of_seqZ Hp]. apply bool_decide_eq_true in Hp as [d Hd].
  assert (0 <= j) as Hj0 by lia. pose proof (live_block _ _ _ _ _ _ Hj0 Hd) as Hb. rewrite Hd. rewrite entry_mem in Hd by (done || lia). cbv zeta in Hd.
  set (e := slot_addr vol fs i j) in *. rewrite Z.add_0_r. destruct (rd32 m e =? 0); [done|]. injection Hd as <-.
  cbn [fmap option_fmap option_map]. do 3 f_equal. unfold dirent_of. cbn [fst snd]. do 2 f_equal.
  pose proof (fs_mem_ok _ _ _ H (e + 5)) as Hu. unfold is_u8 in Hu. rewrite take_take. unfold TRASHFS_NAME_MAX.
  destruct (Z.ltb_spec 32 (m (e + 5))).
  - rewrite Nat.min_l by lia. change 32%nat with (Z.to_nat 32). by rewrite mem_read_take by lia.
  - rewrite Nat.min_r by lia. by rewrite mem_read_take by lia.
Qed.

(** The calls of [trashfs_readdir] until it reports no entry. *)
Fixpoint readdir_all (fuel : nat) (m : mem) (vol : TrashfsVolume) (d : TrashfsDir) : option (list TrashfsDirent_Out) :=
  match fuel with
  | O => None
  | S fuel =>
      '(d, e, _) ← trashfs_readdir m vol d;
      match e with
      | None => Some []
      | Some e => l ← readdir_all fuel m vol d; Some (e :: l)
      end
  end.

Lemma live_step {A} (f : Z -> option A) n k : 0 <= k <= n ->
  match find (fun j => bool_decide (is_Some (f j))) (seqZ k (n - k)) with
  | Some j => k <= j < n /\ exists e, f j = Some e /\ omap f (seqZ k (n - k)) = e :: omap f (seqZ (j + 1) (n - (j + 1)))
  | None => omap f (seqZ k (n - k)) = []
  end.
Proof.
  intros Hk. remember (Z.to_nat (n - k)) as c eqn:Ec. revert k Hk Ec. induction c as [|c IH]; intros k Hk Ec.
  - rewrite seqZ_nil by lia. done.
  - rewrite seqZ_cons by lia. cbn [find omap list_omap]. replace (Z.pred (n - k)) with (n - (k + 1)) by lia. rewrite <-Z.add_1_r.
    case_bool_decide as E.
    + destruct E as [e E]. split; [lia|]. exists e. by rewrite E.
    + specialize (IH (k + 1) ltac:(lia) ltac:(lia)). destruct (f k) as [e|]; [by destruct E; eexists|].
      destruct (find _ _) as [j|]; [|done]. destruct IH as [Hj IH]. split; [lia|done].
Qed.

Lemma readdir_all_spec m vol fs i n fuel : forall k, fs_ok m vol fs -> dir_ok m vol i n -> 0 <= k <= n ->
  (length (omap (entry m vol fs i) (seqZ k (n - k))) < fuel)%nat ->
  readdir_all fuel m vol (mkDir i (after n) (after k) true) = Some (dirent_of m vol <$> omap (entry m vol fs i) (seqZ k (n - k))).
Proof.
  induction fuel as [|fuel IH]; intros k H D Hk Hf; [lia|]. cbn [readdir_all]. rewrite (readdir_spec m vol fs) by done. cbn [mbind option_bind].
  pose proof (live_step (entry m vol fs i) n k Hk) as L. destruct (find _ _) as [j|]; [|by rewrite L].
  destruct L as [Hj (e & Ee & El)]. rewrite El in Hf |- *. cbn [length] in Hf. rewrite Ee. cbn [fmap option_fmap option_map list_fmap].
  rewrite IH by (done || lia). done.
Qed.

(** C24. Opening a directory and reading it to its end reports each of its names once, with
    the inode, the type and the size behind it, and nothing else. *)
Theorem trash_readdir_lists m vol fs N path : names_ok m vol fs N -> Forall is_u8 path ->
  match target N path with
  | inl e => trashfs_opendir m vol path = Some (inl e)
  | inr (i, ty) =>
      match N !! i with
      | None => trashfs_opendir m vol path = Some (inl TRASHFS_ERR_NOT_DIR)
      | Some d => exists dh l, trashfs_opendir m vol path = Some (inr dh) /\ readdir_all (S (size d)) m vol dh = Some l /\
          NoDup (de_name <$> l) /\ Forall (fun e => de_size e = isize m vol (de_inode e)) l /\
          list_to_map ((fun e => (de_name e, (de_inode e, de_type e))) <$> l) = d
      end
  end.
Proof.
  intros H Hpath. unfold trashfs_opendir. rewrite (mounted_yes m vol fs N H). cbn [negb].
  destruct (resolve_full_correct m vol fs N H path Hpath) as [-> Htar]. cbn [mbind option_bind].
  destruct (target N path) as [e|[i ty]] eqn:Et; [done|]. destruct (Htar i ty eq_refl) as [Hi [[-> [d Hd]]|[-> Hn]]]; [|by rewrite Hn].
  rewrite Hd. cbn [negb Z.eqb Pos.eqb TRASHFS_TYPE_DIR]. destruct (nm_dir _ _ _ _ H i d Hd) as [_ [n D]]. pose proof (da_ok _ _ _ _ _ _ D) as Do.
  fold (isize m vol i). rewrite (do_size _ _ _ _ Do). set (es := entries m vol fs i n).
  assert (length es = size d) as Hlen.
  { rewrite (da_map _ _ _ _ _ _ D). unfold dir_map. fold es. rewrite <-(length_map_to_list (list_to_map es)). apply Permutation_length. symmetry.
    apply map_to_list_to_map, (da_names _ _ _ _ _ _ D). }
  assert ((fun e => (de_name e, (de_inode e, de_type e))) <$> (dirent_of m vol <$> es) = es) as Eback.
  { rewrite <-list_fmap_compose. rewrite <-(list_fmap_id es) at 2. apply list_fmap_ext. intros k [nm [ino ty]] Hk. unfold compose, dirent_of.
    cbn [fst snd de_name de_inode de_type]. unfold id. do 2 f_equal. apply take_ge. apply (nm_short _ _ _ _ H i nm ino ty). exists d. split; [done|].
    rewrite (da_map _ _ _ _ _ _ D). apply elem_of_list_to_map_1; [apply (da_names _ _ _ _ _ _ D)|]. by apply list_elem_of_lookup_2 in Hk. }
  eexists _, (dirent_of m vol <$> es). split; [done|]. split_and!.
  - pose proof (readdir_all_spec m vol fs i n (S (size d)) 0 (names_fs _ _ _ _ H) Do ltac:(pose proof (do_count _ _ _ _ Do); lia)) as R.
    rewrite Z.sub_0_r in R. apply R. fold (entries m vol fs i n). fold es. lia.
  - assert (de_name <$> (dirent_of m vol <$> es) = es.*1) as ->; [|apply (da_names _ _ _ _ _ _ D)].
    rewrite <-Eback at 2. by rewrite <-!list_fmap_compose.
  - apply Forall_fmap, Forall_true. done.
  - rewrite Eback. symmetry. apply (da_map _ _ _ _ _ _ D).
Qed.

(** ** A new volume *)

(** A formatted volume holds the name space with an empty root. *)
Lemma formatted_names m vol : volume_ok m vol (empty_fs vol) -> isize m vol 0 = 0 -> rd16 m (inode_ptr vol 0) = DIR_MODE ->
  (forall i x, an_inode vol i -> i <> 0 -> rng (inode_ptr vol i) 64 x -> m x = 0) ->
  names_ok m vol (empty_fs vol) {[TRASHFS_ROOT_INODE := ∅]}.
Proof.
  intros V Hs Hm Hz. assert (an_inode vol 0) as H0.
  { destruct (ao_vol _ _ _ (fs_alloc _ _ _ (vk_fs _ _ _ V))) as [? V1 (? & V2 & V3) (V4 & V5 & V6) (V7 & V8)]. unfold an_inode. lia. }
  assert (forall p nm ino ty, ~ named {[TRASHFS_ROOT_INODE := ∅]} p nm ino ty) as Hno.
  { intros p nm ino ty (d & Hd & E). apply lookup_singleton_Some in Hd as [_ <-]. by rewrite lookup_empty in E. }
  assert (forall i, an_inode vol i -> inode_used m vol i = bool_decide (i = 0)) as Hu.
  { intros i Hi. rewrite used_mode. case_bool_decide as E; [subst i; unfold imode; by rewrite Hm|].
    unfold imode, rd16, load16. rewrite (mem_read_agree m (fun _ => 0)); [done|]. intros x Hx. apply (Hz i); [done|done|]. unfold rng in *. lia. }
  split.
  - exact V.
  - by eexists.
  - intros i d Hd. apply lookup_singleton_Some in Hd as [<- <-]. split; [exact Hm|]. exists 0.
    split; [split; [exact H0|unfold max_slots, max_blocks; lia|exact Hs]|apply NoDup_nil_2|reflexivity].
  - intros p nm ino ty Hn. by apply Hno in Hn.
  - intros p nm ino ty Hn. by apply Hno in Hn.
  - intros p nm q nm' ino ty ty' Hn. by apply Hno in Hn.
  - intros i x Hi Hf Hx. rewrite Hu in Hf by done. apply bool_decide_eq_false in Hf. by apply (Hz i).
  - intros i Hi Hf Hr. rewrite Hu in Hf by done. by apply bool_decide_eq_true in Hf.
Qed.

Definition demo_names : namespace := {[TRASHFS_ROOT_INODE := ∅]}.

Lemma demo_names_ok : names_ok demo_mem demo_vol (empty_fs demo_vol) demo_names.
Proof. destruct demo_formatted as (H1 & H2 & H3 & H4). by apply formatted_names. Qed.

(** The path [/a]. *)
Definition demo_path : list Z := [47; 97].

Lemma demo_path_ok : Forall is_u8 demo_path.
Proof. repeat constructor; lia. Qed.

Lemma demo_path_name : ends_in_name demo_path.
Proof. exists [97]. done. Qed.

Lemma demo_parent : parent demo_names demo_path = inr (0, [97]).
Proof. reflexivity. Qed.

Lemma trash_open_correct_witness : exists m' vol' fs' N' r, trashfs_open demo_mem demo_vol demo_path TRASHFS_O_CREAT = Some (m', vol', r) /\
  names_ok m' vol' fs' N' /\ open_outcome demo_names demo_path TRASHFS_O_CREAT demo_mem demo_vol m' vol' N' r.
Proof.
  destruct (trash_open_correct demo_mem demo_vol (empty_fs demo_vol) demo_names demo_path TRASHFS_O_CREAT demo_names_ok demo_path_ok demo_path_name)
    as (m' & vol' & fs' & N' & r & E & H & O & _). exists m', vol', fs', N', r. split; [exact E|]. split; [exact H|exact O].
Defined.

Lemma trash_mkdir_correct_witness : exists m' vol' fs' N' r, trashfs_mkdir demo_mem demo_vol demo_path 9 = Some (m', vol', r) /\
  names_ok m' vol' fs' N' /\ mkdir_outcome demo_names demo_path demo_mem demo_vol vol' N' r.
Proof.
  destruct (trash_mkdir_correct demo_mem demo_vol (empty_fs demo_vol) demo_names demo_path 9 demo_names_ok demo_path_ok)
    as (m' & vol' & fs' & N' & r & E & H & O & _). exists m', vol', fs', N', r. split; [exact E|]. split; [exact H|exact O].
Defined.

(** The volume with the file. *)
Definition demo_created : mem * TrashfsVolume :=
  match create_file demo_mem demo_vol 0 [97] with Some (m, vol, _) => (m, vol) | None => (demo_mem, demo_vol) end.

Lemma demo_created_first : match create_file demo_mem demo_vol 0 [97] with Some (_, _, inr ino) => ino =? 1 | _ => false end = true.
Proof. vm_compute. reflexivity. Qed.

Lemma demo_created_ok : exists fs, names_ok demo_created.1 demo_created.2 fs (link demo_names 0 ∅ [97] 1 TRASHFS_TYPE_FILE).
Proof.
  destruct (create_file_spec demo_mem demo_vol (empty_fs demo_vol) demo_names demo_names_ok 0 ∅ [97] eq_refl eq_refl)
    as (m' & vol' & fs' & r & E & _ & C); [split; [cbn; lia|repeat constructor; lia]|].
  pose proof demo_created_first as F. unfold demo_created. rewrite E in F |- *. destruct r as [e|ino]; [done|].
  apply Z.eqb_eq in F. subst ino. exists fs'. apply C.
Qed.

Lemma demo_created_parent : parent (link demo_names 0 ∅ [97] 1 TRASHFS_TYPE_FILE) demo_path = inr (0, [97]).
Proof. reflexivity. Qed.

Lemma demo_created_name : link demo_names 0 ∅ [97] 1 TRASHFS_TYPE_FILE !! 0 ≫= (.!! [97]) = Some (1, TRASHFS_TYPE_FILE).
Proof. reflexivity. Qed.

Lemma trash_unlink_correct_witness : exists m' vol', trashfs_unlink demo_created.1 demo_created.2 demo_path = Some (m', vol', TRASHFS_OK) /\
  free_inodes vol' = free_inodes demo_created.2 + 1.
Proof.
  destruct demo_created_ok as [fs H].
  destruct (trash_unlink_correct demo_created.1 demo_created.2 fs _ demo_path H demo_path_ok demo_path_name)
    as (m' & vol' & fs' & N' & r & E & _ & O & _ & Ef & _). unfold unlink_outcome in O. rewrite (target_by_parent _ _ demo_path_name), demo_created_parent, demo_created_name in O.
  destruct O as [-> _]. exists m', vol'. split; [exact E|exact Ef].
Defined.


Lemma trash_readdir_lists_witness : exists dh l, trashfs_opendir demo_mem demo_vol [47] = Some (inr dh) /\
  readdir_all 1 demo_mem demo_vol dh = Some l.
Proof.
  pose proof (trash_readdir_lists demo_mem demo_vol (empty_fs demo_vol) demo_names [47] demo_names_ok ltac:(repeat constructor; lia)) as H.
  destruct H as (dh & l & E1 & E2 & _). exists dh, l. split; [exact E1|exact E2].
Defined.
