(* ===== verification/VmTyped.v ===== *)
(** The C types of the virtual CPU's fields as an invariant: whatever a host
    does with a CPU (initialise, reset, step, read and write guest memory, map
    regions, write result registers), every field stays in the range of its
    type, [x0] stays zero and the program counter stays even. *)
From S2P Require Import Prelude HostMem VmCpu VmDecode VmExec VmSafety VmStep VmLoader Rv32Spec Rv32Refine.

(** ** The type of a CPU *)

(** The fields of [VmCpu] at their widths. *)
Record cpu_typed (c : VmCpu) : Prop := {
  ct_wf : cpu_wf c;
  ct_regions : length (regions c) = VM_REGION_COUNT;
  ct_trap_pc : is_u32 (trap_pc c);
  ct_trap_addr : is_u32 (trap_addr c);
  ct_trap_insn : is_u32 (trap_insn c);
  ct_trap_count : is_u32 (trap_count c);
  ct_ecall_count : is_u32 (ecall_count c)
}.

(** The trap fields alone. *)
Definition traps_typed (c : VmCpu) : Prop :=
  is_u32 (trap_pc c) /\ is_u32 (trap_addr c) /\ is_u32 (trap_insn c).

Lemma u32_0 : is_u32 0.
Proof. unfold is_u32. lia. Qed.
#[local] Hint Resolve u32_0 : mach.

Lemma set_fault_typed c cause addr : cpu_typed c -> is_u32 addr -> cpu_typed (set_fault c cause addr).
Proof.
  intros [W Hr Hp Ha Hi Ht He] Hx. split; try done; [|apply W].
  by apply (cpu_wf_same c); try done; apply W.
Qed.

(** ** Instructions *)

(** The trap fields an instruction leaves. *)
Section traps.
Context (c : VmCpu) (m : mem) (insn size : Z).
Hypothesis W : cpu_wf c.
Hypothesis T : traps_typed c.
Hypothesis Hi : is_u32 insn.

Definition leaves_typed (r : exec_result) : Prop := traps_typed r.1.2.

Lemma illegal_typed : leaves_typed (illegal c m insn).
Proof. split_and!; [apply W|apply T|done]. Qed.

Lemma fault_typed b cause addr : is_u32 addr -> leaves_typed (b, set_fault c cause addr, m).
Proof. intros H. split_and!; [apply W|done|apply T]. Qed.

Lemma load_with_typed addr mask width conv : is_u32 addr ->
  leaves_typed (load_with c m insn size addr mask width conv).
Proof.
  intros Ha. unfold load_with. case_match; [by apply fault_typed|].
  destruct (xlat_read_cases c addr width TRAP_LOAD_FAULT) as [[p ->]| ->]; [done|by apply fault_typed].
Qed.

Lemma store_with_typed addr mask width put : is_u32 addr ->
  leaves_typed (store_with c m size addr mask width put).
Proof.
  intros Ha. unfold store_with. case_match; [by apply fault_typed|].
  destruct (xlat_write_cases c addr width) as [[p ->]|(cause & _ & ->)]; [done|by apply fault_typed].
Qed.

Lemma execute_32_typed : leaves_typed (execute_32 c m insn size).
Proof.
  unfold execute_32, exec_op_imm, exec_op, exec_lui, exec_auipc, exec_load, exec_store, exec_branch,
    exec_jal, exec_jalr, exec_misc_mem, exec_system, exec_env, exec_csr, csr_write.
  repeat case_match; try exact T; try exact illegal_typed;
    try (apply load_with_typed, is_u32_range); try (apply store_with_typed, is_u32_range).
  split_and!; [apply is_u32_range|apply T|apply T].
Qed.
End traps.

Lemma expand_u32 w : is_u16 w -> bits w 0 2 <> 3 -> is_u32 (expand_compressed w).
Proof.
  intros Hw H3. pose proof (expands_right_spec w Hw H3) as H. unfold expands_right in H.
  destruct (Z.eqb_spec (expand_compressed w) 0) as [->|_]; [apply u32_0|].
  rewrite !andb_true_iff, Z.leb_le, Z.ltb_lt in H. umach. lia.
Qed.

Lemma execute_one_typed c m insn size : cpu_wf c -> traps_typed c ->
  (size = 2 /\ is_u16 insn /\ bits insn 0 2 <> 3) \/ (size = 4 /\ is_u32 insn) ->
  leaves_typed (execute_one c m insn size).
Proof.
  intros W T [(-> & Hw & H3)|[-> Hw]]; unfold execute_one; cbn [Z.eqb Pos.eqb]; [|by apply execute_32_typed].
  assert (is_u32 insn) as Hw2 by (umach; lia).
  replace (u16 insn) with insn by (symmetry; umach; by apply Z.mod_small).
  case_match; [by apply illegal_typed|]. apply execute_32_typed; [done|done|by apply expand_u32].
Qed.

Lemma fetch_fault_typed m c c' : cpu_wf c -> traps_typed c -> fetch_instruction m c = (None, c') -> traps_typed c'.
Proof.
  intros W T. unfold fetch_instruction. case_match; [intros [= <-]; split_and!; [apply W|apply W|apply T]|].
  destruct (xlat_read_cases c (pc c) 2 TRAP_INSTR_FETCH_FAULT) as [[p ->]| ->].
  - case_match; [|done].
    destruct (xlat_read_cases c (u32 (pc c + 2)) 2 TRAP_INSTR_FETCH_FAULT) as [[q ->]| ->]; [done|].
    intros [= <-]. split_and!; [apply W|apply is_u32_range|apply T].
  - intros [= <-]. split_and!; [apply W|apply W|apply T].
Qed.

Lemma step_once_typed c m : cpu_wf c -> mem_ok m -> traps_typed c -> traps_typed (step_once c m).1.2.
Proof.
  intros W Hm T. unfold step_once. destruct (fetch_instruction m c) as [[[w size]|] c1] eqn:Hf.
  - destruct (fetch_word _ _ _ _ _ Hm Hf) as [-> Hw].
    pose proof (execute_one_typed c m w size W T Hw) as H.
    destruct (execute_one c m w size) as [[[] c2] m2]; [exact H|]. by case_decide.
  - exact (fetch_fault_typed m c c1 W T Hf).
Qed.

(** ** A quantum *)

Lemma step_once_counts c m : cpu_typed c -> mem_ok m -> cpu_typed (step_once c m).1.2 /\ mem_ok (step_once c m).2.
Proof.
  intros [W Hl Hp Ha Hi Ht He] Hm.
  pose proof (step_once_typed c m W Hm (conj Hp (conj Ha Hi))) as (T1 & T2 & T3).
  destruct (step_once_spec c m W Hm) as [(c' & m' & E & R & W')|(c' & E & P & W')]; rewrite E in T1, T2, T3 |- *;
    cbn [fst snd] in *.
  - destruct R as [(Hg & _) _ _ (_ & H2 & H3) Hw].
    split; [split; try done; congruence|]. destruct Hw as [->|Hw]; [done|by eapply guest_write_ok].
  - destruct P as [(Hg & _) _ _ _ (_ & H3) _ Hc]. split; [|done]. split; try done; try congruence.
    destruct Hc as [(_ & H2 & _)|(_ & _ & H2)]; rewrite H2; [done|apply is_u32_range].
Qed.

Lemma vm_loop_typed fuel : forall c m s, cpu_typed c -> mem_ok m ->
  let '(r, c', m', n) := vm_loop fuel c m s in cpu_typed c' /\ mem_ok m'.
Proof.
  induction fuel as [|fuel IH]; intros c m s T Hm; [done|]. cbn [vm_loop].
  destruct (step_once_counts c m T Hm) as [T1 Hm1]. destruct (step_once c m) as [[[] c1] m1]; cbn [fst snd] in *.
  - by apply IH.
  - assert (cpu_typed (set_counts c1 (instructions_retired c1) (trap_count c1) (u32 (ecall_count c1 + 1)))) as H.
    { destruct T1 as [W1]. split; try done; [|apply is_u32_range]. by apply (cpu_wf_same c1); try done; apply W1. }
    assert (cpu_typed (set_halted c1 true)) as H'.
    { destruct T1 as [W1]. split; try done. by apply (cpu_wf_same c1); try done; apply W1. }
    by destruct (trap_cause c1).
Qed.

Lemma vm_step_typed c m budget : cpu_typed c -> mem_ok m ->
  let '(r, c', m', n) := vm_step c m budget in cpu_typed c' /\ mem_ok m'.
Proof.
  intros T Hm. unfold vm_step. destruct (halted c); [done|].
  apply vm_loop_typed; [|done]. destruct T as [W1]. split; try done; auto with mach. by apply set_trap_wf.
Qed.

(** ** What a host does *)

Inductive host_event :=
  | HE_reset
  | HE_step (budget : Z)
  | HE_read_u32 (addr : Z)
  | HE_write_u32 (addr value : Z)
  | HE_copy_from_guest (dst guest_src n : Z)
  | HE_copy_to_guest (guest_dst src n : Z)
  | HE_set_reg (i v : Z)
  | HE_set_pc (v : Z)
  | HE_map (i : Z) (r : VmRegion).

(** The argument types; register writes go to [x1]..[x31] and the program
    counter is set to an entry point, as the loader and the handlers do. *)
Definition event_typed (e : host_event) : Prop :=
  match e with
  | HE_reset => True
  | HE_step budget => is_u32 budget
  | HE_read_u32 addr => is_u32 addr
  | HE_write_u32 addr value => is_u32 addr /\ is_u32 value
  | HE_copy_from_guest _ src _ => is_u32 src
  | HE_copy_to_guest dst _ _ => is_u32 dst
  | HE_set_reg i v => 0 < i < 32 /\ is_u32 v
  | HE_set_pc v => is_u32 v /\ v mod 2 = 0
  | HE_map i _ => 0 <= i < 4
  end.

Definition host_do (s : VmCpu * mem) (e : host_event) : VmCpu * mem :=
  let '(c, m) := s in
  match e with
  | HE_reset => (vm_reset c, m)
  | HE_step budget => let '(_, c, m, _) := vm_step c m budget in (c, m)
  | HE_read_u32 addr => let '(_, c) := vm_read_u32 m c addr in (c, m)
  | HE_write_u32 addr value => let '(_, m, c) := vm_write_u32 m c addr value in (c, m)
  | HE_copy_from_guest dst src n => let '(_, m, c) := vm_copy_from_guest m c dst src n in (c, m)
  | HE_copy_to_guest dst src n => let '(_, m, c) := vm_copy_to_guest m c dst src n in (c, m)
  | HE_set_reg i v => (set_reg c i v, m)
  | HE_set_pc v => (set_pc c v, m)
  | HE_map i r => (set_region c i r, m)
  end.

Lemma vm_init_typed id : is_u16 id -> cpu_typed (vm_init id).
Proof.
  intros H. split; try done; try apply u32_0. split; try done; try apply u32_0.
  by apply Forall_replicate, u32_0.
Qed.

Lemma vm_reset_typed c : cpu_typed c -> cpu_typed (vm_reset c).
Proof.
  intros [W Hl _ _ _ _ _]. split; try done; try apply u32_0.
  split; try done; try apply u32_0; [by apply Forall_replicate, u32_0|apply W].
Qed.

Lemma set_reg_typed c i v : cpu_typed c -> 0 < i < 32 -> is_u32 v -> cpu_typed (set_reg c i v).
Proof.
  intros [W] Hi Hv. split; try done. destruct (set_reg_wf c i v W Hv) as [H1 H2].
  split; try done; try apply W. transitivity (reg c 0); [|apply W]. unfold reg, set_reg. cbn [set_regs regs].
  by rewrite !nth_lookup, list_lookup_insert_ne by lia.
Qed.

Lemma host_do_typed c m e : cpu_typed c -> mem_ok m -> event_typed e ->
  cpu_typed (host_do (c, m) e).1 /\ mem_ok (host_do (c, m) e).2.
Proof.
  intros T Hm He. destruct e as [|budget|addr|addr v|d a n|a s n|i v|v|i r]; cbn [host_do event_typed] in *.
  - split; [by apply vm_reset_typed|done].
  - pose proof (vm_step_typed c m budget T Hm) as H. by destruct (vm_step c m budget) as [[[? ?] ?] ?].
  - unfold vm_read_u32. destruct (negb _); [split; [by apply set_fault_typed|done]|].
    destruct (xlat_read_cases c addr 4 TRAP_LOAD_FAULT) as [[p ->]| ->]; [done|]. split; [by apply set_fault_typed|done].
  - destruct He as [Ha Hv]. unfold vm_write_u32. destruct (negb _); [split; [by apply set_fault_typed|done]|].
    destruct (xlat_write_cases c addr 4) as [[p ->]|(cause & _ & ->)]; split; cbn [fst snd]; auto with hostmem;
      try (by apply set_fault_typed).
  - unfold vm_copy_from_guest. destruct (orb _ _); [done|].
    destruct (xlat_read_cases c a n TRAP_LOAD_FAULT) as [[p ->]| ->]; split; cbn [fst snd]; auto with hostmem; by apply set_fault_typed.
  - unfold vm_copy_to_guest. destruct (orb _ _); [done|].
    destruct (xlat_write_cases c a n) as [[p ->]|(cause & _ & ->)]; split; cbn [fst snd]; auto with hostmem.
    by apply set_fault_typed.
  - destruct He. split; [by apply set_reg_typed|done].
  - split; [|done]. destruct T as [W]. split; try done. destruct He. apply (cpu_wf_same c); try done; apply W.
  - split; [|done]. destruct T as [W]. split; try done; [by apply (cpu_wf_same c); try done; apply W|].
    cbn [fst set_region set_regions regions]. by rewrite length_insert.
Qed.

Lemma host_run_typed es : forall c m, cpu_typed c -> mem_ok m -> Forall event_typed es ->
  cpu_typed (foldl host_do (c, m) es).1 /\ mem_ok (foldl host_do (c, m) es).2.
Proof.
  induction es as [|e es IH]; intros c m T Hm H; [done|]. apply Forall_cons in H as [He H]. cbn [foldl].
  destruct (host_do_typed c m e T Hm He) as [T1 Hm1]. destruct (host_do (c, m) e) as [c1 m1]. by apply IH.
Qed.

(** C31. Every CPU keeps its C types: after [vm_init], whatever sequence of quanta,
    resets, guest-memory accesses, region mappings and register or program
    counter assignments of the host's types follows, all 32 registers are 32-bit with [x0]
    zero, the program counter is 32-bit and even, the trap fields and counters
    are in their widths, there are four regions, and host memory still holds
    bytes. *)
Theorem cpu_always_typed id m es :
  is_u16 id -> mem_ok m -> Forall event_typed es ->
  let '(c, m') := foldl host_do (vm_init id, m) es in cpu_typed c /\ mem_ok m'.
Proof.
  intros Hid Hm H. pose proof (host_run_typed es (vm_init id) m (vm_init_typed id Hid) Hm H) as HT.
  by destruct (foldl host_do (vm_init id, m) es).
Qed.

(** The demo program of the step file run by a fresh CPU, which then faults. *)
Definition demo_session : list host_event :=
  [HE_map 0 (mkRegion 0x1000 64 false); HE_map 2 (mkRegion 0x2000 64 true); HE_step 100;
   HE_set_reg VM_REG_A0 7; HE_write_u32 0x80000000 5; HE_write_u32 0x80000002 5; HE_step 10; HE_reset; HE_step 2].

Example demo_session_runs :
  let '(c, m) := foldl host_do (vm_init 3, demo_mem) (take 7 demo_session) in
  trap_cause c = TRAP_ILLEGAL_INSTR /\ reg c 10 = 7 /\ load32 m 0x2000 = 5 /\ trap_count c = 1 /\ ecall_count c = 1.
Proof. by vm_compute. Qed.

Lemma cpu_always_typed_witness :
  let '(c, m') := foldl host_do (vm_init 3, demo_mem) demo_session in cpu_typed c /\ mem_ok m'.
Proof.
  apply (cpu_always_typed 3 demo_mem demo_session).
  - unfold is_u16. lia.
  - exact demo_mem_ok.
  - unfold demo_session. repeat (apply Forall_cons; split); try done; cbn [event_typed];
      unfold is_u32, VM_REG_A0; lia.
Defined.
