(* ===== verification/Presched.v ===== *)
(** The preemptive scheduler ([src/vm/presched.c], its POSIX part): threads of
    which one at a time is meant to hold the CPU, a scheduler thread that wakes,
    chooses and preempts on every tick, and the calls with which tasks block, wake and
    sleep.

    A run gate is a POSIX semaphore: its value, raised by [sem_post].  An operation is
    the code of one round of [sched_main] or of one call, up to the wait on the gate,
    run without interruption; [presched_block] is also given in the pieces between
    which another thread can run.  The threads themselves, the signal that parks the
    preempted one and the interleaving of operations are not modelled.

    The theorems are about one round of the scheduler thread, what it does to every
    task and the turns it gives.  At the end, two interleavings of a call with other
    threads lose a wake and grant the CPU twice. *)
From S2P Require Import Prelude.

Definition PRESCHED_MAX_TASKS : Z := 16.
Definition PRESCHED_PRIO_LEVELS : Z := 8.
Definition PRESCHED_PRIO_MIN : Z := 0.
Definition PRESCHED_PRIO_MAX : Z := PRESCHED_PRIO_LEVELS - 1.

Inductive TaskState := TASK_READY | TASK_RUNNING | TASK_BLOCKED | TASK_DONE.

#[export] Instance TaskState_eq : EqDecision TaskState.
Proof. solve_decision. Defined.

Record Task := mkTask {
  t_state : TaskState;
  t_priority : Z;
  pending_wake : Z;
  wake_deadline : Z;
  gate : Z
}.

(** The tasks below [n_tasks]; the slots above are not looked at. *)
Record PreSched := mkPreSched {
  tasks : list Task;
  tick_us : Z;
  current : Z;
  running_count : Z;
  ticks : Z;
  switches : Z;
  stop : bool;
  running : bool
}.

Definition n_tasks (s : PreSched) : Z := Z.of_nat (length (tasks s)).

Definition no_task : Task := mkTask TASK_DONE 0 0 0 0.
Definition task (s : PreSched) (i : Z) : Task := nth (Z.to_nat i) (tasks s) no_task.
Definition state (s : PreSched) (i : Z) : TaskState := t_state (task s i).

(** Stores to one field. *)
Definition put_task (s : PreSched) (i : Z) (t : Task) : PreSched :=
  mkPreSched (<[Z.to_nat i := t]> (tasks s)) (tick_us s) (current s) (running_count s)
    (ticks s) (switches s) (stop s) (running s).
Definition set_current (s : PreSched) (c : Z) : PreSched :=
  mkPreSched (tasks s) (tick_us s) c (running_count s) (ticks s) (switches s) (stop s) (running s).
Definition set_running_count (s : PreSched) (n : Z) : PreSched :=
  mkPreSched (tasks s) (tick_us s) (current s) n (ticks s) (switches s) (stop s) (running s).
Definition set_ticks (s : PreSched) (n : Z) : PreSched :=
  mkPreSched (tasks s) (tick_us s) (current s) (running_count s) n (switches s) (stop s) (running s).
Definition set_switches (s : PreSched) (n : Z) : PreSched :=
  mkPreSched (tasks s) (tick_us s) (current s) (running_count s) (ticks s) n (stop s) (running s).
Definition set_flags (s : PreSched) (stop running : bool) : PreSched :=
  mkPreSched (tasks s) (tick_us s) (current s) (running_count s) (ticks s) (switches s) stop running.

Definition with_state (t : Task) (st : TaskState) : Task :=
  mkTask st (t_priority t) (pending_wake t) (wake_deadline t) (gate t).
Definition with_pending (t : Task) (v : Z) : Task :=
  mkTask (t_state t) (t_priority t) v (wake_deadline t) (gate t).
Definition with_deadline (t : Task) (d : Z) : Task :=
  mkTask (t_state t) (t_priority t) (pending_wake t) d (gate t).
Definition with_gate (t : Task) (g : Z) : Task :=
  mkTask (t_state t) (t_priority t) (pending_wake t) (wake_deadline t) g.

Definition set_state (s : PreSched) (i : Z) (st : TaskState) : PreSched :=
  put_task s i (with_state (task s i) st).
Definition set_pending (s : PreSched) (i v : Z) : PreSched :=
  put_task s i (with_pending (task s i) v).
Definition set_deadline (s : PreSched) (i d : Z) : PreSched :=
  put_task s i (with_deadline (task s i) d).

(** [sem_post(&s->tasks[i].gate)]. *)
Definition post_gate (s : PreSched) (i : Z) : PreSched :=
  put_task s i (with_gate (task s i) (gate (task s i) + 1)).

(** ** Choosing *)

(** [st == TASK_READY || st == TASK_RUNNING]. *)
Definition runnable (st : TaskState) : bool :=
  match st with TASK_READY | TASK_RUNNING => true | _ => false end.

Definition highest_ready_level (s : PreSched) : Z :=
  fold_left (fun best t =>
    if runnable (t_state t) then if best <? t_priority t then t_priority t else best else best) (tasks s) (-1).

(** [for (i = 1; i <= s->n_tasks; i++)], [n] rounds being left. *)
Fixpoint next_at_level (n : nat) (s : PreSched) (from i lvl : Z) : option Z :=
  match n with
  | O => None
  | S n =>
    let idx := (from + i) mod n_tasks s in
    if negb (t_priority (task s idx) =? lvl) then next_at_level n s from (i + 1) lvl else
    if runnable (state s idx) then Some idx else next_at_level n s from (i + 1) lvl
  end.

Definition next_ready (s : PreSched) (from : Z) : Z :=
  let lvl := highest_ready_level s in
  if lvl <? 0 then -1 else
  match next_at_level (length (tasks s)) s from 1 lvl with
  | Some idx => idx
  | None =>
    if (0 <=? from) && (t_priority (task s (from mod n_tasks s)) =? lvl) then
      if runnable (state s (from mod n_tasks s)) then from mod n_tasks s else -1
    else -1
  end.

(** The four stores with which the CPU goes to task [nxt]. *)
Definition grant (s : PreSched) (nxt : Z) : PreSched :=
  let s := set_current s nxt in
  let s := set_state s nxt TASK_RUNNING in
  let s := set_switches s (u64 (switches s + 1)) in
  post_gate s nxt.

(** ** The scheduler thread *)

(** Waking of sleepers whose deadline has passed. *)
Definition wake_sleeper (now : Z) (t : Task) : Task :=
  let dl := wake_deadline t in
  if negb (dl =? 0) && (dl <=? now) && bool_decide (t_state t = TASK_BLOCKED) then
    with_state (with_deadline t 0) TASK_READY
  else t.

Definition wake_sleepers (s : PreSched) (now : Z) : PreSched :=
  mkPreSched (map (wake_sleeper now) (tasks s)) (tick_us s) (current s) (running_count s)
    (ticks s) (switches s) (stop s) (running s).

(** One round of [sched_main]; the second component is the task that is sent the
    park signal. *)
Definition sched_tick (s : PreSched) : PreSched * option Z :=
  let now := u64 (ticks s + 1) in
  let s := set_ticks s now in
  if running_count s <=? 0 then (s, None) else
  let s := wake_sleepers s now in
  let cur := current s in
  let nxt := next_ready s (if cur <? 0 then 0 else cur) in
  if nxt <? 0 then (s, None) else
  if nxt =? cur then (s, None) else
  let '(s, signalled) :=
    if (0 <=? cur) && bool_decide (state s cur = TASK_RUNNING) then
      (set_current (set_state s cur TASK_READY) (-1), Some cur)
    else (s, None) in
  (grant s nxt, signalled).

(** ** Calls of a task *)

Definition hand_off_from (s : PreSched) (self : Z) : PreSched :=
  let nxt := next_ready s self in
  if (0 <=? nxt) && negb (nxt =? self) then grant s nxt else set_current s (-1).

(** The compare-and-swap on [pending_wake]: whether a wake was consumed. *)
Definition take_pending (s : PreSched) (self : Z) : bool * PreSched :=
  if pending_wake (task s self) =? 1 then (true, set_pending s self 0) else (false, s).

(** [BLOCKED], and the CPU handed on; the caller then waits on its gate. *)
Definition park (s : PreSched) (self : Z) : PreSched :=
  hand_off_from (set_state s self TASK_BLOCKED) self.

(** The calls return whether the task waits on its gate at their end. *)
Definition presched_block (s : PreSched) (self : Z) : PreSched * bool :=
  let '(taken, s) := take_pending s self in
  if taken then (s, false) else (park s self, true).

Definition presched_wake (s : PreSched) (id : Z) : PreSched :=
  if (id <? 0) || (n_tasks s <=? id) then s else
  if bool_decide (state s id = TASK_BLOCKED) then
    set_deadline (set_state s id TASK_READY) id 0
  else set_pending s id 1.

Definition presched_sleep (s : PreSched) (self n : Z) : PreSched * bool :=
  if n =? 0 then (s, false) else
  (park (set_deadline s self (u64 (ticks s + n))) self, true).

Definition presched_block_timeout (s : PreSched) (self n : Z) : PreSched * bool :=
  if n =? 0 then (s, false) else
  let '(taken, s) := take_pending s self in
  if taken then (s, false) else
  (park (set_deadline s self (u64 (ticks s + n))) self, true).

(** The end of [task_trampoline], after the body. *)
Definition task_end (s : PreSched) (self : Z) : PreSched :=
  let s := set_state s self TASK_DONE in
  let s := if current s =? self then hand_off_from s self else s in
  let n := running_count s in
  let s := set_running_count s (n - 1) in
  if n =? 1 then set_flags s true (running s) else s.

(** ** Set-up *)

Definition presched_create (us : Z) : PreSched :=
  mkPreSched [] (if us =? 0 then 1000 else us) (-1) 0 0 0 false false.

(** [sem_ok] and [thread_ok] say whether [sem_init] and [pthread_create] succeed. *)
Definition presched_add_task_prio (s : PreSched) (fn priority : Z) (sem_ok thread_ok : bool) : Z * PreSched :=
  if fn =? 0 then (-1, s) else
  let priority := if priority <? PRESCHED_PRIO_MIN then PRESCHED_PRIO_MIN else priority in
  let priority := if PRESCHED_PRIO_MAX <? priority then PRESCHED_PRIO_MAX else priority in
  let id := n_tasks s in
  if PRESCHED_MAX_TASKS <=? id then (-1, s) else
  if negb sem_ok then (-1, s) else
  if running s && negb thread_ok then (-1, s) else
  let s := if running s then set_running_count s (running_count s + 1) else s in
  (id, mkPreSched (tasks s ++ [mkTask TASK_READY priority 0 0 0]) (tick_us s) (current s)
         (running_count s) (ticks s) (switches s) (stop s) (running s)).

Definition presched_add_task (s : PreSched) (fn : Z) (sem_ok thread_ok : bool) : Z * PreSched :=
  presched_add_task_prio s fn (PRESCHED_PRIO_LEVELS / 2) sem_ok thread_ok.

(** [presched_run] up to the wait for the last task. *)
Definition presched_start (s : PreSched) : PreSched :=
  if n_tasks s =? 0 then s else
  let s := set_running_count s (n_tasks s) in
  let s := set_flags s false true in
  let first := next_ready s 0 in
  if 0 <=? first then
    let s := set_current s first in
    let s := set_state s first TASK_RUNNING in
    post_gate s first
  else s.

Definition presched_total_ticks (s : PreSched) : Z := ticks s.
Definition presched_switches (s : PreSched) : Z := switches s.

(** ** Stores *)

Lemma task_put s i j t : 0 <= i < n_tasks s -> 0 <= j ->
  task (put_task s i t) j = if decide (j = i) then t else task s j.
Proof.
  intros Hi Hj. unfold task, put_task, n_tasks in *. cbn [tasks]. rewrite !nth_lookup. case_decide as E.
  - subst. by rewrite list_lookup_insert_eq by lia.
  - by rewrite list_lookup_insert_ne by lia.
Qed.

Lemma n_put s i t : n_tasks (put_task s i t) = n_tasks s.
Proof. unfold n_tasks. cbn. by rewrite length_insert. Qed.

(** ** Choosing the next task *)

Lemma task_in s i : 0 <= i < n_tasks s -> In (task s i) (tasks s).
Proof. intros Hi. unfold task. apply nth_In. unfold n_tasks in Hi. lia. Qed.

Lemma in_task s t : In t (tasks s) -> exists i, 0 <= i < n_tasks s /\ task s i = t.
Proof.
  intros H. destruct (In_nth _ _ no_task H) as (n & Hn & E). exists (Z.of_nat n).
  unfold n_tasks, task. rewrite Nat2Z.id. split; [lia|done].
Qed.

(** The fold over the tasks computes the greatest runnable priority. *)
Lemma highest_fold (l : list Task) : forall best,
  let r := fold_left (fun best t =>
    if runnable (t_state t) then if best <? t_priority t then t_priority t else best else best) l best in
  best <= r /\ (forall t, In t l -> runnable (t_state t) = true -> t_priority t <= r) /\
  (r = best \/ exists t, In t l /\ runnable (t_state t) = true /\ t_priority t = r).
Proof.
  induction l as [|t l IH]; intros best r; cbn in r.
  - split; [lia|]. split; [by intros|by left].
  - set (b := if runnable (t_state t) then if best <? t_priority t then t_priority t else best else best) in *.
    destruct (IH b) as (H1 & H2 & H3). fold r in H1, H2, H3.
    assert (best <= b /\ (runnable (t_state t) = true -> t_priority t <= b) /\
      (b = best \/ runnable (t_state t) = true /\ t_priority t = b)) as (Hb1 & Hb2 & Hb3).
    { subst b. destruct (runnable (t_state t)); [|split_and!; [lia|done|by left]].
      destruct (Z.ltb_spec best (t_priority t)); split_and!; try lia; auto. }
    split; [lia|]. split.
    + intros u [<-|Hu] Hr; [specialize (Hb2 Hr); lia|by apply H2].
    + destruct H3 as [H3|(u & Hu & Hr & Hp)]; [|right; exists u; split; [by right|done]].
      destruct Hb3 as [Hb3|[Hr Hp]]; [left; lia|]. right. exists t. split; [by left|]. split; [done|lia].
Qed.

Lemma highest_spec s :
  let l := highest_ready_level s in
  -1 <= l /\ (forall i, 0 <= i < n_tasks s -> runnable (state s i) = true -> t_priority (task s i) <= l) /\
  (l = -1 \/ exists i, 0 <= i < n_tasks s /\ runnable (state s i) = true /\ t_priority (task s i) = l).
Proof.
  intros l. destruct (highest_fold (tasks s) (-1)) as (H1 & H2 & H3).
  split; [done|]. split.
  - intros i Hi Hr. by apply H2; [apply task_in|].
  - destruct H3 as [H3|(t & Ht & Hr & Hp)]; [by left|]. right.
    destruct (in_task s t Ht) as (i & Hi & <-). by exists i.
Qed.

(** The scan finds the first match after [from]. *)
Definition at_level (s : PreSched) (lvl i : Z) : Prop :=
  t_priority (task s i) = lvl /\ runnable (state s i) = true.

Lemma next_at_level_spec n s from lvl : forall i,
  match next_at_level n s from i lvl with
  | Some idx => exists k, i <= k < i + Z.of_nat n /\ idx = (from + k) mod n_tasks s /\ at_level s lvl idx /\
      (forall k', i <= k' < k -> ~ at_level s lvl ((from + k') mod n_tasks s))
  | None => forall k, i <= k < i + Z.of_nat n -> ~ at_level s lvl ((from + k) mod n_tasks s)
  end.
Proof.
  induction n as [|n IH]; intros i; cbn [next_at_level]; [intros; lia|].
  set (idx := (from + i) mod n_tasks s).
  assert (at_level s lvl idx \/ ~ at_level s lvl idx /\
    (forall B (x y : B), (if negb (t_priority (task s idx) =? lvl) then x else if runnable (state s idx) then y else x) = x))
    as [Hat|[Hn E]].
  { unfold at_level. destruct (Z.eqb_spec (t_priority (task s idx)) lvl); cbn [negb].
    - destruct (runnable (state s idx)); [by left|]. right. split; [by intros [_ ?]|done].
    - right. split; [by intros [? _]|done]. }
  - pose proof Hat as [Ep Er]. rewrite Ep, Z.eqb_refl, Er. cbn [negb].
    exists i. split; [lia|]. split; [done|]. split; [done|]. intros; lia.
  - rewrite E. specialize (IH (i + 1)). destruct (next_at_level n s from (i + 1) lvl) as [idx'|].
    + destruct IH as (k & Hk & Eidx & Hat & Hlow). exists k. split; [lia|]. split; [done|]. split; [done|].
      intros k' Hk'. destruct (decide (k' = i)) as [->|]; [done|]. apply Hlow. lia.
    + intros k Hk. destruct (decide (k = i)) as [->|]; [done|]. apply IH. lia.
Qed.

Lemma next_ready_spec s from : 0 <= from < n_tasks s ->
  (forall i, 0 <= i < n_tasks s -> 0 <= t_priority (task s i)) ->
  let x := next_ready s from in
  (x = -1 /\ forall i, 0 <= i < n_tasks s -> runnable (state s i) = false) \/
  (0 <= x < n_tasks s /\ at_level s (highest_ready_level s) x /\
   exists k, 1 <= k <= n_tasks s /\ x = (from + k) mod n_tasks s /\
     forall k', 1 <= k' < k -> ~ at_level s (highest_ready_level s) ((from + k') mod n_tasks s)).
Proof.
  intros Hf Hp x. destruct (highest_spec s) as (H1 & H2 & H3). set (l := highest_ready_level s) in *.
  subst x. unfold next_ready. fold l. destruct (Z.ltb_spec l 0) as [Hneg|Hpos].
  { left. split; [done|]. intros i Hi. destruct (runnable (state s i)) eqn:E; [|done].
    specialize (H2 i Hi E). specialize (Hp i Hi). lia. }
  destruct H3 as [H3|(j & Hj & Hrj & Hpj)]; [lia|]. right.
  pose proof (next_at_level_spec (length (tasks s)) s from l 1) as Hn.
  destruct (next_at_level (length (tasks s)) s from 1 l) as [idx|].
  - destruct Hn as (k & Hk & -> & Hat & Hlow). split; [apply Z.mod_pos_bound; lia|]. split; [done|].
    exists k. unfold n_tasks in *. split; [lia|]. by split.
  - exfalso. set (k := (j - from - 1) mod n_tasks s + 1).
    apply (Hn k); [subst k; pose proof (Z.mod_pos_bound (j - from - 1) (n_tasks s)); unfold n_tasks in *; lia|].
    assert ((from + k) mod n_tasks s = j) as ->; [|done].
    subst k. replace (from + ((j - from - 1) mod n_tasks s + 1)) with ((j - from - 1) mod n_tasks s + (from + 1)) by lia.
    rewrite Zplus_mod_idemp_l. replace (j - from - 1 + (from + 1)) with j by lia. by apply Z.mod_small.
Qed.

(** ** The state an operation finds *)

Definition prio_ok (s : PreSched) : Prop :=
  forall i, 0 <= i < n_tasks s -> 0 <= t_priority (task s i) <= PRESCHED_PRIO_MAX.

(** [current] is -1 or the one task in state [RUNNING]. *)
Record orderly (s : PreSched) : Prop := {
  or_prio : prio_ok s;
  or_current : -1 <= current s < n_tasks s;
  or_running i : 0 <= i < n_tasks s -> state s i = TASK_RUNNING <-> i = current s
}.

Lemma grant_task s nxt j : 0 <= nxt < n_tasks s -> 0 <= j ->
  task (grant s nxt) j =
  if decide (j = nxt) then with_gate (with_state (task s nxt) TASK_RUNNING) (gate (task s nxt) + 1) else task s j.
Proof.
  intros Hn Hj. unfold grant, post_gate.
  rewrite task_put by (first [exact Hj | unfold n_tasks; cbn; rewrite length_insert; exact Hn]).
  change (task (set_switches ?s0 ?v) nxt) with (task s0 nxt).
  change (task (set_switches ?s0 ?v) j) with (task s0 j).
  unfold set_state. rewrite !task_put by (done || lia). rewrite (decide_True (P := nxt = nxt)) by done.
  by case_decide.
Qed.

Lemma n_grant s nxt : n_tasks (grant s nxt) = n_tasks s.
Proof. unfold n_tasks. cbn. by rewrite !length_insert. Qed.

Lemma n_nonneg s : 0 <= n_tasks s.
Proof. unfold n_tasks. lia. Qed.

Lemma wake_sleepers_task s now i : 0 <= i < n_tasks s ->
  task (wake_sleepers s now) i = wake_sleeper now (task s i).
Proof.
  intros Hi. unfold task, wake_sleepers. cbn [tasks].
  rewrite (nth_indep _ no_task (wake_sleeper now no_task)) by (rewrite length_map; unfold n_tasks in Hi; lia).
  apply map_nth.
Qed.

Lemma wake_sleepers_n s now : n_tasks (wake_sleepers s now) = n_tasks s.
Proof. unfold n_tasks. cbn. by rewrite length_map. Qed.

(** Taking the CPU from task [i] and giving it to [nxt]. *)
Definition switch_to (s : PreSched) (i nxt : Z) : PreSched :=
  grant (set_current (set_state s i TASK_READY) (-1)) nxt.

Lemma switch_task s i nxt j : 0 <= i < n_tasks s -> 0 <= nxt < n_tasks s -> i <> nxt -> 0 <= j ->
  task (switch_to s i nxt) j =
  if decide (j = nxt) then with_gate (with_state (task s nxt) TASK_RUNNING) (gate (task s nxt) + 1)
  else if decide (j = i) then with_state (task s i) TASK_READY else task s j.
Proof.
  intros Hi Hn Hne Hj. unfold switch_to. rewrite grant_task by (try exact Hj; unfold n_tasks; cbn; rewrite length_insert; exact Hn).
  change (task (set_current ?s0 ?c) nxt) with (task s0 nxt). change (task (set_current ?s0 ?c) j) with (task s0 j).
  unfold set_state. rewrite !task_put by lia. by rewrite (decide_False (P := nxt = i)) by congruence.
Qed.

Lemma switch_n s i nxt : n_tasks (switch_to s i nxt) = n_tasks s.
Proof. unfold switch_to. rewrite n_grant. exact (n_put s i _). Qed.

Lemma next_ready_none s from : n_tasks s = 0 -> next_ready s from = -1.
Proof.
  intros En. unfold next_ready, highest_ready_level. unfold n_tasks in En.
  destruct (tasks s) as [|t ts]; [done|cbn in En; lia].
Qed.

(** The choice of the tick, from the state in which sleepers have been woken. *)
Definition tick_from (s : PreSched) : Z := if current s <? 0 then 0 else current s.

(** The tick after the bookkeeping. *)
Lemma sched_tick_unfold s : running_count s <= 0 \/
  let s1 := wake_sleepers (set_ticks s (u64 (ticks s + 1))) (u64 (ticks s + 1)) in
  let nxt := next_ready s1 (tick_from s1) in
  sched_tick s =
    if nxt <? 0 then (s1, None) else if nxt =? current s1 then (s1, None) else
    if (0 <=? current s1) && bool_decide (state s1 (current s1) = TASK_RUNNING) then
      (switch_to s1 (current s1) nxt, Some (current s1))
    else (grant s1 nxt, None).
Proof.
  destruct (Z.leb_spec (running_count s) 0) as [|Hpos]; [by left|]. right. unfold sched_tick, tick_from, switch_to.
  change (running_count (set_ticks s ?n)) with (running_count s). rewrite (proj2 (Z.leb_gt _ _)) by lia.
  cbv zeta. destruct (_ <? 0); [done|]. destruct (_ =? _); [done|]. by destruct (_ && _).
Qed.

(** ** What a tick is to do *)

(** A sleeper whose deadline has come, and a task able to run once it is woken. *)
Definition due (now : Z) (t : Task) : Prop :=
  t_state t = TASK_BLOCKED /\ wake_deadline t <> 0 /\ wake_deadline t <= now.
Definition able (now : Z) (t : Task) : Prop := runnable (t_state t) = true \/ due now t.

#[export] Instance due_dec now t : Decision (due now t).
Proof. unfold due. apply _. Defined.

(** The task to run: able, of the highest priority an able task has, and the first such
    task after [from], counting round. *)
Definition chosen (s : PreSched) (now from nxt : Z) : Prop :=
  0 <= nxt < n_tasks s /\ able now (task s nxt) /\
  (forall i, 0 <= i < n_tasks s -> able now (task s i) -> t_priority (task s i) <= t_priority (task s nxt)) /\
  exists k, 1 <= k <= n_tasks s /\ nxt = (from + k) mod n_tasks s /\
    forall k', 1 <= k' < k -> let t := task s ((from + k') mod n_tasks s) in
      ~ (able now t /\ t_priority t = t_priority (task s nxt)).

(** Task [i] after a tick that gives the CPU to [nxt]. *)
Definition after_tick (s : PreSched) (now nxt i : Z) : Task :=
  let t := task s i in
  mkTask
    (if decide (i = nxt) then TASK_RUNNING else if decide (i = current s \/ due now t) then TASK_READY else t_state t)
    (t_priority t) (pending_wake t) (if decide (due now t) then 0 else wake_deadline t)
    (if decide (i = nxt /\ nxt <> current s) then gate t + 1 else gate t).

Lemma wake_sleeper_due now t : wake_sleeper now t =
  if decide (due now t) then mkTask TASK_READY (t_priority t) (pending_wake t) 0 (gate t) else t.
Proof.
  unfold wake_sleeper. case_decide as E.
  - destruct E as (E1 & E2 & E3). by rewrite (proj2 (Z.eqb_neq _ _)), (proj2 (Z.leb_le _ _)), bool_decide_eq_true_2.
  - destruct (_ && _) eqn:Eb; [|done]. exfalso. apply E.
    rewrite !andb_true_iff, negb_true_iff, Z.eqb_neq, Z.leb_le, bool_decide_eq_true in Eb. unfold due. tauto.
Qed.

Lemma wake_sleeper_able now t : runnable (t_state (wake_sleeper now t)) = true <-> able now t.
Proof.
  rewrite wake_sleeper_due. unfold able. case_decide; cbn; [by split; [right|]|]. split; [by left|]. by intros [|].
Qed.

Lemma wake_sleeper_prio now t : t_priority (wake_sleeper now t) = t_priority t.
Proof. rewrite wake_sleeper_due. by case_decide. Qed.

Lemma woken_n s now : n_tasks (wake_sleepers (set_ticks s now) now) = n_tasks s.
Proof. exact (wake_sleepers_n (set_ticks s now) now). Qed.

Lemma woken_task s now i : 0 <= i < n_tasks s -> task (wake_sleepers (set_ticks s now) now) i = wake_sleeper now (task s i).
Proof. exact (wake_sleepers_task (set_ticks s now) now i). Qed.

(** The search from the state in which sleepers have been woken finds the chosen task. *)
Lemma search_chosen s now from s1 : orderly s -> s1 = wake_sleepers (set_ticks s now) now ->
  0 <= from < n_tasks s ->
  let x := next_ready s1 from in
  (x = -1 /\ forall i, 0 <= i < n_tasks s -> ~ able now (task s i)) \/ (0 <= x < n_tasks s /\ chosen s now from x).
Proof.
  intros [Hp _ _] -> Hf. set (s1 := wake_sleepers _ _). intros x.
  assert (n_tasks s1 = n_tasks s) as En by (apply woken_n).
  assert (forall i, 0 <= i < n_tasks s -> task s1 i = wake_sleeper now (task s i)) as Et by (intros i Hi; by apply woken_task).
  assert (forall i, 0 <= i < n_tasks s -> runnable (state s1 i) = true <-> able now (task s i)) as Ha
    by (intros i Hi; unfold state; rewrite Et by done; apply wake_sleeper_able).
  assert (forall i, 0 <= i < n_tasks s -> t_priority (task s1 i) = t_priority (task s i)) as Hpr
    by (intros i Hi; rewrite Et by done; apply wake_sleeper_prio).
  destruct (next_ready_spec s1 from) as [[Ex Hno]|(Hx & [Hxp Hxr] & k & Hk & Ek & Hlow)]; rewrite ?En in *.
  - lia.
  - intros i Hi. rewrite Hpr by done. by apply Hp.
  - left. split; [done|]. intros i Hi Hi2%Ha; [|done]. by rewrite Hno in Hi2.
  - right. fold x in Hx, Hxp, Hxr, Ek. split; [done|]. split; [done|]. split; [by apply Ha|]. split.
    + intros i Hi Hi2%Ha; [|done]. rewrite <-!Hpr, Hxp by done. destruct (highest_spec s1) as (_ & H2 & _).
      apply H2; [by rewrite En|done].
    + exists k. split; [done|]. split; [done|]. intros k' Hk' t [Ht Htp]. apply (Hlow k' Hk').
      assert (0 <= (from + k') mod n_tasks s < n_tasks s) as Hr by (apply Z.mod_pos_bound; lia).
      split; [|by apply Ha]. rewrite Hpr, <-Hxp, Hpr by done. exact Htp.
Qed.

(** Every task after the switch. *)
Lemma tick_switch s now nxt s1 : orderly s -> s1 = wake_sleepers (set_ticks s now) now -> 0 <= nxt < n_tasks s ->
  let s' := if nxt =? current s then s1 else if 0 <=? current s then switch_to s1 (current s) nxt else grant s1 nxt in
  n_tasks s' = n_tasks s /\ current s' = nxt /\ ticks s' = now /\
  switches s' = (if nxt =? current s then switches s else u64 (switches s + 1)) /\
  forall i, 0 <= i < n_tasks s -> task s' i = after_tick s now nxt i.
Proof.
  intros [Hp Hc Hr] -> Hn. set (s1 := wake_sleepers _ _). intros s'.
  assert (n_tasks s1 = n_tasks s) as En by (apply woken_n).
  assert (forall i, 0 <= i < n_tasks s -> task s1 i = wake_sleeper now (task s i)) as Et by (intros i Hi; by apply woken_task).
  assert (forall i, 0 <= i < n_tasks s -> i = current s -> ~ due now (task s i) /\ t_state (task s i) = TASK_RUNNING) as Hcur.
  { intros i Hi Ei. apply Hr in Ei; [|done]. unfold state in Ei. split; [|done]. intros (E & _). congruence. }
  assert (forall i, 0 <= i < n_tasks s -> t_state (task s i) = TASK_RUNNING -> i = current s) as Hrun by (intros i Hi E; by apply Hr).
  subst s'. destruct (Z.eqb_spec nxt (current s)) as [Ex|Hne]; [|destruct (Z.leb_spec 0 (current s))].
  - split; [done|]. split; [done|]. split; [done|]. split; [done|]. intros i Hi. rewrite Et, wake_sleeper_due by done.
    unfold after_tick. rewrite (decide_False (P := i = nxt /\ nxt <> current s)) by tauto.
    destruct (decide (i = nxt)) as [Ei|Hi2].
    + destruct (Hcur i Hi ltac:(congruence)) as [Hd Hs]. rewrite !(decide_False (P := due _ _)) by done.
      rewrite <-Hs. by destruct (task s i).
    + destruct (decide (due now (task s i))) as [Hd|Hd]; [by rewrite decide_True by auto|].
      rewrite decide_False by (intros [|]; [congruence|done]). by destruct (task s i).
  - split; [by rewrite switch_n|]. split; [done|]. split; [done|]. split; [done|]. intros i Hi.
    rewrite switch_task, !Et by (rewrite ?En; done || lia). unfold after_tick. destruct (decide (i = nxt)) as [->|Hi2].
    + rewrite (decide_True (P := nxt = nxt /\ _)) by done. rewrite wake_sleeper_due. by case_decide.
    + rewrite (decide_False (P := i = nxt /\ _)) by tauto. destruct (decide (i = current s)) as [->|Hi3].
      * rewrite decide_True by auto. destruct (Hcur (current s) Hi eq_refl) as [Hd Hs].
        rewrite wake_sleeper_due, !(decide_False (P := due _ _)) by done. done.
      * rewrite wake_sleeper_due. destruct (decide (due now (task s i))) as [Hd|Hd]; [by rewrite decide_True by auto|].
        rewrite decide_False by (intros [|]; done). by destruct (task s i).
  - split; [by rewrite n_grant|]. split; [done|]. split; [done|]. split; [done|]. intros i Hi.
    rewrite grant_task, !Et by (rewrite ?En; done || lia). unfold after_tick. destruct (decide (i = nxt)) as [->|Hi2].
    + rewrite (decide_True (P := nxt = nxt /\ _)) by done. rewrite wake_sleeper_due. by case_decide.
    + rewrite (decide_False (P := i = nxt /\ _)) by tauto.
      rewrite wake_sleeper_due. destruct (decide (due now (task s i))) as [Hd|Hd]; [by rewrite decide_True by auto|].
      rewrite decide_False by (intros [|]; [lia|done]). by destruct (task s i).
Qed.

(** The round: the choice, then the switch. *)
Lemma tick_cases s : orderly s -> 0 < running_count s ->
  let now := u64 (ticks s + 1) in
  let s1 := wake_sleepers (set_ticks s now) now in
  let nxt := next_ready s1 (tick_from s) in
  (nxt = -1 /\ (forall i, 0 <= i < n_tasks s -> ~ able now (task s i)) /\ sched_tick s = (s1, None)) \/
  (0 <= nxt < n_tasks s /\ chosen s now (tick_from s) nxt /\
   sched_tick s = (if nxt =? current s then s1 else if 0 <=? current s then switch_to s1 (current s) nxt else grant s1 nxt,
     if (nxt =? current s) || (current s <? 0) then None else Some (current s))).
Proof.
  intros Ho Hrc now s1 nxt. destruct (sched_tick_unfold s) as [Hz|E]; [lia|]. cbv zeta in E. fold now s1 in E.
  change (tick_from s1) with (tick_from s) in E. change (current s1) with (current s) in E. fold nxt in E.
  pose proof (or_current _ Ho) as Hc.
  assert (nxt = -1 /\ (forall i, 0 <= i < n_tasks s -> ~ able now (task s i)) \/ (0 <= nxt < n_tasks s /\ chosen s now (tick_from s) nxt))
    as [[Ex Hno]|[Hx Hch]].
  { destruct (decide (n_tasks s = 0)) as [E0|Hne].
    - left. split; [|lia]. apply next_ready_none. unfold s1. by rewrite woken_n.
    - apply search_chosen; [done|done|]. unfold tick_from. pose proof (n_nonneg s). destruct (Z.ltb_spec (current s) 0); lia. }
  - left. split; [done|]. split; [done|]. rewrite E, Ex. done.
  - right. split; [done|]. split; [done|]. rewrite E, (proj2 (Z.ltb_ge nxt 0)) by lia.
    destruct (Z.eqb_spec nxt (current s)) as [|Hne]; cbn [orb]; [done|].
    destruct (Z.leb_spec 0 (current s)); cbn [andb]; [|by rewrite (proj2 (Z.ltb_lt _ _)) by lia].
    rewrite (proj2 (Z.ltb_ge _ _)), bool_decide_eq_true_2 by
      (lia || (unfold s1, state; rewrite woken_task by lia; pose proof (proj2 (or_running _ Ho (current s) ltac:(lia)) eq_refl) as Hs;
        unfold state in Hs; rewrite wake_sleeper_due, decide_False; [done|by intros (Hb & _); congruence])).
    done.
Qed.

Lemma after_tick_orderly s s' now nxt : orderly s -> n_tasks s' = n_tasks s -> 0 <= nxt < n_tasks s -> current s' = nxt ->
  (forall i, 0 <= i < n_tasks s -> task s' i = after_tick s now nxt i) -> orderly s'.
Proof.
  intros [Hp Hc Hr] En Hn Ec Ht. split.
  - intros i Hi. rewrite En in Hi. rewrite Ht by done. by apply Hp.
  - lia.
  - intros i Hi. rewrite En in Hi. rewrite Ec. unfold state. rewrite Ht by done. unfold after_tick. cbn [t_state].
    case_decide; [done|]. split; [|done]. case_decide as E; [done|]. intros Hs. apply Hr in Hs; [|done]. tauto.
Qed.

(** ** Turns *)

Definition ticked (s : PreSched) : PreSched := (sched_tick s).1.

Lemma mod_diff_pos a b n : 0 <= a < n -> 0 <= b < n -> a <> b -> 1 <= (a - b) mod n.
Proof.
  intros Ha Hb Hne. pose proof (Z.mod_pos_bound (a - b) n ltac:(lia)).
  destruct (decide ((a - b) mod n = 0)) as [E|]; [|lia]. exfalso. destruct (Z.ltb_spec a b).
  - rewrite <-(Z.mod_add _ 1), Z.mod_small in E by lia. lia.
  - rewrite Z.mod_small in E by lia. lia.
Qed.

(** The chosen task is on the way to [j], or [j] itself. *)
Lemma chosen_towards s now from x j : prio_ok s -> chosen s now from x -> 0 <= from < n_tasks s -> 0 <= j < n_tasks s ->
  able now (task s j) -> (forall i, 0 <= i < n_tasks s -> t_priority (task s i) <= t_priority (task s j)) ->
  (j - x) mod n_tasks s < (if decide (j = from) then n_tasks s else (j - from) mod n_tasks s).
Proof.
  intros Hp (Hx & _ & Hmax & k & Hk & Ex & Hlow) Hf Hj Ha Htop. set (n := n_tasks s) in *.
  set (kj := if decide (j = from) then n else (j - from) mod n).
  pose proof (Z.mod_pos_bound (j - from) n ltac:(lia)).
  assert (1 <= kj <= n) as Hkj by (subst kj; case_decide as Ejf; [lia|]; split; [by apply mod_diff_pos|lia]).
  assert ((from + kj) mod n = j) as Ej.
  { subst kj. case_decide.
    - subst from. rewrite <-(Z.mul_1_l n) at 1. rewrite Z.mod_add by lia. by apply Z.mod_small.
    - rewrite Zplus_mod_idemp_r. replace (from + (j - from)) with j by lia. by apply Z.mod_small. }
  assert (k <= kj) as Hle.
  { apply Z.nlt_ge. intros Hlt. apply (Hlow kj); [lia|]. rewrite Ej. split; [done|].
    specialize (Hmax j Hj Ha). specialize (Htop x Hx). lia. }
  assert ((j - x) mod n = kj - k) as ->; [|lia].
  rewrite Ex, <-Ej, <-Zminus_mod. replace (from + kj - (from + k)) with (kj - k) by lia. apply Z.mod_small. lia.
Qed.

(** One tick brings the turn nearer. *)
Lemma tick_nearer s j : orderly s -> 0 < running_count s -> 0 <= j < n_tasks s -> runnable (state s j) = true ->
  (forall i, 0 <= i < n_tasks s -> t_priority (task s i) <= t_priority (task s j)) ->
  let s' := ticked s in
  orderly s' /\ running_count s' = running_count s /\ n_tasks s' = n_tasks s /\ runnable (state s' j) = true /\
  (forall i, 0 <= i < n_tasks s -> t_priority (task s' i) = t_priority (task s i)) /\ 0 <= current s' /\
  (j - current s') mod n_tasks s < (if decide (j = tick_from s) then n_tasks s else (j - tick_from s) mod n_tasks s).
Proof.
  intros Ho Hrc Hj Hr Htop s'. pose proof (or_current _ Ho).
  assert (0 <= tick_from s < n_tasks s) as Hf by (unfold tick_from; destruct (Z.ltb_spec (current s) 0); lia).
  assert (able (u64 (ticks s + 1)) (task s j)) as Ha by (by left).
  destruct (tick_cases s Ho Hrc) as [(_ & Hno & _)|(Hx & Hch & E)]; [by destruct (Hno j)|].
  subst s'. unfold ticked. rewrite E. cbn [fst]. set (nxt := next_ready _ _) in *.
  destruct (tick_switch s (u64 (ticks s + 1)) nxt _ Ho eq_refl Hx) as (En & Ec & _ & _ & Ht). cbv zeta in En, Ec, Ht.
  assert (forall s1, running_count s1 = running_count s -> running_count
    (if nxt =? current s then s1 else if 0 <=? current s then switch_to s1 (current s) nxt else grant s1 nxt) = running_count s) as Erc
    by (intros s1 E1; by repeat case_match).
  set (s' := if nxt =? current s then _ else _) in *.
  split; [by eapply after_tick_orderly|]. split; [by apply Erc|]. split; [done|]. split.
  - unfold state in *. rewrite Ht by done. unfold after_tick. cbn [t_state]. by repeat case_decide.
  - split; [intros i Hi; by rewrite Ht|]. rewrite Ec. split; [lia|]. by eapply chosen_towards; [apply Ho|..].
Qed.

Lemma turn_comes d : forall s j, orderly s -> 0 < running_count s -> 0 <= j < n_tasks s -> runnable (state s j) = true ->
  (forall i, 0 <= i < n_tasks s -> t_priority (task s i) <= t_priority (task s j)) ->
  (if decide (j = tick_from s) then n_tasks s else (j - tick_from s) mod n_tasks s) <= Z.of_nat d ->
  exists k, (1 <= k <= d)%nat /\ current (Nat.iter k ticked s) = j.
Proof.
  induction d as [|d IH]; intros s j Ho Hrc Hj Hr Htop Hd;
    destruct (tick_nearer s j Ho Hrc Hj Hr Htop) as (Ho' & Erc & En & Hr' & Hp' & Hc & Hlt).
  { pose proof (Z.mod_pos_bound (j - current (ticked s)) (n_tasks s) ltac:(lia)). lia. }
  destruct (decide (current (ticked s) = j)) as [Ej|Hne]; [exists 1%nat; split; [lia|done]|].
  pose proof (or_current _ Ho') as Hc'.
  destruct (IH (ticked s) j) as (k & Hk & Ek); rewrite ?Erc, ?En; try done.
  - intros i Hi. rewrite !Hp' by done. by apply Htop.
  - assert (tick_from (ticked s) = current (ticked s)) as -> by (unfold tick_from; destruct (Z.ltb_spec (current (ticked s)) 0); lia).
    rewrite decide_False by congruence. lia.
  - exists (S k). split; [lia|]. by rewrite Nat.iter_succ_r.
Qed.

(** ** Where a run starts *)

Definition setup (us : Z) (prios : list Z) : PreSched :=
  fold_left (fun s pr => (presched_add_task_prio s 1 pr true true).2) prios (presched_create us).

(** Before the start every task is ready. *)
Definition waiting (s : PreSched) : Prop :=
  prio_ok s /\ current s = -1 /\ forall i, 0 <= i < n_tasks s -> state s i = TASK_READY.

Lemma add_waiting s pr : waiting s -> waiting (presched_add_task_prio s 1 pr true true).2.
Proof.
  intros (Hp & Hc & Hr). unfold presched_add_task_prio. cbn [Z.eqb Pos.eqb]. destruct (_ <=? _); [done|].
  rewrite andb_false_r. set (pr' := if PRESCHED_PRIO_MAX <? _ then _ else _). set (t := mkTask TASK_READY pr' 0 0 0).
  set (s0 := if running s then _ else s). assert (tasks s0 = tasks s) as E0 by (subst s0; by destruct (running s)). cbn [negb fst snd].
  set (s' := mkPreSched _ _ _ _ _ _ _ _).
  assert (forall i, 0 <= i < n_tasks s' -> (0 <= i < n_tasks s /\ task s' i = task s i) \/ task s' i = t) as H.
  { intros i Hi. subst s'. unfold task, n_tasks in *. cbn [tasks] in *. rewrite E0 in *. rewrite length_app in Hi. cbn in Hi.
    destruct (decide (i < Z.of_nat (length (tasks s)))) as [Hlt|].
    - left. split; [lia|]. by rewrite app_nth1 by lia.
    - right. assert (Z.to_nat i = length (tasks s)) as -> by lia. apply nth_middle. }
  split; [|split].
  - intros i Hi. destruct (H i Hi) as [[Hi' ->]| ->]; [by apply Hp|]. cbn. subst pr'. clear.
    unfold PRESCHED_PRIO_MAX, PRESCHED_PRIO_LEVELS, PRESCHED_PRIO_MIN.
    destruct (Z.ltb_spec pr 0) as [H1|H1]; match goal with |- context [?a <? ?b] => destruct (Z.ltb_spec a b) end; lia.
  - subst s0. by destruct (running s).
  - intros i Hi. unfold state. destruct (H i Hi) as [[Hi' ->]| ->]; [by apply Hr|done].
Qed.

Lemma setup_waiting us prios : waiting (setup us prios).
Proof.
  unfold setup. assert (waiting (presched_create us)) as H by (split; [intros i Hi; unfold n_tasks in Hi; cbn in Hi; lia|split; [done|intros i Hi; unfold n_tasks in Hi; cbn in Hi; lia]]).
  revert H. generalize (presched_create us). induction prios as [|pr prios IH]; intros s H; [done|]. cbn. by apply IH, add_waiting.
Qed.

(** The state [presched_run] leaves is one a tick may find. *)
Lemma start_orderly us prios : orderly (presched_start (setup us prios)).
Proof.
  destruct (setup_waiting us prios) as (Hp & Hc & Hr). set (s := setup us prios) in *. pose proof (n_nonneg s) as Hn.
  assert (orderly s) as Ho by (split; [done|lia|]; intros i Hi; rewrite Hr, Hc by done; split; [done|lia]).
  unfold presched_start. destruct (Z.eqb_spec (n_tasks s) 0) as [|Hne]; [done|].
  set (s1 := set_flags _ _ _).
  destruct (next_ready_spec s1 0) as [[Ex _]|(Hx & _)]; [change (n_tasks s1) with (n_tasks s); lia|intros i Hi; by apply Hp|..].
  { rewrite Ex. by destruct Ho. }
  change (n_tasks s1) with (n_tasks s) in Hx. rewrite (proj2 (Z.leb_le 0 _)) by lia. set (x := next_ready s1 0) in *.
  assert (forall i, 0 <= i -> task (post_gate (set_state (set_current s1 x) x TASK_RUNNING) x) i =
    if decide (i = x) then with_gate (with_state (task s x) TASK_RUNNING) (gate (task s x) + 1) else task s i) as Ht.
  { intros i Hi. unfold post_gate, set_state. rewrite task_put by (rewrite ?n_put; done). rewrite !task_put by (done || lia).
    rewrite (decide_True (P := x = x)) by done. by case_decide. }
  assert (n_tasks (post_gate (set_state (set_current s1 x) x TASK_RUNNING) x) = n_tasks s) as En
    by (unfold post_gate, set_state; by rewrite !n_put).
  split; rewrite ?En.
  - intros i Hi. rewrite En in Hi. rewrite Ht by lia. case_decide; [subst i|]; by apply Hp.
  - cbn. lia.
  - intros i Hi. cbn [current post_gate put_task set_state set_current]. unfold state. rewrite Ht by lia.
    case_decide; [by split|]. unfold state in Hr. rewrite Hr by done. by split.
Qed.

(** ** Properties *)

(** C26. What a round of the scheduler thread does, when no call runs within it.  The
    tick count goes up by one; the tasks able to run are those ready or running and the
    sleepers whose deadline has come.  If there is one, the CPU goes to one of the
    highest priority any of them has, the first such task in turn after the one that has
    it; that task is running, and unless it had the CPU already its gate has one more
    token and the switch is counted; the task that had it is ready and is the one sent
    the park signal; sleepers that are due are ready with their deadline cleared; nothing
    else of any task changes.  If there is none, no task changes.  What is asked of the
    state is that [current] is -1 or the one running task, which the start of a run
    establishes and the round keeps. *)
Theorem sched_tick_correct s : orderly s -> 0 < running_count s ->
  let now := u64 (ticks s + 1) in
  let '(s', parked) := sched_tick s in
  orderly s' /\ ticks s' = now /\ n_tasks s' = n_tasks s /\
  ((exists nxt, chosen s now (if current s <? 0 then 0 else current s) nxt /\ current s' = nxt /\
      (forall i, 0 <= i < n_tasks s -> task s' i = after_tick s now nxt i) /\
      switches s' = (if nxt =? current s then switches s else u64 (switches s + 1)) /\
      parked = (if (nxt =? current s) || (current s <? 0) then None else Some (current s))) \/
   ((forall i, 0 <= i < n_tasks s -> ~ able now (task s i) /\ task s' i = task s i) /\
    current s' = current s /\ switches s' = switches s /\ parked = None)).
Proof.
  intros Ho Hrc now. destruct (tick_cases s Ho Hrc) as [(_ & Hno & ->)|(Hx & Hch & ->)].
  - fold now in Hno |- *.
    assert (forall i, 0 <= i < n_tasks s -> task (wake_sleepers (set_ticks s now) now) i = task s i) as Ht.
    { intros i Hi. rewrite woken_task, wake_sleeper_due, decide_False by (done || (intros Hd; apply (Hno i Hi); by right)). done. }
    split; [|split; [done|split; [apply woken_n|right]]].
    + destruct Ho as [Hp Hc Hr]. split; rewrite ?woken_n; [|done|].
      * intros i Hi. rewrite woken_n in Hi. rewrite Ht by done. by apply Hp.
      * intros i Hi. unfold state. rewrite Ht by done. by apply Hr.
    + split; [|done]. intros i Hi. split; [by apply Hno|by apply Ht].
  - fold now in Hx, Hch |- *. set (nxt := next_ready _ _) in *.
    destruct (tick_switch s now nxt _ Ho eq_refl Hx) as (En & Ec & Etk & Esw & Ht). cbv zeta in *.
    set (s' := if nxt =? current s then _ else _) in *.
    split; [by eapply after_tick_orderly|]. split; [done|]. split; [done|]. left. by exists nxt.
Qed.

(** C35. Turns within a level.  From any state a tick may find, if only ticks follow (the
    tasks compute and make no calls), every task that can run and has the highest
    priority of all gets the CPU within as many ticks as there are tasks. *)
Theorem presched_rotation s j : orderly s -> 0 < running_count s -> 0 <= j < n_tasks s -> runnable (state s j) = true ->
  (forall i, 0 <= i < n_tasks s -> t_priority (task s i) <= t_priority (task s j)) ->
  exists k, 1 <= Z.of_nat k <= n_tasks s /\ current (Nat.iter k (fun s => (sched_tick s).1) s) = j.
Proof.
  intros Ho Hrc Hj Hr Htop. destruct (turn_comes (length (tasks s)) s j Ho Hrc Hj Hr Htop) as (k & Hk & E).
  - unfold n_tasks in *. case_decide; [lia|]. pose proof (Z.mod_pos_bound (j - tick_from s) (Z.of_nat (length (tasks s)))). lia.
  - exists k. unfold n_tasks. split; [lia|done].
Qed.

(** A wake of a task that is not blocked is kept for its next block, which then
    returns at once; a wake of a blocked task makes it ready. *)
Lemma wake_is_sticky s j : 0 <= j < n_tasks s ->
  (state s j <> TASK_BLOCKED -> (presched_block (presched_wake s j) j).2 = false) /\
  (state s j = TASK_BLOCKED -> state (presched_wake s j) j = TASK_READY).
Proof.
  intros Hj. unfold presched_wake. rewrite (proj2 (Z.ltb_ge j 0)), (proj2 (Z.leb_gt (n_tasks s) j)) by lia. cbn [orb]. split.
  - intros Hs. rewrite bool_decide_eq_false_2 by done. unfold presched_block, take_pending, set_pending.
    rewrite task_put, decide_True by (done || lia). done.
  - intros Hs. rewrite bool_decide_eq_true_2 by done. unfold state, set_deadline, set_state.
    by rewrite !task_put, !decide_True by (rewrite ?n_put; done || lia).
Qed.

(** ** Witnesses *)

Definition demo_sched : PreSched := presched_start (setup 1000 [4; 4; 4; 2]).

Lemma sched_tick_correct_witness : 0 < running_count demo_sched /\ orderly (sched_tick demo_sched).1 /\
  exists nxt, chosen demo_sched 1 1 nxt /\ current (sched_tick demo_sched).1 = nxt /\ nxt = 2.
Proof.
  split; [reflexivity|].
  pose proof (sched_tick_correct demo_sched (start_orderly 1000 [4; 4; 4; 2]) eq_refl) as H.
  assert (current (sched_tick demo_sched).1 = 2) as E2 by reflexivity. revert H E2.
  destruct (sched_tick demo_sched) as [s' parked]. intros (Ho & _ & _ & [(nxt & Hch & Hc & _)|[Hno _]]) E2.
  - split; [exact Ho|]. exists nxt. split; [exact Hch|]. split; [exact Hc|]. cbn in E2. congruence.
  - destruct (Hno 0) as [H0 _]; [split; vm_compute; congruence|]. exfalso. apply H0. left. reflexivity.
Defined.

Lemma presched_rotation_witness : exists k, 1 <= Z.of_nat k <= 4 /\
  current (Nat.iter k (fun s => (sched_tick s).1) demo_sched) = 0.
Proof.
  apply (presched_rotation demo_sched 0 (start_orderly 1000 [4; 4; 4; 2])); [reflexivity|split; vm_compute; congruence|reflexivity|].
  intros i Hi. change (n_tasks demo_sched) with 4 in Hi.
  assert (i = 0 \/ i = 1 \/ i = 2 \/ i = 3) as [->|[->|[->| ->]]] by lia; vm_compute; congruence.
Defined.

(** ** Between the pieces of a call *)

(** A wake is lost when it falls between the test of [presched_block] and its store
    of [BLOCKED]: task 1 finds no wake, a tick gives the CPU to task 0, task 0 wakes it,
    a tick gives the CPU back, and task 1 parks with the wake pending. *)
Example lost_wakeup :
  let s := presched_start (setup 1000 [4; 4]) in
  let '(taken, s) := take_pending s 1 in
  let s := presched_wake (ticked s) 1 in
  let s := park (ticked s) 1 in
  (taken, state s 1, pending_wake (task s 1), current s) = (false, TASK_BLOCKED, 1, 0).
Proof. by vm_compute. Qed.

(** The CPU is granted twice when a tick falls between the store of [BLOCKED] and the
    hand-off: the gate of task 0 has two tokens. *)
Example double_grant :
  let s := presched_start (setup 1000 [4; 4]) in
  let s := ticked (set_state s 1 TASK_BLOCKED) in
  let s := hand_off_from s 1 in
  (current s, gate (task s 0)) = (0, 2).
Proof. by vm_compute. Qed.
