(* ===== verification/FastDiv.v ===== *)
(** Division by a prepared divisor ([src/math/fast_div.c], with the leading-zero
    count of [include/math/bits.h]): a reciprocal is computed once and each
    division is then a multiplication and a shift.

    The arithmetic that makes it exact is proved once for a word of [W] bits in
    the section [Reciprocal]; the 32-bit and the 64-bit code, whose divisors are
    prepared in different ways, both instantiate it.  Signed code negates its
    operands as [int32_t] or [int64_t]; a negation that overflows has no defined
    result in C and is [None]. *)
From S2P Require Import Prelude SlabStack.

(** ** The code *)

Definition FDIV_FLAG_POW2 : Z := 0x01.
Definition FDIV_FLAG_ADD : Z := 0x02.
Definition FDIV_FLAG_NEG : Z := 0x04.

(** [div_u32_t], [div_s32_t], [div_u64_t] and [div_s64_t]: the same fields at
    their widths. *)
Record divisor := mkDivisor { dv_d : Z; dv_magic : Z; dv_shift : Z; dv_flags : Z }.

(** [fdiv_u32_result_t] and its three sisters. *)
Record qr := mkQr { quot : Z; rem : Z }.

(** [if (d->flags & mask)]. *)
Definition has_flag (flags mask : Z) : bool := negb (Z.land flags mask =? 0).

(** The loop-free software count; the count instruction computes the same. *)
Definition bits_clz32 (x : Z) : Z := if x =? 0 then 32 else sw_clz32 x.

Definition bits_clz64 (x : Z) : Z :=
  if x =? 0 then 64 else
  if Z.shiftr x 32 =? 0 then 32 + bits_clz32 (u32 x) else bits_clz32 (u32 (Z.shiftr x 32)).

Definition mulhi_u32 (a b : Z) : Z := u32 (Z.shiftr (u64 (a * b)) 32).

Definition mulhi_u64 (a b : Z) : Z :=
  let a_lo := Z.land a 0xFFFFFFFF in
  let a_hi := Z.shiftr a 32 in
  let b_lo := Z.land b 0xFFFFFFFF in
  let b_hi := Z.shiftr b 32 in
  let lo_lo := u64 (a_lo * b_lo) in
  let hi_lo := u64 (a_hi * b_lo) in
  let lo_hi := u64 (a_lo * b_hi) in
  let hi_hi := u64 (a_hi * b_hi) in
  let mid := u64 (u64 (Z.shiftr lo_lo 32 + Z.land hi_lo 0xFFFFFFFF) + Z.land lo_hi 0xFFFFFFFF) in
  u64 (u64 (u64 (hi_hi + Z.shiftr hi_lo 32) + Z.shiftr lo_hi 32) + Z.shiftr mid 32).

(** *** Unsigned, 32 bits *)

Definition fdiv_u32_prepare (d : Z) : divisor :=
  if Z.land d (u32 (d - 1)) =? 0 then
    mkDivisor d 0 (u8 (31 - bits_clz32 d)) FDIV_FLAG_POW2
  else
    let L := u8 (32 - bits_clz32 (u32 (d - 1))) in
    if L <? 32 then
      let num := u64 (Z.shiftl 1 (32 + L)) in
      let m := u64 (u64 (num + d) - 1) / d in
      if m <? 0x100000000 then mkDivisor d (u32 m) L 0
      else mkDivisor d (u32 (u64 (m - 0x100000000))) L FDIV_FLAG_ADD
    else
      let q := not64 0 / d in
      let r := u64 (not64 0 - u64 (q * d)) in
      let q := if u64 (r + 1) =? d then u64 (q + 1) else u64 (q + 1) in
      mkDivisor d (u32 (u64 (q - 0x100000000))) 32 FDIV_FLAG_ADD.

Definition fdiv_u32 (n : Z) (d : divisor) : Z :=
  if has_flag (dv_flags d) FDIV_FLAG_POW2 then Z.shiftr n (dv_shift d) else
  let t := mulhi_u32 n (dv_magic d) in
  if has_flag (dv_flags d) FDIV_FLAG_ADD then
    Z.shiftr (u32 (Z.shiftr (u32 (n - t)) 1 + t)) (dv_shift d - 1)
  else Z.shiftr t (dv_shift d).

Definition fdiv_u32_qr (n : Z) (d : divisor) : qr :=
  let q := fdiv_u32 n d in mkQr q (u32 (n - u32 (q * dv_d d))).

(** *** Unsigned, 64 bits *)

(** The body of the loop of [fdiv_u64_prepare] at position [bit], on
    [(q_hi, q_lo, rem)]. *)
Definition long_div_step (d L bit : Z) (st : Z * Z * Z) : Z * Z * Z :=
  let '(q_hi, q_lo, rem) := st in
  let bit_in := if bit =? 64 + L then 1 else 0 in
  let carry_out := Z.land (Z.shiftr rem 63) 1 in
  let rem := Z.lor (u64 (Z.shiftl rem 1)) bit_in in
  let '(rem_ge_d, rem) :=
    if negb (carry_out =? 0) then (1, u64 (rem - d))
    else if d <=? rem then (1, u64 (rem - d)) else (0, rem) in
  let q_hi := Z.lor (u64 (Z.shiftl q_hi 1)) (Z.shiftr q_lo 63) in
  let q_lo := Z.lor (u64 (Z.shiftl q_lo 1)) rem_ge_d in
  (q_hi, q_lo, rem).

(** [for (bit = bits - 1; bit >= 0; bit--)]. *)
Fixpoint long_div (d L : Z) (bits : nat) (st : Z * Z * Z) : Z * Z * Z :=
  match bits with
  | O => st
  | S bit => long_div d L bit (long_div_step d L (Z.of_nat bit) st)
  end.

Definition fdiv_u64_prepare (d : Z) : divisor :=
  if Z.land d (u64 (d - 1)) =? 0 then
    mkDivisor d 0 (u8 (63 - bits_clz64 d)) FDIV_FLAG_POW2
  else
    let L := u8 (64 - bits_clz64 (u64 (d - 1))) in
    let '(q_hi, q_lo, _) := long_div d L (Z.to_nat (64 + L + 1)) (0, 0, 0) in
    let '(q_hi, q_lo) :=
      if q_lo =? not64 0 then (u64 (q_hi + 1), 0) else (q_hi, u64 (q_lo + 1)) in
    if q_hi =? 0 then mkDivisor d q_lo L 0 else mkDivisor d q_lo L FDIV_FLAG_ADD.

Definition fdiv_u64 (n : Z) (d : divisor) : Z :=
  if has_flag (dv_flags d) FDIV_FLAG_POW2 then Z.shiftr n (dv_shift d) else
  let t := mulhi_u64 n (dv_magic d) in
  if has_flag (dv_flags d) FDIV_FLAG_ADD then
    Z.shiftr (u64 (Z.shiftr (u64 (n - t)) 1 + t)) (dv_shift d - 1)
  else Z.shiftr t (dv_shift d).

Definition fdiv_u64_qr (n : Z) (d : divisor) : qr :=
  let q := fdiv_u64 n d in mkQr q (u64 (n - u64 (q * dv_d d))).

(** *** Signed *)

(** A result of signed arithmetic on [w] bits: undefined when it does not fit. *)
Definition fits (w z : Z) : option Z :=
  if (- 2 ^ (w - 1) <=? z) && (z <? 2 ^ (w - 1)) then Some z else None.

(** [(intN_t)z] for an unsigned [z]. *)
Definition to_signed (w z : Z) : Z := if z <? 2 ^ (w - 1) then z else z - 2 ^ w.

(** [(n < 0) ? (uintN_t)(-n) : (uintN_t)n]. *)
Definition magnitude (w n : Z) : option Z :=
  if n <? 0 then z ← fits w (- n); Some (z mod 2 ^ w) else Some n.

(** The flags copied from the unsigned preparation, after [FDIV_FLAG_NEG]. *)
Definition signed_flags (d uflags : Z) : Z :=
  let flags := if d <? 0 then FDIV_FLAG_NEG else 0 in
  let flags := if has_flag uflags FDIV_FLAG_POW2 then Z.lor flags FDIV_FLAG_POW2 else flags in
  if has_flag uflags FDIV_FLAG_ADD then Z.lor flags FDIV_FLAG_ADD else flags.

(** [if (n_neg ^ d_neg) return -(intN_t)q_abs; return (intN_t)q_abs;]. *)
Definition apply_sign (w n flags q_abs : Z) : option Z :=
  if xorb (n <? 0) (has_flag flags FDIV_FLAG_NEG) then fits w (- to_signed w q_abs)
  else Some (to_signed w q_abs).

Definition fdiv_s32_prepare (d : Z) : option divisor :=
  abs_d ← magnitude 32 d;
  let u := fdiv_u32_prepare abs_d in
  Some (mkDivisor d (dv_magic u) (dv_shift u) (signed_flags d (dv_flags u))).

Definition fdiv_s32 (n : Z) (d : divisor) : option Z :=
  abs_n ← magnitude 32 n;
  let q_abs :=
    if has_flag (dv_flags d) FDIV_FLAG_POW2 then Z.shiftr abs_n (dv_shift d) else
    let t := mulhi_u32 abs_n (dv_magic d) in
    if has_flag (dv_flags d) FDIV_FLAG_ADD then
      Z.shiftr (u32 (Z.shiftr (u32 (abs_n - t)) 1 + t)) (dv_shift d - 1)
    else Z.shiftr t (dv_shift d) in
  apply_sign 32 n (dv_flags d) q_abs.

Definition fdiv_s32_qr (n : Z) (d : divisor) : option qr :=
  q ← fdiv_s32 n d;
  p ← fits 32 (q * dv_d d);
  r ← fits 32 (n - p);
  Some (mkQr q r).

Definition fdiv_s64_prepare (d : Z) : option divisor :=
  abs_d ← magnitude 64 d;
  let u := fdiv_u64_prepare abs_d in
  Some (mkDivisor d (dv_magic u) (dv_shift u) (signed_flags d (dv_flags u))).

Definition fdiv_s64 (n : Z) (d : divisor) : option Z :=
  abs_n ← magnitude 64 n;
  let q_abs :=
    if has_flag (dv_flags d) FDIV_FLAG_POW2 then Z.shiftr abs_n (dv_shift d) else
    let t := mulhi_u64 abs_n (dv_magic d) in
    if has_flag (dv_flags d) FDIV_FLAG_ADD then
      Z.shiftr (u64 (Z.shiftr (u64 (abs_n - t)) 1 + t)) (dv_shift d - 1)
    else Z.shiftr t (dv_shift d) in
  apply_sign 64 n (dv_flags d) q_abs.

Definition fdiv_s64_qr (n : Z) (d : divisor) : option qr :=
  q ← fdiv_s64 n d;
  p ← fits 64 (q * dv_d d);
  r ← fits 64 (n - p);
  Some (mkQr q r).

Example fdiv_demo :
  fdiv_u32_qr 4294967295 (fdiv_u32_prepare 7) = mkQr 613566756 3 /\
  fdiv_u64_qr 18446744073709551615 (fdiv_u64_prepare 10) = mkQr 1844674407370955161 5 /\
  (d ← fdiv_s32_prepare (-2); fdiv_s32_qr 7 d) = Some (mkQr (-3) 1) /\
  (d ← fdiv_s64_prepare 2; fdiv_s64_qr (-7) d) = Some (mkQr (-3) (-1)).
Proof. by vm_compute. Qed.

(** ** Exactness of the reciprocal *)

Section Reciprocal.
(** A divisor that is not a power of two, [L] its number of bits, and the
    reciprocal of [W + L] bits rounded up. *)
Context (W L d m : Z).
Context (HW : 0 < W) (HL : 1 <= L <= W) (Hlo : 2 ^ (L - 1) < d) (Hhi : d < 2 ^ L).
Context (Hm : m = 2 ^ (W + L) / d + 1).

Lemma pow_WL : 2 ^ (W + L) = 2 ^ W * 2 ^ L.
Proof using HW HL. apply Z.pow_add_r; lia. Qed.

Lemma pow_L : 2 ^ L = 2 * 2 ^ (L - 1).
Proof using HL. rewrite <-Z.pow_succ_r by lia. f_equal. lia. Qed.

(** The reciprocal is one word and one bit long: the add path is always taken. *)
Lemma recip_range : 2 ^ W < m < 2 * 2 ^ W.
Proof using All.
  assert (0 < 2 ^ W) by (apply Z.pow_pos_nonneg; lia).
  assert (0 < 2 ^ (L - 1)) by (apply Z.pow_pos_nonneg; lia).
  assert (2 ^ (L - 1) <= 2 ^ W) by (apply Z.pow_le_mono_r; lia).
  pose proof pow_L as HpL. pose proof pow_WL as HpWL.
  pose proof (Z.div_mod (2 ^ (W + L)) d ltac:(lia)).
  pose proof (Z.mod_pos_bound (2 ^ (W + L)) d ltac:(lia)).
  set (q := 2 ^ (W + L) / d) in *. split.
  - enough (2 ^ W <= q) by lia. apply Z.div_le_lower_bound; nia.
  - enough (q < 2 * 2 ^ W - 1) by lia. subst q. apply Z.div_lt_upper_bound; nia.
Qed.

Lemma recip_exact n : 0 <= n < 2 ^ W -> n * m / 2 ^ (W + L) = n / d.
Proof using All.
  intros Hn.
  assert (0 < 2 ^ (L - 1)) by (apply Z.pow_pos_nonneg; lia).
  pose proof pow_L as HpL. pose proof pow_WL as HpWL.
  pose proof (Z.div_mod (2 ^ (W + L)) d ltac:(lia)) as Hdm.
  pose proof (Z.mod_pos_bound (2 ^ (W + L)) d ltac:(lia)) as Hr.
  assert (m * d = 2 ^ (W + L) + (d - 2 ^ (W + L) mod d)) as Hmd by (rewrite Hm; lia).
  set (e := d - 2 ^ (W + L) mod d) in *. set (P := 2 ^ (W + L)) in *.
  assert (0 < e <= d) by lia.
  pose proof (Z.div_mod n d ltac:(lia)) as Hnd. pose proof (Z.mod_pos_bound n d ltac:(lia)) as Hnr.
  set (q := n / d) in *. set (r := n mod d) in *.
  symmetry. apply (Z.div_unique_pos _ _ _ (q * e + r * m)); [|nia].
  assert (0 <= q) by (apply Z.div_pos; lia). assert (0 < m) by nia.
  split; [nia|]. apply (Z.mul_lt_mono_pos_r d); [lia|].
  replace ((q * e + r * m) * d) with (n * e + r * P) by nia.
  assert (n * e < 2 ^ W * 2 ^ L) by nia. nia.
Qed.

(** The sum of the dividend and the high half, shifted without the carry bit. *)
Lemma add_path n : 0 <= n < 2 ^ W ->
  let t := n * (m - 2 ^ W) / 2 ^ W in
  0 <= t <= n /\ ((n - t) / 2 + t) / 2 ^ (L - 1) = n / d.
Proof using All.
  intros Hn t. pose proof recip_range.
  assert (0 < 2 ^ W) by lia. assert (0 < 2 ^ (L - 1)) by (apply Z.pow_pos_nonneg; lia).
  assert (0 <= t <= n) as Ht.
  { split; [apply Z.div_pos; nia|]. subst t.
    transitivity (n * 2 ^ W / 2 ^ W); [apply Z.div_le_mono; nia | by rewrite Z.div_mul by lia]. }
  split; [done|].
  replace ((n - t) / 2 + t) with ((n + t) / 2).
  2: { replace (n + t) with ((n - t) + t * 2) by lia. by rewrite Z.div_add by lia. }
  assert (n * m / 2 ^ W = n + t) as Hnt.
  { replace (n * m) with (n * (m - 2 ^ W) + n * 2 ^ W) by lia. rewrite Z.div_add by lia. subst t. lia. }
  rewrite <-(recip_exact n Hn), pow_WL, Z.div_div, <-pow_L by lia.
  by rewrite <-(Z.div_div (n * m)), Hnt by lia.
Qed.
End Reciprocal.

(** ** Powers of two and leading zeros *)

Lemma land_pred_zero d : 0 < d -> (Z.land d (d - 1) = 0 <-> d = 2 ^ Z.log2 d).
Proof.
  intros Hd. pose proof (Z.log2_spec d Hd) as [Hl Hu]. pose proof (Z.log2_nonneg d). split.
  - intros Hz. destruct (decide (d = 2 ^ Z.log2 d)) as [|Hne]; [done|]. exfalso.
    assert (Z.log2 (d - 1) = Z.log2 d) as Hlog by (apply Z.log2_unique; lia).
    assert (Z.testbit (Z.land d (d - 1)) (Z.log2 d) = true) as Hb.
    { rewrite Z.land_spec, Z.bit_log2 by lia. rewrite <-Hlog. by rewrite Z.bit_log2 by lia. }
    rewrite Hz, Z.bits_0 in Hb. done.
  - intros E. rewrite E at 1. replace (d - 1) with (2 ^ Z.log2 d - 1) by lia.
    rewrite land_pow2_ones by done. apply Z.mod_same. lia.
Qed.

Lemma bits_clz32_spec x : 0 < x < 2 ^ 32 -> bits_clz32 x = 31 - Z.log2 x.
Proof.
  intros Hx. unfold bits_clz32. destruct (Z.eqb_spec x 0); [lia|]. apply sw_clz32_spec. lia.
Qed.

Lemma bits_clz64_spec x : 0 < x < 2 ^ 64 -> bits_clz64 x = 63 - Z.log2 x.
Proof.
  intros Hx. unfold bits_clz64. destruct (Z.eqb_spec x 0); [lia|].
  rewrite Z.shiftr_div_pow2 by lia. destruct (Z.eqb_spec (x / 2 ^ 32) 0) as [Hz|Hnz].
  - rewrite u32_small by zlia. rewrite bits_clz32_spec by zlia. lia.
  - rewrite u32_small by zlia. rewrite bits_clz32_spec by zlia.
    rewrite <-Z.shiftr_div_pow2, Z.log2_shiftr by lia.
    assert (32 <= Z.log2 x) by (apply Z.log2_le_pow2; zlia). lia.
Qed.

(** The bits of a divisor that is not a power of two. *)
Lemma ceil_log2 d : 0 < d -> d <> 2 ^ Z.log2 d ->
  let L := Z.log2 (d - 1) + 1 in 1 <= L /\ 2 ^ (L - 1) < d < 2 ^ L /\ 2 < d.
Proof.
  intros Hd Hne L.
  assert (2 < d). { destruct (decide (d = 1)) as [->|]; [done|]. destruct (decide (d = 2)) as [->|]; [done|]. lia. }
  pose proof (Z.log2_spec d Hd) as [Hl Hu]. pose proof (Z.log2_pos d ltac:(lia)).
  assert (Z.log2 (d - 1) = Z.log2 d) as Hlog by (apply Z.log2_unique; lia).
  subst L. rewrite Hlog. replace (Z.log2 d + 1 - 1) with (Z.log2 d) by lia.
  replace (Z.log2 d + 1) with (Z.succ (Z.log2 d)) by lia. lia.
Qed.

(** ** The high half of a product *)

Lemma mulhi_u32_spec a b : is_u32 a -> is_u32 b -> mulhi_u32 a b = a * b / 2 ^ 32.
Proof.
  intros Ha Hb. unfold mulhi_u32, is_u32 in *. rewrite (u64_small (a * b)) by (umach; nia).
  rewrite Z.shiftr_div_pow2 by lia. rewrite u32_small; [done|]. unfold is_u32.
  split; [apply Z.div_pos; nia | apply Z.div_lt_upper_bound; nia].
Qed.

(** The carries of the four partial products. *)
Lemma partial_products a1 a0 b1 b0 :
  let B := 2 ^ 32 in
  (a1 * B + a0) * (b1 * B + b0) / 2 ^ 64 =
  a1 * b1 + a1 * b0 / B + a0 * b1 / B +
  (a0 * b0 / B + (a1 * b0) mod B + (a0 * b1) mod B) / B.
Proof.
  intros B. assert (HB : 0 < B) by (subst B; lia).
  replace (2 ^ 64) with (B * B) by done.
  pose proof (Z.div_mod (a0 * b0) B ltac:(lia)) as H0. pose proof (Z.mod_pos_bound (a0 * b0) B HB).
  pose proof (Z.div_mod (a1 * b0) B ltac:(lia)) as H1.
  pose proof (Z.div_mod (a0 * b1) B ltac:(lia)) as H2.
  set (mid := a0 * b0 / B + (a1 * b0) mod B + (a0 * b1) mod B).
  pose proof (Z.div_mod mid B ltac:(lia)) as H3. pose proof (Z.mod_pos_bound mid B HB).
  symmetry. apply (Z.div_unique_pos _ _ _ (mid mod B * B + (a0 * b0) mod B)); [nia|].
  subst mid. nia.
Qed.

Lemma mulhi_u64_spec a b : is_u64 a -> is_u64 b -> mulhi_u64 a b = a * b / 2 ^ 64.
Proof.
  intros Ha Hb. unfold mulhi_u64.
  replace 0xFFFFFFFF with (2 ^ 32 - 1) by done. rewrite !land_pow2_ones, !Z.shiftr_div_pow2 by lia.
  pose proof (partial_products (a / 2 ^ 32) (a mod 2 ^ 32) (b / 2 ^ 32) (b mod 2 ^ 32)) as E.
  cbv zeta in E.
  assert (a = a / 2 ^ 32 * 2 ^ 32 + a mod 2 ^ 32) as Ea by zlia.
  assert (b = b / 2 ^ 32 * 2 ^ 32 + b mod 2 ^ 32) as Eb by zlia.
  rewrite <-Ea, <-Eb in E. rewrite E.
  assert (0 <= a * b / 2 ^ 64 < 2 ^ 64) as Hq
    by (umach; split; [apply Z.div_pos; nia | apply Z.div_lt_upper_bound; nia]).
  rewrite E in Hq.
  assert (0 <= a / 2 ^ 32 < 2 ^ 32) by zlia. assert (0 <= b / 2 ^ 32 < 2 ^ 32) by zlia.
  assert (0 <= a mod 2 ^ 32 < 2 ^ 32) by zlia. assert (0 <= b mod 2 ^ 32 < 2 ^ 32) by zlia.
  clear E Ea Eb Ha Hb.
  set (a1 := a / 2 ^ 32) in *. set (a0 := a mod 2 ^ 32) in *.
  set (b1 := b / 2 ^ 32) in *. set (b0 := b mod 2 ^ 32) in *. clearbody a1 a0 b1 b0.
  rewrite !(u64_small (_ * _)) by (umach; nia).
  assert (0 <= a0 * b0 / 2 ^ 32 < 2 ^ 32) by (split; [apply Z.div_pos; nia | apply Z.div_lt_upper_bound; nia]).
  assert (0 <= a1 * b0 / 2 ^ 32) by (apply Z.div_pos; nia).
  assert (0 <= a0 * b1 / 2 ^ 32) by (apply Z.div_pos; nia).
  pose proof (Z.mod_pos_bound (a1 * b0) (2 ^ 32) ltac:(lia)).
  pose proof (Z.mod_pos_bound (a0 * b1) (2 ^ 32) ltac:(lia)).
  assert (0 <= a1 * b1) by nia.
  rewrite (u64_small (a0 * b0 / 2 ^ 32 + _)) by (umach; lia).
  rewrite (u64_small (a0 * b0 / 2 ^ 32 + _ + _)) by (umach; lia).
  set (mid := a0 * b0 / 2 ^ 32 + _ + _) in *.
  assert (0 <= mid / 2 ^ 32) by (apply Z.div_pos; lia).
  rewrite (u64_small (a1 * b1 + _)) by (umach; lia).
  rewrite (u64_small (a1 * b1 + _ + _)) by (umach; lia).
  by rewrite u64_small by (umach; lia).
Qed.

(** ** Prepared divisors *)

(** What a preparation at [W] bits leaves: the logarithm of a power of two, or
    the reciprocal without its leading bit.  Both keep every shift of the division
    below the width. *)
Definition prepared (W d : Z) (p : divisor) : Prop :=
  dv_d p = d /\
  ((dv_flags p = FDIV_FLAG_POW2 /\ 0 <= dv_shift p < W /\ d = 2 ^ dv_shift p) \/
   (dv_flags p = FDIV_FLAG_ADD /\ 1 <= dv_shift p <= W /\
    2 ^ (dv_shift p - 1) < d < 2 ^ dv_shift p /\
    dv_magic p = 2 ^ (W + dv_shift p) / d + 1 - 2 ^ W)).

Lemma prepared_magic W d p : 0 < W -> prepared W d p -> dv_flags p = FDIV_FLAG_ADD ->
  0 <= dv_magic p < 2 ^ W.
Proof.
  intros HW (_ & [(E & _)|(_ & HL & [Hlo Hhi] & Hm)]) Hf; [by rewrite E in Hf|].
  pose proof (recip_range W (dv_shift p) d _ HW HL Hlo Hhi eq_refl). lia.
Qed.

(** The common tail of the divisions, given the high half [t]. *)
Lemma prepared_add W d p n t : 0 < W -> prepared W d p -> dv_flags p = FDIV_FLAG_ADD ->
  0 <= n < 2 ^ W -> t = n * dv_magic p / 2 ^ W ->
  0 <= t <= n /\
  Z.shiftr ((Z.shiftr ((n - t) mod 2 ^ W) 1 + t) mod 2 ^ W) (dv_shift p - 1) = n / d.
Proof.
  intros HW (_ & [(E & _)|(_ & HL & [Hlo Hhi] & Hm)]) Hf Hn ->; [by rewrite E in Hf|]. rewrite Hm.
  pose proof (add_path W (dv_shift p) d _ HW HL Hlo Hhi eq_refl n Hn) as [Ht E]. cbv zeta in E.
  set (t := n * _ / 2 ^ W) in *. split; [done|].
  rewrite (Z.mod_small (n - t)), (Z.shiftr_div_pow2 _ 1) by lia. change (2 ^ 1) with 2.
  rewrite Z.mod_small by zlia. by rewrite Z.shiftr_div_pow2 by lia.
Qed.

Lemma fdiv_u32_spec d p n : prepared 32 d p -> is_u32 n -> fdiv_u32 n p = n / d.
Proof.
  intros Hp Hn. unfold fdiv_u32. pose proof Hp as (Ed & [(Ef & Hs & E)|(Ef & _)]); rewrite Ef; cbn.
  - by rewrite E, Z.shiftr_div_pow2 by lia.
  - pose proof (prepared_magic 32 d p ltac:(lia) Hp Ef).
    rewrite mulhi_u32_spec by (umach; lia).
    by apply (prepared_add 32 d p n); [lia|..].
Qed.

Lemma fdiv_u64_spec d p n : prepared 64 d p -> is_u64 n -> fdiv_u64 n p = n / d.
Proof.
  intros Hp Hn. unfold fdiv_u64. pose proof Hp as (Ed & [(Ef & Hs & E)|(Ef & _)]); rewrite Ef; cbn.
  - by rewrite E, Z.shiftr_div_pow2 by lia.
  - pose proof (prepared_magic 64 d p ltac:(lia) Hp Ef).
    rewrite mulhi_u64_spec by (umach; lia).
    by apply (prepared_add 64 d p n); [lia|..].
Qed.

Lemma prepare_pow2 W d s : 0 < d < 2 ^ W -> 0 < W <= 64 -> d = 2 ^ Z.log2 d -> s = u8 (Z.log2 d) ->
  prepared W d (mkDivisor d 0 s FDIV_FLAG_POW2).
Proof.
  intros Hd HW E ->. assert (0 <= Z.log2 d < W).
  { split; [apply Z.log2_nonneg|]. apply Z.log2_lt_pow2; lia. }
  assert (u8 (Z.log2 d) = Z.log2 d) as -> by zlia.
  split; [done|]. left. by cbn.
Qed.

(** Only powers of two divide powers of two. *)
Lemma divide_pow2 k : forall d, 0 < d -> (d | 2 ^ Z.of_nat k) -> d = 2 ^ Z.log2 d.
Proof.
  induction k as [|k IH]; intros d Hd Hdiv.
  - apply Z.divide_1_r_nonneg in Hdiv; [|lia]. by subst.
  - rewrite Nat2Z.inj_succ, Z.pow_succ_r in Hdiv by lia.
    destruct (decide (d mod 2 = 0)) as [Hev|Hodd].
    + set (e := d / 2). assert (d = 2 * e) as E by (subst e; zlia). rewrite E in Hdiv.
      apply Z.mul_divide_cancel_l in Hdiv; [|lia]. apply IH in Hdiv; [|lia].
      rewrite E, Z.log2_double, Z.pow_succ_r by (try apply Z.log2_nonneg; lia). lia.
    + apply IH; [done|]. destruct Hdiv as [c Hc]. set (e := d / 2).
      assert (d = 2 * e + 1) as E by (subst e; zlia).
      assert (2 * (2 ^ Z.of_nat k - c * e) = c) by nia.
      exists (2 ^ Z.of_nat k - c * e). nia.
Qed.

(** Rounding up a power of two over any other divisor. *)
Lemma recip_ceil d k : 0 < d -> d <> 2 ^ Z.log2 d -> 0 <= k ->
  (2 ^ k - 1) / d = 2 ^ k / d.
Proof.
  intros Hd Hne Hk. pose proof (Z.div_mod (2 ^ k) d ltac:(lia)).
  pose proof (Z.mod_pos_bound (2 ^ k) d ltac:(lia)).
  assert (2 ^ k mod d <> 0).
  { intros Hz. apply Hne, (divide_pow2 (Z.to_nat k)); [done|]. rewrite Z2Nat.id by done.
    apply Z.mod_divide; [lia|done]. }
  symmetry. apply (Z.div_unique_pos _ _ _ (2 ^ k mod d - 1)); lia.
Qed.

(** The width of a divisor that is not a power of two. *)
Lemma width_bound W d L : 0 < W -> 1 <= L -> 2 ^ (L - 1) < d < 2 ^ W -> L <= W.
Proof.
  intros HW HL Hd. apply Z.nlt_ge. intros HL'.
  assert (2 ^ W <= 2 ^ (L - 1)) by (apply Z.pow_le_mono_r; lia). lia.
Qed.

Lemma u32_prepare_ok d : 0 < d < 2 ^ 32 -> prepared 32 d (fdiv_u32_prepare d).
Proof.
  intros Hd. unfold fdiv_u32_prepare. rewrite (u32_small (d - 1)) by (umach; lia).
  destruct (Z.eqb_spec (Z.land d (d - 1)) 0) as [Hz|Hnz]; rewrite land_pred_zero in * by lia.
  { rewrite bits_clz32_spec by lia. apply prepare_pow2; [lia..|done|f_equal; lia]. }
  destruct (ceil_log2 d ltac:(lia) Hnz) as (HL & [Hlo Hhi] & H2).
  rewrite bits_clz32_spec by lia. replace (32 - (31 - Z.log2 (d - 1))) with (Z.log2 (d - 1) + 1) by lia.
  set (L := Z.log2 (d - 1) + 1) in *. clearbody L.
  pose proof (width_bound 32 d L ltac:(lia) HL ltac:(lia)).
  assert (u8 L = L) as -> by zlia.
  pose proof (recip_range 32 L d _ ltac:(lia) ltac:(lia) Hlo Hhi eq_refl) as Hm.
  destruct (Z.ltb_spec L 32) as [HL32|HL32].
  - assert (2 ^ (32 + L) <= 2 ^ 63) by (apply Z.pow_le_mono_r; lia).
    assert (0 < 2 ^ (32 + L)) by (apply Z.pow_pos_nonneg; lia).
    rewrite Z.shiftl_1_l, (u64_small (2 ^ (32 + L))), (u64_small (_ + d)), u64_small by (umach; lia).
    replace (2 ^ (32 + L) + d - 1) with (2 ^ (32 + L) - 1 + 1 * d) by lia.
    rewrite Z.div_add, recip_ceil by (done || lia).
    destruct (Z.ltb_spec (2 ^ (32 + L) / d + 1) 0x100000000); [lia|].
    rewrite u64_small, u32_small by (umach; lia). split; [done|]. right. by cbn.
  - replace L with 32 in * by lia. change (not64 0) with (2 ^ 64 - 1).
    rewrite (recip_ceil d 64) by (done || lia). change (32 + 32) with 64 in Hm.
    set (q := 2 ^ 64 / d) in *. destruct (_ =? _); rewrite (u64_small (q + 1)), u64_small, u32_small by (umach; lia).
    all: split; [done|]; right; cbn; change (32 + 32) with 64; fold q; split_ands; done || lia.
Qed.

(** ** Long division, bit by bit *)

Lemma long_div_step_spec d L bit qh ql r : 0 < d < 2 ^ 64 ->
  0 <= r < d -> 0 <= ql < 2 ^ 64 -> 0 <= qh < 2 ^ 63 ->
  let b := if bit =? 64 + L then 1 else 0 in
  let x := 2 * ((qh * 2 ^ 64 + ql) * d + r) + b in
  let '(qh', ql', r') := long_div_step d L bit (qh, ql, r) in
  0 <= ql' < 2 ^ 64 /\ 0 <= qh' /\ qh' * 2 ^ 64 + ql' = x / d /\ r' = x mod d.
Proof.
  intros Hd Hr Hql Hqh b x. unfold long_div_step; cbv beta iota zeta; fold b.
  assert (0 <= b < 2 ^ 1) by (subst b; destruct (_ =? _); lia).
  change (Z.land (Z.shiftr r 63) 1) with (Z.land (Z.shiftr r 63) (2 ^ 1 - 1)).
  rewrite land_pow2_ones, !Z.shiftl_mul_pow2, !Z.shiftr_div_pow2 by lia.
  rewrite (lor_disjoint_add _ b 1) by (try done; zlia).
  rewrite (lor_disjoint_add _ (ql / _) 1) by (try done; zlia).
  set (ge := bool_decide (d <= 2 * r + b)).
  assert ((if negb ((r / 2 ^ 63) mod 2 ^ 1 =? 0) then (1, u64 (u64 (r * 2 ^ 1) + b - d))
           else if d <=? u64 (r * 2 ^ 1) + b then (1, u64 (u64 (r * 2 ^ 1) + b - d))
           else (0, u64 (r * 2 ^ 1) + b))
          = (Z.b2z ge, 2 * r + b - Z.b2z ge * d)) as ->.
  { subst ge. case_bool_decide; cbn [Z.b2z].
    - destruct (Z.eqb_spec ((r / 2 ^ 63) mod 2 ^ 1) 0); cbn [negb].
      + destruct (Z.leb_spec d (u64 (r * 2 ^ 1) + b)); [f_equal|]; zlia.
      + f_equal. zlia.
    - destruct (Z.eqb_spec ((r / 2 ^ 63) mod 2 ^ 1) 0); cbn [negb]; [|zlia].
      destruct (Z.leb_spec d (u64 (r * 2 ^ 1) + b)); [|f_equal]; zlia. }
  rewrite (lor_disjoint_add _ (Z.b2z ge) 1) by (try (destruct ge; done); zlia).
  assert (0 <= 2 * r + b - Z.b2z ge * d < d).
  { subst ge. case_bool_decide; cbn [Z.b2z]; lia. }
  assert (0 <= Z.b2z ge <= 1) by (destruct ge; cbn; lia).
  set (g := Z.b2z ge) in *. clearbody g ge.
  assert (u64 (qh * 2 ^ 1) + ql / 2 ^ 63 = 2 * qh + ql / 2 ^ 63) as -> by zlia.
  assert (u64 (ql * 2 ^ 1) = 2 * ql - ql / 2 ^ 63 * 2 ^ 64) as -> by zlia.
  split_ands; [zlia..| |].
  - apply (Z.div_unique_pos _ _ _ (2 * r + b - g * d)); [done|]. subst x. lia.
  - apply (Z.mod_unique_pos _ _ (2 * (qh * 2 ^ 64 + ql) + g)); [done|]. subst x. lia.
Qed.

(** One more bit of the dividend [2 ^ (64 + L)]. *)
Lemma next_bit L bit : 0 <= bit <= 64 + L ->
  2 ^ (64 + L) / 2 ^ bit =
  2 * (2 ^ (64 + L) / 2 ^ (bit + 1)) + (if bit =? 64 + L then 1 else 0).
Proof.
  intros Hb. set (N := 64 + L) in *. destruct (Z.eqb_spec bit N) as [->|Hne].
  - assert (0 < 2 ^ N) by (apply Z.pow_pos_nonneg; lia). rewrite Z.pow_add_r by lia.
    rewrite Z.div_same, Z.div_small by lia. lia.
  - rewrite <-!Z.pow_sub_r, Z.add_0_r, <-Z.pow_succ_r by lia. f_equal. lia.
Qed.

Lemma long_div_spec d L bits : 0 < d < 2 ^ 64 -> 2 ^ (64 + L) / d < 2 ^ 65 -> 0 <= L ->
  forall qh ql r, Z.of_nat bits <= 64 + L + 1 ->
  0 <= r < d -> 0 <= ql < 2 ^ 64 -> 0 <= qh ->
  (qh * 2 ^ 64 + ql) * d + r = 2 ^ (64 + L) / 2 ^ Z.of_nat bits ->
  let '(qh', ql', _) := long_div d L bits (qh, ql, r) in
  0 <= ql' < 2 ^ 64 /\ 0 <= qh' /\ qh' * 2 ^ 64 + ql' = 2 ^ (64 + L) / d.
Proof.
  intros Hd Hq HL. induction bits as [|bit IH]; intros qh ql r Hb Hr Hql Hqh E; cbn [long_div].
  - rewrite Z.div_1_r in E. split_ands; try done; [lia..|].
    apply (Z.div_unique_pos _ _ _ r); [done|]. lia.
  - assert ((qh * 2 ^ 64 + ql) * d <= 2 ^ (64 + L)).
    { transitivity (2 ^ (64 + L) / 2 ^ Z.of_nat (S bit)); [lia|].
      apply Z.div_le_upper_bound; [apply Z.pow_pos_nonneg; lia|].
      assert (0 < 2 ^ Z.of_nat (S bit)) by (apply Z.pow_pos_nonneg; lia).
      assert (0 < 2 ^ (64 + L)) by (apply Z.pow_pos_nonneg; lia). nia. }
    assert (qh * 2 ^ 64 + ql <= 2 ^ (64 + L) / d) by (apply Z.div_le_lower_bound; lia).
    pose proof (long_div_step_spec d L (Z.of_nat bit) qh ql r Hd Hr Hql ltac:(lia)) as Hs.
    cbv zeta in Hs. destruct (long_div_step d L (Z.of_nat bit) (qh, ql, r)) as [[qh' ql'] r'].
    destruct Hs as (Hql' & Hqh' & Eq & Er). rewrite E in Eq, Er.
    rewrite Nat2Z.inj_succ, <-Z.add_1_r, <-next_bit in Eq, Er by lia.
    apply IH; [lia|rewrite Er; apply Z.mod_pos_bound; lia|done|done|].
    rewrite Eq, Er, Z.mul_comm. symmetry. apply Z.div_mod. lia.
Qed.

Lemma u64_prepare_ok d : 0 < d < 2 ^ 64 -> prepared 64 d (fdiv_u64_prepare d).
Proof.
  intros Hd. unfold fdiv_u64_prepare. rewrite (u64_small (d - 1)) by (umach; lia).
  destruct (Z.eqb_spec (Z.land d (d - 1)) 0) as [Hz|Hnz]; rewrite land_pred_zero in * by lia.
  { rewrite bits_clz64_spec by lia. apply prepare_pow2; [lia..|done|f_equal; lia]. }
  destruct (ceil_log2 d ltac:(lia) Hnz) as (HL & [Hlo Hhi] & H2).
  rewrite bits_clz64_spec by lia. replace (64 - (63 - Z.log2 (d - 1))) with (Z.log2 (d - 1) + 1) by lia.
  set (L := Z.log2 (d - 1) + 1) in *. clearbody L.
  pose proof (width_bound 64 d L ltac:(lia) HL ltac:(lia)).
  assert (u8 L = L) as -> by zlia.
  pose proof (recip_range 64 L d _ ltac:(lia) ltac:(lia) Hlo Hhi eq_refl) as Hm.
  pose proof (long_div_spec d L (Z.to_nat (64 + L + 1)) Hd ltac:(lia) ltac:(lia) 0 0 0
    ltac:(lia) ltac:(lia) ltac:(lia) ltac:(lia)) as Hq.
  destruct (long_div d L _ (0, 0, 0)) as [[qh ql] r]. destruct Hq as (Hql & Hqh & Eq).
  { rewrite Z2Nat.id by lia. rewrite Z.div_small; [lia|].
    split; [apply Z.pow_nonneg; lia|apply Z.pow_lt_mono_r; lia]. }
  change (not64 0) with (2 ^ 64 - 1). change (2 * 2 ^ 64) with (2 ^ 64 + 2 ^ 64) in Hm.
  assert ((if ql =? 2 ^ 64 - 1 then (u64 (qh + 1), 0) else (qh, u64 (ql + 1)))
          = (1, 2 ^ (64 + L) / d + 1 - 2 ^ 64)) as ->.
  { destruct (Z.eqb_spec ql (2 ^ 64 - 1)).
    - rewrite u64_small by (umach; lia). f_equal; lia.
    - assert (qh = 1) as -> by lia. rewrite u64_small by (umach; lia). f_equal. lia. }
  cbn. split; [done|]. right. by cbn.
Qed.

(** ** Signed operands *)

Lemma fits_some w z : 0 < w -> - 2 ^ (w - 1) <= z < 2 ^ (w - 1) -> fits w z = Some z.
Proof. intros Hw Hz. unfold fits. by rewrite (proj2 (Z.leb_le _ _)), (proj2 (Z.ltb_lt _ _)) by lia. Qed.

Lemma pow_half w : 0 < w -> 2 ^ w = 2 * 2 ^ (w - 1).
Proof. intros. rewrite <-Z.pow_succ_r by lia. f_equal. lia. Qed.

Lemma magnitude_abs w n : 0 < w -> - 2 ^ (w - 1) < n < 2 ^ (w - 1) ->
  magnitude w n = Some (Z.abs n).
Proof.
  intros Hw Hn. unfold magnitude. pose proof (pow_half w Hw). destruct (Z.ltb_spec n 0).
  - rewrite fits_some by lia. cbn. rewrite Z.mod_small by lia. f_equal. lia.
  - f_equal. lia.
Qed.

(** The least integer of the width has no magnitude. *)
Lemma magnitude_min w : 0 < w -> magnitude w (- 2 ^ (w - 1)) = None.
Proof.
  intros Hw. unfold magnitude, fits. assert (0 < 2 ^ (w - 1)) by (apply Z.pow_pos_nonneg; lia).
  rewrite (proj2 (Z.ltb_lt _ _)) by lia. rewrite (proj2 (Z.ltb_ge (- - _) _)) by lia.
  by rewrite andb_false_r.
Qed.

Lemma signed_flags_spec d uf : uf = FDIV_FLAG_POW2 \/ uf = FDIV_FLAG_ADD ->
  let f := signed_flags d uf in
  has_flag f FDIV_FLAG_NEG = (d <? 0) /\
  has_flag f FDIV_FLAG_POW2 = has_flag uf FDIV_FLAG_POW2 /\
  has_flag f FDIV_FLAG_ADD = has_flag uf FDIV_FLAG_ADD.
Proof. intros [-> | ->]; unfold signed_flags; by destruct (d <? 0). Qed.

Lemma prepared_flags W d p : prepared W d p ->
  dv_flags p = FDIV_FLAG_POW2 \/ dv_flags p = FDIV_FLAG_ADD.
Proof. intros (_ & [(E & _)|(E & _)]); eauto. Qed.

(** The sign of the quotient, and that quotient, product and remainder fit. *)
Lemma signed_result w n d f : 0 < w -> d <> 0 ->
  - 2 ^ (w - 1) < n < 2 ^ (w - 1) -> - 2 ^ (w - 1) < d < 2 ^ (w - 1) ->
  has_flag f FDIV_FLAG_NEG = (d <? 0) ->
  apply_sign w n f (Z.abs n / Z.abs d) = Some (Z.quot n d) /\
  fits w (Z.quot n d * d) = Some (Z.quot n d * d) /\
  fits w (n - Z.quot n d * d) = Some (Z.rem n d).
Proof.
  intros Hw Hd0 Hn Hd Hf. unfold apply_sign. rewrite Hf.
  assert (0 <= Z.abs n / Z.abs d <= Z.abs n) as Hq.
  { split; [apply Z.div_pos; lia|]. apply Z.div_le_upper_bound; nia. }
  assert (Z.quot n d = Z.sgn n * Z.sgn d * (Z.abs n / Z.abs d)) as Equot.
  { rewrite Z.quot_div by done. lia. }
  assert (Z.abs n / Z.abs d * Z.abs d <= Z.abs n) as Hle.
  { rewrite Z.mul_comm. apply Z.mul_div_le. lia. }
  assert (n - Z.quot n d * d = Z.rem n d) as Erem.
  { pose proof (Z.quot_rem' n d). lia. }
  split.
  - unfold to_signed. rewrite (proj2 (Z.ltb_lt (Z.abs n / Z.abs d) _)) by lia. rewrite Equot.
    assert (n = 0 -> Z.abs n / Z.abs d = 0) by (intros ->; by rewrite Z.div_0_l by lia).
    clear Hle Erem Equot. set (q := Z.abs n / Z.abs d) in *. clearbody q.
    destruct (Z.ltb_spec n 0), (Z.ltb_spec d 0); cbn [xorb]; rewrite ?fits_some by lia; f_equal;
      destruct (Z.sgn_spec n) as [[? ->]|[[? ->]|[? ->]]], (Z.sgn_spec d) as [[? ->]|[[? ->]|[? ->]]]; lia.
  - set (q := Z.abs n / Z.abs d) in *. clearbody q.
    assert (Z.quot n d * d = Z.sgn n * (q * Z.abs d)) as E by (rewrite Equot; nia).
    rewrite E in *. rewrite <-Erem. destruct (Z.sgn_spec n) as [[? ->]|[[? ->]|[? ->]]];
      by rewrite !fits_some by nia.
Qed.

Lemma s32_prepare_ok d : - 2 ^ 31 < d < 2 ^ 31 -> d <> 0 ->
  exists p u, fdiv_s32_prepare d = Some p /\ prepared 32 (Z.abs d) u /\ dv_d p = d /\
    dv_magic p = dv_magic u /\ dv_shift p = dv_shift u /\ dv_flags p = signed_flags d (dv_flags u).
Proof.
  intros Hd Hd0. unfold fdiv_s32_prepare. rewrite magnitude_abs by lia.
  eexists _, (fdiv_u32_prepare (Z.abs d)). split; [done|].
  split; [apply u32_prepare_ok; lia|]. by cbn.
Qed.

Lemma s64_prepare_ok d : - 2 ^ 63 < d < 2 ^ 63 -> d <> 0 ->
  exists p u, fdiv_s64_prepare d = Some p /\ prepared 64 (Z.abs d) u /\ dv_d p = d /\
    dv_magic p = dv_magic u /\ dv_shift p = dv_shift u /\ dv_flags p = signed_flags d (dv_flags u).
Proof.
  intros Hd Hd0. unfold fdiv_s64_prepare. rewrite magnitude_abs by lia.
  eexists _, (fdiv_u64_prepare (Z.abs d)). split; [done|].
  split; [apply u64_prepare_ok; lia|]. by cbn.
Qed.

(** The division inside the signed code is the unsigned one. *)
Lemma fdiv_s32_abs n p u d : - 2 ^ 31 < n < 2 ^ 31 -> prepared 32 (Z.abs d) u ->
  dv_magic p = dv_magic u -> dv_shift p = dv_shift u -> dv_flags p = signed_flags d (dv_flags u) ->
  fdiv_s32 n p = apply_sign 32 n (dv_flags p) (Z.abs n / Z.abs d).
Proof.
  intros Hn Hu Em Es Ef. unfold fdiv_s32. rewrite magnitude_abs by lia. cbn [mbind option_bind].
  rewrite <-(fdiv_u32_spec _ _ _ Hu) by (umach; lia). unfold fdiv_u32.
  destruct (signed_flags_spec d _ (prepared_flags _ _ _ Hu)) as (_ & E1 & E2). cbv zeta in E1, E2.
  by rewrite Em, Es, Ef, E1, E2.
Qed.

Lemma fdiv_s64_abs n p u d : - 2 ^ 63 < n < 2 ^ 63 -> prepared 64 (Z.abs d) u ->
  dv_magic p = dv_magic u -> dv_shift p = dv_shift u -> dv_flags p = signed_flags d (dv_flags u) ->
  fdiv_s64 n p = apply_sign 64 n (dv_flags p) (Z.abs n / Z.abs d).
Proof.
  intros Hn Hu Em Es Ef. unfold fdiv_s64. rewrite magnitude_abs by lia. cbn [mbind option_bind].
  rewrite <-(fdiv_u64_spec _ _ _ Hu) by (umach; lia). unfold fdiv_u64.
  destruct (signed_flags_spec d _ (prepared_flags _ _ _ Hu)) as (_ & E1 & E2). cbv zeta in E1, E2.
  by rewrite Em, Es, Ef, E1, E2.
Qed.

Lemma qr_unsigned w n d : 0 < w -> 0 < d < 2 ^ w -> 0 <= n < 2 ^ w ->
  (n - (n / d * d) mod 2 ^ w) mod 2 ^ w = n mod d.
Proof.
  intros Hw Hd Hn. pose proof (Z.div_mod n d ltac:(lia)). pose proof (Z.mod_pos_bound n d ltac:(lia)).
  assert (0 <= n / d) by (apply Z.div_pos; lia).
  rewrite (Z.mod_small (n / d * d)), Z.mod_small by nia. lia.
Qed.

(** ** What the library promises *)

(** C30. Division by a prepared divisor is division.  For every divisor but zero,
    and every dividend, the unsigned functions return the quotient and the
    remainder of [n / d] and [n % d], at 32 and at 64 bits: the rounded-up
    reciprocal, its dropped leading bit and the bit-by-bit long division of the
    64-bit preparation lose nothing, and the operands the two preparations leave
    keep every shift below the width.  The signed functions return C's quotient
    and remainder, rounded towards zero with the remainder taking the dividend's
    sign, for every divisor and dividend but the least integer. *)
Theorem prepared_division :
  (forall n d, 0 < d < 2 ^ 32 -> 0 <= n < 2 ^ 32 ->
     fdiv_u32_qr n (fdiv_u32_prepare d) = mkQr (n / d) (n mod d)) /\
  (forall n d, 0 < d < 2 ^ 64 -> 0 <= n < 2 ^ 64 ->
     fdiv_u64_qr n (fdiv_u64_prepare d) = mkQr (n / d) (n mod d)) /\
  (forall n d, - 2 ^ 31 < d < 2 ^ 31 -> d <> 0 -> - 2 ^ 31 < n < 2 ^ 31 ->
     (p ← fdiv_s32_prepare d; fdiv_s32_qr n p) = Some (mkQr (Z.quot n d) (Z.rem n d))) /\
  (forall n d, - 2 ^ 63 < d < 2 ^ 63 -> d <> 0 -> - 2 ^ 63 < n < 2 ^ 63 ->
     (p ← fdiv_s64_prepare d; fdiv_s64_qr n p) = Some (mkQr (Z.quot n d) (Z.rem n d))) /\
  (forall d, 0 < d < 2 ^ 32 -> prepared 32 d (fdiv_u32_prepare d)) /\
  (forall d, 0 < d < 2 ^ 64 -> prepared 64 d (fdiv_u64_prepare d)).
Proof.
  repeat split_and!; intros; [..|by apply u32_prepare_ok|by apply u64_prepare_ok].
  - unfold fdiv_u32_qr. pose proof (u32_prepare_ok d ltac:(done)) as Hp.
    rewrite (fdiv_u32_spec d), (proj1 Hp) by done. f_equal. by apply (qr_unsigned 32).
  - unfold fdiv_u64_qr. pose proof (u64_prepare_ok d ltac:(done)) as Hp.
    rewrite (fdiv_u64_spec d), (proj1 Hp) by done. f_equal. by apply (qr_unsigned 64).
  - destruct (s32_prepare_ok d) as (p & u & -> & Hu & Ed & Em & Es & Ef); [done..|].
    cbn [mbind option_bind]. unfold fdiv_s32_qr. rewrite (fdiv_s32_abs n p u d), Ef, Ed by done.
    destruct (signed_flags_spec d _ (prepared_flags _ _ _ Hu)) as (En & _).
    destruct (signed_result 32 n d (signed_flags d (dv_flags u))) as (-> & E1 & E2); [done..|].
    cbn [mbind option_bind]. rewrite E1. cbn. by rewrite E2.
  - destruct (s64_prepare_ok d) as (p & u & -> & Hu & Ed & Em & Es & Ef); [done..|].
    cbn [mbind option_bind]. unfold fdiv_s64_qr. rewrite (fdiv_s64_abs n p u d), Ef, Ed by done.
    destruct (signed_flags_spec d _ (prepared_flags _ _ _ Hu)) as (En & _).
    destruct (signed_result 64 n d (signed_flags d (dv_flags u))) as (-> & E1 & E2); [done..|].
    cbn [mbind option_bind]. rewrite E1. cbn. by rewrite E2.
Qed.

Lemma prepared_division_witness :
  fdiv_u32_qr 4294967295 (fdiv_u32_prepare 641) = mkQr 6700416 (4294967295 mod 641) /\
  (p ← fdiv_s64_prepare (-7); fdiv_s64_qr 100 p) = Some (mkQr (-14) 2) /\
  prepared 64 10 (fdiv_u64_prepare 10).
Proof.
  destruct prepared_division as (H32 & _ & _ & Hs64 & _ & Hp64). split_and!.
  - rewrite H32 by lia. reflexivity.
  - rewrite Hs64 by lia. reflexivity.
  - apply Hp64. lia.
Defined.

(** The path for a reciprocal of one word is never taken: whatever the divisor,
    the preparation sets [FDIV_FLAG_POW2] or [FDIV_FLAG_ADD]. *)
Theorem add_path_always d : 0 < d < 2 ^ 32 ->
  dv_flags (fdiv_u32_prepare d) <> 0.
Proof. intros Hd. by destruct (prepared_flags _ _ _ (u32_prepare_ok d Hd)) as [-> | ->]. Qed.

(** Both operands of the signed functions have to be above the least integer:
    its negation has no value, in the dividend as well as in the divisor. *)
Theorem least_integer_undefined p :
  fdiv_s32 (- 2 ^ 31) p = None /\ fdiv_s64 (- 2 ^ 63) p = None /\
  fdiv_s32_prepare (- 2 ^ 31) = None /\ fdiv_s64_prepare (- 2 ^ 63) = None.
Proof.
  unfold fdiv_s32, fdiv_s64, fdiv_s32_prepare, fdiv_s64_prepare.
  change (- 2 ^ 31) with (- 2 ^ (32 - 1)). change (- 2 ^ 63) with (- 2 ^ (64 - 1)).
  by rewrite !magnitude_min by lia.
Qed.
