(* ===== verification/AudioPool.v ===== *)
(** The audio block pool ([src/audio/audio_pool.c]): refcounted objects behind
    generation-checked handles, each a chain of fixed-size blocks of a region.

    The bookkeeping is out of band, as in the code: [owner] and [next] are the two
    malloc'd arrays (lists, indexed by block), the map of used blocks is the bit
    set of [Bitset] over its own words, and the descriptor and generation tables
    are part of the structure.  Payload and bit-set words live in host memory. *)
From S2P Require Import Prelude HostMem Bitset.

Definition AUDIO_POOL_BLOCK_SIZE : Z := 8192.
Definition AUDIO_POOL_MAX_OBJECTS : Z := 256.
Definition AUDIO_POOL_NO_BLOCK : Z := 0xFFFFFFFF.
Definition AUDIO_POOL_HANDLE_NONE : Z := 0.

Inductive AudioPoolResult :=
  | AUDIO_POOL_OK
  | AUDIO_POOL_ERR_NO_SPACE
  | AUDIO_POOL_ERR_NO_OBJECTS
  | AUDIO_POOL_ERR_BAD_HANDLE
  | AUDIO_POOL_ERR_INVALID_ARG.

Record AudioObject := mkAudioObject {
  head_block : Z;
  o_size : Z;
  nblocks : Z;
  refcount : Z;
  generation : Z;
  owner_vm : Z;
  in_use : bool;
  sample_rate : Z
}.

Record AudioPool := mkAudioPool {
  region : Z;
  region_size : Z;
  block_size : Z;
  block_count : Z;
  free_blocks : Z;
  owner : list Z;
  next : list Z;
  used_map : Bitset;
  used_words : Z;
  objects : list AudioObject;
  generations : list Z
}.

(** Array reads and writes. *)
Definition at_ (l : list Z) (i : Z) : Z := nth (Z.to_nat i) l 0.
Definition put (l : list Z) (i v : Z) : list Z := <[Z.to_nat i := v]> l.

#[global] Arguments at_ : simpl never.
#[global] Arguments put : simpl never.

Definition zero_object : AudioObject := mkAudioObject 0 0 0 0 0 0 false 0.
Definition object (p : AudioPool) (slot : Z) : AudioObject :=
  nth (Z.to_nat slot) (objects p) zero_object.

(** Assignments to one field. *)
Definition set_map (p : AudioPool) (bs : Bitset) (free : Z) : AudioPool :=
  mkAudioPool (region p) (region_size p) (block_size p) (block_count p) free (owner p) (next p)
    bs (used_words p) (objects p) (generations p).
Definition set_owner (p : AudioPool) (b v : Z) : AudioPool :=
  mkAudioPool (region p) (region_size p) (block_size p) (block_count p) (free_blocks p)
    (put (owner p) b v) (next p) (used_map p) (used_words p) (objects p) (generations p).
Definition set_next (p : AudioPool) (b v : Z) : AudioPool :=
  mkAudioPool (region p) (region_size p) (block_size p) (block_count p) (free_blocks p)
    (owner p) (put (next p) b v) (used_map p) (used_words p) (objects p) (generations p).
Definition set_object (p : AudioPool) (slot : Z) (o : AudioObject) : AudioPool :=
  mkAudioPool (region p) (region_size p) (block_size p) (block_count p) (free_blocks p)
    (owner p) (next p) (used_map p) (used_words p) (<[Z.to_nat slot := o]> (objects p)) (generations p).
Definition set_generation (p : AudioPool) (slot g : Z) : AudioPool :=
  mkAudioPool (region p) (region_size p) (block_size p) (block_count p) (free_blocks p)
    (owner p) (next p) (used_map p) (used_words p) (objects p) (put (generations p) slot g).

Definition set_refcount (o : AudioObject) (r : Z) : AudioObject :=
  mkAudioObject (head_block o) (o_size o) (nblocks o) r (generation o) (owner_vm o) (in_use o) (sample_rate o).
Definition set_sample_rate (o : AudioObject) (r : Z) : AudioObject :=
  mkAudioObject (head_block o) (o_size o) (nblocks o) (refcount o) (generation o) (owner_vm o) (in_use o) r.

(** ** Handles *)

Definition pack_handle (slot gen : Z) : Z := Z.lor (u32 (Z.shiftl gen 16)) (u32 (slot + 1)).

Definition unpack_handle (h : Z) : option (Z * Z) :=
  if h =? AUDIO_POOL_HANDLE_NONE then None else
  let s := Z.land h 0xFFFF in
  if s =? 0 then None else Some (s - 1, u16 (Z.shiftr h 16)).

(** The slot of a live object. *)
Definition resolve (p : AudioPool) (h : Z) : option Z :=
  '(slot, gen) ← unpack_handle h;
  if AUDIO_POOL_MAX_OBJECTS <=? slot then None else
  let o := object p slot in
  if negb (in_use o) then None else
  if negb (generation o =? gen) then None else Some slot.

(** ** Blocks *)

Definition alloc_one_block (m : mem) (p : AudioPool) : Z * mem * AudioPool :=
  if free_blocks p =? 0 then (AUDIO_POOL_NO_BLOCK, m, p) else
  let '(b, bs) := bitset_find_first_clear m (used_map p) in
  if b =? BITSET_NPOS then (AUDIO_POOL_NO_BLOCK, m, set_map p bs (free_blocks p)) else
  (u32 b, bitset_set m bs b, set_map p bs (u32 (free_blocks p - 1))).

Definition free_one_block (m : mem) (p : AudioPool) (b : Z) : mem * AudioPool :=
  if block_count p <=? b then (m, p) else
  let '(m, p) :=
    if bitset_test m (used_map p) b then
      let '(m, bs) := bitset_clear m (used_map p) b in (m, set_map p bs (u32 (free_blocks p + 1)))
    else (m, p) in
  (m, set_next (set_owner p b AUDIO_POOL_NO_BLOCK) b AUDIO_POOL_NO_BLOCK).

(** [while (b != NO_BLOCK)]: a chain meets a block at most once, so one round more
    than there are blocks is enough. *)
Fixpoint free_chain_loop (fuel : nat) (m : mem) (p : AudioPool) (b : Z) : option (mem * AudioPool) :=
  match fuel with
  | O => None
  | S fuel =>
    if b =? AUDIO_POOL_NO_BLOCK then Some (m, p) else
    let nxt := at_ (next p) b in
    let '(m, p) := free_one_block m p b in
    free_chain_loop fuel m p nxt
  end.

Definition chain_fuel (p : AudioPool) : nat := S (Z.to_nat (block_count p)).

Definition free_chain (m : mem) (p : AudioPool) (head : Z) : option (mem * AudioPool) :=
  free_chain_loop (chain_fuel p) m p head.

(** ** Life cycle *)

(** [p_owner], [p_next] and [p_words] are what the three [malloc] calls return. *)
Definition audio_pool_init (m : mem) (p : AudioPool) (region region_size p_owner p_next p_words : Z)
    : AudioPoolResult * mem * AudioPool :=
  if region =? 0 then (AUDIO_POOL_ERR_INVALID_ARG, m, p) else
  let count := u32 (region_size / AUDIO_POOL_BLOCK_SIZE) in
  let objs := replicate 256 zero_object in
  let zeroed := mkAudioPool region region_size AUDIO_POOL_BLOCK_SIZE count 0 [] []
    (mkBitset 0 0 0 0) 0 objs (replicate 256 0) in
  if count =? 0 then (AUDIO_POOL_ERR_INVALID_ARG, m, zeroed) else
  if (p_owner =? 0) || (p_next =? 0) || (p_words =? 0) then (AUDIO_POOL_ERR_NO_SPACE, m, zeroed) else
  let none := replicate (Z.to_nat count) AUDIO_POOL_NO_BLOCK in
  let '(m, bs) := bitset_clear_all m (bitset_init p_words count) in
  (AUDIO_POOL_OK, m,
   mkAudioPool region region_size AUDIO_POOL_BLOCK_SIZE count count none none bs p_words
     objs (replicate 256 1)).

Definition audio_pool_destroy (p : AudioPool) : AudioPool :=
  mkAudioPool (region p) (region_size p) (block_size p) (block_count p) (free_blocks p)
    [] [] (used_map p) 0 (objects p) (generations p).

(** ** Objects *)

(** [for (s = 0; s < AUDIO_POOL_MAX_OBJECTS; s++) if (!p->objects[s].in_use) return s;]. *)
Definition find_free_slot (p : AudioPool) : Z :=
  match find (fun s => negb (in_use (object p (Z.of_nat s)))) (seq 0 (Z.to_nat AUDIO_POOL_MAX_OBJECTS)) with
  | Some s => Z.of_nat s
  | None => AUDIO_POOL_NO_BLOCK
  end.

(** The chain built by [audio_pool_alloc], [n] blocks being left: [inr] with the
    head, or [inl] after the roll back. *)
Fixpoint build_chain (n : nat) (m : mem) (p : AudioPool) (slot head prev : Z)
    : option (mem * AudioPool * (unit + Z)) :=
  match n with
  | O => Some (m, p, inr head)
  | S n =>
    let '(b, m, p) := alloc_one_block m p in
    if b =? AUDIO_POOL_NO_BLOCK then
      '(m, p) ← free_chain m p head; Some (m, p, inl tt)
    else
      let p := set_owner p b slot in
      let p := set_next p b AUDIO_POOL_NO_BLOCK in
      if prev =? AUDIO_POOL_NO_BLOCK then build_chain n m p slot b b
      else build_chain n m (set_next p prev b) slot head b
  end.

Definition blocks_needed (p : AudioPool) (size : Z) : Z :=
  let need := u32 (u32 (size + block_size p) - 1) / block_size p in
  if need =? 0 then 1 else need.

Definition audio_pool_alloc (m : mem) (p : AudioPool) (size vm : Z)
    : option (AudioPoolResult * Z * mem * AudioPool) :=
  let need := blocks_needed p size in
  if free_blocks p <? need then Some (AUDIO_POOL_ERR_NO_SPACE, AUDIO_POOL_HANDLE_NONE, m, p) else
  let slot := find_free_slot p in
  if slot =? AUDIO_POOL_NO_BLOCK then Some (AUDIO_POOL_ERR_NO_OBJECTS, AUDIO_POOL_HANDLE_NONE, m, p) else
  '(m, p, r) ← build_chain (Z.to_nat need) m p slot AUDIO_POOL_NO_BLOCK AUDIO_POOL_NO_BLOCK;
  match r with
  | inl _ => Some (AUDIO_POOL_ERR_NO_SPACE, AUDIO_POOL_HANDLE_NONE, m, p)
  | inr head =>
    let gen := at_ (generations p) slot in
    Some (AUDIO_POOL_OK, pack_handle slot gen, m,
          set_object p slot (mkAudioObject head size need 1 gen vm true 0))
  end.

Definition audio_pool_alloc_with_rate (m : mem) (p : AudioPool) (size vm rate : Z)
    : option (AudioPoolResult * Z * mem * AudioPool) :=
  '(r, h, m, p) ← audio_pool_alloc m p size vm;
  match r with
  | AUDIO_POOL_OK =>
    match unpack_handle h with
    | Some (slot, _) =>
      if (slot <? AUDIO_POOL_MAX_OBJECTS) && in_use (object p slot) then
        Some (AUDIO_POOL_OK, h, m, set_object p slot (set_sample_rate (object p slot) rate))
      else Some (AUDIO_POOL_OK, h, m, p)
    | None => Some (AUDIO_POOL_OK, h, m, p)
    end
  | _ => Some (r, h, m, p)
  end.

Definition audio_pool_object_sample_rate (p : AudioPool) (h : Z) : Z :=
  match unpack_handle h with
  | None => 0
  | Some (slot, gen) =>
    if AUDIO_POOL_MAX_OBJECTS <=? slot then 0 else
    let o := object p slot in
    if negb (in_use o) then 0 else
    if negb (gen =? generation o) then 0 else sample_rate o
  end.

Definition free_object (m : mem) (p : AudioPool) (slot : Z) : option (mem * AudioPool) :=
  '(m, p) ← free_chain m p (head_block (object p slot));
  let g := u16 (at_ (generations p) slot + 1) in
  let g := if g =? 0 then 1 else g in
  let p := set_generation p slot g in
  Some (m, set_object p slot (mkAudioObject AUDIO_POOL_NO_BLOCK 0 0 0 0 0 false 0)).

Definition audio_pool_ref (p : AudioPool) (h : Z) : AudioPoolResult * AudioPool :=
  match resolve p h with
  | None => (AUDIO_POOL_ERR_BAD_HANDLE, p)
  | Some slot =>
    let o := object p slot in
    (AUDIO_POOL_OK, set_object p slot (set_refcount o (s32 (refcount o + 1))))
  end.

(** [if (--o->refcount <= 0) free_object(p, slot)]; the flag says whether it was freed. *)
Definition drop_ref (m : mem) (p : AudioPool) (slot : Z) : option (bool * mem * AudioPool) :=
  let o := object p slot in
  let o := set_refcount o (s32 (refcount o - 1)) in
  let p := set_object p slot o in
  if refcount o <=? 0 then
    '(m, p) ← free_object m p slot; Some (true, m, p)
  else Some (false, m, p).

Definition audio_pool_unref (m : mem) (p : AudioPool) (h : Z)
    : option (AudioPoolResult * bool * mem * AudioPool) :=
  match unpack_handle h with
  | None => Some (AUDIO_POOL_ERR_BAD_HANDLE, false, m, p)
  | Some (slot, _) =>
    match resolve p h with
    | None => Some (AUDIO_POOL_ERR_BAD_HANDLE, false, m, p)
    | Some _ => '(freed, m, p) ← drop_ref m p slot; Some (AUDIO_POOL_OK, freed, m, p)
    end
  end.

(** [for (s = ...; s < AUDIO_POOL_MAX_OBJECTS; s++)], [n] slots being left. *)
Fixpoint sweep_from (n : nat) (m : mem) (p : AudioPool) (s vm freed : Z) : option (Z * mem * AudioPool) :=
  match n with
  | O => Some (freed, m, p)
  | S n =>
    let o := object p s in
    if in_use o && (owner_vm o =? vm) then
      '(gone, m, p) ← drop_ref m p s;
      sweep_from n m p (s + 1) vm (if gone : bool then freed + 1 else freed)
    else sweep_from n m p (s + 1) vm freed
  end.

Definition audio_pool_sweep_vm (m : mem) (p : AudioPool) (vm : Z) : option (Z * mem * AudioPool) :=
  sweep_from (Z.to_nat AUDIO_POOL_MAX_OBJECTS) m p 0 vm 0.

(** ** Chained data *)

(** [while (skip-- > 0 && b != NO_BLOCK) b = p->next[b];]. *)
Fixpoint seek_loop (skip : nat) (p : AudioPool) (b : Z) : Z :=
  match skip with
  | O => b
  | S skip => if b =? AUDIO_POOL_NO_BLOCK then b else seek_loop skip p (at_ (next p) b)
  end.

Definition seek_block (p : AudioPool) (head offset : Z) : Z * Z :=
  (seek_loop (Z.to_nat (offset / block_size p)) p head, offset mod block_size p).

Definition block_at (p : AudioPool) (b : Z) : Z := region p + b * block_size p.

(** The copying loops; every round moves a byte or more, so [n] rounds and one
    for the last test are enough. *)
Fixpoint read_loop (fuel : nat) (m : mem) (p : AudioPool) (b in_off dst n copied : Z)
    : option (mem * Z) :=
  match fuel with
  | O => None
  | S fuel =>
    if (copied <? n) && negb (b =? AUDIO_POOL_NO_BLOCK) then
      let chunk := block_size p - in_off in
      let chunk := if n - copied <? chunk then n - copied else chunk in
      let m := memcpy m (dst + copied) (block_at p b + in_off) chunk in
      read_loop fuel m p (at_ (next p) b) 0 dst n (copied + chunk)
    else Some (m, copied)
  end.

Fixpoint write_loop (fuel : nat) (m : mem) (p : AudioPool) (b in_off src n written : Z)
    : option (mem * Z) :=
  match fuel with
  | O => None
  | S fuel =>
    if (written <? n) && negb (b =? AUDIO_POOL_NO_BLOCK) then
      let chunk := block_size p - in_off in
      let chunk := if n - written <? chunk then n - written else chunk in
      let m := memcpy m (block_at p b + in_off) (src + written) chunk in
      write_loop fuel m p (at_ (next p) b) 0 src n (written + chunk)
    else Some (m, written)
  end.

Definition copy_fuel (n : Z) : nat := S (Z.to_nat n).

Definition audio_pool_read (m : mem) (p : AudioPool) (h offset dst n : Z)
    : option (AudioPoolResult * Z * mem) :=
  if dst =? 0 then Some (AUDIO_POOL_ERR_INVALID_ARG, 0, m) else
  match resolve p h with
  | None => Some (AUDIO_POOL_ERR_BAD_HANDLE, 0, m)
  | Some slot =>
    let o := object p slot in
    if o_size o <=? offset then Some (AUDIO_POOL_OK, 0, m) else
    let avail := o_size o - offset in
    let n := if avail <? n then avail else n in
    let '(b, in_off) := seek_block p (head_block o) offset in
    '(m, copied) ← read_loop (copy_fuel n) m p b in_off dst n 0;
    Some (AUDIO_POOL_OK, copied, m)
  end.

Definition audio_pool_write (m : mem) (p : AudioPool) (h offset src n : Z)
    : option (AudioPoolResult * Z * mem) :=
  if src =? 0 then Some (AUDIO_POOL_ERR_INVALID_ARG, 0, m) else
  match resolve p h with
  | None => Some (AUDIO_POOL_ERR_BAD_HANDLE, 0, m)
  | Some slot =>
    let o := object p slot in
    if o_size o <=? offset then Some (AUDIO_POOL_OK, 0, m) else
    let avail := o_size o - offset in
    let n := if avail <? n then avail else n in
    let '(b, in_off) := seek_block p (head_block o) offset in
    '(m, written) ← write_loop (copy_fuel n) m p b in_off src n 0;
    Some (AUDIO_POOL_OK, written, m)
  end.

(** ** Introspection *)

Definition audio_pool_refcount (p : AudioPool) (h : Z) : Z :=
  match resolve p h with Some slot => refcount (object p slot) | None => -1 end.

Definition audio_pool_handle_valid (p : AudioPool) (h : Z) : bool :=
  match resolve p h with Some _ => true | None => false end.

Definition audio_pool_object_size (p : AudioPool) (h : Z) : Z :=
  match resolve p h with Some slot => o_size (object p slot) | None => 0 end.
