(* ===== verification/AudioPoolInv.v ===== *)
(** The block bookkeeping of the audio pool: the used map as a list of blocks
    without repetition, chains through [next], and what taking and giving back
    blocks does to both. *)
From S2P Require Import Prelude HostMem Bitset AudioPool.

#[local] Open Scope Z_scope.

(** ** The bit set against a list *)

Lemma sim_ext m bs P Q : bitset_sim m bs P ->
  (forall i, 0 <= i < bs_nbits bs -> P i = Q i) -> bitset_sim m bs Q.
Proof.
  intros Hs E. pose proof (bm_nbits _ _ _ Hs). pose proof (bm_hint _ _ _ Hs).
  destruct Hs. split; try done.
  - intros i Hi. rewrite <-E by done. auto.
  - intros i Hi Hh. rewrite <-E by done. auto.
Qed.

(** The words of a bit set. *)
Definition in_words (bs : Bitset) (x : Z) : Prop := rng (bs_words bs) (4 * bs_nwords bs) x.

Lemma sim_frame m m' bs P : bitset_sim m bs P -> mem_ok m' ->
  mem_agree (in_words bs) m m' -> bitset_sim m' bs P.
Proof.
  intros Hs Hm' Ha. pose proof (nwords_range _ _ _ Hs) as Hr. pose proof (bm_nbits _ _ _ Hs).
  assert (forall i, 0 <= i < 32 * bs_nwords bs -> bit m' bs i = bit m bs i) as Hb.
  { intros i Hi. pose proof (div32_range i _ Hi). unfold bit, word. f_equal. symmetry.
    apply load32_agree. eapply mem_agree_mono, Ha. unfold in_words, rng. lia. }
  destruct Hs. split; try done.
  - intros i Hi. rewrite Hb by lia. auto.
  - intros i Hi. rewrite Hb by lia. auto.
Qed.

Lemma put_word_frame m bs w v : 0 <= w < bs_nwords bs ->
  mem_frame (bs_words bs) (4 * bs_nwords bs) m (put_word m bs w v).
Proof.
  intros Hw. unfold put_word. eapply mem_frame_mono, store32_frame; lia.
Qed.

Lemma set_frame m bs P i : bitset_sim m bs P -> 0 <= i ->
  mem_frame (bs_words bs) (4 * bs_nwords bs) m (bitset_set m bs i).
Proof.
  intros Hs Hi. pose proof (nwords_range _ _ _ Hs). unfold bitset_set.
  destruct (Z.leb_spec (bs_nbits bs) i); [done|]. apply put_word_frame, div32_range. lia.
Qed.

Lemma clear_frame m bs P i : bitset_sim m bs P -> 0 <= i ->
  mem_frame (bs_words bs) (4 * bs_nwords bs) m (bitset_clear m bs i).1.
Proof.
  intros Hs Hi. pose proof (nwords_range _ _ _ Hs). unfold bitset_clear.
  destruct (Z.leb_spec (bs_nbits bs) i); [done|]. apply put_word_frame, div32_range. lia.
Qed.

(** The searches and updates keep the set's place and size. *)
Definition same_words (bs bs' : Bitset) : Prop :=
  bs_words bs' = bs_words bs /\ bs_nbits bs' = bs_nbits bs /\ bs_nwords bs' = bs_nwords bs.

Lemma find_first_clear_words m bs : same_words bs (bitset_find_first_clear m bs).2.
Proof. unfold bitset_find_first_clear, same_words. by repeat case_match. Qed.

Lemma clear_words m bs i : same_words bs (bitset_clear m bs i).2.
Proof. unfold bitset_clear, same_words. by repeat case_match. Qed.

(** ** Arrays *)

Lemma at_put l i j v : 0 <= i < Z.of_nat (length l) -> 0 <= j ->
  at_ (put l i v) j = if decide (j = i) then v else at_ l j.
Proof.
  intros Hi Hj. unfold at_, put. rewrite !nth_lookup. case_decide as E.
  - subst. rewrite list_lookup_insert_eq by lia. done.
  - by rewrite list_lookup_insert_ne by lia.
Qed.

Lemma put_length l i v : length (put l i v) = length l.
Proof. apply length_insert. Qed.

(** ** The used blocks *)

(** The parts of a pool that operations on blocks leave alone. *)
Record same_frame (p p' : AudioPool) : Prop := {
  sf_region : region p' = region p;
  sf_bsize : block_size p' = block_size p;
  sf_count : block_count p' = block_count p;
  sf_objects : objects p' = objects p;
  sf_gens : generations p' = generations p;
  sf_owner : length (owner p') = length (owner p);
  sf_next : length (next p') = length (next p);
  sf_words : same_words (used_map p) (used_map p')
}.

#[export] Instance same_frame_refl : Reflexive same_frame.
Proof. by intros p. Qed.
#[export] Instance same_frame_trans : Transitive same_frame.
Proof.
  intros p q r H1 H2. destruct H1, H2. split; try congruence. unfold same_words in *.
  destruct sf_words0 as (?&?&?), sf_words1 as (?&?&?). split_and!; congruence.
Qed.


Record used (m : mem) (p : AudioPool) (U : list Z) : Prop := {
  us_bsize : block_size p = AUDIO_POOL_BLOCK_SIZE;
  us_count : 0 < block_count p < 0x100000000;
  us_owner : Z.of_nat (length (owner p)) = block_count p;
  us_next : Z.of_nat (length (next p)) = block_count p;
  us_nbits : bs_nbits (used_map p) = block_count p;
  us_sim : bitset_sim m (used_map p) (fun b => bool_decide (b ∈ U));
  us_nodup : NoDup U;
  us_range : Forall (fun b => 0 <= b < block_count p) U;
  us_free : free_blocks p = block_count p - Z.of_nat (length U)
}.

Lemma range_nodup_length (U : list Z) n : NoDup U -> Forall (fun b => 0 <= b < n) U ->
  Z.of_nat (length U) <= Z.max 0 n.
Proof.
  intros Hd Hr. assert (length U <= length (map Z.of_nat (seq 0 (Z.to_nat n))))%nat as H.
  { apply submseteq_length, NoDup_submseteq; [done|]. intros b Hb.
    rewrite Forall_forall in Hr. specialize (Hr b Hb).
    apply list_elem_of_In, in_map_iff. exists (Z.to_nat b). rewrite in_seq. lia. }
  rewrite length_map, length_seq in H. lia.
Qed.

Lemma pool_used_bound m p U : used m p U -> Z.of_nat (length U) <= block_count p.
Proof.
  intros Hu. pose proof (range_nodup_length U _ (us_nodup _ _ _ Hu) (us_range _ _ _ Hu)).
  pose proof (us_count _ _ _ Hu). lia.
Qed.

Lemma used_perm m p U U' : used m p U -> U ≡ₚ U' -> used m p U'.
Proof.
  intros [] E. split; try done.
  - eapply sim_ext; [done|]. intros i _. apply bool_decide_ext. by rewrite E.
  - by rewrite <-E.
  - by rewrite <-E.
  - by rewrite <-E.
Qed.

Lemma used_mem m m' p U : used m p U -> mem_ok m' ->
  mem_agree (in_words (used_map p)) m m' -> used m' p U.
Proof. intros [] ??. split; try done. by eapply sim_frame. Qed.

(** There is a free block as long as not all are used. *)
Lemma free_block_exists (U : list Z) n : Z.of_nat (length U) < n -> 0 < n ->
  exists b, least (fun i => negb (bool_decide (i ∈ U))) (Z.to_nat n) = b /\ 0 <= b < n /\ b ∉ U.
Proof.
  intros Hl Hn. unfold least.
  destruct (find _ _) as [i|] eqn:E.
  - apply find_some in E as [Hi%in_seq Ht]. eexists. split; [done|]. split; [lia|].
    apply negb_true_iff, bool_decide_eq_false in Ht. done.
  - exfalso. assert (length (map Z.of_nat (seq 0 (Z.to_nat n))) <= length U)%nat as H.
    { apply submseteq_length, NoDup_submseteq.
      - apply NoDup_fmap_2; [intros ?? [=]; lia|]. apply NoDup_ListNoDup, seq_NoDup.
      - intros b Hb. apply list_elem_of_In, in_map_iff in Hb as (i & <- & Hi).
        pose proof (find_none _ _ E i Hi) as Hf. cbn in Hf.
        by apply negb_false_iff, bool_decide_eq_true in Hf. }
    rewrite length_map, length_seq in H. lia.
Qed.

Lemma elem_cons_bool (i b : Z) (U : list Z) :
  bool_decide (i ∈ (b :: U)) = bool_decide (i ∈ U) || (i =? b).
Proof.
  rewrite (bool_decide_ext (i ∈ (b :: U)) ((i ∈ U) \/ i = b)) by (rewrite elem_of_cons; tauto).
  rewrite bool_decide_or. f_equal. by destruct (Z.eqb_spec i b); case_bool_decide.
Qed.

Lemma alloc_one_spec m p U : used m p U -> Z.of_nat (length U) < block_count p ->
  exists b m' p', alloc_one_block m p = (b, m', p') /\
    0 <= b < block_count p /\ (b ∉ U) /\ used m' p' (b :: U) /\
    mem_frame (bs_words (used_map p)) (4 * bs_nwords (used_map p)) m m' /\
    same_frame p p' /\ next p' = next p /\ owner p' = owner p.
Proof.
  intros Hu Hl. pose proof (us_count _ _ _ Hu) as Hc. pose proof (us_free _ _ _ Hu) as Hf.
  unfold alloc_one_block. rewrite (proj2 (Z.eqb_neq (free_blocks p) 0)) by lia.
  pose proof (find_first_clear_sim m (used_map p) _ (us_sim _ _ _ Hu)) as [Eb Hs].
  pose proof (find_first_clear_words m (used_map p)) as Hw.
  destruct (bitset_find_first_clear m (used_map p)) as [b bs]. cbn [fst snd] in *.
  rewrite (us_nbits _ _ _ Hu) in Eb.
  destruct (free_block_exists U (block_count p)) as (b' & E & Hb & Hn); [lia..|].
  rewrite <-Eb in E. subst b'.
  rewrite (proj2 (Z.eqb_neq b BITSET_NPOS)) by (unfold BITSET_NPOS; lia).
  rewrite u32_small by (umach; lia).
  eexists b, _, _. split; [done|]. split; [done|]. split; [done|].
  pose proof (set_sim m bs _ b Hs ltac:(lia)) as Hs'.
  pose proof (set_frame m bs _ b Hs ltac:(lia)) as Hfr.
  destruct Hw as (Ew & En & Ewn). rewrite Ew, Ewn in Hfr.
  split; [|by split_and!]. destruct Hu. split; cbn; try done.
  - by rewrite En.
  - eapply sim_ext; [done|]. intros i Hi. cbn. by rewrite elem_cons_bool.
  - by constructor.
  - by constructor.
  - rewrite u32_small by (umach; lia). lia.
Qed.

Lemma free_one_spec m p b U : used m p (b :: U) ->
  exists m' p', free_one_block m p b = (m', p') /\ used m' p' U /\
    mem_frame (bs_words (used_map p)) (4 * bs_nwords (used_map p)) m m' /\
    same_frame p p' /\ next p' = put (next p) b AUDIO_POOL_NO_BLOCK /\
    owner p' = put (owner p) b AUDIO_POOL_NO_BLOCK.
Proof.
  intros Hu. pose proof (us_count _ _ _ Hu) as Hc. pose proof (us_free _ _ _ Hu) as Hf. cbn [length] in Hf.
  pose proof (pool_used_bound _ _ _ Hu) as Hub. cbn [length] in Hub.
  pose proof (us_range _ _ _ Hu) as Hr. apply Forall_cons in Hr as [Hb Hr].
  pose proof (us_nodup _ _ _ Hu) as Hd. apply NoDup_cons in Hd as [Hn Hd].
  unfold free_one_block. rewrite (proj2 (Z.leb_gt (block_count p) b)) by lia.
  rewrite (test_sim _ _ _ b (us_sim _ _ _ Hu)) by lia. rewrite (us_nbits _ _ _ Hu).
  rewrite (proj2 (Z.ltb_lt b _)), elem_cons_bool, Z.eqb_refl, orb_true_r by lia. cbn [andb].
  pose proof (clear_sim m _ _ b (us_sim _ _ _ Hu) ltac:(lia)) as Hs.
  pose proof (clear_frame m _ _ b (us_sim _ _ _ Hu) ltac:(lia)) as Hfr.
  pose proof (clear_words m (used_map p) b) as Hw.
  destruct (bitset_clear m (used_map p) b) as [m' bs]. cbn [fst snd] in *.
  eexists m', _. split; [done|]. split; [|split_and!; try done].
  - destruct Hw as (Ew & En & Ewn), Hu. split; cbn; rewrite ?put_length; try done.
    + by rewrite En.
    + eapply sim_ext; [done|]. intros i Hi. cbn. rewrite elem_cons_bool.
      destruct (Z.eqb_spec i b) as [->|]; [|by rewrite orb_false_r, andb_true_r].
      rewrite andb_false_r. by rewrite bool_decide_eq_false_2.
    + rewrite u32_small by (umach; lia). lia.
  - split; cbn; rewrite ?put_length; done.
Qed.

(** ** Chains *)

(** [c] is the chain that starts at [b], in an array [nx] of successors. *)
Fixpoint chain_at (nx : list Z) (b : Z) (c : list Z) : Prop :=
  match c with
  | [] => b = AUDIO_POOL_NO_BLOCK
  | x :: c => b = x /\ chain_at nx (at_ nx x) c
  end.

Lemma chain_at_ext nx nx' c : forall b, chain_at nx b c ->
  (forall x, x ∈ c -> at_ nx' x = at_ nx x) -> chain_at nx' b c.
Proof.
  induction c as [|x c IH]; intros b Hc E; [done|]. destruct Hc as [-> Hc]. split; [done|].
  rewrite E by apply list_elem_of_here. apply IH; [done|]. intros y Hy. apply E. by apply list_elem_of_further.
Qed.

(** Blocks in range are told from the end mark. *)
Lemma block_not_none m p U b : used m p U -> 0 <= b < block_count p -> (b =? AUDIO_POOL_NO_BLOCK) = false.
Proof.
  intros Hu Hb. pose proof (us_count _ _ _ Hu). apply Z.eqb_neq. unfold AUDIO_POOL_NO_BLOCK. lia.
Qed.

(** Giving back the chain [c]: its blocks leave the used ones, and only their
    entries of [next] and [owner] change. *)
Lemma free_chain_spec fuel c : forall m p b U, used m p (c ++ U) -> chain_at (next p) b c ->
  (length c < fuel)%nat ->
  exists m' p', free_chain_loop fuel m p b = Some (m', p') /\ used m' p' U /\
    mem_frame (bs_words (used_map p)) (4 * bs_nwords (used_map p)) m m' /\ same_frame p p' /\
    (forall x, 0 <= x -> x ∉ c -> at_ (next p') x = at_ (next p) x /\ at_ (owner p') x = at_ (owner p) x).
Proof.
  revert fuel. induction c as [|x c IH]; intros fuel m p b U Hu Hc Hf; (destruct fuel as [|fuel]; [cbn in Hf; lia|]).
  - cbn in Hc |- *. subst b. rewrite Z.eqb_refl. exists m, p. split_and!; done || by intros.
  - cbn [app] in Hu. pose proof (us_range _ _ _ Hu) as Hr. apply Forall_cons in Hr as [Hx Hr].
    pose proof (us_nodup _ _ _ Hu) as Hd. apply NoDup_cons in Hd as [Hn Hd].
    destruct Hc as [-> Hc]. cbn [free_chain_loop]. rewrite (block_not_none _ _ _ _ Hu Hx).
    pose proof (us_next _ _ _ Hu). pose proof (us_owner _ _ _ Hu).
    destruct (free_one_spec m p x (c ++ U) Hu) as (m1 & p1 & -> & Hu1 & Hfr & Hsf & En & Eo).
    assert (forall y, y ∈ c -> 0 <= y /\ y <> x) as Hcx.
    { intros y Hy. rewrite Forall_forall in Hr. split; [apply Hr, elem_of_app; by left|]. intros ->. by apply Hn, elem_of_app; left. }
    destruct (IH fuel m1 p1 (at_ (next p) x) U Hu1) as (m2 & p2 & -> & Hu2 & Hfr2 & Hsf2 & E2); [|cbn in Hf; lia|].
    { eapply chain_at_ext; [done|]. intros y Hy. destruct (Hcx y Hy). rewrite En, at_put by lia.
      by rewrite decide_False. }
    eexists m2, p2. split; [done|]. split; [done|].
    destruct (sf_words _ _ Hsf) as (Ew & _ & Ewn). rewrite Ew, Ewn in Hfr2.
    split; [by rewrite Hfr|]. split; [by rewrite Hsf|].
    intros y Hy Hyc. rewrite elem_of_cons in Hyc.
    destruct (E2 y Hy ltac:(tauto)) as [-> ->]. rewrite En, Eo, !at_put by lia.
    by rewrite !decide_False by tauto.
Qed.

(** Appending a block at the end of a chain. *)
Lemma chain_at_snoc nx c prev b : forall h, chain_at nx h (c ++ [prev]) ->
  Forall (fun x => 0 <= x < Z.of_nat (length nx)) (b :: c ++ [prev]) -> NoDup (b :: c ++ [prev]) ->
  chain_at (put (put nx b AUDIO_POOL_NO_BLOCK) prev b) h ((c ++ [prev]) ++ [b]).
Proof.
  induction c as [|x c IH]; intros h Hc Hr Hd.
  - destruct Hc as [-> _]. cbn in *. rewrite !Forall_cons in Hr. destruct Hr as (Hb & Hp & _).
    apply NoDup_cons in Hd as [Hbp _]. rewrite elem_of_cons in Hbp. split; [done|].
    rewrite !at_put by (rewrite ?put_length; lia). rewrite decide_True by done. split; [done|].
    rewrite decide_False by tauto. by rewrite decide_True.
  - destruct Hc as [-> Hc]. cbn in *. rewrite !Forall_cons in Hr. destruct Hr as (Hb & Hx & Hr).
    apply NoDup_cons in Hd as [Hbn Hd]. apply NoDup_cons in Hd as [Hxn Hd].
    rewrite elem_of_cons, elem_of_app, elem_of_cons in Hbn. rewrite elem_of_app, elem_of_cons in Hxn.
    pose proof Hr as Hp. rewrite Forall_app, Forall_singleton in Hp. destruct Hp as [_ Hp].
    split; [done|]. rewrite !at_put by (rewrite ?put_length; lia).
    rewrite !decide_False by (intros ->; tauto). apply IH; [done|by constructor|].
    constructor; [|done]. rewrite elem_of_app, elem_of_cons. tauto.
Qed.

(** What a sequence of block operations on the chain [c] leaves alone. *)
Record outside (c : list Z) (m : mem) (p : AudioPool) (m' : mem) (p' : AudioPool) : Prop := {
  ou_mem : mem_frame (bs_words (used_map p)) (4 * bs_nwords (used_map p)) m m';
  ou_frame : same_frame p p';
  ou_next x : 0 <= x -> x ∉ c -> at_ (next p') x = at_ (next p) x;
  ou_owner x : 0 <= x -> x ∉ c -> at_ (owner p') x = at_ (owner p) x
}.

Lemma outside_refl c m p : outside c m p m p.
Proof. by split. Qed.

Lemma outside_trans c c' m1 p1 m2 p2 m3 p3 : outside c m1 p1 m2 p2 -> outside c' m2 p2 m3 p3 ->
  c ⊆ c' -> outside c' m1 p1 m3 p3.
Proof.
  intros [Hm Hf Hn Ho] [Hm' Hf' Hn' Ho'] Hc. destruct (sf_words _ _ Hf) as (Ew & _ & Ewn).
  rewrite Ew, Ewn in Hm'. split; [by rewrite Hm|by rewrite Hf| |].
  - intros x Hx Hxc. rewrite Hn' by done. apply Hn; [done|]. intros ?. by apply Hxc, Hc.
  - intros x Hx Hxc. rewrite Ho' by done. apply Ho; [done|]. intros ?. by apply Hxc, Hc.
Qed.

(** One round of [build_chain]: the block [b] joins the chain [c]. *)
Lemma build_round m p slot c head prev U : used m p (c ++ U) -> chain_at (next p) head c ->
  (c = [] /\ head = AUDIO_POOL_NO_BLOCK /\ prev = AUDIO_POOL_NO_BLOCK) \/ (exists c', c = c' ++ [prev]) ->
  Z.of_nat (length (c ++ U)) < block_count p -> Forall (fun x => at_ (owner p) x = slot) c ->
  exists b m' p1, alloc_one_block m p = (b, m', p1) /\ 0 <= b < block_count p /\
    let p2 := set_next (set_owner p1 b slot) b AUDIO_POOL_NO_BLOCK in
    let p3 := if prev =? AUDIO_POOL_NO_BLOCK then p2 else set_next p2 prev b in
    let head' := if prev =? AUDIO_POOL_NO_BLOCK then b else head in
    used m' p3 ((c ++ [b]) ++ U) /\ chain_at (next p3) head' (c ++ [b]) /\
    Forall (fun x => at_ (owner p3) x = slot) (c ++ [b]) /\ outside (c ++ [b]) m p m' p3.
Proof.
  intros Hu Hc Hprev Hl Hown.
  destruct (alloc_one_spec m p (c ++ U) Hu Hl) as (b & m' & p1 & E & Hb & Hbn & Hu1 & Hfr & Hsf & En & Eo).
  exists b, m', p1. split; [done|]. split; [done|]. cbv zeta.
  pose proof (us_count _ _ _ Hu1) as Hcnt. pose proof (us_next _ _ _ Hu1) as Hln. pose proof (us_owner _ _ _ Hu1) as Hlo.
  rewrite (sf_count _ _ Hsf) in *. rewrite En in Hln. rewrite Eo in Hlo.
  rewrite elem_of_app in Hbn. pose proof (us_range _ _ _ Hu) as Hr. rewrite Forall_app in Hr. destruct Hr as [Hr _].
  pose proof (us_nodup _ _ _ Hu) as Hd. apply NoDup_app in Hd as (Hd & _ & _).
  assert (forall x, x ∈ c -> 0 <= x < block_count p /\ x <> b) as Hcx.
  { intros x Hx. rewrite Forall_forall in Hr. split; [by apply Hr|]. intros ->. tauto. }
  assert (Forall (fun x => at_ (put (owner p) b slot) x = slot) (c ++ [b])) as Hown'.
  { rewrite Forall_app, Forall_singleton. rewrite at_put, decide_True by lia. split; [|done].
    rewrite Forall_forall in *. intros x Hx. destruct (Hcx x Hx). rewrite at_put, decide_False by lia. auto. }
  assert ((c ++ [b]) ++ U ≡ₚ b :: c ++ U) as Hperm.
  { rewrite <-app_assoc. cbn. by rewrite Permutation_middle. }
  assert (forall x, 0 <= x -> x ∉ c ++ [b] -> (x ∉ c) /\ x <> b) as Hout.
  { intros x Hx. rewrite elem_of_app, elem_of_cons. tauto. }
  assert (outside (c ++ [b]) m p m' (set_next (set_owner p1 b slot) b AUDIO_POOL_NO_BLOCK)) as Hout2.
  { destruct Hsf. split; [done| | |].
    - split; cbn; rewrite ?put_length; done.
    - intros x Hx Hxc. destruct (Hout x Hx Hxc). cbn. by rewrite En, at_put, decide_False by lia.
    - intros x Hx Hxc. destruct (Hout x Hx Hxc). cbn. by rewrite Eo, at_put, decide_False by lia. }
  assert (used m' (set_next (set_owner p1 b slot) b AUDIO_POOL_NO_BLOCK) ((c ++ [b]) ++ U)) as Hu2.
  { apply (used_perm _ _ (b :: c ++ U)); [|done]. destruct Hu1. split; cbn; rewrite ?put_length; done. }
  destruct Hprev as [(-> & -> & ->)|(c' & ->)].
  - rewrite Z.eqb_refl. split; [done|]. split; [|split; [by cbn; rewrite Eo|done]].
    cbn. split; [done|]. rewrite En, at_put, decide_True by lia. done.
  - destruct (Hcx prev) as [Hp Hpb]; [rewrite elem_of_app, elem_of_cons; tauto|].
    rewrite (block_not_none _ _ _ _ Hu Hp). split; [|split; [|split]].
    + destruct Hu2. cbn [next set_next] in us_next0. rewrite put_length in us_next0.
      split; cbn [next set_next]; rewrite ?put_length; done.
    + cbn. rewrite En. apply chain_at_snoc; [done|..].
      * constructor; [lia|]. rewrite Forall_forall in *. intros x Hx. destruct (Hcx x Hx). lia.
      * constructor; [tauto|done].
    + cbn. by rewrite Eo.
    + destruct Hout2 as [? Hsf2 On Oo]. split; [done| |intros x Hx Hxc|done].
      * destruct Hsf2. split; cbn in *; rewrite ?put_length in *; done.
      * rewrite <-On by done. cbn. rewrite at_put by (rewrite ?put_length, ?En; lia).
        rewrite decide_False; [done|]. intros ->. apply Hxc. rewrite !elem_of_app, elem_of_cons. tauto.
Qed.

Lemma build_chain_spec n slot U : forall m p c head prev, used m p (c ++ U) -> chain_at (next p) head c ->
  (c = [] /\ head = AUDIO_POOL_NO_BLOCK /\ prev = AUDIO_POOL_NO_BLOCK) \/ (exists c', c = c' ++ [prev]) ->
  Z.of_nat (length (c ++ U)) + Z.of_nat n <= block_count p -> Forall (fun x => at_ (owner p) x = slot) c ->
  exists m' p' c2 head', build_chain n m p slot head prev = Some (m', p', inr head') /\
    length c2 = (length c + n)%nat /\ c ⊆ c2 /\ used m' p' (c2 ++ U) /\ chain_at (next p') head' c2 /\
    Forall (fun x => at_ (owner p') x = slot) c2 /\ outside c2 m p m' p'.
Proof.
  induction n as [|n IH]; intros m p c head prev Hu Hc Hprev Hl Hown.
  { exists m, p, c, head. split; [done|]. split; [lia|]. by split_and!. }
  destruct (build_round m p slot c head prev U Hu Hc Hprev ltac:(lia) Hown)
    as (b & m1 & p1 & E & Hb & Hu3 & Hc3 & Hown3 & Ho3).
  set (p2 := set_next (set_owner p1 b slot) b AUDIO_POOL_NO_BLOCK) in *.
  set (p3 := if prev =? AUDIO_POOL_NO_BLOCK then p2 else set_next p2 prev b) in *.
  set (h3 := if prev =? AUDIO_POOL_NO_BLOCK then b else head) in *.
  assert (build_chain (S n) m p slot head prev = build_chain n m1 p3 slot h3 b) as ->.
  { cbn [build_chain]. rewrite E, (block_not_none _ _ _ _ Hu Hb). subst p3 h3. by destruct (prev =? _). }
  pose proof (sf_count _ _ (ou_frame _ _ _ _ _ Ho3)) as Ecnt.
  destruct (IH m1 p3 (c ++ [b]) h3 b Hu3 Hc3 ltac:(eauto)) as (m' & p' & c2 & h' & E2 & Hlen & Hsub & Hu' & Hc' & Hown' & Ho').
  { rewrite Ecnt, !length_app in *. cbn. lia. }
  { done. }
  exists m', p', c2, h'. split; [done|]. rewrite length_app in Hlen. cbn in Hlen. split; [lia|].
  split; [|split_and!; try done].
  - intros x Hx. apply Hsub, elem_of_app. by left.
  - by eapply outside_trans.
Qed.

(** ** The bytes of a chain *)

Definition block_bytes (m : mem) (p : AudioPool) (b : Z) : list Z :=
  mem_read m (block_at p b) (block_size p).
Definition chain_bytes (m : mem) (p : AudioPool) (c : list Z) : list Z :=
  concat (map (block_bytes m p) c).

Lemma chain_bytes_length m p c : 0 <= block_size p ->
  Z.of_nat (length (chain_bytes m p c)) = Z.of_nat (length c) * block_size p.
Proof.
  intros. unfold chain_bytes. induction c as [|b c IH]; [done|]. cbn [map concat length].
  rewrite length_app. unfold block_bytes at 1. rewrite mem_read_length. lia.
Qed.

(** The loop of [seek_block] drops blocks from the front of the chain. *)
Lemma seek_loop_spec m p U k : forall c b, used m p U -> chain_at (next p) b c ->
  Forall (fun x => 0 <= x < block_count p) c ->
  chain_at (next p) (seek_loop k p b) (drop k c).
Proof.
  induction k as [|k IH]; intros c b Hu Hc Hr; [done|]. destruct c as [|x c].
  - cbn in Hc |- *. subst b. by rewrite Z.eqb_refl.
  - destruct Hc as [-> Hc]. apply Forall_cons in Hr as [Hx Hr].
    cbn [seek_loop drop]. rewrite (block_not_none _ _ _ _ Hu Hx). by apply IH.
Qed.

Lemma chain_bytes_drop m p c k : 0 <= block_size p ->
  drop (k * Z.to_nat (block_size p)) (chain_bytes m p c) = chain_bytes m p (drop k c).
Proof.
  intros Hb. revert c. induction k as [|k IH]; intros c; [done|]. destruct c as [|b c]; [exact (drop_nil _)|].
  cbn [drop]. rewrite <-IH. unfold chain_bytes. cbn [map concat]. rewrite drop_app_ge.
  - unfold block_bytes. rewrite mem_read_length. f_equal. lia.
  - unfold block_bytes. rewrite mem_read_length. lia.
Qed.
