(* ===== verification/AudioPoolData.v ===== *)
(** Reading and writing the bytes of an object across its chain of blocks. *)
From S2P Require Import Prelude HostMem Bitset AudioPool AudioPoolInv.

#[local] Open Scope Z_scope.

(** ** Lists of bytes *)

(** [s] written over [l] from position [i]. *)
Definition splice (l : list Z) (i : nat) (s : list Z) : list Z :=
  take i l ++ s ++ drop (i + length s) l.

Lemma splice_length l i s : (i + length s <= length l)%nat -> length (splice l i s) = length l.
Proof. intros. unfold splice. rewrite !length_app, length_take, length_drop. lia. Qed.

(** Writing across the border of two lists. *)
Lemma splice_across l1 l2 i s1 s2 : (i + length s1 = length l1)%nat ->
  splice (l1 ++ l2) i (s1 ++ s2) = splice l1 i s1 ++ splice l2 0 s2.
Proof.
  intros E. unfold splice. rewrite (take_app_le l1 l2) by lia. rewrite <-!app_assoc. f_equal. f_equal.
  rewrite (drop_ge l1) by lia. rewrite length_app, drop_app_ge by lia.
  replace (i + (length s1 + length s2) - length l1)%nat with (length s2) by lia. done.
Qed.

(** Writing that ends in the first list. *)
Lemma splice_first l1 l2 i s : (i + length s <= length l1)%nat ->
  splice (l1 ++ l2) i s = splice l1 i s ++ l2.
Proof.
  intros E. unfold splice. rewrite (take_app_le l1 l2) by lia. rewrite <-!app_assoc.
  by rewrite (drop_app_le l1 l2) by lia.
Qed.

Lemma splice_nil l i : splice l i [] = l.
Proof. unfold splice. cbn. rewrite Nat.add_0_r. apply take_drop. Qed.

(** Writing further on. *)
Lemma splice_drop l k i s : (k <= length l)%nat ->
  splice l (k + i) s = take k l ++ splice (drop k l) i s.
Proof.
  intros E. unfold splice. rewrite <-(take_drop k l) at 1.
  rewrite take_app_ge by (rewrite length_take; lia). rewrite length_take, Nat.min_l by lia.
  replace (k + i - k)%nat with i by lia. rewrite <-app_assoc. do 3 f_equal.
  rewrite drop_drop. f_equal. lia.
Qed.

Lemma mem_read_sub m a n i k : 0 <= i -> 0 <= k -> i + k <= n ->
  mem_read m (a + i) k = take (Z.to_nat k) (drop (Z.to_nat i) (mem_read m a n)).
Proof.
  intros Hi Hk Hn. replace n with (i + (n - i)) by lia. rewrite mem_read_app by lia.
  rewrite drop_app_ge by (rewrite mem_read_length; lia). rewrite mem_read_length, Nat.sub_diag.
  by rewrite drop_0, mem_read_take by lia.
Qed.

(** A write inside a range that is read. *)
Lemma mem_read_splice m a n i bs : 0 <= i -> i + Z.of_nat (length bs) <= n ->
  mem_read (mem_write m (a + i) bs) a n = splice (mem_read m a n) (Z.to_nat i) bs.
Proof.
  intros Hi Hn. set (k := Z.of_nat (length bs)) in *. unfold splice.
  replace n with (i + (k + (n - i - k))) at 1 by lia. rewrite !mem_read_app by lia.
  rewrite (mem_read_write_disj _ _ _ a i) by (unfold rdisj; lia).
  rewrite mem_read_write_eq by done.
  rewrite mem_read_write_disj by (unfold rdisj; lia).
  rewrite mem_read_take by lia. do 2 f_equal.
  replace (Z.to_nat i + length bs)%nat with (Z.to_nat (i + k)) by lia.
  replace n with ((i + k) + (n - i - k)) at 2 by lia. rewrite (mem_read_app _ _ (i + k)) by lia.
  rewrite drop_app_ge by (rewrite mem_read_length; lia). rewrite mem_read_length, Nat.sub_diag.
  rewrite drop_0. f_equal. lia.
Qed.

(** ** Blocks of the region *)

(** [x] lies in the region carved into blocks. *)
Definition in_region (p : AudioPool) (x : Z) : Prop := rng (region p) (block_count p * block_size p) x.

Lemma block_in_region p b x : 0 < block_size p -> 0 <= b < block_count p ->
  rng (block_at p b) (block_size p) x -> in_region p x.
Proof. unfold in_region, block_at, rng. nia. Qed.

Lemma blocks_apart p b b' x : 0 < block_size p -> b <> b' ->
  rng (block_at p b) (block_size p) x -> rng (block_at p b') (block_size p) x -> False.
Proof. unfold block_at, rng. nia. Qed.

(** Stores outside the region leave every chain's bytes. *)
Lemma chain_bytes_agree m m' p c : 0 < block_size p -> Forall (fun b => 0 <= b < block_count p) c ->
  mem_agree (in_region p) m m' -> chain_bytes m' p c = chain_bytes m p c.
Proof.
  intros Hb Hr Ha. unfold chain_bytes. f_equal. apply map_ext_in. intros b Hin%list_elem_of_In.
  rewrite Forall_forall in Hr. symmetry. apply mem_read_agree. intros x Hx. apply Ha.
  by eapply block_in_region; [..|by apply Hr|].
Qed.

Section Copy.
Context (p : AudioPool) (BS : 0 < block_size p) (CNT : block_count p < 0x100000000).

Lemma chain_cons_bytes m b c : chain_bytes m p (b :: c) = block_bytes m p b ++ chain_bytes m p c.
Proof using. done. Qed.

Lemma block_bytes_len m b : length (block_bytes m p b) = Z.to_nat (block_size p).
Proof using. apply mem_read_length. Qed.

(** The bytes of the chain from [in_off], as far as [n] and the chain go, end up
    at the destination. *)
Lemma pool_read_loop_spec dst n c : forall fuel m b in_off copied,
  chain_at (next p) b c -> Forall (fun x => 0 <= x < block_count p) c ->
  rdisj (region p) (block_count p * block_size p) dst n -> 0 <= in_off < block_size p ->
  0 <= copied <= n -> n - copied < Z.of_nat fuel ->
  let k := Z.min (n - copied) (Z.max 0 (Z.of_nat (length (chain_bytes m p c)) - in_off)) in
  exists m', read_loop fuel m p b in_off dst n copied = Some (m', copied + k) /\
    mem_read m' (dst + copied) k = take (Z.to_nat k) (drop (Z.to_nat in_off) (chain_bytes m p c)) /\
    mem_frame (dst + copied) k m m' /\ (mem_ok m -> mem_ok m').
Proof using BS CNT.
  induction c as [|x c IH]; intros fuel m b in_off copied Hc Hr Hd Hin Hco Hf k;
    (destruct fuel as [|fuel]; [lia|]); cbn [read_loop].
  { cbn in Hc. subst b. rewrite Z.eqb_refl, andb_false_r. exists m.
    assert (k = 0) as -> by (subst k; cbn; lia). rewrite Z.add_0_r. by split_and!. }
  destruct Hc as [-> Hc]. apply Forall_cons in Hr as [Hx Hr].
  rewrite (proj2 (Z.eqb_neq x AUDIO_POOL_NO_BLOCK)) by (unfold AUDIO_POOL_NO_BLOCK; lia). rewrite andb_true_r.
  destruct (Z.ltb_spec copied n) as [Hlt|Hge].
  2: { exists m. assert (k = 0) as -> by lia. rewrite Z.add_0_r. by split_and!. }
  set (chunk := if n - copied <? block_size p - in_off then n - copied else block_size p - in_off).
  assert (0 < chunk /\ chunk = Z.min (n - copied) (block_size p - in_off)) as [Hch Ech].
  { subst chunk. destruct (Z.ltb_spec (n - copied) (block_size p - in_off)); lia. }
  set (m1 := memcpy m (dst + copied) (block_at p x + in_off) chunk).
  assert (mem_frame (dst + copied) chunk m m1) as Hfr1 by (apply memcpy_frame; lia).
  assert (chain_bytes m1 p c = chain_bytes m p c) as Ecb.
  { apply chain_bytes_agree; [lia|done|]. intros y Hy. apply Hfr1. unfold in_region, rng, rdisj in *. lia. }
  pose proof (block_bytes_len m x) as Hlx.
  destruct (IH fuel m1 (at_ (next p) x) 0 (copied + chunk) Hc Hr Hd) as (m' & E & Er & Hfr & Hok); [lia..|].
  rewrite Ecb in *. rewrite Z.sub_0_r in *. set (L := Z.of_nat (length (chain_bytes m p c))) in *.
  set (k' := Z.min (n - (copied + chunk)) (Z.max 0 L)) in *.
  assert (k = chunk + k') as ->.
  { subst k k'. rewrite chain_cons_bytes, length_app, Hlx. lia. }
  exists m'. split; [rewrite E; do 2 f_equal; lia|]. split.
  - rewrite mem_read_app by lia. replace (dst + copied + chunk) with (dst + (copied + chunk)) by lia.
    rewrite Er. rewrite (mem_read_frame _ _ _ _ _ _ Hfr) by (unfold rdisj; lia).
    unfold m1. rewrite memcpy_read, (mem_read_sub m (block_at p x) (block_size p)) by lia.
    rewrite chain_cons_bytes, drop_app_le by lia. fold (block_bytes m p x). cbn [drop].
    rewrite Z2Nat.inj_add by lia. rewrite take_app. rewrite length_drop, Hlx.
    replace (Z.to_nat chunk + Z.to_nat k' - (Z.to_nat (block_size p) - Z.to_nat in_off))%nat with (Z.to_nat k') by lia.
    f_equal. destruct (decide (k' = 0)) as [->|]; [by rewrite Nat.add_0_r|].
    rewrite !take_ge; [done|rewrite length_drop; lia..].
  - split; [|by intros; apply Hok, memcpy_ok].
    etrans; eapply mem_frame_mono; [| |exact Hfr1| | |exact Hfr]; lia.
Qed.

(** The stores agree outside the blocks of [c]. *)
Definition only_blocks (c : list Z) (m m' : mem) : Prop :=
  forall y, (forall b, b ∈ c -> ~ rng (block_at p b) (block_size p) y) -> m y = m' y.

Lemma only_blocks_region c m m' : Forall (fun x => 0 <= x < block_count p) c ->
  only_blocks c m m' -> mem_agree (fun y => ~ in_region p y) m m'.
Proof using BS.
  intros Hr H y Hy. apply H. intros b Hb Hrg. apply Hy. rewrite Forall_forall in Hr.
  by eapply block_in_region; [..|by apply Hr|].
Qed.

Lemma only_blocks_bytes c m m' x : only_blocks c m m' -> x ∉ c ->
  block_bytes m' p x = block_bytes m p x.
Proof using BS.
  intros H Hx. symmetry. apply mem_read_agree. intros y Hy. apply H. intros b Hb Hrg.
  apply (blocks_apart p b x y); [done| |done|done]. by intros ->.
Qed.

Lemma only_blocks_chain c c' m m' : only_blocks c m m' -> (forall x, x ∈ c' -> x ∉ c) ->
  chain_bytes m' p c' = chain_bytes m p c'.
Proof using BS.
  intros H Hd. unfold chain_bytes. f_equal. apply map_ext_in. intros x Hx%list_elem_of_In.
  eapply only_blocks_bytes; eauto.
Qed.

(** The source's bytes, as far as the chain goes, replace those of the chain from
    [in_off]; nothing outside the chain's blocks changes. *)
Lemma pool_write_loop_spec src n c : forall fuel m b in_off written,
  chain_at (next p) b c -> Forall (fun x => 0 <= x < block_count p) c -> NoDup c ->
  rdisj (region p) (block_count p * block_size p) src n -> 0 <= in_off < block_size p ->
  0 <= written <= n -> n - written < Z.of_nat fuel -> mem_ok m ->
  let k := Z.min (n - written) (Z.max 0 (Z.of_nat (length (chain_bytes m p c)) - in_off)) in
  exists m', write_loop fuel m p b in_off src n written = Some (m', written + k) /\
    chain_bytes m' p c =
      splice (chain_bytes m p c) (Z.to_nat in_off) (mem_read m (src + written) k) /\
    only_blocks c m m' /\ mem_ok m'.
Proof using BS CNT.
  induction c as [|x c IH]; intros fuel m b in_off written Hc Hr Hnd Hd Hin Hco Hf Hm k;
    (destruct fuel as [|fuel]; [lia|]); cbn [write_loop].
  { cbn in Hc. subst b. rewrite Z.eqb_refl, andb_false_r. exists m.
    assert (k = 0) as -> by (subst k; cbn; lia). rewrite Z.add_0_r, splice_nil. by split_and!. }
  destruct Hc as [-> Hc]. apply Forall_cons in Hr as [Hx Hr]. apply NoDup_cons in Hnd as [Hxc Hnd].
  rewrite (proj2 (Z.eqb_neq x AUDIO_POOL_NO_BLOCK)) by (unfold AUDIO_POOL_NO_BLOCK; lia). rewrite andb_true_r.
  destruct (Z.ltb_spec written n) as [Hlt|Hge].
  2: { exists m. assert (k = 0) as -> by lia. rewrite Z.add_0_r, splice_nil. by split_and!. }
  set (chunk := if n - written <? block_size p - in_off then n - written else block_size p - in_off).
  assert (0 < chunk /\ chunk = Z.min (n - written) (block_size p - in_off)) as [Hch Ech].
  { subst chunk. destruct (Z.ltb_spec (n - written) (block_size p - in_off)); lia. }
  set (bs := mem_read m (src + written) chunk).
  assert (length bs = Z.to_nat chunk) as Hbs by apply mem_read_length.
  set (m1 := memcpy m (block_at p x + in_off) (src + written) chunk).
  assert (block_bytes m1 p x = splice (block_bytes m p x) (Z.to_nat in_off) bs) as Ebx
    by (apply mem_read_splice; lia).
  assert (only_blocks [x] m m1) as Hob1.
  { intros y Hy. symmetry. apply mem_write_out. intros Hrg. apply (Hy x); [apply list_elem_of_here|].
    fold bs in Hrg. unfold rng in *. lia. }
  assert (chain_bytes m1 p c = chain_bytes m p c) as Ecb.
  { apply (only_blocks_chain [x]); [done|]. intros y Hy ->%list_elem_of_singleton. done. }
  pose proof (block_bytes_len m x) as Hlx.
  destruct (IH fuel m1 (at_ (next p) x) 0 (written + chunk) Hc Hr Hnd Hd) as (m' & E & Er & Hob & Hm');
    [lia..|by apply memcpy_ok|].
  rewrite Ecb in *. rewrite Z.sub_0_r in *. set (L := Z.of_nat (length (chain_bytes m p c))) in *.
  set (k' := Z.min (n - (written + chunk)) (Z.max 0 L)) in *.
  assert (k = chunk + k') as ->.
  { subst k k'. rewrite chain_cons_bytes, length_app, Hlx. lia. }
  exists m'. split; [rewrite E; do 2 f_equal; lia|]. split; [|split; [|done]].
  - rewrite !chain_cons_bytes, (only_blocks_bytes c m1 m' x Hob Hxc), Ebx, Er.
    rewrite mem_read_app by lia. fold bs. replace (src + written + chunk) with (src + (written + chunk)) by lia.
    assert (mem_read m1 (src + (written + chunk)) k' = mem_read m (src + (written + chunk)) k') as ->.
    { symmetry. apply mem_read_agree. intros y Hy. apply (only_blocks_region [x] m m1); [by rewrite Forall_singleton|done|].
      unfold in_region, rng, rdisj in *. lia. }
    destruct (decide (chunk = block_size p - in_off)) as [Efull|Hpart].
    + by rewrite splice_across by lia.
    + assert (k' = 0) as -> by lia. rewrite app_nil_r, splice_first by lia. by rewrite splice_nil.
  - intros y Hy. rewrite Hob1, Hob; [done|..].
    + intros b Hb. apply Hy. by right.
    + intros b ->%list_elem_of_singleton. apply Hy. by left.
Qed.
End Copy.
