(* ===== verification/AudioPoolSpec.v ===== *)
(** The table an audio pool holds: objects, each a byte string with a reference count,
    behind handles that die with their object.  [pool_rep] relates a pool in memory to
    such a table, and the operations on the table here are those of the code, its
    32-bit arithmetic included; [AudioPoolOps] shows that the code follows them and
    [AudioPoolTable] compares them with what the header documents. *)
From S2P Require Import Prelude HostMem Bitset AudioPool AudioPoolInv AudioPoolData.

#[local] Open Scope Z_scope.

(** ** The table and the operations of the code on it *)

(** An object: the bytes of its blocks (its size may end before or, after a
    wrapped request, behind them), and what the descriptor says of it. *)
Record aobject := mkAObject {
  ao_data : list Z;
  ao_size : Z;
  ao_refs : Z;
  ao_vm : Z;
  ao_rate : Z
}.

Record apool := mkAPool {
  ap_total : Z;
  ap_slots : list (option aobject);
  ap_gens : list Z
}.

Definition a_blocks (o : option aobject) : nat :=
  match o with Some a => length (ao_data a) / Z.to_nat AUDIO_POOL_BLOCK_SIZE | None => 0 end.
Definition a_free (A : apool) : Z := ap_total A - Z.of_nat (sum_list (map a_blocks (ap_slots A))).
Definition a_slot (A : apool) (s : Z) : option aobject := nth (Z.to_nat s) (ap_slots A) None.
Definition a_set (A : apool) (s : Z) (o : option aobject) : apool :=
  mkAPool (ap_total A) (<[Z.to_nat s := o]> (ap_slots A)) (ap_gens A).

(** The blocks the code takes for a size; it rounds in 32 bits ([need_blocks] of
    [AudioPoolTable] is the documented number). *)
Definition a_need (size : Z) : Z := Z.max 1 (u32 (size + 8191) / 8192).

(** The live slot a handle names. *)
Definition a_resolve (A : apool) (h : Z) : option Z :=
  '(s, g) ← unpack_handle h;
  if AUDIO_POOL_MAX_OBJECTS <=? s then None else
  match a_slot A s with
  | Some _ => if at_ (ap_gens A) s =? g then Some s else None
  | None => None
  end.

Definition a_first_free (A : apool) : option nat :=
  find (fun s => negb (bool_decide (is_Some (a_slot A (Z.of_nat s))))) (seq 0 256).

(** An allocation finds its blocks with the bytes [fresh] in them. *)
Definition a_alloc (A : apool) (size vm rate : Z) (fresh : list Z) : AudioPoolResult * Z * apool :=
  if a_free A <? a_need size then (AUDIO_POOL_ERR_NO_SPACE, 0, A) else
  match a_first_free A with
  | None => (AUDIO_POOL_ERR_NO_OBJECTS, 0, A)
  | Some s =>
    (AUDIO_POOL_OK, pack_handle (Z.of_nat s) (at_ (ap_gens A) (Z.of_nat s)),
     a_set A (Z.of_nat s) (Some (mkAObject fresh size 1 vm rate)))
  end.

Definition a_set_refs (a : aobject) (r : Z) : aobject :=
  mkAObject (ao_data a) (ao_size a) r (ao_vm a) (ao_rate a).
Definition a_set_data (a : aobject) (d : list Z) : aobject :=
  mkAObject d (ao_size a) (ao_refs a) (ao_vm a) (ao_rate a).

Definition a_ref (A : apool) (h : Z) : AudioPoolResult * apool :=
  match a_resolve A h with
  | Some s =>
    match a_slot A s with
    | Some a => (AUDIO_POOL_OK, a_set A s (Some (a_set_refs a (s32 (ao_refs a + 1)))))
    | None => (AUDIO_POOL_ERR_BAD_HANDLE, A)
    end
  | None => (AUDIO_POOL_ERR_BAD_HANDLE, A)
  end.

(** Generations run from 1 to 65535. *)
Definition next_gen (g : Z) : Z := if u16 (g + 1) =? 0 then 1 else u16 (g + 1).

(** One reference less; the last one takes the object and its handles with it. *)
Definition a_drop (A : apool) (s : Z) (a : aobject) : bool * apool :=
  let r := s32 (ao_refs a - 1) in
  if r <=? 0 then
    (true, mkAPool (ap_total A) (<[Z.to_nat s := None]> (ap_slots A)) (put (ap_gens A) s (next_gen (at_ (ap_gens A) s))))
  else (false, a_set A s (Some (a_set_refs a r))).

Definition a_unref (A : apool) (h : Z) : AudioPoolResult * bool * apool :=
  match a_resolve A h with
  | Some s =>
    match a_slot A s with
    | Some a => let '(freed, A) := a_drop A s a in (AUDIO_POOL_OK, freed, A)
    | None => (AUDIO_POOL_ERR_BAD_HANDLE, false, A)
    end
  | None => (AUDIO_POOL_ERR_BAD_HANDLE, false, A)
  end.

(** The sweep drops one reference of each object the machine made. *)
Fixpoint a_sweep (n : nat) (A : apool) (s vm freed : Z) : Z * apool :=
  match n with
  | O => (freed, A)
  | S n =>
    match a_slot A s with
    | Some a =>
      if ao_vm a =? vm then
        let '(gone, A) := a_drop A s a in a_sweep n A (s + 1) vm (if gone : bool then freed + 1 else freed)
      else a_sweep n A (s + 1) vm freed
    | None => a_sweep n A (s + 1) vm freed
    end
  end.

(** The part of a transfer of [n] bytes at [off] that the object can serve. *)
Definition a_span (a : aobject) (off n : Z) : Z :=
  Z.min (Z.min n (ao_size a - off)) (Z.max 0 (Z.of_nat (length (ao_data a)) - off)).

Definition a_read (A : apool) (h off n : Z) : AudioPoolResult * list Z :=
  match a_resolve A h with
  | Some s =>
    match a_slot A s with
    | Some a =>
      (AUDIO_POOL_OK, if ao_size a <=? off then [] else
        take (Z.to_nat (a_span a off n)) (drop (Z.to_nat off) (ao_data a)))
    | None => (AUDIO_POOL_ERR_BAD_HANDLE, [])
    end
  | None => (AUDIO_POOL_ERR_BAD_HANDLE, [])
  end.

Definition a_write (A : apool) (h off : Z) (bs : list Z) : AudioPoolResult * Z * apool :=
  match a_resolve A h with
  | Some s =>
    match a_slot A s with
    | Some a =>
      if ao_size a <=? off then (AUDIO_POOL_OK, 0, A) else
      let k := a_span a off (Z.of_nat (length bs)) in
      (AUDIO_POOL_OK, k,
       a_set A s (Some (a_set_data a (splice (ao_data a) (Z.to_nat off) (take (Z.to_nat k) bs)))))
    | None => (AUDIO_POOL_ERR_BAD_HANDLE, 0, A)
    end
  | None => (AUDIO_POOL_ERR_BAD_HANDLE, 0, A)
  end.

(** ** The relation *)

(** Slot [s] of the pool, its chain [c] and the abstract slot. *)
Definition slot_rep (m : mem) (p : AudioPool) (s : Z) (c : list Z) (a : option aobject) : Prop :=
  let o := object p s in
  match a with
  | None => in_use o = false /\ c = []
  | Some a =>
    in_use o = true /\ chain_at (next p) (head_block o) c /\ generation o = at_ (generations p) s /\
    chain_bytes m p c = ao_data a /\ Forall (fun b => at_ (owner p) b = s) c /\
    o_size o = ao_size a /\ refcount o = ao_refs a /\ owner_vm o = ao_vm a /\ sample_rate o = ao_rate a
  end.

Definition chain_of (chs : list (list Z)) (s : Z) : list Z := nth (Z.to_nat s) chs [].

Record pool_rep (m : mem) (p : AudioPool) (chs : list (list Z)) (A : apool) : Prop := {
  pr_used : used m p (concat chs);
  pr_objects : length (objects p) = 256%nat;
  pr_gens : length (generations p) = 256%nat;
  pr_chs : length chs = 256%nat;
  pr_slots : length (ap_slots A) = 256%nat;
  pr_total : ap_total A = block_count p;
  pr_agens : ap_gens A = generations p;
  pr_gen_range : Forall (fun g => 1 <= g < 65536) (generations p);
  pr_apart : rdisj (region p) (block_count p * block_size p)
               (bs_words (used_map p)) (4 * bs_nwords (used_map p));
  pr_slot s : 0 <= s < 256 -> slot_rep m p s (chain_of chs s) (a_slot A s)
}.

(** ** Lists of chains *)

Lemma concat_take_out (chs : list (list Z)) s c : chs !! s = Some c ->
  concat chs ≡ₚ c ++ concat (<[s := []]> chs).
Proof.
  revert s. induction chs as [|d chs IH]; intros [|s] H; cbn in *; simplify_eq; [done|].
  rewrite (IH s H). rewrite !app_assoc. by rewrite (Permutation_app_comm d).
Qed.

Lemma concat_put_in (chs : list (list Z)) s c : chs !! s = Some [] ->
  concat (<[s := c]> chs) ≡ₚ c ++ concat chs.
Proof.
  intros H. rewrite (concat_take_out (<[s := c]> chs) s c).
  - by rewrite list_insert_insert_eq, list_insert_id.
  - apply list_lookup_insert_eq. by eapply lookup_lt_Some.
Qed.

Lemma chain_of_lookup chs s : 0 <= s < Z.of_nat (length chs) ->
  chs !! Z.to_nat s = Some (chain_of chs s).
Proof. intros H. unfold chain_of. destruct (nth_lookup_or_length chs (Z.to_nat s) []); [done|lia]. Qed.

Lemma nth_insert {A} (l : list A) i j v d : 0 <= i < Z.of_nat (length l) -> 0 <= j ->
  nth (Z.to_nat j) (<[Z.to_nat i := v]> l) d = if decide (j = i) then v else nth (Z.to_nat j) l d.
Proof.
  intros Hi Hj. rewrite !nth_lookup. case_decide as E.
  - subst. by rewrite list_lookup_insert_eq by lia.
  - by rewrite list_lookup_insert_ne by lia.
Qed.

Lemma chain_in_concat chs s x : x ∈ chain_of chs s -> x ∈ concat chs.
Proof.
  intros H. unfold chain_of in H. destruct (nth_lookup_or_length chs (Z.to_nat s) []) as [E|E].
  - rewrite (concat_take_out _ _ _ E). apply elem_of_app. by left.
  - rewrite nth_overflow in H by done. by apply elem_of_nil in H.
Qed.

Lemma chains_apart chs s t x : NoDup (concat chs) -> 0 <= s < Z.of_nat (length chs) -> 0 <= t -> s <> t ->
  x ∈ chain_of chs s -> x ∉ chain_of chs t.
Proof.
  intros Hd Hs Ht Hne Hx Hxt. pose proof (chain_of_lookup chs s Hs) as E.
  rewrite (concat_take_out _ _ _ E) in Hd. apply NoDup_app in Hd as (_ & Hd & _).
  apply (Hd x Hx), (chain_in_concat _ t). unfold chain_of. rewrite nth_insert by lia.
  by rewrite decide_False by lia.
Qed.

Lemma length_concat_sum {A} (ls : list (list A)) : length (concat ls) = sum_list (map length ls).
Proof. induction ls as [|l ls IH]; [done|]. cbn. by rewrite length_app, IH. Qed.

Section Rep.
Context (m : mem) (p : AudioPool) (chs : list (list Z)) (A : apool) (R : pool_rep m p chs A).

Lemma rep_bsize : block_size p = 8192.
Proof using R. exact (us_bsize _ _ _ (pr_used _ _ _ _ R)). Qed.

Lemma rep_chain_range s : Forall (fun b => 0 <= b < block_count p) (chain_of chs s).
Proof using R.
  pose proof (us_range _ _ _ (pr_used _ _ _ _ R)) as H. rewrite Forall_forall in *.
  intros x Hx. by eapply H, chain_in_concat.
Qed.

Lemma rep_chain_nodup s : 0 <= s < 256 -> NoDup (chain_of chs s).
Proof using R.
  intros Hs. pose proof (us_nodup _ _ _ (pr_used _ _ _ _ R)) as H. pose proof (pr_chs _ _ _ _ R).
  rewrite (concat_take_out chs _ (chain_of chs s)) in H by (apply chain_of_lookup; lia).
  by apply NoDup_app in H as [? _].
Qed.

Lemma rep_data_len s a : 0 <= s < 256 -> a_slot A s = Some a ->
  length (ao_data a) = (length (chain_of chs s) * Z.to_nat 8192)%nat.
Proof using R.
  intros Hs E. pose proof (pr_slot _ _ _ _ R s Hs) as H. rewrite E in H.
  destruct H as (_ & _ & _ & Hd & _). rewrite <-Hd.
  pose proof (chain_bytes_length m p (chain_of chs s)) as Hl. rewrite rep_bsize in Hl. lia.
Qed.

Lemma rep_free : free_blocks p = a_free A.
Proof using R.
  rewrite (us_free _ _ _ (pr_used _ _ _ _ R)). unfold a_free. rewrite (pr_total _ _ _ _ R).
  rewrite length_concat_sum. do 3 f_equal. pose proof (pr_chs _ _ _ _ R). pose proof (pr_slots _ _ _ _ R).
  apply (list_eq_nth 0%nat); rewrite !length_map; [lia|]. intros i Hi.
  rewrite (nth_indep _ 0%nat (length (@nil Z))) by (rewrite length_map; lia). rewrite (map_nth length).
  change 0%nat with (a_blocks None). rewrite (map_nth a_blocks).
  pose proof (pr_slot _ _ _ _ R (Z.of_nat i) ltac:(lia)) as Hs.
  pose proof (rep_data_len (Z.of_nat i)) as Hl. unfold a_slot, chain_of in *. rewrite Nat2Z.id in *.
  destruct (nth i (ap_slots A) None) as [a|]; cbn [a_blocks].
  - rewrite (Hl a) by (done || lia). unfold AUDIO_POOL_BLOCK_SIZE. by rewrite Nat.div_mul by lia.
  - by destruct Hs as [_ ->].
Qed.

Lemma rep_in_use s : 0 <= s < 256 -> in_use (object p s) = bool_decide (is_Some (a_slot A s)).
Proof using R.
  intros Hs. pose proof (pr_slot _ _ _ _ R s Hs) as H. destruct (a_slot A s).
  - rewrite bool_decide_eq_true_2 by eauto. apply H.
  - rewrite bool_decide_eq_false_2 by (by intros [? ?]). apply H.
Qed.

Lemma unpack_range h s g : 0 <= h -> unpack_handle h = Some (s, g) -> 0 <= s < 65535 /\ 0 <= g < 65536.
Proof using.
  unfold unpack_handle. intros Hh H. destruct (h =? _); [done|].
  change 0xFFFF with (2 ^ 16 - 1) in H. rewrite land_pow2_ones in H by lia.
  destruct (Z.eqb_spec (h mod 2 ^ 16) 0); [done|]. simplify_eq. zlia.
Qed.

Lemma resolve_rep h : 0 <= h -> resolve p h = a_resolve A h.
Proof using R.
  intros Hh. unfold resolve, a_resolve. destruct (unpack_handle h) as [[s g]|] eqn:E; [|done]. cbn.
  destruct (unpack_range h s g Hh E) as [Hs _].
  destruct (Z.leb_spec AUDIO_POOL_MAX_OBJECTS s) as [|Hlt]; [done|]. unfold AUDIO_POOL_MAX_OBJECTS in Hlt.
  rewrite rep_in_use by lia. pose proof (pr_slot _ _ _ _ R s ltac:(lia)) as H.
  rewrite (pr_agens _ _ _ _ R). destruct (a_slot A s) as [a|].
  - rewrite bool_decide_eq_true_2 by eauto. cbn. destruct H as (_ & _ & -> & _). by destruct (_ =? g).
  - by rewrite bool_decide_eq_false_2 by (by intros [? ?]).
Qed.

Lemma a_resolve_slot h s : 0 <= h -> a_resolve A h = Some s ->
  0 <= s < 256 /\ is_Some (a_slot A s) /\ (exists g, unpack_handle h = Some (s, g)).
Proof using.
  intros Hh. unfold a_resolve. destruct (unpack_handle h) as [[s' g]|] eqn:E; [|done]. cbn.
  destruct (unpack_range h s' g Hh E) as [Hs _].
  destruct (Z.leb_spec AUDIO_POOL_MAX_OBJECTS s') as [|Hlt]; [done|]. unfold AUDIO_POOL_MAX_OBJECTS in Hlt.
  destruct (a_slot A s') eqn:Ea; [|done]. destruct (_ =? g); [|done]. intros [= <-].
  split; [lia|]. split; [by rewrite Ea|eauto].
Qed.
End Rep.

(** A handle is its slot and generation, and nothing else. *)
Lemma unpack_pack s g : 0 <= s < 65535 -> 1 <= g < 65536 -> unpack_handle (pack_handle s g) = Some (s, g).
Proof.
  intros Hs Hg. unfold pack_handle. rewrite Z.shiftl_mul_pow2 by lia.
  rewrite (u32_small (g * 2 ^ 16)), (u32_small (s + 1)) by (umach; lia).
  rewrite (lor_disjoint_add _ _ 16) by (try apply Z.mod_mul; lia).
  unfold unpack_handle, AUDIO_POOL_HANDLE_NONE. rewrite (proj2 (Z.eqb_neq _ 0)) by lia.
  change 0xFFFF with (2 ^ 16 - 1). rewrite land_pow2_ones, Z.shiftr_div_pow2 by lia.
  rewrite Z.add_comm, Z.mod_add, Z.mod_small by lia. rewrite (proj2 (Z.eqb_neq _ 0)) by lia.
  rewrite Z.div_add, Z.div_small by lia. rewrite u16_small by (umach; lia). do 2 f_equal; lia.
Qed.
