(* ===== verification/AudioPoolOps.v ===== *)
(** The operations of the audio pool on its table: every operation keeps [pool_rep].
    The documented behaviour over scripts is [AudioPoolTable]. *)
From S2P Require Import Prelude HostMem Bitset AudioPool AudioPoolInv AudioPoolData AudioPoolSpec.

#[local] Open Scope Z_scope.

(** ** Allocation *)

Lemma find_ext_in {A} (f g : A -> bool) l : (forall x, In x l -> f x = g x) -> find f l = find g l.
Proof.
  induction l as [|x l IH]; intros H; [done|]. cbn. rewrite (H x) by (by left).
  destruct (g x); [done|]. apply IH. intros y Hy. apply H. by right.
Qed.

Lemma find_free_rep m p chs A : pool_rep m p chs A ->
  find_free_slot p = match a_first_free A with Some s => Z.of_nat s | None => AUDIO_POOL_NO_BLOCK end.
Proof.
  intros R. unfold find_free_slot, a_first_free, AUDIO_POOL_MAX_OBJECTS. change (Z.to_nat 256) with 256%nat.
  rewrite (find_ext_in _ (fun s => negb (bool_decide (is_Some (a_slot A (Z.of_nat s)))))); [done|].
  intros s Hs%in_seq. by rewrite (rep_in_use _ _ _ _ R) by lia.
Qed.

Lemma first_free_spec A s : a_first_free A = Some s -> (s < 256)%nat /\ a_slot A (Z.of_nat s) = None.
Proof.
  intros H. apply find_some in H as [Hs%in_seq Hn]. split; [lia|].
  apply negb_true_iff, bool_decide_eq_false in Hn. by apply eq_None_not_Some.
Qed.

(** A slot whose descriptor, chain entries and bytes are as before. *)
Lemma pool_slot_frame m p m' p' s c a : slot_rep m p s c a ->
  object p' s = object p s -> at_ (generations p') s = at_ (generations p) s ->
  (forall x, x ∈ c -> at_ (next p') x = at_ (next p) x /\ at_ (owner p') x = at_ (owner p) x) ->
  chain_bytes m' p' c = chain_bytes m p c -> slot_rep m' p' s c a.
Proof.
  unfold slot_rep. intros H Eo Eg Ex Eb. rewrite Eo. destruct a as [a|]; [|done].
  destruct H as (Hu & Hc & Hg & Hd & Hown & Hrest). rewrite Eg, Eb.
  split; [done|]. split; [by eapply chain_at_ext; [|intros x Hx; apply Ex]|]. split; [done|]. split; [done|].
  split; [|done]. rewrite Forall_forall in *. intros x Hx. destruct (Ex x Hx) as [_ ->]. auto.
Qed.

(** Chains read the region through its place and block size only. *)
Lemma chain_bytes_pool m p p' c : region p' = region p -> block_size p' = block_size p ->
  chain_bytes m p' c = chain_bytes m p c.
Proof.
  intros Er Eb. unfold chain_bytes. f_equal. apply map_ext. intros b. unfold block_bytes, block_at.
  by rewrite Er, Eb.
Qed.

(** A step that touches, outside the map's words, only the chain [c]: the other
    slots stay. *)
Lemma outside_slot m p chs A m' p' c s : pool_rep m p chs A -> outside c m p m' p' -> 0 <= s < 256 ->
  (forall x, x ∈ chain_of chs s -> x ∉ c) ->
  slot_rep m' p' s (chain_of chs s) (a_slot A s).
Proof.
  intros R [Hm Hf Hn Ho] Hs Hd. pose proof (rep_chain_range _ _ _ _ R s) as Hr. rewrite Forall_forall in Hr.
  eapply pool_slot_frame; [by apply (pr_slot _ _ _ _ R)|..].
  - unfold object. by rewrite (sf_objects _ _ Hf).
  - by rewrite (sf_gens _ _ Hf).
  - intros x Hx. destruct (Hr x Hx). auto.
  - rewrite (chain_bytes_pool _ p p' _ (sf_region _ _ Hf) (sf_bsize _ _ Hf)).
    apply chain_bytes_agree; [by rewrite (rep_bsize _ _ _ _ R)|by apply (rep_chain_range _ _ _ _ R)|].
    intros x Hx. apply Hm. pose proof (pr_apart _ _ _ _ R). unfold in_region, rng, rdisj in *. lia.
Qed.

(** Storing a descriptor. *)
Lemma used_set_object m p s o U : used m p U -> used m (set_object p s o) U.
Proof. intros []. by split. Qed.

Lemma object_set p s o t : length (objects p) = 256%nat -> 0 <= s < 256 -> 0 <= t ->
  object (set_object p s o) t = if decide (t = s) then o else object p t.
Proof. intros Hl Hs Ht. unfold object. cbn. by rewrite nth_insert by lia. Qed.

Lemma a_slot_set A s o t : length (ap_slots A) = 256%nat -> 0 <= s < 256 -> 0 <= t ->
  a_slot (a_set A s o) t = if decide (t = s) then o else a_slot A t.
Proof. intros Hl Hs Ht. unfold a_slot. cbn. by rewrite nth_insert by lia. Qed.

(** A new descriptor for slot [s], its chain and the others being as they were. *)
Lemma rep_update m p chs A s o a : pool_rep m p chs A -> 0 <= s < 256 ->
  slot_rep m (set_object p s o) s (chain_of chs s) a -> pool_rep m (set_object p s o) chs (a_set A s a).
Proof.
  intros R Hs Hr. pose proof (pr_objects _ _ _ _ R). pose proof (pr_slots _ _ _ _ R).
  split; try apply R; cbn; rewrite ?length_insert; try done.
  - by apply used_set_object, R.
  - intros t Ht. change (slot_rep m (set_object p s o) t (chain_of chs t) (a_slot (a_set A s a) t)).
    rewrite a_slot_set by lia. case_decide as E; [by subst|].
    eapply pool_slot_frame; [by apply (pr_slot _ _ _ _ R)|..]; try done.
    by rewrite object_set, decide_False by (done || lia).
Qed.

Lemma blocks_needed_need p size : block_size p = 8192 -> blocks_needed p size = a_need size.
Proof.
  intros E. unfold blocks_needed, a_need. rewrite E.
  assert (u32 (u32 (size + 8192) - 1) = u32 (size + 8191)) as ->.
  { unfold u32. rewrite Zminus_mod_idemp_l. f_equal. lia. }
  pose proof (is_u32_range (size + 8191)). destruct (Z.eqb_spec (u32 (size + 8191) / 8192) 0); [lia|]. zlia.
Qed.

(** A chain built for the free slot [s], with the descriptor [o]. *)
Lemma build_rep m p chs A m' p' c s o hd size vm : pool_rep m p chs A -> 0 <= s < 256 ->
  chs !! Z.to_nat s = Some [] -> used m' p' (c ++ concat chs) -> chain_at (next p') hd c ->
  Forall (fun x => at_ (owner p') x = s) c -> outside c m p m' p' ->
  (forall x, x ∈ c -> x ∉ concat chs) ->
  o = mkAudioObject hd size (a_need size) 1 (at_ (generations p') s) vm true 0 ->
  pool_rep m' (set_object p' s o) (<[Z.to_nat s := c]> chs)
    (a_set A s (Some (mkAObject (chain_bytes m' p' c) size 1 vm 0))).
Proof.
  intros R Hs Es Hu Hc Hown Hout Hnd Eo. pose proof (ou_frame _ _ _ _ _ Hout) as Hf.
  pose proof (pr_objects _ _ _ _ R). pose proof (pr_slots _ _ _ _ R). pose proof (pr_chs _ _ _ _ R).
  destruct (sf_words _ _ Hf) as (Ew & _ & Ewn).
  split; cbn [ap_slots ap_total ap_gens a_set set_object objects generations used_map region block_count block_size];
    rewrite ?length_insert, ?(sf_gens _ _ Hf), ?(sf_objects _ _ Hf), ?(sf_region _ _ Hf), ?(sf_count _ _ Hf),
      ?(sf_bsize _ _ Hf), ?Ew, ?Ewn; try apply R.
  - apply used_set_object. eapply used_perm; [done|]. by rewrite concat_put_in.
  - intros t Ht. change (ap_total A) with (ap_total A).
    assert (a_slot (a_set A s (Some (mkAObject (chain_bytes m' p' c) size 1 vm 0))) t =
      if decide (t = s) then Some (mkAObject (chain_bytes m' p' c) size 1 vm 0) else a_slot A t) as ->
      by (by rewrite a_slot_set by lia).
    unfold chain_of. rewrite nth_insert by lia. case_decide as E.
    + subst t. unfold slot_rep. rewrite object_set, decide_True by (rewrite ?(sf_objects _ _ Hf); done || lia).
      subst o. by split_and!.
    + assert (forall x, x ∈ chain_of chs t -> x ∉ c) as Hd.
      { intros x Hx Hxc. apply (Hnd x Hxc). by eapply chain_in_concat. }
      eapply pool_slot_frame; [by apply (outside_slot m p chs A m' p' c t)|..|done]; [|done|by intros].
      by rewrite object_set, decide_False by (rewrite ?(sf_objects _ _ Hf); done || lia).
Qed.

(** The map's words are the only memory an allocation changes. *)
Definition map_frame (p : AudioPool) (m m' : mem) : Prop :=
  mem_frame (bs_words (used_map p)) (4 * bs_nwords (used_map p)) m m'.

Lemma alloc_rep m p chs A size vm : pool_rep m p chs A ->
  exists r h m' p' chs' A' fresh, audio_pool_alloc m p size vm = Some (r, h, m', p') /\
    a_alloc A size vm 0 fresh = (r, h, A') /\ pool_rep m' p' chs' A' /\
    Z.of_nat (length fresh) = a_need size * 8192 /\ map_frame p m m' /\ same_words (used_map p) (used_map p') /\
    region p' = region p /\ block_count p' = block_count p.
Proof.
  intros R. unfold audio_pool_alloc, a_alloc. rewrite (blocks_needed_need p) by apply (rep_bsize _ _ _ _ R).
  rewrite (rep_free _ _ _ _ R), (find_free_rep _ _ _ _ R).
  assert (1 <= a_need size) by (unfold a_need; lia).
  set (f0 := replicate (Z.to_nat (a_need size * 8192)) 0 : list Z).
  assert (Z.of_nat (length f0) = a_need size * 8192) as Hf0 by (subst f0; rewrite length_replicate; lia).
  destruct (Z.ltb_spec (a_free A) (a_need size)) as [Hlt|Hge].
  { eexists _, _, m, p, chs, A, f0. by split_and!. }
  destruct (a_first_free A) as [s|] eqn:Ef.
  2: { eexists _, _, m, p, chs, A, f0. by split_and!. }
  clear f0 Hf0. destruct (first_free_spec A s Ef) as [Hs Es]. set (z := Z.of_nat s) in *.
  rewrite (proj2 (Z.eqb_neq z AUDIO_POOL_NO_BLOCK)) by (unfold AUDIO_POOL_NO_BLOCK; lia).
  pose proof (us_free _ _ _ (pr_used _ _ _ _ R)) as Hfree. rewrite (rep_free _ _ _ _ R) in Hfree.
  destruct (build_chain_spec (Z.to_nat (a_need size)) z (concat chs) m p [] AUDIO_POOL_NO_BLOCK AUDIO_POOL_NO_BLOCK)
    as (m' & p' & c & hd & -> & Hlen & _ & Hu' & Hc & Hown & Hout);
    [apply R|done|by left|cbn; lia|by constructor|]. cbn [mbind option_bind].
  pose proof (ou_frame _ _ _ _ _ Hout) as Hf. pose proof (pr_chs _ _ _ _ R) as Hlc.
  pose proof (pr_slot _ _ _ _ R z ltac:(lia)) as Hz. rewrite Es in Hz. destruct Hz as [_ Hz].
  assert (chs !! Z.to_nat z = Some []) as Ez by (rewrite chain_of_lookup, Hz by lia; done).
  assert (NoDup (c ++ concat chs)) as Hnd by apply Hu'. apply NoDup_app in Hnd as (_ & Hnd & _).
  eexists _, _, m', _, (<[Z.to_nat z := c]> chs), _, (chain_bytes m' p' c).
  rewrite (sf_gens _ _ Hf), (pr_agens _ _ _ _ R). split; [done|]. split; [done|].
  split; [|split; [|split_and!; by destruct Hout, Hf]].
  - eapply build_rep; try done; [lia|by rewrite (sf_gens _ _ Hf)].
  - rewrite chain_bytes_length by (rewrite (sf_bsize _ _ Hf), (rep_bsize _ _ _ _ R); lia).
    rewrite (sf_bsize _ _ Hf), (rep_bsize _ _ _ _ R), Hlen. cbn. lia.
Qed.

Lemma rep_handle m p chs A s : pool_rep m p chs A -> 0 <= s < 256 -> 1 <= at_ (generations p) s < 65536.
Proof.
  intros R Hs. pose proof (pr_gen_range _ _ _ _ R) as H. rewrite Forall_forall in H. apply H.
  unfold at_. rewrite nth_lookup. pose proof (pr_gens _ _ _ _ R).
  destruct (lookup_lt_is_Some_2 (generations p) (Z.to_nat s)) as [g E]; [lia|]. rewrite E. by eapply list_elem_of_lookup_2.
Qed.

Lemma alloc_rate_rep m p chs A size vm rate : pool_rep m p chs A ->
  exists r h m' p' chs' A' fresh, audio_pool_alloc_with_rate m p size vm rate = Some (r, h, m', p') /\
    a_alloc A size vm rate fresh = (r, h, A') /\ pool_rep m' p' chs' A' /\
    Z.of_nat (length fresh) = a_need size * 8192 /\ map_frame p m m' /\ same_words (used_map p) (used_map p') /\
    region p' = region p /\ block_count p' = block_count p.
Proof.
  intros R. destruct (alloc_rep m p chs A size vm R)
    as (r & h & m' & p' & chs' & A' & fresh & E & Ea & R' & Hl & Hfr & Hw & Er & Ec).
  unfold audio_pool_alloc_with_rate. rewrite E. cbn [mbind option_bind]. unfold a_alloc in *.
  destruct (a_free A <? a_need size).
  { simplify_eq. eexists _, _, m', p', chs', A', fresh. by split_and!. }
  destruct (a_first_free A) as [s|] eqn:Ef.
  2: { simplify_eq. eexists _, _, m', p', chs', A', fresh. by split_and!. }
  injection Ea as <- <- <-. destruct (first_free_spec A s Ef) as [Hs Es]. set (z := Z.of_nat s) in *.
  pose proof (rep_handle m p chs A z R ltac:(lia)). rewrite (pr_agens _ _ _ _ R) in *.
  rewrite unpack_pack by lia. rewrite (proj2 (Z.ltb_lt z _)) by (unfold AUDIO_POOL_MAX_OBJECTS; lia).
  pose proof (pr_slots _ _ _ _ R).
  pose proof (pr_slot _ _ _ _ R' z ltac:(lia)) as Hz. rewrite a_slot_set, decide_True in Hz by (done || lia).
  destruct Hz as (Hu & Hc & Hg & Hd & Hown & H1 & H2 & H3 & _). rewrite Hu. cbn [andb].
  eexists _, _, m', _, chs', _, fresh. split; [done|]. split; [done|].
  split; [|by split_and!].
  pose proof (rep_update m' p' chs' _ z (set_sample_rate (object p' z) rate)
    (Some (mkAObject fresh size 1 vm rate)) R' ltac:(lia)) as R2.
  assert (a_set (a_set A z (Some (mkAObject fresh size 1 vm 0))) z (Some (mkAObject fresh size 1 vm rate))
    = a_set A z (Some (mkAObject fresh size 1 vm rate))) as E2
    by (unfold a_set; cbn; by rewrite list_insert_insert_eq).
  rewrite E2 in R2. apply R2. unfold slot_rep.
  rewrite object_set, decide_True by (try apply (pr_objects _ _ _ _ R'); done || lia). by split_and!.
Qed.

(** ** References *)

Lemma ref_rep m p chs A h : pool_rep m p chs A -> 0 <= h ->
  (audio_pool_ref p h).1 = (a_ref A h).1 /\ pool_rep m (audio_pool_ref p h).2 chs (a_ref A h).2.
Proof.
  intros R Hh. unfold audio_pool_ref, a_ref. rewrite (resolve_rep _ _ _ _ R h Hh).
  destruct (a_resolve A h) as [s|] eqn:Er; [|done].
  destruct (a_resolve_slot A h s Hh Er) as (Hs & [a Ea] & _). rewrite Ea. split; [done|]. cbn [snd].
  pose proof (pr_slot _ _ _ _ R s Hs) as Hsl. rewrite Ea in Hsl.
  destruct Hsl as (Hu & Hc & Hg & Hd & Hown & H1 & H2 & H3 & H4).
  apply rep_update; [done..|]. unfold slot_rep.
  rewrite object_set, decide_True by (try apply (pr_objects _ _ _ _ R); done || lia).
  cbn. rewrite H2. by split_and!.
Qed.

Lemma next_gen_range g : 1 <= next_gen g < 65536.
Proof.
  unfold next_gen. pose proof (is_u16_range (g + 1)). destruct (Z.eqb_spec (u16 (g + 1)) 0); umach; lia.
Qed.

(** The pool with the blocks of slot [s] given back and its descriptor cleared. *)
Lemma pool_freed_rep m p chs A m' p' s : pool_rep m p chs A -> 0 <= s < 256 ->
  used m' p' (concat (<[Z.to_nat s := []]> chs)) -> outside (chain_of chs s) m p m' p' ->
  pool_rep m' (set_object (set_generation p' s (next_gen (at_ (generations p') s))) s
                 (mkAudioObject AUDIO_POOL_NO_BLOCK 0 0 0 0 0 false 0))
    (<[Z.to_nat s := []]> chs)
    (mkAPool (ap_total A) (<[Z.to_nat s := None]> (ap_slots A))
       (put (ap_gens A) s (next_gen (at_ (ap_gens A) s)))).
Proof.
  intros R Hs Hu Hout. pose proof (ou_frame _ _ _ _ _ Hout) as Hf.
  pose proof (pr_objects _ _ _ _ R). pose proof (pr_slots _ _ _ _ R). pose proof (pr_chs _ _ _ _ R).
  pose proof (pr_gens _ _ _ _ R). destruct (sf_words _ _ Hf) as (Ew & _ & Ewn).
  split; cbn [ap_slots ap_total ap_gens set_object set_generation objects generations used_map region block_count block_size];
    rewrite ?put_length, ?length_insert, ?(sf_gens _ _ Hf), ?(sf_objects _ _ Hf), ?(sf_region _ _ Hf),
      ?(sf_count _ _ Hf), ?(sf_bsize _ _ Hf), ?Ew, ?Ewn, ?(pr_agens _ _ _ _ R); try apply R; try done.
  - destruct Hu. by split.
  - apply Forall_insert; [apply R|apply next_gen_range].
  - intros t Ht.
    assert (forall B, a_slot (mkAPool B (<[Z.to_nat s := None]> (ap_slots A))
      (put (generations p) s (next_gen (at_ (generations p) s)))) t = if decide (t = s) then None else a_slot A t) as ->
      by (intros B; unfold a_slot; cbn; by rewrite nth_insert by lia).
    unfold chain_of. rewrite nth_insert by lia. case_decide as E.
    + subst t. unfold slot_rep. unfold object. cbn [objects set_object]. rewrite nth_insert by (cbn; rewrite ?(sf_objects _ _ Hf); lia).
      by rewrite decide_True.
    + eapply pool_slot_frame; [apply (outside_slot m p chs A m' p' (chain_of chs s) t); try done| | |done|by intros].
      * intros x Hx Hxs. eapply (chains_apart chs s t x); [apply R|lia..|done|done].
      * unfold object. cbn [objects set_object set_generation].
        by rewrite nth_insert, decide_False by (rewrite ?(sf_objects _ _ Hf); lia).
      * cbn. by rewrite at_put, decide_False by (rewrite ?(sf_gens _ _ Hf); lia).
Qed.

(** The object of slot [s] gone, its generation passed. *)
Lemma free_rep m p chs A s a : pool_rep m p chs A -> 0 <= s < 256 -> a_slot A s = Some a ->
  exists m' p' chs', free_object m p s = Some (m', p') /\
    pool_rep m' p' chs' (mkAPool (ap_total A) (<[Z.to_nat s := None]> (ap_slots A))
                           (put (ap_gens A) s (next_gen (at_ (ap_gens A) s)))) /\
    map_frame p m m' /\ same_words (used_map p) (used_map p') /\
    region p' = region p /\ block_count p' = block_count p.
Proof.
  intros R Hs Ea. pose proof (pr_slot _ _ _ _ R s Hs) as Hsl. rewrite Ea in Hsl.
  destruct Hsl as (_ & Hc & _). pose proof (pr_chs _ _ _ _ R) as Hlc.
  pose proof (chain_of_lookup chs s ltac:(lia)) as El. set (c := chain_of chs s) in *.
  pose proof (used_perm _ _ _ _ (pr_used _ _ _ _ R) (concat_take_out _ _ _ El)) as Hu.
  unfold free_object, free_chain.
  destruct (free_chain_spec (chain_fuel p) c m p (head_block (object p s)) _ Hu Hc)
    as (m' & p' & -> & Hu' & Hfr & Hf & Hx).
  { pose proof (pool_used_bound _ _ _ Hu) as Hb. rewrite length_app in Hb. unfold chain_fuel. lia. }
  cbn [mbind option_bind]. eexists m', _, (<[Z.to_nat s := []]> chs). split; [done|].
  split; [|split_and!; by destruct Hf].
  apply (pool_freed_rep m p chs A m' p' s); [done|done|done|]. split; [done|done| |]; intros x Hx0 Hxc; by apply Hx.
Qed.

(** What a step keeps of the pool's place in memory. *)
Definition same_place (p p' : AudioPool) : Prop :=
  same_words (used_map p) (used_map p') /\ region p' = region p /\ block_count p' = block_count p.

#[export] Instance same_place_refl : Reflexive same_place.
Proof. by intros p. Qed.

Lemma place_trans p1 p2 p3 m1 m2 m3 : same_place p1 p2 -> same_place p2 p3 ->
  map_frame p1 m1 m2 -> map_frame p2 m2 m3 -> same_place p1 p3 /\ map_frame p1 m1 m3.
Proof.
  intros ((Ew & En & Ewn) & Er & Ec) ((Ew' & En' & Ewn') & Er' & Ec') Hm Hm'.
  unfold map_frame in *. rewrite Ew, Ewn in Hm'. split; [|by rewrite Hm].
  unfold same_place, same_words. split_and!; congruence.
Qed.

Lemma drop_rep m p chs A s a : pool_rep m p chs A -> 0 <= s < 256 -> a_slot A s = Some a ->
  exists m' p' chs', drop_ref m p s = Some ((a_drop A s a).1, m', p') /\
    pool_rep m' p' chs' (a_drop A s a).2 /\ map_frame p m m' /\ same_place p p'.
Proof.
  intros R Hs Ea. pose proof (pr_slot _ _ _ _ R s Hs) as Hsl. rewrite Ea in Hsl.
  destruct Hsl as (Hu & Hc & Hg & Hd & Hown & H1 & H2 & H3 & H4).
  pose proof (pr_objects _ _ _ _ R) as Hlo. pose proof (pr_slots _ _ _ _ R) as Hls.
  unfold drop_ref, a_drop. rewrite H2.
  set (r := s32 (ao_refs a - 1)). set (o := set_refcount (object p s) r).
  assert (pool_rep m (set_object p s o) chs (a_set A s (Some (a_set_refs a r)))) as R1.
  { apply rep_update; [done..|]. unfold slot_rep.
    rewrite object_set, decide_True by (done || lia). by split_and!. }
  change (refcount o) with r. destruct (Z.leb_spec r 0).
  - destruct (free_rep _ _ _ _ s (a_set_refs a r) R1 Hs) as (m' & p' & chs' & -> & R' & Hfr & Hw & Er & Ec).
    { by rewrite a_slot_set, decide_True by (done || lia). }
    exists m', p', chs'. split; [done|]. split; [|by split_and!].
    cbn [snd]. unfold a_set in R'. cbn in R'. by rewrite list_insert_insert_eq in R'.
  - eexists m, _, chs. by split_and!.
Qed.

Lemma unref_rep m p chs A h : pool_rep m p chs A -> 0 <= h ->
  exists m' p' chs', audio_pool_unref m p h = Some ((a_unref A h).1.1, (a_unref A h).1.2, m', p') /\
    pool_rep m' p' chs' (a_unref A h).2 /\ map_frame p m m' /\ same_place p p'.
Proof.
  intros R Hh. unfold audio_pool_unref, a_unref. rewrite (resolve_rep _ _ _ _ R h Hh).
  destruct (a_resolve A h) as [s|] eqn:Er.
  2: { exists m, p, chs. split; [by destruct (unpack_handle h) as [[? ?]|]|by split_and!]. }
  destruct (a_resolve_slot A h s Hh Er) as (Hs & [a Ea] & [g Eg]). rewrite Ea, Eg.
  destruct (drop_rep m p chs A s a R Hs Ea) as (m' & p' & chs' & -> & R' & Hfr & Hp).
  destruct (a_drop A s a) as [f A']. exists m', p', chs'. by split_and!.
Qed.

Lemma sweep_rep n vm : forall m p chs A s freed, pool_rep m p chs A -> 0 <= s -> s + Z.of_nat n <= 256 ->
  exists m' p' chs', sweep_from n m p s vm freed = Some ((a_sweep n A s vm freed).1, m', p') /\
    pool_rep m' p' chs' (a_sweep n A s vm freed).2 /\ map_frame p m m' /\ same_place p p'.
Proof.
  induction n as [|n IH]; intros m p chs A s freed R Hs Hn; cbn [sweep_from a_sweep].
  { exists m, p, chs. by split_and!. }
  pose proof (pr_slot _ _ _ _ R s ltac:(lia)) as Hsl. destruct (a_slot A s) as [a|] eqn:Ea.
  - destruct Hsl as (-> & _ & _ & _ & _ & _ & _ & -> & _). cbn [andb].
    destruct (ao_vm a =? vm); [|eapply IH; [exact R|lia|lia]].
    destruct (drop_rep m p chs A s a R ltac:(lia) Ea) as (m1 & p1 & chs1 & -> & R1 & Hfr1 & Hp1).
    cbn [mbind option_bind]. destruct (a_drop A s a) as [gone A1]. cbn [fst snd] in *.
    destruct (IH m1 p1 chs1 A1 (s + 1) (if gone then freed + 1 else freed) R1) as (m2 & p2 & chs2 & -> & R2 & Hfr2 & Hp2); [lia..|].
    exists m2, p2, chs2. split; [done|]. split; [done|].
    destruct (place_trans p p1 p2 m m1 m2) as [? ?]; [done..|]. by split.
  - destruct Hsl as [-> _]. cbn [andb]. eapply IH; [exact R|lia|lia].
Qed.

(** ** Transfers *)

(** Where a transfer at [off] starts. *)
Lemma seek_rep m p chs A s a off : pool_rep m p chs A -> 0 <= s < 256 -> a_slot A s = Some a -> 0 <= off ->
  let c := drop (Z.to_nat (off / 8192)) (chain_of chs s) in
  chain_at (next p) (seek_block p (head_block (object p s)) off).1 c /\
  (seek_block p (head_block (object p s)) off).2 = off mod 8192 /\
  chain_bytes m p c = drop (Z.to_nat (off / 8192 * 8192)) (ao_data a) /\
  Forall (fun b => 0 <= b < block_count p) c /\ NoDup c /\ c ⊆ chain_of chs s.
Proof.
  intros R Hs Ea Ho c. pose proof (pr_slot _ _ _ _ R s Hs) as Hsl. rewrite Ea in Hsl.
  destruct Hsl as (_ & Hc & _ & Hd & _). pose proof (rep_chain_range _ _ _ _ R s) as Hr.
  pose proof (rep_chain_nodup _ _ _ _ R s Hs) as Hnd. pose proof (rep_bsize _ _ _ _ R) as HB.
  unfold seek_block. rewrite HB. cbn [fst snd]. subst c. set (k := Z.to_nat (off / 8192)).
  rewrite <-(take_drop k (chain_of chs s)) in Hr, Hnd.
  apply Forall_app in Hr as [_ Hr]. apply NoDup_app in Hnd as (_ & _ & Hnd).
  split; [|split; [done|split; [|split_and!; try done]]].
  - eapply seek_loop_spec; [apply R|done|]. apply (rep_chain_range _ _ _ _ R).
  - rewrite <-Hd, <-chain_bytes_drop by lia. f_equal. rewrite HB. subst k. zlia.
  - intros x Hx. rewrite <-(take_drop k (chain_of chs s)). apply elem_of_app. by right.
Qed.

(** The pool does not see stores outside its region and its map. *)
Lemma rep_mem m m' p chs A : pool_rep m p chs A -> mem_ok m' ->
  mem_agree (fun x => in_region p x \/ in_words (used_map p) x) m m' -> pool_rep m' p chs A.
Proof.
  intros R Hm' Ha. split; try apply R.
  - eapply used_mem; [apply R|done|]. intros x Hx. apply Ha. by right.
  - intros s Hs. eapply pool_slot_frame; [by apply (pr_slot _ _ _ _ R)|done..|].
    apply chain_bytes_agree; [by rewrite (rep_bsize _ _ _ _ R)|apply (rep_chain_range _ _ _ _ R)|].
    intros x Hx. apply Ha. by left.
Qed.

(** A buffer of the client: not [NULL], apart from the pool's memory. *)
Definition buffer_ok (p : AudioPool) (a n : Z) : Prop :=
  a <> 0 /\ 0 <= n /\ rdisj (region p) (block_count p * block_size p) a n /\
  rdisj (bs_words (used_map p)) (4 * bs_nwords (used_map p)) a n.

Lemma buffer_rep m m' p chs A a n : pool_rep m p chs A -> mem_ok m' -> buffer_ok p a n ->
  mem_frame a n m m' -> pool_rep m' p chs A.
Proof.
  intros R Hm' (_ & _ & Hd & Hd') Hf. eapply rep_mem; [done..|]. intros x Hx. apply Hf.
  unfold in_region, in_words, rng, rdisj in *. lia.
Qed.

(** The length of a transfer, as the loops and as the object see it. *)
Lemma span_eq (d : list Z) size off n : off < size -> 0 <= off ->
  let n' := if size - off <? n then size - off else n in
  Z.min (n' - 0) (Z.max 0 (Z.of_nat (length (drop (Z.to_nat (off / 8192 * 8192)) d)) - off mod 8192)) =
  Z.min (Z.min n (size - off)) (Z.max 0 (Z.of_nat (length d) - off)).
Proof.
  intros Hs Ho n'. rewrite length_drop. assert (n' = Z.min n (size - off)) as ->
    by (subst n'; destruct (Z.ltb_spec (size - off) n); lia). zlia.
Qed.

Lemma read_rep m p chs A h off dst n : pool_rep m p chs A -> 0 <= h -> 0 <= off -> buffer_ok p dst n ->
  exists m', audio_pool_read m p h off dst n =
      Some ((a_read A h off n).1, Z.of_nat (length (a_read A h off n).2), m') /\
    mem_read m' dst (Z.of_nat (length (a_read A h off n).2)) = (a_read A h off n).2 /\
    pool_rep m' p chs A /\ mem_frame dst n m m'.
Proof.
  intros R Hh Ho Hb. pose proof Hb as (Hnz & Hn & Hd & Hd'). unfold audio_pool_read, a_read.
  rewrite (proj2 (Z.eqb_neq dst 0)) by done. rewrite (resolve_rep _ _ _ _ R h Hh).
  destruct (a_resolve A h) as [s|] eqn:Er; [|exists m; by split_and!].
  destruct (a_resolve_slot A h s Hh Er) as (Hs & [a Ea] & _). rewrite Ea. cbn [fst snd].
  pose proof (pr_slot _ _ _ _ R s Hs) as Hsl. rewrite Ea in Hsl.
  destruct Hsl as (_ & _ & _ & _ & _ & Esz & _). rewrite Esz.
  destruct (Z.leb_spec (ao_size a) off) as [|Hlt]; [exists m; by split_and!|].
  destruct (seek_rep m p chs A s a off R Hs Ea Ho) as (Hc & Ein & Ecb & Hr & Hnd & _).
  destruct (seek_block p _ off) as [b in_off]. cbn [fst snd] in *. subst in_off.
  pose proof (span_eq (ao_data a) (ao_size a) off n Hlt Ho) as Esp. cbv zeta in Esp.
  set (n' := if ao_size a - off <? n then ao_size a - off else n) in *.
  assert (n' = Z.min n (ao_size a - off)) as En' by (subst n'; destruct (Z.ltb_spec (ao_size a - off) n); lia).
  pose proof (rep_bsize _ _ _ _ R) as HB. pose proof (us_count _ _ _ (pr_used _ _ _ _ R)).
  destruct (pool_read_loop_spec p ltac:(lia) ltac:(lia) dst n' _ (copy_fuel n') m b (off mod 8192) 0 Hc Hr) as (m' & -> & Erd & Hfr & Hok);
    [unfold rdisj in *; lia|rewrite HB; zlia|lia|unfold copy_fuel; lia|].
  rewrite Ecb, Esp in *. fold (a_span a off n) in *. rewrite !Z.add_0_l, ?Z.add_0_r in *.
  assert (0 <= a_span a off n <= n') as Hsp by (unfold a_span; lia).
  rewrite drop_drop in Erd.
  replace (Z.to_nat (off / 8192 * 8192) + Z.to_nat (off mod 8192))%nat with (Z.to_nat off) in Erd by zlia.
  assert (Z.of_nat (length (take (Z.to_nat (a_span a off n)) (drop (Z.to_nat off) (ao_data a)))) = a_span a off n) as ->
    by (rewrite length_take, length_drop; unfold a_span; lia).
  exists m'. cbn. split; [done|]. split; [done|].
  assert (mem_frame dst n m m') as Hfr' by (eapply mem_frame_mono; [| |exact Hfr]; lia).
  split; [|done]. eapply buffer_rep; [done| |done|done]. apply Hok, (bm_mem _ _ _ (us_sim _ _ _ (pr_used _ _ _ _ R))).
Qed.

(** Replacing the end of a chain's bytes from block [k] on. *)
Lemma chain_bytes_tail m m' p c k i bs : 0 < block_size p -> NoDup c ->
  only_blocks p (drop k c) m m' ->
  chain_bytes m' p (drop k c) = splice (chain_bytes m p (drop k c)) i bs ->
  (drop k c = [] -> bs = []) ->
  chain_bytes m' p c = splice (chain_bytes m p c) (k * Z.to_nat (block_size p) + i) bs.
Proof.
  intros Hb Hnd Ho E He. rewrite <-(take_drop k c) in Hnd. apply NoDup_app in Hnd as (_ & Hd & _).
  assert (chain_bytes m' p (take k c) = chain_bytes m p (take k c)) as Et
    by (by apply (only_blocks_chain p Hb (drop k c))).
  assert (forall μ, chain_bytes μ p c = chain_bytes μ p (take k c) ++ chain_bytes μ p (drop k c)) as Es.
  { intros μ. unfold chain_bytes. by rewrite <-concat_app, <-map_app, take_drop. }
  rewrite (Es m'), Et, E. destruct (decide (drop k c = [])) as [En|Hne].
  - rewrite (He En), !splice_nil. by rewrite <-Es.
  - assert (k <= length c)%nat as Hk.
    { apply Nat.nlt_ge. intros Hlt. apply Hne, drop_ge. lia. }
    assert (length (chain_bytes m p (take k c)) = k * Z.to_nat (block_size p))%nat as Hl.
    { pose proof (chain_bytes_length m p (take k c) ltac:(lia)) as Hl. rewrite length_take, Nat.min_l in Hl by lia.
      apply Nat2Z.inj. rewrite Nat2Z.inj_mul, Z2Nat.id by lia. lia. }
    rewrite splice_drop.
    + rewrite <-chain_bytes_drop by lia. f_equal. by rewrite Es, <-Hl, take_app_length.
    + rewrite Es, length_app, Hl. apply Nat.le_add_r.
Qed.

(** New bytes in the object of slot [s]. *)
Lemma pool_data_rep m m' p chs A s a d c : pool_rep m p chs A -> 0 <= s < 256 -> a_slot A s = Some a ->
  mem_ok m' -> c ⊆ chain_of chs s -> only_blocks p c m m' -> chain_bytes m' p (chain_of chs s) = d ->
  pool_rep m' p chs (a_set A s (Some (a_set_data a d))).
Proof.
  intros R Hs Ea Hm' Hsub Ho Ed. pose proof (rep_bsize _ _ _ _ R). pose proof (pr_slots _ _ _ _ R).
  pose proof (rep_chain_range _ _ _ _ R s) as Hr.
  assert (Forall (fun x => 0 <= x < block_count p) c) as Hrc by (rewrite Forall_forall in *; auto).
  pose proof (only_blocks_region p ltac:(lia) c m m' Hrc Ho) as Hout.
  split; cbn [ap_slots ap_total ap_gens a_set]; rewrite ?length_insert; try apply R.
  - eapply used_mem; [apply R|done|]. intros x Hx. apply Hout. pose proof (pr_apart _ _ _ _ R).
    unfold in_words, in_region, rng, rdisj in *. lia.
  - intros t Ht. pose proof (pr_slot _ _ _ _ R t Ht) as Ht'.
    assert (a_slot (a_set A s (Some (a_set_data a d))) t =
      if decide (t = s) then Some (a_set_data a d) else a_slot A t) as -> by (by rewrite a_slot_set by lia).
    case_decide as E.
    + subst t. rewrite Ea in Ht'. destruct Ht' as (?&?&?&?&?&?&?&?&?). by split_and!.
    + eapply pool_slot_frame; [done..|]. apply (only_blocks_chain p ltac:(lia) c); [done|].
      intros x Hx Hxc. pose proof (pr_chs _ _ _ _ R).
      eapply (chains_apart chs s t x); [apply R|lia..|by apply Hsub|done].
Qed.

Lemma write_rep m p chs A h off src n : pool_rep m p chs A -> 0 <= h -> 0 <= off -> buffer_ok p src n ->
  exists m', audio_pool_write m p h off src n =
      Some ((a_write A h off (mem_read m src n)).1.1, (a_write A h off (mem_read m src n)).1.2, m') /\
    pool_rep m' p chs (a_write A h off (mem_read m src n)).2 /\
    mem_agree (fun x => ~ in_region p x) m m'.
Proof.
  intros R Hh Ho Hb. pose proof Hb as (Hnz & Hn & Hd & Hd'). unfold audio_pool_write, a_write.
  rewrite (proj2 (Z.eqb_neq src 0)) by done. rewrite (resolve_rep _ _ _ _ R h Hh).
  destruct (a_resolve A h) as [s|] eqn:Er; [|exists m; by split_and!].
  destruct (a_resolve_slot A h s Hh Er) as (Hs & [a Ea] & _). rewrite Ea.
  pose proof (pr_slot _ _ _ _ R s Hs) as Hsl. rewrite Ea in Hsl.
  destruct Hsl as (_ & _ & _ & Hdata & _ & Esz & _). rewrite Esz.
  destruct (Z.leb_spec (ao_size a) off) as [|Hlt]; [exists m; by split_and!|].
  destruct (seek_rep m p chs A s a off R Hs Ea Ho) as (Hc & Ein & Ecb & Hr & Hnd & Hsub).
  destruct (seek_block p _ off) as [b in_off]. cbn [fst snd] in *. subst in_off.
  pose proof (span_eq (ao_data a) (ao_size a) off n Hlt Ho) as Esp. cbv zeta in Esp.
  set (n' := if ao_size a - off <? n then ao_size a - off else n) in *.
  assert (n' = Z.min n (ao_size a - off)) as En' by (subst n'; destruct (Z.ltb_spec (ao_size a - off) n); lia).
  pose proof (rep_bsize _ _ _ _ R) as HB. pose proof (us_count _ _ _ (pr_used _ _ _ _ R)).
  destruct (pool_write_loop_spec p ltac:(lia) ltac:(lia) src n' _ (copy_fuel n') m b (off mod 8192) 0 Hc Hr Hnd)
    as (m' & -> & Ewr & Hob & Hok);
    [unfold rdisj in *; lia|rewrite HB; zlia|lia|unfold copy_fuel; lia|
     apply (bm_mem _ _ _ (us_sim _ _ _ (pr_used _ _ _ _ R)))|].
  rewrite Ecb, Esp in Ewr |- *. rewrite mem_read_length, Z2Nat.id by lia. fold (a_span a off n) in *.
  rewrite !Z.add_0_l, ?Z.add_0_r in *.
  assert (0 <= a_span a off n <= n') as Hsp by (unfold a_span; lia).
  exists m'. cbn [mbind option_bind fst snd]. split; [done|].
  split; [|by apply (only_blocks_region p ltac:(lia) _ m m' Hr)].
  eapply pool_data_rep; [done..|]. rewrite mem_read_take by lia. rewrite <-Hdata in Ewr |- *.
  rewrite (chain_bytes_tail m m' p (chain_of chs s) (Z.to_nat (off / 8192)) (Z.to_nat (off mod 8192))
    (mem_read m src (a_span a off n))); [f_equal; rewrite HB; zlia|lia|by apply (rep_chain_nodup _ _ _ _ R)|done| |].
  - rewrite Ewr, <-chain_bytes_drop by lia. do 2 f_equal. rewrite HB. zlia.
  - intros En. apply (f_equal (fun c => length (chain_bytes m p c))) in En.
    rewrite Ecb, length_drop in En. cbn in En. assert (a_span a off n = 0) as ->; [|done].
    unfold a_span. zlia.
Qed.

(** ** Initialisation *)

Definition a_init (count : Z) : apool := mkAPool count (replicate 256 None) (replicate 256 1).

Lemma concat_nils n : concat (replicate n []) = @nil Z.
Proof. induction n; by cbn. Qed.

Lemma nth_replicate_same {A} n (v : A) i : nth i (replicate n v) v = v.
Proof. revert i. induction n; intros [|i]; cbn; auto. Qed.

Lemma init_rep m p region size po pn pw : mem_ok m -> region <> 0 -> po <> 0 -> pn <> 0 -> pw <> 0 ->
  0 < size / 8192 < 0x100000000 ->
  rdisj region (size / 8192 * 8192) pw (4 * BITSET_WORDS (size / 8192)) ->
  exists m' p', audio_pool_init m p region size po pn pw = (AUDIO_POOL_OK, m', p') /\
    pool_rep m' p' (replicate 256 []) (a_init (size / 8192)).
Proof.
  intros Hm Hr Hpo Hpn Hpw Hc Hd. unfold audio_pool_init, AUDIO_POOL_BLOCK_SIZE.
  rewrite (proj2 (Z.eqb_neq region 0)) by done. rewrite u32_small by (umach; lia). set (n := size / 8192) in *.
  rewrite (proj2 (Z.eqb_neq n 0)), (proj2 (Z.eqb_neq po 0)), (proj2 (Z.eqb_neq pn 0)), (proj2 (Z.eqb_neq pw 0)) by lia.
  cbn [orb]. pose proof (init_sim m pw n Hm Hpw ltac:(lia)) as [Hs Hb].
  assert (same_words (bitset_init pw n) (bitset_clear_all m (bitset_init pw n)).2) as (Ew & _ & Ewn)
    by (unfold bitset_clear_all; by case_match).
  destruct (bitset_clear_all m (bitset_init pw n)) as [m' bs]. cbn [fst snd] in *.
  eexists m', _. split; [done|]. split; cbn [ap_total ap_slots ap_gens a_init objects generations block_count
    block_size AudioPool.region used_map]; rewrite ?length_replicate; try done.
  - rewrite concat_nils. split; cbn; rewrite ?length_replicate; try done; try lia; try by constructor.
  - by apply Forall_replicate.
  - by rewrite Ew, Ewn.
  - intros s Hs'. unfold slot_rep, a_slot, chain_of, object. cbn [ap_slots objects a_init].
    by rewrite !nth_replicate_same.
Qed.

(** ** Scripts *)

Inductive pool_cmd :=
  | PAlloc (size vm rate : Z)
  | PRef (h : Z)
  | PUnref (h : Z) (creation : bool)       (** whether it is the creation reference; the code is not told *)
  | PSweep (vm : Z)
  | PWrite (h off src : Z) (bs : list Z)   (** the client fills [src] with [bs] first *)
  | PRead (h off dst n : Z).

(** A result code, a handle, count or flag, and the bytes read. *)
Definition outcome : Type := AudioPoolResult * Z * list Z.

Definition pool_do (c : pool_cmd) (m : mem) (p : AudioPool) : option (outcome * mem * AudioPool) :=
  match c with
  | PAlloc size vm rate =>
    '(r, h, m, p) ← audio_pool_alloc_with_rate m p size vm rate; Some ((r, h, []), m, p)
  | PRef h => let '(r, p) := audio_pool_ref p h in Some ((r, 0, []), m, p)
  | PUnref h _ =>
    '(r, freed, m, p) ← audio_pool_unref m p h; Some ((r, if freed : bool then 1 else 0, []), m, p)
  | PSweep vm => '(freed, m, p) ← audio_pool_sweep_vm m p vm; Some ((AUDIO_POOL_OK, freed, []), m, p)
  | PWrite h off src bs =>
    '(r, written, m) ← audio_pool_write (mem_write m src bs) p h off src (Z.of_nat (length bs));
    Some ((r, written, []), m, p)
  | PRead h off dst n =>
    '(r, copied, m) ← audio_pool_read m p h off dst n; Some ((r, copied, mem_read m dst copied), m, p)
  end.

(** The same calls on the table; an allocation is told what its blocks hold. *)
Definition a_do (c : pool_cmd) (fresh : list Z) (A : apool) : outcome * apool :=
  match c with
  | PAlloc size vm rate => let '(r, h, A) := a_alloc A size vm rate fresh in ((r, h, []), A)
  | PRef h => let '(r, A) := a_ref A h in ((r, 0, []), A)
  | PUnref h _ => let '(r, freed, A) := a_unref A h in ((r, if freed : bool then 1 else 0, []), A)
  | PSweep vm => let '(freed, A) := a_sweep 256 A 0 vm 0 in ((AUDIO_POOL_OK, freed, []), A)
  | PWrite h off _ bs => let '(r, k, A) := a_write A h off bs in ((r, k, []), A)
  | PRead h off _ n => let '(r, bs) := a_read A h off n in ((r, Z.of_nat (length bs), bs), A)
  end.

Definition fresh_ok (c : pool_cmd) (fresh : list Z) : Prop :=
  match c with
  | PAlloc size _ _ => Z.of_nat (length fresh) = a_need size * 8192
  | _ => True
  end.

Definition cmd_ok (p : AudioPool) (c : pool_cmd) : Prop :=
  match c with
  | PAlloc _ _ _ | PSweep _ => True
  | PRef h | PUnref h _ => 0 <= h
  | PWrite h off src bs => 0 <= h /\ 0 <= off /\ buffer_ok p src (Z.of_nat (length bs)) /\ Forall is_u8 bs
  | PRead h off dst n => 0 <= h /\ 0 <= off /\ buffer_ok p dst n
  end.

Fixpoint pool_run (cs : list pool_cmd) (m : mem) (p : AudioPool) : option (list outcome * mem * AudioPool) :=
  match cs with
  | [] => Some ([], m, p)
  | c :: cs =>
    '(o, m, p) ← pool_do c m p; '(os, m, p) ← pool_run cs m p; Some (o :: os, m, p)
  end.

Lemma do_rep c m p chs A : pool_rep m p chs A -> cmd_ok p c ->
  exists o m' p' chs' A' fresh, pool_do c m p = Some (o, m', p') /\ fresh_ok c fresh /\
    a_do c fresh A = (o, A') /\ pool_rep m' p' chs' A' /\ same_place p p'.
Proof.
  intros R Hc. destruct c as [size vm rate|h|h creation|vm|h off src bs|h off dst n]; cbn [pool_do a_do cmd_ok] in *.
  - destruct (alloc_rate_rep m p chs A size vm rate R) as (r & h & m' & p' & chs' & A' & f & -> & E & R' & Hl & _ & Hp).
    eexists _, m', p', chs', A', f. rewrite E. by split_and!.
  - destruct (ref_rep m p chs A h R Hc) as [Er R']. destruct (audio_pool_ref p h) as [r p'] eqn:E, (a_ref A h) as [r' A'].
    cbn [fst snd] in *. subst r'. eexists _, m, p', chs, A', []. split_and!; try done.
    unfold audio_pool_ref in E. by case_match; simplify_eq.
  - destruct (unref_rep m p chs A h R Hc) as (m' & p' & chs' & -> & R' & _ & Hp).
    destruct (a_unref A h) as [[r f] A']. eexists _, m', p', chs', A', []. by split_and!.
  - destruct (sweep_rep 256 vm m p chs A 0 0 R ltac:(lia) ltac:(lia)) as (m' & p' & chs' & E & R' & _ & Hp).
    unfold audio_pool_sweep_vm, AUDIO_POOL_MAX_OBJECTS. change (Z.to_nat 256) with 256%nat. rewrite E.
    destruct (a_sweep 256 A 0 vm 0) as [f A']. eexists _, m', p', chs', A', []. by split_and!.
  - destruct Hc as (Hh & Ho & Hb & Hbs).
    assert (pool_rep (mem_write m src bs) p chs A) as R1.
    { eapply buffer_rep; [done| |done|by apply mem_write_frame].
      apply mem_write_ok; [|done]. apply (bm_mem _ _ _ (us_sim _ _ _ (pr_used _ _ _ _ R))). }
    destruct (write_rep _ p chs A h off src (Z.of_nat (length bs)) R1 Hh Ho Hb) as (m' & E & R' & _).
    rewrite mem_read_write_eq in E, R' by done. rewrite E.
    destruct (a_write A h off bs) as [[r k] A']. eexists _, m', p, chs, A', []. by split_and!.
  - destruct Hc as (Hh & Ho & Hb). destruct (read_rep m p chs A h off dst n R Hh Ho Hb) as (m' & -> & E & R' & _).
    cbn [mbind option_bind]. rewrite E. destruct (a_read A h off n) as [r bs].
    eexists _, m', p, chs, A, []. by split_and!.
Qed.

Lemma cmd_ok_place p p' c : same_place p p' -> cmd_ok p c -> block_size p' = block_size p -> cmd_ok p' c.
Proof.
  intros ((Ew & _ & Ewn) & Er & Ec) Hc Eb. destruct c; cbn in *; try done; unfold buffer_ok in *;
    by rewrite Er, Ec, Eb, Ew, Ewn.
Qed.

(** What initialisation refuses. *)
Theorem audio_pool_init_refuses m p region size p_owner p_next p_words :
  (region = 0 -> audio_pool_init m p region size p_owner p_next p_words = (AUDIO_POOL_ERR_INVALID_ARG, m, p)) /\
  (region <> 0 -> 0 <= size < 8192 ->
     (audio_pool_init m p region size p_owner p_next p_words).1.1 = AUDIO_POOL_ERR_INVALID_ARG) /\
  (region <> 0 -> 0 < size / 8192 < 0x100000000 -> p_owner = 0 \/ p_next = 0 \/ p_words = 0 ->
     (audio_pool_init m p region size p_owner p_next p_words).1.1 = AUDIO_POOL_ERR_NO_SPACE).
Proof.
  unfold audio_pool_init, AUDIO_POOL_BLOCK_SIZE. split_and!.
  - by intros ->.
  - intros Hr Hs. rewrite (proj2 (Z.eqb_neq region 0)) by done. by rewrite (Z.div_small size) by lia.
  - intros Hr Hs Hp. rewrite (proj2 (Z.eqb_neq region 0)) by done. rewrite u32_small by (umach; lia).
    rewrite (proj2 (Z.eqb_neq (size / 8192) 0)) by lia.
    assert ((p_owner =? 0) || (p_next =? 0) || (p_words =? 0) = true) as ->; [|done].
    rewrite !orb_true_iff, !Z.eqb_eq. tauto.
Qed.
