(* ===== verification/AudioPoolTable.v ===== *)
(** What the header of the audio pool documents, as operations on a table of objects
    with numbers that do not wrap, and the refinement: from initialisation on every
    script of operations that keeps to the client's side of the contract has the
    documented results.  The two places where the code departs from the header are
    outside the contract, and shown at the end. *)
From S2P Require Import Prelude HostMem Bitset AudioPool AudioPoolInv AudioPoolData AudioPoolSpec AudioPoolOps.

#[local] Open Scope Z_scope.

(** ** The documented table *)

(** The objects, and for each slot whether its creation reference is still held. *)
Record table := mkTable { tb_pool : apool; tb_held : Z -> bool }.

Definition t_object (T : table) (s : Z) : option aobject := a_slot (tb_pool T) s.
Definition t_set (T : table) (s : Z) (a : aobject) (held : bool) : table :=
  mkTable (a_set (tb_pool T) s (Some a)) (fun x => if x =? s then held else tb_held T x).

(** The object and its handles are gone: the slot is free, with the next generation. *)
Definition t_remove (T : table) (s : Z) : table :=
  let A := tb_pool T in
  mkTable (mkAPool (ap_total A) (<[Z.to_nat s := None]> (ap_slots A)) (put (ap_gens A) s (next_gen (at_ (ap_gens A) s))))
    (fun x => if x =? s then false else tb_held T x).

(** [ceil(size / block_size)], and a block for an object of no bytes. *)
Definition need_blocks (size : Z) : Z := Z.max 1 ((size + AUDIO_POOL_BLOCK_SIZE - 1) / AUDIO_POOL_BLOCK_SIZE).

Definition t_alloc (T : table) (size vm rate : Z) (fresh : list Z) : AudioPoolResult * Z * table :=
  let A := tb_pool T in
  if a_free A <? need_blocks size then (AUDIO_POOL_ERR_NO_SPACE, AUDIO_POOL_HANDLE_NONE, T) else
  match a_first_free A with
  | None => (AUDIO_POOL_ERR_NO_OBJECTS, AUDIO_POOL_HANDLE_NONE, T)
  | Some s => (AUDIO_POOL_OK, pack_handle (Z.of_nat s) (at_ (ap_gens A) (Z.of_nat s)),
               t_set T (Z.of_nat s) (mkAObject fresh size 1 vm rate) true)
  end.

(** The live slot and object of a handle. *)
Definition t_find (T : table) (h : Z) : option (Z * aobject) :=
  s ← a_resolve (tb_pool T) h; a ← t_object T s; Some (s, a).

Definition t_ref (T : table) (h : Z) : AudioPoolResult * table :=
  match t_find T h with
  | Some (s, a) => (AUDIO_POOL_OK, t_set T s (a_set_refs a (ao_refs a + 1)) (tb_held T s))
  | None => (AUDIO_POOL_ERR_BAD_HANDLE, T)
  end.

(** One reference less; [held] tells whether the creation reference remains. *)
Definition t_drop (T : table) (s : Z) (a : aobject) (held : bool) : bool * table :=
  if ao_refs a =? 1 then (true, t_remove T s) else (false, t_set T s (a_set_refs a (ao_refs a - 1)) held).

Definition t_unref (T : table) (h : Z) (creation : bool) : AudioPoolResult * bool * table :=
  match t_find T h with
  | Some (s, a) =>
    let '(freed, T) := t_drop T s a (tb_held T s && negb creation) in (AUDIO_POOL_OK, freed, T)
  | None => (AUDIO_POOL_ERR_BAD_HANDLE, false, T)
  end.

(** A dying machine drops the creation references it holds, and no others; the number
    of the objects that go with them. *)
Fixpoint t_sweep (n : nat) (T : table) (s vm freed : Z) : Z * table :=
  match n with
  | O => (freed, T)
  | S n =>
    match t_object T s with
    | Some a =>
      if (ao_vm a =? vm) && tb_held T s then
        let '(gone, T) := t_drop T s a false in t_sweep n T (s + 1) vm (if gone : bool then freed + 1 else freed)
      else t_sweep n T (s + 1) vm freed
    | None => t_sweep n T (s + 1) vm freed
    end
  end.

(** The bytes of an object that a transfer of [n] at [off] reaches. *)
Definition t_span (a : aobject) (off n : Z) : Z := Z.max 0 (Z.min n (ao_size a - off)).

Definition t_read (T : table) (h off n : Z) : AudioPoolResult * list Z :=
  match t_find T h with
  | Some (_, a) => (AUDIO_POOL_OK, take (Z.to_nat (t_span a off n)) (drop (Z.to_nat off) (ao_data a)))
  | None => (AUDIO_POOL_ERR_BAD_HANDLE, [])
  end.

Definition t_write (T : table) (h off : Z) (bs : list Z) : AudioPoolResult * Z * table :=
  match t_find T h with
  | Some (s, a) =>
    let k := t_span a off (Z.of_nat (length bs)) in
    (AUDIO_POOL_OK, k,
     if k =? 0 then T
     else t_set T s (a_set_data a (splice (ao_data a) (Z.to_nat off) (take (Z.to_nat k) bs))) (tb_held T s))
  | None => (AUDIO_POOL_ERR_BAD_HANDLE, 0, T)
  end.

Definition t_do (c : pool_cmd) (fresh : list Z) (T : table) : outcome * table :=
  match c with
  | PAlloc size vm rate => let '(r, h, T) := t_alloc T size vm rate fresh in ((r, h, []), T)
  | PRef h => let '(r, T) := t_ref T h in ((r, 0, []), T)
  | PUnref h creation => let '(r, freed, T) := t_unref T h creation in ((r, if freed : bool then 1 else 0, []), T)
  | PSweep vm => let '(freed, T) := t_sweep 256 T 0 vm 0 in ((AUDIO_POOL_OK, freed, []), T)
  | PWrite h off _ bs => let '(r, k, T) := t_write T h off bs in ((r, k, []), T)
  | PRead h off _ n => let '(r, bs) := t_read T h off n in ((r, Z.of_nat (length bs), bs), T)
  end.

(** The blocks of a new object hold whatever they held. *)
Definition t_fresh (c : pool_cmd) (fresh : list Z) : Prop :=
  match c with
  | PAlloc size _ _ => Z.of_nat (length fresh) = need_blocks size * AUDIO_POOL_BLOCK_SIZE
  | _ => True
  end.

(** Runs of the table. *)
Inductive t_runs : table -> list pool_cmd -> list outcome -> table -> Prop :=
  | runs_nil T : t_runs T [] [] T
  | runs_cons T c fresh o T' cs os T'' : t_fresh c fresh -> t_do c fresh T = (o, T') ->
      t_runs T' cs os T'' -> t_runs T (c :: cs) (o :: os) T''.

(** ** The client's side *)

(** Sizes are below 4 GB by a block at least; a count is not driven past [INT32_MAX];
    who drops a reference holds it, the creation reference being dropped once; and a
    machine is swept while it still holds the creation references of its objects. *)
Definition keeps_contract (T : table) (c : pool_cmd) : Prop :=
  match c with
  | PAlloc size _ _ => 0 <= size <= 0xFFFFFFFF - 8191
  | PRef h => forall s a, t_find T h = Some (s, a) -> ao_refs a < 2 ^ 31 - 1
  | PUnref h creation => forall s a, t_find T h = Some (s, a) -> if creation then tb_held T s = true else tb_held T s = true -> 2 <= ao_refs a
  | PSweep vm => forall s a, 0 <= s < 256 -> t_object T s = Some a -> ao_vm a = vm -> tb_held T s = true
  | _ => True
  end.

(** A script keeps the contract at every step, whatever new blocks hold. *)
Fixpoint orderly (T : table) (cs : list pool_cmd) : Prop :=
  match cs with
  | [] => True
  | c :: cs => keeps_contract T c /\ forall fresh, t_fresh c fresh -> orderly (t_do c fresh T).2 cs
  end.

(** ** The table of the code is the documented one *)

Definition object_sane (a : aobject) : Prop := 1 <= ao_refs a < 2 ^ 31 /\ ao_size a <= Z.of_nat (length (ao_data a)).

Record sane (T : table) : Prop := {
  sn_slots : length (ap_slots (tb_pool T)) = 256%nat;
  sn_object s a : 0 <= s < 256 -> t_object T s = Some a -> object_sane a
}.

Lemma need_blocks_code size : 0 <= size <= 0xFFFFFFFF - 8191 -> a_need size = need_blocks size.
Proof.
  intros H. unfold a_need, need_blocks, AUDIO_POOL_BLOCK_SIZE. rewrite u32_small by (umach; lia). do 2 f_equal. lia.
Qed.

Lemma need_blocks_hold size : size <= need_blocks size * AUDIO_POOL_BLOCK_SIZE.
Proof. unfold need_blocks, AUDIO_POOL_BLOCK_SIZE. zlia. Qed.

Lemma sane_set T s a held : sane T -> 0 <= s < 256 -> object_sane a -> sane (t_set T s a held).
Proof.
  intros [Hl Ho] Hs Ha. split; [cbn; by rewrite length_insert|]. intros t b Ht. unfold t_object, t_set. cbn [tb_pool].
  rewrite a_slot_set by lia. case_decide; [by intros [= <-]|by apply Ho].
Qed.

Lemma removed_slot T s t : length (ap_slots (tb_pool T)) = 256%nat -> 0 <= s < 256 -> 0 <= t ->
  t_object (t_remove T s) t = if decide (t = s) then None else t_object T t.
Proof. intros Hl Hs Ht. unfold t_object, a_slot, t_remove. cbn. by rewrite nth_insert by lia. Qed.

Lemma sane_remove T s : sane T -> 0 <= s < 256 -> sane (t_remove T s).
Proof.
  intros [Hl Ho] Hs. split; [cbn; by rewrite length_insert|]. intros t b Ht.
  rewrite removed_slot by lia. case_decide; [done|by apply Ho].
Qed.

Lemma t_find_slot T h s a : 0 <= h -> t_find T h = Some (s, a) ->
  a_resolve (tb_pool T) h = Some s /\ 0 <= s < 256 /\ t_object T s = Some a.
Proof.
  intros Hh. unfold t_find. destruct (a_resolve _ h) as [s'|] eqn:Er; [|done]. cbn.
  destruct (t_object T s') as [a'|] eqn:Ea; [|done]. intros [= <- <-].
  by destruct (a_resolve_slot _ _ _ Hh Er) as (Hs & _).
Qed.

Lemma t_find_none T h : 0 <= h -> t_find T h = None -> a_resolve (tb_pool T) h = None.
Proof.
  intros Hh. unfold t_find. destruct (a_resolve _ h) as [s'|] eqn:Er; [|done]. cbn.
  destruct (a_resolve_slot _ _ _ Hh Er) as (_ & [a Ea] & _). unfold t_object. by rewrite Ea.
Qed.

Lemma s32_count z : - 2 ^ 31 <= z < 2 ^ 31 -> s32 z = z.
Proof. change (2 ^ 31) with 0x80000000. intros H. zlia. Qed.

(** Dropping a reference. *)
Lemma drop_code T s a held : sane T -> 0 <= s < 256 -> t_object T s = Some a ->
  a_drop (tb_pool T) s a = ((t_drop T s a held).1, tb_pool (t_drop T s a held).2) /\ sane (t_drop T s a held).2.
Proof.
  intros Hn Hs Ea. destruct (sn_object _ Hn s a Hs Ea) as [Hr Hl]. unfold a_drop, t_drop.
  rewrite s32_count by lia. destruct (Z.eqb_spec (ao_refs a) 1) as [->|Hne].
  - change (1 - 1 <=? 0) with true. split; [done|]. by apply sane_remove.
  - rewrite (proj2 (Z.leb_gt _ _)) by lia. split; [done|]. apply sane_set; [done|done|]. split; cbn; [lia|done].
Qed.

Lemma t_drop_other T s a held t : sane T -> 0 <= s < 256 -> 0 <= t -> t <> s ->
  t_object (t_drop T s a held).2 t = t_object T t /\ tb_held (t_drop T s a held).2 t = tb_held T t.
Proof.
  intros Hn Hs Ht Hne. pose proof (sn_slots _ Hn). unfold t_drop. destruct (_ =? _); cbn [snd].
  - rewrite removed_slot, decide_False by lia. split; [done|]. cbn. by rewrite (proj2 (Z.eqb_neq t s)).
  - unfold t_object, t_set. cbn [tb_pool tb_held]. rewrite a_slot_set, decide_False by lia. split; [done|].
    by rewrite (proj2 (Z.eqb_neq t s)).
Qed.

Lemma sweep_code n vm : forall T s freed, sane T -> 0 <= s -> s + Z.of_nat n <= 256 ->
  (forall t a, s <= t < 256 -> t_object T t = Some a -> ao_vm a = vm -> tb_held T t = true) ->
  a_sweep n (tb_pool T) s vm freed = ((t_sweep n T s vm freed).1, tb_pool (t_sweep n T s vm freed).2) /\
  sane (t_sweep n T s vm freed).2.
Proof.
  induction n as [|n IH]; intros T s freed Hn Hs Hb Hh; cbn [a_sweep t_sweep]; [by split|].
  change (a_slot (tb_pool T) s) with (t_object T s). destruct (t_object T s) as [a|] eqn:Ea; [|apply IH; [done|lia|lia|intros; eapply Hh; [lia|done|done]]].
  destruct (Z.eqb_spec (ao_vm a) vm) as [Evm|]; [|apply IH; [done|lia|lia|intros; eapply Hh; [lia|done|done]]].
  rewrite (Hh s a) by (done || lia). cbn [andb].
  destruct (drop_code T s a false Hn ltac:(lia) Ea) as [-> Hn'].
  pose proof (fun t H0 Hne => t_drop_other T s a false t Hn ltac:(lia) H0 Hne) as Ho.
  destruct (t_drop T s a false) as [gone T1]. cbn [fst snd] in *.
  apply IH; [done|lia|lia|]. intros t b Ht. destruct (Ho t) as [-> ->]; [lia|lia|]. intros. eapply Hh; [lia|done|done].
Qed.

Lemma t_span_code a off n : object_sane a -> 0 <= off -> 0 <= n -> off < ao_size a -> a_span a off n = t_span a off n.
Proof. intros [_ Hl] Ho Hn Hs. unfold a_span, t_span. lia. Qed.

Lemma t_span_end a off n : ao_size a <= off -> t_span a off n = 0.
Proof. intros. unfold t_span. lia. Qed.

Lemma apool_eta A : A = mkAPool (ap_total A) (ap_slots A) (ap_gens A).
Proof. by destruct A. Qed.

(** A command within the contract does what is documented. *)
Lemma do_code p c fresh T : sane T -> cmd_ok p c -> keeps_contract T c -> fresh_ok c fresh ->
  t_fresh c fresh /\ a_do c fresh (tb_pool T) = ((t_do c fresh T).1, tb_pool (t_do c fresh T).2) /\ sane (t_do c fresh T).2.
Proof.
  intros Hn Hc Hk Hf. destruct c as [size vm rate|h|h creation|vm|h off src bs|h off dst n]; cbn [t_fresh a_do t_do cmd_ok keeps_contract fresh_ok] in *.
  - rewrite need_blocks_code in Hf by done. split; [done|]. unfold a_alloc, t_alloc. rewrite need_blocks_code by done.
    destruct (_ <? _); [by split|]. destruct (a_first_free (tb_pool T)) as [s|] eqn:Es; [|by split].
    destruct (first_free_spec _ _ Es) as [Hs _]. split; [done|]. apply sane_set; [done|lia|]. split; cbn; [lia|].
    rewrite Hf. apply need_blocks_hold.
  - split; [done|]. unfold a_ref, t_ref. destruct (t_find T h) as [[s a]|] eqn:Ef; [|by rewrite (t_find_none T h Hc Ef)].
    destruct (t_find_slot T h s a Hc Ef) as (-> & Hs & Ea). specialize (Hk s a eq_refl). unfold t_object in Ea. rewrite Ea.
    destruct (sn_object _ Hn s a Hs Ea) as [Hr Hl]. rewrite s32_count by lia. split; [done|].
    apply sane_set; [done|done|]. split; cbn; [lia|done].
  - split; [done|]. unfold a_unref, t_unref. destruct (t_find T h) as [[s a]|] eqn:Ef; [|by rewrite (t_find_none T h Hc Ef)].
    destruct (t_find_slot T h s a Hc Ef) as (-> & Hs & Ea). pose proof (drop_code T s a (tb_held T s && negb creation) Hn Hs Ea) as [Hd Hn'].
    unfold t_object in Ea. rewrite Ea, Hd. by destruct (t_drop T s a _) as [freed T'].
  - split; [done|]. destruct (sweep_code 256 vm T 0 0 Hn ltac:(lia) ltac:(lia) Hk) as [-> Hn']. by destruct (t_sweep 256 T 0 vm 0).
  - split; [done|]. destruct Hc as (Hh & Ho & Hb & _). unfold a_write, t_write.
    destruct (t_find T h) as [[s a]|] eqn:Ef; [|by rewrite (t_find_none T h Hh Ef)].
    destruct (t_find_slot T h s a Hh Ef) as (-> & Hs & Ea). destruct (sn_object _ Hn s a Hs Ea) as [Hr Hl].
    unfold t_object in Ea. rewrite Ea. destruct (Z.leb_spec (ao_size a) off) as [Hle|Hlt].
    { rewrite t_span_end by done. by split. }
    rewrite t_span_code by (done || lia). destruct (Z.eqb_spec (t_span a off (Z.of_nat (length bs))) 0) as [E0|Hne].
    + rewrite E0. cbn [Z.to_nat take]. rewrite splice_nil. unfold a_set.
      assert (<[Z.to_nat s := Some (a_set_data a (ao_data a))]> (ap_slots (tb_pool T)) = ap_slots (tb_pool T)) as ->.
      { apply list_insert_id. pose proof (sn_slots _ Hn). unfold a_slot in Ea.
        destruct (nth_lookup_or_length (ap_slots (tb_pool T)) (Z.to_nat s) None) as [E|E]; [|lia]. rewrite E, Ea. by destruct a. }
      split; [cbn [fst snd]; by rewrite <-apool_eta|done].
    + split; [done|]. apply sane_set; [done|done|]. split; [done|]. cbn [a_set_data ao_data ao_size].
      rewrite splice_length; [done|]. rewrite length_take. unfold t_span in *. lia.
  - split; [done|]. destruct Hc as (Hh & Ho & _ & Hn0 & _). unfold a_read, t_read.
    destruct (t_find T h) as [[s a]|] eqn:Ef; [|by rewrite (t_find_none T h Hh Ef)].
    destruct (t_find_slot T h s a Hh Ef) as (-> & Hs & Ea). pose proof (sn_object _ Hn s a Hs Ea) as Hsane.
    unfold t_object in Ea. rewrite Ea. destruct (Z.leb_spec (ao_size a) off) as [Hle|Hlt]; [by rewrite t_span_end|].
    by rewrite t_span_code.
Qed.

Lemma run_rep cs : forall m p chs T, pool_rep m p chs (tb_pool T) -> sane T -> Forall (cmd_ok p) cs -> orderly T cs ->
  exists os m' p' chs' T', pool_run cs m p = Some (os, m', p') /\ t_runs T cs os T' /\ pool_rep m' p' chs' (tb_pool T').
Proof.
  induction cs as [|c cs IH]; intros m p chs T R Hn Hcs Hord.
  { exists [], m, p, chs, T. split; [done|]. split; [constructor|done]. }
  apply Forall_cons in Hcs as [Hc Hcs]. destruct Hord as [Hk Hord].
  destruct (do_rep c m p chs _ R Hc) as (o & m1 & p1 & chs1 & A1 & f & E & Hf & Ea & R1 & Hp).
  destruct (do_code p c f T Hn Hc Hk Hf) as (Hf' & Ed & Hn1). rewrite Ed in Ea. injection Ea as Eo EA.
  rewrite <-EA in R1. specialize (Hord f Hf').
  destruct (IH m1 p1 chs1 _ R1 Hn1) as (os & m' & p' & chs' & T' & E' & Hr & R'); [|done|].
  { eapply Forall_impl; [done|]. intros d Hd. eapply cmd_ok_place; [done..|].
    by rewrite (rep_bsize _ _ _ _ R), (rep_bsize _ _ _ _ R1). }
  exists (o :: os), m', p', chs', T'. cbn [pool_run]. rewrite E. cbn [mbind option_bind]. rewrite E'.
  split; [done|]. split; [|done]. eapply runs_cons; [exact Hf'| |exact Hr]. rewrite <-Eo. by destruct (t_do c f T).
Qed.

(** An empty pool of [count] blocks. *)
Definition t_init (count : Z) : table := mkTable (a_init count) (fun _ => false).

Lemma sane_init count : sane (t_init count).
Proof.
  split; [done|]. intros s a _. unfold t_object, a_slot, t_init, a_init. cbn [tb_pool ap_slots]. by rewrite nth_replicate_same.
Qed.

(** ** Clients with one owner per object

    The simplest clients keep the contract: each object has its creator's reference
    only. *)

Definition one_owner_cmd (c : pool_cmd) : Prop :=
  match c with
  | PAlloc size _ _ => 0 <= size <= 0xFFFFFFFF - 8191
  | PRef _ => False
  | PUnref h creation => 0 <= h /\ creation = true
  | PSweep _ => True
  | PWrite h _ _ _ | PRead h _ _ _ => 0 <= h
  end.

Record one_owner (T : table) : Prop := {
  oo_slots : length (ap_slots (tb_pool T)) = 256%nat;
  oo_object s a : 0 <= s < 256 -> t_object T s = Some a -> ao_refs a = 1 /\ tb_held T s = true
}.

Lemma one_owner_set T s a : one_owner T -> 0 <= s < 256 -> ao_refs a = 1 -> one_owner (t_set T s a true).
Proof.
  intros [Hl Ho] Hs Ha. split; [cbn; by rewrite length_insert|]. intros t b Ht. unfold t_object, t_set. cbn [tb_pool tb_held].
  rewrite a_slot_set by lia. case_decide as E.
  - intros [= <-]. by rewrite (proj2 (Z.eqb_eq t s)).
  - rewrite (proj2 (Z.eqb_neq t s)) by done. by apply Ho.
Qed.

Lemma one_owner_drop T s a held : one_owner T -> 0 <= s < 256 -> t_object T s = Some a ->
  one_owner (t_drop T s a held).2.
Proof.
  intros [Hl Ho] Hs Ea. unfold t_drop. rewrite (proj2 (Z.eqb_eq _ _) (proj1 (Ho s a Hs Ea))). cbn [snd].
  split; [cbn; by rewrite length_insert|]. intros t b Ht. rewrite removed_slot by lia. case_decide as E; [done|].
  cbn. rewrite (proj2 (Z.eqb_neq t s)) by done. by apply Ho.
Qed.

Lemma one_owner_sweep n vm : forall T s freed, one_owner T -> 0 <= s -> s + Z.of_nat n <= 256 ->
  one_owner (t_sweep n T s vm freed).2.
Proof.
  induction n as [|n IH]; intros T s freed Hn Hs Hb; cbn [t_sweep]; [done|].
  destruct (t_object T s) as [a|] eqn:Ea; [|apply IH; [done|lia|lia]].
  destruct (_ && _); [|apply IH; [done|lia|lia]]. pose proof (one_owner_drop T s a false Hn ltac:(lia) Ea).
  destruct (t_drop T s a false) as [gone T1]. apply IH; [done|lia|lia].
Qed.

Lemma one_owner_step T c fresh : one_owner T -> one_owner_cmd c -> keeps_contract T c /\ one_owner (t_do c fresh T).2.
Proof.
  intros Hn Hc. destruct c as [size vm rate|h|h creation|vm|h off src bs|h off dst n]; cbn [one_owner_cmd keeps_contract t_do] in *; [|done|..].
  - split; [done|]. unfold t_alloc. destruct (_ <? _); [done|]. destruct (a_first_free (tb_pool T)) as [s|] eqn:Es; [|done].
    destruct (first_free_spec _ _ Es) as [Hs _]. apply one_owner_set; [done|lia|done].
  - destruct Hc as [Hh ->]. split.
    + intros s a Ef. destruct (t_find_slot T h s a Hh Ef) as (_ & Hs & Ea). by apply (oo_object _ Hn s a).
    + unfold t_unref. destruct (t_find T h) as [[s a]|] eqn:Ef; [|done]. destruct (t_find_slot T h s a Hh Ef) as (_ & Hs & Ea).
      pose proof (one_owner_drop T s a (tb_held T s && negb true) Hn Hs Ea). by destruct (t_drop T s a _).
  - split; [intros s a Hs Ea _; by apply (oo_object _ Hn s a)|].
    pose proof (one_owner_sweep 256 vm T 0 0 Hn ltac:(lia) ltac:(lia)). by destruct (t_sweep 256 T 0 vm 0).
  - split; [done|]. unfold t_write. destruct (t_find T h) as [[s a]|] eqn:Ef; [|done].
    destruct (t_find_slot T h s a Hc Ef) as (_ & Hs & Ea). destruct (_ =? 0); [done|].
    destruct (oo_object _ Hn s a Hs Ea) as [Hr ->]. by apply one_owner_set.
  - split; [done|]. by destruct (t_read T h off n).
Qed.

Lemma one_owner_orderly cs : forall T, one_owner T -> Forall one_owner_cmd cs -> orderly T cs.
Proof.
  induction cs as [|c cs IH]; intros T Hn Hf; [done|]. apply Forall_cons in Hf as [Hc Hcs]. split.
  - by apply (one_owner_step T c []).
  - intros fresh _. apply IH; [|done]. by apply one_owner_step.
Qed.

Lemma one_owner_init count : one_owner (t_init count).
Proof. split; [done|]. intros s a _. unfold t_object, a_slot, t_init, a_init. cbn [tb_pool ap_slots]. by rewrite nth_replicate_same. Qed.

(** C34. The audio pool implements the table of objects its header documents.  Over a
    region and a map that do not overlap, initialisation succeeds, and every script of
    calls that keeps the contract returns, with the documented results: an allocation fails exactly when fewer than
    [ceil(size / block_size)] blocks (one, for an empty object) or no descriptors are
    left; a handle is refused from when its object is freed until its slot has gone
    through all generations; a write changes the bytes it names within the object only;
    a read returns them; an object lives while referenced, and the last release gives
    back its blocks and slot; a sweep drops the dying machine's creation references.  The contract ([keeps_contract]): sizes at most
    2^32 - 1 - 8191; counts below 2^31; a reference is dropped by one who holds it; a
    machine is swept while it holds the creation reference of each of its live objects.
    Outside it the code departs from the header ([huge_size_granted],
    [sweep_takes_foreign_reference]). *)
Theorem audio_pool_refines m p region size p_owner p_next p_words cs :
  mem_ok m -> region <> 0 -> p_owner <> 0 -> p_next <> 0 -> p_words <> 0 ->
  0 < size / 8192 < 0x100000000 ->
  rdisj region (size / 8192 * 8192) p_words (4 * BITSET_WORDS (size / 8192)) ->
  exists m0 p0, audio_pool_init m p region size p_owner p_next p_words = (AUDIO_POOL_OK, m0, p0) /\
    (Forall (cmd_ok p0) cs -> orderly (t_init (size / 8192)) cs ->
     exists os m' p' chs T, pool_run cs m0 p0 = Some (os, m', p') /\
       t_runs (t_init (size / 8192)) cs os T /\ pool_rep m' p' chs (tb_pool T)).
Proof.
  intros Hm Hr Hpo Hpn Hpw Hc Hd.
  destruct (init_rep m p region size p_owner p_next p_words Hm Hr Hpo Hpn Hpw Hc Hd) as (m0 & p0 & E & R).
  exists m0, p0. split; [done|]. intros Hcs Hord.
  destruct (run_rep cs m0 p0 _ (t_init (size / 8192)) R (sane_init _) Hcs Hord) as (os & m' & p' & chs & T & Hrun & Ha & R').
  by exists os, m', p', chs, T.
Qed.

(** ** A concrete pool *)

(** Three blocks at 0x100000, the map's word at 0x1000. *)
Definition demo_start : AudioPoolResult * mem * AudioPool :=
  audio_pool_init (fun _ => 0)
    (mkAudioPool 0 0 0 0 0 [] [] (mkBitset 0 0 0 0) 0 [] []) 0x100000 (3 * 8192 + 100) 8 16 0x1000.

Definition demo_script : list pool_cmd :=
  [PAlloc 100 7 44100; PAlloc 9000 7 0; PAlloc 1 7 0; PWrite 65538 8190 0x2000 [1; 2; 3; 4];
   PRead 65538 8189 0x3000 5; PRead 65538 8998 0x3000 64; PUnref 65538 true; PRead 65538 0 0x3000 4; PAlloc 1 8 0].

Definition run_demo (cs : list pool_cmd) : option (list outcome) :=
  '(os, _, _) ← pool_run cs demo_start.1.2 demo_start.2; Some os.

Definition demo_results : list outcome :=
  [(AUDIO_POOL_OK, 65537, []); (AUDIO_POOL_OK, 65538, []); (AUDIO_POOL_ERR_NO_SPACE, 0, []);
   (AUDIO_POOL_OK, 4, []); (AUDIO_POOL_OK, 5, [0; 1; 2; 3; 4]); (AUDIO_POOL_OK, 2, [0; 0]);
   (AUDIO_POOL_OK, 1, []); (AUDIO_POOL_ERR_BAD_HANDLE, 0, []); (AUDIO_POOL_OK, 131074, [])].

(** The object of 9000 bytes takes the last two blocks, the write crosses from one
    to the other, and its handle dies with it. *)
Lemma audio_pool_refines_witness :
  run_demo demo_script = Some demo_results /\
  exists os T, run_demo demo_script = Some os /\ t_runs (t_init 3) demo_script os T.
Proof.
  split; [by vm_compute|].
  destruct (audio_pool_refines (fun _ => 0) (mkAudioPool 0 0 0 0 0 [] [] (mkBitset 0 0 0 0) 0 [] [])
    0x100000 (3 * 8192 + 100) 8 16 0x1000 demo_script) as (m0 & p0 & E & H); try done.
  { unfold rdisj. vm_compute. by right. }
  assert (demo_start = (AUDIO_POOL_OK, m0, p0)) as Es by exact E. unfold run_demo. rewrite Es. cbn [fst snd].
  destruct H as (os & m' & p' & chs & T & -> & Ha & _); [| |by exists os, T].
  - apply (f_equal snd) in E. vm_compute in E. subst p0. unfold demo_script.
    repeat (apply Forall_cons; split); try apply Forall_nil; try done;
      cbn; unfold buffer_ok, rdisj; cbn; split_and!; try lia;
      repeat (apply Forall_cons; split); try apply Forall_nil; try done; unfold is_u8; lia.
  - apply one_owner_orderly; [apply one_owner_init|]. unfold demo_script.
    repeat (apply Forall_cons; split); try apply Forall_nil; cbn; try done; lia.
Defined.

(** A machine that has dropped its own reference loses, when it is swept, the
    reference somebody else holds: the object goes although it is referenced. *)
Example sweep_takes_foreign_reference :
  run_demo [PAlloc 100 7 0; PRef 65537; PUnref 65537 true; PSweep 7; PRef 65537] = Some
    [(AUDIO_POOL_OK, 65537, []); (AUDIO_POOL_OK, 0, []); (AUDIO_POOL_OK, 0, []);
     (AUDIO_POOL_OK, 1, []); (AUDIO_POOL_ERR_BAD_HANDLE, 0, [])].
Proof. by vm_compute. Qed.

(** A size near 4 GB wraps in the rounding: it is granted with a single block, and
    transfers past that block copy nothing. *)
Example huge_size_granted :
  run_demo [PAlloc 0xFFFFFFFF 7 0; PWrite 65537 8190 0x2000 [1; 2; 3; 4]; PRead 65537 8192 0x3000 4] = Some
    [(AUDIO_POOL_OK, 65537, []); (AUDIO_POOL_OK, 2, []); (AUDIO_POOL_OK, 0, [])].
Proof. by vm_compute. Qed.
