(* ===== verification/L2Alloc.v ===== *)
(** The L2 allocator ([src/mgapi/l2_alloc.c], with its owner
    [src/mgapi/l2_init.c]): first fit over a doubly linked free list, with
    boundary tags and immediate coalescing.

    Nothing is kept outside the region: the [L2Alloc] record is its first 32
    bytes and every block starts with a 16-byte header, so the model reads and
    writes all of it in host memory; the allocator itself is an address.  A loop
    over the free list gets one iteration more than the allocator's own count of
    free blocks; running out is the outcome [None]. *)
From S2P Require Import Prelude HostMem.

Definition L2_HEADER_BYTES : Z := 16.
Definition L2_MIN_BLOCK_BYTES : Z := 32.
Definition L2_DEFAULT_ALIGN : Z := 16.
Definition L2_FLAG_IN_USE : Z := 1.

(** [sizeof(L2Alloc)] with 64-bit pointers. *)
Definition L2Alloc_size : Z := 32.

(** ** Fields *)

(** [struct L2Alloc]. *)
Definition region_base (m : mem) (a : Z) : Z := load64 m a.
Definition region_end (m : mem) (a : Z) : Z := load64 m (a + 8).
Definition free_head (m : mem) (a : Z) : Z := load64 m (a + 16).
Definition alloc_count (m : mem) (a : Z) : Z := load32 m (a + 24).
Definition free_block_count (m : mem) (a : Z) : Z := load32 m (a + 28).
Definition set_region_base (m : mem) (a v : Z) : mem := store64 m a v.
Definition set_region_end (m : mem) (a v : Z) : mem := store64 m (a + 8) v.
Definition set_free_head (m : mem) (a v : Z) : mem := store64 m (a + 16) v.
Definition set_alloc_count (m : mem) (a v : Z) : mem := store32 m (a + 24) v.
Definition set_free_block_count (m : mem) (a v : Z) : mem := store32 m (a + 28) v.

(** [struct L2Block]. *)
Definition b_size (m : mem) (b : Z) : Z := load32 m b.
Definition b_prev_size (m : mem) (b : Z) : Z := load32 m (b + 4).
Definition b_flags (m : mem) (b : Z) : Z := load32 m (b + 8).
Definition set_size (m : mem) (b v : Z) : mem := store32 m b v.
Definition set_prev_size (m : mem) (b v : Z) : mem := store32 m (b + 4) v.
Definition set_flags (m : mem) (b v : Z) : mem := store32 m (b + 8) v.
Definition set_pad (m : mem) (b v : Z) : mem := store32 m (b + 12) v.

(** ** Blocks, payloads and neighbours *)

Definition block_payload (b : Z) : Z := b + L2_HEADER_BYTES.
Definition payload_block (p : Z) : Z := p - L2_HEADER_BYTES.

Definition next_block (m : mem) (a b : Z) : Z :=
  let n := b + b_size m b in
  if region_end m a <=? n then 0 else n.

Definition prev_block (m : mem) (b : Z) : Z :=
  if b_prev_size m b =? 0 then 0 else b - b_prev_size m b.

(** ** The free list *)

(** [struct FreeLink], in the payload. *)
Definition fl (b : Z) : Z := block_payload b.
Definition fl_prev (m : mem) (b : Z) : Z := load64 m (fl b).
Definition fl_next (m : mem) (b : Z) : Z := load64 m (fl b + 8).
Definition set_fl_prev (m : mem) (b v : Z) : mem := store64 m (fl b) v.
Definition set_fl_next (m : mem) (b v : Z) : mem := store64 m (fl b + 8) v.

Definition fl_push (m : mem) (a b : Z) : mem :=
  let m := set_fl_prev m b 0 in
  let m := set_fl_next m b (free_head m a) in
  let m := if negb (free_head m a =? 0) then set_fl_prev m (free_head m a) b else m in
  let m := set_free_head m a b in
  set_free_block_count m a (free_block_count m a + 1).

Definition fl_remove (m : mem) (a b : Z) : mem :=
  let m := if negb (fl_prev m b =? 0) then set_fl_next m (fl_prev m b) (fl_next m b)
           else set_free_head m a (fl_next m b) in
  let m := if negb (fl_next m b =? 0) then set_fl_prev m (fl_next m b) (fl_prev m b) else m in
  set_free_block_count m a (free_block_count m a - 1).

(** ** Creation *)

(** Null when the region is too small; the second test comes after the record
    has been written. *)
Definition l2_create (m : mem) (region region_size : Z) : mem * Z :=
  if (region =? 0) || (region_size <? L2Alloc_size + L2_MIN_BLOCK_BYTES) then (m, 0) else
  let a := region in
  let m := memset m a 0 L2Alloc_size in
  let heap_base_addr := Z.land (u64 (region + L2Alloc_size + L2_DEFAULT_ALIGN - 1)) (not64 (L2_DEFAULT_ALIGN - 1)) in
  let m := set_region_base m a heap_base_addr in
  let m := set_region_end m a (region + region_size) in
  if region_end m a - region_base m a <? L2_MIN_BLOCK_BYTES then (m, 0) else
  let b := region_base m a in
  let m := set_size m b (u32 (region_end m a - region_base m a)) in
  let m := set_prev_size m b 0 in
  let m := set_flags m b 0 in
  let m := set_pad m b 0 in
  let m := set_free_head m a 0 in
  let m := set_free_block_count m a 0 in
  (fl_push m a b, a).

Definition l2_destroy (m : mem) (a : Z) : mem :=
  if a =? 0 then m else memset m a 0 L2Alloc_size.

(** ** Allocation *)

Definition round_up_u32 (v align : Z) : Z := Z.land (u32 (v + align - 1)) (not32 (u32 (align - 1))).
Definition is_pow2 (v : Z) : bool := negb (v =? 0) && (Z.land v (v - 1) =? 0).

(** The block size a request asks for, in [uint32_t]. *)
Definition want_total (size align : Z) : Z :=
  let want_payload := if size <? 16 then 16 else u32 size in
  let want_payload := round_up_u32 want_payload (u32 align) in
  round_up_u32 (u32 (want_payload + L2_HEADER_BYTES)) L2_DEFAULT_ALIGN.

(** The first block of the free list, from [b] on, of at least [want] bytes. *)
Fixpoint first_fit (fuel : nat) (m : mem) (b want : Z) : option Z :=
  match fuel with
  | O => None
  | S fuel =>
      if negb (b =? 0) && (b_size m b <? want) then first_fit fuel m (fl_next m b) want
      else Some b
  end.

Definition list_fuel (m : mem) (a : Z) : nat := S (Z.to_nat (free_block_count m a)).

(** Split the tail off a block taken from the list, if a block fits there. *)
Definition split_tail (m : mem) (a b want : Z) : mem :=
  let remaining := u32 (b_size m b - want) in
  if L2_MIN_BLOCK_BYTES <=? remaining then
    let tail := b + want in
    let m := set_size m tail remaining in
    let m := set_prev_size m tail want in
    let m := set_flags m tail 0 in
    let m := set_pad m tail 0 in
    let after := next_block m a tail in
    let m := if negb (after =? 0) then set_prev_size m after remaining else m in
    let m := set_size m b want in
    fl_push m a tail
  else m.

Definition effective_align (align : Z) : Z :=
  if align =? 0 then L2_DEFAULT_ALIGN else align.

Definition l2_alloc (m : mem) (a size align : Z) : option (mem * Z) :=
  if (a =? 0) || (size =? 0) then Some (m, 0) else
  let align := effective_align align in
  if negb (is_pow2 align) then Some (m, 0) else
  let align := if align <? L2_DEFAULT_ALIGN then L2_DEFAULT_ALIGN else align in
  let want := want_total size align in
  match first_fit (list_fuel m a) m (free_head m a) want with
  | None => None
  | Some b =>
      if b =? 0 then Some (m, 0) else
      let m := fl_remove m a b in
      let m := split_tail m a b want in
      let m := set_flags m b (Z.lor (b_flags m b) L2_FLAG_IN_USE) in
      let m := set_alloc_count m a (alloc_count m a + 1) in
      Some (m, block_payload b)
  end.

(** ** Release *)

Definition in_use (m : mem) (b : Z) : bool := negb (Z.land (b_flags m b) L2_FLAG_IN_USE =? 0).

(** Merge with the block before, if it is free; the block that results. *)
Definition merge_prev (m : mem) (a b : Z) : mem * Z :=
  let prev := prev_block m b in
  if negb (prev =? 0) && negb (in_use m prev) then
    let m := fl_remove m a prev in
    let m := set_size m prev (b_size m prev + b_size m b) in
    let after := next_block m a prev in
    let m := if negb (after =? 0) then set_prev_size m after (b_size m prev) else m in
    (m, prev)
  else (m, b).

Definition merge_next (m : mem) (a b : Z) : mem :=
  let next := next_block m a b in
  if negb (next =? 0) && negb (in_use m next) then
    let m := fl_remove m a next in
    let m := set_size m b (b_size m b + b_size m next) in
    let after := next_block m a b in
    if negb (after =? 0) then set_prev_size m after (b_size m b) else m
  else m.

Definition l2_free (m : mem) (a p : Z) : mem :=
  if (a =? 0) || (p =? 0) then m else
  let b := payload_block p in
  if negb (in_use m b) then m else
  let m := set_flags m b (Z.land (b_flags m b) (not32 L2_FLAG_IN_USE)) in
  let m := set_alloc_count m a (alloc_count m a - 1) in
  let '(m, b) := merge_prev m a b in
  let m := merge_next m a b in
  fl_push m a b.

(** ** Statistics *)

(** The size of the largest free block, and the sum of them, from [b] on. *)
Fixpoint largest_from (fuel : nat) (m : mem) (b big : Z) : option Z :=
  match fuel with
  | O => None
  | S fuel =>
      if b =? 0 then Some big
      else largest_from fuel m (fl_next m b) (if big <? b_size m b then b_size m b else big)
  end.

Definition l2_largest_free (m : mem) (a : Z) : option Z :=
  if a =? 0 then Some 0 else
  match largest_from (list_fuel m a) m (free_head m a) 0 with
  | None => None
  | Some big => Some (if L2_HEADER_BYTES <? big then big - L2_HEADER_BYTES else 0)
  end.

Fixpoint free_bytes_from (fuel : nat) (m : mem) (b acc : Z) : option Z :=
  match fuel with
  | O => None
  | S fuel =>
      if b =? 0 then Some acc else free_bytes_from fuel m (fl_next m b) (acc + b_size m b)
  end.

Record L2Stats := mkL2Stats {
  st_used_bytes : Z;
  st_free_bytes : Z;
  st_alloc_count : Z;
  st_free_block_count : Z
}.

Definition l2_stats (m : mem) (a : Z) : option L2Stats :=
  if a =? 0 then Some (mkL2Stats 0 0 0 0) else
  match free_bytes_from (list_fuel m a) m (free_head m a) 0 with
  | None => None
  | Some free_bytes =>
      let total := region_end m a - region_base m a in
      Some (mkL2Stats (total - free_bytes) free_bytes (alloc_count m a) (free_block_count m a))
  end.

(** ** The owner of the shared instance *)

(** [g_l2] is the address of the instance, null before [mgapi_l2_init]. *)
Definition EALREADY : Z := 114.
Definition ENOMEM : Z := 12.
Definition EAGAIN : Z := 11.

Definition mgapi_l2_init (m : mem) (g_l2 region region_size : Z) : mem * Z * Z :=
  if negb (g_l2 =? 0) then (m, g_l2, - EALREADY) else
  let '(m, g_l2) := l2_create m region region_size in
  (m, g_l2, if negb (g_l2 =? 0) then 0 else - ENOMEM).

Definition mgapi_l2_shutdown (m : mem) (g_l2 : Z) : mem * Z :=
  if negb (g_l2 =? 0) then (l2_destroy m g_l2, 0) else (m, g_l2).

Definition mgapi_l2_host_alloc (m : mem) (g_l2 size align : Z) : option (mem * Z) :=
  if negb (g_l2 =? 0) then l2_alloc m g_l2 size align else Some (m, 0).

Definition mgapi_l2_host_free (m : mem) (g_l2 p : Z) : mem :=
  if negb (g_l2 =? 0) then l2_free m g_l2 p else m.

(** The statistics and the largest free size, or [-EAGAIN] without an instance. *)
Definition mgapi_l2_stats (m : mem) (g_l2 : Z) : option (L2Stats * Z + Z) :=
  if g_l2 =? 0 then Some (inr (- EAGAIN)) else
  match l2_stats m g_l2, l2_largest_free m g_l2 with
  | Some s, Some l => Some (inl (s, l))
  | _, _ => None
  end.
