(* ===== verification/L2Heap.v ===== *)
(** The heap of the L2 allocator: the blocks that tile the region, the free
    list threaded through the payloads of free blocks, and what the allocator's
    steps (push and remove on the list, replacing a run of blocks by another)
    do to both. *)
From stdpp Require Import sorting.
From S2P Require Import Prelude HostMem L2Alloc.
#[local] Open Scope Z_scope.

(** ** Loads over stores *)

Lemma load64_store64_disj m a v b : rdisj a 8 b 8 -> load64 (store64 m a v) b = load64 m b.
Proof. intros. eapply load64_frame; [apply store64_frame|done]. Qed.
Lemma load64_store32_disj m a v b : rdisj a 4 b 8 -> load64 (store32 m a v) b = load64 m b.
Proof. intros. eapply load64_frame; [apply store32_frame|done]. Qed.
Lemma load32_store64_disj m a v b : rdisj a 8 b 4 -> load32 (store64 m a v) b = load32 m b.
Proof. intros. eapply load32_frame; [apply store64_frame|done]. Qed.

(** Field names down to loads and stores. *)
Ltac l2_fields := unfold b_size, b_prev_size, b_flags, set_size, set_prev_size, set_flags, set_pad,
  fl_prev, fl_next, set_fl_prev, set_fl_next, fl, block_payload, region_base, region_end, free_head,
  alloc_count, free_block_count, set_region_base, set_region_end, set_free_head, set_alloc_count,
  set_free_block_count, L2_HEADER_BYTES in *.

(** Evaluate loads through stores whose addresses [lia] can compare. *)
Ltac l2_disj := solve [unfold rdisj; lia].
Ltac l2_load := repeat first
  [ rewrite load32_store32_eq | rewrite load64_store64_eq
  | rewrite load32_store32_disj by l2_disj | rewrite load32_store64_disj by l2_disj
  | rewrite load64_store32_disj by l2_disj | rewrite load64_store64_disj by l2_disj ].

Lemma store32_out m a v x : ~ rng a 4 x -> store32 m a v x = m x.
Proof. intros H. by apply mem_write_out. Qed.
Lemma store64_out m a v x : ~ rng a 8 x -> store64 m a v x = m x.
Proof. intros H. by apply mem_write_out. Qed.

(** ** The blocks *)

(** Size and use of each block, in address order. *)
Definition blocks : Type := list (Z * bool).

Definition total (bs : blocks) : Z := foldr (fun b n => b.1 + n) 0 bs.

(** The size of the last block, or what precedes the list. *)
Fixpoint last_size (p : Z) (bs : blocks) : Z :=
  match bs with
  | [] => p
  | b :: bs => last_size b.1 bs
  end.

(** The headers of the blocks from address [x] on, [p] being the size of the
    block before. *)
Fixpoint layout (m : mem) (x p : Z) (bs : blocks) : Prop :=
  match bs with
  | [] => True
  | (s, u) :: bs =>
      b_size m x = s /\ b_prev_size m x = p /\ b_flags m x = (if u : bool then 1 else 0) /\
      layout m (x + s) s bs
  end.

(** Every block holds a header and two links, and starts 16-aligned. *)
Fixpoint sized (x : Z) (bs : blocks) : Prop :=
  match bs with
  | [] => True
  | (s, _) :: bs => 32 <= s /\ x mod 16 = 0 /\ sized (x + s) bs
  end.

(** Block [x] has size [s] and use [u]. *)
Definition block_at (base : Z) (bs : blocks) (x s : Z) (u : bool) : Prop :=
  exists bs1 bs2, bs = bs1 ++ (s, u) :: bs2 /\ x = base + total bs1.

(** The addresses of the free blocks. *)
Fixpoint frees (x : Z) (bs : blocks) : list Z :=
  match bs with
  | [] => []
  | (s, u) :: bs => (if u : bool then [] else [x]) ++ frees (x + s) bs
  end.

(** The number of blocks in use. *)
Definition used (bs : blocks) : Z := foldr (fun b n => Z.b2z b.2 + n) 0 bs.

(** No two free blocks are neighbours. *)
Fixpoint settled (bs : blocks) : Prop :=
  match bs with
  | b :: bs' => match bs' with c :: _ => b.2 || c.2 = true | [] => True end /\ settled bs'
  | [] => True
  end.

Lemma total_app l1 l2 : total (l1 ++ l2) = total l1 + total l2.
Proof. induction l1 as [|b l1 IH]; [done|]. unfold total in *. cbn [app foldr]. lia. Qed.
Lemma total_cons s u l : total ((s, u) :: l) = s + total l.
Proof. done. Qed.
Lemma used_app l1 l2 : used (l1 ++ l2) = used l1 + used l2.
Proof. induction l1 as [|b l1 IH]; [done|]. unfold used in *. cbn [app foldr]. lia. Qed.
Lemma last_size_app p l1 l2 : last_size p (l1 ++ l2) = last_size (last_size p l1) l2.
Proof. revert p. induction l1 as [|b l1 IH]; intros p; cbn; [done|]. apply IH. Qed.
Lemma layout_app m x p l1 l2 :
  layout m x p (l1 ++ l2) <-> layout m x p l1 /\ layout m (x + total l1) (last_size p l1) l2.
Proof.
  revert x p. induction l1 as [|[s u] l1 IH]; intros x p; cbn [app layout last_size].
  - cbn. rewrite Z.add_0_r. tauto.
  - rewrite IH, total_cons, Z.add_assoc. cbn [fst]. tauto.
Qed.
Lemma sized_app x l1 l2 : sized x (l1 ++ l2) <-> sized x l1 /\ sized (x + total l1) l2.
Proof.
  revert x. induction l1 as [|[s u] l1 IH]; intros x; cbn [app sized].
  - cbn. rewrite Z.add_0_r. tauto.
  - rewrite IH, total_cons, Z.add_assoc. tauto.
Qed.
Lemma frees_app x l1 l2 : frees x (l1 ++ l2) = frees x l1 ++ frees (x + total l1) l2.
Proof.
  revert x. induction l1 as [|[s u] l1 IH]; intros x; cbn [app frees].
  - cbn. by rewrite Z.add_0_r.
  - by rewrite IH, total_cons, Z.add_assoc, (assoc_L (++)).
Qed.

Lemma sized_total x bs : sized x bs -> 0 <= total bs.
Proof. revert x. induction bs as [|[s u] bs IH]; intros x; [done|]. intros (H & _ & Hs). apply IH in Hs. rewrite total_cons. lia. Qed.

Lemma sized_nonempty x bs : sized x bs -> bs <> [] -> 32 <= total bs.
Proof. destruct bs as [|[s u] bs]; [done|]. intros (H & _ & Hs) _. apply sized_total in Hs. rewrite total_cons. lia. Qed.

(** Where a block lies, and how two of them lie. *)
Lemma block_at_bounds base bs x s u : sized base bs -> block_at base bs x s u ->
  base <= x /\ x + s <= base + total bs /\ 32 <= s /\ x mod 16 = 0.
Proof.
  intros H (bs1 & bs2 & -> & ->). apply sized_app in H as [H1 (Hs & Ha & H2)].
  apply sized_total in H1, H2. rewrite total_app, total_cons. lia.
Qed.

Lemma block_at_cmp base bs x s u y t v : sized base bs -> block_at base bs x s u -> block_at base bs y t v ->
  (x = y /\ s = t /\ u = v) \/ x + s <= y \/ y + t <= x.
Proof.
  intros H (l1 & l2 & -> & ->) (k1 & k2 & E & ->). revert base H k1 E.
  induction l1 as [|[s1 u1] l1 IH]; intros base H [|[t1 v1] k1] E; cbn [app] in *.
  - injection E as <- <- _. by left.
  - injection E as <- <- ->. right. left. destruct H as (_ & _ & H). apply sized_app in H as [H _].
    apply sized_total in H. rewrite total_cons. cbn [total foldr]. lia.
  - injection E as <- <- <-. right. right. destruct H as (_ & _ & H). apply sized_app in H as [H _].
    apply sized_total in H. rewrite total_cons. cbn [total foldr]. lia.
  - injection E as <- <- E. destruct H as (_ & _ & H). rewrite !total_cons, !Z.add_assoc. by apply IH.
Qed.

Lemma elem_of_frees base bs x : x ∈ frees base bs <-> exists s, block_at base bs x s false.
Proof.
  revert base. induction bs as [|[s u] bs IH]; intros base; cbn [frees].
  - split; [by intros ?%elem_of_nil|]. intros (s & bs1 & bs2 & H & _). by destruct bs1.
  - rewrite elem_of_app, IH. split.
    + intros [H|(t & l1 & l2 & -> & ->)].
      * destruct u; [by apply elem_of_nil in H|]. apply list_elem_of_singleton in H as ->.
        exists s, [], bs. split; [done|cbn; lia].
      * exists t, ((s, u) :: l1), l2. split; [done|]. rewrite total_cons. lia.
    + intros (t & [|[s1 u1] l1] & l2 & E & ->); cbn [app] in E; injection E as -> -> E.
      * left. rewrite Z.add_0_r. by apply list_elem_of_singleton.
      * right. exists t, l1, l2. split; [done|]. rewrite total_cons. lia.
Qed.

Lemma frees_bounds base bs x : sized base bs -> x ∈ frees base bs ->
  base <= x /\ x + 32 <= base + total bs /\ x mod 16 = 0.
Proof.
  intros H Hx. apply elem_of_frees in Hx as (s & Hb). pose proof (block_at_bounds _ _ _ _ _ H Hb). lia.
Qed.

Lemma frees_nodup base bs : sized base bs -> NoDup (frees base bs).
Proof.
  revert base. induction bs as [|[s u] bs IH]; intros base H; cbn [frees]; [constructor|].
  destruct H as (Hs & _ & H). destruct u; cbn [app]; [by apply IH|].
  apply NoDup_cons. split; [|by apply IH]. intros Hx. pose proof (frees_bounds _ _ _ H Hx). lia.
Qed.

(** A block and a free block that is not the same are disjoint. *)
Lemma free_apart base bs x s u y : sized base bs -> block_at base bs x s u -> y ∈ frees base bs -> x <> y ->
  x + s <= y \/ y + 32 <= x.
Proof.
  intros H Hx Hy Hne. apply elem_of_frees in Hy as (t & Hy). pose proof (block_at_bounds _ _ _ _ _ H Hy).
  destruct (block_at_cmp _ _ _ _ _ _ _ _ H Hx Hy) as [(? & _)|[?|?]]; [done|by left|right; lia].
Qed.

(** ** Headers and memory *)

Lemma header_agree m m' x :
  mem_agree (rng x 12) m m' -> b_size m' x = b_size m x /\ b_prev_size m' x = b_prev_size m x /\ b_flags m' x = b_flags m x.
Proof.
  intros H. unfold b_size, b_prev_size, b_flags.
  split_and!; apply load32_agree; intros z Hz; symmetry; apply H; unfold rng in *; lia.
Qed.

Lemma layout_agree bs m m' : forall x p, sized x bs ->
  (forall y s u, block_at x bs y s u -> mem_agree (rng y 12) m m') -> layout m x p bs -> layout m' x p bs.
Proof.
  induction bs as [|[s u] bs IH]; intros x p Hs H; [done|]. cbn [layout].
  destruct Hs as (_ & _ & Hs). assert (mem_agree (rng x 12) m m') as Hx.
  { apply (H x s u). exists [], bs. split; [done|cbn; lia]. }
  destruct (header_agree m m' x Hx) as (-> & -> & ->). intros (-> & -> & -> & HL). split_and!; try done.
  apply IH; [done| |done]. intros y t v (l1 & l2 & -> & ->). apply (H _ t v). exists ((s, u) :: l1), l2.
  split; [done|]. rewrite total_cons. lia.
Qed.

Lemma layout_agree_range bs m m' x p : sized x bs ->
  mem_agree (rng x (total bs)) m m' -> layout m x p bs -> layout m' x p bs.
Proof.
  intros Hs H. apply (layout_agree bs m m' x p); [done|]. intros y s u Hb z Hz. apply H.
  pose proof (block_at_bounds _ _ _ _ _ Hs Hb). unfold rng in *. lia.
Qed.

Lemma layout_block m x p bs y s u : layout m x p bs -> block_at x bs y s u ->
  b_size m y = s /\ b_flags m y = (if u then 1 else 0).
Proof. intros H (l1 & l2 & -> & ->). apply layout_app in H as [_ (H1 & H2 & H3 & _)]. done. Qed.

(** ** The free list *)

(** The links of the nodes [l], [p] before them and [q] after. *)
Fixpoint links (m : mem) (p : Z) (l : list Z) (q : Z) : Prop :=
  match l with
  | [] => True
  | x :: l => fl_prev m x = p /\ fl_next m x = hd q l /\ links m x l q
  end.

Definition last_node (p : Z) (l : list Z) : Z := List.last l p.

Lemma last_node_cons p x l : last_node p (x :: l) = last_node x l.
Proof.
  unfold last_node. revert x. induction l as [|y l IH]; intros x; [done|].
  change (List.last (x :: y :: l) p) with (List.last (y :: l) p). rewrite IH.
  change (List.last (y :: l) x) with (match l with [] => y | _ => List.last l x end). destruct l; [done|].
  by rewrite <-!IH.
Qed.

Lemma links_app m p l1 l2 q : links m p (l1 ++ l2) q <-> links m p l1 (hd q l2) /\ links m (last_node p l1) l2 q.
Proof.
  revert p. induction l1 as [|x l1 IH]; intros p; cbn [app links]; [tauto|].
  rewrite IH, last_node_cons. destruct l1; cbn [app hd]; tauto.
Qed.

Lemma links_agree m m' l q : forall p, (forall x, x ∈ l -> mem_agree (rng (x + 16) 16) m m') ->
  links m p l q -> links m' p l q.
Proof.
  induction l as [|x l IH]; intros p H; cbn [links]; [done|]. intros (<- & <- & HL).
  assert (mem_agree (rng (x + 16) 16) m m') as Hx by (apply H, elem_of_cons; by left).
  split_and!.
  - unfold fl_prev. symmetry. apply load64_agree. intros z Hz. apply Hx. l2_fields. unfold rng in *. lia.
  - unfold fl_next. symmetry. apply load64_agree. intros z Hz. apply Hx. l2_fields. unfold rng in *. lia.
  - apply IH; [|done]. intros y Hy. apply H, elem_of_cons. by right.
Qed.

(** ** The heap *)

(** The allocator at [a], its blocks [bs] from [base] to the end of the region,
    the free list [l] (some of the free blocks, each once) and the count [c] of
    allocations. *)
Record heap_at (m : mem) (a base : Z) (bs : blocks) (l : list Z) (c : Z) : Prop := {
  ha_room : 0 < a /\ a + 32 <= base /\ base + total bs < 0x10000000000000000 /\ total bs < 0x100000000;
  ha_base : region_base m a = base;
  ha_end : region_end m a = base + total bs;
  ha_head : free_head m a = hd 0 l;
  ha_allocs : alloc_count m a = c;
  ha_free : free_block_count m a = Z.of_nat (length l);
  ha_sized : sized base bs;
  ha_layout : layout m base 0 bs;
  ha_links : links m 0 l 0;
  ha_nodup : NoDup l;
  ha_frees x : x ∈ l -> x ∈ frees base bs
}.

(** The bytes the allocator leaves alone: those outside its record and its
    blocks, and the payloads in use. *)
Definition kept (a base : Z) (bs : blocks) (z : Z) : Prop :=
  ~ rng a 32 z /\ (~ rng base (total bs) z \/ exists x s, block_at base bs x s true /\ rng (x + 16) (s - 16) z).

Lemma not_kept_header a base bs x s u z : sized base bs -> block_at base bs x s u -> rng x 16 z -> ~ kept a base bs z.
Proof.
  intros H Hx Hz (_ & [Ho|(y & t & Hy & Hr)]); pose proof (block_at_bounds _ _ _ _ _ H Hx).
  - unfold rng in *. lia.
  - destruct (block_at_cmp _ _ _ _ _ _ _ _ H Hx Hy) as [(-> & _)|?]; unfold rng in *; lia.
Qed.

Lemma not_kept_free a base bs x s z : sized base bs -> block_at base bs x s false -> rng x s z -> ~ kept a base bs z.
Proof.
  intros H Hx Hz (_ & [Ho|(y & t & Hy & Hr)]); pose proof (block_at_bounds _ _ _ _ _ H Hx).
  - unfold rng in *. lia.
  - destruct (block_at_cmp _ _ _ _ _ _ _ _ H Hx Hy) as [(_ & _ & [=])|?]; unfold rng in *; lia.
Qed.

Lemma not_kept_link a base bs x z : sized base bs -> x ∈ frees base bs -> rng x 32 z -> ~ kept a base bs z.
Proof.
  intros H Hx Hz. apply elem_of_frees in Hx as (s & Hx). pose proof (block_at_bounds _ _ _ _ _ H Hx).
  apply (not_kept_free a base bs x s); [done|done|unfold rng in *; lia].
Qed.

Lemma not_kept_record a base bs z : rng a 32 z -> ~ kept a base bs z.
Proof. intros H [? _]. done. Qed.

(** A count of nodes is far from wrapping. *)
Lemma sized_length x bs : sized x bs -> 32 * Z.of_nat (length bs) <= total bs.
Proof.
  revert x. induction bs as [|[s u] bs IH]; intros x; [done|]. intros (H & _ & Hs). apply IH in Hs.
  rewrite total_cons. cbn [length]. lia.
Qed.
Lemma frees_length x bs : (length (frees x bs) <= length bs)%nat.
Proof.
  revert x. induction bs as [|[s u] bs IH]; intros x; [done|]. cbn [frees length]. rewrite length_app.
  specialize (IH (x + s)). destruct u; cbn [length]; lia.
Qed.

Section ops.
Context (m : mem) (a base : Z) (bs : blocks) (l : list Z) (c : Z).
Hypothesis H : heap_at m a base bs l c.

Lemma list_length_bound : 32 * Z.of_nat (length l) <= total bs.
Proof.
  pose proof (sized_length _ _ (ha_sized _ _ _ _ _ _ H)). pose proof (frees_length base bs).
  pose proof (submseteq_length _ _ (NoDup_submseteq _ _ (ha_nodup _ _ _ _ _ _ H) (ha_frees _ _ _ _ _ _ H))). lia.
Qed.

Lemma node_bounds x : x ∈ frees base bs -> 0 < a /\ a + 32 <= base /\ base <= x /\ x + 32 <= base + total bs /\
  base + total bs < 0x10000000000000000.
Proof.
  intros Hx. pose proof (frees_bounds _ _ _ (ha_sized _ _ _ _ _ _ H) Hx). pose proof (ha_room _ _ _ _ _ _ H). lia.
Qed.

(** Two free blocks' links do not overlap, nor a link and a header. *)
Lemma free_nodes_apart x y : x ∈ frees base bs -> y ∈ frees base bs -> x = y \/ x + 32 <= y \/ y + 32 <= x.
Proof.
  intros Hx Hy. destruct (decide (x = y)) as [->|Hne]; [by left|right].
  apply elem_of_frees in Hx as (s & Hx). pose proof (block_at_bounds _ _ _ _ _ (ha_sized _ _ _ _ _ _ H) Hx).
  destruct (free_apart base bs x s false y (ha_sized _ _ _ _ _ _ H) Hx Hy Hne); lia.
Qed.

Lemma link_header x y s u z : x ∈ frees base bs -> block_at base bs y s u -> rng y 12 z -> ~ rng (x + 16) 16 z.
Proof.
  intros Hx Hy Hz Hr. pose proof (block_at_bounds _ _ _ _ _ (ha_sized _ _ _ _ _ _ H) Hy).
  destruct (decide (y = x)) as [->|Hne]; [unfold rng in *; lia|].
  destruct (free_apart base bs y s u x (ha_sized _ _ _ _ _ _ H) Hy Hx Hne); unfold rng in *; lia.
Qed.

(** Steps that write only the record's list fields and links of free blocks
    keep the headers, and the bytes the allocator leaves alone. *)
Definition link_byte (ns : list Z) (z : Z) : Prop := rng (a + 16) 16 z \/ exists x, x ∈ ns /\ rng (x + 16) 16 z.

Lemma links_layout m' ns : (forall x, x ∈ ns -> x ∈ frees base bs) -> mem_agree (fun z => ~ link_byte ns z) m m' ->
  layout m' base 0 bs /\ mem_agree (kept a base bs) m m'.
Proof.
  intros Hns Hag. split.
  - apply (layout_agree bs m m'); [apply H| |apply H]. intros y s u Hy z Hz. apply Hag. intros [Hr|(x & Hx & Hr)].
    + pose proof (block_at_bounds _ _ _ _ _ (ha_sized _ _ _ _ _ _ H) Hy). pose proof (ha_room _ _ _ _ _ _ H).
      unfold rng in *. lia.
    + by apply (link_header x y s u z (Hns x Hx) Hy Hz).
  - intros z Hz. apply Hag. intros [Hr|(x & Hx & Hr)]; revert Hz.
    + apply not_kept_record. unfold rng in *. lia.
    + apply (not_kept_link a base bs x z (ha_sized _ _ _ _ _ _ H) (Hns x Hx)). unfold rng in *. lia.
Qed.

Lemma record_agree m' ns : (forall x, x ∈ ns -> x ∈ frees base bs) -> mem_agree (fun z => ~ link_byte ns z) m m' ->
  region_base m' a = region_base m a /\ region_end m' a = region_end m a.
Proof.
  intros Hns Hag. unfold region_base, region_end. pose proof (ha_room _ _ _ _ _ _ H).
  split; symmetry; apply load64_agree; intros z Hz; apply Hag; intros [Hr|(x & Hx & Hr)];
    try (pose proof (node_bounds x (Hns x Hx))); unfold rng in *; lia.
Qed.
End ops.

(** Putting a list step's result together. *)
Lemma list_step m m' a base bs l l' c ns :
  heap_at m a base bs l c -> (forall x, x ∈ ns -> x ∈ frees base bs) -> mem_agree (fun z => ~ link_byte a ns z) m m' ->
  free_head m' a = hd 0 l' -> free_block_count m' a = Z.of_nat (length l') -> alloc_count m' a = c ->
  links m' 0 l' 0 -> NoDup l' -> (forall x, x ∈ l' -> x ∈ frees base bs) ->
  heap_at m' a base bs l' c /\ mem_agree (kept a base bs) m m'.
Proof.
  intros H Hns Hag H1 H2 H3 H4 H5 H6. destruct (links_layout _ _ _ _ _ _ H _ _ Hns Hag) as [HL HK].
  destruct (record_agree _ _ _ _ _ _ H _ _ Hns Hag) as [HB HE]. split; [|done].
  split; try done; try apply H; [rewrite HB; apply H|rewrite HE; apply H].
Qed.

(** ** Push *)

Lemma hd_node (l : list Z) : hd 0 l <> 0 -> exists n l', l = n :: l' /\ hd 0 l = n.
Proof. destruct l as [|n l']; [done|]. by exists n, l'. Qed.

(** [fl_push] with its reads of the record done. *)
Lemma fl_push_form m a b h : a + 32 <= b -> h = free_head m a -> (h <> 0 -> a + 32 <= h) ->
  fl_push m a b =
  let m2 := store64 (store64 m (b + 16) 0) (b + 24) h in
  let m3 := if negb (h =? 0) then store64 m2 (h + 16) b else m2 in
  store32 (store64 m3 (a + 16) b) (a + 28) (free_block_count m a + 1).
Proof.
  intros Hb -> Hh. unfold fl_push. l2_fields. replace (b + 16 + 8) with (b + 24) by lia.
  assert (load64 (store64 m (b + 16) 0) (a + 16) = load64 m (a + 16)) as -> by (l2_load; done).
  assert (load64 (store64 (store64 m (b + 16) 0) (b + 24) (load64 m (a + 16))) (a + 16) = load64 m (a + 16)) as ->
    by (l2_load; done).
  destruct (Z.eqb_spec (load64 m (a + 16)) 0) as [E|E]; cbn [negb]; l2_load; done.
Qed.

(** The link byte of the hypothesis belongs to node [n]. *)
Ltac link_node n := exists n; split; [rewrite ?elem_of_cons; tauto|lia].

Lemma fl_push_at m a base bs l c b : heap_at m a base bs l c -> b ∈ frees base bs -> b ∉ l ->
  heap_at (fl_push m a b) a base bs (b :: l) c /\ mem_agree (kept a base bs) m (fl_push m a b).
Proof.
  intros H Hb Hn. pose proof (node_bounds _ _ _ _ _ _ H b Hb) as Hbb. pose proof (list_length_bound _ _ _ _ _ _ H) as Hlen.
  pose proof (ha_room _ _ _ _ _ _ H) as Hroom. pose proof (ha_frees _ _ _ _ _ _ H) as Hfr.
  pose proof (ha_head _ _ _ _ _ _ H) as Hh. pose proof (ha_free _ _ _ _ _ _ H) as Hf.
  pose proof (ha_allocs _ _ _ _ _ _ H) as Ha. pose proof (ha_links _ _ _ _ _ _ H) as HL.
  assert (forall x, x ∈ l -> a + 32 <= x /\ (b + 32 <= x \/ x + 32 <= b)) as Hx.
  { intros x Hx. pose proof (node_bounds _ _ _ _ _ _ H x (Hfr x Hx)).
    destruct (free_nodes_apart _ _ _ _ _ _ H b x Hb (Hfr x Hx)) as [->|?]; [done|lia]. }
  rewrite (fl_push_form m a b (hd 0 l)); [|lia|done|].
  2:{ intros (n & l' & -> & ->)%hd_node. apply Hx, elem_of_cons. by left. }
  rewrite Hf. cbv zeta. destruct l as [|n l']; cbn [hd negb Z.eqb].
  - apply (list_step m _ a base bs [] [b] c [b]); try done.
    + by intros x ->%list_elem_of_singleton.
    + intros z Hz. symmetry. rewrite store32_out, !store64_out; try done; intros Hr; apply Hz;
        unfold link_byte, rng in *; first [left; lia|right; link_node b].
    + l2_fields. l2_load. cbn [hd]. apply u64_small. unfold is_u64. lia.
    + l2_fields. by l2_load.
    + l2_fields. by l2_load.
    + cbn [links hd]. l2_fields. replace (b + 16 + 8) with (b + 24) by lia. l2_load. done.
    + apply NoDup_singleton.
    + by intros x ->%list_elem_of_singleton.
  - destruct (Hx n) as [Hna Hnb]; [apply elem_of_cons; by left|].
    assert (n <> 0) as Hn0 by lia. rewrite (proj2 (Z.eqb_neq n 0) Hn0). cbn [negb].
    apply (list_step m _ a base bs (n :: l') (b :: n :: l') c [b; n]); try done.
    + intros x [->|[->|[]%elem_of_nil]%elem_of_cons]%elem_of_cons; [done|]. apply Hfr, elem_of_cons. by left.
    + intros z Hz. symmetry. rewrite store32_out, !store64_out; try done; intros Hr; apply Hz;
        unfold link_byte, rng in *; first [left; lia|right; link_node b|right; link_node n].
    + l2_fields. l2_load. cbn [hd]. apply u64_small. unfold is_u64. lia.
    + l2_fields. l2_load. cbn [length] in *. rewrite u32_small; unfold is_u32; lia.
    + l2_fields. by l2_load.
    + destruct HL as (Hp & Hq & HL). cbn [links hd]. l2_fields. replace (b + 16 + 8) with (b + 24) by lia.
      replace (n + 16 + 8) with (n + 24) in * by lia. l2_load. rewrite Hq.
      assert (0 <= n < 0x10000000000000000 /\ 0 <= b < 0x10000000000000000) as [Hn2 Hb2].
      { pose proof (node_bounds _ _ _ _ _ _ H n (Hfr n (proj2 (elem_of_cons _ _ _) (or_introl eq_refl)))). lia. }
      rewrite !u64_small by (unfold is_u64; lia). split_and!; try done.
      apply (links_agree m); [|done]. intros x Hxl z Hz. symmetry.
      assert (x <> n) as Hxn by (intros ->; pose proof (ha_nodup _ _ _ _ _ _ H) as Hd; by apply NoDup_cons in Hd as [? _]).
      destruct (Hx x) as [Hxa Hxb]; [apply elem_of_cons; by right|].
      destruct (free_nodes_apart _ _ _ _ _ _ H x n) as [|Hxn2]; [apply Hfr, elem_of_cons; by right|apply Hfr, elem_of_cons; by left|done|].
      rewrite store32_out, !store64_out; try done; unfold rng in *; lia.
    + apply NoDup_cons. split; [done|apply H].
    + intros x Hxl. apply elem_of_cons in Hxl as [->|Hxl]; [done|by apply Hfr].
Qed.

(** ** Remove *)

Lemma last_node_split l : l = [] \/ exists l', l = l' ++ [last_node 0 l].
Proof.
  destruct l as [|x l _] using rev_ind; [by left|]. right. exists l. unfold last_node. by rewrite last_last.
Qed.

Lemma last_node_in l : last_node 0 l <> 0 -> last_node 0 l ∈ l.
Proof.
  destruct l as [|x l _] using rev_ind; [done|]. intros _. unfold last_node. rewrite last_last, elem_of_app.
  right. by apply list_elem_of_singleton.
Qed.
Lemma hd_in (l : list Z) : hd 0 l <> 0 -> hd 0 l ∈ l.
Proof. intros (n & l' & -> & ->)%hd_node. apply elem_of_cons. by left. Qed.

(** Redirecting the neighbours of a node takes it out of the list. *)
Lemma links_unlink m m' l1 b l2 P N :
  P = last_node 0 l1 -> N = hd 0 l2 ->
  NoDup (l1 ++ b :: l2) -> (forall x, x ∈ l1 ++ b :: l2 -> x <> 0) -> links m 0 (l1 ++ b :: l2) 0 ->
  (forall x, x ∈ l1 ++ l2 -> x <> P -> x <> N -> mem_agree (rng (x + 16) 16) m m') ->
  (P <> 0 -> fl_next m' P = N /\ fl_prev m' P = fl_prev m P) ->
  (N <> 0 -> fl_prev m' N = P /\ fl_next m' N = fl_next m N) ->
  links m' 0 (l1 ++ l2) 0.
Proof.
  intros HP0 HN0 Hnd Hnz HL Hag HP HN. apply links_app in HL as [H1 (_ & _ & H2)].
  apply NoDup_app in Hnd as (Hnd1 & Hnd2 & Hnd3). apply NoDup_cons in Hnd3 as [_ Hnd3].
  apply links_app. rewrite <-HN0, <-HP0. split.
  - destruct (last_node_split l1) as [->|[l E]]; [done|]. rewrite <-HP0 in E. rewrite E in Hnd1, H1 |- *.
    assert (P ∈ l1) as HPl by (rewrite E, elem_of_app; right; by apply list_elem_of_singleton).
    destruct (HP (Hnz P ltac:(rewrite elem_of_app; by left))) as [E1 E2].
    apply NoDup_app in Hnd1 as (_ & Hnd1 & _).
    apply links_app in H1 as [H1 (H3 & _ & _)]. apply links_app. cbn [hd links] in *.
    split; [|by rewrite E1, E2]. apply (links_agree m); [|done].
    intros x Hx. assert (x ∈ l1) as Hx1 by (rewrite E, elem_of_app; by left).
    apply Hag; [rewrite elem_of_app; by left| |].
    + intros ->. apply (Hnd1 P Hx). by apply list_elem_of_singleton.
    + intros ->. apply (Hnd2 N Hx1), elem_of_cons. right. rewrite HN0. apply hd_in. rewrite <-HN0.
      apply Hnz. rewrite elem_of_app. by left.
  - destruct l2 as [|n l2]; [done|]. cbn [hd] in HN0. subst n. destruct H2 as (_ & Hq & H2).
    apply NoDup_cons in Hnd3 as [Hnd3 _].
    destruct (HN (Hnz N ltac:(rewrite elem_of_app, !elem_of_cons; tauto))) as [E1 E2].
    cbn [links hd]. split; [done|]. split; [by rewrite E2|].
    apply (links_agree m); [|done]. intros x Hx.
    assert (x <> 0) as Hx0 by (apply Hnz; rewrite elem_of_app, !elem_of_cons; tauto).
    apply Hag; [rewrite elem_of_app, elem_of_cons; tauto| |by intros ->].
    intros ->. apply (Hnd2 P); [|rewrite !elem_of_cons; tauto]. rewrite HP0. apply last_node_in. by rewrite <-HP0.
Qed.

(** [fl_remove] with its reads of the node done. *)
Lemma fl_remove_form m a b P N : a + 32 <= b -> fl_prev m b = P -> fl_next m b = N ->
  (P <> 0 -> rdisj P 32 b 32) -> 
  fl_remove m a b =
  let m1 := if negb (P =? 0) then store64 m (P + 24) N else store64 m (a + 16) N in
  let m2 := if negb (N =? 0) then store64 m1 (N + 16) P else m1 in
  store32 m2 (a + 28) (free_block_count m2 a - 1).
Proof.
  intros Hb HP HN HPb. unfold fl_remove. rewrite HP, HN.
  assert (forall m1, m1 = (if negb (P =? 0) then store64 m (P + 24) N else store64 m (a + 16) N) ->
    load64 m1 (b + 16) = P /\ load64 m1 (b + 24) = N) as H.
  { intros m1 ->. l2_fields. replace (b + 16 + 8) with (b + 24) in * by lia.
    destruct (Z.eqb_spec P 0) as [E|E]; cbn [negb]; [split; by l2_load|]. specialize (HPb E). unfold rdisj in HPb.
    split; by l2_load. }
  destruct (H _ eq_refl) as [E1 E2]. l2_fields. replace (b + 16 + 8) with (b + 24) in * by lia.
  replace (P + 16 + 8) with (P + 24) in * by lia. cbv zeta. by rewrite !E1, !E2.
Qed.

(** The reads of one case of [fl_remove], whose stores are all explicit. *)
Ltac removed_case Hf Ha Hh :=
  split_and!; [| | |intros ?; try done; split|intros ?; try done; split]; l2_load;
  rewrite ?Hf, ?Ha, ?Hh, ?u32_small, ?u64_small; unfold is_u32, is_u64; try done; lia.

(** What [fl_remove] leaves in memory, seen from the nodes around. *)
Section remove.
Context (m : mem) (a base : Z) (bs : blocks) (l1 : list Z) (b : Z) (l2 : list Z) (c : Z).
Hypothesis H : heap_at m a base bs (l1 ++ b :: l2) c.
Let P := last_node 0 l1.
Let N := hd 0 l2.
Let m' := fl_remove m a b.

Lemma removed_node x : x ∈ l1 ++ b :: l2 -> a + 32 <= x /\ x <> 0 /\ x + 32 < 0x10000000000000000.
Proof. intros Hx. pose proof (node_bounds _ _ _ _ _ _ H x (ha_frees _ _ _ _ _ _ H x Hx)). lia. Qed.

Lemma removed_apart x y : x ∈ l1 ++ b :: l2 -> y ∈ l1 ++ b :: l2 -> x <> y -> x + 32 <= y \/ y + 32 <= x.
Proof.
  intros Hx Hy Hne. destruct (free_nodes_apart _ _ _ _ _ _ H x y); [by apply H|by apply H|done|done].
Qed.

Lemma removed_prev : P <> 0 -> P ∈ l1 /\ P ∈ l1 ++ b :: l2.
Proof. intros Hp. pose proof (last_node_in l1 Hp). split; [done|rewrite elem_of_app; by left]. Qed.
Lemma removed_next : N <> 0 -> N ∈ l2 /\ N ∈ l1 ++ b :: l2.
Proof. intros Hn. pose proof (hd_in l2 Hn). split; [done|rewrite elem_of_app, elem_of_cons; tauto]. Qed.

Lemma removed_distinct : NoDup (l1 ++ b :: l2) /\ (P <> 0 -> P <> b) /\ (N <> 0 -> N <> b) /\ (P <> 0 -> P <> N).
Proof.
  pose proof (ha_nodup _ _ _ _ _ _ H) as Hnd. split; [done|].
  apply NoDup_app in Hnd as (_ & Hnd1 & Hnd2). apply NoDup_cons in Hnd2 as [Hnd2 _]. split_and!.
  - intros Hp E. apply (Hnd1 P); [by apply removed_prev|]. rewrite E, elem_of_cons. by left.
  - intros Hn E. apply Hnd2. rewrite <-E. by apply removed_next.
  - intros Hp E. apply (Hnd1 P); [by apply removed_prev|]. rewrite elem_of_cons. right. rewrite E. apply removed_next.
    by rewrite <-E.
Qed.

Lemma removed_form : m' =
  let m1 := if negb (P =? 0) then store64 m (P + 24) N else store64 m (a + 16) N in
  let m2 := if negb (N =? 0) then store64 m1 (N + 16) P else m1 in
  store32 m2 (a + 28) (free_block_count m2 a - 1).
Proof.
  assert (b ∈ l1 ++ b :: l2) as Hb by (rewrite elem_of_app, elem_of_cons; tauto).
  pose proof (ha_links _ _ _ _ _ _ H) as HL. apply links_app in HL as [_ (HP & HN & _)].
  apply fl_remove_form; [apply removed_node; done|done|done|].
  intros Hp. destruct (removed_apart P b); [by apply removed_prev|done|by apply removed_distinct|left; lia|right; lia].
Qed.

(** The fields of the record, and the links of the neighbours. *)
Lemma removed_reads :
  free_head m' a = hd 0 (l1 ++ l2) /\ free_block_count m' a = Z.of_nat (length (l1 ++ l2)) /\ alloc_count m' a = c /\
  (P <> 0 -> fl_next m' P = N /\ fl_prev m' P = fl_prev m P) /\
  (N <> 0 -> fl_prev m' N = P /\ fl_next m' N = fl_next m N).
Proof.
  rewrite removed_form. cbv zeta. pose proof (ha_free _ _ _ _ _ _ H) as Hf. pose proof (ha_allocs _ _ _ _ _ _ H) as Ha.
  pose proof (ha_head _ _ _ _ _ _ H) as Hh. pose proof (list_length_bound _ _ _ _ _ _ H) as Hlen.
  pose proof (ha_room _ _ _ _ _ _ H) as Hroom. destruct removed_distinct as (_ & _ & _ & Hd).
  rewrite length_app in *. cbn [length] in *.
  assert (P = 0 -> hd 0 (l1 ++ l2) = N) as Hh0.
  { unfold P. intros E. destruct (last_node_split l1) as [->|[l El]]; [done|]. exfalso.
    apply (proj1 (proj2 (removed_node 0 ltac:(rewrite elem_of_app, El, elem_of_app, E; left; right; by apply list_elem_of_singleton)))).
    done. }
  assert (P <> 0 -> hd 0 (l1 ++ l2) = hd 0 (l1 ++ b :: l2)) as Hh1 by (unfold P; by destruct l1).
  pose proof removed_prev as Rp. pose proof removed_next as Rn.
  l2_fields. replace (P + 16 + 8) with (P + 24) by lia. replace (N + 16 + 8) with (N + 24) by lia.
  destruct (Z.eqb_spec P 0) as [Ep|Ep], (Z.eqb_spec N 0) as [En|En]; cbn [negb].
  - rewrite Hh0, En by done. removed_case Hf Ha Hh.
  - destruct (Rn En) as [_ Hn]. destruct (removed_node N Hn) as (Hn1 & _ & Hn2). rewrite Hh0, Ep by done.
    removed_case Hf Ha Hh.
  - destruct (Rp Ep) as [_ Hp]. destruct (removed_node P Hp) as (Hp1 & _ & Hp2). rewrite Hh1, En by done.
    removed_case Hf Ha Hh.
  - destruct (Rp Ep) as [_ Hp]. destruct (removed_node P Hp) as (Hp1 & _ & Hp2). rewrite Hh1 by done.
    destruct (Rn En) as [_ Hn]. destruct (removed_node N Hn) as (Hn1 & _ & Hn2).
    destruct (removed_apart P N Hp Hn (Hd Ep)) as [Hap|Hap]; removed_case Hf Ha Hh.
Qed.

Lemma removed_frame ns : (P <> 0 -> P ∈ ns) -> (N <> 0 -> N ∈ ns) -> mem_agree (fun z => ~ link_byte a ns z) m m'.
Proof.
  intros HP HN z Hz. symmetry. rewrite removed_form. cbv zeta.
  assert (~ rng (a + 16) 16 z) as Hza by (intros ?; apply Hz; by left).
  assert (P <> 0 -> ~ rng (P + 16) 16 z) as Hzp by (intros Hp ?; apply Hz; right; eauto).
  assert (N <> 0 -> ~ rng (N + 16) 16 z) as Hzn by (intros Hp ?; apply Hz; right; eauto).
  unfold rng in *.
  destruct (Z.eqb_spec P 0) as [Ep|Ep], (Z.eqb_spec N 0) as [En|En]; cbn [negb];
    rewrite store32_out, !store64_out; try done; unfold rng; try specialize (Hzp Ep); try specialize (Hzn En); lia.
Qed.
End remove.

Lemma fl_remove_at m a base bs l1 b l2 c : heap_at m a base bs (l1 ++ b :: l2) c ->
  heap_at (fl_remove m a b) a base bs (l1 ++ l2) c /\ mem_agree (kept a base bs) m (fl_remove m a b).
Proof.
  intros H. destruct (removed_reads _ _ _ _ _ _ _ _ H) as (R1 & R2 & R3 & R4 & R5).
  pose proof (removed_prev l1 b l2) as Rp. pose proof (removed_next l1 b l2) as Rn.
  pose proof (ha_nodup _ _ _ _ _ _ H) as Hnd.
  assert (forall x, x ∈ l1 ++ l2 -> x ∈ l1 ++ b :: l2) as Hsub by (intros x; rewrite !elem_of_app, elem_of_cons; tauto).
  set (ns := [last_node 0 l1; hd 0 l2]).
  pose (ns' := filter (fun x => x <> 0) ns).
  assert (forall x, x ∈ ns' -> x <> 0 /\ (x = last_node 0 l1 \/ x = hd 0 l2)) as Hns.
  { intros x Hx. unfold ns' in Hx. rewrite list_elem_of_filter in Hx. destruct Hx as [Hx0 Hx]. split; [done|].
    unfold ns in Hx. rewrite !elem_of_cons, elem_of_nil in Hx. tauto. }
  assert (forall x, x <> 0 -> x = last_node 0 l1 \/ x = hd 0 l2 -> x ∈ ns') as Hns2.
  { intros x Hx0 Hx. unfold ns'. rewrite list_elem_of_filter. split; [done|].
    unfold ns. rewrite !elem_of_cons, elem_of_nil. tauto. }
  apply (list_step m _ a base bs (l1 ++ b :: l2) (l1 ++ l2) c ns'); try done.
  - intros x Hx. apply (ha_frees _ _ _ _ _ _ H). destruct (Hns x Hx) as [Hx0 [->| ->]]; [by apply Rp|by apply Rn].
  - apply (removed_frame m a base bs l1 b l2 c H); intros Hx; apply Hns2; tauto.
  - apply (links_unlink m _ l1 b l2 _ _ eq_refl eq_refl); try done.
    + intros x Hx. apply (removed_node _ _ _ _ _ _ _ _ H x Hx).
    + apply H.
    + intros x Hx Hxp Hxn z Hz. apply (removed_frame m a base bs l1 b l2 c H ns'); [intros E; apply Hns2; tauto..|].
      pose proof (removed_node _ _ _ _ _ _ _ _ H x (Hsub x Hx)) as (Hxa & _).
      intros [Hr|(y & Hy & Hr)]; [unfold rng in *; lia|]. destruct (Hns y Hy) as [Hy0 Hyy].
      assert (y ∈ l1 ++ b :: l2) as Hyl by (destruct Hyy as [->| ->]; [by apply Rp|by apply Rn]).
      destruct (removed_apart _ _ _ _ _ _ _ _ H x y (Hsub x Hx) Hyl); [by intros ->; destruct Hyy|unfold rng in *; lia..].
  - apply NoDup_app in Hnd as (Hn1 & Hn2 & Hn3). apply NoDup_cons in Hn3 as [_ Hn3]. apply NoDup_app. split_and!; try done.
    intros x Hx Hx2. apply (Hn2 x Hx). rewrite elem_of_cons. by right.
  - intros x Hx. by apply (ha_frees _ _ _ _ _ _ H), Hsub.
Qed.

(** ** Replacing a run of blocks *)

Lemma block_at_app base l1 l2 x s u : block_at base l1 x s u -> block_at base (l1 ++ l2) x s u.
Proof. intros (k1 & k2 & -> & ->). exists k1, (k2 ++ l2). split; [by rewrite <-app_assoc|done]. Qed.
Lemma block_at_shift base l1 l2 x s u : block_at (base + total l1) l2 x s u -> block_at base (l1 ++ l2) x s u.
Proof. intros (k1 & k2 & -> & ->). exists (l1 ++ k1), k2. split; [by rewrite <-app_assoc|]. rewrite total_app. lia. Qed.
Lemma block_at_split base l1 l2 x s u : block_at base (l1 ++ l2) x s u ->
  block_at base l1 x s u \/ block_at (base + total l1) l2 x s u.
Proof.
  intros (k1 & k2 & E & ->). revert base l1 E. induction k1 as [|b k1 IH]; intros base [|b' l1] E; cbn [app] in *.
  - right. exists [], k2. cbn. split; [done|lia].
  - left. injection E as -> <-. exists [], l1. done.
  - right. subst l2. exists (b :: k1), k2. split; [done|]. cbn. lia.
  - injection E as -> E. destruct b as [t v]. destruct (IH (base + t) l1 E) as [(j1 & j2 & -> & Hj)|(j1 & j2 & -> & Hj)].
    + left. exists ((t, v) :: j1), j2. split; [done|]. rewrite !total_cons in *. lia.
    + right. exists j1, j2. split; [done|]. rewrite !total_cons in *. lia.
Qed.

(** Only the inside of the run and the [prev_size] of the block after it change. *)
Definition run_bytes (x n : Z) (bs2 : blocks) (z : Z) : Prop := rng x n z \/ (bs2 <> [] /\ rng (x + n + 4) 4 z).

Section replace.
Context (m m' : mem) (a base : Z) (bs1 olds news bs2 : blocks) (l : list Z) (c : Z).
Hypothesis H : heap_at m a base (bs1 ++ olds ++ bs2) l c.
Let x := base + total bs1.
Hypothesis Htot : total news = total olds.
Hypothesis Hsz : sized x news.
Hypothesis Hne : news <> [].
Hypothesis Hout : forall y, y ∈ l -> ~ rng x (total olds) y.
Hypothesis Hag : mem_agree (fun z => ~ run_bytes x (total olds) bs2 z) m m'.
Hypothesis Hnew : layout m' x (last_size 0 bs1) news.
Hypothesis Hafter : bs2 <> [] -> b_prev_size m' (x + total olds) = last_size 0 news.

Lemma last_size_ne p q bs : bs <> [] -> last_size p bs = last_size q bs.
Proof. by destruct bs. Qed.

Lemma run_parts : sized base bs1 /\ sized x olds /\ sized (x + total olds) bs2.
Proof.
  pose proof (ha_sized _ _ _ _ _ _ H) as Hs. apply sized_app in Hs as [H1 Hs]. apply sized_app in Hs as [H2 H3]. done.
Qed.

Lemma run_room : 0 < a /\ a + 32 <= base /\ base + total bs1 + total olds + total bs2 < 0x10000000000000000 /\
  0 <= total bs1 /\ 0 <= total olds /\ 0 <= total bs2 /\ (bs2 <> [] -> 32 <= total bs2).
Proof.
  pose proof (ha_room _ _ _ _ _ _ H) as Hr. rewrite !total_app in Hr. destruct run_parts as (H1 & H2 & H3).
  pose proof (sized_total _ _ H1). pose proof (sized_total _ _ H2). pose proof (sized_total _ _ H3).
  split_and!; try lia. apply (sized_nonempty _ _ H3).
Qed.

Lemma run_total : total (bs1 ++ news ++ bs2) = total (bs1 ++ olds ++ bs2).
Proof. rewrite !total_app, Htot. done. Qed.

Lemma run_sized : sized base (bs1 ++ news ++ bs2).
Proof. destruct run_parts as (H1 & _ & H3). apply sized_app. split; [done|]. apply sized_app. by rewrite Htot. Qed.

Lemma run_layout : layout m' base 0 (bs1 ++ news ++ bs2).
Proof.
  destruct run_parts as (H1 & H2 & H3). pose proof run_room as Hr.
  pose proof (ha_layout _ _ _ _ _ _ H) as HL. apply layout_app in HL as [L1 HL]. apply layout_app in HL as [_ L3].
  fold x in L3. apply layout_app. split; [|apply layout_app; split; [done|]].
  - apply (layout_agree_range bs1 m m'); [done| |done]. intros z Hz. apply Hag. unfold run_bytes, rng, x in *. lia.
  - fold x. rewrite Htot, (last_size_ne _ 0) by done. destruct bs2 as [|[t v] bs2']; [done|].
    assert (mem_agree (fun z => rng (x + total olds) (t + total bs2') z /\ ~ rng (x + total olds + 4) 4 z) m m') as Hag2.
    { intros z Hz. apply Hag. unfold run_bytes, rng in *. lia. }
    rewrite <-Hafter by done. cbn [layout] in L3 |- *. destruct L3 as (E1 & _ & E2 & L3). destruct H3 as (Ht & _ & H3).
    pose proof (sized_total _ _ H3). split_and!; [| done | |].
    + rewrite <-E1. symmetry. apply load32_agree. intros z Hz. apply Hag2. unfold rng in *. lia.
    + rewrite <-E2. symmetry. apply load32_agree. intros z Hz. apply Hag2. unfold rng in *. lia.
    + apply (layout_agree_range bs2' m m'); [done| |done]. intros z Hz. apply Hag2. unfold rng in *. lia.
Qed.

Lemma run_frees y : y ∈ l -> y ∈ frees base (bs1 ++ news ++ bs2).
Proof.
  intros Hy. pose proof (ha_frees _ _ _ _ _ _ H y Hy) as Hf. rewrite !frees_app in Hf |- *. fold x in Hf |- *.
  rewrite Htot, !elem_of_app in *. destruct Hf as [Hf|[Hf|Hf]]; [tauto| |tauto].
  destruct run_parts as (_ & H2 & _). pose proof (frees_bounds _ _ _ H2 Hf). exfalso. apply (Hout y Hy). unfold rng. lia.
Qed.

(** A node of the list lies outside the run, so its links are untouched. *)
Lemma run_node y : y ∈ l -> mem_agree (rng (y + 16) 16) m m'.
Proof.
  intros Hy z Hz. apply Hag. pose proof (ha_frees _ _ _ _ _ _ H y Hy) as Hf. rewrite !frees_app in Hf.
  fold x in Hf. rewrite !elem_of_app in Hf. destruct run_parts as (H1 & H2 & H3). pose proof run_room.
  destruct Hf as [Hf|[Hf|Hf]].
  - pose proof (frees_bounds _ _ _ H1 Hf). unfold run_bytes, rng, x in *. lia.
  - pose proof (frees_bounds _ _ _ H2 Hf). exfalso. apply (Hout y Hy). unfold rng. lia.
  - pose proof (frees_bounds _ _ _ H3 Hf). unfold run_bytes, rng in *. lia.
Qed.

Lemma run_record : mem_agree (rng a 32) m m'.
Proof. intros z Hz. apply Hag. pose proof run_room. unfold run_bytes, rng, x in *. lia. Qed.

Lemma replace_at : heap_at m' a base (bs1 ++ news ++ bs2) l c.
Proof.
  pose proof run_record as Hrec. destruct H as [G1 G2 G3 G4 G5 G6 G7 G8 G9 G10 G11].
  split; try done; rewrite ?run_total; try done.
  - rewrite <-G2. symmetry. apply load64_agree. eapply mem_agree_mono; [|exact Hrec]. unfold rng. lia.
  - rewrite <-G3. symmetry. apply load64_agree. eapply mem_agree_mono; [|exact Hrec]. unfold rng. lia.
  - rewrite <-G4. symmetry. apply load64_agree. eapply mem_agree_mono; [|exact Hrec]. unfold rng. lia.
  - rewrite <-G5. symmetry. apply load32_agree. eapply mem_agree_mono; [|exact Hrec]. unfold rng. lia.
  - rewrite <-G6. symmetry. apply load32_agree. eapply mem_agree_mono; [|exact Hrec]. unfold rng. lia.
  - apply run_sized.
  - apply run_layout.
  - by apply (links_agree m), G9; apply run_node.
  - apply run_frees.
Qed.

(** If the run held no block in use, what the allocator leaves alone is kept. *)
Lemma replace_kept : (forall y s, ~ block_at x olds y s true) -> mem_agree (kept a base (bs1 ++ olds ++ bs2)) m m'.
Proof.
  clear Hnew Hafter Hsz Hne Htot. intros Hun z Hz. apply Hag. intros [Hr|[Hb2 Hr]]; revert Hz.
  - intros [_ [Ho|(y & s & Hy & Hr2)]].
    + rewrite !total_app in Ho. pose proof run_room. unfold rng, x in *. lia.
    + destruct run_parts as (H1 & H2 & H3). apply block_at_split in Hy as [Hy|Hy]; [|apply block_at_split in Hy as [Hy|Hy]].
      * pose proof (block_at_bounds _ _ _ _ _ H1 Hy). unfold rng, x in *. lia.
      * by apply (Hun y s).
      * pose proof (block_at_bounds _ _ _ _ _ H3 Hy). unfold x, rng in *. lia.
  - destruct bs2 as [|[t v] bs2']; [done|].
    apply (not_kept_header a base _ (x + total olds) t v z); [apply H| |unfold rng in *; lia].
    exists (bs1 ++ olds), bs2'. split; [by rewrite <-app_assoc|]. rewrite total_app. unfold x. lia.
Qed.
End replace.
