(* ===== verification/L2Safe.v ===== *)
(** What the L2 allocator promises its clients: every operation keeps the heap
    invariant, allocation is first fit, release merges with both neighbours,
    and the heap behaves as a store of separate objects that becomes one free
    block again when the last object is released. *)
From S2P Require Import Prelude HostMem Bump SpscRing L2Alloc L2Heap.
#[local] Open Scope Z_scope.

(** ** The size of a block *)

Lemma land_not32_mask y k : 0 <= k < 32 -> is_u32 y -> Z.land y (not32 (2 ^ k - 1)) = y / 2 ^ k * 2 ^ k.
Proof.
  intros Hk Hy. unfold not32. replace (2 ^ k - 1) with (Z.ones k) by (rewrite Z.ones_equiv; lia).
  rewrite <-Z.shiftr_div_pow2, <-Z.shiftl_mul_pow2 by lia.
  rewrite <-Z.ldiff_ones_r by lia. apply Z.bits_inj'. intros i Hi.
  rewrite Z.land_spec, Z.lxor_spec, Z.ldiff_spec. change 0xFFFFFFFF with (Z.ones 32).
  destruct (Z.ltb_spec i 32).
  - by rewrite (Z.ones_spec_low 32 i), xorb_true_r by lia.
  - rewrite (range_bits 32 y) by (change (2 ^ 32) with 0x100000000; umach; lia). done.
Qed.

Lemma l2_is_pow2_spec v : 0 < v -> is_pow2 v = true -> exists k, 0 <= k /\ v = 2 ^ k.
Proof.
  intros Hv H. destruct (Z.eq_dec v 1) as [->|]; [by exists 0|].
  destruct (proj1 (SpscRing.is_pow2_spec v)) as (k & Hk & ->); [|exists k; split; [lia|done]].
  unfold is_pow2 in H. unfold SpscRing.is_pow2. apply andb_true_iff in H as [_ ->].
  rewrite andb_true_r. apply Z.leb_le. lia.
Qed.

Lemma round_up_u32_spec v k : 0 <= k < 32 -> 0 <= v -> v + 2 ^ k <= 0x100000000 ->
  round_up_u32 v (2 ^ k) = align_up v (2 ^ k).
Proof.
  intros Hk Hv H. assert (0 < 2 ^ k <= 2 ^ 31) as Hp by (split; [lia|apply Z.pow_le_mono_r; lia]).
  unfold round_up_u32. rewrite !u32_small by (unfold is_u32; lia).
  by rewrite land_not32_mask by (unfold is_u32; lia).
Qed.

(** The alignment a request gets, and the block it needs: the payload rounded
    up, and a header. *)
Definition request_align (align : Z) : Z := Z.max 16 (effective_align align).
Definition block_bytes (size align : Z) : Z := align_up (Z.max 16 size) (request_align align) + 16.

(** A request whose arithmetic stays in 32 bits. *)
Record request_ok (size align : Z) : Prop := {
  rq_size : 0 < size;
  rq_align : 0 <= align;
  rq_pow : is_pow2 (effective_align align) = true;
  rq_fits : size + request_align align <= 0xFFFFFFE0
}.

Lemma request_pow size align : request_ok size align -> exists k, 4 <= k < 32 /\ request_align align = 2 ^ k.
Proof.
  intros [Hs Ha Hp Hf]. unfold request_align in *.
  destruct (l2_is_pow2_spec (effective_align align)) as (k & Hk & E); [|done|].
  { unfold effective_align, L2_DEFAULT_ALIGN. destruct (Z.eqb_spec align 0); lia. }
  rewrite E in *. destruct (Z.le_gt_cases 4 k).
  - exists k. assert (2 ^ 4 <= 2 ^ k) by (apply Z.pow_le_mono_r; lia). split; [|lia]. split; [lia|].
    apply (Z.pow_lt_mono_r_iff 2); lia.
  - exists 4. split; [lia|]. assert (2 ^ k <= 2 ^ 4) by (apply Z.pow_le_mono_r; lia). lia.
Qed.

Lemma want_total_spec size align : request_ok size align ->
  want_total size (if effective_align align <? L2_DEFAULT_ALIGN then L2_DEFAULT_ALIGN else effective_align align) =
    block_bytes size align /\
  32 <= block_bytes size align < 0x100000000 /\ block_bytes size align mod 16 = 0 /\ size + 16 <= block_bytes size align.
Proof.
  intros H. destruct (request_pow size align H) as (k & Hk & E). destruct H as [Hs Ha Hp Hf].
  assert ((if effective_align align <? L2_DEFAULT_ALIGN then L2_DEFAULT_ALIGN else effective_align align) = 2 ^ k) as ->.
  { rewrite <-E. unfold request_align, L2_DEFAULT_ALIGN. destruct (Z.ltb_spec (effective_align align) 16); lia. }
  unfold block_bytes. rewrite E in *. assert (0 < 2 ^ k < 0x100000000) as Hpk by (split; [lia|]; lia).
  assert (16 * 2 ^ (k - 4) = 2 ^ k) as H16.
  { change 16 with (2 ^ 4). rewrite <-Z.pow_add_r by lia. f_equal. lia. }
  pose proof (align_up_spec (Z.max 16 size) (2 ^ k) ltac:(lia)) as (Hup & Hm).
  assert (align_up (Z.max 16 size) (2 ^ k) mod 16 = 0) as Hm16.
  { unfold align_up. rewrite <-H16. rewrite (Z.mul_comm 16), Z.mul_assoc. by apply Z.mod_mul. }
  unfold want_total. replace (if size <? 16 then 16 else u32 size) with (Z.max 16 size).
  2:{ destruct (Z.ltb_spec size 16); [lia|]. rewrite u32_small; unfold is_u32; lia. }
  rewrite (u32_small (2 ^ k)) by (unfold is_u32; lia). rewrite round_up_u32_spec by lia.
  set (w := align_up _ _) in *. unfold L2_HEADER_BYTES. rewrite (u32_small (w + 16)) by (unfold is_u32; lia).
  change L2_DEFAULT_ALIGN with (2 ^ 4). rewrite round_up_u32_spec by lia.
  assert (align_up (w + 16) (2 ^ 4) = w + 16) as ->.
  { unfold align_up. change (2 ^ 4) with 16. zlia. }
  split_and!; try lia. zlia.
Qed.

(** ** The invariant *)

Record heap_ok (m : mem) (a base : Z) (bs : blocks) (l : list Z) : Prop := {
  hk_at : heap_at m a base bs l (used bs);
  hk_all x : x ∈ frees base bs -> x ∈ l;
  hk_settled : settled bs;
  hk_some : bs <> []
}.

Lemma node_size m a base bs l c x : heap_at m a base bs l c -> x ∈ l ->
  exists s, block_at base bs x s false /\ b_size m x = s.
Proof.
  intros H Hx. pose proof (ha_frees _ _ _ _ _ _ H x Hx) as Hf. apply elem_of_frees in Hf as (s & Hs).
  exists s. split; [done|]. apply (layout_block m base 0 bs x s false (ha_layout _ _ _ _ _ _ H) Hs).
Qed.

(** ** First fit *)

Lemma first_fit_spec m want l : forall p fuel, links m p l 0 -> (forall x, x ∈ l -> x <> 0) -> (length l < fuel)%nat ->
  (first_fit fuel m (hd 0 l) want = Some 0 /\ forall x, x ∈ l -> b_size m x < want) \/
  exists l1 x l2, l = l1 ++ x :: l2 /\ first_fit fuel m (hd 0 l) want = Some x /\ want <= b_size m x /\
    forall y, y ∈ l1 -> b_size m y < want.
Proof.
  induction l as [|x l IH]; intros p [|fuel] HL Hnz Hf; cbn [length] in Hf; try lia.
  - left. cbn. split; [done|]. by intros x ?%elem_of_nil.
  - destruct HL as (_ & Hn & HL). cbn [first_fit hd]. assert (x <> 0) as Hx0 by (apply Hnz, elem_of_cons; by left).
    rewrite (proj2 (Z.eqb_neq x 0) Hx0). cbn [negb andb]. destruct (Z.ltb_spec (b_size m x) want) as [Hlt|Hge].
    + rewrite Hn. destruct (IH x fuel HL) as [[-> Hall]|(l1 & y & l2 & -> & -> & Hy & Hall)].
      * intros y Hy. apply Hnz, elem_of_cons. by right.
      * lia.
      * left. split; [done|]. intros y [->|Hy]%elem_of_cons; [done|by apply Hall].
      * right. exists (x :: l1), y, l2. split_and!; try done. intros z [->|Hz]%elem_of_cons; [done|by apply Hall].
    + right. exists [], x, l. split_and!; try done. by intros y ?%elem_of_nil.
Qed.

Lemma heap_links m a base bs l c : heap_at m a base bs l c ->
  free_head m a = hd 0 l /\ links m 0 l 0 /\ (forall x, x ∈ l -> x <> 0) /\ (length l < list_fuel m a)%nat.
Proof.
  intros H. split_and!; try apply H.
  - intros x Hx. pose proof (node_bounds _ _ _ _ _ _ H x (ha_frees _ _ _ _ _ _ H x Hx)). lia.
  - unfold list_fuel. rewrite (ha_free _ _ _ _ _ _ H). lia.
Qed.

(** ** Neighbours *)

Lemma next_block_eq m a x s bs2 : sized (x + s) bs2 -> region_end m a = x + s + total bs2 -> b_size m x = s ->
  next_block m a x = match bs2 with [] => 0 | _ => x + s end.
Proof.
  intros Hs He Hb. unfold next_block. rewrite Hb, He. destruct bs2 as [|b bs2].
  - cbn [total foldr]. rewrite Z.add_0_r. destruct (Z.leb_spec (x + s) (x + s)); [done|lia].
  - pose proof (sized_nonempty _ _ Hs ltac:(done)). destruct (Z.leb_spec (x + s + total (b :: bs2)) (x + s)); [lia|done].
Qed.

(** A node of the list inside a block is that block. *)
Lemma node_outside m a base bs l c x s u y : heap_at m a base bs l c -> block_at base bs x s u -> x ∉ l -> y ∈ l ->
  ~ rng x s y.
Proof.
  intros H Hb Hx Hy Hr. pose proof (ha_sized _ _ _ _ _ _ H) as Hs. pose proof (ha_frees _ _ _ _ _ _ H y Hy) as Hyf.
  pose proof (frees_bounds _ _ _ Hs Hyf). assert (x <> y) as Hne by (by intros ->).
  destruct (free_apart _ _ x s u y Hs Hb Hyf Hne); unfold rng in Hr; lia.
Qed.

Lemma mid_block base bs1 s (u : bool) bs2 : block_at base (bs1 ++ (s, u) :: bs2) (base + total bs1) s u.
Proof. by exists bs1, bs2. Qed.

(** ** Flags and counts *)

Lemma flag_at m a base bs1 s (u v : bool) bs2 l c f : heap_at m a base (bs1 ++ (s, u) :: bs2) l c ->
  base + total bs1 ∉ l -> u32 f = (if v then 1 else 0) ->
  heap_at (set_flags m (base + total bs1) f) a base (bs1 ++ (s, v) :: bs2) l c /\
  mem_agree (kept a base (bs1 ++ (s, u) :: bs2)) m (set_flags m (base + total bs1) f) /\
  mem_agree (kept a base (bs1 ++ (s, v) :: bs2)) m (set_flags m (base + total bs1) f).
Proof.
  intros H Hx Hf. pose proof (ha_sized _ _ _ _ _ _ H) as Hs. pose proof (mid_block base bs1 s u bs2) as Hb.
  pose proof (ha_layout _ _ _ _ _ _ H) as HL. apply layout_app in HL as [_ (L1 & L2 & L3 & L4)].
  pose proof (block_at_bounds _ _ _ _ _ Hs Hb) as Hbb. set (x := base + total bs1) in *.
  assert (mem_agree (fun z => ~ rng (x + 8) 4 z) m (set_flags m x f)) as Hag.
  { intros z Hz. unfold set_flags. symmetry. by apply store32_out. }
  assert (heap_at (set_flags m x f) a base (bs1 ++ (s, v) :: bs2) l c) as H2.
  { apply (replace_at m _ a base bs1 [(s, u)] [(s, v)] bs2 l c H); fold x; cbn [total foldr fst]; rewrite ?Z.add_0_r.
    - done.
    - cbn [sized]. lia.
    - done.
    - intros y Hy. by apply (node_outside _ _ _ _ _ _ x s u y H).
    - eapply mem_agree_mono; [|exact Hag]. intros z Hz Hr. apply Hz. left. unfold rng in *. lia.
    - cbn [layout]. unfold set_flags. l2_fields. l2_load. done.
    - intros Hne. destruct bs2 as [|[t w] bs2]; [done|]. destruct L4 as (_ & L4 & _). cbn [last_size fst].
      unfold set_flags. l2_fields. l2_load. done. }
  split; [done|]. split; intros z Hz; apply Hag; intros Hr; revert Hz.
  - apply (not_kept_header a base _ x s u z Hs Hb). unfold rng in *. lia.
  - apply (not_kept_header a base _ x s v z (ha_sized _ _ _ _ _ _ H2) (mid_block base bs1 s v bs2)). unfold rng in *. lia.
Qed.

Lemma count_at m a base bs l c v : heap_at m a base bs l c ->
  heap_at (set_alloc_count m a v) a base bs l (u32 v) /\ mem_agree (kept a base bs) m (set_alloc_count m a v).
Proof.
  intros H. pose proof (ha_room _ _ _ _ _ _ H). unfold set_alloc_count.
  assert (forall z, ~ rng (a + 24) 4 z -> m z = store32 m (a + 24) v z) as Hag by (intros z Hz; symmetry; by apply store32_out).
  destruct H as [G1 G2 G3 G4 G5 G6 G7 G8 G9 G10 G11] eqn:EH. clear EH. split.
  - split; try done; try (l2_fields; by l2_load).
    + apply (layout_agree_range bs m); [done| |done]. intros z Hz. apply Hag. unfold rng in *. lia.
    + apply (links_agree m); [|done]. intros x Hx z Hz. apply Hag.
      pose proof (frees_bounds _ _ _ G7 (G11 x Hx)). unfold rng in *. lia.
  - intros z [Hz _]. apply Hag. unfold rng in *. lia.
Qed.

(** ** Splitting *)

(** The headers [split_tail] writes before it pushes the tail. *)
Definition split_headers (m : mem) (x want r : Z) (bs2 : blocks) : mem :=
  let t := x + want in
  let m := store32 (store32 (store32 (store32 m t r) (t + 4) want) (t + 8) 0) (t + 12) 0 in
  let m := match bs2 with [] => m | _ => store32 m (t + r + 4) r end in
  store32 m x want.

Section split.
Context (m : mem) (a base : Z) (bs1 bs2 : blocks) (s want : Z) (l : list Z) (c : Z).
Hypothesis H : heap_at m a base (bs1 ++ (s, false) :: bs2) l c.
Let x := base + total bs1.
Hypothesis Hx : x ∉ l.
Hypothesis Hw : 32 <= want /\ want + 32 <= s /\ want mod 16 = 0.

Lemma split_facts : 0 < a /\ a + 32 <= base /\ base <= x /\ x mod 16 = 0 /\ 32 <= s < 0x100000000 /\ 0 <= total bs2 /\
  x + s + total bs2 < 0x10000000000000000 /\ sized (x + s) bs2 /\ region_end m a = x + s + total bs2 /\
  layout m x (last_size 0 bs1) ((s, false) :: bs2).
Proof.
  pose proof (ha_room _ _ _ _ _ _ H) as Hr. pose proof (ha_sized _ _ _ _ _ _ H) as Hs.
  pose proof (ha_end _ _ _ _ _ _ H) as He. pose proof (ha_layout _ _ _ _ _ _ H) as HL.
  apply layout_app in HL as [_ HL]. apply sized_app in Hs as [H1 (H2 & H3 & H4)].
  pose proof (sized_total _ _ H1). pose proof (sized_total _ _ H4). rewrite total_app, total_cons in *.
  unfold x. split_and!; try done; lia.
Qed.

Lemma split_tail_form : split_tail m a x want = fl_push (split_headers m x want (s - want) bs2) a (x + want).
Proof.
  destruct split_facts as (Ha & Hab & Hxb & Hx16 & Hs & Ht & Hroom & Hs2 & He & (L1 & _)).
  unfold split_tail. rewrite L1. rewrite (u32_small (s - want)) by (unfold is_u32; lia).
  rewrite (proj2 (Z.leb_le _ _)) by (unfold L2_MIN_BLOCK_BYTES; lia).
  set (mt := set_pad _ _ _).
  assert (next_block mt a (x + want) = match bs2 with [] => 0 | _ => x + s end) as ->.
  { rewrite (next_block_eq mt a (x + want) (s - want) bs2); replace (x + want + (s - want)) with (x + s) by lia; try done.
    - rewrite <-He. unfold mt. l2_fields. by l2_load.
    - unfold mt. l2_fields. l2_load. apply u32_small. unfold is_u32. lia. }
  unfold split_headers. replace (x + want + (s - want) + 4) with (x + s + 4) by lia. destruct bs2 as [|b bs2']; [done|].
  by rewrite (proj2 (Z.eqb_neq (x + s) 0)) by lia.
Qed.

(** The addresses [split_headers] writes. *)
Lemma split_headers_out z : ~ rng x 4 z -> ~ rng (x + want) 16 z -> (bs2 <> [] -> ~ rng (x + s + 4) 4 z) ->
  split_headers m x want (s - want) bs2 z = m z.
Proof.
  intros H1 H2 H3. unfold split_headers. replace (x + want + (s - want) + 4) with (x + s + 4) by lia.
  destruct bs2 as [|b bs2']; rewrite !store32_out; try done; try (by apply H3); unfold rng in *; lia.
Qed.

Lemma split_headers_at : heap_at (split_headers m x want (s - want) bs2) a base
  (bs1 ++ [(want, false); (s - want, false)] ++ bs2) l c /\
  mem_agree (kept a base (bs1 ++ (s, false) :: bs2)) m (split_headers m x want (s - want) bs2).
Proof.
  destruct split_facts as (Ha & Hab & Hxb & Hx16 & Hs & Ht & Hroom & Hs2 & He & (L1 & L2 & L3 & L4)).
  set (m' := split_headers _ _ _ _ _).
  assert (mem_agree (fun z => ~ run_bytes x (total [(s, false)]) bs2 z) m m') as Hag.
  { intros z Hz. symmetry. apply split_headers_out; unfold run_bytes in Hz; cbn in Hz; rewrite Z.add_0_r in Hz;
      [intros Hr; apply Hz; left; unfold rng in *; lia..|]. intros Hne Hr. apply Hz. by right. }
  split.
  - apply (replace_at m m' a base bs1 [(s, false)] _ bs2 l c H); fold x.
    + rewrite !total_cons. cbn [total foldr]. lia.
    + cbn [sized]. split_and!; try done; try lia. zlia.
    + done.
    + intros y Hy. cbn. rewrite Z.add_0_r.
      apply (node_outside _ _ _ _ _ _ x s false y H (mid_block base bs1 s false bs2) Hx Hy).
    + done.
    + unfold m', split_headers. replace (x + want + (s - want) + 4) with (x + s + 4) by lia. cbn [layout].
      rewrite <-L2, <-L3. l2_fields. destruct bs2 as [|b bs2']; split_and!; l2_load; try done;
        apply u32_small; unfold is_u32; lia.
    + intros Hne. cbn. rewrite Z.add_0_r. unfold m', split_headers. destruct bs2 as [|b bs2']; [done|].
      replace (x + want + (s - want) + 4) with (x + s + 4) by lia. l2_fields. l2_load. apply u32_small. unfold is_u32. lia.
  - apply (replace_kept m m' a base bs1 [(s, false)] bs2 l c H Hag).
    intros y t (k1 & k2 & E & _). destruct k1 as [|? [|? ?]]; injection E; done.
Qed.

Lemma split_tail_at : heap_at (split_tail m a x want) a base
    (bs1 ++ [(want, false); (s - want, false)] ++ bs2) (x + want :: l) c /\
  mem_agree (kept a base (bs1 ++ (s, false) :: bs2)) m (split_tail m a x want).
Proof.
  rewrite split_tail_form. destruct split_headers_at as [H2 K2]. set (m' := split_headers _ _ _ _ _) in *.
  destruct split_facts as (Ha & Hab & Hxb & Hx16 & Hs & _).
  assert (x + want ∉ l) as Hn.
  { intros Hy. apply (node_outside _ _ _ _ _ _ x s false _ H (mid_block base bs1 s false bs2) Hx Hy). unfold rng. lia. }
  assert (x + want ∈ frees base (bs1 ++ [(want, false); (s - want, false)] ++ bs2)) as Hin.
  { apply elem_of_frees. exists (s - want), (bs1 ++ [(want, false)]), bs2. rewrite <-app_assoc, total_app.
    split; [done|]. cbn. unfold x. lia. }
  destruct (fl_push_at _ _ _ _ _ _ _ H2 Hin Hn) as [H3 K3]. split; [done|].
  transitivity m'; [done|]. eapply mem_agree_mono; [|exact K3].
  intros z [Hz1 Hz2]. split; [done|]. rewrite !total_app, !total_cons in *. cbn [total foldr] in *.
  destruct Hz2 as [Hz2|(y & t & Hy & Hr)]; [left; unfold rng in *; lia|right]. exists y, t. split; [|done].
  apply block_at_split in Hy as [Hy|Hy]; [by apply block_at_app|].
  destruct Hy as ([|b k1] & k2 & E & ->); [done|]. injection E as <- ->.
  exists (bs1 ++ (want, false) :: (s - want, false) :: k1), k2. split; [by rewrite <-app_assoc|].
  rewrite !total_app, !total_cons. cbn. unfold x in *. lia.
Qed.
End split.

(** ** Neighbours in use *)

Definition busy_end (bs : blocks) : bool := match last bs with Some b => b.2 | None => true end.
Definition busy_start (bs : blocks) : bool := match bs with b :: _ => b.2 | [] => true end.

Lemma settled_app l1 l2 : settled (l1 ++ l2) <-> settled l1 /\ settled l2 /\ busy_end l1 || busy_start l2 = true.
Proof.
  unfold busy_end, busy_start. induction l1 as [|b l1 IH]; [cbn; tauto|]. cbn [app settled]. rewrite IH.
  destruct l1 as [|c l1]; [cbn [app last]; destruct l2; cbn; rewrite ?orb_true_r; tauto|]. cbn [app]. rewrite last_cons_cons. tauto.
Qed.

Lemma busy_end_snoc l b : busy_end (l ++ [b]) = b.2.
Proof. unfold busy_end. by rewrite last_snoc. Qed.

(** A free block has neighbours in use. *)
Lemma settled_free l1 s l2 : settled (l1 ++ (s, false) :: l2) <-> settled l1 /\ settled l2 /\ busy_end l1 = true /\ busy_start l2 = true.
Proof.
  rewrite settled_app. cbn [settled busy_start snd orb]. unfold busy_start. rewrite orb_false_r.
  destruct l2 as [|b l2]; cbn [settled]; tauto.
Qed.

Lemma settled_used l1 s l2 : settled (l1 ++ (s, true) :: l2) <-> settled l1 /\ settled l2.
Proof.
  rewrite settled_app. cbn [settled busy_start snd orb]. unfold busy_start. rewrite orb_true_r.
  destruct l2 as [|b l2]; cbn [settled orb]; tauto.
Qed.

(** ** Allocation *)

(** Block [b] of [s] bytes is now in use, at the place of a free one. *)
Record given (m : mem) (a base : Z) (bs : blocks) (m' : mem) (bs' : blocks) (b s : Z) : Prop := {
  gv_total : total bs' = total bs;
  gv_free : exists t, block_at base bs b t false /\ s <= t;
  gv_live y t : block_at base bs' y t true <-> block_at base bs y t true \/ (y = b /\ t = s);
  gv_kept : mem_agree (kept a base bs) m m'
}.

(** The blocks in use of two heaps that differ in a run. *)
Lemma used_blocks_run base bs1 olds news bs2 y t : total news = total olds ->
  (forall v w, ~ block_at (base + total bs1) olds v w true) ->
  block_at base (bs1 ++ news ++ bs2) y t true <->
  block_at base (bs1 ++ olds ++ bs2) y t true \/ block_at (base + total bs1) news y t true.
Proof.
  intros Ht Ho. split.
  - intros [H|[H|H]%block_at_split]%block_at_split.
    + left. by apply block_at_app.
    + by right.
    + left. apply block_at_shift, block_at_shift. by rewrite <-Ht.
  - intros [[H|[H|H]%block_at_split]%block_at_split|H].
    + by apply block_at_app.
    + by apply Ho in H.
    + apply block_at_shift, block_at_shift. by rewrite Ht.
    + apply block_at_shift. by apply block_at_app.
Qed.

Lemma block_at_one base s u y t v : block_at base [(s, u)] y t v <-> y = base /\ t = s /\ v = u.
Proof.
  split.
  - intros ([|b k1] & k2 & E & ->); [|by destruct k1]. injection E as -> -> _. cbn. split_and!; [lia|done|done].
  - intros (-> & -> & ->). exists [], []. cbn. split; [done|lia].
Qed.
Lemma block_at_cons base s u bs y t v : block_at base ((s, u) :: bs) y t v <->
  (y = base /\ t = s /\ v = u) \/ block_at (base + s) bs y t v.
Proof.
  change ((s, u) :: bs) with ([(s, u)] ++ bs). split.
  - intros [H%block_at_one|H]%block_at_split; [by left|right]. cbn in H. by rewrite Z.add_0_r in H.
  - intros [H%block_at_one|H]; [by apply block_at_app|]. apply block_at_shift. cbn. by rewrite Z.add_0_r.
Qed.
Lemma block_at_nil base y t v : ~ block_at base [] y t v.
Proof. by intros ([|? ?] & ? & ? & ?). Qed.

Lemma used_bound bs : 0 <= used bs <= Z.of_nat (length bs).
Proof.
  induction bs as [|[s []] bs IH]; [done|..]; unfold used in *; cbn [foldr length snd Z.b2z]; lia.
Qed.

Section alloc.
Context (m : mem) (a base : Z) (bs1 bs2 : blocks) (s : Z) (l1 l2 : list Z).
Let bs := bs1 ++ (s, false) :: bs2.
Let b := base + total bs1.
Hypothesis K : heap_ok m a base bs (l1 ++ b :: l2).

(** Marking the block, whatever was split off it, and counting it. *)
Lemma l2_take_block m2 news s' l' : 
  heap_at m2 a base (bs1 ++ (s', false) :: news ++ bs2) l' (used bs) -> mem_agree (kept a base bs) m m2 ->
  b ∉ l' -> total ((s', false) :: news) = s -> used news = 0 -> s' <= s ->
  (forall x, x ∈ frees base (bs1 ++ (s', true) :: news ++ bs2) -> x ∈ l') -> settled (bs1 ++ (s', true) :: news ++ bs2) ->
  (forall v w u, block_at (b + s') news v w u -> u = false) ->
  let m3 := set_flags m2 b (Z.lor (b_flags m2 b) L2_FLAG_IN_USE) in
  let m4 := set_alloc_count m3 a (alloc_count m3 a + 1) in
  heap_ok m4 a base (bs1 ++ (s', true) :: news ++ bs2) l' /\
  given m a base bs m4 (bs1 ++ (s', true) :: news ++ bs2) b s'.
Proof.
  intros H2 HK Hb Hs Hu Hs' Hall Hset Hnews m3 m4.
  pose proof (layout_block _ _ _ _ _ _ _ (ha_layout _ _ _ _ _ _ H2) (mid_block base bs1 s' false _)) as [_ Hf]. fold b in Hf.
  destruct (flag_at m2 a base bs1 s' false true (news ++ bs2) l' (used bs) (Z.lor (b_flags m2 b) L2_FLAG_IN_USE) H2 Hb)
    as (H3 & K3 & _); [by rewrite Hf|]. fold b in H3, K3. fold m3 in H3, K3.
  destruct (count_at m3 a base _ l' _ (alloc_count m3 a + 1) H3) as [H4 _]. fold m4 in H4.
  assert (used (bs1 ++ (s', true) :: news ++ bs2) = used bs + 1) as Hused.
  { unfold bs. rewrite !used_app. change (used ((s', true) :: news ++ bs2)) with (1 + used (news ++ bs2)).
    change (used ((s, false) :: bs2)) with (0 + used bs2). rewrite used_app. lia. }
  assert (u32 (alloc_count m3 a + 1) = used (bs1 ++ (s', true) :: news ++ bs2)) as Hc.
  { rewrite (ha_allocs _ _ _ _ _ _ H3), Hused. apply u32_small.
    pose proof (sized_length _ _ (ha_sized _ _ _ _ _ _ H3)). pose proof (ha_room _ _ _ _ _ _ H3).
    pose proof (used_bound (bs1 ++ (s', true) :: news ++ bs2)). pose proof (used_bound bs).
    unfold is_u32. lia. }
  rewrite Hc in H4. split; [by split; try done; [destruct bs1]|].
  assert (total (bs1 ++ (s', true) :: news ++ bs2) = total bs) as Htot.
  { unfold bs. rewrite !total_app, !total_cons, total_app in *. lia. }
  split.
  - done.
  - exists s. split; [apply mid_block|lia].
  - intros y t. unfold bs. change ((s', true) :: news ++ bs2) with (((s', true) :: news) ++ bs2).
    change ((s, false) :: bs2) with ([(s, false)] ++ bs2).
    rewrite (used_blocks_run base bs1 [(s, false)] ((s', true) :: news) bs2); [|rewrite !total_cons in *; change (total []) with 0; lia|].
    + rewrite block_at_cons. fold b. split; [intros [?|[(? & ? & _)|Hn%Hnews]]; [by left|by right|done]|intros [?|[? ?]]; tauto].
    + intros v w [_ [_ [=]]]%block_at_one.
  - intros z Hz. rewrite (HK z Hz). unfold m4, m3, set_alloc_count, set_flags. rewrite !store32_out; [done| |]; intros Hr; revert Hz.
    + apply (not_kept_header a base bs b s false z); [apply K|apply mid_block|unfold rng in *; lia].
    + apply not_kept_record. unfold rng in *. lia.
Qed.
End alloc.

(** Taking the block [first_fit] chose. *)
Definition take_found (m : mem) (a b want : Z) : mem :=
  let m := split_tail (fl_remove m a b) a b want in
  let m := set_flags m b (Z.lor (b_flags m b) L2_FLAG_IN_USE) in
  set_alloc_count m a (alloc_count m a + 1).

Lemma take_at m a base bs l1 b l2 s want : heap_ok m a base bs (l1 ++ b :: l2) -> block_at base bs b s false ->
  32 <= want <= s -> want mod 16 = 0 ->
  exists bs' l' s', want <= s' /\ s' < want + 32 /\ heap_ok (take_found m a b want) a base bs' l' /\
    given m a base bs (take_found m a b want) bs' b s'.
Proof.
  intros K Hb Hw H16. pose proof (hk_at _ _ _ _ _ K) as H. destruct (fl_remove_at _ _ _ _ _ _ _ _ H) as [H1 K1].
  pose proof (ha_nodup _ _ _ _ _ _ H) as Hnd. apply NoDup_app in Hnd as (_ & Hn1 & Hn2). apply NoDup_cons in Hn2 as [Hn2 _].
  assert (b ∉ l1 ++ l2) as Hbl.
  { rewrite elem_of_app. intros [Hb1|Hb2]; [|done]. apply (Hn1 b Hb1), elem_of_cons. by left. }
  assert (forall x, x ∈ frees base bs -> x <> b -> x ∈ l1 ++ l2) as Hall.
  { intros x Hx Hne. pose proof (hk_all _ _ _ _ _ K x Hx) as Hx2. rewrite elem_of_app, elem_of_cons in *. tauto. }
  destruct Hb as (bs1 & bs2 & -> & ->). set (b := base + total bs1) in *.
  pose proof (ha_sized _ _ _ _ _ _ H) as Hsz. pose proof (hk_settled _ _ _ _ _ K) as Hset.
  apply settled_free in Hset as (S1 & S2 & S3 & S4).
  assert (forall x, x ∈ frees base bs1 \/ x ∈ frees (b + s) bs2 -> x ∈ l1 ++ l2) as Hall2.
  { apply sized_app in Hsz as [Z1 (_ & _ & Z2)]. fold b in Z2.
    intros x Hx. apply Hall.
    - rewrite frees_app. cbn [frees]. fold b. rewrite !elem_of_app. tauto.
    - destruct Hx as [Hx|Hx]; [pose proof (frees_bounds _ _ _ Z1 Hx)|pose proof (frees_bounds _ _ _ Z2 Hx)]; unfold b in *; lia. }
  unfold take_found. destruct (Z.le_gt_cases (want + 32) s) as [Hfit|Hfit].
  - destruct (split_tail_at _ _ _ _ _ _ want _ _ H1 Hbl ltac:(lia)) as [H2 K2]. fold b in H2, K2.
    destruct (l2_take_block m a base bs1 bs2 s l1 l2 K _ [(s - want, false)] want (b + want :: l1 ++ l2) H2) as [G1 G2].
    + etransitivity; eassumption.
    + intros [E|?]%elem_of_cons; [fold b in E; lia|done].
    + rewrite !total_cons. change (total []) with 0. lia.
    + done.
    + lia.
    + rewrite frees_app. cbn [frees app]. fold b. intros x [Hx|[->|Hx]%elem_of_cons]%elem_of_app.
      * apply elem_of_cons. right. apply Hall2. by left.
      * apply elem_of_cons. by left.
      * apply elem_of_cons. right. apply Hall2. right. by replace (b + s) with (b + want + (s - want)) by lia.
    + apply settled_used. split; [done|]. cbn [app settled]. split; [|done]. by destruct bs2 as [|[? []] ?].
    + intros v w u [(_ & _ & ->)|Hv]%block_at_cons; [done|by apply block_at_nil in Hv].
    + eexists _, _, want. split_and!; [lia|lia|exact G1|exact G2].
  - assert (split_tail (fl_remove m a b) a b want = fl_remove m a b) as ->.
    { unfold split_tail. pose proof (layout_block _ _ _ _ _ _ _ (ha_layout _ _ _ _ _ _ H1) (mid_block base bs1 s false bs2)) as [Eb _].
      fold b in Eb. rewrite Eb. pose proof (ha_room _ _ _ _ _ _ H1) as Hr. pose proof (block_at_bounds _ _ _ _ _ Hsz (mid_block base bs1 s false bs2)).
      assert (total (bs1 ++ (s, false) :: bs2) < 0x100000000) by lia. fold b in Hfit |- *.
      rewrite u32_small by (unfold is_u32; lia). destruct (Z.leb_spec L2_MIN_BLOCK_BYTES (s - want)) as [Hle|]; [|done].
      unfold L2_MIN_BLOCK_BYTES in Hle. lia. }
    destruct (l2_take_block m a base bs1 bs2 s l1 l2 K _ [] s (l1 ++ l2) H1 K1 Hbl) as [G1 G2].
    + rewrite !total_cons. change (total []) with 0. lia.
    + done.
    + lia.
    + rewrite frees_app. cbn [frees app]. fold b. intros x Hx. apply Hall2. by apply elem_of_app.
    + by apply settled_used.
    + intros v w u Hv. by apply block_at_nil in Hv.
    + eexists _, _, s. split_and!; [lia|lia|exact G1|exact G2].
Qed.

Lemma l2_alloc_spec m a base bs l size align : heap_ok m a base bs l -> request_ok size align ->
  (l2_alloc m a size align = Some (m, 0) /\
     forall x s, block_at base bs x s false -> s < block_bytes size align) \/
  (exists m' b bs' l' s, l2_alloc m a size align = Some (m', b + 16) /\ heap_ok m' a base bs' l' /\
     block_bytes size align <= s < block_bytes size align + 32 /\ given m a base bs m' bs' b s).
Proof.
  intros K R. destruct (want_total_spec size align R) as (Hw & Hw1 & Hw2 & Hw3). pose proof (hk_at _ _ _ _ _ K) as H.
  pose proof (ha_room _ _ _ _ _ _ H) as Hr. destruct (heap_links _ _ _ _ _ _ H) as (Hh & HL & Hnz & Hf).
  unfold l2_alloc. rewrite (proj2 (Z.eqb_neq a 0)), (proj2 (Z.eqb_neq size 0)) by (destruct R; lia). cbn [orb].
  rewrite (rq_pow _ _ R). cbn [negb]. rewrite Hw, Hh. set (want := block_bytes size align) in *.
  destruct (first_fit_spec m want l 0 (list_fuel m a) HL Hnz Hf) as [[-> Hall]|(l1 & b & l2 & -> & -> & Hb & _)].
  - left. split; [done|]. intros x s Hx. assert (x ∈ l) as Hxl by (apply (hk_all _ _ _ _ _ K), elem_of_frees; eauto).
    specialize (Hall x Hxl). pose proof (layout_block _ _ _ _ _ _ _ (ha_layout _ _ _ _ _ _ H) Hx) as [Hs _]. lia.
  - right. assert (b ∈ l1 ++ b :: l2) as Hbl by (rewrite elem_of_app, elem_of_cons; tauto).
    rewrite (proj2 (Z.eqb_neq b 0)) by (by apply Hnz). destruct (node_size _ _ _ _ _ _ b H Hbl) as (s & Hbs & Es).
    destruct (take_at m a base bs l1 b l2 s want K Hbs ltac:(lia) Hw2) as (bs' & l' & s' & T1 & T2 & T3 & T4).
    exists (take_found m a b want), b, bs', l', s'. split_and!; try done.
Qed.

(** ** Merging *)

(** The tail of both merges: block [x] grows to [n] bytes. *)
Definition join (m : mem) (a x n : Z) : mem :=
  let m := set_size m x n in
  let after := next_block m a x in
  if negb (after =? 0) then set_prev_size m after (b_size m x) else m.

(** The block at the end of [bs1] is free but not in the list. *)
Record loose (m : mem) (a base : Z) (bs1 : blocks) (s : Z) (bs2 : blocks) (l : list Z) (c : Z) : Prop := {
  ls_at : heap_at m a base (bs1 ++ (s, false) :: bs2) l c;
  ls_out : base + total bs1 ∉ l;
  ls_all1 x : x ∈ frees base bs1 -> x ∈ l;
  ls_all2 x : x ∈ frees (base + total bs1 + s) bs2 -> x ∈ l;
  ls_settled : settled bs1 /\ settled bs2
}.

Lemma kept_mono a base bs bs' z : total bs' = total bs ->
  (forall y t, block_at base bs' y t true -> block_at base bs y t true) -> kept a base bs' z -> kept a base bs z.
Proof. intros Ht Hb [H1 [H2|(y & t & Hy & Hr)]]; (split; [done|]); [left; by rewrite <-Ht|right; eauto]. Qed.

Lemma join_at m a base bs1 s t bs2 l c : heap_at m a base (bs1 ++ (s, false) :: (t, false) :: bs2) l c ->
  base + total bs1 ∉ l -> base + total bs1 + s ∉ l ->
  heap_at (join m a (base + total bs1) (s + t)) a base (bs1 ++ (s + t, false) :: bs2) l c /\
  mem_agree (kept a base (bs1 ++ (s, false) :: (t, false) :: bs2)) m (join m a (base + total bs1) (s + t)).
Proof.
  intros H Hx Hy. set (x := base + total bs1) in *. pose proof (ha_sized _ _ _ _ _ _ H) as Hs.
  assert (block_at base (bs1 ++ (s, false) :: (t, false) :: bs2) x s false) as Hb1 by apply mid_block.
  assert (block_at base (bs1 ++ (s, false) :: (t, false) :: bs2) (x + s) t false) as Hb2.
  { exists (bs1 ++ [(s, false)]), bs2. split; [by rewrite <-app_assoc|]. rewrite total_app, total_cons. unfold x. cbn. lia. }
  pose proof (block_at_bounds _ _ _ _ _ Hs Hb1) as B1. pose proof (block_at_bounds _ _ _ _ _ Hs Hb2) as B2.
  pose proof (ha_room _ _ _ _ _ _ H) as Hr. pose proof (ha_end _ _ _ _ _ _ H) as He.
  pose proof (ha_layout _ _ _ _ _ _ H) as HL. apply layout_app in HL as [_ (L1 & L2 & L3 & _)]. fold x in L1, L2, L3.
  assert (sized (x + (s + t)) bs2) as Hs2.
  { apply sized_app in Hs as [_ (_ & _ & _ & _ & Hs)]. fold x in Hs. by rewrite Z.add_assoc. }
  pose proof (sized_total _ _ Hs2) as Ht2. rewrite total_app, !total_cons in *.
  assert (join m a x (s + t) = match bs2 with [] => store32 m x (s + t)
    | _ => store32 (store32 m x (s + t)) (x + (s + t) + 4) (s + t) end) as E.
  { assert (b_size (set_size m x (s + t)) x = s + t) as Eb by (l2_fields; l2_load; apply u32_small; unfold is_u32; lia).
    unfold join. rewrite (next_block_eq _ a x (s + t) bs2); [|done| |done].
    - rewrite Eb. destruct bs2; [done|]. rewrite (proj2 (Z.eqb_neq (x + (s + t)) 0)) by lia. done.
    - unfold set_size. l2_fields. l2_load. rewrite He. unfold x. lia. }
  assert (mem_agree (fun z => ~ run_bytes x (total [(s, false); (t, false)]) bs2 z) m (join m a x (s + t))) as Hag.
  { rewrite E. intros z Hz. unfold run_bytes in Hz. rewrite !total_cons in Hz. change (total []) with 0 in Hz.
    symmetry. destruct bs2; rewrite !store32_out; try done; intros Hz2; apply Hz; unfold rng in *;
      first [left; lia|right; split; [done|lia]]. }
  split.
  - apply (replace_at m _ a base bs1 [(s, false); (t, false)] [(s + t, false)] bs2 l c H); fold x; try done.
    + rewrite !total_cons. change (total []) with 0. lia.
    + cbn [sized]. lia.
    + rewrite !total_cons. change (total []) with 0. intros y Hyl Hr2.
      pose proof (node_outside _ _ _ _ _ _ x s false y H Hb1 Hx Hyl).
      pose proof (node_outside _ _ _ _ _ _ (x + s) t false y H Hb2 Hy Hyl). unfold rng in *. lia.
    + rewrite E. cbn [layout]. rewrite <-L2, <-L3. l2_fields. destruct bs2; split_and!; l2_load; try done;
        apply u32_small; unfold is_u32; lia.
    + intros Hne. rewrite E, !total_cons. change (total []) with 0. destruct bs2; [done|]. cbn [last_size fst].
      replace (x + (s + (t + 0))) with (x + (s + t)) by lia. l2_fields. l2_load. apply u32_small. unfold is_u32. lia.
  - apply (replace_kept m _ a base bs1 [(s, false); (t, false)] bs2 l c H Hag).
    intros y v [(_ & _ & [=])|[(_ & _ & [=])|Hn]%block_at_cons]%block_at_cons. by apply block_at_nil in Hn.
Qed.

Lemma in_use_block m a base bs l c x s u : heap_at m a base bs l c -> block_at base bs x s u -> in_use m x = u.
Proof.
  intros H Hb. destruct (layout_block _ _ _ _ _ _ _ (ha_layout _ _ _ _ _ _ H) Hb) as [_ E].
  unfold in_use. rewrite E. by destruct u.
Qed.

Lemma merge_next_at m a base bs1 s bs2 l c : loose m a base bs1 s bs2 l c ->
  exists s' k2 l', loose (merge_next m a (base + total bs1)) a base bs1 s' k2 l' c /\ busy_start k2 = true /\
    s' + total k2 = s + total bs2 /\ used k2 = used bs2 /\
    (forall y t, block_at (base + total bs1 + s') k2 y t true <-> block_at (base + total bs1 + s) bs2 y t true) /\
    mem_agree (kept a base (bs1 ++ (s, false) :: bs2)) m (merge_next m a (base + total bs1)).
Proof.
  intros [H Ho A1 A2 [S1 S2]]. set (x := base + total bs1) in *.
  pose proof (ha_sized _ _ _ _ _ _ H) as Hs. pose proof (ha_end _ _ _ _ _ _ H) as He.
  pose proof (ha_layout _ _ _ _ _ _ H) as HL. apply layout_app in HL as [_ (L1 & _)]. fold x in L1.
  apply sized_app in Hs as [_ (_ & _ & Hs2)]. fold x in Hs2. rewrite total_app, total_cons in He.
  assert (next_block m a x = match bs2 with [] => 0 | _ => x + s end) as Hn.
  { apply next_block_eq; [done|rewrite He; unfold x; lia|done]. }
  unfold merge_next. rewrite Hn. destruct bs2 as [|[t u] bs2].
  - cbn [negb Z.eqb andb]. exists s, [], l. split_and!; done.
  - assert (block_at base (bs1 ++ (s, false) :: (t, u) :: bs2) (x + s) t u) as Hb2.
    { exists (bs1 ++ [(s, false)]), bs2. split; [by rewrite <-app_assoc|]. rewrite total_app, total_cons. unfold x. cbn. lia. }
    pose proof (block_at_bounds _ _ _ _ _ (ha_sized _ _ _ _ _ _ H) Hb2) as B2. pose proof (ha_room _ _ _ _ _ _ H).
    rewrite (in_use_block _ _ _ _ _ _ _ _ _ H Hb2). rewrite (proj2 (Z.eqb_neq (x + s) 0)) by lia. cbn [negb andb].
    destruct u; cbn [negb].
    + exists s, ((t, true) :: bs2), l. split_and!; done.
    + assert (x + s ∈ l) as Hin by (apply A2; cbn [frees app]; apply elem_of_cons; by left).
      apply list_elem_of_split in Hin as (l1 & l2 & ->).
      destruct (fl_remove_at _ _ _ _ _ _ _ _ H) as [H1 K1].
      pose proof (ha_nodup _ _ _ _ _ _ H) as Hnd. apply NoDup_app in Hnd as (_ & Hn1 & Hn2). apply NoDup_cons in Hn2 as [Hn2 _].
      assert (x + s ∉ l1 ++ l2) as Hxs.
      { rewrite elem_of_app. intros [Hi|Hi]; [|done]. apply (Hn1 _ Hi), elem_of_cons. by left. }
      assert (x ∉ l1 ++ l2) as Hx2 by (intros Hi; apply Ho; rewrite elem_of_app, elem_of_cons in *; tauto).
      destruct (join_at _ _ _ _ _ _ _ _ _ H1 Hx2 Hxs) as [H2 K2]. fold x in H2, K2.
      assert (b_size (fl_remove m a (x + s)) x = s /\ b_size (fl_remove m a (x + s)) (x + s) = t) as [E1 E2].
      { pose proof (ha_layout _ _ _ _ _ _ H1) as HL1. split; [apply (layout_block _ _ _ _ _ _ _ HL1 (mid_block _ _ _ _ _))|apply (layout_block _ _ _ _ _ _ _ HL1 Hb2)]. }
      rewrite E1, E2. fold (join (fl_remove m a (x + s)) a x (s + t)).
      apply (settled_app [(t, false)] bs2) in S2 as (_ & S2 & S3). cbn in S3.
      exists (s + t), bs2, (l1 ++ l2). split_and!; try done.
      * split; try done.
        -- fold x. intros y Hy. assert (y <> x + s) as Hne.
           { pose proof (ha_sized _ _ _ _ _ _ H) as Hsz. apply sized_app in Hsz as [Z1 (Z2 & _)].
             pose proof (frees_bounds _ _ _ Z1 Hy). unfold x. lia. }
           specialize (A1 y Hy). rewrite elem_of_app, elem_of_cons in *. tauto.
        -- fold x. intros y Hy. rewrite Z.add_assoc in Hy.
           assert (y <> x + s) as Hne.
           { destruct Hs2 as (_ & _ & Z2). pose proof (frees_bounds _ _ _ Z2 Hy). lia. }
           assert (y ∈ frees (x + s) ((t, false) :: bs2)) as Hy2 by (cbn [frees app]; apply elem_of_cons; by right).
           specialize (A2 y Hy2). rewrite elem_of_app, elem_of_cons in *. tauto.
      * rewrite total_cons. lia.
      * intros y v. rewrite block_at_cons, Z.add_assoc. split; [by right|by intros [(_ & _ & [=])|?]].
      * by transitivity (fl_remove m a (x + s)).
Qed.

Lemma merge_prev_at m a base bs1 s bs2 l c : loose m a base bs1 s bs2 l c ->
  exists m' k1 s' l', merge_prev m a (base + total bs1) = (m', base + total k1) /\ loose m' a base k1 s' bs2 l' c /\
    busy_end k1 = true /\ total k1 + s' = total bs1 + s /\ used k1 = used bs1 /\
    (forall y t, block_at base k1 y t true <-> block_at base bs1 y t true) /\
    mem_agree (kept a base (bs1 ++ (s, false) :: bs2)) m m'.
Proof.
  intros [H Ho A1 A2 [S1 S2]]. set (x := base + total bs1) in *.
  pose proof (ha_layout _ _ _ _ _ _ H) as HL. apply layout_app in HL as [_ (L1 & L2 & _)]. fold x in L1, L2.
  unfold merge_prev, prev_block. rewrite L2. destruct bs1 as [|[s0 u0] k1 _] using rev_ind.
  { cbn [last_size negb Z.eqb andb]. exists m, [], s, l. split_and!; done. }
  rewrite last_size_app. cbn [last_size fst].
  pose proof (ha_sized _ _ _ _ _ _ H) as Hsz. apply sized_app in Hsz as [Z1 (Z2 & Z3 & Z4)]. fold x in Z4.
  pose proof (ha_room _ _ _ _ _ _ H) as Hr.
  apply sized_app in Z1 as [Z0 (Z1 & _)]. pose proof (sized_total _ _ Z0) as Z5.
  assert (x = base + total k1 + s0) as Ex by (unfold x; rewrite total_app, total_cons; change (total []) with 0; lia).
  set (p := base + total k1) in *. clearbody x. subst x. rewrite <-app_assoc in H. cbn [app] in H.
  assert (block_at base (k1 ++ (s0, u0) :: (s, false) :: bs2) p s0 u0) as Hb0 by apply mid_block.
  rewrite (proj2 (Z.eqb_neq s0 0)) by lia. replace (p + s0 - s0) with p by lia.
  rewrite (proj2 (Z.eqb_neq p 0)) by (unfold p; lia). rewrite (in_use_block _ _ _ _ _ _ _ _ _ H Hb0). cbn [negb andb].
  destruct u0; cbn [negb].
  - exists m, (k1 ++ [(s0, true)]), s, l. rewrite busy_end_snoc. rewrite <-app_assoc in *. cbn [app].
    assert (base + total (k1 ++ [(s0, true)]) = p + s0) as Ep
      by (rewrite total_app, total_cons; change (total []) with 0; unfold p; lia).
    split_and!; try done; [by rewrite Ep|]. split; try done; [by rewrite <-app_assoc|by rewrite Ep|by rewrite Ep].
  - assert (p ∈ l) as Hin.
    { apply A1. rewrite frees_app, elem_of_app. right. cbn [frees app]. fold p. by apply list_elem_of_singleton. }
    apply list_elem_of_split in Hin as (l1 & l2 & ->).
    destruct (fl_remove_at _ _ _ _ _ _ _ _ H) as [H1 K1].
    pose proof (ha_nodup _ _ _ _ _ _ H) as Hnd. apply NoDup_app in Hnd as (_ & Hn1 & Hn2). apply NoDup_cons in Hn2 as [Hn2 _].
    assert (p ∉ l1 ++ l2) as Hp.
    { rewrite elem_of_app. intros [Hi|Hi]; [|done]. apply (Hn1 _ Hi), elem_of_cons. by left. }
    assert (p + s0 ∉ l1 ++ l2) as Hx2 by (intros Hi; apply Ho; rewrite elem_of_app, elem_of_cons in *; tauto).
    destruct (join_at _ _ _ _ _ _ _ _ _ H1 Hp Hx2) as [H2 K2]. fold p in H2, K2.
    pose proof (ha_layout _ _ _ _ _ _ H1) as HL1.
    assert (b_size (fl_remove m a p) p = s0) as E1 by (apply (layout_block _ _ _ _ _ _ _ HL1 Hb0)).
    assert (b_size (fl_remove m a p) (p + s0) = s) as E2.
    { apply layout_app in HL1 as [_ (_ & _ & _ & HL1 & _)]. exact HL1. }
    rewrite E1, E2. fold (join (fl_remove m a p) a p (s0 + s)).
    apply settled_app in S1 as (S1 & _ & S3). cbn [busy_start snd] in S3. rewrite orb_false_r in S3.
    exists (join (fl_remove m a p) a p (s0 + s)), k1, (s0 + s), (l1 ++ l2). split_and!; try done.
    + split; try done.
      * intros y Hy. pose proof (frees_bounds _ _ _ Z0 Hy). assert (y <> p) as Hne by (unfold p; lia).
        assert (y ∈ l1 ++ p :: l2) as Hy2 by (apply A1; rewrite frees_app, elem_of_app; by left).
        rewrite elem_of_app, elem_of_cons in *. tauto.
      * fold p. intros y Hy. rewrite Z.add_assoc in Hy. pose proof (frees_bounds _ _ _ Z4 Hy).
        specialize (A2 y Hy). assert (y <> p) as Hne by lia. rewrite elem_of_app, elem_of_cons in *. tauto.
    + rewrite total_app, total_cons. change (total []) with 0. lia.
    + rewrite used_app. cbn. lia.
    + intros y v. split; [apply block_at_app|]. intros [Hy|(_ & _ & [=])%block_at_one]%block_at_split. done.
    + rewrite <-app_assoc. by transitivity (fl_remove m a p).
Qed.

(** ** Release *)

(** Block [b] of [s] bytes is no longer in use. *)
Record released (m : mem) (a base : Z) (bs : blocks) (m' : mem) (bs' : blocks) (b s : Z) : Prop := {
  rl_total : total bs' = total bs;
  rl_live y t : block_at base bs' y t true <-> block_at base bs y t true /\ y <> b;
  rl_kept : mem_agree (fun z => kept a base bs z /\ ~ rng b s z) m m'
}.

Lemma l2_free_at m a base bs1 s bs2 l : let bs := bs1 ++ (s, true) :: bs2 in let b := base + total bs1 in
  heap_ok m a base bs l ->
  exists bs' l', heap_ok (l2_free m a (b + 16)) a base bs' l' /\ released m a base bs (l2_free m a (b + 16)) bs' b s.
Proof.
  intros bs b K. pose proof (hk_at _ _ _ _ _ K) as H. pose proof (ha_room _ _ _ _ _ _ H) as Hr.
  pose proof (ha_sized _ _ _ _ _ _ H) as Hs. pose proof (block_at_bounds _ _ _ _ _ Hs (mid_block base bs1 s true bs2)) as Hb.
  fold b in Hb.
  assert (b ∉ l) as Hbl.
  { intros Hi. pose proof (ha_frees _ _ _ _ _ _ H b Hi) as Hf. apply elem_of_frees in Hf as (t & Ht).
    destruct (block_at_cmp _ _ _ _ _ _ _ _ Hs Ht (mid_block base bs1 s true bs2)) as [(_ & _ & [=])|Hc].
    pose proof (block_at_bounds _ _ _ _ _ Hs Ht). fold b in Hc. lia. }
  unfold l2_free. rewrite (proj2 (Z.eqb_neq a 0)), (proj2 (Z.eqb_neq (b + 16) 0)) by lia. cbn [orb].
  unfold payload_block, L2_HEADER_BYTES. replace (b + 16 - 16) with b by lia.
  assert (in_use m b = true) as -> by exact (in_use_block _ _ _ _ _ _ _ _ _ H (mid_block base bs1 s true bs2)). cbn [negb].
  pose proof (layout_block _ _ _ _ _ _ _ (ha_layout _ _ _ _ _ _ H) (mid_block base bs1 s true bs2)) as [_ Hf]. fold b in Hf.
  destruct (flag_at m a base bs1 s true false bs2 l _ (Z.land (b_flags m b) (not32 L2_FLAG_IN_USE)) H Hbl)
    as (H1 & _ & K1); [by rewrite Hf|]. fold b in H1, K1. set (m1 := set_flags _ _ _) in *.
  destruct (count_at m1 a base _ l _ (alloc_count m1 a - 1) H1) as [H2 K2]. set (m2 := set_alloc_count _ _ _) in *.
  assert (u32 (alloc_count m1 a - 1) = used bs1 + used bs2) as Hc.
  { rewrite (ha_allocs _ _ _ _ _ _ H1). unfold bs. rewrite used_app. change (used ((s, true) :: bs2)) with (1 + used bs2).
    pose proof (used_bound bs1). pose proof (used_bound bs2). pose proof (sized_length _ _ Hs) as Hl.
    unfold bs in Hl, Hr. rewrite length_app in Hl. cbn [length] in Hl. rewrite u32_small; unfold is_u32; lia. }
  rewrite Hc in H2. pose proof (hk_settled _ _ _ _ _ K) as Hset. apply settled_used in Hset as [S1 S2].
  assert (loose m2 a base bs1 s bs2 l (used bs1 + used bs2)) as L2.
  { split; try done; intros x Hx; apply (hk_all _ _ _ _ _ K); unfold bs; rewrite frees_app, elem_of_app; [by left|by right]. }
  destruct (merge_prev_at _ _ _ _ _ _ _ _ L2) as (m3 & k1 & s3 & l3 & E3 & L3 & B3 & T3 & U3 & V3 & K3).
  fold b in E3. rewrite E3.
  destruct (merge_next_at _ _ _ _ _ _ _ _ L3) as (s4 & k2 & l4 & L4 & B4 & T4 & U4 & V4 & K4).
  set (m4 := merge_next m3 a (base + total k1)) in *.
  destruct (fl_push_at _ _ _ _ _ _ (base + total k1) (ls_at _ _ _ _ _ _ _ _ L4)) as [H5 K5].
  { apply elem_of_frees. exists s4. apply mid_block. }
  { apply L4. }
  set (m5 := fl_push m4 a (base + total k1)) in *.
  assert (forall y t, block_at base (k1 ++ (s4, false) :: k2) y t true <->
    block_at base bs1 y t true \/ block_at (b + s) bs2 y t true) as Hlive.
  { intros y t. rewrite <-V3. replace (b + s) with (base + total k1 + s3) by (unfold b; lia). rewrite <-V4. split.
    - intros [?|[(_ & _ & [=])|?]%block_at_cons]%block_at_split; [by left|by right].
    - intros [?|?]; [by apply block_at_app|]. apply block_at_shift, block_at_cons. by right. }
  assert (forall y t, block_at base bs y t true <-> block_at base bs1 y t true \/ (y = b /\ t = s) \/ block_at (b + s) bs2 y t true) as Hold.
  { intros y t. split.
    - intros [?|[(? & ? & _)|?]%block_at_cons]%block_at_split; tauto.
    - intros [?|[[-> ->]|?]]; [by apply block_at_app|apply mid_block|]. apply block_at_shift, block_at_cons. by right. }
  assert (forall y t, block_at base (k1 ++ (s4, false) :: k2) y t true -> block_at base bs y t true) as Hsub.
  { intros y t Hy. apply Hlive in Hy. apply Hold. tauto. }
  assert (total (k1 ++ (s4, false) :: k2) = total bs) as Htot by (unfold bs; rewrite !total_app, !total_cons; lia).
  exists (k1 ++ (s4, false) :: k2), (base + total k1 :: l4). split.
  - split.
    + rewrite used_app. change (used ((s4, false) :: k2)) with (used k2). by rewrite U4, U3.
    + intros x Hx. rewrite frees_app, elem_of_app in Hx. cbn [frees app] in Hx. rewrite elem_of_cons in Hx |- *.
      destruct Hx as [Hx|[Hx|Hx]]; [right|by left|right].
      * by apply (ls_all1 _ _ _ _ _ _ _ _ L4).
      * by apply (ls_all2 _ _ _ _ _ _ _ _ L4).
    + apply settled_free. destruct (ls_settled _ _ _ _ _ _ _ _ L4). done.
    + by destruct k1.
  - split; [done| |].
    + intros y t. rewrite Hlive, Hold. split.
      * intros Hy. split; [tauto|]. intros ->. apply sized_app in Hs as [Z1 (Z2 & _ & Z3)]. fold b in Z3.
        destruct Hy as [Hy|Hy]; [pose proof (block_at_bounds _ _ _ _ _ Z1 Hy)|pose proof (block_at_bounds _ _ _ _ _ Z3 Hy)];
          unfold b in *; lia.
      * intros [[?|[[-> _]|?]] Hne]; [by left|done|by right].
    + assert (forall y t, block_at base (bs1 ++ (s, false) :: bs2) y t true <->
        block_at base bs1 y t true \/ block_at (b + s) bs2 y t true) as Hfree.
      { intros y t. split.
        - intros [?|[(_ & _ & [=])|?]%block_at_cons]%block_at_split; tauto.
        - intros [?|?]; [by apply block_at_app|]. apply block_at_shift, block_at_cons. by right. }
      assert (forall y t, block_at base (k1 ++ (s3, false) :: bs2) y t true <->
        block_at base bs1 y t true \/ block_at (b + s) bs2 y t true) as Hmid.
      { intros y t. rewrite <-V3. replace (b + s) with (base + total k1 + s3) by (unfold b; lia). split.
        - intros [?|[(_ & _ & [=])|?]%block_at_cons]%block_at_split; [by left|by right].
        - intros [?|?]; [by apply block_at_app|]. apply block_at_shift, block_at_cons. by right. }
      intros z [[Hz1 Hz2] Hz3].
      assert (kept a base (bs1 ++ (s, false) :: bs2) z) as Z1.
      { split; [done|]. assert (total (bs1 ++ (s, false) :: bs2) = total bs) as -> by (unfold bs; by rewrite !total_app, !total_cons).
        destruct Hz2 as [?|(y & t & Hy & Hyr)]; [by left|]. right. exists y, t. split; [|done]. apply Hfree.
        apply Hold in Hy as [?|[[-> ->]|?]]; [by left| |by right]. exfalso. apply Hz3. unfold rng in *. lia. }
      assert (kept a base (k1 ++ (s3, false) :: bs2) z) as Z2.
      { eapply kept_mono; [| |exact Z1]; [rewrite !total_app, !total_cons; lia|]. intros y t Hy. by apply Hmid, Hfree. }
      assert (kept a base (k1 ++ (s4, false) :: k2) z) as Z3.
      { eapply kept_mono; [| |exact Z2]; [rewrite !total_app, !total_cons; lia|]. intros y t Hy. by apply Hlive, Hmid. }
      by rewrite (K1 z Z1), (K2 z Z1), (K3 z Z1), (K4 z Z2), (K5 z Z3).
Qed.
