(* ===== verification/L2Client.v ===== *)
(** The L2 allocator seen by its clients: creation, statistics, and a store of
    separate objects as the abstract heap. *)
From stdpp Require Import gmap.
From S2P Require Import Prelude HostMem Bump L2Alloc L2Heap L2Safe.
#[local] Open Scope Z_scope.

(** ** Creation *)

(** Where the blocks start. *)
Definition heap_base (region : Z) : Z := align_up (region + 32) 16.

Lemma heap_base_spec region : region + 32 <= heap_base region < region + 48 /\ heap_base region mod 16 = 0.
Proof.
  unfold heap_base. destruct (align_up_spec (region + 32) 16 ltac:(lia)) as [H [q E]]. split; [lia|]. rewrite E. by apply Z.mod_mul.
Qed.

Lemma heap_base_code region : 0 < region -> region + 47 < 0x10000000000000000 ->
  Z.land (u64 (region + L2Alloc_size + L2_DEFAULT_ALIGN - 1)) (not64 (L2_DEFAULT_ALIGN - 1)) = heap_base region.
Proof.
  intros H1 H2. unfold L2Alloc_size, L2_DEFAULT_ALIGN. rewrite u64_small by (unfold is_u64; lia).
  change (16 - 1) with (2 ^ 4 - 1). rewrite land_not64_mask by (unfold is_u64; lia).
  unfold heap_base, align_up. by replace (region + 32 + 16 - 1) with (region + 47) by lia.
Qed.

(** Either null, the region too small, or one free block over the whole heap. *)
Lemma l2_create_spec m region n : 0 < region -> 0 <= n < 0x100000000 -> region + n < 0x10000000000000000 ->
  let base := heap_base region in
  let '(m', a) := l2_create m region n in
  mem_frame region n m m' /\
  if decide (64 <= n /\ base + 32 <= region + n)
  then a = region /\ heap_ok m' a base [(region + n - base, false)] [base]
  else a = 0.
Proof.
  intros Hr Hn He base. pose proof (heap_base_spec region) as [Hb1 Hb2]. fold base in Hb1, Hb2.
  unfold l2_create. rewrite (proj2 (Z.eqb_neq region 0)) by lia. cbn [orb].
  change (L2Alloc_size + L2_MIN_BLOCK_BYTES) with 64. destruct (Z.ltb_spec n 64) as [Hs|Hs].
  { split; [done|]. by rewrite decide_False by lia. }
  rewrite heap_base_code by lia. fold base. set (m0 := memset m region 0 L2Alloc_size).
  set (mr := set_region_end (set_region_base m0 region base) region (region + n)).
  assert (region_base mr region = base /\ region_end mr region = region + n) as [Eb Ee].
  { unfold mr. l2_fields. split; l2_load; apply u64_small; unfold is_u64; lia. }
  rewrite Eb, Ee.
  assert (mem_frame region n m mr) as Fr.
  { assert (mem_frame region 32 m m0) as F0 by by apply memset_frame.
    intros z Hz. rewrite (F0 z) by (unfold rng in *; lia). unfold mr. l2_fields. symmetry.
    rewrite !store64_out; [done|unfold rng in *; lia..]. }
  unfold L2_MIN_BLOCK_BYTES. destruct (Z.ltb_spec (region + n - base) 32) as [Hs2|Hs2].
  { split; [done|]. by rewrite decide_False by lia. }
  rewrite decide_True by lia.
  set (mb := set_free_block_count _ _ _).
  assert (mem_agree (fun z => ~ rng region 32 z /\ ~ rng base 16 z) mr mb) as Gb.
  { intros z Hz. unfold mb. l2_fields. symmetry. rewrite !store32_out, !store64_out, ?store32_out; try done; unfold rng in *; lia. }
  assert (heap_at mb region base [(region + n - base, false)] [] 0) as Hat.
  { assert (forall x, rng region 32 x -> m0 x = 0) as Z0.
    { intros x Hx. unfold m0, memset. rewrite mem_write_in; [|by rewrite length_replicate].
      rewrite nth_lookup. change (u8 0) with 0. destruct (replicate _ 0 !! _) eqn:El; [|done]. by apply lookup_replicate in El as [-> _]. }
    assert (load32 m0 (region + 24) = 0) as Zc.
    { unfold load32. assert (mem_read m0 (region + 24) 4 = replicate 4 0) as ->; [|done].
      apply (list_eq_nth 0); [done|]. rewrite mem_read_length. intros i Hi.
      rewrite mem_read_nth, Z0 by (unfold rng; lia). destruct i as [|[|[|[|i]]]]; try done; cbn in Hi; lia. }
    split; rewrite ?total_cons; change (total []) with 0; try done.
    - lia.
    - rewrite <-Eb. unfold mb. l2_fields. by l2_load.
    - replace (base + (region + n - base + 0)) with (region + n) by lia. rewrite <-Ee. unfold mb. l2_fields. by l2_load.
    - unfold mb. l2_fields. by l2_load.
    - unfold mb, mr. l2_fields. l2_load. done.
    - unfold mb. l2_fields. by l2_load.
    - cbn [layout last_size]. unfold mb. l2_fields. l2_load. split_and!; try done. rewrite u32_u32. apply u32_small. unfold is_u32. lia.
    - constructor.
    - intros x Hx. by apply elem_of_nil in Hx. }
  destruct (fl_push_at mb region base _ [] 0 base Hat) as [H5 K5].
  { cbn. by apply list_elem_of_singleton. }
  { by intros ?%elem_of_nil. }
  split.
  - intros z Hz. rewrite (Fr z Hz), (Gb z) by (unfold rng in *; lia). apply K5. split; [unfold rng in *; lia|left].
    rewrite total_cons. change (total []) with 0. unfold rng in *. lia.
  - split; [done|]. split; try done; cbn; intros x Hx; try done.
Qed.

(** ** Statistics *)

(** The bytes of the free blocks. *)
Definition free_total (bs : blocks) : Z := foldr (fun b n => (if b.2 : bool then 0 else b.1) + n) 0 bs.

Lemma free_bytes_from_spec m l : forall p acc fuel, links m p l 0 -> (forall x, x ∈ l -> x <> 0) -> (length l < fuel)%nat ->
  free_bytes_from fuel m (hd 0 l) acc = Some (acc + foldr Z.add 0 (fmap (b_size m) l)).
Proof.
  induction l as [|x l IH]; intros p acc [|fuel] HL Hnz Hf; cbn [length] in Hf; try lia.
  - cbn. f_equal. lia.
  - destruct HL as (_ & Hn & HL). cbn [free_bytes_from hd]. rewrite (proj2 (Z.eqb_neq x 0)) by (apply Hnz, elem_of_cons; by left).
    rewrite Hn, (IH x); [|done| |lia].
    { f_equal. rewrite fmap_cons. cbn [foldr]. lia. } intros y Hy. apply Hnz, elem_of_cons. by right.
Qed.

Lemma frees_total m base bs : forall p, layout m base p bs -> foldr Z.add 0 (fmap (b_size m) (frees base bs)) = free_total bs.
Proof.
  revert base. induction bs as [|[s u] bs IH]; intros base p; [done|]. cbn [layout frees]. intros (E & _ & _ & HL).
  specialize (IH (base + s) s HL). destruct u; cbn [app]; unfold free_total in *; cbn [foldr snd fst]; [by rewrite IH|].
  rewrite fmap_cons. cbn [foldr]. by rewrite IH, E.
Qed.

Lemma sum_permutation l k : l ≡ₚ k -> foldr Z.add 0 l = foldr Z.add 0 k.
Proof. induction 1; cbn [foldr]; lia. Qed.

(** The statistics are those of the blocks. *)
Lemma l2_stats_spec m a base bs l : heap_ok m a base bs l ->
  l2_stats m a = Some (mkL2Stats (total bs - free_total bs) (free_total bs) (used bs) (Z.of_nat (length (frees base bs)))).
Proof.
  intros K. pose proof (hk_at _ _ _ _ _ K) as H. destruct (heap_links _ _ _ _ _ _ H) as (Hh & HL & Hnz & Hf).
  pose proof (ha_room _ _ _ _ _ _ H) as Hr. unfold l2_stats. rewrite (proj2 (Z.eqb_neq a 0)), Hh by lia.
  rewrite (free_bytes_from_spec m l 0 0 _ HL Hnz Hf).
  assert (l ≡ₚ frees base bs) as HP.
  { apply NoDup_Permutation; [apply H|apply frees_nodup, H|]. intros x. split; [apply H|apply K]. }
  assert (foldr Z.add 0 (fmap (b_size m) l) = free_total bs) as ->.
  { rewrite <-(frees_total m base bs 0) by apply H. apply sum_permutation. by rewrite HP. }
  rewrite (ha_base _ _ _ _ _ _ H), (ha_end _ _ _ _ _ _ H), (ha_allocs _ _ _ _ _ _ H), (ha_free _ _ _ _ _ _ H), HP.
  do 2 f_equal; lia.
Qed.

Lemma largest_from_spec m l : forall p big fuel, links m p l 0 -> (forall x, x ∈ l -> x <> 0) -> (length l < fuel)%nat ->
  exists v, largest_from fuel m (hd 0 l) big = Some v /\ big <= v /\ (forall x, x ∈ l -> b_size m x <= v) /\
    (v = big \/ exists x, x ∈ l /\ v = b_size m x).
Proof.
  induction l as [|x l IH]; intros p big [|fuel] HL Hnz Hf; cbn [length] in Hf; try lia.
  - exists big. cbn. split_and!; try done; [by intros x ?%elem_of_nil|by left].
  - destruct HL as (_ & Hn & HL). cbn [largest_from hd]. rewrite (proj2 (Z.eqb_neq x 0)) by (apply Hnz, elem_of_cons; by left).
    set (big' := if big <? b_size m x then b_size m x else big).
    assert (big <= big' /\ b_size m x <= big' /\ (big' = big \/ big' = b_size m x)) as (H1 & H2 & H3).
    { unfold big'. destruct (Z.ltb_spec big (b_size m x)); lia. }
    rewrite Hn. destruct (IH x big' fuel HL) as (v & -> & Hv & Hall & Hor); [|lia|].
    { intros y Hy. apply Hnz, elem_of_cons. by right. }
    exists v. split_and!; [done|lia| |].
    + intros y [->|Hy]%elem_of_cons; [lia|by apply Hall].
    + destruct Hor as [->|(y & Hy & ->)]; [|right; exists y; split; [|done]; apply elem_of_cons; by right].
      destruct H3 as [->| ->]; [by left|right]. exists x. split; [|done]. apply elem_of_cons. by left.
Qed.

(** The largest free size is that of the largest free block, less its header. *)
Lemma l2_largest_free_spec m a base bs l : heap_ok m a base bs l ->
  exists v, l2_largest_free m a = Some v /\ (forall x s, block_at base bs x s false -> s - 16 <= v) /\
    (v = 0 \/ exists x, block_at base bs x (v + 16) false).
Proof.
  intros K. pose proof (hk_at _ _ _ _ _ K) as H. destruct (heap_links _ _ _ _ _ _ H) as (Hh & HL & Hnz & Hf).
  pose proof (ha_room _ _ _ _ _ _ H) as Hr.
  destruct (largest_from_spec m l 0 0 (list_fuel m a) HL Hnz Hf) as (v & E & Hv & Hall & Hor).
  unfold l2_largest_free. rewrite (proj2 (Z.eqb_neq a 0)), Hh, E by lia. eexists. split; [done|].
  unfold L2_HEADER_BYTES. assert (forall x s, block_at base bs x s false -> s <= v) as Hall2.
  { intros x s Hx. assert (x ∈ l) as Hxl by (apply (hk_all _ _ _ _ _ K), elem_of_frees; eauto).
    pose proof (layout_block _ _ _ _ _ _ _ (ha_layout _ _ _ _ _ _ H) Hx) as [<- _]. by apply Hall. }
  split.
  - intros x s Hx. specialize (Hall2 x s Hx). destruct (Z.ltb_spec 16 v); lia.
  - destruct Hor as [->|(x & Hx & ->)]; [by left|right]. destruct (node_size _ _ _ _ _ _ x H Hx) as (s & Hs & Es).
    pose proof (block_at_bounds _ _ _ _ _ (ha_sized _ _ _ _ _ _ H) Hs). rewrite Es.
    exists x. destruct (Z.ltb_spec 16 s); [|lia]. by replace (s - 16 + 16) with s by lia.
Qed.

(** ** Client writes *)

(** Nothing but the payloads in use may change. *)
Lemma heap_client m m' a base bs l : heap_ok m a base bs l ->
  mem_agree (fun z => ~ exists x s, block_at base bs x s true /\ rng (x + 16) (s - 16) z) m m' -> heap_ok m' a base bs l.
Proof.
  intros [H A S N] Hag. split; try done. pose proof (ha_room _ _ _ _ _ _ H) as Hr. pose proof (ha_sized _ _ _ _ _ _ H) as Hs.
  assert (forall z, rng a 32 z -> m z = m' z) as Hrec.
  { intros z Hz. apply Hag. intros (x & s & Hx & Hxr). pose proof (block_at_bounds _ _ _ _ _ Hs Hx). unfold rng in *. lia. }
  destruct H as [G1 G2 G3 G4 G5 G6 G7 G8 G9 G10 G11].
  split; try done.
  - rewrite <-G2. symmetry. apply load64_agree. intros z Hz. apply Hrec. unfold rng in *. lia.
  - rewrite <-G3. symmetry. apply load64_agree. intros z Hz. apply Hrec. unfold rng in *. lia.
  - rewrite <-G4. symmetry. apply load64_agree. intros z Hz. apply Hrec. unfold rng in *. lia.
  - rewrite <-G5. symmetry. apply load32_agree. intros z Hz. apply Hrec. unfold rng in *. lia.
  - rewrite <-G6. symmetry. apply load32_agree. intros z Hz. apply Hrec. unfold rng in *. lia.
  - apply (layout_agree bs m); [done| |done]. intros y s u Hy z Hz. apply Hag. intros (x & t & Hx & Hxr).
    pose proof (block_at_bounds _ _ _ _ _ Hs Hy). destruct (block_at_cmp _ _ _ _ _ _ _ _ Hs Hy Hx) as [(-> & _)|?]; unfold rng in *; lia.
  - apply (links_agree m); [|done]. intros y Hy z Hz. apply Hag. intros (x & t & Hx & Hxr).
    pose proof (block_at_bounds _ _ _ _ _ Hs Hx). destruct (decide (x = y)) as [->|Hne].
    + apply G11, elem_of_frees in Hy as (s & Hy).
      destruct (block_at_cmp _ _ _ _ _ _ _ _ Hs Hy Hx) as [(_ & _ & [=])|?]. pose proof (block_at_bounds _ _ _ _ _ Hs Hy). lia.
    + destruct (free_apart _ _ x t true y Hs Hx (G11 y Hy) Hne); unfold rng in *; lia.
Qed.

(** ** Objects *)

(** What a client does: the memory and its objects, by payload address. *)
Inductive l2_step (a : Z) : mem * gmap Z (list Z) -> mem * gmap Z (list Z) -> Prop :=
  | l2s_alloc m O size align m' p : request_ok size align -> l2_alloc m a size align = Some (m', p) -> p <> 0 ->
      l2_step a (m, O) (m', <[p := mem_read m' p size]> O)
  | l2s_full m O size align m' : request_ok size align -> l2_alloc m a size align = Some (m', 0) ->
      l2_step a (m, O) (m', O)
  | l2s_free m O p o : O !! p = Some o -> l2_step a (m, O) (l2_free m a p, delete p O)
  | l2s_free_null m O : l2_step a (m, O) (l2_free m a 0, O)
  | l2s_write m O p o off bs : O !! p = Some o -> 0 <= off -> off + Z.of_nat (length bs) <= Z.of_nat (length o) ->
      l2_step a (m, O) (mem_write m (p + off) bs,
        <[p := mem_read (mem_write m (p + off) bs) p (Z.of_nat (length o))]> O).

(** Each object fills the payload of its own block. *)
Record objects_ok (m : mem) (base : Z) (bs : blocks) (O : gmap Z (list Z)) : Prop := {
  ob_block p o : O !! p = Some o -> exists s, block_at base bs (p - 16) s true /\ 16 + Z.of_nat (length o) <= s /\
    mem_read m p (Z.of_nat (length o)) = o;
  ob_all x s : block_at base bs x s true -> is_Some (O !! (x + 16))
}.

Definition l2_inv (m0 : mem) (region n : Z) (σ : mem * gmap Z (list Z)) : Prop :=
  mem_frame region n m0 σ.1 /\ exists bs l, heap_ok σ.1 region (heap_base region) bs l /\
    heap_base region + total bs = region + n /\ objects_ok σ.1 (heap_base region) bs σ.2.

(** An object's bytes are among those the allocator leaves alone. *)
Lemma kept_object a base bs p k s z : sized base bs -> a + 32 <= base -> block_at base bs (p - 16) s true -> 16 + k <= s ->
  rng p k z -> kept a base bs z.
Proof.
  intros Hs Ha Hb Hl Hz. pose proof (block_at_bounds _ _ _ _ _ Hs Hb). split; [unfold rng in *; lia|right].
  exists (p - 16), s. split; [done|]. unfold rng in *. lia.
Qed.

Section inv.
Context (m0 : mem) (region n : Z) (m : mem) (O : gmap Z (list Z)) (bs : blocks) (l : list Z).
Let base := heap_base region.
Hypothesis F : mem_frame region n m0 m.
Hypothesis K : heap_ok m region base bs l.
Hypothesis T : base + total bs = region + n.
Hypothesis B : objects_ok m base bs O.

Lemma inv_sized : sized base bs /\ region + 32 <= base /\ 0 < region.
Proof. pose proof (hk_at _ _ _ _ _ K) as H. pose proof (ha_room _ _ _ _ _ _ H). split; [apply H|lia]. Qed.

Lemma frame_kept bs' m' : total bs' = total bs -> mem_agree (kept region base bs') m m' -> mem_frame region n m0 m'.
Proof.
  intros Ht Hk z Hz. rewrite (F z Hz). apply Hk. destruct inv_sized as (Hs & Hb & _). pose proof (sized_total _ _ Hs).
  split; [|left; rewrite Ht]; unfold rng in *; lia.
Qed.

Lemma inv_alloc size align m' p : request_ok size align -> l2_alloc m region size align = Some (m', p) -> p <> 0 ->
  O !! p = None /\ l2_inv m0 region n (m', <[p := mem_read m' p size]> O).
Proof.
  intros R E Hp. destruct (want_total_spec size align R) as (_ & Hw1 & _ & Hw3).
  destruct (l2_alloc_spec m region base bs l size align K R) as [[E2 _]|(m2 & b & bs' & l' & s & E2 & K2 & Hs & G)];
    rewrite E in E2; injection E2 as -> ->; [done|].
  destruct inv_sized as (Hsz & Hb & Hr). pose proof (gv_free _ _ _ _ _ _ _ _ G) as (t & Hfree & _).
  assert (O !! (b + 16) = None) as Hnone.
  { destruct (O !! (b + 16)) as [o|] eqn:Eo; [|done]. destruct (ob_block _ _ _ _ B _ _ Eo) as (v & Hv & _).
    replace (b + 16 - 16) with b in Hv by lia. pose proof (block_at_bounds _ _ _ _ _ Hsz Hv). pose proof (block_at_bounds _ _ _ _ _ Hsz Hfree).
    destruct (block_at_cmp _ _ _ _ _ _ _ _ Hsz Hfree Hv) as [(_ & _ & [=])|?]; lia. }
  split; [done|]. split; [apply (frame_kept bs); [done|apply G]|]. exists bs', l'. cbn [fst snd].
  split; [done|]. split; [rewrite (gv_total _ _ _ _ _ _ _ _ G); exact T|]. split.
  - intros p o [[<- <-]|[Hne Ho]]%lookup_insert_Some.
    + exists s. rewrite mem_read_length. replace (b + 16 - 16) with b by lia. rewrite Z2Nat.id by (destruct R; lia).
      split_and!; try done; [|lia]. apply (gv_live _ _ _ _ _ _ _ _ G). by right.
    + destruct (ob_block _ _ _ _ B _ _ Ho) as (v & Hv & Hl & Hrd). exists v. split_and!; [|done|].
      * apply (gv_live _ _ _ _ _ _ _ _ G). by left.
      * etransitivity; [symmetry; apply mem_read_agree|exact Hrd]. intros z Hz. apply (gv_kept _ _ _ _ _ _ _ _ G).
        by apply (kept_object region base bs p (Z.of_nat (length o)) v z).
  - intros x v Hx. apply (gv_live _ _ _ _ _ _ _ _ G) in Hx as [Hx|[-> _]].
    + destruct (ob_all _ _ _ _ B _ _ Hx) as [o Ho]. destruct (decide (b + 16 = x + 16)) as [->|Hne].
      * eexists. by rewrite lookup_insert_eq.
      * exists o. by rewrite lookup_insert_ne.
    + eexists. by rewrite lookup_insert_eq.
Qed.

Lemma inv_free p o : O !! p = Some o -> l2_inv m0 region n (l2_free m region p, delete p O).
Proof.
  intros Ho. destruct (ob_block _ _ _ _ B _ _ Ho) as (s & Hb & Hl & _). destruct inv_sized as (Hsz & Hbase & Hr).
  pose proof (block_at_bounds _ _ _ _ _ Hsz Hb) as Hbb. pose proof Hb as (bs1 & bs2 & Eb & Ep).
  destruct (l2_free_at m region base bs1 s bs2 l) as (bs' & l' & K2 & G); [by rewrite <-Eb|].
  rewrite <-Eb, <-Ep in *. replace (p - 16 + 16) with p in * by lia.
  assert (mem_frame region n m0 (l2_free m region p)) as F2.
  { intros z Hz. rewrite (F z Hz). apply (rl_kept _ _ _ _ _ _ _ _ G). pose proof (sized_total _ _ Hsz).
    split; [|unfold rng in *; lia]. split; [|left]; unfold rng in *; lia. }
  split; [done|]. exists bs', l'. cbn [fst snd]. split; [done|]. split; [rewrite (rl_total _ _ _ _ _ _ _ _ G); exact T|]. split.
  - intros q o' [Hne Hq]%lookup_delete_Some. destruct (ob_block _ _ _ _ B _ _ Hq) as (v & Hv & Hl2 & Hrd).
    exists v. split_and!; [|done|].
    + apply (rl_live _ _ _ _ _ _ _ _ G). split; [done|lia].
    + etransitivity; [symmetry; apply mem_read_agree|exact Hrd]. intros z Hz. apply (rl_kept _ _ _ _ _ _ _ _ G).
      split; [by apply (kept_object region base bs q (Z.of_nat (length o')) v z)|].
      pose proof (block_at_bounds _ _ _ _ _ Hsz Hv).
      destruct (block_at_cmp _ _ _ _ _ _ _ _ Hsz Hb Hv) as [(? & _)|?]; unfold rng in *; lia.
  - intros x v Hx. apply (rl_live _ _ _ _ _ _ _ _ G) in Hx as [Hx Hne].
    destruct (ob_all _ _ _ _ B _ _ Hx) as [o' Ho']. exists o'. apply lookup_delete_Some. split; [lia|done].
Qed.

Lemma inv_write p o off ws : O !! p = Some o -> 0 <= off -> off + Z.of_nat (length ws) <= Z.of_nat (length o) ->
  l2_inv m0 region n (mem_write m (p + off) ws, <[p := mem_read (mem_write m (p + off) ws) p (Z.of_nat (length o))]> O).
Proof.
  intros Ho H0 H1. destruct (ob_block _ _ _ _ B _ _ Ho) as (s & Hb & Hl & _). destruct inv_sized as (Hsz & Hbase & Hr).
  pose proof (block_at_bounds _ _ _ _ _ Hsz Hb) as Hbb. set (m' := mem_write _ _ _).
  assert (mem_agree (fun z => ~ rng p (s - 16) z) m m') as Hag.
  { intros z Hz. unfold m'. symmetry. apply mem_write_out. unfold rng in *. lia. }
  split; [|exists bs, l; cbn [fst snd]; split; [|split; [exact T|]]].
  - intros z Hz. rewrite (F z Hz). apply Hag. cbn [fst]. unfold rng in *. lia.
  - apply (heap_client m m' region base bs l K). intros z Hz. apply Hag. intros Hr2. apply Hz.
    exists (p - 16), s. split; [done|]. by replace (p - 16 + 16) with p by lia.
  - split.
    + intros q o' [[<- <-]|[Hne Hq]]%lookup_insert_Some.
      * exists s. rewrite mem_read_length, Nat2Z.id. split_and!; done.
      * destruct (ob_block _ _ _ _ B _ _ Hq) as (v & Hv & Hl2 & Hrd). exists v. split_and!; try done.
        etransitivity; [symmetry; apply mem_read_agree|exact Hrd]. intros z Hz. apply Hag.
        pose proof (block_at_bounds _ _ _ _ _ Hsz Hv).
        destruct (block_at_cmp _ _ _ _ _ _ _ _ Hsz Hb Hv) as [(? & _)|?]; unfold rng in *; lia.
    + intros x v Hx. destruct (ob_all _ _ _ _ B _ _ Hx) as [o' Ho']. destruct (decide (p = x + 16)) as [->|Hne].
      * eexists. by rewrite lookup_insert_eq.
      * exists o'. by rewrite lookup_insert_ne.
Qed.
End inv.

Lemma l2_step_inv m0 region n σ σ' : l2_inv m0 region n σ -> l2_step region σ σ' -> l2_inv m0 region n σ'.
Proof.
  intros (F & bs & l & K & T & B) Hst. destruct Hst as [m O size align m' p R E Hp|m O size align m' R E|m O p o Ho|m O|m O p o off ws Ho H0 H1];
    cbn [fst snd] in *.
  - by eapply inv_alloc.
  - destruct (l2_alloc_spec m region _ bs l size align K R) as [[E2 _]|(m2 & b & bs' & l' & s & E2 & _ & _ & G)];
      rewrite E in E2; injection E2 as ->; [split; [done|by exists bs, l]|].
    pose proof (gv_free _ _ _ _ _ _ _ _ G) as (t & Hb & _). pose proof (hk_at _ _ _ _ _ K) as Hat.
    pose proof (block_at_bounds _ _ _ _ _ (ha_sized _ _ _ _ _ _ Hat) Hb). pose proof (ha_room _ _ _ _ _ _ Hat). lia.
  - by eapply inv_free.
  - unfold l2_free. rewrite Z.eqb_refl, orb_true_r. split; [done|by exists bs, l].
  - by eapply inv_write.
Qed.

(** ** What the allocator promises *)

Lemma l2_reach m0 region n m1 a m O :
  0 < region -> 0 <= n < 0x100000000 -> region + n < 0x10000000000000000 ->
  l2_create m0 region n = (m1, a) -> a <> 0 -> rtc (l2_step a) (m1, ∅) (m, O) ->
  a = region /\ l2_inv m0 region n (m, O).
Proof.
  intros Hr Hn He Hc Ha Hst. pose proof (l2_create_spec m0 region n Hr Hn He) as HC. cbv zeta in HC. rewrite Hc in HC.
  destruct HC as [F HC]. case_decide; [|done]. destruct HC as [-> K]. split; [done|].
  assert (l2_inv m0 region n (m1, ∅)) as I1.
  { split; [done|]. exists [(region + n - heap_base region, false)], [heap_base region]. cbn [fst snd]. split; [done|].
    split; [rewrite total_cons; change (total []) with 0; lia|]. split; [by intros p o|].
    intros x s [(_ & _ & [=])|Hx]%block_at_cons. by apply block_at_nil in Hx. }
  eapply (rtc_ind_l (fun x => l2_inv m0 region n x -> l2_inv m0 region n (m, O))); [done| |exact Hst|exact I1].
  intros x y Hxy _ IH Hx. apply IH. by eapply l2_step_inv.
Qed.

(** The free list, walked from its head. *)
Fixpoint free_walk (fuel : nat) (m : mem) (b : Z) : list Z :=
  match fuel with
  | O => []
  | S fuel => if b =? 0 then [] else b :: free_walk fuel m (fl_next m b)
  end.

Definition free_list (m : mem) (a : Z) : list Z := free_walk (list_fuel m a) m (free_head m a).

(** The first block of the free list with room for the request. *)
Definition first_large_enough (m : mem) (a size align : Z) : option Z :=
  List.find (fun b => block_bytes size align <=? b_size m b) (free_list m a).

Lemma free_walk_links m l : forall p fuel, links m p l 0 -> (forall x, x ∈ l -> x <> 0) -> (length l < fuel)%nat ->
  free_walk fuel m (hd 0 l) = l.
Proof.
  induction l as [|x l IH]; intros p [|fuel] HL Hnz Hf; cbn [length] in Hf; try lia; [done|].
  destruct HL as (_ & Hn & HL). cbn [free_walk hd]. rewrite (proj2 (Z.eqb_neq x 0)) by (apply Hnz, elem_of_cons; by left).
  rewrite Hn, (IH x); [done|done| |lia]. intros y Hy. apply Hnz, elem_of_cons. by right.
Qed.

Lemma first_fit_find m want l : forall p fuel, links m p l 0 -> (forall x, x ∈ l -> x <> 0) -> (length l < fuel)%nat ->
  first_fit fuel m (hd 0 l) want = Some (default 0 (List.find (fun b => want <=? b_size m b) l)).
Proof.
  induction l as [|x l IH]; intros p [|fuel] HL Hnz Hf; cbn [length] in Hf; try lia; [done|].
  destruct HL as (_ & Hn & HL). cbn [first_fit hd List.find].
  rewrite (proj2 (Z.eqb_neq x 0)) by (apply Hnz, elem_of_cons; by left). cbn [negb andb].
  rewrite Z.leb_antisym. destruct (b_size m x <? want); cbn [negb]; [|done].
  rewrite Hn. apply (IH x); [done| |lia]. intros y Hy. apply Hnz, elem_of_cons. by right.
Qed.

(** The answer to a request is decided by the free list. *)
Lemma l2_alloc_answer m a base bs l size align : heap_ok m a base bs l -> request_ok size align ->
  match first_large_enough m a size align with
  | Some b => b <> 0 /\ exists m', l2_alloc m a size align = Some (m', b + 16)
  | None => l2_alloc m a size align = Some (m, 0)
  end.
Proof.
  intros K R. destruct (want_total_spec size align R) as (Hw & _). pose proof (hk_at _ _ _ _ _ K) as H.
  pose proof (ha_room _ _ _ _ _ _ H) as Hr. destruct (heap_links _ _ _ _ _ _ H) as (Hh & HL & Hnz & Hf).
  unfold first_large_enough, free_list. rewrite Hh, (free_walk_links m l 0 _ HL Hnz Hf).
  unfold l2_alloc. rewrite (proj2 (Z.eqb_neq a 0)), (proj2 (Z.eqb_neq size 0)) by (destruct R; lia). cbn [orb].
  rewrite (rq_pow _ _ R). cbn [negb]. rewrite Hw, Hh, (first_fit_find m _ l 0 _ HL Hnz Hf).
  destruct (List.find _ l) as [b|] eqn:Eb; cbn [default from_option id]; [|done]. apply find_some in Eb as [Hin%list_elem_of_In _].
  pose proof (Hnz b Hin) as Hb. rewrite (proj2 (Z.eqb_neq b 0)) by done. split; [done|by eexists].
Qed.

Lemma l2_alloc_decided m0 region n m O bs l size align : let base := heap_base region in
  mem_frame region n m0 m -> heap_ok m region base bs l -> base + total bs = region + n -> objects_ok m base bs O ->
  request_ok size align -> exists v, l2_largest_free m region = Some v /\
  match first_large_enough m region size align with
  | Some b => O !! (b + 16) = None /\ block_bytes size align - 16 <= v /\
              exists m', l2_alloc m region size align = Some (m', b + 16)
  | None => v < block_bytes size align - 16 /\ l2_alloc m region size align = Some (m, 0)
  end.
Proof.
  intros base F K T B R. destruct (l2_largest_free_spec _ _ _ _ _ K) as (v & Ev & Hall & Hor). exists v. split; [done|].
  pose proof (inv_sized _ _ _ _ K) as (Hsz & Hb & _). pose proof (hk_at _ _ _ _ _ K) as Hat. pose proof (ha_room _ _ _ _ _ _ Hat) as Hr.
  pose proof (l2_alloc_answer _ _ _ _ _ _ _ K R) as Hans. destruct (want_total_spec size align R) as (_ & Hw & _).
  destruct (l2_alloc_spec _ _ _ _ _ size align K R) as [[E Hno]|(m2 & b2 & bs' & l' & s & E & _ & Hs & G)]; rewrite E in Hans.
  - destruct (first_large_enough _ _ _ _) as [b|] eqn:Ef; [|split; [|done]].
    + destruct Hans as (Hb0 & m' & [= <- Hb16]). unfold first_large_enough, free_list in Ef.
      destruct (heap_links _ _ _ _ _ _ Hat) as (Hh & HL & Hnz & Hf). rewrite Hh, (free_walk_links m l 0 _ HL Hnz Hf) in Ef.
      apply find_some in Ef as [Hin%list_elem_of_In _]. pose proof (node_bounds _ _ _ _ _ _ Hat b (ha_frees _ _ _ _ _ _ Hat b Hin)). lia.
    + destruct Hor as [->|(x & Hx)]; [|specialize (Hno _ _ Hx); lia]. destruct R as [Hs0 Ha0 _ _]. unfold block_bytes in *.
      pose proof (align_up_spec (Z.max 16 size) (request_align align)) as Hu. unfold request_align in *. lia.
  - pose proof (gv_free _ _ _ _ _ _ _ _ G) as (t & Hb2 & Ht). specialize (Hall _ _ Hb2).
    pose proof (block_at_bounds _ _ _ _ _ Hsz Hb2).
    destruct (first_large_enough _ _ _ _) as [b|]; [|injection Hans as _ Hz; lia]. destruct Hans as (Hb0 & m' & [= <- Hb16]).
    assert (b2 = b) as -> by lia. split_and!; [|lia|by exists m2].
    by destruct (inv_alloc m0 region n m O bs l F K T B size align m2 (b + 16) R E ltac:(lia)).
Qed.


(** ** Witnesses *)

Definition demo_l2 : mem := (l2_create (fun _ => 0) 0x1000 0x400).1.
Definition demo_l2_alloc (m : mem) (size align : Z) : mem * Z :=
  match l2_alloc m 0x1000 size align with Some r => r | None => (m, -1) end.

Lemma demo_l2_alloc_some m size align : (demo_l2_alloc m size align).2 <> -1 ->
  l2_alloc m 0x1000 size align = Some ((demo_l2_alloc m size align).1, (demo_l2_alloc m size align).2).
Proof. unfold demo_l2_alloc. destruct (l2_alloc m 0x1000 size align) as [[m' p]|]; done. Qed.

Lemma demo_request : request_ok 100 0 /\ request_ok 40 64.
Proof. split; split; try done; unfold request_align, effective_align, L2_DEFAULT_ALIGN; cbn; lia. Qed.

Definition demo_l2_a : mem * Z := demo_l2_alloc demo_l2 100 0.
Definition demo_l2_b : mem * Z := demo_l2_alloc demo_l2_a.1 40 64.

(** Two allocations, then the first is released: no merge yet. *)
Definition demo_l2_c : mem := l2_free demo_l2_b.1 0x1000 demo_l2_a.2.

Example demo_l2_runs :
  demo_l2_a.2 = 0x1030 /\ demo_l2_b.2 = 0x10B0 /\ l2_largest_free demo_l2_c 0x1000 = Some 768 /\
  l2_largest_free (l2_free demo_l2_c 0x1000 demo_l2_b.2) 0x1000 = Some 976.
Proof. by vm_compute. Qed.

Lemma demo_l2_history : exists O, O = delete demo_l2_a.2 (<[demo_l2_b.2 := mem_read demo_l2_b.1 demo_l2_b.2 40]>
    (<[demo_l2_a.2 := mem_read demo_l2_a.1 demo_l2_a.2 100]> (∅ : gmap Z (list Z)))) /\
  rtc (l2_step 0x1000) (demo_l2, ∅) (demo_l2_c, O).
Proof.
  eexists. split; [reflexivity|]. destruct demo_request as [R1 R2].
  eapply rtc_l; [apply (l2s_alloc 0x1000 demo_l2 ∅ 100 0 demo_l2_a.1 demo_l2_a.2 R1)|].
  { apply demo_l2_alloc_some. by vm_compute. }
  { by vm_compute. }
  eapply rtc_l; [apply (l2s_alloc 0x1000 demo_l2_a.1 _ 40 64 demo_l2_b.1 demo_l2_b.2 R2)|].
  { apply demo_l2_alloc_some. by vm_compute. }
  { by vm_compute. }
  eapply rtc_l; [|apply rtc_refl]. eapply l2s_free.
  rewrite lookup_insert_ne by by vm_compute. by rewrite lookup_insert_eq.
Qed.

Lemma demo_l2_create : l2_create (fun _ => 0) 0x1000 0x400 = (demo_l2, 0x1000).
Proof. unfold demo_l2. destruct (l2_create (fun _ => 0) 0x1000 0x400) as [m a] eqn:E. cbn [fst]. f_equal.
  assert ((l2_create (fun _ => 0) 0x1000 0x400).2 = 0x1000) as H by by vm_compute. by rewrite E in H. Qed.


(** ** What the arithmetic gets wrong *)

(** A request of nearly 4 GiB wraps [want_total] to zero: it is granted, with
    an empty block that stays at the head of the free list with size zero, and
    from then on even 16 bytes cannot be allocated from a heap that had 976. *)
Example l2_wrap_breaks_heap :
  let '(m, p) := demo_l2_alloc demo_l2 0xFFFFFFF0 0 in
  p = 0x1030 /\ b_size m 0x1020 = 0 /\ (demo_l2_alloc m 16 0).2 = 0 /\ l2_largest_free m 0x1000 = Some 0.
Proof. by vm_compute. Qed.

(** A [size_t] above 32 bits is cut to its low half: 4 GiB and one byte get a
    payload of 16 bytes. *)
Example l2_size_cut : let '(m, p) := demo_l2_alloc demo_l2 0x100000001 0 in p = 0x1030 /\ b_size m 0x1020 = 32.
Proof. by vm_compute. Qed.

(** The alignment rounds the size, not the address. *)
Example l2_alignment_ignored : demo_l2_a.2 mod 64 = 48 /\ (demo_l2_alloc demo_l2 40 64).2 mod 64 = 48.
Proof. by vm_compute. Qed.
