(* ===== verification/L2Ecalls.v ===== *)
(** The guest's side of the L2 heap ([src/mgapi/l2_ecalls.c]): the handlers of
    [SYS_L2_ALLOC], [SYS_L2_FREE] and [SYS_L2_STATS], which turn host addresses
    into guest addresses of the shared range and back.

    The three static pointers of the two files are the record [L2Pool]; a
    handler is a function of memory and the calling CPU ([None] when a walk of
    the free list runs out of fuel). *)
From stdpp Require Import gmap.
From S2P Require Import Prelude HostMem Bump VmCpu VmEcall L2Alloc L2Heap L2Safe L2Client.
#[local] Open Scope Z_scope.

Definition L2_VA_BASE : Z := 0xE0000000.
Definition EFAULT : Z := 14.
Definition SYS_L2_ALLOC : Z := 1185.
Definition SYS_L2_FREE : Z := 1186.
Definition SYS_L2_STATS : Z := 1187.

Record L2Pool := mkPool {
  g_l2 : Z;
  g_l2_base : Z;
  g_l2_size : Z
}.

Definition host_to_va (g : L2Pool) (p : Z) : Z :=
  if (p =? 0) || (g_l2_base g =? 0) then 0 else
  let off := u64 (p - g_l2_base g) in
  if g_l2_size g <=? off then 0 else u32 (L2_VA_BASE + u32 off).

Definition va_to_host (g : L2Pool) (va : Z) : Z :=
  if g_l2_base g =? 0 then 0 else
  if negb (Z.land va 0xE0000000 =? L2_VA_BASE) then 0 else
  let off := Z.land va 0x1FFFFFFF in
  if g_l2_size g <=? off then 0 else g_l2_base g + off.

Definition h_l2_alloc (g : L2Pool) (m : mem) (c : VmCpu) : option (mem * VmCpu) :=
  let size := reg c VM_REG_A0 in
  let align := reg c VM_REG_A1 in
  match mgapi_l2_host_alloc m (g_l2 g) size align with
  | None => None
  | Some (m, p) => Some (m, set_reg c VM_REG_A0 (host_to_va g p))
  end.

Definition h_l2_free (g : L2Pool) (m : mem) (c : VmCpu) : mem * VmCpu :=
  let va := reg c VM_REG_A0 in
  let m :=
    if negb (va =? 0) then
      let p := va_to_host g va in
      if negb (p =? 0) then mgapi_l2_host_free m (g_l2 g) p else m
    else m in
  (m, set_reg c VM_REG_A0 0).

(** [sizeof(GuestL2Stats)], and its bytes. *)
Definition GuestL2Stats_size : Z := 48.

Definition guest_l2_stats (total : Z) (s : L2Stats) (largest : Z) : list Z :=
  le_bytes 4 1 ++ le_bytes 4 0 ++ le_bytes 8 total ++ le_bytes 8 (st_used_bytes s) ++ le_bytes 8 (st_free_bytes s) ++
  le_bytes 8 largest ++ le_bytes 4 (st_alloc_count s) ++ le_bytes 4 (st_free_block_count s).

Definition h_l2_stats (g : L2Pool) (m : mem) (c : VmCpu) : option (mem * VmCpu) :=
  let guest_buf := reg c VM_REG_A0 in
  match vm_translate_write c guest_buf GuestL2Stats_size with
  | (None, c) => Some (m, set_reg c VM_REG_A0 (u32 (- EFAULT)))
  | (Some dst, c) =>
      match mgapi_l2_stats m (g_l2 g) with
      | None => None
      | Some (inr _) => Some (m, set_reg c VM_REG_A0 (u32 (- EAGAIN)))
      | Some (inl (s, largest)) =>
          Some (mem_write m dst (guest_l2_stats (g_l2_size g) s largest), set_reg c VM_REG_A0 GuestL2Stats_size)
      end
  end.

(** ** Installation *)

Section install.
Context {W : Type} `{CpuStore W} (mem_of : W -> mem) (put_mem : W -> mem -> W).

(** A handler on the world, through the address of the CPU. *)
Definition l2_handler (f : mem -> VmCpu -> option (mem * VmCpu)) : VmEcallHandler W := fun cpu _ w =>
  match f (mem_of w) (cpu_at w cpu) with
  | Some (m, c) => put_cpu (put_mem w m) cpu c
  | None => w
  end.

(** The router may be a null pointer. *)
Definition mgapi_install_l2_ecalls (g : L2Pool) (router : option (VmEcallRouter W)) (l2_base l2_size : Z)
    : L2Pool * option (VmEcallRouter W) * bool :=
  match router with
  | None => (g, None, false)
  | Some r =>
      let g := mkPool (g_l2 g) l2_base l2_size in
      match vm_ecall_register r SYS_L2_ALLOC (Some (l2_handler (h_l2_alloc g))) with
      | (r, false) => (g, Some r, false)
      | (r, true) =>
          match vm_ecall_register r SYS_L2_FREE (Some (l2_handler (fun m c => Some (h_l2_free g m c)))) with
          | (r, false) => (g, Some r, false)
          | (r, true) =>
              let '(r, ok) := vm_ecall_register r SYS_L2_STATS (Some (l2_handler (h_l2_stats g))) in
              (g, Some r, ok)
          end
      end
  end.
End install.

(** ** Addresses *)

(** The pool fits the shared range. *)
Definition pool_ok (g : L2Pool) : Prop :=
  0 < g_l2_base g /\ 0 <= g_l2_size g <= 0x20000000 /\ g_l2_base g + g_l2_size g < 0x10000000000000000.

Lemma va_fields off : 0 <= off < 0x20000000 ->
  Z.land (L2_VA_BASE + off) 0xE0000000 = L2_VA_BASE /\ Z.land (L2_VA_BASE + off) 0x1FFFFFFF = off /\
  Z.shiftr (L2_VA_BASE + off) 30 = 3 /\ Z.land (L2_VA_BASE + off) 0x20000000 <> 0.
Proof.
  intros H. unfold L2_VA_BASE. change 0x1FFFFFFF with (2 ^ 29 - 1). rewrite land_pow2_ones by lia.
  change 0xE0000000 with (0x100000000 - 2 ^ 29) at 2. rewrite land_high_mask by (try lia; unfold is_u32; lia).
  change (2 ^ 29) with 0x20000000.
  split_and!; [zlia|zlia|rewrite Z.shiftr_div_pow2 by lia; change (2 ^ 30) with 0x40000000; zlia|].
  intros E. change 0x20000000 with (Z.shiftl 1 29) in E. apply Z.eqb_eq in E. rewrite land_bit_zero in E by lia. apply negb_true_iff in E.
  rewrite Z.testbit_false in E by lia. change (2 ^ 29) with 0x20000000 in E. zlia.
Qed.

Lemma host_to_va_spec g p : pool_ok g -> g_l2_base g <= p < g_l2_base g + g_l2_size g ->
  host_to_va g p = L2_VA_BASE + (p - g_l2_base g) /\ va_to_host g (host_to_va g p) = p.
Proof.
  intros (Hb & Hs & He) Hp. assert (host_to_va g p = L2_VA_BASE + (p - g_l2_base g)) as E.
  { unfold host_to_va, L2_VA_BASE. rewrite (proj2 (Z.eqb_neq p 0)), (proj2 (Z.eqb_neq (g_l2_base g) 0)) by lia. cbn [orb].
    rewrite u64_small by (unfold is_u64; lia). destruct (Z.leb_spec (g_l2_size g) (p - g_l2_base g)); [lia|].
    rewrite (u32_small (p - g_l2_base g)), u32_small by (unfold is_u32; lia). done. }
  split; [done|]. rewrite E. destruct (va_fields (p - g_l2_base g) ltac:(lia)) as (F1 & F2 & _).
  unfold va_to_host. rewrite F1, F2, Z.eqb_refl, (proj2 (Z.eqb_neq (g_l2_base g) 0)) by lia. cbn [negb].
  destruct (Z.leb_spec (g_l2_size g) (p - g_l2_base g)); lia.
Qed.

(** The VM's own translation sends the guest address to the same host byte. *)
Lemma va_translates g c p off k : pool_ok g -> l2_shared c = mkRegion (g_l2_base g) (g_l2_size g) true ->
  g_l2_base g <= p -> 0 <= off -> 0 < k -> p + off + k <= g_l2_base g + g_l2_size g ->
  vm_translate_write c (host_to_va g p + off) k = (Some (p + off), c).
Proof.
  intros G Hl Hp H0 Hk He. destruct (host_to_va_spec g p G ltac:(lia)) as [-> _]. destruct G as (Hb & Hs & _).
  rewrite <-Z.add_assoc. destruct (va_fields (p - g_l2_base g + off) ltac:(lia)) as (_ & F2 & F3 & F4).
  unfold vm_translate_write, xlat_write, xlat_pick. rewrite (proj2 (Z.eqb_neq k 0)), F3, F2 by lia.
  change (3 =? VM_REGION_SHARED) with true. cbv iota. rewrite (proj2 (Z.eqb_neq _ 0) F4). cbn [negb].
  rewrite Hl. unfold out_of_region. cbn [rg_length rg_writable rg_base negb].
  rewrite (proj2 (Z.eqb_neq (g_l2_size g) 0)), !(proj2 (Z.ltb_ge _ _)) by lia. cbn [orb]. do 2 f_equal. lia.
Qed.

(** ** The guest's heap *)

(** A shared heap with a history of host requests, mapped as the guest's shared region. *)
Record l2_live (g : L2Pool) (m : mem) (O : gmap Z (list Z)) : Prop := {
  lv_pool : pool_ok g;
  lv_same : g_l2 g = g_l2_base g;
  lv_history : exists m0 m1, l2_create m0 (g_l2_base g) (g_l2_size g) = (m1, g_l2 g) /\ rtc (l2_step (g_l2 g)) (m1, ∅) (m, O)
}.

Lemma l2_live_inv g m O : l2_live g m O -> exists m0, l2_inv m0 (g_l2_base g) (g_l2_size g) (m, O).
Proof.
  intros [(Hb & Hs & He) E (m0 & m1 & Hc & Hst)]. exists m0.
  destruct (l2_reach m0 (g_l2_base g) (g_l2_size g) m1 (g_l2 g) m O) as [_ I]; try done; lia.
Qed.

(** An object's bytes have guest addresses. *)
Lemma l2_live_object g m O p o : l2_live g m O -> O !! p = Some o ->
  g_l2_base g <= p < g_l2_base g + g_l2_size g /\ p + Z.of_nat (length o) <= g_l2_base g + g_l2_size g.
Proof.
  intros L Ho. destruct (l2_live_inv _ _ _ L) as (m0 & F & bs & l & K & T & B). cbn [fst snd] in *.
  pose proof (inv_sized _ _ _ _ K) as (Hsz & Hb & _). destruct (ob_block _ _ _ _ B _ _ Ho) as (s & Hs & Hl & _).
  pose proof (block_at_bounds _ _ _ _ _ Hsz Hs). pose proof (heap_base_spec (g_l2_base g)). lia.
Qed.

Lemma l2_live_step g m O m' O' : l2_live g m O -> l2_step (g_l2 g) (m, O) (m', O') -> l2_live g m' O'.
Proof.
  intros [P E (m0 & m1 & Hc & Hst)] Hs. split; [done|done|]. exists m0, m1. split; [done|]. by eapply rtc_r.
Qed.

(** C32. [SYS_L2_ALLOC] end to end. A guest whose shared region is the pool gets, for
    a well-formed request, either zero, with the heap as it was, or the guest
    address of a new object: the VM's own translation sends every range of it to
    the object's bytes, and handing the address to [SYS_L2_FREE] releases that
    object and no other. *)
Theorem l2_guest_alloc g m O c size align :
  l2_live g m O -> l2_shared c = mkRegion (g_l2_base g) (g_l2_size g) true -> length (regs c) = VM_GP_REGS ->
  reg c VM_REG_A0 = size -> reg c VM_REG_A1 = align -> request_ok size align ->
  exists m' va, h_l2_alloc g m c = Some (m', set_reg c VM_REG_A0 va) /\
    ((va = 0 /\ l2_live g m' O) \/
     exists p o, va <> 0 /\ O !! p = None /\ Z.of_nat (length o) = size /\ l2_live g m' (<[p := o]> O) /\
       (forall d off k, l2_shared d = l2_shared c -> 0 <= off -> 0 < k -> off + k <= size ->
          vm_translate_write d (va + off) k = (Some (p + off), d)) /\
       (forall m2 O2 o2 d, l2_live g m2 O2 -> O2 !! p = Some o2 -> reg d VM_REG_A0 = va ->
          h_l2_free g m2 d = (l2_free m2 (g_l2 g) p, set_reg d VM_REG_A0 0) /\
          l2_live g (l2_free m2 (g_l2 g) p) (delete p O2))).
Proof.
  intros L Hsh Hlen <- <- R. set (size := reg c VM_REG_A0) in *. set (align := reg c VM_REG_A1) in *.
  pose proof L as [G Eg (m0 & m1 & Hc & Hst)]. pose proof G as (Hb & Hs & He).
  destruct (l2_live_inv _ _ _ L) as (m0' & F & bs & l & K & T & B). cbn [fst snd] in *.
  unfold h_l2_alloc, mgapi_l2_host_alloc. rewrite Eg, (proj2 (Z.eqb_neq (g_l2_base g) 0)) by lia. cbn [negb]. fold size align.
  assert (exists m' p, l2_alloc m (g_l2_base g) size align = Some (m', p)) as (m' & p & E).
  { destruct (l2_alloc_spec _ _ _ _ _ size align K R) as [[-> _]|(m2 & b & bs' & l' & s & -> & _)]; by eexists _, _. }
  rewrite E. exists m', (host_to_va g p). split; [done|]. destruct (decide (p = 0)) as [->|Hp].
  - left. split; [done|]. eapply l2_live_step; [exact L|]. rewrite Eg. by eapply l2s_full.
  - right. destruct (inv_alloc m0' _ _ m O bs l F K T B size align m' p R E Hp) as [Hnone _].
    exists p, (mem_read m' p size). pose proof (rq_size _ _ R) as Hsize.
    assert (Z.of_nat (length (mem_read m' p size)) = size) as Hlo by (rewrite mem_read_length; lia).
    assert (l2_live g m' (<[p := mem_read m' p size]> O)) as L2.
    { eapply l2_live_step; [exact L|]. rewrite Eg. by eapply l2s_alloc. }
    destruct (l2_live_object g m' _ p _ L2 (lookup_insert_eq _ _ _)) as [Hp1 Hp2]. rewrite Hlo in Hp2.
    destruct (host_to_va_spec g p G Hp1) as [Hva Hback].
    split_and!; try done.
    + rewrite Hva. unfold L2_VA_BASE. lia.
    + intros d off k Hd H0 Hk Hok. rewrite <-Hd in Hsh. apply va_translates; try done; lia.
    + intros m2 O2 o2 d L3 Ho2 Hd. unfold h_l2_free, mgapi_l2_host_free. rewrite Eg, Hd, Hback.
      rewrite (proj2 (Z.eqb_neq (host_to_va g p) 0)) by (rewrite Hva; unfold L2_VA_BASE; lia).
      rewrite (proj2 (Z.eqb_neq p 0)), (proj2 (Z.eqb_neq (g_l2_base g) 0)) by lia. cbn [negb].
      split; [done|]. apply (l2_live_step g m2 O2); [exact L3|]. rewrite Eg. by apply (l2s_free (g_l2_base g) m2 O2 p o2).
Qed.

(** ** Witnesses *)

Definition demo_pool : L2Pool := mkPool 0x1000 0x1000 0x400.
Definition demo_l2_cpu (size align : Z) : VmCpu :=
  mkCpu (<[11%nat := align]> (<[10%nat := size]> (replicate VM_GP_REGS 0))) 0 (replicate VM_REGION_COUNT no_region)
    (mkRegion 0x1000 0x400 true) TRAP_NONE 0 0 0 false false BLOCK_NONE 0 UINT16_MAX 0 0 1 0 0 0 0.

Lemma demo_l2_live : l2_live demo_pool demo_l2 ∅.
Proof.
  split; [split; cbn; lia|done|]. exists (fun _ => 0), demo_l2. split; [apply demo_l2_create|apply rtc_refl].
Qed.

Lemma l2_guest_alloc_witness :
  exists m' va, h_l2_alloc demo_pool demo_l2 (demo_l2_cpu 100 0) = Some (m', set_reg (demo_l2_cpu 100 0) VM_REG_A0 va) /\
    ((va = 0 /\ l2_live demo_pool m' ∅) \/ exists p o, va <> 0 /\ Z.of_nat (length o) = 100 /\ l2_live demo_pool m' {[p := o]}).
Proof.
  destruct (l2_guest_alloc demo_pool demo_l2 ∅ (demo_l2_cpu 100 0) 100 0 demo_l2_live eq_refl eq_refl eq_refl eq_refl (proj1 demo_request))
    as (m' & va & H & [[-> L]|(p & o & Hv & _ & Ho & L & _)]).
  - exists m', 0. split; [exact H|left]. exact (conj eq_refl L).
  - exists m', va. split; [exact H|right]. exists p, o. exact (conj Hv (conj Ho L)).
Defined.

(** The guest address is the one the documentation gives, and a hostile size
    reaches the unchecked arithmetic of the allocator. *)
Example demo_l2_guest :
  match h_l2_alloc demo_pool demo_l2 (demo_l2_cpu 100 0) with
  | Some (m, c) => reg c VM_REG_A0 = 0xE0000030 /\ mgapi_l2_stats m 0x1000 = Some (inl (mkL2Stats 128 864 1 1, 848))
  | None => False
  end.
Proof. by vm_compute. Qed.

Example demo_l2_hostile :
  match h_l2_alloc demo_pool demo_l2 (demo_l2_cpu 0xFFFFFFF0 0) with
  | Some (m, _) =>
      match h_l2_alloc demo_pool m (demo_l2_cpu 16 0) with Some (_, c) => reg c VM_REG_A0 = 0 | None => False end
  | None => False
  end.
Proof. by vm_compute. Qed.
