(* ===== verification/SpscQueue.v ===== *)
(** The ring of [SpscRing] as a bounded queue, for clients that call whole
    operations: what a ring in memory holds ([ring_rep]), and what a push and a pop
    that nobody interrupts do to it.  [SpscConc] is about the two ends running at once. *)
From S2P Require Import Prelude HostMem SpscRing.

(** What the two programs do when run alone. *)
Lemma spsc_push_eq m r element :
  spsc_ring_push m r element =
  if element =? 0 then (m, r, false) else
  let next := Z.land (u64 (sr_head r + 1)) (sr_mask r) in
  if next =? sr_tail r then (m, r, false) else
  (memcpy m (spsc_slot r (sr_head r)) element (sr_element_size r), set_head r next, true).
Proof. unfold spsc_ring_push, push_prog. destruct (element =? 0); [done|]. cbn. by destruct (_ =? sr_tail r). Qed.

Lemma spsc_pop_eq m r out :
  spsc_ring_pop m r out =
  if out =? 0 then (m, r, false) else
  if sr_tail r =? sr_head r then (m, r, false) else
  (memcpy m out (spsc_slot r (sr_tail r)) (sr_element_size r),
   set_tail r (Z.land (u64 (sr_tail r + 1)) (sr_mask r)), true).
Proof. unfold spsc_ring_pop, pop_prog. destruct (out =? 0); [done|]. cbn. by destruct (_ =? sr_head r). Qed.

(** The ring holds the elements [q], oldest first. *)
Record ring_rep (r : SpscRing) (m : mem) (q : list (list Z)) : Prop := {
  rr_pow : exists lg, 1 <= lg < 64 /\ sr_capacity r = 2 ^ lg;
  rr_mask : sr_mask r = sr_capacity r - 1;
  rr_size : 0 < sr_element_size r;
  rr_tail : 0 <= sr_tail r < sr_capacity r;
  rr_head : sr_head r = (sr_tail r + Z.of_nat (length q)) mod sr_capacity r;
  rr_room : Z.of_nat (length q) < sr_capacity r;
  rr_data : forall i v, q !! i = Some v ->
    mem_read m (spsc_slot r ((sr_tail r + Z.of_nat i) mod sr_capacity r)) (sr_element_size r) = v
}.

(** The bytes of the ring. *)
Definition ring_bytes (r : SpscRing) : Z := sr_capacity r * sr_element_size r.

(** The geometry of a ring, which no operation changes. *)
Definition same_ring (r r' : SpscRing) : Prop :=
  sr_storage r' = sr_storage r /\ sr_capacity r' = sr_capacity r /\ sr_mask r' = sr_mask r /\
  sr_element_size r' = sr_element_size r.

#[export] Instance same_ring_equiv : Equivalence same_ring.
Proof. unfold same_ring. split; [by intros r|by intros r r' (-> & -> & -> & ->)|intros a b c (H1 & H2 & H3 & H4) (K1 & K2 & K3 & K4); split_and!; congruence]. Qed.

Lemma ring_cap r m q : ring_rep r m q -> 2 <= sr_capacity r <= 2 ^ 63.
Proof.
  intros [(lg & Hlg & ->) _ _ _ _ _ _]. split; [apply (Z.pow_le_mono_r 2 1); lia|apply Z.pow_le_mono_r; lia].
Qed.

Lemma mod_once t k c : 0 <= t < c -> 0 <= k <= c -> (t + k) mod c = if t + k <? c then t + k else t + k - c.
Proof.
  intros Ht Hk. destruct (Z.ltb_spec (t + k) c); [apply Z.mod_small; lia|].
  symmetry. apply (Z.mod_unique _ _ 1); lia.
Qed.

Lemma ring_next r m q x : ring_rep r m q -> 0 <= x < sr_capacity r ->
  Z.land (u64 (x + 1)) (sr_mask r) = (x + 1) mod sr_capacity r.
Proof.
  intros Hr Hx. pose proof (ring_cap _ _ _ Hr). destruct Hr as [(lg & Hlg & Hc) Hm _ _ _ _ _].
  rewrite Hm, u64_small by (umach; lia). by apply (land_mask _ _ lg); [lia|].
Qed.

Lemma ring_index r m q i : ring_rep r m q -> 0 <= (sr_tail r + i) mod sr_capacity r < sr_capacity r.
Proof. intros Hr. pose proof (ring_cap _ _ _ Hr). apply Z.mod_pos_bound. lia. Qed.

(** The head meets the tail when the queue is empty, and is one behind when full. *)
Lemma ring_empty r m q : ring_rep r m q -> (sr_tail r =? sr_head r) = match q with [] => true | _ => false end.
Proof.
  intros [_ _ _ Ht Hh Hq _]. rewrite Hh, mod_once by lia. destruct q as [|v q]; cbn [length] in *.
  - rewrite Z.add_0_r, (proj2 (Z.ltb_lt _ _)) by lia. apply Z.eqb_refl.
  - apply Z.eqb_neq. destruct (Z.ltb_spec (sr_tail r + Z.of_nat (S (length q))) (sr_capacity r)); lia.
Qed.

Lemma ring_full r m q : ring_rep r m q ->
  (Z.land (u64 (sr_head r + 1)) (sr_mask r) =? sr_tail r) = (Z.of_nat (length q) =? sr_capacity r - 1).
Proof.
  intros Hr. rewrite (ring_next r m q) by (done || (rewrite (rr_head _ _ _ Hr); by eapply ring_index)).
  pose proof (ring_cap _ _ _ Hr). destruct Hr as [_ _ _ Ht Hh Hq _]. rewrite Hh, Z.add_mod_idemp_l by lia.
  rewrite <-Z.add_assoc, mod_once by lia.
  destruct (Z.ltb_spec (sr_tail r + (Z.of_nat (length q) + 1)) (sr_capacity r)), (Z.eqb_spec (Z.of_nat (length q)) (sr_capacity r - 1));
    first [apply Z.eqb_eq; lia|apply Z.eqb_neq; lia].
Qed.

Lemma slot_apart r m q i j : ring_rep r m q -> 0 <= i < j -> j < sr_capacity r ->
  (sr_tail r + i) mod sr_capacity r <> (sr_tail r + j) mod sr_capacity r.
Proof.
  intros [_ _ _ Ht _ _ _] Hi Hj. rewrite !mod_once by lia.
  destruct (Z.ltb_spec (sr_tail r + i) (sr_capacity r)), (Z.ltb_spec (sr_tail r + j) (sr_capacity r)); lia.
Qed.

Lemma ring_slot_inside r m q i : ring_rep r m q -> sr_storage r <= spsc_slot r ((sr_tail r + i) mod sr_capacity r) /\
  spsc_slot r ((sr_tail r + i) mod sr_capacity r) + sr_element_size r <= sr_storage r + ring_bytes r.
Proof. intros Hr. pose proof (ring_index r m q i Hr). apply slot_inside; [destruct Hr; lia|done]. Qed.

(** Memory outside the ring does not matter. *)
Lemma ring_agree r m m' q : ring_rep r m q -> mem_agree (rng (sr_storage r) (ring_bytes r)) m m' -> ring_rep r m' q.
Proof.
  intros Hr Ha. pose proof (fun i => ring_slot_inside r m q i Hr) as Hin. destruct Hr as [? ? ? ? ? ? Hd]. split; try done.
  intros i v Hi. rewrite <-(Hd i v Hi). symmetry. apply mem_read_agree. intros x Hx. apply Ha.
  pose proof (Hin (Z.of_nat i)). unfold rng in *. lia.
Qed.

Lemma ring_frame r m m' q a n : ring_rep r m q -> mem_frame a n m m' -> rdisj a n (sr_storage r) (ring_bytes r) -> ring_rep r m' q.
Proof. intros Hr Hf Hd. eapply ring_agree; [done|]. intros x Hx. apply Hf. unfold rng, rdisj in *. lia. Qed.

Lemma ring_init_rep m storage capacity esz r : spsc_ring_init storage capacity esz = Some r -> capacity < 2 ^ 64 -> 0 < esz ->
  ring_rep r m [] /\ sr_storage r = storage /\ sr_capacity r = capacity /\ sr_element_size r = esz.
Proof.
  unfold spsc_ring_init. intros Hr Hc He. destruct (_ || _); [done|].
  destruct (is_pow2 capacity) eqn:Hp; [|done]. cbn in Hr. injection Hr as <-. apply is_pow2_spec in Hp as (k & Hk & ->).
  assert (k < 64) by (apply (Z.pow_lt_mono_r_iff 2); lia). pose proof (Z.pow_pos_nonneg 2 k ltac:(lia) ltac:(lia)).
  split_and!; [|done..]. split; cbn; [by exists k|done|done|lia|by rewrite Z.mod_0_l by lia|lia|done].
Qed.

Lemma spsc_push_rep r m q el : ring_rep r m q -> el <> 0 ->
  exists m' r' ok, spsc_ring_push m r el = (m', r', ok) /\ same_ring r r' /\
    ok = negb (Z.of_nat (length q) =? sr_capacity r - 1) /\
    ring_rep r' m' (if ok then q ++ [mem_read m el (sr_element_size r)] else q) /\
    mem_frame (sr_storage r) (ring_bytes r) m m'.
Proof.
  intros Hr Hel. rewrite spsc_push_eq. rewrite (proj2 (Z.eqb_neq el 0)) by done. cbn zeta. rewrite (ring_full r m q) by done.
  destruct (Z.eqb_spec (Z.of_nat (length q)) (sr_capacity r - 1)) as [Hf|Hf].
  { by exists m, r, false. }
  eexists _, _, true. split; [done|]. split; [done|]. split; [done|].
  pose proof (ring_cap _ _ _ Hr). pose proof (ring_slot_inside r m q (Z.of_nat (length q)) Hr) as Hin.
  pose proof (fun i => slot_apart r m q i (Z.of_nat (length q)) Hr) as Hap.
  rewrite (ring_next r m q) by (done || (rewrite (rr_head _ _ _ Hr); by eapply ring_index)).
  destruct Hr as [Hp Hm He Ht Hh Hq Hd]. rewrite <-Hh in *. split.
  - split; cbn; try done.
    + rewrite Hh, Z.add_mod_idemp_l by lia. rewrite length_app, Nat2Z.inj_add. cbn. f_equal. lia.
    + rewrite length_app. cbn. lia.
    + intros i v Hi. unfold spsc_slot. cbn [sr_storage sr_element_size]. rewrite memcpy_slot_read by lia. apply lookup_app_Some in Hi as [Hi|[Hi Hv]].
      * pose proof (lookup_lt_Some _ _ _ Hi). rewrite decide_False; [by apply Hd|]. intros E. symmetry in E. revert E. apply Hap; lia.
      * apply list_lookup_singleton_Some in Hv as [Hz <-]. replace i with (length q) by lia. by rewrite <-Hh, decide_True.
  - eapply mem_frame_mono; [| |apply memcpy_frame; lia]; lia.
Qed.

Lemma spsc_pop_rep r m q out : ring_rep r m q -> out <> 0 -> rdisj out (sr_element_size r) (sr_storage r) (ring_bytes r) ->
  exists m' r', spsc_ring_pop m r out = (m', r', match q with [] => false | _ => true end) /\ same_ring r r' /\
    ring_rep r' m' (tail q) /\
    match q with [] => m' = m | v :: _ => mem_read m' out (sr_element_size r) = v /\ mem_frame out (sr_element_size r) m m' end.
Proof.
  intros Hr Hout Hd. rewrite spsc_pop_eq. rewrite (proj2 (Z.eqb_neq out 0)) by done. cbn zeta. rewrite (ring_empty r m q) by done.
  destruct q as [|v q]; [by exists m, r|]. eexists _, _. split; [done|]. split; [done|].
  pose proof (ring_cap _ _ _ Hr) as Hc. assert (0 <= sr_element_size r) as He by (destruct Hr; lia).
  assert (mem_frame out (sr_element_size r) m (memcpy m out (spsc_slot r (sr_tail r)) (sr_element_size r))) as Hf by (by apply memcpy_frame).
  rewrite (ring_next r m (v :: q)) by (done || apply Hr). split.
  - pose proof (ring_frame _ _ _ _ _ _ Hr Hf Hd) as [Hp Hm Hs Ht Hh Hq Hdat]. cbn [length] in *. split; cbn; try done.
    + apply Z.mod_pos_bound. lia.
    + rewrite Hh, Z.add_mod_idemp_l by lia. f_equal. lia.
    + lia.
    + intros i w Hi. rewrite <-(Hdat (S i) w Hi), Z.add_mod_idemp_l by lia. do 3 f_equal. lia.
  - split; [|done]. rewrite memcpy_read by done. destruct Hr as [_ _ _ Ht _ _ Hdat].
    rewrite <-(Hdat O v eq_refl), Z.add_0_r, Z.mod_small by lia. done.
Qed.

(** The queries. *)
Lemma ring_count_rep r m q : ring_rep r m q -> spsc_ring_count r = Z.of_nat (length q).
Proof.
  intros Hr. pose proof (ring_cap _ _ _ Hr). destruct Hr as [(lg & Hlg & Hc) Hm _ Ht Hh Hq _]. unfold spsc_ring_count.
  assert (u64 (sr_head r - sr_tail r) mod sr_capacity r = Z.of_nat (length q)) as E.
  { unfold u64. rewrite Hc. change 0x10000000000000000 with (2 ^ 64). replace (2 ^ 64) with (2 ^ lg * 2 ^ (64 - lg)) by (rewrite <-Z.pow_add_r by lia; f_equal; lia).
    rewrite Z.rem_mul_r by lia.
    replace ((sr_head r - sr_tail r) mod 2 ^ lg + _) with ((sr_head r - sr_tail r) mod 2 ^ lg + ((sr_head r - sr_tail r) / 2 ^ lg) mod 2 ^ (64 - lg) * 2 ^ lg) by lia.
    rewrite Z.mod_add, Z.mod_mod, <-Hc by lia. rewrite Hh, mod_once by lia.
    destruct (Z.ltb_spec (sr_tail r + Z.of_nat (length q)) (sr_capacity r)).
    - rewrite Z.mod_small; lia.
    - symmetry. apply (Z.mod_unique _ _ (-1)); lia. }
  rewrite Hm, <-E. by apply (land_mask _ _ lg); [lia|].
Qed.

Lemma spsc_full_rep r m q : ring_rep r m q -> spsc_ring_full r = (Z.of_nat (length q) =? sr_capacity r - 1).
Proof. apply ring_full. Qed.

Lemma spsc_empty_rep r m q : ring_rep r m q -> spsc_ring_empty r = match q with [] => true | _ => false end.
Proof. intros Hr. unfold spsc_ring_empty. rewrite Z.eqb_sym. by eapply ring_empty. Qed.
