(* ===== verification/ServiceChannel.v ===== *)
(** The service channel ([src/vm/service_channel.c]): requests and responses
    between two contexts, over two rings and a transport that wakes and blocks.

    Messages are the 32 bytes of a [ChannelMsg] in memory.  The transport is three
    functions on the world, each of which may be missing; while the requester is
    blocked in [wait], and between its operations, the provider acts: what it does
    in between is the parameter [between].  The response of every call goes through
    the local variable of [channel_request_call], whose address is an argument.
    Operations on the rings are whole steps, as [SpscRing] justifies. *)
From S2P Require Import Prelude HostMem SpscRing SpscQueue.

Definition ChannelMsg_size : Z := 32.
Definition CHANNEL_FLAG_EXPECTS_RESPONSE : Z := 1.
Definition CHANNEL_FLAG_ASYNC : Z := 2.

(** The fields of a message that the channel looks at. *)
Definition msg_flags (m : mem) (p : Z) : Z := load16 m (p + 2).
Definition msg_seq (m : mem) (p : Z) : Z := load32 m (p + 4).

Record ServiceChannel := mkChannel { req : SpscRing; resp : SpscRing; next_seq : Z }.

(** The world: memory, the channel, the messages given to the stray callback of the
    current call, and everything else. *)
Record World (E : Type) := mkWorld {
  w_mem : mem;
  w_ch : ServiceChannel;
  w_strays : list (list Z);
  w_env : E
}.
Arguments mkWorld {E} _ _ _ _.
Arguments w_mem {E} _.
Arguments w_ch {E} _.
Arguments w_strays {E} _.
Arguments w_env {E} _.

Record ChannelTransport (E : Type) := mkTransport {
  notify : option (World E -> World E);
  wait : option (World E -> Z -> World E * bool);
  destroy : option (World E -> World E)
}.
Arguments mkTransport {E} _ _ _.
Arguments notify {E} _.
Arguments wait {E} _.
Arguments destroy {E} _.

Definition set_mem {E} (w : World E) (m : mem) : World E := mkWorld m (w_ch w) (w_strays w) (w_env w).
Definition set_chan {E} (w : World E) (m : mem) (c : ServiceChannel) : World E := mkWorld m c (w_strays w) (w_env w).

(** ** Life cycle *)

(** [None] is the [false] return. *)
Definition service_channel_init (req_storage resp_storage slots : Z) : option ServiceChannel :=
  if (req_storage =? 0) || (resp_storage =? 0) then None else
  rq ← spsc_ring_init req_storage slots ChannelMsg_size;
  rs ← spsc_ring_init resp_storage slots ChannelMsg_size;
  Some (mkChannel rq rs 1).

Definition service_channel_destroy {E} (tr : ChannelTransport E) (w : World E) : World E * ChannelTransport E :=
  (match destroy tr with Some d => d w | None => w end, mkTransport None None None).

Definition service_channel_next_seq (ch : ServiceChannel) : Z * ServiceChannel :=
  let s := next_seq ch in
  let ch := mkChannel (req ch) (resp ch) (u32 (next_seq ch + 1)) in
  if s =? 0 then (next_seq ch, mkChannel (req ch) (resp ch) (u32 (next_seq ch + 1))) else (s, ch).

Section channel.
Context {E : Type} (tr : ChannelTransport E).

Definition notified (w : World E) : World E := match notify tr with Some f => f w | None => w end.

(** ** Requester *)

Definition channel_request_post (w : World E) (msg : Z) : World E * bool :=
  if msg =? 0 then (w, false) else
  let '(m, r, ok) := spsc_ring_push (w_mem w) (req (w_ch w)) msg in
  let w := set_chan w m (mkChannel r (resp (w_ch w)) (next_seq (w_ch w))) in
  if ok then (notified w, true) else (w, false).

Definition channel_response_poll (w : World E) (out : Z) : World E * bool :=
  if out =? 0 then (w, false) else
  let '(m, r, ok) := spsc_ring_pop (w_mem w) (resp (w_ch w)) out in
  (set_chan w m (mkChannel (req (w_ch w)) r (next_seq (w_ch w))), ok).

Definition channel_requester_wait (w : World E) (timeout_ms : Z) : World E * bool :=
  match wait tr with Some f => f w timeout_ms | None => (w, false) end.

(** ** Provider *)

Definition channel_request_poll (w : World E) (out : Z) : World E * bool :=
  if out =? 0 then (w, false) else
  let '(m, r, ok) := spsc_ring_pop (w_mem w) (req (w_ch w)) out in
  (set_chan w m (mkChannel r (resp (w_ch w)) (next_seq (w_ch w))), ok).

Definition channel_response_post (w : World E) (msg : Z) : World E * bool :=
  if msg =? 0 then (w, false) else
  let '(m, r, ok) := spsc_ring_push (w_mem w) (resp (w_ch w)) msg in
  let w := set_chan w m (mkChannel (req (w_ch w)) r (next_seq (w_ch w))) in
  if ok then (notified w, true) else (w, false).

Definition channel_provider_wait (w : World E) (timeout_ms : Z) : World E * bool :=
  match wait tr with Some f => f w timeout_ms | None => (w, false) end.

(** ** A call *)

(** The stamp: a fresh sequence number and the flags of a synchronous call. *)
Definition stamp (w : World E) (msg : Z) : World E * Z :=
  let '(seq, ch) := service_channel_next_seq (w_ch w) in
  let m := store32 (w_mem w) (msg + 4) seq in
  let m := store16 m (msg + 2) (u16 (Z.lor (msg_flags m msg) CHANNEL_FLAG_EXPECTS_RESPONSE)) in
  let m := store16 m (msg + 2) (u16 (Z.land (msg_flags m msg) (Z.lnot CHANNEL_FLAG_ASYNC))) in
  (set_chan w m ch, seq).

Context (between : World E -> World E).

(** [while (!channel_request_post(ch, msg))]; [None] when the fuel is short. *)
Fixpoint post_loop (fuel : nat) (w : World E) (msg timeout_ms : Z) : option (World E * bool) :=
  match fuel with
  | O => None
  | S fuel =>
    let '(w, ok) := channel_request_post (between w) msg in
    if ok then Some (w, true) else
    match wait tr with
    | None => Some (w, false)
    | Some f =>
      let '(w, woken) := f w timeout_ms in
      if woken then post_loop fuel w msg timeout_ms else Some (w, false)
    end
  end.

(** [stray(stray_user, &r)]: the callback gets the message. *)
Definition give_stray (stray : bool) (w : World E) (r : Z) : World E :=
  if stray then mkWorld (w_mem w) (w_ch w) (w_strays w ++ [mem_read (w_mem w) r ChannelMsg_size]) (w_env w) else w.

(** The loop that waits for the response to [seq]; [r] is the local variable. *)
Fixpoint response_loop (fuel : nat) (w : World E) (msg seq r timeout_ms : Z) (stray : bool) : option (World E * bool) :=
  match fuel with
  | O => None
  | S fuel =>
    let '(w, got) := channel_response_poll (between w) r in
    if got then
      if msg_seq (w_mem w) r =? seq then Some (set_mem w (memcpy (w_mem w) msg r ChannelMsg_size), true)
      else response_loop fuel (give_stray stray w r) msg seq r timeout_ms stray
    else
      match wait tr with
      | None => Some (w, false)
      | Some f =>
        let '(w, woken) := f w timeout_ms in
        if woken then response_loop fuel w msg seq r timeout_ms stray else Some (w, false)
      end
  end.

Definition channel_request_call (fuel : nat) (w : World E) (msg r timeout_ms : Z) (stray : bool) : option (World E * bool) :=
  if msg =? 0 then Some (w, false) else
  let '(w, seq) := stamp w msg in
  '(w, posted) ← post_loop fuel w msg timeout_ms;
  if posted : bool then response_loop fuel w msg seq r timeout_ms stray else Some (w, false).
End channel.
