(* ===== verification/ChannelCall.v ===== *)
(** Calls over the service channel: whatever the provider does, a call hands over
    the response to its own request, and its stray callback gets all the others. *)
From S2P Require Import Prelude HostMem SpscRing SpscQueue ServiceChannel.

(** The sequence number and the flags of a message given by its bytes. *)
Definition seq_of (v : list Z) : Z := le_val (take 4 (drop 4 v)).
Definition flags_of (v : list Z) : Z := le_val (take 2 (drop 2 v)).

Lemma seq_of_read m p : seq_of (mem_read m p ChannelMsg_size) = msg_seq m p.
Proof.
  unfold seq_of, msg_seq, load32. change ChannelMsg_size with (4 + (4 + 24)). rewrite !mem_read_app by lia.
  rewrite drop_app_length' by (by rewrite mem_read_length). by rewrite take_app_length' by (by rewrite mem_read_length).
Qed.

Lemma flags_of_read m p : flags_of (mem_read m p ChannelMsg_size) = msg_flags m p.
Proof.
  unfold flags_of, msg_flags, load16. change ChannelMsg_size with (2 + (2 + 28)). rewrite !mem_read_app by lia.
  rewrite drop_app_length' by (by rewrite mem_read_length). by rewrite take_app_length' by (by rewrite mem_read_length).
Qed.

(** Where the storage of the two rings lies. *)
Record layout := mkLayout { a_req : Z; a_resp : Z; n_ring : Z }.

Definition off_rings (l : layout) (a n : Z) : Prop := rdisj a n (a_req l) (n_ring l) /\ rdisj a n (a_resp l) (n_ring l).

(** The channel in memory, with the requests [qs] and the responses [rs]. *)
Record chan_rep {E} (l : layout) (w : World E) (qs rs : list (list Z)) : Prop := {
  cr_req : ring_rep (req (w_ch w)) (w_mem w) qs;
  cr_resp : ring_rep (resp (w_ch w)) (w_mem w) rs;
  cr_sizes : sr_element_size (req (w_ch w)) = ChannelMsg_size /\ sr_element_size (resp (w_ch w)) = ChannelMsg_size;
  cr_areas : sr_storage (req (w_ch w)) = a_req l /\ sr_storage (resp (w_ch w)) = a_resp l /\
             ring_bytes (req (w_ch w)) = n_ring l /\ ring_bytes (resp (w_ch w)) = n_ring l;
  cr_apart : rdisj (a_req l) (n_ring l) (a_resp l) (n_ring l);
  cr_seq : is_u32 (next_seq (w_ch w))
}.

(** ** What the provider may do *)

Section calls.
Context {E : Type} (tr : ChannelTransport E) (between : World E -> World E).
Context (l : layout) (own : Z -> Prop).

(** The provider polls, posts, writes its own memory [own] and changes the rest of
    the world; [given] are the responses it posts. *)
Inductive peers : World E -> list (list Z) -> World E -> Prop :=
  | peers_done w : peers w [] w
  | peers_env w e given w' : peers (mkWorld (w_mem w) (w_ch w) (w_strays w) e) given w' -> peers w given w'
  | peers_write w m given w' : mem_agree (fun x => ~ own x) (w_mem w) m -> peers (set_mem w m) given w' -> peers w given w'
  | peers_poll w out given w' : (forall x, rng out ChannelMsg_size x -> own x) ->
      peers (channel_request_poll w out).1 given w' -> peers w given w'
  | peers_post w p w1 ok given w' : channel_response_post tr w p = (w1, ok) -> peers w1 given w' ->
      peers w ((if ok : bool then [mem_read (w_mem w) p ChannelMsg_size] else []) ++ given) w'.

(** The memory of the requester: neither the provider's nor the rings'. *)
Definition private (a n : Z) : Prop := (forall x, rng a n x -> ~ own x) /\ off_rings l a n.

(** The world moves on: [taken] requests are gone, [given] responses are new, and
    the requester's memory and the callback's messages are as they were. *)
Record moves (w w' : World E) (qs rs given : list (list Z)) : Prop := {
  mv_rep : exists k, chan_rep l w' (drop k qs) (rs ++ given);
  mv_mem : forall a n, private a n -> mem_read (w_mem w') a n = mem_read (w_mem w) a n;
  mv_strays : w_strays w' = w_strays w;
  mv_seq : next_seq (w_ch w') = next_seq (w_ch w)
}.

(** A transport whose signal reaches only the rest of the world, a provider that
    acts as above, and a bound [patience] on what it will still post and on how
    often a wait will still be woken. *)
Record well_behaved (patience : E -> nat) : Prop := {
  wb_own : forall x, own x -> ~ rng (a_req l) (n_ring l) x /\ ~ rng (a_resp l) (n_ring l) x;
  wb_notify : forall f w, notify tr = Some f -> exists e, f w = mkWorld (w_mem w) (w_ch w) (w_strays w) e /\ (patience e <= patience (w_env w))%nat;
  wb_between : forall w, exists given, peers w given (between w) /\ (patience (w_env (between w)) + length given <= patience (w_env w))%nat;
  wb_wait : forall f w t, wait tr = Some f -> exists given, peers w given (f w t).1 /\
    ((f w t).2 = true -> patience (w_env (f w t).1) + length given < patience (w_env w))%nat
}.

Context (patience : E -> nat) (Hwb : well_behaved patience).

Lemma moves_refl (w : World E) qs rs : chan_rep l w qs rs -> moves w w qs rs [].
Proof. intros H. split; [exists 0%nat; by rewrite drop_0, app_nil_r|done..]. Qed.

Lemma chan_rep_mem (w : World E) m qs rs : chan_rep l w qs rs -> mem_agree (rng (a_req l) (n_ring l)) (w_mem w) m ->
  mem_agree (rng (a_resp l) (n_ring l)) (w_mem w) m -> chan_rep l (set_mem w m) qs rs.
Proof.
  intros [H1 H2 Hs (A1 & A2 & B1 & B2) Hd Hq] M1 M2. split; try done.
  - cbn. eapply ring_agree; [exact H1|]. by rewrite A1, B1.
  - cbn. eapply ring_agree; [exact H2|]. by rewrite A2, B2.
Qed.

Lemma rep_env (w : World E) (e : E) s qs rs : chan_rep l w qs rs -> chan_rep l (mkWorld (w_mem w) (w_ch w) s e) qs rs.
Proof. by intros []. Qed.

Lemma notified_world w : exists e, notified tr w = mkWorld (w_mem w) (w_ch w) (w_strays w) e /\ (patience e <= patience (w_env w))%nat.
Proof.
  unfold notified. destruct (notify tr) as [f|] eqn:En; [by eapply wb_notify|]. exists (w_env w). by destruct w.
Qed.

(** ** The four operations *)

Lemma rep_rings (w : World E) m r1 r2 qs rs qs' rs' : chan_rep l w qs rs -> same_ring (req (w_ch w)) r1 -> same_ring (resp (w_ch w)) r2 ->
  ring_rep r1 m qs' -> ring_rep r2 m rs' -> chan_rep l (set_chan w m (mkChannel r1 r2 (next_seq (w_ch w)))) qs' rs'.
Proof.
  intros [_ _ (S1 & S2) (A1 & A2 & B1 & B2) Hd Hq] (E1 & E2 & E3 & E4) (F1 & F2 & F3 & F4) H1 H2.
  unfold ring_bytes in *. split; cbn; unfold ring_bytes; rewrite ?E1, ?E2, ?E4, ?F1, ?F2, ?F4; done.
Qed.

Lemma request_post_spec w msg qs rs : chan_rep l w qs rs -> msg <> 0 ->
  exists w' ok, channel_request_post tr w msg = (w', ok) /\
    chan_rep l w' (if ok then qs ++ [mem_read (w_mem w) msg ChannelMsg_size] else qs) rs /\
    (forall a n, off_rings l a n -> mem_read (w_mem w') a n = mem_read (w_mem w) a n) /\
    w_strays w' = w_strays w /\ next_seq (w_ch w') = next_seq (w_ch w) /\ (patience (w_env w') <= patience (w_env w))%nat.
Proof.
  intros Hw Hmsg. pose proof Hw as [H1 H2 (S1 & S2) (A1 & A2 & B1 & B2) Hd Hq].
  destruct (spsc_push_rep _ _ _ msg H1 Hmsg) as (m & r & ok & Hpush & Hsame & _ & Hr & Hf). rewrite S1, A1, B1 in *.
  unfold channel_request_post. rewrite (proj2 (Z.eqb_neq msg 0)) by done. rewrite Hpush.
  set (w1 := set_chan _ _ _). assert (chan_rep l w1 (if ok then qs ++ [mem_read (w_mem w) msg ChannelMsg_size] else qs) rs) as Hw1.
  { eapply rep_rings; [done|done|done|done|]. eapply ring_frame; [exact H2|exact Hf|]. rewrite A2, B2. unfold rdisj in *. lia. }
  assert (forall a n, off_rings l a n -> mem_read m a n = mem_read (w_mem w) a n) as Hm.
  { intros a n [Ha _]. eapply mem_read_frame; [exact Hf|]. unfold rdisj in *. lia. }
  destruct ok; [|by exists w1, false]. destruct (notified_world w1) as (e & -> & He). eexists _, true. split_and!; try done. by apply rep_env.
Qed.

Lemma response_poll_spec (w : World E) out qs rs : chan_rep l w qs rs -> out <> 0 -> off_rings l out ChannelMsg_size ->
  exists w', channel_response_poll w out = (w', match rs with [] => false | _ => true end) /\
    chan_rep l w' qs (tail rs) /\ mem_frame out ChannelMsg_size (w_mem w) (w_mem w') /\
    match rs with [] => True | v :: _ => mem_read (w_mem w') out ChannelMsg_size = v end /\
    w_strays w' = w_strays w /\ next_seq (w_ch w') = next_seq (w_ch w) /\ w_env w' = w_env w.
Proof.
  intros Hw Hout [Ho1 Ho2]. pose proof Hw as [H1 H2 (S1 & S2) (A1 & A2 & B1 & B2) Hd Hq].
  destruct (spsc_pop_rep _ _ _ out H2 Hout) as (m & r & Hpop & Hsame & Hr & Hm); [by rewrite A2, B2, S2|]. rewrite S2 in *.
  unfold channel_response_poll. rewrite (proj2 (Z.eqb_neq out 0)) by done. rewrite Hpop.
  assert (mem_frame out ChannelMsg_size (w_mem w) m) as Hf by (destruct rs; [by subst m|apply Hm]).
  eexists. split; [done|]. split_and!; [|done|by destruct rs; [|apply Hm]|done..].
  eapply rep_rings; [done|done|done| |done]. eapply ring_frame; [exact H1|exact Hf|]. by rewrite A1, B1.
Qed.

Lemma request_poll_spec (w : World E) out qs rs : chan_rep l w qs rs -> off_rings l out ChannelMsg_size ->
  exists w' ok k, channel_request_poll w out = (w', ok) /\
    chan_rep l w' (drop k qs) rs /\ mem_frame out ChannelMsg_size (w_mem w) (w_mem w') /\
    w_strays w' = w_strays w /\ next_seq (w_ch w') = next_seq (w_ch w).
Proof.
  intros Hw [Ho1 Ho2]. pose proof Hw as [H1 H2 (S1 & S2) (A1 & A2 & B1 & B2) Hd Hq]. unfold channel_request_poll.
  destruct (Z.eqb_spec out 0) as [->|Hout]; [by exists w, false, 0%nat|].
  destruct (spsc_pop_rep _ _ _ out H1 Hout) as (m & r & Hpop & Hsame & Hr & Hm); [by rewrite A1, B1, S1|]. rewrite S1 in *. rewrite Hpop.
  assert (mem_frame out ChannelMsg_size (w_mem w) m) as Hf by (destruct qs; [by subst m|apply Hm]).
  eexists _, _, (match qs with [] => 0%nat | _ => 1%nat end). split; [done|]. split_and!; [|done..].
  eapply rep_rings; [done|done|done|by destruct qs|]. eapply ring_frame; [exact H2|exact Hf|]. by rewrite A2, B2.
Qed.

Lemma response_post_spec w p w1 ok qs rs : chan_rep l w qs rs -> channel_response_post tr w p = (w1, ok) ->
  chan_rep l w1 qs (rs ++ if ok then [mem_read (w_mem w) p ChannelMsg_size] else []) /\
  (forall a n, off_rings l a n -> mem_read (w_mem w1) a n = mem_read (w_mem w) a n) /\
  w_strays w1 = w_strays w /\ next_seq (w_ch w1) = next_seq (w_ch w).
Proof.
  intros Hw Hp. pose proof Hw as [H1 H2 (S1 & S2) (A1 & A2 & B1 & B2) Hd Hq]. unfold channel_response_post in Hp.
  destruct (Z.eqb_spec p 0) as [->|Hp0]; [injection Hp as <- <-; by rewrite app_nil_r|].
  destruct (spsc_push_rep _ _ _ p H2 Hp0) as (m & r & ok' & Hpush & Hsame & _ & Hr & Hf). rewrite S2, A2, B2 in *. rewrite Hpush in Hp.
  assert (forall a n, off_rings l a n -> mem_read m a n = mem_read (w_mem w) a n) as Hm.
  { intros a n [_ Ha]. eapply mem_read_frame; [exact Hf|]. unfold rdisj in *. lia. }
  set (w2 := set_chan _ _ _) in Hp. assert (chan_rep l w2 qs (if ok' then rs ++ [mem_read (w_mem w) p ChannelMsg_size] else rs)) as Hw2.
  { eapply rep_rings; [done|done|done| |done]. eapply ring_frame; [exact H1|exact Hf|]. rewrite A1, B1. unfold rdisj in *. lia. }
  destruct ok'; injection Hp as <- <-; [|by rewrite app_nil_r].
  destruct (notified_world w2) as (e & -> & _). split_and!; [by apply rep_env|done..].
Qed.

(** ** What the provider does *)

Lemma own_off_rings (w : World E) qs rs a n : chan_rep l w qs rs -> 0 < n -> (forall x, rng a n x -> own x) -> off_rings l a n.
Proof.
  intros [H1 _ _ (_ & _ & B1 & _) _ _] Hn Ho. pose proof (wb_own _ Hwb) as Hw. pose proof (ring_cap _ _ _ H1).
  assert (0 < n_ring l) by (rewrite <-B1; unfold ring_bytes; pose proof (rr_size _ _ _ H1); nia).
  split; unfold rdisj.
  - destruct (Z_le_gt_dec (a + n) (a_req l)), (Z_le_gt_dec (a_req l + n_ring l) a); try lia. exfalso.
    destruct (Hw (Z.max a (a_req l))) as [Hr _]; [apply Ho; unfold rng; lia|]. apply Hr. unfold rng. lia.
  - destruct (Z_le_gt_dec (a + n) (a_resp l)), (Z_le_gt_dec (a_resp l + n_ring l) a); try lia. exfalso.
    destruct (Hw (Z.max a (a_resp l))) as [_ Hr]; [apply Ho; unfold rng; lia|]. apply Hr. unfold rng. lia.
Qed.

Lemma moves_step (w w1 w2 : World E) qs rs given given' k : chan_rep l w1 (drop k qs) (rs ++ given) ->
  (forall a n, private a n -> mem_read (w_mem w1) a n = mem_read (w_mem w) a n) ->
  w_strays w1 = w_strays w -> next_seq (w_ch w1) = next_seq (w_ch w) ->
  moves w1 w2 (drop k qs) (rs ++ given) given' -> moves w w2 qs rs (given ++ given').
Proof.
  intros _ Hm Hs Hq [[k' Hr] Hm' Hs' Hq']. split; [|intros a n Ha; by rewrite Hm', Hm|congruence|congruence].
  exists (k + k')%nat. by rewrite drop_drop, <-app_assoc in Hr.
Qed.

Lemma peers_moves w given w' qs rs : peers w given w' -> chan_rep l w qs rs -> moves w w' qs rs given.
Proof.
  intros Hp. revert qs rs. induction Hp as [w|w e given w' _ IH|w m given w' Ha _ IH|w out given w' Ho _ IH|w p w1 ok given w' Hpost _ IH];
    intros qs rs Hw.
  - by apply moves_refl.
  - eapply (moves_step _ _ _ _ _ [] _ 0); [..|apply IH]; rewrite ?drop_0, ?app_nil_r; try done; by apply rep_env.
  - assert (chan_rep l (set_mem w m) qs rs) as Hw1.
    { apply chan_rep_mem; [done|..]; intros x Hx; apply Ha; intros Hox; by apply (wb_own _ Hwb) in Hox as []. }
    eapply (moves_step _ _ _ _ _ [] _ 0); [..|apply IH]; rewrite ?drop_0, ?app_nil_r; try done.
    intros a n [Hpr _]. symmetry. apply mem_read_agree. intros x Hx. apply Ha. by apply Hpr.
  - destruct (request_poll_spec w out qs rs Hw) as (w1 & ok & k & E1 & Hw1 & Hf & Hs & Hq).
    { by eapply own_off_rings. }
    rewrite E1 in *. eapply (moves_step _ _ _ _ _ [] _ k); [..|apply IH]; rewrite ?app_nil_r; try done.
    intros a n [Hpr _]. symmetry. apply mem_read_agree. intros x Hx. apply Hf. intros Hox. by apply (Hpr x), Ho.
  - destruct (response_post_spec w p w1 ok qs rs Hw Hpost) as (Hw1 & Hm & Hs & Hq).
    eapply (moves_step _ _ _ _ _ _ _ 0); [..|apply IH]; rewrite ?drop_0; try done.
    intros a n [_ Hpr]. by apply Hm.
Qed.

(** ** The two loops *)

Lemma between_moves w qs rs : chan_rep l w qs rs ->
  exists given, moves w (between w) qs rs given /\ (patience (w_env (between w)) + length given <= patience (w_env w))%nat.
Proof. intros Hw. destruct (wb_between _ Hwb w) as (given & Hp & Hn). exists given. split; [by apply peers_moves|done]. Qed.

Lemma wait_moves f w t qs rs : wait tr = Some f -> chan_rep l w qs rs ->
  exists given, moves w (f w t).1 qs rs given /\
    ((f w t).2 = true -> patience (w_env (f w t).1) + length given < patience (w_env w))%nat.
Proof. intros Hf Hw. destruct (wb_wait _ Hwb f w t Hf) as (given & Hp & Hn). exists given. split; [by apply peers_moves|done]. Qed.

Lemma post_loop_spec fuel msg t : forall w qs rs, chan_rep l w qs rs -> msg <> 0 -> private msg ChannelMsg_size ->
  (patience (w_env w) < fuel)%nat ->
  exists w' ok given k, post_loop tr between fuel w msg t = Some (w', ok) /\
    chan_rep l w' (drop k qs ++ if ok : bool then [mem_read (w_mem w) msg ChannelMsg_size] else []) (rs ++ given) /\
    (forall a n, private a n -> mem_read (w_mem w') a n = mem_read (w_mem w) a n) /\
    w_strays w' = w_strays w /\ next_seq (w_ch w') = next_seq (w_ch w) /\
    (ok = true -> patience (w_env w') + length given <= patience (w_env w))%nat.
Proof.
  induction fuel as [|fuel IH]; intros w qs rs Hw Hmsg Hpm Hf; [lia|]. cbn [post_loop].
  destruct (between_moves w qs rs Hw) as (g1 & [[k1 Hw1] Hm1 Hs1 Hq1] & Hn1). set (wb := between w) in *.
  destruct (request_post_spec wb msg _ _ Hw1 Hmsg) as (w2 & ok & -> & Hw2 & Hm2 & Hs2 & Hq2 & Hn2). rewrite Hm1 in Hw2 by done.
  assert (forall a n, private a n -> mem_read (w_mem w2) a n = mem_read (w_mem w) a n) as Hm12.
  { intros a n Ha. rewrite Hm2 by apply Ha. by apply Hm1. }
  destruct ok; [exists w2, true, g1, k1; split_and!; try done; [congruence|congruence|lia]|].
  destruct (wait tr) as [f|] eqn:Ew; cycle 1.
  { exists w2, false, g1, k1. rewrite app_nil_r. split_and!; done || congruence. }
  destruct (wait_moves f w2 t _ _ Ew Hw2) as (g2 & [[k2 Hw3] Hm3 Hs3 Hq3] & Hn3).
  destruct (f w2 t) as [w3 woken] eqn:Ef. cbn [fst snd] in *. rewrite drop_drop, <-app_assoc in Hw3.
  assert (forall a n, private a n -> mem_read (w_mem w3) a n = mem_read (w_mem w) a n) as Hm13.
  { intros a n Ha. rewrite Hm3 by done. by apply Hm12. }
  destruct woken; cycle 1.
  { exists w3, false, (g1 ++ g2), (k1 + k2)%nat. rewrite app_nil_r. split_and!; done || congruence. }
  specialize (Hn3 eq_refl). destruct (IH w3 _ _ Hw3 Hmsg Hpm ltac:(lia)) as (w' & ok & g3 & k3 & Hr & Hw' & Hm' & Hs' & Hq' & Hn').
  exists w', ok, (g1 ++ g2 ++ g3), (k1 + k2 + k3)%nat. rewrite drop_drop, (Hm13 _ _ Hpm), <-!app_assoc in Hw'.
  split_and!; [done|done| |congruence|congruence|].
  - intros a n Ha. rewrite Hm' by done. by apply Hm13.
  - intros Hok. specialize (Hn' Hok). rewrite !length_app. lia.
Qed.

(** What a call hands over of the responses [popped] it took from the ring. *)
Definition handed (seq : Z) (stray : bool) (msg : Z) (w w' : World E) (ok : bool) (popped : list (list Z)) : Prop :=
  exists before, Forall (fun v => seq_of v <> seq) before /\
    w_strays w' = w_strays w ++ (if stray then before else []) /\
    if ok then exists reply, popped = before ++ [reply] /\ seq_of reply = seq /\ mem_read (w_mem w') msg ChannelMsg_size = reply
    else popped = before.

Lemma handed_more seq (stray : bool) msg (w w1 w' : World E) ok (v : list Z) popped : seq_of v <> seq ->
  w_strays w1 = w_strays w ++ (if stray then [v] else []) -> handed seq stray msg w1 w' ok popped -> handed seq stray msg w w' ok (v :: popped).
Proof.
  intros Hv Hs (before & Hb & Hs' & Hr). exists (v :: before). split_and!; [by constructor| |].
  - rewrite Hs', Hs, <-app_assoc. by destruct stray.
  - destruct ok; [|by f_equal]. destruct Hr as (reply & -> & ? & ?). by exists reply.
Qed.

Lemma response_loop_spec fuel msg r seq t stray : r <> 0 -> private r ChannelMsg_size -> private msg ChannelMsg_size ->
  forall w qs rs, chan_rep l w qs rs -> (patience (w_env w) + length rs < fuel)%nat ->
  exists w' (ok : bool) popped given k rs', response_loop tr between fuel w msg seq r t stray = Some (w', ok) /\
    chan_rep l w' (drop k qs) rs' /\ rs ++ given = popped ++ rs' /\ handed seq stray msg w w' ok popped /\
    next_seq (w_ch w') = next_seq (w_ch w).
Proof.
  intros Hr Hpr Hpm. induction fuel as [|fuel IH]; intros w qs rs Hw Hf; [lia|]. cbn [response_loop].
  destruct (between_moves w qs rs Hw) as (g1 & [[k1 Hw1] _ Hs1 Hq1] & Hn1). set (wb := between w) in *.
  destruct (response_poll_spec wb r _ _ Hw1 Hr) as (w2 & -> & Hw2 & Hf2 & Hv & Hs2 & Hq2 & He2); [apply Hpr|].
  destruct (rs ++ g1) as [|v rest] eqn:Ers.
  - destruct (wait tr) as [f|] eqn:Ew; cycle 1.
    { exists w2, false, [], g1, k1, []. split_and!; [done|done|done| |congruence]. exists []. split_and!; [done| |done]. rewrite Hs2, Hs1. destruct stray; by rewrite app_nil_r. }
    destruct (wait_moves f w2 t _ _ Ew Hw2) as (g2 & [[k2 Hw3] _ Hs3 Hq3] & Hn3).
    destruct (f w2 t) as [w3 woken] eqn:Ef. cbn [fst snd tail app] in *. rewrite drop_drop in Hw3.
    destruct woken; cycle 1.
    { exists w3, false, [], (g1 ++ g2), (k1 + k2)%nat, g2. rewrite app_assoc, Ers. split_and!; [done|done|done| |congruence].
      exists []. split_and!; [done| |done]. rewrite Hs3, Hs2, Hs1. destruct stray; by rewrite app_nil_r. }
    specialize (Hn3 eq_refl). apply (f_equal length) in Ers as Hl. rewrite length_app in Hl. cbn in Hl.
    destruct (IH w3 _ _ Hw3 ltac:(rewrite He2 in Hn3; lia)) as (w' & ok & popped & g3 & k3 & rs' & E1 & Hw' & Hp & Hh & Hq').
    exists w', ok, popped, (g1 ++ g2 ++ g3), (k1 + k2 + k3)%nat, rs'. rewrite drop_drop in Hw'.
    rewrite app_assoc, Ers. split_and!; [done|done|done| |congruence].
    destruct Hh as (before & Hb & Hs' & Hrep). exists before. split_and!; [done| |done]. rewrite Hs'. congruence.
  - cbn [tail] in Hw2. rewrite <-seq_of_read, Hv. destruct (Z.eqb_spec (seq_of v) seq) as [Hseq|Hseq].
    + eexists _, true, [v], g1, k1, rest. split; [done|]. split; [|split; [done|split; [|cbn; congruence]]].
      * apply chan_rep_mem; [done|..]; intros x Hx; unfold set_mem; cbn;
          (symmetry; apply mem_write_out; rewrite mem_read_length; destruct Hpm as [_ [? ?]]; unfold rng, rdisj in *; lia).
      * exists []. split; [done|]. split; [cbn; rewrite Hs2, Hs1; destruct stray; by rewrite app_nil_r|].
        exists v. split_and!; [done|done|]. cbn. rewrite memcpy_read by done. done.
    + apply (f_equal length) in Ers as Hl. rewrite length_app in Hl. cbn in Hl.
      set (w3 := give_stray stray w2 r).
      assert (chan_rep l w3 (drop k1 qs) rest) as Hw3 by (unfold w3, give_stray; destruct stray; [by apply rep_env|done]).
      destruct (IH w3 _ _ Hw3) as (w' & ok & popped & g3 & k3 & rs' & E1 & Hw' & Hp & Hh & Hq').
      { unfold w3, give_stray. destruct stray; cbn; rewrite He2; lia. }
      exists w', ok, (v :: popped), (g1 ++ g3), (k1 + k3)%nat, rs'. rewrite drop_drop in Hw'.
      rewrite app_assoc, Ers. cbn [app]. rewrite Hp. split_and!; [done|done|done| |].
      * eapply handed_more; [done| |exact Hh]. unfold w3, give_stray. destruct stray; cbn; rewrite ?Hv, Hs2, Hs1; by rewrite ?app_nil_r.
      * rewrite Hq'. unfold w3, give_stray. destruct stray; cbn; congruence.
Qed.

Lemma drop_app_min {A} k (x y : list A) : drop (k `min` length x) (x ++ y) = drop k x ++ y.
Proof.
  destruct (Nat.le_ge_cases k (length x)).
  - rewrite Nat.min_l by done. by apply drop_app_le.
  - rewrite Nat.min_r, drop_app_length, drop_ge by done. done.
Qed.

(** ** The stamp *)

Lemma next_seq_fresh ch : is_u32 (next_seq ch) -> 0 < (service_channel_next_seq ch).1 < 2 ^ 32 /\
  is_u32 (next_seq (service_channel_next_seq ch).2) /\
  req (service_channel_next_seq ch).2 = req ch /\ resp (service_channel_next_seq ch).2 = resp ch.
Proof.
  intros H. unfold service_channel_next_seq. destruct (Z.eqb_spec (next_seq ch) 0) as [->|Hz]; cbn.
  - split; [by vm_compute|]. split; [apply is_u32_range|done].
  - split; [umach; lia|]. split; [apply is_u32_range|done].
Qed.

(** The numbers the calls of a channel carry, from call 0 on: 1, 2, ..., 2^32 - 1,
    and again from 1. *)
Definition seq_number (i : Z) : Z := 1 + i mod (2 ^ 32 - 1).

(** The channel has numbered the calls before [i]: the counter is at the number of
    [i], or at the 0 that is skipped. *)
Definition numbered (ch : ServiceChannel) (i : Z) : Prop :=
  (if next_seq ch =? 0 then 1 else next_seq ch) = seq_number i.

Lemma seq_number_range i : 0 < seq_number i < 2 ^ 32.
Proof. unfold seq_number. pose proof (Z.mod_pos_bound i (2 ^ 32 - 1)). lia. Qed.

Lemma seq_number_fresh i j : i - (2 ^ 32 - 1) < j < i + (2 ^ 32 - 1) -> j <> i -> seq_number j <> seq_number i.
Proof.
  unfold seq_number. set (n := 2 ^ 32 - 1). assert (0 < n) by (vm_compute; done). clearbody n. intros Hj Hne Heq.
  pose proof (Z.div_mod i n ltac:(lia)). pose proof (Z.div_mod j n ltac:(lia)).
  destruct (Z.lt_trichotomy (j / n) (i / n)) as [Hq|[Hq|Hq]]; [nia|rewrite Hq in *; lia|nia].
Qed.

Lemma numbered_init rq rs : numbered (mkChannel rq rs 1) 0.
Proof. done. Qed.

Lemma stamp_numbered (w : World E) msg i : numbered (w_ch w) i -> (stamp w msg).2 = seq_number i /\ numbered (w_ch (stamp w msg).1) (i + 1).
Proof.
  unfold numbered, stamp, service_channel_next_seq. pose proof (seq_number_range i) as Hr. intros Hi.
  assert (u32 (seq_number i + 1) = 0 /\ seq_number (i + 1) = 1 \/ u32 (seq_number i + 1) = seq_number i + 1 /\ seq_number (i + 1) = seq_number i + 1) as Hs.
  { revert Hr. unfold seq_number, u32. change (2 ^ 32 - 1) with 4294967295. change 0x100000000 with 4294967296. intros Hr.
    pose proof (Z.div_mod i 4294967295 ltac:(lia)) as Hd. set (q := i / 4294967295) in *. set (x := i mod 4294967295) in *.
    destruct (decide (x + 1 = 4294967295)) as [Hx|Hx].
    - left. split; [by rewrite (Zplus_comm 1), Hx|]. rewrite <-(Z.mod_unique_pos (i + 1) 4294967295 (q + 1) 0); lia.
    - right. rewrite Z.mod_small by lia. rewrite <-(Z.mod_unique_pos (i + 1) 4294967295 q (x + 1)); lia. }
  destruct (Z.eqb_spec (next_seq (w_ch w)) 0) as [E0|E0]; cbn.
  - rewrite E0. change (u32 (0 + 1)) with 1. rewrite <-Hi in Hs. change (u32 (1 + 1)) with 2 in *. cbn. split; [done|]. lia.
  - rewrite Hi. split; [done|]. destruct Hs as [[-> ->]|[-> ->]]; [done|]. by rewrite (proj2 (Z.eqb_neq _ 0)) by lia.
Qed.

Lemma u16_bit z i : 0 <= i < 16 -> Z.testbit (u16 z) i = Z.testbit z i.
Proof. intros Hi. unfold u16. change 0x10000 with (2 ^ 16). apply Z.mod_pow2_bits_low. lia. Qed.

(** The message after the stamp. *)
Definition stamped (w : World E) (msg : Z) : list Z := mem_read (w_mem (stamp w msg).1) msg ChannelMsg_size.

Lemma stamp_spec w msg qs rs : chan_rep l w qs rs -> private msg ChannelMsg_size ->
  let '(w', seq) := stamp w msg in
  chan_rep l w' qs rs /\ 0 < seq < 2 ^ 32 /\ w_strays w' = w_strays w /\ w_env w' = w_env w /\
  mem_frame msg ChannelMsg_size (w_mem w) (w_mem w') /\ seq_of (stamped w msg) = seq /\
  Z.testbit (flags_of (stamped w msg)) 0 = true /\ Z.testbit (flags_of (stamped w msg)) 1 = false.
Proof.
  intros Hw [_ [Hp1 Hp2]]. unfold stamped. unfold stamp. destruct (service_channel_next_seq (w_ch w)) as [seq ch] eqn:Es.
  destruct (next_seq_fresh (w_ch w) (cr_seq _ _ _ _ Hw)) as (Hseq & Hq & Hreq & Hresp). rewrite Es in Hseq, Hq, Hreq, Hresp.
  cbn [fst snd] in *. set (m1 := store32 _ _ _). set (f1 := u16 (Z.lor _ _)). set (m2 := store16 m1 _ f1). set (f2 := u16 (Z.land _ _)).
  set (m3 := store16 m2 _ f2). cbn [w_mem set_chan].
  assert (mem_frame msg ChannelMsg_size (w_mem w) m3) as Hf.
  { etransitivity; [eapply mem_frame_mono; [| |apply (store32_frame _ (msg + 4) seq)]; unfold ChannelMsg_size; lia|].
    etransitivity; (eapply mem_frame_mono; [| |apply store16_frame]); unfold ChannelMsg_size; lia. }
  split_and!; [|lia|lia|done|done|done|..].
  - pose proof (chan_rep_mem w m3 qs rs Hw) as [R1 R2 R3 R4 R5 _].
    1,2: intros x Hx; apply Hf; unfold rng, rdisj in *; lia.
    split; cbn; rewrite ?Hreq, ?Hresp; try done.
  - rewrite seq_of_read. unfold msg_seq, m3, m2. rewrite !(load32_frame _ _ (msg + 2) 2) by (apply store16_frame || (unfold rdisj; lia)).
    unfold m1. rewrite load32_store32_eq. apply u32_small. umach. lia.
  - rewrite flags_of_read. unfold msg_flags at 1, m3. rewrite load16_store16_eq, u16_bit by lia. unfold f2. rewrite u16_bit, Z.land_spec by lia.
    unfold msg_flags, m2. rewrite load16_store16_eq, u16_bit by lia. unfold f1. rewrite u16_bit, Z.lor_spec by lia. by rewrite orb_true_r.
  - rewrite flags_of_read. unfold msg_flags at 1, m3. rewrite load16_store16_eq, u16_bit by lia. unfold f2. rewrite u16_bit, Z.land_spec by lia.
    by rewrite andb_false_r.
Qed.

(** C40. A call over the service channel gets the answer to its own request.
    Whatever the provider does meanwhile, and if it posts and wakes only finitely
    often, the call returns.  The [i]-th call since the channel was set up carries
    the number [seq_number i], which is not zero and differs from that of each of
    the 2^32 - 2 calls before it and after it, and leaves the channel ready to
    number call [i + 1].  The request asks for a response and is in the request ring
    once, behind the earlier requests, unless the post timed out.  The responses
    taken from the ring, in order, are first those to other requests - which all
    went to the stray callback in that order if the caller gave one, and are
    discarded if it gave none - and then, if the call succeeds, the one with its
    number, which it returns; those that are left are still in the ring. *)
Theorem channel_call_correct fuel w msg r t stray qs rs i :
  chan_rep l w qs rs -> msg <> 0 -> r <> 0 -> private msg ChannelMsg_size -> private r ChannelMsg_size ->
  (patience (w_env w) + length rs < fuel)%nat -> numbered (w_ch w) i ->
  let seq := seq_number i in
  exists w' ok given popped k sent rs', channel_request_call tr between fuel w msg r t stray = Some (w', ok) /\
    0 < seq < 2 ^ 32 /\ (forall j, i - (2 ^ 32 - 1) < j < i + (2 ^ 32 - 1) -> j <> i -> seq_number j <> seq) /\
    numbered (w_ch w') (i + 1) /\ seq_of (stamped w msg) = seq /\
    Z.testbit (flags_of (stamped w msg)) 0 = true /\ Z.testbit (flags_of (stamped w msg)) 1 = false /\
    chan_rep l w' (drop k (qs ++ sent)) rs' /\ (sent = [stamped w msg] \/ sent = [] /\ ok = false /\ popped = []) /\
    rs ++ given = popped ++ rs' /\ handed seq stray msg w w' ok popped.
Proof.
  intros Hw Hmsg Hr Hpm Hpr Hf Hi. pose proof (stamp_spec w msg qs rs Hw Hpm) as Hst. pose proof (stamp_numbered w msg i Hi) as [Hsi Hn'].
  pose proof (seq_number_range i) as Hsr. pose proof (seq_number_fresh i) as Hfr. cbn zeta. unfold channel_request_call.
  rewrite (proj2 (Z.eqb_neq msg 0)) by done. unfold stamped in *. destruct (stamp w msg) as [w1 seq]. cbn [fst snd] in *. subst seq.
  destruct Hst as (Hw1 & Hseq & Hs1 & He1 & _ & Hso & Hb0 & Hb1).
  destruct (post_loop_spec fuel msg t w1 qs rs Hw1 Hmsg Hpm) as (w2 & ok2 & g2 & k2 & -> & Hw2 & _ & Hs2 & Hq2 & Hn2); [rewrite He1; lia|].
  cbn [mbind option_bind]. destruct ok2; cycle 1.
  { exists w2, false, g2, [], k2, [], (rs ++ g2). rewrite app_nil_r in *. unfold numbered. rewrite Hq2. split_and!; try done; [lia|lia|by right|].
    exists []. split_and!; [done| |done]. destruct stray; rewrite app_nil_r; congruence. }
  specialize (Hn2 eq_refl). rewrite He1 in Hn2.
  destruct (response_loop_spec fuel msg r (seq_number i) t stray Hr Hpr Hpm w2 _ _ Hw2) as (w' & ok & popped & g & k & rs' & -> & Hw' & Hp & Hh & Hq');
    [rewrite length_app; lia|].
  rewrite <-(drop_app_min k2), drop_drop in Hw'.
  eexists w', ok, (g2 ++ g), popped, _, [mem_read (w_mem w1) msg ChannelMsg_size], rs'. unfold numbered. rewrite Hq', Hq2.
  split_and!; try done; [lia|lia|by left|by rewrite app_assoc|].
  destruct Hh as (before & Hb & Hs & Hrep). exists before. split_and!; [done|congruence|done].
Qed.
End calls.

(** ** A provider that works through a script *)

(** Each wait, the provider posts the next message of the script from its buffer at
    4000; when the script is at its end the wait times out. *)
Definition script_own (x : Z) : Prop := rng 4000 ChannelMsg_size x.

Definition script_quiet : ChannelTransport (list (list Z)) := mkTransport None None None.

Definition script_wait (w : World (list (list Z))) (_ : Z) : World (list (list Z)) * bool :=
  match w_env w with
  | [] => (w, false)
  | v :: rest =>
    ((channel_response_post script_quiet (mkWorld (mem_write (w_mem w) 4000 (take 32 v)) (w_ch w) (w_strays w) rest) 4000).1, true)
  end.

Definition script : ChannelTransport (list (list Z)) := mkTransport None (Some script_wait) None.

Definition script_layout : layout := mkLayout 1000 2000 128.

Lemma script_behaves : well_behaved script id script_layout script_own (fun e => 2 * length e)%nat.
Proof.
  split.
  - intros x. unfold script_own, rng. cbn. unfold ChannelMsg_size. lia.
  - done.
  - intros w. exists []. split; [apply peers_done|cbn; lia].
  - intros f w t [= <-]. unfold script_wait. destruct (w_env w) as [|v rest] eqn:Ee; [exists []; split; [apply peers_done|done]|].
    set (w1 := mkWorld _ _ _ _). destruct (channel_response_post script_quiet w1 4000) as [w2 ok] eqn:Ep. cbn [fst snd].
    exists ((if ok then [mem_read (w_mem w1) 4000 ChannelMsg_size] else []) ++ []). split.
    + apply (peers_env _ _ _ rest). apply (peers_write _ _ _ (mem_write (w_mem w) 4000 (take 32 v))).
      * intros x Hx. symmetry. apply mem_write_out. intros Hr. apply Hx. unfold script_own, rng, ChannelMsg_size in *. rewrite length_take in Hr. lia.
      * eapply peers_post; [exact Ep|apply peers_done].
    + intros _. assert (w_env w2 = rest) as ->.
      { unfold channel_response_post in Ep. change (4000 =? 0) with false in Ep. cbn iota in Ep.
        destruct (spsc_ring_push _ _ _) as [[m r] ok'].
        destruct ok'; injection Ep as <- _; done. }
      cbn [length]. destruct ok; cbn; lia.
Qed.

Definition demo_msg (seq : Z) : list Z := [0; 0; 0; 0; seq; 0; 0; 0] ++ repeat 0 24.

Definition demo_world (s : list (list Z)) : World (list (list Z)) :=
  mkWorld (fun _ => 0) (mkChannel (mkSpscRing 1000 4 3 32 0 0) (mkSpscRing 2000 4 3 32 0 0) 1) [] s.

Lemma demo_world_rep s : chan_rep script_layout (demo_world s) [] [].
Proof.
  destruct (ring_init_rep (fun _ => 0) 1000 4 32 (mkSpscRing 1000 4 3 32 0 0)) as (H1 & _); [done|lia|lia|].
  destruct (ring_init_rep (fun _ => 0) 2000 4 32 (mkSpscRing 2000 4 3 32 0 0)) as (H2 & _); [done|lia|lia|].
  split; cbn; [exact H1|exact H2|done|done|unfold rdisj; lia|umach; lia].
Qed.

Lemma channel_call_correct_witness : exists w' ok given popped,
  channel_request_call script id 100 (demo_world [demo_msg 7; demo_msg 1]) 3000 3100 50 true = Some (w', ok) /\
  handed 1 true 3000 (demo_world [demo_msg 7; demo_msg 1]) w' ok popped /\ exists rs', given = popped ++ rs'.
Proof.
  assert (forall a, 3000 <= a <= 3100 -> private script_layout script_own a ChannelMsg_size) as Hp.
  { intros a Ha. split; [intros x; unfold script_own, rng, ChannelMsg_size; lia|].
    unfold off_rings, rdisj, script_layout, ChannelMsg_size. cbn. lia. }
  destruct (channel_call_correct script id script_layout script_own _ script_behaves 100 (demo_world [demo_msg 7; demo_msg 1])
    3000 3100 50 true [] [] 0) as (w' & ok & given & popped & k & sent & rs' & H & _ & _ & _ & _ & _ & _ & _ & _ & Hg & Hh);
    [apply demo_world_rep|lia|lia|apply Hp; lia|apply Hp; lia|cbn; lia|done|].
  exists w', ok, given, popped. split; [exact H|]. split; [exact Hh|]. by exists rs'.
Defined.

(** The call succeeds, and the stray response is handed to the callback. *)
Example demo_call :
  match channel_request_call script id 100 (demo_world [demo_msg 7; demo_msg 1]) 3000 3100 50 true with
  | Some (w', ok) => ok = true /\ w_strays w' = [demo_msg 7] /\ msg_seq (w_mem w') 3000 = 1
  | None => False
  end.
Proof. by vm_compute. Qed.

(** Every wake-up starts the timeout anew: with a timeout of 50 and three wake-ups
    that bring nothing, the call gives up after waiting four times 50. *)
Example timeout_restarts :
  let tr := mkTransport None (Some (fun (w : World Z) t => (mkWorld (w_mem w) (w_ch w) (w_strays w) (w_env w + t), w_env w + t <? 200))) None in
  let w := mkWorld (fun _ => 0) (w_ch (demo_world [])) [] 0 in
  option_map (fun '(w', ok) => (w_env w', ok)) (channel_request_call tr id 100 w 3000 3100 50 true) = Some (200, false).
Proof. by vm_compute. Qed.
