(* ===== verification/CString.v ===== *)
(** NUL-terminated strings in host memory, and the functions of [<string.h>] that
    the parsers use on them.  A scan takes a bound on the bytes it reads and
    returns [None] when it meets no NUL within it; [cstring_at] gives the bound
    that suffices. *)
From S2P Require Import Prelude HostMem.

(** The bytes of the string at [s], without its NUL. *)
Fixpoint cstring (n : nat) (m : mem) (s : Z) : option (list Z) :=
  match n with
  | O => None
  | S n => if m s =? 0 then Some [] else t ← cstring n m (s + 1); Some (m s :: t)
  end.

Definition strlen (n : nat) (m : mem) (s : Z) : option Z :=
  t ← cstring n m s; Some (Z.of_nat (length t)).

(** The split of a list at its first [c]; [c] belongs to neither part. *)
Fixpoint split_at (c : Z) (t : list Z) : option (list Z * list Z) :=
  match t with
  | [] => None
  | x :: t => if x =? c then Some ([], t) else '(a, b) ← split_at c t; Some (x :: a, b)
  end.

(** [strchr] for a [c] that is not NUL; 0 is [NULL]. *)
Definition strchr (n : nat) (m : mem) (s c : Z) : option Z :=
  t ← cstring n m s;
  Some (match split_at c t with Some (a, _) => s + Z.of_nat (length a) | None => 0 end).

(** [strcmp(a, b) == 0]. *)
Definition streq (n : nat) (m : mem) (a b : Z) : option bool :=
  s ← cstring n m a; t ← cstring n m b; Some (bool_decide (s = t)).

(** ** Strings in memory *)

(** The string [t] lies at [s]. *)
Fixpoint string_at (m : mem) (s : Z) (t : list Z) : Prop :=
  match t with
  | [] => m s = 0
  | c :: t => m s = c /\ c <> 0 /\ string_at m (s + 1) t
  end.

(** The bytes of a string and its NUL. *)
Definition str_size (t : list Z) : Z := Z.of_nat (length t) + 1.

Lemma str_size_cons c t : str_size (c :: t) = str_size t + 1.
Proof. unfold str_size. cbn [length]. lia. Qed.

Lemma str_size_pos t : 1 <= str_size t.
Proof. unfold str_size. lia. Qed.

Lemma cstring_at n m s t : string_at m s t -> (length t < n)%nat -> cstring n m s = Some t.
Proof.
  revert s t. induction n as [|n IH]; intros s t Ht Hn; [lia|].
  destruct t as [|c t]; cbn in *.
  - by rewrite Ht.
  - destruct Ht as (Hc & Hz & Ht). rewrite Hc. rewrite (proj2 (Z.eqb_neq _ _)) by done.
    rewrite (IH (s + 1) t) by (done || lia). done.
Qed.

Lemma strlen_at n m s t : string_at m s t -> (length t < n)%nat -> strlen n m s = Some (Z.of_nat (length t)).
Proof. intros Ht Hn. unfold strlen. by rewrite (cstring_at n m s t). Qed.

Lemma streq_at n m a s b t : string_at m a s -> string_at m b t -> (length s < n)%nat -> (length t < n)%nat ->
  streq n m a b = Some (bool_decide (s = t)).
Proof. intros. unfold streq. by rewrite (cstring_at n m a s), (cstring_at n m b t). Qed.

Lemma string_at_agree m m' s t : string_at m s t -> mem_agree (rng s (str_size t)) m m' -> string_at m' s t.
Proof.
  revert s. induction t as [|c t IH]; intros s Ht Ha.
  - cbn in *. rewrite <-(Ha s); [done|]. unfold rng, str_size. cbn. lia.
  - cbn [string_at] in *. destruct Ht as (Hc & Hz & Ht). rewrite str_size_cons in Ha. pose proof (str_size_pos t).
    split_and!; [|done|].
    + rewrite <-(Ha s); [done|]. unfold rng. lia.
    + apply IH; [done|]. intros x Hx. apply Ha. unfold rng in *. lia.
Qed.

Lemma string_at_frame m m' a n s t : string_at m s t -> mem_frame a n m m' -> rdisj a n s (str_size t) -> string_at m' s t.
Proof.
  intros Ht Hf Hd. eapply string_at_agree; [done|]. intros x Hx. apply Hf. unfold rng, rdisj in *. lia.
Qed.

Lemma string_at_nonzero m s t : string_at m s t -> Forall (fun c => c <> 0) t.
Proof. revert s. induction t as [|c t IH]; intros s Ht; [done|]. destruct Ht as (_ & Hc & Ht). by constructor; [|eapply IH]. Qed.

(** The rest of a string is a string. *)
Lemma string_at_app m s a b : string_at m s (a ++ b) -> string_at m (s + Z.of_nat (length a)) b.
Proof.
  revert s. induction a as [|c a IH]; intros s Ht; cbn [app length] in *; [by rewrite Z.add_0_r|].
  destruct Ht as (_ & _ & Ht). apply IH in Ht. by replace (s + Z.of_nat (S (length a))) with (s + 1 + Z.of_nat (length a)) by lia.
Qed.

Lemma string_at_byte m s a c b : string_at m s (a ++ c :: b) -> m (s + Z.of_nat (length a)) = c.
Proof. intros Ht%string_at_app. apply Ht. Qed.

Lemma string_at_upto m m' s a b :
  string_at m s (a ++ b) -> mem_agree (rng s (Z.of_nat (length a))) m m' -> m' (s + Z.of_nat (length a)) = 0 -> string_at m' s a.
Proof.
  revert s. induction a as [|c a IH]; intros s Ht Ha Hz; cbn [app length string_at] in *; [by rewrite Z.add_0_r in Hz|].
  destruct Ht as (Hc & Hn & Ht). split_and!; [|done|].
  - rewrite <-(Ha s); [done|]. unfold rng. lia.
  - apply IH; [done| |by replace (s + 1 + _) with (s + Z.of_nat (S (length a))) by lia].
    intros x Hx. apply Ha. unfold rng in *. lia.
Qed.

(** Writing a NUL ends the string there. *)
Lemma string_at_cut m s a b : string_at m s (a ++ b) -> string_at (mem_write m (s + Z.of_nat (length a)) [0]) s a.
Proof.
  intros Ht. eapply string_at_upto; [done| |].
  - intros x Hx. symmetry. apply mem_write_out. unfold rng in *. cbn. lia.
  - rewrite mem_write_in by (unfold rng; cbn; lia). by rewrite Z.sub_diag.
Qed.

(** ** Splitting *)

Lemma split_at_app c a b : c ∉ a -> split_at c (a ++ c :: b) = Some (a, b).
Proof.
  induction a as [|x a IH]; intros Hn; cbn; [by rewrite Z.eqb_refl|].
  apply not_elem_of_cons in Hn as [Hx Hn]. rewrite (proj2 (Z.eqb_neq _ _)) by done. by rewrite IH.
Qed.

Lemma split_at_None c t : split_at c t = None <-> c ∉ t.
Proof.
  induction t as [|x t IH]; cbn; [split; [intros _; apply not_elem_of_nil|done]|].
  rewrite not_elem_of_cons. destruct (Z.eqb_spec x c) as [->|Hx]; [split; [done|by intros []]|].
  destruct (split_at c t) as [[a b]|]; cbn; [|naive_solver].
  split; [done|]. intros [_ H]. by apply IH in H.
Qed.

Lemma split_at_Some c t a b : split_at c t = Some (a, b) -> t = a ++ c :: b /\ c ∉ a.
Proof.
  revert a. induction t as [|x t IH]; intros a H; cbn in H; [done|].
  destruct (Z.eqb_spec x c) as [->|Hx]; [injection H as <- <-; split; [done|apply not_elem_of_nil]|].
  destruct (split_at c t) as [[a' b']|]; [|done]. cbn in H. injection H as <- <-.
  destruct (IH a') as [-> Hn]; [done|]. split; [done|]. by apply not_elem_of_cons.
Qed.

Lemma strchr_at n m s t c : string_at m s t -> (length t < n)%nat ->
  strchr n m s c = Some (match split_at c t with Some (a, _) => s + Z.of_nat (length a) | None => 0 end).
Proof. intros. unfold strchr. by rewrite (cstring_at n m s t). Qed.
