(* ===== verification/Inicfg.v ===== *)
(** The configuration parser ([src/util/inicfg.c]): the parser over a string in
    memory and the look-up functions.

    The parser works as the code does: it copies the text into an arena, writes
    NULs into the copy, and the strings of the entries are addresses in it.  The
    entry array, which nothing else points into, is a list.  [malloc] gives the
    address that is an argument, [realloc] succeeds as the predicate [realloc_ok]
    says of the bytes requested; what is freed is not tracked.  [fuel] bounds the
    lines and the bytes of a string.  [inicfg_parse_file], which reads a file into
    memory and calls the parser, is not modelled. *)
From Stdlib Require Import String.
From S2P Require Import Prelude HostMem CString.
#[local] Open Scope Z_scope.

Definition TAB : Z := 9.
Definition NL : Z := 10.
Definition CR : Z := 13.
Definition SPACE : Z := 32.
Definition HASH : Z := 35.
Definition SEMI : Z := 59.
Definition EQUALS : Z := 61.
Definition LBRACK : Z := 91.
Definition RBRACK : Z := 93.

Record IniCfgEntry := mkEntry { e_section : Z; e_key : Z; e_value : Z; e_line : Z }.
Record IniCfg := mkCfg { entries : list IniCfgEntry; count : Z; arena : Z; arena_len : Z }.
Record IniCfgError := mkErr { err_line : Z; err_msg : string }.

Definition IniCfgEntry_size : Z := 32.

(** The message is cut to the 127 bytes that fit. *)
Definition set_err (line : Z) (msg : string) : IniCfgError := mkErr line (substring 0 127 msg).

(** ** Helpers *)

Definition is_blank (c : Z) : bool := (c =? SPACE) || (c =? TAB).
Definition is_space (c : Z) : bool := is_blank c || (c =? CR) || (c =? NL).

(** [while ( *s == ' ' || *s == '\t') s++]. *)
Fixpoint skip_blanks (fuel : nat) (m : mem) (s : Z) : option Z :=
  match fuel with
  | O => None
  | S fuel => if is_blank (m s) then skip_blanks fuel m (s + 1) else Some s
  end.

(** [while (end > s && ...) end--], [n] being [end - s]. *)
Fixpoint drop_spaces (n : nat) (m : mem) (s : Z) : Z :=
  match n with
  | O => s
  | S n => if is_space (m (s + Z.of_nat n)) then drop_spaces n m s else s + Z.of_nat (S n)
  end.

Definition trim_inplace (fuel : nat) (m : mem) (s : Z) : option (mem * Z) :=
  s ← skip_blanks fuel m s;
  n ← strlen fuel m s;
  Some (mem_write m (drop_spaces (Z.to_nat n) m s) [0], s).

(** The capacity after doubling; [None] on overflow.  A capacity of at least 8
    that is doubled 64 times has overflowed, so that [n] is 64. *)
Fixpoint double_until (n : nat) (new_cap min_cap : Z) : option Z :=
  match n with
  | O => None
  | S n =>
    if new_cap <? min_cap then
      let d := u64 (new_cap * 2) in
      if d <=? new_cap then None else double_until n d min_cap
    else Some new_cap
  end.

Definition grow_entries (realloc_ok : Z -> bool) (cap min_cap : Z) : option Z :=
  match double_until 64 (if cap =? 0 then 8 else cap) min_cap with
  | None => None
  | Some new_cap => if realloc_ok (u64 (new_cap * IniCfgEntry_size)) then Some new_cap else None
  end.

Definition lower (c : Z) : Z := if (65 <=? c) && (c <=? 90) then c - 65 + 97 else c.

Fixpoint strieq_ascii (fuel : nat) (m : mem) (a b : Z) : option bool :=
  match fuel with
  | O => None
  | S fuel =>
    if negb (m a =? 0) && negb (m b =? 0) then
      if negb (lower (m a) =? lower (m b)) then Some false else strieq_ascii fuel m (a + 1) (b + 1)
    else Some ((m a =? 0) && (m b =? 0))
  end.

(** ** Parsing *)

(** [while (p < end && *p != '\n') p++], [n] being [end - p]. *)
Fixpoint find_eol (n : nat) (m : mem) (p : Z) : Z :=
  match n with
  | O => p
  | S n => if m p =? NL then p else find_eol n m (p + 1)
  end.

(** The scan for an inline comment: the address of its first character, or 0. *)
Fixpoint find_comment (fuel : nat) (m : mem) (value c : Z) : option Z :=
  match fuel with
  | O => None
  | S fuel =>
    if m c =? 0 then Some 0 else
    if ((m c =? HASH) || (m c =? SEMI)) && (value <? c) && is_blank (m (c - 1)) then Some c
    else find_comment fuel m value (c + 1)
  end.

Definition strip_comment (fuel : nat) (m : mem) (value : Z) : option (mem * Z) :=
  c ← find_comment fuel m value value;
  if c =? 0 then Some (m, value) else trim_inplace fuel (mem_write m c [0]) value.

(** The local variables of the parser. *)
Record Parser := mkParser {
  p_mem : mem;
  p_entries : list IniCfgEntry;
  p_cap : Z;
  p_section : Z;
  p_line : Z
}.

(** A line that is parsed leaves the parser; a bad one the message. *)
Inductive line_result := Line_ok (s : Parser) | Line_bad (m : mem) (msg : string).

Definition parse_section (fuel : nat) (s : Parser) (t : Z) : option line_result :=
  rb ← strchr fuel (p_mem s) t RBRACK;
  if rb =? 0 then Some (Line_bad (p_mem s) "section header missing ']'"%string) else
  '(m, name) ← trim_inplace fuel (mem_write (p_mem s) rb [0]) (t + 1);
  if m name =? 0 then Some (Line_bad m "empty section name"%string) else
  Some (Line_ok (mkParser m (p_entries s) (p_cap s) name (p_line s))).

Definition add_entry (realloc_ok : Z -> bool) (s : Parser) (m : mem) (key value : Z) : line_result :=
  let count := Z.of_nat (length (p_entries s)) in
  match (if p_cap s <? count + 1 then grow_entries realloc_ok (p_cap s) (count + 1) else Some (p_cap s)) with
  | None => Line_bad m "out of memory"%string
  | Some cap => Line_ok (mkParser m (p_entries s ++ [mkEntry (p_section s) key value (p_line s)]) cap (p_section s) (p_line s))
  end.

Definition parse_entry (realloc_ok : Z -> bool) (fuel : nat) (s : Parser) (t : Z) : option line_result :=
  eq ← strchr fuel (p_mem s) t EQUALS;
  if eq =? 0 then Some (Line_bad (p_mem s) "expected 'key = value'"%string) else
  '(m, key) ← trim_inplace fuel (mem_write (p_mem s) eq [0]) t;
  '(m, value) ← trim_inplace fuel m (eq + 1);
  if m key =? 0 then Some (Line_bad m "empty key"%string) else
  '(m, value) ← strip_comment fuel m value;
  Some (add_entry realloc_ok s m key value).

Definition parse_line (realloc_ok : Z -> bool) (fuel : nat) (s : Parser) (line : Z) : option line_result :=
  '(m, t) ← trim_inplace fuel (p_mem s) line;
  let s := mkParser m (p_entries s) (p_cap s) (p_section s) (p_line s) in
  if (m t =? 0) || (m t =? HASH) || (m t =? SEMI) then Some (Line_ok s) else
  if m t =? LBRACK then parse_section fuel s t else
  parse_entry realloc_ok fuel s t.

(** The loop over the lines: [while (p < end)].  The error carries its line. *)
Fixpoint parse_lines (realloc_ok : Z -> bool) (fuel' fuel : nat) (s : Parser) (p e : Z) : option (Parser + mem * IniCfgError) :=
  match fuel with
  | O => None
  | S fuel =>
    if e <=? p then Some (inl s) else
    let lineno := u32 (p_line s + 1) in
    let q := find_eol (Z.to_nat (e - p)) (p_mem s) p in
    let m := if q <? e then mem_write (p_mem s) q [0] else p_mem s in
    let next := if q <? e then q + 1 else q in
    r ← parse_line realloc_ok fuel' (mkParser m (p_entries s) (p_cap s) (p_section s) lineno) p;
    match r with
    | Line_ok s => parse_lines realloc_ok fuel' fuel s next e
    | Line_bad m msg => Some (inr (m, set_err lineno msg))
    end
  end.

Definition no_cfg : IniCfg := mkCfg [] 0 0 0.

(** [None] when the fuel is short.  [empty] is the address of the empty literal,
    [block] what [malloc] returns. *)
Definition inicfg_parse_string (realloc_ok : Z -> bool) (fuel : nat) (m : mem) (text empty block : Z) :
    option (mem * IniCfg * IniCfgError * bool) :=
  let text := if text =? 0 then empty else text in
  text_len ← strlen fuel m text;
  if block =? 0 then Some (m, no_cfg, set_err 0 "out of memory"%string, false) else
  let m := memcpy m block text (text_len + 1) in
  r ← parse_lines realloc_ok fuel fuel (mkParser m [] 0 empty 0) block (block + text_len);
  match r with
  | inl s => Some (p_mem s, mkCfg (p_entries s) (Z.of_nat (length (p_entries s))) block (text_len + 1), mkErr 0 EmptyString, true)
  | inr (m, err) => Some (m, no_cfg, err, false)
  end.

(** ** Look-up *)

Fixpoint get_from (fuel : nat) (m : mem) (es : list IniCfgEntry) (section key : Z) : option Z :=
  match es with
  | [] => Some 0
  | e :: es =>
    b ← streq fuel m (e_section e) section;
    if b : bool then
      b ← streq fuel m (e_key e) key;
      if b : bool then Some (e_value e) else get_from fuel m es section key
    else get_from fuel m es section key
  end.

(** The value, or 0 for [NULL]. *)
Definition inicfg_get (fuel : nat) (m : mem) (cfg : IniCfg) (section key : Z) : option Z :=
  if (section =? 0) || (key =? 0) then Some 0 else get_from fuel m (entries cfg) section key.

(** *** [strtol] with base 0, of the C library *)

Definition LONG_MAX : Z := 2 ^ 63 - 1.
Definition LONG_MIN : Z := - 2 ^ 63.

(** The value of a character as a digit in bases up to 36. *)
Definition digit (c : Z) : option Z :=
  if (48 <=? c) && (c <=? 57) then Some (c - 48)
  else if (65 <=? c) && (c <=? 90) then Some (c - 65 + 10)
  else if (97 <=? c) && (c <=? 122) then Some (c - 97 + 10) else None.

Definition digit_in (base c : Z) : option Z :=
  d ← digit c; if d <? base then Some d else None.

(** The longest run of digits: its value and its length. *)
Fixpoint digits (base : Z) (t : list Z) (acc : Z) (n : nat) : Z * nat :=
  match t with
  | [] => (acc, n)
  | c :: t => match digit_in base c with Some d => digits base t (acc * base + d) (S n) | None => (acc, n) end
  end.

Definition c_isspace (c : Z) : bool := (c =? 32) || ((9 <=? c) && (c <=? 13)).

Fixpoint leading_spaces (t : list Z) : nat :=
  match t with c :: t => if c_isspace c then S (leading_spaces t) else O | [] => O end.

(** Sign: whether negative, and the characters it takes. *)
Definition sign_of (t : list Z) : bool * nat :=
  match t with c :: _ => if c =? 45 then (true, 1%nat) else if c =? 43 then (false, 1%nat) else (false, O) | [] => (false, O) end.

(** The base that the prefix selects, and the characters of the prefix; [0x] is a
    prefix only before a hexadecimal digit. *)
Definition base_of (t : list Z) : Z * nat :=
  match t with
  | c :: x :: d :: _ =>
    if c =? 48 then
      if ((x =? 120) || (x =? 88)) && bool_decide (is_Some (digit_in 16 d)) then (16, 2%nat) else (8, O)
    else (10, O)
  | c :: _ => if c =? 48 then (8, O) else (10, O)
  | [] => (10, O)
  end.

(** The value and the number of characters read, 0 when there are no digits. *)
Definition strtol (t : list Z) : Z * nat :=
  let sp := leading_spaces t in
  let '(neg, sg) := sign_of (drop sp t) in
  let '(base, pre) := base_of (drop (sp + sg) t) in
  let '(v, n) := digits base (drop (sp + sg + pre) t) 0 0 in
  if (n =? 0)%nat then (0, O)
  else (Z.max LONG_MIN (Z.min LONG_MAX (if neg then - v else v)), (sp + sg + pre + n)%nat).

(** [None] in the pair is the [false] return, which leaves [*out] as it was. *)
Definition inicfg_get_int (fuel : nat) (m : mem) (cfg : IniCfg) (section key : Z) : option (option Z) :=
  v ← inicfg_get fuel m cfg section key;
  if v =? 0 then Some None else
  v ← skip_blanks fuel m v;
  if m v =? 0 then Some None else
  t ← cstring fuel m v;
  let '(val, n) := strtol t in
  if (n =? 0)%nat then Some None else
  endp ← skip_blanks fuel m (v + Z.of_nat n);
  Some (if m endp =? 0 then Some val else None).

(** The words are string literals of the program, at addresses that [lit] gives. *)
Fixpoint any_word (cmp : Z -> option bool) (ws : list Z) : option bool :=
  match ws with
  | [] => Some false
  | w :: ws => b ← cmp w; if b : bool then Some true else any_word cmp ws
  end.

Record literals := mkLits { l_true : Z; l_yes : Z; l_on : Z; l_1 : Z; l_false : Z; l_no : Z; l_off : Z; l_0 : Z }.

Definition inicfg_get_bool (lit : literals) (fuel : nat) (m : mem) (cfg : IniCfg) (section key : Z) : option (option bool) :=
  v ← inicfg_get fuel m cfg section key;
  if v =? 0 then Some None else
  t ← any_word (strieq_ascii fuel m v) [l_true lit; l_yes lit; l_on lit];
  t ← (if t : bool then Some true else streq fuel m v (l_1 lit));
  if t : bool then Some (Some true) else
  f ← any_word (strieq_ascii fuel m v) [l_false lit; l_no lit; l_off lit];
  f ← (if f : bool then Some true else streq fuel m v (l_0 lit));
  Some (if f : bool then Some false else None).

Definition inicfg_destroy (cfg : IniCfg) : IniCfg := no_cfg.
