(* ===== verification/InicfgSpec.v ===== *)
(** What the configuration parser reads: lines, sections and entries as lists of
    bytes, and the proof that the code on the arena ([Inicfg]) computes them. *)
From Stdlib Require Import String.
From S2P Require Import Prelude HostMem CString Inicfg.
#[local] Open Scope Z_scope.

(** ** The format *)

Fixpoint trim_front (t : list Z) : list Z :=
  match t with c :: t' => if is_blank c then trim_front t' else t | [] => [] end.

(** The list without its trailing white space. *)
Fixpoint trim_back (t : list Z) : list Z :=
  match t with
  | [] => []
  | c :: t => match trim_back t with [] => if is_space c then [] else [c] | t' => c :: t' end
  end.

Definition trim (t : list Z) : list Z := trim_back (trim_front t).

(** The part of a value before an inline comment, [prev] being the byte before. *)
Fixpoint comment_at (prev : Z) (t : list Z) : option (list Z) :=
  match t with
  | [] => None
  | c :: t =>
    if ((c =? HASH) || (c =? SEMI)) && is_blank prev then Some []
    else a ← comment_at c t; Some (c :: a)
  end.

Definition value_of (t : list Z) : list Z :=
  match trim t with
  | [] => []
  | c :: v => match comment_at c v with Some a => trim (c :: a) | None => c :: v end
  end.

Inductive ini_line :=
  | Blank_line
  | Section_line (name : list Z)
  | Entry_line (key value : list Z)
  | Bad_line (msg : string).

(** A line, [val] being how the part behind the equals sign is read. *)
Definition classify_by (val : list Z -> list Z) (l : list Z) : ini_line :=
  match trim l with
  | [] => Blank_line
  | c :: t =>
    if (c =? HASH) || (c =? SEMI) then Blank_line else
    if c =? LBRACK then
      match split_at RBRACK t with
      | None => Bad_line "section header missing ']'"%string
      | Some (name, _) =>
        match trim name with [] => Bad_line "empty section name"%string | name => Section_line name end
      end
    else
      match split_at EQUALS (c :: t) with
      | None => Bad_line "expected 'key = value'"%string
      | Some (key, value) =>
        match trim key with [] => Bad_line "empty key"%string | key => Entry_line key (val value) end
      end
  end.

(** The reading of the code. *)
Definition classify : list Z -> ini_line := classify_by value_of.

Record ini_entry := mkIni { i_section : list Z; i_key : list Z; i_value : list Z; i_line : Z }.

(** The lines of a text; what follows the last newline is a line unless empty. *)
Fixpoint lines_from (line t : list Z) : list (list Z) :=
  match t with
  | [] => match line with [] => [] | _ => [line] end
  | c :: t => if c =? NL then line :: lines_from [] t else lines_from (line ++ [c]) t
  end.

Definition ini_lines : list Z -> list (list Z) := lines_from [].

(** The entries of the lines, or the first line in error and its message. *)
Fixpoint read_lines (section : list Z) (lineno : Z) (ls : list (list Z)) : list ini_entry + Z * string :=
  match ls with
  | [] => inl []
  | l :: ls =>
    let lineno := u32 (lineno + 1) in
    match classify l with
    | Blank_line => read_lines section lineno ls
    | Section_line name => read_lines name lineno ls
    | Entry_line key value =>
      match read_lines section lineno ls with
      | inl es => inl (mkIni section key value lineno :: es)
      | inr e => inr e
      end
    | Bad_line msg => inr (lineno, msg)
    end
  end.

Definition ini_read (text : list Z) : list ini_entry + Z * string := read_lines [] 0 (ini_lines text).

(** ** Trimming *)

Lemma trim_front_split t : exists a, t = a ++ trim_front t /\ forall b, trim_front t = b -> Forall (fun c => is_blank c = true) a.
Proof.
  induction t as [|c t (a & Ha & Hb)]; cbn; [by exists []|].
  destruct (is_blank c) eqn:E; [|by exists []]. exists (c :: a). split; [cbn; by f_equal|]. intros b Hb'. constructor; [done|]. by eapply Hb.
Qed.

Lemma trim_front_hd t : match trim_front t with c :: _ => is_blank c = false | [] => True end.
Proof. induction t as [|c t IH]; cbn; [done|]. by destruct (is_blank c) eqn:E. Qed.

Lemma trim_back_split t : exists a, t = trim_back t ++ a.
Proof.
  induction t as [|c t [a Ha]]; cbn; [by exists []|].
  destruct (trim_back t) as [|d t']; [|exists a; cbn; by f_equal].
  destruct (is_space c); [by exists (c :: t)|by exists t].
Qed.

Lemma trim_back_nil t : trim_back t = [] <-> Forall (fun c => is_space c = true) t.
Proof.
  induction t as [|c t IH]; cbn; [done|]. rewrite Forall_cons, <-IH.
  destruct (trim_back t); [|by split; [|intros []]]. destruct (is_space c); split; intros H; try done; by destruct H.
Qed.

Lemma trim_back_app t a : trim_back (t ++ a) = match trim_back a with [] => trim_back t | a' => t ++ a' end.
Proof.
  induction t as [|c t IH]; cbn; [by destruct (trim_back a)|]. rewrite IH.
  destruct (trim_back a) as [|d a']; [done|]. by destruct t.
Qed.

Lemma trim_back_snoc t c : trim_back (t ++ [c]) = if is_space c then trim_back t else t ++ [c].
Proof. rewrite trim_back_app. cbn. by destruct (is_space c). Qed.

Lemma trim_split t : exists a b, t = a ++ trim t ++ b.
Proof.
  destruct (trim_front_split t) as (a & Ha & _). destruct (trim_back_split (trim_front t)) as [b Hb].
  exists a, b. unfold trim. by rewrite <-Hb.
Qed.

Lemma trim_length t : (length (trim t) <= length t)%nat.
Proof. destruct (trim_split t) as (a & b & H). rewrite H at 2. rewrite !length_app. lia. Qed.

Lemma trim_idem t : trim (trim t) = trim t.
Proof.
  unfold trim. pose proof (trim_front_hd t). set (u := trim_front t) in *. clearbody u.
  assert (trim_front (trim_back u) = trim_back u) as ->.
  { destruct u as [|c u]; [done|]. cbn. destruct (trim_back u); cbn; [destruct (is_space c); cbn|]; by rewrite ?H. }
  clear H. induction u as [|c u IH]; [done|]. cbn. destruct (trim_back u) as [|d u'] eqn:E.
  - destruct (is_space c) eqn:Es; cbn; by rewrite ?Es.
  - remember (d :: u') as v. cbn. rewrite IH. by subst v.
Qed.

(** ** Scans in memory *)

Lemma space_nonzero c : is_space c = true -> c <> 0.
Proof. intros H ->. done. Qed.

Lemma trim_front_length t : (length (trim_front t) <= length t)%nat.
Proof. induction t as [|c t IH]; cbn; [lia|]. destruct (is_blank c); cbn; lia. Qed.

Lemma skip_blanks_at fuel m s t : string_at m s t -> (length t < fuel)%nat ->
  skip_blanks fuel m s = Some (s + Z.of_nat (length t) - Z.of_nat (length (trim_front t))) /\
  string_at m (s + Z.of_nat (length t) - Z.of_nat (length (trim_front t))) (trim_front t).
Proof.
  revert s t. induction fuel as [|fuel IH]; intros s t Ht Hf; [lia|]. destruct t as [|c t]; cbn in *.
  - rewrite Ht. cbn. by rewrite Z.add_0_r, Z.sub_0_r.
  - destruct Ht as (Hc & Hz & Ht). rewrite Hc. destruct (is_blank c) eqn:E.
    + replace (s + Z.of_nat (S (length t))) with (s + 1 + Z.of_nat (length t)) by lia. apply IH; [done|lia].
    + replace (_ + _ - _) with s by (cbn [length]; lia). by split_and!.
Qed.

Lemma drop_spaces_at m s t u : string_at m s (t ++ u) -> drop_spaces (length t) m s = s + Z.of_nat (length (trim_back t)).
Proof.
  revert u. induction t as [|c t IH] using rev_ind; intros u Ht; [cbn; lia|].
  rewrite length_app, Nat.add_comm. cbn [length Nat.add drop_spaces].
  rewrite <-app_assoc in Ht. cbn in Ht. rewrite (string_at_byte m s t c u Ht), trim_back_snoc.
  destruct (is_space c); [by eapply IH|]. rewrite length_app. cbn. lia.
Qed.

(** Trimming in place leaves the trimmed string, inside the bytes of the old one. *)
Lemma trim_at fuel m s t : string_at m s t -> (length t < fuel)%nat ->
  exists m' p, trim_inplace fuel m s = Some (m', p) /\ string_at m' p (trim t) /\
    s <= p /\ p + str_size (trim t) <= s + str_size t /\ mem_frame s (str_size t) m m'.
Proof.
  intros Ht Hf. destruct (skip_blanks_at fuel m s t Ht Hf) as [Es Hs]. pose proof (trim_front_length t).
  set (p := _ - _) in Es, Hs. set (u := trim_front t) in *.
  unfold trim_inplace. rewrite Es. cbn. rewrite (strlen_at _ _ _ u) by (done || lia). cbn. rewrite Nat2Z.id.
  rewrite (drop_spaces_at m p u []) by (by rewrite app_nil_r).
  destruct (trim_back_split u) as [a Ha]. change (trim_back u) with (trim t) in *.
  assert (length u = length (trim t) + length a)%nat as Hl by (rewrite Ha at 1; apply length_app).
  eexists _, p. split; [done|]. unfold str_size. split_and!; [|lia|lia|].
  - apply (string_at_cut _ _ _ a). by rewrite <-Ha.
  - intros x Hx. symmetry. apply mem_write_out. unfold rng, str_size in *. cbn. lia.
Qed.

Lemma find_eol_at m p t u : string_at m p (t ++ u) -> NL ∉ t ->
  (u = [] \/ exists u', u = NL :: u') -> find_eol (length (t ++ u)) m p = p + Z.of_nat (length t).
Proof.
  revert p. induction t as [|c t IH]; intros p Ht Hn Hu; cbn [app length] in *.
  - destruct Hu as [->|[u' ->]]; cbn; [by rewrite Z.add_0_r|]. destruct Ht as [Hc _]. rewrite Hc, Z.eqb_refl. lia.
  - apply not_elem_of_cons in Hn as [Hc Hn]. destruct Ht as (Hm & _ & Ht). cbn. rewrite Hm.
    rewrite (proj2 (Z.eqb_neq _ _)) by done. rewrite IH by done. lia.
Qed.

Lemma comment_scan fuel m value c prev t : string_at m c t -> m (c - 1) = prev -> value < c -> (length t < fuel)%nat ->
  0 < c -> find_comment fuel m value c = Some (match comment_at prev t with Some a => c + Z.of_nat (length a) | None => 0 end).
Proof.
  revert c prev t. induction fuel as [|fuel IH]; intros c prev t Ht Hp Hc Hf H0; [lia|]. destruct t as [|x t]; cbn in *.
  - by rewrite Ht.
  - destruct Ht as (Hx & Hz & Ht). rewrite Hx. rewrite (proj2 (Z.eqb_neq _ _)) by done.
    rewrite (proj2 (Z.ltb_lt _ _)) by done. rewrite andb_true_r, Hp.
    destruct (_ && _); [cbn; by rewrite Z.add_0_r|].
    rewrite (IH (c + 1) x t) by (done || lia || (rewrite <-Hx; f_equal; lia)).
    destruct (comment_at x t); cbn; f_equal; lia.
Qed.

Lemma comment_at_split prev t a : comment_at prev t = Some a -> exists b, t = a ++ b.
Proof.
  revert prev a. induction t as [|c t IH]; intros prev a H; cbn in H; [done|].
  destruct (_ && _); [injection H as <-; by exists (c :: t)|].
  destruct (comment_at c t) as [a'|] eqn:E; [|done]. injection H as <-. destruct (IH _ _ E) as [b ->]. by exists b.
Qed.

Lemma trim_nil : trim [] = [].
Proof. done. Qed.

(** The comment of a trimmed value is stripped. *)
Lemma strip_at fuel m value t : string_at m value (trim t) -> 0 < value -> (length t < fuel)%nat ->
  exists m' p, strip_comment fuel m value = Some (m', p) /\ string_at m' p (value_of t) /\
    value <= p /\ p + str_size (value_of t) <= value + str_size (trim t) /\ mem_frame value (str_size (trim t)) m m'.
Proof.
  intros Ht Hv Hf. pose proof (trim_length t). unfold strip_comment, value_of. destruct fuel as [|fuel]; [lia|].
  destruct (trim t) as [|c v]; cbn [find_comment].
  - cbn in Ht. rewrite Ht. cbn. exists m, value. split_and!; done || lia.
  - destruct Ht as (Hc & Hz & Hs) eqn:E. clear E. rewrite Hc. rewrite (proj2 (Z.eqb_neq _ _)) by done.
    rewrite Z.ltb_irrefl, andb_false_r. cbn [andb length] in *.
    rewrite (comment_scan fuel m value (value + 1) c v) by (done || lia || (rewrite <-Hc; f_equal; lia)). cbn [mbind option_bind].
    destruct (comment_at c v) as [a|] eqn:E; cycle 1.
    { cbn. exists m, value. split_and!; done || lia. }
    destruct (comment_at_split _ _ _ E) as [b ->]. rewrite (proj2 (Z.eqb_neq _ _)) by lia.
    rewrite length_app in *. assert (string_at m value ((c :: a) ++ b)) as Hcut%string_at_cut by (by cbn).
    replace (value + Z.of_nat (length (c :: a))) with (value + 1 + Z.of_nat (length a)) in Hcut by (cbn; lia).
    destruct (trim_at (S fuel) _ value (c :: a) Hcut) as (m' & p & -> & Hp & ? & Hle & Hfr); [cbn; lia|].
    exists m', p. unfold str_size in *. cbn [length] in *. rewrite length_app. split_and!; [done|done|lia|lia|].
    intros x Hx. rewrite <-(Hfr x) by (unfold rng in *; lia). symmetry. apply mem_write_out. unfold rng in *. cbn. lia.
Qed.

(** ** One line *)

(** The string [t] at [a], and none of its bytes in [lo, hi). *)
Definition kept_string (m : mem) (lo hi : Z) (t : list Z) (a : Z) : Prop :=
  string_at m a t /\ rdisj a (str_size t) lo (hi - lo).

Lemma kept_frame m m' lo hi a n s t : kept_string m lo hi s t -> mem_frame a n m m' ->
  lo <= a -> a + n <= hi -> kept_string m' lo hi s t.
Proof.
  intros [Hs Hd] Hf ? ?. split; [|done]. eapply string_at_frame; [done..|]. unfold rdisj in *. lia.
Qed.

Lemma kept_less m lo hi lo' hi' t a : kept_string m lo hi t a -> lo <= lo' -> hi' <= hi -> kept_string m lo' hi' t a.
Proof. intros [Hs Hd] ? ?. split; [done|]. unfold rdisj in *. lia. Qed.

(** The string [t] at [a], within [lo, hi). *)
Definition inner_string (m : mem) (lo hi : Z) (t : list Z) (a : Z) : Prop :=
  string_at m a t /\ lo <= a /\ a + str_size t <= hi.

Lemma string_at_hd m s t : string_at m s t -> m s = match t with c :: _ => c | [] => 0 end.
Proof. destruct t; cbn; [done|by intros []]. Qed.

Lemma hd_zero m s t : string_at m s t -> (m s =? 0) = match t with [] => true | _ => false end.
Proof. destruct t as [|c t]; cbn; [by intros ->|]. intros (-> & H & _). by apply Z.eqb_neq. Qed.

Lemma frame_cut m p t w : p <= w -> w < p + str_size t -> mem_frame p (str_size t) m (mem_write m w [0]).
Proof. intros ? ? x Hx. symmetry. apply mem_write_out. unfold rng in *. cbn. lia. Qed.

(** A string cut at its first [c]: the part before and the part after. *)
Lemma cut_at fuel m p t c a b : string_at m p t -> split_at c t = Some (a, b) -> (length t < fuel)%nat -> 0 < p ->
  let w := p + Z.of_nat (length a) in
  strchr fuel m p c = Some w /\ w <> 0 /\ string_at (mem_write m w [0]) p a /\ string_at (mem_write m w [0]) (w + 1) b /\
  str_size a + str_size b = str_size t /\ mem_frame p (str_size t) m (mem_write m w [0]).
Proof.
  intros Ht Hs Hf Hp w. rewrite (strchr_at _ _ _ t) by done. rewrite Hs.
  apply split_at_Some in Hs as [-> Hn].
  assert (str_size a + str_size b = str_size (a ++ c :: b)) as Hsz by (unfold str_size; rewrite length_app; cbn; lia).
  pose proof (str_size_pos b). unfold str_size in H at 1.
  split_and!; [done|unfold w; lia|by eapply string_at_cut| |done|].
  - eapply (string_at_frame m _ w 1); [|apply mem_write_frame; cbn; lia|unfold rdisj; lia].
    apply string_at_app in Ht. by destruct Ht as (_ & _ & Ht).
  - apply frame_cut; unfold w; unfold str_size in *; lia.
Qed.

Lemma section_at fuel s p t : string_at (p_mem s) p (LBRACK :: t) -> (S (length t) < fuel)%nat -> 0 < p ->
  exists r m', parse_section fuel s p = Some r /\ mem_frame p (str_size (LBRACK :: t)) (p_mem s) m' /\
  match split_at RBRACK t with
  | None => r = Line_bad m' "section header missing ']'"%string
  | Some (a, _) =>
    match trim a with
    | [] => r = Line_bad m' "empty section name"%string
    | name => exists a', r = Line_ok (mkParser m' (p_entries s) (p_cap s) a' (p_line s)) /\
        inner_string m' p (p + str_size (LBRACK :: t)) name a'
    end
  end.
Proof.
  intros Ht Hf Hp. unfold parse_section. destruct (split_at RBRACK t) as [[a b]|] eqn:E.
  - destruct (cut_at fuel _ p _ RBRACK (LBRACK :: a) b Ht) as (-> & Hw & (_ & _ & Ha) & _ & Hsz & Hfr); [cbn; by rewrite E|done..|].
    cbn [mbind option_bind]. rewrite (proj2 (Z.eqb_neq _ _)) by done.
    destruct (trim_at fuel _ (p + 1) a Ha) as (m' & n & -> & Hn & ? & Hle & Hfr').
    { rewrite !str_size_cons in Hsz. unfold str_size in Hsz. lia. }
    cbn [mbind option_bind]. rewrite (hd_zero _ _ _ Hn). pose proof (str_size_pos b). rewrite !str_size_cons in *.
    assert (mem_frame p (str_size t + 1) (p_mem s) m') as Hall.
    { etransitivity; [exact Hfr|]. eapply mem_frame_mono; [| |exact Hfr']; lia. }
    destruct (trim a) as [|c name]; [by eexists _, m'|]. eexists _, m'. split_and!; [done|done|].
    exists n. split; [done|]. split_and!; [done|lia|]. rewrite str_size_cons in *. lia.
  - rewrite (strchr_at _ _ _ _ RBRACK Ht) by done. cbn. rewrite E. cbn. by eexists _, (p_mem s).
Qed.

Lemma entry_at fuel realloc_ok s p t : string_at (p_mem s) p t -> (length t < fuel)%nat -> 0 < p ->
  exists r m', parse_entry realloc_ok fuel s p = Some r /\ mem_frame p (str_size t) (p_mem s) m' /\
  match split_at EQUALS t with
  | None => r = Line_bad m' "expected 'key = value'"%string
  | Some (a, b) =>
    match trim a with
    | [] => r = Line_bad m' "empty key"%string
    | key => exists k v, r = add_entry realloc_ok s m' k v /\
        inner_string m' p (p + str_size t) key k /\ inner_string m' p (p + str_size t) (value_of b) v
    end
  end.
Proof.
  intros Ht Hf Hp. unfold parse_entry. destruct (split_at EQUALS t) as [[a b]|] eqn:E.
  - destruct (cut_at fuel _ p _ EQUALS a b Ht) as (-> & Hw & Ha & Hb & Hsz & Hfr); [done..|].
    pose proof (str_size_pos a). pose proof (str_size_pos b).
    assert (length a < fuel /\ length b < fuel)%nat as [Hla Hlb] by (unfold str_size in Hsz; lia).
    cbn [mbind option_bind]. rewrite (proj2 (Z.eqb_neq _ _)) by done. set (w := p + _) in *.
    assert (w + 1 = p + str_size a) as Ew by (unfold w, str_size; lia). rewrite Ew in *.
    destruct (trim_at fuel _ p a Ha Hla) as (m1 & k & -> & Hk & ? & Hkl & Hf1). cbn [mbind option_bind].
    destruct (trim_at fuel m1 (p + str_size a) b) as (m2 & v & -> & Hv & ? & Hvl & Hf2); [|done|].
    { eapply string_at_frame; [exact Hb|exact Hf1|]. unfold rdisj. lia. }
    cbn [mbind option_bind].
    assert (string_at m2 k (trim a)) as Hk2 by (eapply string_at_frame; [exact Hk|exact Hf2|unfold rdisj; lia]).
    assert (mem_frame p (str_size t) (p_mem s) m2) as Hall.
    { etransitivity; [exact Hfr|]. etransitivity; eapply mem_frame_mono; [| |exact Hf1| | |exact Hf2]; lia. }
    rewrite (hd_zero _ _ _ Hk2). destruct (trim a) as [|c key]; [by eexists _, m2|].
    destruct (strip_at fuel m2 v b Hv) as (m3 & v' & -> & Hv' & ? & Hvl' & Hf3); [lia|done|].
    cbn [mbind option_bind]. eexists _, m3. split_and!; [done| |].
    + etransitivity; [exact Hall|]. eapply mem_frame_mono; [| |exact Hf3]; lia.
    + exists k, v'. split; [done|]. split; (split; [|lia]); [|done].
      eapply string_at_frame; [exact Hk2|exact Hf3|]. unfold rdisj. lia.
  - rewrite (strchr_at _ _ _ _ EQUALS Ht) by done. rewrite E. cbn. by eexists _, (p_mem s).
Qed.

(** The capacity of the entry array against the number of entries. *)
Definition cap_ok (cap count : Z) : Prop := count <= cap /\ (cap = 0 \/ 8 <= cap <= 2 * count + 8).

Lemma grow_spec realloc_ok cap count : cap_ok cap count -> 0 <= count < 2 ^ 60 ->
  match (if cap <? count + 1 then grow_entries realloc_ok cap (count + 1) else Some cap) with
  | Some cap' => cap_ok cap' (count + 1)
  | None => exists n, realloc_ok n = false
  end.
Proof.
  intros [Hc Hcap] Hn. unfold cap_ok. destruct (Z.ltb_spec cap (count + 1)) as [Hlt|]; [|lia].
  assert (double_until 64 (if cap =? 0 then 8 else cap) (count + 1) = Some (if cap =? 0 then 8 else 2 * cap)) as E.
  { cbn [double_until]. destruct (Z.eqb_spec cap 0) as [->|Hz].
    - assert (count = 0) as -> by lia. done.
    - rewrite (proj2 (Z.ltb_lt _ _)) by done. rewrite (u64_small (cap * 2)) by (umach; lia).
      rewrite (proj2 (Z.leb_gt _ _)), (proj2 (Z.ltb_ge _ _)) by lia. f_equal. lia. }
  unfold grow_entries. rewrite E. destruct (realloc_ok _) eqn:Er; [|by eexists].
  destruct (Z.eqb_spec cap 0); lia.
Qed.

(** What a line does to the parser. *)
Definition line_done (realloc_ok : Z -> bool) (s : Parser) (m : mem) (lo hi : Z) (l : ini_line) (r : line_result) : Prop :=
  match l with
  | Blank_line => r = Line_ok (mkParser m (p_entries s) (p_cap s) (p_section s) (p_line s))
  | Section_line name => exists a, r = Line_ok (mkParser m (p_entries s) (p_cap s) a (p_line s)) /\ inner_string m lo hi name a
  | Entry_line key value => exists k v, r = add_entry realloc_ok s m k v /\ inner_string m lo hi key k /\ inner_string m lo hi value v
  | Bad_line msg => r = Line_bad m msg
  end.

Lemma line_at realloc_ok fuel s p l : string_at (p_mem s) p l -> (length l < fuel)%nat -> 0 < p ->
  exists r m', parse_line realloc_ok fuel s p = Some r /\ mem_frame p (str_size l) (p_mem s) m' /\
    line_done realloc_ok s m' p (p + str_size l) (classify l) r.
Proof.
  intros Hl Hf Hp. destruct (trim_at fuel _ p l Hl Hf) as (m & t & Et & Ht & Hpt & Hle & Hfr).
  unfold parse_line. rewrite Et. cbn [mbind option_bind]. clear Et. pose proof (trim_length l) as Hlen.
  unfold classify, classify_by, line_done. rewrite (string_at_hd _ _ _ Ht). destruct (trim l) as [|c u]; [by eexists _, m|].
  assert (c <> 0) as Hc by apply Ht. rewrite (proj2 (Z.eqb_neq c 0)) by done. cbn [orb length] in *.
  destruct (_ || _); [by eexists _, m|]. set (s' := mkParser m _ _ _ _).
  destruct (Z.eqb_spec c LBRACK) as [->|Hb].
  - destruct (section_at fuel s' t u) as (r & m' & -> & Hfr' & Hr); [done|lia..|]. exists r, m'. split; [done|].
    split; [etransitivity; [exact Hfr|]; eapply mem_frame_mono; [| |exact Hfr']; lia|].
    destruct (split_at RBRACK u) as [[a b]|]; [|done]. destruct (trim a); [done|].
    destruct Hr as (a' & -> & Ha & ? & ?). exists a'. split; [done|]. split_and!; [done|lia..].
  - destruct (entry_at fuel realloc_ok s' t (c :: u)) as (r & m' & -> & Hfr' & Hr); [done|cbn; lia|lia|]. exists r, m'. split; [done|].
    split; [etransitivity; [exact Hfr|]; eapply mem_frame_mono; [| |exact Hfr']; lia|].
    destruct (split_at EQUALS _) as [[a b]|]; [|done]. destruct (trim a); [done|].
    destruct Hr as (k & v & -> & (Hk & ? & ?) & (Hv & ? & ?)). exists k, v. split; [done|].
    split; split_and!; done || lia.
Qed.

(** ** All lines *)

Lemma lines_from_nl line l t : NL ∉ l -> lines_from line (l ++ NL :: t) = (line ++ l) :: ini_lines t.
Proof.
  revert line. induction l as [|c l IH]; intros line Hn; cbn [app lines_from]; [by rewrite Z.eqb_refl, app_nil_r|].
  apply not_elem_of_cons in Hn as [Hc Hn]. rewrite (proj2 (Z.eqb_neq _ _)) by done. by rewrite IH, <-app_assoc.
Qed.

Lemma lines_from_last line l : NL ∉ l -> lines_from line l = match line ++ l with [] => [] | l' => [l'] end.
Proof.
  revert line. induction l as [|c l IH]; intros line Hn; cbn [lines_from]; [rewrite app_nil_r; by destruct line|].
  apply not_elem_of_cons in Hn as [Hc Hn]. rewrite (proj2 (Z.eqb_neq _ _)) by done. rewrite IH by done. by rewrite <-(app_assoc line [c] l).
Qed.

Lemma ini_lines_nl l t : NL ∉ l -> ini_lines (l ++ NL :: t) = l :: ini_lines t.
Proof. apply (lines_from_nl []). Qed.

Lemma ini_lines_last l : NL ∉ l -> l <> [] -> ini_lines l = [l].
Proof. intros Hn Hl. unfold ini_lines. rewrite lines_from_last by done. by destruct l. Qed.

(** An entry of the array is the entry [i] of the format, away from [lo, hi). *)
Definition entry_is (m : mem) (lo hi : Z) (e : IniCfgEntry) (i : ini_entry) : Prop :=
  kept_string m lo hi (i_section i) (e_section e) /\ kept_string m lo hi (i_key i) (e_key e) /\
  kept_string m lo hi (i_value i) (e_value e) /\ 0 < e_value e /\ e_line e = i_line i.

Lemma entry_step m m' lo hi lo' a n e i : entry_is m lo hi e i -> mem_frame a n m m' -> lo <= a -> a + n <= hi -> lo <= lo' ->
  entry_is m' lo' hi e i.
Proof.
  intros (Hs & Hk & Hv & Hp & Hl) Hf ? ? ?.
  split_and!; [| | |done|done]; (eapply kept_less; [eapply kept_frame; [|exact Hf|..]; done|done|done]).
Qed.

Lemma inner_kept m lo hi lo' hi' t a : inner_string m lo hi t a -> hi <= lo' -> kept_string m lo' hi' t a.
Proof. intros (Hs & ? & ?) ?. split; [done|]. unfold rdisj. lia. Qed.

(** The strings of an entry are those of [i]. *)
Definition reads_as (m : mem) (e : IniCfgEntry) (i : ini_entry) : Prop :=
  string_at m (e_section e) (i_section i) /\ string_at m (e_key e) (i_key i) /\
  string_at m (e_value e) (i_value i) /\ 0 < e_value e /\ e_line e = i_line i.

Lemma entry_reads m lo hi e i : entry_is m lo hi e i -> reads_as m e i.
Proof. by intros ([] & [] & [] & ? & ?). Qed.

(** The outcome of the parser over the lines against the format. *)
Definition outcome (realloc_ok : Z -> bool) (res : Parser + mem * IniCfgError) (before : list ini_entry)
    (spec : list ini_entry + Z * string) : Prop :=
  match res with
  | inl s => exists es, spec = inl es /\ Forall2 (reads_as (p_mem s)) (p_entries s) (before ++ es)
  | inr (m, err) =>
      (exists line msg, spec = inr (line, msg) /\ err = set_err line msg) \/
      (err_msg err = "out of memory"%string /\ exists n, realloc_ok n = false)
  end.

Definition result_mem (res : Parser + mem * IniCfgError) : mem := match res with inl s => p_mem s | inr (m, _) => m end.

Lemma read_lines_cons section n l ls : read_lines section n (l :: ls) =
  match classify l with
  | Blank_line => read_lines section (u32 (n + 1)) ls
  | Section_line name => read_lines name (u32 (n + 1)) ls
  | Entry_line key value =>
    match read_lines section (u32 (n + 1)) ls with
    | inl es => inl (mkIni section key value (u32 (n + 1)) :: es)
    | inr e => inr e
    end
  | Bad_line msg => inr (u32 (n + 1), msg)
  end.
Proof. done. Qed.

(** The parser between two lines: [before] is what has been read, [section] the
    current section, and the text still to be read lies in [p, hi). *)
Record parser_at (s : Parser) (p hi : Z) (section : list Z) (before : list ini_entry) : Prop := {
  pa_section : kept_string (p_mem s) p hi section (p_section s);
  pa_entries : Forall2 (entry_is (p_mem s) p hi) (p_entries s) before;
  pa_cap : cap_ok (p_cap s) (Z.of_nat (length (p_entries s)))
}.

(** A line moves the parser on, or is in error. *)
Lemma line_step realloc_ok s s0 m p q hi section before l r :
  parser_at s0 p hi section before -> p_entries s = p_entries s0 -> p_cap s = p_cap s0 -> p_section s = p_section s0 ->
  mem_frame p (q - p) (p_mem s0) m -> 0 < p <= q -> q <= hi -> Z.of_nat (length (p_entries s)) < 2 ^ 60 ->
  line_done realloc_ok s m p q (classify l) r ->
  match r with
  | Line_ok s' => p_mem s' = m /\ p_line s' = p_line s /\ (length (p_entries s') <= S (length (p_entries s)))%nat /\
      (forall msg, classify l <> Bad_line msg) /\
      parser_at s' q hi (match classify l with Section_line name => name | _ => section end)
        (match classify l with Entry_line key value => before ++ [mkIni section key value (p_line s)] | _ => before end)
  | Line_bad m' msg => m' = m /\ (classify l = Bad_line msg \/ msg = "out of memory"%string /\ exists n, realloc_ok n = false)
  end.
Proof.
  intros [Hs He Hc] Ee Ec Es Hf Hpq Hhi Hlen Hr.
  assert (kept_string m q hi section (p_section s)) as Hs'.
  { rewrite Es. eapply kept_less; [eapply kept_frame; [exact Hs|exact Hf|..]|..]; lia. }
  assert (Forall2 (entry_is m q hi) (p_entries s) before) as He'.
  { rewrite Ee. eapply Forall2_impl; [exact He|]. intros e i Hi. eapply entry_step; [exact Hi|exact Hf|lia..]. }
  rewrite <-Ee, <-Ec in Hc. unfold line_done in Hr. destruct (classify l) as [|name|key value|msg].
  - subst r. cbn. by split_and!; [done|done|lia|..].
  - destruct Hr as (a & -> & Ha). cbn. split_and!; [done|done|lia|done|]. split; cbn; [|done|done].
    eapply inner_kept; [done|lia].
  - destruct Hr as (k & v & -> & Hk & Hv). unfold add_entry.
    pose proof (grow_spec realloc_ok _ _ Hc ltac:(lia)) as Hg. destruct (if _ <? _ then _ else _) as [cap'|]; [|split; [done|by right]].
    cbn. split_and!; [done|done|rewrite length_app; cbn; lia|done|]. split; cbn; [done| |].
    + apply Forall2_app; [done|]. constructor; [|done]. split_and!; cbn; [done|eapply inner_kept; [done|lia]..|destruct Hv; lia|done].
    + rewrite length_app, Nat2Z.inj_add. done.
  - subst r. split; [done|by left].
Qed.

Lemma text_line t : t <> [] ->
  exists l t', (NL ∉ l) /\ ((t = l /\ t' = [] /\ l <> []) \/ t = l ++ NL :: t') /\ ini_lines t = l :: ini_lines t'.
Proof.
  intros Ht. destruct (split_at NL t) as [[l t']|] eqn:E.
  - apply split_at_Some in E as [-> Hn]. exists l, t'. split_and!; [done|by right|by apply ini_lines_nl].
  - apply split_at_None in E. exists t, []. split_and!; [done|by left|by apply ini_lines_last].
Qed.

Lemma parse_end realloc_ok fuel' fuel s e : (0 < fuel)%nat -> parse_lines realloc_ok fuel' fuel s e e = Some (inl s).
Proof. intros H. destruct fuel; [lia|]. cbn. by rewrite Z.leb_refl. Qed.

(** The end of the line is found and cut off. *)
Lemma line_cut m p t l t' : string_at m p t -> NL ∉ l -> (t = l /\ t' = [] /\ l <> []) \/ t = l ++ NL :: t' ->
  let e := p + Z.of_nat (length t) in
  let q := find_eol (Z.to_nat (e - p)) m p in
  let m' := if q <? e then mem_write m q [0] else m in
  let next := if q <? e then q + 1 else q in
  q = p + Z.of_nat (length l) /\ string_at m' p l /\ mem_frame p (str_size l) m m' /\ string_at m' next t' /\
  next + Z.of_nat (length t') = e /\ p < next <= p + str_size l /\ (t' <> [] -> next = p + str_size l).
Proof.
  intros Ht Hn Hcase e q m' next.
  assert (q = p + Z.of_nat (length l)) as Eq.
  { unfold q. replace (Z.to_nat (e - p)) with (length t) by (unfold e; lia).
    destruct Hcase as [(-> & _ & _)| ->].
    - replace (length l) with (length (l ++ [])) at 1 by (by rewrite app_nil_r). apply find_eol_at; [by rewrite app_nil_r|done|by left].
    - apply find_eol_at; eauto. }
  split; [done|]. unfold m', next, e. clearbody q. subst q. clear m' next e. unfold str_size.
  destruct Hcase as [(-> & -> & Hl)| ->].
  - rewrite Z.ltb_irrefl. assert (length l <> 0)%nat by (by destruct l). split_and!; [done|done| |cbn; lia|lia|lia|done].
    rewrite <-(app_nil_r l) in Ht. by apply string_at_app in Ht.
  - rewrite length_app. cbn [length]. rewrite (proj2 (Z.ltb_lt _ _)) by lia.
    split_and!; [by eapply string_at_cut|apply frame_cut; unfold str_size; lia| |lia|lia|lia|lia].
    apply (string_at_frame m _ (p + Z.of_nat (length l)) 1); [|apply mem_write_frame; cbn; lia|unfold rdisj; lia].
    apply string_at_app in Ht. by destruct Ht as (_ & _ & Ht).
Qed.

Lemma outcome_more realloc_ok res before i spec : outcome realloc_ok res (before ++ [i]) spec ->
  outcome realloc_ok res before (match spec with inl es => inl (i :: es) | inr e => inr e end).
Proof.
  unfold outcome. destruct res as [s|[m err]].
  - intros (es & -> & H). exists (i :: es). split; [done|]. by rewrite <-app_assoc in H.
  - intros [(line & msg & -> & ->)|H]; [left; eauto|by right].
Qed.

Lemma outcome_done realloc_ok s p hi section before : parser_at s p hi section before -> outcome realloc_ok (inl s) before (inl []).
Proof.
  intros [_ He _]. exists []. split; [done|]. rewrite app_nil_r. eapply Forall2_impl; [exact He|]. apply entry_reads.
Qed.

(** The outcome of a good line and of the rest. *)
Lemma line_outcome realloc_ok (R : Parser + mem * IniCfgError -> Prop) (Q : Parser + mem * IniCfgError -> Prop) section n l before ls :
  (forall msg, classify l <> Bad_line msg) ->
  (exists res, R res /\
    outcome realloc_ok res (match classify l with Entry_line key value => before ++ [mkIni section key value n] | _ => before end)
      (read_lines (match classify l with Section_line name => name | _ => section end) n ls) /\ Q res) ->
  exists res, R res /\
    outcome realloc_ok res before
      match classify l with
      | Blank_line => read_lines section n ls
      | Section_line name => read_lines name n ls
      | Entry_line key value =>
        match read_lines section n ls with
        | inl es => inl (mkIni section key value n :: es)
        | inr e => inr e
        end
      | Bad_line msg => inr (n, msg)
      end /\ Q res.
Proof.
  intros Hn (res & HR & Ho & HQ). exists res. split; [done|]. split; [|done].
  destruct (classify l) as [| | |msg]; [done..|by apply outcome_more|by destruct (Hn msg)].
Qed.

(** The loop follows the format, within the bytes of the text. *)
Lemma parse_lines_at realloc_ok fuel' fuel : forall s p t section before,
  string_at (p_mem s) p t -> (length t < fuel)%nat -> (length t < fuel')%nat -> 0 < p ->
  parser_at s p (p + str_size t) section before -> Z.of_nat (length (p_entries s)) + Z.of_nat (length t) < 2 ^ 60 ->
  exists res, parse_lines realloc_ok fuel' fuel s p (p + Z.of_nat (length t)) = Some res /\
    outcome realloc_ok res before (read_lines section (p_line s) (ini_lines t)) /\
    mem_frame p (str_size t) (p_mem s) (result_mem res).
Proof.
  induction fuel as [|fuel IH]; intros s p t section before Ht Hf Hf' Hp Hs Hlen; [lia|].
  destruct (decide (t = [])) as [->|Hne].
  { cbn [length]. rewrite Z.add_0_r, parse_end by lia. eexists. split; [done|]. split; [by eapply outcome_done|done]. }
  assert (length t <> 0)%nat as Hl0 by (by destruct t). destruct (text_line t Hne) as (l & t' & Hn & Hcase & Hlines).
  assert (length l <= length t /\ length t' < length t)%nat as [Hll Hlt].
  { destruct Hcase as [(-> & -> & _)| ->]; [cbn; lia|]. rewrite length_app. cbn. lia. }
  rewrite Hlines, read_lines_cons. cbn [parse_lines]. rewrite (proj2 (Z.leb_gt _ _)) by lia.
  pose proof (line_cut (p_mem s) p t l t' Ht Hn Hcase) as Hcut. cbn zeta in Hcut. set (e := p + Z.of_nat (length t)) in *.
  set (q := find_eol _ _ _) in *. destruct Hcut as (Eq & Hl & Hfm & Ht' & Hend & Hnext & Hnext').
  set (m := if q <? e then mem_write (p_mem s) q [0] else p_mem s) in *. set (next := if q <? e then q + 1 else q) in *.
  set (s1 := mkParser m (p_entries s) (p_cap s) (p_section s) (u32 (p_line s + 1))).
  assert (str_size l <= str_size t /\ next + str_size t' = p + str_size t) as [Hsl Hst] by (unfold str_size, e in *; lia).
  destruct (line_at realloc_ok fuel' s1 p l Hl) as (r & m1 & -> & Hf1 & Hr); [lia|done|]. cbn [mbind option_bind].
  assert (mem_frame p (str_size l) (p_mem s) m1) as Hfall by (etransitivity; [exact Hfm|exact Hf1]).
  pose proof (line_step realloc_ok s1 s m1 p (p + str_size l) (p + str_size t) section before l r Hs) as Hstep.
  replace (p + str_size l - p) with (str_size l) in Hstep by lia.
  specialize (Hstep eq_refl eq_refl eq_refl Hfall ltac:(pose proof (str_size_pos l); lia) ltac:(lia) ltac:(cbn; lia) Hr). clear Hr.
  destruct r as [s2|m2 msg]; cycle 1.
  { destruct Hstep as [-> Hbad]. eexists. split; [done|]. split; [|eapply mem_frame_mono; [| |exact Hfall]; lia].
    cbn [outcome p_line s1]. destruct Hbad as [->|[-> Hbad]]; [left; eauto|by right]. }
  destruct Hstep as (<- & Hline & Hlen2 & Hnb & Hs2). cbn in Hline, Hlen2.
  cbn [p_line s1] in Hs2. rewrite <-Hline in Hs2 |- *. apply line_outcome; [done|].
  destruct (decide (t' = [])) as [->|Hne'].
  - replace next with e by (cbn in Hend; lia). rewrite parse_end by lia. eexists. split; [done|].
    split; [by eapply outcome_done|]. eapply mem_frame_mono; [| |exact Hfall]; lia.
  - rewrite <-Hend. rewrite (Hnext' Hne') in *. rewrite <-Hst in Hs2.
    assert (string_at (p_mem s2) (p + str_size l) t') as Ht2 by (eapply string_at_frame; [exact Ht'|exact Hf1|unfold rdisj; lia]).
    destruct (IH s2 _ t' _ _ Ht2 ltac:(lia) ltac:(lia) ltac:(lia) Hs2 ltac:(lia)) as (res & Hres & Hout & Hfr).
    exists res. split; [done|]. split; [exact Hout|].
    etransitivity; eapply mem_frame_mono; [| |exact Hfall| | |exact Hfr]; lia.
Qed.

(** ** What is read is no longer than the text *)

Definition short (n : nat) (i : ini_entry) : Prop :=
  (length (i_section i) <= n)%nat /\ (length (i_key i) <= n)%nat /\ (length (i_value i) <= n)%nat.

Lemma split_at_length c t a b : split_at c t = Some (a, b) -> (length a <= length t /\ length b <= length t)%nat.
Proof. intros [-> _]%split_at_Some. rewrite length_app. cbn. lia. Qed.

Lemma value_length t : (length (value_of t) <= length t)%nat.
Proof.
  pose proof (trim_length t). unfold value_of. destruct (trim t) as [|c v]; [cbn; lia|].
  destruct (comment_at c v) as [a|] eqn:E; [|done]. destruct (comment_at_split _ _ _ E) as [b ->].
  pose proof (trim_length (c :: a)). cbn [length] in *. rewrite length_app in *. lia.
Qed.

Lemma classify_length l :
  match classify l with
  | Section_line name => (length name <= length l)%nat
  | Entry_line key value => (length key <= length l /\ length value <= length l)%nat
  | _ => True
  end.
Proof.
  pose proof (trim_length l) as Hl. unfold classify, classify_by. destruct (trim l) as [|c t]; [done|]. cbn [length] in *.
  destruct (_ || _); [done|]. destruct (c =? LBRACK).
  - destruct (split_at RBRACK t) as [[a b]|] eqn:E; [|done]. apply split_at_length in E as [Ha _].
    pose proof (trim_length a). destruct (trim a); [done|]. lia.
  - destruct (split_at EQUALS _) as [[a b]|] eqn:E; [|done]. apply split_at_length in E as [Ha Hb]. cbn [length] in *.
    pose proof (trim_length a). pose proof (value_length b). destruct (trim a); [done|]. lia.
Qed.

Lemma read_lines_short n section line ls es : (length section <= n)%nat -> Forall (fun l => (length l <= n)%nat) ls ->
  read_lines section line ls = inl es -> Forall (short n) es.
Proof.
  revert section line es. induction ls as [|l ls IH]; intros section line es Hs Hl Hr; [by injection Hr as <-|].
  apply Forall_cons in Hl as [Hl Hls]. rewrite read_lines_cons in Hr. pose proof (classify_length l).
  destruct (classify l) as [|name|key value|msg]; [exact (IH _ _ _ Hs Hls Hr)|exact (IH name _ _ ltac:(lia) Hls Hr)| |done].
  destruct (read_lines section _ ls) as [es'|] eqn:E; [|done]. injection Hr as <-.
  constructor; [split_and!; cbn; lia|exact (IH _ _ _ Hs Hls E)].
Qed.

Lemma lines_from_short n line t : (length line + length t <= n)%nat -> Forall (fun l => (length l <= n)%nat) (lines_from line t).
Proof.
  revert line. induction t as [|c t IH]; intros line Hn; cbn [lines_from length] in *.
  - destruct line; [done|]. constructor; [lia|done].
  - destruct (c =? NL); [constructor; [lia|]|]; apply IH; rewrite ?length_app; cbn; lia.
Qed.

Lemma ini_read_short t es : ini_read t = inl es -> Forall (short (length t)) es.
Proof. apply read_lines_short; [cbn; lia|]. by apply lines_from_short. Qed.

(** ** Looking up *)

(** The value of the first entry with this section and key. *)
Fixpoint ini_lookup (es : list ini_entry) (section key : list Z) : option (list Z) :=
  match es with
  | [] => None
  | i :: es => if bool_decide (i_section i = section) && bool_decide (i_key i = key) then Some (i_value i) else ini_lookup es section key
  end.

(** A pointer to the string, or [NULL]. *)
Definition points_to (m : mem) (a : Z) (v : option (list Z)) : Prop :=
  match v with Some v => a <> 0 /\ string_at m a v | None => a = 0 end.

Lemma get_from_at fuel m es is_ n section key sp kp : Forall2 (reads_as m) es is_ -> Forall (short n) is_ ->
  string_at m sp section -> string_at m kp key -> (length section < fuel)%nat -> (length key < fuel)%nat -> (n < fuel)%nat ->
  exists a, get_from fuel m es sp kp = Some a /\ points_to m a (ini_lookup is_ section key).
Proof.
  intros He Hn Hs Hk Hls Hlk Hf. induction He as [|e i es is_ (Hes & Hek & Hev & Hp & _) _ IH]; [by exists 0|].
  apply Forall_cons in Hn as [(Hn1 & Hn2 & _) Hn]. cbn [get_from ini_lookup].
  rewrite (streq_at _ _ _ _ _ _ Hes Hs) by lia. cbn [mbind option_bind].
  destruct (bool_decide (i_section i = section)); cbn [andb]; [|by apply IH].
  rewrite (streq_at _ _ _ _ _ _ Hek Hk) by lia. cbn [mbind option_bind].
  destruct (bool_decide (i_key i = key)); [|by apply IH].
  exists (e_value e). split; [done|]. split; [lia|done].
Qed.

Lemma ini_lookup_spec es section key v : ini_lookup es section key = Some v ->
  exists i, i ∈ es /\ i_section i = section /\ i_key i = key /\ i_value i = v.
Proof.
  induction es as [|i es IH]; cbn; [done|]. destruct (_ && _) eqn:E.
  - intros [= <-]. apply andb_true_iff in E as [?%bool_decide_eq_true ?%bool_decide_eq_true]. exists i. split_and!; [constructor|done..].
  - intros (j & ? & ?)%IH. exists j. split; [by constructor|done].
Qed.
