(* ===== verification/InicfgText.v ===== *)
(** The configuration parser as a whole: the parser and the look-up against the
    format ([InicfgSpec]), texts printed from a list of items read back, numbers
    printed in decimal and hexadecimal read back. *)
From Stdlib Require Import String.
From S2P Require Import Prelude HostMem CString Inicfg InicfgSpec.
#[local] Open Scope Z_scope.

(** ** Parsing and looking up *)

Lemma string_at_move m m' s d t : string_at m s t ->
  (forall i, 0 <= i < str_size t -> m' (d + i) = m (s + i)) -> string_at m' d t.
Proof.
  revert s d. induction t as [|c t IH]; intros s d Ht Hm; cbn [string_at] in *.
  - specialize (Hm 0). rewrite !Z.add_0_r in Hm. rewrite Hm; [done|]. unfold str_size. cbn. lia.
  - destruct Ht as (Hc & Hz & Ht). rewrite str_size_cons in Hm. pose proof (str_size_pos t). split_and!; [|done|].
    + specialize (Hm 0). rewrite !Z.add_0_r in Hm. rewrite Hm; [done|lia].
    + apply (IH (s + 1)); [done|]. intros i Hi. rewrite <-!Z.add_assoc. apply Hm. lia.
Qed.

Lemma string_at_copy m s d t : string_at m s t -> string_at (memcpy m d s (str_size t)) d t.
Proof.
  intros Ht. eapply string_at_move; [done|]. intros i Hi. unfold memcpy.
  rewrite mem_write_in by (rewrite mem_read_length; unfold rng; lia).
  rewrite mem_read_nth by lia. f_equal. lia.
Qed.

(** The text [t] is in memory, [malloc] has found room for it, and the empty
    literal is elsewhere. *)
Record parse_input (fuel : nat) (m : mem) (text empty block : Z) (t : list Z) : Prop := {
  pi_text : string_at m text t;
  pi_not_null : text <> 0;
  pi_block : 0 < block;
  pi_empty : m empty = 0;
  pi_apart : rdisj empty 1 block (str_size t);
  pi_size : Z.of_nat (length t) < 2 ^ 60;
  pi_fuel : (length t < fuel)%nat
}.

(** A string the caller passes to a look-up, outside the arena. *)
Definition argument (fuel : nat) (m : mem) (lo n : Z) (a : Z) (t : list Z) : Prop :=
  string_at m a t /\ a <> 0 /\ rdisj a (str_size t) lo n /\ (length t < fuel)%nat.

(** What the parser returns for the outcome of its loop. *)
Definition parse_result (block n : Z) (res : Parser + mem * IniCfgError) : mem * IniCfg * IniCfgError * bool :=
  match res with
  | inl s => (p_mem s, mkCfg (p_entries s) (Z.of_nat (length (p_entries s))) block n, mkErr 0 EmptyString, true)
  | inr (m, err) => (m, no_cfg, err, false)
  end.

Lemma parse_string_at realloc_ok fuel m text empty block t : parse_input fuel m text empty block t ->
  exists res, inicfg_parse_string realloc_ok fuel m text empty block = Some (parse_result block (str_size t) res) /\
    outcome realloc_ok res [] (ini_read t) /\ mem_frame block (str_size t) m (result_mem res).
Proof.
  intros [Ht Hnn Hb He Ha Hs Hf]. unfold inicfg_parse_string. rewrite (proj2 (Z.eqb_neq text 0) Hnn). cbn zeta.
  rewrite (strlen_at _ _ _ t) by done. cbn [mbind option_bind]. rewrite (proj2 (Z.eqb_neq _ _)) by lia.
  fold (str_size t). set (m1 := memcpy _ _ _ _). pose proof (str_size_pos t).
  assert (mem_frame block (str_size t) m m1) as Hfr by (apply memcpy_frame; lia).
  destruct (parse_lines_at realloc_ok fuel fuel (mkParser m1 [] 0 empty 0) block t [] []) as (res & -> & Hout & Hfr');
    [by apply string_at_copy|done..| |cbn; lia|].
  { split; [split|done|split; [cbn; lia|by left]].
    - cbn. by rewrite <-(Hfr empty) by (unfold rng, rdisj in *; lia).
    - unfold rdisj in *. change (str_size []) with 1. cbn [p_section]. lia. }
  exists res. split_and!; [by destruct res as [|[]]|done|]. etransitivity; [exact Hfr|exact Hfr'].
Qed.

(** ** The documented format

    [inicfg.h] lets a comment begin with [#] or [;] at the start of a line and, in its
    example, behind a value or in the place of an empty one; a value is otherwise the
    text from its first to its last character that is not white. *)

(** A value without its comment, which begins the value or follows a blank. *)
Definition doc_value (t : list Z) : list Z := trim (default t (comment_at SPACE t)).

Definition doc_line : list Z -> ini_line := classify_by doc_value.

Fixpoint doc_lines (section : list Z) (lineno : Z) (ls : list (list Z)) : list ini_entry + Z * string :=
  match ls with
  | [] => inl []
  | l :: ls =>
    let lineno := u32 (lineno + 1) in
    match doc_line l with
    | Blank_line => doc_lines section lineno ls
    | Section_line name => doc_lines name lineno ls
    | Entry_line key value =>
      match doc_lines section lineno ls with
      | inl es => inl (mkIni section key value lineno :: es)
      | inr e => inr e
      end
    | Bad_line msg => inr (lineno, msg)
    end
  end.

Definition doc_read (text : list Z) : list ini_entry + Z * string := doc_lines [] 0 (ini_lines text).

(** An entry whose value does not begin with a comment. *)
Definition plain_line (l : list Z) : bool :=
  match classify_by id l with
  | Entry_line _ value => match trim value with c :: _ => negb ((c =? HASH) || (c =? SEMI)) | [] => true end
  | _ => true
  end.

Lemma comment_at_app c t a : comment_at c t = Some a -> forall u, comment_at c (t ++ u) = Some a.
Proof.
  revert c a. induction t as [|d t IH]; intros c a H u; cbn [comment_at app] in *; [done|].
  destruct (_ && _); [done|]. destruct (comment_at d t) as [a'|] eqn:E; [|done]. by rewrite (IH d a' E u).
Qed.

Lemma comment_at_spaces c t u : comment_at c t = None -> Forall (fun x => is_space x = true) u -> comment_at c (t ++ u) = None.
Proof.
  revert c. induction t as [|d t IH]; intros c H Hu; cbn [comment_at app] in *.
  - clear H. revert c. induction Hu as [|x u Hx Hu IH]; intros c; cbn [comment_at]; [done|]. rewrite (IH x).
    assert ((x =? HASH) || (x =? SEMI) = false) as ->; [|done].
    destruct (Z.eqb_spec x HASH) as [->|]; [done|]. by destruct (Z.eqb_spec x SEMI) as [->|].
  - destruct (_ && _); [done|]. destruct (comment_at d t) eqn:E; [done|]. by rewrite (IH d).
Qed.

Lemma comment_at_blanks u : Forall (fun x => is_blank x = true) u -> forall p t, is_blank p = true -> t <> [] ->
  exists q, is_blank q = true /\ comment_at p (u ++ t) = (a ← comment_at q t; Some (u ++ a)).
Proof.
  induction 1 as [|x u Hx Hu IH]; intros p t Hp Ht; cbn [app].
  - exists p. split; [done|]. by destruct (comment_at p t).
  - destruct (IH x t Hx Ht) as (q & Hq & E). exists q. split; [done|]. cbn [comment_at]. rewrite E.
    assert ((x =? HASH) || (x =? SEMI) = false) as ->.
    { destruct (Z.eqb_spec x HASH) as [->|]; [done|]. by destruct (Z.eqb_spec x SEMI) as [->|]. }
    cbn [andb]. by destruct (comment_at q t).
Qed.

Lemma trim_front_app u t : Forall (fun x => is_blank x = true) u -> trim_front (u ++ t) = trim_front t.
Proof. induction 1 as [|x u Hx _ IH]; cbn; [done|]. by rewrite Hx. Qed.

(** Unless it begins with a comment, a value is read as documented. *)
Lemma value_of_doc t : match trim t with c :: _ => negb ((c =? HASH) || (c =? SEMI)) | [] => true end = true ->
  value_of t = doc_value t.
Proof.
  intros Hp. unfold value_of, doc_value. destruct (trim_front_split t) as (u & Eu & Hu). specialize (Hu _ eq_refl).
  destruct (trim_back_split (trim_front t)) as [e Ee]. fold (trim t) in Ee.
  assert (Forall (fun x => is_space x = true) e) as He.
  { apply trim_back_nil. pose proof (trim_back_app (trim t) e) as H. rewrite <-Ee in H. fold (trim t) in H.
    destruct (trim_back e) as [|x e']; [done|]. exfalso. apply (f_equal length) in H. rewrite length_app in H. cbn in H. lia. }
  destruct (trim t) as [|c v] eqn:Et.
  - assert (comment_at SPACE t = None) as ->; [|by cbn].
    rewrite Eu, Ee. apply (comment_at_spaces SPACE []); [done|]. apply Forall_app. split; [|done].
    eapply Forall_impl; [exact Hu|]. intros x Hx. unfold is_space. by rewrite Hx.
  - destruct (comment_at_blanks u Hu SPACE (trim_front t) eq_refl) as (q & Hq & Ec); [by rewrite Ee|].
    assert (comment_at q (trim_front t) = a ← comment_at c (v ++ e); Some (c :: a)) as Eq.
    { rewrite Ee. cbn [app comment_at]. by destruct ((c =? HASH) || (c =? SEMI)). }
    rewrite Eu at 1 2. rewrite Ec, Eq. destruct (comment_at c v) as [a|] eqn:Ev.
    + rewrite (comment_at_app _ _ _ Ev). cbn. unfold trim. by rewrite trim_front_app.
    + rewrite (comment_at_spaces _ _ _ Ev He). cbn. by rewrite <-Eu.
Qed.

Lemma plain_line_doc l : plain_line l = true -> classify l = doc_line l.
Proof.
  unfold plain_line, classify, doc_line, classify_by. destruct (trim l) as [|c t]; [done|].
  destruct (_ || _); [done|]. destruct (c =? LBRACK); [done|]. destruct (split_at EQUALS (c :: t)) as [[k v]|]; [|done].
  destruct (trim k); [done|]. intros Hp. by rewrite value_of_doc.
Qed.

Lemma doc_lines_read ls : forall section n, Forall (fun l => plain_line l = true) ls ->
  read_lines section n ls = doc_lines section n ls.
Proof.
  induction ls as [|l ls IH]; intros section n Hf; [done|]. apply Forall_cons in Hf as [Hl Hls].
  cbn [read_lines doc_lines]. rewrite (plain_line_doc l Hl). destruct (doc_line l); by rewrite ?IH.
Qed.

(** C39. The configuration parser implements its documented format, on every text in
    which no value begins with a comment: the parser returns, changes no memory but its
    arena, and either delivers entries whose sections, keys, values and line numbers
    are those the format assigns to the text - a value being what stands behind the
    equals sign without its white space at the ends, up to a [#] or [;] behind a blank,
    as in the header's example - and then every look-up returns a pointer to the value
    of the first entry with that section and key, or NULL; or leaves an empty
    configuration and reports the first line that breaks the format and why, or that
    memory ran out.  Values that begin with a comment, as in [empty_value =   # ...],
    are outside the theorem: the code takes the comment for the value. *)
Theorem inicfg_parse_refines realloc_ok fuel m text empty block t :
  parse_input fuel m text empty block t -> Forall (fun l => plain_line l = true) (ini_lines t) ->
  exists m' cfg err ok, inicfg_parse_string realloc_ok fuel m text empty block = Some (m', cfg, err, ok) /\
    mem_frame block (str_size t) m m' /\
    if ok : bool then
      exists es, doc_read t = inl es /\ Forall2 (reads_as m') (entries cfg) es /\ count cfg = Z.of_nat (length es) /\
        forall section key sp kp,
          argument fuel m block (str_size t) sp section -> argument fuel m block (str_size t) kp key ->
          exists a, inicfg_get fuel m' cfg sp kp = Some a /\ points_to m' a (ini_lookup es section key)
    else
      cfg = no_cfg /\
      ((exists line msg, doc_read t = inr (line, msg) /\ err = set_err line msg) \/
       (err_msg err = "out of memory"%string /\ exists n, realloc_ok n = false)).
Proof.
  intros Hin Hp. destruct (parse_string_at realloc_ok fuel m text empty block t Hin) as (res & -> & Hout & Hall).
  unfold doc_read. rewrite <-doc_lines_read by done. fold (ini_read t).
  destruct res as [s|[m2 err]]; (eexists _, _, _, _; split; [done|]; split; [exact Hall|]); [|by split].
  destruct Hout as (es & Hes & Hread). exists es. split_and!; [done|done|cbn; by rewrite (Forall2_length _ _ _ Hread)|].
  intros section key sp kp (Hsp & Hs0 & Hsd & Hsl) (Hkp & Hk0 & Hkd & Hkl). unfold inicfg_get.
  rewrite (proj2 (Z.eqb_neq _ _)), (proj2 (Z.eqb_neq _ _)) by done.
  eapply get_from_at; [exact Hread|by apply ini_read_short| | |done|done|by destruct Hin].
  - eapply string_at_frame; [exact Hsp|exact Hall|]. unfold rdisj in *. lia.
  - eapply string_at_frame; [exact Hkp|exact Hall|]. unfold rdisj in *. lia.
Qed.

(** ** Printing *)

Inductive ini_item :=
  | Item_blank
  | Item_comment (text : list Z)
  | Item_section (name : list Z)
  | Item_entry (key value : list Z).

Definition print_item (i : ini_item) : list Z :=
  match i with
  | Item_blank => []
  | Item_comment text => HASH :: text
  | Item_section name => LBRACK :: name ++ [RBRACK]
  | Item_entry key value => key ++ [SPACE; EQUALS; SPACE] ++ value
  end.

Definition print_items (its : list ini_item) : list Z := mjoin (map (fun i => print_item i ++ [NL]) its).

(** What a name, a key and a value may be to be printed. *)
Definition line_bytes (t : list Z) : Prop := (NL ∉ t) /\ (0 ∉ t).

Definition item_ok (i : ini_item) : Prop :=
  match i with
  | Item_blank => True
  | Item_comment text => line_bytes text
  | Item_section name => line_bytes name /\ name <> [] /\ trim name = name /\ (RBRACK ∉ name)
  | Item_entry key value =>
      line_bytes key /\ trim key = key /\ (EQUALS ∉ key) /\
      match key with c :: _ => c <> HASH /\ c <> SEMI /\ c <> LBRACK | [] => False end /\
      line_bytes value /\ value_of value = value
  end.

(** The entries of the items, the first item being the line after [line]. *)
Fixpoint item_entries (section : list Z) (line : Z) (its : list ini_item) : list ini_entry :=
  match its with
  | [] => []
  | Item_section name :: its => item_entries name (u32 (line + 1)) its
  | Item_entry key value :: its => mkIni section key value (u32 (line + 1)) :: item_entries section (u32 (line + 1)) its
  | _ :: its => item_entries section (u32 (line + 1)) its
  end.

Lemma trimmed_head c t : trim (c :: t) = c :: t -> is_blank c = false.
Proof.
  unfold trim. cbn [trim_front]. destruct (is_blank c) eqn:E; [|done]. intros H. exfalso.
  assert (length (c :: t) <= length t)%nat; [|cbn in *; lia]. rewrite <-H.
  etransitivity; [|apply (trim_front_length t)]. destruct (trim_back_split (trim_front t)) as [a Ha].
  rewrite Ha at 2. rewrite length_app. lia.
Qed.

Lemma trimmed_back t : trim t = t -> trim_front t = t /\ trim_back t = t.
Proof.
  destruct t as [|c t]; [done|]. intros H. pose proof (trimmed_head _ _ H) as Hc. unfold trim in H. cbn [trim_front] in *.
  by rewrite Hc in *.
Qed.

Lemma trim_front_blank c t : is_blank c = true -> trim_front (c :: t) = trim_front t.
Proof. intros H. cbn. by rewrite H. Qed.

Lemma trim_back_solid t c u : is_space c = false -> trim_back (t ++ c :: u) = t ++ c :: trim_back u.
Proof.
  intros H. rewrite trim_back_app. cbn [trim_back]. destruct (trim_back u); by rewrite ?H.
Qed.

Lemma value_of_trimmed v : value_of v = v -> trim v = v.
Proof.
  unfold value_of. destruct (trim v) as [|c t] eqn:E; [done|]. destruct (comment_at c t) as [a|]; [|done].
  intros H. rewrite <-E, <-H. apply trim_idem.
Qed.

Lemma value_of_trim v : value_of (trim v) = value_of v.
Proof. unfold value_of. by rewrite trim_idem. Qed.

Lemma trim_blank_value v : trim v = v -> trim (trim_back (SPACE :: v)) = v.
Proof.
  intros H. destruct v as [|c v]; [done|]. destruct (trimmed_back _ H) as [Hf Hb].
  assert (trim_back (SPACE :: c :: v) = SPACE :: c :: v) as ->.
  { change (SPACE :: c :: v) with ([SPACE] ++ c :: v). rewrite trim_back_app, Hb. done. }
  unfold trim in *. by rewrite trim_front_blank.
Qed.

Lemma classify_section name : item_ok (Item_section name) -> classify (print_item (Item_section name)) = Section_line name.
Proof.
  intros (_ & Hne & Ht & Hn). unfold classify, classify_by. cbn [print_item].
  assert (trim (LBRACK :: name ++ [RBRACK]) = LBRACK :: name ++ [RBRACK]) as ->.
  { unfold trim. cbn [trim_front]. change (is_blank LBRACK) with false. cbn iota. change (LBRACK :: name ++ [RBRACK]) with ((LBRACK :: name) ++ [RBRACK]).
    by rewrite trim_back_solid. }
  cbn [orb Z.eqb]. change (_ || _) with false. cbn iota. rewrite Z.eqb_refl, split_at_app, Ht by done. by destruct name.
Qed.

Lemma classify_entry key value : item_ok (Item_entry key value) -> classify (print_item (Item_entry key value)) = Entry_line key value.
Proof.
  intros (_ & Ht & He & Hhd & _ & Hv). destruct key as [|c key]; [done|]. destruct Hhd as (H1 & H2 & H3).
  unfold classify, classify_by. cbn [print_item].
  assert (trim ((c :: key) ++ [SPACE; EQUALS; SPACE] ++ value) = (c :: key ++ [SPACE]) ++ EQUALS :: trim_back (SPACE :: value)) as ->.
  { unfold trim. cbn [app trim_front]. rewrite (trimmed_head _ _ Ht).
    replace (c :: key ++ SPACE :: EQUALS :: SPACE :: value) with ((c :: key ++ [SPACE]) ++ EQUALS :: SPACE :: value)
      by (cbn; by rewrite <-app_assoc). by rewrite trim_back_solid. }
  cbn [app]. rewrite !(proj2 (Z.eqb_neq _ _)) by done. cbn [orb].
  change (c :: (key ++ [SPACE]) ++ EQUALS :: trim_back (SPACE :: value)) with ((c :: key ++ [SPACE]) ++ EQUALS :: trim_back (SPACE :: value)).
  rewrite split_at_app.
  - assert (trim (c :: key ++ [SPACE]) = c :: key) as ->.
    { destruct (trimmed_back _ Ht) as [_ Hb]. unfold trim. cbn [trim_front]. rewrite (trimmed_head _ _ Ht).
      change (c :: key ++ [SPACE]) with ((c :: key) ++ [SPACE]). by rewrite trim_back_snoc. }
    by rewrite <-value_of_trim, trim_blank_value, Hv by (by apply value_of_trimmed).
  - change (c :: key ++ [SPACE]) with ((c :: key) ++ [SPACE]). rewrite elem_of_app. intros [?|[?|[]%not_elem_of_nil]%elem_of_cons]; done.
Qed.

Lemma classify_item section line i ls : item_ok i ->
  read_lines section line (print_item i :: ls) =
  match i with
  | Item_section name => read_lines name (u32 (line + 1)) ls
  | Item_entry key value =>
    match read_lines section (u32 (line + 1)) ls with inl es => inl (mkIni section key value (u32 (line + 1)) :: es) | inr e => inr e end
  | _ => read_lines section (u32 (line + 1)) ls
  end.
Proof.
  intros Hi. rewrite read_lines_cons. destruct i as [|text|name|key value]; [done| |by rewrite classify_section|by rewrite classify_entry].
  replace (classify _) with Blank_line; [done|]. unfold classify, classify_by, trim. cbn [print_item trim_front].
  change (is_blank HASH) with false. cbn iota. change (HASH :: text) with ([] ++ HASH :: text). by rewrite trim_back_solid.
Qed.

Lemma print_item_line i : item_ok i -> NL ∉ print_item i.
Proof.
  destruct i as [|text|name|key value]; cbn [item_ok print_item].
  - intros _. apply not_elem_of_nil.
  - intros [H _]. by apply not_elem_of_cons.
  - intros [[H _] _]. apply not_elem_of_cons. split; [done|]. rewrite elem_of_app. by intros [?|[?|[]%not_elem_of_nil]%elem_of_cons].
  - intros ([H _] & _ & _ & _ & [Hv _] & _). rewrite !elem_of_app. intros [?|[Hs|?]]; [done| |done].
    rewrite !elem_of_cons in Hs. destruct Hs as [?|[?|[?|[]%not_elem_of_nil]]]; done.
Qed.

Lemma read_print section line its : Forall item_ok its ->
  read_lines section line (ini_lines (print_items its)) = inl (item_entries section line its).
Proof.
  revert section line. induction its as [|i its IH]; intros section line Hok; [done|].
  apply Forall_cons in Hok as [Hi Hok]. unfold print_items. cbn [map mjoin list_join]. rewrite <-app_assoc. cbn [app].
  change (mjoin (map _ its)) with (print_items its). rewrite ini_lines_nl by (by apply print_item_line).
  rewrite classify_item by done. destruct i; cbn [item_entries]; rewrite IH by done; done.
Qed.


(** ** Numbers *)

Definition digit_char (d : Z) : Z := if d <? 10 then 48 + d else 97 + (d - 10).

(** The numeral of [v] in base [b]; [n] digits are enough. *)
Fixpoint numeral (n : nat) (b v : Z) : list Z :=
  match n with
  | O => []
  | S n => if v <? b then [digit_char v] else numeral n b (v / b) ++ [digit_char (v mod b)]
  end.

Definition print_dec (v : Z) : list Z := if v <? 0 then 45 :: numeral 64 10 (- v) else numeral 64 10 v.
Definition print_hex (v : Z) : list Z := [48; 120] ++ numeral 64 16 v.

Lemma digit_in_char b d : 0 <= d < b -> b <= 16 -> digit_in b (digit_char d) = Some d.
Proof.
  intros Hd Hb. unfold digit_in, digit, digit_char. destruct (Z.ltb_spec d 10).
  - rewrite !(proj2 (Z.leb_le _ _)) by lia. cbn. rewrite (proj2 (Z.ltb_lt _ _)) by lia. f_equal. lia.
  - rewrite (proj2 (Z.leb_gt (97 + (d - 10)) 57)) by lia. rewrite andb_false_r.
    rewrite (proj2 (Z.leb_gt (97 + (d - 10)) 90)) by lia. rewrite andb_false_r.
    rewrite !(proj2 (Z.leb_le _ _)) by lia. cbn. rewrite (proj2 (Z.ltb_lt _ _)) by lia. f_equal. lia.
Qed.

Lemma digits_app b t u acc k a j : digits b t acc k = (a, j) -> j = (k + length t)%nat -> digits b (t ++ u) acc k = digits b u a j.
Proof.
  revert acc k. induction t as [|c t IH]; intros acc k Hd Hj; cbn [app digits length] in *; [by injection Hd as <- <-|].
  destruct (digit_in b c); [apply IH; [done|lia]|]. injection Hd as _ <-. lia.
Qed.

Lemma digits_numeral b n v acc k : 2 <= b <= 16 -> 0 <= v < b ^ Z.of_nat n ->
  digits b (numeral n b v) acc k = (acc * b ^ Z.of_nat (length (numeral n b v)) + v, (k + length (numeral n b v))%nat).
Proof.
  intros Hb. revert v acc k. induction n as [|n IH]; intros v acc k Hv; [cbn in *; f_equal; lia|].
  cbn [numeral]. destruct (Z.ltb_spec v b).
  - cbn [digits length]. rewrite digit_in_char by lia. rewrite Z.pow_1_r. do 2 f_equal. lia.
  - pose proof (Z.div_mod v b ltac:(lia)). pose proof (Z.mod_pos_bound v b ltac:(lia)).
    assert (0 <= v / b < b ^ Z.of_nat n) as Hq.
    { split; [apply Z.div_pos; lia|]. apply Z.div_lt_upper_bound; [lia|].
      rewrite Nat2Z.inj_succ, Z.pow_succ_r in Hv by lia. lia. }
    erewrite digits_app; [|by apply IH|done]. cbn [digits]. rewrite digit_in_char by lia. rewrite length_app. cbn [length].
    rewrite Nat2Z.inj_add, Z.pow_add_r by lia. change (Z.of_nat 1) with 1. rewrite Z.pow_1_r. f_equal; [nia|lia].
Qed.

Lemma numeral_chars n b v : 2 <= b <= 16 -> 0 <= v < b ^ Z.of_nat n -> Forall (fun c => exists d, 0 <= d < b /\ c = digit_char d) (numeral n b v).
Proof.
  intros Hb. revert v. induction n as [|n IH]; intros v Hv; [constructor|]. cbn [numeral].
  destruct (Z.ltb_spec v b); [constructor; [exists v; split; [lia|done]|constructor]|].
  assert (0 <= v / b < b ^ Z.of_nat n) as Hq.
  { split; [apply Z.div_pos; lia|]. apply Z.div_lt_upper_bound; [lia|]. rewrite Nat2Z.inj_succ, Z.pow_succ_r in Hv by lia. lia. }
  apply Forall_app. split; [by apply IH|]. pose proof (Z.mod_pos_bound v b ltac:(lia)).
  constructor; [by eexists|constructor].
Qed.

(** The first digit of a numeral is not 0 unless the number is. *)
Lemma numeral_head n b v : 2 <= b <= 16 -> 0 < v < b ^ Z.of_nat n ->
  exists d t, numeral n b v = digit_char d :: t /\ 0 < d < b.
Proof.
  intros Hb. revert v. induction n as [|n IH]; intros v Hv; [cbn in Hv; lia|]. cbn [numeral].
  destruct (Z.ltb_spec v b); [exists v, []; split; [done|lia]|].
  destruct (IH (v / b)) as (d & t & -> & Hd); [|by exists d, (t ++ [digit_char (v mod b)])].
  split; [apply Z.div_str_pos; lia|]. apply Z.div_lt_upper_bound; [lia|]. rewrite Nat2Z.inj_succ, Z.pow_succ_r in Hv by lia. lia.
Qed.

Lemma numeral_cons n b v : 2 <= b <= 16 -> 0 <= v < b ^ Z.of_nat n -> (0 < n)%nat ->
  exists d t, numeral n b v = digit_char d :: t /\ 0 <= d < b.
Proof.
  intros Hb Hv Hn. pose proof (numeral_chars n b v Hb Hv) as Hc. destruct (numeral n b v) as [|c t] eqn:E.
  - destruct n as [|n]; [lia|]. cbn [numeral] in E. destruct (v <? b); [done|]. by apply app_nil in E as [_ ?].
  - apply Forall_cons in Hc as [(d & Hd & ->) _]. by exists d, t.
Qed.

Lemma digit_char_bounds d : 0 <= d < 16 -> 48 <= digit_char d <= 57 \/ 97 <= digit_char d <= 102.
Proof. unfold digit_char. destruct (Z.ltb_spec d 10); lia. Qed.

Lemma base_of_10 c t : c <> 48 -> base_of (c :: t) = (10, O).
Proof. intros H. unfold base_of. rewrite (proj2 (Z.eqb_neq _ _)) by done. by destruct t as [|? [|? ?]]. Qed.

Lemma leading_solid c t : 32 < c -> leading_spaces (c :: t) = O.
Proof.
  intros H. cbn. unfold c_isspace. rewrite (proj2 (Z.eqb_neq c 32)), (proj2 (Z.leb_gt c 13)) by lia. by rewrite andb_false_r.
Qed.

Lemma clamp v : LONG_MIN <= v <= LONG_MAX -> Z.max LONG_MIN (Z.min LONG_MAX v) = v.
Proof. lia. Qed.

Lemma digits_all n b v : 2 <= b <= 16 -> 0 <= v < b ^ Z.of_nat n -> digits b (numeral n b v) 0 0 = (v, length (numeral n b v)).
Proof. intros. by rewrite digits_numeral. Qed.

Lemma strtol_dec v : LONG_MIN <= v <= LONG_MAX -> strtol (print_dec v) = (v, length (print_dec v)).
Proof.
  intros Hv. assert (2 ^ 63 < 10 ^ 64) as Hbig by done.
  destruct (decide (v = 0)) as [->|Hz]; [done|]. unfold print_dec. set (a := Z.abs v).
  destruct (numeral_head 64 10 a) as (d & t & Et & Hd); [lia|unfold LONG_MIN, LONG_MAX in Hv; cbn [Z.of_nat]; change (10 ^ Z.of_nat 64) with (10 ^ 64); lia|].
  pose proof (digit_char_bounds d ltac:(lia)). assert (digit_char d <> 48) as Hd0.
  { unfold digit_char. destruct (Z.ltb_spec d 10); lia. }
  assert (digits 10 (numeral 64 10 a) 0 0 = (a, length (numeral 64 10 a))) as Edig.
  { apply digits_all; [lia|]. unfold LONG_MIN, LONG_MAX in Hv. change (10 ^ Z.of_nat 64) with (10 ^ 64). lia. }
  destruct (Z.ltb_spec v 0).
  - replace (- v) with a by lia. unfold strtol. rewrite leading_solid by done.
    change (sign_of (drop 0 (45 :: numeral 64 10 a))) with (true, 1%nat).
    cbn [Nat.add drop]. rewrite drop_0, Et in *. rewrite base_of_10 by done. cbn [Nat.add drop].
    rewrite Edig. cbn [length Nat.eqb]. rewrite clamp by lia. f_equal; lia.
  - replace v with a by lia. unfold strtol. rewrite Et in *. rewrite leading_solid by lia. cbn [drop sign_of].
    rewrite !(proj2 (Z.eqb_neq (digit_char d) _)) by lia. cbn [Nat.add drop]. rewrite base_of_10 by done. cbn [Nat.add drop].
    rewrite Edig. cbn [length Nat.eqb]. rewrite clamp by lia. done.
Qed.

Lemma strtol_hex v : 0 <= v <= LONG_MAX -> strtol (print_hex v) = (v, length (print_hex v)).
Proof.
  intros Hv. assert (2 ^ 63 < 16 ^ 64) as Hbig by done.
  assert (0 <= v < 16 ^ Z.of_nat 64) as Hv' by (unfold LONG_MAX in Hv; change (16 ^ Z.of_nat 64) with (16 ^ 64); lia).
  destruct (numeral_cons 64 16 v) as (d & t & Et & Hd); [lia|done|lia|].
  pose proof (digits_all 64 16 v ltac:(lia) Hv') as Edig.
  unfold print_hex, strtol. rewrite Et in *. cbn [app]. rewrite leading_solid by lia.
  change (sign_of (drop 0 (48 :: 120 :: digit_char d :: t))) with (false, O).
  assert (base_of (48 :: 120 :: digit_char d :: t) = (16, 2%nat)) as Eb.
  { unfold base_of. change (48 =? 48) with true. change (120 =? 120) with true. by rewrite digit_in_char by lia. }
  cbn [Nat.add drop]. rewrite Eb.
  cbn [Nat.add drop]. rewrite Edig. cbn [length Nat.eqb]. rewrite clamp by (unfold LONG_MIN; lia). done.
Qed.

Lemma print_dec_bytes v : LONG_MIN <= v <= LONG_MAX -> exists c t, print_dec v = c :: t /\ 33 <= c.
Proof.
  intros Hv. assert (2 ^ 63 < 10 ^ 64) as Hbig by done. unfold print_dec. destruct (v <? 0) eqn:E; [eexists _, _; split; [reflexivity|lia]|].
  apply Z.ltb_ge in E. destruct (numeral_cons 64 10 v) as (d & t & -> & Hd); [lia| |lia|].
  - unfold LONG_MAX in Hv. change (10 ^ Z.of_nat 64) with (10 ^ 64). lia.
  - pose proof (digit_char_bounds d ltac:(lia)). eexists _, _. split; [reflexivity|lia].
Qed.

(** A value that [strtol] reads to its end. *)
Lemma get_int_at fuel m cfg sp kp a c t v : inicfg_get fuel m cfg sp kp = Some a -> a <> 0 -> string_at m a (c :: t) ->
  33 <= c -> (S (length t) < fuel)%nat -> strtol (c :: t) = (v, S (length t)) ->
  inicfg_get_int fuel m cfg sp kp = Some (Some v).
Proof.
  intros Hg Ha Ht Hc Hf Hv. unfold inicfg_get_int. rewrite Hg. cbn [mbind option_bind].
  rewrite (proj2 (Z.eqb_neq a 0)) by done. assert (is_blank c = false) as Hb.
  { unfold is_blank, SPACE, TAB. rewrite !(proj2 (Z.eqb_neq c _)) by lia. done. }
  destruct (skip_blanks_at fuel m a (c :: t) Ht Hf) as [-> _]. cbn [trim_front]. rewrite Hb. cbn [mbind option_bind].
  replace (a + _ - _) with a by lia. rewrite (hd_zero _ _ _ Ht), (cstring_at _ _ _ _ Ht) by done. cbn [mbind option_bind].
  rewrite Hv. cbn [Nat.eqb]. assert (string_at m (a + Z.of_nat (S (length t))) []) as He.
  { apply (string_at_app m a (c :: t) []). by rewrite app_nil_r. }
  destruct (skip_blanks_at fuel m _ [] He ltac:(cbn; lia)) as [-> _]. cbn [mbind option_bind length trim_front].
  cbn in He. replace (_ + _ + Z.of_nat 0 - Z.of_nat 0) with (a + Z.of_nat (S (length t))) by lia. by rewrite He.
Qed.

(** Numbers survive the configuration.  A value that prints a number of the
    machine's [long] in decimal, or a number that is not negative in hexadecimal,
    is read back as that number. *)
Theorem inicfg_int_roundtrip fuel m cfg es k section key sp kp n t :
  Forall2 (reads_as m) (entries cfg) es -> Forall (short k) es -> (k < fuel)%nat ->
  string_at m sp section -> string_at m kp key -> sp <> 0 -> kp <> 0 -> (length section < fuel)%nat -> (length key < fuel)%nat ->
  ini_lookup es section key = Some t ->
  t = print_dec n /\ LONG_MIN <= n <= LONG_MAX \/ t = print_hex n /\ 0 <= n <= LONG_MAX ->
  inicfg_get_int fuel m cfg sp kp = Some (Some n).
Proof.
  intros He Hk Hkf Hs Hkey Hs0 Hk0 Hls Hlk Hlook Ht.
  destruct (get_from_at fuel m (entries cfg) es k section key sp kp) as (a & Hg & Ha); [done..|].
  rewrite Hlook in Ha. destruct Ha as [Ha Hat].
  assert (inicfg_get fuel m cfg sp kp = Some a) as Hget.
  { unfold inicfg_get. by rewrite (proj2 (Z.eqb_neq sp 0)), (proj2 (Z.eqb_neq kp 0)) by done. }
  assert (length t <= k)%nat as Hlt.
  { apply ini_lookup_spec in Hlook as (i & Hi & _ & _ & <-). rewrite Forall_forall in Hk. by destruct (Hk i Hi) as (_ & _ & ?). }
  assert (exists c t', t = c :: t' /\ 33 <= c /\ strtol t = (n, length t)) as (c & t' & -> & Hc & Hst).
  { destruct Ht as [[-> Hn]|[-> Hn]].
    - destruct (print_dec_bytes n Hn) as (c & t' & Et & Hc). exists c, t'. split_and!; [done|done|by apply strtol_dec].
    - eexists _, _. split_and!; [reflexivity|lia|by apply strtol_hex]. }
  eapply get_int_at; [exact Hget|done|exact Hat|done|cbn in Hlt; lia|exact Hst].
Qed.

(** ** Truth values *)

Lemma strieq_at fuel m a b s t : string_at m a s -> string_at m b t -> (length s < fuel)%nat ->
  strieq_ascii fuel m a b = Some (bool_decide (map lower s = map lower t)).
Proof.
  revert a b s t. induction fuel as [|fuel IH]; intros a b s t Hs Ht Hf; [lia|]. cbn [strieq_ascii].
  rewrite (hd_zero _ _ _ Hs), (hd_zero _ _ _ Ht). destruct s as [|c s], t as [|d t]; cbn [negb andb map]; [done..|].
  destruct Hs as (-> & _ & Hs), Ht as (-> & _ & Ht). destruct (Z.eqb_spec (lower c) (lower d)) as [->|Hne]; cbn [negb].
  - rewrite (IH _ _ s t) by (done || (cbn in Hf; lia)). f_equal. apply bool_decide_ext. split; [by intros ->|by intros [= ->]].
  - rewrite bool_decide_eq_false_2; [done|]. by intros [= ?].
Qed.

(** The words at the addresses of the literals. *)
Definition literals_at (m : mem) (l : literals) : Prop :=
  string_at m (l_true l) [116; 114; 117; 101] /\ string_at m (l_yes l) [121; 101; 115] /\ string_at m (l_on l) [111; 110] /\
  string_at m (l_1 l) [49] /\ string_at m (l_false l) [102; 97; 108; 115; 101] /\ string_at m (l_no l) [110; 111] /\
  string_at m (l_off l) [111; 102; 102] /\ string_at m (l_0 l) [48].

(** [true], [yes], [on] and [false], [no], [off] in either case; [1] and [0]. *)
Definition bool_of (t : list Z) : option bool :=
  let is_word w := bool_decide (map lower t = w) in
  if existsb is_word [[116; 114; 117; 101]; [121; 101; 115]; [111; 110]; [49]] then Some true
  else if existsb is_word [[102; 97; 108; 115; 101]; [110; 111]; [111; 102; 102]; [48]] then Some false
  else None.

Lemma lower_digit t c : 48 <= c <= 57 -> map lower t = [c] <-> t = [c].
Proof.
  intros Hc. destruct t as [|d [|e t]]; cbn; [done| |done]. unfold lower.
  destruct (Z.leb_spec 65 d), (Z.leb_spec d 90); cbn; split; intros [= ?]; f_equal; lia.
Qed.

Lemma any_word_at cmp (f : list Z -> bool) ws ts : Forall2 (fun w t => cmp w = Some (f t)) ws ts ->
  any_word cmp ws = Some (existsb f ts).
Proof.
  induction 1 as [|w t ws ts Hw _ IH]; [done|]. cbn. rewrite Hw. cbn. by destruct (f t).
Qed.

(** A truth value is read as its word says. *)
Theorem inicfg_bool_words lit fuel m cfg sp kp a t : inicfg_get fuel m cfg sp kp = Some a -> a <> 0 -> string_at m a t ->
  (length t < fuel)%nat -> (5 < fuel)%nat -> literals_at m lit ->
  inicfg_get_bool lit fuel m cfg sp kp = Some (bool_of t).
Proof.
  intros Hg Ha Ht Hf Hf5 (L1 & L2 & L3 & L4 & L5 & L6 & L7 & L8). unfold inicfg_get_bool. rewrite Hg. cbn [mbind option_bind].
  rewrite (proj2 (Z.eqb_neq a 0)) by done. set (f := fun w => bool_decide (map lower t = w)).
  pose proof (fun b w (L : string_at m b w) => strieq_at fuel m a b t w Ht L Hf) as Hcmp.
  rewrite (any_word_at _ f [l_true lit; l_yes lit; l_on lit] [[116; 114; 117; 101]; [121; 101; 115]; [111; 110]])
    by (apply Forall2_cons_2; [exact (Hcmp _ _ L1)|apply Forall2_cons_2; [exact (Hcmp _ _ L2)|
          apply Forall2_cons_2; [exact (Hcmp _ _ L3)|apply Forall2_nil_2]]]).
  cbn [mbind option_bind]. rewrite (streq_at _ _ _ _ _ _ Ht L4) by (done || (cbn; lia)).
  rewrite (any_word_at _ f [l_false lit; l_no lit; l_off lit] [[102; 97; 108; 115; 101]; [110; 111]; [111; 102; 102]])
    by (apply Forall2_cons_2; [exact (Hcmp _ _ L5)|apply Forall2_cons_2; [exact (Hcmp _ _ L6)|
          apply Forall2_cons_2; [exact (Hcmp _ _ L7)|apply Forall2_nil_2]]]).
  rewrite (streq_at _ _ _ _ _ _ Ht L8) by (done || (cbn; lia)). unfold bool_of, f. cbn [existsb mbind option_bind].
  rewrite <-(bool_decide_ext _ _ (lower_digit t 49 ltac:(lia))), <-(bool_decide_ext _ _ (lower_digit t 48 ltac:(lia))).
  repeat match goal with |- context [bool_decide ?P] => generalize (bool_decide P); intros [] end; done.
Qed.

(** ** Concrete runs *)

(** A text at 1000, the empty literal at 10, the arena at 5000. *)
Definition ini_mem (t : list Z) : mem := mem_write (mem_write (fun _ => 0) 1000 (t ++ [0])) 10 [0].

(** [a = 1], blank, comment, section [s], [b = 0x1F # n] with the comment stripped. *)
Definition demo_items : list ini_item :=
  [Item_entry [97] [49]; Item_blank; Item_comment [120]; Item_section [115]; Item_entry [98] [48; 120; 49; 102]].

Definition always (_ : Z) : bool := true.

Lemma demo_input : parse_input 100 (ini_mem (print_items demo_items)) 1000 10 5000 (print_items demo_items).
Proof. split; [vm_compute; tauto || (repeat split; discriminate)|done..|unfold rdisj; cbn; lia|cbn; lia|cbn; lia]. Qed.

Lemma demo_items_ok : Forall item_ok demo_items.
Proof.
  repeat (apply Forall_cons; split); try apply Forall_nil; try exact I;
    cbn; unfold line_bytes; repeat split; try done; rewrite ?not_elem_of_cons; repeat split; try done; apply not_elem_of_nil.
Qed.

Lemma inicfg_parse_refines_witness : exists m' cfg err ok,
  inicfg_parse_string always 100 (ini_mem (print_items demo_items)) 1000 10 5000 = Some (m', cfg, err, ok) /\ ok = true.
Proof.
  destruct (inicfg_parse_refines always 100 _ 1000 10 5000 _ demo_input ltac:(repeat constructor)) as (m' & cfg & err & ok & H & _ & Hok).
  exists m', cfg, err, ok. split; [done|]. destruct ok; [done|]. exfalso.
  destruct Hok as [_ [(line & msg & He & _)|[_ [n Hn]]]]; [vm_compute in He; discriminate He|discriminate Hn].
Defined.


(** A configuration with the section [s], the key [k] and the value [-42]. *)
Definition int_mem : mem := mem_write (fun _ => 0) 100 [115; 0; 107; 0; 45; 52; 50; 0].
Definition int_cfg : IniCfg := mkCfg [mkEntry 100 102 104 1] 1 100 8.

Lemma inicfg_int_roundtrip_witness : inicfg_get_int 50 int_mem int_cfg 100 102 = Some (Some (-42)).
Proof.
  apply (inicfg_int_roundtrip 50 int_mem int_cfg [mkIni [115] [107] (print_dec (-42)) 1] 5 [115] [107] 100 102 (-42) (print_dec (-42))).
  - apply Forall2_cons_2; [|apply Forall2_nil_2]. vm_compute. repeat split; discriminate.
  - apply Forall_cons. split; [unfold short; repeat split; apply Nat.leb_le; reflexivity|apply Forall_nil; exact I].
  - lia.
  - vm_compute. repeat split; discriminate.
  - vm_compute. repeat split; discriminate.
  - lia.
  - lia.
  - cbn. lia.
  - cbn. lia.
  - vm_compute. reflexivity.
  - left. split; [reflexivity|unfold LONG_MIN, LONG_MAX; lia].
Defined.

(** A leading zero makes a number octal. *)
Example octal_value : strtol [48; 49; 48] = (8, 3%nat).
Proof. reflexivity. Qed.

(** A number beyond [long] is read as the largest one. *)
Example huge_value : strtol (48 :: 120 :: repeat 102 17) = (LONG_MAX, 19%nat).
Proof. vm_compute. reflexivity. Qed.

(** A comment is stripped from a value, but not when the value is empty: in [x = # n],
    which the header gives as an empty value, the comment becomes the value. *)
Example comment_after_empty :
  classify [120; 32; 61; 32; 49; 32; 35; 32; 110] = Entry_line [120] [49] /\
  doc_line [120; 32; 61; 32; 35; 32; 110] = Entry_line [120] [] /\
  classify [120; 32; 61; 32; 35; 32; 110] = Entry_line [120] [35; 32; 110].
Proof. done. Qed.
